(* ===== verification/_CoqProject ===== *)
-Q . S2P
Prelude.v
Temporal.v
OctalTheory.v
Bytes.v
Floats.v
Crypto.v
Content.v
Cbor.v
CborTheory.v
CborDecode.v
CborProps.v
CborMap.v
Trust.v
TrustTheory.v
DataModel.v
CanonicalBody.v
BodyTheory.v
Envelope.v
Samples.v
ReducerTheory.v
EnvelopeTheory.v
Authorization.v
AuthorizationSamples.v
AuthorizationTheory.v
Replication.v
ReplicationTheory.v
Peer.v
PeerTheory.v
Pairing.v
PairingSamples.v
PairingTheory.v
InvitationTheory.v
Application.v
Database.v
Repository.v
RepositoryQueries.v
RepositoryLog.v
RepositorySteps.v
RepositoryTheory.v
RepositoryAdmission.v
RepositoryViews.v
RepositorySamples.v
RepositoryWitnesses.v
PairingStore.v
PairingStoreTheory.v
PairingSessions.v
SpaceBootstrap.v
PairingVault.v
NodePairing.v
NodeInvariant.v
PeerReads.v
NodePairingTheory.v
NodePairingWitnesses.v
ClientDatabase.v
ClientStore.v
ClientQueues.v
ClientQueries.v
ClientLogic.v
ClientInvariant.v
ClientTheory.v
ClientPulls.v
ClientWitnesses.v
ClientContent.v
ClientContentTheory.v
ClientContentWitnesses.v
SyncWorker.v
SyncTheory.v
SyncProgress.v
SyncWitnesses.v
NodeTransport.v
NodeTransportTheory.v
NodeTransportWitnesses.v
UploadRepository.v
UploadRepositoryTheory.v
BlobStore.v
BlobProtocol.v
BlobStoreRuns.v
BlobStoreTheory.v
BlobStoreProgress.v
BlobStoreWitnesses.v
