(* ===== verification/Prelude.v ===== *)
(** * Fractonica verification library

    ** The program

    Fractonica keeps personal records as signed operations in spaces that devices
    replicate.  A node admits an operation when its canonical bytes verify and a chain of
    capability grants leads from its actor to the genesis of the space; the history of an
    entity reduces to its causal heads; devices pair with a Noise handshake and receive a
    grant.  A client commits operations to its own database and queues them; its
    synchronization worker pushes them to nodes, pulls what the nodes admitted and moves
    media files, which a node takes as resumable uploads.  The crates under [src/crates]
    build on each other in this order, and so do the files here.

    ** The files

    - [Prelude], [Bytes], [Floats], [Crypto]: results and loops, byte and float encodings,
      and the cryptographic crates as classes ([Sha256], [Ed25519], [HalfFloat]).
    - temporal-core: [Temporal], [OctalTheory].
    - content: [Content].
    - trust: [Cbor], [CborTheory], [CborDecode], [CborProps], [CborMap] (deterministic
      CBOR), [Trust], [TrustTheory] (identities, payloads, COSE envelopes).
    - data-model: [DataModel], [CanonicalBody], [BodyTheory], [Envelope],
      [EnvelopeTheory], [ReducerTheory], with concrete values in [Samples].
    - application: [Authorization], [AuthorizationSamples], [AuthorizationTheory]
      (capability chains), [Application] (requests, the repository port as the class
      [OperationRepository], the service over it).
    - replication: [Replication], [ReplicationTheory] (the Merkle inventory).
    - peer: [Peer], [PeerTheory] (signed read requests).
    - pairing: [Pairing], [PairingSamples], [PairingTheory], [InvitationTheory].
    - store-sqlite: [Database] (the schema), [Repository], [RepositoryQueries]
      (signed_repository.rs, the instance of [OperationRepository]), [RepositoryLog],
      [RepositorySteps] (the log a database represents, reachable databases),
      [RepositoryTheory], [RepositoryAdmission], [RepositoryViews], with concrete
      databases in [RepositorySamples] and [RepositoryWitnesses]; [PairingStore],
      [PairingStoreTheory], [PairingSessions] (pairing_repository.rs).
    - keystore (identities) and space-bootstrap: [SpaceBootstrap].
    - the node's pairing: [PairingVault] (the vault of responder secrets as the class
      [PairingSecretVault], with the directory of keystore/src/pairing.rs as its instance),
      [NodePairing] (node/src/durable_pairing.rs: [DurablePairing], [NodePairingControl]),
      [NodeInvariant] (what every operation, request and crash keeps),
      [NodePairingTheory], with a run of the whole flow in [NodePairingWitnesses];
      [PeerReads] (a paired read among all the writes of the store).
    - client-sqlite: [ClientDatabase] (the schema, transactions), [ClientStore] (commits,
      workspaces, peers), [ClientQueues] (outbox leases, media transfers), [ClientQueries];
      [ClientLogic] and [ClientInvariant] (what every call keeps), [ClientPulls] (pulled
      pages), [ClientTheory], [ClientWitnesses].
    - client-content: [ClientContent] (media files: a store of inodes with open handles,
      hard links and failing calls), [ClientContentTheory], [ClientContentWitnesses].
    - sync: [SyncWorker] (the worker over the classes of its transports), [SyncTheory],
      [SyncProgress], [SyncWitnesses]; [NodeTransport] (NodeHttpTransport over the class
      [HttpClient]), [NodeTransportTheory], [NodeTransportWitnesses].
    - the node's uploads: [UploadRepository] (the port [ContentRepository] with its laws, and
      the tables of store-sqlite/src/lib.rs as an instance), [UploadRepositoryTheory];
      [BlobStore] (blob-store), [BlobProtocol] (the protocol its operations follow),
      [BlobStoreRuns] (that they do), [BlobStoreTheory], [BlobStoreProgress],
      [BlobStoreWitnesses].

    Definitions keep the names of the source.  A struct is a record, an enum an inductive
    type, [Result] is [result], [?] the notation [let?]; a machine integer is a [Z] whose
    checked and wrapping operations are written out; a string is its UTF-8 bytes and an
    identifier its bytes; a [BTreeMap] is a [gmap] or a list in key order, a table a list
    of rows in insertion order.  A transaction returns the database it commits, or the one
    it began with.  A panic ([expect], [unreachable!]) is [None].

    ** What the theorems show

    - Encodings: the CBOR encoder refines a reference encoder, the decoder accepts exactly
      its image, bodies, invitations and messages survive the wire, one COSE envelope per
      payload.
    - Signing and verifying: what [sign] accepts, what [verify] binds, for operations,
      peer requests, claims and invitations; the handshake of an issued invitation.
    - Reduction: the reducer returns the causal heads of a history, in any order.
    - Authorization: the evaluator accepts exactly the chains of grants that are live and
      wide enough; delegation only narrows; its visit bound is its termination.
    - The repository: every reachable database represents a log; stored entity state is
      the reduction of the log; admission needs authority; change pages deliver the log
      once; rebuilding the projections changes nothing; failed requests write nothing;
      deletion and replay; visibility never changes; a paired read is served once.  What
      reads a stored operation says also what happens when its JSON text does not read back.
    - Pairing sessions: the lifecycle graph, one winning claim until its workspace is
      deleted, what a completed session proves, the outcome of every transition.
    - Inventories: order independence, navigation, hash binding.
    - Phases: the bracketing eclipses, the exact phase and its octal projection.
    - The client: every sequence of calls keeps the database well formed; a commit is owed to
      every peer that receives it until the peer has it; a lease excludes other workers
      until it expires; a transfer counts the bytes of its resource.
    - Synchronization: a cycle refines the protocol of its queues; what is acknowledged
      arrived at the node; pulls leave no gap behind the cursor; a reachable peer is served,
      unless an operation of its batch does not read back; the backoff is bounded.
    - Media: a published file has the bytes its identity names, an import can be read back,
      requests start at the peer, leave it only by a redirection (the client keeps the default
      policy of reqwest, [NodeTransport.follow]) and show no other peer's secret; uploads send
      what they name; downloads of which something remains complete, others never publish.
    - Uploads: whatever fails and wherever the process ends, a declared content has an
      authentic file and acknowledged bytes stay; without failures a start completes the
      full uploads of a recoverable store (not every reachable store is one,
      [BlobStoreWitnesses.half_created_blocks_starts]), and an upload that does not expire
      resumes to its content.
    - The node: the vault has the secret of every session that is not over; only the code of
      the handshake completes a pairing; a transport credential has a live grant behind it;
      a revoked device stays out.
    Each property has a witness that applies it to concrete values.

    ** Bounds and fuel

    [Cbor.FUEL] exceeds the depth the codec checks; [Authorization.RESOLVE_FUEL] exceeds
    the visit bound ([AuthorizationTheory.resolve_fuel]); [Replication] recurses on the
    octal digits of a key ([ReplicationTheory.summarize_fuel]); binary searches carry the
    length of their slice; a reader of change pages needs one page per operation; the
    recovery of the blob store needs more rounds than there are sessions
    ([BlobStoreProgress.recovery_completes_uploads]).

    ** Assumptions

    The cryptographic classes state lengths, and that a signature verifies under the key
    that made it; collision resistance appears only as an explicit alternative
    (a collision exists) in the theorems that need it.  [RepositoryLog.json_exact] says that
    [serde_json] reads strings exactly and reads back the text of a verified envelope whose
    body has no metadata (genesis, grant, revocation, tombstone).  Nothing is assumed of the
    floating-point numbers of metadata, which it may read as a neighbour:
    [RepositoryLog.reads_back] says of one envelope that its text reads back.
    [NodeTransportTheory.redirects_drop_credentials] says that reqwest drops the
    authorization header on a redirection to another host or port.  SQLite executes the
    statements of the schema: constraints fail, the engine does not (I/O, busy, memory);
    the foreign keys that [defer_foreign_keys] postpones hold at the commit.  Connections
    are behind a mutex, so requests interleave as whole transactions.

    ** Not modelled

    Serde glue, [Display] texts of errors (an error carries what it prints), key
    zeroing and log output.  HTTP routing (api), process start (node main), the desktop and
    mobile shells, TypeScript applications and packages, generated glyph tables, and the
    filesystem hardening of the key store and of the databases: they are input/output
    around the components above.  client signs what the user writes and commits it;
    client-runtime starts and stops the worker and remembers the pairings the user began.
    The Saros catalogue, its maps and the glyph rasterizer only compute views.  Files lose no
    synchronized or unsynchronized data but by the calls modelled: a process may end
    anywhere, the machine does not.
*)
From stdpp Require Export base tactics list numbers gmap sorting.
From Stdlib Require Export ZArith Lia.
From Stdlib Require Ascii String.
Export (notations) Stdlib.Strings.String.

Declare Scope fractonica_scope.
Delimit Scope fractonica_scope with frac.
#[global] Open Scope Z_scope.

(** ** Results: Rust's [Result<A, E>], with the [?] operator as a notation. *)
Inductive result (E A : Type) : Type :=
| Ok (a : A)
| Err (e : E).
Arguments Ok {E A} a.
Arguments Err {E A} e.

Notation "'let?' x ':=' m 'in' k" :=
  (match m with Ok x => k | Err e => Err e end)
  (at level 10, x pattern, m at level 100, k at level 200) : fractonica_scope.
Notation "'check' m ';' k" :=
  (match m with Ok _ => k | Err e => Err e end)
  (at level 10, m at level 100, k at level 200) : fractonica_scope.
#[global] Open Scope fractonica_scope.

(** [Result::map_err], used where the source converts an error with [From]. *)
Definition map_err {E F A} (f : E -> F) (r : result E A) : result F A :=
  match r with Ok a => Ok a | Err e => Err (f e) end.

(** [Option::ok_or]. *)
Definition ok_or {E A} (o : option A) (e : E) : result E A :=
  match o with Some a => Ok a | None => Err e end.

Definition is_ok {E A} (r : result E A) : bool :=
  match r with Ok _ => true | Err _ => false end.

Lemma Ok_inj {E A} (a b : A) : @Ok E A a = Ok b -> a = b.
Proof. by intros [= ->]. Qed.

Section Loops.
Context {E A B : Type}.

(** [iter().map(f).collect::<Result<Vec<_>, _>>()]: stops at the first error. *)
Definition collect (f : A -> result E B) : list A -> result E (list B) :=
  fix collect l :=
    match l with
    | [] => Ok []
    | a :: l => let? b := f a in let? bs := collect l in Ok (b :: bs)
    end.

(** A [for] loop over a slice whose body only validates. *)
Definition for_each (f : A -> result E unit) : list A -> result E unit :=
  fix for_each l :=
    match l with
    | [] => Ok tt
    | a :: l => check f a; for_each l
    end.
End Loops.

(** ** Automation *)

(** Splits every [match] on a result or boolean that a hypothesis [_ = Ok _]
    needs to have succeeded. *)
Ltac inv_ok_step :=
  match goal with
  | H : match ?m with Ok _ => _ | Err _ => _ end = Ok _ |- _ =>
      let E := fresh "E" in destruct m eqn:E; [|discriminate H]
  | H : (if ?b then Err _ else _) = Ok _ |- _ =>
      let E := fresh "E" in destruct b eqn:E; [discriminate H|]
  | H : (if ?b then _ else Err _) = Ok _ |- _ =>
      let E := fresh "E" in destruct b eqn:E; [|discriminate H]
  | H : Ok _ = Ok _ |- _ => injection H as H; try subst
  | H : Err _ = Ok _ |- _ => discriminate H
  | H : map_err _ ?m = Ok _ |- _ =>
      let E := fresh "E" in destruct m eqn:E; cbn [map_err] in H; [|discriminate H]
  | H : ok_or ?m _ = Ok _ |- _ =>
      let E := fresh "E" in destruct m eqn:E; cbn [ok_or] in H; [|discriminate H]
  | u : unit |- _ => destruct u
  end.
Ltac inv_ok := repeat inv_ok_step.

(** Reads boolean guards as propositions. *)
Ltac bool_prop :=
  repeat match goal with
  | H : _ && _ = true |- _ => apply andb_true_iff in H as [? ?]
  | H : _ || _ = false |- _ => apply orb_false_iff in H as [? ?]
  | H : negb _ = true |- _ => apply negb_true_iff in H
  | H : negb _ = false |- _ => apply negb_false_iff in H
  | H : (_ <? _)%Z = true |- _ => apply Z.ltb_lt in H
  | H : (_ <? _)%Z = false |- _ => apply Z.ltb_ge in H
  | H : (_ <=? _)%Z = true |- _ => apply Z.leb_le in H
  | H : (_ <=? _)%Z = false |- _ => apply Z.leb_gt in H
  | H : (_ =? _)%Z = true |- _ => apply Z.eqb_eq in H
  | H : (_ =? _)%Z = false |- _ => apply Z.eqb_neq in H
  | H : (_ <? _)%nat = true |- _ => apply Nat.ltb_lt in H
  | H : (_ <? _)%nat = false |- _ => apply Nat.ltb_ge in H
  | H : (_ <=? _)%nat = true |- _ => apply Nat.leb_le in H
  | H : (_ <=? _)%nat = false |- _ => apply Nat.leb_gt in H
  | H : (_ =? _)%nat = true |- _ => apply Nat.eqb_eq in H
  | H : (_ =? _)%nat = false |- _ => apply Nat.eqb_neq in H
  | H : bool_decide _ = true |- _ => apply bool_decide_eq_true in H
  | H : bool_decide _ = false |- _ => apply bool_decide_eq_false in H
  end.

(** Decidable equality of an inductive type whose fields have it. *)
Ltac solve_eq_dec :=
  let x := fresh in let y := fresh in
  intros x y; unfold Decision; decide equality;
  lazymatch goal with |- sumbool ?P _ => change (Decision P) end; apply _.

(** ** Machine integers: [w]-bit values are [Z] with the wrap-around written out. *)
Definition wrap (w : Z) (z : Z) : Z := z mod 2 ^ w.

Definition in_u (w : Z) (z : Z) : Prop := 0 <= z < 2 ^ w.
Definition in_i (w : Z) (z : Z) : Prop := - 2 ^ (w - 1) <= z < 2 ^ (w - 1).

(** [i64::checked_sub] and [i64::checked_add]: [None] on overflow. *)
Definition checked_i64 (z : Z) : option Z :=
  if (- 2 ^ 63 <=? z) && (z <? 2 ^ 63) then Some z else None.

(** [T::checked_add] / [checked_mul] for an unsigned width. *)
Definition checked_u (w : Z) (z : Z) : option Z :=
  if (0 <=? z) && (z <? 2 ^ w) then Some z else None.

(** [u64::saturating_add] (for a nonnegative sum). *)
Definition sat_u (w : Z) (z : Z) : Z := Z.min z (2 ^ w - 1).

Lemma wrap_small w z : in_u w z -> wrap w z = z.
Proof. intros H. apply Z.mod_small, H. Qed.

Lemma wrap_range w z : 0 <= w -> in_u w (wrap w z).
Proof. intros Hw. apply Z.mod_pos_bound, Z.pow_pos_nonneg; lia. Qed.

Lemma checked_i64_Some z x : checked_i64 z = Some x <-> x = z /\ in_i 64 z.
Proof.
  unfold checked_i64, in_i. change (2 ^ (64 - 1)) with (2 ^ 63).
  destruct (Z.leb_spec (- 2 ^ 63) z), (Z.ltb_spec z (2 ^ 63)); cbn [andb];
    split; intros H'; simplify_eq; try lia; try (split; [done|lia]).
  by destruct H' as [-> _].
Qed.

Lemma checked_u_Some w z x : checked_u w z = Some x <-> x = z /\ in_u w z.
Proof.
  unfold checked_u, in_u.
  destruct (Z.leb_spec 0 z), (Z.ltb_spec z (2 ^ w)); cbn [andb];
    split; intros H'; simplify_eq; try lia; try (split; [done|lia]).
  by destruct H' as [-> _].
Qed.

(** Shift-and-or as arithmetic: [(p << k) | b] for a [k]-bit [b]. *)
Lemma lor_add p b k : 0 <= k -> 0 <= b < 2 ^ k -> Z.lor (p * 2 ^ k) b = p * 2 ^ k + b.
Proof.
  intros Hk Hb. rewrite <- Z.add_lor_land.
  enough (Z.land (p * 2 ^ k) b = 0) as -> by lia.
  apply Z.bits_inj'. intros n Hn. rewrite Z.land_spec, Z.bits_0.
  destruct (Z.ltb_spec n k).
  - by rewrite Z.mul_pow2_bits_low.
  - rewrite <- (Z.mod_small b (2 ^ k)), Z.mod_pow2_bits_high by lia. apply andb_false_r.
Qed.

Lemma shiftl_lor_add p b k : 0 <= k -> 0 <= b < 2 ^ k -> Z.lor (Z.shiftl p k) b = p * 2 ^ k + b.
Proof. intros. rewrite Z.shiftl_mul_pow2 by lia. by apply lor_add. Qed.

Lemma land_ones_mod a k : 0 <= k -> Z.land a (2 ^ k - 1) = a mod 2 ^ k.
Proof. intros. rewrite <- Z.land_ones, Z.ones_equiv by done. f_equal. Qed.

(** ** Byte strings.  A Rust [String] is the list of its UTF-8 bytes. *)
Definition str (s : String.string) : list Z :=
  List.map (fun c => Z.of_N (Ascii.N_of_ascii c)) (String.list_ascii_of_string s).

#[global] Arguments str : simpl never.

Definition is_byte (b : Z) : Prop := 0 <= b < 256.

Lemma str_bytes s : Forall is_byte (str s).
Proof.
  unfold str. apply Forall_forall. intros b Hb. apply list_elem_of_In, in_map_iff in Hb.
  destruct Hb as (c & <- & _). unfold is_byte. pose proof (Ascii.N_ascii_bounded c). lia.
Qed.

(** A Rust [[u8; n]]: the length is part of the type. *)
Definition fixed (n : nat) (b : list Z) : Prop := length b = n /\ Forall is_byte b.

#[export] Instance is_byte_dec b : Decision (is_byte b).
Proof. unfold is_byte. apply _. Defined.
#[export] Instance fixed_dec n b : Decision (fixed n b).
Proof. unfold fixed. apply _. Defined.

Definition list_eqb (a b : list Z) : bool := bool_decide (a = b).

Lemma list_eqb_eq a b : list_eqb a b = true <-> a = b.
Proof. apply bool_decide_eq_true. Qed.
Lemma list_eqb_neq a b : list_eqb a b = false <-> a <> b.
Proof. apply bool_decide_eq_false. Qed.

(** Lexicographic order of byte strings: Rust's [Ord] on slices, arrays and
    strings. *)
Fixpoint bytes_cmp (a b : list Z) : comparison :=
  match a, b with
  | [], [] => Eq
  | [], _ :: _ => Lt
  | _ :: _, [] => Gt
  | x :: a, y :: b => match Z.compare x y with Eq => bytes_cmp a b | c => c end
  end.

Definition bytes_lt (a b : list Z) : Prop := bytes_cmp a b = Lt.
Definition bytes_le (a b : list Z) : Prop := bytes_cmp a b <> Gt.
Definition bytes_ltb (a b : list Z) : bool :=
  match bytes_cmp a b with Lt => true | _ => false end.

Lemma bytes_cmp_refl a : bytes_cmp a a = Eq.
Proof. induction a as [|x a IH]; [done|]. cbn. by rewrite Z.compare_refl. Qed.

Lemma bytes_cmp_eq a b : bytes_cmp a b = Eq <-> a = b.
Proof.
  split; [|intros ->; apply bytes_cmp_refl].
  revert b. induction a as [|x a IH]; intros [|y b]; cbn; try done.
  destruct (Z.compare_spec x y); intros H'; try done. f_equal; auto.
Qed.

Lemma bytes_cmp_antisym a b : bytes_cmp b a = CompOpp (bytes_cmp a b).
Proof.
  revert b. induction a as [|x a IH]; intros [|y b]; cbn; try done.
  rewrite (Z.compare_antisym x y). destruct (Z.compare x y); cbn; auto.
Qed.

Lemma bytes_lt_trans a b c : bytes_lt a b -> bytes_lt b c -> bytes_lt a c.
Proof.
  unfold bytes_lt. revert b c.
  induction a as [|x a IH]; intros [|y b] [|z c]; cbn; try done.
  destruct (Z.compare_spec x y), (Z.compare_spec y z), (Z.compare_spec x z);
    subst; try lia; try done; intros; eauto.
Qed.

Lemma bytes_lt_irrefl a : ~ bytes_lt a a.
Proof. unfold bytes_lt. rewrite bytes_cmp_refl. done. Qed.

Lemma bytes_ltb_lt a b : bytes_ltb a b = true <-> bytes_lt a b.
Proof. unfold bytes_ltb, bytes_lt. destruct (bytes_cmp a b); done. Qed.

Lemma bytes_lt_trichotomy a b : bytes_lt a b \/ a = b \/ bytes_lt b a.
Proof.
  unfold bytes_lt. rewrite (bytes_cmp_antisym a b).
  destruct (bytes_cmp a b) eqn:E; auto. right; left. by apply bytes_cmp_eq.
Qed.

#[export] Instance bytes_lt_dec a b : Decision (bytes_lt a b).
Proof. unfold bytes_lt. solve_decision. Defined.
#[export] Instance bytes_le_dec a b : Decision (bytes_le a b).
Proof. unfold bytes_le. solve_decision. Defined.

Lemma bytes_le_lteq a b : bytes_le a b <-> bytes_lt a b \/ a = b.
Proof.
  unfold bytes_le, bytes_lt. rewrite <- bytes_cmp_eq. destruct (bytes_cmp a b); intuition done.
Qed.

#[export] Instance bytes_le_total : Total bytes_le.
Proof.
  intros a b. rewrite !bytes_le_lteq. destruct (bytes_lt_trichotomy a b) as [|[|]]; auto.
Qed.
#[export] Instance bytes_le_trans : Transitive bytes_le.
Proof.
  intros a b c. rewrite !bytes_le_lteq. intros [ |  ->] [ |  ->]; eauto using bytes_lt_trans.
Qed.
#[export] Instance bytes_le_antisymm : AntiSymm (=) bytes_le.
Proof.
  intros a b. rewrite !bytes_le_lteq. intros [H1 | ?] [H2 | ?]; auto.
  destruct (bytes_lt_irrefl a). eauto using bytes_lt_trans.
Qed.

(** ** Adjacent pairs: [slice.windows(2)]. *)
Fixpoint windows2 {A} (l : list A) : list (A * A) :=
  match l with
  | a :: (b :: _) as l' => (a, b) :: windows2 l'
  | _ => []
  end.

(** [windows(2).all(|p| f(p[0], p[1]))] *)
Definition windows_all {A} (f : A -> A -> bool) (l : list A) : bool :=
  forallb (fun p => f (fst p) (snd p)) (windows2 l).

Lemma windows_all_Sorted {A} (R : A -> A -> Prop) (f : A -> A -> bool) l :
  (forall a b, f a b = true <-> R a b) ->
  windows_all f l = true <-> Sorted.Sorted R l.
Proof.
  intros Hf. unfold windows_all. induction l as [|a l IH]; [cbn; split; auto|].
  destruct l as [|b l]; [cbn; split; auto|].
  cbn [windows2 forallb fst snd]. rewrite andb_true_iff, Hf, IH. split.
  - intros [Hab Hs]. constructor; auto.
  - intros Hs. inversion Hs as [|? ? Hs' Hh]; subst. inversion Hh; subst. auto.
Qed.

(** ** Lemmas on [collect] and [for_each] *)
Lemma collect_Ok {E A B} (f : A -> result E B) l bs :
  collect f l = Ok bs <-> Forall2 (fun a b => f a = Ok b) l bs.
Proof.
  revert bs. induction l as [|a l IH]; intros bs; cbn.
  - split; [intros [= <-]; constructor|inversion 1; done].
  - split.
    + intros H. inv_ok. constructor; auto. by apply IH.
    + inversion 1 as [|? b ? bs' Hb Hl]; subst. rewrite Hb.
      by rewrite (proj2 (IH bs') Hl).
Qed.

Lemma collect_map_ok {E A B C} (g : C -> A) (f : A -> result E B) (h : C -> B) l :
  (forall c, c ∈ l -> f (g c) = Ok (h c)) -> collect f (List.map g l) = Ok (List.map h l).
Proof.
  intros H. induction l as [|c l IH]; [done|]. cbn. rewrite H by (by left).
  rewrite IH; [done|]. intros c' Hc. apply H. by right.
Qed.

Lemma collect_elem {E A B} (f : A -> result E B) (l : list A) bs :
  collect f l = Ok bs -> forall b, b ∈ bs <-> exists a, a ∈ l /\ f a = Ok b.
Proof.
  revert bs. induction l as [|a l IH]; intros bs Hc b; cbn in Hc.
  - apply Ok_inj in Hc as <-. split; [by intros ?%not_elem_of_nil|by intros (? & ?%not_elem_of_nil & _)].
  - destruct (f a) as [b0|] eqn:Ea; [|done]. fold (collect f) in Hc. destruct (collect f l) as [bs'|] eqn:El; [|done].
    apply Ok_inj in Hc as <-. rewrite elem_of_cons, (IH bs' eq_refl). setoid_rewrite elem_of_cons. split.
    + intros [->|(a' & Hin & Hf)]; [by exists a; auto|exists a'; auto].
    + intros (a' & [->|Hin] & Hf); [left; congruence|right; by exists a'].
Qed.

Lemma collect_total {E A B} (f : A -> result E B) (l : list A) bs a :
  collect f l = Ok bs -> a ∈ l -> exists b, f a = Ok b.
Proof.
  revert bs. induction l as [|x l IH]; intros bs Hc Hin; cbn in Hc; [by apply not_elem_of_nil in Hin|].
  destruct (f x) as [b0|] eqn:Ea; [|done]. fold (collect f) in Hc. destruct (collect f l) as [bs'|] eqn:El; [|done].
  apply elem_of_cons in Hin as [->|Hin]; [by exists b0|by apply (IH bs')].
Qed.

Lemma for_each_Ok {E A} (f : A -> result E unit) l :
  for_each f l = Ok tt <-> forall a, a ∈ l -> f a = Ok tt.
Proof.
  induction l as [|a l IH]; cbn.
  - split; [|done]. intros _ b Hb. by apply not_elem_of_nil in Hb.
  - split.
    + intros H. inv_ok. intros b [->|Hb]%elem_of_cons; [done|]. by apply IH.
    + intros H. rewrite (H a) by (by left). apply IH. intros b Hb. apply H. by right.
Qed.

(** ** Sorting commutes with maps that respect the order *)
Section merge_sort_map.
Context {A B : Type} (R : relation A) (R' : relation B).
Context `{forall x y, Decision (R x y)} `{forall x y, Decision (R' x y)}.
Context (g : A -> B) (Hg : forall x y, R' (g x) (g y) <-> R x y).

Lemma list_merge_map l1 l2 :
  list_merge R' (List.map g l1) (List.map g l2) = List.map g (list_merge R l1 l2).
Proof.
  revert l2. induction l1 as [|x l1 IH1]; intros l2; [by destruct l2|].
  induction l2 as [|y l2 IH2]; [done|]. cbn.
  destruct (decide (R' (g x) (g y))) as [H1|H1], (decide (R x y)) as [H2|H2];
    try (by rewrite Hg in H1).
  - cbn. f_equal. exact (IH1 (y :: l2)).
  - cbn. f_equal. exact IH2.
Qed.

Lemma merge_list_to_stack_map st l :
  merge_list_to_stack R' (List.map (option_map (List.map g)) st) (List.map g l)
  = List.map (option_map (List.map g)) (merge_list_to_stack R st l).
Proof.
  revert l. induction st as [|[l'|] st IH]; intros l; cbn; try done.
  f_equal. by rewrite list_merge_map, IH.
Qed.

Lemma merge_stack_map st :
  merge_stack R' (List.map (option_map (List.map g)) st) = List.map g (merge_stack R st).
Proof. induction st as [|[l'|] st IH]; cbn; try done. by rewrite IH, list_merge_map. Qed.

Lemma merge_sort_map l : merge_sort R' (List.map g l) = List.map g (merge_sort R l).
Proof.
  unfold merge_sort. change (@nil (option (list B))) with (List.map (option_map (List.map g)) []).
  generalize (@nil (option (list A))). induction l as [|x l IH]; intros st; cbn.
  - apply merge_stack_map.
  - change [g x] with (List.map g [x]). by rewrite merge_list_to_stack_map, IH.
Qed.
End merge_sort_map.

(** ** Shared hint databases *)
Create HintDb fractonica discriminated.
#[export] Hint Resolve wrap_small wrap_range bytes_cmp_refl str_bytes : fractonica.
