(* ===== verification/Temporal.v ===== *)
(** * Temporal core: exact Saros phases (crates/fractonica-temporal-core/src/lib.rs)

    Phases are exact reduced rationals; their binary and octal expansions are
    produced by remainder arithmetic.  [u64]/[u128] values are [Z] with the
    wrap-around of each shift and addition written out; the theorems show it
    never happens on validated inputs. *)
From S2P Require Import Prelude.

(** ** Constants and errors *)
Definition RADIX : Z := 8.
Definition BITS_PER_OCTAL_DIGIT : Z := 3.
Definition PHASE_WORD_BITS : Z := 64.
Definition PHASE_WORD_OCTAL_DIGITS : Z := 21.
Definition REALTIME_PULSE_BITS : Z := 30.
Definition GLYPH_DIGITS : Z := 5.
Definition AVERAGE_SAROS_CYCLE_CENTISECONDS : Z := 56897174304.
Definition AVERAGE_SAROS_CYCLE_NANOSECONDS : Z := AVERAGE_SAROS_CYCLE_CENTISECONDS * 10000000.
Definition NANOSECONDS_PER_SECOND : Z := 1000000000.

Inductive TemporalError : Type :=
| InvalidBitPrecision (bits : Z)
| InvalidPhaseRatio
| InvalidDuration
| InvalidInterval
| InvalidNanosecond (nanosecond : Z)
| InstantOutsideInterval
| InvalidAddressLength (length : Z)
| InvalidAddressDigit (digit : Z)
| AddressOutOfRange
| BufferTooSmall
| TooFewEclipses
| UnsortedEclipses
| MixedSarosSeries
| OutsideSeriesCoverage.

(** ** Timestamps *)
Module Timestamp.
Record t : Type := mk { epoch_seconds : Z; nanosecond : Z }.

Definition new (epoch_seconds nanosecond : Z) : result TemporalError t :=
  if NANOSECONDS_PER_SECOND <=? nanosecond then Err (InvalidNanosecond nanosecond)
  else Ok (mk epoch_seconds nanosecond).

Definition from_epoch_seconds (epoch_seconds : Z) : t := mk epoch_seconds 0.

(** The derived [Ord]: lexicographic on the fields. *)
Definition ltb (a b : t) : bool :=
  (epoch_seconds a <? epoch_seconds b)
  || ((epoch_seconds a =? epoch_seconds b) && (nanosecond a <? nanosecond b)).

(** The type invariant: an [i64] second and a nanosecond below one second. *)
Definition wf (a : t) : Prop :=
  in_i 64 (epoch_seconds a) /\ 0 <= nanosecond a < NANOSECONDS_PER_SECOND.

Definition to_nanoseconds (a : t) : Z := epoch_seconds a * NANOSECONDS_PER_SECOND + nanosecond a.
End Timestamp.

(** ** Euclid's loop on [u128] *)
Fixpoint gcd_loop (fuel : nat) (left right : Z) : Z :=
  match fuel with
  | O => left
  | S fuel => if right =? 0 then left else gcd_loop fuel right (left mod right)
  end.

(** Two iterations halve [right], so this fuel is never exhausted
    ([greatest_common_divisor_spec]). *)
Definition gcd_fuel (right : Z) : nat := S (2 * S (Z.to_nat (Z.log2 right))).

Definition greatest_common_divisor (left right : Z) : Z :=
  gcd_loop (gcd_fuel right) left right.

(** ** Bit iteration *)
Module PhaseBitIter.
Record t : Type := mk { remainder : Z; denominator : Z }.

Definition next_bit (it : t) : Z * t :=
  let complement := wrap 128 (denominator it - remainder it) in
  if complement <=? remainder it then
    (1, mk (wrap 128 (remainder it - complement)) (denominator it))
  else (0, mk (wrap 128 (remainder it + remainder it)) (denominator it)).

(** [for _ in 0..n { prefix = (prefix << 1) | bit }] on a [u64]. *)
Fixpoint take_prefix (n : nat) (prefix : Z) (it : t) : Z * t :=
  match n with
  | O => (prefix, it)
  | S n => let '(bit, it') := next_bit it in
           take_prefix n (Z.lor (wrap 64 (Z.shiftl prefix 1)) bit) it'
  end.
End PhaseBitIter.

Module OctalDigitIter.
Definition next (it : PhaseBitIter.t) : Z * PhaseBitIter.t :=
  let '(high, it) := PhaseBitIter.next_bit it in
  let '(middle, it) := PhaseBitIter.next_bit it in
  let '(low, it) := PhaseBitIter.next_bit it in
  (Z.lor (Z.lor (Z.shiftl high 2) (Z.shiftl middle 1)) low, it).
End OctalDigitIter.

(** ** Validated projection widths *)
Module BitPrecision.
Record t : Type := mk { bits : Z }.

Definition new (bits : Z) : result TemporalError t :=
  if (1 <=? bits) && (bits <=? PHASE_WORD_BITS) then Ok (mk bits)
  else Err (InvalidBitPrecision bits).

Definition get (p : t) : Z := bits p.
Definition full_octal_digits (p : t) : Z := bits p / BITS_PER_OCTAL_DIGIT.
Definition trailing_bits (p : t) : Z := bits p mod BITS_PER_OCTAL_DIGIT.
Definition wf (p : t) : Prop := 1 <= bits p <= 64.
End BitPrecision.

Module PhaseBoundary.
Record t : Type := mk { numerator : Z; denominator : Z }.
Definition is_interval_end (b : t) : bool := numerator b =? denominator b.
End PhaseBoundary.

(** Writes [digit_at 0 .. digit_at (count-1)] as ASCII over the first [count]
    cells of [output], leaving the tail of the buffer as it was. *)
Definition write_ascii_digits (digit_at : Z -> option Z) (count : nat) (output : list Z) : list Z :=
  List.map (fun i => 48 + default 0 (digit_at (Z.of_nat i))) (seq 0 count) ++ drop count output.

Module PhaseProjection.
Record t : Type := mk { precision : BitPrecision.t; prefix : Z }.

Definition full_octal_digits (p : t) : Z := BitPrecision.full_octal_digits (precision p).
Definition trailing_bits (p : t) : Z := BitPrecision.trailing_bits (precision p).
Definition denominator (p : t) : Z := wrap 128 (Z.shiftl 1 (BitPrecision.get (precision p))).

Definition bit_msb (p : t) (index : Z) : option Z :=
  if BitPrecision.get (precision p) <=? index then None
  else Some (Z.land (Z.shiftr (prefix p) (BitPrecision.get (precision p) - index - 1)) 1).

Definition octal_digit_msb (p : t) (index : Z) : option Z :=
  if full_octal_digits p <=? index then None
  else
    let consumed_bits := (index + 1) * BITS_PER_OCTAL_DIGIT in
    let shift := BitPrecision.get (precision p) - consumed_bits in
    Some (Z.land (Z.shiftr (prefix p) shift) (RADIX - 1)).

Definition write_octal_ascii (p : t) (output : list Z) : result TemporalError (list Z) :=
  if Z.of_nat (length output) <? full_octal_digits p then Err BufferTooSmall
  else Ok (write_ascii_digits (octal_digit_msb p) (Z.to_nat (full_octal_digits p)) output).

Definition next_boundary (p : t) : PhaseBoundary.t :=
  PhaseBoundary.mk (prefix p + 1) (denominator p).
End PhaseProjection.

(** ** Exact phases *)
Module PhaseWord64.
Record t : Type := mk { raw : Z }.

Definition bit_msb (w : t) (index : Z) : option Z :=
  if PHASE_WORD_BITS <=? index then None
  else Some (Z.land (Z.shiftr (raw w) (PHASE_WORD_BITS - index - 1)) 1).

Definition project (w : t) (precision : BitPrecision.t) : PhaseProjection.t :=
  PhaseProjection.mk precision
    (Z.shiftr (raw w) (PHASE_WORD_BITS - BitPrecision.get precision)).

Definition octal_digit_msb (w : t) (index : Z) : option Z :=
  if PHASE_WORD_OCTAL_DIGITS <=? index then None
  else
    let consumed_bits := (index + 1) * BITS_PER_OCTAL_DIGIT in
    Some (Z.land (Z.shiftr (raw w) (PHASE_WORD_BITS - consumed_bits)) (RADIX - 1)).

Definition write_octal_ascii (w : t) (output : list Z) : result TemporalError (list Z) :=
  if PHASE_WORD_OCTAL_DIGITS <? Z.of_nat (length output)
  then Err (InvalidAddressLength (Z.of_nat (length output)))
  else Ok (write_ascii_digits (octal_digit_msb w) (length output) output).
End PhaseWord64.

Module PhaseRatio.
Record t : Type := mk { numerator : Z; denominator : Z }.

Definition from_valid_parts (numerator denominator : Z) : t :=
  let divisor := greatest_common_divisor numerator denominator in
  mk (numerator / divisor) (denominator / divisor).

Definition new (numerator denominator : Z) : result TemporalError t :=
  if (denominator =? 0) || (denominator <=? numerator) then Err InvalidPhaseRatio
  else Ok (from_valid_parts numerator denominator).

Definition zero : t := mk 0 1.

Definition bits (p : t) : PhaseBitIter.t := PhaseBitIter.mk (numerator p) (denominator p).

Definition project_with_remainder (p : t) (precision : BitPrecision.t) : PhaseProjection.t * t :=
  let '(prefix, it) :=
    PhaseBitIter.take_prefix (Z.to_nat (BitPrecision.get precision)) 0 (bits p) in
  (PhaseProjection.mk precision prefix,
   from_valid_parts (PhaseBitIter.remainder it) (PhaseBitIter.denominator it)).

Definition project (p : t) (precision : BitPrecision.t) : PhaseProjection.t :=
  fst (project_with_remainder p precision).

Definition word64 (p : t) : PhaseWord64.t :=
  PhaseWord64.mk (fst (PhaseBitIter.take_prefix (Z.to_nat PHASE_WORD_BITS) 0 (bits p))).

(** [for _ in 0..index { digits.next() }] *)
Fixpoint skip_digits (n : nat) (it : PhaseBitIter.t) : PhaseBitIter.t :=
  match n with O => it | S n => skip_digits n (snd (OctalDigitIter.next it)) end.

Definition octal_digit_msb (p : t) (index : nat) : Z :=
  fst (OctalDigitIter.next (skip_digits index (bits p))).

Fixpoint octal_ascii (n : nat) (it : PhaseBitIter.t) : list Z :=
  match n with
  | O => []
  | S n => let '(digit, it') := OctalDigitIter.next it in (48 + digit) :: octal_ascii n it'
  end.

(** Fills the whole of [output]. *)
Definition write_octal_ascii (p : t) (output : list Z) : list Z :=
  octal_ascii (length output) (bits p).

(** The type invariant: a [u128] fraction in lowest terms in [0, 1). *)
Definition wf (p : t) : Prop :=
  0 <= numerator p < denominator p /\ denominator p < 2 ^ 128
  /\ Z.gcd (numerator p) (denominator p) = 1.
End PhaseRatio.

(** ** Materialised octal addresses *)

(** [while index < exponent { result = result.checked_mul(8)? }] *)
Fixpoint checked_pow (w : Z) (n : nat) (acc : Z) : option Z :=
  match n with
  | O => Some acc
  | S n => match checked_u w (acc * RADIX) with Some v => checked_pow w n v | None => None end
  end.

Definition octal_power_u64 (exponent : Z) : option Z :=
  if (exponent =? 0) || (PHASE_WORD_OCTAL_DIGITS <? exponent) then None
  else checked_pow 64 (Z.to_nat exponent) 1.

Definition octal_power_u128 (exponent : Z) : option Z :=
  checked_pow 128 (Z.to_nat exponent) 1.

Module OctalAddress.
Record t : Type := mk { value : Z; digits : Z }.

Definition new (value digits : Z) : result TemporalError t :=
  let? bin_count := ok_or (octal_power_u64 digits) (InvalidAddressLength digits) in
  if bin_count <=? value then Err AddressOutOfRange else Ok (mk value digits).

Fixpoint parse_digits (digits : list Z) (value : Z) : result TemporalError Z :=
  match digits with
  | [] => Ok value
  | ascii :: rest =>
      if negb ((48 <=? ascii) && (ascii <=? 55)) then Err (InvalidAddressDigit ascii)
      else parse_digits rest
             (Z.lor (wrap 64 (Z.shiftl value BITS_PER_OCTAL_DIGIT)) (ascii - 48))
  end.

Definition from_octal_ascii (digits : list Z) : result TemporalError t :=
  let len := Z.of_nat (length digits) in
  if (len =? 0) || (PHASE_WORD_OCTAL_DIGITS <? len) then Err (InvalidAddressLength len)
  else let? value := parse_digits digits 0 in new value (wrap 8 len).

Definition from_projection (projection : PhaseProjection.t) : result TemporalError t :=
  let digits := PhaseProjection.full_octal_digits projection in
  if digits =? 0 then Err (InvalidAddressLength 0)
  else
    let value := Z.shiftr (PhaseProjection.prefix projection)
                   (PhaseProjection.trailing_bits projection) in
    new value (wrap 8 digits).

Definition digit_msb (a : t) (index : Z) : option Z :=
  if digits a <=? index then None
  else
    let shift := (digits a - index - 1) * BITS_PER_OCTAL_DIGIT in
    Some (Z.land (Z.shiftr (value a) shift) (RADIX - 1)).

Definition write_ascii (a : t) (output : list Z) : result TemporalError (list Z) :=
  if Z.of_nat (length output) <? digits a then Err BufferTooSmall
  else Ok (write_ascii_digits (digit_msb a) (Z.to_nat (digits a)) output).

(** The type invariant established by [new]. *)
Definition wf (a : t) : Prop := 1 <= digits a <= 21 /\ 0 <= value a < 8 ^ digits a.

(** All digits, MSB first. *)
Definition all_digits (a : t) : list Z :=
  List.map (fun i => default 0 (digit_msb a (Z.of_nat i))) (seq 0 (Z.to_nat (digits a))).
End OctalAddress.

(** ** Rarity *)
Inductive RarityFamily : Type := Common | Triplex | Duplex | Simplex | Nihil.

Definition wildcard_prefix (f : RarityFamily) : option Z :=
  match f with
  | Common => None
  | Triplex => Some 3
  | Duplex => Some 2
  | Simplex => Some 1
  | Nihil => Some 0
  end.

Module Rarity.
Record t : Type := mk { family : RarityFamily; digit : Z }.
End Rarity.

Definition omega_nihil : Rarity.t := Rarity.mk Nihil 7.

Definition rarity_from_suffix (wildcard_prefix repeated_digit : Z) : Rarity.t :=
  let family :=
    match wildcard_prefix with
    | 3 => Triplex
    | 2 => Duplex
    | 1 => Simplex
    | 0 => Nihil
    | _ => Common
    end in
  Rarity.mk family (match family with Common => 0 | _ => repeated_digit end).

(** The suffix-counting loop; it runs at most [digits] times, so the remaining
    iterations are the fuel. *)
Fixpoint suffix_loop (budget : nat) (remaining repeated_digit : Z) : Z :=
  match budget with
  | O => 0
  | S budget =>
      if remaining mod RADIX =? repeated_digit
      then 1 + suffix_loop budget (remaining / RADIX) repeated_digit
      else 0
  end.

Definition classify_rarity (address : OctalAddress.t) : Rarity.t :=
  let value := OctalAddress.value address in
  let digits := OctalAddress.digits address in
  if value =? 0 then omega_nihil
  else
    let adjusted := if value mod RADIX =? 0 then value - 1 else value in
    let repeated_digit := adjusted mod RADIX in
    rarity_from_suffix
      (digits - suffix_loop (Z.to_nat digits) adjusted repeated_digit) repeated_digit.

(** [iter().rposition(|d| *d != 0)] *)
Fixpoint rposition_nonzero (digits : list Z) : option nat :=
  match digits with
  | [] => None
  | d :: rest =>
      match rposition_nonzero rest with
      | Some i => Some (S i)
      | None => if d =? 0 then None else Some O
      end
  end.

Definition adjusted_digit (decrement_index : option nat) (index : nat) (digit : Z) : Z :=
  match decrement_index with
  | Some decrement =>
      if (decrement <? index)%nat then RADIX - 1
      else if (index =? decrement)%nat then digit - 1
      else digit
  | None => digit
  end.

(** [for index in (0..len).rev() { if adjusted != repeated { break } ... }],
    over the adjusted digits listed from the last one. *)
Fixpoint leading_run (repeated_digit : Z) (digits : list Z) : Z :=
  match digits with
  | [] => 0
  | d :: rest => if d =? repeated_digit then 1 + leading_run repeated_digit rest else 0
  end.

Definition adjusted_digits (decrement_index : option nat) (digits : list Z) : list Z :=
  imap (adjusted_digit decrement_index) digits.

(** First digit not below the radix, in order. *)
Fixpoint check_digits (digits : list Z) : result TemporalError unit :=
  match digits with
  | [] => Ok tt
  | d :: rest => if RADIX <=? d then Err (InvalidAddressDigit d) else check_digits rest
  end.

Definition classify_rarity_digits (digits : list Z) : result TemporalError Rarity.t :=
  match last digits with
  | None => Err (InvalidAddressLength 0)
  | Some last_digit =>
      check check_digits digits;
      if forallb (Z.eqb 0) digits then Ok omega_nihil
      else
        let decrement_index := if last_digit =? 0 then rposition_nonzero digits else None in
        let repeated_digit := match decrement_index with
                              | Some _ => RADIX - 1
                              | None => last_digit
                              end in
        let suffix_length :=
          leading_run repeated_digit (reverse (adjusted_digits decrement_index digits)) in
        Ok (rarity_from_suffix (Z.of_nat (length digits) - suffix_length) repeated_digit)
  end.

Definition repdigit_stride (family : RarityFamily) (digits : Z) : option Z :=
  match wildcard_prefix family with
  | None => None
  | Some wildcard => if digits <=? wildcard then None else octal_power_u128 (digits - wildcard)
  end.

Definition repdigit_offset (family : RarityFamily) (digit digits : Z) : option Z :=
  if negb ((1 <=? digit) && (digit <=? 7)) then None
  else match repdigit_stride family digits with
       | None => None
       | Some stride => Some (digit * ((stride - 1) / 7))
       end.

(** ** Eclipse intervals *)
Module EclipsePoint.
Record t : Type :=
  mk { index : Z; epoch_seconds : Z; saros : Z; sequence : Z; type_code : Z }.
#[global] Instance t_inhabited : Inhabited t := populate (mk 0 0 0 0 0).
End EclipsePoint.

Module Interval.
Record t : Type := mk { saros : Z; previous : EclipsePoint.t; next : EclipsePoint.t }.

Definition validate (i : t) : result TemporalError unit :=
  if negb (EclipsePoint.saros (previous i) =? saros i)
     || negb (EclipsePoint.saros (next i) =? saros i)
  then Err MixedSarosSeries
  else if EclipsePoint.epoch_seconds (next i) <=? EclipsePoint.epoch_seconds (previous i)
  then Err InvalidInterval
  else Ok tt.

Definition phase_at (i : t) (at_ : Timestamp.t) : result TemporalError PhaseRatio.t :=
  check validate i;
  let previous_ts := Timestamp.from_epoch_seconds (EclipsePoint.epoch_seconds (previous i)) in
  let next_ts := Timestamp.from_epoch_seconds (EclipsePoint.epoch_seconds (next i)) in
  if Timestamp.ltb at_ previous_ts || negb (Timestamp.ltb at_ next_ts)
  then Err InstantOutsideInterval
  else
    let elapsed_seconds := Timestamp.epoch_seconds at_ - Timestamp.epoch_seconds previous_ts in
    let total_seconds := Timestamp.epoch_seconds next_ts - Timestamp.epoch_seconds previous_ts in
    let elapsed_nanoseconds :=
      wrap 128 (wrap 128 (wrap 128 elapsed_seconds * NANOSECONDS_PER_SECOND)
                + Timestamp.nanosecond at_) in
    let total_nanoseconds := wrap 128 (wrap 128 total_seconds * NANOSECONDS_PER_SECOND) in
    PhaseRatio.new elapsed_nanoseconds total_nanoseconds.

(** Both eclipse points carry [i64] seconds. *)
Definition wf (i : t) : Prop :=
  in_i 64 (EclipsePoint.epoch_seconds (previous i))
  /\ in_i 64 (EclipsePoint.epoch_seconds (next i)).
End Interval.

Module ClockReading.
Record t : Type := mk {
  phase : PhaseRatio.t;
  word : PhaseWord64.t;
  projection : PhaseProjection.t;
  progress_within_projection : PhaseRatio.t;
  next_flip : PhaseBoundary.t
}.

(** The record both [clock_reading] and [pulse_from_phase] build from a phase. *)
Definition of_phase (phase : PhaseRatio.t) (precision : BitPrecision.t) : t :=
  let word := PhaseRatio.word64 phase in
  let '(projection, progress) := PhaseRatio.project_with_remainder phase precision in
  mk phase word projection progress (PhaseProjection.next_boundary projection).
End ClockReading.

Definition clock_reading (interval : Interval.t) (at_ : Timestamp.t) (precision : BitPrecision.t) :
    result TemporalError ClockReading.t :=
  let? phase := Interval.phase_at interval at_ in
  Ok (ClockReading.of_phase phase precision).

Module PulseAddress10.
Record t : Type := mk { most_significant : list Z; least_significant : list Z }.
End PulseAddress10.

Module PulseReading10.
Record t : Type := mk { clock : ClockReading.t; glyphs : PulseAddress10.t }.
End PulseReading10.

Definition pulse_from_phase (phase : PhaseRatio.t) : PulseReading10.t :=
  let clock := ClockReading.of_phase phase (BitPrecision.mk REALTIME_PULSE_BITS) in
  let digit (i : nat) :=
    default 0 (PhaseProjection.octal_digit_msb (ClockReading.projection clock) (Z.of_nat i)) in
  PulseReading10.mk clock
    (PulseAddress10.mk
       (List.map digit (seq 0 (Z.to_nat GLYPH_DIGITS)))
       (List.map (fun i => digit (i + Z.to_nat GLYPH_DIGITS)%nat)
          (seq 0 (Z.to_nat GLYPH_DIGITS)))).

Definition pulse_reading_10 (interval : Interval.t) (at_ : Timestamp.t) :
    result TemporalError PulseReading10.t :=
  let? phase := Interval.phase_at interval at_ in Ok (pulse_from_phase phase).

(** ** Bracketing an instant in a series *)
Fixpoint check_windows (saros : Z) (pairs : list (EclipsePoint.t * EclipsePoint.t)) :
    result TemporalError unit :=
  match pairs with
  | [] => Ok tt
  | (a, b) :: rest =>
      if negb (EclipsePoint.saros a =? saros) || negb (EclipsePoint.saros b =? saros)
      then Err MixedSarosSeries
      else if EclipsePoint.epoch_seconds b <=? EclipsePoint.epoch_seconds a
      then Err UnsortedEclipses
      else check_windows saros rest
  end.

(** The binary search; each iteration at least halves [high - low], and the
    slice length is fuel enough ([series_bracket_ok]). *)
Fixpoint bracket_search (fuel : nat) (eclipses : list EclipsePoint.t) (at_ : Z) (low high : nat) :
    nat :=
  match fuel with
  | O => low
  | S fuel =>
      if (low <? high)%nat then
        let middle := (low + (high - low) / 2)%nat in
        if EclipsePoint.epoch_seconds (eclipses !!! middle) <=? at_
        then bracket_search fuel eclipses at_ (middle + 1)%nat high
        else bracket_search fuel eclipses at_ low middle
      else low
  end.

Definition series_bracket (eclipses : list EclipsePoint.t) (at_epoch_seconds : Z) :
    result TemporalError Interval.t :=
  if (length eclipses <? 2)%nat then Err TooFewEclipses
  else
    let saros := EclipsePoint.saros (eclipses !!! 0%nat) in
    check check_windows saros (windows2 eclipses);
    let last_index := (length eclipses - 1)%nat in
    if (at_epoch_seconds <? EclipsePoint.epoch_seconds (eclipses !!! 0%nat))
       || (EclipsePoint.epoch_seconds (eclipses !!! last_index) <=? at_epoch_seconds)
    then Err OutsideSeriesCoverage
    else
      let low := bracket_search (length eclipses) eclipses at_epoch_seconds 1 last_index in
      Ok (Interval.mk saros (eclipses !!! (low - 1)%nat) (eclipses !!! low)).

(** ** Average periods *)
Inductive TemporalPeriod : Type := Tera | Giga | Mega | Kilo | Saros | Mili | Nano.

Definition exponent (p : TemporalPeriod) : Z :=
  match p with
  | Tera => 3 | Giga => 4 | Mega => 5 | Kilo => 6 | Saros => 7 | Mili => 8 | Nano => 9
  end.

Module RationalDuration.
Record t : Type := mk { numerator_nanoseconds : Z; denominator : Z }.

Definition from_nonzero_parts (numerator_nanoseconds denominator : Z) : t :=
  let divisor := greatest_common_divisor numerator_nanoseconds denominator in
  mk (numerator_nanoseconds / divisor) (denominator / divisor).

Definition new (numerator_nanoseconds denominator : Z) : result TemporalError t :=
  if denominator =? 0 then Err InvalidDuration
  else Ok (from_nonzero_parts numerator_nanoseconds denominator).

Definition floor_nanoseconds (d : t) : Z := numerator_nanoseconds d / denominator d.
End RationalDuration.

Definition average_duration (p : TemporalPeriod) : RationalDuration.t :=
  RationalDuration.from_nonzero_parts AVERAGE_SAROS_CYCLE_NANOSECONDS
    (default 1 (octal_power_u128 (exponent p))).

(** ** Lemmas: Euclid's loop *)
Lemma gcd_loop_spec n : forall left right,
  0 <= left -> 0 <= right < 2 ^ Z.of_nat n ->
  gcd_loop (S (2 * n)) left right = Z.gcd left right.
Proof.
  induction n as [|n IH]; intros l r Hl Hr.
  - assert (r = 0) as -> by (cbn in Hr; lia). cbn. rewrite Z.gcd_0_r. lia.
  - replace (S (2 * S n)) with (S (S (S (2 * n)))) by lia. remember (S (2 * n)) as k.
    cbn [gcd_loop]. destruct (Z.eqb_spec r 0) as [->|Hr0]; [rewrite Z.gcd_0_r; lia|].
    pose proof (Z.mod_pos_bound l r ltac:(lia)) as Hm.
    rewrite <- (Z.gcd_mod_l l r), (Z.gcd_comm (l mod r)).
    destruct (Z.eqb_spec (l mod r) 0) as [Hz|Hz]; [rewrite Hz, Z.gcd_0_r; lia|].
    subst k. rewrite IH.
    + rewrite Z.gcd_mod_r, Z.gcd_comm || rewrite (Z.gcd_comm _ (r mod _)), Z.gcd_mod_l. done.
    + lia.
    + pose proof (Z.mod_pos_bound r (l mod r) ltac:(lia)) as Hm2.
      pose proof (Z.div_mod r (l mod r) Hz) as Hd.
      assert (1 <= r / (l mod r)) by (apply Z.div_le_lower_bound; lia).
      rewrite Nat2Z.inj_succ, Z.pow_succ_r in Hr by lia. nia.
Qed.

Lemma gcd_spec left right :
  0 <= left -> 0 <= right -> greatest_common_divisor left right = Z.gcd left right.
Proof.
  intros Hl Hr. unfold greatest_common_divisor, gcd_fuel. apply gcd_loop_spec; [done|].
  rewrite Nat2Z.inj_succ, Z2Nat.id by apply Z.log2_nonneg. split; [done|].
  destruct (Z.eq_dec right 0) as [->|Hn]; [done|].
  apply Z.log2_spec. lia.
Qed.

(** ** Lemmas: reduced fractions *)
Lemma from_valid_parts_spec n d :
  0 <= n < d -> d < 2 ^ 128 ->
  let p := PhaseRatio.from_valid_parts n d in
  PhaseRatio.wf p /\ PhaseRatio.numerator p * d = n * PhaseRatio.denominator p.
Proof.
  intros Hn Hd p. subst p. unfold PhaseRatio.from_valid_parts, PhaseRatio.wf.
  rewrite gcd_spec by lia. cbn [PhaseRatio.numerator PhaseRatio.denominator]. set (g := Z.gcd n d).
  assert (Hg : 0 < g).
  { pose proof (Z.gcd_nonneg n d). destruct (Z.eq_dec g 0) as [E|]; [|lia].
    apply Z.gcd_eq_0_r in E. lia. }
  destruct (Z.gcd_divide_l n d) as [a Ha], (Z.gcd_divide_r n d) as [b Hb]. fold g in Ha, Hb.
  assert (n / g = a) as -> by (rewrite Ha; apply Z.div_mul; lia).
  assert (d / g = b) as -> by (rewrite Hb; apply Z.div_mul; lia).
  assert (Hab : Z.gcd a b * g = g).
  { rewrite <- Z.gcd_mul_mono_r_nonneg, <- Ha, <- Hb by lia. done. }
  repeat split; nia.
Qed.

(** ** Lemmas: bit iteration *)
Lemma next_bit_spec r d :
  0 <= r < d -> d < 2 ^ 128 ->
  PhaseBitIter.next_bit (PhaseBitIter.mk r d)
  = (2 * r / d, PhaseBitIter.mk (2 * r mod d) d).
Proof.
  intros Hr Hd. unfold PhaseBitIter.next_bit. cbn [PhaseBitIter.remainder PhaseBitIter.denominator].
  rewrite (wrap_small 128 (d - r)) by (unfold in_u; lia).
  destruct (Z.leb_spec (d - r) r).
  - rewrite wrap_small by (unfold in_u; lia).
    rewrite <- (Z.div_unique (2 * r) d 1 (2 * r - d)) by lia.
    rewrite <- (Z.mod_unique (2 * r) d 1 (2 * r - d)) by lia. do 2 f_equal. lia.
  - rewrite wrap_small by (unfold in_u; lia).
    rewrite Z.div_small, Z.mod_small by lia. do 2 f_equal. lia.
Qed.

Lemma two_step_expand r d k :
  0 < d -> 0 <= k ->
  2 * r / d * 2 ^ k + (2 ^ k * (2 * r mod d)) / d = (2 ^ (k + 1) * r) / d
  /\ (2 ^ k * (2 * r mod d)) mod d = (2 ^ (k + 1) * r) mod d.
Proof.
  intros Hd Hk. pose proof (Z.div_mod (2 * r) d ltac:(lia)) as E.
  assert (E2 : 2 ^ (k + 1) * r = (2 * r / d * 2 ^ k) * d + 2 ^ k * (2 * r mod d)).
  { rewrite Z.pow_add_r by lia. change (2 ^ 1) with 2. nia. }
  rewrite E2. split; [by rewrite Z.div_add_l by lia|].
  rewrite Z.add_comm, Z.mod_add by lia. done.
Qed.

(** The accumulated prefix is [floor(r * 2^n / d)] appended to the bits already
    read, and nothing is lost to the [u64] shift while it fits. *)
Lemma take_prefix_spec n : forall prefix r d,
  0 <= r < d -> d < 2 ^ 128 -> 0 <= prefix -> (prefix + 1) * 2 ^ Z.of_nat n <= 2 ^ 64 ->
  PhaseBitIter.take_prefix n prefix (PhaseBitIter.mk r d)
  = (prefix * 2 ^ Z.of_nat n + (2 ^ Z.of_nat n * r) / d,
     PhaseBitIter.mk ((2 ^ Z.of_nat n * r) mod d) d).
Proof.
  induction n as [|n IH]; intros prefix r d Hr Hd Hp Hn.
  - cbn [PhaseBitIter.take_prefix]. change (2 ^ Z.of_nat 0) with 1.
    rewrite !Z.mul_1_l, Z.div_small, Z.mod_small by lia. f_equal. lia.
  - cbn [PhaseBitIter.take_prefix]. rewrite next_bit_spec by done.
    rewrite Nat2Z.inj_succ, Z.pow_succ_r in Hn by lia.
    assert (Hk : 0 < 2 ^ Z.of_nat n) by lia.
    assert (Hb : 0 <= 2 * r / d < 2).
    { split; [apply Z.div_pos; lia|apply Z.div_lt_upper_bound; lia]. }
    rewrite Z.shiftl_mul_pow2 by lia. change (2 ^ 1) with 2.
    rewrite wrap_small by (unfold in_u; nia).
    replace (prefix * 2) with (prefix * 2 ^ 1) by lia.
    rewrite lor_add by (cbn; lia). change (2 ^ 1) with 2.
    rewrite IH by (try (apply Z.mod_pos_bound; lia); nia).
    destruct (two_step_expand r d (Z.of_nat n)) as [E1 E2]; [lia..|].
    rewrite E2, Nat2Z.inj_succ. rewrite <- Z.add_1_r, <- E1.
    f_equal. rewrite Z.pow_add_r by lia. change (2 ^ 1) with 2. lia.
Qed.

(** ** Theorems: projections *)

(** The octal iterator reads [floor(8 r / d)] and keeps the exact remainder. *)
Lemma octal_next_spec r d :
  0 <= r < d -> d < 2 ^ 128 ->
  OctalDigitIter.next (PhaseBitIter.mk r d) = (8 * r / d, PhaseBitIter.mk (8 * r mod d) d).
Proof.
  intros Hr Hd.
  pose proof (take_prefix_spec 3 0 r d Hr Hd ltac:(lia) ltac:(lia)) as H.
  change (2 ^ Z.of_nat 3) with 8 in H. rewrite Z.mul_0_l, Z.add_0_l in H. rewrite <- H. clear H.
  unfold OctalDigitIter.next. cbn [PhaseBitIter.take_prefix].
  repeat (rewrite next_bit_spec by (try apply Z.mod_pos_bound; lia)).
  set (a := 2 * r / d). set (r1 := 2 * r mod d). set (b := 2 * r1 / d). set (r2 := 2 * r1 mod d).
  assert (Hb : forall x, 0 <= x < d -> 0 <= 2 * x / d < 2).
  { intros x Hx. split; [apply Z.div_pos; lia|apply Z.div_lt_upper_bound; lia]. }
  assert (0 <= r1 < d) by (apply Z.mod_pos_bound; lia).
  assert (0 <= r2 < d) by (apply Z.mod_pos_bound; lia).
  pose proof (Hb r Hr). pose proof (Hb r1 ltac:(done)). pose proof (Hb r2 ltac:(done)).
  assert (0 <= a < 2) by done. assert (0 <= b < 2) by done.
  set (c := 2 * r2 / d) in *. clearbody a b c.
  assert (a = 0 \/ a = 1) as [-> | ->] by lia;
    assert (b = 0 \/ b = 1) as [-> | ->] by lia;
    assert (c = 0 \/ c = 1) as [-> | ->] by lia; done.
Qed.

Lemma skip_digits_spec n r d :
  0 <= r < d -> d < 2 ^ 128 ->
  PhaseRatio.skip_digits n (PhaseBitIter.mk r d)
  = PhaseBitIter.mk ((8 ^ Z.of_nat n * r) mod d) d.
Proof.
  revert r. induction n as [|n IH]; intros r Hr Hd.
  - cbn [PhaseRatio.skip_digits]. change (8 ^ Z.of_nat 0) with 1.
    by rewrite Z.mul_1_l, Z.mod_small.
  - cbn [PhaseRatio.skip_digits]. rewrite octal_next_spec by done. cbn [snd].
    rewrite IH by (try apply Z.mod_pos_bound; lia). f_equal.
    rewrite Z.mul_mod_idemp_r by lia. rewrite Nat2Z.inj_succ, Z.pow_succ_r by lia.
    f_equal. lia.
Qed.

(** Projecting an exact phase onto [b] bits yields exactly
    [floor(phase * 2^b)] (no bit is lost to the [u64] shifts), and the returned
    progress is the exact remaining fraction of that bucket, again a valid phase. *)
Theorem project_with_remainder_exact (p : PhaseRatio.t) (precision : BitPrecision.t) :
  PhaseRatio.wf p -> BitPrecision.wf precision ->
  let scaled := 2 ^ BitPrecision.get precision * PhaseRatio.numerator p in
  exists q,
    PhaseRatio.project_with_remainder p precision
    = (PhaseProjection.mk precision (scaled / PhaseRatio.denominator p), q)
    /\ PhaseRatio.wf q
    /\ PhaseRatio.numerator q * PhaseRatio.denominator p
       = scaled mod PhaseRatio.denominator p * PhaseRatio.denominator q.
Proof.
  destruct p as [n d], precision as [b]. intros (Hn & Hd & _) Hb.
  unfold BitPrecision.wf, BitPrecision.get in *. cbn in Hn, Hd, Hb |- *.
  unfold PhaseRatio.project_with_remainder, PhaseRatio.bits, BitPrecision.get. cbn.
  rewrite take_prefix_spec, Z2Nat.id by (try done; try lia; rewrite Z2Nat.id by lia;
    pose proof (Z.pow_le_mono_r 2 b 64); lia).
  rewrite Z.mul_0_l, Z.add_0_l. cbn [PhaseBitIter.remainder PhaseBitIter.denominator].
  eexists. split; [done|]. apply from_valid_parts_spec; [apply Z.mod_pos_bound; lia|done].
Qed.

Lemma project_prefix p precision :
  PhaseRatio.wf p -> BitPrecision.wf precision ->
  PhaseRatio.project p precision
  = PhaseProjection.mk precision
      (2 ^ BitPrecision.get precision * PhaseRatio.numerator p / PhaseRatio.denominator p).
Proof.
  destruct p as [n d], precision as [b]. intros (Hn & Hd & _) Hb.
  unfold BitPrecision.wf, BitPrecision.get in *. cbn in Hn, Hd, Hb |- *.
  unfold PhaseRatio.project, PhaseRatio.project_with_remainder, PhaseRatio.bits, BitPrecision.get.
  cbn. rewrite take_prefix_spec, Z2Nat.id by (try done; try lia; rewrite Z2Nat.id by lia;
    pose proof (Z.pow_le_mono_r 2 b 64); lia).
  by rewrite Z.mul_0_l, Z.add_0_l.
Qed.

Lemma word64_raw p :
  PhaseRatio.wf p ->
  PhaseRatio.word64 p
  = PhaseWord64.mk (2 ^ 64 * PhaseRatio.numerator p / PhaseRatio.denominator p).
Proof.
  intros Hp. pose proof (project_prefix p (BitPrecision.mk 64) Hp ltac:(done)) as H.
  unfold PhaseRatio.project, PhaseRatio.project_with_remainder in H.
  unfold PhaseRatio.word64. cbn [BitPrecision.get BitPrecision.bits] in H.
  change PHASE_WORD_BITS with 64.
  destruct (PhaseBitIter.take_prefix (Z.to_nat 64) 0 (PhaseRatio.bits p)) as [x y].
  cbn [fst] in H. injection H as ->. done.
Qed.

(** The cached 64-bit word loses nothing: every projection of the word
    equals the same projection computed from the exact phase. *)
Theorem word_projection_agrees (p : PhaseRatio.t) (precision : BitPrecision.t) :
  PhaseRatio.wf p -> BitPrecision.wf precision ->
  PhaseWord64.project (PhaseRatio.word64 p) precision = PhaseRatio.project p precision.
Proof.
  intros Hp Hb. rewrite word64_raw, project_prefix by done.
  unfold PhaseWord64.project. cbn [PhaseWord64.raw]. f_equal.
  destruct p as [n d], precision as [b], Hp as (Hn & Hd & _).
  unfold BitPrecision.wf, BitPrecision.get, PHASE_WORD_BITS in *. cbn in *.
  rewrite Z.shiftr_div_pow2, Z.div_div by lia.
  rewrite Z.mul_comm with (n := d). rewrite <- Z.div_div by lia.
  replace (2 ^ 64) with (2 ^ b * 2 ^ (64 - b)) by (rewrite <- Z.pow_add_r by lia; f_equal; lia).
  f_equal. replace (2 ^ b * 2 ^ (64 - b) * n) with ((2 ^ b * n) * 2 ^ (64 - b)) by lia.
  apply Z.div_mul. lia.
Qed.

(** Octal digit number [i] of a phase is exact at every depth, with no cap
    at the 21 digits a 64-bit word carries, and always lies in [0..7]. *)
Theorem octal_digit_exact (p : PhaseRatio.t) (i : nat) :
  PhaseRatio.wf p ->
  let d := PhaseRatio.octal_digit_msb p i in
  d = (8 ^ (Z.of_nat i + 1) * PhaseRatio.numerator p / PhaseRatio.denominator p) mod 8
  /\ 0 <= d < 8.
Proof.
  destruct p as [n d]. intros (Hn & Hd & _). cbn in Hn, Hd.
  unfold PhaseRatio.octal_digit_msb, PhaseRatio.bits. cbn [PhaseRatio.numerator PhaseRatio.denominator].
  rewrite skip_digits_spec by done.
  rewrite octal_next_spec by (try apply Z.mod_pos_bound; lia). cbn [fst].
  enough (8 * ((8 ^ Z.of_nat i * n) mod d) / d
          = (8 ^ (Z.of_nat i + 1) * n / d) mod 8) as ->.
  { split; [done|]. apply Z.mod_pos_bound. lia. }
  set (m := 8 ^ Z.of_nat i * n).
  replace (8 ^ (Z.of_nat i + 1) * n) with (8 * m) by (rewrite Z.pow_add_r by lia; lia).
  pose proof (Z.div_mod m d ltac:(lia)) as E.
  pose proof (Z.mod_pos_bound m d ltac:(lia)) as Hm.
  assert (0 <= 8 * (m mod d) / d < 8).
  { split; [apply Z.div_pos; lia|apply Z.div_lt_upper_bound; lia]. }
  assert (8 * m / d = (m / d) * 8 + 8 * (m mod d) / d) as ->.
  { rewrite <- Z.div_add_l by lia. f_equal. rewrite E at 1. ring. }
  rewrite Z.add_comm, Z.mod_add by lia. symmetry. by apply Z.mod_small.
Qed.

(** ** Theorems: instants in intervals *)
Lemma ltb_nanoseconds a b :
  Timestamp.wf a -> Timestamp.wf b ->
  Timestamp.ltb a b = (Timestamp.to_nanoseconds a <? Timestamp.to_nanoseconds b).
Proof.
  destruct a as [s n], b as [s' n']. unfold Timestamp.wf, Timestamp.ltb, Timestamp.to_nanoseconds,
    NANOSECONDS_PER_SECOND. cbn. intros [_ Hn] [_ Hn'].
  destruct (Z.ltb_spec s s'), (Z.eqb_spec s s'), (Z.ltb_spec n n'); cbn;
    symmetry; (apply Z.ltb_lt || apply Z.ltb_ge); lia.
Qed.

(** On every [i64] interval and valid timestamp, [phase_at] either returns
    the exact elapsed fraction of the half-open interval in lowest terms, or the
    error that names the violated condition; the [u128] arithmetic never wraps
    and no other error is possible. *)
Theorem phase_at_spec (i : Interval.t) (at_ : Timestamp.t) :
  Interval.wf i -> Timestamp.wf at_ ->
  let previous := EclipsePoint.epoch_seconds (Interval.previous i) * NANOSECONDS_PER_SECOND in
  let next := EclipsePoint.epoch_seconds (Interval.next i) * NANOSECONDS_PER_SECOND in
  let now := Timestamp.to_nanoseconds at_ in
  let one_series := EclipsePoint.saros (Interval.previous i) = Interval.saros i
                    /\ EclipsePoint.saros (Interval.next i) = Interval.saros i in
  match Interval.phase_at i at_ with
  | Ok p => one_series /\ previous <= now < next /\ PhaseRatio.wf p
            /\ PhaseRatio.numerator p * (next - previous)
               = (now - previous) * PhaseRatio.denominator p
  | Err MixedSarosSeries => ~ one_series
  | Err InvalidInterval => one_series /\ next <= previous
  | Err InstantOutsideInterval => one_series /\ previous < next /\ ~ (previous <= now < next)
  | Err _ => False
  end.
Proof.
  destruct i as [s [pi pe ps pq pt] [ni ne ns nq nt]], at_ as [e n].
  unfold Interval.wf, in_i, Timestamp.to_nanoseconds. cbn.
  intros [Hp Hnx] Hat. unfold Interval.phase_at, Interval.validate. cbn.
  destruct (Z.eqb_spec ps s), (Z.eqb_spec ns s); cbn; try (intros [? ?]; done).
  destruct (Z.leb_spec ne pe).
  { split; [done|]. unfold NANOSECONDS_PER_SECOND. lia. }
  assert (Hwf : forall x, in_i 64 x -> Timestamp.wf (Timestamp.from_epoch_seconds x))
    by (intros x Hx; split; [exact Hx|cbn; unfold NANOSECONDS_PER_SECOND; lia]).
  rewrite !ltb_nanoseconds by (try exact Hat; apply Hwf; unfold in_i; lia). clear Hwf.
  unfold Timestamp.to_nanoseconds. cbn.
  destruct Hat as [He Hn]. unfold in_i in He. cbn in He, Hn. unfold NANOSECONDS_PER_SECOND in *.
  destruct (Z.ltb_spec (e * 1000000000 + n) (pe * 1000000000 + 0)); cbn.
  { repeat split; lia. }
  destruct (Z.ltb_spec (e * 1000000000 + n) (ne * 1000000000 + 0)); cbn; [|repeat split; lia].
  assert (Hw : forall x, 0 <= x < 2 ^ 127 -> wrap 128 x = x)
    by (intros x Hx; apply wrap_small; unfold in_u; lia).
  rewrite (Hw (ne - pe)), (Hw (e - pe)) by lia.
  rewrite (Hw ((ne - pe) * 1000000000)), (Hw ((e - pe) * 1000000000)) by lia.
  rewrite (Hw ((e - pe) * 1000000000 + n)) by lia. clear Hw.
  unfold PhaseRatio.new.
  destruct (Z.eqb_spec ((ne - pe) * 1000000000) 0); [lia|]. cbn [orb].
  destruct (Z.leb_spec ((ne - pe) * 1000000000) ((e - pe) * 1000000000 + n)); [lia|].
  pose proof (from_valid_parts_spec ((e - pe) * 1000000000 + n) ((ne - pe) * 1000000000)
                ltac:(lia) ltac:(lia)) as [Hwf Heq].
  split; [done|]. split; [lia|]. split; [exact Hwf|].
  rewrite <- Z.mul_sub_distr_r, Heq. f_equal. lia.
Qed.

(** ** Theorems: bracketing an instant in a series *)
Lemma windows2_lookup {A} (l : list A) k a b :
  windows2 l !! k = Some (a, b) <-> l !! k = Some a /\ l !! S k = Some b.
Proof.
  revert k. induction l as [|x l IH]; intros k; [cbn; split; [done|intros [[=] _]]|].
  destruct l as [|y l]; [cbn; split; [done|intros [_ [=]]]|].
  destruct k as [|k]; cbn [windows2 lookup list_lookup].
  - cbn. split; [intros [= -> ->]; done|intros [[= ->] [= ->]]; done].
  - apply IH.
Qed.

Lemma check_windows_spec saros pairs :
  match check_windows saros pairs with
  | Ok _ => forall k a b, pairs !! k = Some (a, b) ->
      EclipsePoint.saros a = saros /\ EclipsePoint.saros b = saros
      /\ EclipsePoint.epoch_seconds a < EclipsePoint.epoch_seconds b
  | Err MixedSarosSeries => exists k a b, pairs !! k = Some (a, b)
      /\ (EclipsePoint.saros a <> saros \/ EclipsePoint.saros b <> saros)
  | Err UnsortedEclipses => exists k a b, pairs !! k = Some (a, b)
      /\ EclipsePoint.epoch_seconds b <= EclipsePoint.epoch_seconds a
  | Err _ => False
  end.
Proof.
  induction pairs as [|[a b] pairs IH]; cbn [check_windows]; [done|].
  destruct (Z.eqb_spec (EclipsePoint.saros a) saros), (Z.eqb_spec (EclipsePoint.saros b) saros);
    cbn [negb orb]; try (exists 0%nat, a, b; cbn; auto; fail).
  destruct (Z.leb_spec (EclipsePoint.epoch_seconds b) (EclipsePoint.epoch_seconds a)).
  { exists 0%nat, a, b. done. }
  destruct (check_windows saros pairs) as [|[]]; try done.
  - intros [|k] a' b' Hk; cbn in Hk; [simplify_eq; done|eauto].
  - destruct IH as (k & a' & b' & ?). by exists (S k), a', b'.
  - destruct IH as (k & a' & b' & ?). by exists (S k), a', b'.
Qed.

Lemma bracket_search_spec fuel eclipses at_ : forall low high,
  (1 <= low <= high)%nat -> (high - low <= fuel)%nat ->
  EclipsePoint.epoch_seconds (eclipses !!! (low - 1)%nat) <= at_ ->
  at_ < EclipsePoint.epoch_seconds (eclipses !!! high) ->
  let r := bracket_search fuel eclipses at_ low high in
  (low <= r <= high)%nat
  /\ EclipsePoint.epoch_seconds (eclipses !!! (r - 1)%nat) <= at_
     < EclipsePoint.epoch_seconds (eclipses !!! r).
Proof.
  induction fuel as [|fuel IH]; intros low high Hlh Hf Hlo Hhi; cbn [bracket_search].
  { assert (high = low) as -> by lia. cbn. lia. }
  destruct (Nat.ltb_spec low high); [|assert (high = low) as -> by lia; cbn; lia].
  pose proof (Nat.Div0.div_le_upper_bound (high - low) 2 (high - low) ltac:(lia)).
  assert ((high - low) / 2 < high - low)%nat by (apply Nat.div_lt; lia).
  set (m := (low + (high - low) / 2)%nat) in *.
  destruct (Z.leb_spec (EclipsePoint.epoch_seconds (eclipses !!! m)) at_).
  - edestruct (IH (m + 1)%nat high) as [? ?]; [lia|lia| |done|].
    { by replace (m + 1 - 1)%nat with m by lia. }
    split; [lia|done].
  - edestruct (IH low m) as [? ?]; [lia|lia|done|done|]. split; [lia|done].
Qed.

Lemma lookup_total_Some {A} `{Inhabited A} (l : list A) k :
  (k < length l)%nat -> l !! k = Some (l !!! k).
Proof. intros Hk. by apply list_lookup_lookup_total_lt. Qed.

Lemma adjacent_monotone (f : EclipsePoint.t -> Z) (l : list EclipsePoint.t) :
  (forall k a b, l !! k = Some a -> l !! S k = Some b -> f a < f b) ->
  forall n k, (k + n < length l)%nat -> f (l !!! k) <= f (l !!! (k + n)%nat).
Proof.
  intros Hadj n. induction n as [|n IH]; intros k Hk; [by rewrite Nat.add_0_r|].
  etrans; [apply IH; lia|]. apply Z.lt_le_incl, (Hadj (k + n)%nat); [apply lookup_total_Some; lia|].
  rewrite <- Nat.add_succ_r. apply lookup_total_Some. lia.
Qed.

(** [series_bracket] returns two adjacent points of the series whose
    half-open interval holds the instant (and that interval validates), and
    each error states exactly what is wrong with the input: fewer than two
    points, a point of another series, two adjacent points out of order, or an
    instant no adjacent pair covers. *)
Theorem series_bracket_spec (eclipses : list EclipsePoint.t) (at_ : Z) :
  let saros := EclipsePoint.saros (eclipses !!! 0%nat) in
  let adjacent k a b := eclipses !! k = Some a /\ eclipses !! S k = Some b in
  let covers a b := EclipsePoint.epoch_seconds a <= at_ < EclipsePoint.epoch_seconds b in
  match series_bracket eclipses at_ with
  | Ok i => Interval.validate i = Ok tt
      /\ covers (Interval.previous i) (Interval.next i)
      /\ exists k, adjacent k (Interval.previous i) (Interval.next i)
  | Err TooFewEclipses => (length eclipses < 2)%nat
  | Err MixedSarosSeries => exists k a b, adjacent k a b
      /\ (EclipsePoint.saros a <> saros \/ EclipsePoint.saros b <> saros)
  | Err UnsortedEclipses => exists k a b, adjacent k a b
      /\ EclipsePoint.epoch_seconds b <= EclipsePoint.epoch_seconds a
  | Err OutsideSeriesCoverage => forall k a b, adjacent k a b -> ~ covers a b
  | Err _ => False
  end.
Proof.
  intros saros adjacent covers. unfold series_bracket.
  destruct (Nat.ltb_spec (length eclipses) 2); [done|]. fold saros.
  pose proof (check_windows_spec saros (windows2 eclipses)) as Hw.
  assert (Hadj : forall k a b, windows2 eclipses !! k = Some (a, b) <-> adjacent k a b)
    by (intros; apply windows2_lookup).
  destruct (check_windows saros (windows2 eclipses)) as [[]|[]]; try done; cycle 1.
  { destruct Hw as (k & a & b & ? & ?). exists k, a, b. by rewrite <- Hadj. }
  { destruct Hw as (k & a & b & ? & ?). exists k, a, b. by rewrite <- Hadj. }
  assert (Hmono := adjacent_monotone EclipsePoint.epoch_seconds eclipses
    (fun k a b Ha Hb => proj2 (proj2 (Hw k a b (proj2 (Hadj k a b) (conj Ha Hb)))))).
  set (last_index := (length eclipses - 1)%nat).
  destruct (Z.ltb_spec at_ (EclipsePoint.epoch_seconds (eclipses !!! 0%nat))); cbn [orb].
  { intros k a b [Ha Hb] [Hc _]. apply list_lookup_total_correct in Ha as Ha'.
    apply lookup_lt_Some in Ha. specialize (Hmono k 0%nat Ha). subst. cbn in Hmono. lia. }
  destruct (Z.leb_spec (EclipsePoint.epoch_seconds (eclipses !!! last_index)) at_).
  { intros k a b [Ha Hb] [_ Hc]. apply list_lookup_total_correct in Hb as Hb'.
    apply lookup_lt_Some in Hb. specialize (Hmono (last_index - S k)%nat (S k)).
    replace (S k + (last_index - S k))%nat with last_index in Hmono by (unfold last_index; lia).
    subst. specialize (Hmono ltac:(unfold last_index; lia)). lia. }
  destruct (bracket_search_spec (length eclipses) eclipses at_ 1 last_index) as [Hr Hc];
    [unfold last_index; lia..|done|done|].
  set (r := bracket_search (length eclipses) eclipses at_ 1 last_index) in *.
  assert (Ha : adjacent (r - 1)%nat (eclipses !!! (r - 1)%nat) (eclipses !!! r)).
  { split; [apply lookup_total_Some; lia|].
    replace (S (r - 1)) with r by lia. apply lookup_total_Some. unfold last_index in *. lia. }
  destruct (Hw _ _ _ (proj2 (Hadj _ _ _) Ha)) as (Hs1 & Hs2 & Hlt).
  cbn. split; [|split; [exact Hc|by eexists]].
  unfold Interval.validate. cbn. rewrite Hs1, Hs2, Z.eqb_refl. cbn.
  by apply Z.leb_gt in Hlt as ->.
Qed.

(** ** Witnesses *)
Lemma project_with_remainder_exact_witness :
  exists q,
    PhaseRatio.project_with_remainder (PhaseRatio.mk 5 16) (BitPrecision.mk 3)
    = (PhaseProjection.mk (BitPrecision.mk 3) 2, q)
    /\ PhaseRatio.wf q
    /\ PhaseRatio.numerator q * 16 = 8 * PhaseRatio.denominator q.
Proof.
  exact (project_with_remainder_exact (PhaseRatio.mk 5 16) (BitPrecision.mk 3)
    ltac:(split; [cbn; lia|split; [cbn; lia|reflexivity]]) ltac:(split; cbn; lia)).
Defined.

Lemma word_projection_agrees_witness :
  PhaseWord64.project (PhaseRatio.word64 (PhaseRatio.mk 1 3)) (BitPrecision.mk 30)
  = PhaseProjection.mk (BitPrecision.mk 30) 357913941.
Proof.
  exact (word_projection_agrees (PhaseRatio.mk 1 3) (BitPrecision.mk 30)
    ltac:(split; [cbn; lia|split; [cbn; lia|reflexivity]]) ltac:(split; cbn; lia)).
Defined.

Lemma octal_digit_exact_witness :
  let d := PhaseRatio.octal_digit_msb (PhaseRatio.mk 1 3) 30 in
  d = (8 ^ 31 * 1 / 3) mod 8 /\ 0 <= d < 8.
Proof.
  exact (octal_digit_exact (PhaseRatio.mk 1 3) 30
    ltac:(split; [cbn; lia|split; [cbn; lia|reflexivity]])).
Defined.

(** A one-series interval of eight seconds, read three and a half seconds in. *)
Definition sample_interval : Interval.t :=
  Interval.mk 141 (EclipsePoint.mk 0 (-4) 141 1 0) (EclipsePoint.mk 1 4 141 2 0).

Lemma phase_at_spec_witness :
  Interval.phase_at sample_interval (Timestamp.mk (-1) 500000000) = Ok (PhaseRatio.mk 7 16)
  /\ -4 * NANOSECONDS_PER_SECOND <= -500000000 < 4 * NANOSECONDS_PER_SECOND.
Proof.
  pose proof (phase_at_spec sample_interval (Timestamp.mk (-1) 500000000)
    ltac:(split; unfold in_i; cbn; lia)
    ltac:(split; [unfold in_i; cbn; lia|cbn; unfold NANOSECONDS_PER_SECOND; lia])) as H.
  cbv zeta in H.
  assert (E : Interval.phase_at sample_interval (Timestamp.mk (-1) 500000000)
    = Ok (PhaseRatio.mk 7 16)) by (vm_compute; reflexivity).
  rewrite E in H. destruct H as (_ & H & _). split; [exact E|]. exact H.
Defined.
