(* ===== verification/OctalTheory.v ===== *)
(** * Octal addresses and rarity: theorems on [Temporal.OctalAddress] and the
    rarity classifiers

    The digits of an address are the base-8 digits of its value; the ASCII forms
    are inverse; the array classifier agrees with the integer classifier; the
    modular (stride, offset) form of a rarity class selects exactly its
    addresses. *)
From S2P Require Import Prelude Temporal.

(** ** Base-8 digits, most significant first *)
Fixpoint msd (n : nat) (v : Z) : list Z :=
  match n with
  | O => []
  | S n => (v / 8 ^ Z.of_nat n) mod 8 :: msd n v
  end.

Lemma pow8_pos n : 0 < 8 ^ Z.of_nat n.
Proof. apply Z.pow_pos_nonneg; lia. Qed.

Lemma pow8_S n : 8 ^ Z.of_nat (S n) = 8 * 8 ^ Z.of_nat n.
Proof. rewrite Nat2Z.inj_succ, Z.pow_succ_r by lia. done. Qed.

Lemma mod_pow8_S n v :
  v mod 8 ^ Z.of_nat (S n)
  = (v / 8 ^ Z.of_nat n) mod 8 * 8 ^ Z.of_nat n + v mod 8 ^ Z.of_nat n.
Proof. pose proof (pow8_pos n). rewrite pow8_S, Z.mul_comm, Z.rem_mul_r by lia. lia. Qed.

Lemma msd_length n v : length (msd n v) = n.
Proof. induction n; cbn; auto. Qed.

Lemma msd_octal n v : Forall (fun d => 0 <= d < 8) (msd n v).
Proof. induction n; cbn; constructor; auto. apply Z.mod_pos_bound. lia. Qed.

Lemma msd_lookup n v : forall i, (i < n)%nat ->
  msd n v !! i = Some ((v / 8 ^ Z.of_nat (n - i - 1)) mod 8).
Proof.
  induction n as [|n IH]; intros i Hi; [lia|]. destruct i as [|i]; cbn [msd lookup list_lookup].
  - do 4 f_equal. lia.
  - rewrite IH by lia. do 4 f_equal.
Qed.

Lemma msd_snoc n v : msd (S n) v = msd n (v / 8) ++ [v mod 8].
Proof.
  induction n as [|n IH].
  - cbn [msd app]. change (8 ^ Z.of_nat 0) with 1. by rewrite Z.div_1_r.
  - change (msd (S (S n)) v) with ((v / 8 ^ Z.of_nat (S n)) mod 8 :: msd (S n) v).
    rewrite IH. cbn [msd app]. pose proof (pow8_pos n).
    rewrite pow8_S, <- Z.div_div by lia. done.
Qed.

Lemma msd_last n v : last (msd (S n) v) = Some (v mod 8).
Proof. rewrite msd_snoc. apply last_snoc. Qed.

Lemma msd_mod_ext n v w : v mod 8 ^ Z.of_nat n = w mod 8 ^ Z.of_nat n -> msd n v = msd n w.
Proof.
  revert v w. induction n as [|n IH]; intros v w E; [done|]. cbn [msd].
  rewrite !mod_pow8_S in E. pose proof (pow8_pos n).
  pose proof (Z.mod_pos_bound v (8 ^ Z.of_nat n) ltac:(lia)).
  pose proof (Z.mod_pos_bound w (8 ^ Z.of_nat n) ltac:(lia)).
  destruct (Z.div_mod_unique (8 ^ Z.of_nat n) ((v / 8 ^ Z.of_nat n) mod 8)
    ((w / 8 ^ Z.of_nat n) mod 8) (v mod 8 ^ Z.of_nat n) (w mod 8 ^ Z.of_nat n)) as [E1 E2];
    [lia..|]. rewrite E1. f_equal. by apply IH.
Qed.

(** Reading digits by shifting is the same list. *)
Lemma shift_digit v k : 0 <= k -> Z.land (Z.shiftr v (k * 3)) 7 = (v / 8 ^ k) mod 8.
Proof.
  intros Hk. change 7 with (2 ^ 3 - 1). rewrite land_ones_mod, Z.shiftr_div_pow2 by lia.
  change 8 with (2 ^ 3). rewrite <- Z.pow_mul_r by lia. do 3 f_equal. lia.
Qed.

Lemma digit_msb_spec a i :
  OctalAddress.wf a -> (i < Z.to_nat (OctalAddress.digits a))%nat ->
  OctalAddress.digit_msb a (Z.of_nat i)
  = msd (Z.to_nat (OctalAddress.digits a)) (OctalAddress.value a) !! i.
Proof.
  intros [Hd _] Hi. rewrite msd_lookup by done. unfold OctalAddress.digit_msb.
  destruct (Z.leb_spec (OctalAddress.digits a) (Z.of_nat i)); [lia|].
  unfold BITS_PER_OCTAL_DIGIT, RADIX. change (8 - 1) with 7.
  rewrite shift_digit by lia. do 4 f_equal. lia.
Qed.

Lemma map_seq_lookup {A} (f : nat -> A) (l : list A) n :
  length l = n -> (forall i, (i < n)%nat -> Some (f i) = l !! i) -> List.map f (seq 0 n) = l.
Proof.
  intros Hl Hf. apply list_eq. intros i. destruct (decide (i < n)%nat) as [Hi|Hi].
  - rewrite <- Hf by done. change (List.map f (seq 0 n)) with (f <$> seq 0 n).
    rewrite list_lookup_fmap, lookup_seq_lt by done. done.
  - rewrite !lookup_ge_None_2; [done|lia|]. rewrite List.length_map, List.length_seq. lia.
Qed.

Lemma all_digits_msd a :
  OctalAddress.wf a ->
  OctalAddress.all_digits a = msd (Z.to_nat (OctalAddress.digits a)) (OctalAddress.value a).
Proof.
  intros Ha. apply map_seq_lookup; [apply msd_length|]. intros i Hi.
  rewrite digit_msb_spec, msd_lookup by done. done.
Qed.

(** ** ASCII round trip *)
Lemma lor_octal v c :
  0 <= v -> (v + 1) * 8 <= 2 ^ 64 -> 0 <= c < 8 -> Z.lor (wrap 64 (Z.shiftl v 3)) c = v * 8 + c.
Proof.
  intros Hv Hb Hc. rewrite Z.shiftl_mul_pow2 by lia. change (2 ^ 3) with 8.
  rewrite wrap_small by (unfold in_u; lia). change 8 with (2 ^ 3) at 1. by rewrite lor_add by lia.
Qed.

Lemma parse_digits_spec l : forall v x,
  0 <= v -> (v + 1) * 8 ^ Z.of_nat (length l) <= 2 ^ 64 ->
  OctalAddress.parse_digits l v = Ok x
  <-> l = List.map (Z.add 48) (msd (length l) x) /\ x / 8 ^ Z.of_nat (length l) = v.
Proof.
  induction l as [|c l IH]; intros v x Hv Hb.
  - cbn. rewrite Z.div_1_r. split; [intros [= ->]; done|intros [_ ->]; done].
  - cbn [OctalAddress.parse_digits length msd List.map]. cbn [length] in Hb. rewrite pow8_S in *.
    pose proof (pow8_pos (length l)).
    rewrite (Z.mul_comm 8), <- Z.div_div by lia.
    set (y := x / 8 ^ Z.of_nat (length l)) in *.
    destruct (Z.leb_spec 48 c); cbn [andb negb]; cycle 1.
    { split; [done|]. intros [[= Hc _] _]. pose proof (Z.mod_pos_bound y 8). lia. }
    destruct (Z.leb_spec c 55); cbn [andb negb]; cycle 1.
    { split; [done|]. intros [[= Hc _] _]. pose proof (Z.mod_pos_bound y 8). lia. }
    unfold BITS_PER_OCTAL_DIGIT. rewrite lor_octal by nia.
    rewrite IH by nia. fold y. pose proof (Z.div_mod y 8 ltac:(lia)).
    pose proof (Z.mod_pos_bound y 8 ltac:(lia)). split.
    + intros [Hl Hy]. split; [|lia]. rewrite <- Hl. f_equal. lia.
    + intros [[= Hc Hl] Hy]. split; [done|lia].
Qed.

Lemma checked_pow_spec w n : forall acc,
  0 < acc -> acc * 8 ^ Z.of_nat n < 2 ^ w ->
  checked_pow w n acc = Some (acc * 8 ^ Z.of_nat n).
Proof.
  induction n as [|n IH]; intros acc Ha Hb; cbn [checked_pow].
  { f_equal. cbn. lia. }
  rewrite pow8_S in Hb. pose proof (pow8_pos n). unfold RADIX.
  rewrite (proj2 (checked_u_Some w (acc * 8) (acc * 8))) by (split; [done|unfold in_u; nia]).
  rewrite IH by nia. f_equal. rewrite pow8_S. lia.
Qed.

Lemma octal_power_u64_spec e :
  0 <= e -> octal_power_u64 e = if (1 <=? e) && (e <=? 21) then Some (8 ^ e) else None.
Proof.
  intros He. unfold octal_power_u64, PHASE_WORD_OCTAL_DIGITS.
  destruct (Z.eqb_spec e 0) as [->|]; [done|]. cbn [orb].
  destruct (Z.ltb_spec 21 e), (Z.leb_spec 1 e), (Z.leb_spec e 21); cbn; try lia; try done.
  rewrite checked_pow_spec; [|lia|]; rewrite Z2Nat.id by lia; [f_equal; lia|].
  pose proof (Z.pow_le_mono_r 8 e 21). lia.
Qed.

(** Octal text and addresses are in bijection: parsing succeeds with [a]
    exactly when [a] is a valid address, the text has one byte per digit and
    formatting [a] writes that text back. *)
Theorem octal_ascii_roundtrip (text : list Z) (a : OctalAddress.t) :
  OctalAddress.from_octal_ascii text = Ok a
  <-> OctalAddress.wf a /\ Z.of_nat (length text) = OctalAddress.digits a
      /\ OctalAddress.write_ascii a text = Ok text.
Proof.
  unfold OctalAddress.from_octal_ascii, PHASE_WORD_OCTAL_DIGITS.
  remember (Z.of_nat (length text)) as n eqn:En.
  assert (Hw : forall a, OctalAddress.wf a -> n = OctalAddress.digits a ->
    OctalAddress.write_ascii a text
    = Ok (List.map (Z.add 48) (msd (length text) (OctalAddress.value a)))).
  { intros b Hb Hn. unfold OctalAddress.write_ascii. rewrite <- En, <- Hn, Z.ltb_irrefl.
    f_equal. unfold write_ascii_digits. replace (Z.to_nat n) with (length text) by lia.
    rewrite drop_all, app_nil_r.
    rewrite <- (map_seq_lookup (fun i => default 0 (OctalAddress.digit_msb b (Z.of_nat i)))
      (msd (length text) (OctalAddress.value b)) (length text)).
    - by rewrite List.map_map.
    - apply msd_length.
    - intros i Hi. rewrite digit_msb_spec by (rewrite <- ?Hn; done || lia).
      rewrite <- Hn. replace (Z.to_nat n) with (length text) by lia. by rewrite msd_lookup. }
  destruct (Z.eqb_spec n 0); cbn [orb].
  { split; [done|]. intros ([? _] & ? & _). lia. }
  destruct (Z.ltb_spec 21 n).
  { split; [done|]. intros ([? _] & ? & _). lia. }
  assert (Hb : (0 + 1) * 8 ^ Z.of_nat (length text) <= 2 ^ 64).
  { rewrite <- En. pose proof (Z.pow_le_mono_r 8 n 21 ltac:(lia) ltac:(lia)). lia. }
  assert (Hnw : wrap 8 n = n) by (apply wrap_small; unfold in_u; lia).
  assert (Hnew : forall v, OctalAddress.new v (wrap 8 n)
    = if 8 ^ n <=? v then Err AddressOutOfRange else Ok (OctalAddress.mk v n)).
  { intros v. rewrite Hnw. unfold OctalAddress.new. rewrite octal_power_u64_spec by lia.
    destruct (Z.leb_spec 1 n), (Z.leb_spec n 21); try lia. done. }
  split.
  - intros H'. inv_ok. apply parse_digits_spec in E as [Et E0]; [|done..].
    rewrite <- En in E0. rewrite Hnew in H'. destruct (Z.leb_spec (8 ^ n) a0); [done|]. injection H' as <-.
    assert (0 <= a0).
    { pose proof (Z.div_mod a0 (8 ^ n) ltac:(lia)). pose proof (Z.mod_pos_bound a0 (8 ^ n)). lia. }
    assert (Hwf : OctalAddress.wf (OctalAddress.mk a0 n)) by (split; cbn; lia).
    split; [done|]. split; [done|]. rewrite Hw by done. cbn. by rewrite <- Et.
  - intros (Hwf & Hn & Ht). rewrite (Hw a Hwf Hn) in Ht. injection Ht as Ht.
    destruct a as [v d]. cbn in Hn, Ht. subst d. destruct Hwf as [_ Hv]. cbn in Hv.
    rewrite (proj2 (parse_digits_spec text 0 v ltac:(done) Hb)).
    + rewrite Hnew. by destruct (Z.leb_spec (8 ^ n) v); [lia|].
    + split; [done|]. apply Z.div_small. rewrite <- En. lia.
Qed.

(** ** The borrow of the array classifier is integer decrement *)
Lemma rposition_none n v :
  v mod 8 ^ Z.of_nat n = 0 <-> rposition_nonzero (msd n v) = None.
Proof.
  induction n as [|n IH]; [cbn; by rewrite Z.mod_1_r|].
  rewrite mod_pow8_S. cbn [msd rposition_nonzero]. pose proof (pow8_pos n).
  pose proof (Z.mod_pos_bound v (8 ^ Z.of_nat n) ltac:(lia)).
  pose proof (Z.mod_pos_bound (v / 8 ^ Z.of_nat n) 8 ltac:(lia)).
  destruct (rposition_nonzero (msd n v)) as [i|].
  - split; [|done]. intros E. assert (v mod 8 ^ Z.of_nat n = 0) as Hz by nia.
    by apply IH in Hz.
  - destruct IH as [_ IH]. rewrite IH by done.
    destruct (Z.eqb_spec ((v / 8 ^ Z.of_nat n) mod 8) 0); split; try done; nia.
Qed.

Lemma imap_map_const {A B} (f : nat -> A -> B) (l : list A) b :
  (forall i a, f i a = b) -> imap f l = replicate (length l) b.
Proof.
  revert f. induction l as [|a l IH]; intros f Hf; [done|]. cbn. rewrite Hf. f_equal.
  apply IH. intros. apply Hf.
Qed.

Lemma msd_minus_one n v : v mod 8 ^ Z.of_nat n = 0 -> msd n (v - 1) = replicate n 7.
Proof.
  induction n as [|n IH]; intros E; [done|]. cbn [msd replicate].
  pose proof (pow8_pos n). rewrite mod_pow8_S in E.
  pose proof (Z.mod_pos_bound v (8 ^ Z.of_nat n) ltac:(lia)).
  pose proof (Z.mod_pos_bound (v / 8 ^ Z.of_nat n) 8 ltac:(lia)).
  assert (v mod 8 ^ Z.of_nat n = 0) by nia. assert (Hz : (v / 8 ^ Z.of_nat n) mod 8 = 0) by nia.
  rewrite IH by done. f_equal.
  pose proof (Z.div_mod v (8 ^ Z.of_nat n) ltac:(lia)).
  pose proof (Z.div_mod (v / 8 ^ Z.of_nat n) 8 ltac:(lia)).
  rewrite <- (Z.div_unique (v - 1) (8 ^ Z.of_nat n) (v / 8 ^ Z.of_nat n - 1) (8 ^ Z.of_nat n - 1))
    by lia.
  symmetry. apply (Z.mod_unique _ _ (v / 8 ^ Z.of_nat n / 8 - 1)); lia.
Qed.

Lemma adjusted_digits_minus_one n v i :
  rposition_nonzero (msd n v) = Some i ->
  adjusted_digits (Some i) (msd n v) = msd n (v - 1).
Proof.
  revert i. induction n as [|n IH]; intros i; cbn [msd rposition_nonzero]; [done|].
  pose proof (pow8_pos n). pose proof (rposition_none n v) as Hnone.
  pose proof (Z.div_mod v (8 ^ Z.of_nat n) ltac:(lia)).
  pose proof (Z.mod_pos_bound v (8 ^ Z.of_nat n) ltac:(lia)).
  destruct (rposition_nonzero (msd n v)) as [j|] eqn:Ej.
  - intros [= <-]. unfold adjusted_digits. cbn [imap]. f_equal.
    + assert (v mod 8 ^ Z.of_nat n <> 0) by (intros Hz; by apply Hnone in Hz).
      rewrite <- (Z.div_unique (v - 1) (8 ^ Z.of_nat n) (v / 8 ^ Z.of_nat n)
        (v mod 8 ^ Z.of_nat n - 1)) by lia. done.
    + rewrite <- (IH j) by done. apply imap_ext. intros k x _. unfold adjusted_digit. cbn.
      change (S j <? S k)%nat with (j <? k)%nat. done.
  - destruct (Z.eqb_spec ((v / 8 ^ Z.of_nat n) mod 8) 0) as [|Hd]; [done|]. intros [= <-].
    assert (Hz : v mod 8 ^ Z.of_nat n = 0) by (by apply Hnone).
    unfold adjusted_digits. cbn [imap]. f_equal.
    + pose proof (Z.mod_pos_bound (v / 8 ^ Z.of_nat n) 8 ltac:(lia)).
      pose proof (Z.div_mod (v / 8 ^ Z.of_nat n) 8 ltac:(lia)).
      rewrite <- (Z.div_unique (v - 1) (8 ^ Z.of_nat n) (v / 8 ^ Z.of_nat n - 1)
        (8 ^ Z.of_nat n - 1)) by lia.
      cbn. apply (Z.mod_unique _ _ (v / 8 ^ Z.of_nat n / 8)); lia.
    + rewrite (imap_map_const _ _ 7), msd_length, msd_minus_one by done. done.
Qed.

Lemma suffix_loop_run n : forall v r, suffix_loop n v r = leading_run r (reverse (msd n v)).
Proof.
  induction n as [|n IH]; intros v r; [done|].
  rewrite msd_snoc, reverse_snoc. cbn [suffix_loop leading_run]. unfold RADIX.
  by destruct (v mod 8 =? r); [rewrite IH|].
Qed.

Lemma check_digits_octal l : Forall (fun d => 0 <= d < 8) l -> check_digits l = Ok tt.
Proof.
  induction 1 as [|d l Hd _ IH]; [done|]. cbn. unfold RADIX.
  by destruct (Z.leb_spec 8 d); [lia|].
Qed.

Lemma all_zero_none l :
  forallb (Z.eqb 0) l = true <-> rposition_nonzero l = None.
Proof.
  induction l as [|d l IH]; [done|]. cbn [forallb rposition_nonzero].
  rewrite andb_true_iff, IH. destruct (rposition_nonzero l), (Z.eqb_spec 0 d), (Z.eqb_spec d 0);
    subst; split; try done; intros; intuition done.
Qed.

Lemma adjusted_digits_None l : adjusted_digits None l = l.
Proof.
  unfold adjusted_digits. induction l as [|d l IH]; [done|]. cbn. by f_equal.
Qed.

(** The array classifier and the integer classifier agree on every address
    of 1 to 21 digits, borrow through trailing zeros included: neither a panic,
    an underflow nor an error is possible on the digits of a valid address. *)
Theorem classify_rarity_digits_agrees (a : OctalAddress.t) :
  OctalAddress.wf a ->
  classify_rarity_digits (OctalAddress.all_digits a) = Ok (classify_rarity a).
Proof.
  intros Ha. rewrite all_digits_msd by done. destruct a as [v d], Ha as [Hd Hv]. cbn in Hd, Hv |- *.
  unfold classify_rarity_digits, classify_rarity. cbn [OctalAddress.value OctalAddress.digits].
  destruct (Z.to_nat d) as [|n] eqn:En; [lia|].
  assert (Hdn : d = Z.of_nat (S n)) by lia. clear En. subst d.
  rewrite msd_last, check_digits_octal by apply msd_octal.
  pose proof (rposition_none (S n) v) as Hnone. rewrite (Z.mod_small v) in Hnone by done.
  rewrite <- all_zero_none in Hnone.
  destruct (forallb (Z.eqb 0) (msd (S n) v)) eqn:Ez.
  { destruct Hnone as [_ ->]; done. }
  destruct (Z.eqb_spec v 0) as [Hv0|Hv0]; [by apply Hnone in Hv0|].
  rewrite msd_length. unfold RADIX. f_equal.
  destruct (Z.eqb_spec (v mod 8) 0) as [H0|H0].
  - destruct (rposition_nonzero (msd (S n) v)) as [i|] eqn:Ei;
      [|apply all_zero_none in Ei; congruence].
    assert (Hm : (v - 1) mod 8 = 7).
    { pose proof (Z.div_mod v 8 ltac:(lia)).
      symmetry. apply (Z.mod_unique _ _ (v / 8 - 1)); lia. }
    rewrite (adjusted_digits_minus_one (S n) v i Ei), Hm, suffix_loop_run. done.
  - rewrite adjusted_digits_None, suffix_loop_run. done.
Qed.

(** ** The modular form of a rarity class *)

(** [11...1] in octal, [m] digits. *)
Definition repunit (m : nat) : Z := (8 ^ Z.of_nat m - 1) / 7.

Lemma pow8_repunit m : 8 ^ Z.of_nat m = 7 * repunit m + 1.
Proof.
  unfold repunit. enough ((8 ^ Z.of_nat m - 1) mod 7 = 0).
  { pose proof (Z.div_mod (8 ^ Z.of_nat m - 1) 7 ltac:(lia)). lia. }
  rewrite Zminus_mod. enough (8 ^ Z.of_nat m mod 7 = 1) as -> by done.
  induction m as [|m IH]; [done|]. rewrite pow8_S, Z.mul_mod, IH by lia. done.
Qed.

Lemma repunit_S m : repunit (S m) = 8 * repunit m + 1.
Proof. pose proof (pow8_repunit m). pose proof (pow8_repunit (S m)) as HS. rewrite pow8_S in HS. lia. Qed.

Lemma suffix_loop_ge n r : 0 <= r < 8 -> forall m v, (m <= n)%nat ->
  Z.of_nat m <= suffix_loop n v r <-> v mod 8 ^ Z.of_nat m = r * repunit m.
Proof.
  intros Hr. assert (Hnn : forall n v, 0 <= suffix_loop n v r).
  { clear n. intros n. induction n as [|n IH]; intros v; cbn; [lia|].
    destruct (v mod RADIX =? r); [|lia]. pose proof (IH (v / RADIX)). lia. }
  induction n as [|n IH]; intros m v Hm.
  - assert (m = O) as -> by lia. cbn. rewrite Z.mod_1_r. change (repunit 0) with 0. lia.
  - destruct m as [|m].
    { pose proof (Hnn (S n) v). change (8 ^ Z.of_nat 0) with 1. rewrite Z.mod_1_r.
      change (repunit 0) with 0. change (Z.of_nat 0) with 0. lia. }
    cbn [suffix_loop]. unfold RADIX. rewrite repunit_S, pow8_S.
    pose proof (pow8_pos m). rewrite Z.rem_mul_r by lia.
    pose proof (Z.mod_pos_bound v 8 ltac:(lia)).
    specialize (IH m (v / 8) ltac:(lia)). rewrite Nat2Z.inj_succ.
    destruct (Z.eqb_spec (v mod 8) r) as [E|E]; [|split; nia].
    split; intros H'; [rewrite (proj1 IH) by lia; lia|]. enough (Z.of_nat m <= suffix_loop n (v / 8) r)
      by lia. apply IH. lia.
Qed.

Lemma suffix_loop_le n v r : suffix_loop n v r <= Z.of_nat n.
Proof.
  revert v. induction n as [|n IH]; intros v; [done|]. cbn [suffix_loop].
  specialize (IH (v / RADIX)). destruct (v mod RADIX =? r); lia.
Qed.

Lemma rarity_from_suffix_rank p r k w :
  0 <= p -> 0 <= w <= 3 -> k <> 0 ->
  (exists f' w', wildcard_prefix f' = Some w' /\ w' <= w /\ rarity_from_suffix p r = Rarity.mk f' k)
  <-> p <= w /\ r = k.
Proof.
  intros Hp Hw Hk.
  destruct (decide (p <= 3)) as [H3|H3].
  - assert (Hc : p = 0 \/ p = 1 \/ p = 2 \/ p = 3) by lia.
    assert (He : exists f, wildcard_prefix f = Some p /\ rarity_from_suffix p r = Rarity.mk f r).
    { destruct Hc as [ -> | [ -> | [ -> | -> ]]];
        [exists Nihil|exists Simplex|exists Duplex|exists Triplex]; done. }
    destruct He as (f & Hf & ->). split.
    + intros (f' & w' & Hf' & Hle & [= <- <-]). simplify_eq. done.
    + intros [? ->]. by exists f, p.
  - split; [|lia]. intros (f' & w' & Hf' & Hle & E).
    assert (rarity_from_suffix p r = Rarity.mk Common 0) as Hcom
      by (destruct p as [|[[]|[]|]|]; done || lia).
    rewrite Hcom in E. congruence.
Qed.

(** The (stride, offset) pair of a rarity class selects exactly its
    addresses: the address, stepped back over a flip, is congruent to the offset
    modulo the stride if and only if the classifier reports that digit in the
    family or a rarer one. *)
Theorem repdigit_offset_selects (f : RarityFamily) (digit stride offset : Z) (a : OctalAddress.t) :
  OctalAddress.wf a ->
  repdigit_stride f (OctalAddress.digits a) = Some stride ->
  repdigit_offset f digit (OctalAddress.digits a) = Some offset ->
  let v := OctalAddress.value a in
  let adjusted := if v mod 8 =? 0 then v - 1 else v in
  adjusted mod stride = offset
  <-> exists f' w w', wildcard_prefix f = Some w /\ wildcard_prefix f' = Some w' /\ w' <= w
      /\ classify_rarity a = Rarity.mk f' digit.
Proof.
  destruct a as [v d]. intros [Hd Hv] Hs Ho. cbn in Hd, Hv, Hs, Ho |- *.
  unfold repdigit_offset in Ho. rewrite Hs in Ho.
  destruct ((1 <=? digit) && (digit <=? 7)) eqn:Hk; cbn in Ho; [|done]. bool_prop.
  injection Ho as <-. unfold repdigit_stride in Hs.
  destruct (wildcard_prefix f) as [w|] eqn:Ef; [|done].
  assert (Hw : 0 <= w <= 3) by (destruct f; simplify_eq/=; lia).
  destruct (Z.leb_spec d w); [done|]. unfold octal_power_u128 in Hs.
  set (m := Z.to_nat (d - w)) in *.
  rewrite checked_pow_spec in Hs; [|lia|].
  2: { pose proof (Z.pow_le_mono_r 8 (Z.of_nat m) 21). lia. }
  rewrite Z.mul_1_l in Hs. injection Hs as <-. fold (repunit m).
  assert (Hmn : Z.of_nat m = d - w) by lia.
  set (adj := if v mod 8 =? 0 then v - 1 else v).
  unfold classify_rarity. cbn [OctalAddress.value OctalAddress.digits].
  assert (Hex : forall R, (exists f' w0 w', Some w = Some w0 /\ wildcard_prefix f' = Some w'
      /\ w' <= w0 /\ R = Rarity.mk f' digit)
    <-> exists f' w', wildcard_prefix f' = Some w' /\ w' <= w /\ R = Rarity.mk f' digit).
  { intros R. split; [intros (f' & w0 & w' & [= <-] & ?); by exists f', w'|].
    intros (f' & w' & ?). by exists f', w, w'. }
  rewrite Hex. clear Hex.
  pose proof (pow8_repunit m) as Hrep. destruct m as [|m']; [lia|].
  rewrite pow8_S in Hrep. pose proof (pow8_pos m').
  destruct (Z.eqb_spec v 0) as [->|Hv0].
  - change (0 mod 8 =? 0) with true in adj. subst adj. cbn [Z.sub].
    change omega_nihil with (rarity_from_suffix 0 7).
    rewrite rarity_from_suffix_rank by lia.
    rewrite <- (Z.mod_unique (0 - 1) (8 ^ Z.of_nat (S m')) (-1) (7 * repunit (S m')))
      by (rewrite pow8_S; lia). nia.
  - rewrite rarity_from_suffix_rank;
      [|pose proof (suffix_loop_le (Z.to_nat d) adj (adj mod 8)); unfold RADIX; fold adj; lia|lia..].
    unfold RADIX. fold adj. pose proof (Z.mod_pos_bound adj 8 ltac:(lia)).
    pose proof (suffix_loop_ge (Z.to_nat d) (adj mod 8) ltac:(done) (S m') adj ltac:(lia)) as Hge.
    assert (Hlast : forall k, 0 <= k < 8 -> adj mod 8 ^ Z.of_nat (S m') = k * repunit (S m') ->
      adj mod 8 = k).
    { intros k Hk E. rewrite repunit_S in E.
      rewrite pow8_S in E. rewrite Z.rem_mul_r in E by lia.
      pose proof (Z.div_mod adj 8 ltac:(lia)). nia. }
    split.
    + intros E. pose proof (Hlast digit ltac:(lia) E) as Hr. rewrite Hr in Hge |- *.
      apply Hge in E. lia.
    + intros [Hle Hr]. rewrite Hr in *. apply Hge. lia.
Qed.

Lemma classify_rarity_digits_agrees_witness :
  classify_rarity_digits (OctalAddress.all_digits (OctalAddress.mk 585 7))
  = Ok (Rarity.mk Triplex 1).
Proof.
  exact (classify_rarity_digits_agrees (OctalAddress.mk 585 7)
    ltac:(split; cbn; lia)).
Defined.

Lemma repdigit_offset_selects_witness :
  585 mod 4096 = 585 <-> exists f' w w', wildcard_prefix Triplex = Some w /\ wildcard_prefix f' = Some w' /\ w' <= w
      /\ classify_rarity (OctalAddress.mk 585 7) = Rarity.mk f' 1.
Proof.
  exact (repdigit_offset_selects Triplex 1 4096 585 (OctalAddress.mk 585 7)
    ltac:(split; cbn; lia) eq_refl eq_refl).
Defined.
