(* ===== verification/Bytes.v ===== *)
(** * Byte-level encodings shared by the wire formats

    Big-endian integers, lowercase hexadecimal and UTF-8, as the crates use them
    from the language and its standard library, with their round trips. *)
From S2P Require Import Prelude.

(** ** Big-endian integers: [to_be_bytes] and [from_be_bytes] at [n] bytes. *)
Fixpoint be_bytes (n : nat) (v : Z) : list Z :=
  match n with
  | O => []
  | S n => v / 256 ^ Z.of_nat n mod 256 :: be_bytes n v
  end.

Definition from_be (l : list Z) : Z := fold_left (fun acc b => acc * 256 + b) l 0.

Lemma be_bytes_length n v : length (be_bytes n v) = n.
Proof. induction n; cbn; auto. Qed.

Lemma be_bytes_byte n v : Forall is_byte (be_bytes n v).
Proof. induction n; cbn; constructor; auto. unfold is_byte. apply Z.mod_pos_bound. lia. Qed.

Lemma from_be_acc l acc :
  fold_left (fun acc b => acc * 256 + b) l acc = acc * 256 ^ Z.of_nat (length l) + from_be l.
Proof.
  unfold from_be. revert acc. induction l as [|b l IH]; intros acc; cbn [fold_left length].
  - cbn. lia.
  - rewrite IH, (IH (0 * 256 + b)), Nat2Z.inj_succ, Z.pow_succ_r by lia. ring.
Qed.

Lemma from_be_cons b l : from_be (b :: l) = b * 256 ^ Z.of_nat (length l) + from_be l.
Proof. unfold from_be at 1. cbn [fold_left]. rewrite from_be_acc. lia. Qed.

Lemma from_be_bound l : Forall is_byte l -> 0 <= from_be l < 256 ^ Z.of_nat (length l).
Proof.
  induction 1 as [|b l Hb _ IH]; [cbn; lia|]. rewrite from_be_cons. cbn [length].
  rewrite Nat2Z.inj_succ, Z.pow_succ_r by lia. unfold is_byte in Hb. nia.
Qed.

Lemma from_be_be_bytes_mod n v : from_be (be_bytes n v) = v mod 256 ^ Z.of_nat n.
Proof.
  induction n as [|n IH]; [cbn; by rewrite Z.mod_1_r|].
  cbn [be_bytes]. rewrite from_be_cons, IH, be_bytes_length.
  pose proof (Z.pow_pos_nonneg 256 (Z.of_nat n)).
  rewrite Nat2Z.inj_succ, Z.pow_succ_r, (Z.mul_comm 256), Z.rem_mul_r by lia. lia.
Qed.

Lemma from_be_be_bytes n v : 0 <= v < 256 ^ Z.of_nat n -> from_be (be_bytes n v) = v.
Proof. intros Hv. rewrite from_be_be_bytes_mod. by apply Z.mod_small. Qed.

Lemma be_bytes_mod n k v : (n <= k)%nat -> be_bytes n (v mod 256 ^ Z.of_nat k) = be_bytes n v.
Proof.
  induction n as [|n IH]; intros Hk; [done|]. cbn [be_bytes]. rewrite IH by lia. f_equal.
  pose proof (Z.pow_pos_nonneg 256 (Z.of_nat n)).
  replace (Z.of_nat k) with (Z.of_nat n + (1 + Z.of_nat (k - S n))) by lia.
  rewrite Z.pow_add_r, Z.rem_mul_r by (try (apply Z.pow_nonzero; lia); lia).
  rewrite Z.mul_comm, Z.div_add, (Z.div_small (v mod _)), Z.add_0_l
    by (try apply Z.mod_pos_bound; lia).
  rewrite Z.pow_add_r, Z.rem_mul_r by (try (apply Z.pow_pos_nonneg; lia); lia).
  change (256 ^ 1) with 256.
  rewrite Z.mul_comm, Z.add_comm, Z.mul_comm, Z.add_comm, Z.mul_comm.
  rewrite Z.mod_add by lia. by rewrite Z.mod_mod by lia.
Qed.

Lemma be_bytes_from_be l : Forall is_byte l -> be_bytes (length l) (from_be l) = l.
Proof.
  induction 1 as [|b l Hb Hl IH]; [done|]. cbn [length be_bytes]. rewrite from_be_cons.
  pose proof (from_be_bound l Hl). pose proof (Z.pow_pos_nonneg 256 (Z.of_nat (length l))).
  unfold is_byte in Hb. f_equal.
  - rewrite Z.div_add_l, Z.div_small, Z.add_0_r by lia. apply Z.mod_small. lia.
  - rewrite <- (be_bytes_mod _ (length l)) by lia.
    rewrite Z.add_comm, Z.mod_add by lia. rewrite Z.mod_small by lia. apply IH.
Qed.

(** ** Hexadecimal *)

(** [decode_hex]: both crates that parse identifiers carry this function with
    their own error type. *)
Definition decode_hex_with {E} (uppercase : Z -> E) (invalid : Z -> Z -> E) (byte index : Z) :
    result E Z :=
  if (48 <=? byte) && (byte <=? 57) then Ok (byte - 48)
  else if (97 <=? byte) && (byte <=? 102) then Ok (byte - 97 + 10)
  else if (65 <=? byte) && (byte <=? 70) then Err (uppercase index)
  else Err (invalid index byte).

(** [for (index, pair) in hex.chunks_exact(2).enumerate()], from byte offset
    [index]; an odd last byte is not part of a chunk. *)
Fixpoint decode_pairs {E} (decode_hex : Z -> Z -> result E Z) (index : Z) (hex : list Z) :
    result E (list Z) :=
  match hex with
  | high :: low :: rest =>
      let? h := decode_hex high index in
      let? l := decode_hex low (index + 1) in
      let? bytes := decode_pairs decode_hex (index + 2) rest in
      Ok (Z.lor (wrap 8 (Z.shiftl h 4)) l :: bytes)
  | _ => Ok []
  end.

Definition hex_digit (d : Z) : Z := if d <? 10 then 48 + d else 87 + d.

(** [write!(formatter, "{byte:02x}")] for each byte. *)
Definition lower_hex (bytes : list Z) : list Z :=
  flat_map (fun b => [hex_digit (b / 16); hex_digit (b mod 16)]) bytes.

Lemma lower_hex_length bytes : length (lower_hex bytes) = (2 * length bytes)%nat.
Proof. induction bytes as [|b bytes IH]; [done|]. cbn [lower_hex flat_map app length]. unfold lower_hex in IH. lia. Qed.

Lemma decode_hex_digit {E} (up : Z -> E) inv d i :
  0 <= d < 16 -> decode_hex_with up inv (hex_digit d) i = Ok d.
Proof.
  intros Hd. unfold decode_hex_with, hex_digit.
  destruct (Z.ltb_spec d 10).
  - destruct (Z.leb_spec 48 (48 + d)), (Z.leb_spec (48 + d) 57); cbn; try lia. f_equal. lia.
  - destruct (Z.leb_spec 48 (87 + d)), (Z.leb_spec (87 + d) 57); cbn; try lia.
    destruct (Z.leb_spec 97 (87 + d)), (Z.leb_spec (87 + d) 102); cbn; try lia. f_equal. lia.
Qed.

Lemma decode_hex_inv {E} (up : Z -> E) inv c i d :
  decode_hex_with up inv c i = Ok d -> 0 <= d < 16 /\ c = hex_digit d.
Proof.
  unfold decode_hex_with, hex_digit. intros H.
  destruct ((48 <=? c) && (c <=? 57)) eqn:E1; bool_prop.
  { injection H as <-. destruct (Z.ltb_spec (c - 48) 10); lia. }
  destruct ((97 <=? c) && (c <=? 102)) eqn:E2; bool_prop.
  { injection H as <-. destruct (Z.ltb_spec (c - 97 + 10) 10); lia. }
  destruct ((65 <=? c) && (c <=? 70)); done.
Qed.

Lemma hex_byte h l : 0 <= h < 16 -> 0 <= l < 16 -> Z.lor (wrap 8 (Z.shiftl h 4)) l = 16 * h + l.
Proof.
  intros. rewrite Z.shiftl_mul_pow2, wrap_small by (unfold in_u; lia).
  rewrite lor_add by lia. lia.
Qed.

(** Pairs decode exactly the lowercase text of a byte string. *)
Lemma decode_pairs_spec {E} (up : Z -> E) inv hex bytes i :
  Z.of_nat (length hex) mod 2 = 0 ->
  decode_pairs (decode_hex_with up inv) i hex = Ok bytes
  <-> Forall is_byte bytes /\ hex = lower_hex bytes.
Proof.
  intros Heven. split.
  - revert i bytes Heven.
    induction hex as [hex IH] using (Nat.measure_induction _ length). intros i bytes Heven H.
    destruct hex as [|a [|b hex]]; cbn [decode_pairs] in H.
    + injection H as <-. done.
    + done.
    + inv_ok. apply decode_hex_inv in E0 as [? ->], E1 as [? ->].
      apply IH in E2 as [? ->]; [|cbn; lia|cbn [length] in Heven; rewrite <- Heven; cbn [length];
        rewrite !Nat2Z.inj_succ; unfold Z.succ; rewrite <- Z.add_assoc;
        rewrite (Zplus_mod _ (1 + 1)); cbn; rewrite Z.add_0_r, Z.mod_mod by lia; done].
      rewrite hex_byte by done. split.
      * constructor; [unfold is_byte; lia|done].
      * unfold lower_hex. cbn [flat_map app]. rewrite !(Z.mul_comm 16).
        rewrite Z.div_add_l, Z.div_small, Z.add_0_r by lia.
        rewrite (Z.add_comm (_ * 16)), Z.mod_add, Z.mod_small by lia. done.
  - intros [Hb ->]. clear Heven. revert i. induction Hb as [|b bytes Hb Hbs IH]; intros i; [done|].
    unfold is_byte in Hb. unfold lower_hex. cbn [flat_map app]. fold (lower_hex bytes).
    cbn [decode_pairs].
    assert (0 <= b / 16 < 16) by (split; [apply Z.div_pos|apply Z.div_lt_upper_bound]; lia).
    pose proof (Z.mod_pos_bound b 16 ltac:(lia)). pose proof (Z.div_mod b 16 ltac:(lia)).
    rewrite !decode_hex_digit by lia. rewrite IH, hex_byte by lia. do 2 f_equal. lia.
Qed.

(** ** UTF-8 *)
Definition is_continuation (b : Z) : bool := (128 <=? b) && (b <=? 191).

(** [core::str::from_utf8]: the scalar values of a well-formed string (shortest
    forms only, no surrogates, at most U+10FFFF). *)
Fixpoint utf8_decode (bs : list Z) : option (list Z) :=
  match bs with
  | [] => Some []
  | b0 :: r0 =>
      if (0 <=? b0) && (b0 <=? 127) then cons b0 <$> utf8_decode r0
      else match r0 with
      | [] => None
      | b1 :: r1 =>
          if (194 <=? b0) && (b0 <=? 223) && is_continuation b1 then
            cons ((b0 - 192) * 64 + (b1 - 128)) <$> utf8_decode r1
          else match r1 with
          | [] => None
          | b2 :: r2 =>
              let c3 := (b0 - 224) * 4096 + (b1 - 128) * 64 + (b2 - 128) in
              if (224 <=? b0) && (b0 <=? 239) && is_continuation b1 && is_continuation b2
                 && (2048 <=? c3) && negb ((55296 <=? c3) && (c3 <=? 57343))
              then cons c3 <$> utf8_decode r2
              else match r2 with
              | [] => None
              | b3 :: r3 =>
                  let c4 := (b0 - 240) * 262144 + (b1 - 128) * 4096 + (b2 - 128) * 64
                            + (b3 - 128) in
                  if (240 <=? b0) && (b0 <=? 244) && is_continuation b1 && is_continuation b2
                     && is_continuation b3 && (65536 <=? c4) && (c4 <=? 1114111)
                  then cons c4 <$> utf8_decode r3
                  else None
              end
          end
      end
  end.

Definition valid_utf8 (bs : list Z) : bool :=
  match utf8_decode bs with Some _ => true | None => false end.

(** [s.chars()]; a Rust [String] is always well formed. *)
Definition chars (s : list Z) : list Z := default [] (utf8_decode s).

Definition is_ascii (s : list Z) : bool := forallb (fun b => (0 <=? b) && (b <=? 127)) s.

Lemma utf8_decode_ascii s : is_ascii s = true -> utf8_decode s = Some s.
Proof.
  induction s as [|b s IH]; [done|]. cbn [is_ascii forallb utf8_decode]. intros H.
  apply andb_true_iff in H as [-> H]. by rewrite IH.
Qed.

Lemma valid_utf8_ascii s : is_ascii s = true -> valid_utf8 s = true.
Proof. intros H. unfold valid_utf8. by rewrite utf8_decode_ascii. Qed.

(** ** Byte classes *)
Definition is_ascii_lowercase (b : Z) : bool := (97 <=? b) && (b <=? 122).
Definition is_ascii_uppercase (b : Z) : bool := (65 <=? b) && (b <=? 90).
Definition is_ascii_digit (b : Z) : bool := (48 <=? b) && (b <=? 57).
Definition is_ascii_alphanumeric (b : Z) : bool :=
  is_ascii_lowercase b || is_ascii_uppercase b || is_ascii_digit b.
Definition is_ascii_graphic (b : Z) : bool := (33 <=? b) && (b <=? 126).

(** [char::is_control]: the Cc category. *)
Definition is_control (c : Z) : bool := (c <=? 31) || ((127 <=? c) && (c <=? 159)).

(** [matches!(byte, ...)] on a set of characters. *)
Definition one_of (set : list Z) (b : Z) : bool := existsb (Z.eqb b) set.

Lemma one_of_spec set b : one_of set b = true <-> b ∈ set.
Proof.
  unfold one_of. rewrite existsb_exists. setoid_rewrite Z.eqb_eq. split.
  - intros (x & Hx & ->). by apply list_elem_of_In.
  - intros H. exists b. split; [by apply list_elem_of_In|done].
Qed.

(** What holds of every member of a concrete set holds of a byte in it. *)
Lemma one_of_forallb (f : Z -> bool) set b :
  forallb f set = true -> one_of set b = true -> f b = true.
Proof.
  intros Hf Hb%one_of_spec%list_elem_of_In. rewrite forallb_forall in Hf. auto.
Qed.

(** ** Prefixes and separators of strings *)

(** [str::strip_prefix] *)
Fixpoint strip_prefix (prefix s : list Z) : option (list Z) :=
  match prefix, s with
  | [], _ => Some s
  | p :: prefix, c :: s => if p =? c then strip_prefix prefix s else None
  | _ :: _, [] => None
  end.

Lemma strip_prefix_spec prefix s r : strip_prefix prefix s = Some r <-> s = prefix ++ r.
Proof.
  revert s. induction prefix as [|p prefix IH]; intros s; cbn.
  - split; [intros [= ->]|intros ->]; done.
  - destruct s as [|c s]; [done|]. destruct (Z.eqb_spec p c) as [->|].
    + rewrite IH. split; [intros ->|intros [= ->]]; done.
    + split; [done|]. intros [= ? _]. done.
Qed.

(** [str::split_once] at an ASCII separator. *)
Fixpoint split_once (sep : Z) (s : list Z) : option (list Z * list Z) :=
  match s with
  | [] => None
  | c :: s => if c =? sep then Some ([], s)
              else match split_once sep s with
                   | Some (a, b) => Some (c :: a, b)
                   | None => None
                   end
  end.

Lemma split_once_spec sep s a b :
  split_once sep s = Some (a, b) <-> s = a ++ sep :: b /\ sep ∉ a.
Proof.
  split.
  - revert a b. induction s as [|c s IH]; intros a b; cbn; [done|].
    destruct (Z.eqb_spec c sep) as [->|Hc].
    + intros [= <- <-]. split; [done|apply not_elem_of_nil].
    + destruct (split_once sep s) as [[a' b']|]; [|done]. intros [= <- <-].
      destruct (IH a' b' eq_refl) as [-> Hn]. split; [done|].
      intros [->|?]%elem_of_cons; done.
  - intros [-> Hn]. induction a as [|c a IH]; cbn; [by rewrite Z.eqb_refl|].
    apply not_elem_of_cons in Hn as [Hc Hn].
    destruct (Z.eqb_spec c sep) as [->|_]; [done|]. by rewrite IH.
Qed.

(** [str::split] at an ASCII separator: the components, at least one. *)
Fixpoint split_on (sep : Z) (s : list Z) : list (list Z) :=
  match s with
  | [] => [[]]
  | c :: s => if c =? sep then [] :: split_on sep s
              else match split_on sep s with
                   | [] => [[c]]
                   | h :: t => (c :: h) :: t
                   end
  end.

(** Rejoining the components gives the string back. *)
Fixpoint join_with (sep : Z) (parts : list (list Z)) : list Z :=
  match parts with
  | [] => []
  | [p] => p
  | p :: rest => p ++ sep :: join_with sep rest
  end.

Lemma split_on_spec sep s :
  join_with sep (split_on sep s) = s
  /\ Forall (fun p => sep ∉ p) (split_on sep s) /\ split_on sep s <> [].
Proof.
  induction s as [|c s (IHj & IHf & IHn)]; cbn.
  - repeat split; auto. constructor; [apply not_elem_of_nil|constructor].
  - destruct (Z.eqb_spec c sep) as [->|Hc].
    + split; [|split; [constructor; [apply not_elem_of_nil|done]|done]].
      destruct (split_on sep s); [done|]. cbn in *. by rewrite IHj.
    + destruct (split_on sep s) as [|h t]; [done|]. split; [|split; [|done]].
      * destruct t; cbn in *; by f_equal.
      * inversion IHf; subst. constructor; [|done].
        intros [->|?]%elem_of_cons; done.
Qed.
