(* ===== verification/Floats.v ===== *)
(** * IEEE 754 bit patterns and the [f32]/[f64] conversions of the language

    A float is its bit pattern ([to_bits]).  [value as f32] rounds to nearest,
    ties to even; [f64::from(f32)] is exact.  Conversions to [f16] belong to the
    [half] crate and stay parameters ([Crypto.HalfFloat]). *)
From S2P Require Import Prelude.

Definition f64_sign (b : Z) : Z := b / 2 ^ 63.
Definition f64_exponent (b : Z) : Z := b / 2 ^ 52 mod 2 ^ 11.
Definition f64_mantissa (b : Z) : Z := b mod 2 ^ 52.
Definition f32_sign (b : Z) : Z := b / 2 ^ 31.
Definition f32_exponent (b : Z) : Z := b / 2 ^ 23 mod 2 ^ 8.
Definition f32_mantissa (b : Z) : Z := b mod 2 ^ 23.

(** [f64::is_finite] *)
Definition f64_is_finite (b : Z) : bool := negb (f64_exponent b =? 2047).

(** [f64::from(f32)] *)
Definition f32_to_f64 (b : Z) : Z :=
  let e := f32_exponent b in
  let m := f32_mantissa b in
  f32_sign b * 2 ^ 63
  + (if e =? 255 then 2047 * 2 ^ 52 + m * 2 ^ 29
     else if e =? 0 then
       if m =? 0 then 0
       else (Z.log2 m + 874) * 2 ^ 52 + (m - 2 ^ Z.log2 m) * 2 ^ (52 - Z.log2 m)
     else (e + 896) * 2 ^ 52 + m * 2 ^ 29).

(** Dropping [s >= 1] low bits, to nearest, ties to even. *)
Definition round_ties_even (m s : Z) : Z := (m + (2 ^ (s - 1) - 1) + m / 2 ^ s mod 2) / 2 ^ s.

(** [value as f32]; a NaN stays a NaN (its payload is unspecified). *)
Definition f64_to_f32 (b : Z) : Z :=
  let e := f64_exponent b in
  let m := f64_mantissa b in
  f64_sign b * 2 ^ 31
  + (if e =? 2047 then if m =? 0 then 255 * 2 ^ 23 else 255 * 2 ^ 23 + 2 ^ 22
     else if e =? 0 then 0
     else if 1150 <? e then 255 * 2 ^ 23
     else if e <? 897 then round_ties_even (2 ^ 52 + m) (926 - e)
     else (e - 897) * 2 ^ 23 + round_ties_even (2 ^ 52 + m) 29).

Lemma round_exact m s : 1 <= s -> round_ties_even (m * 2 ^ s) s = m.
Proof.
  intros Hs. unfold round_ties_even.
  assert (E : 2 ^ s = 2 * 2 ^ (s - 1)) by (rewrite <- Z.pow_succ_r by lia; f_equal; lia).
  pose proof (Z.pow_pos_nonneg 2 (s - 1)).
  rewrite Z.div_mul by lia. pose proof (Z.mod_pos_bound m 2 ltac:(lia)).
  rewrite <- Z.add_assoc, Z.div_add_l, Z.div_small by lia. lia.
Qed.

Lemma round_bound m s k :
  1 <= s -> 0 <= m <= 2 ^ k * 2 ^ s -> 0 <= k -> 0 <= round_ties_even m s <= 2 ^ k.
Proof.
  intros Hs Hm Hk. unfold round_ties_even.
  assert (E : 2 ^ s = 2 * 2 ^ (s - 1)) by (rewrite <- Z.pow_succ_r by lia; f_equal; lia).
  pose proof (Z.pow_pos_nonneg 2 (s - 1)).
  pose proof (Z.mod_pos_bound (m / 2 ^ s) 2 ltac:(lia)).
  split; [apply Z.div_pos; lia|].
  apply Z.lt_succ_r, Z.div_lt_upper_bound; lia.
Qed.

Lemma f64_parts s e m :
  0 <= e < 2 ^ 11 -> 0 <= m < 2 ^ 52 ->
  f64_sign (s * 2 ^ 63 + (e * 2 ^ 52 + m)) = s
  /\ f64_exponent (s * 2 ^ 63 + (e * 2 ^ 52 + m)) = e
  /\ f64_mantissa (s * 2 ^ 63 + (e * 2 ^ 52 + m)) = m.
Proof.
  intros He Hm. unfold f64_sign, f64_exponent, f64_mantissa. split; [|split].
  - symmetry. apply (Z.div_unique _ _ _ (e * 2 ^ 52 + m)); lia.
  - replace ((s * 2 ^ 63 + (e * 2 ^ 52 + m)) / 2 ^ 52) with (s * 2 ^ 11 + e)
      by (apply (Z.div_unique _ _ _ m); lia).
    symmetry. apply (Z.mod_unique _ _ s); lia.
  - symmetry. apply (Z.mod_unique _ _ (s * 2 ^ 11 + e)); lia.
Qed.

Lemma f32_parts b :
  in_u 32 b ->
  b = f32_sign b * 2 ^ 31 + (f32_exponent b * 2 ^ 23 + f32_mantissa b)
  /\ 0 <= f32_sign b < 2 /\ 0 <= f32_exponent b < 256 /\ 0 <= f32_mantissa b < 2 ^ 23.
Proof.
  unfold in_u, f32_sign, f32_exponent, f32_mantissa. intros Hb.
  pose proof (Z.div_mod b (2 ^ 23) ltac:(lia)). pose proof (Z.mod_pos_bound b (2 ^ 23) ltac:(lia)).
  pose proof (Z.div_mod (b / 2 ^ 23) (2 ^ 8) ltac:(lia)).
  pose proof (Z.mod_pos_bound (b / 2 ^ 23) (2 ^ 8) ltac:(lia)).
  assert (E : b / 2 ^ 31 = b / 2 ^ 23 / 2 ^ 8) by (rewrite Z.div_div by lia; done).
  rewrite E. assert (0 <= b / 2 ^ 23 / 2 ^ 8 < 2).
  { rewrite <- E. split; [apply Z.div_pos|apply Z.div_lt_upper_bound]; lia. }
  change (2 ^ 31) with (2 ^ 8 * 2 ^ 23). lia.
Qed.

Lemma log2_single m : 0 < m < 2 ^ 23 -> 0 <= Z.log2 m <= 22 /\ 2 ^ Z.log2 m <= m < 2 * 2 ^ Z.log2 m.
Proof.
  intros Hm. pose proof (Z.log2_spec m ltac:(lia)) as H. rewrite Z.pow_succ_r in H
    by apply Z.log2_nonneg.
  pose proof (Z.log2_nonneg m). assert (Z.log2 m < 23) by (apply Z.log2_lt_pow2; lia). lia.
Qed.

(** A single widened to a double narrows back to itself: the narrowing test of
    the encoder accepts every finite single. *)
Lemma f64_to_f32_of_f32 b :
  in_u 32 b -> f32_exponent b <> 255 -> f64_to_f32 (f32_to_f64 b) = b.
Proof.
  intros Hb He. destruct (f32_parts b Hb) as (Eb & Hs & Hex & Hm).
  unfold f32_to_f64. etrans; [|symmetry; exact Eb].
  clear Eb. revert Hs. generalize (f32_sign b). intros s Hs. revert He Hex Hm. generalize (f32_exponent b) (f32_mantissa b). intros e m He Hex Hm.
  destruct (Z.eqb_spec e 255); [done|].
  destruct (Z.eqb_spec e 0) as [->|He0].
  - destruct (Z.eqb_spec m 0) as [->|Hm0].
    + unfold f64_to_f32. pose proof (f64_parts s 0 0 ltac:(lia) ltac:(lia)) as (E1 & E2 & E3).
      replace (s * 2 ^ 63 + 0) with (s * 2 ^ 63 + (0 * 2 ^ 52 + 0)) by lia.
      rewrite E1, E2. cbn. lia.
    + destruct (log2_single m) as [Hl Hlm]; [lia|]. set (k := Z.log2 m) in *.
      assert (Hp : 2 ^ 52 = 2 ^ k * 2 ^ (52 - k)) by (rewrite <- Z.pow_add_r by lia; f_equal; lia).
      pose proof (Z.pow_pos_nonneg 2 (52 - k)).
      pose proof (f64_parts s (k + 874) ((m - 2 ^ k) * 2 ^ (52 - k)) ltac:(lia) ltac:(nia))
        as (E1 & E2 & E3).
      unfold f64_to_f32. rewrite E1, E2, E3.
      destruct (Z.eqb_spec (k + 874) 2047), (Z.eqb_spec (k + 874) 0), (Z.ltb_spec 1150 (k + 874)),
        (Z.ltb_spec (k + 874) 897); try lia.
      replace (2 ^ 52 + (m - 2 ^ k) * 2 ^ (52 - k)) with (m * 2 ^ (926 - (k + 874)))
        by (replace (926 - (k + 874)) with (52 - k) by lia; lia).
      rewrite round_exact by lia. lia.
  - pose proof (f64_parts s (e + 896) (m * 2 ^ 29) ltac:(lia) ltac:(lia)) as (E1 & E2 & E3).
    unfold f64_to_f32. rewrite E1, E2, E3.
    destruct (Z.eqb_spec (e + 896) 2047), (Z.eqb_spec (e + 896) 0), (Z.ltb_spec 1150 (e + 896)),
        (Z.ltb_spec (e + 896) 897); try lia.
    replace (2 ^ 52 + m * 2 ^ 29) with ((2 ^ 23 + m) * 2 ^ 29) by lia.
    rewrite round_exact by lia. lia.
Qed.

(** Both conversions stay in their width. *)
Lemma f32_to_f64_range b : in_u 32 b -> in_u 64 (f32_to_f64 b).
Proof.
  intros Hb. destruct (f32_parts b Hb) as (_ & Hs & Hex & Hm). unfold f32_to_f64, in_u.
  destruct (Z.eqb_spec (f32_exponent b) 255); [lia|].
  destruct (Z.eqb_spec (f32_exponent b) 0); [|lia].
  destruct (Z.eqb_spec (f32_mantissa b) 0); [lia|].
  destruct (log2_single (f32_mantissa b)) as [Hl Hlm]; [lia|].
  set (k := Z.log2 (f32_mantissa b)) in *.
  assert (Hp : 2 ^ 52 = 2 ^ k * 2 ^ (52 - k)) by (rewrite <- Z.pow_add_r by lia; f_equal; lia).
  pose proof (Z.pow_pos_nonneg 2 (52 - k)). nia.
Qed.

Lemma f64_to_f32_range b : in_u 64 b -> in_u 32 (f64_to_f32 b).
Proof.
  intros Hb. unfold f64_to_f32, in_u in *.
  assert (Hs : 0 <= f64_sign b < 2)
    by (unfold f64_sign; split; [apply Z.div_pos|apply Z.div_lt_upper_bound]; lia).
  assert (He : 0 <= f64_exponent b < 2 ^ 11) by (apply Z.mod_pos_bound; lia).
  assert (Hm : 0 <= f64_mantissa b < 2 ^ 52) by (apply Z.mod_pos_bound; lia).
  repeat match goal with |- context [if ?c then _ else _] => destruct c eqn:? end; bool_prop; try lia.
  - pose proof (round_bound (2 ^ 52 + f64_mantissa b) (926 - f64_exponent b) 23 ltac:(lia)) as H.
    assert (2 ^ 30 <= 2 ^ (926 - f64_exponent b)) by (apply Z.pow_le_mono_r; lia).
    specialize (H ltac:(nia) ltac:(lia)). lia.
  - pose proof (round_bound (2 ^ 52 + f64_mantissa b) 29 24 ltac:(lia) ltac:(lia) ltac:(lia)). lia.
Qed.

(** Reference points of the two conversions: 1.0, the smallest subnormal single,
    a tie, the largest single and the first double past it. *)
Example f32_one : f64_to_f32 0x3ff0000000000000 = 0x3f800000.
Proof. reflexivity. Qed.
Example f32_subnormal : f32_to_f64 1 = 0x36a0000000000000.
Proof. reflexivity. Qed.
Example f32_tie_even : f64_to_f32 0x3ff0000010000000 = 0x3f800000.
Proof. reflexivity. Qed.
Example f32_tie_odd : f64_to_f32 0x3ff0000030000000 = 0x3f800002.
Proof. reflexivity. Qed.
Example f32_max : f32_to_f64 0x7f7fffff = 0x47efffffe0000000.
Proof. reflexivity. Qed.
Example f32_overflow : f64_to_f32 0x47effffff0000000 = 0x7f800000.
Proof. reflexivity. Qed.
