(* ===== verification/Crypto.v ===== *)
(** * Interfaces of the cryptographic crates the sources call

    [sha2], [ed25519-dalek] and [half] are not part of the repository.  Each is a
    type class: the operations the sources call, with the documented facts they
    rely on as laws.  [Toy] instances make the hypotheses of the theorems concrete
    in the witnesses; they are not meant to be secure. *)
From S2P Require Import Prelude Bytes Floats.

(** [Sha256::digest] returns 32 bytes. *)
Class Sha256 := {
  sha256 : list Z -> list Z;
  sha256_fixed : forall m, fixed 32 (sha256 m)
}.

(** [ed25519_dalek]: a key pair is determined by its 32-byte seed; verification
    accepts the signatures the key made. *)
Class Ed25519 := {
  verifying_key_of_seed : list Z -> list Z;
  ed25519_sign : list Z -> list Z -> list Z;           (* seed, message *)
  ed25519_key_valid : list Z -> bool;                  (* VerifyingKey::from_bytes is Ok *)
  ed25519_is_weak : list Z -> bool;
  ed25519_verify : list Z -> list Z -> list Z -> bool;        (* key, message, signature *)
  ed25519_verify_strict : list Z -> list Z -> list Z -> bool;
  verifying_key_fixed : forall seed, fixed 32 (verifying_key_of_seed seed);
  ed25519_sign_fixed : forall seed m, fixed 64 (ed25519_sign seed m);
  ed25519_own_key : forall seed, ed25519_key_valid (verifying_key_of_seed seed) = true;
  ed25519_verify_own : forall seed m,
    ed25519_verify (verifying_key_of_seed seed) m (ed25519_sign seed m) = true;
  ed25519_verify_strict_own : forall seed m,
    ed25519_is_weak (verifying_key_of_seed seed) = false ->
    ed25519_verify_strict (verifying_key_of_seed seed) m (ed25519_sign seed m) = true
}.

(** [half::f16], on bit patterns: conversions to and from [f64].  Widening is exact,
    so a finite half converts back to itself and is also a finite [f32]. *)
Class HalfFloat := {
  f16_from_f64 : Z -> Z;
  f16_to_f64 : Z -> Z;
  f16_from_f64_range : forall b, in_u 16 (f16_from_f64 b);
  f16_to_f64_range : forall h, in_u 64 (f16_to_f64 h);
  f16_round_trip : forall h, in_u 16 h -> f64_is_finite (f16_to_f64 h) = true ->
    f16_from_f64 (f16_to_f64 h) = h;
  f16_within_f32 : forall h, in_u 16 h -> f64_is_finite (f16_to_f64 h) = true ->
    f32_to_f64 (f64_to_f32 (f16_to_f64 h)) = f16_to_f64 h
}.

(** ** Toy instances for the witnesses *)
(** A rolling 64-bit checksum. *)
Definition toy_mix (m : list Z) : Z := fold_left (fun acc b => (acc * 257 + b + 1) mod 2 ^ 64) m 0.

Lemma toy_fixed n x : fixed (n + 8) (replicate n 0 ++ be_bytes 8 x).
Proof.
  split; [by rewrite length_app, length_replicate, be_bytes_length|].
  apply Forall_app. split; [|apply be_bytes_byte]. apply Forall_replicate. unfold is_byte. lia.
Qed.

Definition toy_hash (m : list Z) : list Z := replicate 24 0 ++ be_bytes 8 (toy_mix m).

Lemma toy_hash_fixed m : fixed 32 (toy_hash m).
Proof. apply (toy_fixed 24). Qed.

Definition toy_sha256 : Sha256 := {| sha256 := toy_hash; sha256_fixed := toy_hash_fixed |}.

Definition toy_key (seed : list Z) : list Z := be_bytes 32 (from_be seed).
Definition toy_sign (seed m : list Z) : list Z :=
  replicate 56 0 ++ be_bytes 8 (toy_mix (toy_key seed ++ m)).

Lemma toy_key_idem seed : toy_key (toy_key seed) = toy_key seed.
Proof.
  unfold toy_key. rewrite from_be_be_bytes_mod. by rewrite be_bytes_mod.
Qed.

Program Definition toy_ed25519 : Ed25519 := {|
  verifying_key_of_seed := toy_key;
  ed25519_sign := toy_sign;
  ed25519_key_valid := fun _ => true;
  ed25519_is_weak := fun k => forallb (Z.eqb 0) k;
  ed25519_verify := fun k m s => list_eqb s (toy_sign k m);
  ed25519_verify_strict := fun k m s => list_eqb s (toy_sign k m)
|}.
Next Obligation. intros. split; [apply be_bytes_length|apply be_bytes_byte]. Qed.
Next Obligation. intros. apply (toy_fixed 56). Qed.
Next Obligation. done. Qed.
Next Obligation.
  intros seed m. cbn beta. apply list_eqb_eq. unfold toy_sign. by rewrite toy_key_idem.
Qed.
Next Obligation.
  intros seed m _. cbn beta. apply list_eqb_eq. unfold toy_sign. by rewrite toy_key_idem.
Qed.

(** Zero is the only finite half; every other pattern widens to infinity. *)
Program Definition toy_half : HalfFloat := {|
  f16_from_f64 := fun _ => 0;
  f16_to_f64 := fun h => if h =? 0 then 0 else 2047 * 2 ^ 52
|}.
Next Obligation. intros. unfold in_u. lia. Qed.
Next Obligation. intros h. cbn beta. unfold in_u. destruct (h =? 0); lia. Qed.
Next Obligation. intros h _. cbn beta. destruct (Z.eqb_spec h 0); [done|]. intros Hf. by vm_compute in Hf. Qed.
Next Obligation. intros h _. cbn beta. destruct (Z.eqb_spec h 0); [done|]. intros Hf. by vm_compute in Hf. Qed.
