(* ===== verification/Content.v ===== *)
(** * Content identities and resource references
    (crates/fractonica-content/src/lib.rs) *)
From S2P Require Import Prelude Bytes Crypto.

Definition CONTENT_ALGORITHM : list Z := str "sha-256".
Definition CONTENT_ID_BYTES : nat := 32.
Definition CONTENT_ID_WIRE_LENGTH : Z := 72.
Definition MAX_CONTENT_BYTE_LENGTH : Z := 1099511627776.
Definition MAX_MEDIA_TYPE_BYTES : Z := 127.
Definition MAX_RESOURCE_ROLE_BYTES : Z := 64.
Definition MAX_ORIGINAL_NAME_CHARS : Z := 255.
Definition CONTENT_ID_PREFIX : list Z := str "sha-256:".

Inductive ContentIdParseError : Type :=
| MissingAlgorithmSeparator
| UnsupportedAlgorithm (algorithm : list Z)
| ContentIdInvalidLength (found expected : Z)
| ContentIdUppercaseHex (index : Z)
| ContentIdInvalidHex (index byte : Z).

Inductive ContentValidationError : Type :=
| ContentTooLarge (byte_length maximum : Z)
| InvalidMediaType (value : list Z) (maximum : Z)
| InvalidRole (value : list Z) (maximum : Z)
| InvalidOriginalName (value : list Z) (maximum : Z).

(** ** Identifiers *)
Module ContentId.
(** The 32 digest bytes. *)
Definition t : Type := list Z.

Definition display (id : t) : list Z := CONTENT_ID_PREFIX ++ lower_hex id.

Definition decode_hex : Z -> Z -> result ContentIdParseError Z :=
  decode_hex_with ContentIdUppercaseHex ContentIdInvalidHex.

Definition from_str (value : list Z) : result ContentIdParseError t :=
  match split_once 58 value with
  | None => Err MissingAlgorithmSeparator
  | Some (algorithm, digest) =>
      if negb (list_eqb algorithm CONTENT_ALGORITHM) then Err (UnsupportedAlgorithm algorithm)
      else if negb (Z.of_nat (length value) =? CONTENT_ID_WIRE_LENGTH)
              || negb (length digest =? CONTENT_ID_BYTES * 2)%nat
      then Err (ContentIdInvalidLength (Z.of_nat (length value)) CONTENT_ID_WIRE_LENGTH)
      else decode_pairs decode_hex 0 digest
  end.
End ContentId.

Definition hash_bytes `{Sha256} (bytes : list Z) : ContentId.t := sha256 bytes.

(** ** Descriptors and references *)
Module ContentDescriptor.
Record t : Type := mk { content_id : ContentId.t; byte_length : Z }.
End ContentDescriptor.

Definition validate_byte_length (byte_length : Z) : result ContentValidationError unit :=
  if MAX_CONTENT_BYTE_LENGTH <? byte_length
  then Err (ContentTooLarge byte_length MAX_CONTENT_BYTE_LENGTH)
  else Ok tt.

Definition is_media_token_byte (byte : Z) : bool :=
  is_ascii_alphanumeric byte || one_of (str "!#$%&'*+-.^_`|~") byte.

Definition validate_media_type (media_type : list Z) : result ContentValidationError unit :=
  let invalid := Err (InvalidMediaType media_type MAX_MEDIA_TYPE_BYTES) in
  if (length media_type =? 0)%nat || (MAX_MEDIA_TYPE_BYTES <? Z.of_nat (length media_type))
  then invalid
  else if negb (forallb is_ascii_graphic media_type) then invalid
  else match split_on 47 media_type with
  | [] | [_] => invalid
  | type :: subtype :: more =>
      if negb (length more =? 0)%nat
         || (length type =? 0)%nat
         || (length subtype =? 0)%nat
         || negb (forallb is_media_token_byte type)
         || negb (forallb is_media_token_byte subtype)
      then invalid
      else Ok tt
  end.

Definition is_role_byte (byte : Z) : bool :=
  is_ascii_lowercase byte || is_ascii_digit byte || one_of (str "._-") byte.

Definition validate_role (role : list Z) : result ContentValidationError unit :=
  if (length role =? 0)%nat
     || (MAX_RESOURCE_ROLE_BYTES <? Z.of_nat (length role))
     || negb (forallb is_role_byte role)
  then Err (InvalidRole role MAX_RESOURCE_ROLE_BYTES)
  else Ok tt.

Definition validate_original_name (original_name : list Z) : result ContentValidationError unit :=
  let length := Z.of_nat (List.length (chars original_name)) in
  if (length =? 0)
     || (MAX_ORIGINAL_NAME_CHARS <? length)
     || list_eqb original_name (str ".")
     || list_eqb original_name (str "..")
     || existsb (fun character => is_control character || one_of (str "/\:") character)
          (chars original_name)
  then Err (InvalidOriginalName original_name MAX_ORIGINAL_NAME_CHARS)
  else Ok tt.

Module ResourceRef.
Record t : Type := mk {
  content_id : ContentId.t;
  byte_length : Z;
  media_type : list Z;
  role : list Z;
  original_name : option (list Z)
}.
#[global] Instance eq_dec : EqDecision t.
Proof. solve_eq_dec. Defined.

Definition descriptor (r : t) : ContentDescriptor.t :=
  ContentDescriptor.mk (content_id r) (byte_length r).

Definition validate (r : t) : result ContentValidationError unit :=
  check validate_byte_length (ContentDescriptor.byte_length (descriptor r));
  check validate_media_type (media_type r);
  check validate_role (role r);
  match original_name r with
  | Some name => validate_original_name name
  | None => Ok tt
  end.
End ResourceRef.

(** ** Theorems *)

(** Content identifiers have one wire form.  Parsing succeeds with [id]
    exactly when the text is the display form of those 32 bytes: no uppercase,
    no other length, no other algorithm. *)
Theorem content_id_parse_display (text : list Z) (id : ContentId.t) :
  ContentId.from_str text = Ok id <-> fixed CONTENT_ID_BYTES id /\ text = ContentId.display id.
Proof.
  unfold ContentId.from_str, ContentId.display, fixed, CONTENT_ID_BYTES.
  assert (Hp : CONTENT_ID_PREFIX = CONTENT_ALGORITHM ++ [58]) by reflexivity.
  split.
  - intros H. destruct (split_once 58 text) as [[a d]|] eqn:Es; [|done].
    apply split_once_spec in Es as [-> _]. inv_ok. bool_prop.
    apply list_eqb_eq in E. subst a.
    apply decode_pairs_spec in H as [Hb ->]; [|by rewrite H1].
    rewrite lower_hex_length in H1. split; [split; [lia|done]|].
    by rewrite Hp, <- app_assoc.
  - intros [[Hl Hb] ->]. rewrite Hp, <- app_assoc. cbn [app].
    rewrite (proj2 (split_once_spec 58 _ CONTENT_ALGORITHM (lower_hex id))).
    + rewrite (proj2 (list_eqb_eq _ _) eq_refl). cbn [negb].
      rewrite length_app. cbn [length]. rewrite lower_hex_length, Hl.
      change (Z.of_nat (length CONTENT_ALGORITHM + S (2 * 32)) =? CONTENT_ID_WIRE_LENGTH) with true.
      cbn [negb orb Nat.eqb Nat.mul]. apply decode_pairs_spec; [by rewrite lower_hex_length, Hl|done].
    + split; [done|]. apply (bool_decide_eq_true_1 (58 ∉ CONTENT_ALGORITHM)).
      vm_compute. reflexivity.
Qed.

(** A media type is accepted exactly when it is [type/subtype] with
    nonempty token components and at most 127 bytes in all. *)
Theorem validate_media_type_spec (media_type : list Z) :
  validate_media_type media_type = Ok tt
  <-> exists type subtype,
        media_type = type ++ 47 :: subtype
        /\ type <> [] /\ subtype <> []
        /\ forallb is_media_token_byte type = true
        /\ forallb is_media_token_byte subtype = true
        /\ Z.of_nat (length media_type) <= MAX_MEDIA_TYPE_BYTES.
Proof.
  assert (Htok : forall t, forallb is_media_token_byte t = true ->
    forallb is_ascii_graphic t = true /\ 47 ∉ t).
  { induction t as [|b t IH]; cbn [forallb].
    - split; [done|apply not_elem_of_nil].
    - intros [Hb Ht]%andb_true_iff. destruct (IH Ht) as [-> Hn].
      assert (is_ascii_graphic b = true /\ b <> 47) as [-> Hs].
      { unfold is_media_token_byte in Hb. apply orb_true_iff in Hb as [Hb|Hb].
        - unfold is_ascii_alphanumeric, is_ascii_lowercase, is_ascii_uppercase, is_ascii_digit in Hb.
          unfold is_ascii_graphic. destruct (Z.leb_spec 33 b), (Z.leb_spec b 126); cbn in *; lia.
        - apply (one_of_forallb (fun b => is_ascii_graphic b && negb (b =? 47))) in Hb;
            [|vm_compute; done]. bool_prop. done. }
      split; [done|]. intros [ | ]%elem_of_cons; congruence. }
  unfold validate_media_type. split.
  - intros H. inv_ok. bool_prop.
    pose proof (split_on_spec 47 media_type) as (Hj & _ & _).
    destruct (split_on 47 media_type) as [|type [|subtype more]]; try done.
    inv_ok. bool_prop. destruct more; [|done]. cbn in Hj.
    exists type, subtype. destruct type, subtype; done.
  - intros (t & u & -> & Ht & Hu & Hft & Hfu & Hl).
    destruct (Htok t Hft) as [Hgt Hst], (Htok u Hfu) as [Hgu Hsu].
    replace (length (t ++ 47%Z :: u) =? 0)%nat with false
      by (symmetry; apply Nat.eqb_neq; rewrite length_app; cbn; lia).
    rewrite (proj2 (Z.ltb_ge _ _) Hl). cbn [orb].
    rewrite forallb_app. cbn [forallb]. rewrite Hgt, Hgu. cbn [andb negb].
    replace (split_on 47 (t ++ 47 :: u)) with [t; u].
    + cbn. rewrite Hft, Hfu. destruct t, u; done.
    + clear -Hst Hsu. induction t as [|b t IH]; cbn.
      * f_equal. induction u as [|b u IH]; [done|]. apply not_elem_of_cons in Hsu as [Hb Hu]. cbn.
        destruct (Z.eqb_spec b 47); [congruence|]. by rewrite <- IH.
      * apply not_elem_of_cons in Hst as [Hb Ht].
        destruct (Z.eqb_spec b 47); [congruence|]. by rewrite <- IH.
Qed.
