(* ===== verification/Cbor.v ===== *)
(** * Deterministic CBOR (crates/fractonica-trust/src/lib.rs, [CanonicalValue] to
    [ensure_finite])

    The encoder appends to a growing buffer bounded by [MAX_CANONICAL_BYTES]; the
    decoder is a cursor over the input.  Both recurse to at most
    [MAX_CANONICAL_DEPTH]: [FUEL] counts one more level than the depth check can
    pass, so the fuel arm repeats the check's own error and is never reached.
    [wire] and [normalize] are the reference encoder and the reference normal
    form: no bounds, no buffer, structural recursion. *)
From S2P Require Import Prelude Bytes Crypto Floats.

Definition MAX_CANONICAL_DEPTH : Z := 32.
Definition MAX_CANONICAL_CONTAINER_ITEMS : Z := 4096.
Definition MAX_CANONICAL_BYTES : Z := 2 * 1024 * 1024.

(** Depths 0 to 32 pass the check; depth 33 fails it with one unit left. *)
Definition FUEL : nat := 34.

Module CanonicalValue.
(** [Integer] is an [i64], [Unsigned] a [u64], [Float] the bits of an [f64],
    [Text] the UTF-8 bytes of a [String]. *)
Inductive t : Type :=
| Null
| Bool (b : bool)
| Integer (value : Z)
| Unsigned (value : Z)
| Float (bits : Z)
| Bytes (bytes : list Z)
| Text (value : list Z)
| Array (values : list t)
| Map (values : list (t * t)).
End CanonicalValue.
Export CanonicalValue (Null, Bool, Integer, Unsigned, Float, Bytes, Text, Array, Map).
Notation CV := CanonicalValue.t.

Inductive CanonicalCborError : Type :=
| EncodedTooLarge (bytes maximum : Z)
| TooDeep (depth maximum : Z)
| ContainerTooLarge (count maximum : Z)
| DuplicateMapKey
| NonCanonicalMapOrder
| NonFiniteFloat
| NonCanonical
| UnexpectedEnd
| TrailingData
| UnsupportedType
| IndefiniteOrReserved
| LengthOutOfRange
| IntegerOutOfRange
| InvalidUtf8.

(** ** Encoder *)
Definition push (output bytes : list Z) : result CanonicalCborError (list Z) :=
  let attempted := sat_u 64 (Z.of_nat (length output) + Z.of_nat (length bytes)) in
  if MAX_CANONICAL_BYTES <? attempted then Err (EncodedTooLarge attempted MAX_CANONICAL_BYTES)
  else Ok (output ++ bytes).

Definition encode_head (major value : Z) (output : list Z) : result CanonicalCborError (list Z) :=
  let lead := wrap 8 (Z.shiftl major 5) in
  if value <=? 23 then push output [Z.lor lead value]
  else if value <=? 0xff then push output [Z.lor lead 24; value]
  else if value <=? 0xffff then
    let? output := push output [Z.lor lead 25] in push output (be_bytes 2 value)
  else if value <=? 0xffffffff then
    let? output := push output [Z.lor lead 26] in push output (be_bytes 4 value)
  else let? output := push output [Z.lor lead 27] in push output (be_bytes 8 value).

Definition validate_container (count : Z) : result CanonicalCborError unit :=
  if MAX_CANONICAL_CONTAINER_ITEMS <? count
  then Err (ContainerTooLarge count MAX_CANONICAL_CONTAINER_ITEMS)
  else Ok tt.

Definition canonical_key_order (left right : list Z) : comparison := bytes_cmp left right.

Definition ensure_finite (value : Z) : result CanonicalCborError unit :=
  if f64_is_finite value then Ok tt else Err NonFiniteFloat.

(** [for value in values { encode_value(value, depth + 1, output)?; }] *)
Fixpoint encode_items {A} (encode : A -> list Z -> result CanonicalCborError (list Z))
    (values : list A) (output : list Z) : result CanonicalCborError (list Z) :=
  match values with
  | [] => Ok output
  | v :: values => let? output := encode v output in encode_items encode values output
  end.

(** The first loop over a map: every key into a buffer of its own, with the
    running total of key bytes. *)
Fixpoint encode_keys {A V} (encode : A -> result CanonicalCborError (list Z))
    (values : list (A * V)) (total_key_bytes : Z) :
    result CanonicalCborError (list (list Z * V)) :=
  match values with
  | [] => Ok []
  | (key, value) :: values =>
      let? encoded_key := encode key in
      let? total := ok_or (checked_u 64 (total_key_bytes + Z.of_nat (length encoded_key)))
                      LengthOutOfRange in
      if MAX_CANONICAL_BYTES <? total then Err (EncodedTooLarge total MAX_CANONICAL_BYTES)
      else let? entries := encode_keys encode values total in Ok ((encoded_key, value) :: entries)
  end.

(** [entries.sort_by(|l, r| canonical_key_order(&l.0, &r.0))] *)
Definition entry_le {V} (left right : list Z * V) : Prop :=
  canonical_key_order (fst left) (fst right) <> Gt.
#[export] Instance entry_le_dec {V} (a b : list Z * V) : Decision (entry_le a b).
Proof. unfold entry_le. solve_decision. Defined.

Definition sort_entries {V} (entries : list (list Z * V)) : list (list Z * V) :=
  merge_sort entry_le entries.

Definition has_duplicate_key {V} (entries : list (list Z * V)) : bool :=
  existsb (fun pair => list_eqb (fst (fst pair)) (fst (snd pair))) (windows2 entries).

Section Codec.
Context `{HalfFloat}.

Definition encode_float (value : Z) (output : list Z) : result CanonicalCborError (list Z) :=
  if negb (f64_is_finite value) then Err NonFiniteFloat
  else
    let half := f16_from_f64 value in
    if f16_to_f64 half =? value then
      let? output := push output [0xf9] in push output (be_bytes 2 half)
    else
      let single := f64_to_f32 value in
      if f32_to_f64 single =? value then
        let? output := push output [0xfa] in push output (be_bytes 4 single)
      else let? output := push output [0xfb] in push output (be_bytes 8 value).

Fixpoint encode_value (fuel : nat) (value : CV) (depth : Z) (output : list Z) :
    result CanonicalCborError (list Z) :=
  match fuel with
  | O => Err (TooDeep depth MAX_CANONICAL_DEPTH)
  | S fuel =>
      if MAX_CANONICAL_DEPTH <? depth then Err (TooDeep depth MAX_CANONICAL_DEPTH)
      else
        match value with
        | Null => push output [0xf6]
        | Bool false => push output [0xf4]
        | Bool true => push output [0xf5]
        | Integer value =>
            if 0 <=? value then encode_head 0 value output
            else encode_head 1 (wrap 64 (-1 - value)) output
        | Unsigned value => encode_head 0 value output
        | Float value => encode_float value output
        | Bytes bytes =>
            let? output := encode_head 2 (Z.of_nat (length bytes)) output in push output bytes
        | Text value =>
            let? output := encode_head 3 (Z.of_nat (length value)) output in push output value
        | Array values =>
            check validate_container (Z.of_nat (length values));
            let? output := encode_head 4 (Z.of_nat (length values)) output in
            encode_items (fun v output => encode_value fuel v (depth + 1) output) values output
        | Map values =>
            check validate_container (Z.of_nat (length values));
            let? entries := encode_keys (fun k => encode_value fuel k (depth + 1) []) values 0 in
            let entries := sort_entries entries in
            if has_duplicate_key entries then Err DuplicateMapKey
            else
              let? output := encode_head 5 (Z.of_nat (length entries)) output in
              encode_items
                (fun entry output =>
                   let? output := push output (fst entry) in
                   encode_value fuel (snd entry) (depth + 1) output)
                entries output
        end
  end.

Definition to_canonical_cbor (value : CV) : result CanonicalCborError (list Z) :=
  encode_value FUEL value 0 [].

(** ** Decoder *)
Record Decoder : Type := mkDecoder { bytes : list Z; offset : Z }.

Definition Decoder_new (bytes : list Z) : Decoder := mkDecoder bytes 0.

Definition is_finished (d : Decoder) : bool := offset d =? Z.of_nat (length (bytes d)).

Definition take_byte (d : Decoder) : result CanonicalCborError (Z * Decoder) :=
  match bytes d !! Z.to_nat (offset d) with
  | None => Err UnexpectedEnd
  | Some byte => Ok (byte, mkDecoder (bytes d) (offset d + 1))
  end.

Definition take_bytes (d : Decoder) (length : Z) : result CanonicalCborError (list Z * Decoder) :=
  let? end_ := ok_or (checked_u 64 (offset d + length)) LengthOutOfRange in
  if Z.of_nat (List.length (bytes d)) <? end_ then Err UnexpectedEnd
  else Ok (take (Z.to_nat length) (drop (Z.to_nat (offset d)) (bytes d)),
           mkDecoder (bytes d) end_).

Definition decode_argument (d : Decoder) (additional : Z) :
    result CanonicalCborError (Z * Decoder) :=
  let? (value, minimum, d) :=
    (if (0 <=? additional) && (additional <=? 23) then Ok (additional, 0, d)
     else if additional =? 24 then
       let? (value, d) := take_byte d in Ok (value, 24, d)
     else if additional =? 25 then
       let? (value, d) := take_bytes d 2 in Ok (from_be value, 0x100, d)
     else if additional =? 26 then
       let? (value, d) := take_bytes d 4 in Ok (from_be value, 0x10000, d)
     else if additional =? 27 then
       let? (value, d) := take_bytes d 8 in Ok (from_be value, 0x100000000, d)
     else Err IndefiniteOrReserved) in
  if value <? minimum then Err NonCanonical else Ok (value, d).

(** [usize] has 64 bits, so the conversion of [decode_length] cannot fail. *)
Definition decode_length (d : Decoder) (additional : Z) :
    result CanonicalCborError (Z * Decoder) :=
  let? (value, d) := decode_argument d additional in
  let? length := ok_or (checked_u 64 value) LengthOutOfRange in
  Ok (length, d).

Definition decode_simple (d : Decoder) (additional : Z) :
    result CanonicalCborError (CV * Decoder) :=
  if additional =? 20 then Ok (Bool false, d)
  else if additional =? 21 then Ok (Bool true, d)
  else if additional =? 22 then Ok (Null, d)
  else if additional =? 25 then
    let? (bits, d) := take_bytes d 2 in
    let value := f16_to_f64 (from_be bits) in
    check ensure_finite value;
    Ok (Float value, d)
  else if additional =? 26 then
    let? (bits, d) := take_bytes d 4 in
    let value := f32_to_f64 (from_be bits) in
    check ensure_finite value;
    if f16_to_f64 (f16_from_f64 value) =? value then Err NonCanonical
    else Ok (Float value, d)
  else if additional =? 27 then
    let? (bits, d) := take_bytes d 8 in
    let value := from_be bits in
    check ensure_finite value;
    let single := f64_to_f32 value in
    if f32_to_f64 single =? value then Err NonCanonical
    else Ok (Float value, d)
  else Err UnsupportedType.

(** [for _ in 0..count { values.push(self.decode_value(depth + 1)?); }] *)
Fixpoint decode_items (decode : Decoder -> result CanonicalCborError (CV * Decoder))
    (count : nat) (d : Decoder) : result CanonicalCborError (list CV * Decoder) :=
  match count with
  | O => Ok ([], d)
  | S count =>
      let? (value, d) := decode d in
      let? (values, d) := decode_items decode count d in
      Ok (value :: values, d)
  end.

(** The loop over a map's entries, with [previous_key]. *)
Fixpoint decode_entries (decode : Decoder -> result CanonicalCborError (CV * Decoder))
    (count : nat) (previous_key : option (list Z)) (d : Decoder) :
    result CanonicalCborError (list (CV * CV) * Decoder) :=
  match count with
  | O => Ok ([], d)
  | S count =>
      let key_start := offset d in
      let? (key, d) := decode d in
      let key_bytes :=
        take (Z.to_nat (offset d - key_start)) (drop (Z.to_nat key_start) (bytes d)) in
      if match previous_key with
         | Some previous =>
             match canonical_key_order previous key_bytes with Lt => false | _ => true end
         | None => false
         end
      then Err NonCanonicalMapOrder
      else
        let? (value, d) := decode d in
        let? (values, d) := decode_entries decode count (Some key_bytes) d in
        Ok ((key, value) :: values, d)
  end.

Fixpoint decode_value (fuel : nat) (depth : Z) (d : Decoder) :
    result CanonicalCborError (CV * Decoder) :=
  match fuel with
  | O => Err (TooDeep depth MAX_CANONICAL_DEPTH)
  | S fuel =>
      if MAX_CANONICAL_DEPTH <? depth then Err (TooDeep depth MAX_CANONICAL_DEPTH)
      else
        let? (lead, d) := take_byte d in
        let major := Z.shiftr lead 5 in
        let additional := Z.land lead 0x1f in
        if major =? 0 then
          let? (value, d) := decode_argument d additional in Ok (Unsigned value, d)
        else if major =? 1 then
          let? (encoded, d) := decode_argument d additional in
          let? value := ok_or (checked_i64 (-1 - encoded)) IntegerOutOfRange in
          Ok (Integer value, d)
        else if major =? 2 then
          let? (length, d) := decode_length d additional in
          let? (bytes, d) := take_bytes d length in Ok (Bytes bytes, d)
        else if major =? 3 then
          let? (length, d) := decode_length d additional in
          let? (bytes, d) := take_bytes d length in
          if valid_utf8 bytes then Ok (Text bytes, d) else Err InvalidUtf8
        else if major =? 4 then
          let? (count, d) := decode_length d additional in
          check validate_container count;
          let? (values, d) := decode_items (decode_value fuel (depth + 1)) (Z.to_nat count) d in
          Ok (Array values, d)
        else if major =? 5 then
          let? (count, d) := decode_length d additional in
          check validate_container count;
          let? (values, d) :=
            decode_entries (decode_value fuel (depth + 1)) (Z.to_nat count) None d in
          Ok (Map values, d)
        else if major =? 7 then decode_simple d additional
        else Err UnsupportedType
  end.

Definition from_canonical_cbor (bytes : list Z) : result CanonicalCborError CV :=
  let length := Z.of_nat (List.length bytes) in
  if MAX_CANONICAL_BYTES <? length then Err (EncodedTooLarge length MAX_CANONICAL_BYTES)
  else
    let decoder := Decoder_new bytes in
    let? (value, decoder) := decode_value FUEL 0 decoder in
    if negb (is_finished decoder) then Err TrailingData
    else
      let? encoded := to_canonical_cbor value in
      if negb (list_eqb encoded bytes) then Err NonCanonical
      else Ok value.

(** ** Reference encoder and normal form *)

(** The head of a data item, as one byte string. *)
Definition head (major value : Z) : list Z :=
  let lead := major * 32 in
  if value <=? 23 then [lead + value]
  else if value <=? 0xff then [lead + 24; value]
  else if value <=? 0xffff then (lead + 25) :: be_bytes 2 value
  else if value <=? 0xffffffff then (lead + 26) :: be_bytes 4 value
  else (lead + 27) :: be_bytes 8 value.

Definition float_bytes (value : Z) : list Z :=
  if f16_to_f64 (f16_from_f64 value) =? value then 0xf9 :: be_bytes 2 (f16_from_f64 value)
  else if f32_to_f64 (f64_to_f32 value) =? value then 0xfa :: be_bytes 4 (f64_to_f32 value)
  else 0xfb :: be_bytes 8 value.

(** Shortest heads and floats, map entries in the order of their key bytes. *)
Fixpoint wire (value : CV) : list Z :=
  match value with
  | Null => [0xf6]
  | Bool b => [if b then 0xf5 else 0xf4]
  | Integer v => if 0 <=? v then head 0 v else head 1 (-1 - v)
  | Unsigned v => head 0 v
  | Float v => float_bytes v
  | Bytes b => head 2 (Z.of_nat (length b)) ++ b
  | Text s => head 3 (Z.of_nat (length s)) ++ s
  | Array vs => head 4 (Z.of_nat (length vs)) ++ concat (List.map wire vs)
  | Map vs =>
      head 5 (Z.of_nat (length vs))
      ++ concat (List.map (fun e => fst e ++ snd e)
           (sort_entries (List.map (fun kv => (wire (fst kv), wire (snd kv))) vs)))
  end.

(** What decoding gives back: nonnegative integers are unsigned, map entries are
    in wire order. *)
Fixpoint normalize (value : CV) : CV :=
  match value with
  | Integer v => if 0 <=? v then Unsigned v else Integer v
  | Array vs => Array (List.map normalize vs)
  | Map vs =>
      Map (List.map snd
             (sort_entries
                (List.map (fun kv => (wire (fst kv), (normalize (fst kv), normalize (snd kv)))) vs)))
  | v => v
  end.

(** The values the Rust type can hold. *)
Fixpoint wf (value : CV) : Prop :=
  match value with
  | Null | Bool _ => True
  | Integer v => in_i 64 v
  | Unsigned v => in_u 64 v
  | Float v => in_u 64 v
  | Bytes b => Forall is_byte b
  | Text s => Forall is_byte s /\ valid_utf8 s = true
  | Array vs => (fix all l := match l with [] => True | v :: l => wf v /\ all l end) vs
  | Map vs =>
      (fix all l := match l with [] => True | (k, v) :: l => wf k /\ wf v /\ all l end) vs
  end.

(** The limits of the vocabulary: [value] at nesting depth [depth]. *)
Fixpoint within_limits (depth : Z) (value : CV) : Prop :=
  depth <= MAX_CANONICAL_DEPTH /\
  match value with
  | Float v => f64_is_finite v = true
  | Array vs =>
      Z.of_nat (length vs) <= MAX_CANONICAL_CONTAINER_ITEMS
      /\ (fix all l := match l with [] => True | v :: l => within_limits (depth + 1) v /\ all l end) vs
  | Map vs =>
      Z.of_nat (length vs) <= MAX_CANONICAL_CONTAINER_ITEMS
      /\ NoDup (List.map (fun kv => wire (fst kv)) vs)
      /\ (fix all l := match l with
                       | [] => True
                       | (k, v) :: l =>
                           within_limits (depth + 1) k /\ within_limits (depth + 1) v /\ all l
                       end) vs
  | _ => True
  end.

End Codec.
