(* ===== verification/CborTheory.v ===== *)
(** * Deterministic CBOR: the encoder refines the reference encoder

    [encode_value_spec]: the buffer-and-bounds encoder succeeds exactly on the
    values within the vocabulary's limits whose wire form fits, and appends that
    wire form. *)
From S2P Require Import Prelude Bytes Crypto Floats Cbor.

(** ** Sorting entries by key bytes *)
Lemma entry_le_bytes {V} (a b : list Z * V) : entry_le a b <-> bytes_le (fst a) (fst b).
Proof. done. Qed.

#[export] Instance entry_le_total {V} : Total (@entry_le V).
Proof. intros a b. rewrite !entry_le_bytes. apply (total bytes_le). Qed.
#[export] Instance entry_le_trans {V} : Transitive (@entry_le V).
Proof. intros a b c. rewrite !entry_le_bytes. apply transitivity. Qed.

Definition on_value {V W} (f : V -> W) (e : list Z * V) : list Z * W := (fst e, f (snd e)).

Lemma sort_entries_map {V W} (f : V -> W) (l : list (list Z * V)) :
  sort_entries (List.map (on_value f) l) = List.map (on_value f) (sort_entries l).
Proof. unfold sort_entries. apply (merge_sort_map entry_le entry_le (on_value f)). done. Qed.

Lemma sort_entries_perm {V} (l : list (list Z * V)) : Permutation (sort_entries l) l.
Proof. apply merge_sort_Permutation. Qed.

(** Keys strictly ascending. *)
Definition strict_keys {V} (l : list (list Z * V)) : Prop :=
  Sorted.Sorted (fun a b => bytes_lt (fst a) (fst b)) l.

Lemma has_duplicate_key_false {V} (l : list (list Z * V)) :
  Sorted.Sorted entry_le l ->
  has_duplicate_key l = false <-> strict_keys l.
Proof.
  unfold has_duplicate_key, strict_keys.
  induction l as [|a l IH]; intros Hs; [cbn; split; [constructor|done]|].
  destruct l as [|b l]; [cbn; split; [auto|done]|].
  inversion Hs as [|? ? Hs' Hh]; subst. inversion Hh as [|? ? Hab]; subst.
  cbn [windows2 existsb fst snd]. rewrite orb_false_iff, IH by done.
  apply entry_le_bytes, bytes_le_lteq in Hab. split.
  - intros [Hne Hl]. constructor; [done|]. constructor.
    destruct Hab as [|E]; [done|]. rewrite (proj2 (list_eqb_eq _ _) E) in Hne. done.
  - intros Hst. inversion Hst as [|? ? Hst' Hlt]; subst. inversion Hlt as [|? ? Hlt']; subst.
    split; [|done]. apply not_true_is_false. rewrite list_eqb_eq. intros E. rewrite E in Hlt'.
    by apply bytes_lt_irrefl in Hlt'.
Qed.

Lemma strict_keys_strongly {V} (l : list (list Z * V)) :
  strict_keys l -> Sorted.StronglySorted (fun a b => bytes_lt (fst a) (fst b)) l.
Proof. apply Sorted.Sorted_StronglySorted. intros a b c. apply bytes_lt_trans. Qed.

Lemma sorted_strict_iff_NoDup {V} (l : list (list Z * V)) :
  Sorted.Sorted entry_le l -> strict_keys l <-> NoDup (List.map fst l).
Proof.
  intros Hs. split.
  - intros H%strict_keys_strongly. induction H as [|a l Hl IH Ha]; [constructor|]. cbn.
    inversion Hs; subst. constructor; [|auto]. intros Hin%list_elem_of_In%in_map_iff.
    destruct Hin as (b & E & Hb). rewrite List.Forall_forall in Ha. specialize (Ha b Hb).
    rewrite E in Ha. by apply bytes_lt_irrefl in Ha.
  - intros Hn. unfold strict_keys. induction l as [|a l IH]; [constructor|].
    inversion Hs as [|? ? Hs' Hh]; subst. cbn in Hn. apply NoDup_cons in Hn as [Ha Hn].
    constructor; [auto|]. inversion Hh as [|b l' Hab]; subst; constructor.
    apply entry_le_bytes, bytes_le_lteq in Hab as [|E]; [done|]. rewrite E in Ha.
    destruct Ha. cbn. by left.
Qed.

Lemma sort_strict_iff_NoDup {V} (l : list (list Z * V)) :
  strict_keys (sort_entries l) <-> NoDup (List.map fst l).
Proof.
  rewrite sorted_strict_iff_NoDup by (apply Sorted_merge_sort; apply _).
  apply NoDup_Permutation_proper. by rewrite sort_entries_perm.
Qed.

Lemma has_duplicate_key_sort {V} (l : list (list Z * V)) :
  has_duplicate_key (sort_entries l) = false <-> NoDup (List.map fst l).
Proof.
  rewrite has_duplicate_key_false by (apply Sorted_merge_sort; apply _).
  apply sort_strict_iff_NoDup.
Qed.

Lemma sort_entries_strict {V} (l : list (list Z * V)) : strict_keys l -> sort_entries l = l.
Proof.
  intros Hl. unfold sort_entries.
  assert (Hs : Sorted.Sorted entry_le l).
  { induction Hl as [|a l _ IH Hh]; constructor; [done|].
    inversion Hh; subst; constructor. apply entry_le_bytes, bytes_le_lteq. by left. }
  pose proof (Sorted_merge_sort (@entry_le V) l) as Hs2.
  pose proof (merge_sort_Permutation (@entry_le V) l) as Hp.
  change (merge_sort entry_le l) with (sort_entries l) in *.
  assert (Hl2 : strict_keys (sort_entries l)).
  { apply sort_strict_iff_NoDup, sorted_strict_iff_NoDup; done. }
  apply strict_keys_strongly in Hl, Hl2. clear Hs Hs2. revert Hl2 Hp.
  generalize (sort_entries l) as l2. induction Hl as [|a l Hl IH Ha]; intros l2 Hl2 Hp.
  - by apply Permutation_nil_r in Hp.
  - destruct l2 as [|b l2]; [by apply Permutation_nil_l in Hp|].
    inversion Hl2 as [|? ? Hl2' Hb]; subst.
    rewrite List.Forall_forall in Ha, Hb.
    assert (a = b) as ->.
    { assert (Hin : In b (a :: l)) by (rewrite <- Hp; by left).
      assert (Hin2 : In a (b :: l2)) by (rewrite Hp; by left).
      destruct Hin as [|Hin]; [done|]. destruct Hin2 as [|Hin2]; [done|].
      destruct (bytes_lt_irrefl (fst a)). eapply bytes_lt_trans; [apply Ha, Hin|apply Hb, Hin2]. }
    f_equal. apply IH; [done|]. by apply Permutation_cons_inv in Hp.
Qed.

(** ** The bounded buffer *)
Definition fits (l : list Z) : Prop := Z.of_nat (length l) <= MAX_CANONICAL_BYTES.

Lemma push_Ok out b out' : push out b = Ok out' <-> out' = out ++ b /\ fits out'.
Proof.
  unfold push, fits, sat_u, MAX_CANONICAL_BYTES.
  destruct (Z.ltb_spec (2 * 1024 * 1024)
    (Z.min (Z.of_nat (length out) + Z.of_nat (length b)) (2 ^ 64 - 1))).
  - split; [done|]. intros [-> Hf]. rewrite length_app in Hf. lia.
  - split; [intros [= <-]; rewrite length_app; split; [done|lia]|]. by intros [-> _].
Qed.

Lemma fits_app_l a b : fits (a ++ b) -> fits a.
Proof. unfold fits. rewrite length_app. lia. Qed.

Lemma push2_Ok out a b out' :
  (let? output := push out a in push output b) = Ok out' <-> out' = out ++ (a ++ b) /\ fits out'.
Proof.
  rewrite app_assoc. destruct (push out a) as [o|e] eqn:E.
  - apply push_Ok in E as [-> _]. apply push_Ok.
  - split; [done|]. intros [-> Hf]. assert (push out a = Ok (out ++ a)); [|congruence].
    apply push_Ok. split; [done|]. by eapply fits_app_l.
Qed.

Lemma lead_add m k : 0 <= m < 8 -> 0 <= k < 32 -> Z.lor (wrap 8 (Z.shiftl m 5)) k = m * 32 + k.
Proof.
  intros. rewrite Z.shiftl_mul_pow2, wrap_small by (unfold in_u; lia).
  change 32 with (2 ^ 5). apply lor_add; lia.
Qed.

Lemma encode_head_Ok major value out out' :
  0 <= major < 8 -> 0 <= value ->
  encode_head major value out = Ok out' <-> out' = out ++ head major value /\ fits out'.
Proof.
  intros Hm Hv. unfold encode_head, head.
  destruct (Z.leb_spec value 23); [rewrite lead_add by lia; apply push_Ok|].
  rewrite !lead_add by lia.
  destruct (Z.leb_spec value 255); [apply push_Ok|].
  destruct (Z.leb_spec value 65535); [apply (push2_Ok _ [_])|].
  destruct (Z.leb_spec value 4294967295); apply (push2_Ok _ [_]).
Qed.

(** Running a later stage after a stage that appends [a]. *)
Lemma bind_append {m : list Z -> result CanonicalCborError (list Z)} (r : result _ (list Z))
    out a (P : Prop) b out' :
  (forall o, r = Ok o <-> o = out ++ a /\ fits o) ->
  (forall o o', fits o -> m o = Ok o' <-> P /\ o' = o ++ b /\ fits o') ->
  (let? o := r in m o) = Ok out' <-> P /\ out' = out ++ (a ++ b) /\ fits out'.
Proof.
  intros Hr Hm. rewrite app_assoc. destruct r as [o|e].
  - destruct (proj1 (Hr o) eq_refl) as [-> Hf]. by apply Hm.
  - split; [done|]. intros (_ & -> & Hf). apply fits_app_l in Hf.
    by pose proof (proj2 (Hr (out ++ a)) (conj eq_refl Hf)).
Qed.

Lemma encode_items_Ok {A} (enc : A -> list Z -> result CanonicalCborError (list Z))
    (w : A -> list Z) (P : A -> Prop) vs : forall out out',
  (forall v, v ∈ vs -> forall out out', fits out ->
     enc v out = Ok out' <-> P v /\ out' = out ++ w v /\ fits out') ->
  fits out ->
  encode_items enc vs out = Ok out'
  <-> (forall v, v ∈ vs -> P v) /\ out' = out ++ concat (List.map w vs) /\ fits out'.
Proof.
  induction vs as [|v vs IH]; intros out out' Henc Hf; cbn.
  - rewrite app_nil_r. split; [intros [= <-]|by intros (_ & -> & _)].
    split; [intros v Hv; by apply not_elem_of_nil in Hv|done].
  - assert (Hv := Henc v ltac:(by left) out). assert (Hvs := fun v Hin => Henc v (proj2 (elem_of_cons vs v _) (or_intror Hin))).
    rewrite app_assoc. destruct (enc v out) as [o|e].
    + destruct (proj1 (Hv o Hf) eq_refl) as (HP & -> & Hf'). rewrite IH by done.
      split; intros (H1 & H2 & H3); (split; [|done]).
      * intros x [->|Hx]%elem_of_cons; auto.
      * intros x Hx. apply H1. by right.
    + split; [done|]. intros (HP & -> & Hf'). apply fits_app_l in Hf'.
      pose proof (proj2 (Hv (out ++ w v) Hf)) as Hc. discriminate Hc. split; [apply HP; by left|done].
Qed.

Lemma encode_keys_Ok {A V} (enc : A -> result CanonicalCborError (list Z))
    (w : A -> list Z) (P : A -> Prop) (vs : list (A * V)) : forall total es,
  (forall kv, kv ∈ vs -> forall b,
     enc (fst kv) = Ok b <-> P (fst kv) /\ b = w (fst kv) /\ fits b) ->
  0 <= total <= MAX_CANONICAL_BYTES ->
  encode_keys enc vs total = Ok es
  <-> (forall kv, kv ∈ vs -> P (fst kv))
      /\ es = List.map (fun kv => (w (fst kv), snd kv)) vs
      /\ total + Z.of_nat (length (concat (List.map (fun kv => w (fst kv)) vs)))
         <= MAX_CANONICAL_BYTES.
Proof.
  induction vs as [|[k v] vs IH]; intros total es Henc Ht; cbn.
  - split; [intros [= <-]|by intros (_ & -> & _)].
    split; [intros kv Hin; by apply not_elem_of_nil in Hin|]. split; [done|lia].
  - assert (Hk := Henc (k, v) ltac:(by left)). cbn in Hk.
    assert (Hvs := fun kv Hin => Henc kv (proj2 (elem_of_cons vs kv _) (or_intror Hin))).
    rewrite length_app. unfold fits, MAX_CANONICAL_BYTES in *.
    destruct (enc k) as [b|e]; cycle 1.
    { split; [done|]. intros (HP & _ & Hl). pose proof (proj2 (Hk (w k))) as Hc.
      discriminate Hc. split; [apply (HP (k, v)); by left|split; [done|lia]]. }
    destruct (proj1 (Hk b) eq_refl) as (HP & -> & Hf).
    set (total' := total + Z.of_nat (length (w k))).
    rewrite (proj2 (checked_u_Some 64 total' total')) by (split; [done|unfold in_u; lia]).
    subst total'. cbn [ok_or].
    destruct (Z.ltb_spec (2 * 1024 * 1024) (total + Z.of_nat (length (w k)))).
    { split; [done|]. intros (_ & _ & Hl). lia. }
    specialize (IH (total + Z.of_nat (length (w k)))). rewrite Nat2Z.inj_add, Z.add_assoc.
    destruct (encode_keys enc vs _) as [es'|e].
    + destruct (proj1 (IH es' Hvs ltac:(lia)) eq_refl) as (HPs & -> & Hl). split.
      * intros [= <-]. split; [|done]. intros kv [->|Hin]%elem_of_cons; auto.
      * by intros (_ & -> & _).
    + split; [done|]. intros (HPs & _ & Hl).
      assert (Hc : Err e = Ok (List.map (fun kv : A * V => (w (fst kv), snd kv)) vs)); [|done].
      apply IH; [done|lia|]. split; [|split; [reflexivity|done]]. intros kv Hin. apply HPs. by right.
Qed.

(** ** The nested predicates, unfolded one level *)
Section Unfold.
Context `{HalfFloat}.

Lemma wf_Array vs : wf (Array vs) <-> forall v, v ∈ vs -> wf v.
Proof.
  cbn. induction vs as [|v vs IH].
  - split; [|done]. intros _ v Hv. by apply not_elem_of_nil in Hv.
  - rewrite IH. split; [intros [? ?] x [->|Hx]%elem_of_cons; auto|].
    intros Hw. split; [apply Hw; by left|]. intros x Hx. apply Hw. by right.
Qed.

Lemma wf_Map vs : wf (Map vs) <-> forall kv, kv ∈ vs -> wf (fst kv) /\ wf (snd kv).
Proof.
  cbn. induction vs as [|[k v] vs IH].
  - split; [|done]. intros _ v Hv. by apply not_elem_of_nil in Hv.
  - rewrite IH. split.
    + intros (? & ? & ?) x [->|Hx]%elem_of_cons; auto.
    + intros Hw. destruct (Hw (k, v)) as [? ?]; [by left|]. split; [done|]. split; [done|].
      intros x Hx. apply Hw. by right.
Qed.

Lemma within_limits_Array depth vs :
  within_limits depth (Array vs)
  <-> depth <= MAX_CANONICAL_DEPTH /\ Z.of_nat (length vs) <= MAX_CANONICAL_CONTAINER_ITEMS
      /\ forall v, v ∈ vs -> within_limits (depth + 1) v.
Proof.
  cbn [within_limits]. apply and_iff_compat_l, and_iff_compat_l. induction vs as [|v vs IH].
  - split; [|done]. intros _ v Hv. by apply not_elem_of_nil in Hv.
  - rewrite IH. split; [intros [? ?] x [->|Hx]%elem_of_cons; auto|].
    intros Hw. split; [apply Hw; by left|]. intros x Hx. apply Hw. by right.
Qed.

Lemma within_limits_Map depth vs :
  within_limits depth (Map vs)
  <-> depth <= MAX_CANONICAL_DEPTH /\ Z.of_nat (length vs) <= MAX_CANONICAL_CONTAINER_ITEMS
      /\ NoDup (List.map (fun kv => wire (fst kv)) vs)
      /\ forall kv, kv ∈ vs ->
           within_limits (depth + 1) (fst kv) /\ within_limits (depth + 1) (snd kv).
Proof.
  cbn [within_limits]. do 3 apply and_iff_compat_l. induction vs as [|[k v] vs IH].
  - split; [|done]. intros _ v Hv. by apply not_elem_of_nil in Hv.
  - rewrite IH. split.
    + intros (? & ? & ?) x [->|Hx]%elem_of_cons; auto.
    + intros Hw. destruct (Hw (k, v)) as [? ?]; [by left|]. split; [done|]. split; [done|].
      intros x Hx. apply Hw. by right.
Qed.

Lemma within_limits_depth depth v : within_limits depth v -> depth <= MAX_CANONICAL_DEPTH.
Proof. destruct v; cbn [within_limits]; intros [? _]; done. Qed.

(** The sorted, keyed entries of a map. *)
Definition keyed (vs : list (CV * CV)) : list (list Z * CV) :=
  List.map (fun kv => (wire (fst kv), snd kv)) vs.

Lemma wire_Map vs :
  wire (Map vs)
  = head 5 (Z.of_nat (length vs))
    ++ concat (List.map (fun e => fst e ++ wire (snd e)) (sort_entries (keyed vs))).
Proof.
  cbn [wire]. do 2 f_equal. unfold keyed.
  assert (List.map (fun kv : CV * CV => (wire (fst kv), wire (snd kv))) vs
    = List.map (on_value wire) (List.map (fun kv => (wire (fst kv), snd kv)) vs)) as ->
    by (by rewrite List.map_map).
  rewrite sort_entries_map, List.map_map. done.
Qed.

Lemma length_concat_perm {A} (l1 l2 : list (list A)) :
  Permutation l1 l2 -> length (concat l1) = length (concat l2).
Proof. induction 1; cbn; rewrite ?length_app; lia. Qed.

Lemma length_concat_le {A B} (f g : A -> list B) l :
  (forall a, (length (f a) <= length (g a))%nat) ->
  (length (concat (List.map f l)) <= length (concat (List.map g l)))%nat.
Proof. intros Hfg. induction l as [|a l IH]; cbn; [lia|]. rewrite !length_app. pose proof (Hfg a). lia. Qed.

(** Key bytes are part of the map's wire form. *)
Lemma wire_Map_keys vs :
  (length (concat (List.map (fun kv => wire (fst kv)) vs)) <= length (wire (Map vs)))%nat.
Proof.
  rewrite wire_Map, length_app.
  rewrite (length_concat_perm (List.map (fun e => fst e ++ wire (snd e)) (sort_entries (keyed vs)))
    (List.map (fun e => fst e ++ wire (snd e)) (keyed vs))).
  - unfold keyed. rewrite List.map_map. cbn [fst snd].
    pose proof (length_concat_le (fun kv : CV * CV => wire (fst kv))
      (fun kv => wire (fst kv) ++ wire (snd kv)) vs) as Hle.
    specialize (Hle ltac:(intros; cbn beta; rewrite length_app; lia)). lia.
  - apply Permutation_map, sort_entries_perm.
Qed.

Lemma validate_container_Ok n :
  validate_container n = Ok tt <-> n <= MAX_CANONICAL_CONTAINER_ITEMS.
Proof.
  unfold validate_container. destruct (Z.ltb_spec MAX_CANONICAL_CONTAINER_ITEMS n);
    split; done || lia.
Qed.

Lemma encode_float_Ok v out out' :
  encode_float v out = Ok out'
  <-> f64_is_finite v = true /\ out' = out ++ float_bytes v /\ fits out'.
Proof.
  unfold encode_float, float_bytes. destruct (f64_is_finite v); cbn [negb].
  2: { split; [done|intros [? _]; done]. }
  destruct (f16_to_f64 (f16_from_f64 v) =? v).
  { rewrite (push2_Ok out [_]). split; [done|intros (_ & ?); done]. }
  destruct (f32_to_f64 (f64_to_f32 v) =? v);
    rewrite (push2_Ok out [_]); (split; [done|intros (_ & ?); done]).
Qed.
End Unfold.

Section EncodeSpec.
Context `{HalfFloat}.

Definition encodes (fuel : nat) (depth : Z) (v : CV) : Prop :=
  forall out out', encode_value fuel v depth out = Ok out'
    <-> within_limits depth v /\ out' = out ++ wire v /\ fits out'.

(** The array arm, given the specification one level down. *)
Lemma encode_array_Ok fuel depth vs out out' :
  depth <= MAX_CANONICAL_DEPTH ->
  (forall v, v ∈ vs -> encodes fuel (depth + 1) v) ->
  (check validate_container (Z.of_nat (length vs));
   let? output := encode_head 4 (Z.of_nat (length vs)) out in
   encode_items (fun v output => encode_value fuel v (depth + 1) output) vs output) = Ok out'
  <-> within_limits depth (Array vs) /\ out' = out ++ wire (Array vs) /\ fits out'.
Proof.
  intros Hd Hvs. rewrite within_limits_Array.
  destruct (validate_container (Z.of_nat (length vs))) as [[]|e] eqn:Ec.
  - apply validate_container_Ok in Ec. cbn [wire].
    rewrite (bind_append _ out (head 4 (Z.of_nat (length vs)))
      (forall v, v ∈ vs -> within_limits (depth + 1) v) (concat (List.map wire vs))).
    + split; intros (H1 & H2 & H3); [done|]. destruct H1 as (_ & _ & ?). done.
    + intros o. apply encode_head_Ok; lia.
    + intros o o' Ho. apply encode_items_Ok; [|done]. intros v Hv o1 o2 _. by apply Hvs.
  - split; [done|]. intros ((_ & Hl & _) & _). apply validate_container_Ok in Hl. congruence.
Qed.

Lemma keyed_keys vs : List.map fst (keyed vs) = List.map (fun kv => wire (fst kv)) vs.
Proof. unfold keyed. by rewrite List.map_map. Qed.

Lemma keyed_length vs : length (sort_entries (keyed vs)) = length vs.
Proof. rewrite sort_entries_perm. unfold keyed. by rewrite List.length_map. Qed.

Lemma keyed_in vs e :
  e ∈ sort_entries (keyed vs) <-> exists kv, kv ∈ vs /\ e = (wire (fst kv), snd kv).
Proof.
  rewrite sort_entries_perm. unfold keyed. rewrite list_elem_of_In, in_map_iff.
  split; intros (kv & E & Hin); exists kv; [rewrite list_elem_of_In; done|].
  rewrite list_elem_of_In in E. done.
Qed.

(** The map arm, given the specification one level down. *)
Lemma encode_map_Ok fuel depth vs out out' :
  depth <= MAX_CANONICAL_DEPTH ->
  (forall kv, kv ∈ vs -> encodes fuel (depth + 1) (fst kv) /\ encodes fuel (depth + 1) (snd kv)) ->
  (check validate_container (Z.of_nat (length vs));
   let? entries := encode_keys (fun k => encode_value fuel k (depth + 1) []) vs 0 in
   let entries := sort_entries entries in
   if has_duplicate_key entries then Err DuplicateMapKey
   else
     let? output := encode_head 5 (Z.of_nat (length entries)) out in
     encode_items
       (fun entry output =>
          let? output := push output (fst entry) in
          encode_value fuel (snd entry) (depth + 1) output)
       entries output) = Ok out'
  <-> within_limits depth (Map vs) /\ out' = out ++ wire (Map vs) /\ fits out'.
Proof.
  intros Hd Hvs. rewrite within_limits_Map.
  destruct (validate_container (Z.of_nat (length vs))) as [[]|e] eqn:Ec; cycle 1.
  { split; [done|]. intros ((_ & Hl & _) & _). apply validate_container_Ok in Hl. congruence. }
  apply validate_container_Ok in Ec.
  pose proof (encode_keys_Ok (fun k => encode_value fuel k (depth + 1) []) wire
    (within_limits (depth + 1)) vs 0) as Hk.
  assert (Hkeys : forall kv, kv ∈ vs -> forall b, encode_value fuel (fst kv) (depth + 1) [] = Ok b
    <-> within_limits (depth + 1) (fst kv) /\ b = wire (fst kv) /\ fits b)
    by (intros kv Hin b; apply Hvs; done).
  destruct (encode_keys _ vs 0) as [es|e]; cycle 1.
  { split; [done|]. intros ((_ & _ & _ & Hin) & -> & Hf).
    assert (Hc : Err e = Ok (keyed vs)); [|done]. apply Hk; [done|unfold MAX_CANONICAL_BYTES; lia|].
    split; [intros; by apply Hin|]. split; [done|].
    pose proof (wire_Map_keys vs). unfold fits in Hf. rewrite length_app in Hf. lia. }
  destruct (proj1 (Hk es Hkeys ltac:(unfold MAX_CANONICAL_BYTES; lia)) eq_refl) as (HP & -> & _).
  fold (keyed vs). clear Hk. cbv zeta.
  destruct (has_duplicate_key (sort_entries (keyed vs))) eqn:Edup.
  { split; [done|]. intros ((_ & _ & Hnd & _) & _). rewrite <- keyed_keys in Hnd.
    apply has_duplicate_key_sort in Hnd. congruence. }
  apply has_duplicate_key_sort in Edup. rewrite keyed_keys in Edup.
  rewrite wire_Map, keyed_length.
  rewrite (bind_append _ out (head 5 (Z.of_nat (length vs)))
    (forall e, e ∈ sort_entries (keyed vs) -> within_limits (depth + 1) (snd e))
    (concat (List.map (fun e => fst e ++ wire (snd e)) (sort_entries (keyed vs))))).
  - split.
    + intros (H1 & H2). split; [|done]. do 3 (split; [done|]). intros kv Hin.
      split; [by apply HP|]. apply (H1 (wire (fst kv), snd kv)), keyed_in. by exists kv.
    + intros ((_ & _ & _ & H1) & H2). split; [|done]. intros e (kv & Hin & ->)%keyed_in. by apply H1.
  - intros o. apply encode_head_Ok; lia.
  - intros o o' Ho.
    apply (encode_items_Ok _ (fun e => fst e ++ wire (snd e)) (fun e => within_limits (depth + 1) (snd e)));
      [|done].
    intros e (kv & Hin & ->)%keyed_in o1 o2 Ho1. cbn [fst snd].
    apply (bind_append _ o1 (wire (fst kv)) _ (wire (snd kv))); [intros; apply push_Ok|].
    intros o3 o4 _. by apply Hvs.
Qed.

Lemma encode_value_spec fuel : forall v depth,
  wf v -> Z.of_nat fuel + depth = 34 -> 0 <= depth -> encodes fuel depth v.
Proof.
  induction fuel as [|fuel IH]; intros v depth Hwf Hfd Hd out out'.
  { cbn [encode_value]. split; [done|]. intros [Hl _]. apply within_limits_depth in Hl.
    unfold MAX_CANONICAL_DEPTH in Hl. lia. }
  cbn [encode_value]. destruct (Z.ltb_spec MAX_CANONICAL_DEPTH depth) as [Hlt|Hle].
  { split; [done|]. intros [Hl _]. apply within_limits_depth in Hl. lia. }
  assert (Hhead : forall major n, 0 <= major < 8 -> 0 <= n ->
    encode_head major n out = Ok out' <-> (depth <= MAX_CANONICAL_DEPTH /\ True)
      /\ out' = out ++ head major n /\ fits out').
  { intros. rewrite encode_head_Ok by done. tauto. }
  assert (Hstr : forall major b, 0 <= major < 8 ->
    (let? output := encode_head major (Z.of_nat (length b)) out in push output b) = Ok out'
    <-> (depth <= MAX_CANONICAL_DEPTH /\ True)
        /\ out' = out ++ (head major (Z.of_nat (length b)) ++ b) /\ fits out').
  { intros major b Hm. apply bind_append.
    - intros o. apply encode_head_Ok; lia.
    - intros o o' _. rewrite push_Ok. tauto. }
  destruct v as [|b|v|v|v|bs|s|vs|vs].
  - rewrite push_Ok. cbn. tauto.
  - cbn [wire within_limits]. destruct b; rewrite push_Ok; tauto.
  - cbn [wire within_limits]. cbn in Hwf. unfold in_i in Hwf. destruct (Z.leb_spec 0 v).
    + apply Hhead; lia.
    + rewrite wrap_small by (unfold in_u; lia). apply Hhead; lia.
  - cbn in Hwf. apply Hhead; [lia|apply Hwf].
  - rewrite encode_float_Ok. cbn [wire within_limits]. tauto.
  - by apply Hstr.
  - by apply Hstr.
  - apply encode_array_Ok; [done|]. intros v Hv. apply IH; [exact (proj1 (wf_Array vs) Hwf v Hv)|lia..].
  - apply encode_map_Ok; [done|]. intros kv Hv. pose proof (proj1 (wf_Map vs) Hwf kv Hv) as [? ?].
    split; apply IH; done || lia.
Qed.

Lemma to_canonical_cbor_Ok v bs :
  wf v -> to_canonical_cbor v = Ok bs <-> within_limits 0 v /\ bs = wire v /\ fits bs.
Proof. intros Hv. apply encode_value_spec; [done|reflexivity|done]. Qed.
End EncodeSpec.
