(* ===== verification/CborDecode.v ===== *)
(** * Deterministic CBOR: the decoder accepts exactly the wire forms

    [decode_value_spec]: at every depth the decoder succeeds on, and only on, the
    wire form of a value in normal form within the limits, and returns that value.
    Round trip, injectivity and non-malleability follow. *)
From S2P Require Import Prelude Bytes Floats Crypto Cbor CborTheory.

(** ** The cursor *)
Definition rest (d : Decoder) : list Z := drop (Z.to_nat (offset d)) (bytes d).

(** A cursor inside a buffer of bytes far below the 64-bit address space. *)
Definition cursor (d : Decoder) : Prop :=
  0 <= offset d <= Z.of_nat (length (bytes d)) /\ Z.of_nat (length (bytes d)) < 2 ^ 63
  /\ Forall is_byte (bytes d).

(** [x] is what lies between two positions of the same buffer. *)
Definition consumes (d : Decoder) (x : list Z) (d' : Decoder) : Prop :=
  d' = mkDecoder (bytes d) (offset d + Z.of_nat (length x))
  /\ rest d = x ++ rest d' /\ cursor d /\ cursor d'.

Lemma cursor_byte d : cursor d -> Forall is_byte (rest d).
Proof. intros (_ & _ & Hb). by apply Forall_drop. Qed.

Lemma consumes_byte d x d' : consumes d x d' -> Forall is_byte x.
Proof. intros (_ & E & Hc & _). apply cursor_byte in Hc. rewrite E in Hc. by apply Forall_app in Hc as [? _]. Qed.

Lemma rest_length d : cursor d -> Z.of_nat (length (rest d)) = Z.of_nat (length (bytes d)) - offset d.
Proof. intros ([? ?] & _). unfold rest. rewrite length_drop. lia. Qed.

Lemma consumes_intro d x s :
  cursor d -> rest d = x ++ s ->
  exists d', consumes d x d' /\ rest d' = s.
Proof.
  intros Hc E. exists (mkDecoder (bytes d) (offset d + Z.of_nat (length x))).
  pose proof (rest_length d Hc) as Hl. rewrite E, length_app in Hl.
  assert (Hr : rest (mkDecoder (bytes d) (offset d + Z.of_nat (length x))) = s).
  { unfold rest in *. cbn [bytes offset]. destruct Hc as ([? ?] & _).
    rewrite Z2Nat.inj_add, Nat2Z.id, <- drop_drop, E by lia. by rewrite drop_app_length. }
  split; [|done]. split; [done|]. rewrite Hr. split; [done|]. split; [done|].
  destruct Hc as ([? ?] & ? & ?). split; cbn; [lia|done].
Qed.

Lemma consumes_nil d : cursor d -> consumes d [] d.
Proof. intros Hc. split; [|done]. cbn. rewrite Z.add_0_r. by destruct d. Qed.

Lemma consumes_nil_inv d d' : consumes d [] d' -> d' = d.
Proof. intros (-> & _). cbn. rewrite Z.add_0_r. by destruct d. Qed.

Lemma consumes_app d x y d'' :
  consumes d (x ++ y) d'' <-> exists d', consumes d x d' /\ consumes d' y d''.
Proof.
  split.
  - intros (-> & E & Hc & Hc''). rewrite <- app_assoc in E.
    destruct (consumes_intro d x _ Hc E) as (d' & Hx & Hr). exists d'. split; [done|].
    destruct Hx as (-> & _ & _ & Hc'). split; [|done]. cbn [bytes offset].
    f_equal. rewrite length_app. lia.
  - intros (d' & (-> & E1 & Hc & Hc') & (-> & E2 & _ & Hc'')). cbn [bytes offset] in *.
    assert (E : offset d + Z.of_nat (length (x ++ y))
      = offset d + Z.of_nat (length x) + Z.of_nat (length y)) by (rewrite length_app; lia).
    split; [by rewrite E|]. split; [|done]. rewrite E1, E2, app_assoc. done.
Qed.

Lemma consumes_fun d x d1 d2 : consumes d x d1 -> consumes d x d2 -> d1 = d2.
Proof. intros (-> & _) (-> & _). done. Qed.

Lemma consumes_end d x d' : consumes d x d' -> cursor d'.
Proof. by intros (_ & _ & _ & ?). Qed.

Lemma consumed_slice d x d' :
  consumes d x d' ->
  take (Z.to_nat (offset d' - offset d)) (drop (Z.to_nat (offset d)) (bytes d')) = x.
Proof.
  intros (-> & E & _). cbn [bytes offset]. fold (rest d). rewrite E.
  replace (Z.to_nat (offset d + Z.of_nat (length x) - offset d)) with (length x) by lia.
  apply take_app_length.
Qed.

Lemma take_byte_Ok d b d' : cursor d -> take_byte d = Ok (b, d') <-> consumes d [b] d'.
Proof.
  intros Hc. unfold take_byte. split.
  - destruct (bytes d !! Z.to_nat (offset d)) as [b'|] eqn:E; [|done]. intros [= <- <-].
    assert (Hr : rest d = [b'] ++ drop (S (Z.to_nat (offset d))) (bytes d))
      by (by apply drop_S in E).
    destruct (consumes_intro d [b'] _ Hc Hr) as (d' & Hd & _). pose proof Hd as (-> & _). exact Hd.
  - intros (-> & E & _). unfold rest in E.
    assert (bytes d !! Z.to_nat (offset d) = Some b) as ->; [|done].
    rewrite <- (Nat.add_0_r (Z.to_nat (offset d))), <- lookup_drop, E. done.
Qed.

Lemma take_bytes_Ok d n x d' :
  cursor d -> 0 <= n ->
  take_bytes d n = Ok (x, d') <-> Z.of_nat (length x) = n /\ consumes d x d'.
Proof.
  intros Hc Hn. unfold take_bytes. pose proof (rest_length d Hc) as Hl.
  pose proof Hc as ([Ho Ho2] & Hb & _). split.
  - destruct (checked_u 64 (offset d + n)) as [e|] eqn:E; cbn [ok_or]; [|done].
    apply checked_u_Some in E as [-> _].
    destruct (Z.ltb_spec (Z.of_nat (length (bytes d))) (offset d + n)); [done|].
    fold (rest d). intros [= <- <-].
    assert (Hlt : Z.of_nat (length (take (Z.to_nat n) (rest d))) = n)
      by (rewrite length_take; lia).
    split; [done|].
    destruct (consumes_intro d (take (Z.to_nat n) (rest d)) (drop (Z.to_nat n) (rest d)) Hc)
      as (d' & Hd & _); [by rewrite take_drop|]. pose proof Hd as (-> & _).
    rewrite Hlt in Hd. exact Hd.
  - intros [<- Hd]. pose proof Hd as (-> & E & _ & Hc').
    destruct Hc' as ([Ho' Ho2'] & _). cbn [bytes offset] in *.
    assert (checked_u 64 (offset d + Z.of_nat (length x)) = Some (offset d + Z.of_nat (length x)))
      as -> by (apply checked_u_Some; split; [done|unfold in_u; lia]).
    cbn [ok_or]. rewrite (proj2 (Z.ltb_ge _ _)) by lia. fold (rest d). rewrite E, Nat2Z.id.
    by rewrite take_app_length.
Qed.

(** ** Heads *)
Lemma lead_parts lead m a :
  0 <= lead < 256 -> Z.shiftr lead 5 = m -> Z.land lead 31 = a ->
  lead = m * 32 + a /\ 0 <= m < 8 /\ 0 <= a < 32.
Proof.
  intros Hl <- <-. rewrite Z.shiftr_div_pow2 by lia. change 31 with (2 ^ 5 - 1).
  rewrite land_ones_mod by lia. change (2 ^ 5) with 32.
  pose proof (Z.div_mod lead 32 ltac:(lia)). pose proof (Z.mod_pos_bound lead 32 ltac:(lia)).
  assert (0 <= lead / 32 < 8) by (split; [apply Z.div_pos|apply Z.div_lt_upper_bound]; lia). lia.
Qed.

Lemma lead_join m a :
  0 <= m < 8 -> 0 <= a < 32 -> Z.shiftr (m * 32 + a) 5 = m /\ Z.land (m * 32 + a) 31 = a.
Proof.
  intros Hm Ha. rewrite Z.shiftr_div_pow2 by lia. change 31 with (2 ^ 5 - 1).
  rewrite land_ones_mod by lia. change (2 ^ 5) with 32.
  rewrite Z.add_comm, Z.div_add, Z.mod_add, Z.div_small, Z.mod_small by lia. lia.
Qed.

Lemma take_be_Ok d n v d' :
  cursor d ->
  (exists x, take_bytes d (Z.of_nat n) = Ok (x, d') /\ v = from_be x)
  <-> consumes d (be_bytes n v) d' /\ 0 <= v < 256 ^ Z.of_nat n.
Proof.
  intros Hc. split.
  - intros (x & [Hl Hd]%take_bytes_Ok & ->); [|done|lia].
    pose proof (consumes_byte _ _ _ Hd) as Hb. apply Nat2Z.inj in Hl. subst n.
    rewrite be_bytes_from_be by done. split; [done|]. by apply from_be_bound.
  - intros [Hd Hv]. exists (be_bytes n v). rewrite from_be_be_bytes by done. split; [|done].
    apply take_bytes_Ok; [done|lia|]. by rewrite be_bytes_length.
Qed.

(** One case of [decode_argument]: an [n]-byte argument with its minimum. *)
Lemma argument_Ok d n minimum v d' :
  cursor d ->
  (let? (value, minimum, d) :=
     (let? (value, d) := take_bytes d (Z.of_nat n) in Ok (from_be value, minimum, d)) in
   if value <? minimum then Err NonCanonical else Ok (value, d)) = Ok (v, d')
  <-> minimum <= v < 256 ^ Z.of_nat n /\ 0 <= v /\ consumes d (be_bytes n v) d'.
Proof.
  intros Hc. pose proof (take_be_Ok d n v d' Hc) as Ht.
  destruct (take_bytes d (Z.of_nat n)) as [[x d1]|e].
  - destruct (Z.ltb_spec (from_be x) minimum).
    + split; [done|]. intros (Hm & Hv & Hd). destruct (proj2 Ht) as (y & [= <- <-] & ->);
        [split; [done|lia]|lia].
    + split.
      * intros [= <- <-]. destruct (proj1 Ht) as [? ?]; [by exists x|]. lia || (split; [lia|]; split; [lia|done]).
      * intros (Hm & Hv & Hd). destruct (proj2 Ht) as (y & [= <- <-] & ->); [split; [done|lia]|done].
  - split; [done|]. intros (Hm & Hv & Hd). destruct (proj2 Ht) as (y & [=] & _). split; [done|lia].
Qed.

Lemma take_byte_as_bytes d :
  cursor d ->
  (let? (value, d) := take_byte d in Ok (value, 24, d))
  = (let? (value, d) := take_bytes d (Z.of_nat 1) in Ok (from_be value, 24, d)) \/
  ((exists e, take_byte d = Err e) /\ exists e, take_bytes d (Z.of_nat 1) = Err e).
Proof.
  intros Hc. destruct (take_byte d) as [[b d1]|e] eqn:E1, (take_bytes d (Z.of_nat 1)) as [[x d2]|e2] eqn:E2;
    [| | |right; eauto].
  - left. apply take_byte_Ok in E1; [|done]. apply take_bytes_Ok in E2 as [Hl E2]; [|done|done].
    destruct x as [|b' [|]]; try (cbn in Hl; lia).
    pose proof E1 as (_ & R1 & _). pose proof E2 as (_ & R2 & _). rewrite R1 in R2.
    injection R2 as -> _. rewrite (consumes_fun _ _ _ _ E1 E2). cbn. done.
  - apply take_byte_Ok in E1; [|done].
    assert (take_bytes d (Z.of_nat 1) = Ok ([b], d1)); [|congruence]. by apply take_bytes_Ok.
  - apply take_bytes_Ok in E2 as [Hl E2]; [|done|done].
    destruct x as [|b' [|]]; try (cbn in Hl; lia).
    assert (take_byte d = Ok (b', d2)); [|congruence]. by apply take_byte_Ok.
Qed.

Lemma decode_argument_Ok m d a v d' :
  cursor d -> 0 <= a < 32 ->
  decode_argument d a = Ok (v, d')
  <-> in_u 64 v /\ exists tail, consumes d tail d' /\ head m v = (m * 32 + a) :: tail.
Proof.
  intros Hc Ha. unfold in_u. split.
  - unfold decode_argument. destruct ((0 <=? a) && (a <=? 23)) eqn:E; bool_prop.
    { destruct (Z.ltb_spec a 0); [lia|]. intros [= <- <-]. split; [lia|]. exists [].
      split; [by apply consumes_nil|]. unfold head. by rewrite (proj2 (Z.leb_le a 23)). }
    clear E.
    destruct (Z.eqb_spec a 24) as [->|].
    { intros H. destruct (take_byte_as_bytes d Hc) as [E|[[e E] _]]; rewrite E in H; [|done].
      apply argument_Ok in H as (Hm & _ & Hd); [|done]. change (256 ^ Z.of_nat 1) with 256 in Hm.
      split; [lia|]. eexists. split; [exact Hd|]. unfold head.
      rewrite (proj2 (Z.leb_gt v 23)), (proj2 (Z.leb_le v 255)) by lia.
      cbn [be_bytes]. change (256 ^ Z.of_nat 0) with 1. rewrite Z.div_1_r, Z.mod_small by lia. done. }
    destruct (Z.eqb_spec a 25) as [->|].
    { intros (Hm & _ & Hd)%(argument_Ok d 2); [|done]. change (256 ^ Z.of_nat 2) with 65536 in Hm.
      split; [lia|]. eexists. split; [exact Hd|]. unfold head.
      by rewrite (proj2 (Z.leb_gt v 23)), (proj2 (Z.leb_gt v 255)), (proj2 (Z.leb_le v 65535)) by lia. }
    destruct (Z.eqb_spec a 26) as [->|].
    { intros (Hm & _ & Hd)%(argument_Ok d 4); [|done]. change (256 ^ Z.of_nat 4) with (2 ^ 32) in Hm.
      split; [lia|]. eexists. split; [exact Hd|]. unfold head.
      by rewrite (proj2 (Z.leb_gt v 23)), (proj2 (Z.leb_gt v 255)), (proj2 (Z.leb_gt v 65535)),
        (proj2 (Z.leb_le v 4294967295)) by lia. }
    destruct (Z.eqb_spec a 27) as [->|]; [|done].
    intros (Hm & _ & Hd)%(argument_Ok d 8); [|done]. change (256 ^ Z.of_nat 8) with (2 ^ 64) in Hm.
    split; [lia|]. eexists. split; [exact Hd|]. unfold head.
    by rewrite (proj2 (Z.leb_gt v 23)), (proj2 (Z.leb_gt v 255)), (proj2 (Z.leb_gt v 65535)),
        (proj2 (Z.leb_gt v 4294967295)) by lia.
  - intros (Hv & tail & Hd & Hh). unfold head in Hh.
    destruct (Z.leb_spec v 23); [|destruct (Z.leb_spec v 255); [|destruct (Z.leb_spec v 65535);
      [|destruct (Z.leb_spec v 4294967295)]]]; injection Hh as Hl Ht; subst tail.
    + assert (a = v) as -> by lia. apply consumes_nil_inv in Hd as ->. unfold decode_argument.
      rewrite (proj2 (Z.leb_le 0 v)), (proj2 (Z.leb_le v 23)) by lia. cbn [andb].
      by rewrite (proj2 (Z.ltb_ge v 0)) by lia.
    + assert (a = 24) as -> by lia. unfold decode_argument.
      destruct (take_byte_as_bytes d Hc) as [E|[_ [e E]]].
      * change ((0 <=? 24) && (24 <=? 23)) with false. change (24 =? 24) with true. cbv iota.
        rewrite E. apply argument_Ok; [done|]. change (256 ^ Z.of_nat 1) with 256.
        split; [lia|]. split; [lia|]. cbn [be_bytes]. change (256 ^ Z.of_nat 0) with 1.
        by rewrite Z.div_1_r, Z.mod_small by lia.
      * assert (take_bytes d (Z.of_nat 1) = Ok ([v], d')); [|congruence]. by apply take_bytes_Ok.
    + assert (a = 25) as -> by lia. apply (argument_Ok d 2); [done|].
      change (256 ^ Z.of_nat 2) with 65536. split; [lia|]. split; [lia|done].
    + assert (a = 26) as -> by lia. apply (argument_Ok d 4); [done|].
      change (256 ^ Z.of_nat 4) with (2 ^ 32). split; [lia|]. split; [lia|done].
    + assert (a = 27) as -> by lia. apply (argument_Ok d 8); [done|].
      change (256 ^ Z.of_nat 8) with (2 ^ 64). split; [lia|]. split; [lia|done].
Qed.

Lemma take_byte_lead d lead d1 :
  cursor d -> take_byte d = Ok (lead, d1) ->
  consumes d [lead] d1 /\ lead = Z.shiftr lead 5 * 32 + Z.land lead 31
  /\ 0 <= Z.shiftr lead 5 < 8 /\ 0 <= Z.land lead 31 < 32.
Proof.
  intros Hc H. apply take_byte_Ok in H; [|done]. split; [done|].
  pose proof (consumes_byte _ _ _ H) as Hb. apply Forall_cons in Hb as [Hb _].
  by apply (lead_parts lead).
Qed.

Lemma head_cons m v :
  exists a tail, head m v = (m * 32 + a) :: tail /\ (0 <= v -> 0 <= a < 32).
Proof.
  unfold head. destruct (Z.leb_spec v 23); [exists v, []; split; [done|lia]|].
  destruct (Z.leb_spec v 255); [exists 24, [v]; split; [done|lia]|].
  destruct (Z.leb_spec v 65535); [eexists 25, _; split; [done|lia]|].
  destruct (Z.leb_spec v 4294967295); eexists _, _; (split; [done|lia]).
Qed.

(** Reading a lead byte and its argument is reading a head, and nothing else. *)
Lemma head_Ok m d v d2 :
  cursor d -> 0 <= m < 8 ->
  (exists lead d1, take_byte d = Ok (lead, d1) /\ Z.shiftr lead 5 = m
     /\ decode_argument d1 (Z.land lead 31) = Ok (v, d2))
  <-> in_u 64 v /\ consumes d (head m v) d2.
Proof.
  intros Hc Hm. split.
  - intros (lead & d1 & Ht & <- & Ha). apply take_byte_lead in Ht as (Hd & El & _ & Hr); [|done].
    apply (decode_argument_Ok (Z.shiftr lead 5)) in Ha as [Hv (tail & Ht & ->)];
      [|by eapply consumes_end|done].
    split; [done|]. rewrite <- El. apply (consumes_app d [lead] tail). by exists d1.
  - intros [Hv Hd]. destruct (head_cons m v) as (a & tail & E & Ha). unfold in_u in Hv.
    specialize (Ha ltac:(lia)). rewrite E in Hd.
    apply (consumes_app d [_] tail) in Hd as (d1 & H1 & H2).
    destruct (lead_join m a Hm Ha) as [E1 E2].
    exists (m * 32 + a), d1. rewrite E1, E2. split; [by apply take_byte_Ok|]. split; [done|].
    apply (decode_argument_Ok m); [by eapply consumes_end|done|]. split; [done|]. by exists tail.
Qed.

Lemma decode_length_argument d a v d' :
  cursor d -> 0 <= a < 32 ->
  decode_length d a = Ok (v, d') <-> decode_argument d a = Ok (v, d').
Proof.
  intros Hc Ha. unfold decode_length. destruct (decode_argument d a) as [[n d1]|e] eqn:E; [|done].
  apply (decode_argument_Ok 0) in E as [Hv _]; [|done..].
  rewrite (proj2 (checked_u_Some 64 n n)) by done. done.
Qed.

Section Decode.
Context `{HalfFloat}.

(** Values the decoder can return. *)
Fixpoint normal (v : CV) : Prop :=
  match v with
  | Integer v => v < 0
  | Array vs => (fix all l := match l with [] => True | v :: l => normal v /\ all l end) vs
  | Map vs =>
      Sorted.Sorted bytes_lt (List.map (fun kv => wire (fst kv)) vs)
      /\ (fix all l := match l with [] => True | (k, v) :: l => normal k /\ normal v /\ all l end) vs
  | _ => True
  end.

(** What decoding at [depth] guarantees. *)
Definition good (depth : Z) (v : CV) : Prop := wf v /\ normal v /\ within_limits depth v.

Definition decodes (fuel : nat) (depth : Z) : Prop :=
  forall d v d', cursor d ->
    decode_value fuel depth d = Ok (v, d') <-> good depth v /\ consumes d (wire v) d'.

Lemma decode_items_Ok fuel depth :
  decodes fuel depth -> forall n d vs d', cursor d ->
  decode_items (decode_value fuel depth) n d = Ok (vs, d')
  <-> length vs = n /\ (forall v, v ∈ vs -> good depth v)
      /\ consumes d (concat (List.map wire vs)) d'.
Proof.
  intros Hdec n. induction n as [|n IH]; intros d vs d' Hc; cbn [decode_items].
  - split.
    + intros [= <- <-]. split; [done|]. split; [intros v Hv; by apply not_elem_of_nil in Hv|].
      by apply consumes_nil.
    + intros (Hl & _ & Hd). destruct vs; [|done]. by apply consumes_nil_inv in Hd as ->.
  - split.
    + intros H'. destruct (decode_value fuel depth d) as [[v d1]|] eqn:E; [|done].
      apply Hdec in E as [Hg Hd]; [|done].
      destruct (decode_items _ n d1) as [[vs' d2]|] eqn:E2; [|done]. injection H' as <- <-.
      apply IH in E2 as (Hl & Hgs & Hd2); [|by eapply consumes_end].
      split; [cbn; lia|]. split; [intros x [->|?]%elem_of_cons; auto|].
      cbn. apply consumes_app. by exists d1.
    + intros (Hl & Hg & Hd). destruct vs as [|v vs]; [done|]. cbn in Hl, Hd.
      apply consumes_app in Hd as (d1 & H1 & H2).
      rewrite (proj2 (Hdec d v d1 Hc)) by (split; [apply Hg; by left|done]).
      rewrite (proj2 (IH d1 vs d' (consumes_end _ _ _ H1))); [done|].
      split; [lia|]. split; [|done]. intros x Hx. apply Hg. by right.
Qed.

Definition previous_keys (previous : option (list Z)) : list (list Z) :=
  match previous with Some p => [p] | None => [] end.

Lemma previous_before previous key keys :
  Sorted.Sorted bytes_lt (previous_keys previous ++ key :: keys)
  <-> (match previous with Some p => bytes_lt p key | None => True end)
      /\ Sorted.Sorted bytes_lt (key :: keys).
Proof.
  destruct previous as [p|]; cbn; [|tauto]. split.
  - intros Hs. inversion Hs as [|? ? Hs' Hh]; subst. by inversion Hh.
  - intros [Hp Hs]. constructor; [done|]. by constructor.
Qed.

Lemma order_check previous key :
  match previous with
  | Some p => match canonical_key_order p key with Lt => false | _ => true end
  | None => false
  end = false <-> match previous with Some p => bytes_lt p key | None => True end.
Proof.
  destruct previous as [p|]; [|done]. unfold canonical_key_order, bytes_lt.
  by destruct (bytes_cmp p key).
Qed.

Lemma decode_entries_Ok fuel depth :
  decodes fuel depth -> forall n previous d kvs d', cursor d ->
  decode_entries (decode_value fuel depth) n previous d = Ok (kvs, d')
  <-> length kvs = n
      /\ (forall kv, kv ∈ kvs -> good depth (fst kv) /\ good depth (snd kv))
      /\ Sorted.Sorted bytes_lt
           (previous_keys previous ++ List.map (fun kv => wire (fst kv)) kvs)
      /\ consumes d (concat (List.map (fun kv => wire (fst kv) ++ wire (snd kv)) kvs)) d'.
Proof.
  intros Hdec n. induction n as [|n IH]; intros previous d kvs d' Hc; cbn [decode_entries].
  - split.
    + intros [= <- <-]. split; [done|]. split; [intros v Hv; by apply not_elem_of_nil in Hv|].
      split; [destruct previous; repeat constructor|]. by apply consumes_nil.
    + intros (Hl & _ & _ & Hd). destruct kvs; [|done]. by apply consumes_nil_inv in Hd as ->.
  - split.
    + intros H'. destruct (decode_value fuel depth d) as [[k d1]|] eqn:Ek; [|done].
      apply Hdec in Ek as [Hgk Hdk]; [|done]. pose proof (consumes_end _ _ _ Hdk) as Hc1.
      cbv zeta in H'. rewrite (consumed_slice _ _ _ Hdk) in H'.
      destruct (match previous with Some _ => _ | None => _ end) eqn:Eo in H'; [done|].
      apply order_check in Eo.
      destruct (decode_value fuel depth d1) as [[v d2]|] eqn:Ev; [|done].
      apply Hdec in Ev as [Hgv Hdv]; [|done]. pose proof (consumes_end _ _ _ Hdv) as Hc2.
      destruct (decode_entries _ n _ d2) as [[kvs' d3]|] eqn:E2; [|done]. injection H' as <- <-.
      apply IH in E2 as (Hl & Hgs & Hs & Hd2); [|done].
      split; [cbn; lia|]. split; [intros x [->|?]%elem_of_cons; auto|].
      split; [by apply previous_before|]. cbn. apply consumes_app. exists d2.
      split; [|done]. apply consumes_app. by exists d1.
    + intros (Hl & Hg & Hs & Hd). destruct kvs as [|[k v] kvs]; [done|]. cbn in Hl, Hd, Hs.
      apply consumes_app in Hd as (d2 & Hkv & Hd2). apply consumes_app in Hkv as (d1 & H1 & H2).
      destruct (Hg (k, v)) as [Hgk Hgv]; [by left|]. apply previous_before in Hs as [Hp Hs].
      rewrite (proj2 (Hdec d k d1 Hc)) by done. cbv zeta. rewrite (consumed_slice _ _ _ H1).
      rewrite (proj2 (order_check previous (wire k)) Hp).
      rewrite (proj2 (Hdec d1 v d2 (consumes_end _ _ _ H1))) by done.
      rewrite (proj2 (IH (Some (wire k)) d2 kvs d' (consumes_end _ _ _ H2))); [done|].
      split; [lia|]. split; [|done]. intros x Hx. apply Hg. by right.
Qed.

Definition is_simple (v : CV) : Prop :=
  match v with Null | Bool _ | Float _ => True | _ => False end.

Lemma ensure_finite_Ok v : ensure_finite v = Ok tt <-> f64_is_finite v = true.
Proof. unfold ensure_finite. by destruct (f64_is_finite v). Qed.

Lemma finite_single b : in_u 32 b -> f64_is_finite (f32_to_f64 b) = true -> f32_exponent b <> 255.
Proof.
  intros Hb Hf E. destruct (f32_parts b Hb) as (_ & Hs & _ & Hm).
  unfold f64_is_finite, f32_to_f64 in Hf. rewrite E in Hf.
  change (255 =? 255) with true in Hf. cbv iota in Hf.
  pose proof (f64_parts (f32_sign b) 2047 (f32_mantissa b * 2 ^ 29) ltac:(lia) ltac:(lia))
    as (_ & E2 & _).
  by rewrite E2 in Hf.
Qed.

(** A float argument of [n] bytes, decoded by [widen]. *)
Lemma float_argument_Ok d n (widen : Z -> Z) (reject : Z -> bool) v d' :
  cursor d ->
  (let? (bits, d) := take_bytes d (Z.of_nat n) in
   let value := widen (from_be bits) in
   check ensure_finite value;
   if reject value then Err NonCanonical else Ok (Float value, d)) = Ok (v, d')
  <-> exists bits, 0 <= bits < 256 ^ Z.of_nat n /\ v = Float (widen bits)
      /\ f64_is_finite (widen bits) = true /\ reject (widen bits) = false
      /\ consumes d (be_bytes n bits) d'.
Proof.
  intros Hc. split.
  - intros H'. destruct (take_bytes d (Z.of_nat n)) as [[x d1]|] eqn:E; [|done]. cbv zeta in H'.
    destruct (ensure_finite _) as [[]|] eqn:Ef in H'; [|done]. apply ensure_finite_Ok in Ef.
    destruct (reject _) eqn:Er in H'; [done|]. injection H' as <- <-.
    exists (from_be x). destruct (proj1 (take_be_Ok d n (from_be x) d1 Hc)) as [Hd Hb];
      [by exists x|]. done.
  - intros (bits & Hb & -> & Hf & Hr & Hd).
    destruct (proj2 (take_be_Ok d n bits d' Hc) (conj Hd Hb)) as (x & -> & <-). cbv zeta.
    rewrite (proj2 (ensure_finite_Ok _) Hf), Hr. done.
Qed.

Lemma float_width bits n : (n <= 8)%nat -> 0 <= bits < 256 ^ Z.of_nat n -> in_u (8 * Z.of_nat n) bits.
Proof. unfold in_u. rewrite Z.pow_mul_r by lia. done. Qed.

Lemma decode_simple_Ok d a v d' :
  cursor d ->
  decode_simple d a = Ok (v, d')
  <-> is_simple v /\ wf v /\ match v with Float x => f64_is_finite x = true | _ => True end
      /\ exists tail, wire v = (224 + a) :: tail /\ consumes d tail d'.
Proof.
  intros Hc. split.
  - unfold decode_simple.
    assert (Hn : consumes d [] d) by by apply consumes_nil.
    destruct (Z.eqb_spec a 20) as [->|]; [intros [= <- <-]; repeat split; by exists []|].
    destruct (Z.eqb_spec a 21) as [->|]; [intros [= <- <-]; repeat split; by exists []|].
    destruct (Z.eqb_spec a 22) as [->|]; [intros [= <- <-]; repeat split; by exists []|].
    destruct (Z.eqb_spec a 25) as [->|].
    { intros (bits & Hb & -> & Hf & _ & Hd)%(float_argument_Ok d 2 f16_to_f64 (fun _ => false));
        [|done]. split; [done|]. split; [apply f16_to_f64_range|]. split; [done|].
      eexists. split; [|exact Hd]. cbn [wire]. unfold float_bytes.
      rewrite f16_round_trip by (done || by apply (float_width bits 2); [lia|]).
      by rewrite Z.eqb_refl. }
    destruct (Z.eqb_spec a 26) as [->|].
    { intros (bits & Hb & -> & Hf & Hr & Hd)%(float_argument_Ok d 4 f32_to_f64
        (fun value => f16_to_f64 (f16_from_f64 value) =? value)); [|done].
      apply (float_width bits 4) in Hb; [|lia]. change (8 * Z.of_nat 4) with 32 in Hb.
      split; [done|]. split; [by apply f32_to_f64_range|]. split; [done|].
      eexists. split; [|exact Hd]. cbn [wire]. unfold float_bytes. rewrite Hr.
      rewrite f64_to_f32_of_f32 by (done || by apply finite_single). by rewrite Z.eqb_refl. }
    destruct (Z.eqb_spec a 27) as [->|]; [|done].
    intros (bits & Hb & -> & Hf & Hr & Hd)%(float_argument_Ok d 8 (fun x => x)
      (fun value => f32_to_f64 (f64_to_f32 value) =? value)); [|done].
    apply (float_width bits 8) in Hb; [|lia]. split; [done|]. split; [exact Hb|]. split; [done|].
    eexists. split; [|exact Hd]. cbn [wire]. unfold float_bytes.
    destruct (Z.eqb_spec (f16_to_f64 (f16_from_f64 bits)) bits) as [E|]; [|by rewrite Hr].
    rewrite <- E in Hr, Hf. rewrite f16_within_f32, Z.eqb_refl in Hr;
      [done|apply f16_from_f64_range|done].
  - intros (Hs & Hw & Hf & tail & E & Hd).
    destruct v as [|b| | |v| | | |]; try done; cbn [wire] in E.
    + injection E as Ea <-. assert (a = 22) as -> by lia. by apply consumes_nil_inv in Hd as ->.
    + injection E as Ea <-. apply consumes_nil_inv in Hd as ->.
      assert (a = if b then 21 else 20) as -> by (destruct b; lia). by destruct b.
    + cbn in Hw. unfold float_bytes in E.
      destruct (Z.eqb_spec (f16_to_f64 (f16_from_f64 v)) v) as [Eh|Eh];
        [|destruct (Z.eqb_spec (f32_to_f64 (f64_to_f32 v)) v) as [Es|Es]]; injection E as Ea <-.
      * assert (a = 25) as -> by lia.
        apply (float_argument_Ok d 2 f16_to_f64 (fun _ => false)); [done|].
        exists (f16_from_f64 v). rewrite Eh. split; [apply (f16_from_f64_range v)|].
        split; [done|]. split; [done|]. split; [done|exact Hd].
      * assert (a = 26) as -> by lia.
        apply (float_argument_Ok d 4 f32_to_f64
          (fun value => f16_to_f64 (f16_from_f64 value) =? value)); [done|].
        exists (f64_to_f32 v). rewrite Es. split; [by apply (f64_to_f32_range v)|].
        split; [done|]. split; [done|]. split; [by apply Z.eqb_neq|exact Hd].
      * assert (a = 27) as -> by lia.
        apply (float_argument_Ok d 8 (fun x => x)
          (fun value => f32_to_f64 (f64_to_f32 value) =? value)); [done|].
        exists v. split; [exact Hw|].
        split; [done|]. split; [done|]. split; [by apply Z.eqb_neq|exact Hd].
Qed.

(** ** The decoder *)
Lemma normal_Array vs : normal (Array vs) <-> forall v, v ∈ vs -> normal v.
Proof.
  cbn. induction vs as [|v vs IH].
  - split; [|done]. intros _ v Hv. by apply not_elem_of_nil in Hv.
  - rewrite IH. split; [intros [? ?] x [->|Hx]%elem_of_cons; auto|].
    intros Hw. split; [apply Hw; by left|]. intros x Hx. apply Hw. by right.
Qed.

Lemma normal_Map vs :
  normal (Map vs) <-> Sorted.Sorted bytes_lt (List.map (fun kv => wire (fst kv)) vs)
                      /\ forall kv, kv ∈ vs -> normal (fst kv) /\ normal (snd kv).
Proof.
  cbn [normal]. apply and_iff_compat_l. induction vs as [|[k v] vs IH].
  - split; [|done]. intros _ v Hv. by apply not_elem_of_nil in Hv.
  - rewrite IH. split.
    + intros (? & ? & ?) x [->|Hx]%elem_of_cons; auto.
    + intros Hw. destruct (Hw (k, v)) as [? ?]; [by left|]. split; [done|]. split; [done|].
      intros x Hx. apply Hw. by right.
Qed.

Lemma good_Array depth vs :
  good depth (Array vs)
  <-> depth <= MAX_CANONICAL_DEPTH /\ Z.of_nat (length vs) <= MAX_CANONICAL_CONTAINER_ITEMS
      /\ forall v, v ∈ vs -> good (depth + 1) v.
Proof.
  unfold good. rewrite wf_Array, normal_Array, within_limits_Array. split.
  - intros (H1 & H2 & H3 & H4 & H5). do 2 (split; [done|]). intros v Hv. auto.
  - intros (H1 & H2 & H3). split; [|split; [|do 2 (split; [done|])]];
      intros v Hv; by destruct (H3 v Hv) as (? & ? & ?).
Qed.

Lemma strict_NoDup (l : list (list Z)) : Sorted.Sorted bytes_lt l -> NoDup l.
Proof.
  intros Hs%Sorted.Sorted_StronglySorted; [|intros a b c; apply bytes_lt_trans].
  induction Hs as [|a l _ IH Ha]; constructor; [|done]. intros Hin.
  rewrite List.Forall_forall in Ha. apply (bytes_lt_irrefl a), Ha, list_elem_of_In, Hin.
Qed.

Lemma good_Map depth vs :
  good depth (Map vs)
  <-> depth <= MAX_CANONICAL_DEPTH /\ Z.of_nat (length vs) <= MAX_CANONICAL_CONTAINER_ITEMS
      /\ Sorted.Sorted bytes_lt (List.map (fun kv => wire (fst kv)) vs)
      /\ forall kv, kv ∈ vs -> good (depth + 1) (fst kv) /\ good (depth + 1) (snd kv).
Proof.
  unfold good. rewrite wf_Map, normal_Map, within_limits_Map. split.
  - intros (Hw & (Hs & Hn) & Hd & Hl & _ & Hwl). do 3 (split; [done|]). intros kv Hin.
    destruct (Hw kv Hin), (Hn kv Hin), (Hwl kv Hin). done.
  - intros (Hd & Hl & Hs & Hg). split; [|split; [split; [done|]|do 2 (split; [done|]);
      split; [by apply strict_NoDup|]]]; intros kv Hin; destruct (Hg kv Hin) as [(?&?&?) (?&?&?)]; done.
Qed.

(** A map whose keys already ascend is encoded in place. *)
Lemma wire_Map_sorted vs :
  Sorted.Sorted bytes_lt (List.map (fun kv => wire (fst kv)) vs) ->
  wire (Map vs)
  = head 5 (Z.of_nat (length vs))
    ++ concat (List.map (fun kv => wire (fst kv) ++ wire (snd kv)) vs).
Proof.
  intros Hs. rewrite wire_Map, sort_entries_strict.
  - unfold keyed. by rewrite List.map_map.
  - unfold strict_keys, keyed. clear -Hs. induction vs as [|kv vs IH]; [constructor|].
    cbn in *. inversion Hs as [|? ? Hs' Hh]; subst. constructor; [auto|].
    destruct vs; cbn in *; constructor. by inversion Hh.
Qed.

Lemma wire_simple v depth :
  is_simple v -> good depth v -> exists a tail, wire v = (224 + a) :: tail /\ 0 <= a < 32.
Proof.
  intros Hs (Hw & _). destruct v as [|b| | |v| | | |]; try done; cbn [wire].
  - exists 22, []. done.
  - exists (if b then 21 else 20), []. by destruct b.
  - unfold float_bytes. destruct (_ =? v); [by eexists 25, _|].
    destruct (_ =? v); [by eexists 26, _|by eexists 27, _].
Qed.

Lemma good_simple v depth :
  is_simple v -> depth <= MAX_CANONICAL_DEPTH ->
  good depth v <-> wf v /\ match v with Float x => f64_is_finite x = true | _ => True end.
Proof. unfold good. destruct v; try done; cbn; tauto. Qed.

(** One level of the decoder, from the levels below it. *)
Lemma decode_forward fuel depth d v d' :
  decodes fuel (depth + 1) -> depth <= MAX_CANONICAL_DEPTH -> cursor d ->
  decode_value (S fuel) depth d = Ok (v, d') -> good depth v /\ consumes d (wire v) d'.
Proof.
  intros IH Hd Hc. cbn [decode_value]. rewrite (proj2 (Z.ltb_ge _ _) Hd).
  destruct (take_byte d) as [[lead d1]|] eqn:Et; [|done].
  pose proof (take_byte_lead d lead d1 Hc Et) as (Hd1 & El & Hm & Ha).
  pose proof (consumes_end _ _ _ Hd1) as Hc1.
  assert (Harg : forall n d2, decode_argument d1 (Z.land lead 31) = Ok (n, d2) ->
    in_u 64 n /\ consumes d (head (Z.shiftr lead 5) n) d2 /\ cursor d2).
  { intros n d2 Hn. destruct (proj1 (head_Ok (Z.shiftr lead 5) d n d2 Hc Hm)) as [? Hh];
      [by exists lead, d1|]. split; [done|]. split; [done|by eapply consumes_end]. }
  change 0x1f with 31. set (a := Z.land lead 31) in *. set (m := Z.shiftr lead 5) in *.
  assert (Hlen : forall n d2, decode_length d1 a = Ok (n, d2) ->
    in_u 64 n /\ consumes d (head m n) d2 /\ cursor d2)
    by (intros n d2 Hn; apply Harg; by apply decode_length_argument in Hn).
  cbv zeta.
  destruct (Z.eqb_spec m 0) as [E0|_]; [|destruct (Z.eqb_spec m 1) as [E1|_];
    [|destruct (Z.eqb_spec m 2) as [E2|_]; [|destruct (Z.eqb_spec m 3) as [E3|_];
    [|destruct (Z.eqb_spec m 4) as [E4|_]; [|destruct (Z.eqb_spec m 5) as [E5|_];
    [|destruct (Z.eqb_spec m 7) as [E7|_]; [|done]]]]]]].
  - intros H'. destruct (decode_argument d1 a) as [[n d2]|]; [|done]. injection H' as <- <-.
    destruct (Harg n d2 eq_refl) as (Hn & Hh & _). rewrite E0 in Hh. done.
  - intros H'. destruct (decode_argument d1 a) as [[n d2]|]; [|done].
    destruct (Harg n d2 eq_refl) as ([Hn0 Hn] & Hh & _). rewrite E1 in Hh.
    destruct (checked_i64 (-1 - n)) as [x|] eqn:Ex; cbn [ok_or] in H'; [|done].
    injection H' as <- <-. apply checked_i64_Some in Ex as [-> Hx].
    split; [split; [exact Hx|split; [cbn; lia|done]]|]. cbn [wire].
    rewrite (proj2 (Z.leb_gt 0 (-1 - n))) by lia.
    by replace (-1 - (-1 - n)) with n by lia.
  - intros H'. destruct (decode_length d1 a) as [[n d2]|]; [|done].
    destruct (Hlen n d2 eq_refl) as ([Hn0 _] & Hh & Hc2). rewrite E2 in Hh.
    destruct (take_bytes d2 n) as [[x d3]|] eqn:Ex; [|done]. injection H' as <- <-.
    apply take_bytes_Ok in Ex as [<- Hx]; [|done..].
    split; [split; [by eapply consumes_byte|done]|]. apply consumes_app. by exists d2.
  - intros H'. destruct (decode_length d1 a) as [[n d2]|]; [|done].
    destruct (Hlen n d2 eq_refl) as ([Hn0 _] & Hh & Hc2). rewrite E3 in Hh.
    destruct (take_bytes d2 n) as [[x d3]|] eqn:Ex; [|done].
    destruct (valid_utf8 x) eqn:Eu; [|done]. injection H' as <- <-.
    apply take_bytes_Ok in Ex as [<- Hx]; [|done..].
    split; [split; [split; [by eapply consumes_byte|done]|done]|]. apply consumes_app. by exists d2.
  - intros H'. destruct (decode_length d1 a) as [[n d2]|]; [|done].
    destruct (Hlen n d2 eq_refl) as ([Hn0 _] & Hh & Hc2). rewrite E4 in Hh.
    destruct (validate_container n) as [[]|] eqn:Ev; [|done]. apply validate_container_Ok in Ev.
    destruct (decode_items _ _ d2) as [[vs d3]|] eqn:Ei; [|done]. injection H' as <- <-.
    apply (decode_items_Ok fuel (depth + 1) IH) in Ei as (Hl & Hg & Hx); [|done].
    assert (n = Z.of_nat (length vs)) as -> by lia.
    split; [by apply good_Array|]. cbn [wire]. apply consumes_app. by exists d2.
  - intros H'. destruct (decode_length d1 a) as [[n d2]|]; [|done].
    destruct (Hlen n d2 eq_refl) as ([Hn0 _] & Hh & Hc2). rewrite E5 in Hh.
    destruct (validate_container n) as [[]|] eqn:Ev; [|done]. apply validate_container_Ok in Ev.
    destruct (decode_entries _ _ _ d2) as [[vs d3]|] eqn:Ei; [|done]. injection H' as <- <-.
    apply (decode_entries_Ok fuel (depth + 1) IH) in Ei as (Hl & Hg & Hs & Hx); [|done].
    assert (n = Z.of_nat (length vs)) as -> by lia. cbn [previous_keys app] in Hs.
    split; [by apply good_Map|]. rewrite wire_Map_sorted by done. apply consumes_app. by exists d2.
  - intros (Hsi & Hw & Hf & tail & Et' & Hx)%decode_simple_Ok; [|done].
    split; [by apply good_simple|]. rewrite Et'.
    replace (224 + a) with lead by lia. apply (consumes_app d [lead] tail). by exists d1.
Qed.

Lemma head_back d m n d2 :
  cursor d -> 0 <= m < 8 -> in_u 64 n -> consumes d (head m n) d2 ->
  exists lead d1, take_byte d = Ok (lead, d1) /\ Z.shiftr lead 5 = m
    /\ decode_argument d1 (Z.land lead 31) = Ok (n, d2)
    /\ decode_length d1 (Z.land lead 31) = Ok (n, d2).
Proof.
  intros Hc Hm Hn Hh. destruct (proj2 (head_Ok m d n d2 Hc Hm) (conj Hn Hh))
    as (lead & d1 & Ht & El & Ha).
  exists lead, d1. split; [done|]. split; [done|]. split; [done|].
  apply take_byte_lead in Ht as (Hd1 & _ & _ & Hr); [|done].
  apply decode_length_argument; [by eapply consumes_end|done|done].
Qed.

Lemma consumes_length d x d' : consumes d x d' -> Z.of_nat (length x) < 2 ^ 63.
Proof.
  intros (_ & E & Hc & _). pose proof (rest_length d Hc) as Hl. rewrite E, length_app in Hl.
  destruct Hc as (? & ? & _). lia.
Qed.

(** The value of a length-prefixed string. *)
Lemma string_back d d' m (b : list Z) :
  cursor d -> 0 <= m < 8 -> consumes d (head m (Z.of_nat (length b)) ++ b) d' ->
  exists lead d1 d2, take_byte d = Ok (lead, d1) /\ Z.shiftr lead 5 = m
    /\ decode_length d1 (Z.land lead 31) = Ok (Z.of_nat (length b), d2)
    /\ take_bytes d2 (Z.of_nat (length b)) = Ok (b, d').
Proof.
  intros Hc Hm Hx. apply consumes_app in Hx as (d2 & Hh & Hb).
  pose proof (consumes_length _ _ _ Hb).
  destruct (head_back d m (Z.of_nat (length b)) d2 Hc Hm ltac:(unfold in_u; lia) Hh) as (lead & d1 & ? & ? & _ & ?).
  exists lead, d1, d2. do 3 (split; [done|]).
  apply take_bytes_Ok; [by eapply consumes_end|lia|done].
Qed.

Lemma decode_backward fuel depth d v d' :
  decodes fuel (depth + 1) -> cursor d ->
  good depth v -> consumes d (wire v) d' -> decode_value (S fuel) depth d = Ok (v, d').
Proof.
  intros IH Hc Hg Hx. cbn [decode_value].
  rewrite (proj2 (Z.ltb_ge _ _) (within_limits_depth _ _ (proj2 (proj2 Hg)))).
  change 0x1f with 31.
  assert (Hsimple : is_simple v ->
    (let? (lead, d) := take_byte d in
     let major := Z.shiftr lead 5 in
     let additional := Z.land lead 31 in
     if major =? 7 then decode_simple d additional else Err UnsupportedType) = Ok (v, d')
    /\ forall lead d1, take_byte d = Ok (lead, d1) -> Z.shiftr lead 5 = 7).
  { intros Hs. destruct (wire_simple v depth Hs Hg) as (a & tail & E & Ha). rewrite E in Hx.
    apply (consumes_app d [_] tail) in Hx as (d1 & H1 & H2).
    apply take_byte_Ok in H1 as Ht; [|done]. rewrite Ht.
    destruct (lead_join 7 a ltac:(lia) Ha) as [E1 E2]. change (7 * 32) with 224 in *.
    cbv zeta. rewrite E1, E2. split; [|intros lead d2 [= <- <-]; done].
    apply decode_simple_Ok; [by eapply consumes_end|]. split; [done|].
    apply good_simple in Hg as [Hw Hf];
      [|done|by eapply within_limits_depth; apply Hg]. split; [done|]. split; [done|].
    by exists tail. }
  assert (Hsimple' : is_simple v ->
    exists lead d1, take_byte d = Ok (lead, d1) /\ Z.shiftr lead 5 = 7
      /\ decode_simple d1 (Z.land lead 31) = Ok (v, d')).
  { intros Hs. destruct (Hsimple Hs) as [Hd Hl]. destruct (take_byte d) as [[lead d1]|]; [|done].
    exists lead, d1. specialize (Hl lead d1 eq_refl). cbv zeta in Hd. rewrite Hl in Hd. done. }
  clear Hsimple.
  destruct v as [|b|v|v|v|bs|s|vs|vs].
  1,2,5: destruct (Hsimple' I) as (lead & d1 & -> & -> & Hd); exact Hd.
  all: clear Hsimple'; cbn [wire] in Hx.
  - destruct Hg as (Hw & Hn & _). cbn in Hw, Hn. unfold in_i in Hw.
    rewrite (proj2 (Z.leb_gt 0 v)) in Hx by done.
    destruct (head_back d 1 (-1 - v) d' Hc ltac:(lia) ltac:(unfold in_u; lia) Hx)
      as (lead & d1 & -> & -> & Ha & _). cbn. rewrite Ha.
    assert (checked_i64 (-1 - (-1 - v)) = Some v) as ->; [|done].
    apply checked_i64_Some. split; [lia|unfold in_i; lia].
  - destruct Hg as (Hw & _). destruct (head_back d 0 v d' Hc ltac:(lia) Hw Hx)
      as (lead & d1 & -> & -> & Ha & _). cbn. by rewrite Ha.
  - destruct (string_back d d' 2 bs Hc ltac:(lia) Hx) as (lead & d1 & d2 & -> & -> & Hl & Hb).
    cbn. by rewrite Hl, Hb.
  - destruct (string_back d d' 3 s Hc ltac:(lia) Hx) as (lead & d1 & d2 & -> & -> & Hl & Hb).
    destruct Hg as ([_ Hu] & _). cbn. by rewrite Hl, Hb, Hu.
  - apply good_Array in Hg as (_ & Hl & Hg). apply consumes_app in Hx as (d2 & Hh & Hx).
    destruct (head_back d 4 (Z.of_nat (length vs)) d2 Hc ltac:(lia) ltac:(unfold in_u, MAX_CANONICAL_CONTAINER_ITEMS in *; lia) Hh)
      as (lead & d1 & -> & -> & _ & Ha). cbn. rewrite Ha.
    rewrite (proj2 (validate_container_Ok _) Hl), Nat2Z.id.
    by rewrite (proj2 (decode_items_Ok fuel (depth + 1) IH _ d2 vs d' (consumes_end _ _ _ Hh))).
  - apply good_Map in Hg as (_ & Hl & Hs & Hg).
    change (consumes d (wire (Map vs)) d') in Hx. rewrite wire_Map_sorted in Hx by done.
    apply consumes_app in Hx as (d2 & Hh & Hx).
    destruct (head_back d 5 (Z.of_nat (length vs)) d2 Hc ltac:(lia) ltac:(unfold in_u, MAX_CANONICAL_CONTAINER_ITEMS in *; lia) Hh)
      as (lead & d1 & -> & -> & _ & Ha). cbn. rewrite Ha.
    rewrite (proj2 (validate_container_Ok _) Hl), Nat2Z.id.
    by rewrite (proj2 (decode_entries_Ok fuel (depth + 1) IH _ None d2 vs d' (consumes_end _ _ _ Hh))).
Qed.

Lemma decode_value_spec fuel : forall depth,
  Z.of_nat fuel + depth = 34 -> 0 <= depth -> decodes fuel depth.
Proof.
  induction fuel as [|fuel IH]; intros depth Hf H0 d v d' Hc.
  - cbn [decode_value]. split; [done|]. intros [(_ & _ & Hl) _]. apply within_limits_depth in Hl.
    unfold MAX_CANONICAL_DEPTH in Hl. lia.
  - assert (IH' : decodes fuel (depth + 1)) by (apply IH; lia).
    destruct (Z.leb_spec depth MAX_CANONICAL_DEPTH) as [Hd|Hd].
    + split; [by apply decode_forward|]. intros [? ?]. by apply decode_backward.
    + cbn [decode_value]. rewrite (proj2 (Z.ltb_lt _ _) Hd). split; [done|].
      intros [(_ & _ & Hl) _]. apply within_limits_depth in Hl. lia.
Qed.
End Decode.
