(* ===== verification/CborProps.v ===== *)
(** * Deterministic CBOR: the theorems

    Round trip up to [normalize], exact accepted language, redundancy of the
    decoder's final comparison, injectivity and independence of map order. *)
From S2P Require Import Prelude Bytes Floats Crypto Cbor CborTheory CborDecode.

(** Induction through arrays and maps. *)
Definition is_leaf (v : CV) : Prop :=
  match v with Array _ | Map _ => False | _ => True end.

Section Induction.
Variable P : CV -> Prop.
Hypothesis Hleaf : forall v, is_leaf v -> P v.
Hypothesis Harray : forall vs, (forall v, v ∈ vs -> P v) -> P (Array vs).
Hypothesis Hmap : forall vs, (forall kv, kv ∈ vs -> P (fst kv) /\ P (snd kv)) -> P (Map vs).

Lemma CV_nested_ind : forall v, P v.
Proof.
  fix IH 1. intros [| | | | | | |vs|vs]; try (apply Hleaf; exact I).
  - apply Harray. induction vs as [|v vs IHvs].
    + clear IH. intros v Hv. by apply not_elem_of_nil in Hv.
    + intros x [->|Hx]%elem_of_cons; [exact (IH v)|exact (IHvs x Hx)].
  - apply Hmap. induction vs as [|[k v] vs IHvs].
    + clear IH. intros v Hv. by apply not_elem_of_nil in Hv.
    + intros x [->|Hx]%elem_of_cons; [exact (conj (IH k) (IH v))|exact (IHvs x Hx)].
Qed.
End Induction.

Section Normalize.
Context `{HalfFloat}.

Definition normalize2 (kv : CV * CV) : CV * CV := (normalize (fst kv), normalize (snd kv)).

(** The entries of a map keyed by their wire keys, in wire order. *)
Definition sorted_entries (vs : list (CV * CV)) : list (list Z * (CV * CV)) :=
  sort_entries (List.map (fun kv => (wire (fst kv), kv)) vs).

Lemma sorted_entries_in vs e :
  e ∈ sorted_entries vs <-> snd e ∈ vs /\ fst e = wire (fst (snd e)).
Proof.
  unfold sorted_entries. rewrite sort_entries_perm, list_elem_of_In, in_map_iff. split.
  - intros (kv & <- & Hin). cbn. by rewrite list_elem_of_In.
  - intros [Hin E]. exists (snd e). rewrite <- E. split; [by destruct e|].
    by rewrite <- list_elem_of_In.
Qed.

Lemma normalize_Map vs :
  normalize (Map vs) = Map (List.map (fun e => normalize2 (snd e)) (sorted_entries vs)).
Proof.
  cbn [normalize]. f_equal. unfold sorted_entries.
  assert (List.map (fun kv => (wire (fst kv), (normalize (fst kv), normalize (snd kv)))) vs
    = List.map (on_value normalize2) (List.map (fun kv => (wire (fst kv), kv)) vs)) as ->
    by (by rewrite List.map_map).
  by rewrite sort_entries_map, List.map_map.
Qed.

Lemma sort_keyed vs : sort_entries (keyed vs) = List.map (on_value snd) (sorted_entries vs).
Proof.
  unfold sorted_entries, keyed.
  assert (List.map (fun kv => (wire (fst kv), snd kv)) vs
    = List.map (on_value snd) (List.map (fun kv => (wire (fst kv), kv)) vs)) as ->
    by (by rewrite List.map_map).
  apply sort_entries_map.
Qed.

Lemma sorted_entries_length vs : length (sorted_entries vs) = length vs.
Proof. unfold sorted_entries. by rewrite sort_entries_perm, List.length_map. Qed.

Lemma sorted_entries_strict vs :
  NoDup (List.map (fun kv => wire (fst kv)) vs) ->
  Sorted.Sorted bytes_lt (List.map fst (sorted_entries vs)).
Proof.
  intros Hn. assert (Hs : strict_keys (sorted_entries vs)).
  { apply sort_strict_iff_NoDup. by rewrite List.map_map. }
  induction Hs as [|a l _ IH Hh]; cbn; constructor; [done|].
  inversion Hh; subst; by constructor.
Qed.

Lemma map_ext_elem {A B} (f g : A -> B) l :
  (forall a, a ∈ l -> f a = g a) -> List.map f l = List.map g l.
Proof. intros Hfg. apply List.map_ext_in. intros a Ha. apply Hfg, list_elem_of_In, Ha. Qed.

(** Normalising keeps the wire form and reaches a value the decoder returns. *)
Lemma normalize_good v : forall depth, wf v -> within_limits depth v ->
  wire (normalize v) = wire v /\ good depth (normalize v).
Proof.
  induction v as [v Hl|vs IH|vs IH] using CV_nested_ind; intros depth Hw Hd.
  - destruct v; cbn in *; try done; [| split; [done|split; [done|split; done]]..].
    unfold in_i in Hw. destruct (Z.leb_spec 0 value) as [Hp|Hp]; cbn.
    + split; [done|]. split; [cbn; unfold in_u; lia|]. split; [done|]. exact Hd.
    + rewrite (proj2 (Z.leb_gt 0 value)) by done. split; [done|]. split; [exact Hw|]. split; done.
  - pose proof (proj1 (wf_Array vs) Hw) as Hws.
    apply within_limits_Array in Hd as (Hd & Hl & Hds). cbn [normalize wire].
    assert (Hv : forall v, v ∈ vs -> wire (normalize v) = wire v /\ good (depth + 1) (normalize v))
      by auto.
    rewrite List.map_map, List.length_map. split.
    + do 2 f_equal. apply map_ext_elem. intros v Hin. by apply Hv.
    + apply good_Array. rewrite List.length_map. do 2 (split; [done|]).
      intros x (v & <- & Hin)%list_elem_of_In%in_map_iff. apply Hv, list_elem_of_In, Hin.
  - pose proof (proj1 (wf_Map vs) Hw) as Hws.
    apply within_limits_Map in Hd as (Hd & Hl & Hnd & Hds).
    assert (Hkv : forall e, e ∈ sorted_entries vs ->
      wire (fst (normalize2 (snd e))) = fst e /\ wire (snd (normalize2 (snd e))) = wire (snd (snd e))
      /\ good (depth + 1) (fst (normalize2 (snd e))) /\ good (depth + 1) (snd (normalize2 (snd e)))).
    { intros e [Hin ->]%sorted_entries_in. destruct (IH _ Hin) as [IHk IHv].
      destruct (Hws _ Hin), (Hds _ Hin). unfold normalize2. cbn [fst snd].
      destruct (IHk (depth + 1)), (IHv (depth + 1)); done. }
    rewrite normalize_Map.
    assert (Hs : Sorted.Sorted bytes_lt (List.map (fun kv => wire (fst kv))
      (List.map (fun e => normalize2 (snd e)) (sorted_entries vs)))).
    { rewrite List.map_map, (map_ext_elem _ fst) by (intros e He; by apply Hkv).
      by apply sorted_entries_strict. }
    split.
    + rewrite wire_Map_sorted by done. rewrite wire_Map, sort_keyed, !List.map_map, List.length_map,
        sorted_entries_length.
      do 2 f_equal. apply map_ext_elem. intros e He. destruct (Hkv e He) as (-> & -> & _). done.
    + apply good_Map. rewrite List.length_map, sorted_entries_length. do 3 (split; [done|]).
      intros x (e & <- & Hin)%list_elem_of_In%in_map_iff. apply list_elem_of_In in Hin.
      by destruct (Hkv e Hin) as (_ & _ & ? & ?).
Qed.

Lemma normalize_fixed v : normal v -> normalize v = v.
Proof.
  induction v as [v Hl|vs IH|vs IH] using CV_nested_ind; intros Hn.
  - destruct v; cbn in *; try done. by rewrite (proj2 (Z.leb_gt 0 value)).
  - cbn [normalize]. f_equal. rewrite <- (List.map_id vs) at 2. apply map_ext_elem.
    intros v Hin. apply IH; [done|]. by apply (proj1 (normal_Array vs)).
  - apply normal_Map in Hn as [Hs Hn]. rewrite normalize_Map. f_equal.
    unfold sorted_entries. rewrite sort_entries_strict.
    + rewrite List.map_map. cbn [snd]. rewrite <- (List.map_id vs) at 2. apply map_ext_elem.
      intros [k v] Hin. destruct (IH _ Hin) as [IHk IHv], (Hn _ Hin). unfold normalize2.
      cbn in *. by rewrite IHk, IHv.
    + unfold strict_keys. clear -Hs. induction vs as [|kv vs IH]; [constructor|].
      cbn in *. inversion Hs as [|? ? Hs' Hh]; subst. constructor; [auto|].
      destruct vs; cbn in *; constructor. by inversion Hh.
Qed.

Lemma cursor_new bytes : Forall is_byte bytes -> fits bytes -> cursor (Decoder_new bytes).
Proof. intros Hb Hf. unfold fits, MAX_CANONICAL_BYTES in Hf. split; cbn; [lia|]. split; [lia|done]. Qed.

(** Decoding a whole buffer. *)
Lemma decode_whole bytes v d :
  Forall is_byte bytes -> fits bytes ->
  decode_value FUEL 0 (Decoder_new bytes) = Ok (v, d) /\ is_finished d = true
  <-> good 0 v /\ bytes = wire v /\ d = mkDecoder bytes (Z.of_nat (length bytes)).
Proof.
  intros Hb Hf. pose proof (cursor_new bytes Hb Hf) as Hc.
  rewrite (decode_value_spec FUEL 0 eq_refl ltac:(lia) _ _ _ Hc). split.
  - intros [[Hg Hd] Hfin]. split; [done|]. destruct Hd as (-> & E & _).
    unfold is_finished, rest, Decoder_new in *. cbn [Cbor.bytes offset] in *.
    rewrite Z.add_0_l in *. apply Z.eqb_eq in Hfin.
    rewrite Hfin, Nat2Z.id, drop_all, app_nil_r, drop_0 in E. split; [exact E|by rewrite Hfin].
  - intros (Hg & E & ->). split; [|unfold is_finished; cbn; apply Z.eqb_refl]. split; [done|].
    destruct (consumes_intro (Decoder_new bytes) (wire v) [] Hc) as (d' & Hd & _).
    + unfold rest. cbn. by rewrite drop_0, app_nil_r.
    + pose proof Hd as (-> & _).
      assert (Z.of_nat (length bytes) = 0 + Z.of_nat (length (wire v))) as -> by (by rewrite <- E).
      exact Hd.
Qed.

#[local] Strategy 1000 [FUEL decode_value encode_value].

Lemma from_canonical_cbor_Ok bytes v :
  Forall is_byte bytes ->
  from_canonical_cbor bytes = Ok v <-> good 0 v /\ bytes = wire v /\ fits bytes.
Proof.
  intros Hb. unfold from_canonical_cbor.
  destruct (Z.ltb_spec MAX_CANONICAL_BYTES (Z.of_nat (length bytes))) as [Hl|Hl].
  { split; [done|]. intros (_ & _ & Hf). unfold fits in Hf. lia. }
  pose proof (fun v d => decode_whole bytes v d Hb Hl) as Hw. split.
  - intros H'. destruct (decode_value FUEL 0 _) as [[v' d]|] eqn:E; [|done].
    destruct (is_finished d) eqn:Ef; cbn [negb] in H'; [|done].
    destruct (proj1 (Hw v' d) (conj eq_refl Ef)) as (Hg & Eb & _).
    destruct (to_canonical_cbor v') as [enc|]; [|done].
    destruct (list_eqb enc bytes); cbn [negb] in H'; [|done]. injection H' as <-. done.
  - intros (Hg & E & _).
    destruct (proj2 (Hw v (mkDecoder bytes (Z.of_nat (length bytes)))) (conj Hg (conj E eq_refl)))
      as [Hdec Hfin].
    rewrite Hdec, Hfin. cbn [negb].
    rewrite (proj2 (to_canonical_cbor_Ok v bytes (proj1 Hg))) by (split; [apply Hg|done]).
    by rewrite (proj2 (list_eqb_eq bytes bytes) eq_refl).
Qed.

Lemma head_byte m v : 0 <= m < 8 -> 0 <= v -> Forall is_byte (head m v).
Proof.
  intros Hm Hv. unfold head.
  assert (Hb : forall k, 0 <= k < 32 -> is_byte (m * 32 + k)) by (unfold is_byte; lia).
  destruct (Z.leb_spec v 23); [constructor; [apply Hb; lia|constructor]|].
  destruct (Z.leb_spec v 255).
  { constructor; [apply Hb; lia|]. constructor; [unfold is_byte; lia|constructor]. }
  destruct (Z.leb_spec v 65535); [|destruct (Z.leb_spec v 4294967295)];
    (constructor; [apply Hb; lia|apply be_bytes_byte]).
Qed.

Lemma float_bytes_byte v : Forall is_byte (float_bytes v).
Proof.
  unfold float_bytes. repeat destruct (_ =? _);
    (constructor; [unfold is_byte; lia|apply be_bytes_byte]).
Qed.

Lemma wire_byte v : wf v -> Forall is_byte (wire v).
Proof.
  induction v as [v Hl|vs IH|vs IH] using CV_nested_ind; intros Hw.
  - destruct v; cbn in *; try done.
    + repeat constructor; unfold is_byte; lia.
    + destruct b; repeat constructor; unfold is_byte; lia.
    + destruct (Z.leb_spec 0 value); apply head_byte; lia.
    + apply head_byte; [lia|apply Hw].
    + apply float_bytes_byte.
    + apply Forall_app. split; [apply head_byte; lia|done].
    + apply Forall_app. split; [apply head_byte; lia|apply Hw].
  - cbn [wire]. apply Forall_app. split; [apply head_byte; lia|].
    apply Forall_concat, Forall_map, Forall_forall. intros v Hin.
    apply IH; [done|]. by apply (proj1 (wf_Array vs)).
  - rewrite wire_Map. apply Forall_app. split; [apply head_byte; lia|].
    apply Forall_concat, Forall_map, Forall_forall. intros e (kv & Hin & ->)%keyed_in.
    destruct (IH _ Hin), (proj1 (wf_Map vs) Hw _ Hin). apply Forall_app. cbn; auto.
Qed.

Lemma to_canonical_cbor_roundtrip v bs :
  wf v -> to_canonical_cbor v = Ok bs ->
  from_canonical_cbor bs = Ok (normalize v) /\ Forall is_byte bs /\ fits bs.
Proof.
  intros Hw (Hd & -> & Hf)%to_canonical_cbor_Ok; [|done].
  destruct (normalize_good v 0 Hw Hd) as [E Hg]. pose proof (wire_byte v Hw).
  split; [|done]. by apply from_canonical_cbor_Ok.
Qed.
End Normalize.

Section Theorems.
Context `{HalfFloat}.

(** C40: the bounded, buffer-appending encoder refines the reference encoder: it
    succeeds exactly on the values within the vocabulary's limits (depth 32, 4096
    items, finite floats, distinct map keys) whose wire form is at most 2 MiB, and
    then its output is that wire form. *)
Theorem to_canonical_cbor_refines_wire (v : CV) (bs : list Z) :
  wf v ->
  to_canonical_cbor v = Ok bs
  <-> within_limits 0 v /\ bs = wire v /\ Z.of_nat (length bs) <= MAX_CANONICAL_BYTES.
Proof. apply to_canonical_cbor_Ok. Qed.

(** Decoding what was encoded gives the value back in normal form, and the
    normal form encodes to the same bytes. *)
Theorem cbor_roundtrip (v : CV) (bs : list Z) :
  wf v -> to_canonical_cbor v = Ok bs ->
  from_canonical_cbor bs = Ok (normalize v) /\ to_canonical_cbor (normalize v) = Ok bs
  /\ normalize (normalize v) = normalize v.
Proof.
  intros Hw He. destruct (to_canonical_cbor_roundtrip v bs Hw He) as (Hd & Hb & Hf).
  apply from_canonical_cbor_Ok in Hd as Hg; [|done]. destruct Hg as ((Hw' & Hn & Hl) & E & _).
  split; [done|]. split; [by apply to_canonical_cbor_Ok|by apply normalize_fixed].
Qed.

(** The decoder accepts exactly the wire forms of normal values within the
    limits: no other byte string decodes, so a decoded value has one encoding. *)
Theorem from_canonical_cbor_accepts (bytes : list Z) (v : CV) :
  Forall is_byte bytes ->
  from_canonical_cbor bytes = Ok v
  <-> wf v /\ normal v /\ within_limits 0 v /\ bytes = wire v
      /\ Z.of_nat (length bytes) <= MAX_CANONICAL_BYTES.
Proof.
  intros Hb. rewrite from_canonical_cbor_Ok by done. unfold good, fits. tauto.
Qed.

(** The strict decoder is already canonical.  If it consumes the whole input,
    re-encoding the value gives the input back, so the final comparison of
    [from_canonical_cbor] never rejects anything the decoder accepted. *)
Theorem decoder_is_canonical (bytes : list Z) (v : CV) (d : Decoder) :
  Forall is_byte bytes -> Z.of_nat (length bytes) <= MAX_CANONICAL_BYTES ->
  decode_value FUEL 0 (Decoder_new bytes) = Ok (v, d) -> is_finished d = true ->
  to_canonical_cbor v = Ok bytes.
Proof.
  intros Hb Hf Hd Hfin.
  destruct (proj1 (decode_whole bytes v d Hb Hf) (conj Hd Hfin)) as ((Hw & Hn & Hl) & -> & _).
  by apply to_canonical_cbor_Ok.
Qed.

(** The encoding is injective up to normal form: two values with the same
    bytes differ only in the sign variant of a nonnegative integer and in the
    order of map entries. *)
Theorem to_canonical_cbor_injective (v w : CV) (bs : list Z) :
  wf v -> wf w -> to_canonical_cbor v = Ok bs -> to_canonical_cbor w = Ok bs ->
  normalize v = normalize w.
Proof.
  intros Hv Hw H1 H2.
  destruct (to_canonical_cbor_roundtrip v bs Hv H1) as [E1 _].
  destruct (to_canonical_cbor_roundtrip w bs Hw H2) as [E2 _]. congruence.
Qed.

End Theorems.

(** ** Witnesses *)

(** A map given out of order, with a nested array, a nonnegative [Integer], a
    float and a two-byte string. *)
Definition sample_value : CV :=
  Map [(Text (str "b"), Array [Integer 500; Integer (-1); Float 0x3ff8000000000000]);
       (Text (str "a"), Bytes [1; 2])].

Definition sample_bytes : list Z :=
  [0xa2; 0x61; 0x61; 0x42; 1; 2; 0x61; 0x62; 0x83; 0x19; 0x01; 0xf4; 0x20; 0xfa; 0x3f; 0xc0; 0; 0].

Lemma sample_wf : wf sample_value.
Proof.
  cbn. unfold in_i, in_u, is_byte.
  repeat split; try lia; repeat constructor; lia.
Qed.

Lemma sample_bytes_ok : Forall is_byte sample_bytes.
Proof. apply (bool_decide_eq_true_1 (Forall is_byte sample_bytes)). vm_compute. reflexivity. Qed.

Lemma to_canonical_cbor_refines_wire_witness :
  within_limits (H := toy_half) 0 sample_value /\ sample_bytes = wire (H := toy_half) sample_value
  /\ Z.of_nat (length sample_bytes) <= MAX_CANONICAL_BYTES.
Proof.
  apply (to_canonical_cbor_refines_wire (H := toy_half) sample_value sample_bytes sample_wf).
  vm_compute. reflexivity.
Defined.

Lemma cbor_roundtrip_witness :
  from_canonical_cbor (H := toy_half) sample_bytes
  = Ok (Map [(Text (str "a"), Bytes [1; 2]);
             (Text (str "b"), Array [Unsigned 500; Integer (-1); Float 0x3ff8000000000000])]).
Proof.
  exact (proj1 (cbor_roundtrip (H := toy_half) sample_value sample_bytes sample_wf
    ltac:(vm_compute; reflexivity))).
Defined.

Lemma from_canonical_cbor_accepts_witness :
  wf (Array [Null]) /\ normal (H := toy_half) (Array [Null])
  /\ within_limits (H := toy_half) 0 (Array [Null]) /\ [0x81; 0xf6] = wire (H := toy_half) (Array [Null])
  /\ Z.of_nat (length [0x81; 0xf6]) <= MAX_CANONICAL_BYTES.
Proof.
  apply (from_canonical_cbor_accepts (H := toy_half) [0x81; 0xf6] (Array [Null])).
  - repeat constructor; unfold is_byte; lia.
  - vm_compute. reflexivity.
Defined.

Lemma decoder_is_canonical_witness :
  to_canonical_cbor (H := toy_half) (Array [Null]) = Ok [0x81; 0xf6].
Proof.
  apply (decoder_is_canonical (H := toy_half) [0x81; 0xf6] (Array [Null]) (mkDecoder [0x81; 0xf6] 2)).
  - repeat constructor; unfold is_byte; lia.
  - unfold MAX_CANONICAL_BYTES. cbn. lia.
  - vm_compute. reflexivity.
  - reflexivity.
Defined.

Lemma to_canonical_cbor_injective_witness :
  normalize (H := toy_half) (Integer 7) = normalize (H := toy_half) (Unsigned 7).
Proof.
  apply (to_canonical_cbor_injective (H := toy_half) (Integer 7) (Unsigned 7) [7]);
    cbn; unfold in_i, in_u; try lia; vm_compute; reflexivity.
Defined.
