(* ===== verification/CborMap.v ===== *)
(** * Canonical maps with consecutive integer keys

    The peer and pairing messages are CBOR maps keyed 0, 1, 2, ... in order.
    [indexed] builds such a map; its normal form, limits and encoding follow from
    those of its values. *)
From S2P Require Import Prelude Bytes Floats Crypto Cbor CborTheory CborDecode CborProps.

Fixpoint index_from (k : Z) (vs : list CV) : list (CV * CV) :=
  match vs with
  | [] => []
  | v :: vs => (Unsigned k, v) :: index_from (k + 1) vs
  end.

Definition indexed (vs : list CV) : CV := Map (index_from 0 vs).

Lemma index_from_length vs : forall k, length (index_from k vs) = length vs.
Proof. induction vs as [|v vs IH]; intros k; cbn; auto. Qed.

Lemma index_from_elem vs : forall k kv,
  kv ∈ index_from k vs ->
  (exists i, fst kv = Unsigned i /\ k <= i < k + Z.of_nat (length vs)) /\ snd kv ∈ vs.
Proof.
  induction vs as [|v vs IH]; intros k kv Hin; cbn in Hin; [by apply not_elem_of_nil in Hin|].
  apply elem_of_cons in Hin as [->|Hin].
  - split; [exists k; cbn; split; [done|lia]|left].
  - destruct (IH _ _ Hin) as ((i & Hi & Hr) & Hs). split; [exists i; cbn; split; [done|lia]|by right].
Qed.

Lemma index_from_value vs v : forall k, v ∈ vs -> exists i, (Unsigned i, v) ∈ index_from k vs.
Proof.
  induction vs as [|w vs IH]; intros k Hin; [by apply not_elem_of_nil in Hin|].
  apply elem_of_cons in Hin as [->|Hin]; [exists k; left|].
  destruct (IH (k + 1) Hin) as [i Hi]. exists i. by right.
Qed.

Section Indexed.
Context `{HalfFloat}.

Lemma wire_small_key k : 0 <= k <= 23 -> wire (Unsigned k) = [k].
Proof. intros Hk. cbn. unfold head. by rewrite (proj2 (Z.leb_le k 23)) by lia. Qed.

Lemma index_from_strict {V} (g : CV * CV -> V) vs : forall k,
  0 <= k -> k + Z.of_nat (length vs) <= 24 ->
  strict_keys (List.map (fun kv => (wire (fst kv), g kv)) (index_from k vs)).
Proof.
  induction vs as [|v vs IH]; intros k Hk Hl; cbn [index_from List.map]; [constructor|].
  cbn [length] in Hl. constructor; [apply IH; lia|].
  destruct vs as [|w vs]; cbn [index_from List.map]; [constructor|]. constructor. cbn [fst].
  rewrite !wire_small_key by (cbn [length] in Hl; lia). cbn [fst snd length] in *.
  unfold bytes_lt. cbn. by rewrite (proj2 (Z.compare_lt_iff k (k + 1))) by lia.
Qed.

Lemma normalize_indexed vs :
  (length vs <= 24)%nat -> normalize (indexed vs) = indexed (List.map normalize vs).
Proof.
  intros Hl. unfold indexed. cbn [normalize]. f_equal.
  rewrite sort_entries_strict by (apply index_from_strict; lia).
  rewrite List.map_map. cbn [snd]. generalize 0. induction vs as [|v vs IH]; intros k; [done|].
  cbn [index_from List.map fst snd normalize]. f_equal. apply IH. cbn in Hl. lia.
Qed.

Lemma wf_indexed vs :
  (length vs <= 24)%nat -> wf (indexed vs) <-> forall v, v ∈ vs -> wf v.
Proof.
  intros Hl. unfold indexed. rewrite wf_Map. split.
  - intros Hw v Hin. destruct (index_from_value vs v 0 Hin) as [i Hi]. by apply (Hw _ Hi).
  - intros Hw kv Hin. apply index_from_elem in Hin as ((i & -> & Hr) & Hs).
    split; [cbn; unfold in_u; lia|by apply Hw].
Qed.

Lemma index_from_NoDup vs : forall k,
  0 <= k -> k + Z.of_nat (length vs) <= 24 ->
  NoDup (List.map (fun kv => wire (fst kv)) (index_from k vs)).
Proof.
  induction vs as [|v vs IH]; intros k Hk Hl; cbn [index_from List.map]; [constructor|].
  cbn [length] in Hl. constructor; [|apply IH; lia].
  intros (kv & E & Hin)%list_elem_of_fmap. apply index_from_elem in Hin as ((i & Ei & Hr) & _).
  rewrite Ei in E. cbn [fst] in E. rewrite !wire_small_key in E by lia. injection E. lia.
Qed.

Lemma within_limits_indexed depth vs :
  (length vs <= 24)%nat ->
  within_limits depth (indexed vs)
  <-> depth <= MAX_CANONICAL_DEPTH /\ (vs <> [] -> depth + 1 <= MAX_CANONICAL_DEPTH)
      /\ forall v, v ∈ vs -> within_limits (depth + 1) v.
Proof.
  intros Hl. unfold indexed. rewrite within_limits_Map, index_from_length. split.
  - intros (Hd & _ & _ & Hin). split; [done|]. split.
    + intros Hne. destruct vs as [|v vs]; [done|]. eapply within_limits_depth, (Hin (Unsigned 0, v)). left.
    + intros v Hv. destruct (index_from_value vs v 0 Hv) as [i Hi]. by apply (Hin _ Hi).
  - intros (Hd & Hne & Hin). split; [done|]. split; [unfold MAX_CANONICAL_CONTAINER_ITEMS; lia|].
    split; [apply index_from_NoDup; lia|].
    intros kv Hkv. apply index_from_elem in Hkv as ((i & -> & _) & Hs).
    split; [|by apply Hin]. split; [|exact I]. apply Hne. intros ->. by apply not_elem_of_nil in Hs.
Qed.

(** Small messages whose parts are bytes, integers and texts are always encodable;
    only the total size can be refused. *)
Definition flat (v : CV) : bool :=
  match v with Array _ | Map _ | Float _ => false | _ => true end.

Lemma within_limits_flat depth v : flat v = true -> depth <= MAX_CANONICAL_DEPTH -> within_limits depth v.
Proof. destruct v; by intros. Qed.

Lemma indexed_flat_limits depth vs :
  (length vs <= 24)%nat -> depth + 1 <= MAX_CANONICAL_DEPTH ->
  (forall v, v ∈ vs -> flat v = true) -> within_limits depth (indexed vs).
Proof.
  intros Hl Hd Hf. apply within_limits_indexed; [done|]. split; [lia|]. split; [done|].
  intros v Hv. apply within_limits_flat; [by apply Hf|done].
Qed.

(** Encodings of two such maps agree only when their values' normal forms do. *)
Lemma indexed_encoding_inj vs ws bs :
  (length vs <= 24)%nat -> (length ws <= 24)%nat -> wf (indexed vs) -> wf (indexed ws) ->
  to_canonical_cbor (indexed vs) = Ok bs -> to_canonical_cbor (indexed ws) = Ok bs ->
  List.map normalize vs = List.map normalize ws.
Proof.
  intros Lv Lw Wv Ww Hv Hw.
  apply to_canonical_cbor_roundtrip in Hv as (Hv & _ & _), Hw as (Hw & _ & _); [|done..].
  assert (E : normalize (indexed vs) = normalize (indexed ws)) by congruence.
  rewrite !normalize_indexed in E by done. unfold indexed in E. injection E as E.
  assert (Hs : forall l, List.map snd (index_from 0 l) = l).
  { generalize 0. intros k l. revert k. induction l as [|v l IH]; intros k; cbn; [done|by f_equal]. }
  by rewrite <- (Hs (List.map normalize vs)), E, Hs.
Qed.

(** ** Sizes *)
Lemma head_bound m v : (length (head m v) <= 9)%nat.
Proof.
  unfold head. repeat (destruct (_ <=? _); [cbn [length]; rewrite ?be_bytes_length; lia|]).
  cbn [length]. rewrite be_bytes_length. lia.
Qed.

(** The size of the items a message is made of. *)
Definition item_bound (v : CV) : nat :=
  match v with
  | Bytes b | Text b => 9 + length b
  | Null | Bool _ | Integer _ | Unsigned _ => 9
  | _ => 0
  end.

Lemma wire_item_bound v : flat v = true -> (length (wire v) <= item_bound v)%nat.
Proof.
  destruct v; intros Hf; try discriminate Hf; cbn [wire item_bound]; try (cbn; lia).
  - destruct (0 <=? value); apply head_bound.
  - apply head_bound.
  - rewrite length_app. pose proof (head_bound 2 (Z.of_nat (length bytes))). lia.
  - rewrite length_app. pose proof (head_bound 3 (Z.of_nat (length value))). lia.
Qed.

Lemma wire_indexed vs :
  (length vs <= 24)%nat ->
  wire (indexed vs)
  = head 5 (Z.of_nat (length vs))
    ++ concat (List.map (fun kv => wire (fst kv) ++ wire (snd kv)) (index_from 0 vs)).
Proof.
  intros Hl. unfold indexed. cbn [wire]. rewrite index_from_length. f_equal.
  assert (E : sort_entries (List.map (fun kv => (wire (fst kv), wire (snd kv))) (index_from 0 vs))
              = List.map (fun kv => (wire (fst kv), wire (snd kv))) (index_from 0 vs)).
  { apply sort_entries_strict. apply index_from_strict; lia. }
  rewrite E, List.map_map. done.
Qed.

Lemma wire_indexed_bound vs :
  (length vs <= 24)%nat ->
  (length (wire (indexed vs)) <= 9 + list_sum (List.map (fun v => 1 + length (wire v)) vs))%nat.
Proof.
  intros Hl. rewrite wire_indexed, length_app by done.
  enough (E : forall k, 0 <= k -> k + Z.of_nat (length vs) <= 24 ->
    length (concat (List.map (fun kv => wire (fst kv) ++ wire (snd kv)) (index_from k vs)))
    = list_sum (List.map (fun v => (1 + length (wire v))%nat) vs)).
  { rewrite (E 0) by lia. pose proof (head_bound 5 (Z.of_nat (length vs))). lia. }
  induction vs as [|v vs IH]; intros k Hk Hle; [done|]. cbn [length] in *.
  cbn [index_from List.map concat fst snd]. rewrite !length_app, wire_small_key, IH by lia. done.
Qed.

Lemma list_sum_mono {A} (f g : A -> nat) l :
  (forall a, a ∈ l -> (f a <= g a)%nat) -> (list_sum (List.map f l) <= list_sum (List.map g l))%nat.
Proof.
  intros Hfg. induction l as [|a l IH]; [done|].
  change (f a + list_sum (List.map f l) <= g a + list_sum (List.map g l))%nat.
  apply Nat.add_le_mono; [apply Hfg; left|]. apply IH. intros b Hb. apply Hfg. by right.
Qed.

(** A map of flat values encodes whenever the sum of their bounds fits. *)
Lemma indexed_flat_encodes vs n :
  (length vs <= 24)%nat -> forallb flat vs = true -> (forall v, v ∈ vs -> wf v) ->
  (9 + list_sum (List.map (fun v => 1 + item_bound v) vs) <= n)%nat -> Z.of_nat n <= MAX_CANONICAL_BYTES ->
  to_canonical_cbor (indexed vs) = Ok (wire (indexed vs)) /\ (length (wire (indexed vs)) <= n)%nat.
Proof.
  intros Hl Hf Hw Hn Hm.
  assert (Hb : (length (wire (indexed vs)) <= n)%nat).
  { etrans; [by apply wire_indexed_bound|]. etrans; [|exact Hn]. apply Nat.add_le_mono_l.
    apply list_sum_mono. intros v Hv. apply le_n_S, wire_item_bound.
    rewrite forallb_forall in Hf. by apply Hf, list_elem_of_In. }
  split; [|done]. apply to_canonical_cbor_Ok; [by apply wf_indexed|]. split; [|split; [done|]].
  - apply indexed_flat_limits; [done|unfold MAX_CANONICAL_DEPTH; lia|].
    intros v Hv. rewrite forallb_forall in Hf. by apply Hf, list_elem_of_In.
  - unfold fits. lia.
Qed.
End Indexed.
