(* ===== verification/Trust.v ===== *)
(** * Identities and signed operations (crates/fractonica-trust/src/lib.rs)

    Wire identities, detached signatures, the canonical operation payload and its
    COSE_Sign1 envelope, over the codec of [Cbor].  Keys, hashes and half floats
    are the classes of [Crypto]; a signing key is its 32-byte seed; a [Uuid] is its
    16 bytes; a [[u8; n]] is a list whose length the types guarantee ([fixed]). *)
From S2P Require Import Prelude Bytes Floats Crypto Cbor.

(** ** Constants *)
Definition OPERATION_PROTOCOL_VERSION : Z := 1.
Definition OPERATION_DOMAIN : list Z := str "org.fractonica.operation".
Definition MAX_CAUSAL_PARENTS : Z := 64.
Definition MAX_AUTHORIZATION_REFERENCES : Z := 64.
Definition MAX_SCHEMA_BYTES : Z := 64.
Definition ACTOR_PREFIX : list Z := str "actor:ed25519:".
Definition NODE_PREFIX : list Z := str "node:ed25519:".
Definition SPACE_PREFIX : list Z := str "space:".
Definition OPERATION_PREFIX : list Z := str "sha-256:".
Definition PUBLIC_KEY_PREFIX : list Z := str "ed25519:".
Definition DETACHED_SIGNATURE_CONTEXT : list Z := str "org.fractonica.detached-signature.v1" ++ [0].
Definition COSE_PROTECTED_HEADER : list Z := [0xa1; 0x01; 0x27].

(** ** Errors *)
Inductive IdentifierParseError : Type :=
| WrongPrefix (expected_prefix : list Z)
| InvalidLength (found expected : Z)
| UppercaseHex (index : Z)
| InvalidHex (index byte : Z).

Inductive TrustError : Type :=
| Identifier (e : IdentifierParseError)
| CanonicalCbor (e : CanonicalCborError)
| InvalidPublicKey
| NilSpaceId
| NilEntityId
| InvalidSchema (schema : list Z)
| NegativeOccurredAt (value : Z)
| TooManyCausalParents (count maximum : Z)
| TooManyAuthorizationReferences (count maximum : Z)
| DuplicateCausalParent (id : list Z)
| DuplicateAuthorizationReference (id : list Z)
| CausalParentsNotStrictlyAscending
| AuthorizationNotStrictlyAscending
| SigningActorMismatch (payload key : list Z)
| UnexpectedActor (expected found : list Z)
| OperationIdMismatch
| SignatureVerificationFailed
| WrongOperationDomain
| UnsupportedOperationVersion
| InvalidOperationPayload (what : list Z)
| InvalidCoseSign1
| WrongCoseProtectedHeader
| NonEmptyCoseUnprotectedHeader
| InvalidCoseSignatureLength.

(** ** Wire identities: [fixed_hex_id!] *)
Definition decode_hex : Z -> Z -> result IdentifierParseError Z :=
  decode_hex_with UppercaseHex InvalidHex.

Definition parse_prefixed_hex (value expected_prefix : list Z) :
    result IdentifierParseError (list Z) :=
  match strip_prefix expected_prefix value with
  | None => Err (WrongPrefix expected_prefix)
  | Some hex =>
      if negb (length hex =? 64)%nat
      then Err (InvalidLength (Z.of_nat (length value)) (Z.of_nat (length expected_prefix) + 64))
      else decode_pairs decode_hex 0 hex
  end.

(** [Display] of an identity with this prefix. *)
Definition display_id (prefix bytes : list Z) : list Z := prefix ++ lower_hex bytes.

Definition parse_actor_id (s : list Z) := parse_prefixed_hex s ACTOR_PREFIX.
Definition parse_node_id (s : list Z) := parse_prefixed_hex s NODE_PREFIX.
Definition parse_space_id (s : list Z) := parse_prefixed_hex s SPACE_PREFIX.
Definition parse_operation_id (s : list Z) := parse_prefixed_hex s OPERATION_PREFIX.
Definition parse_public_key (s : list Z) := parse_prefixed_hex s PUBLIC_KEY_PREFIX.

Definition is_all_zero (b : list Z) : bool := forallb (Z.eqb 0) b.

Definition space_id_validate (space : list Z) : result TrustError unit :=
  if is_all_zero space then Err NilSpaceId else Ok tt.

(** ** Public keys and detached signatures *)
Inductive DetachedSignatureDomain : Type :=
| PairingInvitationV1
| PairingJoinerClaimV1
| PairingReceiptV1
| PairingAcceptanceV1
| PeerNodeRequestV1
| PeerActorRequestV1.

#[export] Instance detached_domain_eq_dec : EqDecision DetachedSignatureDomain.
Proof. solve_decision. Defined.

Definition label (d : DetachedSignatureDomain) : list Z :=
  match d with
  | PairingInvitationV1 => str "pairing-invitation-v1"
  | PairingJoinerClaimV1 => str "pairing-joiner-claim-v1"
  | PairingReceiptV1 => str "pairing-receipt-v1"
  | PairingAcceptanceV1 => str "pairing-acceptance-v1"
  | PeerNodeRequestV1 => str "peer-node-request-v1"
  | PeerActorRequestV1 => str "peer-actor-request-v1"
  end.

(** What the detached digest hashes: context, label, a zero byte, the message
    length as eight bytes, the message. *)
Definition detached_signature_input (domain : DetachedSignatureDomain) (message : list Z) : list Z :=
  DETACHED_SIGNATURE_CONTEXT ++ label domain ++ [0]
  ++ be_bytes 8 (Z.min (Z.of_nat (length message)) (2 ^ 64 - 1)) ++ message.

Section Keys.
Context `{Sha256} `{Ed25519}.

Definition detached_signature_digest (domain : DetachedSignatureDomain) (message : list Z) : list Z :=
  sha256 (detached_signature_input domain message).

Definition public_key_validate (key : list Z) : result TrustError unit :=
  if negb (ed25519_key_valid key) then Err InvalidPublicKey
  else if ed25519_is_weak key then Err InvalidPublicKey
  else Ok tt.

(** [ActorId::public_key] and [NodeId::public_key]. *)
Definition public_key (id : list Z) : result TrustError (list Z) :=
  check public_key_validate id; Ok id.

Definition verifying_key (key : list Z) : result TrustError (list Z) :=
  check public_key_validate key;
  if negb (ed25519_key_valid key) then Err InvalidPublicKey else Ok key.

Definition verify_detached (key : list Z) (domain : DetachedSignatureDomain)
    (message signature : list Z) : result TrustError unit :=
  let digest := detached_signature_digest domain message in
  let? key := verifying_key key in
  if ed25519_verify key digest signature then Ok tt else Err SignatureVerificationFailed.

(** [ActorId::verify_detached] and [NodeId::verify_detached]. *)
Definition verify_detached_id (id : list Z) (domain : DetachedSignatureDomain)
    (message signature : list Z) : result TrustError unit :=
  let? key := public_key id in verify_detached key domain message signature.

(** [Ed25519SigningKey::actor_id], [node_id] and [public_key]. *)
Definition signing_identity (seed : list Z) : list Z := verifying_key_of_seed seed.

Definition sign_detached (seed : list Z) (domain : DetachedSignatureDomain) (message : list Z) :
    list Z :=
  ed25519_sign seed (detached_signature_digest domain message).
End Keys.

(** ** Operation payloads *)
Inductive DigestSet : Type := CausalParents | Authorization.

Definition digest_set_maximum (kind : DigestSet) : Z :=
  match kind with
  | CausalParents => MAX_CAUSAL_PARENTS
  | Authorization => MAX_AUTHORIZATION_REFERENCES
  end.

Definition too_many (kind : DigestSet) (count : Z) : TrustError :=
  match kind with
  | CausalParents => TooManyCausalParents count MAX_CAUSAL_PARENTS
  | Authorization => TooManyAuthorizationReferences count MAX_AUTHORIZATION_REFERENCES
  end.

Definition duplicate_digest (kind : DigestSet) (id : list Z) : TrustError :=
  match kind with
  | CausalParents => DuplicateCausalParent id
  | Authorization => DuplicateAuthorizationReference id
  end.

(** [values.sort_unstable()] on digests: equal elements are identical. *)
Definition sort_bytes (values : list (list Z)) : list (list Z) := merge_sort bytes_le values.

Fixpoint check_no_duplicate (kind : DigestSet) (pairs : list (list Z * list Z)) :
    result TrustError unit :=
  match pairs with
  | [] => Ok tt
  | (a, b) :: pairs =>
      if list_eqb a b then Err (duplicate_digest kind a) else check_no_duplicate kind pairs
  end.

Definition normalize_digest_set (values : list (list Z)) (kind : DigestSet) :
    result TrustError (list (list Z)) :=
  let count := Z.of_nat (length values) in
  if digest_set_maximum kind <? count then Err (too_many kind count)
  else
    let sorted := sort_bytes values in
    check check_no_duplicate kind (windows2 sorted);
    Ok sorted.

Definition is_schema_byte (byte : Z) : bool :=
  is_ascii_lowercase byte || is_ascii_digit byte || one_of (str "._-") byte.

Definition validate_schema (schema : list Z) : result TrustError unit :=
  let valid :=
    (Z.of_nat (length schema) <=? MAX_SCHEMA_BYTES)
    && match schema with
       | [] => false
       | byte :: rest =>
           (is_ascii_lowercase byte || is_ascii_digit byte) && forallb is_schema_byte rest
       end in
  if valid then Ok tt else Err (InvalidSchema schema).

Definition take_fixed_bytes (n : nat) (value : CV) (field : list Z) : result TrustError (list Z) :=
  match value with
  | Bytes bytes => if (length bytes =? n)%nat then Ok bytes
                   else Err (InvalidOperationPayload field)
  | _ => Err (InvalidOperationPayload field)
  end.

Definition decode_digest_set (value : CV) (kind : DigestSet) : result TrustError (list (list Z)) :=
  match value with
  | Array values =>
      let count := Z.of_nat (length values) in
      if digest_set_maximum kind <? count then Err (too_many kind count)
      else
        let? decoded := collect (fun value => take_fixed_bytes 32 value
          (match kind with
           | CausalParents => str "causal parent"
           | Authorization => str "authorization reference"
           end)) values in
        if negb (windows_all bytes_ltb decoded)
        then Err (match kind with
                  | CausalParents => CausalParentsNotStrictlyAscending
                  | Authorization => AuthorizationNotStrictlyAscending
                  end)
        else Ok decoded
  | _ => Err (InvalidOperationPayload
                (match kind with
                 | CausalParents => str "causal parents must be an array"
                 | Authorization => str "authorization must be an array"
                 end))
  end.

Module OperationPayload.
Record t : Type := mk {
  space_id : list Z;
  actor_id : list Z;
  entity_id : list Z;
  schema : list Z;
  causal_parents : list (list Z);
  authorization : list (list Z);
  occurred_at_unix_ms : Z;
  nonce : list Z;
  body : CV
}.

(** The value whose canonical bytes are signed. *)
Definition to_value (p : t) : CV :=
  Array [Text OPERATION_DOMAIN;
         Unsigned OPERATION_PROTOCOL_VERSION;
         Bytes (space_id p);
         Bytes (actor_id p);
         Bytes (entity_id p);
         Text (schema p);
         Array (List.map Bytes (causal_parents p));
         Array (List.map Bytes (authorization p));
         Integer (occurred_at_unix_ms p);
         Bytes (nonce p);
         body p].

Section Operations.
Context `{Sha256} `{Ed25519} `{HalfFloat}.

Definition canonical_bytes (p : t) : result TrustError (list Z) :=
  map_err CanonicalCbor (to_canonical_cbor (to_value p)).

Definition new (space_id actor_id entity_id schema : list Z)
    (causal_parents authorization : list (list Z)) (occurred_at_unix_ms : Z)
    (nonce : list Z) (body : CV) : result TrustError t :=
  check space_id_validate space_id;
  check public_key actor_id;
  if is_all_zero entity_id then Err NilEntityId
  else
    check validate_schema schema;
    if occurred_at_unix_ms <? 0 then Err (NegativeOccurredAt occurred_at_unix_ms)
    else
      let? causal_parents := normalize_digest_set causal_parents CausalParents in
      let? authorization := normalize_digest_set authorization Authorization in
      let payload := mk space_id actor_id entity_id schema causal_parents authorization
                       occurred_at_unix_ms nonce body in
      check canonical_bytes payload;
      Ok payload.

Definition hash_operation_payload (payload : list Z) : list Z := sha256 payload.

Definition operation_id (p : t) : result TrustError (list Z) :=
  let? bytes := canonical_bytes p in Ok (hash_operation_payload bytes).

Definition decode_operation_value (value : CV) : result TrustError t :=
  match value with
  | Array [domain; version; space; actor; entity; schema; parents; authorization; occurred;
           nonce; body] =>
      if negb (match domain with Text d => list_eqb d OPERATION_DOMAIN | _ => false end)
      then Err WrongOperationDomain
      else if negb (match version with
                    | Unsigned v => v =? OPERATION_PROTOCOL_VERSION
                    | _ => false
                    end)
      then Err UnsupportedOperationVersion
      else
        let? space_id := take_fixed_bytes 32 space (str "space ID") in
        let? actor_id := take_fixed_bytes 32 actor (str "actor ID") in
        let? entity_id := take_fixed_bytes 16 entity (str "entity ID") in
        match schema with
        | Text schema =>
            let? causal_parents := decode_digest_set parents CausalParents in
            let? authorization := decode_digest_set authorization Authorization in
            let? occurred_at_unix_ms :=
              (match occurred with
               | Integer value => Ok value
               | Unsigned value =>
                   ok_or (checked_i64 value) (InvalidOperationPayload (str "occurred-at is out of range"))
               | _ => Err (InvalidOperationPayload (str "occurred-at must be an integer"))
               end) in
            let? nonce := take_fixed_bytes 16 nonce (str "nonce") in
            new space_id actor_id entity_id schema causal_parents authorization
              occurred_at_unix_ms nonce body
        | _ => Err (InvalidOperationPayload (str "schema must be text"))
        end
  | Array _ => Err (InvalidOperationPayload (str "expected exactly 11 fields"))
  | _ => Err (InvalidOperationPayload (str "expected an array"))
  end.

Definition from_canonical_bytes (bytes : list Z) : result TrustError t :=
  let? value := map_err CanonicalCbor (from_canonical_cbor bytes) in
  decode_operation_value value.
End Operations.
End OperationPayload.

(** ** The signed envelope *)
Record VerifiedOperation : Type := mkVerified {
  verified_operation_id : list Z;
  verified_actor_id : list Z;
  verified_space_id : list Z
}.

Section Cose.
Context `{HalfFloat}.

Definition cose_signature_structure (payload : list Z) : result TrustError (list Z) :=
  map_err CanonicalCbor
    (to_canonical_cbor
       (Array [Text (str "Signature1"); Bytes COSE_PROTECTED_HEADER; Bytes []; Bytes payload])).

Definition take_canonical_byte_string (d : Decoder) : result TrustError (list Z * Decoder) :=
  let? (lead, d) := map_err CanonicalCbor (take_byte d) in
  if negb (Z.shiftr lead 5 =? 2) then Err InvalidCoseSign1
  else
    let? (length, d) := map_err CanonicalCbor (decode_length d (Z.land lead 0x1f)) in
    map_err CanonicalCbor (take_bytes d length).

Definition decode_exact_cose_sign1 (bytes : list Z) : result TrustError (list Z * list Z) :=
  if MAX_CANONICAL_BYTES + 128 <? Z.of_nat (length bytes) then Err InvalidCoseSign1
  else
    let d := Decoder_new bytes in
    let? (tag, d) := map_err CanonicalCbor (take_byte d) in
    if negb (tag =? 0xd2) then Err InvalidCoseSign1
    else
      let? (array, d) := map_err CanonicalCbor (take_byte d) in
      if negb (array =? 0x84) then Err InvalidCoseSign1
      else
        let? (protected, d) := take_canonical_byte_string d in
        if negb (list_eqb protected COSE_PROTECTED_HEADER) then Err WrongCoseProtectedHeader
        else
          let? (unprotected, d) := map_err CanonicalCbor (take_byte d) in
          if negb (unprotected =? 0xa0) then Err NonEmptyCoseUnprotectedHeader
          else
            let? (payload, d) := take_canonical_byte_string d in
            let? (signature, d) := take_canonical_byte_string d in
            if negb (length signature =? 64)%nat then Err InvalidCoseSignatureLength
            else if negb (is_finished d) then Err InvalidCoseSign1
            else Ok (payload, signature).
End Cose.

Module SignedOperation.
Record t : Type := mk {
  operation_id : list Z;
  payload : list Z;
  signature : list Z
}.

Section Operations.
Context `{Sha256} `{Ed25519} `{HalfFloat}.

Definition sign_canonical (payload seed : list Z) : result TrustError t :=
  check OperationPayload.from_canonical_bytes payload;
  let? signature_input := cose_signature_structure payload in
  Ok (mk (OperationPayload.hash_operation_payload payload) payload
        (ed25519_sign seed signature_input)).

Definition from_cose_sign1 (bytes : list Z) : result TrustError t :=
  let? (payload, signature) := decode_exact_cose_sign1 bytes in
  check OperationPayload.from_canonical_bytes payload;
  Ok (mk (OperationPayload.hash_operation_payload payload) payload signature).

Definition decode_payload (s : t) : result TrustError OperationPayload.t :=
  OperationPayload.from_canonical_bytes (payload s).

Definition verify (s : t) : result TrustError VerifiedOperation :=
  if negb (list_eqb (OperationPayload.hash_operation_payload (payload s)) (operation_id s))
  then Err OperationIdMismatch
  else
    let? p := decode_payload s in
    let? key := public_key (OperationPayload.actor_id p) in
    let? key := verifying_key key in
    let? signature_input := cose_signature_structure (payload s) in
    if ed25519_verify_strict key signature_input (signature s)
    then Ok (mkVerified (operation_id s) (OperationPayload.actor_id p)
               (OperationPayload.space_id p))
    else Err SignatureVerificationFailed.

Definition verify_for_actor (s : t) (expected : list Z) : result TrustError VerifiedOperation :=
  let? verified := verify s in
  if negb (list_eqb (verified_actor_id verified) expected)
  then Err (UnexpectedActor expected (verified_actor_id verified))
  else Ok verified.

(** The four COSE_Sign1 fields, untagged. *)
Definition cose_value (s : t) : CV :=
  Array [Bytes COSE_PROTECTED_HEADER; Map []; Bytes (payload s); Bytes (signature s)].

Definition to_cose_sign1 (s : t) : result TrustError (list Z) :=
  let? untagged := map_err CanonicalCbor (to_canonical_cbor (cose_value s)) in
  Ok (0xd2 :: untagged).
End Operations.
End SignedOperation.

Section Sign.
Context `{Sha256} `{Ed25519} `{HalfFloat}.

(** [OperationPayload::sign] *)
Definition sign (p : OperationPayload.t) (seed : list Z) : result TrustError SignedOperation.t :=
  if negb (list_eqb (signing_identity seed) (OperationPayload.actor_id p))
  then Err (SigningActorMismatch (OperationPayload.actor_id p) (signing_identity seed))
  else
    let? payload := OperationPayload.canonical_bytes p in
    SignedOperation.sign_canonical payload seed.
End Sign.
