(* ===== verification/TrustTheory.v ===== *)
(** * Identities and signed operations: theorems

    One wire form per identity; domain separation of detached signatures; the
    canonical payload and the COSE envelope decode to exactly what was encoded,
    admit one encoding each, and signing produces what verification accepts. *)
From S2P Require Import Prelude Bytes Floats Crypto Cbor CborTheory CborDecode CborProps Trust.

(** ** Identities *)

(** An identity has one wire form: the prefix and 64 lowercase hexadecimal
    digits of its 32 bytes.  Nothing else parses. *)
Theorem parse_prefixed_hex_display (text prefix id : list Z) :
  parse_prefixed_hex text prefix = Ok id <-> fixed 32 id /\ text = display_id prefix id.
Proof.
  unfold parse_prefixed_hex, display_id, fixed.
  destruct (strip_prefix prefix text) as [hex|] eqn:Ep; cycle 1.
  { split; [done|]. intros [_ ->]. by rewrite (proj2 (strip_prefix_spec _ _ (lower_hex id)) eq_refl) in Ep. }
  apply strip_prefix_spec in Ep as ->. destruct (Nat.eqb_spec (length hex) 64) as [Hl|Hl]; cbn [negb].
  - unfold decode_hex. rewrite decode_pairs_spec by (by rewrite Hl). split.
    + intros [Hb ->]. rewrite lower_hex_length in Hl. split; [split; [lia|done]|done].
    + intros [[? Hb] E%app_inv_head]. done.
  - split; [done|]. intros [[Hi _] E%app_inv_head]. subst hex. rewrite lower_hex_length in Hl. lia.
Qed.

(** ** Detached signatures *)
Lemma label_no_zero d : 0 ∉ label d.
Proof. apply (bool_decide_eq_true_1 (0 ∉ label d)). by destruct d; vm_compute. Qed.

Lemma app_sep_inj {A} (x : A) a a' b b' :
  x ∉ a -> x ∉ a' -> a ++ x :: b = a' ++ x :: b' -> a = a' /\ b = b'.
Proof.
  revert a'. induction a as [|c a IH]; intros [|c' a'] Ha Ha' E; cbn in E.
  - by injection E as ->.
  - injection E as E1 E2. subst. destruct Ha'. by left.
  - injection E as E1 E2. subst. destruct Ha. by left.
  - injection E as E1 E2. apply not_elem_of_cons in Ha as [_ Ha], Ha' as [_ Ha'].
    destruct (IH a' Ha Ha' E2) as [-> ->]. by rewrite E1.
Qed.

(** Domain separation.  The input of the detached digest determines the
    protocol domain and the message, so a signature made in one protocol is over
    bytes no other protocol ever signs. *)
Theorem detached_input_injective (d d' : DetachedSignatureDomain) (m m' : list Z) :
  detached_signature_input d m = detached_signature_input d' m' -> d = d' /\ m = m'.
Proof.
  unfold detached_signature_input. intros E%app_inv_head. cbn [app] in E.
  apply app_sep_inj in E as [El Em]; [|apply label_no_zero..]. split.
  - destruct d, d'; try done; vm_compute in El; discriminate El.
  - apply (f_equal (drop 8)) in Em. by rewrite !drop_app_length' in Em by (by rewrite be_bytes_length).
Qed.

Section Signatures.
Context `{Sha256} `{Ed25519}.

Definition strong_key (key : list Z) : Prop :=
  ed25519_key_valid key = true /\ ed25519_is_weak key = false.

Lemma public_key_validate_Ok key : public_key_validate key = Ok tt <-> strong_key key.
Proof.
  unfold public_key_validate, strong_key. destruct (ed25519_key_valid key); cbn; [|split; [done|intros [? _]; done]].
  destruct (ed25519_is_weak key); split; try done. by intros [_ ?].
Qed.

Lemma public_key_Ok id key : public_key id = Ok key <-> key = id /\ strong_key id.
Proof.
  unfold public_key. rewrite <- public_key_validate_Ok.
  destruct (public_key_validate id) as [[]|]; [|split; [done|by intros [_ ?]]].
  split; [intros [= <-]|intros [-> _]]; done.
Qed.

Lemma verifying_key_Ok id key : verifying_key id = Ok key <-> key = id /\ strong_key id.
Proof.
  unfold verifying_key. rewrite <- public_key_validate_Ok.
  destruct (public_key_validate id) as [[]|] eqn:E; [|split; [done|by intros [_ ?]]].
  apply public_key_validate_Ok in E as [-> _]. cbn.
  split; [intros [= <-]|intros [-> _]]; done.
Qed.

Lemma sign_detached_iff (seed message : list Z) (domain : DetachedSignatureDomain) :
  verify_detached_id (signing_identity seed) domain message (sign_detached seed domain message) = Ok tt
  <-> ed25519_is_weak (signing_identity seed) = false.
Proof.
  unfold verify_detached_id, verify_detached, sign_detached, signing_identity.
  set (key := verifying_key_of_seed seed). assert (Hv : ed25519_key_valid key = true)
    by apply ed25519_own_key. split.
  - intros Hok. destruct (public_key key) as [k|] eqn:E; [|done]. by apply public_key_Ok in E as (_ & _ & ?).
  - intros Hw. rewrite (proj2 (public_key_Ok key key)) by done.
    rewrite (proj2 (verifying_key_Ok key key)) by done. unfold key. by rewrite ed25519_verify_own.
Qed.

(** A detached signature verifies under the identity that made it, in the
    domain it was made for, exactly when that key is usable (not of small order). *)
Theorem sign_detached_verifies (seed message : list Z) (domain : DetachedSignatureDomain) :
  verify_detached_id (signing_identity seed) domain message (sign_detached seed domain message) = Ok tt
  <-> ed25519_is_weak (signing_identity seed) = false.
Proof. apply sign_detached_iff. Qed.
End Signatures.

(** ** Digest sets *)
Lemma check_no_duplicate_Ok kind l :
  Sorted.Sorted bytes_le l ->
  check_no_duplicate kind (windows2 l) = Ok tt <-> Sorted.Sorted bytes_lt l.
Proof.
  induction l as [|a l IH]; intros Hs; [cbn; split; [constructor|done]|].
  destruct l as [|b l]; [cbn; split; [auto|done]|].
  inversion Hs as [|? ? Hs' Hh]; subst. inversion Hh as [|? ? Hab]; subst.
  change (windows2 (a :: b :: l)) with ((a, b) :: windows2 (b :: l)). cbn [check_no_duplicate].
  apply bytes_le_lteq in Hab. destruct (list_eqb a b) eqn:E.
  - apply list_eqb_eq in E as ->. split; [done|]. intros Hst. inversion Hst as [|? ? _ Hlt]; subst.
    inversion Hlt; subst. by destruct (bytes_lt_irrefl b).
  - assert (a <> b) by (intros ->; by rewrite (proj2 (list_eqb_eq b b)) in E).
    destruct Hab as [Hab|]; [|done]. rewrite IH by done. split.
    + intros Hl. constructor; [done|by constructor].
    + intros Hst. by inversion Hst.
Qed.

Lemma sort_bytes_sorted l : Sorted.Sorted bytes_le (sort_bytes l).
Proof. apply Sorted_merge_sort. apply _. Qed.

Lemma sort_bytes_perm l : Permutation (sort_bytes l) l.
Proof. apply merge_sort_Permutation. Qed.

Lemma sort_bytes_length l : length (sort_bytes l) = length l.
Proof. apply Permutation_length, sort_bytes_perm. Qed.

Lemma lt_sorted_le l : Sorted.Sorted bytes_lt l -> Sorted.Sorted bytes_le l.
Proof.
  induction 1 as [|a l _ IH Hh]; constructor; [done|].
  inversion Hh; subst; constructor. apply bytes_le_lteq. by left.
Qed.

Lemma sort_bytes_id l : Sorted.Sorted bytes_lt l -> sort_bytes l = l.
Proof.
  intros Hl. apply (Sorted_unique bytes_le); [apply sort_bytes_sorted|by apply lt_sorted_le|].
  apply sort_bytes_perm.
Qed.

(** A digest set as it is stored: strictly ascending, within its bound. *)
Definition digest_set (kind : DigestSet) (l : list (list Z)) : Prop :=
  Z.of_nat (length l) <= digest_set_maximum kind /\ Sorted.Sorted bytes_lt l.

Lemma normalize_digest_set_Ok kind values l :
  normalize_digest_set values kind = Ok l <-> l = sort_bytes values /\ digest_set kind l.
Proof.
  unfold normalize_digest_set, digest_set.
  destruct (Z.ltb_spec (digest_set_maximum kind) (Z.of_nat (length values))) as [Hl|Hl].
  - split; [done|]. intros (-> & Hle & _). rewrite sort_bytes_length in Hle. lia.
  - pose proof (check_no_duplicate_Ok kind (sort_bytes values) (sort_bytes_sorted values)) as Hc.
    destruct (check_no_duplicate kind _) as [[]|].
    + split; [intros [= <-]|by intros [-> _]]. split; [done|]. rewrite sort_bytes_length.
      split; [done|by apply Hc].
    + split; [done|]. intros (-> & _ & Hs). by apply Hc in Hs.
Qed.

Lemma normalize_digest_set_id kind l : digest_set kind l -> normalize_digest_set l kind = Ok l.
Proof. intros Hl. apply normalize_digest_set_Ok. rewrite sort_bytes_id by apply Hl. done. Qed.

Lemma bytes_ltb_sorted l : windows_all bytes_ltb l = true <-> Sorted.Sorted bytes_lt l.
Proof. apply windows_all_Sorted. apply bytes_ltb_lt. Qed.

Lemma take_fixed_bytes_Ok n v field b :
  take_fixed_bytes n v field = Ok b <-> v = Bytes b /\ length b = n.
Proof.
  destruct v; cbn; try (split; [done|by intros [[=] _]]).
  destruct (Nat.eqb_spec (length bytes) n).
  - split; [intros [= <-]; done|by intros [[= ->] _]].
  - split; [done|by intros [[= ->] ?]].
Qed.

Lemma decode_digest_set_Ok kind v l :
  decode_digest_set v kind = Ok l
  <-> v = Array (List.map Bytes l) /\ Forall (fun d => length d = 32%nat) l /\ digest_set kind l.
Proof.
  unfold decode_digest_set, digest_set. split.
  - destruct v as [| | | | | | |vs|]; try done. intros H'. inv_ok. bool_prop.
    apply bytes_ltb_sorted in E1. apply collect_Ok in E0.
    assert (Hvs : vs = List.map Bytes l /\ Forall (fun d => length d = 32%nat) l).
    { clear -E0. induction E0 as [|v d vs l Hd _ [-> IH]]; [done|].
      apply take_fixed_bytes_Ok in Hd as [-> Hd]. cbn. split; [done|by constructor]. }
    destruct Hvs as [-> Hf]. rewrite List.length_map in E. done.
  - intros (-> & Hf & Hl & Hs). rewrite List.length_map, (proj2 (Z.ltb_ge _ _)) by lia.
    rewrite <- (List.map_id l) at 2. rewrite (collect_map_ok Bytes _ (fun d => d)).
    + rewrite List.map_id, (proj2 (bytes_ltb_sorted l)) by done. done.
    + intros d Hd. apply take_fixed_bytes_Ok. rewrite Forall_forall in Hf. auto.
Qed.

(** ** Payloads *)
#[local] Arguments is_all_zero : simpl never.
#[local] Arguments validate_schema : simpl never.
#[local] Arguments decode_digest_set : simpl never.
#[local] Arguments OperationPayload.new : simpl never.
#[local] Arguments list_eqb : simpl never.
#[local] Arguments take_fixed_bytes : simpl never.
#[local] Arguments checked_i64 : simpl never.

Section Payloads.
Context `{Sha256} `{Ed25519} `{HalfFloat}.

(** What the Rust types guarantee of the fields. *)
Record payload_typed (p : OperationPayload.t) : Prop := {
  typed_space : fixed 32 (OperationPayload.space_id p);
  typed_actor : fixed 32 (OperationPayload.actor_id p);
  typed_entity : fixed 16 (OperationPayload.entity_id p);
  typed_schema : wf (Text (OperationPayload.schema p));
  typed_parents : Forall (fixed 32) (OperationPayload.causal_parents p);
  typed_authorization : Forall (fixed 32) (OperationPayload.authorization p);
  typed_occurred : in_i 64 (OperationPayload.occurred_at_unix_ms p);
  typed_nonce : fixed 16 (OperationPayload.nonce p);
  typed_body : wf (OperationPayload.body p)
}.

(** What [OperationPayload::new] enforces. *)
Record payload_valid (p : OperationPayload.t) : Prop := {
  valid_space : is_all_zero (OperationPayload.space_id p) = false;
  valid_actor : strong_key (OperationPayload.actor_id p);
  valid_entity : is_all_zero (OperationPayload.entity_id p) = false;
  valid_schema : validate_schema (OperationPayload.schema p) = Ok tt;
  valid_occurred : 0 <= OperationPayload.occurred_at_unix_ms p;
  valid_parents : digest_set CausalParents (OperationPayload.causal_parents p);
  valid_authorization : digest_set Authorization (OperationPayload.authorization p);
  valid_limits : within_limits 0 (OperationPayload.to_value p);
  valid_size : fits (wire (OperationPayload.to_value p))
}.

Lemma fixed_bytes n b : fixed n b -> wf (Bytes b).
Proof. by intros [_ ?]. Qed.

Lemma map_Bytes_wf l : Forall (fixed 32) l -> wf (Array (List.map Bytes l)).
Proof.
  intros Hl. apply wf_Array. intros v (b & <- & Hin)%list_elem_of_In%in_map_iff.
  rewrite Forall_forall in Hl. apply (fixed_bytes 32), Hl, list_elem_of_In, Hin.
Qed.

Lemma domain_text_wf : wf (Text OPERATION_DOMAIN).
Proof. split; [apply str_bytes|reflexivity]. Qed.

Lemma to_value_wf p : payload_typed p -> wf (OperationPayload.to_value p).
Proof.
  intros []. apply wf_Array. unfold OperationPayload.to_value.
  intros v Hin. repeat (apply elem_of_cons in Hin as [->|Hin]);
    [..|by apply not_elem_of_nil in Hin];
    eauto using fixed_bytes, map_Bytes_wf, domain_text_wf.
  cbn. unfold in_u, OPERATION_PROTOCOL_VERSION. lia.
Qed.

Lemma canonical_bytes_Ok p bs :
  payload_typed p ->
  OperationPayload.canonical_bytes p = Ok bs
  <-> within_limits 0 (OperationPayload.to_value p)
      /\ bs = wire (OperationPayload.to_value p) /\ fits bs.
Proof.
  intros Hp. rewrite <- (to_canonical_cbor_Ok _ _ (to_value_wf p Hp)).
  unfold OperationPayload.canonical_bytes. destruct (to_canonical_cbor _); cbn; split; congruence.
Qed.

Lemma space_id_validate_Ok s : space_id_validate s = Ok tt <-> is_all_zero s = false.
Proof. unfold space_id_validate. by destruct (is_all_zero s). Qed.

Lemma new_Ok space actor entity schema parents auth occurred nonce body p :
  payload_typed (OperationPayload.mk space actor entity schema (sort_bytes parents)
    (sort_bytes auth) occurred nonce body) ->
  OperationPayload.new space actor entity schema parents auth occurred nonce body = Ok p
  <-> p = OperationPayload.mk space actor entity schema (sort_bytes parents) (sort_bytes auth)
            occurred nonce body
      /\ payload_valid p.
Proof.
  intros Ht. unfold OperationPayload.new. split.
  - intros Hn.
    destruct (space_id_validate space) as [[]|] eqn:Es; [|done].
    destruct (public_key actor) as [k|] eqn:Ek; [|done].
    destruct (is_all_zero entity) eqn:Ee; [done|].
    destruct (validate_schema schema) as [[]|] eqn:Ec; [|done].
    destruct (Z.ltb_spec occurred 0); [done|].
    destruct (normalize_digest_set parents CausalParents) as [ps|] eqn:Ep; [|done].
    destruct (normalize_digest_set auth Authorization) as [au|] eqn:Ea; [|done].
    apply normalize_digest_set_Ok in Ep as [-> Hps], Ea as [-> Hau]. cbv zeta in Hn.
    destruct (OperationPayload.canonical_bytes _) as [bs|] eqn:Eb in Hn; [|done].
    injection Hn as <-. split; [done|].
    apply canonical_bytes_Ok in Eb as (Hl & -> & Hf); [|done].
    apply space_id_validate_Ok in Es. apply public_key_Ok in Ek as [_ Hk].
    by constructor.
  - intros [-> []]. cbn in *.
    rewrite (proj2 (space_id_validate_Ok space)) by done.
    rewrite (proj2 (public_key_Ok actor actor)) by done. rewrite valid_entity0, valid_schema0.
    rewrite (proj2 (Z.ltb_ge occurred 0)) by done.
    rewrite (proj2 (normalize_digest_set_Ok CausalParents parents _)) by done.
    rewrite (proj2 (normalize_digest_set_Ok Authorization auth _)) by done. cbv zeta.
    by rewrite (proj2 (canonical_bytes_Ok _ _ Ht) (conj valid_limits0 (conj eq_refl valid_size0))).
Qed.

(** The same payload with another body. *)
Definition with_body (p : OperationPayload.t) (b : CV) : OperationPayload.t :=
  OperationPayload.mk (OperationPayload.space_id p) (OperationPayload.actor_id p)
    (OperationPayload.entity_id p) (OperationPayload.schema p)
    (OperationPayload.causal_parents p) (OperationPayload.authorization p)
    (OperationPayload.occurred_at_unix_ms p) (OperationPayload.nonce p) b.

Lemma map_normalize_Bytes l : List.map normalize (List.map Bytes l) = List.map Bytes l.
Proof. rewrite List.map_map. by apply List.map_ext. Qed.

(** The normal form of a payload value: only the timestamp and the body move. *)
Definition decoded_value (p : OperationPayload.t) : CV :=
  Array [Text OPERATION_DOMAIN;
         Unsigned OPERATION_PROTOCOL_VERSION;
         Bytes (OperationPayload.space_id p);
         Bytes (OperationPayload.actor_id p);
         Bytes (OperationPayload.entity_id p);
         Text (OperationPayload.schema p);
         Array (List.map Bytes (OperationPayload.causal_parents p));
         Array (List.map Bytes (OperationPayload.authorization p));
         Unsigned (OperationPayload.occurred_at_unix_ms p);
         Bytes (OperationPayload.nonce p);
         OperationPayload.body p].

Lemma normalize_to_value p :
  0 <= OperationPayload.occurred_at_unix_ms p ->
  normalize (OperationPayload.to_value p)
  = decoded_value (with_body p (normalize (OperationPayload.body p))).
Proof.
  intros Hn. unfold OperationPayload.to_value, decoded_value. cbn [normalize List.map].
  rewrite (proj2 (Z.leb_le _ _) Hn), !map_normalize_Bytes. done.
Qed.

Lemma wire_decoded_value p :
  0 <= OperationPayload.occurred_at_unix_ms p ->
  wire (decoded_value p) = wire (OperationPayload.to_value p).
Proof.
  intros Hn. unfold OperationPayload.to_value, decoded_value. cbn [wire List.map].
  by rewrite (proj2 (Z.leb_le _ _) Hn).
Qed.

Lemma limits_decoded_value d p :
  within_limits d (decoded_value p) <-> within_limits d (OperationPayload.to_value p).
Proof. unfold OperationPayload.to_value, decoded_value. cbn [within_limits]. done. Qed.

Lemma decode_operation_value_decoded p :
  payload_typed p ->
  OperationPayload.decode_operation_value (decoded_value p) = Ok p <-> payload_valid p.
Proof.
  intros Hp. pose proof Hp as []. destruct p as [space actor entity schema parents auth occurred nonce body].
  cbn in *. unfold OperationPayload.decode_operation_value, decoded_value. cbn.
  rewrite (proj2 (list_eqb_eq _ _) eq_refl). cbn.
  assert (Hlen : forall n b field, fixed n b -> take_fixed_bytes n (Bytes b) field = Ok b)
    by (intros n b field [? _]; by apply take_fixed_bytes_Ok).
  rewrite (Hlen 32%nat space), (Hlen 32%nat actor), (Hlen 16%nat entity) by done.
  assert (Hset : forall l, Forall (fixed 32) l -> Forall (fun d => length d = 32%nat) l)
    by (intros l Hl; eapply Forall_impl; [exact Hl|by intros ? [? _]]).
  split.
  - intros H'.
    destruct (decode_digest_set _ CausalParents) as [ps|] eqn:Eps in H'; [|done].
    destruct (decode_digest_set _ Authorization) as [au|] eqn:Eau in H'; [|done].
    apply decode_digest_set_Ok in Eps as (Eps & _ & Hps), Eau as (Eau & _ & Hau).
    injection Eps as Eps. injection Eau as Eau.
    assert (Hinj : forall a b, List.map Bytes a = List.map Bytes b -> a = b).
    { induction a as [|x a IH]; intros [|y b] E; try done. injection E as -> E. f_equal. auto. }
    apply Hinj in Eps, Eau. subst ps au.
    destruct (checked_i64 occurred) as [o|] eqn:Eo in H'; cbn in H'; [|done].
    apply checked_i64_Some in Eo as [-> _]. rewrite (Hlen 16%nat nonce) in H' by done.
    apply new_Ok in H' as [_ Hv]; [done|].
    by rewrite !sort_bytes_id by apply Hps || apply Hau.
  - intros Hv. pose proof Hv as []. cbn in *.
    rewrite (proj2 (decode_digest_set_Ok CausalParents _ parents)) by auto.
    rewrite (proj2 (decode_digest_set_Ok Authorization _ auth)) by auto.
    rewrite (proj2 (checked_i64_Some occurred occurred)) by done. cbn.
    rewrite (Hlen 16%nat nonce) by done.
    apply new_Ok; rewrite !sort_bytes_id by apply valid_parents0 || apply valid_authorization0; done.
Qed.

Lemma valid_body_limits p : payload_valid p -> within_limits 1 (OperationPayload.body p).
Proof.
  intros []. apply (proj1 (within_limits_Array 0 _)) in valid_limits0 as (_ & _ & Hin).
  apply Hin. unfold OperationPayload.to_value. repeat (left || right).
Qed.

(** A valid payload survives normalising its body. *)
Lemma normalized_payload p :
  payload_typed p -> payload_valid p ->
  let p' := with_body p (normalize (OperationPayload.body p)) in
  payload_typed p' /\ payload_valid p'
  /\ wire (OperationPayload.to_value p') = wire (OperationPayload.to_value p).
Proof.
  intros Ht Hv p'. pose proof (valid_body_limits p Hv) as Hb.
  destruct (normalize_good (OperationPayload.body p) 1 (typed_body p Ht) Hb) as [_ [Hbw _]].
  destruct (normalize_good (OperationPayload.to_value p) 0 (to_value_wf p Ht) (valid_limits p Hv))
    as [Ew [_ [_ Hl]]].
  rewrite normalize_to_value in Ew, Hl by apply Hv. fold p' in Ew, Hl.
  apply limits_decoded_value in Hl. rewrite wire_decoded_value in Ew by apply Hv.
  split; [|split; [|done]].
  - destruct Ht. by constructor.
  - destruct Hv. constructor; try done. by rewrite Ew.
Qed.

Lemma payload_decode p bs :
  payload_typed p -> payload_valid p -> bs = wire (OperationPayload.to_value p) ->
  OperationPayload.from_canonical_bytes bs
  = Ok (with_body p (normalize (OperationPayload.body p))).
Proof.
  intros Ht Hv ->. unfold OperationPayload.from_canonical_bytes.
  destruct (to_canonical_cbor_roundtrip (OperationPayload.to_value p)
    (wire (OperationPayload.to_value p)) (to_value_wf p Ht)) as (E & _).
  { apply to_canonical_cbor_Ok; [by apply to_value_wf|]. destruct Hv. done. }
  rewrite E. cbn [map_err]. rewrite normalize_to_value by apply Hv.
  destruct (normalized_payload p Ht Hv) as (Ht' & Hv' & _).
  by apply decode_operation_value_decoded.
Qed.

Lemma payload_eta p : with_body p (OperationPayload.body p) = p.
Proof. by destruct p. Qed.

(** What [decode_operation_value] needs of a value the decoder returned. *)
Lemma decode_operation_value_inv v p :
  good 0 v -> OperationPayload.decode_operation_value v = Ok p ->
  v = decoded_value p /\ payload_typed p /\ payload_valid p /\ normal (OperationPayload.body p).
Proof.
  intros (Hw & Hn & Hl) Hd. unfold OperationPayload.decode_operation_value in Hd.
  destruct v as [| | | | | | |vs|]; try discriminate Hd.
  do 11 (destruct vs as [|?x vs]; [discriminate Hd|]). destruct vs; [|discriminate Hd].
  destruct x as [| | | | | |dom| |]; try discriminate Hd. cbn [negb] in Hd.
  destruct (list_eqb dom OPERATION_DOMAIN) eqn:Edom; [|discriminate Hd].
  apply list_eqb_eq in Edom as ->. cbn [negb] in Hd.
  destruct x0 as [| | |ver| | | | |]; try discriminate Hd.
  destruct (Z.eqb_spec ver OPERATION_PROTOCOL_VERSION) as [->|]; [|discriminate Hd]. cbn [negb] in Hd.
  destruct (take_fixed_bytes 32 x1 _) as [space|] eqn:E1 in Hd; [|discriminate Hd].
  destruct (take_fixed_bytes 32 x2 _) as [actor|] eqn:E2 in Hd; [|discriminate Hd].
  destruct (take_fixed_bytes 16 x3 _) as [entity|] eqn:E3 in Hd; [|discriminate Hd].
  apply take_fixed_bytes_Ok in E1 as [-> L1], E2 as [-> L2], E3 as [-> L3].
  destruct x4 as [| | | | | |schema| |]; try discriminate Hd.
  destruct (decode_digest_set x5 CausalParents) as [parents|] eqn:E5; [|discriminate Hd].
  destruct (decode_digest_set x6 Authorization) as [auth|] eqn:E6; [|discriminate Hd].
  apply decode_digest_set_Ok in E5 as (-> & F5 & S5), E6 as (-> & F6 & S6).
  pose proof (proj1 (wf_Array _) Hw) as Hwf. pose proof (proj1 (normal_Array _) Hn) as Hnf.
  assert (Hparts : forall l, wf (Array (List.map Bytes l)) -> Forall (fun d => length d = 32%nat) l ->
    Forall (fixed 32) l).
  { intros l Hwl Hll. rewrite Forall_forall in *. intros b Hb. split; [auto|].
    apply (proj1 (wf_Array _) Hwl (Bytes b)), list_elem_of_In, in_map_iff. exists b.
    split; [done|by apply list_elem_of_In]. }
  assert (Hocc : exists occurred, x7 = Unsigned occurred /\ in_i 64 occurred /\
    (let? nonce := take_fixed_bytes 16 x8 (str "nonce") in
     OperationPayload.new space actor entity schema parents auth occurred nonce x9) = Ok p).
  { destruct x7 as [| |o|o| | | | |]; try discriminate Hd.
    - exfalso. assert (Ho : normal (Integer o)) by (apply Hnf; repeat (left || right)). cbn in Ho.
      destruct (take_fixed_bytes 16 x8 _) in Hd; [|discriminate Hd].
      unfold OperationPayload.new in Hd. rewrite (proj2 (Z.ltb_lt o 0) Ho) in Hd.
      destruct (space_id_validate space) as [[]|], (public_key actor), (is_all_zero entity),
        (validate_schema schema) as [[]|]; discriminate Hd.
    - exists o. destruct (checked_i64 o) as [z|] eqn:Eo in Hd; cbn [ok_or] in Hd; [|discriminate Hd].
      apply checked_i64_Some in Eo as [-> Ho]. done. }
  destruct Hocc as (occurred & -> & Ho & Hnew). clear Hd.
  destruct (take_fixed_bytes 16 x8 _) as [nonce|] eqn:E8 in Hnew; [|discriminate Hnew].
  apply take_fixed_bytes_Ok in E8 as [-> L8].
  destruct Hw as (_ & _ & W1 & W2 & W3 & W4 & W5 & W6 & _ & W8 & W9 & _).
  destruct Hn as (_ & _ & _ & _ & _ & _ & _ & _ & _ & _ & N9 & _).
  assert (Ht : payload_typed (OperationPayload.mk space actor entity schema parents auth occurred nonce x9)).
  { constructor; [done|done|done|exact W4|by apply Hparts|by apply Hparts|exact Ho|done|exact W9]. }
  apply new_Ok in Hnew as [-> Hv]; [|by rewrite !sort_bytes_id by apply S5 || apply S6].
  rewrite !sort_bytes_id in Hv |- * by apply S5 || apply S6.
  done.
Qed.

Lemma from_canonical_bytes_Ok bs p :
  Forall is_byte bs ->
  OperationPayload.from_canonical_bytes bs = Ok p
  <-> payload_typed p /\ payload_valid p /\ normal (OperationPayload.body p)
      /\ bs = wire (OperationPayload.to_value p).
Proof.
  intros Hb. split.
  - unfold OperationPayload.from_canonical_bytes. intros Hd.
    destruct (from_canonical_cbor bs) as [v|] eqn:E; cbn [map_err] in Hd; [|done].
    apply from_canonical_cbor_Ok in E as (Hg & -> & Hf); [|done].
    apply decode_operation_value_inv in Hd as (-> & Ht & Hv & Hn); [|done].
    rewrite wire_decoded_value by apply Hv. done.
  - intros (Ht & Hv & Hn & ->).
    by rewrite (payload_decode p _ Ht Hv eq_refl), normalize_fixed, payload_eta.
Qed.
End Payloads.

(** ** The COSE_Sign1 envelope *)
Section Envelope.
Context `{Sha256} `{Ed25519} `{HalfFloat}.

Lemma take_string_Ok d x d' :
  cursor d ->
  take_canonical_byte_string d = Ok (x, d') <-> consumes d (wire (Bytes x)) d'.
Proof.
  intros Hc. unfold take_canonical_byte_string. cbn [wire]. change 0x1f with 31. split.
  - intros Ht. destruct (take_byte d) as [[lead d1]|] eqn:Eb; cbn [map_err] in Ht; [|done].
    destruct (Z.eqb_spec (Z.shiftr lead 5) 2) as [E2|]; cbn [negb] in Ht; [|done].
    destruct (decode_length d1 (Z.land lead 31)) as [[n d2]|] eqn:El; cbn [map_err] in Ht; [|done].
    destruct (take_bytes d2 n) as [[y d3]|] eqn:Ey; cbn [map_err] in Ht; [|done].
    injection Ht as <- <-.
    pose proof (take_byte_lead d lead d1 Hc Eb) as (Hd1 & _ & _ & Hr).
    apply decode_length_argument in El; [|by eapply consumes_end|done].
    destruct (proj1 (head_Ok 2 d n d2 Hc ltac:(lia))) as [[Hn _] Hh]; [by exists lead, d1|].
    apply take_bytes_Ok in Ey as [<- Hy]; [|by eapply consumes_end|done].
    apply consumes_app. by exists d2.
  - intros Hx. destruct (string_back d d' 2 x Hc ltac:(lia) Hx) as (lead & d1 & d2 & Et & E2 & El & E3).
    rewrite Et. cbn [map_err]. rewrite E2, El. cbn [map_err negb Z.eqb Pos.eqb]. by rewrite E3.
Qed.

(** The envelope of a payload and a signature. *)
Definition cose_bytes (payload signature : list Z) : list Z :=
  0xd2 :: wire (SignedOperation.cose_value (SignedOperation.mk [] payload signature)).

Lemma cose_bytes_parts payload signature :
  cose_bytes payload signature
  = [0xd2] ++ [0x84] ++ wire (Bytes COSE_PROTECTED_HEADER) ++ [0xa0] ++ wire (Bytes payload)
    ++ wire (Bytes signature).
Proof.
  unfold cose_bytes, SignedOperation.cose_value. cbn [wire List.map concat length].
  rewrite !app_nil_r. reflexivity.
Qed.

Lemma decode_exact_cose_sign1_Ok bytes payload signature :
  Forall is_byte bytes ->
  decode_exact_cose_sign1 bytes = Ok (payload, signature)
  <-> Z.of_nat (length bytes) <= MAX_CANONICAL_BYTES + 128 /\ length signature = 64%nat
      /\ bytes = cose_bytes payload signature.
Proof.
  intros Hb. unfold decode_exact_cose_sign1.
  destruct (Z.ltb_spec (MAX_CANONICAL_BYTES + 128) (Z.of_nat (length bytes))) as [Hl|Hl].
  { split; [done|]. intros [? _]. lia. }
  assert (Hc : cursor (Decoder_new bytes)).
  { unfold MAX_CANONICAL_BYTES in Hl. split; cbn; [lia|]. split; [lia|done]. }
  assert (Hr : rest (Decoder_new bytes) = bytes) by (unfold rest; cbn; apply drop_0).
  assert (Hfin : forall x d', consumes (Decoder_new bytes) x d' -> is_finished d' = true <-> bytes = x).
  { intros x d' (-> & E & _). rewrite Hr in E. unfold is_finished, rest in *. cbn in *.
    rewrite Z.eqb_eq. split; intros E'.
    - by rewrite E', Nat2Z.id, drop_all, app_nil_r in E.
    - by rewrite E'. }
  cbv zeta. rewrite cose_bytes_parts. split.
  - intros Hd. split; [done|].
    destruct (take_byte (Decoder_new bytes)) as [[tag d1]|] eqn:E1; cbn [map_err] in Hd; [|done].
    apply take_byte_Ok in E1; [|done]. pose proof (consumes_end _ _ _ E1) as C1.
    destruct (Z.eqb_spec tag 0xd2) as [->|]; cbn [negb] in Hd; [|done].
    destruct (take_byte d1) as [[arr d2]|] eqn:E2; cbn [map_err] in Hd; [|done].
    apply take_byte_Ok in E2; [|done]. pose proof (consumes_end _ _ _ E2) as C2.
    destruct (Z.eqb_spec arr 0x84) as [->|]; cbn [negb] in Hd; [|done].
    destruct (take_canonical_byte_string d2) as [[prot d3]|] eqn:E3; [|done].
    apply take_string_Ok in E3; [|done]. pose proof (consumes_end _ _ _ E3) as C3.
    destruct (list_eqb prot COSE_PROTECTED_HEADER) eqn:Ep; cbn [negb] in Hd; [|done].
    apply list_eqb_eq in Ep as ->.
    destruct (take_byte d3) as [[un d4]|] eqn:E4; cbn [map_err] in Hd; [|done].
    apply take_byte_Ok in E4; [|done]. pose proof (consumes_end _ _ _ E4) as C4.
    destruct (Z.eqb_spec un 0xa0) as [->|]; cbn [negb] in Hd; [|done].
    destruct (take_canonical_byte_string d4) as [[pay d5]|] eqn:E5; [|done].
    apply take_string_Ok in E5; [|done]. pose proof (consumes_end _ _ _ E5) as C5.
    destruct (take_canonical_byte_string d5) as [[sig d6]|] eqn:E6; [|done].
    apply take_string_Ok in E6; [|done].
    destruct (Nat.eqb_spec (length sig) 64); cbn [negb] in Hd; [|done].
    destruct (is_finished d6) eqn:Ef; cbn [negb] in Hd; [|done]. injection Hd as <- <-.
    split; [done|].
    assert (Hx : consumes (Decoder_new bytes)
      ([0xd2] ++ [0x84] ++ wire (Bytes COSE_PROTECTED_HEADER) ++ [0xa0] ++ wire (Bytes pay)
       ++ wire (Bytes sig)) d6) by (repeat (apply consumes_app; eexists; split; [eassumption|]); done).
    by apply (Hfin _ _ Hx).
  - intros (_ & Hs & E).
    destruct (consumes_intro (Decoder_new bytes) bytes [] Hc) as (d6 & Hx & _);
      [by rewrite Hr, app_nil_r|]. rewrite E in Hx at 2.
    pose proof (proj2 (Hfin _ _ Hx) E) as Ef.
    apply consumes_app in Hx as (d1 & H1' & Hx). apply consumes_app in Hx as (d2 & H2' & Hx).
    apply consumes_app in Hx as (d3 & H3' & Hx). apply consumes_app in Hx as (d4 & H4' & Hx).
    apply consumes_app in Hx as (d5 & H5' & H6').
    apply take_byte_Ok in H1' as E1'; [|done]. rewrite E1'. cbn [map_err].
    apply take_byte_Ok in H2' as E2'; [|by eapply consumes_end]. rewrite Z.eqb_refl, E2'. cbn [map_err negb].
    apply take_string_Ok in H3' as E3'; [|by eapply consumes_end]. rewrite Z.eqb_refl, E3'. cbn [negb].
    rewrite (proj2 (list_eqb_eq _ _) eq_refl). cbn [negb].
    apply take_byte_Ok in H4' as E4'; [|by eapply consumes_end]. rewrite E4'. cbn [map_err negb].
    rewrite Z.eqb_refl. cbn [negb].
    apply take_string_Ok in H5' as E5'; [|by eapply consumes_end]. rewrite E5'.
    apply take_string_Ok in H6' as E6'; [|by eapply consumes_end]. rewrite E6'.
    by rewrite Hs, Ef.
Qed.

(** A parsed or signed operation: a valid canonical payload, its hash and a
    64-byte signature. *)
Definition signed_valid (s : SignedOperation.t) : Prop :=
  SignedOperation.operation_id s = sha256 (SignedOperation.payload s)
  /\ fixed 64 (SignedOperation.signature s)
  /\ exists p, payload_typed p /\ payload_valid p /\ normal (OperationPayload.body p)
       /\ SignedOperation.payload s = wire (OperationPayload.to_value p).

Lemma wire_typed p : payload_typed p -> Forall is_byte (wire (OperationPayload.to_value p)).
Proof. intros Hp. by apply wire_byte, to_value_wf. Qed.

Lemma from_cose_sign1_Ok bytes s :
  Forall is_byte bytes ->
  SignedOperation.from_cose_sign1 bytes = Ok s
  <-> signed_valid s
      /\ bytes = cose_bytes (SignedOperation.payload s) (SignedOperation.signature s)
      /\ Z.of_nat (length bytes) <= MAX_CANONICAL_BYTES + 128.
Proof.
  intros Hb. unfold SignedOperation.from_cose_sign1, signed_valid. split.
  - destruct (decode_exact_cose_sign1 bytes) as [[payload signature]|] eqn:E; [|done].
    apply decode_exact_cose_sign1_Ok in E as (Hl & Hs & E); [|done].
    assert (Hbs : Forall is_byte payload /\ Forall is_byte signature).
    { rewrite E, cose_bytes_parts in Hb. cbn [wire] in Hb. rewrite !Forall_app in Hb. tauto. }
    destruct (OperationPayload.from_canonical_bytes payload) as [p|] eqn:Ep; [|done].
    apply from_canonical_bytes_Ok in Ep; [|apply Hbs]. intros [= <-]. cbn.
    split; [|done]. split; [done|]. split; [by split; [|apply Hbs]|]. by exists p.
  - intros ((Hid & [Hs Hsb] & p & Hp) & E & Hl). destruct s as [id payload signature]. cbn in *.
    rewrite (proj2 (decode_exact_cose_sign1_Ok bytes payload signature Hb)) by done.
    rewrite (proj2 (from_canonical_bytes_Ok payload p (eq_ind_r _ (wire_typed p (proj1 Hp)) (proj2 (proj2 (proj2 Hp)))))) by done.
    by rewrite Hid.
Qed.

Lemma cose_value_wf s :
  Forall is_byte (SignedOperation.payload s) -> Forall is_byte (SignedOperation.signature s) ->
  wf (SignedOperation.cose_value s).
Proof.
  intros Hp Hs. unfold SignedOperation.cose_value. split; [|split; [exact I|split; [done|done]]].
  cbn. repeat constructor; unfold is_byte; lia.
Qed.

Lemma cose_bytes_byte payload signature :
  Forall is_byte payload -> Forall is_byte signature -> Forall is_byte (cose_bytes payload signature).
Proof.
  intros Hp Hs. constructor; [unfold is_byte; lia|]. by apply wire_byte, cose_value_wf.
Qed.

Lemma to_cose_sign1_Ok s bytes :
  Forall is_byte (SignedOperation.payload s) -> Forall is_byte (SignedOperation.signature s) ->
  SignedOperation.to_cose_sign1 s = Ok bytes
  <-> bytes = cose_bytes (SignedOperation.payload s) (SignedOperation.signature s)
      /\ Z.of_nat (length bytes) <= MAX_CANONICAL_BYTES + 1.
Proof.
  intros Hp Hs. unfold SignedOperation.to_cose_sign1.
  pose proof (fun bs => to_canonical_cbor_Ok _ bs (cose_value_wf s Hp Hs)) as He.
  assert (Hl : within_limits 0 (SignedOperation.cose_value s)).
  { apply within_limits_Array. unfold MAX_CANONICAL_DEPTH, MAX_CANONICAL_CONTAINER_ITEMS.
    cbn. split; [lia|]. split; [lia|]. intros v Hv. unfold SignedOperation.cose_value in Hv.
    repeat (apply elem_of_cons in Hv as [->|Hv]); [..|by apply not_elem_of_nil in Hv];
      cbn; unfold MAX_CANONICAL_DEPTH; try (split; [lia|done]).
    split; [lia|]. split; [by vm_compute|]. split; [constructor|done]. }
  assert (E : cose_bytes (SignedOperation.payload s) (SignedOperation.signature s)
    = 0xd2 :: wire (SignedOperation.cose_value s)) by done.
  rewrite E. split.
  - destruct (to_canonical_cbor _) as [bs|]; cbn [map_err]; [|done]. intros [= <-].
    destruct (proj1 (He bs) eq_refl) as (_ & -> & Hf). split; [done|].
    unfold fits in Hf. cbn [length]. lia.
  - intros [-> Hf]. cbn [length] in Hf.
    by rewrite (proj2 (He (wire (SignedOperation.cose_value s)))) by (unfold fits; split; [done|split; [done|lia]]).
Qed.
End Envelope.

Section SignedTheorems.
Context `{Sha256} `{Ed25519} `{HalfFloat}.

(** A constructed payload survives its canonical bytes: decoding returns every
    field as it was, with the body in normal form. *)
Theorem payload_roundtrip (p : OperationPayload.t) (bs : list Z) :
  payload_typed p -> payload_valid p -> OperationPayload.canonical_bytes p = Ok bs ->
  OperationPayload.from_canonical_bytes bs
  = Ok (with_body p (normalize (OperationPayload.body p))).
Proof.
  intros Ht Hv Hb. apply canonical_bytes_Ok in Hb as (_ & -> & _); [|done]. by apply payload_decode.
Qed.

(** A payload has one encoding.  Whatever bytes decode to a payload are its
    canonical bytes, and the payload satisfies everything [new] enforces, so the
    operation identity is a function of the payload. *)
Theorem payload_one_encoding (bs : list Z) (p : OperationPayload.t) :
  Forall is_byte bs -> OperationPayload.from_canonical_bytes bs = Ok p ->
  OperationPayload.canonical_bytes p = Ok bs /\ payload_valid p /\ payload_typed p
  /\ OperationPayload.operation_id p = Ok (sha256 bs).
Proof.
  intros Hb (Ht & Hv & Hn & ->)%from_canonical_bytes_Ok; [|done].
  assert (E : OperationPayload.canonical_bytes p = Ok (wire (OperationPayload.to_value p)))
    by (apply canonical_bytes_Ok; [done|]; destruct Hv; done).
  unfold OperationPayload.operation_id. rewrite E. done.
Qed.

(** The identities [new] and the decoder agree on. *)
Lemma signed_identities p p2 :
  payload_typed p -> within_limits 0 (OperationPayload.to_value p) ->
  fits (wire (OperationPayload.to_value p)) ->
  OperationPayload.from_canonical_bytes (wire (OperationPayload.to_value p)) = Ok p2 ->
  OperationPayload.actor_id p2 = OperationPayload.actor_id p
  /\ OperationPayload.space_id p2 = OperationPayload.space_id p /\ strong_key (OperationPayload.actor_id p).
Proof.
  intros Ht Hl Hf Hd. pose proof (wire_typed p Ht) as Hb.
  unfold OperationPayload.from_canonical_bytes in Hd.
  destruct (to_canonical_cbor_roundtrip (OperationPayload.to_value p) _ (to_value_wf p Ht)
    (proj2 (to_canonical_cbor_Ok _ _ (to_value_wf p Ht)) (conj Hl (conj eq_refl Hf)))) as (E & _).
  rewrite E in Hd. cbn [map_err] in Hd. apply from_canonical_cbor_Ok in E as (Hg & _); [|done].
  apply decode_operation_value_inv in Hd as (E & _ & Hv & _); [|done].
  unfold OperationPayload.to_value, decoded_value in E. cbn [normalize List.map] in E.
  injection E as Es Ea _ _ _ _ _ _ _. rewrite Ea, Es. split; [done|]. split; [done|]. apply Hv.
Qed.

(** Signing then verifying; shared by the clients of [sign]. *)
Lemma sign_verified (p : OperationPayload.t) (seed : list Z) (s : SignedOperation.t) :
  payload_typed p -> sign p seed = Ok s ->
  SignedOperation.verify s
  = Ok (mkVerified (sha256 (SignedOperation.payload s)) (signing_identity seed)
          (OperationPayload.space_id p))
  /\ OperationPayload.operation_id p = Ok (SignedOperation.operation_id s)
  /\ forall bytes, SignedOperation.to_cose_sign1 s = Ok bytes ->
       SignedOperation.from_cose_sign1 bytes = Ok s.
Proof.
  intros Ht. unfold sign, SignedOperation.sign_canonical.
  destruct (list_eqb (signing_identity seed) (OperationPayload.actor_id p)) eqn:Ea; cbn [negb]; [|done].
  apply list_eqb_eq in Ea.
  destruct (OperationPayload.canonical_bytes p) as [bs|] eqn:Eb; [|done].
  pose proof Eb as (Hl & Ebs & Hf)%canonical_bytes_Ok; [|done].
  destruct (OperationPayload.from_canonical_bytes bs) as [p2|] eqn:Ed; [|done].
  destruct (cose_signature_structure bs) as [input|] eqn:Ei; [|done]. intros [= <-].
  assert (Hbytes : Forall is_byte bs) by (rewrite Ebs; by apply wire_typed).
  pose proof Ed as (Ht2 & Hv2 & Hn2 & Ew2)%from_canonical_bytes_Ok; [|done].
  subst bs. destruct (signed_identities p p2 Ht Hl Hf Ed) as (Ea2 & Es2 & Hk).
  split; [|split].
  - unfold SignedOperation.verify, SignedOperation.decode_payload.
    cbn [SignedOperation.payload SignedOperation.operation_id SignedOperation.signature].
    unfold OperationPayload.hash_operation_payload. rewrite (proj2 (list_eqb_eq _ _) eq_refl), Ed.
    rewrite Ea2, Es2. cbn [negb]. set (actor := OperationPayload.actor_id p) in *.
    rewrite (proj2 (public_key_Ok actor actor)) by done.
    rewrite (proj2 (verifying_key_Ok actor actor)) by done. rewrite Ei.
    rewrite <- Ea in Hk |- *. by rewrite ed25519_verify_strict_own by apply Hk.
  - unfold OperationPayload.operation_id. by rewrite Eb.
  - intros bytes Hc.
    pose proof (ed25519_sign_fixed seed input) as Hsig.
    apply to_cose_sign1_Ok in Hc as [E Hlen]; [|done|apply Hsig].
    apply from_cose_sign1_Ok.
    + rewrite E. by apply cose_bytes_byte; [|apply Hsig].
    + split; [|split; [exact E|lia]]. split; [done|]. split; [exact Hsig|]. by exists p2.
Qed.

(** Signing then verifying.  Whatever [sign] returns verifies, and the verified
    identities are the payload hash, the signer and the payload's space; a signed
    operation that can be put on the wire is read back unchanged. *)
Theorem sign_verifies (p : OperationPayload.t) (seed : list Z) (s : SignedOperation.t) :
  payload_typed p -> sign p seed = Ok s ->
  SignedOperation.verify s
  = Ok (mkVerified (sha256 (SignedOperation.payload s)) (signing_identity seed)
          (OperationPayload.space_id p))
  /\ OperationPayload.operation_id p = Ok (SignedOperation.operation_id s)
  /\ forall bytes, SignedOperation.to_cose_sign1 s = Ok bytes ->
       SignedOperation.from_cose_sign1 bytes = Ok s.
Proof. apply sign_verified. Qed.

(** The envelope is not malleable: the bytes that parse to a signed operation
    are the one envelope of its payload and signature, the identity is the payload
    hash, and the payload is canonical. *)
Theorem cose_one_encoding (bytes : list Z) (s : SignedOperation.t) :
  Forall is_byte bytes -> SignedOperation.from_cose_sign1 bytes = Ok s ->
  bytes = cose_bytes (SignedOperation.payload s) (SignedOperation.signature s)
  /\ SignedOperation.operation_id s = sha256 (SignedOperation.payload s)
  /\ exists p, SignedOperation.decode_payload s = Ok p
       /\ OperationPayload.canonical_bytes p = Ok (SignedOperation.payload s).
Proof.
  intros Hb ((Hid & _ & p & Ht & Hv & Hn & Ep) & E & _)%from_cose_sign1_Ok; [|done].
  split; [done|]. split; [done|]. exists p. rewrite Ep. split.
  - unfold SignedOperation.decode_payload. rewrite Ep. apply from_canonical_bytes_Ok; [|done].
    by apply wire_typed.
  - apply canonical_bytes_Ok; [done|]. destruct Hv. done.
Qed.

Lemma head_length_32 m n : 65536 <= n < 2 ^ 32 -> length (head m n) = 5%nat.
Proof.
  intros Hn. unfold head.
  rewrite (proj2 (Z.leb_gt n 23)), (proj2 (Z.leb_gt n 255)), (proj2 (Z.leb_gt n 65535)),
    (proj2 (Z.leb_le n 4294967295)) by lia. done.
Qed.

Definition signature_structure (payload : list Z) : CV :=
  Array [Text (str "Signature1"); Bytes COSE_PROTECTED_HEADER; Bytes []; Bytes payload].

Lemma signature_structure_wf payload :
  Forall is_byte payload ->
  wf (signature_structure payload) /\ within_limits 0 (signature_structure payload).
Proof.
  intros Hp. split.
  - apply wf_Array. intros v Hv. unfold signature_structure in Hv.
    repeat (apply elem_of_cons in Hv as [->|Hv]); [..|by apply not_elem_of_nil in Hv]; cbn.
    + split; [apply (str_bytes "Signature1")|done].
    + repeat constructor; unfold is_byte; lia.
    + constructor.
    + done.
  - apply within_limits_Array. unfold MAX_CANONICAL_DEPTH, MAX_CANONICAL_CONTAINER_ITEMS. cbn.
    split; [lia|]. split; [lia|]. intros v Hv.
    repeat (apply elem_of_cons in Hv as [->|Hv]); [..|by apply not_elem_of_nil in Hv];
      (split; [unfold MAX_CANONICAL_DEPTH; lia|done]).
Qed.

Lemma cose_signature_structure_Ok payload bs :
  Forall is_byte payload ->
  cose_signature_structure payload = Ok bs
  <-> bs = wire (signature_structure payload) /\ fits bs.
Proof.
  intros Hp. destruct (signature_structure_wf payload Hp) as [Hw Hl].
  unfold cose_signature_structure. fold (signature_structure payload).
  pose proof (to_canonical_cbor_Ok (signature_structure payload) bs Hw) as He.
  destruct (to_canonical_cbor _); cbn; split.
  - intros [= <-]. by apply He.
  - intros Hb. f_equal. enough (Ok a = Ok bs :> result CanonicalCborError _) as [= ->] by done.
    by apply He.
  - done.
  - intros Hb. enough (Err e = Ok bs) by done. by apply He.
Qed.

(** The 2 MiB payload bound is not reached by signed operations.  A canonical
    payload of 64 KiB or more can be signed or verified only up to 22 bytes below
    [MAX_CANONICAL_BYTES], and its envelope exists only up to 77 bytes below it. *)
Theorem signed_payload_limit (s : SignedOperation.t) :
  Forall is_byte (SignedOperation.payload s) -> fixed 64 (SignedOperation.signature s) ->
  let size := Z.of_nat (length (SignedOperation.payload s)) in
  65536 <= size <= MAX_CANONICAL_BYTES ->
  (is_ok (cose_signature_structure (SignedOperation.payload s)) = true
     <-> size <= MAX_CANONICAL_BYTES - 22)
  /\ (is_ok (SignedOperation.to_cose_sign1 s) = true <-> size <= MAX_CANONICAL_BYTES - 77).
Proof.
  intros Hp [Hs Hsb] size Hsize.
  assert (Hh : length (head 2 (Z.of_nat (length (SignedOperation.payload s)))) = 5%nat)
    by (apply head_length_32; unfold MAX_CANONICAL_BYTES, size in *; lia).
  split.
  - assert (El : Z.of_nat (length (wire (signature_structure (SignedOperation.payload s)))) = 22 + size).
    { unfold signature_structure. cbn [wire List.map concat length]. rewrite !length_app, Hh.
      change (length (str "Signature1")) with 10%nat. unfold size. cbn.
      change (length (head 4 (Z.of_nat 4))) with 1%nat. change (length (head 3 (Z.of_nat 10))) with 1%nat.
      change (length (head 2 (Z.of_nat 3))) with 1%nat. change (length (head 2 (Z.of_nat 0))) with 1%nat.
      lia. }
    pose proof (cose_signature_structure_Ok (SignedOperation.payload s)
      (wire (signature_structure (SignedOperation.payload s))) Hp) as He.
    unfold fits in He. rewrite El in He. split.
    + intros Hok. destruct (cose_signature_structure (SignedOperation.payload s)) as [bs|] eqn:E; [|done].
      apply cose_signature_structure_Ok in E as [-> Hf]; [|done]. unfold fits in Hf. lia.
    + intros Hle. rewrite (proj2 He) by (split; [done|lia]). done.
  - set (b := cose_bytes (SignedOperation.payload s) (SignedOperation.signature s)).
    assert (El : Z.of_nat (length b) = 78 + size).
    { unfold b. rewrite cose_bytes_parts. cbn [wire]. rewrite !length_app, Hh, Hs. unfold size. cbn.
      change (length (head 2 (Z.of_nat 3))) with 1%nat. change (length (head 2 (Z.of_nat 64))) with 2%nat.
      lia. }
    pose proof (to_cose_sign1_Ok s b Hp Hsb) as He. rewrite El in He. fold b in He. split.
    + intros Hok. destruct (SignedOperation.to_cose_sign1 s) as [bs|] eqn:E; [|done].
      apply to_cose_sign1_Ok in E as [-> Hf]; [|done..]. fold b in Hf. lia.
    + intros Hle. rewrite (proj2 He) by (split; [done|lia]). done.
Qed.
End SignedTheorems.

(** ** Witnesses, at the toy instances *)
#[local] Existing Instance toy_sha256.
#[local] Existing Instance toy_ed25519.
#[local] Existing Instance toy_half.

Definition sample_seed : list Z := replicate 31 0 ++ [7].
Definition sample_payload : OperationPayload.t :=
  OperationPayload.mk (replicate 31 0 ++ [1]) sample_seed (replicate 15 0 ++ [9]) (str "note.v1")
    [replicate 32 1; replicate 32 2] [replicate 32 3] 1700000000000 (replicate 16 5)
    (Map [(Text (str "title"), Text (str "hi")); (Text (str "n"), Integer 3)]).

Lemma sample_payload_typed : payload_typed sample_payload.
Proof.
  constructor; try (apply (bool_decide_eq_true_1 (fixed _ _)); vm_compute; reflexivity);
    try (apply (bool_decide_eq_true_1 (Forall (fixed _) _)); vm_compute; reflexivity).
  - split; [apply (str_bytes "note.v1")|reflexivity].
  - unfold in_i. cbn. lia.
  - cbn. repeat split; try (apply str_bytes); unfold in_i; try lia;
      apply (bool_decide_eq_true_1 (Forall is_byte _)); vm_compute; reflexivity.
Qed.

Definition sample_payload_bytes : list Z :=
  default [] (match OperationPayload.canonical_bytes sample_payload with Ok b => Some b | Err _ => None end).

Lemma sample_payload_encodes :
  OperationPayload.canonical_bytes sample_payload = Ok sample_payload_bytes.
Proof. vm_compute. reflexivity. Qed.

Lemma sample_payload_valid : payload_valid sample_payload.
Proof.
  pose proof sample_payload_encodes as (Hl & _ & Hf)%canonical_bytes_Ok; [|apply sample_payload_typed].
  constructor; try done; try (vm_compute; reflexivity).
  - split; [cbn; unfold MAX_CAUSAL_PARENTS, MAX_AUTHORIZATION_REFERENCES; lia|]. apply bytes_ltb_sorted. vm_compute. reflexivity.
  - split; [cbn; unfold MAX_CAUSAL_PARENTS, MAX_AUTHORIZATION_REFERENCES; lia|]. apply bytes_ltb_sorted. vm_compute. reflexivity.
Qed.

Lemma detached_input_injective_witness :
  PeerNodeRequestV1 = PeerNodeRequestV1 /\ [1; 2] = [1; 2].
Proof. exact (detached_input_injective PeerNodeRequestV1 PeerNodeRequestV1 [1; 2] [1; 2] eq_refl). Defined.

Lemma payload_roundtrip_witness :
  OperationPayload.from_canonical_bytes sample_payload_bytes
  = Ok (with_body sample_payload
          (Map [(Text (str "n"), Unsigned 3); (Text (str "title"), Text (str "hi"))])).
Proof.
  exact (payload_roundtrip sample_payload sample_payload_bytes sample_payload_typed
    sample_payload_valid sample_payload_encodes).
Defined.

Definition sample_signed : SignedOperation.t :=
  default (SignedOperation.mk [] [] [])
    (match sign sample_payload sample_seed with Ok s => Some s | Err _ => None end).

Lemma sign_verifies_witness :
  SignedOperation.verify sample_signed
  = Ok (mkVerified (sha256 (SignedOperation.payload sample_signed)) (signing_identity sample_seed)
          (replicate 31 0 ++ [1])).
Proof.
  apply (sign_verifies sample_payload sample_seed sample_signed sample_payload_typed).
  vm_compute. reflexivity.
Defined.

Lemma sample_bytes_byte : Forall is_byte sample_payload_bytes.
Proof. apply (bool_decide_eq_true_1 (Forall is_byte _)). vm_compute. reflexivity. Qed.

Lemma payload_one_encoding_witness :
  OperationPayload.canonical_bytes (with_body sample_payload (normalize (OperationPayload.body sample_payload)))
  = Ok sample_payload_bytes.
Proof.
  apply (payload_one_encoding sample_payload_bytes); [apply sample_bytes_byte|].
  vm_compute. reflexivity.
Defined.

Definition sample_envelope : list Z :=
  cose_bytes (SignedOperation.payload sample_signed) (SignedOperation.signature sample_signed).

Lemma cose_one_encoding_witness :
  SignedOperation.operation_id sample_signed = sha256 (SignedOperation.payload sample_signed).
Proof.
  apply (cose_one_encoding sample_envelope sample_signed).
  - apply (bool_decide_eq_true_1 (Forall is_byte _)). vm_compute. reflexivity.
  - vm_compute. reflexivity.
Defined.

(** The largest payload that can be signed has no envelope. *)
Definition largest_signable : SignedOperation.t :=
  SignedOperation.mk [] (replicate (Z.to_nat (MAX_CANONICAL_BYTES - 22)) 0) (replicate 64 0).

Lemma signed_payload_limit_witness :
  is_ok (cose_signature_structure (SignedOperation.payload largest_signable)) = true
  /\ is_ok (SignedOperation.to_cose_sign1 largest_signable) = false.
Proof.
  assert (El : Z.of_nat (length (SignedOperation.payload largest_signable)) = MAX_CANONICAL_BYTES - 22).
  { unfold largest_signable. cbn [SignedOperation.payload]. rewrite length_replicate, Z2Nat.id by done. done. }
  destruct (signed_payload_limit largest_signable) as [[_ H1] [H2 _]].
  - apply Forall_replicate. unfold is_byte. lia.
  - apply (bool_decide_eq_true_1 (fixed _ _)). vm_compute. reflexivity.
  - rewrite El. unfold MAX_CANONICAL_BYTES. lia.
  - split; [apply H1; rewrite El; lia|]. apply not_true_is_false. intros Ht%H2. rewrite El in Ht. lia.
Defined.
