(* ===== verification/DataModel.v ===== *)
(** * Data model: documents, bodies and their validation
    (crates/fractonica-data-model/src/lib.rs)

    Strings are their UTF-8 bytes, identities byte strings, a [BTreeMap<String, V>]
    its entries in ascending key order ([btree]).  [base64] and [serde_json] are not
    part of the repository: [Base64] and [JsonNumber] state what is used of them. *)
From S2P Require Import Prelude Bytes Floats Crypto Content Cbor Trust.

(** ** Bounds *)
Definition MAX_EMOJI_CHARS : Z := 32.
Definition MAX_TEXT_CHARS : Z := 262144.
Definition MAX_METADATA_ENTRIES : Z := 128.
Definition MAX_METADATA_KEY_CHARS : Z := 128.
Definition MAX_METADATA_JSON_BYTES : Z := 65536.
Definition MAX_METADATA_DEPTH : Z := 16.
Definition MAX_METADATA_CONTAINER_ITEMS : Z := 256.
Definition MAX_METADATA_STRING_CHARS : Z := 16384.
Definition MAX_RECORD_RESOURCES : Z := 64.
Definition MAX_ENTITY_REFERENCES : Z := 256.
Definition MAX_RELATION_BYTES : Z := 64.
Definition MAX_TAG_NAME_CHARS : Z := 128.
Definition MAX_EVENT_LABEL_CHARS : Z := 256.
Definition MAX_PROFILE_HANDLE_BYTES : Z := 32.
Definition MAX_PROFILE_DISPLAY_NAME_CHARS : Z := 128.
Definition MAX_ENCRYPTED_PAYLOAD_BYTES : Z := 1048576.
Definition MAX_CAPABILITY_SCHEMAS : Z := 32.
Definition MAX_CAPABILITY_CONTENT_ROLES : Z := 64.
Definition MAX_DELEGATION_DEPTH : Z := 16.
Definition MAX_CAPABILITY_LABEL_CHARS : Z := 128.
Definition MAX_REVOCATION_DETAIL_CHARS : Z := 512.
Definition PROTOCOL_VERSION : Z := OPERATION_PROTOCOL_VERSION.

(** ** Vocabulary *)
Module EntitySchema.
Inductive t : Type :=
| Event | Profile | Record_ | SpaceGenesis | CapabilityGrant | CapabilityRevoke | Tag.

#[global] Instance eq_dec : EqDecision t.
Proof. solve_decision. Defined.

Definition as_str (s : t) : list Z :=
  match s with
  | Event => str "event"
  | Profile => str "profile"
  | Record_ => str "record"
  | SpaceGenesis => str "space.genesis"
  | CapabilityGrant => str "capability.grant"
  | CapabilityRevoke => str "capability.revoke"
  | Tag => str "tag"
  end.

Definition all : list t :=
  [Event; Profile; Record_; SpaceGenesis; CapabilityGrant; CapabilityRevoke; Tag].
End EntitySchema.

Module Visibility.
Inductive t : Type := Public | Private.
#[global] Instance eq_dec : EqDecision t.
Proof. solve_decision. Defined.
(** The derived [Ord]. *)
Definition rank (v : t) : Z := match v with Public => 0 | Private => 1 end.
End Visibility.

Module CapabilityAction.
Inductive t : Type :=
| AppendOperation | IssueCapability | RevokeCapability | ReadSpace | WriteContent | LinkWorkspace.
#[global] Instance eq_dec : EqDecision t.
Proof. solve_decision. Defined.
(** The derived [Ord]. *)
Definition rank (a : t) : Z :=
  match a with
  | AppendOperation => 0
  | IssueCapability => 1
  | RevokeCapability => 2
  | ReadSpace => 3
  | WriteContent => 4
  | LinkWorkspace => 5
  end.
End CapabilityAction.

(** ** Errors *)
Inductive DataModelError : Type :=
| Trust (e : TrustError)
| UnsupportedProtocolVersion (found supported : Z)
| UnsupportedSchema (schema : list Z)
| NilEntityId_
| ProjectionMismatch (field : list Z)
| NonCanonicalCoseProjection
| SchemaBodyMismatch (schema : EntitySchema.t)
| InvalidCanonicalBody (schema : EntitySchema.t) (detail : list Z)
| NegativeOccurredAt_ (value : Z)
| NegativeRecordStart (value : Z)
| RecordEndBeforeStart (start end_ : Z)
| TextTooLong (length maximum : Z)
| SelfCausalParent (id : list Z)
| TooManyMetadataEntries (count maximum : Z)
| InvalidMetadataKey (key : list Z) (maximum : Z)
| MetadataStringTooLong (length maximum : Z)
| UnsupportedMetadataNumber
| MetadataTooDeep (depth maximum : Z)
| MetadataContainerTooLarge (count maximum : Z)
| MetadataTooLarge (bytes maximum : Z)
| MetadataSerialization
| TooManyResources (count maximum : Z)
| InvalidResource (index : Z) (source : ContentValidationError)
| DuplicateResourceContentId (id : list Z)
| InvalidClientDocument (what : list Z)
| InvalidRelation (relation : list Z)
| TooManyEntityReferences (count maximum : Z)
| DuplicateEntityReference
| InvalidEncryptedPayload (what : list Z)
| ProfileEntityMismatch
| EmptyCapabilitySet (field : list Z)
| CapabilitySetNotStrictlySorted (field : list Z)
| CapabilitySetTooLarge (field : list Z) (count maximum : Z)
| CapabilityScopeMismatch (what : list Z)
| InvalidCapabilityContentRole (role : list Z)
| CapabilityResourceLimitTooLarge (found maximum : Z)
| DelegationTooDeep (found maximum : Z)
| NegativeCapabilityTime (field : list Z) (value : Z)
| InvalidCapabilityWindow (start end_ : Z)
| InvalidBoundedLabel (field : list Z) (count maximum : Z)
| GenesisControllerMismatch (controller actor : list Z)
| GenesisMustBeRoot
| MissingAuthorization
| DuplicateOperationId (id : list Z)
| ForeignSpace (expected found : list Z)
| ForeignEntity (expected found : list Z)
| ForeignSchema (expected found : EntitySchema.t)
| CausalParentNotPreexisting (operation_id parent_id : list Z)
| ForeignCausalParent (parent_id : list Z).

(** [EntitySchema::parse] *)
Definition parse_schema (value : list Z) : result DataModelError EntitySchema.t :=
  if list_eqb value (str "event") then Ok EntitySchema.Event
  else if list_eqb value (str "profile") then Ok EntitySchema.Profile
  else if list_eqb value (str "record") then Ok EntitySchema.Record_
  else if list_eqb value (str "space.genesis") then Ok EntitySchema.SpaceGenesis
  else if list_eqb value (str "capability.grant") then Ok EntitySchema.CapabilityGrant
  else if list_eqb value (str "capability.revoke") then Ok EntitySchema.CapabilityRevoke
  else if list_eqb value (str "tag") then Ok EntitySchema.Tag
  else Err (UnsupportedSchema value).

(** ** Libraries: base64url and JSON numbers *)

(** [base64::URL_SAFE_NO_PAD]: ASCII text that decodes to what was encoded. *)
Class Base64 := {
  base64_encode : list Z -> list Z;
  base64_decode : list Z -> option (list Z);
  base64_decode_encode : forall b, Forall is_byte b -> base64_decode (base64_encode b) = Some b;
  base64_encode_ascii : forall b, is_ascii (base64_encode b) = true
}.

(** [serde_json::Number]: made from an [i64], a [u64] or a finite [f64], and read
    back by the accessor of what it was made from. *)
Class JsonNumber := {
  number : Type;
  as_i64 : number -> option Z;
  as_u64 : number -> option Z;
  as_f64 : number -> option Z;
  number_from_i64 : Z -> number;
  number_from_u64 : Z -> number;
  number_from_f64 : Z -> option number;
  number_eqb : number -> number -> bool;    (* the derived [PartialEq]: equates the zeros *)
  number_eqb_refl : forall n, number_eqb n n = true;
  as_i64_range : forall n v, as_i64 n = Some v -> in_i 64 v;
  as_u64_range : forall n v, as_u64 n = Some v -> in_u 64 v;
  as_f64_range : forall n v, as_f64 n = Some v -> in_u 64 v;
  as_i64_inv : forall n v, as_i64 n = Some v -> v < 0 -> n = number_from_i64 v;
  as_u64_inv : forall n v, as_u64 n = Some v -> n = number_from_u64 v;
  as_f64_inv : forall n v, as_u64 n = None -> (forall i, as_i64 n = Some i -> 0 <= i) ->
    as_f64 n = Some v -> f64_is_finite v = true -> number_from_f64 v = Some n
}.

(** [serde_json::Value]; an object's entries are in ascending key order. *)
Inductive Json `{JsonNumber} : Type :=
| JNull
| JBool (b : bool)
| JNumber (n : number)
| JString (s : list Z)
| JArray (values : list Json)
| JObject (values : list (list Z * Json)).

(** [serde_json::to_vec(values)?.len()] of a metadata object. *)
Class JsonSize `{JsonNumber} := {
  json_encoded_len : list (list Z * Json) -> option Z
}.

(** [BTreeMap::insert]: ascending keys, replacing an equal one; also whether the
    key was present. *)
Fixpoint btree_insert {V} (key : list Z) (value : V) (m : list (list Z * V)) :
    bool * list (list Z * V) :=
  match m with
  | [] => (false, [(key, value)])
  | (k, v) :: rest =>
      match bytes_cmp key k with
      | Lt => (false, (key, value) :: m)
      | Eq => (true, (key, value) :: rest)
      | Gt => let '(present, rest) := btree_insert key value rest in (present, (k, v) :: rest)
      end
  end.

(** A well-formed [BTreeMap]. *)
Definition btree {V} (m : list (list Z * V)) : Prop := Sorted.Sorted bytes_lt (List.map fst m).

(** ** Documents *)
Module ReferenceTarget.
Inductive t : Type :=
| Actor (actor_id : list Z)
| Entity (space_id entity_id : list Z) (operation_id : option (list Z)).
#[global] Instance eq_dec : EqDecision t.
Proof. solve_eq_dec. Defined.
End ReferenceTarget.

Module EntityReference.
Record t : Type := mk { relation : list Z; target : ReferenceTarget.t }.
#[global] Instance eq_dec : EqDecision t.
Proof. solve_eq_dec. Defined.
End EntityReference.

(** [algorithm] has the one value [Aes256Gcm]. *)
Module EncryptedPayload.
Record t : Type := mk {
  key_id : list Z;
  nonce_base64url : list Z;
  ciphertext_base64url : list Z
}.
#[global] Instance eq_dec : EqDecision t.
Proof. solve_eq_dec. Defined.
End EncryptedPayload.

Module ProtectedDocument.
Inductive t (T : Type) : Type :=
| Public (document : T)
| Private (envelope : EncryptedPayload.t) (resources : list ResourceRef.t).
Arguments Public {T} document.
Arguments Private {T} envelope resources.

Definition visibility {T} (p : t T) : Visibility.t :=
  match p with Public _ => Visibility.Public | Private _ _ => Visibility.Private end.
End ProtectedDocument.

Section Documents.
Context `{JsonNumber}.

Record RecordDocument : Type := mkRecordDocument {
  record_start_at_unix_ms : Z;
  record_end_at_unix_ms : option Z;
  record_emoji : option (list Z);
  record_text : option (list Z);
  record_metadata : list (list Z * Json);
  record_resources : list ResourceRef.t;
  record_references : list EntityReference.t
}.

Record TagDocument : Type := mkTagDocument {
  tag_name : list Z;
  tag_emoji : option (list Z);
  tag_notes : option (list Z);
  tag_color_hex : option (list Z);
  tag_metadata : list (list Z * Json);
  tag_references : list EntityReference.t
}.

Record EventDocument : Type := mkEventDocument {
  event_start_at_unix_ms : Z;
  event_end_at_unix_ms : option Z;
  event_label : list Z;
  event_type_number : Z;
  event_metadata : list (list Z * Json);
  event_references : list EntityReference.t
}.

Record ProfileDocument : Type := mkProfileDocument {
  profile_handle : list Z;
  profile_display_name : list Z;
  profile_saros_anchor : Z;
  profile_avatar : option ResourceRef.t;
  profile_metadata : list (list Z * Json)
}.
End Documents.

Module CapabilityGrant.
Record t : Type := mk {
  subject : list Z;
  actions : list CapabilityAction.t;
  schemas : list EntitySchema.t;
  visibilities : list Visibility.t;
  content_roles : list (list Z);
  max_resource_byte_length : option Z;
  not_before_unix_ms : option Z;
  expires_at_unix_ms : option Z;
  delegation_depth : Z;
  label : list Z
}.
#[global] Instance eq_dec : EqDecision t.
Proof. solve_eq_dec. Defined.
End CapabilityGrant.

Module CapabilityRevocation.
Inductive reason_t : Type :=
| KeyCompromised | DeviceLost | KeyRotated | ScopeChanged | Administrative.
#[global] Instance reason_eq_dec : EqDecision reason_t.
Proof. solve_eq_dec. Defined.
Record t : Type := mk { grant_id : list Z; reason : reason_t; detail : option (list Z) }.
#[global] Instance eq_dec : EqDecision t.
Proof. solve_eq_dec. Defined.
End CapabilityRevocation.

Module OperationBody.
Section Body.
Context `{JsonNumber}.
Inductive t : Type :=
| PutRecord (payload : ProtectedDocument.t RecordDocument)
| PutTag (payload : ProtectedDocument.t TagDocument)
| PutEvent (payload : ProtectedDocument.t EventDocument)
| PutProfile (document : ProfileDocument)
| Tombstone
| SpaceGenesis (controller : list Z)
| CapabilityGrant (grant : CapabilityGrant.t)
| CapabilityRevoke (revocation : CapabilityRevocation.t).

Definition declared_visibility (body : t) : option Visibility.t :=
  match body with
  | PutRecord payload => Some (ProtectedDocument.visibility payload)
  | PutTag payload => Some (ProtectedDocument.visibility payload)
  | PutEvent payload => Some (ProtectedDocument.visibility payload)
  | PutProfile _ => Some Visibility.Public
  | _ => None
  end.

Definition resources (body : t) : list ResourceRef.t :=
  match body with
  | PutRecord (ProtectedDocument.Public document) => record_resources document
  | PutRecord (ProtectedDocument.Private _ resources) => resources
  | PutProfile document => match profile_avatar document with Some r => [r] | None => [] end
  | _ => []
  end.
End Body.
End OperationBody.

(** ** Orders *)
Definition rank_le {T} (rank : T -> Z) (a b : T) : Prop := rank a <= rank b.
#[global] Instance rank_le_dec {T} (rank : T -> Z) a b : Decision (rank_le rank a b).
Proof. unfold rank_le. apply _. Defined.
Definition schema_le (a b : EntitySchema.t) : Prop :=
  bytes_le (EntitySchema.as_str a) (EntitySchema.as_str b).
#[global] Instance schema_le_dec a b : Decision (schema_le a b).
Proof. unfold schema_le. apply _. Defined.

(** ** Validation helpers *)
Definition count_chars (s : list Z) : Z := Z.of_nat (length (chars s)).

Definition is_token_byte (byte : Z) : bool :=
  is_ascii_lowercase byte || is_ascii_digit byte || one_of (str "._-") byte.

Definition validate_bounded_label (field value : list Z) (maximum : Z) (allow_empty : bool) :
    result DataModelError unit :=
  let count := count_chars value in
  if (negb allow_empty && (count =? 0)) || (maximum <? count) || existsb is_control (chars value)
  then Err (InvalidBoundedLabel field count maximum)
  else Ok tt.

Definition validate_content_role (role : list Z) : result DataModelError unit :=
  let valid :=
    negb (length role =? 0)%nat && (Z.of_nat (length role) <=? MAX_RESOURCE_ROLE_BYTES)
    && forallb is_token_byte role in
  if valid then Ok tt else Err (InvalidCapabilityContentRole role).

Definition validate_optional_time (field : list Z) (value : option Z) : result DataModelError unit :=
  match value with
  | Some value => if value <? 0 then Err (NegativeCapabilityTime field value) else Ok tt
  | None => Ok tt
  end.

Definition is_lt (c : comparison) : bool := match c with Lt => true | _ => false end.

Definition validate_sorted_by {T} (field : list Z) (values : list T)
    (compare : T -> T -> comparison) : result DataModelError unit :=
  if windows_all (fun a b => is_lt (compare a b)) values then Ok tt
  else Err (CapabilitySetNotStrictlySorted field).

Definition validate_nonempty_sorted_set {T} (field : list Z) (values : list T)
    (compare : T -> T -> comparison) : result DataModelError unit :=
  match values with
  | [] => Err (EmptyCapabilitySet field)
  | _ => validate_sorted_by field values compare
  end.

(** [validate_sorted_set] is [validate_sorted_by] with [Ord::cmp]. *)
Definition validate_sorted_bytes (field : list Z) (values : list (list Z)) :=
  validate_sorted_by field values bytes_cmp.

Definition by_rank {T} (rank : T -> Z) (a b : T) : comparison := Z.compare (rank a) (rank b).

Definition validate_client_times (start : Z) (end_ : option Z) : result DataModelError unit :=
  if start <? 0 then Err (NegativeRecordStart start)
  else match end_ with
  | Some end_ => if end_ <? start then Err (RecordEndBeforeStart start end_) else Ok tt
  | None => Ok tt
  end.

Definition validate_metadata_key (key : list Z) : result DataModelError unit :=
  let length := count_chars key in
  if (length =? 0) || (MAX_METADATA_KEY_CHARS <? length) || existsb is_control (chars key)
  then Err (InvalidMetadataKey key MAX_METADATA_KEY_CHARS)
  else Ok tt.

Definition validate_metadata_container (depth count : Z) : result DataModelError unit :=
  if MAX_METADATA_DEPTH <? depth then Err (MetadataTooDeep depth MAX_METADATA_DEPTH)
  else if MAX_METADATA_CONTAINER_ITEMS <? count
  then Err (MetadataContainerTooLarge count MAX_METADATA_CONTAINER_ITEMS)
  else Ok tt.

(** The loop of [validate_resources]: the index and the content ids seen. *)
Fixpoint validate_resources_from (index : Z) (content_ids : gset (list Z))
    (resources : list ResourceRef.t) : result DataModelError unit :=
  match resources with
  | [] => Ok tt
  | resource :: resources =>
      check map_err (InvalidResource index) (ResourceRef.validate resource);
      if bool_decide (ResourceRef.content_id resource ∈ content_ids)
      then Err (DuplicateResourceContentId (ResourceRef.content_id resource))
      else validate_resources_from (index + 1)
             ({[ResourceRef.content_id resource]} ∪ content_ids) resources
  end.

Definition validate_resources (resources : list ResourceRef.t) : result DataModelError unit :=
  let count := Z.of_nat (length resources) in
  if MAX_RECORD_RESOURCES <? count then Err (TooManyResources count MAX_RECORD_RESOURCES)
  else validate_resources_from 0 ∅ resources.

Definition validate_private_resources (resources : list ResourceRef.t) :
    result DataModelError unit :=
  check validate_resources resources;
  if existsb (fun resource =>
       negb (list_eqb (ResourceRef.media_type resource) (str "application/octet-stream"))
       || negb (list_eqb (ResourceRef.role resource) (str "encrypted"))
       || match ResourceRef.original_name resource with Some _ => true | None => false end)
       resources
  then Err (InvalidEncryptedPayload
              (str "private resources must use the opaque encrypted descriptor"))
  else Ok tt.

Section Validation.
Context `{Sha256} `{Ed25519} `{Base64} `{!JsonNumber} `{!JsonSize}.

Definition entity_reference_validate (r : EntityReference.t) : result DataModelError unit :=
  let relation := EntityReference.relation r in
  let valid_relation :=
    negb (length relation =? 0)%nat && (Z.of_nat (length relation) <=? MAX_RELATION_BYTES)
    && forallb is_token_byte relation in
  if negb valid_relation then Err (InvalidRelation relation)
  else match EntityReference.target r with
  | ReferenceTarget.Actor actor_id => check map_err Trust (public_key actor_id); Ok tt
  | ReferenceTarget.Entity space_id entity_id _ =>
      check map_err Trust (space_id_validate space_id);
      if is_all_zero entity_id then Err NilEntityId_ else Ok tt
  end.

(** The second loop of [validate_references]: [before] is the prefix already
    visited. *)
Fixpoint check_distinct_references (before references : list EntityReference.t) :
    result DataModelError unit :=
  match references with
  | [] => Ok tt
  | reference :: references =>
      if bool_decide (reference ∈ before) then Err DuplicateEntityReference
      else check_distinct_references (before ++ [reference]) references
  end.

Definition validate_references (references : list EntityReference.t) :
    result DataModelError unit :=
  let count := Z.of_nat (length references) in
  if MAX_ENTITY_REFERENCES <? count
  then Err (TooManyEntityReferences count MAX_ENTITY_REFERENCES)
  else
    check for_each entity_reference_validate references;
    check_distinct_references [] references.

Definition decode_canonical_base64url (value : list Z) : option (list Z) :=
  match base64_decode value with
  | Some decoded => if list_eqb (base64_encode decoded) value then Some decoded else None
  | None => None
  end.

Definition is_lower_hex_byte (byte : Z) : bool :=
  is_ascii_digit byte || ((97 <=? byte) && (byte <=? 102)).

Definition encrypted_payload_validate (p : EncryptedPayload.t) : result DataModelError unit :=
  match strip_prefix (str "key:aes256:") (EncryptedPayload.key_id p) with
  | Some value =>
      if (length value =? 64)%nat && forallb is_lower_hex_byte value then
        let? nonce := ok_or (decode_canonical_base64url (EncryptedPayload.nonce_base64url p))
                        (InvalidEncryptedPayload (str "invalid nonce")) in
        if negb (length nonce =? 12)%nat
        then Err (InvalidEncryptedPayload (str "nonce must contain exactly 12 bytes"))
        else
          let? ciphertext :=
            ok_or (decode_canonical_base64url (EncryptedPayload.ciphertext_base64url p))
              (InvalidEncryptedPayload (str "invalid ciphertext")) in
          let length := Z.of_nat (List.length ciphertext) in
          if negb ((16 <=? length) && (length <=? MAX_ENCRYPTED_PAYLOAD_BYTES))
          then Err (InvalidEncryptedPayload
                      (str "ciphertext length is outside the supported bounds"))
          else Ok tt
      else Err (InvalidEncryptedPayload (str "invalid key ID"))
  | None => Err (InvalidEncryptedPayload (str "invalid key ID"))
  end.

(** ** Metadata *)
Fixpoint validate_metadata_value (value : Json) (depth : Z) : result DataModelError unit :=
  match value with
  | JNull | JBool _ => Ok tt
  | JNumber n =>
      if match as_i64 n with Some _ => true | None => false end
         || match as_u64 n with Some _ => true | None => false end
         || match as_f64 n with Some v => f64_is_finite v | None => false end
      then Ok tt
      else Err UnsupportedMetadataNumber
  | JString value =>
      let length := count_chars value in
      if MAX_METADATA_STRING_CHARS <? length
      then Err (MetadataStringTooLong length MAX_METADATA_STRING_CHARS)
      else Ok tt
  | JArray values =>
      check validate_metadata_container depth (Z.of_nat (length values));
      for_each (fun value => validate_metadata_value value (depth + 1)) values
  | JObject values =>
      check validate_metadata_container depth (Z.of_nat (length values));
      for_each (fun entry =>
        check validate_metadata_key (fst entry);
        validate_metadata_value (snd entry) (depth + 1)) values
  end.

Definition validate_metadata (values : list (list Z * Json)) : result DataModelError unit :=
  let count := Z.of_nat (length values) in
  if MAX_METADATA_ENTRIES <? count then Err (TooManyMetadataEntries count MAX_METADATA_ENTRIES)
  else
    check for_each (fun entry =>
      check validate_metadata_key (fst entry);
      validate_metadata_value (snd entry) 1) values;
    let? encoded_size := ok_or (json_encoded_len values) MetadataSerialization in
    if MAX_METADATA_JSON_BYTES <? encoded_size
    then Err (MetadataTooLarge encoded_size MAX_METADATA_JSON_BYTES)
    else Ok tt.

(** ** Documents *)

(** [if let Some(v) = &value { f(v)?; }] *)
Definition if_some {T} (value : option T) (f : T -> result DataModelError unit) :
    result DataModelError unit :=
  match value with Some v => f v | None => Ok tt end.

Definition record_validate (d : RecordDocument) : result DataModelError unit :=
  check validate_client_times (record_start_at_unix_ms d) (record_end_at_unix_ms d);
  check if_some (record_emoji d)
    (fun emoji => validate_bounded_label (str "record emoji") emoji MAX_EMOJI_CHARS false);
  check if_some (record_text d)
    (fun text => if MAX_TEXT_CHARS <? count_chars text
                 then Err (TextTooLong (count_chars text) MAX_TEXT_CHARS)
                 else Ok tt);
  check validate_metadata (record_metadata d);
  check validate_resources (record_resources d);
  validate_references (record_references d).

Definition is_ascii_hexdigit (b : Z) : bool :=
  is_ascii_digit b || ((97 <=? b) && (b <=? 102)) || ((65 <=? b) && (b <=? 70)).

Definition tag_validate (d : TagDocument) : result DataModelError unit :=
  check validate_bounded_label (str "tag name") (tag_name d) MAX_TAG_NAME_CHARS false;
  check if_some (tag_emoji d)
    (fun emoji => validate_bounded_label (str "tag emoji") emoji MAX_EMOJI_CHARS false);
  check if_some (tag_notes d)
    (fun notes => validate_bounded_label (str "tag notes") notes MAX_TEXT_CHARS true);
  check if_some (tag_color_hex d)
    (fun color =>
       if negb (length color =? 7)%nat
          || negb (match color with c :: _ => c =? 35 | [] => false end)
          || negb (forallb is_ascii_hexdigit (drop 1 color))
       then Err (InvalidClientDocument (str "invalid tag color"))
       else Ok tt);
  check validate_metadata (tag_metadata d);
  validate_references (tag_references d).

Definition event_validate (d : EventDocument) : result DataModelError unit :=
  check validate_client_times (event_start_at_unix_ms d) (event_end_at_unix_ms d);
  check validate_bounded_label (str "event label") (event_label d) MAX_EVENT_LABEL_CHARS false;
  check validate_metadata (event_metadata d);
  validate_references (event_references d).

Definition profile_validate (d : ProfileDocument) : result DataModelError unit :=
  let handle := profile_handle d in
  let handle_valid :=
    negb (length handle =? 0)%nat && (Z.of_nat (length handle) <=? MAX_PROFILE_HANDLE_BYTES)
    && forallb is_token_byte handle in
  if negb handle_valid then Err (InvalidClientDocument (str "profile handle is invalid"))
  else
    check validate_bounded_label (str "profile display name") (profile_display_name d)
      MAX_PROFILE_DISPLAY_NAME_CHARS false;
    if negb ((101 <=? profile_saros_anchor d) && (profile_saros_anchor d <=? 161))
    then Err (InvalidClientDocument (str "profile Saros anchor is outside 101 through 161"))
    else
      check if_some (profile_avatar d)
        (fun avatar => map_err (InvalidResource 0) (ResourceRef.validate avatar));
      validate_metadata (profile_metadata d).

Definition validate_protected {T} (payload : ProtectedDocument.t T)
    (validate_public : T -> result DataModelError unit) (allow_private_resources : bool) :
    result DataModelError unit :=
  match payload with
  | ProtectedDocument.Public document => validate_public document
  | ProtectedDocument.Private envelope resources =>
      check encrypted_payload_validate envelope;
      if allow_private_resources then validate_private_resources resources
      else if (length resources =? 0)%nat then Ok tt
      else Err (InvalidEncryptedPayload (str "this schema cannot carry private resources"))
  end.

(** The deterministic profile entity: a SHA-256 prefix shaped as a UUID. *)
Definition profile_entity_id (actor_id : list Z) : list Z :=
  let digest := take 16 (sha256 (str "fractonica-profile-entity" ++ [0] ++ actor_id)) in
  let digest := <[6%nat := Z.lor (Z.land (nth 6 digest 0) 0x0f) 0x80]> digest in
  <[8%nat := Z.lor (Z.land (nth 8 digest 0) 0x3f) 0x80]> digest.

(** ** Capabilities *)

(** [slice.contains(&x)] *)
Definition contains {T} `{EqDecision T} (x : T) (l : list T) : bool := bool_decide (x ∈ l).

(** [sort_unstable] on a type ordered by [rank]: equal values are identical. *)
Definition sort_by_rank {T} (rank : T -> Z) (l : list T) : list T := merge_sort (rank_le rank) l.
Definition sort_schemas (l : list EntitySchema.t) : list EntitySchema.t := merge_sort schema_le l.

Definition grant_normalize (g : CapabilityGrant.t) : CapabilityGrant.t :=
  CapabilityGrant.mk (CapabilityGrant.subject g)
    (sort_by_rank CapabilityAction.rank (CapabilityGrant.actions g))
    (sort_schemas (CapabilityGrant.schemas g))
    (sort_by_rank Visibility.rank (CapabilityGrant.visibilities g))
    (sort_bytes (CapabilityGrant.content_roles g))
    (CapabilityGrant.max_resource_byte_length g)
    (CapabilityGrant.not_before_unix_ms g)
    (CapabilityGrant.expires_at_unix_ms g)
    (CapabilityGrant.delegation_depth g)
    (CapabilityGrant.label g).

Definition is_client_schema (schema : EntitySchema.t) : bool :=
  match schema with
  | EntitySchema.Record_ | EntitySchema.Tag | EntitySchema.Event | EntitySchema.Profile => true
  | _ => false
  end.

Definition is_empty {T} (l : list T) : bool := match l with [] => true | _ => false end.
Definition is_some {T} (o : option T) : bool := match o with Some _ => true | None => false end.

Definition grant_validate (g : CapabilityGrant.t) : result DataModelError unit :=
  check map_err Trust (public_key (CapabilityGrant.subject g));
  check validate_nonempty_sorted_set (str "actions") (CapabilityGrant.actions g)
    (by_rank CapabilityAction.rank);
  let schema_count := Z.of_nat (length (CapabilityGrant.schemas g)) in
  if MAX_CAPABILITY_SCHEMAS <? schema_count
  then Err (CapabilitySetTooLarge (str "schemas") schema_count MAX_CAPABILITY_SCHEMAS)
  else
    check validate_sorted_by (str "schemas") (CapabilityGrant.schemas g)
      (fun left right => bytes_cmp (EntitySchema.as_str left) (EntitySchema.as_str right));
    check validate_sorted_by (str "visibilities") (CapabilityGrant.visibilities g)
      (by_rank Visibility.rank);
    let role_count := Z.of_nat (length (CapabilityGrant.content_roles g)) in
    if MAX_CAPABILITY_CONTENT_ROLES <? role_count
    then Err (CapabilitySetTooLarge (str "contentRoles") role_count MAX_CAPABILITY_CONTENT_ROLES)
    else
      check validate_sorted_bytes (str "contentRoles") (CapabilityGrant.content_roles g);
      check for_each validate_content_role (CapabilityGrant.content_roles g);
      if MAX_DELEGATION_DEPTH <? CapabilityGrant.delegation_depth g
      then Err (DelegationTooDeep (CapabilityGrant.delegation_depth g) MAX_DELEGATION_DEPTH)
      else
        check validate_bounded_label (str "capability label") (CapabilityGrant.label g)
          MAX_CAPABILITY_LABEL_CHARS false;
        check validate_optional_time (str "notBeforeUnixMs") (CapabilityGrant.not_before_unix_ms g);
        check validate_optional_time (str "expiresAtUnixMs") (CapabilityGrant.expires_at_unix_ms g);
        check (match CapabilityGrant.not_before_unix_ms g, CapabilityGrant.expires_at_unix_ms g with
               | Some start, Some end_ =>
                   if end_ <=? start then Err (InvalidCapabilityWindow start end_) else Ok tt
               | _, _ => Ok tt
               end);
        let append := contains CapabilityAction.AppendOperation (CapabilityGrant.actions g) in
        if negb (Bool.eqb append (negb (is_empty (CapabilityGrant.schemas g))))
        then Err (CapabilityScopeMismatch (str "appendOperation requires a nonempty schemas set, and schemas require appendOperation"))
        else
          let visibility_scoped := existsb is_client_schema (CapabilityGrant.schemas g) in
          if negb (Bool.eqb visibility_scoped (negb (is_empty (CapabilityGrant.visibilities g))))
          then Err (CapabilityScopeMismatch (str "client schemas require a nonempty visibility set, and visibility scope requires a client schema"))
          else
            let write_content := contains CapabilityAction.WriteContent (CapabilityGrant.actions g) in
            if negb (Bool.eqb write_content
                       (negb (is_empty (CapabilityGrant.content_roles g))
                        && is_some (CapabilityGrant.max_resource_byte_length g)))
            then Err (CapabilityScopeMismatch (str "writeContent requires nonempty contentRoles and maxResourceByteLength, and those constraints require writeContent"))
            else match CapabilityGrant.max_resource_byte_length g with
            | Some maximum =>
                if MAX_CONTENT_BYTE_LENGTH <? maximum
                then Err (CapabilityResourceLimitTooLarge maximum MAX_CONTENT_BYTE_LENGTH)
                else Ok tt
            | None => Ok tt
            end.

Definition revocation_validate (r : CapabilityRevocation.t) : result DataModelError unit :=
  if_some (CapabilityRevocation.detail r)
    (fun detail => validate_bounded_label (str "revocation detail") detail
                     MAX_REVOCATION_DETAIL_CHARS false).

(** ** Bodies against their operation: [OperationBody::validate_for] *)
Definition validate_for (body : OperationBody.t) (schema : EntitySchema.t)
    (actor_id entity_id : list Z) (causal_parents authorization : list (list Z)) :
    result DataModelError unit :=
  if negb (bool_decide (schema = EntitySchema.SpaceGenesis)) && is_empty authorization
  then Err MissingAuthorization
  else match schema, body with
  | EntitySchema.Record_, OperationBody.PutRecord payload =>
      validate_protected payload record_validate true
  | EntitySchema.Tag, OperationBody.PutTag payload =>
      validate_protected payload tag_validate false
  | EntitySchema.Event, OperationBody.PutEvent payload =>
      validate_protected payload event_validate false
  | EntitySchema.Profile, OperationBody.PutProfile document =>
      if negb (list_eqb entity_id (profile_entity_id actor_id)) then Err ProfileEntityMismatch
      else profile_validate document
  | (EntitySchema.Record_ | EntitySchema.Tag | EntitySchema.Event | EntitySchema.Profile),
    OperationBody.Tombstone =>
      if bool_decide (schema = EntitySchema.Profile)
         && negb (list_eqb entity_id (profile_entity_id actor_id))
      then Err ProfileEntityMismatch
      else Ok tt
  | EntitySchema.SpaceGenesis, OperationBody.SpaceGenesis controller =>
      check map_err Trust (public_key controller);
      if negb (list_eqb controller actor_id) then Err (GenesisControllerMismatch controller actor_id)
      else if negb (is_empty causal_parents) || negb (is_empty authorization)
      then Err GenesisMustBeRoot
      else Ok tt
  | EntitySchema.CapabilityGrant, OperationBody.CapabilityGrant grant => grant_validate grant
  | EntitySchema.CapabilityRevoke, OperationBody.CapabilityRevoke revocation =>
      revocation_validate revocation
  | _, _ => Err (SchemaBodyMismatch schema)
  end.
End Validation.
