(* ===== verification/CanonicalBody.v ===== *)
(** * Operation bodies as canonical values
    (crates/fractonica-data-model/src/canonical.rs)

    [encode_body] and [decode_body] with every helper.  [fields.get(i)] is
    [fields !! i] and [fields.first()] is [fields !! 0]. *)
From S2P Require Import Prelude Bytes Floats Crypto Content Cbor Trust DataModel.

Definition BODY_TOMBSTONE : Z := 0.
Definition BODY_RECORD_PUT : Z := 1.
Definition BODY_TAG_PUT : Z := 2.
Definition BODY_EVENT_PUT : Z := 3.
Definition BODY_PROFILE_PUT : Z := 4.
Definition BODY_SPACE_GENESIS : Z := 5.
Definition BODY_CAPABILITY_GRANT : Z := 6.
Definition BODY_CAPABILITY_REVOKE : Z := 7.

(** ** Scalars *)
Definition nonnegative_integer (value : Z) : result DataModelError CV :=
  if value <? 0 then Err (NegativeOccurredAt_ value) else Ok (Unsigned value).

(** [value as u64] of a nonnegative [i64] is the value. *)
Definition signed_integer (value : Z) : CV :=
  if value <? 0 then Integer value else Unsigned value.

Definition optional_nonnegative_integer (value : option Z) : result DataModelError CV :=
  match value with Some value => nonnegative_integer value | None => Ok Null end.

Definition optional_unsigned (value : option Z) : CV :=
  match value with Some value => Unsigned value | None => Null end.

Definition optional_text (value : option (list Z)) : CV :=
  match value with Some value => Text value | None => Null end.

Definition optional_bytes (value : option (list Z)) : CV :=
  match value with Some value => Bytes value | None => Null end.

Definition visibility_code (v : Visibility.t) : Z :=
  match v with Visibility.Public => 0 | Visibility.Private => 1 end.

Definition action_code (a : CapabilityAction.t) : Z :=
  match a with
  | CapabilityAction.AppendOperation => 0
  | CapabilityAction.IssueCapability => 1
  | CapabilityAction.RevokeCapability => 2
  | CapabilityAction.ReadSpace => 3
  | CapabilityAction.WriteContent => 4
  | CapabilityAction.LinkWorkspace => 5
  end.

Definition revocation_reason_code (r : CapabilityRevocation.reason_t) : Z :=
  match r with
  | CapabilityRevocation.KeyCompromised => 0
  | CapabilityRevocation.DeviceLost => 1
  | CapabilityRevocation.KeyRotated => 2
  | CapabilityRevocation.ScopeChanged => 3
  | CapabilityRevocation.Administrative => 4
  end.

Section Scalars.
Context (schema : EntitySchema.t).

Definition invalid {T} (detail : list Z) : result DataModelError T :=
  Err (InvalidCanonicalBody schema detail).

Definition required (value : option CV) (detail : list Z) : result DataModelError CV :=
  ok_or value (InvalidCanonicalBody schema detail).

Definition unsigned (value : option CV) (detail : list Z) : result DataModelError Z :=
  let? value := required value detail in
  match value with Unsigned value => Ok value | _ => invalid detail end.

Definition nonnegative_i64 (value : option CV) (detail : list Z) : result DataModelError Z :=
  let? value := unsigned value detail in
  ok_or (checked_i64 value) (InvalidCanonicalBody schema (str "nonnegative integer exceeds i64")).

Definition optional_nonnegative_i64 (value : option CV) (detail : list Z) :
    result DataModelError (option Z) :=
  let? value := required value detail in
  match value with
  | Null => Ok None
  | Unsigned value =>
      ok_or (option_map Some (checked_i64 value))
        (InvalidCanonicalBody schema (str "optional timestamp exceeds i64"))
  | _ => invalid detail
  end.

Definition decode_optional_unsigned (value : option CV) (detail : list Z) :
    result DataModelError (option Z) :=
  let? value := required value detail in
  match value with
  | Null => Ok None
  | Unsigned value => Ok (Some value)
  | _ => invalid detail
  end.

Definition text (value : option CV) (detail : list Z) : result DataModelError (list Z) :=
  let? value := required value detail in
  match value with Text value => Ok value | _ => invalid detail end.

Definition decode_optional_text (value : option CV) (detail : list Z) :
    result DataModelError (option (list Z)) :=
  let? value := required value detail in
  match value with
  | Null => Ok None
  | Text value => Ok (Some value)
  | _ => invalid detail
  end.

Definition fixed_bytes (n : nat) (value : option CV) (detail : list Z) :
    result DataModelError (list Z) :=
  let? value := required value detail in
  match value with
  | Bytes value => if (length value =? n)%nat then Ok value else invalid detail
  | _ => invalid detail
  end.

Definition decode_signed_integer (value : option CV) (detail : list Z) : result DataModelError Z :=
  let? value := required value detail in
  match value with
  | Integer value => Ok value
  | Unsigned value =>
      ok_or (checked_i64 value) (InvalidCanonicalBody schema (str "signed integer exceeds i64"))
  | _ => invalid detail
  end.

Definition decode_visibility (value : option CV) (detail : list Z) :
    result DataModelError Visibility.t :=
  let? code := unsigned value detail in
  if code =? 0 then Ok Visibility.Public
  else if code =? 1 then Ok Visibility.Private
  else invalid (str "unknown visibility code").

Definition decode_action (value : option CV) (detail : list Z) :
    result DataModelError CapabilityAction.t :=
  let? code := unsigned value detail in
  if code =? 0 then Ok CapabilityAction.AppendOperation
  else if code =? 1 then Ok CapabilityAction.IssueCapability
  else if code =? 2 then Ok CapabilityAction.RevokeCapability
  else if code =? 3 then Ok CapabilityAction.ReadSpace
  else if code =? 4 then Ok CapabilityAction.WriteContent
  else if code =? 5 then Ok CapabilityAction.LinkWorkspace
  else invalid (str "unknown capability action code").

Definition decode_revocation_reason (value : option CV) :
    result DataModelError CapabilityRevocation.reason_t :=
  let? code := unsigned value (str "revocation reason") in
  if code =? 0 then Ok CapabilityRevocation.KeyCompromised
  else if code =? 1 then Ok CapabilityRevocation.DeviceLost
  else if code =? 2 then Ok CapabilityRevocation.KeyRotated
  else if code =? 3 then Ok CapabilityRevocation.ScopeChanged
  else if code =? 4 then Ok CapabilityRevocation.Administrative
  else invalid (str "unknown revocation reason code").

Definition body_array (value : CV) : result DataModelError (list CV) :=
  match value with
  | Array [] => invalid (str "schema body must include a kind code")
  | Array fields => Ok fields
  | _ => invalid (str "schema body must be an array")
  end.

Definition exact_array (value : CV) (length : nat) (detail : list Z) :
    result DataModelError (list CV) :=
  match value with
  | Array fields => if (List.length fields =? length)%nat then Ok fields else invalid detail
  | _ => invalid detail
  end.

Definition decode_array {T} (value : option CV) (field : list Z)
    (decode : CV -> result DataModelError T) : result DataModelError (list T) :=
  let? value := required value field in
  match value with
  | Array values => collect decode values
  | _ => invalid (str "expected an array")
  end.
End Scalars.

(** ** References, resources, encrypted payloads *)
Definition encode_target (target : ReferenceTarget.t) : CV :=
  match target with
  | ReferenceTarget.Actor actor_id => Array [Unsigned 0; Bytes actor_id]
  | ReferenceTarget.Entity space_id entity_id operation_id =>
      Array [Unsigned 1; Bytes space_id; Bytes entity_id; optional_bytes operation_id]
  end.

Definition encode_reference (reference : EntityReference.t) : CV :=
  Array [Text (EntityReference.relation reference);
         encode_target (EntityReference.target reference)].

Definition encode_references (references : list EntityReference.t) : CV :=
  Array (List.map encode_reference references).

Definition decode_reference (schema : EntitySchema.t) (value : CV) :
    result DataModelError EntityReference.t :=
  let? fields := exact_array schema value 2 (str "entity reference") in
  let? relation := text schema (fields !! 0%nat) (str "reference relation") in
  let? target := required schema (fields !! 1%nat) (str "reference target") in
  let? target_fields := body_array schema target in
  let? kind := unsigned schema (target_fields !! 0%nat) (str "reference target kind") in
  let? target :=
    (if (kind =? 0) && (length target_fields =? 2)%nat then
       let? actor_id := fixed_bytes schema 32 (target_fields !! 1%nat) (str "referenced actor") in
       Ok (ReferenceTarget.Actor actor_id)
     else if (kind =? 1) && (length target_fields =? 4)%nat then
       let? operation := required schema (target_fields !! 3%nat) (str "referenced operation") in
       let? operation_id :=
         (match operation with
          | Null => Ok None
          | value =>
              let? id := fixed_bytes schema 32 (Some value) (str "referenced operation") in
              Ok (Some id)
          end) in
       let? space_id := fixed_bytes schema 32 (target_fields !! 1%nat) (str "referenced space") in
       let? entity_id := fixed_bytes schema 16 (target_fields !! 2%nat) (str "referenced entity") in
       Ok (ReferenceTarget.Entity space_id entity_id operation_id)
     else invalid schema (str "invalid reference target")) in
  Ok (EntityReference.mk relation target).

Definition decode_references (schema : EntitySchema.t) (value : option CV) :
    result DataModelError (list EntityReference.t) :=
  decode_array schema value (str "entity references") (decode_reference schema).

Definition encode_resource (r : ResourceRef.t) : CV :=
  Array [Bytes (ResourceRef.content_id r);
         Unsigned (ResourceRef.byte_length r);
         Text (ResourceRef.media_type r);
         Text (ResourceRef.role r);
         optional_text (ResourceRef.original_name r)].

Definition decode_resource (schema : EntitySchema.t) (value : CV) :
    result DataModelError ResourceRef.t :=
  match value with
  | Array fields =>
      if negb (length fields =? 5)%nat
      then invalid schema (str "resource reference must contain exactly five fields")
      else
        let? content_id := fixed_bytes schema 32 (fields !! 0%nat) (str "resource content ID") in
        let? byte_length := unsigned schema (fields !! 1%nat) (str "resource byte length") in
        let? media_type := text schema (fields !! 2%nat) (str "resource media type") in
        let? role := text schema (fields !! 3%nat) (str "resource role") in
        let? original_name :=
          decode_optional_text schema (fields !! 4%nat) (str "resource original name") in
        Ok (ResourceRef.mk content_id byte_length media_type role original_name)
  | _ => invalid schema (str "resource reference must be an array")
  end.

Definition decode_resources (schema : EntitySchema.t) (value : option CV) :
    result DataModelError (list ResourceRef.t) :=
  decode_array schema value (str "resources") (decode_resource schema).

Definition encode_encrypted_payload (p : EncryptedPayload.t) : CV :=
  Array [Unsigned 0;
         Text (EncryptedPayload.key_id p);
         Text (EncryptedPayload.nonce_base64url p);
         Text (EncryptedPayload.ciphertext_base64url p)].

Definition decode_encrypted_payload (schema : EntitySchema.t) (value : option CV) :
    result DataModelError EncryptedPayload.t :=
  let? value := required schema value (str "encrypted payload") in
  match value with
  | Array fields =>
      if negb (length fields =? 4)%nat
      then invalid schema (str "unsupported encrypted payload")
      else
        let? algorithm := unsigned schema (fields !! 0%nat) (str "encryption algorithm") in
        if negb (algorithm =? 0) then invalid schema (str "unsupported encrypted payload")
        else
          let? key_id := text schema (fields !! 1%nat) (str "encryption key ID") in
          let? nonce := text schema (fields !! 2%nat) (str "encryption nonce") in
          let? ciphertext := text schema (fields !! 3%nat) (str "encrypted ciphertext") in
          Ok (EncryptedPayload.mk key_id nonce ciphertext)
  | _ => invalid schema (str "encrypted payload must be an array")
  end.

Definition encode_protected {T} (payload : ProtectedDocument.t T)
    (encode_public : T -> result DataModelError CV) : result DataModelError CV :=
  match payload with
  | ProtectedDocument.Public document =>
      let? document := encode_public document in
      Ok (Array [Unsigned 0; document; Array []])
  | ProtectedDocument.Private envelope resources =>
      Ok (Array [Unsigned 1; encode_encrypted_payload envelope;
                 Array (List.map encode_resource resources)])
  end.

Definition decode_protected {T} (schema : EntitySchema.t) (value : option CV)
    (decode_public : EntitySchema.t -> CV -> result DataModelError T) :
    result DataModelError (ProtectedDocument.t T) :=
  let? value := required schema value (str "protected document") in
  match value with
  | Array fields =>
      if negb (length fields =? 3)%nat
      then invalid schema (str "protected document must contain three fields")
      else
        let? resources := required schema (fields !! 2%nat) (str "protected resources") in
        match resources with
        | Array resources =>
            let? kind := unsigned schema (fields !! 0%nat) (str "document visibility") in
            if (kind =? 0) && is_empty resources then
              let? document := required schema (fields !! 1%nat) (str "public document") in
              let? document := decode_public schema document in
              Ok (ProtectedDocument.Public document)
            else if kind =? 1 then
              let? envelope := decode_encrypted_payload schema (fields !! 1%nat) in
              let? resources := collect (decode_resource schema) resources in
              Ok (ProtectedDocument.Private envelope resources)
            else invalid schema (str "invalid protected-document visibility or resources")
        | _ => invalid schema (str "protected resources must be an array")
        end
  | _ => invalid schema (str "protected document must be an array")
  end.

(** ** Capabilities *)
Definition encode_capability_grant (g : CapabilityGrant.t) : result DataModelError CV :=
  let? not_before := optional_nonnegative_integer (CapabilityGrant.not_before_unix_ms g) in
  let? expires := optional_nonnegative_integer (CapabilityGrant.expires_at_unix_ms g) in
  Ok (Array [Unsigned BODY_CAPABILITY_GRANT;
             Bytes (CapabilityGrant.subject g);
             Array (List.map (fun a => Unsigned (action_code a)) (CapabilityGrant.actions g));
             Array (List.map (fun s => Text (EntitySchema.as_str s)) (CapabilityGrant.schemas g));
             Array (List.map (fun v => Unsigned (visibility_code v)) (CapabilityGrant.visibilities g));
             Array (List.map Text (CapabilityGrant.content_roles g));
             optional_unsigned (CapabilityGrant.max_resource_byte_length g);
             not_before;
             expires;
             Unsigned (CapabilityGrant.delegation_depth g);
             Text (CapabilityGrant.label g)]).

Definition encode_capability_revocation (r : CapabilityRevocation.t) : CV :=
  Array [Unsigned BODY_CAPABILITY_REVOKE;
         Bytes (CapabilityRevocation.grant_id r);
         Unsigned (revocation_reason_code (CapabilityRevocation.reason r));
         optional_text (CapabilityRevocation.detail r)].

Section Bodies.
Context `{Sha256} `{Ed25519} `{!JsonNumber}.

Definition decode_capability_grant (schema : EntitySchema.t) (fields : list CV) :
    result DataModelError OperationBody.t :=
  if negb (length fields =? 11)%nat
  then invalid schema (str "capability grant must contain exactly eleven fields")
  else
    let? subject := fixed_bytes schema 32 (fields !! 1%nat) (str "grant subject") in
    check map_err Trust (public_key subject);
    let? actions := decode_array schema (fields !! 2%nat) (str "grant actions")
      (fun value => decode_action schema (Some value) (str "grant action")) in
    let? schemas := decode_array schema (fields !! 3%nat) (str "grant schemas")
      (fun value => let? s := text schema (Some value) (str "grant schema") in parse_schema s) in
    let? visibilities := decode_array schema (fields !! 4%nat) (str "grant record visibilities")
      (fun value => decode_visibility schema (Some value) (str "grant visibility")) in
    let? content_roles := decode_array schema (fields !! 5%nat) (str "grant content roles")
      (fun value => text schema (Some value) (str "grant content role")) in
    let? max_resource_byte_length :=
      decode_optional_unsigned schema (fields !! 6%nat) (str "grant resource limit") in
    let? not_before := optional_nonnegative_i64 schema (fields !! 7%nat) (str "grant not-before") in
    let? expires := optional_nonnegative_i64 schema (fields !! 8%nat) (str "grant expiration") in
    let? depth := unsigned schema (fields !! 9%nat) (str "grant delegation depth") in
    let? delegation_depth := ok_or (checked_u 8 depth)
      (InvalidCanonicalBody schema (str "grant delegation depth is outside u8")) in
    let? label := text schema (fields !! 10%nat) (str "grant label") in
    Ok (OperationBody.CapabilityGrant
          (CapabilityGrant.mk subject actions schemas visibilities content_roles
             max_resource_byte_length not_before expires delegation_depth label)).

Definition decode_capability_revocation (schema : EntitySchema.t) (fields : list CV) :
    result DataModelError OperationBody.t :=
  if negb (length fields =? 4)%nat
  then invalid schema (str "capability revocation must contain exactly four fields")
  else
    let? grant_id := fixed_bytes schema 32 (fields !! 1%nat) (str "revoked grant ID") in
    let? reason := decode_revocation_reason schema (fields !! 2%nat) in
    let? detail := decode_optional_text schema (fields !! 3%nat) (str "revocation detail") in
    Ok (OperationBody.CapabilityRevoke (CapabilityRevocation.mk grant_id reason detail)).

(** ** Metadata *)
Fixpoint encode_json_value (value : Json) : result DataModelError CV :=
  match value with
  | JNull => Ok Null
  | JBool value => Ok (Bool value)
  | JNumber n =>
      match as_i64 n with
      | Some v => if v <? 0 then Ok (Integer v) else
          match as_u64 n with
          | Some v => Ok (Unsigned v)
          | None =>
              match as_f64 n with
              | Some v => if f64_is_finite v then Ok (Float v) else Err UnsupportedMetadataNumber
              | None => Err UnsupportedMetadataNumber
              end
          end
      | None =>
          match as_u64 n with
          | Some v => Ok (Unsigned v)
          | None =>
              match as_f64 n with
              | Some v => if f64_is_finite v then Ok (Float v) else Err UnsupportedMetadataNumber
              | None => Err UnsupportedMetadataNumber
              end
          end
      end
  | JString value => Ok (Text value)
  | JArray values =>
      let? values := collect encode_json_value values in Ok (Array values)
  | JObject values =>
      let? values := collect (fun entry =>
        let? value := encode_json_value (snd entry) in Ok (Text (fst entry), value)) values in
      Ok (Map values)
  end.

Definition encode_metadata_object (values : list (list Z * Json)) : result DataModelError CV :=
  let? values := collect (fun entry =>
    let? value := encode_json_value (snd entry) in Ok (Text (fst entry), value)) values in
  Ok (Map values).

(** The loop that fills [values]: a key must not have been present. *)
Definition insert_entries {E} (decode : CV -> result E Json) (text_error unique_error : E) :
    list (list Z * Json) -> list (CV * CV) -> result E (list (list Z * Json)) :=
  fix insert_entries values entries :=
    match entries with
    | [] => Ok values
    | (key, value) :: entries =>
        match key with
        | Text key =>
            let? value := decode value in
            let '(present, values) := btree_insert key value values in
            if present then Err unique_error else insert_entries values entries
        | _ => Err text_error
        end
    end.

Fixpoint decode_json_value (schema : EntitySchema.t) (value : CV) : result DataModelError Json :=
  match value with
  | Null => Ok JNull
  | Bool value => Ok (JBool value)
  | Integer value => Ok (JNumber (number_from_i64 value))
  | Unsigned value => Ok (JNumber (number_from_u64 value))
  | Float value =>
      ok_or (option_map JNumber (number_from_f64 value))
        (InvalidCanonicalBody schema (str "metadata contains a non-finite number"))
  | Text value => Ok (JString value)
  | Array values =>
      let? values := collect (decode_json_value schema) values in Ok (JArray values)
  | Map entries =>
      let? values := insert_entries (decode_json_value schema)
        (InvalidCanonicalBody schema (str "metadata map keys must be text"))
        (InvalidCanonicalBody schema (str "metadata map keys must be unique")) [] entries in
      Ok (JObject values)
  | Bytes _ => invalid schema (str "metadata cannot contain byte strings")
  end.

(** Collecting into a [BTreeMap]: the last of equal keys stays. *)
Definition btree_from {V} (entries : list (list Z * V)) : list (list Z * V) :=
  fold_left (fun m entry => snd (btree_insert (fst entry) (snd entry) m)) entries [].

Definition decode_metadata_object (schema : EntitySchema.t) (value : option CV) :
    result DataModelError (list (list Z * Json)) :=
  let? value := required schema value (str "record metadata") in
  match value with
  | Map entries =>
      let? entries := collect (fun entry =>
        match fst entry with
        | Text key => let? value := decode_json_value schema (snd entry) in Ok (key, value)
        | _ => invalid schema (str "record metadata keys must be text")
        end) entries in
      Ok (btree_from entries)
  | _ => invalid schema (str "record metadata must be a map")
  end.

(** ** Documents *)
Definition encode_record_document (d : RecordDocument) : result DataModelError CV :=
  let? start := nonnegative_integer (record_start_at_unix_ms d) in
  let? end_ := optional_nonnegative_integer (record_end_at_unix_ms d) in
  let? metadata := encode_metadata_object (record_metadata d) in
  Ok (Array [start; end_; optional_text (record_emoji d); optional_text (record_text d); metadata;
             Array (List.map encode_resource (record_resources d));
             encode_references (record_references d)]).

Definition decode_record_document (schema : EntitySchema.t) (value : CV) :
    result DataModelError RecordDocument :=
  let? fields := exact_array schema value 7 (str "record document") in
  let? start := nonnegative_i64 schema (fields !! 0%nat) (str "record start") in
  let? end_ := optional_nonnegative_i64 schema (fields !! 1%nat) (str "record end") in
  let? emoji := decode_optional_text schema (fields !! 2%nat) (str "record emoji") in
  let? text := decode_optional_text schema (fields !! 3%nat) (str "record text") in
  let? metadata := decode_metadata_object schema (fields !! 4%nat) in
  let? resources := decode_resources schema (fields !! 5%nat) in
  let? references := decode_references schema (fields !! 6%nat) in
  Ok (mkRecordDocument start end_ emoji text metadata resources references).

Definition encode_tag_document (d : TagDocument) : result DataModelError CV :=
  let? metadata := encode_metadata_object (tag_metadata d) in
  Ok (Array [Text (tag_name d); optional_text (tag_emoji d); optional_text (tag_notes d);
             optional_text (tag_color_hex d); metadata; encode_references (tag_references d)]).

Definition decode_tag_document (schema : EntitySchema.t) (value : CV) :
    result DataModelError TagDocument :=
  let? fields := exact_array schema value 6 (str "tag document") in
  let? name := text schema (fields !! 0%nat) (str "tag name") in
  let? emoji := decode_optional_text schema (fields !! 1%nat) (str "tag emoji") in
  let? notes := decode_optional_text schema (fields !! 2%nat) (str "tag notes") in
  let? color_hex := decode_optional_text schema (fields !! 3%nat) (str "tag color") in
  let? metadata := decode_metadata_object schema (fields !! 4%nat) in
  let? references := decode_references schema (fields !! 5%nat) in
  Ok (mkTagDocument name emoji notes color_hex metadata references).

Definition encode_event_document (d : EventDocument) : result DataModelError CV :=
  let? start := nonnegative_integer (event_start_at_unix_ms d) in
  let? end_ := optional_nonnegative_integer (event_end_at_unix_ms d) in
  let? metadata := encode_metadata_object (event_metadata d) in
  Ok (Array [start; end_; Text (event_label d); signed_integer (event_type_number d); metadata;
             encode_references (event_references d)]).

Definition decode_event_document (schema : EntitySchema.t) (value : CV) :
    result DataModelError EventDocument :=
  let? fields := exact_array schema value 6 (str "event document") in
  let? start := nonnegative_i64 schema (fields !! 0%nat) (str "event start") in
  let? end_ := optional_nonnegative_i64 schema (fields !! 1%nat) (str "event end") in
  let? label := text schema (fields !! 2%nat) (str "event label") in
  let? type_number := decode_signed_integer schema (fields !! 3%nat) (str "event type") in
  let? metadata := decode_metadata_object schema (fields !! 4%nat) in
  let? references := decode_references schema (fields !! 5%nat) in
  Ok (mkEventDocument start end_ label type_number metadata references).

Definition encode_profile_document (d : ProfileDocument) : result DataModelError CV :=
  let? metadata := encode_metadata_object (profile_metadata d) in
  Ok (Array [Text (profile_handle d); Text (profile_display_name d);
             Unsigned (profile_saros_anchor d);
             match profile_avatar d with Some r => encode_resource r | None => Null end;
             metadata]).

Definition decode_profile_document (schema : EntitySchema.t) (value : option CV) :
    result DataModelError ProfileDocument :=
  let? value := required schema value (str "profile document") in
  let? fields := exact_array schema value 5 (str "profile document") in
  let? avatar := required schema (fields !! 3%nat) (str "profile avatar") in
  let? avatar :=
    (match avatar with
     | Null => Ok None
     | value => let? r := decode_resource schema value in Ok (Some r)
     end) in
  let? handle := text schema (fields !! 0%nat) (str "profile handle") in
  let? display_name := text schema (fields !! 1%nat) (str "profile display name") in
  let? anchor := unsigned schema (fields !! 2%nat) (str "profile Saros anchor") in
  let? saros_anchor := ok_or (checked_u 16 anchor)
    (InvalidCanonicalBody schema (str "profile Saros anchor exceeds u16")) in
  let? metadata := decode_metadata_object schema (fields !! 4%nat) in
  Ok (mkProfileDocument handle display_name saros_anchor avatar metadata).

(** ** Bodies *)
Definition encode_body (schema : EntitySchema.t) (body : OperationBody.t) :
    result DataModelError CV :=
  match schema, body with
  | (EntitySchema.Record_ | EntitySchema.Tag | EntitySchema.Event | EntitySchema.Profile),
    OperationBody.Tombstone => Ok (Array [Unsigned BODY_TOMBSTONE])
  | EntitySchema.Record_, OperationBody.PutRecord payload =>
      let? payload := encode_protected payload encode_record_document in
      Ok (Array [Unsigned BODY_RECORD_PUT; payload])
  | EntitySchema.Tag, OperationBody.PutTag payload =>
      let? payload := encode_protected payload encode_tag_document in
      Ok (Array [Unsigned BODY_TAG_PUT; payload])
  | EntitySchema.Event, OperationBody.PutEvent payload =>
      let? payload := encode_protected payload encode_event_document in
      Ok (Array [Unsigned BODY_EVENT_PUT; payload])
  | EntitySchema.Profile, OperationBody.PutProfile document =>
      let? document := encode_profile_document document in
      Ok (Array [Unsigned BODY_PROFILE_PUT; document])
  | EntitySchema.SpaceGenesis, OperationBody.SpaceGenesis controller =>
      Ok (Array [Unsigned BODY_SPACE_GENESIS; Bytes controller])
  | EntitySchema.CapabilityGrant, OperationBody.CapabilityGrant grant =>
      encode_capability_grant grant
  | EntitySchema.CapabilityRevoke, OperationBody.CapabilityRevoke revocation =>
      Ok (encode_capability_revocation revocation)
  | _, _ => Err (SchemaBodyMismatch schema)
  end.

Definition decode_body (schema : EntitySchema.t) (value : CV) :
    result DataModelError OperationBody.t :=
  let? fields := body_array schema value in
  let? kind := unsigned schema (fields !! 0%nat) (str "body kind") in
  let count := length fields in
  if is_client_schema schema && (kind =? BODY_TOMBSTONE) && (count =? 1)%nat
  then Ok OperationBody.Tombstone
  else match schema with
  | EntitySchema.Record_ =>
      if (kind =? BODY_RECORD_PUT) && (count =? 2)%nat then
        let? payload := decode_protected schema (fields !! 1%nat) decode_record_document in
        Ok (OperationBody.PutRecord payload)
      else invalid schema (str "body kind does not match schema")
  | EntitySchema.Tag =>
      if (kind =? BODY_TAG_PUT) && (count =? 2)%nat then
        let? payload := decode_protected schema (fields !! 1%nat) decode_tag_document in
        Ok (OperationBody.PutTag payload)
      else invalid schema (str "body kind does not match schema")
  | EntitySchema.Event =>
      if (kind =? BODY_EVENT_PUT) && (count =? 2)%nat then
        let? payload := decode_protected schema (fields !! 1%nat) decode_event_document in
        Ok (OperationBody.PutEvent payload)
      else invalid schema (str "body kind does not match schema")
  | EntitySchema.Profile =>
      if (kind =? BODY_PROFILE_PUT) && (count =? 2)%nat then
        let? document := decode_profile_document schema (fields !! 1%nat) in
        Ok (OperationBody.PutProfile document)
      else invalid schema (str "body kind does not match schema")
  | EntitySchema.SpaceGenesis =>
      if (kind =? BODY_SPACE_GENESIS) && (count =? 2)%nat then
        let? controller := fixed_bytes schema 32 (fields !! 1%nat) (str "genesis controller") in
        check map_err Trust (public_key controller);
        Ok (OperationBody.SpaceGenesis controller)
      else invalid schema (str "body kind does not match schema")
  | EntitySchema.CapabilityGrant =>
      if kind =? BODY_CAPABILITY_GRANT then decode_capability_grant schema fields
      else invalid schema (str "body kind does not match schema")
  | EntitySchema.CapabilityRevoke =>
      if kind =? BODY_CAPABILITY_REVOKE then decode_capability_revocation schema fields
      else invalid schema (str "body kind does not match schema")
  end.
End Bodies.
