(* ===== verification/BodyTheory.v ===== *)
(** * Operation bodies: the theorems about [CanonicalBody]

    Ordered-map lemmas, the metadata round trip and the round trip of every body
    through its canonical value. *)
From S2P Require Import Prelude Bytes Floats Crypto Content Cbor CborTheory.
From S2P Require Import CborDecode CborProps Trust TrustTheory DataModel CanonicalBody.

(** ** [BTreeMap] as a sorted list of entries *)
Section Btree.
Context {V : Type}.
Implicit Types m entries : list (list Z * V).

Lemma btree_insert_HdRel k v m a :
  Sorted.HdRel bytes_lt a (List.map fst m) -> bytes_lt a k ->
  Sorted.HdRel bytes_lt a (List.map fst (snd (btree_insert k v m))).
Proof.
  intros Hm Ha. destruct m as [|[k' v'] m]; cbn; [by constructor|].
  inversion Hm; subst. destruct (bytes_cmp k k'); cbn; try by constructor.
  destruct (btree_insert k v m); cbn. by constructor.
Qed.

Lemma btree_insert_btree k v m : btree m -> btree (snd (btree_insert k v m)).
Proof.
  unfold btree. induction m as [|[k' v'] m IH]; cbn; [by repeat constructor|].
  intros Hs. inversion Hs as [|? ? Hs' Hh]; subst. destruct (bytes_cmp k k') eqn:E; cbn.
  - apply bytes_cmp_eq in E as ->. by constructor.
  - constructor; [done|]. by constructor.
  - pose proof (btree_insert_HdRel k v m k' Hh) as Hd. specialize (IH Hs').
    destruct (btree_insert k v m) as [b r]. cbn in *. constructor; [done|]. apply Hd.
    unfold bytes_lt. rewrite (bytes_cmp_antisym k k'), E. done.
Qed.

(** Inserting a key that is not present adds its entry. *)
Lemma btree_insert_new k v m :
  k ∉ List.map fst m ->
  fst (btree_insert k v m) = false /\ Permutation (snd (btree_insert k v m)) ((k, v) :: m).
Proof.
  induction m as [|[k' v'] m IH]; cbn; [done|]. intros [Hk Hm]%not_elem_of_cons.
  destruct (bytes_cmp k k') eqn:E; [by apply bytes_cmp_eq in E|done|].
  destruct (IH Hm) as [Hf Hp]. destruct (btree_insert k v m) as [b r]. cbn in *.
  split; [done|]. rewrite Hp. apply perm_swap.
Qed.

Lemma btree_NoDup m : btree m -> NoDup (List.map fst m).
Proof.
  unfold btree. intros Hs. apply Sorted.Sorted_StronglySorted in Hs;
    [|intros a b c; apply bytes_lt_trans].
  induction Hs as [|k l _ IH Hf]; constructor; [|done].
  intros Hin. rewrite Forall_forall in Hf. apply (bytes_lt_irrefl k), Hf, Hin.
Qed.

(** Two maps with the same entries are the same list. *)
Lemma btree_unique m m' : btree m -> btree m' -> Permutation m m' -> m = m'.
Proof.
  unfold btree. revert m'. induction m as [|[k v] m IH]; intros [|[k' v'] m'] Hs Hs' Hp.
  - done.
  - by apply Permutation_nil in Hp.
  - by apply Permutation_sym, Permutation_nil in Hp.
  - cbn in Hs, Hs'. apply Sorted.Sorted_StronglySorted in Hs as Hss; [|intros a b c; apply bytes_lt_trans].
    apply Sorted.Sorted_StronglySorted in Hs' as Hss'; [|intros a b c; apply bytes_lt_trans].
    inversion Hss as [|? ? _ Hf]; inversion Hss' as [|? ? _ Hf']; subst.
    rewrite Forall_forall in Hf. rewrite Forall_forall in Hf'.
    assert (E : (k, v) = (k', v')).
    { assert (H1 : (k, v) ∈ (k', v') :: m') by (rewrite <- Hp; left).
      assert (H2 : (k', v') ∈ (k, v) :: m) by (rewrite Hp; left).
      apply elem_of_cons in H1 as [?|H1]; [done|]. apply elem_of_cons in H2 as [?|H2]; [done|].
      exfalso. apply (bytes_lt_irrefl k). apply (bytes_lt_trans _ k').
      - apply Hf, list_elem_of_In, (in_map fst _ (k', v')), list_elem_of_In, H2.
      - apply Hf', list_elem_of_In, (in_map fst _ (k, v)), list_elem_of_In, H1. }
    injection E as -> ->. f_equal. apply IH; [by inversion Hs|by inversion Hs'|].
    by apply Permutation_cons_inv in Hp.
Qed.

(** The map the loop [for (k, v) in entries { m.insert(k, v); }] ends with. *)
Lemma fold_insert_spec entries : forall acc,
  btree acc -> NoDup (List.map fst (acc ++ entries)) ->
  btree (fold_left (fun m e => snd (btree_insert (fst e) (snd e) m)) entries acc)
  /\ Permutation (fold_left (fun m e => snd (btree_insert (fst e) (snd e) m)) entries acc)
       (acc ++ entries).
Proof.
  induction entries as [|[k v] entries IH]; intros acc Ha Hn; cbn.
  - by rewrite app_nil_r.
  - assert (Hk : k ∉ List.map fst acc).
    { rewrite List.map_app in Hn. apply NoDup_app in Hn as (_ & Hd & _). cbn in Hd.
      intros Hin. apply (Hd k Hin). left. }
    destruct (btree_insert_new k v acc Hk) as [_ Hp].
    assert (Hpp : Permutation (snd (btree_insert k v acc) ++ entries) (acc ++ (k, v) :: entries)).
    { rewrite Hp. cbn. apply Permutation_middle. }
    destruct (IH (snd (btree_insert k v acc))) as [Hb Hq].
    + by apply btree_insert_btree.
    + rewrite Hpp. done.
    + split; [done|]. by rewrite Hq.
Qed.

(** Collecting the entries of a map in any order gives the map back. *)
Lemma btree_from_perm m entries : btree m -> Permutation entries m -> btree_from entries = m.
Proof.
  intros Hm Hp. unfold btree_from.
  destruct (fold_insert_spec entries []) as [Hb Hq]; [constructor| |].
  - cbn. rewrite Hp. by apply btree_NoDup.
  - apply btree_unique; [done|done|]. by rewrite Hq.
Qed.
End Btree.

(** The loop of [decode_json_value] on a map is the fold, when keys are distinct. *)
Lemma insert_entries_fold `{JsonNumber} {E} (decode : CV -> result E Json) e1 e2 entries values :
  forall acc,
  NoDup (List.map fst (acc ++ values)) ->
  Forall2 (fun kv jv => fst kv = Text (fst jv) /\ decode (snd kv) = Ok (snd jv)) entries values ->
  insert_entries decode e1 e2 acc entries
  = Ok (fold_left (fun m e => snd (btree_insert (fst e) (snd e) m)) values acc).
Proof.
  intros acc Hn Hf. revert acc Hn.
  induction Hf as [|[k v] [k' j] entries values [Hk Hv] Hf IH]; intros acc Hn; [done|].
  cbn in Hk, Hv |- *. subst k. rewrite Hv.
  assert (Hk : k' ∉ List.map fst acc).
  { rewrite List.map_app in Hn. apply NoDup_app in Hn as (_ & Hd & _). cbn in Hd.
    intros Hin. apply (Hd k' Hin). left. }
  destruct (btree_insert_new k' j acc Hk) as [Hb Hp].
  destruct (btree_insert k' j acc) as [b m]. cbn in *. subst b. apply IH.
  rewrite Hp. cbn. rewrite List.map_app in *. cbn in Hn. rewrite <- Permutation_middle in Hn. done.
Qed.

(** ** Metadata *)
Definition utf8 (s : list Z) : Prop := Forall is_byte s /\ valid_utf8 s = true.
(** Decides [utf8] of a closed text. *)
Lemma text_typed (t : list Z) : bool_decide (Forall is_byte t) && valid_utf8 t = true -> utf8 t.
Proof. intros Ht. bool_prop. done. Qed.

Section Metadata.
Context `{HalfFloat} `{!JsonNumber}.

(** Induction through arrays and objects. *)
Section Induction.
Variable P : Json -> Prop.
Hypothesis Hnull : P JNull.
Hypothesis Hbool : forall b, P (JBool b).
Hypothesis Hnumber : forall n, P (JNumber n).
Hypothesis Hstring : forall s, P (JString s).
Hypothesis Harray : forall vs, (forall v, v ∈ vs -> P v) -> P (JArray vs).
Hypothesis Hobject : forall vs, (forall kv, kv ∈ vs -> P (snd kv)) -> P (JObject vs).

Lemma Json_nested_ind : forall v, P v.
Proof.
  fix IH 1. intros [| b|n|s|vs|vs].
  - exact Hnull.
  - apply Hbool.
  - apply Hnumber.
  - apply Hstring.
  - apply Harray. induction vs as [|v vs IHvs].
    + clear IH. intros v Hv. by apply not_elem_of_nil in Hv.
    + intros x [->|Hx]%elem_of_cons; [exact (IH v)|exact (IHvs x Hx)].
  - apply Hobject. induction vs as [|[k v] vs IHvs].
    + clear IH. intros v Hv. by apply not_elem_of_nil in Hv.
    + intros x [->|Hx]%elem_of_cons; [exact (IH v)|exact (IHvs x Hx)].
Qed.
End Induction.

(** What the Rust types guarantee of a [serde_json::Value]. *)
Fixpoint json_typed (j : Json) : Prop :=
  match j with
  | JString s => utf8 s
  | JArray vs => (fix all l := match l with [] => True | v :: l => json_typed v /\ all l end) vs
  | JObject vs =>
      btree vs
      /\ (fix all l := match l with
                       | [] => True
                       | (k, v) :: l => utf8 k /\ json_typed v /\ all l
                       end) vs
  | _ => True
  end.

Lemma json_typed_JArray vs : json_typed (JArray vs) <-> forall v, v ∈ vs -> json_typed v.
Proof.
  cbn. induction vs as [|v vs IH].
  - split; [|done]. intros _ v Hv. by apply not_elem_of_nil in Hv.
  - rewrite IH. split.
    + intros [Hv Hvs] x [->|Hx]%elem_of_cons; auto.
    + intros Hx. split; [apply Hx; left|intros x Hin; apply Hx; by right].
Qed.

(** A well-formed metadata object. *)
Definition metadata_typed (m : list (list Z * Json)) : Prop :=
  btree m /\ forall kv, kv ∈ m -> utf8 (fst kv) /\ json_typed (snd kv).

Lemma json_typed_JObject vs : json_typed (JObject vs) <-> metadata_typed vs.
Proof.
  unfold metadata_typed. cbn. apply and_iff_compat_l. induction vs as [|[k v] vs IH].
  - split; [|done]. intros _ v Hv. by apply not_elem_of_nil in Hv.
  - rewrite IH. split.
    + intros (Hk & Hv & Hvs) x [->|Hx]%elem_of_cons; auto.
    + intros Hx. split; [apply (Hx (k, v)); left|]. split; [apply (Hx (k, v)); left|].
      intros x Hin; apply Hx; by right.
Qed.

(** A map's normal form has the normalised entries, in some order. *)
Lemma normalize_Map_perm vs :
  exists vs', normalize (Map vs) = Map vs' /\ Permutation vs' (List.map normalize2 vs).
Proof.
  rewrite normalize_Map. eexists. split; [done|].
  rewrite <- (List.map_map snd normalize2). apply Permutation_map.
  unfold sorted_entries. rewrite sort_entries_perm, List.map_map. cbn. by rewrite List.map_id.
Qed.

(** How an entry is encoded. *)
Definition encodes_entry (jv : list Z * Json) (kv : CV * CV) : Prop :=
  fst kv = Text (fst jv) /\ encode_json_value (snd jv) = Ok (snd kv).

Lemma encode_entries_Ok (vs : list (list Z * Json)) kvs :
  collect (fun entry => let? value := encode_json_value (snd entry) in
                        Ok (Text (fst entry), value)) vs = Ok kvs
  <-> Forall2 encodes_entry vs kvs.
Proof.
  rewrite collect_Ok.
  split; intros Hf; (eapply Forall2_impl; [exact Hf|]); intros [k j] [k' v]; unfold encodes_entry; cbn.
  - intros Hx. destruct (encode_json_value j) as [c|]; [|done]. by injection Hx as <- <-.
  - by intros [-> ->].
Qed.

(** Decoding the normalised entries of a map, whatever their order. *)
Lemma decode_entries_perm s (vs : list (list Z * Json)) kvs kvs' :
  Forall2 encodes_entry vs kvs ->
  (forall jv v, jv ∈ vs -> encode_json_value (snd jv) = Ok v ->
     decode_json_value s (normalize v) = Ok (snd jv)) ->
  Permutation kvs' (List.map normalize2 kvs) ->
  exists vs', Permutation vs' vs
    /\ Forall2 (fun kv jv => fst kv = Text (fst jv) /\ decode_json_value s (snd kv) = Ok (snd jv))
         kvs' vs'.
Proof.
  intros He Hd Hp.
  assert (Hf : Forall2 (fun kv jv => fst kv = Text (fst jv)
      /\ decode_json_value s (snd kv) = Ok (snd jv)) (List.map normalize2 kvs) vs).
  { clear Hp. induction He as [|jv kv vs kvs [Hk Hv] _ IH]; constructor.
    - unfold normalize2. cbn. rewrite Hk. split; [done|]. apply Hd; [left|done].
    - apply IH. intros jv' v Hin. apply Hd. by right. }
  symmetry in Hp.
  destruct (Permutation_Forall2 Hp Hf) as (vs' & Hp' & Hf'). eauto using Permutation_sym.
Qed.

(** Metadata values survive encoding, normalisation and decoding. *)
Lemma json_roundtrip s j : forall v,
  json_typed j -> encode_json_value j = Ok v -> decode_json_value s (normalize v) = Ok j.
Proof.
  induction j as [| b|n|t|vs IH|vs IH] using Json_nested_ind; intros v Ht He.
  - by injection He as <-.
  - by injection He as <-.
  - cbn [encode_json_value] in He.
    assert (Hrest : (match as_u64 n with
      | Some v => Ok (Unsigned v)
      | None => match as_f64 n with
                | Some v => if f64_is_finite v then Ok (Float v) else Err UnsupportedMetadataNumber
                | None => Err UnsupportedMetadataNumber
                end
      end) = Ok v -> (forall i, as_i64 n = Some i -> 0 <= i) ->
      decode_json_value s (normalize v) = Ok (JNumber n)).
    { clear He. intros He Hi. destruct (as_u64 n) as [u|] eqn:Eu.
      - injection He as <-. cbn. by rewrite <- (as_u64_inv n u).
      - destruct (as_f64 n) as [f|] eqn:Ef; [|done]. inv_ok. cbn.
        by rewrite (as_f64_inv n f). }
    destruct (as_i64 n) as [i|] eqn:Ei; [|by apply Hrest].
    destruct (Z.ltb_spec i 0) as [Hn|Hn]; [|apply Hrest; [done|by intros ? [= <-]]].
    injection He as <-. cbn. rewrite (proj2 (Z.leb_gt 0 i)) by done. cbn.
    by rewrite <- (as_i64_inv n i).
  - by injection He as <-.
  - cbn [encode_json_value] in He. inv_ok. apply collect_Ok in E.
    pose proof (proj1 (json_typed_JArray vs) Ht) as Hts. cbn [normalize decode_json_value].
    assert (collect (decode_json_value s) (List.map normalize a) = Ok vs) as ->; [|done].
    apply collect_Ok. clear Ht. induction E as [|j v vs vals Hj _ IHf]; constructor.
    + apply IH; [left|apply Hts; left|done].
    + apply IHf; intros; [apply IH|apply Hts]; try done; by right.
  - cbn [encode_json_value] in He. inv_ok. apply encode_entries_Ok in E.
    apply json_typed_JObject in Ht as [Hb Hts].
    destruct (normalize_Map_perm a) as (kvs' & -> & Hp). cbn [decode_json_value].
    destruct (decode_entries_perm s vs a kvs' E) with (2 := Hp) as (vs' & Hp' & Hf).
    { intros jv v Hin. apply IH; [done|]. by apply Hts. }
    rewrite (insert_entries_fold _ _ _ kvs' vs' []) by (try exact Hf; cbn; rewrite Hp';
      by apply btree_NoDup).
    change (fold_left _ vs' []) with (btree_from vs'). by rewrite (btree_from_perm vs).
Qed.

Lemma metadata_roundtrip s m v :
  metadata_typed m -> encode_metadata_object m = Ok v ->
  decode_metadata_object s (Some (normalize v)) = Ok m.
Proof.
  intros [Hb Ht] He. unfold encode_metadata_object in He. inv_ok. apply encode_entries_Ok in E.
  destruct (normalize_Map_perm a) as (kvs' & -> & Hp).
  destruct (decode_entries_perm s m a kvs' E) with (2 := Hp) as (vs' & Hp' & Hf).
  { intros jv v Hin. apply json_roundtrip. by apply Ht. }
  unfold decode_metadata_object. cbn [required ok_or].
  rewrite (proj2 (collect_Ok _ kvs' vs')); [by rewrite (btree_from_perm m)|].
  eapply Forall2_impl; [exact Hf|]. intros [k c] [k' j]. cbn. by intros [-> ->].
Qed.
End Metadata.

(** ** What the Rust types guarantee of documents and bodies *)
Definition opt {A} (P : A -> Prop) (o : option A) : Prop :=
  match o with Some a => P a | None => True end.

Definition reference_typed (r : EntityReference.t) : Prop :=
  utf8 (EntityReference.relation r)
  /\ match EntityReference.target r with
     | ReferenceTarget.Actor a => fixed 32 a
     | ReferenceTarget.Entity s e o => fixed 32 s /\ fixed 16 e /\ opt (fixed 32) o
     end.

Definition resource_typed (r : ResourceRef.t) : Prop :=
  fixed 32 (ResourceRef.content_id r) /\ in_u 64 (ResourceRef.byte_length r)
  /\ utf8 (ResourceRef.media_type r) /\ utf8 (ResourceRef.role r)
  /\ opt utf8 (ResourceRef.original_name r).

Definition encrypted_typed (p : EncryptedPayload.t) : Prop :=
  utf8 (EncryptedPayload.key_id p) /\ utf8 (EncryptedPayload.nonce_base64url p)
  /\ utf8 (EncryptedPayload.ciphertext_base64url p).

Definition protected_typed {T} (document_typed : T -> Prop) (p : ProtectedDocument.t T) : Prop :=
  match p with
  | ProtectedDocument.Public d => document_typed d
  | ProtectedDocument.Private e rs => encrypted_typed e /\ Forall resource_typed rs
  end.

Definition grant_typed (g : CapabilityGrant.t) : Prop :=
  fixed 32 (CapabilityGrant.subject g) /\ Forall utf8 (CapabilityGrant.content_roles g)
  /\ opt (in_u 64) (CapabilityGrant.max_resource_byte_length g)
  /\ opt (in_i 64) (CapabilityGrant.not_before_unix_ms g)
  /\ opt (in_i 64) (CapabilityGrant.expires_at_unix_ms g)
  /\ in_u 8 (CapabilityGrant.delegation_depth g) /\ utf8 (CapabilityGrant.label g).

Definition revocation_typed (r : CapabilityRevocation.t) : Prop :=
  fixed 32 (CapabilityRevocation.grant_id r) /\ opt utf8 (CapabilityRevocation.detail r).

Section Typed.
Context `{!JsonNumber}.

Definition record_typed (d : RecordDocument) : Prop :=
  in_i 64 (record_start_at_unix_ms d) /\ opt (in_i 64) (record_end_at_unix_ms d)
  /\ opt utf8 (record_emoji d) /\ opt utf8 (record_text d)
  /\ metadata_typed (record_metadata d) /\ Forall resource_typed (record_resources d)
  /\ Forall reference_typed (record_references d).

Definition tag_typed (d : TagDocument) : Prop :=
  utf8 (tag_name d) /\ opt utf8 (tag_emoji d) /\ opt utf8 (tag_notes d)
  /\ opt utf8 (tag_color_hex d) /\ metadata_typed (tag_metadata d)
  /\ Forall reference_typed (tag_references d).

Definition event_typed (d : EventDocument) : Prop :=
  in_i 64 (event_start_at_unix_ms d) /\ opt (in_i 64) (event_end_at_unix_ms d)
  /\ utf8 (event_label d) /\ in_i 64 (event_type_number d)
  /\ metadata_typed (event_metadata d) /\ Forall reference_typed (event_references d).

Definition profile_typed (d : ProfileDocument) : Prop :=
  utf8 (profile_handle d) /\ utf8 (profile_display_name d) /\ in_u 16 (profile_saros_anchor d)
  /\ opt resource_typed (profile_avatar d) /\ metadata_typed (profile_metadata d).

Definition body_typed (b : OperationBody.t) : Prop :=
  match b with
  | OperationBody.PutRecord p => protected_typed record_typed p
  | OperationBody.PutTag p => protected_typed tag_typed p
  | OperationBody.PutEvent p => protected_typed event_typed p
  | OperationBody.PutProfile d => profile_typed d
  | OperationBody.Tombstone => True
  | OperationBody.SpaceGenesis c => fixed 32 c
  | OperationBody.CapabilityGrant g => grant_typed g
  | OperationBody.CapabilityRevoke r => revocation_typed r
  end.
End Typed.

(** ** Field by field *)
Section Fields.
Context `{HalfFloat} (s : EntitySchema.t).

Lemma optional_text_roundtrip o d : decode_optional_text s (Some (normalize (optional_text o))) d = Ok o.
Proof. by destruct o. Qed.

Lemma optional_unsigned_roundtrip o d :
  decode_optional_unsigned s (Some (normalize (optional_unsigned o))) d = Ok o.
Proof. by destruct o. Qed.

Lemma checked_in v : in_i 64 v -> checked_i64 v = Some v.
Proof. intros Hv. by apply checked_i64_Some. Qed.

Lemma nonnegative_roundtrip v c d :
  nonnegative_integer v = Ok c -> in_i 64 v -> nonnegative_i64 s (Some (normalize c)) d = Ok v.
Proof.
  intros He Hv. unfold nonnegative_integer in He. inv_ok.
  unfold nonnegative_i64. cbn. by rewrite (checked_in v Hv).
Qed.

Lemma optional_nonnegative_roundtrip o c d :
  optional_nonnegative_integer o = Ok c -> opt (in_i 64) o ->
  optional_nonnegative_i64 s (Some (normalize c)) d = Ok o.
Proof.
  destruct o as [v|]; cbn; [|by intros [= <-]].
  intros He Hv. unfold nonnegative_integer in He. inv_ok. cbn. by rewrite (checked_in v Hv).
Qed.

Lemma signed_roundtrip v d :
  in_i 64 v -> decode_signed_integer s (Some (normalize (signed_integer v))) d = Ok v.
Proof.
  intros Hv. unfold signed_integer. destruct (Z.ltb_spec v 0) as [Hn|Hn]; cbn.
  - by rewrite (proj2 (Z.leb_gt 0 v)).
  - by rewrite (checked_in v Hv).
Qed.

Lemma fixed_bytes_roundtrip n b d : fixed n b -> fixed_bytes s n (Some (Bytes b)) d = Ok b.
Proof. intros [Hl _]. cbn. by rewrite Hl, Nat.eqb_refl. Qed.

Lemma resource_roundtrip r :
  resource_typed r -> decode_resource s (normalize (encode_resource r)) = Ok r.
Proof.
  intros (Hc & _). destruct r as [c l m ro o]. cbn [encode_resource normalize List.map decode_resource].
  change (negb (length _ =? 5)%nat) with false. cbn [lookup list_lookup].
  cbn in Hc. rewrite (fixed_bytes_roundtrip 32 c _ Hc). cbn [unsigned text required ok_or].
  by rewrite optional_text_roundtrip.
Qed.

Lemma resources_roundtrip rs :
  Forall resource_typed rs ->
  collect (decode_resource s) (List.map normalize (List.map encode_resource rs)) = Ok rs.
Proof.
  intros Hr. rewrite List.map_map. rewrite <- (List.map_id rs) at 2.
  apply (collect_map_ok (fun r => normalize (encode_resource r))).
  intros r Hin. apply resource_roundtrip. rewrite Forall_forall in Hr. by apply Hr.
Qed.

Lemma decode_resources_roundtrip rs :
  Forall resource_typed rs ->
  decode_resources s (Some (Array (List.map normalize (List.map encode_resource rs)))) = Ok rs.
Proof. apply resources_roundtrip. Qed.

Lemma reference_roundtrip r :
  reference_typed r -> decode_reference s (normalize (encode_reference r)) = Ok r.
Proof.
  intros [_ Ht]. destruct r as [rel [a|sp e o]]; cbn in Ht; unfold decode_reference; cbn.
  - destruct Ht as [Hl _]. by rewrite Hl.
  - destruct Ht as ([Hs _] & [He _] & Ho). destruct o as [o|]; cbn.
    + destruct Ho as [Ho _]. by rewrite Ho, Hs, He.
    + by rewrite Hs, He.
Qed.

Lemma references_roundtrip rs :
  Forall reference_typed rs -> decode_references s (Some (normalize (encode_references rs))) = Ok rs.
Proof.
  intros Hr. cbn. rewrite List.map_map. rewrite <- (List.map_id rs) at 2.
  apply (collect_map_ok (fun r => normalize (encode_reference r))).
  intros r Hin. apply reference_roundtrip. rewrite Forall_forall in Hr. by apply Hr.
Qed.

Lemma encrypted_roundtrip p :
  decode_encrypted_payload s (Some (normalize (encode_encrypted_payload p))) = Ok p.
Proof. by destruct p. Qed.

Lemma protected_roundtrip {T} (typed : T -> Prop) encode decode (p : ProtectedDocument.t T) v :
  (forall d c, typed d -> encode d = Ok c -> decode s (normalize c) = Ok d) ->
  protected_typed typed p -> encode_protected p encode = Ok v ->
  decode_protected s (Some (normalize v)) decode = Ok p.
Proof.
  intros Hd Hp He. destruct p as [d|e rs]; cbn in Hp, He.
  - inv_ok. cbn. by rewrite (Hd d a).
  - injection He as <-. destruct Hp as [_ Hr]. cbn [normalize List.map].
    unfold decode_protected. cbn [required ok_or length Nat.eqb negb lookup list_lookup unsigned Z.eqb andb].
    rewrite encrypted_roundtrip. by rewrite resources_roundtrip.
Qed.

Lemma decode_array_map {A} (g : A -> CV) (f : CV -> result DataModelError A) l d :
  (forall a, a ∈ l -> f (normalize (g a)) = Ok a) ->
  decode_array s (Some (Array (List.map normalize (List.map g l)))) d f = Ok l.
Proof.
  intros Hf. cbn. rewrite List.map_map. rewrite <- (List.map_id l) at 2.
  by apply (collect_map_ok (fun a => normalize (g a))).
Qed.
End Fields.

Lemma parse_as_str x : parse_schema (EntitySchema.as_str x) = Ok x.
Proof. by destruct x. Qed.

(** Rewrites with the round trip of each field. *)
Ltac roundtrip_fields :=
  cbn [normalize List.map]; unfold exact_array;
  cbn [length List.length Nat.eqb negb lookup list_lookup unsigned text required ok_or];
  repeat first
    [ rewrite optional_text_roundtrip
    | rewrite optional_unsigned_roundtrip
    | erewrite nonnegative_roundtrip by eassumption
    | erewrite optional_nonnegative_roundtrip by eassumption
    | rewrite signed_roundtrip by assumption
    | rewrite references_roundtrip by assumption
    | rewrite decode_resources_roundtrip by assumption
    | rewrite fixed_bytes_roundtrip by assumption
    | erewrite metadata_roundtrip by eassumption ];
  try reflexivity.

(** Field codecs are rewritten with their lemmas, never unfolded. *)
#[local] Arguments decode_optional_text : simpl never.
#[local] Arguments decode_optional_unsigned : simpl never.
#[local] Arguments optional_nonnegative_i64 : simpl never.
#[local] Arguments nonnegative_i64 : simpl never.
#[local] Arguments decode_signed_integer : simpl never.
#[local] Arguments decode_references : simpl never.
#[local] Arguments decode_resources : simpl never.
#[local] Arguments decode_resource : simpl never.
#[local] Arguments decode_metadata_object : simpl never.
#[local] Arguments encode_references : simpl never.
#[local] Arguments encode_resource : simpl never.
#[local] Arguments encode_metadata_object : simpl never.
#[local] Arguments decode_array : simpl never.
#[local] Arguments fixed_bytes : simpl never.
#[local] Arguments nonnegative_integer : simpl never.
#[local] Arguments optional_nonnegative_integer : simpl never.
#[local] Arguments signed_integer : simpl never.
#[local] Arguments optional_text : simpl never.
#[local] Arguments optional_unsigned : simpl never.
#[local] Arguments decode_action : simpl never.
#[local] Arguments decode_visibility : simpl never.
#[local] Arguments decode_protected : simpl never.

Section Documents.
Context `{HalfFloat} `{!JsonNumber}.

Lemma record_roundtrip s d v :
  record_typed d -> encode_record_document d = Ok v ->
  decode_record_document s (normalize v) = Ok d.
Proof.
  intros (? & ? & ? & ? & ? & ? & ?) He. unfold encode_record_document in He. inv_ok.
  unfold decode_record_document. destruct d. cbn in *. roundtrip_fields.
Qed.

Lemma tag_roundtrip s d v :
  tag_typed d -> encode_tag_document d = Ok v -> decode_tag_document s (normalize v) = Ok d.
Proof.
  intros (? & ? & ? & ? & ? & ?) He. unfold encode_tag_document in He. inv_ok.
  unfold decode_tag_document. destruct d. cbn in *. roundtrip_fields.
Qed.

Lemma event_roundtrip s d v :
  event_typed d -> encode_event_document d = Ok v -> decode_event_document s (normalize v) = Ok d.
Proof.
  intros (? & ? & ? & ? & ? & ?) He. unfold encode_event_document in He. inv_ok.
  unfold decode_event_document. destruct d. cbn in *. roundtrip_fields.
Qed.

Lemma profile_roundtrip s d v :
  profile_typed d -> encode_profile_document d = Ok v ->
  decode_profile_document s (Some (normalize v)) = Ok d.
Proof.
  intros (? & ? & Ha & Hr & ?) He. unfold encode_profile_document in He. inv_ok.
  unfold decode_profile_document. destruct d as [h dn sa av md]. cbn in *.
  rewrite (proj2 (checked_u_Some 16 sa sa)) by done.
  destruct av as [r|]; cbn [opt] in Hr; cbn [normalize].
  - rewrite (resource_roundtrip s r Hr). unfold encode_resource. cbn. roundtrip_fields.
  - roundtrip_fields.
Qed.
End Documents.

(** ** Whole bodies *)

(** The keys a body carries are keys [ActorId::public_key] accepts. *)
Definition body_keys `{Ed25519} `{!JsonNumber} (b : OperationBody.t) : Prop :=
  match b with
  | OperationBody.SpaceGenesis c => strong_key c
  | OperationBody.CapabilityGrant g => strong_key (CapabilityGrant.subject g)
  | _ => True
  end.

Section Bodies.
Context `{Sha256} `{Ed25519} `{HalfFloat} `{!JsonNumber}.

Lemma grant_roundtrip s g v :
  grant_typed g -> strong_key (CapabilityGrant.subject g) -> encode_capability_grant g = Ok v ->
  exists fields, normalize v = Array (Unsigned BODY_CAPABILITY_GRANT :: fields)
    /\ decode_capability_grant s (Unsigned BODY_CAPABILITY_GRANT :: fields)
       = Ok (OperationBody.CapabilityGrant g).
Proof.
  intros (Hs & Hr & Hm & Hn & He & Hd & Hl) Hk Hv. unfold encode_capability_grant in Hv. inv_ok.
  eexists. split; [cbn; reflexivity|]. unfold decode_capability_grant.
  destruct g as [sub acts schs viss roles mx nb ex depth lab]. cbn [CapabilityGrant.subject
    CapabilityGrant.actions CapabilityGrant.schemas CapabilityGrant.visibilities
    CapabilityGrant.content_roles CapabilityGrant.max_resource_byte_length
    CapabilityGrant.not_before_unix_ms CapabilityGrant.expires_at_unix_ms
    CapabilityGrant.delegation_depth CapabilityGrant.label] in *.
  cbn.
  rewrite fixed_bytes_roundtrip by done. rewrite (proj2 (public_key_Ok sub sub)) by done.
  cbn [map_err].
  rewrite (decode_array_map s (fun a => Unsigned (action_code a)) _ acts) by (by intros []).
  rewrite (decode_array_map s (fun x => Text (EntitySchema.as_str x)) _ schs)
    by (intros x _; cbn; apply parse_as_str).
  rewrite (decode_array_map s (fun x => Unsigned (visibility_code x)) _ viss) by (by intros []).
  rewrite (decode_array_map s Text _ roles) by done.
  rewrite optional_unsigned_roundtrip.
  rewrite (optional_nonnegative_roundtrip s nb a) by done.
  rewrite (optional_nonnegative_roundtrip s ex a0) by done.
  cbn [unsigned required ok_or]. by rewrite (proj2 (checked_u_Some 8 depth depth)).
Qed.

Lemma revocation_roundtrip s r :
  revocation_typed r ->
  exists fields, normalize (encode_capability_revocation r)
      = Array (Unsigned BODY_CAPABILITY_REVOKE :: fields)
    /\ decode_capability_revocation s (Unsigned BODY_CAPABILITY_REVOKE :: fields)
       = Ok (OperationBody.CapabilityRevoke r).
Proof.
  intros [Hg _]. eexists. split; [cbn; reflexivity|]. unfold decode_capability_revocation.
  destruct r as [g rs d]. cbn [CapabilityRevocation.grant_id CapabilityRevocation.reason
    CapabilityRevocation.detail] in *.
  cbn.
  rewrite fixed_bytes_roundtrip by done. rewrite optional_text_roundtrip. by destruct rs.
Qed.

Lemma body_roundtrip_normalize s b v :
  body_typed b -> body_keys b -> encode_body s b = Ok v -> decode_body s (normalize v) = Ok b.
Proof.
  intros Ht Hk He. destruct b as [p|p|p|d| |c|g|r]; cbn in Ht, Hk.
  - destruct s; try discriminate He. cbn in He. inv_ok. cbn -[decode_protected].
    by rewrite (protected_roundtrip _ _ _ _ _ _ (record_roundtrip _) Ht E).
  - destruct s; try discriminate He. cbn in He. inv_ok. cbn -[decode_protected].
    by rewrite (protected_roundtrip _ _ _ _ _ _ (tag_roundtrip _) Ht E).
  - destruct s; try discriminate He. cbn in He. inv_ok. cbn -[decode_protected].
    by rewrite (protected_roundtrip _ _ _ _ _ _ (event_roundtrip _) Ht E).
  - destruct s; try discriminate He. cbn in He. inv_ok. cbn -[decode_profile_document].
    by rewrite (profile_roundtrip _ _ _ Ht E).
  - destruct s; try discriminate He; by injection He as <-.
  - destruct s; try discriminate He. injection He as <-. cbn -[fixed_bytes].
    rewrite fixed_bytes_roundtrip by done. by rewrite (proj2 (public_key_Ok c c)).
  - destruct s; try discriminate He.
    destruct (grant_roundtrip EntitySchema.CapabilityGrant g v Ht Hk He) as (f & -> & Hd). exact Hd.
  - destruct s; try discriminate He. injection He as <-.
    destruct (revocation_roundtrip EntitySchema.CapabilityRevoke r Ht) as (f & -> & Hd). exact Hd.
Qed.
End Bodies.
