(* ===== verification/Envelope.v ===== *)
(** * Signed operation envelopes and the entity reducer
    (crates/fractonica-data-model/src/lib.rs, [OperationEnvelope] to [reduce_entity])

    The JSON projection of a signed operation, its verification against the COSE
    bytes, and the incremental reduction of an entity's operations to its causal
    heads.  A [BTreeMap] keyed by operation id is a [gmap], a [BTreeSet] of ids a
    [gset]; iteration in ascending order is [sort_bytes] of its elements. *)
From S2P Require Import Prelude Bytes Floats Crypto Content Cbor Trust DataModel CanonicalBody.

(** ** The derived [PartialEq] of bodies: floating metadata compares by value *)
Section Equality.
Context `{!JsonNumber}.

(** Element-wise comparison of two vectors. *)
Definition list_eqb_by {A} (f : A -> A -> bool) : list A -> list A -> bool :=
  fix list_eqb_by l l' :=
    match l, l' with
    | [], [] => true
    | a :: l, a' :: l' => f a a' && list_eqb_by l l'
    | _, _ => false
    end.

Fixpoint json_eqb (j j' : Json) : bool :=
  match j, j' with
  | JNull, JNull => true
  | JBool b, JBool b' => Bool.eqb b b'
  | JNumber n, JNumber n' => number_eqb n n'
  | JString s, JString s' => list_eqb s s'
  | JArray l, JArray l' => list_eqb_by json_eqb l l'
  | JObject l, JObject l' =>
      list_eqb_by (fun e e' => list_eqb (fst e) (fst e') && json_eqb (snd e) (snd e')) l l'
  | _, _ => false
  end.

Definition metadata_eqb : list (list Z * Json) -> list (list Z * Json) -> bool :=
  list_eqb_by (fun e e' => list_eqb (fst e) (fst e') && json_eqb (snd e) (snd e')).

Definition eqb {A} `{EqDecision A} (a b : A) : bool := bool_decide (a = b).

Definition record_eqb (a b : RecordDocument) : bool :=
  eqb (record_start_at_unix_ms a) (record_start_at_unix_ms b)
  && eqb (record_end_at_unix_ms a) (record_end_at_unix_ms b)
  && eqb (record_emoji a) (record_emoji b) && eqb (record_text a) (record_text b)
  && metadata_eqb (record_metadata a) (record_metadata b)
  && eqb (record_resources a) (record_resources b)
  && eqb (record_references a) (record_references b).

Definition tag_eqb (a b : TagDocument) : bool :=
  eqb (tag_name a) (tag_name b) && eqb (tag_emoji a) (tag_emoji b)
  && eqb (tag_notes a) (tag_notes b) && eqb (tag_color_hex a) (tag_color_hex b)
  && metadata_eqb (tag_metadata a) (tag_metadata b)
  && eqb (tag_references a) (tag_references b).

Definition event_eqb (a b : EventDocument) : bool :=
  eqb (event_start_at_unix_ms a) (event_start_at_unix_ms b)
  && eqb (event_end_at_unix_ms a) (event_end_at_unix_ms b)
  && eqb (event_label a) (event_label b) && eqb (event_type_number a) (event_type_number b)
  && metadata_eqb (event_metadata a) (event_metadata b)
  && eqb (event_references a) (event_references b).

Definition profile_eqb (a b : ProfileDocument) : bool :=
  eqb (profile_handle a) (profile_handle b) && eqb (profile_display_name a) (profile_display_name b)
  && eqb (profile_saros_anchor a) (profile_saros_anchor b)
  && eqb (profile_avatar a) (profile_avatar b)
  && metadata_eqb (profile_metadata a) (profile_metadata b).

Definition protected_eqb {T} (f : T -> T -> bool) (a b : ProtectedDocument.t T) : bool :=
  match a, b with
  | ProtectedDocument.Public d, ProtectedDocument.Public d' => f d d'
  | ProtectedDocument.Private e r, ProtectedDocument.Private e' r' => eqb e e' && eqb r r'
  | _, _ => false
  end.

Definition body_eqb (a b : OperationBody.t) : bool :=
  match a, b with
  | OperationBody.PutRecord p, OperationBody.PutRecord p' => protected_eqb record_eqb p p'
  | OperationBody.PutTag p, OperationBody.PutTag p' => protected_eqb tag_eqb p p'
  | OperationBody.PutEvent p, OperationBody.PutEvent p' => protected_eqb event_eqb p p'
  | OperationBody.PutProfile d, OperationBody.PutProfile d' => profile_eqb d d'
  | OperationBody.Tombstone, OperationBody.Tombstone => true
  | OperationBody.SpaceGenesis c, OperationBody.SpaceGenesis c' => list_eqb c c'
  | OperationBody.CapabilityGrant g, OperationBody.CapabilityGrant g' => eqb g g'
  | OperationBody.CapabilityRevoke r, OperationBody.CapabilityRevoke r' => eqb r r'
  | _, _ => false
  end.
End Equality.

(** ** Envelopes *)
Module OperationEnvelope.
Record t `{JsonNumber} : Type := mk {
  protocol_version : Z;
  operation_id : list Z;
  space_id : list Z;
  actor_id : list Z;
  entity_id : list Z;
  schema : EntitySchema.t;
  causal_parents : list (list Z);
  authorization : list (list Z);
  occurred_at_unix_ms : Z;
  nonce : list Z;
  body : OperationBody.t;
  cose_sign1 : list Z
}.

Definition require_projection (field : list Z) (matches : bool) : result DataModelError unit :=
  if matches then Ok tt else Err (ProjectionMismatch field).

Section Operations.
Context `{Sha256} `{Ed25519} `{HalfFloat} `{Base64} `{!JsonNumber} `{!JsonSize}.

Definition verify (e : t) : result DataModelError unit :=
  if negb (protocol_version e =? PROTOCOL_VERSION)
  then Err (UnsupportedProtocolVersion (protocol_version e) PROTOCOL_VERSION)
  else if is_all_zero (entity_id e) then Err NilEntityId_
  else
    check validate_sorted_bytes (str "causalParents") (causal_parents e);
    check validate_sorted_bytes (str "authorization") (authorization e);
    if contains (operation_id e) (causal_parents e) then Err (SelfCausalParent (operation_id e))
    else
      let? signed := map_err Trust (SignedOperation.from_cose_sign1 (cose_sign1 e)) in
      check map_err Trust (SignedOperation.verify signed);
      let? encoded := map_err Trust (SignedOperation.to_cose_sign1 signed) in
      if negb (list_eqb encoded (cose_sign1 e)) then Err NonCanonicalCoseProjection
      else
        let? payload := map_err Trust (SignedOperation.decode_payload signed) in
        let? signed_schema := parse_schema (OperationPayload.schema payload) in
        let? signed_body := decode_body signed_schema (OperationPayload.body payload) in
        check require_projection (str "operationId")
          (list_eqb (operation_id e) (SignedOperation.operation_id signed));
        check require_projection (str "spaceId")
          (list_eqb (space_id e) (OperationPayload.space_id payload));
        check require_projection (str "actorId")
          (list_eqb (actor_id e) (OperationPayload.actor_id payload));
        check require_projection (str "entityId")
          (list_eqb (entity_id e) (OperationPayload.entity_id payload));
        check require_projection (str "schema") (eqb (schema e) signed_schema);
        check require_projection (str "causalParents")
          (eqb (causal_parents e) (OperationPayload.causal_parents payload));
        check require_projection (str "authorization")
          (eqb (authorization e) (OperationPayload.authorization payload));
        check require_projection (str "occurredAtUnixMs")
          (occurred_at_unix_ms e =? OperationPayload.occurred_at_unix_ms payload);
        check require_projection (str "nonce")
          (list_eqb (nonce e) (OperationPayload.nonce payload));
        check require_projection (str "body") (body_eqb (body e) signed_body);
        let? encoded_body := encode_body (schema e) (body e) in
        let? projected_body :=
          map_err (fun e => Trust (CanonicalCbor e)) (to_canonical_cbor encoded_body) in
        let? signed_body_bytes :=
          map_err (fun e => Trust (CanonicalCbor e))
            (to_canonical_cbor (OperationPayload.body payload)) in
        check require_projection (str "body") (list_eqb projected_body signed_body_bytes);
        validate_for (body e) (schema e) (actor_id e) (entity_id e) (causal_parents e)
          (authorization e).

Definition from_trust_signed (signed : SignedOperation.t) : result DataModelError t :=
  check map_err Trust (SignedOperation.verify signed);
  let? payload := map_err Trust (SignedOperation.decode_payload signed) in
  let? schema := parse_schema (OperationPayload.schema payload) in
  let? body := decode_body schema (OperationPayload.body payload) in
  let? cose_sign1 := map_err Trust (SignedOperation.to_cose_sign1 signed) in
  let envelope :=
    mk _ PROTOCOL_VERSION (SignedOperation.operation_id signed)
      (OperationPayload.space_id payload) (OperationPayload.actor_id payload)
      (OperationPayload.entity_id payload) schema (OperationPayload.causal_parents payload)
      (OperationPayload.authorization payload) (OperationPayload.occurred_at_unix_ms payload)
      (OperationPayload.nonce payload) body cose_sign1 in
  check verify envelope;
  Ok envelope.

Definition from_cose_sign1 (bytes : list Z) : result DataModelError t :=
  let? signed := map_err Trust (SignedOperation.from_cose_sign1 bytes) in
  from_trust_signed signed.

Definition sign (space_id entity_id : list Z) (schema : EntitySchema.t)
    (causal_parents authorization : list (list Z)) (occurred_at_unix_ms : Z) (nonce : list Z)
    (body : OperationBody.t) (signing_key : list Z) : result DataModelError t :=
  if is_all_zero entity_id then Err NilEntityId_
  else
    let actor_id := signing_identity signing_key in
    check validate_for body schema actor_id entity_id causal_parents authorization;
    let? canonical_body := encode_body schema body in
    let? payload := map_err Trust
      (OperationPayload.new space_id actor_id entity_id (EntitySchema.as_str schema)
         causal_parents authorization occurred_at_unix_ms nonce canonical_body) in
    let? signed := map_err Trust (Trust.sign payload signing_key) in
    from_trust_signed signed.
End Operations.
End OperationEnvelope.

(** ** Reduction of one entity *)
Record EntityHead `{JsonNumber} : Type := mkEntityHead {
  head_operation_id : list Z;
  head_actor_id : list Z;
  head_occurred_at_unix_ms : Z;
  head_body : OperationBody.t
}.

Record ReducedEntity `{JsonNumber} : Type := mkReducedEntity {
  reduced_space_id : list Z;
  reduced_entity_id : list Z;
  reduced_schema : EntitySchema.t;
  operation_count : nat;
  reduced_heads : list EntityHead
}.

Module EntityReducer.
Record t `{JsonNumber} : Type := mk {
  space_id : list Z;
  entity_id : list Z;
  schema : EntitySchema.t;
  operations : gmap (list Z) OperationEnvelope.t;
  heads : gset (list Z)
}.

Section Operations.
Context `{Sha256} `{Ed25519} `{HalfFloat} `{Base64} `{!JsonNumber} `{!JsonSize}.

Definition new (space_id entity_id : list Z) (schema : EntitySchema.t) : t :=
  mk _ space_id entity_id schema ∅ ∅.

(** The body of the loop over [causal_parents]. *)
Definition check_parent (r : t) (op : OperationEnvelope.t) (parent_id : list Z) :
    result DataModelError unit :=
  match operations r !! parent_id with
  | None => Err (CausalParentNotPreexisting (OperationEnvelope.operation_id op) parent_id)
  | Some parent =>
      if negb (list_eqb (OperationEnvelope.space_id parent) (OperationEnvelope.space_id op))
         || negb (list_eqb (OperationEnvelope.entity_id parent) (OperationEnvelope.entity_id op))
         || negb (eqb (OperationEnvelope.schema parent) (OperationEnvelope.schema op))
      then Err (ForeignCausalParent parent_id)
      else Ok tt
  end.

Definition apply (r : t) (op : OperationEnvelope.t) : result DataModelError t :=
  check OperationEnvelope.verify op;
  if negb (list_eqb (OperationEnvelope.space_id op) (space_id r))
  then Err (ForeignSpace (space_id r) (OperationEnvelope.space_id op))
  else if negb (list_eqb (OperationEnvelope.entity_id op) (entity_id r))
  then Err (ForeignEntity (entity_id r) (OperationEnvelope.entity_id op))
  else if negb (eqb (OperationEnvelope.schema op) (schema r))
  then Err (ForeignSchema (schema r) (OperationEnvelope.schema op))
  else match operations r !! OperationEnvelope.operation_id op with
  | Some _ => Err (DuplicateOperationId (OperationEnvelope.operation_id op))
  | None =>
      check for_each (check_parent r op) (OperationEnvelope.causal_parents op);
      let heads :=
        fold_left (fun heads parent_id => heads ∖ {[parent_id]})
          (OperationEnvelope.causal_parents op) (heads r) in
      Ok (mk _ (space_id r) (entity_id r) (schema r)
            (<[OperationEnvelope.operation_id op := op]> (operations r))
            ({[OperationEnvelope.operation_id op]} ∪ heads))
  end.

Definition head_of (op : OperationEnvelope.t) : EntityHead :=
  mkEntityHead _ (OperationEnvelope.operation_id op) (OperationEnvelope.actor_id op)
    (OperationEnvelope.occurred_at_unix_ms op) (OperationEnvelope.body op).

(** [None] is the panic of [expect]. *)
Definition finish (r : t) : option ReducedEntity :=
  heads ← mapM (fun id => head_of <$> operations r !! id) (sort_bytes (elements (heads r)));
  Some (mkReducedEntity _ (space_id r) (entity_id r) (schema r) (size (operations r)) heads).

Fixpoint apply_all (r : t) (ops : list OperationEnvelope.t) : result DataModelError t :=
  match ops with
  | [] => Ok r
  | op :: ops => let? r := apply r op in apply_all r ops
  end.

(** [reduce_entity]; the inner option is [finish]'s. *)
Definition reduce_entity (space_id entity_id : list Z) (schema : EntitySchema.t)
    (ops : list OperationEnvelope.t) : result DataModelError (option ReducedEntity) :=
  let? r := apply_all (new space_id entity_id schema) ops in Ok (finish r).
End Operations.
End EntityReducer.
