(* ===== verification/Samples.v ===== *)
(** * Concrete instances and values for the witnesses

    Toy instances of the library interfaces and a few signed operations built with
    them: every hypothesis of the theorems of [BodyTheory], [ReducerTheory] and
    [EnvelopeTheory] can hold at once. *)
From S2P Require Import Prelude Bytes Floats Crypto Content Cbor.
From S2P Require Import Trust TrustTheory DataModel CanonicalBody BodyTheory Envelope.

(** Base64 as hexadecimal. *)
Definition hex_digit_value (_ c : Z) : result unit Z :=
  if is_ascii_digit c then Ok (c - 48) else if (97 <=? c) && (c <=? 102) then Ok (c - 87) else Err tt.

Fixpoint hex_decode (s : list Z) : option (list Z) :=
  match s with
  | [] => Some []
  | a :: b :: s =>
      match hex_digit_value 0 a, hex_digit_value 0 b with
      | Ok x, Ok y => cons (x * 16 + y) <$> hex_decode s
      | _, _ => None
      end
  | _ => None
  end.

Definition hex_char (d : Z) : Z := if d <? 10 then 48 + d else 87 + d.
Definition hex_encode (b : list Z) : list Z :=
  concat (List.map (fun x => [hex_char (x / 16 mod 16); hex_char (x mod 16)]) b).

Lemma hex_char_spec d :
  0 <= d < 16 -> hex_digit_value 0 (hex_char d) = Ok d /\ 0 <= hex_char d <= 127.
Proof.
  intros Hd. unfold hex_char, hex_digit_value, is_ascii_digit.
  destruct (Z.ltb_spec d 10).
  - rewrite (proj2 (Z.leb_le 48 (48 + d))), (proj2 (Z.leb_le (48 + d) 57)) by lia. cbn [andb].
    split; [f_equal|]; lia.
  - rewrite (proj2 (Z.leb_gt (87 + d) 57)), andb_false_r by lia.
    rewrite (proj2 (Z.leb_le 97 (87 + d))), (proj2 (Z.leb_le (87 + d) 102)) by lia. cbn [andb].
    split; [f_equal|]; lia.
Qed.

Lemma hex_decode_encode b : Forall is_byte b -> hex_decode (hex_encode b) = Some b.
Proof.
  induction 1 as [|x b Hx _ IH]; [done|]. unfold is_byte in Hx. unfold hex_encode in *.
  cbn [List.map concat app hex_decode].
  pose proof (Z.mod_pos_bound x 16 ltac:(lia)). pose proof (Z.mod_pos_bound (x / 16) 16 ltac:(lia)).
  rewrite (proj1 (hex_char_spec _ H0)), (proj1 (hex_char_spec _ H)), IH. cbn. do 2 f_equal.
  rewrite (Z.mod_small (x / 16)) by (split; [apply Z.div_pos|apply Z.div_lt_upper_bound]; lia).
  pose proof (Z.div_mod x 16). lia.
Qed.

Lemma hex_encode_ascii b : is_ascii (hex_encode b) = true.
Proof.
  induction b as [|x b IH]; [done|]. unfold hex_encode, is_ascii in *.
  cbn [List.map concat app forallb]. rewrite IH.
  pose proof (hex_char_spec (x mod 16) (Z.mod_pos_bound x 16 ltac:(lia))).
  pose proof (hex_char_spec (x / 16 mod 16) (Z.mod_pos_bound (x / 16) 16 ltac:(lia))).
  rewrite !andb_true_iff, !Z.leb_le. tauto.
Qed.

Definition toy_base64 : Base64 := {|
  base64_encode := hex_encode;
  base64_decode := hex_decode;
  base64_decode_encode := hex_decode_encode;
  base64_encode_ascii := hex_encode_ascii
|}.

(** JSON numbers as [serde_json] stores them, out-of-range payloads unreadable. *)
Inductive toy_number : Type := PosInt (v : Z) | NegInt (v : Z) | JFloat (v : Z).
#[export] Instance toy_number_eq_dec : EqDecision toy_number.
Proof. solve_eq_dec. Defined.

Definition toy_as_i64 (n : toy_number) : option Z :=
  match n with NegInt v => if v <? 0 then checked_i64 v else None | _ => None end.
Definition toy_as_u64 (n : toy_number) : option Z :=
  match n with PosInt v => checked_u 64 v | _ => None end.
Definition toy_as_f64 (n : toy_number) : option Z :=
  match n with JFloat v => checked_u 64 v | _ => None end.

Program Definition toy_json : JsonNumber := {|
  number := toy_number;
  as_i64 := toy_as_i64;
  as_u64 := toy_as_u64;
  as_f64 := toy_as_f64;
  number_from_i64 := fun v => if v <? 0 then NegInt v else PosInt v;
  number_from_u64 := PosInt;
  number_from_f64 := fun v => if f64_is_finite v then Some (JFloat v) else None;
  number_eqb := fun a b => bool_decide (a = b)
|}.
Next Obligation. intros. cbn. by apply bool_decide_eq_true. Qed.
Next Obligation.
  intros [v|v|v] i; cbn; try done. destruct (v <? 0); [|done]. intros Hc.
  apply checked_i64_Some in Hc as [-> ?]. done.
Qed.
Next Obligation. intros [v|v|v] i; cbn; try done. intros Hc. by apply checked_u_Some in Hc as [-> ?]. Qed.
Next Obligation. intros [v|v|v] i; cbn; try done. intros Hc. by apply checked_u_Some in Hc as [-> ?]. Qed.
Next Obligation.
  intros [v|v|v] i; cbn; try done. destruct (v <? 0) eqn:Ev; [|done]. intros Hc Hi.
  apply checked_i64_Some in Hc as [-> ?]. by rewrite Ev.
Qed.
Next Obligation. intros [v|v|v] i; cbn; try done. intros Hc. by apply checked_u_Some in Hc as [-> ?]. Qed.
Next Obligation.
  intros [v|v|v] i; cbn; try done. intros _ _ Hc Hf. apply checked_u_Some in Hc as [-> ?]. by rewrite Hf.
Qed.

Definition toy_size : @JsonSize toy_json :=
  @Build_JsonSize toy_json (fun m => Some (2 + 8 * Z.of_nat (length m))).

#[export] Existing Instance toy_sha256.
#[export] Existing Instance toy_ed25519.
#[export] Existing Instance toy_half.
#[export] Existing Instance toy_base64.
#[export] Existing Instance toy_json.
#[export] Existing Instance toy_size.

(** ** A record, and operations on its entity *)
Definition sample_record : RecordDocument :=
  mkRecordDocument 1700000000000 (Some 1700000001000) None (Some (str "hello"))
    [(str "a", JNumber (NegInt (-3))); (str "bb", JArray [JNull; JString (str "x")]);
     (str "c", JObject [(str "k", JBool true)])]
    [] [EntityReference.mk (str "tag") (ReferenceTarget.Actor sample_seed)].

Definition sample_body : OperationBody.t :=
  OperationBody.PutRecord (ProtectedDocument.Public sample_record).

Definition sample_space : list Z := replicate 31 0 ++ [1].
Definition sample_entity : list Z := replicate 15 0 ++ [9].
Definition sample_grant : list Z := replicate 32 3.

Notation sample_sign parents nonce body :=
  (OperationEnvelope.sign sample_space sample_entity EntitySchema.Record_ parents [sample_grant]
     1700000002000 (replicate 15 0 ++ [nonce]) body sample_seed).

(** The identity and the COSE bytes of a signed operation, evaluated once. *)
Definition signed_bytes (r : result DataModelError OperationEnvelope.t) : list Z * list Z :=
  match r with
  | Ok e => (OperationEnvelope.operation_id e, OperationEnvelope.cose_sign1 e)
  | Err _ => ([], [])
  end.

Definition put_bytes : list Z * list Z := Eval vm_compute in signed_bytes (sample_sign [] 1 sample_body).
Definition first_bytes : list Z * list Z :=
  Eval vm_compute in signed_bytes (sample_sign [] 2 OperationBody.Tombstone).
Definition second_bytes : list Z * list Z :=
  Eval vm_compute in signed_bytes (sample_sign [] 3 OperationBody.Tombstone).

Definition sample_envelope_of (nonce : Z) (body : OperationBody.t) (signed : list Z * list Z) :
    OperationEnvelope.t :=
  OperationEnvelope.mk _ PROTOCOL_VERSION (fst signed) sample_space sample_seed sample_entity
    EntitySchema.Record_ [] [sample_grant] 1700000002000 (replicate 15 0 ++ [nonce]) body (snd signed).

Definition sample_put : OperationEnvelope.t := sample_envelope_of 1 sample_body put_bytes.
Definition first_tombstone : OperationEnvelope.t :=
  sample_envelope_of 2 OperationBody.Tombstone first_bytes.
Definition second_tombstone : OperationEnvelope.t :=
  sample_envelope_of 3 OperationBody.Tombstone second_bytes.

(** Shows a closed computation by the virtual machine. *)
Ltac by_vm := lazymatch goal with |- _ = ?r => vm_cast_no_check (eq_refl r) end.

Lemma sample_put_signed : sample_sign [] 1 sample_body = Ok sample_put.
Proof. by_vm. Qed.
Lemma sample_body_typed : body_typed sample_body.
Proof.
  assert (Hu : forall s, bool_decide (Forall is_byte s) && valid_utf8 s = true -> utf8 s).
  { intros s Hs. bool_prop. done. }
  cbn [sample_body body_typed protected_typed]. unfold sample_record, record_typed. cbn.
  split; [unfold in_i; lia|]. split; [unfold in_i; lia|]. split; [exact I|].
  split; [apply Hu; vm_compute; reflexivity|]. split; [split|split; [constructor|]].
  - unfold btree. cbn. repeat constructor; vm_compute; reflexivity.
  - intros kv Hin. repeat (apply elem_of_cons in Hin as [->|Hin]); [..|by apply not_elem_of_nil in Hin];
      (split; [apply Hu; vm_compute; reflexivity|]); cbn; repeat split; try apply Hu;
      try (vm_compute; reflexivity); unfold btree; cbn; repeat constructor.
  - constructor; [|constructor]. split; [apply Hu; vm_compute; reflexivity|]. cbn.
    apply (bool_decide_eq_true_1 (fixed _ _)). vm_compute. reflexivity.
Qed.
