(* ===== verification/ReducerTheory.v ===== *)
(** * The entity reducer: reduction in any topological order gives the causal heads *)
From S2P Require Import Prelude Bytes Floats Crypto Content Cbor.
From S2P Require Import Trust TrustTheory DataModel CanonicalBody Envelope Samples.

Section Reducer.
Context `{Sha256} `{Ed25519} `{HalfFloat} `{Base64} `{!JsonNumber} `{!JsonSize}.
Implicit Types (op : OperationEnvelope.t) (ops before : list OperationEnvelope.t).

Notation id := OperationEnvelope.operation_id.
Notation parents := OperationEnvelope.causal_parents.

Definition ids ops : list (list Z) := List.map id ops.
Definition named_parents ops : list (list Z) := concat (List.map parents ops).

(** An operation of this space, entity and schema that verifies. *)
Definition belongs (space entity : list Z) (schema : EntitySchema.t) op : Prop :=
  OperationEnvelope.verify op = Ok tt /\ OperationEnvelope.space_id op = space
  /\ OperationEnvelope.entity_id op = entity /\ OperationEnvelope.schema op = schema.

(** Parents come before their children. *)
Definition topological ops : Prop :=
  forall before op after, ops = before ++ op :: after -> forall p, p ∈ parents op -> p ∈ ids before.

(** The operations no operation names as a parent, by ascending id. *)
Definition id_le op op' : Prop := bytes_le (id op) (id op').
#[local] Instance id_le_dec op op' : Decision (id_le op op').
Proof. unfold id_le. apply _. Defined.

Definition causal_heads ops : list EntityHead :=
  List.map EntityReducer.head_of
    (merge_sort id_le (filter (fun op => id op ∉ named_parents ops) ops)).

(** The reducer's state after [ops]. *)
Definition state_of space entity schema ops : EntityReducer.t :=
  EntityReducer.mk _ space entity schema
    (list_to_map (List.map (fun op => (id op, op)) ops))
    (list_to_set (ids ops) ∖ list_to_set (named_parents ops)).

Lemma keys_ids ops : (List.map (fun op => (id op, op)) ops).*1 = ids ops.
Proof. unfold ids. change (fmap fst) with (List.map (@fst (list Z) OperationEnvelope.t)). by rewrite List.map_map. Qed.

Lemma lookup_state ops p op :
  NoDup (ids ops) ->
  (list_to_map (List.map (fun op => (id op, op)) ops) : gmap (list Z) OperationEnvelope.t) !! p = Some op
  <-> op ∈ ops /\ id op = p.
Proof.
  intros Hn. rewrite <- elem_of_list_to_map by (by rewrite keys_ids).
  rewrite list_elem_of_In, in_map_iff. setoid_rewrite <- list_elem_of_In. split.
  - intros (op' & [= <- <-] & Hin). done.
  - intros [Hin <-]. by exists op.
Qed.

Lemma lookup_state_None ops p :
  (list_to_map (List.map (fun op => (id op, op)) ops) : gmap (list Z) OperationEnvelope.t) !! p = None
  <-> p ∉ ids ops.
Proof.
  rewrite <- (keys_ids ops). split; [apply not_elem_of_list_to_map_2|apply not_elem_of_list_to_map_1].
Qed.

Lemma elem_of_ids ops p : p ∈ ids ops <-> exists op, op ∈ ops /\ id op = p.
Proof.
  unfold ids. rewrite list_elem_of_In, in_map_iff. setoid_rewrite <- list_elem_of_In. naive_solver.
Qed.

Lemma elem_of_named ops p : p ∈ named_parents ops <-> exists op, op ∈ ops /\ p ∈ parents op.
Proof.
  unfold named_parents. induction ops as [|op ops IH]; cbn.
  - split; [by intros ?%not_elem_of_nil|]. intros (? & ?%not_elem_of_nil & _). done.
  - rewrite elem_of_app, IH. split.
    + intros [Hp|(o & ? & ?)]; [exists op; split; [left|done]|exists o; split; [by right|done]].
    + intros (o & [->|Ho]%elem_of_cons & Hp); [by left|right; by exists o].
Qed.

Lemma fold_remove (l : list (list Z)) (s : gset (list Z)) :
  fold_left (fun heads parent_id => heads ∖ {[parent_id]}) l s = s ∖ list_to_set l.
Proof.
  revert s. induction l as [|p l IH]; intros s; cbn; [set_solver|]. rewrite IH. set_solver.
Qed.

(** What one step needs and does. *)
Lemma apply_state space entity schema before op r' :
  NoDup (ids before) -> Forall (belongs space entity schema) before ->
  (forall p, p ∈ named_parents before -> p ∈ ids before) ->
  EntityReducer.apply (state_of space entity schema before) op = Ok r'
  <-> belongs space entity schema op /\ id op ∉ ids before
      /\ (forall p, p ∈ parents op -> p ∈ ids before)
      /\ r' = state_of space entity schema (before ++ [op]).
Proof.
  intros Hn Hb Hc. unfold EntityReducer.apply, belongs. cbn [EntityReducer.space_id
    EntityReducer.entity_id EntityReducer.schema EntityReducer.operations EntityReducer.heads state_of].
  assert (Hparent : forall p, EntityReducer.check_parent (state_of space entity schema before) op p = Ok tt
    <-> p ∈ ids before /\ (OperationEnvelope.space_id op = space
          /\ OperationEnvelope.entity_id op = entity /\ OperationEnvelope.schema op = schema)).
  { intros p. unfold EntityReducer.check_parent. cbn [EntityReducer.operations state_of].
    destruct (_ !! p) as [parent|] eqn:Ep.
    - apply lookup_state in Ep as [Hin <-]; [|done]. rewrite Forall_forall in Hb.
      destruct (Hb parent Hin) as (_ & <- & <- & <-).
      assert (id parent ∈ ids before) by (apply elem_of_ids; eauto). unfold eqb, list_eqb.
      repeat case_bool_decide; cbn [negb orb]; (split; [intros ?|intros (_ & ? & ? & ?)]);
        try done; try congruence; repeat split; (done || congruence).
    - apply lookup_state_None in Ep. split; [done|]. by intros [? _]. }
  destruct (OperationEnvelope.verify op) as [[]|]; [|split; [done|by intros ([? _] & _)]].
  unfold list_eqb, eqb.
  destruct (bool_decide (OperationEnvelope.space_id op = space)) eqn:Es; bool_prop; cbn [negb];
    [|split; [done|by intros ((_ & ? & _) & _)]].
  destruct (bool_decide (OperationEnvelope.entity_id op = entity)) eqn:Ee; bool_prop; cbn [negb];
    [|split; [done|by intros ((_ & _ & ? & _) & _)]].
  destruct (bool_decide (OperationEnvelope.schema op = schema)) eqn:Ec; bool_prop; cbn [negb];
    [|split; [done|by intros ((_ & _ & _ & ?) & _)]].
  destruct (_ !! id op) as [dup|] eqn:Ed.
  { apply lookup_state in Ed as [Hin Heq]; [|done]. split; [done|]. intros (_ & Hnot & _).
    destruct Hnot. apply elem_of_ids. eauto. }
  apply lookup_state_None in Ed.
  assert (Hsome : (forall p, p ∈ parents op -> p ∈ ids before) ->
    EntityReducer.mk _ space entity schema
      (<[id op := op]> (list_to_map (List.map (fun op => (id op, op)) before)))
      ({[id op]} ∪ fold_left (fun heads parent_id => heads ∖ {[parent_id]}) (parents op)
         (list_to_set (ids before) ∖ list_to_set (named_parents before)))
    = state_of space entity schema (before ++ [op])).
  { intros Hp. unfold state_of. f_equal.
    - rewrite List.map_app. cbn. rewrite list_to_map_snoc; [done|by rewrite keys_ids].
    - rewrite fold_remove. unfold ids, named_parents in *. rewrite !List.map_app, concat_app. cbn.
      rewrite app_nil_r, !list_to_set_app_L. cbn.
      apply set_eq. intros p. specialize (Hp p). specialize (Hc p). specialize (Hp : _ -> _).
      rewrite elem_of_union, !elem_of_difference, !elem_of_union, !elem_of_list_to_set.
      rewrite elem_of_singleton, elem_of_empty.
      destruct (decide (p = id op)) as [->|]; [tauto|tauto]. }
  destruct (for_each _ (parents op)) as [[]|] eqn:Ef.
  - rewrite for_each_Ok in Ef. assert (Hp : forall p, p ∈ parents op -> p ∈ ids before).
    { intros p Hin. by apply Hparent, Ef. }
    rewrite (Hsome Hp). split; [intros [= <-]|intros (_ & _ & _ & ->)]; done.
  - split; [done|]. intros (_ & _ & Hp & _).
    assert (Hok : for_each (EntityReducer.check_parent (state_of space entity schema before) op)
      (parents op) = Ok tt).
    { apply for_each_Ok. intros p Hin. apply Hparent. auto. }
    rewrite Ef in Hok. discriminate.
Qed.

(** The whole loop, from any state already reached. *)
Lemma apply_all_state space entity schema ops r' : forall before,
  NoDup (ids before) -> Forall (belongs space entity schema) before -> topological before ->
  EntityReducer.apply_all (state_of space entity schema before) ops = Ok r'
  <-> Forall (belongs space entity schema) (before ++ ops) /\ NoDup (ids (before ++ ops))
      /\ topological (before ++ ops) /\ r' = state_of space entity schema (before ++ ops).
Proof.
  induction ops as [|op ops IH]; intros before Hn Hb Ht.
  - cbn. rewrite app_nil_r. split; [intros [= <-]|intros (_ & _ & _ & ->)]; done.
  - assert (Hclosed : forall p, p ∈ named_parents before -> p ∈ ids before).
    { intros p (o & Ho & Hp)%elem_of_named. apply list_elem_of_split in Ho as (l1 & l2 & ->).
      pose proof (Ht l1 o l2 eq_refl p Hp) as Hin. unfold ids in *. rewrite List.map_app.
      apply elem_of_app. by left. }
    cbn [EntityReducer.apply_all].
    pose proof (fun r => apply_state space entity schema before op r Hn Hb Hclosed) as Ha.
    assert (Hsnoc : belongs space entity schema op -> id op ∉ ids before ->
      (forall p, p ∈ parents op -> p ∈ ids before) ->
      NoDup (ids (before ++ [op])) /\ Forall (belongs space entity schema) (before ++ [op])
      /\ topological (before ++ [op])).
    { intros Hbo Hno Hpo. split; [|split].
      - unfold ids in *. rewrite List.map_app. apply NoDup_app. split; [done|]. split.
        + intros x Hx ->%list_elem_of_singleton. done.
        + apply NoDup_singleton.
      - apply Forall_app. auto.
      - intros l1 o l2 E p Hp. destruct l2 as [|x l2 _] using rev_ind.
        + apply app_inj_tail in E as [-> ->]. auto.
        + rewrite app_comm_cons, app_assoc in E. apply app_inj_tail in E as [-> _].
          by apply (Ht l1 o l2). }
    change (before ++ op :: ops) with (before ++ [op] ++ ops). rewrite app_assoc. split.
    + intros Hr. destruct (EntityReducer.apply _ op) as [r|] eqn:Er; [|done].
      destruct (proj1 (Ha r) eq_refl) as (Hbo & Hno & Hpo & ->).
      destruct (Hsnoc Hbo Hno Hpo) as (? & ? & ?). by apply IH.
    + intros (Hf & Hnd & Htop & ->).
      assert (Hbo : belongs space entity schema op).
      { rewrite Forall_forall in Hf. apply Hf. rewrite !elem_of_app. left. right. left. }
      assert (Hno : id op ∉ ids before).
      { unfold ids in Hnd. rewrite !List.map_app in Hnd. apply NoDup_app in Hnd as (Hnd & _ & _).
        apply NoDup_app in Hnd as (_ & Hd & _). intros Hin. apply (Hd _ Hin). left. }
      assert (Hpo : forall p, p ∈ parents op -> p ∈ ids before).
      { apply (Htop before op ops). by rewrite <- app_assoc. }
      rewrite (proj2 (Ha _) (conj Hbo (conj Hno (conj Hpo eq_refl)))).
      destruct (Hsnoc Hbo Hno Hpo) as (? & ? & ?). by apply IH.
Qed.

#[local] Instance id_le_total : Total id_le.
Proof. intros a b. apply bytes_le_total. Qed.

Lemma heads_sorted space entity schema ops :
  NoDup (ids ops) ->
  sort_bytes (elements (EntityReducer.heads (state_of space entity schema ops)))
  = List.map id (merge_sort id_le (filter (fun op => id op ∉ named_parents ops) ops)).
Proof.
  intros Hn. rewrite <- (merge_sort_map id_le bytes_le id) by done.
  assert (Hnf : NoDup (List.map id (filter (fun op => id op ∉ named_parents ops) ops))).
  { apply (sublist_NoDup _ (ids ops)); [done|]. apply (fmap_sublist id), sublist_filter. }
  apply (Sorted_unique bytes_le); [apply sort_bytes_sorted|apply sort_bytes_sorted|].
  unfold sort_bytes. rewrite !merge_sort_Permutation.
  apply NoDup_Permutation; [apply NoDup_elements|done|]. intros p. cbn [EntityReducer.heads state_of].
  rewrite elem_of_elements, elem_of_difference, !elem_of_list_to_set.
  change (List.map id ?l) with (ids l). rewrite !elem_of_ids.
  setoid_rewrite list_elem_of_filter. naive_solver.
Qed.

(** Reduction as a proposition; its clients use this form. *)
Lemma reduce_entity_iff (space entity : list Z) (schema : EntitySchema.t)
    (ops : list OperationEnvelope.t) (out : option ReducedEntity) :
  EntityReducer.reduce_entity space entity schema ops = Ok out
  <-> Forall (belongs space entity schema) ops /\ NoDup (ids ops) /\ topological ops
      /\ out = Some (mkReducedEntity _ space entity schema (length ops) (causal_heads ops)).
Proof.
  unfold EntityReducer.reduce_entity.
  change (EntityReducer.new space entity schema) with
    (EntityReducer.mk _ space entity schema ∅ ∅).
  assert (Hnew : EntityReducer.mk _ space entity schema ∅ ∅ = state_of space entity schema []).
  { unfold state_of. f_equal. }
  rewrite Hnew.
  pose proof (fun r => apply_all_state space entity schema ops r []) as Hall.
  assert (Hfin : NoDup (ids ops) -> EntityReducer.finish (state_of space entity schema ops)
    = Some (mkReducedEntity _ space entity schema (length ops) (causal_heads ops))).
  { intros Hn. unfold EntityReducer.finish. rewrite heads_sorted by done.
    cbn [EntityReducer.operations EntityReducer.space_id EntityReducer.entity_id
      EntityReducer.schema state_of].
    assert (mapM (fun i => EntityReducer.head_of <$>
        (list_to_map (List.map (fun op => (id op, op)) ops) : gmap (list Z) _) !! i)
        (List.map id (merge_sort id_le (filter (fun op => id op ∉ named_parents ops) ops)))
      = Some (causal_heads ops)) as ->.
    { apply mapM_Some. unfold causal_heads. apply Forall2_fmap_2. apply Forall2_same_length_lookup_2.
      - done.
      - intros i o o' Ho Ho'. simplify_eq. apply list_elem_of_lookup_2 in Ho.
        rewrite merge_sort_Permutation in Ho. apply list_elem_of_filter in Ho as [_ Ho].
        by rewrite (proj2 (lookup_state ops (id o) o Hn)). }
    cbn. do 2 f_equal. rewrite map_size_list_to_map by (by rewrite keys_ids).
    by rewrite List.length_map. }
  assert (Htop : topological []) by (intros l1 o l2 E; by destruct l1).
  specialize (fun r => Hall r (NoDup_nil_2 (A := list Z)) (Forall_nil_2 _) Htop). cbn [app] in Hall.
  split.
  - intros Hr. inv_ok. destruct (proj1 (Hall _) eq_refl) as (? & ? & ? & ->). auto.
  - intros (Hb & Hn & Ht & ->).
    rewrite (proj2 (Hall _) (conj Hb (conj Hn (conj Ht eq_refl)))). by rewrite Hfin.
Qed.

(** C38: reducing a stream succeeds exactly when every operation verifies and
    belongs to the entity, ids are distinct and parents come first; the result then
    counts the operations and lists as heads exactly those no operation names as a
    parent, by ascending id.  The panic of [finish] and the foreign-parent error are
    never reached. *)
Theorem reduce_entity_spec (space entity : list Z) (schema : EntitySchema.t)
    (ops : list OperationEnvelope.t) (out : option ReducedEntity) :
  EntityReducer.reduce_entity space entity schema ops = Ok out
  <-> Forall (belongs space entity schema) ops /\ NoDup (ids ops) /\ topological ops
      /\ out = Some (mkReducedEntity _ space entity schema (length ops) (causal_heads ops)).
Proof. apply reduce_entity_iff. Qed.

#[local] Instance id_le_trans : Transitive id_le.
Proof. intros a b c. apply bytes_le_trans. Qed.

(** Distinct ids make an operation recoverable from its id. *)
Lemma ids_inj ops o o' : NoDup (ids ops) -> o ∈ ops -> o' ∈ ops -> id o = id o' -> o = o'.
Proof.
  intros Hn Ho Ho' E.
  pose proof (proj2 (lookup_state ops (id o) o Hn) (conj Ho eq_refl)) as H1'.
  pose proof (proj2 (lookup_state ops (id o) o' Hn) (conj Ho' (eq_sym E))) as H2'. congruence.
Qed.

Lemma causal_heads_perm ops ops' :
  NoDup (ids ops) -> Permutation ops ops' -> causal_heads ops = causal_heads ops'.
Proof.
  intros Hn Hp. unfold causal_heads. f_equal.
  assert (Hf : Permutation (filter (fun op => id op ∉ named_parents ops) ops)
    (filter (fun op => id op ∉ named_parents ops') ops')).
  { rewrite <- Hp. erewrite list_filter_iff; [done|]. intros o.
    rewrite !elem_of_named. by setoid_rewrite Hp. }
  apply (StronglySorted_unique_strong id_le).
  - intros a b Ha Hb. rewrite merge_sort_Permutation in Ha, Hb. rewrite <- Hf in Hb.
    apply list_elem_of_filter in Ha as [_ Ha], Hb as [_ Hb]. intros Hab Hba.
    apply (ids_inj ops); try done. by apply (anti_symm bytes_le).
  - apply StronglySorted_merge_sort; apply _.
  - apply StronglySorted_merge_sort; apply _.
  - by rewrite !merge_sort_Permutation.
Qed.

(** C39: the reduced entity does not depend on the order in which a causally
    closed set of operations arrives, as long as parents come first. *)
Theorem reduction_order_independent (space entity : list Z) (schema : EntitySchema.t)
    (ops ops' : list OperationEnvelope.t) (out out' : option ReducedEntity) :
  Permutation ops ops' ->
  EntityReducer.reduce_entity space entity schema ops = Ok out ->
  EntityReducer.reduce_entity space entity schema ops' = Ok out' -> out = out'.
Proof.
  intros Hp (_ & Hn & _ & ->)%reduce_entity_iff (_ & _ & _ & ->)%reduce_entity_iff.
  by rewrite (causal_heads_perm ops ops'), (Permutation_length Hp).
Qed.
End Reducer.

(** ** Witness: two concurrent operations, in both orders *)
Definition sample_reduction (ops : list OperationEnvelope.t) :=
  EntityReducer.reduce_entity sample_space sample_entity EntitySchema.Record_ ops.
Definition sample_outcome (ops : list OperationEnvelope.t) : option ReducedEntity :=
  match sample_reduction ops with Ok out => out | Err _ => None end.

Lemma reduction_order_independent_witness :
  sample_outcome [first_tombstone; second_tombstone]
  = sample_outcome [second_tombstone; first_tombstone].
Proof.
  apply (reduction_order_independent sample_space sample_entity EntitySchema.Record_
    [first_tombstone; second_tombstone] [second_tombstone; first_tombstone]).
  - apply perm_swap.
  - by_vm.
  - by_vm.
Defined.
