(* ===== verification/EnvelopeTheory.v ===== *)
(** * Envelopes: the theorems

    Encoded bodies are well-formed canonical values; a verified envelope is
    determined by its COSE bytes; signing gives a verified envelope. *)
From S2P Require Import Prelude Bytes Floats Crypto Content Cbor CborTheory CborDecode.
From S2P Require Import CborProps Trust TrustTheory DataModel CanonicalBody BodyTheory Envelope Samples.

(** ** Encoded bodies are well formed *)
Section EncodeWf.
Context `{HalfFloat} `{!JsonNumber}.

Lemma text_wf s : utf8 s -> wf (Text s).
Proof. done. Qed.
Lemma optional_text_wf o : opt utf8 o -> wf (optional_text o).
Proof. by destruct o. Qed.
Lemma optional_unsigned_wf o : opt (in_u 64) o -> wf (optional_unsigned o).
Proof. by destruct o. Qed.
Lemma bytes_wf n b : fixed n b -> wf (Bytes b).
Proof. by intros [_ ?]. Qed.
Lemma optional_bytes_wf n o : opt (fixed n) o -> wf (optional_bytes o).
Proof. destruct o; [apply bytes_wf|done]. Qed.
Lemma small_wf n : 0 <= n <= 255 -> wf (Unsigned n).
Proof. cbn. unfold in_u. lia. Qed.
Lemma signed_wf v : in_i 64 v -> wf (signed_integer v).
Proof. unfold signed_integer, in_i. destruct (Z.ltb_spec v 0); cbn; unfold in_u, in_i; lia. Qed.
Lemma nonnegative_wf v c : nonnegative_integer v = Ok c -> in_i 64 v -> wf c.
Proof. unfold nonnegative_integer, in_i. intros He Hv. inv_ok. bool_prop. cbn. unfold in_u. lia. Qed.
Lemma optional_nonnegative_wf o c :
  optional_nonnegative_integer o = Ok c -> opt (in_i 64) o -> wf c.
Proof. destruct o as [v|]; [apply nonnegative_wf|by intros [= <-]]. Qed.

Lemma array_wf vs : Forall wf vs -> wf (Array vs).
Proof. rewrite wf_Array, Forall_forall. done. Qed.
Lemma array_map_wf {A} (g : A -> CV) l : (forall a, a ∈ l -> wf (g a)) -> wf (Array (List.map g l)).
Proof. intros Hg. apply array_wf, Forall_map, Forall_forall. exact Hg. Qed.


(** An array is well formed when each of its fields is. *)
Ltac wf_fields :=
  apply array_wf; repeat (apply Forall_cons; split); try apply Forall_nil; try exact I;
  first
    [ eapply bytes_wf; eassumption
    | apply optional_text_wf; assumption
    | apply optional_unsigned_wf; assumption
    | eapply optional_bytes_wf; eassumption
    | eapply nonnegative_wf; eassumption
    | eapply optional_nonnegative_wf; eassumption
    | apply signed_wf; assumption
    | assumption
    | apply small_wf; split; vm_compute; discriminate
    | idtac ].

Lemma resource_wf r : resource_typed r -> wf (encode_resource r).
Proof. intros (? & ? & ? & ? & ?). wf_fields. Qed.

Lemma resources_wf rs : Forall resource_typed rs -> wf (Array (List.map encode_resource rs)).
Proof. rewrite Forall_forall. intros Hr. apply array_map_wf. intros r Hin. by apply resource_wf, Hr. Qed.

Lemma reference_wf r : reference_typed r -> wf (encode_reference r).
Proof.
  intros [? Ht]. destruct r as [rel [a|s e o]]; cbn in Ht; wf_fields; wf_fields; destruct Ht as (? & ? & ?).
  - by eapply bytes_wf.
  - by eapply bytes_wf.
  - by eapply optional_bytes_wf.
Qed.

Lemma references_wf rs : Forall reference_typed rs -> wf (encode_references rs).
Proof. rewrite Forall_forall. intros Hr. apply array_map_wf. intros r Hin. by apply reference_wf, Hr. Qed.

Lemma encrypted_wf p : encrypted_typed p -> wf (encode_encrypted_payload p).
Proof. intros (? & ? & ?). wf_fields. Qed.

Lemma entries_wf (vs : list (list Z * Json)) kvs :
  Forall2 encodes_entry vs kvs ->
  (forall jv v, jv ∈ vs -> encode_json_value (snd jv) = Ok v -> utf8 (fst jv) /\ wf v) ->
  wf (Map kvs).
Proof.
  intros Hf Hv. apply wf_Map. induction Hf as [|jv kv vs kvs [Hk He] _ IH].
  - intros kv Hin. by apply not_elem_of_nil in Hin.
  - intros x [->|Hx]%elem_of_cons.
    + rewrite Hk. apply (Hv jv); [left|done].
    + apply IH; [|done]. intros jv' v Hin. apply Hv. by right.
Qed.

Lemma json_wf j : forall v, json_typed j -> encode_json_value j = Ok v -> wf v.
Proof.
  induction j as [| b|n|t|vs IH|vs IH] using Json_nested_ind; intros v Ht He.
  - by injection He as <-.
  - by injection He as <-.
  - cbn [encode_json_value] in He. destruct (as_i64 n) as [i|] eqn:Ei.
    + apply as_i64_range in Ei. destruct (i <? 0); [by injection He as <-|].
      destruct (as_u64 n) as [u|] eqn:Eu; [injection He as <-; by apply as_u64_range in Eu|].
      destruct (as_f64 n) as [f|] eqn:Ef; [|done]. inv_ok. by apply as_f64_range in Ef.
    + destruct (as_u64 n) as [u|] eqn:Eu; [injection He as <-; by apply as_u64_range in Eu|].
      destruct (as_f64 n) as [f|] eqn:Ef; [|done]. inv_ok. by apply as_f64_range in Ef.
  - by injection He as <-.
  - cbn [encode_json_value] in He. inv_ok. apply collect_Ok in E. apply array_wf.
    pose proof (proj1 (json_typed_JArray vs) Ht) as Hts. clear Ht.
    induction E as [|j v vs vals Hj _ IHf]; constructor.
    + apply (IH j); [left|apply Hts; left|done].
    + apply IHf; intros; [eapply IH|apply Hts]; try done; by right.
  - cbn [encode_json_value] in He. inv_ok. apply encode_entries_Ok in E.
    apply json_typed_JObject in Ht as [_ Hts]. apply (entries_wf vs); [done|].
    intros jv v Hin Hv. destruct (Hts _ Hin). split; [done|]. by apply (IH jv).
Qed.

Lemma metadata_wf m v : metadata_typed m -> encode_metadata_object m = Ok v -> wf v.
Proof.
  intros [_ Ht] He. unfold encode_metadata_object in He. inv_ok. apply encode_entries_Ok in E.
  apply (entries_wf m); [done|]. intros jv v Hin Hv. destruct (Ht _ Hin). split; [done|].
  by apply (json_wf (snd jv)).
Qed.

Lemma record_wf d v : record_typed d -> encode_record_document d = Ok v -> wf v.
Proof.
  intros (? & ? & ? & ? & ? & ? & ?) He. unfold encode_record_document in He. inv_ok. wf_fields.
  - by eapply metadata_wf.
  - by apply resources_wf.
  - by apply references_wf.
Qed.

Lemma tag_wf d v : tag_typed d -> encode_tag_document d = Ok v -> wf v.
Proof.
  intros (? & ? & ? & ? & ? & ?) He. unfold encode_tag_document in He. inv_ok. wf_fields.
  - by eapply metadata_wf.
  - by apply references_wf.
Qed.

Lemma event_wf d v : event_typed d -> encode_event_document d = Ok v -> wf v.
Proof.
  intros (? & ? & ? & ? & ? & ?) He. unfold encode_event_document in He. inv_ok. wf_fields.
  - by eapply metadata_wf.
  - by apply references_wf.
Qed.

Lemma profile_wf d v : profile_typed d -> encode_profile_document d = Ok v -> wf v.
Proof.
  intros (? & ? & Hs & ? & ?) He. unfold encode_profile_document in He. inv_ok. wf_fields.
  - cbn. unfold in_u in *. lia.
  - destruct (profile_avatar d); [by apply resource_wf|done].
  - by eapply metadata_wf.
Qed.

Lemma protected_wf {T} (typed : T -> Prop) encode (p : ProtectedDocument.t T) v :
  (forall d c, typed d -> encode d = Ok c -> wf c) ->
  protected_typed typed p -> encode_protected p encode = Ok v -> wf v.
Proof.
  intros Hd Hp He. destruct p as [d|e rs]; cbn in Hp, He.
  - inv_ok. wf_fields. by eapply Hd.
  - injection He as <-. destruct Hp. wf_fields; [by apply encrypted_wf|by apply resources_wf].
Qed.

Lemma grant_wf g v : grant_typed g -> encode_capability_grant g = Ok v -> wf v.
Proof.
  intros (? & Hr & ? & ? & ? & Hd & ?) He. unfold encode_capability_grant in He. inv_ok. wf_fields.
  - apply array_map_wf. intros [] _; apply small_wf; cbn; lia.
  - apply array_map_wf. intros x _. split; [by destruct x; apply str_bytes|by destruct x].
  - apply array_map_wf. intros [] _; apply small_wf; cbn; lia.
  - apply array_map_wf. rewrite Forall_forall in Hr. exact Hr.
  - cbn. unfold in_u in *. lia.
Qed.

Lemma revocation_wf r : revocation_typed r -> wf (encode_capability_revocation r).
Proof.
  intros (? & ?). unfold encode_capability_revocation. wf_fields.
  apply small_wf. destruct (CapabilityRevocation.reason r); cbn; lia.
Qed.

Lemma encode_body_wf s b v : body_typed b -> encode_body s b = Ok v -> wf v.
Proof.
  intros Ht He. destruct b as [p|p|p|d| |c|g|r]; cbn in Ht;
    destruct s; try discriminate He; cbn in He; inv_ok.
  all: try (apply grant_wf in He; done).
  all: try (apply revocation_wf; done).
  all: wf_fields.
  - by apply (protected_wf _ _ _ _ record_wf Ht).
  - by apply (protected_wf _ _ _ _ tag_wf Ht).
  - by apply (protected_wf _ _ _ _ event_wf Ht).
  - by apply (profile_wf _ _ Ht).
Qed.
End EncodeWf.

#[local] Arguments to_canonical_cbor : simpl never.
#[local] Arguments encode_body : simpl never.
#[local] Arguments decode_body : simpl never.
#[local] Arguments validate_for : simpl never.
#[local] Arguments validate_sorted_bytes : simpl never.
#[local] Arguments parse_schema : simpl never.
#[local] Arguments SignedOperation.from_cose_sign1 : simpl never.
#[local] Arguments SignedOperation.to_cose_sign1 : simpl never.
#[local] Arguments SignedOperation.verify : simpl never.
#[local] Arguments SignedOperation.decode_payload : simpl never.
#[local] Arguments body_eqb : simpl never.
#[local] Arguments OperationEnvelope.verify : simpl never.
#[local] Arguments is_all_zero : simpl never.
#[local] Arguments contains : simpl never.
#[local] Arguments map_err : simpl nomatch.
#[local] Arguments OperationEnvelope.require_projection : simpl never.

(** ** What verification establishes *)
Section Verify.
Context `{Sha256} `{Ed25519} `{HalfFloat} `{Base64} `{!JsonNumber} `{!JsonSize}.

Lemma sorted_bytes_Ok field l : validate_sorted_bytes field l = Ok tt <-> Sorted.Sorted bytes_lt l.
Proof.
  unfold validate_sorted_bytes, validate_sorted_by.
  rewrite <- (windows_all_Sorted bytes_lt (fun a b => is_lt (bytes_cmp a b)) l).
  - by destruct (windows_all _ l).
  - intros a b. unfold bytes_lt. by destruct (bytes_cmp a b).
Qed.

Lemma grant_validate_key g : grant_validate g = Ok tt -> strong_key (CapabilityGrant.subject g).
Proof.
  unfold grant_validate. intros Hv.
  destruct (public_key (CapabilityGrant.subject g)) as [k|] eqn:Ek; [|discriminate Hv].
  by apply public_key_Ok in Ek as [_ ?].
Qed.

Lemma validate_for_keys b s actor entity parents auth :
  validate_for b s actor entity parents auth = Ok tt -> body_keys b.
Proof.
  unfold validate_for. destruct b as [p|p|p|d| |c|g|r]; cbn [body_keys]; try done;
    destruct (negb _ && _); [done| |done|]; destruct s; try done.
  - destruct (public_key c) as [k|] eqn:Ek; [|done]. by apply public_key_Ok in Ek as [_ ?].
  - apply grant_validate_key.
Qed.

Lemma require_projection_Ok field m : OperationEnvelope.require_projection field m = Ok tt <-> m = true.
Proof. by destruct m. Qed.

Lemma parse_schema_Ok t s : parse_schema t = Ok s <-> t = EntitySchema.as_str s.
Proof.
  split; [|intros ->; apply parse_as_str]. unfold parse_schema. intros Hp.
  repeat match type of Hp with
  | (if list_eqb ?a ?b then _ else _) = _ =>
      let E := fresh in destruct (list_eqb a b) eqn:E;
        [apply list_eqb_eq in E as ->; by injection Hp as <-|]
  end. done.
Qed.

(** The envelope a signed operation with payload [p] and body [b] projects to. *)
Definition envelope_of (p : OperationPayload.t) (schema : EntitySchema.t) (b : OperationBody.t)
    (id cose : list Z) : OperationEnvelope.t :=
  OperationEnvelope.mk _ PROTOCOL_VERSION id (OperationPayload.space_id p)
    (OperationPayload.actor_id p) (OperationPayload.entity_id p) schema
    (OperationPayload.causal_parents p) (OperationPayload.authorization p)
    (OperationPayload.occurred_at_unix_ms p) (OperationPayload.nonce p) b cose.

(** Two encodings of bodies that agree on the wire decode to the same body. *)
Lemma same_wire_body s b v w :
  body_typed b -> body_keys b -> encode_body s b = Ok v -> wf w -> normal w ->
  is_ok (to_canonical_cbor v) = true -> to_canonical_cbor v = to_canonical_cbor w ->
  decode_body s w = Ok b /\ normalize v = w.
Proof.
  intros Ht Hk He Hw Hn Hok Ec. destruct (to_canonical_cbor v) as [bs|] eqn:Ev; [|done].
  pose proof (encode_body_wf s b v Ht He) as Hv.
  destruct (to_canonical_cbor_roundtrip v bs Hv Ev) as (E1 & _).
  destruct (to_canonical_cbor_roundtrip w bs Hw (eq_sym Ec)) as (E2 & _).
  rewrite E1 in E2. injection E2 as E2. rewrite (normalize_fixed w Hn) in E2. subst w.
  split; [|done]. by apply body_roundtrip_normalize.
Qed.

(** The payload behind a parsed operation is typed, valid and normal. *)
Lemma parsed_payload cose s p :
  Forall is_byte cose -> SignedOperation.from_cose_sign1 cose = Ok s ->
  SignedOperation.decode_payload s = Ok p ->
  payload_typed p /\ payload_valid p /\ normal (OperationPayload.body p)
  /\ SignedOperation.payload s = wire (OperationPayload.to_value p) /\ signed_valid s
  /\ cose = cose_bytes (SignedOperation.payload s) (SignedOperation.signature s).
Proof.
  intros Hb Hs Hd. apply from_cose_sign1_Ok in Hs as (Hv & -> & _); [|done].
  assert (Hp : Forall is_byte (SignedOperation.payload s)).
  { destruct Hv as (_ & _ & q & Hq & _ & _ & ->). by apply wire_typed. }
  apply from_canonical_bytes_Ok in Hd as (? & ? & ? & ?); done.
Qed.

(** Everything [verify] establishes of an envelope. *)
Record verified (e : OperationEnvelope.t) (s : SignedOperation.t) (p : OperationPayload.t) : Prop := {
  verified_parses : SignedOperation.from_cose_sign1 (OperationEnvelope.cose_sign1 e) = Ok s;
  verified_encodes : SignedOperation.to_cose_sign1 s = Ok (OperationEnvelope.cose_sign1 e);
  verified_signature : is_ok (SignedOperation.verify s) = true;
  verified_payload : SignedOperation.decode_payload s = Ok p;
  verified_schema : OperationPayload.schema p = EntitySchema.as_str (OperationEnvelope.schema e);
  verified_body :
    decode_body (OperationEnvelope.schema e) (OperationPayload.body p) = Ok (OperationEnvelope.body e);
  verified_fields :
    e = envelope_of p (OperationEnvelope.schema e) (OperationEnvelope.body e)
          (SignedOperation.operation_id s) (OperationEnvelope.cose_sign1 e)
}.

Lemma verify_Ok e :
  Forall is_byte (OperationEnvelope.cose_sign1 e) -> body_typed (OperationEnvelope.body e) ->
  OperationEnvelope.verify e = Ok tt -> exists s p, verified e s p.
Proof.
  intros Hb Ht. unfold OperationEnvelope.verify.
  destruct e as [ver id space actor entity schema parents auth occ nonce body cose].
  cbn [OperationEnvelope.cose_sign1 OperationEnvelope.body] in Hb, Ht. cbn. intros Hv. inv_ok.
  rename a1 into s, a4 into p. exists s, p.
  destruct (parsed_payload cose s p Hb E5 E22) as (Hpt & Hpv & Hpn & _).
  repeat match goal with
  | Hr : OperationEnvelope.require_projection _ _ = Ok tt |- _ => apply require_projection_Ok in Hr
  end.
  unfold list_eqb, eqb in *. bool_prop. subst.
  destruct (same_wire_body a5 body a17 (OperationPayload.body p)) as [Hbody _]; try done.
  - by apply validate_for_keys in Hv.
  - apply Hpt.
  - by rewrite E23.
  - by rewrite E23, E25.
  - constructor; cbn; try done.
    + by rewrite E6.
    + by apply parse_schema_Ok.
Qed.

(** Verification ends with the body's own validation. *)
Lemma verify_validates e :
  OperationEnvelope.verify e = Ok tt ->
  validate_for (OperationEnvelope.body e) (OperationEnvelope.schema e) (OperationEnvelope.actor_id e)
    (OperationEnvelope.entity_id e) (OperationEnvelope.causal_parents e)
    (OperationEnvelope.authorization e) = Ok tt.
Proof. unfold OperationEnvelope.verify. intros Hv. inv_ok. done. Qed.

(** Parsing a verified envelope's bytes; its clients use this form. *)
Lemma verified_envelope_parses (e : OperationEnvelope.t) :
  Forall is_byte (OperationEnvelope.cose_sign1 e) -> body_typed (OperationEnvelope.body e) ->
  OperationEnvelope.verify e = Ok tt ->
  OperationEnvelope.from_cose_sign1 (OperationEnvelope.cose_sign1 e) = Ok e.
Proof.
  intros Hb Ht Hv. destruct (verify_Ok e Hb Ht Hv) as (s & p & []).
  unfold OperationEnvelope.from_cose_sign1, OperationEnvelope.from_trust_signed.
  rewrite verified_parses0. cbn [map_err].
  destruct (SignedOperation.verify s); [|done]. cbn [map_err].
  rewrite verified_payload0. cbn [map_err].
  rewrite verified_schema0, parse_as_str, verified_body0, verified_encodes0. cbn [map_err].
  fold (envelope_of p (OperationEnvelope.schema e) (OperationEnvelope.body e)
    (SignedOperation.operation_id s) (OperationEnvelope.cose_sign1 e)).
  rewrite <- verified_fields0. by rewrite Hv.
Qed.

(** C9: a verified envelope is exactly what its COSE bytes say: no field of the
    JSON projection, body included, can differ from the signed payload. *)
Theorem verified_envelope_bound (e : OperationEnvelope.t) :
  Forall is_byte (OperationEnvelope.cose_sign1 e) -> body_typed (OperationEnvelope.body e) ->
  OperationEnvelope.verify e = Ok tt ->
  OperationEnvelope.from_cose_sign1 (OperationEnvelope.cose_sign1 e) = Ok e.
Proof. apply verified_envelope_parses. Qed.

(** What is read from COSE bytes verifies, and re-encodes to the same bytes. *)
Theorem from_cose_verifies (bytes : list Z) (e : OperationEnvelope.t) :
  Forall is_byte bytes -> OperationEnvelope.from_cose_sign1 bytes = Ok e ->
  OperationEnvelope.verify e = Ok tt /\ OperationEnvelope.cose_sign1 e = bytes.
Proof.
  intros Hb. unfold OperationEnvelope.from_cose_sign1, OperationEnvelope.from_trust_signed.
  intros He. inv_ok. split; [done|]. cbn [OperationEnvelope.cose_sign1].
  match goal with
  | Hf : SignedOperation.from_cose_sign1 bytes = Ok _, Ht : SignedOperation.to_cose_sign1 _ = Ok _ |- _ =>
      apply from_cose_sign1_Ok in Hf as ((_ & Hs & p & Hp & _ & _ & Ew) & -> & _); [|done];
      apply to_cose_sign1_Ok in Ht as [-> _]; [done| |apply Hs]
  end.
  rewrite Ew. by apply wire_typed.
Qed.

(** ** Signing *)
Lemma list_eqb_by_refl {A} (f : A -> A -> bool) l :
  (forall a, a ∈ l -> f a a = true) -> list_eqb_by f l l = true.
Proof.
  induction l as [|a l IH]; intros Hf; [done|]. cbn. rewrite Hf by left. apply IH.
  intros b Hin. apply Hf. by right.
Qed.

Lemma json_eqb_refl j : json_eqb j j = true.
Proof.
  induction j as [| b|n|t|vs IH|vs IH] using Json_nested_ind; cbn.
  - done.
  - by destruct b.
  - apply number_eqb_refl.
  - by apply list_eqb_eq.
  - by apply list_eqb_by_refl.
  - apply list_eqb_by_refl. intros e He. rewrite IH by done. by rewrite (proj2 (list_eqb_eq _ _) eq_refl).
Qed.

Lemma metadata_eqb_refl m : metadata_eqb m m = true.
Proof.
  apply list_eqb_by_refl. intros e He. by rewrite json_eqb_refl, (proj2 (list_eqb_eq _ _) eq_refl).
Qed.

Lemma eqb_refl' {A} `{EqDecision A} (a : A) : eqb a a = true.
Proof. unfold eqb. by apply bool_decide_eq_true. Qed.

Lemma body_eqb_refl b : body_eqb b b = true.
Proof.
  destruct b as [[d|e r]|[d|e r]|[d|e r]|d| |c|g|r]; unfold body_eqb, protected_eqb, record_eqb,
    tag_eqb, event_eqb, profile_eqb; rewrite ?metadata_eqb_refl, ?eqb_refl'; try done.
  by apply list_eqb_eq.
Qed.

Lemma within_limits_mono v : forall d d', within_limits d v -> d' <= d -> within_limits d' v.
Proof.
  induction v as [v Hl|vs IH|vs IH] using CV_nested_ind; intros d d' Hd Hle.
  - destruct v; cbn in *; try done; destruct Hd; split; try done; lia.
  - apply within_limits_Array in Hd as (? & ? & Hv). apply within_limits_Array.
    split; [lia|]. split; [done|]. intros v Hin. apply (IH v Hin (d + 1)); [auto|lia].
  - apply within_limits_Map in Hd as (? & ? & ? & Hv). apply within_limits_Map.
    split; [lia|]. do 2 (split; [done|]). intros kv Hin. destruct (IH kv Hin) as [IHk IHv], (Hv kv Hin).
    split; [apply (IHk (d + 1))|apply (IHv (d + 1))]; try done; lia.
Qed.

Lemma body_encodes p :
  payload_typed p -> payload_valid p ->
  to_canonical_cbor (OperationPayload.body p) = Ok (wire (OperationPayload.body p)).
Proof.
  intros Ht Hv. apply to_canonical_cbor_Ok; [apply Ht|].
  pose proof (valid_body_limits p Hv) as Hl. split; [by apply (within_limits_mono _ 1)|].
  split; [done|]. destruct Hv as [_ _ _ _ _ _ _ _ Hs]. unfold fits in *.
  unfold OperationPayload.to_value in Hs. cbn [wire List.map concat] in Hs.
  rewrite !length_app in Hs. lia.
Qed.

Lemma validate_for_sorted b s actor entity parents auth :
  validate_for b s actor entity (sort_bytes parents) (sort_bytes auth)
  = validate_for b s actor entity parents auth.
Proof.
  assert (He : forall l, is_empty (sort_bytes l) = is_empty l).
  { intros l. pose proof (sort_bytes_length l) as Hl. destruct (sort_bytes l), l; done. }
  unfold validate_for. by rewrite !He.
Qed.

(** Every body survives the wire: its canonical bytes decode to a value from
    which [decode_body] rebuilds the body, metadata maps included. *)
Theorem body_roundtrip (schema : EntitySchema.t) (body : OperationBody.t) (v : CV) (bytes : list Z) :
  body_typed body -> body_keys body ->
  encode_body schema body = Ok v -> to_canonical_cbor v = Ok bytes ->
  exists w, from_canonical_cbor bytes = Ok w /\ decode_body schema w = Ok body.
Proof.
  intros Ht Hk He Hb. exists (normalize v). split; [|by apply body_roundtrip_normalize].
  apply to_canonical_cbor_roundtrip; [|done]. by apply (encode_body_wf schema body).
Qed.

Section Sign.
Variables (space entity : list Z) (schema : EntitySchema.t) (parents auth : list (list Z))
  (occ : Z) (nonce : list Z) (body : OperationBody.t) (seed : list Z).
Hypothesis Hspace : fixed 32 space.
Hypothesis Hentity : fixed 16 entity.
Hypothesis Hparents : Forall (fixed 32) parents.
Hypothesis Hauth : Forall (fixed 32) auth.
Hypothesis Hocc : in_i 64 occ.
Hypothesis Hnonce : fixed 16 nonce.
Hypothesis Hbody : body_typed body.

(** The payload [sign] builds from the canonical body [v]. *)
Definition payload_of (v : CV) : OperationPayload.t :=
  OperationPayload.mk space (signing_identity seed) entity (EntitySchema.as_str schema)
    (sort_bytes parents) (sort_bytes auth) occ nonce v.

Lemma payload_of_typed v : encode_body schema body = Ok v -> payload_typed (payload_of v).
Proof.
  intros Hv. constructor; cbn; try done.
  - apply verifying_key_fixed.
  - split; [by destruct schema; apply str_bytes|by destruct schema].
  - by rewrite sort_bytes_perm.
  - by rewrite sort_bytes_perm.
  - by apply (encode_body_wf schema body).
Qed.

(** What a signed operation of this payload is. *)
Lemma signed_payload v s :
  encode_body schema body = Ok v -> payload_valid (payload_of v) ->
  Trust.sign (payload_of v) seed = Ok s ->
  is_ok (SignedOperation.verify s) = true
  /\ SignedOperation.decode_payload s = Ok (with_body (payload_of v) (normalize v))
  /\ (forall cose, SignedOperation.to_cose_sign1 s = Ok cose ->
        SignedOperation.from_cose_sign1 cose = Ok s).
Proof.
  intros Hv Hp Hs. pose proof (payload_of_typed v Hv) as Ht.
  destruct (sign_verified _ _ _ Ht Hs) as (-> & _ & Hc). split; [done|]. split; [|done].
  unfold Trust.sign, SignedOperation.sign_canonical in Hs. inv_ok.
  unfold SignedOperation.decode_payload. cbn [SignedOperation.payload].
  apply canonical_bytes_Ok in E0 as (_ & -> & _); [|done].
  by rewrite (payload_decode (payload_of v)).
Qed.

(** The projection of the signed payload verifies. *)
Lemma projection_verifies v s cose :
  encode_body schema body = Ok v -> payload_valid (payload_of v) ->
  Trust.sign (payload_of v) seed = Ok s -> SignedOperation.to_cose_sign1 s = Ok cose ->
  SignedOperation.operation_id s ∉ sort_bytes parents ->
  validate_for body schema (signing_identity seed) entity parents auth = Ok tt ->
  OperationEnvelope.verify
    (envelope_of (payload_of v) schema body (SignedOperation.operation_id s) cose) = Ok tt.
Proof.
  intros Hv Hp Hs Hc Hid Hval. destruct (signed_payload v s Hv Hp Hs) as (Hsig & Hdec & Hpar).
  pose proof (payload_of_typed v Hv) as Ht. pose proof (validate_for_keys _ _ _ _ _ _ Hval) as Hk.
  unfold OperationEnvelope.verify, envelope_of. cbn. rewrite (valid_entity _ Hp : is_all_zero entity = false).
  rewrite !(proj2 (sorted_bytes_Ok _ _)) by apply Hp.
  unfold contains. rewrite bool_decide_false by done.
  rewrite (Hpar cose Hc). cbn. destruct (SignedOperation.verify s); [|done]. cbn.
  rewrite Hc. cbn. rewrite (proj2 (list_eqb_eq _ _) eq_refl). cbn.
  rewrite Hdec. cbn. rewrite parse_as_str, (body_roundtrip_normalize schema body v) by done. cbn.
  unfold OperationEnvelope.require_projection.
  rewrite !(proj2 (list_eqb_eq _ _) eq_refl), !eqb_refl', Z.eqb_refl, body_eqb_refl, Hv.
  destruct (normalized_payload _ Ht Hp) as (Ht' & Hp' & _).
  pose proof (body_encodes _ Ht Hp) as E1. pose proof (body_encodes _ Ht' Hp') as E2. cbn in E1, E2.
  pose proof (proj1 (normalize_good v 1 (typed_body _ Ht) (valid_body_limits _ Hp))) as Ew.
  rewrite Ew in E2. rewrite E1, E2. cbn. rewrite (proj2 (list_eqb_eq _ _) eq_refl).
  by rewrite validate_for_sorted.
Qed.

Lemma sign_Ok e :
  OperationEnvelope.sign space entity schema parents auth occ nonce body seed = Ok e
  <-> validate_for body schema (signing_identity seed) entity parents auth = Ok tt
      /\ OperationEnvelope.verify e = Ok tt
      /\ exists v s cose, encode_body schema body = Ok v /\ payload_valid (payload_of v)
           /\ Trust.sign (payload_of v) seed = Ok s /\ SignedOperation.to_cose_sign1 s = Ok cose
           /\ SignedOperation.operation_id s ∉ sort_bytes parents
           /\ e = envelope_of (payload_of v) schema body (SignedOperation.operation_id s) cose.
Proof.
  assert (Hnew : forall v p, encode_body schema body = Ok v ->
    OperationPayload.new space (signing_identity seed) entity (EntitySchema.as_str schema)
      parents auth occ nonce v = Ok p <-> p = payload_of v /\ payload_valid p).
  { intros v p Hv. apply new_Ok. by apply payload_of_typed. }
  unfold OperationEnvelope.sign. split.
  - intros He. inv_ok. apply Hnew in E3 as [-> Hp]; [|done].
    destruct (signed_payload a0 a2 E1 Hp E4) as (Hsig & Hdec & _).
    unfold OperationEnvelope.from_trust_signed in He. rewrite Hdec in He. cbn in He.
    rewrite parse_as_str, (body_roundtrip_normalize schema body a0) in He;
      [|done|by apply validate_for_keys in E0|done].
    inv_ok. split; [done|]. split; [done|].
    match goal with Hc : SignedOperation.to_cose_sign1 a2 = Ok ?c |- _ => exists a0, a2, c end.
    do 4 (split; [done|]). split; [|done].
    intros Hin. match goal with Hv : OperationEnvelope.verify _ = Ok tt |- _ =>
      unfold OperationEnvelope.verify in Hv; cbn in Hv end.
    inv_ok. match goal with Hc : contains _ _ = false |- _ =>
      unfold contains in Hc; by rewrite bool_decide_true in Hc end.
  - intros (Hval & Hver & v & s & cose & Hv & Hp & Hs & Hc & Hid & ->).
    rewrite (valid_entity _ Hp : is_all_zero entity = false), Hval, Hv.
    rewrite (proj2 (Hnew v _ Hv)) by done. cbn. rewrite Hs. cbn.
    destruct (signed_payload v s Hv Hp Hs) as (Hsig & Hdec & _).
    unfold OperationEnvelope.from_trust_signed. rewrite Hdec. cbn.
    destruct (SignedOperation.verify s); [|done]. cbn.
    rewrite parse_as_str, (body_roundtrip_normalize schema body v); [|done|by apply validate_for_keys in Hval|done].
    rewrite Hc. cbn. change (OperationEnvelope.verify _) with (OperationEnvelope.verify
      (envelope_of (payload_of v) schema body (SignedOperation.operation_id s) cose)).
    by rewrite Hver.
Qed.

(** [sign] succeeds exactly when the body is valid for its operation, the
    payload can be built and signed, its envelope fits, and no parent is the
    operation itself; the result carries exactly what was asked to be signed (digest
    sets in ascending order) and verifies. *)
Theorem envelope_sign_spec (e : OperationEnvelope.t) :
  OperationEnvelope.sign space entity schema parents auth occ nonce body seed = Ok e
  <-> validate_for body schema (signing_identity seed) entity parents auth = Ok tt
      /\ OperationEnvelope.verify e = Ok tt
      /\ exists v s cose, encode_body schema body = Ok v /\ payload_valid (payload_of v)
           /\ Trust.sign (payload_of v) seed = Ok s /\ SignedOperation.to_cose_sign1 s = Ok cose
           /\ SignedOperation.operation_id s ∉ sort_bytes parents
           /\ e = envelope_of (payload_of v) schema body (SignedOperation.operation_id s) cose.
Proof. exact (sign_Ok e). Qed.
(** The fields of a signed operation. *)
Lemma sign_fields e :
  OperationEnvelope.sign space entity schema parents auth occ nonce body seed = Ok e ->
  OperationEnvelope.verify e = Ok tt /\ Forall is_byte (OperationEnvelope.cose_sign1 e)
  /\ fixed 32 (OperationEnvelope.operation_id e)
  /\ OperationEnvelope.space_id e = space /\ OperationEnvelope.actor_id e = signing_identity seed
  /\ OperationEnvelope.entity_id e = entity /\ OperationEnvelope.schema e = schema
  /\ OperationEnvelope.causal_parents e = sort_bytes parents
  /\ OperationEnvelope.authorization e = sort_bytes auth
  /\ OperationEnvelope.occurred_at_unix_ms e = occ /\ OperationEnvelope.nonce e = nonce
  /\ OperationEnvelope.body e = body.
Proof.
  intros (_ & Hv & v & s & cose & He & Hp & Hs & Hc & _ & ->)%sign_Ok. split; [done|].
  pose proof (payload_of_typed v He) as Ht. unfold Trust.sign, SignedOperation.sign_canonical in Hs. inv_ok.
  split; [|split; [apply sha256_fixed|done]]. cbn.
  apply canonical_bytes_Ok in E0 as (_ & -> & _); [|done].
  assert (Hb : Forall is_byte (wire (OperationPayload.to_value (payload_of v)))) by by apply wire_typed.
  apply to_cose_sign1_Ok in Hc as [-> _]; cbn [SignedOperation.payload SignedOperation.signature];
    [apply cose_bytes_byte| |]; first [exact Hb|apply ed25519_sign_fixed].
Qed.
End Sign.
End Verify.

(** ** Witnesses *)
Lemma sample_put_typed : body_typed (OperationEnvelope.body sample_put).
Proof. exact sample_body_typed. Qed.

Lemma sample_put_bytes : Forall is_byte (OperationEnvelope.cose_sign1 sample_put).
Proof. apply (bool_decide_eq_true_1 (Forall is_byte _)). vm_compute. reflexivity. Qed.

Lemma verified_envelope_bound_witness :
  OperationEnvelope.from_cose_sign1 (OperationEnvelope.cose_sign1 sample_put) = Ok sample_put.
Proof.
  apply (verified_envelope_bound sample_put sample_put_bytes sample_put_typed). by_vm.
Defined.

Lemma from_cose_verifies_witness :
  OperationEnvelope.verify sample_put = Ok tt
  /\ OperationEnvelope.cose_sign1 sample_put = OperationEnvelope.cose_sign1 sample_put.
Proof.
  apply (from_cose_verifies (OperationEnvelope.cose_sign1 sample_put) sample_put sample_put_bytes).
  by_vm.
Defined.

Lemma sample_key_strong : strong_key sample_seed.
Proof. split; vm_compute; reflexivity. Qed.

Lemma body_roundtrip_witness :
  exists v bytes w, encode_body EntitySchema.Record_ sample_body = Ok v
    /\ from_canonical_cbor bytes = Ok w /\ decode_body EntitySchema.Record_ w = Ok sample_body.
Proof.
  destruct (encode_body EntitySchema.Record_ sample_body) as [v|] eqn:Ev; [|by vm_compute in Ev].
  destruct (to_canonical_cbor v) as [bytes|] eqn:Eb; [|by vm_compute in Ev; simplify_eq; vm_compute in Eb].
  destruct (body_roundtrip EntitySchema.Record_ sample_body v bytes sample_body_typed I Ev Eb)
    as (w & ? & ?).
  by exists v, bytes, w.
Defined.

Lemma envelope_sign_spec_witness :
  exists e, validate_for sample_body EntitySchema.Record_ (signing_identity sample_seed)
    sample_entity [] [sample_grant] = Ok tt /\ OperationEnvelope.verify e = Ok tt.
Proof.
  exists sample_put. pose proof sample_put_signed as Hs.
  apply envelope_sign_spec in Hs.
  - exact (conj (proj1 Hs) (proj1 (proj2 Hs))).
  - apply (bool_decide_eq_true_1 (fixed 32 sample_space)). vm_compute. reflexivity.
  - apply (bool_decide_eq_true_1 (fixed 16 sample_entity)). vm_compute. reflexivity.
  - constructor.
  - apply (bool_decide_eq_true_1 (Forall (fixed 32) [sample_grant])). vm_compute. reflexivity.
  - unfold in_i. lia.
  - apply (bool_decide_eq_true_1 (fixed 16 (replicate 15 0 ++ [1]))). vm_compute. reflexivity.
  - exact sample_body_typed.
Defined.
