(* ===== verification/Authorization.v ===== *)
(** * Capability-chain evaluation (crates/fractonica-application/src/authorization.rs)

    The evaluator reads the store through a [CapabilityView] and resolves every
    signed authorization reference to an effective authority.  Its mutable context
    (visit counter and stack of ids being resolved) is passed explicitly; an error
    ends the evaluation, so only successful calls return a context.

    The recursion has no structural measure: every nested call counts a visit and
    visits stop at [MAX_AUTHORIZATION_GRAPH_VISITS], so [RESOLVE_FUEL], one more
    than the calls that can pass the check, is never exhausted; the fuel arm repeats
    the error of the visit check ([AuthorizationTheory.resolve_fuel]). *)
From S2P Require Import Prelude Bytes Floats Crypto Content Cbor Trust DataModel CanonicalBody Envelope.

Definition MAX_AUTHORIZATION_GRAPH_VISITS : Z := 4096.
Definition RESOLVE_FUEL : nat := 4098.

(** [CapabilityViewError]: its detail text. *)
Definition CapabilityViewError : Type := list Z.

(** The store adapter. *)
Class CapabilityView `{JsonNumber} := {
  trusted_genesis : list Z -> result CapabilityViewError (option (list Z));
  view_operation : list Z -> list Z -> result CapabilityViewError (option OperationEnvelope.t);
  is_revoked : list Z -> list Z -> result CapabilityViewError bool
}.

(** [InvalidStoredOperation] carries the verification error, or none when the
    lookup returned another operation. *)
Inductive AuthorizationError : Type :=
| Required
| Missing (id : list Z)
| CrossSpaceReference (id : list Z)
| NotCapability (id : list Z)
| UntrustedGenesis (id : list Z)
| Revoked (id : list Z)
| SubjectMismatch (grant_id subject actor : list Z)
| OutsideAdmissionWindow (grant_id : list Z) (now_unix_ms : Z)
| Denied
| Cycle (id : list Z)
| GraphTooLarge
| InvalidStoredOperation (id : list Z) (error : option DataModelError)
| View (e : CapabilityViewError).

(** ** Scope comparison *)

(** [slice::binary_search_by]: the interval [base, base + size) shrinks to one
    element, which is then compared. *)
Fixpoint binary_search_loop {T} (fuel : nat) (compare : T -> comparison) (slice : list T)
    (base size : nat) : option nat :=
  match fuel with
  | O => None
  | S fuel =>
      if (size <=? 1)%nat then
        match slice !! base with
        | Some x => match compare x with Eq => Some base | _ => None end
        | None => None
        end
      else
        let half := (size / 2)%nat in
        let mid := (base + half)%nat in
        let base := match slice !! mid with
                    | Some x => match compare x with Gt => base | _ => mid end
                    | None => base
                    end in
        binary_search_loop fuel compare slice base (size - half)
  end.

(** The position found, if any; [size] halves, so its value is fuel enough. *)
Definition binary_search_by {T} (compare : T -> comparison) (slice : list T) : option nat :=
  binary_search_loop (S (length slice)) compare slice 0 (length slice).

Definition is_subset_by {T K} (key : T -> K) (compare : K -> K -> comparison)
    (child parent : list T) : bool :=
  forallb (fun child_value =>
    is_some (binary_search_by (fun parent_value => compare (key parent_value) (key child_value))
               parent)) child.

(** [is_subset] at the derived order of the element type. *)
Definition is_subset_rank {T} (rank : T -> Z) : list T -> list T -> bool :=
  is_subset_by rank Z.compare.
Definition is_subset_bytes : list (list Z) -> list (list Z) -> bool :=
  is_subset_by (fun s => s) bytes_cmp.

Definition maximum_is_narrower (child parent : option Z) : bool :=
  match child, parent with
  | None, None => true
  | Some _, None => true
  | Some child, Some parent => child <=? parent
  | None, Some _ => false
  end.

Definition lower_bound_is_narrower (child parent : option Z) : bool :=
  match child, parent with
  | None, None => true
  | Some _, None => true
  | Some child, Some parent => parent <=? child
  | None, Some _ => false
  end.

Definition upper_bound_is_narrower (child parent : option Z) : bool :=
  match child, parent with
  | None, None => true
  | Some _, None => true
  | Some child, Some parent => child <=? parent
  | None, Some _ => false
  end.

(** The closure [scope_is_narrower] of [permits_delegation]. *)
Definition scope_is_narrower (parent child : CapabilityGrant.t) : bool :=
  is_subset_rank CapabilityAction.rank (CapabilityGrant.actions child) (CapabilityGrant.actions parent)
  && is_subset_by EntitySchema.as_str bytes_cmp (CapabilityGrant.schemas child)
       (CapabilityGrant.schemas parent)
  && is_subset_rank Visibility.rank (CapabilityGrant.visibilities child)
       (CapabilityGrant.visibilities parent)
  && is_subset_bytes (CapabilityGrant.content_roles child) (CapabilityGrant.content_roles parent)
  && maximum_is_narrower (CapabilityGrant.max_resource_byte_length child)
       (CapabilityGrant.max_resource_byte_length parent)
  && lower_bound_is_narrower (CapabilityGrant.not_before_unix_ms child)
       (CapabilityGrant.not_before_unix_ms parent)
  && upper_bound_is_narrower (CapabilityGrant.expires_at_unix_ms child)
       (CapabilityGrant.expires_at_unix_ms parent).

Definition permits_delegation (parent child : CapabilityGrant.t) : bool :=
  let attenuated :=
    contains CapabilityAction.IssueCapability (CapabilityGrant.actions parent)
    && (0 <? CapabilityGrant.delegation_depth parent)
    && (CapabilityGrant.delegation_depth child <? CapabilityGrant.delegation_depth parent)
    && scope_is_narrower parent child in
  let workspace_link :=
    contains CapabilityAction.LinkWorkspace (CapabilityGrant.actions parent)
    && contains CapabilityAction.LinkWorkspace (CapabilityGrant.actions child)
    && negb (contains CapabilityAction.IssueCapability (CapabilityGrant.actions child))
    && negb (contains CapabilityAction.RevokeCapability (CapabilityGrant.actions child))
    && (CapabilityGrant.delegation_depth child =? 0)
    && scope_is_narrower parent child in
  attenuated || workspace_link.

Definition permits_append (grant : CapabilityGrant.t) (schema : EntitySchema.t)
    (visibility : Visibility.t) : bool :=
  if negb (contains CapabilityAction.AppendOperation (CapabilityGrant.actions grant))
     || negb (contains schema (CapabilityGrant.schemas grant))
  then false
  else contains visibility (CapabilityGrant.visibilities grant).

Definition window_contains (grant : CapabilityGrant.t) (now_unix_ms : Z) : bool :=
  match CapabilityGrant.not_before_unix_ms grant with
  | Some start => start <=? now_unix_ms
  | None => true
  end
  && match CapabilityGrant.expires_at_unix_ms grant with
     | Some end_ => now_unix_ms <? end_
     | None => true
     end.

(** ** Authority *)
Inductive RequiredAuthority : Type :=
| Append (schema : EntitySchema.t) (visibility : Visibility.t)
| Issue (grant : CapabilityGrant.t)
| Revoke.

Inductive EffectiveAuthority : Type :=
| RootController
| Grant (grant : CapabilityGrant.t).

Definition permits_action (a : EffectiveAuthority) (action : CapabilityAction.t) : bool :=
  match a with
  | RootController => false
  | Grant grant => contains action (CapabilityGrant.actions grant)
  end.

Definition permits (a : EffectiveAuthority) (required : RequiredAuthority) : bool :=
  match a, required with
  | RootController, Issue _ | RootController, Revoke => true
  | RootController, Append _ _ => false
  | Grant grant, Append schema visibility => permits_append grant schema visibility
  | Grant grant, Issue child => permits_delegation grant child
  | Grant grant, Revoke => contains CapabilityAction.RevokeCapability (CapabilityGrant.actions grant)
  end.

(** The mutable part of [EvaluationContext]. *)
Record Context_ : Type := mkContext { visits : Z; stack : gset (list Z) }.

Section Evaluation.
Context `{Sha256} `{Ed25519} `{HalfFloat} `{Base64} `{!JsonNumber} `{!JsonSize} `{!CapabilityView}.

Definition for_operation (operation : OperationEnvelope.t) (visibility : option Visibility.t) :
    result AuthorizationError RequiredAuthority :=
  match OperationEnvelope.schema operation, OperationEnvelope.body operation with
  | (EntitySchema.Record_ | EntitySchema.Tag | EntitySchema.Event | EntitySchema.Profile) as schema,
    (OperationBody.PutRecord _ | OperationBody.PutTag _ | OperationBody.PutEvent _
    | OperationBody.PutProfile _ | OperationBody.Tombstone) =>
      match visibility with
      | Some visibility => Ok (Append schema visibility)
      | None => Err Denied
      end
  | EntitySchema.CapabilityGrant, OperationBody.CapabilityGrant grant => Ok (Issue grant)
  | EntitySchema.CapabilityRevoke, OperationBody.CapabilityRevoke _ => Ok Revoke
  | _, _ => Err Denied
  end.

(** The loop of [resolve_set]. *)
Fixpoint resolve_each
    (resolve : list Z -> Context_ -> result AuthorizationError (EffectiveAuthority * Context_))
    (references : list (list Z)) (c : Context_) :
    result AuthorizationError (list EffectiveAuthority * Context_) :=
  match references with
  | [] => Ok ([], c)
  | reference :: references =>
      let? (authority, c) := resolve reference c in
      let? (resolved, c) := resolve_each resolve references c in
      Ok (authority :: resolved, c)
  end.

Definition resolve_set_with
    (resolve : list Z -> Context_ -> result AuthorizationError (EffectiveAuthority * Context_))
    (references : list (list Z)) (c : Context_) :
    result AuthorizationError (list EffectiveAuthority * Context_) :=
  match references with
  | [] => Err Required
  | _ => resolve_each resolve references c
  end.

(** [resolve_inner]; [recurse subject] resolves a reference for [subject]. *)
Definition resolve_inner (now_unix_ms : Z) (space_id expected_subject operation_id : list Z)
    (recurse : list Z -> list Z -> Context_ ->
       result AuthorizationError (EffectiveAuthority * Context_)) (c : Context_) :
    result AuthorizationError (EffectiveAuthority * Context_) :=
  let? found := map_err View (view_operation space_id operation_id) in
  let? operation := ok_or found (Missing operation_id) in
  check map_err (fun e => InvalidStoredOperation operation_id (Some e))
    (OperationEnvelope.verify operation);
  if negb (list_eqb (OperationEnvelope.operation_id operation) operation_id)
  then Err (InvalidStoredOperation operation_id None)
  else if negb (list_eqb (OperationEnvelope.space_id operation) space_id)
  then Err (CrossSpaceReference operation_id)
  else match OperationEnvelope.schema operation, OperationEnvelope.body operation with
  | EntitySchema.SpaceGenesis, OperationBody.SpaceGenesis controller =>
      let? trusted := map_err View (trusted_genesis space_id) in
      if negb (bool_decide (trusted = Some operation_id)) then Err (UntrustedGenesis operation_id)
      else if negb (list_eqb controller expected_subject)
              || negb (list_eqb (OperationEnvelope.actor_id operation) expected_subject)
      then Err (SubjectMismatch operation_id controller expected_subject)
      else Ok (RootController, c)
  | EntitySchema.CapabilityGrant, OperationBody.CapabilityGrant grant =>
      if negb (list_eqb (CapabilityGrant.subject grant) expected_subject)
      then Err (SubjectMismatch operation_id (CapabilityGrant.subject grant) expected_subject)
      else
        let? revoked := map_err View (is_revoked space_id operation_id) in
        if revoked : bool then Err (Revoked operation_id)
        else if negb (window_contains grant now_unix_ms)
        then Err (OutsideAdmissionWindow operation_id now_unix_ms)
        else
          let? (issuers, c) :=
            resolve_set_with (recurse (OperationEnvelope.actor_id operation))
              (OperationEnvelope.authorization operation) c in
          if negb (forallb (fun issuer => permits issuer (Issue grant)) issuers)
          then Err Denied
          else Ok (Grant grant, c)
  | _, _ => Err (NotCapability operation_id)
  end.

Fixpoint resolve (fuel : nat) (now_unix_ms : Z) (space_id expected_subject operation_id : list Z)
    (c : Context_) : result AuthorizationError (EffectiveAuthority * Context_) :=
  match fuel with
  | O => Err GraphTooLarge
  | S fuel =>
      let count := sat_u 64 (visits c + 1) in
      if MAX_AUTHORIZATION_GRAPH_VISITS <? count then Err GraphTooLarge
      else if bool_decide (operation_id ∈ stack c) then Err (Cycle operation_id)
      else
        let? (authority, c) :=
          resolve_inner now_unix_ms space_id expected_subject operation_id
            (fun subject reference c => resolve fuel now_unix_ms space_id subject reference c)
            (mkContext count ({[operation_id]} ∪ stack c)) in
        Ok (authority, mkContext (visits c) (stack c ∖ {[operation_id]}))
  end.

Definition resolve_set (now_unix_ms : Z) (space_id expected_subject : list Z)
    (references : list (list Z)) :
    result AuthorizationError (list EffectiveAuthority * Context_) :=
  resolve_set_with (resolve RESOLVE_FUEL now_unix_ms space_id expected_subject) references
    (mkContext 0 ∅).

Definition authorize_operation_for_visibility (operation : OperationEnvelope.t) (now_unix_ms : Z)
    (visibility : option Visibility.t) : result AuthorizationError unit :=
  if is_empty (OperationEnvelope.authorization operation) then Err Required
  else
    let? required := for_operation operation visibility in
    let? (authorities, _) :=
      resolve_set now_unix_ms (OperationEnvelope.space_id operation)
        (OperationEnvelope.actor_id operation) (OperationEnvelope.authorization operation) in
    if forallb (fun authority => permits authority required) authorities then Ok tt else Err Denied.

Definition authorize_operation (operation : OperationEnvelope.t) (now_unix_ms : Z) :
    result AuthorizationError unit :=
  authorize_operation_for_visibility operation now_unix_ms
    (OperationBody.declared_visibility (OperationEnvelope.body operation)).

Definition authorize_capability_action (space_id subject : list Z) (references : list (list Z))
    (action : CapabilityAction.t) (now_unix_ms : Z) : result AuthorizationError unit :=
  let? (authorities, _) := resolve_set now_unix_ms space_id subject references in
  if forallb (fun authority => permits_action authority action) authorities then Ok tt else Err Denied.
End Evaluation.
