(* ===== verification/AuthorizationSamples.v ===== *)
(** * A concrete space for the authorization witnesses

    A genesis, a grant its controller issued to a device, a link the device issued
    in turn, and a record the device signed; [sample_view] is the store that admits
    them.  Bytes are evaluated once, as in [Samples]. *)
From S2P Require Import Prelude Bytes Floats Crypto Content Cbor.
From S2P Require Import Trust TrustTheory DataModel CanonicalBody Envelope Samples Authorization.

Definition device_seed : list Z := replicate 31 0 ++ [8].

(** The operation signed by [seed] and its bytes. *)
Definition signed_at (entity : list Z) (schema : EntitySchema.t) (authorization : list (list Z))
    (nonce : Z) (body : OperationBody.t) (seed : list Z) : list Z * list Z :=
  signed_bytes (OperationEnvelope.sign sample_space entity schema [] authorization 1700000002000
                  (replicate 15 0 ++ [nonce]) body seed).
Definition operation_at (entity : list Z) (schema : EntitySchema.t) (authorization : list (list Z))
    (nonce : Z) (body : OperationBody.t) (seed : list Z) (signed : list Z * list Z) :
    OperationEnvelope.t :=
  OperationEnvelope.mk _ PROTOCOL_VERSION (fst signed) sample_space seed entity schema []
    authorization 1700000002000 (replicate 15 0 ++ [nonce]) body (snd signed).

Definition genesis_bytes : list Z * list Z :=
  Eval vm_compute in
    signed_at sample_entity EntitySchema.SpaceGenesis [] 1 (OperationBody.SpaceGenesis sample_seed)
      sample_seed.
Definition genesis_operation : OperationEnvelope.t :=
  operation_at sample_entity EntitySchema.SpaceGenesis [] 1 (OperationBody.SpaceGenesis sample_seed)
    sample_seed genesis_bytes.

(** The device may append public records and link workspaces, during one window. *)
Definition device_grant : CapabilityGrant.t :=
  CapabilityGrant.mk device_seed
    [CapabilityAction.AppendOperation; CapabilityAction.IssueCapability; CapabilityAction.LinkWorkspace]
    [EntitySchema.Record_] [Visibility.Public] [] (Some 1000) (Some 1700000000000) (Some 1800000000000)
    1 (str "device").
Definition link_grant : CapabilityGrant.t :=
  CapabilityGrant.mk sample_seed [CapabilityAction.LinkWorkspace]
    [] [] [] (Some 500) (Some 1700000000000) (Some 1750000000000) 0 (str "link").

Definition grant_bytes : list Z * list Z :=
  Eval vm_compute in
    signed_at sample_entity EntitySchema.CapabilityGrant [fst genesis_bytes] 2
      (OperationBody.CapabilityGrant device_grant) sample_seed.
Definition grant_operation : OperationEnvelope.t :=
  operation_at sample_entity EntitySchema.CapabilityGrant [fst genesis_bytes] 2
    (OperationBody.CapabilityGrant device_grant) sample_seed grant_bytes.

Definition record_bytes : list Z * list Z :=
  Eval vm_compute in
    signed_at sample_entity EntitySchema.Record_ [fst grant_bytes] 3 sample_body device_seed.
Definition record_operation : OperationEnvelope.t :=
  operation_at sample_entity EntitySchema.Record_ [fst grant_bytes] 3 sample_body device_seed
    record_bytes.

Definition link_bytes : list Z * list Z :=
  Eval vm_compute in
    signed_at sample_entity EntitySchema.CapabilityGrant [fst grant_bytes] 4
      (OperationBody.CapabilityGrant link_grant) device_seed.
Definition link_operation : OperationEnvelope.t :=
  operation_at sample_entity EntitySchema.CapabilityGrant [fst grant_bytes] 4
    (OperationBody.CapabilityGrant link_grant) device_seed link_bytes.

Definition sample_view : CapabilityView := {|
  trusted_genesis := fun space => Ok (if list_eqb space sample_space then Some (fst genesis_bytes) else None);
  view_operation := fun _ id =>
    Ok (if list_eqb id (fst genesis_bytes) then Some genesis_operation
        else if list_eqb id (fst grant_bytes) then Some grant_operation
        else if list_eqb id (fst link_bytes) then Some link_operation
        else None);
  is_revoked := fun _ _ => Ok false
|}.
#[export] Existing Instance sample_view.

(** Evaluation accepts the record, the link, and the link as a workspace action. *)
Lemma record_admitted :
  authorize_operation_for_visibility record_operation 1700000002000 (Some Visibility.Public) = Ok tt.
Proof. by_vm. Qed.
Lemma link_admitted :
  authorize_operation_for_visibility link_operation 1700000002000 None = Ok tt.
Proof. by_vm. Qed.
Lemma device_actions_admitted :
  authorize_capability_action sample_space device_seed [fst grant_bytes; fst grant_bytes]
    CapabilityAction.LinkWorkspace 1700000002000 = Ok tt.
Proof. by_vm. Qed.
