(* ===== verification/AuthorizationTheory.v ===== *)
(** * Capability chains: the theorems

    Binary search on sorted sets, delegation as set inclusion, the chains the
    evaluator accepts, sufficiency of its fuel, revocation and attenuation. *)
From S2P Require Import Prelude Bytes Floats Crypto Content Cbor Trust TrustTheory DataModel.
From S2P Require Import CanonicalBody Envelope EnvelopeTheory Samples Authorization AuthorizationSamples.

(** ** Comparison functions that are orders *)
Record lawful {K} (cmp : K -> K -> comparison) : Prop := {
  lawful_eq : forall a b, cmp a b = Eq <-> a = b;
  lawful_flip : forall a b, cmp b a = CompOpp (cmp a b);
  lawful_trans : forall a b c, cmp a b = Lt -> cmp b c = Lt -> cmp a c = Lt
}.

Lemma lawful_Z : lawful Z.compare.
Proof.
  split; [apply Z.compare_eq_iff|intros a b; apply Z.compare_antisym|intros a b c; apply Z.lt_trans].
Qed.

Lemma lawful_bytes : lawful bytes_cmp.
Proof. split; [apply bytes_cmp_eq|intros a b; apply bytes_cmp_antisym|apply bytes_lt_trans]. Qed.

(** ** Binary search *)
Section BinarySearch.
Context {T : Type} (f : T -> comparison).

(** From an element that is not below the target on, everything is above it. *)
Definition steep (slice : list T) : Prop :=
  forall i j x y, (i < j)%nat -> slice !! i = Some x -> slice !! j = Some y -> f x <> Lt -> f y = Gt.

Lemma binary_search_loop_sound fuel slice : forall base size k,
  binary_search_loop fuel f slice base size = Some k -> exists x, slice !! k = Some x /\ f x = Eq.
Proof.
  induction fuel as [|fuel IH]; intros base size k; cbn [binary_search_loop]; [done|].
  destruct (size <=? 1)%nat; [|apply IH].
  destruct (slice !! base) as [x|] eqn:E; [|done].
  destruct (f x) eqn:Ef; try done. intros [= <-]. eauto.
Qed.

Lemma binary_search_loop_complete fuel slice : forall base size k x,
  steep slice -> slice !! k = Some x -> f x = Eq ->
  (base <= k < base + size)%nat -> (size <= fuel)%nat -> (base + size <= length slice)%nat ->
  binary_search_loop fuel f slice base size = Some k.
Proof.
  induction fuel as [|fuel IH]; intros base size k x Hs Hk Hx Hb Hf Hl; [lia|]. cbn [binary_search_loop].
  destruct (Nat.leb_spec size 1) as [H1|H1].
  - assert (base = k) as -> by lia. by rewrite Hk, Hx.
  - assert (Hh : (0 < size / 2 < size)%nat)
      by (split; [apply Nat.div_str_pos; lia|apply Nat.div_lt; lia]).
    pose proof (Nat.Div0.mul_div_le size 2).
    destruct (lookup_lt_is_Some_2 slice (base + size / 2)) as [y Hy]; [lia|]. rewrite Hy.
    destruct (decide (k < base + size / 2)%nat) as [Hlt|Hge].
    + rewrite (Hs k (base + size / 2)%nat x y) by (done || congruence). cbv beta iota.
      apply (IH _ _ k x); try done; lia.
    + assert (Hmid : match f y with Gt => base | _ => (base + size / 2)%nat end = (base + size / 2)%nat).
      { destruct (f y) eqn:Ey; try done. exfalso.
        destruct (decide (k = base + size / 2)%nat) as [->|]; [congruence|].
        assert (f x = Gt) by (apply (Hs (base + size / 2)%nat k y x); try done; [lia|congruence]).
        congruence. }
      rewrite Hmid. apply (IH _ _ k x); try done; lia.
Qed.

Lemma binary_search_by_spec slice :
  steep slice ->
  is_some (binary_search_by f slice) = true <-> exists x, x ∈ slice /\ f x = Eq.
Proof.
  intros Hs. unfold binary_search_by. split.
  - destruct (binary_search_loop _ _ _ _ _) as [k|] eqn:E; [|done]. intros _.
    apply binary_search_loop_sound in E as (x & Hk & Hx). exists x.
    split; [by eapply list_elem_of_lookup_2|done].
  - intros (x & Hin & Hx). apply list_elem_of_lookup in Hin as [k Hk].
    pose proof (lookup_lt_Some _ _ _ Hk).
    rewrite (binary_search_loop_complete _ slice 0 (length slice) k x) by (done || lia). done.
Qed.
End BinarySearch.

(** A strictly sorted slice is steep for every target. *)
Lemma sorted_steep {T K} (key : T -> K) cmp slice target :
  lawful cmp -> windows_all (fun a b => is_lt (cmp (key a) (key b))) slice = true ->
  steep (fun x => cmp (key x) target) slice.
Proof.
  intros Hc Hw.
  apply (windows_all_Sorted (fun a b => cmp (key a) (key b) = Lt)) in Hw;
    [|intros a b; by destruct (cmp _ _)].
  apply Sorted.Sorted_StronglySorted in Hw; [|intros a b c; by apply (lawful_trans cmp Hc)].
  intros i j x y Hij Hx Hy Hnl.
  assert (Hxy : cmp (key x) (key y) = Lt).
  { revert j Hij Hy. revert slice Hw Hx. induction i as [|i IH]; intros [|z l] Hw Hx j Hij Hy; try done.
    - injection Hx as ->. inversion Hw as [|? ? _ Hf]; subst. destruct j as [|j]; [lia|].
      rewrite Forall_forall in Hf. apply Hf. by eapply list_elem_of_lookup_2.
    - destruct j as [|j]; [lia|]. inversion Hw; subst. by apply (IH l H1 Hx j); [lia|]. }
  assert (Hyx : cmp (key y) (key x) = Gt) by (rewrite (lawful_flip cmp Hc (key x)), Hxy; done).
  destruct (cmp (key x) target) eqn:E; [|done|].
  - apply (lawful_eq cmp Hc) in E as <-. done.
  - rewrite (lawful_flip cmp Hc target). rewrite (lawful_trans cmp Hc target (key x) (key y)); [done| |done].
    by rewrite (lawful_flip cmp Hc (key x)), E.
Qed.

Lemma is_subset_by_spec {T K} (key : T -> K) cmp child parent :
  lawful cmp -> (forall a b, key a = key b -> a = b) ->
  windows_all (fun a b => is_lt (cmp (key a) (key b))) parent = true ->
  is_subset_by key cmp child parent = true <-> child ⊆ parent.
Proof.
  intros Hc Hk Hw. unfold is_subset_by. rewrite forallb_forall. split.
  - intros Hf x Hx. specialize (Hf x). rewrite <- list_elem_of_In in Hf. specialize (Hf Hx).
    apply binary_search_by_spec in Hf; [|by apply (sorted_steep key cmp)].
    destruct Hf as (y & Hy & Ey). apply (lawful_eq cmp Hc), Hk in Ey as ->. done.
  - intros Hs x Hx%list_elem_of_In%Hs. apply binary_search_by_spec; [by apply (sorted_steep key cmp)|].
    exists x. split; [done|]. by apply (lawful_eq cmp Hc).
Qed.

(** ** Delegation *)

(** A grant whose sets are strictly sorted, as [grant_validate] requires. *)
Record grant_sorted (g : CapabilityGrant.t) : Prop := {
  sorted_actions : windows_all (fun a b => is_lt (by_rank CapabilityAction.rank a b))
    (CapabilityGrant.actions g) = true;
  sorted_schemas : windows_all (fun a b => is_lt (bytes_cmp (EntitySchema.as_str a) (EntitySchema.as_str b)))
    (CapabilityGrant.schemas g) = true;
  sorted_visibilities : windows_all (fun a b => is_lt (by_rank Visibility.rank a b))
    (CapabilityGrant.visibilities g) = true;
  sorted_roles : windows_all (fun a b => is_lt (bytes_cmp a b)) (CapabilityGrant.content_roles g) = true
}.

Lemma validate_sorted_by_Ok {T} field (l : list T) cmp :
  validate_sorted_by field l cmp = Ok tt -> windows_all (fun a b => is_lt (cmp a b)) l = true.
Proof. unfold validate_sorted_by. by destruct (windows_all _ l). Qed.

#[local] Arguments validate_sorted_by : simpl never.
#[local] Arguments validate_sorted_bytes : simpl never.
#[local] Arguments public_key : simpl never.

Lemma grant_validate_sorted `{Ed25519} g : grant_validate g = Ok tt -> grant_sorted g.
Proof.
  unfold grant_validate, validate_nonempty_sorted_set, validate_sorted_bytes. intros Hv.
  destruct (public_key (CapabilityGrant.subject g)); [cbn [map_err] in Hv|discriminate Hv].
  destruct (CapabilityGrant.actions g) as [|act acts] eqn:Ea; [discriminate Hv|].
  destruct (validate_sorted_by (str "actions") _ _) as [[]|] eqn:E1; [|discriminate Hv].
  destruct (_ <? _); [discriminate Hv|].
  destruct (validate_sorted_by (str "schemas") _ _) as [[]|] eqn:E2; [|discriminate Hv].
  destruct (validate_sorted_by (str "visibilities") _ _) as [[]|] eqn:E3; [|discriminate Hv].
  destruct (_ <? _); [discriminate Hv|].
  destruct (validate_sorted_by (str "contentRoles") _ _) as [[]|] eqn:E4; [|discriminate Hv].
  constructor; [rewrite Ea|..]; by eapply validate_sorted_by_Ok.
Qed.

(** Authority of [child] within that of [parent]. *)
Record narrower (child parent : CapabilityGrant.t) : Prop := {
  narrower_actions : CapabilityGrant.actions child ⊆ CapabilityGrant.actions parent;
  narrower_schemas : CapabilityGrant.schemas child ⊆ CapabilityGrant.schemas parent;
  narrower_visibilities : CapabilityGrant.visibilities child ⊆ CapabilityGrant.visibilities parent;
  narrower_roles : CapabilityGrant.content_roles child ⊆ CapabilityGrant.content_roles parent;
  narrower_bytes : forall p, CapabilityGrant.max_resource_byte_length parent = Some p ->
    exists c, CapabilityGrant.max_resource_byte_length child = Some c /\ c <= p;
  narrower_start : forall p, CapabilityGrant.not_before_unix_ms parent = Some p ->
    exists c, CapabilityGrant.not_before_unix_ms child = Some c /\ p <= c;
  narrower_end : forall p, CapabilityGrant.expires_at_unix_ms parent = Some p ->
    exists c, CapabilityGrant.expires_at_unix_ms child = Some c /\ c <= p
}.

#[export] Instance narrower_preorder : PreOrder narrower.
Proof.
  split.
  - intros g. constructor; try done; intros p Hp; exists p; (split; [done|lia]).
  - intros a b c [] []. constructor; [by etrans|by etrans|by etrans|by etrans|..].
    + intros p Hp. destruct (narrower_bytes1 p Hp) as (q & Hq & ?).
      destruct (narrower_bytes0 q Hq) as (r & ? & ?). exists r. split; [done|lia].
    + intros p Hp. destruct (narrower_start1 p Hp) as (q & Hq & ?).
      destruct (narrower_start0 q Hq) as (r & ? & ?). exists r. split; [done|lia].
    + intros p Hp. destruct (narrower_end1 p Hp) as (q & Hq & ?).
      destruct (narrower_end0 q Hq) as (r & ? & ?). exists r. split; [done|lia].
Qed.

Lemma maximum_is_narrower_spec c p :
  maximum_is_narrower c p = true <-> forall q, p = Some q -> exists r, c = Some r /\ r <= q.
Proof.
  destruct c as [c|], p as [p|]; cbn; rewrite ?Z.leb_le; split; try done; try naive_solver.
Qed.
Lemma lower_bound_is_narrower_spec c p :
  lower_bound_is_narrower c p = true <-> forall q, p = Some q -> exists r, c = Some r /\ q <= r.
Proof.
  destruct c as [c|], p as [p|]; cbn; rewrite ?Z.leb_le; split; try done; try naive_solver.
Qed.
Lemma upper_bound_is_narrower_spec c p :
  upper_bound_is_narrower c p = true <-> forall q, p = Some q -> exists r, c = Some r /\ r <= q.
Proof. apply maximum_is_narrower_spec. Qed.

Lemma action_rank_inj a b : CapabilityAction.rank a = CapabilityAction.rank b -> a = b.
Proof. by destruct a, b. Qed.
Lemma visibility_rank_inj a b : Visibility.rank a = Visibility.rank b -> a = b.
Proof. by destruct a, b. Qed.
Lemma schema_inj a b : EntitySchema.as_str a = EntitySchema.as_str b -> a = b.
Proof. by destruct a, b. Qed.

Lemma scope_is_narrower_spec parent child :
  grant_sorted parent -> scope_is_narrower parent child = true <-> narrower child parent.
Proof.
  intros []. unfold scope_is_narrower, is_subset_rank, is_subset_bytes.
  rewrite !andb_true_iff, maximum_is_narrower_spec, lower_bound_is_narrower_spec,
    upper_bound_is_narrower_spec.
  rewrite !is_subset_by_spec by eauto using lawful_Z, lawful_bytes, action_rank_inj,
    visibility_rank_inj, schema_inj.
  split; [intros ((((((? & ?) & ?) & ?) & ?) & ?) & ?)|intros []]; [by constructor|tauto].
Qed.

Lemma contains_spec {T} `{EqDecision T} (x : T) l : contains x l = true <-> x ∈ l.
Proof. apply bool_decide_eq_true. Qed.

(** Delegation as a proposition. *)
Definition delegates (parent child : CapabilityGrant.t) : Prop :=
  narrower child parent
  /\ ((CapabilityAction.IssueCapability ∈ CapabilityGrant.actions parent
       /\ 0 < CapabilityGrant.delegation_depth parent
       /\ CapabilityGrant.delegation_depth child < CapabilityGrant.delegation_depth parent)
      \/ (CapabilityAction.LinkWorkspace ∈ CapabilityGrant.actions child
          /\ CapabilityAction.IssueCapability ∉ CapabilityGrant.actions child
          /\ CapabilityAction.RevokeCapability ∉ CapabilityGrant.actions child
          /\ CapabilityGrant.delegation_depth child = 0)).

Lemma permits_delegation_spec parent child :
  grant_sorted parent -> permits_delegation parent child = true <-> delegates parent child.
Proof.
  intros Hs. unfold permits_delegation, delegates.
  rewrite orb_true_iff, !andb_true_iff, !negb_true_iff, !scope_is_narrower_spec by done.
  rewrite <- !not_true_iff_false, !contains_spec, !Z.ltb_lt, Z.eqb_eq.
  split; [tauto|]. intros (Hn & [?|(Hl & ? & ? & ?)]); [tauto|]. right.
  pose proof (narrower_actions _ _ Hn _ Hl). tauto.
Qed.

(** A valid grant delegates exactly the grants within its own scope: every
    action, schema, visibility and role is one of its own, limits and window are no
    wider, and either it may issue and the child's depth is below its own, or the
    child is a depth-zero workspace link with no administrative action. *)
Theorem delegation_narrows `{Ed25519} (parent child : CapabilityGrant.t) :
  grant_validate parent = Ok tt ->
  permits_delegation parent child = true <-> delegates parent child.
Proof. intros Hv. by apply permits_delegation_spec, grant_validate_sorted. Qed.

(** ** Chains *)
Section Chains.
Context `{Sha256} `{Ed25519} `{HalfFloat} `{Base64} `{!JsonNumber} `{!JsonSize} `{!CapabilityView}.
Variables (now : Z) (space : list Z).

(** An admitted operation of the space, as the evaluator accepts it. *)
Definition stored (id : list Z) (op : OperationEnvelope.t) : Prop :=
  view_operation space id = Ok (Some op) /\ OperationEnvelope.verify op = Ok tt
  /\ OperationEnvelope.operation_id op = id /\ OperationEnvelope.space_id op = space.

(** A stored grant that is neither revoked nor outside its window. *)
Definition live_grant (id : list Z) (op : OperationEnvelope.t) (g : CapabilityGrant.t) : Prop :=
  stored id op /\ OperationEnvelope.schema op = EntitySchema.CapabilityGrant
  /\ OperationEnvelope.body op = OperationBody.CapabilityGrant g
  /\ is_revoked space id = Ok false /\ window_contains g now = true.

(** [chain n subject id a]: reference [id] gives [subject] authority [a], and
    evaluating it visits [n] operations.  Every issuer is itself the end of a chain. *)
Inductive chain : Z -> list Z -> list Z -> EffectiveAuthority -> Prop :=
| chain_root subject id op :
    stored id op -> OperationEnvelope.schema op = EntitySchema.SpaceGenesis ->
    OperationEnvelope.body op = OperationBody.SpaceGenesis subject ->
    trusted_genesis space = Ok (Some id) -> OperationEnvelope.actor_id op = subject ->
    chain 1 subject id RootController
| chain_grant n id op g issuers :
    live_grant id op g ->
    OperationEnvelope.authorization op <> [] ->
    chains n (OperationEnvelope.actor_id op) (OperationEnvelope.authorization op) issuers ->
    forallb (fun issuer => permits issuer (Issue g)) issuers = true ->
    chain (n + 1) (CapabilityGrant.subject g) id (Grant g)
with chains : Z -> list Z -> list (list Z) -> list EffectiveAuthority -> Prop :=
| chains_nil subject : chains 0 subject [] []
| chains_cons n m subject id ids a issuers :
    chain n subject id a -> chains m subject ids issuers ->
    chains (n + m) subject (id :: ids) (a :: issuers).

Scheme chain_ind2 := Minimality for chain Sort Prop
  with chains_ind2 := Minimality for chains Sort Prop.
Combined Scheme chain_mutind from chain_ind2, chains_ind2.

Lemma chain_sizes :
  (forall n subject id a, chain n subject id a -> 1 <= n)
  /\ (forall n subject ids l, chains n subject ids l -> Z.of_nat (length ids) <= n).
Proof.
  apply chain_mutind; cbn; intros; try lia.
Qed.

Lemma chain_size n subject id a : chain n subject id a -> 1 <= n.
Proof. apply chain_sizes. Qed.

Lemma stored_unique id op op' : stored id op -> stored id op' -> op = op'.
Proof. intros (H1' & _) (H2' & _). congruence. Qed.

(** A reference determines its chain. *)
Lemma chain_deterministic :
  (forall n subject id a, chain n subject id a ->
     forall n' subject' a', chain n' subject' id a' -> n = n' /\ a = a')
  /\ (forall n subject ids l, chains n subject ids l ->
     forall n' subject' l', chains n' subject' ids l' -> n = n' /\ l = l').
Proof.
  apply chain_mutind.
  - intros subject id op Hs Hc Hb Ht Ha n' subject' a' Hch. inversion Hch; subst; [done|].
    match goal with Hl : live_grant _ _ _ |- _ => destruct Hl as (Hs' & Hsc & _) end.
    pose proof (stored_unique _ _ _ Hs Hs') as ->. congruence.
  - intros n id op g issuers (Hs & Hsc & Hbd & Hlive) Hne _ IH Hp n' subject' a' Hch.
    inversion Hch as [? ? op' Hs' Hsc'|m id' op' g' issuers' (Hs' & Hsc' & Hbd' & _) Hne' Hcs Hp']; subst.
    + pose proof (stored_unique _ _ _ Hs Hs') as ->. congruence.
    + pose proof (stored_unique _ _ _ Hs Hs') as ->.
      destruct (IH _ _ _ Hcs) as [-> ->]. assert (g = g') as -> by congruence. done.
  - intros subject n' subject' l' Hch. by inversion Hch.
  - intros n m subject id ids a issuers _ IH1 _ IH2 n' subject' l' Hch. inversion Hch; subst.
    destruct (IH1 _ _ _ ltac:(eassumption)) as [-> ->], (IH2 _ _ _ ltac:(eassumption)) as [-> ->]. done.
Qed.

(** ** Soundness of the evaluator *)
Definition sound_at (resolve : list Z -> Context_ -> result AuthorizationError (EffectiveAuthority * Context_))
    (subject : list Z) : Prop :=
  forall id c a c', resolve id c = Ok (a, c') ->
    exists n, chain n subject id a /\ (visits c' = visits c + n)%Z /\ stack c' = stack c
      /\ (visits c + n <= MAX_AUTHORIZATION_GRAPH_VISITS)%Z.

Lemma resolve_each_sound resolve subject : sound_at resolve subject ->
  forall ids c l c', resolve_each resolve ids c = Ok (l, c') ->
    exists n, chains n subject ids l /\ (visits c' = visits c + n)%Z /\ stack c' = stack c
      /\ (ids = [] \/ visits c + n <= MAX_AUTHORIZATION_GRAPH_VISITS)%Z.
Proof.
  intros Hr. induction ids as [|id ids IH]; intros c l c'; cbn.
  - intros [= <- <-]. exists 0. rewrite Z.add_0_r. repeat split; [constructor|by left].
  - intros He. destruct (resolve id c) as [[a c1]|] eqn:E1; [|done].
    destruct (resolve_each resolve ids c1) as [[l1 c2]|] eqn:E2; [|done]. injection He as <- <-.
    destruct (Hr _ _ _ _ E1) as (n & Hn & Hv1 & Hs1 & Hm1).
    destruct (IH _ _ _ E2) as (m & Hm & Hv2 & Hs2 & Hm2). exists (n + m).
    split; [by constructor|]. split; [lia|]. split; [congruence|]. right.
    destruct Hm2 as [->|Hm2]; [|lia]. inversion Hm; subst. lia.
Qed.

Lemma count_visit v : (sat_u 64 (v + 1) <= MAX_AUTHORIZATION_GRAPH_VISITS)%Z ->
  sat_u 64 (v + 1) = (v + 1)%Z.
Proof. unfold sat_u, MAX_AUTHORIZATION_GRAPH_VISITS. lia. Qed.

(** What [resolve_inner] checks before it recurses. *)
Lemma resolve_inner_Ok recurse subject id c a c' :
  resolve_inner now space subject id recurse c = Ok (a, c') <->
  (exists op, stored id op /\ OperationEnvelope.schema op = EntitySchema.SpaceGenesis
     /\ OperationEnvelope.body op = OperationBody.SpaceGenesis subject
     /\ trusted_genesis space = Ok (Some id) /\ OperationEnvelope.actor_id op = subject
     /\ a = RootController /\ c' = c)
  \/ (exists op g issuers, live_grant id op g /\ CapabilityGrant.subject g = subject
        /\ OperationEnvelope.authorization op <> []
        /\ resolve_each (recurse (OperationEnvelope.actor_id op)) (OperationEnvelope.authorization op) c
           = Ok (issuers, c')
        /\ forallb (fun issuer => permits issuer (Issue g)) issuers = true /\ a = Grant g).
Proof.
  unfold resolve_inner, live_grant, stored. split.
  - destruct (view_operation space id) as [[op|]|]; cbn [map_err ok_or]; try done.
    destruct (OperationEnvelope.verify op) as [[]|] eqn:Ever; cbn [map_err]; [|done].
    destruct (list_eqb (OperationEnvelope.operation_id op) id) eqn:E1; cbn [negb]; [|done].
    destruct (list_eqb (OperationEnvelope.space_id op) space) eqn:E2; cbn [negb]; [|done].
    apply list_eqb_eq in E1, E2.
    destruct (OperationEnvelope.schema op) eqn:Es; try done;
      destruct (OperationEnvelope.body op) eqn:Eb; try done.
    + destruct (trusted_genesis space) as [t|]; cbn [map_err]; [|done].
      destruct (bool_decide (t = Some id)) eqn:E3; bool_prop; cbn [negb]; [|done].
      destruct (list_eqb controller subject) eqn:E4, (list_eqb (OperationEnvelope.actor_id op) subject) eqn:E5;
        cbn [negb orb]; try done.
      apply list_eqb_eq in E4, E5. intros [= <- <-]. left. exists op. by subst.
    + destruct (list_eqb (CapabilityGrant.subject grant) subject) eqn:E3; cbn [negb]; [|done].
      apply list_eqb_eq in E3. destruct (is_revoked space id) as [[]|]; cbn [map_err]; try done.
      destruct (window_contains grant now) eqn:E4; cbn [negb]; [|done].
      destruct (resolve_set_with _ _ _) as [[issuers c1]|] eqn:E5; [|done].
      destruct (forallb _ issuers) eqn:E6; cbn [negb]; [|done]. intros [= <- <-].
      right. exists op, grant, issuers. unfold resolve_set_with in E5.
      destruct (OperationEnvelope.authorization op) as [|r rs]; [done|]. done.
  - intros [(op & (Hv & Hver & Hid & Hsp) & Hs & Hb & Ht & Hact & -> & ->)
           |(op & g & issuers & ((Hv & Hver & Hid & Hsp) & Hs & Hb & Hrev & Hwin) & Hsub & Hne & Hr & Hp & ->)];
      rewrite Hv; cbn [map_err ok_or]; rewrite Hver; cbn [map_err]; rewrite Hid, Hsp;
      rewrite !(proj2 (list_eqb_eq _ _) eq_refl); cbn [negb]; rewrite Hs, Hb.
    + rewrite Ht. cbn [map_err]. rewrite bool_decide_true by done. rewrite Hact.
      by rewrite !(proj2 (list_eqb_eq _ _) eq_refl).
    + rewrite Hsub, (proj2 (list_eqb_eq _ _) eq_refl), Hrev. cbn [map_err negb]. rewrite Hwin. cbn [negb].
      unfold resolve_set_with. destruct (OperationEnvelope.authorization op) as [|r rs]; [done|].
      by rewrite Hr, Hp.
Qed.

#[local] Arguments resolve_inner : simpl never.

Lemma resolve_sound fuel : forall subject, sound_at (resolve fuel now space subject) subject.
Proof.
  induction fuel as [|fuel IH]; intros subject id c a c'; cbn; [done|].
  destruct (Z.ltb_spec MAX_AUTHORIZATION_GRAPH_VISITS (sat_u 64 (visits c + 1))) as [|Hle]; [done|].
  pose proof (count_visit _ Hle) as Ec. rewrite Ec in *.
  case_bool_decide as Hst; [done|].
  destruct (resolve_inner _ _ _ _ _ _) as [[a1 c1]|] eqn:E; [|done]. intros [= <- <-]. cbn.
  apply resolve_inner_Ok in E as [(op & ? & ? & ? & ? & ? & -> & ->)
    |(op & g & issuers & Hl & <- & Hne & Hr & Hp & ->)].
  - exists 1. split; [by eapply chain_root|]. split; [done|]. split; [|done]. cbn. set_solver.
  - apply (resolve_each_sound _ _ (IH (OperationEnvelope.actor_id op))) in Hr
      as (n & Hn & Hv & Hs & Hm). cbn in Hv, Hs, Hm. exists (n + 1).
    split; [by eapply chain_grant|]. split; [lia|]. split; [rewrite Hs; set_solver|].
    destruct Hm as [?|?]; [done|lia].
Qed.

(** ** Completeness: chains are found *)

(** No chain being resolved can end in a chain of the same size. *)
Definition above (c : Context_) (n : Z) : Prop :=
  forall s k subject a, s ∈ stack c -> chain k subject s a -> n < k.

Lemma resolve_complete :
  (forall n subject id a, chain n subject id a -> forall fuel c,
     (n <= Z.of_nat fuel)%Z -> (0 <= visits c)%Z -> (visits c + n <= MAX_AUTHORIZATION_GRAPH_VISITS)%Z ->
     above c n ->
     resolve fuel now space subject id c = Ok (a, mkContext (visits c + n) (stack c)))
  /\ (forall n subject ids l, chains n subject ids l -> forall fuel c,
     (n <= Z.of_nat fuel)%Z -> (0 <= visits c)%Z -> (visits c + n <= MAX_AUTHORIZATION_GRAPH_VISITS)%Z ->
     above c n ->
     resolve_each (resolve fuel now space subject) ids c = Ok (l, mkContext (visits c + n) (stack c))).
Proof.
  assert (Hnot : forall n subject id a c, chain n subject id a -> above c n -> id ∉ stack c).
  { intros n subject id a c Hc Ha Hin. specialize (Ha id n subject a Hin Hc). lia. }
  assert (Hsat : forall v n, 1 <= n -> 0 <= v -> v + n <= MAX_AUTHORIZATION_GRAPH_VISITS ->
    sat_u 64 (v + 1) = v + 1 /\ (MAX_AUTHORIZATION_GRAPH_VISITS <? v + 1) = false).
  { intros v n Hn Hv Hm. unfold sat_u, MAX_AUTHORIZATION_GRAPH_VISITS in *.
    split; [lia|]. apply Z.ltb_ge. lia. }
  apply chain_mutind.
  - intros subject id op Hs Hsc Hb Ht Hact fuel c Hf Hv Hm Ha. destruct fuel as [|fuel]; [lia|]. cbn.
    destruct (Hsat _ 1 ltac:(lia) Hv Hm) as [-> ->].
    rewrite bool_decide_false by (eapply Hnot; [|done]; by eapply chain_root).
    rewrite (proj2 (resolve_inner_Ok _ _ _ _ RootController _)) by (left; exists op; repeat split; done || apply Hs).
    cbn. do 3 f_equal. assert (id ∉ stack c) by (eapply Hnot; [|done]; by eapply chain_root). set_solver.
  - intros n id op g issuers Hl Hne Hcs IH Hp fuel c Hf Hv Hm Ha.
    pose proof (proj2 chain_sizes _ _ _ _ Hcs) as Hn.
    destruct fuel as [|fuel]; [lia|]. cbn.
    assert (Hch : chain (n + 1) (CapabilityGrant.subject g) id (Grant g)) by (by eapply chain_grant).
    pose proof (Hnot _ _ _ _ _ Hch Ha) as Hin.
    destruct (Hsat (visits c) (n + 1) ltac:(lia) Hv Hm) as [-> ->].
    rewrite bool_decide_false by done.
    rewrite (proj2 (resolve_inner_Ok _ _ _ _ (Grant g) (mkContext (visits c + (n + 1)) ({[id]} ∪ stack c)))).
    + cbn. do 3 f_equal. set_solver.
    + right. exists op, g, issuers. do 3 (split; [done|]). split; [|done].
      rewrite (IH fuel); cbn; try lia.
      * do 3 f_equal. lia.
      * intros s k subject a Hs Hk. apply elem_of_union in Hs as [->%elem_of_singleton|Hs].
        -- destruct (proj1 chain_deterministic _ _ _ _ Hch _ _ _ Hk) as [<- _]. lia.
        -- specialize (Ha s k subject a Hs Hk). lia.
  - intros subject fuel c _ _ _ _. cbn. rewrite Z.add_0_r. by destruct c.
  - intros n m subject id ids a issuers Hc IH1 Hcs IH2 fuel c Hf Hv Hm Ha.
    pose proof (chain_size _ _ _ _ Hc). pose proof (proj2 chain_sizes _ _ _ _ Hcs). cbn.
    rewrite IH1; [|lia|done|lia|intros s k sub b Hs Hk; specialize (Ha s k sub b Hs Hk); lia].
    rewrite IH2; cbn; [|lia|lia|lia|intros s k sub b Hs Hk; specialize (Ha s k sub b Hs Hk); lia].
    do 3 f_equal. lia.
Qed.

(** A whole reference set, from the initial context. *)
Lemma resolve_set_Ok subject ids l c' :
  resolve_set now space subject ids = Ok (l, c')
  <-> ids <> [] /\ exists n, chains n subject ids l /\ n <= MAX_AUTHORIZATION_GRAPH_VISITS
        /\ c' = mkContext n ∅.
Proof.
  unfold resolve_set, resolve_set_with. destruct ids as [|id ids]; [split; [done|by intros [? _]]|]. split.
  - intros Hr. split; [done|].
    apply (resolve_each_sound _ _ (resolve_sound _ _)) in Hr as (n & Hn & Hv & Hs & Hm).
    exists n. split; [done|]. cbn in *. destruct Hm as [?|Hm]; [done|]. split; [done|].
    destruct c' as [v st]. cbn in *. by subst.
  - intros (_ & n & Hn & Hm & ->). pose proof (proj2 chain_sizes _ _ _ _ Hn).
    apply (proj2 resolve_complete n subject (id :: ids) l Hn RESOLVE_FUEL (mkContext 0 ∅)); [| |done|].
    + unfold MAX_AUTHORIZATION_GRAPH_VISITS, RESOLVE_FUEL in *. lia.
    + done.
    + intros s k sub a Hin. by apply not_elem_of_empty in Hin.
Qed.

(** ** Fuel *)
Lemma resolve_each_ext (f g : list Z -> Context_ -> result AuthorizationError (EffectiveAuthority * Context_))
    lo :
  (forall id c, (lo <= visits c)%Z -> f id c = g id c) ->
  (forall id c a c', f id c = Ok (a, c') -> (visits c <= visits c')%Z) ->
  forall ids c, (lo <= visits c)%Z -> resolve_each f ids c = resolve_each g ids c.
Proof.
  intros Hfg Hmono. induction ids as [|id ids IH]; intros c Hc; [done|]. cbn. rewrite <- Hfg by done.
  destruct (f id c) as [[a c1]|] eqn:E; [|done]. apply Hmono in E. rewrite IH by lia. done.
Qed.

Lemma resolve_inner_ext f g lo subject id c :
  (forall sub r c, (lo <= visits c)%Z -> f sub r c = g sub r c) ->
  (forall sub r c a c', f sub r c = Ok (a, c') -> (visits c <= visits c')%Z) ->
  (lo <= visits c)%Z ->
  resolve_inner now space subject id f c = resolve_inner now space subject id g c.
Proof.
  intros Hfg Hmono Hc. unfold resolve_inner.
  assert (E : forall sub ids, resolve_set_with (f sub) ids c = resolve_set_with (g sub) ids c).
  { intros sub ids. unfold resolve_set_with. destruct ids as [|r rs]; [done|].
    apply (resolve_each_ext _ _ lo); eauto. }
  destruct (view_operation space id) as [[op|]|]; cbn [map_err ok_or]; [|done|done].
  destruct (OperationEnvelope.verify op); cbn [map_err]; [|done].
  destruct (negb _); [done|]. destruct (negb _); [done|].
  destruct (OperationEnvelope.schema op); try done.
  destruct (OperationEnvelope.body op); try done. by rewrite E.
Qed.

Lemma resolve_monotone fuel subject id c a c' :
  resolve fuel now space subject id c = Ok (a, c') -> (visits c <= visits c')%Z.
Proof.
  intros Hr. destruct (resolve_sound _ _ _ _ _ _ Hr) as (n & Hn & Hv & _).
  apply chain_size in Hn. lia.
Qed.

Lemma resolve_step fuel subject id c :
  resolve (S fuel) now space subject id c
  = if MAX_AUTHORIZATION_GRAPH_VISITS <? sat_u 64 (visits c + 1) then Err GraphTooLarge
    else if bool_decide (id ∈ stack c) then Err (Cycle id)
    else
      let? (authority, c') :=
        resolve_inner now space subject id
          (fun subject reference c => resolve fuel now space subject reference c)
          (mkContext (sat_u 64 (visits c + 1)) ({[id]} ∪ stack c)) in
      Ok (authority, mkContext (visits c') (stack c' ∖ {[id]})).
Proof. reflexivity. Qed.

(** The fuel of [resolve] is never what stops it: from any context, more fuel
    than the visits left changes no result, error results included. *)
Theorem resolve_fuel (fuel : nat) (subject id : list Z) (c : Context_) :
  (MAX_AUTHORIZATION_GRAPH_VISITS < Z.of_nat fuel + visits c)%Z ->
  resolve (S fuel) now space subject id c = resolve fuel now space subject id c.
Proof.
  revert subject id c. induction fuel as [|fuel IH]; intros subject id c Hf.
  - cbn. unfold sat_u, MAX_AUTHORIZATION_GRAPH_VISITS in *.
    rewrite (proj2 (Z.ltb_lt _ _)) by lia. done.
  - rewrite (resolve_step (S fuel)), (resolve_step fuel).
    destruct (Z.ltb_spec MAX_AUTHORIZATION_GRAPH_VISITS (sat_u 64 (visits c + 1))) as [|Hle]; [done|].
    pose proof (count_visit _ Hle) as Ec. rewrite Ec.
    case_bool_decide; [done|].
    rewrite (resolve_inner_ext _ (fun sub r c => resolve fuel now space sub r c) (visits c + 1));
      [done| | |done].
    + intros sub r c1 Hc. apply IH. lia.
    + intros sub r c1 a c' Hr. by apply resolve_monotone in Hr.
Qed.

(** What authorizes a non-operation action: a nonempty set of references, each
    the end of a chain for the subject, all permitting the action. *)
Lemma authorize_action_iff (subject : list Z) (references : list (list Z)) (action : CapabilityAction.t) :
  authorize_capability_action space subject references action now = Ok tt
  <-> references <> [] /\ exists n authorities,
        chains n subject references authorities /\ n <= MAX_AUTHORIZATION_GRAPH_VISITS
        /\ forallb (fun a => permits_action a action) authorities = true.
Proof.
  unfold authorize_capability_action. split.
  - intros Ha. destruct (resolve_set now space subject references) as [[l c]|] eqn:E; [|done].
    apply resolve_set_Ok in E as (Hne & n & Hn & Hm & _). split; [done|]. exists n, l.
    destruct (forallb _ l); done.
  - intros (Hne & n & l & Hn & Hm & Hp).
    rewrite (proj2 (resolve_set_Ok subject references l (mkContext n ∅))) by eauto. by rewrite Hp.
Qed.

(** ** Ancestors *)

(** [reaches r s]: following stored authorization references from [r] leads to [s]. *)
Inductive reaches : list Z -> list Z -> Prop :=
| reaches_refl id : reaches id id
| reaches_step id op r s :
    view_operation space id = Ok (Some op) -> r ∈ OperationEnvelope.authorization op ->
    reaches r s -> reaches id s.

(** Authority [a] is within [b]. *)
Definition within (a b : EffectiveAuthority) : Prop :=
  match a, b with
  | Grant g, Grant p => narrower g p
  | _, RootController => True
  | RootController, Grant _ => False
  end.

Lemma within_trans a b c : within a b -> within b c -> within a c.
Proof. destruct a, b, c; cbn; try done. apply narrower_preorder. Qed.

Lemma chains_elem n subject ids l r :
  chains n subject ids l -> r ∈ ids -> exists m a, chain m subject r a /\ a ∈ l.
Proof.
  intros Hc. remember ids as ids' eqn:E. revert ids E Hc. revert n l.
  induction ids' as [|id ids' IH]; intros n l ids _ Hc Hin; [by apply not_elem_of_nil in Hin|].
  inversion Hc; subst. apply elem_of_cons in Hin as [->|Hin].
  - do 2 eexists. split; [eassumption|left].
  - destruct (IH _ _ ids' eq_refl ltac:(eassumption) Hin) as (k & a' & ? & ?).
    exists k, a'. split; [done|by right].
Qed.

Lemma live_grant_sorted id op g : live_grant id op g -> grant_sorted g.
Proof.
  intros ((_ & Hv & _) & Hs & Hb & _). apply verify_validates in Hv. rewrite Hs, Hb in Hv.
  unfold validate_for in Hv. destruct (negb _ && _); [done|]. by eapply grant_validate_sorted.
Qed.

Lemma genesis_is_root id op controller :
  stored id op -> OperationEnvelope.schema op = EntitySchema.SpaceGenesis ->
  OperationEnvelope.body op = OperationBody.SpaceGenesis controller ->
  OperationEnvelope.authorization op = [].
Proof.
  intros (_ & Hv & _) Hs Hb. apply verify_validates in Hv. rewrite Hs, Hb in Hv.
  unfold validate_for in Hv. destruct (negb _ && _); [done|].
  destruct (public_key controller); cbn [map_err] in Hv; [|done].
  destruct (negb _); [done|]. destruct (OperationEnvelope.authorization op); [done|].
  by rewrite orb_true_r in Hv.
Qed.

(** Along a chain authority only narrows. *)
Lemma chain_within r s : reaches r s -> forall n subject a, chain n subject r a ->
  exists m subject' b, chain m subject' s b /\ within a b.
Proof.
  induction 1 as [id|id op r s Hop Hr _ IH]; intros n subject a Hc.
  - exists n, subject, a. split; [done|]. destruct a; cbn; [done|reflexivity].
  - inversion Hc as [? ? op' Hs Hsc Hb|m id' op' g issuers Hl Hne Hcs Hp]; subst.
    + destruct Hs as (Ho & Hs). rewrite Hop in Ho. injection Ho as ->.
      rewrite (genesis_is_root id op' _ (conj Hop Hs) Hsc Hb) in Hr. by apply not_elem_of_nil in Hr.
    + pose proof (proj1 (proj1 Hl)) as Ho. rewrite Hop in Ho. injection Ho as ->.
      destruct (chains_elem _ _ _ _ _ Hcs Hr) as (k & b & Hb & Hin).
      destruct (IH _ _ _ Hb) as (k' & sub' & b' & Hb' & Hw). exists k', sub', b'. split; [done|].
      apply (within_trans _ b); [|done]. destruct b as [|p]; [done|].
      rewrite forallb_forall in Hp. specialize (Hp (Grant p)). rewrite <- list_elem_of_In in Hp.
      specialize (Hp Hin). cbn in Hp. apply permits_delegation_spec in Hp; [apply Hp|].
      inversion Hb; subst. by eapply live_grant_sorted.
Qed.

(** Every chain ends at the trusted genesis. *)
Lemma chain_rooted :
  (forall n subject id a, chain n subject id a -> exists s, reaches id s /\ trusted_genesis space = Ok (Some s))
  /\ (forall n subject ids l, chains n subject ids l -> forall r, r ∈ ids ->
       exists s, reaches r s /\ trusted_genesis space = Ok (Some s)).
Proof.
  apply chain_mutind.
  - intros subject id op _ _ _ Ht _. exists id. split; [constructor|done].
  - intros n id op g issuers Hl Hne _ IH _.
    destruct (OperationEnvelope.authorization op) as [|r rs] eqn:E; [done|].
    destruct (IH r ltac:(left)) as (s & Hs & Ht). exists s. split; [|done].
    eapply reaches_step; [apply Hl|rewrite E; left|done].
  - intros subject r Hr. by apply not_elem_of_nil in Hr.
  - intros n m subject id ids a issuers _ IH1 _ IH2 r [->|Hr]%elem_of_cons; auto.
Qed.

(** Admission as a proposition; its clients use this form. *)
Lemma authorize_operation_iff op visibility :
  OperationEnvelope.space_id op = space ->
  authorize_operation_for_visibility op now visibility = Ok tt
  <-> OperationEnvelope.authorization op <> []
      /\ exists required n authorities, for_operation op visibility = Ok required
           /\ chains n (OperationEnvelope.actor_id op) (OperationEnvelope.authorization op) authorities
           /\ n <= MAX_AUTHORIZATION_GRAPH_VISITS
           /\ forallb (fun a => permits a required) authorities = true.
Proof.
  intros Hsp. unfold authorize_operation_for_visibility. rewrite Hsp.
  assert (He : is_empty (OperationEnvelope.authorization op) = true
    <-> OperationEnvelope.authorization op = []) by (by destruct (OperationEnvelope.authorization op)).
  destruct (is_empty _) eqn:Ee.
  { split; [done|]. intros [Hne _]. destruct Hne. by apply He. }
  assert (Hne : OperationEnvelope.authorization op <> []) by (intros Hx; by apply He in Hx). split.
  - intros Ha. split; [done|]. destruct (for_operation op visibility) as [required|]; [|done].
    destruct (resolve_set now space _ _) as [[l c]|] eqn:E; [|done].
    apply resolve_set_Ok in E as (_ & n & Hn & Hm & _). exists required, n, l.
    destruct (forallb _ l); done.
  - intros (_ & required & n & l & Hr & Hn & Hm & Hp). rewrite Hr.
    rewrite (proj2 (resolve_set_Ok _ _ l (mkContext n ∅))) by eauto. by rewrite Hp.
Qed.
End Chains.

Section Authorized.
Context `{Sha256} `{Ed25519} `{HalfFloat} `{Base64} `{!JsonNumber} `{!JsonSize} `{!CapabilityView}.

(** C3: an operation is authorized exactly when it carries references, they form
    chains for its actor within the visit bound, and every authority at their ends
    permits what the operation requires.  Fuel and cycle checks do not show: a chain
    is finite, so a cycle never authorizes anything. *)
Theorem authorize_operation_spec (op : OperationEnvelope.t) (now : Z) (visibility : option Visibility.t) :
  authorize_operation_for_visibility op now visibility = Ok tt
  <-> OperationEnvelope.authorization op <> []
      /\ exists required n authorities, for_operation op visibility = Ok required
           /\ chains now (OperationEnvelope.space_id op) n (OperationEnvelope.actor_id op)
                (OperationEnvelope.authorization op) authorities
           /\ n <= MAX_AUTHORIZATION_GRAPH_VISITS
           /\ forallb (fun a => permits a required) authorities = true.
Proof. by apply authorize_operation_iff. Qed.

(** C4: no ambient authority, and revocation reaches descendants.  If an operation
    is authorized then every reference leads to the space's trusted genesis, and
    every operation met on the way is either that genesis or a grant that is neither
    revoked nor outside its window and whose scope contains the referenced grant's. *)
Theorem authorized_ancestors (op : OperationEnvelope.t) (space : list Z) (now : Z)
    (visibility : option Visibility.t) :
  OperationEnvelope.space_id op = space ->
  authorize_operation_for_visibility op now visibility = Ok tt ->
  forall r, r ∈ OperationEnvelope.authorization op ->
  (exists s, reaches space r s /\ trusted_genesis space = Ok (Some s))
  /\ forall s, reaches space r s ->
       trusted_genesis space = Ok (Some s)
       \/ exists sop p, live_grant now space s sop p
            /\ forall rop g, live_grant now space r rop g -> narrower g p.
Proof.
  intros Hsp Ha r Hr. apply (authorize_operation_iff now space op visibility Hsp) in Ha
    as (_ & required & n & l & _ & Hn & _ & _).
  destruct (chains_elem now space _ _ _ _ r Hn Hr) as (m & a & Hc & _).
  split; [by eapply chain_rooted|]. intros s Hs.
  destruct (chain_within now space r s Hs _ _ _ Hc) as (k & sub & b & Hb & Hw).
  inversion Hb as [? ? sop Hst Hsc Hbd Ht|k' s' sop p issuers Hl]; subst; [by left|]. right.
  exists sop, p. split; [done|]. intros rop g Hg.
  inversion Hc as [? ? rop' Hst' Hsc'|? ? rop' g' ? Hl']; subst; cbn in Hw;
    [exfalso; assert (rop = rop') as -> by (eapply stored_unique; [apply Hg|done]);
     destruct Hg as (_ & Hg & _); congruence|].
  assert (rop = rop') as -> by (eapply stored_unique; [apply Hg|apply Hl']).
  assert (g = g') as ->; [|exact Hw].
  destruct Hg as (_ & _ & Hg & _), Hl' as (_ & _ & Hl' & _). congruence.
Qed.

(** References are a conjunction: whatever several of them authorize, any
    nonempty selection of them authorizes, so adding one never adds authority. *)
Theorem references_only_attenuate (space subject : list Z) (refs selection : list (list Z))
    (action : CapabilityAction.t) (now : Z) :
  sublist selection refs -> selection <> [] ->
  authorize_capability_action space subject refs action now = Ok tt ->
  authorize_capability_action space subject selection action now = Ok tt.
Proof.
  intros Hsub Hne (_ & n & l & Hn & Hm & Hp)%authorize_action_iff. apply authorize_action_iff.
  split; [done|].
  enough (exists k l', chains now space k subject selection l' /\ k <= n /\ l' ⊆ l) as (k & l' & Hk & ? & Hl).
  { exists k, l'. split; [done|]. split; [lia|]. rewrite forallb_forall in Hp |- *.
    intros a Ha. apply Hp. apply list_elem_of_In in Ha. by apply list_elem_of_In, Hl. }
  clear Hm Hp Hne. revert n l Hn. induction Hsub as [|id sel refs _ IH|id sel refs _ IH]; intros n l Hn.
  - inversion Hn; subst. by exists 0, [].
  - inversion Hn as [|n1 m1 ? ? ? a l1 Hc Hcs]; subst. destruct (IH _ _ Hcs) as (k & l' & Hk & ? & ?).
    exists (n1 + k), (a :: l'). split; [by constructor|]. split; [lia|]. set_solver.
  - inversion Hn as [|n1 m1 ? ? ? a l1 Hc Hcs]; subst. destruct (IH _ _ Hcs) as (k & l' & Hk & ? & ?).
    exists k, l'. split; [done|]. pose proof (chain_size _ _ _ _ _ _ Hc). split; [lia|]. set_solver.
Qed.
End Authorized.

(** ** Witnesses *)
Lemma delegation_narrows_witness :
  grant_validate device_grant = Ok tt /\ permits_delegation device_grant link_grant = true
  /\ delegates device_grant link_grant.
Proof.
  assert (Hv : grant_validate device_grant = Ok tt) by by_vm.
  assert (Hp : permits_delegation device_grant link_grant = true) by by_vm.
  split; [exact Hv|]. split; [exact Hp|].
  exact (proj1 (delegation_narrows device_grant link_grant Hv) Hp).
Defined.

Lemma resolve_fuel_witness :
  let c := mkContext 4095 ∅ in
  resolve 3 1700000002000 sample_space device_seed (fst grant_bytes) c
  = resolve 2 1700000002000 sample_space device_seed (fst grant_bytes) c.
Proof. intros c. apply (resolve_fuel _ _ 2). vm_compute. reflexivity. Defined.

Lemma authorized_ancestors_witness :
  exists s, reaches sample_space (fst grant_bytes) s /\ trusted_genesis sample_space = Ok (Some s).
Proof.
  apply (authorized_ancestors record_operation sample_space 1700000002000 (Some Visibility.Public)
           eq_refl record_admitted (fst grant_bytes)). left.
Defined.

Lemma references_only_attenuate_witness :
  authorize_capability_action sample_space device_seed [fst grant_bytes]
    CapabilityAction.LinkWorkspace 1700000002000 = Ok tt.
Proof.
  refine (references_only_attenuate _ _ [fst grant_bytes; fst grant_bytes] [fst grant_bytes] _ _ _ _
            device_actions_admitted); [|done].
  constructor. constructor. constructor.
Defined.
