(* ===== verification/Replication.v ===== *)
(** * Anti-entropy inventories (crates/fractonica-replication/src/lib.rs)

    An eight-way Merkle radix tree over 32-byte identifiers.  [InventoryTree.build]
    keeps one entry per key in ascending key order; [summary] hashes the entries under
    an octal prefix, either as one bucket or as a node over its children.

    The [BTreeMap] under construction is a [gmap]; its iteration in key order is a
    sort of its elements.  The incremental digests hash the concatenation of what is
    fed to them.  [summarize_entries] recurses one octal digit at a time and stops at
    [MAX_OCTAL_DEPTH], so that depth is fuel enough
    ([ReplicationTheory.summarize_fuel]). *)
From S2P Require Import Prelude Bytes Floats Crypto.

Definition RADIX : nat := 8.
Definition BUCKET_CAPACITY : nat := 8.
Definition KEY_BYTES : nat := 32.
Definition MAX_OCTAL_DEPTH : nat := 86.
Definition MAX_NAMESPACE_BYTES : nat := 32.

Definition EMPTY_DOMAIN : list Z := str "fractonica.inventory.empty.v1" ++ [0].
Definition LEAF_DOMAIN : list Z := str "fractonica.inventory.leaf.v1" ++ [0].
Definition NODE_DOMAIN : list Z := str "fractonica.inventory.node.v1" ++ [0].

Module InventoryEntry.
Record t : Type := mk { key : list Z; value_digest : list Z }.
#[global] Instance eq_dec : EqDecision t.
Proof. solve_decision. Defined.
End InventoryEntry.

Module InventoryChild.
Record t : Type := mk { digit : Z; count : Z; hash : list Z }.
#[global] Instance eq_dec : EqDecision t.
Proof. solve_decision. Defined.
End InventoryChild.

Module InventorySummary.
Record t : Type := mk {
  prefix : list Z;
  count : Z;
  hash : list Z;
  children : list InventoryChild.t;
  entries : list InventoryEntry.t
}.
#[global] Instance eq_dec : EqDecision t.
Proof. solve_decision. Defined.
End InventorySummary.

Inductive InventoryError : Type :=
| InvalidNamespace
| InvalidPrefix
| ConflictingEntry (key : list Z).

(** ** Paths *)
Definition octal_digit (key : list Z) (depth : nat) : Z :=
  let start_bit := (depth * 3)%nat in
  fold_left (fun digit offset =>
    let digit := wrap 8 (Z.shiftl digit 1) in
    let bit := (start_bit + offset)%nat in
    if (bit <? KEY_BYTES * 8)%nat
    then Z.lor digit (Z.land (Z.shiftr (nth (bit / 8) key 0) (7 - Z.of_nat (bit mod 8))) 1)
    else digit) [0%nat; 1%nat; 2%nat] 0.

(** The loop of [key_has_prefix], from [depth] on. *)
Fixpoint key_has_prefix_from (key : list Z) (depth : nat) (prefix : list Z) : bool :=
  match prefix with
  | [] => true
  | digit :: prefix => (octal_digit key depth =? digit) && key_has_prefix_from key (S depth) prefix
  end.
Definition key_has_prefix (key prefix : list Z) : bool := key_has_prefix_from key 0 prefix.

Definition validate_prefix (prefix : list Z) : result InventoryError unit :=
  if (MAX_OCTAL_DEPTH <? length prefix)%nat
     || existsb (fun digit => Z.of_nat RADIX <=? digit) prefix
  then Err InvalidPrefix
  else if (length prefix =? MAX_OCTAL_DEPTH)%nat
          && negb (match last prefix with Some digit => (digit =? 0) || (digit =? 4) | None => false end)
  then Err InvalidPrefix
  else Ok tt.

(** ** Hashes *)

(** What [digest_parts] feeds to the hash. *)
Definition digest_message (domain namespace prefix : list Z) (count : Z) (payload : list Z) : list Z :=
  domain ++ be_bytes 2 (wrap 16 (Z.of_nat (length namespace))) ++ namespace
  ++ be_bytes 2 (wrap 16 (Z.of_nat (length prefix))) ++ prefix ++ be_bytes 8 count ++ payload.

Definition leaf_message (namespace : list Z) (entry : InventoryEntry.t) : list Z :=
  LEAF_DOMAIN ++ be_bytes 2 (wrap 16 (Z.of_nat (length namespace))) ++ namespace
  ++ InventoryEntry.key entry ++ InventoryEntry.value_digest entry.

Definition encode_children (children : list InventoryChild.t) : list Z :=
  concat (List.map (fun child =>
    InventoryChild.digit child :: be_bytes 8 (InventoryChild.count child)
      ++ InventoryChild.hash child) children).

Section Inventory.
Context `{Sha256}.

Definition digest_parts (domain namespace prefix : list Z) (count : Z) (payload : list Z) : list Z :=
  sha256 (digest_message domain namespace prefix count payload).

Definition bucket_hash (namespace prefix : list Z) (entries : list InventoryEntry.t) : list Z :=
  match entries with
  | [] => digest_parts EMPTY_DOMAIN namespace prefix 0 []
  | _ =>
      let leaves := concat (List.map (fun entry => sha256 (leaf_message namespace entry)) entries) in
      digest_parts NODE_DOMAIN namespace prefix (Z.of_nat (length entries)) leaves
  end.

Definition node_hash (namespace prefix : list Z) (count : Z) (children : list InventoryChild.t) :
    list Z :=
  digest_parts NODE_DOMAIN namespace prefix count (encode_children children).

(** ** Summaries *)
Definition bucket_summary (namespace prefix : list Z) (entries : list InventoryEntry.t) :
    InventorySummary.t :=
  InventorySummary.mk prefix (Z.of_nat (length entries)) (bucket_hash namespace prefix entries)
    [] entries.

(** The entries of [digit]'s child. *)
Definition child_entries (prefix : list Z) (entries : list InventoryEntry.t) (digit : Z) :
    list InventoryEntry.t :=
  filter (fun entry => octal_digit (InventoryEntry.key entry) (length prefix) = digit) entries.

Definition DIGITS : list Z := [0; 1; 2; 3; 4; 5; 6; 7].

Fixpoint summarize_entries (fuel : nat) (namespace prefix : list Z)
    (entries : list InventoryEntry.t) : InventorySummary.t :=
  if (length entries <=? BUCKET_CAPACITY)%nat || (length prefix =? MAX_OCTAL_DEPTH)%nat
  then bucket_summary namespace prefix entries
  else match fuel with
  | O => bucket_summary namespace prefix entries
  | S fuel =>
      let children := flat_map (fun digit =>
        match child_entries prefix entries digit with
        | [] => []
        | (_ :: _) as child_entries =>
            let child := summarize_entries fuel namespace (prefix ++ [digit]) child_entries in
            [InventoryChild.mk digit (InventorySummary.count child) (InventorySummary.hash child)]
        end) DIGITS in
      InventorySummary.mk prefix (Z.of_nat (length entries))
        (node_hash namespace prefix (Z.of_nat (length entries)) children) children []
  end.
End Inventory.

Module InventoryTree.
Record t : Type := mk { namespace : list Z; entries : list InventoryEntry.t }.

(** Insertion into the map; an existing different digest is an error. *)
Fixpoint insert_unique (unique : gmap (list Z) (list Z)) (entries : list InventoryEntry.t) :
    result InventoryError (gmap (list Z) (list Z)) :=
  match entries with
  | [] => Ok unique
  | entry :: entries =>
      let existing := unique !! InventoryEntry.key entry in
      let unique := <[InventoryEntry.key entry := InventoryEntry.value_digest entry]> unique in
      match existing with
      | Some existing =>
          if negb (list_eqb existing (InventoryEntry.value_digest entry))
          then Err (ConflictingEntry (InventoryEntry.key entry))
          else insert_unique unique entries
      | None => insert_unique unique entries
      end
  end.

Definition entry_le (a b : InventoryEntry.t) : Prop :=
  bytes_le (InventoryEntry.key a) (InventoryEntry.key b).
#[global] Instance entry_le_dec a b : Decision (entry_le a b).
Proof. unfold entry_le. apply _. Defined.

(** The map's elements in ascending key order. *)
Definition sorted_entries (unique : gmap (list Z) (list Z)) : list InventoryEntry.t :=
  merge_sort entry_le
    (List.map (fun kv => InventoryEntry.mk (fst kv) (snd kv)) (map_to_list unique)).

Definition build (namespace : list Z) (entries : list InventoryEntry.t) : result InventoryError t :=
  if (length namespace =? 0)%nat || (MAX_NAMESPACE_BYTES <? length namespace)%nat
  then Err InvalidNamespace
  else
    let? unique := insert_unique ∅ entries in
    Ok (mk namespace (sorted_entries unique)).

Section Summary.
Context `{Sha256}.

(** The entries under a prefix. *)
Definition under (tree : t) (prefix : list Z) : list InventoryEntry.t :=
  filter (fun entry => key_has_prefix (InventoryEntry.key entry) prefix = true) (entries tree).

Definition summary (tree : t) (prefix : list Z) : result InventoryError InventorySummary.t :=
  check validate_prefix prefix;
  Ok (summarize_entries MAX_OCTAL_DEPTH (namespace tree) prefix (under tree prefix)).

(** [root]: the empty prefix is valid, so the [expect] never fails. *)
Definition root (tree : t) : option InventorySummary.t :=
  match summary tree [] with Ok summary => Some summary | Err _ => None end.
End Summary.
End InventoryTree.
