(* ===== verification/ReplicationTheory.v ===== *)
(** * Inventories: the theorems

    The inventory of a set of entries does not depend on the order or repetition of
    its insertions; summaries can be navigated child by child; equal hashes bind equal
    entries unless the hash collides on the messages the two sides compute. *)
From S2P Require Import Prelude Bytes Floats Crypto Replication.
Import InventoryTree.

Definition entry_lt (a b : InventoryEntry.t) : Prop :=
  bytes_lt (InventoryEntry.key a) (InventoryEntry.key b).

#[local] Instance entry_lt_trans : Transitive entry_lt.
Proof. intros a b c. apply bytes_lt_trans. Qed.

#[local] Instance entry_le_trans : Transitive entry_le.
Proof. intros a b c. unfold entry_le. apply bytes_le_trans. Qed.
#[local] Instance entry_le_total : Total entry_le.
Proof. intros a b. apply bytes_le_total. Qed.

(** ** Building *)

(** At most one digest per key. *)
Definition functional (es : list InventoryEntry.t) : Prop :=
  forall a b, a ∈ es -> b ∈ es -> InventoryEntry.key a = InventoryEntry.key b -> a = b.

Definition valid_namespace (namespace : list Z) : Prop :=
  (0 < length namespace <= MAX_NAMESPACE_BYTES)%nat.

Lemma insert_unique_Ok es : forall unique unique',
  insert_unique unique es = Ok unique' ->
  functional es
  /\ (forall e v, e ∈ es -> unique !! InventoryEntry.key e = Some v -> v = InventoryEntry.value_digest e)
  /\ forall k v, unique' !! k = Some v <-> unique !! k = Some v \/ InventoryEntry.mk k v ∈ es.
Proof.
  induction es as [|e es IH]; intros m m' Hm; cbn in Hm.
  { injection Hm as <-. split; [intros a b Ha; by apply not_elem_of_nil in Ha|].
    split; [intros e v He; by apply not_elem_of_nil in He|].
    intros k v. split; [by left|]. intros [?|Hin]; [done|by apply not_elem_of_nil in Hin]. }
  assert (Hm2 : insert_unique (<[InventoryEntry.key e := InventoryEntry.value_digest e]> m) es = Ok m'
    /\ forall v, m !! InventoryEntry.key e = Some v -> v = InventoryEntry.value_digest e).
  { destruct (m !! InventoryEntry.key e) as [v|]; [|by split].
    destruct (list_eqb v _) eqn:Ev; cbn in Hm; [|done]. apply list_eqb_eq in Ev as ->.
    split; [done|]. by intros ? [= <-]. }
  destruct Hm2 as [Hm2 He]. apply IH in Hm2 as (Hf & Hc & Hl).
  assert (Hsame : forall b, b ∈ es -> InventoryEntry.key b = InventoryEntry.key e -> b = e).
  { intros [kb vb] Hb Hk. cbn in Hk. specialize (Hc _ (InventoryEntry.value_digest e) Hb). cbn in Hc.
    rewrite Hk, lookup_insert_eq in Hc. specialize (Hc eq_refl). destruct e as [ke ve]. cbn in *. by subst. }
  split; [|split].
  - intros a b [->|Ha]%elem_of_cons [->|Hb]%elem_of_cons Hk; [done| | |by apply Hf].
    + by rewrite (Hsame b Hb).
    + by rewrite (Hsame a Ha).
  - intros a v [->|Ha]%elem_of_cons Hv; [by apply He|].
    destruct (decide (InventoryEntry.key a = InventoryEntry.key e)) as [Hk|Hk].
    + rewrite (Hsame a Ha Hk) in *. by apply He.
    + apply (Hc a v Ha). by rewrite lookup_insert_ne.
  - intros k v. rewrite Hl, elem_of_cons. destruct (decide (k = InventoryEntry.key e)) as [->|Hk].
    + rewrite lookup_insert_eq. destruct e as [ke ve]; cbn in *. split.
      * intros [[= <-]|Hin]; [by right; left|by right; right].
      * intros [Hv|[[= <-]|Hin]]; [left; f_equal; symmetry; by apply He|by left|by right].
    + rewrite lookup_insert_ne by done. split; [naive_solver|]. intros [?|[<-|?]]; [by left|done|by right].
Qed.

Lemma insert_unique_total es : forall unique,
  functional es ->
  (forall e v, e ∈ es -> unique !! InventoryEntry.key e = Some v -> v = InventoryEntry.value_digest e) ->
  exists unique', insert_unique unique es = Ok unique'.
Proof.
  induction es as [|e es IH]; intros m Hf Hc; [by exists m|]. cbn.
  assert (Hnext : exists m', insert_unique (<[InventoryEntry.key e := InventoryEntry.value_digest e]> m) es
                             = Ok m').
  { apply IH.
    - intros a b Ha Hb. apply Hf; by right.
    - intros a v Ha Hv. destruct (decide (InventoryEntry.key a = InventoryEntry.key e)) as [Hk|Hk].
      + rewrite Hk, lookup_insert_eq in Hv. injection Hv as <-.
        by rewrite (Hf a e ltac:(by right) ltac:(left) Hk).
      + rewrite lookup_insert_ne in Hv by done. apply (Hc a v); [by right|done]. }
  destruct (m !! InventoryEntry.key e) as [v|] eqn:Ev; [|done].
  apply Hc in Ev as ->; [|left]. rewrite (proj2 (list_eqb_eq _ _)) by done. done.
Qed.

Lemma sorted_entries_elem m e :
  e ∈ sorted_entries m <-> m !! InventoryEntry.key e = Some (InventoryEntry.value_digest e).
Proof.
  unfold sorted_entries. rewrite merge_sort_Permutation, list_elem_of_fmap. split.
  - intros ([k v] & -> & Hkv). by apply elem_of_map_to_list in Hkv.
  - intros He. exists (InventoryEntry.key e, InventoryEntry.value_digest e). split; [by destruct e|].
    by apply elem_of_map_to_list.
Qed.

Lemma sorted_entries_keys m : NoDup (List.map InventoryEntry.key (sorted_entries m)).
Proof.
  unfold sorted_entries. rewrite merge_sort_Permutation, List.map_map. cbn.
  change (NoDup (fst <$> map_to_list m)). apply NoDup_fst_map_to_list.
Qed.

Lemma StronglySorted_strict l :
  Sorted.StronglySorted entry_le l -> NoDup (List.map InventoryEntry.key l) ->
  Sorted.StronglySorted entry_lt l.
Proof.
  induction 1 as [|e l _ IH He]; cbn; intros Hd; [constructor|].
  apply NoDup_cons in Hd as [Hn Hd]. constructor; [by apply IH|].
  rewrite Forall_forall in He |- *. intros x Hx. specialize (He x Hx).
  apply bytes_le_lteq in He as [?|Hk]; [done|]. destruct Hn. rewrite Hk. by apply list_elem_of_fmap_2.
Qed.

Lemma sorted_entries_sorted m : Sorted.StronglySorted entry_lt (sorted_entries m).
Proof.
  apply StronglySorted_strict; [|apply sorted_entries_keys].
  apply (StronglySorted_merge_sort entry_le).
Qed.

Lemma entry_sorted_NoDup l : Sorted.StronglySorted entry_lt l -> NoDup l.
Proof.
  induction 1 as [|e l _ IH He]; constructor; [|done]. intros Hin.
  rewrite Forall_forall in He. by apply (bytes_lt_irrefl (InventoryEntry.key e)), He.
Qed.

(** Strictly sorted lists of the same entries are equal. *)
Lemma entry_sorted_unique l1 l2 :
  Sorted.StronglySorted entry_lt l1 -> Sorted.StronglySorted entry_lt l2 ->
  (forall e, e ∈ l1 <-> e ∈ l2) -> l1 = l2.
Proof.
  intros H1 H2 He. apply (StronglySorted_unique_strong entry_lt); [|done|done|].
  - intros a b _ _ Hab Hba. destruct (bytes_lt_irrefl (InventoryEntry.key a)).
    by apply (bytes_lt_trans _ (InventoryEntry.key b)).
  - apply NoDup_Permutation; eauto using entry_sorted_NoDup.
Qed.

Lemma build_iff namespace es tree :
  build namespace es = Ok tree
  <-> valid_namespace namespace /\ functional es /\ InventoryTree.namespace tree = namespace
      /\ Sorted.StronglySorted entry_lt (entries tree) /\ forall e, e ∈ entries tree <-> e ∈ es.
Proof.
  unfold build, valid_namespace. split.
  - intros Hb. destruct (_ || _) eqn:En; [done|]. bool_prop.
    destruct (insert_unique ∅ es) as [m|] eqn:Em; [|done]. injection Hb as <-. cbn.
    apply insert_unique_Ok in Em as (Hf & _ & Hl). split; [lia|]. split; [done|]. split; [done|].
    split; [apply sorted_entries_sorted|]. intros e. rewrite sorted_entries_elem, Hl, lookup_empty.
    destruct e; cbn. naive_solver.
  - intros (Hn & Hf & <- & Hs & He).
    rewrite (proj2 (Nat.eqb_neq _ 0)) by lia. rewrite (proj2 (Nat.ltb_ge _ _)) by lia. cbn [orb].
    destruct (insert_unique_total es ∅ Hf) as [m Hm]; [intros ? ?; by rewrite lookup_empty|].
    rewrite Hm. f_equal. destruct tree as [ns l]; cbn in *. f_equal.
    apply entry_sorted_unique; [apply sorted_entries_sorted|done|]. intros e.
    apply insert_unique_Ok in Hm as (_ & _ & Hl). rewrite sorted_entries_elem, Hl, lookup_empty, He.
    destruct e; cbn. naive_solver.
Qed.

(** ** Octal digits *)

(** Bit [i] of a key, most significant first, zero past its end. *)
Definition key_bit (key : list Z) (i : nat) : Z :=
  if (i <? KEY_BYTES * 8)%nat
  then Z.b2z (Z.testbit (nth (i / 8) key 0) (7 - Z.of_nat (i mod 8))) else 0.

Lemma key_bit_bound key i : 0 <= key_bit key i <= 1.
Proof. unfold key_bit. destruct (_ <? _)%nat; [|lia]. destruct (Z.testbit _ _); cbn; lia. Qed.

Lemma shift_in digit x n :
  0 <= digit < 64 -> 0 <= n ->
  Z.lor (wrap 8 (Z.shiftl digit 1)) (Z.land (Z.shiftr x n) 1) = 2 * digit + Z.b2z (Z.testbit x n).
Proof.
  intros Hd Hn.
  assert (Hs : wrap 8 (Z.shiftl digit 1) = Z.shiftl digit 1)
    by (apply wrap_small; unfold in_u; rewrite Z.shiftl_mul_pow2 by lia; lia).
  assert (Hb : Z.land (Z.shiftr x n) 1 = Z.b2z (Z.testbit x n)).
  { change 1 with (2 ^ 1 - 1). rewrite land_ones_mod by lia.
    rewrite (Z.testbit_spec' x n) by lia. rewrite Z.shiftr_div_pow2 by lia. done. }
  rewrite Hs, Hb, shiftl_lor_add; [lia|lia|]. destruct (Z.testbit x n); cbn; lia.
Qed.

Lemma octal_digit_bits key depth :
  octal_digit key depth
  = 4 * key_bit key (depth * 3) + 2 * key_bit key (depth * 3 + 1) + key_bit key (depth * 3 + 2).
Proof.
  unfold octal_digit. cbn [fold_left].
  assert (Hstep : forall digit i, 0 <= digit < 64 ->
    (if (i <? KEY_BYTES * 8)%nat
     then Z.lor (wrap 8 (Z.shiftl digit 1))
            (Z.land (Z.shiftr (nth (i / 8) key 0) (7 - Z.of_nat (i mod 8))) 1)
     else wrap 8 (Z.shiftl digit 1)) = 2 * digit + key_bit key i).
  { intros digit i Hd. unfold key_bit. destruct (_ <? _)%nat.
    - apply shift_in; [done|]. pose proof (Nat.mod_upper_bound i 8). lia.
    - rewrite wrap_small by (unfold in_u; rewrite Z.shiftl_mul_pow2; lia). rewrite Z.shiftl_mul_pow2; lia. }
  pose proof (key_bit_bound key (depth * 3)). pose proof (key_bit_bound key (depth * 3 + 1)).
  rewrite (Hstep 0), Nat.add_0_r by lia.
  rewrite (Hstep (2 * 0 + key_bit key (depth * 3))) by lia. rewrite Hstep by lia. lia.
Qed.

Lemma octal_digit_range key depth : octal_digit key depth ∈ DIGITS.
Proof.
  rewrite octal_digit_bits.
  assert (Hz : forall i, key_bit key i = 0 \/ key_bit key i = 1)
    by (intros i; pose proof (key_bit_bound key i); lia).
  unfold DIGITS. rewrite !elem_of_cons.
  destruct (Hz (depth * 3)%nat) as [->| ->], (Hz (depth * 3 + 1)%nat) as [->| ->],
    (Hz (depth * 3 + 2)%nat) as [->| ->]; cbn; tauto.
Qed.

Lemma octal_digit_last key : octal_digit key 85 = 0 \/ octal_digit key 85 = 4.
Proof.
  rewrite octal_digit_bits. pose proof (key_bit_bound key (85 * 3)).
  assert (E : forall i, (256 <= i)%nat -> key_bit key i = 0).
  { intros i Hi. unfold key_bit. by rewrite (proj2 (Nat.ltb_ge i _)) by (unfold KEY_BYTES; lia). }
  rewrite (E (85 * 3 + 1)%nat), (E (85 * 3 + 2)%nat) by lia. lia.
Qed.

(** The 86 digits determine the key. *)
Lemma octal_digits_key a b :
  fixed 32 a -> fixed 32 b ->
  (forall depth, (depth < MAX_OCTAL_DEPTH)%nat -> octal_digit a depth = octal_digit b depth) -> a = b.
Proof.
  intros [La Ba] [Lb Bb] Hd.
  assert (Hbit : forall i, (i < 256)%nat -> key_bit a i = key_bit b i).
  { intros i Hi. specialize (Hd (i / 3)%nat). rewrite !octal_digit_bits in Hd.
    assert (Hlt : (i / 3 < MAX_OCTAL_DEPTH)%nat) by (apply Nat.Div0.div_lt_upper_bound; unfold MAX_OCTAL_DEPTH; lia).
    specialize (Hd Hlt).
    pose proof (Nat.div_mod_eq i 3). pose proof (Nat.mod_upper_bound i 3 ltac:(lia)).
    remember (i / 3)%nat as q eqn:Eq. clear Eq Hlt.
    pose proof (key_bit_bound a (q * 3)); pose proof (key_bit_bound b (q * 3)).
    pose proof (key_bit_bound a (q * 3 + 1)); pose proof (key_bit_bound b (q * 3 + 1)).
    pose proof (key_bit_bound a (q * 3 + 2)); pose proof (key_bit_bound b (q * 3 + 2)).
    assert (Hi3 : (i = q * 3 \/ i = q * 3 + 1 \/ i = q * 3 + 2)%nat) by lia.
    clear - Hi3 Hd H1 H2 H3 H4 H5 H6. destruct Hi3 as [->|[->| ->]]; lia. }
  apply list_eq_same_length with (n := 32%nat); [done|done|].
  intros j x y Hj Hx Hy. rewrite Forall_forall in Ba, Bb.
  pose proof (Ba x ltac:(by eapply list_elem_of_lookup_2)) as Hbx.
  pose proof (Bb y ltac:(by eapply list_elem_of_lookup_2)) as Hby. unfold is_byte in *.
  apply Z.bits_inj'. intros k Hk. destruct (Z.ltb_spec k 8).
  - specialize (Hbit (8 * j + Z.to_nat (7 - k))%nat ltac:(lia)). unfold key_bit in Hbit.
    rewrite (proj2 (Nat.ltb_lt _ _)) in Hbit by (unfold KEY_BYTES; lia).
    assert (Hq : ((8 * j + Z.to_nat (7 - k)) / 8 = j)%nat)
      by (symmetry; apply (Nat.div_unique _ _ _ (Z.to_nat (7 - k))); lia).
    assert (Hr : ((8 * j + Z.to_nat (7 - k)) mod 8 = Z.to_nat (7 - k))%nat)
      by (symmetry; apply (Nat.mod_unique _ _ j); lia).
    rewrite Hq, Hr, Z2Nat.id in Hbit by lia. rewrite !nth_lookup, Hx, Hy in Hbit. cbn in Hbit.
    replace (7 - (7 - k)) with k in Hbit by lia.
    by destruct (Z.testbit x k), (Z.testbit y k).
  - rewrite <- (Z.mod_small x (2 ^ 8)), <- (Z.mod_small y (2 ^ 8)) by lia.
    by rewrite !Z.mod_pow2_bits_high by lia.
Qed.

#[local] Arguments octal_digit : simpl never.

Lemma key_has_prefix_from_spec key prefix : forall depth,
  key_has_prefix_from key depth prefix = true
  <-> forall i digit, prefix !! i = Some digit -> octal_digit key (depth + i) = digit.
Proof.
  induction prefix as [|d prefix IH]; intros depth; cbn; [by split|].
  rewrite andb_true_iff, IH, Z.eqb_eq. split.
  - intros [H0 H1] [|i] digit; cbn; [intros [= <-]; by rewrite Nat.add_0_r|].
    intros Hi. rewrite <- Nat.add_succ_comm. by apply H1.
  - intros Hi. split; [specialize (Hi 0%nat d eq_refl); by rewrite Nat.add_0_r in Hi|].
    intros i digit Hd. rewrite Nat.add_succ_comm. by apply Hi.
Qed.

Lemma key_has_prefix_snoc key prefix digit :
  key_has_prefix key (prefix ++ [digit]) = true
  <-> key_has_prefix key prefix = true /\ octal_digit key (length prefix) = digit.
Proof.
  unfold key_has_prefix. 
  enough (E : forall prefix k, key_has_prefix_from key k (prefix ++ [digit]) = true
    <-> key_has_prefix_from key k prefix = true /\ octal_digit key (k + length prefix) = digit).
  { exact (E prefix 0%nat). }
  clear prefix. intros p. induction p as [|d p IH]; intros k; cbn.
  - rewrite andb_true_r, Z.eqb_eq, Nat.add_0_r. tauto.
  - rewrite !andb_true_iff, IH, Nat.add_succ_comm. tauto.
Qed.

(** ** Summaries *)
Lemma validate_prefix_Ok prefix :
  validate_prefix prefix = Ok tt
  <-> (length prefix <= MAX_OCTAL_DEPTH)%nat /\ (forall d, d ∈ prefix -> d < 8)
      /\ (length prefix = MAX_OCTAL_DEPTH -> last prefix = Some 0 \/ last prefix = Some 4).
Proof.
  unfold validate_prefix.
  assert (He : existsb (fun d => Z.of_nat RADIX <=? d) prefix = false <-> forall d, d ∈ prefix -> d < 8).
  { rewrite <- not_true_iff_false, existsb_exists. change (Z.of_nat RADIX) with 8. split.
    - intros Hn d Hd. destruct (Z.ltb_spec d 8) as [|Hge]; [done|]. destruct Hn. exists d.
      split; [by apply list_elem_of_In|]. by apply Z.leb_le.
    - intros Hall (d & Hd%list_elem_of_In%Hall & Hle%Z.leb_le). lia. }
  destruct (Nat.ltb_spec MAX_OCTAL_DEPTH (length prefix)); cbn [orb]; [split; [done|lia]|].
  destruct (existsb _ _).
  { split; [done|]. intros (_ & Hd & _). by apply He in Hd. }
  assert (Hd : forall d, d ∈ prefix -> d < 8) by by apply He.
  destruct (Nat.eqb_spec (length prefix) MAX_OCTAL_DEPTH) as [El|El]; cbn [andb].
  - destruct (last prefix) as [d|]; cbn [negb]; [|split; [done|by intros (_ & _ & [?|?])]].
    destruct (Z.eqb_spec d 0) as [->|]; cbn; [by split; [split; [|split; [|left]]|]|].
    destruct (Z.eqb_spec d 4) as [->|]; cbn; [by split; [split; [|split; [|right]]|]|].
    split; [done|]. intros (_ & _ & Hl). by destruct (Hl El) as [[= ->]|[= ->]].
  - split; [|done]. intros _. split; [done|]. split; [done|]. by intros ?.
Qed.

(** A list is the concatenation of its classes. *)
Lemma partition_Permutation {A} (f : A -> Z) (ds : list Z) (l : list A) :
  NoDup ds -> (forall x, x ∈ l -> f x ∈ ds) ->
  Permutation l (flat_map (fun d => filter (fun x => f x = d) l) ds).
Proof.
  intros Hd. revert l. induction Hd as [|d ds Hn Hd IH]; intros l Hl.
  - destruct l as [|x l]; [done|]. specialize (Hl x ltac:(left)). by apply not_elem_of_nil in Hl.
  - cbn. rewrite <- (filter_app_complement (fun x => f x = d) l) at 1. f_equiv.
    rewrite (IH (filter (fun x => ~ f x = d) l)) at 1.
    + clear IH Hl.
      induction ds as [|d' ds IH]; [done|]. cbn. apply not_elem_of_cons in Hn as [Hne Hn].
      apply NoDup_cons in Hd as [_ Hd]. f_equiv; [|by apply IH].
      rewrite list_filter_filter. apply reflexive_eq, list_filter_iff. intros x. naive_solver.
    + intros x [Hx Hin]%list_elem_of_filter. specialize (Hl x Hin). apply elem_of_cons in Hl as [?|?]; done.
Qed.

Section Summaries.
Context `{Sha256}.
#[local] Arguments child_entries : simpl never.
#[local] Arguments node_hash : simpl never.
#[local] Arguments bucket_hash : simpl never.
#[local] Arguments summarize_entries : simpl never.

(** One child, as [summarize_entries] lists it. *)
Definition child_of (fuel : nat) (namespace prefix : list Z) (entries : list InventoryEntry.t) (digit : Z) :
    list InventoryChild.t :=
  match child_entries prefix entries digit with
  | [] => []
  | (_ :: _) as child_entries =>
      let child := summarize_entries fuel namespace (prefix ++ [digit]) child_entries in
      [InventoryChild.mk digit (InventorySummary.count child) (InventorySummary.hash child)]
  end.

Definition is_bucket (prefix : list Z) (entries : list InventoryEntry.t) : bool :=
  (length entries <=? BUCKET_CAPACITY)%nat || (length prefix =? MAX_OCTAL_DEPTH)%nat.

Lemma summarize_bucket fuel namespace prefix entries :
  is_bucket prefix entries = true ->
  summarize_entries fuel namespace prefix entries = bucket_summary namespace prefix entries.
Proof. unfold is_bucket. intros Hb. destruct fuel; unfold summarize_entries; by rewrite Hb. Qed.

Lemma summarize_node fuel namespace prefix entries :
  is_bucket prefix entries = false ->
  summarize_entries (S fuel) namespace prefix entries
  = InventorySummary.mk prefix (Z.of_nat (length entries))
      (node_hash namespace prefix (Z.of_nat (length entries))
         (flat_map (child_of fuel namespace prefix entries) DIGITS))
      (flat_map (child_of fuel namespace prefix entries) DIGITS) [].
Proof. unfold is_bucket. intros Hb. unfold summarize_entries at 1. rewrite Hb. reflexivity. Qed.

Lemma summarize_fuel fuel : forall fuel' namespace prefix entries,
  (MAX_OCTAL_DEPTH <= fuel + length prefix)%nat -> (MAX_OCTAL_DEPTH <= fuel' + length prefix)%nat ->
  (length prefix <= MAX_OCTAL_DEPTH)%nat ->
  summarize_entries fuel namespace prefix entries = summarize_entries fuel' namespace prefix entries.
Proof.
  induction fuel as [|fuel IH]; intros fuel' namespace prefix entries Hf Hf' Hl.
  - assert (Hb : is_bucket prefix entries = true)
      by (apply orb_true_iff; right; apply Nat.eqb_eq; lia).
    by rewrite !summarize_bucket.
  - destruct (is_bucket prefix entries) eqn:Hb; [by rewrite !summarize_bucket|].
    pose proof Hb as Hb'. apply orb_false_iff in Hb' as [_ Hne%Nat.eqb_neq].
    destruct fuel' as [|fuel']; [lia|].
    rewrite !summarize_node by done.
    enough (E : flat_map (child_of fuel namespace prefix entries) DIGITS
                = flat_map (child_of fuel' namespace prefix entries) DIGITS) by by rewrite E.
    apply flat_map_ext. intros d. unfold child_of. destruct (child_entries _ _ _); [done|].
    rewrite (IH fuel') by (rewrite ?length_app; cbn; lia). done.
Qed.

Lemma summarize_count fuel namespace prefix entries :
  InventorySummary.count (summarize_entries fuel namespace prefix entries) = Z.of_nat (length entries).
Proof.
  destruct (is_bucket prefix entries) eqn:Hb; [by rewrite summarize_bucket|].
  destruct fuel; [|by rewrite summarize_node]. unfold is_bucket in Hb. unfold summarize_entries. by rewrite Hb.
Qed.

Lemma child_entries_under tree prefix digit :
  child_entries prefix (under tree prefix) digit = under tree (prefix ++ [digit]).
Proof.
  unfold child_entries, under. rewrite list_filter_filter. apply list_filter_iff. intros e.
  rewrite key_has_prefix_snoc. tauto.
Qed.

Lemma flat_map_children fuel tree prefix ds :
  flat_map (fun c => under tree (prefix ++ [InventoryChild.digit c]))
    (flat_map (child_of fuel (namespace tree) prefix (under tree prefix)) ds)
  = flat_map (fun d => child_entries prefix (under tree prefix) d) ds.
Proof.
  induction ds as [|d ds IH]; [done|]. cbn. rewrite flat_map_app, IH. f_equal. unfold child_of.
  rewrite child_entries_under. destruct (under tree (prefix ++ [d])) as [|e l] eqn:E; [done|].
  cbn. by rewrite E, app_nil_r.
Qed.

Lemma child_prefix_valid prefix d (key : list Z) :
  validate_prefix prefix = Ok tt -> (length prefix < MAX_OCTAL_DEPTH)%nat ->
  octal_digit key (length prefix) = d -> validate_prefix (prefix ++ [d]) = Ok tt.
Proof.
  intros (_ & Hd & _)%validate_prefix_Ok Hl <-. apply validate_prefix_Ok.
  rewrite length_app, last_snoc. cbn. split; [lia|]. split.
  - intros x [Hx|Hx%list_elem_of_singleton]%elem_of_app; [by apply Hd|]. subst x.
    pose proof (octal_digit_range key (length prefix)) as Hr. unfold DIGITS in Hr.
    repeat (apply elem_of_cons in Hr as [->|Hr]; [lia|]). by apply not_elem_of_nil in Hr.
  - intros El. replace (length prefix) with 85%nat by (unfold MAX_OCTAL_DEPTH in *; lia).
    destruct (octal_digit_last key) as [->| ->]; auto.
Qed.

Lemma NoDup_DIGITS : NoDup DIGITS.
Proof. apply (bool_decide_eq_true_1 (NoDup DIGITS)). reflexivity. Qed.

(** Children of a node are its nonempty child prefixes, with their summaries. *)
Lemma children_summaries tree prefix c fuel :
  validate_prefix prefix = Ok tt -> is_bucket prefix (under tree prefix) = false ->
  (MAX_OCTAL_DEPTH <= S fuel + length prefix)%nat ->
  c ∈ flat_map (child_of fuel (namespace tree) prefix (under tree prefix)) DIGITS ->
  exists s, summary tree (prefix ++ [InventoryChild.digit c]) = Ok s
    /\ InventorySummary.count s = InventoryChild.count c /\ InventorySummary.hash s = InventoryChild.hash c.
Proof.
  intros Hv Hb Hf (d & Hd & Hc)%list_elem_of_In%in_flat_map. unfold child_of in Hc.
  rewrite child_entries_under in Hc. destruct (under tree (prefix ++ [d])) as [|e l] eqn:E; [done|].
  destruct Hc as [<-|[]]. cbn.
  pose proof Hv as (Hl & _)%validate_prefix_Ok.
  assert (Hlt : (length prefix < MAX_OCTAL_DEPTH)%nat).
  { apply orb_false_iff in Hb as [_ Hb%Nat.eqb_neq]. lia. }
  assert (He : e ∈ under tree (prefix ++ [d])) by (rewrite E; left).
  apply list_elem_of_filter in He as [He _]. apply key_has_prefix_snoc in He as [_ He].
  unfold summary. rewrite (child_prefix_valid prefix d (InventoryEntry.key e)) by done.
  eexists. split; [done|]. rewrite E.
  rewrite (summarize_fuel fuel MAX_OCTAL_DEPTH) by (rewrite ?length_app; cbn [length]; lia).
  split; reflexivity.
Qed.
End Summaries.

(** ** What the hashes bind *)

(** Sizes the Rust types enforce. *)
Definition entry_typed (e : InventoryEntry.t) : Prop :=
  fixed 32 (InventoryEntry.key e) /\ fixed 32 (InventoryEntry.value_digest e).

Lemma be_bytes_inj n a b :
  0 <= a < 256 ^ Z.of_nat n -> 0 <= b < 256 ^ Z.of_nat n -> be_bytes n a = be_bytes n b -> a = b.
Proof. intros Ha Hb E. by rewrite <- (from_be_be_bytes n a), E, from_be_be_bytes. Qed.

(** A length-prefixed field is read back from what follows it. *)
Lemma length_prefixed_inj (a b ra rb : list Z) :
  (length a <= 255)%nat -> (length b <= 255)%nat ->
  be_bytes 2 (wrap 16 (Z.of_nat (length a))) ++ a ++ ra
  = be_bytes 2 (wrap 16 (Z.of_nat (length b))) ++ b ++ rb -> a = b /\ ra = rb.
Proof.
  intros Ha Hb E. apply app_inj_1 in E as [E1 E2]; [|by rewrite !be_bytes_length].
  rewrite !wrap_small in E1 by (unfold in_u; lia). apply be_bytes_inj in E1; [|lia..].
  apply app_inj_1 in E2; [done|lia].
Qed.

Lemma digest_message_inj domain ns1 ns2 prefix c1 c2 p1 p2 :
  valid_namespace ns1 -> valid_namespace ns2 -> (length prefix <= MAX_OCTAL_DEPTH)%nat ->
  0 <= c1 < 2 ^ 64 -> 0 <= c2 < 2 ^ 64 ->
  digest_message domain ns1 prefix c1 p1 = digest_message domain ns2 prefix c2 p2 ->
  ns1 = ns2 /\ c1 = c2 /\ p1 = p2.
Proof.
  unfold valid_namespace, MAX_NAMESPACE_BYTES, MAX_OCTAL_DEPTH, digest_message.
  intros H1 H2 Hp Hc1 Hc2 E. apply app_inj_1 in E as [_ E]; [|done].
  apply length_prefixed_inj in E as [<- E]; [|lia..].
  apply length_prefixed_inj in E as [_ E]; [|lia..].
  apply app_inj_1 in E as [E1 E2]; [|by rewrite !be_bytes_length].
  by apply be_bytes_inj in E1.
Qed.

Lemma empty_not_node ns1 ns2 prefix c1 c2 p1 p2 :
  digest_message EMPTY_DOMAIN ns1 prefix c1 p1 <> digest_message NODE_DOMAIN ns2 prefix c2 p2.
Proof.
  intros E. apply (f_equal (take 22)) in E. unfold digest_message in E.
  rewrite !take_app_le in E by (vm_compute; lia). by vm_compute in E.
Qed.

Lemma leaf_message_inj namespace a b :
  entry_typed a -> entry_typed b -> leaf_message namespace a = leaf_message namespace b -> a = b.
Proof.
  intros [[Ka _] _] [[Kb _] _] E. unfold leaf_message in E.
  apply app_inv_head, app_inv_head, app_inv_head in E.
  apply app_inj_1 in E as [? ?]; [|congruence]. destruct a, b; cbn in *. congruence.
Qed.

(** Fixed-size blocks are read back from their concatenation. *)
Lemma concat_blocks_inj {A} (f : A -> list Z) n l1 : forall l2,
  (0 < n)%nat -> (forall x, x ∈ l1 ++ l2 -> length (f x) = n) ->
  concat (List.map f l1) = concat (List.map f l2) -> List.map f l1 = List.map f l2.
Proof.
  induction l1 as [|x l1 IH]; intros [|y l2] Hn Hl E; cbn in *; [done| | |].
  - specialize (Hl y ltac:(left)). apply (f_equal length) in E. rewrite length_app in E. cbn in E. lia.
  - specialize (Hl x ltac:(left)). apply (f_equal length) in E. rewrite length_app in E. cbn in E. lia.
  - apply app_inj_1 in E as [-> E].
    + f_equal. apply IH; [done| |done]. intros z Hz. apply Hl. rewrite elem_of_cons, elem_of_app, elem_of_cons.
      apply elem_of_app in Hz. tauto.
    + rewrite (Hl x), (Hl y); [done| |left]. right. apply elem_of_app. right. left.
Qed.

(** Filtering keeps what holds of the elements, and the order. *)
Lemma Forall_filtered {A} (P Q : A -> Prop) `{forall x, Decision (P x)} l :
  Forall Q l -> Forall Q (filter P l).
Proof. rewrite !Forall_forall. intros Hq x [_ Hx]%list_elem_of_filter. by apply Hq. Qed.

Lemma StronglySorted_filtered {A} (P : A -> Prop) (R : relation A) `{forall x, Decision (P x)} l :
  Sorted.StronglySorted R l -> Sorted.StronglySorted R (filter P l).
Proof.
  induction 1 as [|x l Hl IH Hx]; [constructor|]. unfold filter in *. cbn.
  destruct (decide (P x)); [|done]. constructor; [done|]. by apply (Forall_filtered P).
Qed.

(** A map is injective where its function is, across the two lists. *)
Lemma map_inj_across {A B} (f : A -> B) l1 : forall l2,
  (forall a b, a ∈ l1 -> b ∈ l2 -> f a = f b -> a = b) -> List.map f l1 = List.map f l2 -> l1 = l2.
Proof.
  induction l1 as [|a l1 IH]; intros [|b l2] Hf E; try done. injection E as Ea El. f_equal.
  - apply Hf; [left..|done].
  - apply IH; [|done]. intros x y Hx Hy. apply Hf; by right.
Qed.

Section Binding.
Context `{Sha256}.
#[local] Arguments child_entries : simpl never.
#[local] Arguments summarize_entries : simpl never.

(** The messages a bucket and a whole summary feed to the hash. *)
Definition bucket_messages (namespace prefix : list Z) (entries : list InventoryEntry.t) :
    list (list Z) :=
  match entries with
  | [] => [digest_message EMPTY_DOMAIN namespace prefix 0 []]
  | _ =>
      digest_message NODE_DOMAIN namespace prefix (Z.of_nat (length entries))
        (concat (List.map (fun entry => sha256 (leaf_message namespace entry)) entries))
      :: List.map (leaf_message namespace) entries
  end.

Fixpoint messages (fuel : nat) (namespace prefix : list Z) (entries : list InventoryEntry.t) :
    list (list Z) :=
  if is_bucket prefix entries then bucket_messages namespace prefix entries
  else match fuel with
  | O => bucket_messages namespace prefix entries
  | S fuel =>
      digest_message NODE_DOMAIN namespace prefix (Z.of_nat (length entries))
        (encode_children (flat_map (child_of fuel namespace prefix entries) DIGITS))
      :: flat_map (fun digit => messages fuel namespace (prefix ++ [digit])
                                  (child_entries prefix entries digit)) DIGITS
  end.

(** No message of one side collides with a different one of the other. *)
Definition collision_free (ms1 ms2 : list (list Z)) : Prop :=
  forall a b, a ∈ ms1 -> b ∈ ms2 -> sha256 a = sha256 b -> a = b.

Lemma messages_bucket fuel namespace prefix entries :
  is_bucket prefix entries = true ->
  messages fuel namespace prefix entries = bucket_messages namespace prefix entries.
Proof. intros Hb. destruct fuel; cbn [messages]; by rewrite Hb. Qed.

Lemma messages_node fuel namespace prefix entries :
  is_bucket prefix entries = false ->
  messages (S fuel) namespace prefix entries
  = digest_message NODE_DOMAIN namespace prefix (Z.of_nat (length entries))
      (encode_children (flat_map (child_of fuel namespace prefix entries) DIGITS))
    :: flat_map (fun digit => messages fuel namespace (prefix ++ [digit])
                                (child_entries prefix entries digit)) DIGITS.
Proof. intros Hb. cbn [messages]. by rewrite Hb. Qed.

(** One side of the comparison, as typed by the program. *)
Record side (namespace : list Z) (entries : list InventoryEntry.t) : Prop := {
  side_namespace : valid_namespace namespace;
  side_typed : Forall entry_typed entries;
  side_sorted : Sorted.StronglySorted entry_lt entries;
  side_length : Z.of_nat (length entries) < 2 ^ 64
}.

Lemma side_child namespace prefix entries d :
  side namespace entries -> side namespace (child_entries prefix entries d).
Proof.
  intros [Hn Ht Hs Hl]. constructor; [done|by apply Forall_filtered|by apply StronglySorted_filtered|].
  unfold child_entries. pose proof (length_filter (fun entry => octal_digit (InventoryEntry.key entry)
    (length prefix) = d) entries). lia.
Qed.

Lemma bucket_binding ns1 ns2 prefix es1 es2 :
  (length prefix <= MAX_OCTAL_DEPTH)%nat -> side ns1 es1 -> side ns2 es2 ->
  collision_free (bucket_messages ns1 prefix es1) (bucket_messages ns2 prefix es2) ->
  bucket_hash ns1 prefix es1 = bucket_hash ns2 prefix es2 -> ns1 = ns2 /\ es1 = es2.
Proof.
  intros Hp [H1 T1 _ L1] [H2 T2 _ L2] Hc Hh.
  assert (H0 : 0 <= 0 < 2 ^ 64) by lia.
  destruct es1 as [|e1 es1], es2 as [|e2 es2].
  - apply Hc in Hh; [|left..]. by apply digest_message_inj in Hh as (? & _).
  - apply Hc in Hh; [|left..]. by apply empty_not_node in Hh.
  - apply Hc in Hh; [|left..]. symmetry in Hh. by apply empty_not_node in Hh.
  - apply Hc in Hh; [|left..]. apply digest_message_inj in Hh as (<- & _ & Hl); try done; try lia.
    split; [done|]. apply (concat_blocks_inj _ 32) in Hl; [|lia|intros x _; apply sha256_fixed].
    rewrite Forall_forall in T1, T2. unfold bucket_messages in Hc.
    apply map_inj_across in Hl; [done|]. intros a b Ha Hb E.
    apply Hc in E; [|right; by apply list_elem_of_fmap_2..].
    by apply leaf_message_inj in E; [|apply T1|apply T2].
Qed.

Lemma child_of_digit fuel namespace prefix entries ds d :
  NoDup ds -> d ∈ ds ->
  filter (fun c => InventoryChild.digit c = d) (flat_map (child_of fuel namespace prefix entries) ds)
  = child_of fuel namespace prefix entries d.
Proof.
  assert (Hone : forall d', filter (fun c => InventoryChild.digit c = d) (child_of fuel namespace prefix entries d')
    = if decide (d' = d) then child_of fuel namespace prefix entries d' else []).
  { intros d'. unfold child_of. destruct (child_entries _ _ _); [by destruct (decide _)|].
    cbn. unfold filter. cbn. repeat case_decide; done. }
  assert (Hno : forall ds, d ∉ ds ->
    filter (fun c => InventoryChild.digit c = d) (flat_map (child_of fuel namespace prefix entries) ds) = []).
  { clear ds. induction ds as [|d' ds IH]; intros Hn; [done|]. apply not_elem_of_cons in Hn as [Hne Hn].
    cbn. rewrite filter_app, Hone, IH by done. by rewrite decide_False. }
  induction 1 as [|d' ds Hn Hd IH]; intros Hin; [by apply not_elem_of_nil in Hin|].
  cbn. rewrite filter_app, Hone. apply elem_of_cons in Hin as [<-|Hin].
  - rewrite decide_True, Hno, app_nil_r by done. done.
  - rewrite decide_False by (by intros ->). cbn. by apply IH.
Qed.

Lemma summary_hash_length fuel namespace prefix entries :
  length (InventorySummary.hash (summarize_entries fuel namespace prefix entries)) = 32%nat.
Proof.
  destruct (is_bucket prefix entries) eqn:Hb.
  - rewrite summarize_bucket by done. cbn. destruct entries; apply sha256_fixed.
  - destruct fuel; [|rewrite summarize_node by done; apply sha256_fixed].
    unfold is_bucket in Hb. unfold summarize_entries. rewrite Hb. cbn. destruct entries; apply sha256_fixed.
Qed.

Lemma child_of_shape fuel namespace prefix entries ds c :
  Z.of_nat (length entries) < 2 ^ 64 ->
  c ∈ flat_map (child_of fuel namespace prefix entries) ds ->
  length (InventoryChild.hash c) = 32%nat /\ 0 <= InventoryChild.count c < 2 ^ 64.
Proof.
  intros Hl (d & Hd & Hc)%list_elem_of_In%in_flat_map. unfold child_of in Hc.
  destruct (child_entries prefix entries d) as [|e l] eqn:E; [done|]. destruct Hc as [<-|[]]. cbn.
  split; [apply summary_hash_length|]. rewrite summarize_count.
  pose proof (length_filter (fun entry => octal_digit (InventoryEntry.key entry)
    (length prefix) = d) entries) as Hf.
  unfold child_entries in E. rewrite E in Hf. lia.
Qed.

Lemma encode_children_inj cs1 cs2 :
  (forall c, c ∈ cs1 ++ cs2 -> length (InventoryChild.hash c) = 32%nat /\ 0 <= InventoryChild.count c < 2 ^ 64) ->
  encode_children cs1 = encode_children cs2 -> cs1 = cs2.
Proof.
  intros Hs E. unfold encode_children in E. apply (concat_blocks_inj _ 41) in E; [|lia|].
  - apply map_inj_across in E; [done|]. intros [d1 c1 h1] [d2 c2 h2] H1 H2 E1.
    apply app_inj_1 with (l1 := [d1]) (k1 := [d2]) in E1 as [[= <-] E2]; [|done].
    cbn [InventoryChild.hash InventoryChild.count] in E2.
    pose proof (Hs _ (proj2 (elem_of_app _ _ _) (or_introl H1))) as [L1 C1].
    pose proof (Hs _ (proj2 (elem_of_app _ _ _) (or_intror H2))) as [L2 C2].
    cbn [InventoryChild.hash InventoryChild.count] in *.
    apply app_inj_1 in E2 as [E2 ->]; [|by rewrite !be_bytes_length].
    apply be_bytes_inj in E2 as ->; done.
  - intros c Hc. cbn [length]. rewrite length_app, be_bytes_length. destruct (Hs c Hc) as [-> _]. done.
Qed.

(** A bucket and a node never have the same hash. *)
Lemma bucket_not_node fuel ns1 ns2 prefix es1 es2 :
  (length prefix <= MAX_OCTAL_DEPTH)%nat -> side ns1 es1 -> side ns2 es2 ->
  is_bucket prefix es1 = true -> is_bucket prefix es2 = false ->
  (forall a b, a ∈ bucket_messages ns1 prefix es1 -> b ∈ messages (S fuel) ns2 prefix es2 ->
     sha256 a = sha256 b -> a = b) ->
  bucket_hash ns1 prefix es1
  <> InventorySummary.hash (summarize_entries (S fuel) ns2 prefix es2).
Proof.
  intros Hp [H1 _ _ L1] [H2 _ _ L2] Hb1 Hb2 Hc Hh.
  rewrite messages_node in Hc by done. rewrite summarize_node in Hh by done.
  cbn [InventorySummary.hash] in Hh. unfold is_bucket in Hb1, Hb2. bool_prop.
  destruct es1 as [|e1 es1].
  - apply Hc in Hh; [|left..]. by apply empty_not_node in Hh.
  - apply Hc in Hh; [|left..]. apply digest_message_inj in Hh as (_ & E & _); try done; try lia.
    apply orb_true_iff in Hb1 as [Hb1|Hb1]; bool_prop; lia.
Qed.

Lemma summary_binding fuel : forall ns1 ns2 prefix es1 es2,
  (length prefix <= MAX_OCTAL_DEPTH)%nat -> (MAX_OCTAL_DEPTH <= fuel + length prefix)%nat ->
  side ns1 es1 -> side ns2 es2 ->
  collision_free (messages fuel ns1 prefix es1) (messages fuel ns2 prefix es2) ->
  InventorySummary.hash (summarize_entries fuel ns1 prefix es1)
  = InventorySummary.hash (summarize_entries fuel ns2 prefix es2) -> ns1 = ns2 /\ es1 = es2.
Proof.
  induction fuel as [|fuel IH]; intros ns1 ns2 prefix es1 es2 Hp Hf S1 S2 Hc Hh.
  { assert (Hb : forall es, is_bucket prefix es = true)
      by (intros es; apply orb_true_iff; right; apply Nat.eqb_eq; lia).
    rewrite !summarize_bucket in Hh by done. rewrite !messages_bucket in Hc by done.
    by apply (bucket_binding ns1 ns2 prefix). }
  destruct (is_bucket prefix es1) eqn:Hb1, (is_bucket prefix es2) eqn:Hb2.
  - rewrite !summarize_bucket in Hh by done. rewrite !messages_bucket in Hc by done.
    by apply (bucket_binding ns1 ns2 prefix).
  - rewrite (summarize_bucket _ _ _ es1) in Hh by done. rewrite (messages_bucket _ _ _ es1) in Hc by done.
    by apply bucket_not_node in Hh.
  - rewrite (summarize_bucket _ _ _ es2) in Hh by done. rewrite (messages_bucket _ _ _ es2) in Hc by done.
    symmetry in Hh. apply bucket_not_node in Hh; try done.
    intros a b Ha Hb E. symmetry. by apply Hc.
  - rewrite !summarize_node in Hh by done. rewrite !messages_node in Hc by done.
    cbn [InventorySummary.hash] in Hh. apply Hc in Hh; [|left..].
    pose proof (side_length _ _ S1). pose proof (side_length _ _ S2).
    apply digest_message_inj in Hh as (<- & _ & Hh); [|apply S1|apply S2|done|lia|lia].
    split; [done|]. apply encode_children_inj in Hh.
    2:{ intros c [Hin|Hin]%elem_of_app; by apply child_of_shape in Hin. }
    assert (Hd : forall d, d ∈ DIGITS -> child_entries prefix es1 d = child_entries prefix es2 d).
    { intros d Hin. pose proof (child_of_digit fuel ns1 prefix es1 DIGITS d NoDup_DIGITS Hin) as E1.
      rewrite Hh, child_of_digit in E1 by (done || apply NoDup_DIGITS). unfold child_of in E1.
      assert (Hin' : In d DIGITS) by by apply list_elem_of_In.
      assert (Hp' : (length prefix < MAX_OCTAL_DEPTH)%nat).
      { unfold is_bucket in Hb1. bool_prop. lia. }
      destruct (IH ns1 ns1 (prefix ++ [d]) (child_entries prefix es1 d) (child_entries prefix es2 d)) as [_ ?];
        [rewrite length_app; cbn; lia|rewrite length_app; cbn; lia|by apply side_child|by apply side_child| | |done].
      - intros a b Ha Hb. apply Hc; right; apply list_elem_of_In, in_flat_map; exists d;
          (split; [done|by apply list_elem_of_In]).
      - destruct (child_entries prefix es1 d), (child_entries prefix es2 d); try done.
        by injection E1 as _ ->. }
    apply entry_sorted_unique; [apply S1|apply S2|]. intros e.
    assert (He : forall es, e ∈ es <-> e ∈ child_entries prefix es (octal_digit (InventoryEntry.key e) (length prefix))).
    { intros es. unfold child_entries. rewrite list_elem_of_filter. tauto. }
    rewrite (He es1), (He es2), Hd by apply octal_digit_range. done.
Qed.
End Binding.

Section Navigation.
Context `{Sha256}.

(** A summary describes exactly the entries under its prefix and can be followed.
    Its count is theirs; without children it carries them; otherwise the children's
    prefixes partition them, and asking for a child's prefix returns a summary with
    the count and hash the parent promised. *)
Theorem summary_navigation (tree : InventoryTree.t) (prefix : list Z) (s : InventorySummary.t) :
  summary tree prefix = Ok s ->
  InventorySummary.count s = Z.of_nat (length (under tree prefix))
  /\ (InventorySummary.children s = [] -> InventorySummary.entries s = under tree prefix)
  /\ (InventorySummary.children s <> [] ->
        Permutation (under tree prefix)
          (flat_map (fun c => under tree (prefix ++ [InventoryChild.digit c])) (InventorySummary.children s)))
  /\ forall c, c ∈ InventorySummary.children s ->
       exists s', summary tree (prefix ++ [InventoryChild.digit c]) = Ok s'
         /\ InventorySummary.count s' = InventoryChild.count c
         /\ InventorySummary.hash s' = InventoryChild.hash c.
Proof.
  intros Hs. unfold summary in Hs. destruct (validate_prefix prefix) as [[]|] eqn:Hv; [|done].
  apply (f_equal (fun r => match r with Ok x => x | Err _ => s end)) in Hs. cbv beta iota in Hs. subst s.
  split; [apply summarize_count|].
  pose proof Hv as (Hl & _)%validate_prefix_Ok.
  destruct (is_bucket prefix (under tree prefix)) eqn:Hb.
  { rewrite summarize_bucket by done. cbn. split; [done|]. split; [done|].
    intros c Hc. by apply not_elem_of_nil in Hc. }
  assert (Hp : Permutation (under tree prefix)
    (flat_map (fun c => under tree (prefix ++ [InventoryChild.digit c]))
       (flat_map (child_of 85 (namespace tree) prefix (under tree prefix)) DIGITS))).
  { rewrite flat_map_children. apply (partition_Permutation
      (fun e => octal_digit (InventoryEntry.key e) (length prefix))); [apply NoDup_DIGITS|].
    intros e _. apply octal_digit_range. }
  change MAX_OCTAL_DEPTH with (S 85). rewrite summarize_node by done.
  cbn [InventorySummary.children InventorySummary.entries]. split; [|split].
  - intros E. rewrite E in Hp. symmetry in Hp. by apply Permutation_nil in Hp.
  - done.
  - intros c. apply children_summaries; [done|done|unfold MAX_OCTAL_DEPTH; lia].
Qed.

(** Building an inventory succeeds exactly for a namespace of 1 to 32 bytes and
    entries with one digest per key, and yields the strictly key-sorted list of those
    entries: order and repetition of the insertions do not matter. *)
Theorem build_spec (namespace : list Z) (es : list InventoryEntry.t) (tree : InventoryTree.t) :
  build namespace es = Ok tree
  <-> valid_namespace namespace /\ functional es /\ InventoryTree.namespace tree = namespace
      /\ Sorted.StronglySorted entry_lt (entries tree) /\ forall e, e ∈ entries tree <-> e ∈ es.
Proof. apply build_iff. Qed.

(** A tree the program can hold: built from entries of the fixed sizes. *)
Definition built (tree : InventoryTree.t) : Prop :=
  exists ns es, build ns es = Ok tree /\ Forall entry_typed es
    /\ Z.of_nat (length (entries tree)) < 2 ^ 64.

(** The messages hashed for a summary. *)
Definition summary_messages (tree : InventoryTree.t) (prefix : list Z) : list (list Z) :=
  messages MAX_OCTAL_DEPTH (namespace tree) prefix (under tree prefix).

Lemma built_side tree prefix : built tree -> side (namespace tree) (under tree prefix).
Proof.
  intros (ns & es & (Hn & _ & E & Hs & He)%build_iff & Ht & Hl). rewrite E. constructor; [done| | |].
  - apply Forall_filtered. rewrite Forall_forall in Ht |- *. intros e Hin. by apply Ht, He.
  - by apply StronglySorted_filtered.
  - unfold under. pose proof (length_filter (fun entry => key_has_prefix (InventoryEntry.key entry) prefix = true)
      (entries tree)). lia.
Qed.

(** Equal hashes mean nothing is left to exchange.  If two inventories report the
    same hash for a prefix, and the hash does not collide between the messages the two
    computed for it, they have the same namespace and the same entries under it. *)
Theorem summary_hash_binding (t1 t2 : InventoryTree.t) (prefix : list Z) (s1 s2 : InventorySummary.t) :
  built t1 -> built t2 -> summary t1 prefix = Ok s1 -> summary t2 prefix = Ok s2 ->
  collision_free (summary_messages t1 prefix) (summary_messages t2 prefix) ->
  InventorySummary.hash s1 = InventorySummary.hash s2 ->
  namespace t1 = namespace t2 /\ under t1 prefix = under t2 prefix.
Proof.
  intros B1 B2 H1 H2 Hc Hh. unfold summary in H1, H2.
  destruct (validate_prefix prefix) as [[]|] eqn:Hv; [|done]. apply validate_prefix_Ok in Hv as (Hl & _).
  apply (f_equal (fun r => match r with Ok s => InventorySummary.hash s | Err _ => [] end)) in H1, H2.
  cbv beta iota in H1, H2. rewrite <- H1, <- H2 in Hh.
  apply (summary_binding MAX_OCTAL_DEPTH _ _ prefix) in Hh; try done; [lia|by apply built_side..].
Qed.
End Navigation.

(** ** Witnesses *)
#[local] Existing Instance toy_sha256.

Definition sample_entry (k v : Z) : InventoryEntry.t :=
  InventoryEntry.mk (k :: replicate 31 0) (replicate 32 v).
Definition sample_entries : list InventoryEntry.t :=
  List.map (fun k => sample_entry k k) [0; 20; 40; 60; 80; 100; 120; 140; 160; 180].
Definition sample_tree : InventoryTree.t := InventoryTree.mk (str "operations") sample_entries.

(** Another node, whose last entry differs. *)
Definition other_entries : list InventoryEntry.t :=
  List.map (fun k => sample_entry k (Z.min k 160)) [0; 20; 40; 60; 80; 100; 120; 140; 160; 180].
Definition other_tree : InventoryTree.t := InventoryTree.mk (str "operations") other_entries.

Lemma sample_built ns es tree :
  build ns es = Ok tree ->
  forallb (fun e => bool_decide (fixed 32 (InventoryEntry.key e))
             && bool_decide (fixed 32 (InventoryEntry.value_digest e))) es = true ->
  Z.of_nat (length (entries tree)) < 2 ^ 64 -> built tree.
Proof.
  intros Hb Ht Hl. exists ns, es. split; [done|]. split; [|done]. apply Forall_forall.
  intros e He%list_elem_of_In. rewrite forallb_forall in Ht. specialize (Ht e He). by bool_prop.
Qed.

Lemma sample_tree_built : built sample_tree.
Proof. by apply (sample_built (str "operations") (rev sample_entries ++ sample_entries)); vm_compute. Qed.
Lemma other_tree_built : built other_tree.
Proof. by apply (sample_built (str "operations") other_entries); vm_compute. Qed.

Lemma summary_navigation_witness :
  exists s, summary sample_tree [] = Ok s /\ InventorySummary.count s = 10
    /\ forall c, c ∈ InventorySummary.children s ->
         exists s', summary sample_tree [InventoryChild.digit c] = Ok s'
           /\ InventorySummary.hash s' = InventoryChild.hash c.
Proof.
  destruct (summary sample_tree []) as [s|] eqn:E; [|by vm_compute in E].
  destruct (summary_navigation sample_tree [] s E) as (Hn & _ & _ & Hc).
  exists s. split; [done|]. split; [rewrite Hn; vm_compute; reflexivity|].
  intros c Hin. destruct (Hc c Hin) as (s' & ? & _ & ?). by exists s'.
Defined.

Lemma summary_hash_binding_witness :
  exists s1 s2, summary sample_tree [1] = Ok s1 /\ summary other_tree [1] = Ok s2
    /\ under sample_tree [1] = under other_tree [1].
Proof.
  destruct (summary sample_tree [1]) as [s1|] eqn:E1; [|by vm_compute in E1].
  destruct (summary other_tree [1]) as [s2|] eqn:E2; [|by vm_compute in E2].
  exists s1, s2. split; [done|]. split; [done|].
  apply (summary_hash_binding sample_tree other_tree [1] s1 s2 sample_tree_built other_tree_built E1 E2).
  - enough (Hb : forallb (fun a => forallb (fun b => implb (list_eqb (sha256 a) (sha256 b)) (list_eqb a b))
                (summary_messages other_tree [1])) (summary_messages sample_tree [1]) = true).
    { intros a b Ha%list_elem_of_In Hb'%list_elem_of_In Hh. rewrite forallb_forall in Hb. specialize (Hb a Ha).
      rewrite forallb_forall in Hb. specialize (Hb b Hb'). apply list_eqb_eq. apply list_eqb_eq in Hh.
      by rewrite Hh in Hb. }
    vm_compute. reflexivity.
  - vm_compute in E1, E2. congruence.
Defined.
