(* ===== verification/Peer.v ===== *)
(** * Dual-signed peer requests (crates/fractonica-peer/src/lib.rs)

    A read-changes proof is signed by a node key and by an actor key over one
    canonical map.  [PeerReadChangesProof.verify] takes the receiving node's clock.
    Session identifiers and nonces are 16 bytes, their wire form is lowercase
    hexadecimal. *)
From S2P Require Import Prelude Bytes Floats Crypto Cbor Trust.

Definition PEER_PROTOCOL_VERSION : Z := 1.
Definition MAX_PROOF_BYTES : Z := 4 * 1024.
Definition MIN_REQUEST_LIFETIME_MS : Z := 1000.
Definition MAX_REQUEST_LIFETIME_MS : Z := 30000.
Definition MAX_FUTURE_SKEW_MS : Z := 5000.
Definition MAX_PEER_CHANGE_LIMIT : Z := 200.
Definition READ_CHANGES_KIND : Z := 0.
Definition FIXED_BYTES : nat := 16.
Definition SIGNATURE_HEX_BYTES : nat := 128.

(** [Canonical] carries the CBOR error whose text the source keeps. *)
Inductive PeerProofError : Type :=
| UnsupportedVersion (version : Z)
| InvalidPage
| InvalidTime
| InvalidLifetime (lifetime : Z)
| OutsideRequestWindow
| ProofTooLarge (bytes : Z)
| InvalidFixedHex
| InvalidSignatureEncoding
| Trust (e : TrustError)
| Canonical (e : CanonicalCborError).

(** ** Strict hexadecimal *)
Definition is_lower_hex (value : Z) : bool :=
  ((48 <=? value) && (value <=? 57)) || ((97 <=? value) && (value <=? 102)).

Definition hex_nibble (value : Z) : result PeerProofError Z :=
  if (48 <=? value) && (value <=? 57) then Ok (value - 48)
  else if (97 <=? value) && (value <=? 102) then Ok (value - 97 + 10)
  else Err InvalidFixedHex.

(** The loop of [decode_hex] over an output of [count] bytes; the length check makes
    every index valid. *)
Fixpoint decode_nibbles (count : nat) (input : list Z) : result PeerProofError (list Z) :=
  match count, input with
  | S count, high :: low :: input =>
      let? h := hex_nibble high in
      let? l := hex_nibble low in
      let? bytes := decode_nibbles count input in
      Ok (Z.lor (wrap 8 (Z.shiftl h 4)) l :: bytes)
  | _, _ => Ok []
  end.

Definition decode_hex (input : list Z) (output_len : nat) : result PeerProofError (list Z) :=
  if negb (length input =? output_len * 2)%nat then Err InvalidFixedHex
  else decode_nibbles output_len input.

Definition parse_fixed_hex (value : list Z) : result PeerProofError (list Z) :=
  if negb (length value =? FIXED_BYTES * 2)%nat || negb (forallb is_lower_hex value)
  then Err InvalidFixedHex
  else decode_hex value FIXED_BYTES.

Definition parse_signature_hex (value : list Z) : result PeerProofError (list Z) :=
  if negb (length value =? SIGNATURE_HEX_BYTES)%nat || negb (forallb is_lower_hex value)
  then Err InvalidSignatureEncoding
  else decode_hex value 64.

(** [bytes_hex] and [write_hex]. *)
Definition bytes_hex (bytes : list Z) : list Z := lower_hex bytes.

Definition key (value : Z) : CV := Unsigned value.

(** ** The proof *)
Module PeerReadChangesFields.
Record t : Type := mk {
  session_id : list Z;
  space_id : list Z;
  grant_operation_id : list Z;
  after : Z;
  limit : Z;
  issued_at_unix_ms : Z;
  expires_at_unix_ms : Z;
  nonce : list Z
}.
End PeerReadChangesFields.

Module PeerReadChangesProof.
Record t : Type := mk {
  protocol_version : Z;
  session_id : list Z;
  space_id : list Z;
  node_id : list Z;
  actor_id : list Z;
  grant_operation_id : list Z;
  after : Z;
  limit : Z;
  issued_at_unix_ms : Z;
  expires_at_unix_ms : Z;
  nonce : list Z;
  node_signature : list Z;
  actor_signature : list Z
}.

Section Proof_.
Context `{Sha256} `{Ed25519} `{HalfFloat}.

Definition canonical_value (p : t) : CV :=
  Map [(key 0, Unsigned (protocol_version p));
       (key 1, Unsigned READ_CHANGES_KIND);
       (key 2, Bytes (session_id p));
       (key 3, Bytes (space_id p));
       (key 4, Bytes (node_id p));
       (key 5, Bytes (actor_id p));
       (key 6, Bytes (grant_operation_id p));
       (key 7, Unsigned (after p));
       (key 8, Unsigned (limit p));
       (key 9, Integer (issued_at_unix_ms p));
       (key 10, Integer (expires_at_unix_ms p));
       (key 11, Bytes (nonce p))].

Definition canonical_bytes (p : t) : result PeerProofError (list Z) :=
  let? bytes := map_err Canonical (to_canonical_cbor (canonical_value p)) in
  if MAX_PROOF_BYTES <? Z.of_nat (length bytes)
  then Err (ProofTooLarge (Z.of_nat (length bytes)))
  else Ok bytes.

Definition validate_unsigned (p : t) : result PeerProofError unit :=
  if negb (protocol_version p =? PEER_PROTOCOL_VERSION)
  then Err (UnsupportedVersion (protocol_version p))
  else
    check map_err Trust (space_id_validate (space_id p));
    check map_err Trust (public_key (node_id p));
    check map_err Trust (public_key (actor_id p));
    if (limit p =? 0) || (MAX_PEER_CHANGE_LIMIT <? limit p) || (2 ^ 63 - 1 <? after p)
    then Err InvalidPage
    else if (issued_at_unix_ms p <? 0) || (expires_at_unix_ms p <? 0)
    then Err InvalidTime
    else
      let? lifetime := ok_or (checked_i64 (expires_at_unix_ms p - issued_at_unix_ms p)) InvalidTime in
      if negb ((MIN_REQUEST_LIFETIME_MS <=? lifetime) && (lifetime <=? MAX_REQUEST_LIFETIME_MS))
      then Err (InvalidLifetime lifetime)
      else Ok tt.

(** The struct literal of [sign], with both signatures given. *)
Definition of_fields (f : PeerReadChangesFields.t) (node actor node_signature actor_signature : list Z) : t :=
  mk PEER_PROTOCOL_VERSION (PeerReadChangesFields.session_id f) (PeerReadChangesFields.space_id f)
    node actor (PeerReadChangesFields.grant_operation_id f) (PeerReadChangesFields.after f)
    (PeerReadChangesFields.limit f) (PeerReadChangesFields.issued_at_unix_ms f)
    (PeerReadChangesFields.expires_at_unix_ms f) (PeerReadChangesFields.nonce f)
    node_signature actor_signature.

Definition sign (fields : PeerReadChangesFields.t) (node_key actor_key : list Z) :
    result PeerProofError t :=
  let node := signing_identity node_key in
  let actor := signing_identity actor_key in
  let proof := of_fields fields node actor (replicate 64 0) (replicate 64 0) in
  check validate_unsigned proof;
  let? bytes := canonical_bytes proof in
  Ok (of_fields fields node actor (sign_detached node_key PeerNodeRequestV1 bytes)
        (sign_detached actor_key PeerActorRequestV1 bytes)).

(** The conditions of the window check are evaluated left to right: a negative clock
    is outside before the subtraction is tried. *)
Definition outside_window (p : t) (receiving_now_unix_ms : Z) : result PeerProofError bool :=
  if receiving_now_unix_ms <? 0 then Ok true
  else
    let? earliest := ok_or (checked_i64 (issued_at_unix_ms p - MAX_FUTURE_SKEW_MS)) InvalidTime in
    Ok ((receiving_now_unix_ms <? earliest) || (expires_at_unix_ms p <=? receiving_now_unix_ms)).

Definition verify (p : t) (receiving_now_unix_ms : Z) : result PeerProofError unit :=
  check validate_unsigned p;
  let? outside := outside_window p receiving_now_unix_ms in
  if outside : bool then Err OutsideRequestWindow
  else
    let? bytes := canonical_bytes p in
    check map_err Trust (verify_detached_id (node_id p) PeerNodeRequestV1 bytes (node_signature p));
    check map_err Trust (verify_detached_id (actor_id p) PeerActorRequestV1 bytes (actor_signature p));
    Ok tt.

Definition node_signature_hex (p : t) : list Z := bytes_hex (node_signature p).
Definition actor_signature_hex (p : t) : list Z := bytes_hex (actor_signature p).
End Proof_.
End PeerReadChangesProof.
