(* ===== verification/PeerTheory.v ===== *)
(** * Peer requests: the theorems

    What a read-changes proof needs to be signed, when a signed one verifies, and
    that the signed bytes determine every field. *)
From S2P Require Import Prelude Bytes Floats Crypto Cbor CborTheory CborProps CborMap.
From S2P Require Import Trust TrustTheory Peer.
Import PeerReadChangesProof.

(** ** Strict hexadecimal *)
Lemma hex_nibble_inv c d : hex_nibble c = Ok d -> 0 <= d < 16 /\ c = hex_digit d.
Proof.
  intros Hn. apply (decode_hex_inv (fun _ => InvalidFixedHex) (fun _ _ => InvalidFixedHex) c 0).
  unfold hex_nibble in Hn. unfold decode_hex_with. destruct (_ && _); [done|].
  by destruct (_ && _).
Qed.

Lemma hex_nibble_digit d : 0 <= d < 16 -> hex_nibble (hex_digit d) = Ok d.
Proof.
  intros Hd. pose proof (decode_hex_digit (fun _ => InvalidFixedHex) (fun _ _ => InvalidFixedHex) d 0 Hd) as E.
  unfold decode_hex_with in E. unfold hex_nibble. destruct (_ && _); [done|]. destruct (_ && _); [done|].
  by destruct (_ && _).
Qed.

Lemma is_lower_hex_digit d : 0 <= d < 16 -> is_lower_hex (hex_digit d) = true.
Proof.
  intros Hd. pose proof (hex_nibble_digit d Hd) as E. unfold hex_nibble in E. unfold is_lower_hex.
  destruct (_ && _); [done|]. by destruct (_ && _).
Qed.

Lemma byte_nibbles b : is_byte b -> 0 <= b / 16 < 16 /\ 0 <= b mod 16 < 16 /\ 16 * (b / 16) + b mod 16 = b.
Proof.
  unfold is_byte. intros Hb. pose proof (Z.mod_pos_bound b 16 ltac:(lia)).
  pose proof (Z.div_mod b 16 ltac:(lia)). lia.
Qed.

Lemma decode_nibbles_spec count : forall input bytes,
  length input = (count * 2)%nat ->
  decode_nibbles count input = Ok bytes <-> fixed count bytes /\ input = lower_hex bytes.
Proof.
  induction count as [|count IH]; intros input bytes Hl.
  - destruct input; [|done]. cbn. split; [intros [= <-]; done|]. intros [[Hn _] _]. by destruct bytes.
  - destruct input as [|h [|l input]]; try (cbn in Hl; lia). cbn [decode_nibbles]. cbn [length Nat.mul Nat.add] in Hl.
    split.
    + intros Hd. inv_ok. apply hex_nibble_inv in E as [Hh ->], E0 as [Hlo ->].
      apply IH in E1 as [[Hn Hb] ->]; [|lia]. rewrite hex_byte by done. split.
      * split; [cbn; lia|]. constructor; [unfold is_byte; lia|done].
      * unfold lower_hex. cbn [flat_map app].
        rewrite <- (Z.div_unique (16 * a + a0) 16 a a0), <- (Z.mod_unique (16 * a + a0) 16 a a0) by lia. done.
    + intros [[Hn Hb] E]. destruct bytes as [|b bytes]; [done|]. unfold lower_hex in E. cbn [flat_map app] in E.
      injection E as -> -> E. apply Forall_cons in Hb as [Hbb Hb].
      destruct (byte_nibbles b Hbb) as (H1 & H2 & H3). rewrite !hex_nibble_digit by done.
      cbn in Hn. rewrite (proj2 (IH input bytes ltac:(lia))); [|split; [by split; [lia|]|done]].
      by rewrite hex_byte, H3.
Qed.

Lemma lower_hex_lower bytes : Forall is_byte bytes -> forallb is_lower_hex (lower_hex bytes) = true.
Proof.
  induction 1 as [|b bytes Hb _ IH]; [done|]. unfold lower_hex in *. cbn.
  destruct (byte_nibbles b Hb) as (H1 & H2 & _). by rewrite !is_lower_hex_digit, IH.
Qed.

(** The wire text of a signature is strict: it parses to exactly the 64 bytes whose
    lowercase hexadecimal it is. *)
Theorem parse_signature_hex_spec (value bytes : list Z) :
  parse_signature_hex value = Ok bytes <-> fixed 64 bytes /\ value = bytes_hex bytes.
Proof.
  unfold parse_signature_hex, decode_hex, bytes_hex, SIGNATURE_HEX_BYTES.
  destruct (Nat.eqb_spec (length value) 128) as [Hl|Hl]; cbn [negb orb].
  - destruct (forallb is_lower_hex value) eqn:Hf; cbn [negb].
    + rewrite Hl. cbn [Nat.mul Nat.add Nat.eqb negb]. apply decode_nibbles_spec. done.
    + split; [done|]. intros [[_ Hb] ->]. by rewrite lower_hex_lower in Hf.
  - split; [done|]. intros [[Hb _] ->]. rewrite lower_hex_length in Hl. lia.
Qed.

(** ** Canonical bytes *)

(** The sizes and ranges of the Rust types. *)
Record proof_typed (p : t) : Prop := {
  typed_version : 0 <= protocol_version p < 256;
  typed_session : fixed 16 (session_id p);
  typed_space : fixed 32 (space_id p);
  typed_node : fixed 32 (node_id p);
  typed_actor : fixed 32 (actor_id p);
  typed_grant : fixed 32 (grant_operation_id p);
  typed_after : in_u 64 (after p);
  typed_limit : 0 <= limit p < 65536;
  typed_issued : in_i 64 (issued_at_unix_ms p);
  typed_expires : in_i 64 (expires_at_unix_ms p);
  typed_nonce : fixed 16 (nonce p)
}.

Definition signed_fields (p : t) : list CV :=
  [Unsigned (protocol_version p); Unsigned READ_CHANGES_KIND; Bytes (session_id p); Bytes (space_id p);
   Bytes (node_id p); Bytes (actor_id p); Bytes (grant_operation_id p); Unsigned (after p);
   Unsigned (limit p); Integer (issued_at_unix_ms p); Integer (expires_at_unix_ms p); Bytes (nonce p)].

Section Requests.
Context `{Sha256} `{Ed25519} `{HalfFloat}.

Lemma canonical_value_indexed p : canonical_value p = indexed (signed_fields p).
Proof. reflexivity. Qed.

Lemma signed_fields_wf p : proof_typed p -> forall v, v ∈ signed_fields p -> wf v.
Proof.
  intros [] v Hin. unfold signed_fields, READ_CHANGES_KIND in Hin.
  repeat (apply elem_of_cons in Hin as [->|Hin]); [..|by apply not_elem_of_nil in Hin];
    cbn; try (unfold in_u in *; lia); try done; by repeat match goal with Hf : fixed _ _ |- _ => destruct Hf end.
Qed.

(** The signed bytes always exist. *)
Lemma canonical_bytes_total p :
  proof_typed p -> canonical_bytes p = Ok (wire (canonical_value p)).
Proof.
  intros Ht. rewrite canonical_value_indexed.
  destruct (indexed_flat_encodes (signed_fields p) 400) as [He Hl]; [cbn; lia|done|by apply signed_fields_wf| | |].
  - destruct Ht. unfold signed_fields. cbn [List.map item_bound list_sum foldr].
    repeat match goal with Hf : fixed _ _ |- _ => destruct Hf as [Hf _]; rewrite Hf; clear Hf end. cbn. lia.
  - unfold MAX_CANONICAL_BYTES. lia.
  - unfold canonical_bytes. rewrite canonical_value_indexed, He. cbn [map_err].
    rewrite (proj2 (Z.ltb_ge _ _)); [done|]. unfold MAX_PROOF_BYTES. lia.
Qed.

(** What [validate_unsigned] accepts. *)
Record request_valid (p : t) : Prop := {
  valid_version : protocol_version p = PEER_PROTOCOL_VERSION;
  valid_space : is_all_zero (space_id p) = false;
  valid_node : strong_key (node_id p);
  valid_actor : strong_key (actor_id p);
  valid_limit : 1 <= limit p <= MAX_PEER_CHANGE_LIMIT;
  valid_after : after p < 2 ^ 63;
  valid_issued : 0 <= issued_at_unix_ms p;
  valid_expires : 0 <= expires_at_unix_ms p;
  valid_lifetime : MIN_REQUEST_LIFETIME_MS
                   <= expires_at_unix_ms p - issued_at_unix_ms p <= MAX_REQUEST_LIFETIME_MS
}.

Lemma validate_unsigned_Ok p :
  proof_typed p -> validate_unsigned p = Ok tt <-> request_valid p.
Proof.
  intros [].
  assert (Hk : forall k, is_ok (public_key k) = true <-> strong_key k).
  { intros k. rewrite <- public_key_validate_Ok. unfold public_key. by destruct (public_key_validate k) as [[]|]. }
  unfold validate_unsigned. split.
  - intros Hv. destruct (Z.eqb_spec (protocol_version p) PEER_PROTOCOL_VERSION); cbn [negb] in Hv; [|done].
    destruct (space_id_validate (space_id p)) as [[]|] eqn:Es; cbn [map_err] in Hv; [|done].
    apply space_id_validate_Ok in Es.
    pose proof (Hk (node_id p)) as Hn. destruct (public_key (node_id p)); cbn [map_err] in Hv; [|done].
    pose proof (Hk (actor_id p)) as Ha. destruct (public_key (actor_id p)); cbn [map_err] in Hv; [|done].
    destruct (_ || _) eqn:El; [done|]. destruct ((issued_at_unix_ms p <? 0) || _) eqn:Et; [done|].
    destruct (checked_i64 _) as [life|] eqn:Ec; cbn [ok_or] in Hv; [|done].
    apply checked_i64_Some in Ec as [-> _]. destruct (negb _) eqn:Ew in Hv; [done|].
    bool_prop. specialize (proj1 Hn eq_refl) as Hn'. specialize (proj1 Ha eq_refl) as Ha'.
    constructor; try done; lia.
  - intros []. rewrite valid_version0. cbn [Z.eqb negb PEER_PROTOCOL_VERSION Pos.eqb].
    rewrite (proj2 (space_id_validate_Ok _)) by done. cbn [map_err].
    apply Hk in valid_node0, valid_actor0.
    destruct (public_key (node_id p)); [|done]. destruct (public_key (actor_id p)); [|done]. cbn [map_err].
    unfold MAX_PEER_CHANGE_LIMIT in *.
    rewrite (proj2 (Z.eqb_neq (limit p) 0)), (proj2 (Z.ltb_ge 200 (limit p))),
      (proj2 (Z.ltb_ge _ (after p))) by lia. cbn [orb].
    rewrite (proj2 (Z.ltb_ge (issued_at_unix_ms p) 0)), (proj2 (Z.ltb_ge (expires_at_unix_ms p) 0)) by lia.
    cbn [orb]. unfold in_i in *.
    rewrite (proj2 (checked_i64_Some (expires_at_unix_ms p - issued_at_unix_ms p) _)) by (split; [done|unfold in_i; lia]).
    cbn [ok_or]. rewrite (proj2 (Z.leb_le _ _)), (proj2 (Z.leb_le _ _)) by lia. done.
Qed.

(** The receiving clock may run behind the issuing one by [MAX_FUTURE_SKEW_MS]. *)
Definition in_window (p : t) (now : Z) : Prop :=
  0 <= now /\ issued_at_unix_ms p - MAX_FUTURE_SKEW_MS <= now < expires_at_unix_ms p.

Lemma outside_window_Ok p now :
  proof_typed p -> 0 <= issued_at_unix_ms p ->
  exists b, outside_window p now = Ok b /\ (b = false <-> in_window p now).
Proof.
  intros [] Hi. unfold outside_window, in_window, in_i in *.
  destruct (Z.ltb_spec now 0); [exists true; split; [done|split; [done|lia]]|].
  assert (Hc : checked_i64 (issued_at_unix_ms p - MAX_FUTURE_SKEW_MS) = Some (issued_at_unix_ms p - MAX_FUTURE_SKEW_MS))
    by (apply checked_i64_Some; unfold in_i, MAX_FUTURE_SKEW_MS in *; lia).
  rewrite Hc. cbn [ok_or]. eexists. split; [done|].
  rewrite orb_false_iff, Z.ltb_ge, Z.leb_gt. lia.
Qed.

(** Both signatures are over the canonical bytes. *)
Definition signatures_ok (p : t) : Prop :=
  verify_detached_id (node_id p) PeerNodeRequestV1 (wire (canonical_value p)) (node_signature p) = Ok tt
  /\ verify_detached_id (actor_id p) PeerActorRequestV1 (wire (canonical_value p)) (actor_signature p) = Ok tt.

Lemma verify_iff p now :
  proof_typed p ->
  verify p now = Ok tt <-> request_valid p /\ in_window p now /\ signatures_ok p.
Proof.
  intros Ht. rewrite <- (validate_unsigned_Ok p) by done. unfold verify, signatures_ok.
  destruct (validate_unsigned p) as [[]|] eqn:Ev; [|split; [done|by intros [? _]]].
  apply validate_unsigned_Ok in Ev as Hv; [|done].
  destruct (outside_window_Ok p now Ht (valid_issued p Hv)) as (b & -> & Hb). destruct b.
  { split; [done|]. intros (_ & Hw & _). by apply Hb in Hw. }
  rewrite canonical_bytes_total by done.
  destruct (verify_detached_id (node_id p) _ _ _) as [[]|]; cbn [map_err];
    [|split; [done|by intros (_ & _ & ? & _)]].
  destruct (verify_detached_id (actor_id p) _ _ _) as [[]|]; cbn [map_err];
    [|split; [done|by intros (_ & _ & _ & ?)]].
  split; [|done]. intros _. split; [done|]. split; [by apply Hb|done].
Qed.

(** Verification accepts exactly the requests whose fields are valid, whose window
    contains the receiving clock, and whose two signatures cover the same canonical
    bytes; the size bound never rejects. *)
Theorem peer_verify_spec (p : t) (now : Z) :
  proof_typed p ->
  verify p now = Ok tt <-> request_valid p /\ in_window p now /\ signatures_ok p.
Proof. apply verify_iff. Qed.

Lemma canonical_value_signatures f node actor s1 s2 s1' s2' :
  canonical_value (of_fields f node actor s1 s2) = canonical_value (of_fields f node actor s1' s2').
Proof. reflexivity. Qed.

Lemma own_signature seed domain bytes :
  strong_key (signing_identity seed) ->
  verify_detached_id (signing_identity seed) domain bytes (sign_detached seed domain bytes) = Ok tt.
Proof. intros [_ Hw]. by apply sign_detached_iff. Qed.

(** A request is signed exactly when its fields are valid for the two keys, and a
    signed request verifies at a receiving clock exactly inside its window. *)
Theorem peer_sign_spec (f : PeerReadChangesFields.t) (node_key actor_key : list Z) (now : Z) :
  let unsigned := of_fields f (signing_identity node_key) (signing_identity actor_key)
                    (replicate 64 0) (replicate 64 0) in
  proof_typed unsigned ->
  (is_ok (sign f node_key actor_key) = true <-> request_valid unsigned)
  /\ forall p, sign f node_key actor_key = Ok p -> verify p now = Ok tt <-> in_window p now.
Proof.
  intros unsigned Ht.
  assert (Hsign : sign f node_key actor_key
    = check validate_unsigned unsigned;
      Ok (of_fields f (signing_identity node_key) (signing_identity actor_key)
            (sign_detached node_key PeerNodeRequestV1 (wire (canonical_value unsigned)))
            (sign_detached actor_key PeerActorRequestV1 (wire (canonical_value unsigned))))).
  { unfold sign. fold unsigned. rewrite canonical_bytes_total by done. done. }
  rewrite Hsign. clear Hsign. split.
  - rewrite <- validate_unsigned_Ok by done. by destruct (validate_unsigned unsigned) as [[]|].
  - intros p Hp. destruct (validate_unsigned unsigned) as [[]|] eqn:Ev; [|done].
    apply validate_unsigned_Ok in Ev; [|done]. injection Hp as <-.
    rewrite verify_iff; [|destruct Ht; by constructor].
    split; [by intros (_ & ? & _)|]. intros Hw. split; [destruct Ev; by constructor|]. split; [done|].
    split; apply own_signature; apply Ev.
Qed.

Lemma canonical_bytes_encodes p bytes :
  canonical_bytes p = Ok bytes -> to_canonical_cbor (indexed (signed_fields p)) = Ok bytes.
Proof.
  unfold canonical_bytes. rewrite canonical_value_indexed.
  destruct (to_canonical_cbor _) as [b|]; cbn [map_err]; [|done].
  destruct (_ <? _); [done|]. intros E. by rewrite (Ok_inj _ _ E).
Qed.

Lemma normalize_Integer_inj a b : normalize (Integer a) = normalize (Integer b) -> a = b.
Proof. cbn. destruct (0 <=? a), (0 <=? b); congruence. Qed.

(** The fields under [normalize], one equation each. *)
Lemma signed_fields_inj p q :
  List.map normalize (signed_fields p) = List.map normalize (signed_fields q) ->
  q = mk (protocol_version p) (session_id p) (space_id p) (node_id p) (actor_id p)
        (grant_operation_id p) (after p) (limit p) (issued_at_unix_ms p) (expires_at_unix_ms p) (nonce p)
        (node_signature q) (actor_signature q).
Proof.
  assert (Hat : forall k v, v = nth k (signed_fields p) Null ->
    List.map normalize (signed_fields p) = List.map normalize (signed_fields q) ->
    normalize v = normalize (nth k (signed_fields q) Null)).
  { intros k v -> E. rewrite <- !(map_nth normalize). by rewrite E. }
  intros E. destruct q as [q0 q1 q2 q3 q4 q5 q6 q7 q8 q9 q10 q11 q12].
  f_equal; symmetry.
  - by injection (Hat 0%nat _ eq_refl E).
  - by injection (Hat 2%nat _ eq_refl E).
  - by injection (Hat 3%nat _ eq_refl E).
  - by injection (Hat 4%nat _ eq_refl E).
  - by injection (Hat 5%nat _ eq_refl E).
  - by injection (Hat 6%nat _ eq_refl E).
  - by injection (Hat 7%nat _ eq_refl E).
  - by injection (Hat 8%nat _ eq_refl E).
  - exact (normalize_Integer_inj _ _ (Hat 9%nat _ eq_refl E)).
  - exact (normalize_Integer_inj _ _ (Hat 10%nat _ eq_refl E)).
  - by injection (Hat 11%nat _ eq_refl E).
Qed.

(** The signed bytes determine every signed field: no two different requests have
    the same bytes, so a signature made for one never covers another. *)
Theorem peer_bytes_bind (p q : t) (bytes : list Z) :
  proof_typed p -> proof_typed q ->
  canonical_bytes p = Ok bytes -> canonical_bytes q = Ok bytes ->
  q = mk (protocol_version p) (session_id p) (space_id p) (node_id p) (actor_id p)
        (grant_operation_id p) (after p) (limit p) (issued_at_unix_ms p) (expires_at_unix_ms p) (nonce p)
        (node_signature q) (actor_signature q).
Proof.
  intros Tp Tq Hp%canonical_bytes_encodes Hq%canonical_bytes_encodes.
  apply signed_fields_inj, (indexed_encoding_inj _ _ bytes);
    [cbn; lia|cbn; lia| | |exact Hp|exact Hq]; (apply wf_indexed; [cbn; lia|by apply signed_fields_wf]).
Qed.
End Requests.

(** ** Witnesses *)
#[local] Existing Instance toy_sha256.
#[local] Existing Instance toy_ed25519.
#[local] Existing Instance toy_half.

Definition sample_request : PeerReadChangesFields.t :=
  PeerReadChangesFields.mk (replicate 16 1) (replicate 32 2) (replicate 32 3) 41 100
    1784265600000 1784265630000 (replicate 16 4).
Definition node_seed : list Z := replicate 31 0 ++ [7].
Definition actor_seed : list Z := replicate 31 0 ++ [8].
Definition sample_unsigned : t :=
  of_fields sample_request (signing_identity node_seed) (signing_identity actor_seed)
    (replicate 64 0) (replicate 64 0).

Lemma sample_unsigned_typed : proof_typed sample_unsigned.
Proof.
  constructor; try (apply (bool_decide_eq_true_1 (fixed _ _)); vm_compute; reflexivity);
    split; vm_compute; (reflexivity || discriminate).
Qed.

Lemma sample_request_valid : request_valid sample_unsigned.
Proof. apply validate_unsigned_Ok; [apply sample_unsigned_typed|]. vm_compute. reflexivity. Qed.

Lemma peer_verify_spec_witness :
  verify sample_unsigned 1784265600000 <> Ok tt /\ in_window sample_unsigned 1784265600000.
Proof.
  split.
  - intros Hv. apply (peer_verify_spec sample_unsigned 1784265600000 sample_unsigned_typed) in Hv
      as (_ & _ & Hs & _). vm_compute in Hs. discriminate Hs.
  - unfold in_window. cbn. unfold MAX_FUTURE_SKEW_MS. lia.
Defined.

Lemma peer_sign_spec_witness :
  exists p, sign sample_request node_seed actor_seed = Ok p /\ verify p 1784265600000 = Ok tt.
Proof.
  destruct (peer_sign_spec sample_request node_seed actor_seed 1784265600000 sample_unsigned_typed) as [Hs Hv].
  pose proof (proj2 Hs sample_request_valid) as Hok.
  destruct (sign sample_request node_seed actor_seed) as [p|] eqn:E; [|discriminate Hok].
  exists p. split; [reflexivity|]. apply Hv; [reflexivity|].
  assert (Ep : issued_at_unix_ms p = 1784265600000 /\ expires_at_unix_ms p = 1784265630000).
  { clear - E. vm_compute in E. apply Ok_inj in E as <-. done. }
  destruct Ep as [E1 E2]. unfold in_window. rewrite E1, E2. unfold MAX_FUTURE_SKEW_MS. lia.
Defined.

Lemma peer_bytes_bind_witness :
  exists p bytes, canonical_bytes sample_unsigned = Ok bytes /\ canonical_bytes p = Ok bytes
    /\ node_signature p <> node_signature sample_unsigned
    /\ session_id p = session_id sample_unsigned.
Proof.
  destruct (canonical_bytes sample_unsigned) as [bytes|] eqn:E; [|vm_compute in E; discriminate E].
  exists (of_fields sample_request (signing_identity node_seed) (signing_identity actor_seed) [1] [2]), bytes.
  split; [reflexivity|]. split; [exact E|]. split; [discriminate|].
  assert (Tp : proof_typed (of_fields sample_request (signing_identity node_seed) (signing_identity actor_seed) [1] [2]))
    by (destruct sample_unsigned_typed; constructor; assumption).
  rewrite (peer_bytes_bind sample_unsigned _ bytes sample_unsigned_typed Tp E E). reflexivity.
Defined.
