(* ===== verification/Pairing.v ===== *)
(** * Pairing messages (crates/fractonica-pairing/src/lib.rs)

    Invitations, joiner claims, receipts and acceptances as canonical maps, their
    signatures, the QR text and the stored responder secret.  [Noise] (snow and x25519)
    is a class: the handshake is an abstract state that the adapter here bounds.

    [digest] calls [expect] on the canonical bytes: it and its callers return [None]
    where the program panics.  A method that consumes fields out of a decoded map
    threads the remaining map. *)
From S2P Require Import Prelude Bytes Floats Crypto Content Cbor Trust DataModel.

Definition PAIRING_PROTOCOL_VERSION : Z := 1.
Definition INVITATION_VERSION : Z := 1.
Definition NOISE_PROTOCOL_NAME : list Z := str "Noise_NKpsk0_25519_ChaChaPoly_BLAKE2s".
Definition QR_PREFIX : list Z := str "fractonica-pairing:v1:".
Definition MAX_QR_CBOR_BYTES : Z := 4 * 1024.
Definition MAX_CANONICAL_MESSAGE_BYTES : Z := 4 * 1024.
Definition MAX_NOISE_FRAME_BYTES : Z := 8 * 1024.
Definition MAX_ENDPOINT_HINTS : Z := 3.
Definition MAX_ENDPOINT_HINT_BYTES : Z := 256.
Definition MIN_INVITATION_LIFETIME_MS : Z := 1000.
Definition MAX_INVITATION_LIFETIME_MS : Z := 10 * 60 * 1000.
Definition DIGEST_BYTES : nat := 32.
Definition INVITATION_ID_BYTES : nat := 16.
Definition SECRET_BYTES : nat := 32.
Definition CONFIRMATION_DOMAIN : list Z := str "org.fractonica.pairing.confirmation.v1".
Definition RESPONDER_SECRET_VERSION : Z := 1.
Definition RESPONDER_SECRET_BYTES : nat := 1 + INVITATION_ID_BYTES + DIGEST_BYTES + SECRET_BYTES + SECRET_BYTES.

(** The handshake library: [snow] and the X25519 base point multiplication. *)
Class Noise := {
  NoiseParams : Type;
  Builder : Type;
  HandshakeState : Type;
  TransportState : Type;
  NoiseError : Type;
  parse_params : list Z -> option NoiseParams;
  builder_new : NoiseParams -> Builder;
  psk : Builder -> Z -> list Z -> result NoiseError Builder;
  remote_public_key : Builder -> list Z -> result NoiseError Builder;
  local_private_key : Builder -> list Z -> result NoiseError Builder;
  prologue : Builder -> list Z -> result NoiseError Builder;
  build_initiator : Builder -> result NoiseError HandshakeState;
  build_responder : Builder -> result NoiseError HandshakeState;
  handshake_write : HandshakeState -> list Z -> Z -> result NoiseError (list Z) * HandshakeState;
  handshake_read : HandshakeState -> list Z -> Z -> result NoiseError (list Z) * HandshakeState;
  is_handshake_finished : HandshakeState -> bool;
  get_handshake_hash : HandshakeState -> list Z;
  into_transport_mode : HandshakeState -> result NoiseError TransportState;
  transport_write : TransportState -> list Z -> Z -> result NoiseError (list Z) * TransportState;
  transport_read : TransportState -> list Z -> Z -> result NoiseError (list Z) * TransportState;
  x25519_base : list Z -> list Z;
  x25519_base_fixed : forall k, fixed 32 (x25519_base k);
  handshake_read_bytes : forall state frame limit output state',
    Forall is_byte frame -> handshake_read state frame limit = (Ok output, state') -> Forall is_byte output
}.

Section Errors.
Context `{Noise}.
Inductive PairingError : Type :=
| RandomUnavailable
| InvalidQrPrefix
| InvalidBase64
| QrTooLarge (bytes : Z)
| CanonicalMessageTooLarge (bytes : Z)
| NoiseFrameTooLarge (bytes : Z)
| UnsupportedVersion (expected found : Z)
| UnsupportedNoiseProtocol
| InvalidField (field : list Z)
| InvalidMapSize (expected found : Z)
| MissingCanonicalField (key : Z)
| NonCanonicalSet (what : list Z)
| InvalidInvitationLifetime (lifetime : Z)
| TooManyEndpointHints (count : Z)
| InvalidEndpointHint
| InvitationExpired
| SecretCommitmentMismatch
| ClaimInvitationMismatch
| ReceiptTranscriptMismatch
| AcceptanceMismatch
| InvalidProtectedSecret
| HandshakeIncomplete
| InvalidHandshakeHash
| Canonical (e : CanonicalCborError)
| Trust_ (e : TrustError)
| DataModel_ (e : DataModelError)
| Noise_ (e : NoiseError).
End Errors.

(** [Result::expect]: [None] is the panic. *)
Definition expect {E A} (r : result E A) : option A :=
  match r with Ok a => Some a | Err _ => None end.

(** Sequencing where a callee may panic. *)
Notation "'let!' x ':=' m 'in' k" :=
  (match m with Some x => k | None => None end)
  (at level 10, x pattern, m at level 100, k at level 200) : fractonica_scope.

(** ** Scalars and maps *)

(** The [BTreeMap<u64, CanonicalValue>] of a decoded message. *)
Notation Fields := (gmap Z CV).

Section Fields.
Context `{Noise}.

Definition ensure_canonical_bound (bytes : list Z) : result PairingError unit :=
  if MAX_CANONICAL_MESSAGE_BYTES <? Z.of_nat (length bytes)
  then Err (CanonicalMessageTooLarge (Z.of_nat (length bytes))) else Ok tt.
Definition ensure_message_bound (bytes : list Z) : result PairingError unit :=
  ensure_canonical_bound bytes.
Definition ensure_frame_bound (bytes : list Z) : result PairingError unit :=
  if MAX_NOISE_FRAME_BYTES <? Z.of_nat (length bytes)
  then Err (NoiseFrameTooLarge (Z.of_nat (length bytes))) else Ok tt.

Definition action_code (action : CapabilityAction.t) : Z :=
  match action with
  | CapabilityAction.AppendOperation => 0
  | CapabilityAction.IssueCapability => 1
  | CapabilityAction.RevokeCapability => 2
  | CapabilityAction.ReadSpace => 3
  | CapabilityAction.WriteContent => 4
  | CapabilityAction.LinkWorkspace => 5
  end.

Definition action_from_code (code : Z) : result PairingError CapabilityAction.t :=
  if code =? 0 then Ok CapabilityAction.AppendOperation
  else if code =? 1 then Ok CapabilityAction.IssueCapability
  else if code =? 2 then Ok CapabilityAction.RevokeCapability
  else if code =? 3 then Ok CapabilityAction.ReadSpace
  else if code =? 4 then Ok CapabilityAction.WriteContent
  else if code =? 5 then Ok CapabilityAction.LinkWorkspace
  else Err (InvalidField (str "capability action")).

Definition visibility_code (visibility : Visibility.t) : Z :=
  match visibility with Visibility.Public => 0 | Visibility.Private => 1 end.

Definition visibility_from_code (code : Z) : result PairingError Visibility.t :=
  if code =? 0 then Ok Visibility.Public
  else if code =? 1 then Ok Visibility.Private
  else Err (InvalidField (str "visibility")).

Definition schema_from_text (value : list Z) : result PairingError EntitySchema.t :=
  map_err (fun _ => InvalidField (str "entity schema")) (parse_schema value).

Definition key (value : Z) : CV := Unsigned value.
Definition optional_unsigned (value : option Z) : CV :=
  match value with Some v => Unsigned v | None => Null end.
Definition optional_integer (value : option Z) : CV :=
  match value with Some v => Integer v | None => Null end.

Fixpoint insert_fields (entries : list (CV * CV)) (map : Fields) : result PairingError Fields :=
  match entries with
  | [] => Ok map
  | (Unsigned key, value) :: entries =>
      match map !! key with
      | Some _ => Err (InvalidField (str "duplicate canonical map key"))
      | None => insert_fields entries (<[key := value]> map)
      end
  | _ :: _ => Err (InvalidField (str "canonical map key"))
  end.

Definition exact_map (value : CV) (expected : nat) : result PairingError Fields :=
  match value with
  | Map entries =>
      if negb (length entries =? expected)%nat
      then Err (InvalidMapSize (Z.of_nat expected) (Z.of_nat (length entries)))
      else insert_fields entries ∅
  | _ => Err (InvalidField (str "canonical map"))
  end.

Definition take (map : Fields) (key : Z) : result PairingError (CV * Fields) :=
  match map !! key with
  | Some value => Ok (value, delete key map)
  | None => Err (MissingCanonicalField key)
  end.

Definition array (value : CV) : result PairingError (list CV) :=
  match value with Array value => Ok value | _ => Err (InvalidField (str "canonical array")) end.
Definition text (value : CV) : result PairingError (list Z) :=
  match value with Text value => Ok value | _ => Err (InvalidField (str "canonical text")) end.
Definition unsigned (value : CV) : result PairingError Z :=
  match value with
  | Unsigned value => Ok value
  | _ => Err (InvalidField (str "canonical unsigned integer"))
  end.
Definition integer (value : CV) : result PairingError Z :=
  match value with
  | Integer value => Ok value
  | Unsigned value =>
      ok_or (checked_i64 value) (InvalidField (str "canonical signed integer"))
  | _ => Err (InvalidField (str "canonical signed integer"))
  end.
Definition optional_unsigned_from (value : CV) : result PairingError (option Z) :=
  match value with
  | Null => Ok None
  | Unsigned value => Ok (Some value)
  | _ => Err (InvalidField (str "optional unsigned integer"))
  end.
Definition optional_integer_from (value : CV) : result PairingError (option Z) :=
  match value with
  | Null => Ok None
  | value => let? value := integer value in Ok (Some value)
  end.
Definition fixed_bytes (n : nat) (value : CV) : result PairingError (list Z) :=
  match value with
  | Bytes value =>
      if (length value =? n)%nat then Ok value else Err (InvalidField (str "fixed byte length"))
  | _ => Err (InvalidField (str "canonical bytes"))
  end.
Definition require_version (found expected : Z) : result PairingError unit :=
  if found =? expected then Ok tt else Err (UnsupportedVersion expected found).

(** [f(take(&mut map, key)?)?]. *)
Definition take_as {A} (f : CV -> result PairingError A) (map : Fields) (key : Z) :
    result PairingError (A * Fields) :=
  let? (value, map) := take map key in
  let? a := f value in
  Ok (a, map).

(** [array(take(&mut map, key)?)?.into_iter().map(f).collect()]. *)
Definition array_of {A} (f : CV -> result PairingError A) (value : CV) : result PairingError (list A) :=
  let? values := array value in collect f values.

Definition validate_lifetime (now expires : Z) : result PairingError unit :=
  if (now <? 0) || (expires <? 0) then Err (InvalidField (str "invitation time"))
  else
    let? lifetime := ok_or (checked_i64 (expires - now)) (InvalidField (str "invitation lifetime")) in
    if negb ((MIN_INVITATION_LIFETIME_MS <=? lifetime) && (lifetime <=? MAX_INVITATION_LIFETIME_MS))
    then Err (InvalidInvitationLifetime lifetime)
    else Ok tt.

Definition starts_with (prefix s : list Z) : bool := is_some (strip_prefix prefix s).

Definition validate_endpoint_hint (hint : list Z) : result PairingError unit :=
  if is_empty hint || (MAX_ENDPOINT_HINT_BYTES <? Z.of_nat (length hint)) || negb (is_ascii hint)
     || negb (starts_with (str "http://") hint || starts_with (str "https://") hint)
  then Err InvalidEndpointHint else Ok tt.

Definition validate_endpoint_hints (hints : list (list Z)) : result PairingError unit :=
  if MAX_ENDPOINT_HINTS <? Z.of_nat (length hints)
  then Err (TooManyEndpointHints (Z.of_nat (length hints)))
  else for_each validate_endpoint_hint hints.

(** [InvitationId::parse_hex]; the text is lowercase hexadecimal, so
    [u8::from_str_radix] reads every pair. *)
Definition is_lower_hexdigit (byte : Z) : bool :=
  (is_ascii_digit byte || ((97 <=? byte) && (byte <=? 102)) || ((65 <=? byte) && (byte <=? 70)))
  && negb (is_ascii_uppercase byte).

Definition radix16_digit (c : Z) : option Z :=
  if (48 <=? c) && (c <=? 57) then Some (c - 48)
  else if (97 <=? c) && (c <=? 102) then Some (c - 87)
  else if (65 <=? c) && (c <=? 70) then Some (c - 55)
  else None.

Fixpoint radix16_pairs (value : list Z) : result PairingError (list Z) :=
  match value with
  | high :: low :: value =>
      match radix16_digit high, radix16_digit low with
      | Some h, Some l => let? bytes := radix16_pairs value in Ok (16 * h + l :: bytes)
      | _, _ => Err (InvalidField (str "invitationId"))
      end
  | _ => Ok []
  end.

Definition parse_hex (value : list Z) : result PairingError (list Z) :=
  if negb (length value =? INVITATION_ID_BYTES * 2)%nat || negb (forallb is_lower_hexdigit value)
  then Err (InvalidField (str "invitationId"))
  else
    let? bytes := radix16_pairs value in
    if list_eqb bytes (replicate INVITATION_ID_BYTES 0)
    then Err (InvalidField (str "invitationId"))
    else Ok bytes.

(** [Display] of an invitation id. *)
Definition display_invitation_id (id : list Z) : list Z := lower_hex id.
End Fields.

(** ** Capability templates *)
Module CapabilityGrantTemplate.
Record t : Type := mk {
  actions : list CapabilityAction.t;
  schemas : list EntitySchema.t;
  visibilities : list Visibility.t;
  content_roles : list (list Z);
  max_resource_byte_length : option Z;
  not_before_unix_ms : option Z;
  expires_at_unix_ms : option Z;
  delegation_depth : Z;
  label : list Z
}.
#[global] Instance eq_dec : EqDecision t.
Proof. solve_decision. Defined.

Definition normalize (g : t) : t :=
  mk (sort_by_rank CapabilityAction.rank (actions g)) (sort_schemas (schemas g))
    (sort_by_rank Visibility.rank (visibilities g)) (sort_bytes (content_roles g))
    (max_resource_byte_length g) (not_before_unix_ms g) (expires_at_unix_ms g)
    (delegation_depth g) (label g).

Section Template.
Context `{Sha256} `{Ed25519} `{!Noise}.

Definition to_grant (g : t) (subject : list Z) : result PairingError CapabilityGrant.t :=
  let grant :=
    CapabilityGrant.mk subject (actions g) (schemas g) (visibilities g) (content_roles g)
      (max_resource_byte_length g) (not_before_unix_ms g) (expires_at_unix_ms g)
      (delegation_depth g) (label g) in
  check map_err DataModel_ (grant_validate grant);
  Ok grant.

Definition canonical_value (g : t) : CV :=
  Map [(key 0, Array (List.map (fun action => Unsigned (action_code action)) (actions g)));
       (key 1, Array (List.map (fun schema => Text (EntitySchema.as_str schema)) (schemas g)));
       (key 2, Array (List.map (fun visibility => Unsigned (visibility_code visibility)) (visibilities g)));
       (key 3, Array (List.map Text (content_roles g)));
       (key 4, optional_unsigned (max_resource_byte_length g));
       (key 5, optional_integer (not_before_unix_ms g));
       (key 6, optional_integer (expires_at_unix_ms g));
       (key 7, Unsigned (delegation_depth g));
       (key 8, Text (label g))].

Definition from_canonical (value : CV) : result PairingError t :=
  let? map := exact_map value 9 in
  let? (actions, map) :=
    take_as (array_of (fun value => let? code := unsigned value in action_from_code code)) map 0 in
  let? (schemas, map) :=
    take_as (array_of (fun value => let? value := text value in schema_from_text value)) map 1 in
  let? (visibilities, map) :=
    take_as (array_of (fun value => let? code := unsigned value in visibility_from_code code)) map 2 in
  let? (content_roles, map) := take_as (array_of text) map 3 in
  let? (max_resource_byte_length, map) := take_as optional_unsigned_from map 4 in
  let? (not_before_unix_ms, map) := take_as optional_integer_from map 5 in
  let? (expires_at_unix_ms, map) := take_as optional_integer_from map 6 in
  let? (depth, map) := take_as unsigned map 7 in
  let? delegation_depth := ok_or (checked_u 8 depth) (InvalidField (str "delegation depth")) in
  let? (label, map) := take_as text map 8 in
  let original := mk actions schemas visibilities content_roles max_resource_byte_length
                    not_before_unix_ms expires_at_unix_ms delegation_depth label in
  let template := normalize original in
  if negb (bool_decide (template = original))
  then Err (NonCanonicalSet (str "capability template"))
  else Ok template.
End Template.
End CapabilityGrantTemplate.

(** ** Invitations *)
Module InvitationDescriptor.
Record t : Type := mk {
  invitation_id : list Z;
  responder_node_id : list Z;
  responder_noise_static : list Z;
  space_id : list Z;
  genesis_operation_id : list Z;
  expires_at_unix_ms : Z;
  endpoint_hints : list (list Z);
  capability : CapabilityGrantTemplate.t;
  secret_commitment : list Z
}.
#[global] Instance eq_dec : EqDecision t.
Proof. solve_decision. Defined.

Section Descriptor.
Context `{Sha256} `{Ed25519} `{HalfFloat} `{!Noise}.

Definition canonical_value (d : t) : CV :=
  Map [(key 0, Unsigned PAIRING_PROTOCOL_VERSION);
       (key 1, Unsigned INVITATION_VERSION);
       (key 2, Bytes (invitation_id d));
       (key 3, Text NOISE_PROTOCOL_NAME);
       (key 4, Bytes (responder_node_id d));
       (key 5, Bytes (responder_noise_static d));
       (key 6, Bytes (space_id d));
       (key 7, Bytes (genesis_operation_id d));
       (key 8, Integer (expires_at_unix_ms d));
       (key 9, Array (List.map Text (endpoint_hints d)));
       (key 10, CapabilityGrantTemplate.canonical_value (capability d));
       (key 11, Bytes (secret_commitment d))].

Definition canonical_bytes (d : t) : result PairingError (list Z) :=
  let? bytes := map_err Canonical (to_canonical_cbor (canonical_value d)) in
  check ensure_canonical_bound bytes;
  Ok bytes.

Definition digest (d : t) : option (list Z) :=
  let! bytes := expect (canonical_bytes d) in Some (sha256 bytes).

Definition validate (d : t) : result PairingError unit :=
  check map_err Trust_ (public_key (responder_node_id d));
  check map_err (fun _ => InvalidField (str "spaceId"))
    (parse_space_id (display_id SPACE_PREFIX (space_id d)));
  if list_eqb (invitation_id d) (replicate INVITATION_ID_BYTES 0)
  then Err (InvalidField (str "invitationId"))
  else if list_eqb (responder_noise_static d) (replicate DIGEST_BYTES 0)
  then Err (InvalidField (str "responderNoiseStatic"))
  else if expires_at_unix_ms d <? 0
  then Err (InvalidField (str "expiresAtUnixMs"))
  else
    check validate_endpoint_hints (endpoint_hints d);
    check CapabilityGrantTemplate.to_grant (capability d) (responder_node_id d);
    check canonical_bytes d;
    Ok tt.

Definition from_canonical (value : CV) : result PairingError t :=
  let? map := exact_map value 12 in
  let? (version, map) := take_as unsigned map 0 in
  check require_version version PAIRING_PROTOCOL_VERSION;
  let? (version, map) := take_as unsigned map 1 in
  check require_version version INVITATION_VERSION;
  let? (invitation_id, map) := take_as (fixed_bytes 16) map 2 in
  let? (responder_node_id, map) := take_as (fixed_bytes 32) map 4 in
  let? (responder_noise_static, map) := take_as (fixed_bytes 32) map 5 in
  let? (space_id, map) := take_as (fixed_bytes 32) map 6 in
  let? (genesis_operation_id, map) := take_as (fixed_bytes 32) map 7 in
  let? (expires_at_unix_ms, map) := take_as integer map 8 in
  let? (endpoint_hints, map) := take_as (array_of text) map 9 in
  let? (capability, map) := take_as CapabilityGrantTemplate.from_canonical map 10 in
  let? (secret_commitment, map) := take_as (fixed_bytes 32) map 11 in
  let descriptor :=
    mk invitation_id responder_node_id responder_noise_static space_id genesis_operation_id
      expires_at_unix_ms endpoint_hints capability secret_commitment in
  let? (name, map) := take_as text map 3 in
  if negb (list_eqb name NOISE_PROTOCOL_NAME) then Err UnsupportedNoiseProtocol
  else
    check validate descriptor;
    Ok descriptor.

Definition from_canonical_bytes (bytes : list Z) : result PairingError t :=
  check ensure_canonical_bound bytes;
  let? value := map_err Canonical (from_canonical_cbor bytes) in
  from_canonical value.
End Descriptor.
End InvitationDescriptor.

(** ** Joiner claims *)
Module JoinerClaim.
Record t : Type := mk {
  invitation_id : list Z;
  descriptor_digest : list Z;
  responder_node_id : list Z;
  space_id : list Z;
  genesis_operation_id : list Z;
  joiner_node_id : list Z;
  subject_actor_id : list Z;
  nonce : list Z;
  node_signature : list Z;
  actor_signature : list Z
}.

Section Claim.
Context `{Sha256} `{Ed25519} `{HalfFloat} `{!Noise}.

Definition unsigned_value (c : t) : CV :=
  Map [(key 0, Unsigned PAIRING_PROTOCOL_VERSION);
       (key 1, Bytes (invitation_id c));
       (key 2, Bytes (descriptor_digest c));
       (key 3, Bytes (responder_node_id c));
       (key 4, Bytes (space_id c));
       (key 5, Bytes (genesis_operation_id c));
       (key 6, Bytes (joiner_node_id c));
       (key 7, Bytes (subject_actor_id c));
       (key 8, Bytes (nonce c))].

Definition unsigned_bytes (c : t) : result PairingError (list Z) :=
  let? bytes := map_err Canonical (to_canonical_cbor (unsigned_value c)) in
  check ensure_canonical_bound bytes;
  Ok bytes.

Definition canonical_bytes (c : t) : result PairingError (list Z) :=
  let? bytes := map_err Canonical (to_canonical_cbor
    (Map [(key 0, unsigned_value c);
          (key 1, Bytes (node_signature c));
          (key 2, Bytes (actor_signature c))])) in
  check ensure_canonical_bound bytes;
  Ok bytes.

Definition digest (c : t) : option (list Z) :=
  let! bytes := expect (canonical_bytes c) in Some (sha256 bytes).

(** The claim with its signatures replaced. *)
Definition with_signatures (c : t) (node actor : list Z) : t :=
  mk (invitation_id c) (descriptor_digest c) (responder_node_id c) (space_id c)
    (genesis_operation_id c) (joiner_node_id c) (subject_actor_id c) (nonce c) node actor.

Definition sign (descriptor : InvitationDescriptor.t) (joiner_node_key subject_actor_key nonce : list Z) :
    option t :=
  let! descriptor_digest := InvitationDescriptor.digest descriptor in
  let claim :=
    mk (InvitationDescriptor.invitation_id descriptor) descriptor_digest
      (InvitationDescriptor.responder_node_id descriptor) (InvitationDescriptor.space_id descriptor)
      (InvitationDescriptor.genesis_operation_id descriptor) (signing_identity joiner_node_key)
      (signing_identity subject_actor_key) nonce (replicate 64 0) (replicate 64 0) in
  let! unsigned := expect (unsigned_bytes claim) in
  Some (with_signatures claim (sign_detached joiner_node_key PairingJoinerClaimV1 unsigned)
          (sign_detached subject_actor_key PairingJoinerClaimV1 unsigned)).

Definition verify_for (c : t) (descriptor : InvitationDescriptor.t) : option (result PairingError unit) :=
  if negb (list_eqb (invitation_id c) (InvitationDescriptor.invitation_id descriptor))
  then Some (Err ClaimInvitationMismatch)
  else
    let! digest := InvitationDescriptor.digest descriptor in
    Some (
      if negb (list_eqb (descriptor_digest c) digest)
         || negb (list_eqb (responder_node_id c) (InvitationDescriptor.responder_node_id descriptor))
         || negb (list_eqb (space_id c) (InvitationDescriptor.space_id descriptor))
         || negb (list_eqb (genesis_operation_id c)
                    (InvitationDescriptor.genesis_operation_id descriptor))
      then Err ClaimInvitationMismatch
      else if list_eqb (nonce c) (replicate DIGEST_BYTES 0)
      then Err (InvalidField (str "claim nonce"))
      else
        let? unsigned := unsigned_bytes c in
        check map_err Trust_
          (verify_detached_id (joiner_node_id c) PairingJoinerClaimV1 unsigned (node_signature c));
        check map_err Trust_
          (verify_detached_id (subject_actor_id c) PairingJoinerClaimV1 unsigned (actor_signature c));
        Ok tt).

Definition from_canonical_bytes (bytes : list Z) : result PairingError t :=
  check ensure_canonical_bound bytes;
  let? value := map_err Canonical (from_canonical_cbor bytes) in
  let? envelope := exact_map value 3 in
  let? (value, envelope) := take envelope 0 in
  let? fields := exact_map value 9 in
  let? (version, fields) := take_as unsigned fields 0 in
  check require_version version PAIRING_PROTOCOL_VERSION;
  let? (invitation_id, fields) := take_as (fixed_bytes 16) fields 1 in
  let? (descriptor_digest, fields) := take_as (fixed_bytes 32) fields 2 in
  let? (responder_node_id, fields) := take_as (fixed_bytes 32) fields 3 in
  let? (space_id, fields) := take_as (fixed_bytes 32) fields 4 in
  let? (genesis_operation_id, fields) := take_as (fixed_bytes 32) fields 5 in
  let? (joiner_node_id, fields) := take_as (fixed_bytes 32) fields 6 in
  let? (subject_actor_id, fields) := take_as (fixed_bytes 32) fields 7 in
  let? (nonce, fields) := take_as (fixed_bytes 32) fields 8 in
  let? (node_signature, envelope) := take_as (fixed_bytes 64) envelope 1 in
  let? (actor_signature, envelope) := take_as (fixed_bytes 64) envelope 2 in
  check map_err Trust_ (public_key joiner_node_id);
  check map_err Trust_ (public_key subject_actor_id);
  if list_eqb nonce (replicate DIGEST_BYTES 0) then Err (InvalidField (str "claim nonce"))
  else Ok (mk invitation_id descriptor_digest responder_node_id space_id genesis_operation_id
             joiner_node_id subject_actor_id nonce node_signature actor_signature).
End Claim.
End JoinerClaim.

(** ** Receipts *)
Module PairingReceipt.
Record t : Type := mk {
  invitation_id : list Z;
  descriptor_digest : list Z;
  claim_digest : list Z;
  handshake_hash : list Z;
  responder_node_id : list Z;
  joiner_node_id : list Z;
  peer_access_token : list Z;
  signature : list Z
}.

Section Receipt.
Context `{Sha256} `{Ed25519} `{HalfFloat} `{!Noise}.

Definition unsigned_value (r : t) : CV :=
  Map [(key 0, Unsigned PAIRING_PROTOCOL_VERSION);
       (key 1, Bytes (invitation_id r));
       (key 2, Bytes (descriptor_digest r));
       (key 3, Bytes (claim_digest r));
       (key 4, Bytes (handshake_hash r));
       (key 5, Bytes (responder_node_id r));
       (key 6, Bytes (joiner_node_id r));
       (key 7, Bytes (peer_access_token r))].

Definition unsigned_bytes (r : t) : result PairingError (list Z) :=
  let? bytes := map_err Canonical (to_canonical_cbor (unsigned_value r)) in
  check ensure_canonical_bound bytes;
  Ok bytes.

Definition canonical_bytes (r : t) : result PairingError (list Z) :=
  let? bytes := map_err Canonical (to_canonical_cbor
    (Map [(key 0, unsigned_value r); (key 1, Bytes (signature r))])) in
  check ensure_canonical_bound bytes;
  Ok bytes.

Definition with_signature (r : t) (signature : list Z) : t :=
  mk (invitation_id r) (descriptor_digest r) (claim_digest r) (handshake_hash r)
    (responder_node_id r) (joiner_node_id r) (peer_access_token r) signature.

Definition sign (descriptor : InvitationDescriptor.t) (claim : JoinerClaim.t)
    (handshake_hash peer_access_token responder_node_key : list Z) : option t :=
  let! descriptor_digest := InvitationDescriptor.digest descriptor in
  let! claim_digest := JoinerClaim.digest claim in
  let receipt :=
    mk (InvitationDescriptor.invitation_id descriptor) descriptor_digest claim_digest handshake_hash
      (signing_identity responder_node_key) (JoinerClaim.joiner_node_id claim) peer_access_token
      (replicate 64 0) in
  let! unsigned := expect (unsigned_bytes receipt) in
  Some (with_signature receipt (sign_detached responder_node_key PairingReceiptV1 unsigned)).

Definition verify_for (r : t) (descriptor : InvitationDescriptor.t) (claim : JoinerClaim.t)
    (expected_handshake_hash : list Z) : option (result PairingError unit) :=
  if negb (list_eqb (invitation_id r) (InvitationDescriptor.invitation_id descriptor))
  then Some (Err ReceiptTranscriptMismatch)
  else
    let! digest := InvitationDescriptor.digest descriptor in
    if negb (list_eqb (descriptor_digest r) digest) then Some (Err ReceiptTranscriptMismatch)
    else
      let! digest := JoinerClaim.digest claim in
      Some (
        if negb (list_eqb (claim_digest r) digest)
           || negb (list_eqb (handshake_hash r) expected_handshake_hash)
           || negb (list_eqb (responder_node_id r) (InvitationDescriptor.responder_node_id descriptor))
           || negb (list_eqb (joiner_node_id r) (JoinerClaim.joiner_node_id claim))
        then Err ReceiptTranscriptMismatch
        else
          let? unsigned := unsigned_bytes r in
          check map_err Trust_
            (verify_detached_id (responder_node_id r) PairingReceiptV1 unsigned (signature r));
          Ok tt).

Definition from_canonical_bytes (bytes : list Z) : result PairingError t :=
  check ensure_canonical_bound bytes;
  let? value := map_err Canonical (from_canonical_cbor bytes) in
  let? envelope := exact_map value 2 in
  let? (value, envelope) := take envelope 0 in
  let? fields := exact_map value 8 in
  let? (version, fields) := take_as unsigned fields 0 in
  check require_version version PAIRING_PROTOCOL_VERSION;
  let? (invitation_id, fields) := take_as (fixed_bytes 16) fields 1 in
  let? (descriptor_digest, fields) := take_as (fixed_bytes 32) fields 2 in
  let? (claim_digest, fields) := take_as (fixed_bytes 32) fields 3 in
  let? (handshake_hash, fields) := take_as (fixed_bytes 32) fields 4 in
  let? (responder_node_id, fields) := take_as (fixed_bytes 32) fields 5 in
  let? (joiner_node_id, fields) := take_as (fixed_bytes 32) fields 6 in
  let? (peer_access_token, fields) := take_as (fixed_bytes 32) fields 7 in
  let? (signature, envelope) := take_as (fixed_bytes 64) envelope 1 in
  Ok (mk invitation_id descriptor_digest claim_digest handshake_hash responder_node_id
        joiner_node_id peer_access_token signature).
End Receipt.
End PairingReceipt.

(** ** Acceptances *)
Module PairingAcceptance.
Record t : Type := mk {
  invitation_id : list Z;
  claim_digest : list Z;
  handshake_hash : list Z;
  responder_node_id : list Z;
  space_id : list Z;
  joiner_node_id : list Z;
  subject_actor_id : list Z;
  grant_operation_id : list Z;
  nonce : list Z;
  node_signature : list Z;
  actor_signature : list Z
}.

Section Acceptance.
Context `{Sha256} `{Ed25519} `{HalfFloat} `{!Noise}.

Definition unsigned_value (a : t) : CV :=
  Map [(key 0, Unsigned PAIRING_PROTOCOL_VERSION);
       (key 1, Bytes (invitation_id a));
       (key 2, Bytes (claim_digest a));
       (key 3, Bytes (handshake_hash a));
       (key 4, Bytes (responder_node_id a));
       (key 5, Bytes (space_id a));
       (key 6, Bytes (joiner_node_id a));
       (key 7, Bytes (subject_actor_id a));
       (key 8, Bytes (grant_operation_id a));
       (key 9, Bytes (nonce a))].

Definition unsigned_bytes (a : t) : result PairingError (list Z) :=
  let? bytes := map_err Canonical (to_canonical_cbor (unsigned_value a)) in
  check ensure_canonical_bound bytes;
  Ok bytes.

Definition canonical_bytes (a : t) : result PairingError (list Z) :=
  let? bytes := map_err Canonical (to_canonical_cbor
    (Map [(key 0, unsigned_value a);
          (key 1, Bytes (node_signature a));
          (key 2, Bytes (actor_signature a))])) in
  check ensure_canonical_bound bytes;
  Ok bytes.

Definition with_signatures (a : t) (node actor : list Z) : t :=
  mk (invitation_id a) (claim_digest a) (handshake_hash a) (responder_node_id a) (space_id a)
    (joiner_node_id a) (subject_actor_id a) (grant_operation_id a) (nonce a) node actor.

Definition sign (invitation_id claim_digest handshake_hash responder_node_id space_id
    grant_operation_id joiner_node_key subject_actor_key nonce : list Z) : option t :=
  let acceptance :=
    mk invitation_id claim_digest handshake_hash responder_node_id space_id
      (signing_identity joiner_node_key) (signing_identity subject_actor_key) grant_operation_id nonce
      (replicate 64 0) (replicate 64 0) in
  let! unsigned := expect (unsigned_bytes acceptance) in
  Some (with_signatures acceptance (sign_detached joiner_node_key PairingAcceptanceV1 unsigned)
          (sign_detached subject_actor_key PairingAcceptanceV1 unsigned)).

Definition verify_for (a : t) (descriptor : InvitationDescriptor.t)
    (expected_claim_digest expected_handshake_hash expected_joiner_node_id expected_subject_actor_id
     expected_grant_operation_id : list Z) : result PairingError unit :=
  if negb (list_eqb (invitation_id a) (InvitationDescriptor.invitation_id descriptor))
     || negb (list_eqb (claim_digest a) expected_claim_digest)
     || negb (list_eqb (handshake_hash a) expected_handshake_hash)
     || negb (list_eqb (responder_node_id a) (InvitationDescriptor.responder_node_id descriptor))
     || negb (list_eqb (space_id a) (InvitationDescriptor.space_id descriptor))
     || negb (list_eqb (joiner_node_id a) expected_joiner_node_id)
     || negb (list_eqb (subject_actor_id a) expected_subject_actor_id)
     || negb (list_eqb (grant_operation_id a) expected_grant_operation_id)
     || list_eqb (nonce a) (replicate DIGEST_BYTES 0)
  then Err AcceptanceMismatch
  else
    let? unsigned := unsigned_bytes a in
    check map_err Trust_
      (verify_detached_id (joiner_node_id a) PairingAcceptanceV1 unsigned (node_signature a));
    check map_err Trust_
      (verify_detached_id (subject_actor_id a) PairingAcceptanceV1 unsigned (actor_signature a));
    Ok tt.

Definition from_canonical_bytes (bytes : list Z) : result PairingError t :=
  check ensure_canonical_bound bytes;
  let? value := map_err Canonical (from_canonical_cbor bytes) in
  let? envelope := exact_map value 3 in
  let? (value, envelope) := take envelope 0 in
  let? fields := exact_map value 10 in
  let? (version, fields) := take_as unsigned fields 0 in
  check require_version version PAIRING_PROTOCOL_VERSION;
  let? (invitation_id, fields) := take_as (fixed_bytes 16) fields 1 in
  let? (claim_digest, fields) := take_as (fixed_bytes 32) fields 2 in
  let? (handshake_hash, fields) := take_as (fixed_bytes 32) fields 3 in
  let? (responder_node_id, fields) := take_as (fixed_bytes 32) fields 4 in
  let? (space_id, fields) := take_as (fixed_bytes 32) fields 5 in
  let? (joiner_node_id, fields) := take_as (fixed_bytes 32) fields 6 in
  let? (subject_actor_id, fields) := take_as (fixed_bytes 32) fields 7 in
  let? (grant_operation_id, fields) := take_as (fixed_bytes 32) fields 8 in
  let? (nonce, fields) := take_as (fixed_bytes 32) fields 9 in
  let? (node_signature, envelope) := take_as (fixed_bytes 64) envelope 1 in
  let? (actor_signature, envelope) := take_as (fixed_bytes 64) envelope 2 in
  check map_err Trust_ (public_key joiner_node_id);
  check map_err Trust_ (public_key subject_actor_id);
  if list_eqb nonce (replicate DIGEST_BYTES 0) then Err (InvalidField (str "acceptance nonce"))
  else Ok (mk invitation_id claim_digest handshake_hash responder_node_id space_id joiner_node_id
             subject_actor_id grant_operation_id nonce node_signature actor_signature).
End Acceptance.
End PairingAcceptance.

(** ** Confirmation code *)

(** The octal digits of a nonnegative value, most significant first; [fuel] digits
    are enough for a value below [8 ^ fuel]. *)
Fixpoint octal_digits (fuel : nat) (value : Z) (acc : list Z) : list Z :=
  match fuel with
  | O => acc
  | S fuel =>
      let acc := 48 + value mod 8 :: acc in
      if value / 8 =? 0 then acc else octal_digits fuel (value / 8) acc
  end.

(** [format!("{value:010o}")] of a [u32], which has at most eleven octal digits. *)
Definition format_octal10 (value : Z) : list Z :=
  let digits := octal_digits 11 value [] in
  replicate (10 - length digits) 48 ++ digits.

Section Confirmation.
Context `{Sha256}.
Definition confirmation_octal (handshake_hash : list Z) : list Z :=
  let digest := sha256 (CONFIRMATION_DOMAIN ++ handshake_hash) in
  let value := Z.shiftr (from_be (List.firstn 4 digest)) 2 in
  format_octal10 value.
End Confirmation.

(** ** Handshake adapter *)
Section Handshake.
Context `{Sha256} `{!Noise}.

Definition noise_params : result PairingError NoiseParams :=
  ok_or (parse_params NOISE_PROTOCOL_NAME) UnsupportedNoiseProtocol.

(** The adapter's methods return the new state with the result. *)
Definition handshake_write_message (state : HandshakeState) (payload : list Z) :
    result PairingError (list Z) * HandshakeState :=
  match ensure_message_bound payload with
  | Err e => (Err e, state)
  | Ok _ =>
      let '(written, state) := handshake_write state payload MAX_NOISE_FRAME_BYTES in
      (let? output := map_err Noise_ written in
       check ensure_frame_bound output;
       Ok output, state)
  end.

Definition handshake_read_message (state : HandshakeState) (frame : list Z) :
    result PairingError (list Z) * HandshakeState :=
  match ensure_frame_bound frame with
  | Err e => (Err e, state)
  | Ok _ =>
      let '(read, state) := handshake_read state frame MAX_CANONICAL_MESSAGE_BYTES in
      (let? output := map_err Noise_ read in
       check ensure_message_bound output;
       Ok output, state)
  end.

Record PairingTransport : Type := mkPairingTransport {
  transport_state : TransportState;
  transport_handshake_hash : list Z;
  transport_confirmation : list Z
}.

Definition finish (state : HandshakeState) : result PairingError PairingTransport :=
  if negb (is_handshake_finished state) then Err HandshakeIncomplete
  else
    let hash := get_handshake_hash state in
    if negb (length hash =? DIGEST_BYTES)%nat then Err InvalidHandshakeHash
    else
      let confirmation := confirmation_octal hash in
      let? transport := map_err Noise_ (into_transport_mode state) in
      Ok (mkPairingTransport transport hash confirmation).

Definition transport_write_message (p : PairingTransport) (payload : list Z) :
    result PairingError (list Z) * PairingTransport :=
  match ensure_message_bound payload with
  | Err e => (Err e, p)
  | Ok _ =>
      let '(written, state) :=
        transport_write (transport_state p) payload (Z.of_nat (length payload) + 16) in
      (let? output := map_err Noise_ written in
       check ensure_frame_bound output;
       Ok output,
       mkPairingTransport state (transport_handshake_hash p) (transport_confirmation p))
  end.

Definition transport_read_message (p : PairingTransport) (frame : list Z) :
    result PairingError (list Z) * PairingTransport :=
  match ensure_frame_bound frame with
  | Err e => (Err e, p)
  | Ok _ =>
      let '(read, state) := transport_read (transport_state p) frame (Z.of_nat (length frame)) in
      (let? output := map_err Noise_ read in
       check ensure_message_bound output;
       Ok output,
       mkPairingTransport state (transport_handshake_hash p) (transport_confirmation p))
  end.
End Handshake.

(** ** The responder's stored secret *)
Module ResponderInvitationSecret.
Record t : Type := mk {
  invitation_id : list Z;
  descriptor_digest : list Z;
  one_time_secret : list Z;
  noise_static_private : list Z
}.
#[global] Instance eq_dec : EqDecision t.
Proof. solve_decision. Defined.

Section Secret.
Context `{!Noise}.

Definition protected_store_bytes (s : t) : list Z :=
  [RESPONDER_SECRET_VERSION] ++ invitation_id s ++ descriptor_digest s ++ one_time_secret s
  ++ noise_static_private s.

(** [bytes[first..last]]. *)
Definition slice (bytes : list Z) (first last : nat) : list Z :=
  List.firstn (last - first) (List.skipn first bytes).

Definition from_protected_store_bytes (bytes : list Z) : result PairingError t :=
  if negb (length bytes =? RESPONDER_SECRET_BYTES)%nat
     || negb (nth 0 bytes 0 =? RESPONDER_SECRET_VERSION)
  then Err InvalidProtectedSecret
  else
    let result := mk (slice bytes 1 17) (slice bytes 17 49) (slice bytes 49 81) (slice bytes 81 113) in
    if list_eqb (invitation_id result) (replicate INVITATION_ID_BYTES 0)
       || list_eqb (one_time_secret result) (replicate SECRET_BYTES 0)
       || list_eqb (noise_static_private result) (replicate SECRET_BYTES 0)
    then Err InvalidProtectedSecret
    else Ok result.

Definition start_responder (s : t) : result PairingError HandshakeState :=
  let? params := noise_params in
  let? builder := map_err Noise_ (psk (builder_new params) 0 (one_time_secret s)) in
  let? builder := map_err Noise_ (local_private_key builder (noise_static_private s)) in
  let? builder := map_err Noise_ (prologue builder (descriptor_digest s)) in
  map_err Noise_ (build_responder builder).
End Secret.
End ResponderInvitationSecret.

(** ** Invitations on paper: the QR text *)
Module PairingInvitation.
Record t : Type := mk {
  descriptor : InvitationDescriptor.t;
  signature : list Z;
  one_time_secret : list Z
}.

Record InvitationParameters : Type := mkInvitationParameters {
  space_id : list Z;
  genesis_operation_id : list Z;
  now_unix_ms : Z;
  expires_at_unix_ms : Z;
  endpoint_hints : list (list Z);
  capability : CapabilityGrantTemplate.t
}.

Record InvitationMaterial : Type := mkInvitationMaterial {
  material_invitation_id : list Z;
  material_one_time_secret : list Z;
  noise_private : list Z
}.

Record IssuedInvitation : Type := mkIssued { invitation : t; secret : ResponderInvitationSecret.t }.

Section Invitation.
Context `{Sha256} `{Ed25519} `{HalfFloat} `{Base64} `{!Noise}.

Definition descriptor_of (responder_node_key : list Z) (p : InvitationParameters)
    (m : InvitationMaterial) : InvitationDescriptor.t :=
  InvitationDescriptor.mk (material_invitation_id m) (signing_identity responder_node_key)
    (x25519_base (noise_private m)) (space_id p) (genesis_operation_id p) (expires_at_unix_ms p)
    (endpoint_hints p) (CapabilityGrantTemplate.normalize (capability p))
    (sha256 (material_one_time_secret m)).

Definition issue_with_material (responder_node_key : list Z) (p : InvitationParameters)
    (m : InvitationMaterial) : option (result PairingError IssuedInvitation) :=
  match validate_lifetime (now_unix_ms p) (expires_at_unix_ms p) with
  | Err e => Some (Err e)
  | Ok _ =>
      let descriptor := descriptor_of responder_node_key p m in
      match InvitationDescriptor.validate descriptor with
      | Err e => Some (Err e)
      | Ok _ =>
          match InvitationDescriptor.canonical_bytes descriptor with
          | Err e => Some (Err e)
          | Ok descriptor_bytes =>
              let signature := sign_detached responder_node_key PairingInvitationV1 descriptor_bytes in
              let invitation := mk descriptor signature (material_one_time_secret m) in
              let! digest := InvitationDescriptor.digest descriptor in
              Some (Ok (mkIssued invitation
                (ResponderInvitationSecret.mk (InvitationDescriptor.invitation_id descriptor) digest
                   (material_one_time_secret m) (noise_private m))))
          end
      end
  end.

Definition verify (i : t) (now : Z) : result PairingError unit :=
  check InvitationDescriptor.validate (descriptor i);
  if (now <? 0) || (InvitationDescriptor.expires_at_unix_ms (descriptor i) <=? now)
  then Err InvitationExpired
  else if negb (list_eqb (sha256 (one_time_secret i))
                  (InvitationDescriptor.secret_commitment (descriptor i)))
  then Err SecretCommitmentMismatch
  else
    let? bytes := InvitationDescriptor.canonical_bytes (descriptor i) in
    check map_err Trust_
      (verify_detached_id (InvitationDescriptor.responder_node_id (descriptor i))
         PairingInvitationV1 bytes (signature i));
    Ok tt.

Definition decode (qr : list Z) (now : Z) : result PairingError t :=
  let? encoded := ok_or (strip_prefix QR_PREFIX qr) InvalidQrPrefix in
  let? bytes := ok_or (base64_decode encoded) InvalidBase64 in
  if MAX_QR_CBOR_BYTES <? Z.of_nat (length bytes) then Err (QrTooLarge (Z.of_nat (length bytes)))
  else
    let? value := map_err Canonical (from_canonical_cbor bytes) in
    let? map := exact_map value 3 in
    let? (descriptor, map) := take_as InvitationDescriptor.from_canonical map 0 in
    let? (signature, map) := take_as (fixed_bytes 64) map 1 in
    let? (one_time_secret, map) := take_as (fixed_bytes 32) map 2 in
    let invitation := mk descriptor signature one_time_secret in
    check verify invitation now;
    Ok invitation.

Definition qr_value (i : t) : CV :=
  Map [(key 0, InvitationDescriptor.canonical_value (descriptor i));
       (key 1, Bytes (signature i));
       (key 2, Bytes (one_time_secret i))].

Definition to_qr_string (i : t) : result PairingError (list Z) :=
  let? bytes := map_err Canonical (to_canonical_cbor (qr_value i)) in
  if MAX_QR_CBOR_BYTES <? Z.of_nat (length bytes) then Err (QrTooLarge (Z.of_nat (length bytes)))
  else Ok (QR_PREFIX ++ base64_encode bytes).

Definition start_initiator (i : t) (now : Z) : option (result PairingError HandshakeState) :=
  match verify i now with
  | Err e => Some (Err e)
  | Ok _ =>
      match noise_params with
      | Err e => Some (Err e)
      | Ok params =>
          let! digest := InvitationDescriptor.digest (descriptor i) in
          Some (
            let? builder := map_err Noise_ (psk (builder_new params) 0 (one_time_secret i)) in
            let? builder := map_err Noise_ (remote_public_key builder
              (InvitationDescriptor.responder_noise_static (descriptor i))) in
            let? builder := map_err Noise_ (prologue builder digest) in
            map_err Noise_ (build_initiator builder))
      end
  end.
End Invitation.
End PairingInvitation.
