(* ===== verification/PairingSamples.v ===== *)
(** * Concrete pairing messages for the witnesses

    A handshake library that tags payloads, sample keys, an invitation and the
    descriptor of the messages that answer it. *)
From S2P Require Import Prelude Bytes Floats Crypto Content Cbor.
From S2P Require Import Trust TrustTheory DataModel Envelope Samples Pairing.

(** A handshake that keeps the key material it was given: two messages finish it. *)
Record toy_handshake : Type := mkToyHandshake {
  toy_material : list Z;
  toy_messages : Z
}.

Definition toy_write (s : toy_handshake) (payload : list Z) (limit : Z) :
    result unit (list Z) * toy_handshake :=
  if limit <? Z.of_nat (length payload) + 1 then (Err tt, s)
  else (Ok (0 :: payload), mkToyHandshake (toy_material s) (toy_messages s + 1)).
Definition toy_read (s : toy_handshake) (frame : list Z) (limit : Z) :
    result unit (list Z) * toy_handshake :=
  match frame with
  | 0 :: payload =>
      if limit <? Z.of_nat (length payload) then (Err tt, s)
      else (Ok payload, mkToyHandshake (toy_material s) (toy_messages s + 1))
  | _ => (Err tt, s)
  end.

Program Definition toy_noise : Noise := {|
  NoiseParams := unit;
  Builder := list Z;
  HandshakeState := toy_handshake;
  TransportState := toy_handshake;
  NoiseError := unit;
  parse_params := fun name => if list_eqb name NOISE_PROTOCOL_NAME then Some tt else None;
  builder_new := fun _ => [];
  psk := fun b _ key => Ok (b ++ key);
  remote_public_key := fun b key => Ok (b ++ key);
  local_private_key := fun b key => Ok (b ++ be_bytes 32 (from_be key));
  prologue := fun b data => Ok (b ++ data);
  build_initiator := fun b => Ok (mkToyHandshake b 0);
  build_responder := fun b => Ok (mkToyHandshake b 0);
  handshake_write := toy_write;
  handshake_read := toy_read;
  is_handshake_finished := fun s => 2 <=? toy_messages s;
  get_handshake_hash := fun s => toy_hash (toy_material s);
  into_transport_mode := fun s => Ok s;
  transport_write := toy_write;
  transport_read := toy_read;
  x25519_base := fun k => be_bytes 32 (from_be k)
|}.
Next Obligation. intros k. split; [apply be_bytes_length|apply be_bytes_byte]. Qed.
Next Obligation.
  intros s frame limit output s' Hf. unfold toy_read. destruct frame as [|[] payload]; try done.
  destruct (_ <? _); [done|]. intros [= <- _]. by apply Forall_cons in Hf as [_ Hf].
Qed.

#[export] Existing Instance toy_noise.

Definition host_seed : list Z := replicate 31 0 ++ [5].
Definition joiner_seed : list Z := replicate 31 0 ++ [6].
Definition subject_seed : list Z := replicate 31 0 ++ [7].

Definition sample_capability : CapabilityGrantTemplate.t :=
  CapabilityGrantTemplate.mk [CapabilityAction.AppendOperation; CapabilityAction.ReadSpace]
    [EntitySchema.Record_] [Visibility.Public] [] (Some 4096) None (Some 1784265600000) 0 (str "phone").

Definition sample_parameters : PairingInvitation.InvitationParameters :=
  PairingInvitation.mkInvitationParameters sample_space (replicate 32 3) 1784265600000 1784265900000
    [str "https://host.example"] sample_capability.

Definition sample_material : PairingInvitation.InvitationMaterial :=
  PairingInvitation.mkInvitationMaterial (replicate 16 4) (replicate 32 5) (replicate 32 6).

Definition sample_descriptor : InvitationDescriptor.t :=
  PairingInvitation.descriptor_of host_seed sample_parameters sample_material.
