(* ===== verification/PairingTheory.v ===== *)
(** * Pairing messages: the theorems

    Decoded maps and the consecutive-key maps of [CborMap], one encoding per message,
    signing and verification, the QR text, the stored secret, the confirmation code. *)
From S2P Require Import Prelude Bytes Floats Crypto Content Cbor CborTheory CborDecode CborProps CborMap.
From S2P Require Import Trust TrustTheory DataModel Envelope Samples Pairing PairingSamples.

(** ** Decoded maps *)
Section Maps.
Context `{Noise}.

Lemma insert_fields_Ok entries : forall m m',
  insert_fields entries m = Ok m' ->
  (forall kv, kv ∈ entries -> exists k, fst kv = Unsigned k)
  /\ (forall k v, m' !! k = Some v <-> m !! k = Some v \/ (Unsigned k, v) ∈ entries).
Proof.
  induction entries as [|[k0 v0] entries IH]; intros m m' Hi; cbn in Hi.
  - injection Hi as <-. split; [intros kv Hin; by apply not_elem_of_nil in Hin|].
    intros k v. split; [by left|]. intros [?|Hin]; [done|by apply not_elem_of_nil in Hin].
  - destruct k0; try discriminate Hi. destruct (m !! value) as [v|] eqn:Em; [discriminate Hi|].
    destruct (IH _ _ Hi) as [Hk Hl]. split.
    + intros kv [->|Hin]%elem_of_cons; [by exists value|by apply Hk].
    + intros k v. rewrite Hl, elem_of_cons. destruct (decide (k = value)) as [->|Hne].
      * rewrite lookup_insert_eq, Em. split; [|naive_solver].
        intros [[= ->]|?]; [right; by left|right; by right].
      * rewrite lookup_insert_ne by done. split; [naive_solver|].
        intros [?|[[= ? ?]|?]]; [by left|done|by right].
Qed.

Lemma insert_fields_index vs : forall k m,
  (forall i v, m !! i = Some v -> i < k) ->
  exists m', insert_fields (index_from k vs) m = Ok m'
    /\ forall i : nat, m' !! (k + Z.of_nat i) = vs !! i.
Proof.
  induction vs as [|v vs IH]; intros k m Hm; cbn [index_from insert_fields].
  - exists m. split; [done|]. intros i. destruct (m !! (k + Z.of_nat i)) as [v|] eqn:E; [|by rewrite lookup_nil].
    apply Hm in E. lia.
  - destruct (m !! k) as [w|] eqn:E; [apply Hm in E; lia|].
    destruct (IH (k + 1) (<[k := v]> m)) as (m' & Hi & Hl).
    { intros i w Hw. destruct (decide (i = k)) as [->|Hne]; [lia|].
      rewrite lookup_insert_ne in Hw by done. apply Hm in Hw. lia. }
    exists m'. split; [done|]. intros [|i].
    + rewrite Z.add_0_r. cbn. apply insert_fields_Ok in Hi as [_ Hi]. apply Hi. left. apply lookup_insert_eq.
    + replace (k + Z.of_nat (S i)) with (k + 1 + Z.of_nat i) by lia. apply Hl.
Qed.

(** The decoded map of a consecutive-key map. *)
Lemma exact_map_indexed vs n :
  length vs = n -> exists m, exact_map (indexed vs) n = Ok m /\ forall i : nat, m !! Z.of_nat i = vs !! i.
Proof.
  intros <-. unfold exact_map, indexed. rewrite index_from_length, Nat.eqb_refl. cbn [negb].
  destruct (insert_fields_index vs 0 ∅) as (m & Hm & Hl); [by intros i v|].
  exists m. split; [done|]. intros i. apply (Hl i).
Qed.

Lemma take_as_lookup {A} (f : CV -> result PairingError A) m k v :
  m !! k = Some v -> take_as f m k = let? a := f v in Ok (a, delete k m).
Proof. intros Hk. unfold take_as, take. by rewrite Hk. Qed.

Lemma take_lookup m k v : m !! k = Some v -> take m k = Ok (v, delete k m).
Proof. intros Hk. unfold take. by rewrite Hk. Qed.

Lemma take_as_Ok {A} (f : CV -> result PairingError A) m k a m' :
  take_as f m k = Ok (a, m') -> exists v, m !! k = Some v /\ f v = Ok a /\ m' = delete k m.
Proof.
  unfold take_as, take. destruct (m !! k) as [v|]; [|done]. destruct (f v) as [a'|] eqn:E; [|done].
  intros [= -> <-]. by exists v.
Qed.

Lemma take_Ok m k v m' : take m k = Ok (v, m') -> m !! k = Some v /\ m' = delete k m.
Proof. unfold take. destruct (m !! k) as [w|]; [|done]. by intros [= -> <-]. Qed.
End Maps.

Section Canonical.
Context `{HalfFloat} `{!Noise}.

(** A canonical map that decodes to all of the keys 0 to [n - 1] is the consecutive
    map of its values. *)
Lemma exact_map_inv v n m (vs : list CV) :
  normal v -> exact_map v n = Ok m -> length vs = n -> (n <= 24)%nat ->
  (forall i x, vs !! i = Some x -> m !! Z.of_nat i = Some x) -> v = indexed vs.
Proof.
  intros Hn He Hl Hle Hx. unfold exact_map in He. destruct v as [| | | | | | | |kvs]; try discriminate He.
  destruct (Nat.eqb_spec (length kvs) n) as [Hk|]; cbn [negb] in He; [|discriminate He].
  apply insert_fields_Ok in He as [Hu Hm]. apply normal_Map in Hn as [Hs _].
  unfold indexed. f_equal.
  set (R := fun a b : CV * CV => bytes_lt (wire (fst a)) (wire (fst b))).
  assert (Htr : Transitive R) by (intros a b c; apply bytes_lt_trans).
  assert (Hirr : forall a, ~ R a a) by (intros a; apply bytes_lt_irrefl).
  assert (S1 : Sorted.StronglySorted R kvs).
  { apply Sorted.Sorted_StronglySorted; [exact Htr|]. clear - Hs.
    induction kvs as [|a l IH]; [constructor|]. inversion Hs as [|? ? Hs' Hh]; subst.
    constructor; [by apply IH|]. destruct l; [constructor|]. inversion Hh; subst. by constructor. }
  assert (S2 : Sorted.StronglySorted R (index_from 0 vs)).
  { apply Sorted.Sorted_StronglySorted; [exact Htr|].
    pose proof (index_from_strict (fun kv => snd kv) vs 0 ltac:(lia) ltac:(lia)) as Hst.
    unfold strict_keys in Hst. clear - Hst. revert Hst. generalize 0. intros k.
    generalize (index_from k vs). intros l.
    induction l as [|a l IH]; intros Hst; [constructor|]. inversion Hst as [|? ? Hs' Hh]; subst.
    constructor; [by apply IH|]. destruct l; [constructor|]. inversion Hh; subst. by constructor. }
  assert (ND : forall l, Sorted.StronglySorted R l -> NoDup l).
  { induction 1 as [|a l _ IH Ha]; constructor; [|done]. intros Hin. rewrite Forall_forall in Ha.
    by apply (Hirr a), Ha. }
  assert (Hsub : forall kv, kv ∈ index_from 0 vs -> kv ∈ kvs).
  { intros kv Hin. assert (Hg : forall l k, 0 <= k -> kv ∈ index_from k l ->
      exists i : nat, kv = (Unsigned (k + Z.of_nat i), snd kv) /\ l !! i = Some (snd kv)).
    { clear. induction l as [|x l IH]; intros k Hk Hin; [by apply not_elem_of_nil in Hin|].
      apply elem_of_cons in Hin as [->|Hin]; [exists 0%nat; by rewrite Z.add_0_r|].
      destruct (IH (k + 1) ltac:(lia) Hin) as (i & E & Hi). exists (S i). split; [|done].
      rewrite E at 1. do 2 f_equal. lia. }
    destruct (Hg vs 0 ltac:(lia) Hin) as (i & -> & Hi). apply Hx in Hi.
    apply Hm in Hi as [Hi|Hi]; [by rewrite lookup_empty in Hi|exact Hi]. }
  apply (StronglySorted_unique_strong R); [|done|done|].
  - intros a b _ _ Hab Hba. destruct (Hirr a). by etrans.
  - symmetry. apply submseteq_length_Permutation.
    + apply NoDup_submseteq; [by apply ND|done].
    + rewrite index_from_length. lia.
Qed.
End Canonical.

(** ** Messages: a signed map of byte strings with its signatures *)

(** The value all three messages have. *)
Definition signed_map (fields : list (list Z)) : CV :=
  indexed (Unsigned PAIRING_PROTOCOL_VERSION :: List.map Bytes fields).
Definition message (fields signatures : list (list Z)) : CV :=
  indexed (signed_map fields :: List.map Bytes signatures).

(** Bounds that every message satisfies: at most ten parts of at most 64 bytes. *)
Definition small (parts : list (list Z)) : Prop :=
  (length parts <= 10)%nat /\ forall b, b ∈ parts -> Forall is_byte b /\ (length b <= 64)%nat.

Section Messages.
Context `{HalfFloat} `{!Noise}.

Lemma part_wf parts v : small parts -> v ∈ List.map Bytes parts -> wf v.
Proof. intros [_ Hb] (b & -> & Hin)%list_elem_of_fmap. by apply Hb. Qed.

Lemma signed_map_wf fields :
  small fields -> forall v, v ∈ Unsigned PAIRING_PROTOCOL_VERSION :: List.map Bytes fields -> wf v.
Proof.
  intros Hs v [->|Hin]%elem_of_cons; [cbn; unfold in_u, PAIRING_PROTOCOL_VERSION; lia|].
  by eapply part_wf.
Qed.

Lemma forallb_flat_bytes parts : forallb flat (List.map Bytes parts) = true.
Proof. by induction parts. Qed.

Lemma small_sum parts :
  small parts ->
  (list_sum (List.map (fun v => 1 + item_bound v) (List.map Bytes parts)) <= 740)%nat.
Proof.
  intros [Hl Hb]. rewrite List.map_map. cbn [item_bound].
  enough (list_sum (List.map (fun b : list Z => 1 + (9 + length b)) parts) <= 74 * length parts)%nat by lia.
  clear Hl. induction parts as [|b parts IH]; [done|].
  change (list_sum (List.map (fun b : list Z => 1 + (9 + length b)) (b :: parts)))%nat
    with (1 + (9 + length b) + list_sum (List.map (fun b : list Z => 1 + (9 + length b)) parts))%nat.
  destruct (Hb b ltac:(left)) as [_ ?]. cbn [length].
  assert (list_sum (List.map (fun b : list Z => 1 + (9 + length b)) parts) <= 74 * length parts)%nat
    by (apply IH; intros c Hc; apply Hb; by right). lia.
Qed.

Lemma signed_map_encodes fields :
  small fields ->
  to_canonical_cbor (signed_map fields) = Ok (wire (signed_map fields))
  /\ (length (wire (signed_map fields)) <= 800)%nat.
Proof.
  intros Hs. apply indexed_flat_encodes.
  - cbn. rewrite length_map. destruct Hs. lia.
  - cbn [forallb flat andb]. apply forallb_flat_bytes.
  - by apply signed_map_wf.
  - pose proof (small_sum fields Hs) as Hb.
    change (list_sum (List.map (fun v => 1 + item_bound v) (Unsigned PAIRING_PROTOCOL_VERSION :: List.map Bytes fields)))%nat
      with (10 + list_sum (List.map (fun v => 1 + item_bound v) (List.map Bytes fields)))%nat. lia.
  - unfold MAX_CANONICAL_BYTES. lia.
Qed.

Lemma message_wf fields signatures : small fields -> small signatures -> wf (message fields signatures).
Proof.
  intros Hf Hs. unfold message. apply wf_indexed; [cbn; rewrite length_map; destruct Hs; lia|].
  intros v [->|Hin]%elem_of_cons; [|by eapply part_wf].
  apply wf_indexed; [cbn; rewrite length_map; destruct Hf; lia|]. by apply signed_map_wf.
Qed.

(** Every message encodes, within the bound of a canonical message. *)
Lemma message_encodes fields signatures :
  small fields -> small signatures ->
  to_canonical_cbor (message fields signatures) = Ok (wire (message fields signatures))
  /\ Z.of_nat (length (wire (message fields signatures))) <= MAX_CANONICAL_MESSAGE_BYTES.
Proof.
  intros Hf Hs.
  assert (Hb : (length (wire (message fields signatures)) <= 1700)%nat).
  { unfold message. etrans; [apply wire_indexed_bound; cbn; rewrite length_map; destruct Hs; lia|].
    destruct (signed_map_encodes fields Hf) as [_ Hm]. pose proof (small_sum signatures Hs) as Hsum.
    change (list_sum (List.map (fun v => 1 + length (wire v)) (signed_map fields :: List.map Bytes signatures)))%nat
      with (1 + length (wire (signed_map fields))
            + list_sum (List.map (fun v => 1 + length (wire v)) (List.map Bytes signatures)))%nat.
    assert (list_sum (List.map (fun v => 1 + length (wire v)) (List.map Bytes signatures))
            <= list_sum (List.map (fun v => 1 + item_bound v) (List.map Bytes signatures)))%nat.
    { apply list_sum_mono. intros v (b & -> & _)%list_elem_of_fmap. apply le_n_S, wire_item_bound. done. }
    lia. }
  split; [|unfold MAX_CANONICAL_MESSAGE_BYTES; lia].
  apply to_canonical_cbor_Ok; [by apply message_wf|]. split; [|split; [done|unfold fits, MAX_CANONICAL_BYTES; lia]].
  apply within_limits_indexed; [cbn; rewrite length_map; destruct Hs; lia|].
  split; [unfold MAX_CANONICAL_DEPTH; lia|]. split; [unfold MAX_CANONICAL_DEPTH; lia|].
  intros v [->|(b & -> & _)%list_elem_of_fmap]%elem_of_cons; [|split; [unfold MAX_CANONICAL_DEPTH; lia|exact I]].
  apply indexed_flat_limits; [cbn; rewrite length_map; destruct Hf; lia|unfold MAX_CANONICAL_DEPTH; lia|].
  intros v [->|(b & -> & _)%list_elem_of_fmap]%elem_of_cons; done.
Qed.

Lemma normalize_bytes parts : List.map normalize (List.map Bytes parts) = List.map Bytes parts.
Proof. rewrite List.map_map. by apply List.map_ext. Qed.

Lemma normalize_signed_map fields : small fields -> normalize (signed_map fields) = signed_map fields.
Proof.
  intros [Hl _]. unfold signed_map. rewrite normalize_indexed by (cbn; rewrite length_map; lia).
  cbn [List.map normalize]. by rewrite normalize_bytes.
Qed.

Lemma normalize_message fields signatures :
  small fields -> small signatures -> normalize (message fields signatures) = message fields signatures.
Proof.
  intros Hf [Hl _]. unfold message. rewrite normalize_indexed by (cbn; rewrite length_map; lia).
  cbn [List.map]. by rewrite normalize_signed_map, normalize_bytes.
Qed.

Lemma map_Bytes_inj (l : list (list Z)) : forall l', List.map Bytes l = List.map Bytes l' -> l = l'.
Proof. induction l as [|a l IH]; intros [|b l'] E; try done. injection E as -> E. f_equal. by apply IH. Qed.

Lemma index_from_inj vs : forall ws k, index_from k vs = index_from k ws -> vs = ws.
Proof.
  induction vs as [|v vs IH]; intros [|w ws] k E; try done. cbn in E. injection E as -> E.
  f_equal. by eapply IH.
Qed.

Lemma indexed_inj vs ws : indexed vs = indexed ws -> vs = ws.
Proof. unfold indexed. intros [= E]. by eapply index_from_inj. Qed.

(** Signed bytes determine the fields. *)
Lemma signed_map_inj f g bytes :
  small f -> small g -> to_canonical_cbor (signed_map f) = Ok bytes ->
  to_canonical_cbor (signed_map g) = Ok bytes -> f = g.
Proof.
  intros Sf Sg Hf Hg.
  assert (W : forall f, small f -> wf (signed_map f)).
  { intros l Sl. apply wf_indexed; [cbn; rewrite length_map; destruct Sl; lia|]. by apply signed_map_wf. }
  apply to_canonical_cbor_roundtrip in Hf as (Hf & _ & _), Hg as (Hg & _ & _); [|by apply W..].
  rewrite normalize_signed_map in Hf, Hg by done.
  assert (E : signed_map f = signed_map g) by congruence. apply indexed_inj in E. injection E as E.
  by apply map_Bytes_inj.
Qed.

(** What a decoded message is the encoding of. *)
Lemma message_decode fields signatures bytes :
  small fields -> small signatures -> bytes = wire (message fields signatures) ->
  ensure_canonical_bound bytes = Ok tt /\ from_canonical_cbor bytes = Ok (message fields signatures).
Proof.
  intros Hf Hs ->. destruct (message_encodes fields signatures Hf Hs) as [He Hb]. split.
  - unfold ensure_canonical_bound. by rewrite (proj2 (Z.ltb_ge _ _)).
  - apply to_canonical_cbor_roundtrip in He as (He & _); [|by apply message_wf].
    by rewrite normalize_message in He.
Qed.
End Messages.

(** ** Tactics for the decoders *)

Lemma fixed_bytes_Ok `{Noise} n v b : fixed_bytes n v = Ok b <-> v = Bytes b /\ length b = n.
Proof.
  unfold fixed_bytes. destruct v; try (split; [done|by intros [[=] _]]).
  destruct (Nat.eqb_spec (length bytes) n).
  - split; [intros [= <-]; done|by intros [[= ->] _]].
  - split; [done|]. by intros [[= ->] ?].
Qed.

(** Runs the next [take] of a decoder whose map agrees with a list ([Hl]). *)
Ltac run_take Hl i :=
  (rewrite (take_as_lookup _ _ (Z.of_nat i) _) by (rewrite ?lookup_delete_ne by lia; exact (Hl i)))
  || (rewrite (take_lookup _ (Z.of_nat i) _) by (rewrite ?lookup_delete_ne by lia; exact (Hl i))).

(** The same for a field of fixed size ([Hf]). *)
Ltac run_fixed Hl i Hf :=
  run_take Hl i;
  rewrite (proj2 (fixed_bytes_Ok _ _ _)) by (split; [reflexivity|apply Hf]).

(** Splits a successful decoder run into its steps. *)
Ltac inv_decode :=
  repeat first
    [ inv_ok_step
    | match goal with
      | H : (let (_, _) := ?p in _) = Ok _ |- _ => destruct p
      end ].

Lemma unsigned_Ok `{Noise} v x : unsigned v = Ok x <-> v = Unsigned x.
Proof. destruct v; cbn; split; intros [=]; by subst. Qed.

Lemma require_version_Ok `{Noise} found expected : require_version found expected = Ok tt <-> found = expected.
Proof. unfold require_version. destruct (Z.eqb_spec found expected); by split. Qed.

Lemma strong_public_key `{Ed25519} k : is_ok (public_key k) = true <-> strong_key k.
Proof. rewrite <- public_key_validate_Ok. unfold public_key. by destruct (public_key_validate k) as [[]|]. Qed.

Lemma fixed_small n b : fixed n b -> (n <= 64)%nat -> Forall is_byte b /\ (length b <= 64)%nat.
Proof. intros [<- Hb] ?. by split. Qed.

(** [small] of a concrete list of fixed-size parts. *)
Ltac solve_small :=
  split; [cbn; lia|];
  let b := fresh "b" in let Hb := fresh "Hb" in
  intros b Hb;
  repeat (apply elem_of_cons in Hb as [->|Hb]; [eapply fixed_small; [eassumption|lia]|]);
  by apply not_elem_of_nil in Hb.

(** ** From a successful decoding back to the value *)
Section Inversion.
Context `{HalfFloat} `{!Noise}.

(** The map holds these byte strings at [k], [k + 1], ... *)
Fixpoint entries_at (m : Fields) (k : Z) (bs : list (list Z)) : Prop :=
  match bs with
  | [] => True
  | b :: bs => m !! k = Some (Bytes b) /\ entries_at m (k + 1) bs
  end.

Lemma entries_at_lookup m bs : forall k (i : nat) b,
  entries_at m k bs -> bs !! i = Some b -> m !! (k + Z.of_nat i) = Some (Bytes b).
Proof.
  induction bs as [|b0 bs IH]; intros k i b He Hi; [done|]. destruct He as [Hk He], i as [|i].
  - injection Hi as <-. by rewrite Z.add_0_r.
  - replace (k + Z.of_nat (S i)) with (k + 1 + Z.of_nat i) by lia. by eapply IH.
Qed.

Lemma entries_at_values m v0 bs i x :
  m !! 0 = Some v0 -> entries_at m 1 bs -> (v0 :: List.map Bytes bs) !! i = Some x ->
  m !! Z.of_nat i = Some x.
Proof.
  intros Hk He Hi. destruct i as [|i]; [by injection Hi as <-|].
  change ((Bytes <$> bs) !! i = Some x) in Hi. rewrite list_lookup_fmap in Hi.
  destruct (bs !! i) as [b|] eqn:Eb; [|done]. injection Hi as <-.
  replace (Z.of_nat (S i)) with (1 + Z.of_nat i) by lia. by eapply entries_at_lookup.
Qed.

Lemma message_inv v env value fields fs sigs :
  wf v -> normal v -> exact_map v (S (length sigs)) = Ok env -> env !! 0 = Some value ->
  exact_map value (S (length fs)) = Ok fields -> fields !! 0 = Some (Unsigned PAIRING_PROTOCOL_VERSION) ->
  entries_at fields 1 fs -> entries_at env 1 sigs ->
  (length fs <= 10)%nat -> (length sigs <= 10)%nat ->
  v = message fs sigs /\ forall b, b ∈ fs ++ sigs -> Forall is_byte b.
Proof.
  intros Hw Hn He Hk Hf Hf0 Hfs Hss Lf Ls.
  assert (Ev : v = indexed (value :: List.map Bytes sigs)).
  { apply (exact_map_inv v _ env _ Hn He); [cbn; by rewrite length_map|lia|].
    intros i x. by apply entries_at_values. }
  assert (Hval : wf value /\ normal value).
  { subst v. rewrite wf_indexed in Hw by (cbn; rewrite length_map; lia).
    apply normal_Map in Hn as [_ Hn]. split; [apply Hw; left|].
    by apply (Hn (Unsigned 0, value)); left. }
  destruct Hval as [Hwv Hnv].
  assert (Evv : value = signed_map fs).
  { apply (exact_map_inv value _ fields _ Hnv Hf); [cbn; by rewrite length_map|lia|].
    intros i x. by apply entries_at_values. }
  subst v value. split; [done|].
  unfold message in Hw. rewrite wf_indexed in Hw by (cbn; rewrite length_map; lia).
  unfold signed_map in Hwv. rewrite wf_indexed in Hwv by (cbn; rewrite length_map; lia).
  intros b [Hb|Hb]%elem_of_app.
  - apply (Hwv (Bytes b)). right. by apply list_elem_of_fmap_2.
  - apply (Hw (Bytes b)). right. by apply list_elem_of_fmap_2.
Qed.

Lemma take_fixed_Ok n m k b m' :
  take_as (fixed_bytes n) m k = Ok (b, m') -> m !! k = Some (Bytes b) /\ length b = n /\ m' = delete k m.
Proof. intros (v & Hv & (-> & Hl)%fixed_bytes_Ok & ->)%take_as_Ok. done. Qed.

Lemma take_unsigned_Ok m k x m' :
  take_as unsigned m k = Ok (x, m') -> m !! k = Some (Unsigned x) /\ m' = delete k m.
Proof. intros (v & Hv & ->%unsigned_Ok & ->)%take_as_Ok. done. Qed.
End Inversion.

(** Reads the steps of a decoder as lookups in the maps it started from. *)
Ltac inv_takes :=
  repeat match goal with
  | H : take_as (fixed_bytes _) _ _ = Ok (_, _) |- _ =>
      let Hl := fresh "Hlen" in apply take_fixed_Ok in H as (H & Hl & ->)
  | H : take_as unsigned _ _ = Ok (_, _) |- _ => apply take_unsigned_Ok in H as (H & ->)
  | H : take _ _ = Ok (_, _) |- _ => apply take_Ok in H as (H & ->)
  end;
  repeat match goal with
  | H : delete _ _ !! _ = Some _ |- _ => rewrite lookup_delete_ne in H by lia
  end.

(** ** Joiner claims *)
Section Claims.
Context `{Sha256} `{Ed25519} `{HalfFloat} `{!Noise}.
Import JoinerClaim.

Record claim_typed (c : JoinerClaim.t) : Prop := {
  claim_invitation : fixed 16 (invitation_id c);
  claim_descriptor : fixed 32 (descriptor_digest c);
  claim_responder : fixed 32 (responder_node_id c);
  claim_space : fixed 32 (space_id c);
  claim_genesis : fixed 32 (genesis_operation_id c);
  claim_joiner : fixed 32 (joiner_node_id c);
  claim_subject : fixed 32 (subject_actor_id c);
  claim_nonce : fixed 32 (nonce c);
  claim_node_signature : fixed 64 (node_signature c);
  claim_actor_signature : fixed 64 (actor_signature c)
}.

Definition claim_fields (c : JoinerClaim.t) : list (list Z) :=
  [invitation_id c; descriptor_digest c; responder_node_id c; space_id c; genesis_operation_id c;
   joiner_node_id c; subject_actor_id c; nonce c].
Definition claim_signatures (c : JoinerClaim.t) : list (list Z) := [node_signature c; actor_signature c].

Lemma claim_small c : claim_typed c -> small (claim_fields c) /\ small (claim_signatures c).
Proof. intros []. split; unfold claim_fields, claim_signatures; solve_small. Qed.

Lemma claim_unsigned_total c : claim_typed c -> unsigned_bytes c = Ok (wire (unsigned_value c)).
Proof.
  intros Ht. destruct (signed_map_encodes (claim_fields c)) as [He Hb]; [by apply claim_small|].
  unfold unsigned_bytes. change (unsigned_value c) with (signed_map (claim_fields c)). rewrite He.
  cbn [map_err]. unfold ensure_canonical_bound.
  rewrite (proj2 (Z.ltb_ge _ _)); [done|unfold MAX_CANONICAL_MESSAGE_BYTES; lia].
Qed.

Definition claim_value (c : JoinerClaim.t) : CV := message (claim_fields c) (claim_signatures c).

Lemma claim_canonical_total c : claim_typed c -> canonical_bytes c = Ok (wire (claim_value c)).
Proof.
  intros Ht. destruct (claim_small c Ht) as [Hf Hs]. destruct (message_encodes _ _ Hf Hs) as [He Hb].
  unfold canonical_bytes.
  change (Map [(key 0, unsigned_value c); (key 1, Bytes (node_signature c)); (key 2, Bytes (actor_signature c))])
    with (claim_value c). unfold claim_value in *. rewrite He. cbn [map_err]. unfold ensure_canonical_bound.
  by rewrite (proj2 (Z.ltb_ge _ _)).
Qed.

(** What decoding checks beyond the sizes. *)
Definition claim_valid (c : JoinerClaim.t) : Prop :=
  strong_key (joiner_node_id c) /\ strong_key (subject_actor_id c)
  /\ nonce c <> replicate DIGEST_BYTES 0.

Lemma claim_decode_value c :
  claim_typed c -> claim_valid c ->
  from_canonical_bytes (wire (claim_value c)) = Ok c.
Proof.
  intros Ht (Hj & Ha & Hn). destruct (claim_small c Ht) as [Hf Hs].
  destruct (message_decode _ _ _ Hf Hs eq_refl) as [Hb Hd].
  unfold from_canonical_bytes. unfold claim_value. rewrite Hb, Hd. cbn [map_err].
  destruct (exact_map_indexed (signed_map (claim_fields c) :: List.map Bytes (claim_signatures c)) 3 eq_refl)
    as (env & He & Hel). unfold message. rewrite He.
  run_take Hel 0%nat.
  destruct (exact_map_indexed (Unsigned PAIRING_PROTOCOL_VERSION :: List.map Bytes (claim_fields c)) 9 eq_refl)
    as (fs & Hm & Hfl). unfold signed_map. rewrite Hm.
  run_take Hfl 0%nat. cbn [unsigned]. rewrite (proj2 (require_version_Ok _ _)) by done.
  destruct Ht.
  run_fixed Hfl 1%nat claim_invitation0.
  run_fixed Hfl 2%nat claim_descriptor0.
  run_fixed Hfl 3%nat claim_responder0.
  run_fixed Hfl 4%nat claim_space0.
  run_fixed Hfl 5%nat claim_genesis0.
  run_fixed Hfl 6%nat claim_joiner0.
  run_fixed Hfl 7%nat claim_subject0.
  run_fixed Hfl 8%nat claim_nonce0.
  run_fixed Hel 1%nat claim_node_signature0.
  run_fixed Hel 2%nat claim_actor_signature0.
  apply strong_public_key in Hj, Ha.
  destruct (public_key (joiner_node_id c)); [|done]. destruct (public_key (subject_actor_id c)); [|done].
  cbn [map_err]. destruct (list_eqb (nonce c) _) eqn:En; [by apply list_eqb_eq in En|]. by destruct c.
Qed.

Lemma claim_decode_inv bytes c :
  Forall is_byte bytes -> from_canonical_bytes bytes = Ok c ->
  claim_typed c /\ claim_valid c /\ bytes = wire (claim_value c).
Proof.
  intros Hby Hd. unfold from_canonical_bytes in Hd.
  destruct (ensure_canonical_bound bytes); [|done].
  destruct (from_canonical_cbor bytes) as [v|] eqn:Ev; cbn [map_err] in Hd; [|done].
  apply from_canonical_cbor_Ok in Ev as ((Hw & Hn & _) & -> & _); [|done].
  inv_decode. apply require_version_Ok in E3 as ->. inv_takes.
  destruct (message_inv v a0 t0 a [l; l0; l1; l2; l3; l4; l5; l6] [l7; l8] Hw Hn) as [-> Hb];
    try assumption; try (cbn; lia); try (cbn; tauto).
  assert (Hfix : forall n b, length b = n -> b ∈ [l; l0; l1; l2; l3; l4; l5; l6] ++ [l7; l8] -> fixed n b)
    by (intros n b Hl Hin; split; [done|by apply Hb]).
  split; [constructor; cbn; (apply Hfix; [assumption|]); cbn; rewrite !elem_of_cons; tauto|].
  split; [|done]. apply public_key_Ok in E15 as [_ ?], E17 as [_ ?]. split; [done|]. split; [done|].
  cbn. intros ->. by rewrite (proj2 (list_eqb_eq _ _)) in E16.
Qed.

Lemma claim_from_iff bytes c :
  Forall is_byte bytes ->
  from_canonical_bytes bytes = Ok c <-> claim_typed c /\ claim_valid c /\ canonical_bytes c = Ok bytes.
Proof.
  intros Hby. split.
  - intros (Ht & Hv & ->)%claim_decode_inv; [|done]. by rewrite claim_canonical_total.
  - intros (Ht & Hv & Hb). rewrite claim_canonical_total in Hb by done. apply Ok_inj in Hb as <-.
    by apply claim_decode_value.
Qed.

(** The transcript a claim answers. *)
Definition claim_answers (c : JoinerClaim.t) (d : InvitationDescriptor.t) (digest : list Z) : Prop :=
  invitation_id c = InvitationDescriptor.invitation_id d /\ descriptor_digest c = digest
  /\ responder_node_id c = InvitationDescriptor.responder_node_id d
  /\ space_id c = InvitationDescriptor.space_id d
  /\ genesis_operation_id c = InvitationDescriptor.genesis_operation_id d.

Definition claim_signed (c : JoinerClaim.t) : Prop :=
  verify_detached_id (joiner_node_id c) PairingJoinerClaimV1 (wire (unsigned_value c)) (node_signature c) = Ok tt
  /\ verify_detached_id (subject_actor_id c) PairingJoinerClaimV1 (wire (unsigned_value c)) (actor_signature c)
     = Ok tt.

Lemma negb_list_eqb a b : negb (list_eqb a b) = false <-> a = b.
Proof. rewrite negb_false_iff. apply list_eqb_eq. Qed.

Lemma two_signatures (r1 r2 : result TrustError unit) :
  (check map_err Trust_ r1; check map_err Trust_ r2; Ok tt) = Ok tt :> result PairingError unit
  <-> r1 = Ok tt /\ r2 = Ok tt.
Proof. destruct r1 as [[]|], r2 as [[]|]; cbn; split; try done; by intros [? ?]. Qed.

Lemma claim_verify_iff c d digest :
  claim_typed c -> InvitationDescriptor.digest d = Some digest ->
  verify_for c d = Some (Ok tt)
  <-> claim_answers c d digest /\ nonce c <> replicate DIGEST_BYTES 0 /\ claim_signed c.
Proof.
  intros Ht Hd. unfold verify_for, claim_answers. rewrite Hd, claim_unsigned_total by done.
  destruct (negb (list_eqb (invitation_id c) _)) eqn:E1.
  { split; [done|]. intros ((E & _) & _). apply negb_list_eqb in E. congruence. }
  apply negb_list_eqb in E1. destruct (_ || _) eqn:E2.
  { split; [intros [= ?]; done|]. intros ((_ & H1' & H2' & H3' & H4') & _).
    rewrite <- H1', <- H2', <- H3', <- H4' in E2. rewrite !(proj2 (negb_list_eqb _ _)) in E2 by done. done. }
  bool_prop. rewrite !list_eqb_eq in *.
  destruct (list_eqb (nonce c) _) eqn:En.
  { apply list_eqb_eq in En. split; [intros [= ?]; done|]. by intros (_ & ? & _). }
  assert (Hn : nonce c <> replicate DIGEST_BYTES 0) by (intros E; by rewrite (proj2 (list_eqb_eq _ _) E) in En).
  unfold claim_signed. rewrite <- (two_signatures (verify_detached_id (joiner_node_id c) _ _ _)).
  split; [intros [= Hs]; done|]. intros (_ & _ & Hs). by rewrite Hs.
Qed.
End Claims.

(** Sizes of the fields of a descriptor that messages copy. *)
Record descriptor_ids (d : InvitationDescriptor.t) : Prop := {
  ids_invitation : fixed 16 (InvitationDescriptor.invitation_id d);
  ids_responder : fixed 32 (InvitationDescriptor.responder_node_id d);
  ids_space : fixed 32 (InvitationDescriptor.space_id d);
  ids_genesis : fixed 32 (InvitationDescriptor.genesis_operation_id d)
}.

Lemma replicate_zero_fixed n : fixed n (replicate n 0).
Proof. split; [apply length_replicate|]. apply Forall_replicate. unfold is_byte. lia. Qed.

Section ClaimTheorems.
Context `{Sha256} `{Ed25519} `{HalfFloat} `{!Noise}.

(** A claim has one encoding.  Bytes decode to a claim exactly when they are its
    canonical bytes, its keys are usable and its nonce is not zero; decoding checks
    nothing else and needs nothing else. *)
Theorem claim_one_encoding (bytes : list Z) (c : JoinerClaim.t) :
  Forall is_byte bytes ->
  JoinerClaim.from_canonical_bytes bytes = Ok c
  <-> claim_typed c /\ claim_valid c /\ JoinerClaim.canonical_bytes c = Ok bytes.
Proof. apply claim_from_iff. Qed.

Lemma sign_detached_fixed seed domain m : fixed 64 (sign_detached seed domain m).
Proof. apply ed25519_sign_fixed. Qed.

Lemma own_detached seed domain bytes :
  verify_detached_id (signing_identity seed) domain bytes (sign_detached seed domain bytes) = Ok tt
  <-> ed25519_is_weak (signing_identity seed) = false.
Proof. apply sign_detached_iff. Qed.

Lemma descriptor_digest_fixed d digest : InvitationDescriptor.digest d = Some digest -> fixed 32 digest.
Proof.
  unfold InvitationDescriptor.digest. destruct (expect _); [|done]. intros [= <-]. apply sha256_fixed.
Qed.

(** Signing a claim for an encodable invitation never panics, and the claim
    verifies for that invitation exactly when its nonce is not zero and neither key
    has small order. *)
Theorem claim_sign_spec (d : InvitationDescriptor.t) (node_key actor_key nonce digest : list Z) :
  descriptor_ids d -> fixed 32 nonce -> InvitationDescriptor.digest d = Some digest ->
  exists c, JoinerClaim.sign d node_key actor_key nonce = Some c
    /\ claim_typed c /\ claim_answers c d digest
    /\ (JoinerClaim.verify_for c d = Some (Ok tt)
        <-> nonce <> replicate DIGEST_BYTES 0 /\ ed25519_is_weak (signing_identity node_key) = false
            /\ ed25519_is_weak (signing_identity actor_key) = false).
Proof.
  intros [] Hn Hd. unfold JoinerClaim.sign. rewrite Hd.
  set (claim := JoinerClaim.mk _ _ _ _ _ _ _ _ _ _).
  assert (Hfix : forall seed, fixed 32 (signing_identity seed)) by (intros; apply verifying_key_fixed).
  assert (Ht : claim_typed claim).
  { constructor; try assumption; try apply Hfix; try apply replicate_zero_fixed.
    by apply descriptor_digest_fixed in Hd. }
  rewrite claim_unsigned_total by done. cbn [expect]. eexists. split; [done|].
  match goal with |- claim_typed ?x /\ _ => set (c := x) end.
  assert (Tc : claim_typed c) by (destruct Ht; constructor; try assumption; apply sign_detached_fixed).
  split; [done|]. split; [by repeat split|].
  rewrite (claim_verify_iff c d digest) by done. unfold claim_signed.
  change (JoinerClaim.unsigned_value c) with (JoinerClaim.unsigned_value claim).
  unfold c. cbn [JoinerClaim.with_signatures JoinerClaim.joiner_node_id JoinerClaim.subject_actor_id
    JoinerClaim.node_signature JoinerClaim.actor_signature JoinerClaim.nonce claim].
  rewrite !own_detached. split; [tauto|]. intros ?. split; [by repeat split|tauto].
Qed.
End ClaimTheorems.

(** ** Acceptances *)
Section Acceptances.
Context `{Sha256} `{Ed25519} `{HalfFloat} `{!Noise}.
Import PairingAcceptance.

Record acceptance_typed (a : PairingAcceptance.t) : Prop := {
  acceptance_invitation : fixed 16 (invitation_id a);
  acceptance_claim : fixed 32 (claim_digest a);
  acceptance_hash : fixed 32 (handshake_hash a);
  acceptance_responder : fixed 32 (responder_node_id a);
  acceptance_space : fixed 32 (space_id a);
  acceptance_joiner : fixed 32 (joiner_node_id a);
  acceptance_subject : fixed 32 (subject_actor_id a);
  acceptance_grant : fixed 32 (grant_operation_id a);
  acceptance_nonce : fixed 32 (nonce a);
  acceptance_node_signature : fixed 64 (node_signature a);
  acceptance_actor_signature : fixed 64 (actor_signature a)
}.

Definition acceptance_fields (a : PairingAcceptance.t) : list (list Z) :=
  [invitation_id a; claim_digest a; handshake_hash a; responder_node_id a; space_id a; joiner_node_id a;
   subject_actor_id a; grant_operation_id a; nonce a].
Definition acceptance_signatures (a : PairingAcceptance.t) : list (list Z) :=
  [node_signature a; actor_signature a].
Definition acceptance_value (a : PairingAcceptance.t) : CV :=
  message (acceptance_fields a) (acceptance_signatures a).

Lemma acceptance_small a :
  acceptance_typed a -> small (acceptance_fields a) /\ small (acceptance_signatures a).
Proof. intros []. split; unfold acceptance_fields, acceptance_signatures; solve_small. Qed.

Lemma acceptance_unsigned_total a : acceptance_typed a -> unsigned_bytes a = Ok (wire (unsigned_value a)).
Proof.
  intros Ht. destruct (signed_map_encodes (acceptance_fields a)) as [He Hb]; [by apply acceptance_small|].
  unfold unsigned_bytes. change (unsigned_value a) with (signed_map (acceptance_fields a)). rewrite He.
  cbn [map_err]. unfold ensure_canonical_bound.
  rewrite (proj2 (Z.ltb_ge _ _)); [done|unfold MAX_CANONICAL_MESSAGE_BYTES; lia].
Qed.

Lemma acceptance_canonical_total a : acceptance_typed a -> canonical_bytes a = Ok (wire (acceptance_value a)).
Proof.
  intros Ht. destruct (acceptance_small a Ht) as [Hf Hs]. destruct (message_encodes _ _ Hf Hs) as [He Hb].
  unfold canonical_bytes.
  change (Map [(key 0, unsigned_value a); (key 1, Bytes (node_signature a)); (key 2, Bytes (actor_signature a))])
    with (acceptance_value a). unfold acceptance_value in *. rewrite He. cbn [map_err].
  unfold ensure_canonical_bound. by rewrite (proj2 (Z.ltb_ge _ _)).
Qed.

Definition acceptance_valid (a : PairingAcceptance.t) : Prop :=
  strong_key (joiner_node_id a) /\ strong_key (subject_actor_id a)
  /\ nonce a <> replicate DIGEST_BYTES 0.

Lemma acceptance_decode_value a :
  acceptance_typed a -> acceptance_valid a -> from_canonical_bytes (wire (acceptance_value a)) = Ok a.
Proof.
  intros Ht (Hj & Ha & Hn). destruct (acceptance_small a Ht) as [Hf Hs].
  destruct (message_decode _ _ _ Hf Hs eq_refl) as [Hb Hd].
  unfold from_canonical_bytes. unfold acceptance_value. rewrite Hb, Hd. cbn [map_err].
  destruct (exact_map_indexed (signed_map (acceptance_fields a) :: List.map Bytes (acceptance_signatures a))
    3 eq_refl) as (env & He & Hel). unfold message. rewrite He.
  run_take Hel 0%nat.
  destruct (exact_map_indexed (Unsigned PAIRING_PROTOCOL_VERSION :: List.map Bytes (acceptance_fields a))
    10 eq_refl) as (fs & Hm & Hfl). unfold signed_map. rewrite Hm.
  run_take Hfl 0%nat. cbn [unsigned]. rewrite (proj2 (require_version_Ok _ _)) by done.
  destruct Ht.
  run_fixed Hfl 1%nat acceptance_invitation0.
  run_fixed Hfl 2%nat acceptance_claim0.
  run_fixed Hfl 3%nat acceptance_hash0.
  run_fixed Hfl 4%nat acceptance_responder0.
  run_fixed Hfl 5%nat acceptance_space0.
  run_fixed Hfl 6%nat acceptance_joiner0.
  run_fixed Hfl 7%nat acceptance_subject0.
  run_fixed Hfl 8%nat acceptance_grant0.
  run_fixed Hfl 9%nat acceptance_nonce0.
  run_fixed Hel 1%nat acceptance_node_signature0.
  run_fixed Hel 2%nat acceptance_actor_signature0.
  apply strong_public_key in Hj, Ha.
  destruct (public_key (joiner_node_id a)); [|done]. destruct (public_key (subject_actor_id a)); [|done].
  cbn [map_err]. destruct (list_eqb (nonce a) _) eqn:En; [by apply list_eqb_eq in En|]. by destruct a.
Qed.

Lemma acceptance_decode_inv bytes a :
  Forall is_byte bytes -> from_canonical_bytes bytes = Ok a ->
  acceptance_typed a /\ acceptance_valid a /\ bytes = wire (acceptance_value a).
Proof.
  intros Hby Hd. unfold from_canonical_bytes in Hd.
  destruct (ensure_canonical_bound bytes); [|done].
  destruct (from_canonical_cbor bytes) as [v|] eqn:Ev; cbn [map_err] in Hd; [|done].
  apply from_canonical_cbor_Ok in Ev as ((Hw & Hn & _) & -> & _); [|done].
  inv_decode. apply require_version_Ok in E3 as ->. inv_takes.
  destruct (message_inv v a1 t0 a0 [l; l0; l1; l2; l3; l4; l5; l6; l7] [l8; l9] Hw Hn) as [-> Hb];
    try assumption; try (cbn; lia); try (cbn; tauto).
  assert (Hfix : forall n b, length b = n -> b ∈ [l; l0; l1; l2; l3; l4; l5; l6; l7] ++ [l8; l9] -> fixed n b)
    by (intros n b Hl Hin; split; [done|by apply Hb]).
  split; [constructor; cbn; (apply Hfix; [assumption|]); cbn; rewrite !elem_of_cons; tauto|].
  split; [|done]. apply public_key_Ok in E16 as [_ ?], E18 as [_ ?]. split; [done|]. split; [done|].
  cbn. intros ->. by rewrite (proj2 (list_eqb_eq _ _)) in E17.
Qed.

Lemma acceptance_from_iff bytes a :
  Forall is_byte bytes ->
  from_canonical_bytes bytes = Ok a
  <-> acceptance_typed a /\ acceptance_valid a /\ canonical_bytes a = Ok bytes.
Proof.
  intros Hby. split.
  - intros (Ht & Hv & ->)%acceptance_decode_inv; [|done]. by rewrite acceptance_canonical_total.
  - intros (Ht & Hv & Hb). rewrite acceptance_canonical_total in Hb by done. apply Ok_inj in Hb as <-.
    by apply acceptance_decode_value.
Qed.

(** The transcript an acceptance is about. *)
Record accepts (a : PairingAcceptance.t) (d : InvitationDescriptor.t)
    (claim hash joiner subject grant : list Z) : Prop := {
  accepts_invitation : invitation_id a = InvitationDescriptor.invitation_id d;
  accepts_claim : claim_digest a = claim;
  accepts_hash : handshake_hash a = hash;
  accepts_responder : responder_node_id a = InvitationDescriptor.responder_node_id d;
  accepts_space : space_id a = InvitationDescriptor.space_id d;
  accepts_joiner : joiner_node_id a = joiner;
  accepts_subject : subject_actor_id a = subject;
  accepts_grant : grant_operation_id a = grant
}.

Definition acceptance_signed (a : PairingAcceptance.t) : Prop :=
  verify_detached_id (joiner_node_id a) PairingAcceptanceV1 (wire (unsigned_value a)) (node_signature a) = Ok tt
  /\ verify_detached_id (subject_actor_id a) PairingAcceptanceV1 (wire (unsigned_value a)) (actor_signature a)
     = Ok tt.

Lemma acceptance_verify_iff a d claim hash joiner subject grant :
  acceptance_typed a ->
  verify_for a d claim hash joiner subject grant = Ok tt
  <-> accepts a d claim hash joiner subject grant /\ nonce a <> replicate DIGEST_BYTES 0
      /\ acceptance_signed a.
Proof.
  intros Ht. unfold verify_for. rewrite acceptance_unsigned_total by done. split.
  - destruct (_ || _) eqn:E; [done|]. intros Hs. bool_prop. rewrite !list_eqb_eq in *.
    apply two_signatures in Hs. split; [by constructor|]. split; [|done].
    intros En. by rewrite (proj2 (list_eqb_eq _ _) En) in *.
  - intros ([] & Hn & Hs). destruct (_ || _) eqn:E.
    + rewrite !(proj2 (negb_list_eqb _ _)) in E by done. cbn [orb] in E. by apply list_eqb_eq in E.
    + by apply two_signatures.
Qed.
End Acceptances.

Section AcceptanceTheorems.
Context `{Sha256} `{Ed25519} `{HalfFloat} `{!Noise}.

(** An acceptance has one encoding, and decodes exactly when its keys are usable
    and its nonce is not zero. *)
Theorem acceptance_one_encoding (bytes : list Z) (a : PairingAcceptance.t) :
  Forall is_byte bytes ->
  PairingAcceptance.from_canonical_bytes bytes = Ok a
  <-> acceptance_typed a /\ acceptance_valid a /\ PairingAcceptance.canonical_bytes a = Ok bytes.
Proof. apply acceptance_from_iff. Qed.

(** An acceptance is good for one transcript.  Signing never panics; the result
    verifies against expected values exactly when each of them (invitation, claim
    digest, handshake hash, both nodes, space, actor and grant) is the signed one,
    the nonce is not zero and neither key has small order. *)
Theorem acceptance_sign_spec (invitation claim hash responder space grant node_key actor_key nonce : list Z)
    (d : InvitationDescriptor.t) (claim' hash' joiner' subject' grant' : list Z) :
  fixed 16 invitation -> fixed 32 claim -> fixed 32 hash -> fixed 32 responder -> fixed 32 space ->
  fixed 32 grant -> fixed 32 nonce ->
  exists a,
    PairingAcceptance.sign invitation claim hash responder space grant node_key actor_key nonce = Some a
    /\ acceptance_typed a
    /\ (PairingAcceptance.verify_for a d claim' hash' joiner' subject' grant' = Ok tt
        <-> InvitationDescriptor.invitation_id d = invitation
            /\ InvitationDescriptor.responder_node_id d = responder
            /\ InvitationDescriptor.space_id d = space
            /\ claim' = claim /\ hash' = hash /\ grant' = grant
            /\ joiner' = signing_identity node_key /\ subject' = signing_identity actor_key
            /\ nonce <> replicate DIGEST_BYTES 0 /\ ed25519_is_weak (signing_identity node_key) = false
            /\ ed25519_is_weak (signing_identity actor_key) = false).
Proof.
  intros H3 H4 H5 H6 H7 H8 H9. unfold PairingAcceptance.sign.
  set (acceptance := PairingAcceptance.mk _ _ _ _ _ _ _ _ _ _ _).
  assert (Hfix : forall seed, fixed 32 (signing_identity seed)) by (intros; apply verifying_key_fixed).
  assert (Ht : acceptance_typed acceptance)
    by (constructor; try assumption; try apply Hfix; apply replicate_zero_fixed).
  rewrite acceptance_unsigned_total by done. cbn [expect]. eexists. split; [done|].
  match goal with |- acceptance_typed ?x /\ _ => set (a := x) end.
  assert (Ta : acceptance_typed a) by (destruct Ht; constructor; try assumption; apply sign_detached_fixed).
  split; [done|]. rewrite acceptance_verify_iff by done. unfold acceptance_signed.
  change (PairingAcceptance.unsigned_value a) with (PairingAcceptance.unsigned_value acceptance).
  unfold a. cbn [PairingAcceptance.with_signatures PairingAcceptance.joiner_node_id
    PairingAcceptance.subject_actor_id PairingAcceptance.node_signature PairingAcceptance.actor_signature
    PairingAcceptance.nonce acceptance].
  rewrite !own_detached. split.
  - intros ([E1 E2 E3 E4 E5 E6 E7 E8] & ? & ? & ?). cbn in E1, E2, E3, E4, E5, E6, E7, E8.
    repeat split; congruence.
  - intros (? & ? & ? & ? & ? & ? & ? & ? & ? & ? & ?). split; [|done]. by constructor.
Qed.
End AcceptanceTheorems.

(** ** Witnesses *)
Lemma sample_descriptor_ids : descriptor_ids sample_descriptor.
Proof. constructor; apply (bool_decide_eq_true_1 (fixed _ _)); vm_compute; reflexivity. Qed.

Definition sample_descriptor_digest : list Z :=
  Eval vm_compute in default [] (InvitationDescriptor.digest sample_descriptor).

Lemma sample_digest : InvitationDescriptor.digest sample_descriptor = Some sample_descriptor_digest.
Proof. vm_compute. reflexivity. Qed.

Definition sample_nonce : list Z := replicate 32 9.

Definition sample_claim : JoinerClaim.t :=
  default (JoinerClaim.mk [] [] [] [] [] [] [] [] [] [])
    (JoinerClaim.sign sample_descriptor joiner_seed subject_seed sample_nonce).

Definition sample_acceptance : PairingAcceptance.t :=
  default (PairingAcceptance.mk [] [] [] [] [] [] [] [] [] [] [])
    (PairingAcceptance.sign (replicate 16 4) (replicate 32 1) (replicate 32 2) (signing_identity host_seed)
       sample_space (replicate 32 3) joiner_seed subject_seed sample_nonce).

(** Reads a closed size by evaluation. *)
Ltac by_size := apply (bool_decide_eq_true_1 (fixed _ _)); vm_compute; reflexivity.

Lemma claim_one_encoding_witness :
  exists bytes, JoinerClaim.canonical_bytes sample_claim = Ok bytes
    /\ JoinerClaim.from_canonical_bytes bytes = Ok sample_claim.
Proof.
  assert (Ht : claim_typed sample_claim) by (constructor; by_size).
  exists (wire (claim_value sample_claim)). pose proof (claim_canonical_total sample_claim Ht) as Hb.
  split; [exact Hb|]. apply claim_one_encoding.
  - apply wire_byte. destruct (claim_small _ Ht). by apply message_wf.
  - split; [exact Ht|]. split; [|exact Hb]. split; [by split|]. split; [by split|]. by vm_compute.
Defined.

Lemma claim_sign_spec_witness :
  exists c, JoinerClaim.sign sample_descriptor joiner_seed subject_seed sample_nonce = Some c
    /\ JoinerClaim.verify_for c sample_descriptor = Some (Ok tt).
Proof.
  destruct (claim_sign_spec sample_descriptor joiner_seed subject_seed sample_nonce
    sample_descriptor_digest sample_descriptor_ids ltac:(by_size) sample_digest) as (c & Hc & _ & _ & Hv).
  exists c. split; [exact Hc|]. apply Hv. split; [by vm_compute|]. split; reflexivity.
Defined.

Lemma acceptance_one_encoding_witness :
  exists bytes, PairingAcceptance.canonical_bytes sample_acceptance = Ok bytes
    /\ PairingAcceptance.from_canonical_bytes bytes = Ok sample_acceptance.
Proof.
  assert (Ht : acceptance_typed sample_acceptance) by (constructor; by_size).
  exists (wire (acceptance_value sample_acceptance)).
  pose proof (acceptance_canonical_total sample_acceptance Ht) as Hb.
  split; [exact Hb|]. apply acceptance_one_encoding.
  - apply wire_byte. destruct (acceptance_small _ Ht). by apply message_wf.
  - split; [exact Ht|]. split; [|exact Hb]. split; [by split|]. split; [by split|]. by vm_compute.
Defined.

Lemma acceptance_sign_spec_witness :
  exists a,
    PairingAcceptance.sign (replicate 16 4) (replicate 32 1) (replicate 32 2) (signing_identity host_seed)
      sample_space (replicate 32 3) joiner_seed subject_seed sample_nonce = Some a
    /\ PairingAcceptance.verify_for a sample_descriptor (replicate 32 1) (replicate 32 2)
         (signing_identity joiner_seed) (signing_identity subject_seed) (replicate 32 3) = Ok tt.
Proof.
  destruct (acceptance_sign_spec (replicate 16 4) (replicate 32 1) (replicate 32 2)
    (signing_identity host_seed) sample_space (replicate 32 3) joiner_seed subject_seed sample_nonce
    sample_descriptor (replicate 32 1) (replicate 32 2) (signing_identity joiner_seed)
    (signing_identity subject_seed) (replicate 32 3)
    ltac:(by_size) ltac:(by_size) ltac:(by_size) ltac:(by_size) ltac:(by_size) ltac:(by_size) ltac:(by_size))
    as (a & Ha & _ & Hv).
  exists a. split; [exact Ha|]. apply Hv. repeat split; try reflexivity; by vm_compute.
Defined.
