(* ===== verification/InvitationTheory.v ===== *)
(** * Invitations: the theorems

    Descriptors and their capability templates survive the canonical encoding, the QR
    text gives the invitation back, an issued invitation is accepted until it expires
    and matches the responder's secret. *)
From S2P Require Import Prelude Bytes Floats Crypto Content Cbor CborTheory CborDecode CborProps CborMap.
From S2P Require Import Trust TrustTheory DataModel BodyTheory Envelope Samples Pairing PairingSamples PairingTheory.

(** Conversion unfolds the codec last: its runs on symbolic values do not end. *)
Strategy 1000 [to_canonical_cbor from_canonical_cbor wire].

(** ** Values as the types of the source bound them *)
Record template_typed (g : CapabilityGrantTemplate.t) : Prop := {
  template_roles : Forall utf8 (CapabilityGrantTemplate.content_roles g);
  template_max : opt (in_u 64) (CapabilityGrantTemplate.max_resource_byte_length g);
  template_not_before : opt (in_i 64) (CapabilityGrantTemplate.not_before_unix_ms g);
  template_expires : opt (in_i 64) (CapabilityGrantTemplate.expires_at_unix_ms g);
  template_depth : in_u 8 (CapabilityGrantTemplate.delegation_depth g);
  template_label : utf8 (CapabilityGrantTemplate.label g)
}.

Record descriptor_typed (d : InvitationDescriptor.t) : Prop := {
  descriptor_invitation : fixed 16 (InvitationDescriptor.invitation_id d);
  descriptor_responder : fixed 32 (InvitationDescriptor.responder_node_id d);
  descriptor_noise : fixed 32 (InvitationDescriptor.responder_noise_static d);
  descriptor_space : fixed 32 (InvitationDescriptor.space_id d);
  descriptor_genesis : fixed 32 (InvitationDescriptor.genesis_operation_id d);
  descriptor_expires : in_i 64 (InvitationDescriptor.expires_at_unix_ms d);
  descriptor_hints : Forall utf8 (InvitationDescriptor.endpoint_hints d);
  descriptor_capability : template_typed (InvitationDescriptor.capability d);
  descriptor_commitment : fixed 32 (InvitationDescriptor.secret_commitment d)
}.

Record invitation_typed (i : PairingInvitation.t) : Prop := {
  invitation_descriptor : descriptor_typed (PairingInvitation.descriptor i);
  invitation_signature : fixed 64 (PairingInvitation.signature i);
  invitation_secret : fixed 32 (PairingInvitation.one_time_secret i)
}.

(** ** Templates *)
Lemma sort_rank_idem {T} (rank : T -> Z) (l : list T) :
  (forall a b, rank a = rank b -> a = b) -> sort_by_rank rank (sort_by_rank rank l) = sort_by_rank rank l.
Proof.
  intros Hinj. unfold sort_by_rank.
  assert (AntiSymm (=) (rank_le rank)) by (intros a b; unfold rank_le; intros; apply Hinj; lia).
  assert (Transitive (rank_le rank)) by (intros a b c; unfold rank_le; lia).
  assert (Total (rank_le rank)) by (intros a b; unfold rank_le; lia).
  apply (Sorted_unique (rank_le rank)); [apply Sorted_merge_sort; apply _..|apply merge_sort_Permutation].
Qed.

Lemma sort_schemas_idem l : sort_schemas (sort_schemas l) = sort_schemas l.
Proof.
  unfold sort_schemas.
  assert (AntiSymm (=) schema_le).
  { intros a b Hab Hba. assert (E : EntitySchema.as_str a = EntitySchema.as_str b)
      by (by apply (anti_symm bytes_le)). by destruct a, b. }
  assert (Transitive schema_le) by (intros a b c; unfold schema_le; apply (transitivity (R := bytes_le))).
  assert (Total schema_le) by (intros a b; apply (total bytes_le)).
  apply (Sorted_unique schema_le); [apply Sorted_merge_sort; apply _..|apply merge_sort_Permutation].
Qed.

Lemma sort_bytes_idem l : sort_bytes (sort_bytes l) = sort_bytes l.
Proof. apply (Sorted_unique bytes_le); [apply sort_bytes_sorted..|apply sort_bytes_perm]. Qed.

Lemma template_normalize_idem g :
  CapabilityGrantTemplate.normalize (CapabilityGrantTemplate.normalize g)
  = CapabilityGrantTemplate.normalize g.
Proof.
  unfold CapabilityGrantTemplate.normalize. cbn. f_equal.
  - apply sort_rank_idem. by intros [] [].
  - apply sort_schemas_idem.
  - apply sort_rank_idem. by intros [] [].
  - apply sort_bytes_idem.
Qed.

Lemma template_normalize_typed g : template_typed g -> template_typed (CapabilityGrantTemplate.normalize g).
Proof.
  intros []. constructor; try done. cbn. rewrite Forall_forall in *. intros r Hr.
  apply template_roles0. by rewrite sort_bytes_perm in Hr.
Qed.

Section Templates.
Context `{Sha256} `{Ed25519} `{HalfFloat} `{!Noise}.

Lemma optional_unsigned_normal o : optional_unsigned_from (normalize (optional_unsigned o)) = Ok o.
Proof. by destruct o. Qed.

Lemma integer_normal v : in_i 64 v -> integer (normalize (Integer v)) = Ok v.
Proof.
  intros Hv. cbn. destruct (0 <=? v); [|done]. cbn. by rewrite (proj2 (checked_i64_Some v v)).
Qed.

Lemma optional_integer_normal o :
  opt (in_i 64) o -> optional_integer_from (normalize (optional_integer o)) = Ok o.
Proof.
  destruct o as [v|]; [|done]. intros Hv. cbn [optional_integer opt] in *. unfold optional_integer_from.
  pose proof (integer_normal v Hv) as E.
  cbn [normalize] in *. destruct (0 <=? v); by rewrite E.
Qed.

Lemma array_of_normal {A} (g : A -> CV) (f : CV -> result PairingError A) l :
  (forall a, a ∈ l -> f (normalize (g a)) = Ok a) ->
  array_of f (normalize (Array (List.map g l))) = Ok l.
Proof.
  intros Hf. unfold array_of. cbn [normalize array]. rewrite List.map_map.
  rewrite <- (List.map_id l) at 2. by apply (collect_map_ok (fun a => normalize (g a))).
Qed.

(** The values of a template in key order. *)
Definition template_values (g : CapabilityGrantTemplate.t) : list CV :=
  [Array (List.map (fun action => Unsigned (action_code action)) (CapabilityGrantTemplate.actions g));
   Array (List.map (fun schema => Text (EntitySchema.as_str schema)) (CapabilityGrantTemplate.schemas g));
   Array (List.map (fun visibility => Unsigned (visibility_code visibility))
     (CapabilityGrantTemplate.visibilities g));
   Array (List.map Text (CapabilityGrantTemplate.content_roles g));
   optional_unsigned (CapabilityGrantTemplate.max_resource_byte_length g);
   optional_integer (CapabilityGrantTemplate.not_before_unix_ms g);
   optional_integer (CapabilityGrantTemplate.expires_at_unix_ms g);
   Unsigned (CapabilityGrantTemplate.delegation_depth g);
   Text (CapabilityGrantTemplate.label g)].

Lemma template_value_indexed g :
  CapabilityGrantTemplate.canonical_value g = indexed (template_values g).
Proof. done. Qed.

(** A canonical template decodes to itself. *)
Lemma template_roundtrip g :
  template_typed g -> CapabilityGrantTemplate.normalize g = g ->
  CapabilityGrantTemplate.from_canonical (normalize (CapabilityGrantTemplate.canonical_value g)) = Ok g.
Proof.
  intros [] Hn. rewrite template_value_indexed, normalize_indexed by (cbn; lia).
  destruct (exact_map_indexed (List.map normalize (template_values g)) 9 eq_refl) as (m & Hm & Hl).
  unfold CapabilityGrantTemplate.from_canonical. rewrite Hm.
  run_take Hl 0%nat. rewrite array_of_normal by (by intros [] _).
  run_take Hl 1%nat. rewrite array_of_normal
    by (intros x _; cbn; unfold schema_from_text; by rewrite parse_as_str).
  run_take Hl 2%nat. rewrite array_of_normal by (by intros [] _).
  run_take Hl 3%nat. rewrite array_of_normal by done.
  run_take Hl 4%nat. rewrite optional_unsigned_normal.
  run_take Hl 5%nat. rewrite optional_integer_normal by done.
  run_take Hl 6%nat. rewrite optional_integer_normal by done.
  run_take Hl 7%nat. cbn [normalize unsigned]. rewrite (proj2 (checked_u_Some 8 _ _)) by done. cbn [ok_or].
  run_take Hl 8%nat. cbn [normalize text].
  replace (CapabilityGrantTemplate.mk _ _ _ _ _ _ _ _ _) with g by by destruct g.
  rewrite Hn. by rewrite bool_decide_eq_true_2.
Qed.

(** ** Descriptors *)
Definition descriptor_values (d : InvitationDescriptor.t) : list CV :=
  [Unsigned PAIRING_PROTOCOL_VERSION; Unsigned INVITATION_VERSION;
   Bytes (InvitationDescriptor.invitation_id d); Text NOISE_PROTOCOL_NAME;
   Bytes (InvitationDescriptor.responder_node_id d);
   Bytes (InvitationDescriptor.responder_noise_static d);
   Bytes (InvitationDescriptor.space_id d);
   Bytes (InvitationDescriptor.genesis_operation_id d);
   Integer (InvitationDescriptor.expires_at_unix_ms d);
   Array (List.map Text (InvitationDescriptor.endpoint_hints d));
   CapabilityGrantTemplate.canonical_value (InvitationDescriptor.capability d);
   Bytes (InvitationDescriptor.secret_commitment d)].

Lemma descriptor_value_indexed d :
  InvitationDescriptor.canonical_value d = indexed (descriptor_values d).
Proof. done. Qed.

(** Decoding a descriptor's canonical form is validating it. *)
Lemma descriptor_roundtrip d :
  descriptor_typed d -> CapabilityGrantTemplate.normalize (InvitationDescriptor.capability d)
    = InvitationDescriptor.capability d ->
  InvitationDescriptor.from_canonical (normalize (InvitationDescriptor.canonical_value d))
  = (check InvitationDescriptor.validate d; Ok d).
Proof.
  intros [] Hn. rewrite descriptor_value_indexed, normalize_indexed by (cbn; lia).
  destruct (exact_map_indexed (List.map normalize (descriptor_values d)) 12 eq_refl) as (m & Hm & Hl).
  unfold InvitationDescriptor.from_canonical. rewrite Hm.
  run_take Hl 0%nat. cbn [normalize unsigned]. rewrite (proj2 (require_version_Ok _ _)) by done.
  run_take Hl 1%nat. cbn [normalize unsigned]. rewrite (proj2 (require_version_Ok _ _)) by done.
  run_fixed Hl 2%nat descriptor_invitation0.
  run_fixed Hl 4%nat descriptor_responder0.
  run_fixed Hl 5%nat descriptor_noise0.
  run_fixed Hl 6%nat descriptor_space0.
  run_fixed Hl 7%nat descriptor_genesis0.
  run_take Hl 8%nat. rewrite integer_normal by done.
  run_take Hl 9%nat. rewrite array_of_normal by done.
  run_take Hl 10%nat. rewrite template_roundtrip by done.
  run_fixed Hl 11%nat descriptor_commitment0.
  run_take Hl 3%nat. cbn [normalize text].
  rewrite (proj2 (negb_list_eqb _ _)) by done.
  by replace (InvitationDescriptor.mk _ _ _ _ _ _ _ _ _) with d by by destruct d.
Qed.
End Templates.

Section Descriptors.
Context `{Sha256} `{Ed25519} `{HalfFloat} `{!Noise}.

Lemma wf_texts l : Forall utf8 l -> wf (Array (List.map Text l)).
Proof. intros Hl. apply wf_Array. intros v (t & -> & Ht)%list_elem_of_fmap. rewrite Forall_forall in Hl. by apply Hl. Qed.

Lemma wf_codes {A} (code : A -> Z) l : (forall a, in_u 64 (code a)) -> wf (Array (List.map (fun a => Unsigned (code a)) l)).
Proof. intros Hc. apply wf_Array. intros v (a & -> & _)%list_elem_of_fmap. apply Hc. Qed.

Lemma template_wf g : template_typed g -> wf (CapabilityGrantTemplate.canonical_value g).
Proof.
  intros []. rewrite template_value_indexed. apply wf_indexed; [cbn; lia|].
  unfold template_values. intros v Hv.
  repeat (apply elem_of_cons in Hv as [->|Hv]); [..|by apply not_elem_of_nil in Hv].
  - apply wf_codes. intros []; cbn; unfold in_u; lia.
  - rewrite <- List.map_map. apply wf_texts, Forall_forall. intros t (x & -> & _)%list_elem_of_fmap.
    split; [apply (bool_decide_eq_true_1 (Forall is_byte _))|]; by destruct x.
  - apply wf_codes. intros []; cbn; unfold in_u; lia.
  - by apply wf_texts.
  - by destruct (CapabilityGrantTemplate.max_resource_byte_length g).
  - by destruct (CapabilityGrantTemplate.not_before_unix_ms g).
  - by destruct (CapabilityGrantTemplate.expires_at_unix_ms g).
  - cbn. unfold in_u in *. lia.
  - done.
Qed.

Lemma descriptor_wf d : descriptor_typed d -> wf (InvitationDescriptor.canonical_value d).
Proof.
  intros []. rewrite descriptor_value_indexed. apply wf_indexed; [cbn; lia|].
  unfold descriptor_values. intros v Hv.
  repeat (apply elem_of_cons in Hv as [->|Hv]); [..|by apply not_elem_of_nil in Hv];
    try done; try (cbn; unfold in_u, PAIRING_PROTOCOL_VERSION, INVITATION_VERSION; lia);
    try (match goal with Hf : fixed _ ?b |- wf (Bytes ?b) => apply Hf end).
  - split; [by apply (bool_decide_eq_true_1 (Forall is_byte _))|done].
  - by apply wf_texts.
  - by apply template_wf.
Qed.

Lemma descriptor_bytes_iff d bytes :
  descriptor_typed d ->
  InvitationDescriptor.canonical_bytes d = Ok bytes
  <-> within_limits 0 (InvitationDescriptor.canonical_value d)
      /\ bytes = wire (InvitationDescriptor.canonical_value d)
      /\ Z.of_nat (length bytes) <= MAX_CANONICAL_MESSAGE_BYTES.
Proof.
  intros Ht. unfold InvitationDescriptor.canonical_bytes, ensure_canonical_bound.
  pose proof (fun b => to_canonical_cbor_Ok _ b (descriptor_wf d Ht)) as Hc.
  destruct (to_canonical_cbor _) as [b|]; cbn [map_err].
  - destruct (proj1 (Hc b) eq_refl) as (Hl & -> & Hf).
    destruct (Z.ltb_spec MAX_CANONICAL_MESSAGE_BYTES
      (Z.of_nat (length (wire (InvitationDescriptor.canonical_value d))))) as [Hb|Hb].
    + split; [done|]. intros (_ & -> & ?). lia.
    + split; [intros E; apply Ok_inj in E as <-; done|]. by intros (_ & -> & _).
  - split; [done|]. intros (Hl & -> & Hb).
    assert (Hf : fits (wire (InvitationDescriptor.canonical_value d))).
    { clear - Hb. unfold fits, MAX_CANONICAL_BYTES. unfold MAX_CANONICAL_MESSAGE_BYTES in Hb. lia. }
    discriminate (proj2 (Hc _) (conj Hl (conj eq_refl Hf))).
Qed.
End Descriptors.

(** ** The descriptor's checks *)
Section Validation.
Context `{Sha256} `{Ed25519} `{HalfFloat} `{!Noise}.
Import InvitationDescriptor.

Record descriptor_valid (d : t) : Prop := {
  valid_responder : strong_key (responder_node_id d);
  valid_invitation : invitation_id d <> replicate INVITATION_ID_BYTES 0;
  valid_noise : responder_noise_static d <> replicate DIGEST_BYTES 0;
  valid_expires : 0 <= expires_at_unix_ms d;
  valid_hints : validate_endpoint_hints (endpoint_hints d) = Ok tt;
  valid_capability : is_ok (CapabilityGrantTemplate.to_grant (capability d) (responder_node_id d)) = true;
  valid_limits : within_limits 0 (canonical_value d);
  valid_size : Z.of_nat (length (wire (canonical_value d))) <= MAX_CANONICAL_MESSAGE_BYTES
}.

Lemma descriptor_validate_iff d : descriptor_typed d -> validate d = Ok tt <-> descriptor_valid d.
Proof.
  intros Ht. unfold validate, parse_space_id.
  rewrite (proj2 (parse_prefixed_hex_display (display_id SPACE_PREFIX (space_id d)) SPACE_PREFIX (space_id d)))
    by (split; [apply Ht|done]). cbn [map_err].
  pose proof (descriptor_bytes_iff d (wire (canonical_value d)) Ht) as Hb.
  pose proof (fun b => proj1 (descriptor_bytes_iff d b Ht)) as Hb'.
  split.
  - intros Hv. inv_ok. bool_prop.
    apply public_key_Ok in E6 as [_ ?]. destruct (Hb' _ eq_refl) as (? & -> & ?).
    constructor; try done.
    + intros En. by rewrite (proj2 (list_eqb_eq _ _) En) in E0.
    + intros En. by rewrite (proj2 (list_eqb_eq _ _) En) in E1.
    + by rewrite E4.
  - intros []. rewrite (proj2 (public_key_Ok _ _)) by done. cbn [map_err].
    destruct (list_eqb (invitation_id d) _) eqn:E; [by apply list_eqb_eq in E|].
    destruct (list_eqb (responder_noise_static d) _) eqn:E'; [by apply list_eqb_eq in E'|].
    rewrite (proj2 (Z.ltb_ge _ _)) by done. rewrite valid_hints0.
    destruct (CapabilityGrantTemplate.to_grant _ _); [|done].
    by rewrite (proj2 Hb).
Qed.
End Validation.

(** ** The space of a descriptor *)

(** The descriptor with its space replaced. *)
Definition with_space (d : InvitationDescriptor.t) (space : list Z) : InvitationDescriptor.t :=
  InvitationDescriptor.mk (InvitationDescriptor.invitation_id d)
    (InvitationDescriptor.responder_node_id d) (InvitationDescriptor.responder_noise_static d) space
    (InvitationDescriptor.genesis_operation_id d) (InvitationDescriptor.expires_at_unix_ms d)
    (InvitationDescriptor.endpoint_hints d) (InvitationDescriptor.capability d)
    (InvitationDescriptor.secret_commitment d).

Section Invitations.
Context `{Sha256} `{Ed25519} `{HalfFloat} `{!Noise}.

Lemma wire_indexed_length vs ws :
  (length vs <= 24)%nat -> Forall2 (fun v w => length (wire v) = length (wire w)) vs ws ->
  length (wire (indexed vs)) = length (wire (indexed ws)).
Proof.
  intros Hl Hw. pose proof (Forall2_length _ _ _ Hw) as Hlen. rewrite !wire_indexed by lia.
  rewrite !length_app, Hlen. f_equal. clear Hl Hlen. generalize 0.
  induction Hw as [|v w vs ws Hvw _ IH]; intros k; [done|].
  cbn [index_from List.map concat fst snd]. rewrite !length_app, Hvw. f_equal. apply IH.
Qed.

(** Flat values do not matter for the limits. *)
Lemma limits_indexed_flat vs ws :
  (length vs <= 24)%nat -> Forall2 (fun v w => v = w \/ flat v = true /\ flat w = true) vs ws ->
  within_limits 0 (indexed vs) <-> within_limits 0 (indexed ws).
Proof.
  intros Hl Hw. pose proof (Forall2_length _ _ _ Hw) as Hlen. rewrite !within_limits_indexed by lia.
  assert (Hd : 0 + 1 <= MAX_CANONICAL_DEPTH) by (unfold MAX_CANONICAL_DEPTH; lia).
  enough (E : (forall v, v ∈ vs -> within_limits (0 + 1) v) <-> (forall w, w ∈ ws -> within_limits (0 + 1) w))
    by tauto.
  clear Hl Hlen. rewrite <- !Forall_forall. induction Hw as [|v w vs ws Hvw _ IH]; [by rewrite !Forall_nil|].
  rewrite !Forall_cons, IH. destruct Hvw as [->|[? ?]]; [done|].
  split; (intros [_ ?]; split; [by apply within_limits_flat|done]).
Qed.

(** The space identity of an invitation is not checked.  Validation accepts or
    refuses a descriptor whatever 32 bytes its space is, the all-zero identity that
    [SpaceId::validate] refuses included. *)
Theorem invitation_space_unchecked (d : InvitationDescriptor.t) (space : list Z) :
  descriptor_typed d -> fixed 32 space ->
  InvitationDescriptor.validate (with_space d space) = Ok tt <-> InvitationDescriptor.validate d = Ok tt.
Proof.
  intros Ht Hs.
  assert (Ht' : descriptor_typed (with_space d space)) by (destruct Ht; by constructor).
  rewrite !descriptor_validate_iff by done.
  assert (Hlen : length (wire (InvitationDescriptor.canonical_value (with_space d space)))
               = length (wire (InvitationDescriptor.canonical_value d))).
  { rewrite !descriptor_value_indexed. apply wire_indexed_length; [cbn; lia|].
    unfold descriptor_values.
    repeat (constructor; [try done|]); [|constructor].
    cbn [wire with_space InvitationDescriptor.space_id]. destruct Hs as [Hs _], (descriptor_space d Ht) as [Hd _].
    by rewrite !length_app, Hs, Hd. }
  assert (Hlim : within_limits 0 (InvitationDescriptor.canonical_value (with_space d space))
             <-> within_limits 0 (InvitationDescriptor.canonical_value d)).
  { rewrite !descriptor_value_indexed. apply limits_indexed_flat; [cbn; lia|].
    unfold descriptor_values. repeat (constructor; [by left|]).
    constructor; [by right|]. repeat (constructor; [by left|]). constructor. }
  split; intros []; constructor; try done; try (by apply Hlim); lia.
Qed.
End Invitations.

(** ** The QR text and issuing *)
Section Issuing.
Context `{Sha256} `{Ed25519} `{HalfFloat} `{Base64} `{!Noise}.
Import PairingInvitation.

Definition qr_values (i : t) : list CV :=
  [InvitationDescriptor.canonical_value (descriptor i); Bytes (signature i); Bytes (one_time_secret i)].

Lemma qr_value_indexed i : qr_value i = indexed (qr_values i).
Proof. done. Qed.

Lemma qr_wf i : invitation_typed i -> wf (qr_value i).
Proof.
  intros []. rewrite qr_value_indexed. apply wf_indexed; [cbn; lia|].
  intros v [->|[->|[->|Hv]%elem_of_cons]%elem_of_cons]%elem_of_cons; [by apply descriptor_wf|..].
  - apply invitation_signature0.
  - apply invitation_secret0.
  - by apply not_elem_of_nil in Hv.
Qed.

(** What [decode] does with the decoded map. *)
Definition decode_map (map : Fields) (now : Z) : result PairingError t :=
  let? (descriptor, map) := take_as InvitationDescriptor.from_canonical map 0 in
  let? (signature, map) := take_as (fixed_bytes 64) map 1 in
  let? (one_time_secret, map) := take_as (fixed_bytes 32) map 2 in
  let invitation := mk descriptor signature one_time_secret in
  check verify invitation now;
  Ok invitation.

Lemma decode_map_normal i now m :
  invitation_typed i ->
  CapabilityGrantTemplate.normalize (InvitationDescriptor.capability (descriptor i))
  = InvitationDescriptor.capability (descriptor i) ->
  (forall k : nat, m !! Z.of_nat k = List.map normalize (qr_values i) !! k) ->
  decode_map m now = (check verify i now; Ok i).
Proof.
  intros [] Hn Hl. unfold decode_map.
  run_take Hl 0%nat. rewrite descriptor_roundtrip by done.
  destruct (InvitationDescriptor.validate (descriptor i)) as [[]|e] eqn:Ev;
    [|unfold verify; by rewrite Ev].
  run_fixed Hl 1%nat invitation_signature0.
  run_fixed Hl 2%nat invitation_secret0.
  by destruct i.
Qed.

(** Scanning the printed text of an invitation gives the verdict of verifying
    it, and gives the invitation itself when that succeeds: no field is lost or
    changed between [to_qr_string] and [decode], the only errors left are those of
    [verify]. *)
Theorem qr_roundtrip (i : t) (s : list Z) (now : Z) :
  invitation_typed i ->
  CapabilityGrantTemplate.normalize (InvitationDescriptor.capability (descriptor i))
  = InvitationDescriptor.capability (descriptor i) ->
  to_qr_string i = Ok s -> decode s now = (check verify i now; Ok i).
Proof.
  intros Ht Hn Hs. unfold to_qr_string in Hs.
  destruct (to_canonical_cbor (qr_value i)) as [bytes|] eqn:Ec; cbn [map_err] in Hs; [|done].
  destruct (MAX_QR_CBOR_BYTES <? _) eqn:Eb; [done|]. apply Ok_inj in Hs as <-.
  apply to_canonical_cbor_roundtrip in Ec as (Ed & Hby & _); [|by apply qr_wf].
  unfold decode. rewrite (proj2 (strip_prefix_spec QR_PREFIX _ (base64_encode bytes)) eq_refl). cbn [ok_or].
  rewrite base64_decode_encode by done. cbn [ok_or]. rewrite Eb, Ed. cbn [map_err].
  rewrite qr_value_indexed, normalize_indexed by (cbn; lia).
  destruct (exact_map_indexed (List.map normalize (qr_values i)) 3 eq_refl) as (m & Hm & Hl).
  rewrite Hm. by apply decode_map_normal.
Qed.

(** ** Issuing *)
Record parameters_typed (p : InvitationParameters) (m : InvitationMaterial) : Prop := {
  parameters_space : fixed 32 (space_id p);
  parameters_genesis : fixed 32 (genesis_operation_id p);
  parameters_expires : in_i 64 (expires_at_unix_ms p);
  parameters_hints : Forall utf8 (endpoint_hints p);
  parameters_capability : template_typed (capability p);
  material_invitation : fixed 16 (material_invitation_id m);
  material_secret : fixed 32 (material_one_time_secret m)
}.

Lemma descriptor_of_typed key p m : parameters_typed p m -> descriptor_typed (descriptor_of key p m).
Proof.
  intros []. constructor; cbn; try done.
  - apply verifying_key_fixed.
  - apply x25519_base_fixed.
  - by apply template_normalize_typed.
  - apply sha256_fixed.
Qed.

Lemma descriptor_valid_bytes d :
  descriptor_typed d -> InvitationDescriptor.validate d = Ok tt ->
  InvitationDescriptor.canonical_bytes d = Ok (wire (InvitationDescriptor.canonical_value d)).
Proof.
  intros Ht Hv. apply descriptor_validate_iff in Hv as []; [|done]. by apply descriptor_bytes_iff.
Qed.

Lemma descriptor_valid_digest d :
  descriptor_typed d -> InvitationDescriptor.validate d = Ok tt ->
  InvitationDescriptor.digest d = Some (sha256 (wire (InvitationDescriptor.canonical_value d))).
Proof. intros Ht Hv. unfold InvitationDescriptor.digest. by rewrite descriptor_valid_bytes. Qed.

(** The invitation and the secret that issuing makes of a valid descriptor. *)
Definition issued_of (key : list Z) (p : InvitationParameters) (m : InvitationMaterial) : IssuedInvitation :=
  let d := descriptor_of key p m in
  let bytes := wire (InvitationDescriptor.canonical_value d) in
  mkIssued (mk d (sign_detached key PairingInvitationV1 bytes) (material_one_time_secret m))
    (ResponderInvitationSecret.mk (material_invitation_id m) (sha256 bytes) (material_one_time_secret m)
       (noise_private m)).

Lemma issue_valid key p m :
  parameters_typed p m ->
  issue_with_material key p m
  = Some (check validate_lifetime (now_unix_ms p) (expires_at_unix_ms p);
          check InvitationDescriptor.validate (descriptor_of key p m);
          Ok (issued_of key p m)).
Proof.
  intros Ht. unfold issue_with_material. destruct (validate_lifetime _ _); [|done].
  destruct (InvitationDescriptor.validate _) as [[]|] eqn:Ev; [|done].
  pose proof (descriptor_of_typed key p m Ht) as Hd.
  by rewrite descriptor_valid_bytes, descriptor_valid_digest.
Qed.

Lemma issued_verify key p m now :
  parameters_typed p m -> InvitationDescriptor.validate (descriptor_of key p m) = Ok tt ->
  verify (invitation (issued_of key p m)) now = Ok tt <-> 0 <= now < expires_at_unix_ms p.
Proof.
  intros Ht Hv. pose proof (descriptor_of_typed key p m Ht) as Hd. unfold verify. cbn [invitation issued_of descriptor].
  rewrite Hv. cbn [InvitationDescriptor.expires_at_unix_ms descriptor_of].
  destruct (_ || _) eqn:E; [split; [done|]; rewrite orb_true_iff, Z.ltb_lt, Z.leb_le in E; lia|].
  bool_prop. cbn [one_time_secret InvitationDescriptor.secret_commitment].
  rewrite (proj2 (negb_list_eqb _ _)) by done.
  fold (descriptor_of key p m). rewrite descriptor_valid_bytes by done.
  change (InvitationDescriptor.responder_node_id (descriptor_of key p m)) with (signing_identity key).
  cbn [signature].
  pose proof (own_detached key PairingInvitationV1
    (wire (InvitationDescriptor.canonical_value (descriptor_of key p m)))) as Ho.
  apply descriptor_validate_iff in Hv as [[_ Hw] _ _ _ _ _ _ _]; [|done].
  cbn [descriptor_of InvitationDescriptor.responder_node_id] in Hw.
  rewrite (proj2 Ho Hw). cbn [map_err]. split; [lia|done].
Qed.

(** Issuing never panics.  It succeeds exactly for a lifetime of one second to
    ten minutes and a valid descriptor; the invitation it gives verifies from time
    zero until it expires, and not after. *)
Theorem issue_spec (key : list Z) (p : InvitationParameters) (m : InvitationMaterial) :
  parameters_typed p m ->
  exists r, issue_with_material key p m = Some r
    /\ (is_ok r = true
        <-> is_ok (validate_lifetime (now_unix_ms p) (expires_at_unix_ms p)) = true
            /\ InvitationDescriptor.validate (descriptor_of key p m) = Ok tt)
    /\ forall issued now, r = Ok issued ->
         descriptor (invitation issued) = descriptor_of key p m
         /\ (verify (invitation issued) now = Ok tt <-> 0 <= now < expires_at_unix_ms p).
Proof.
  intros Ht. rewrite issue_valid by done. eexists. split; [done|].
  destruct (validate_lifetime _ _) as [[]|]; cbn [is_ok]; [|split; [split; [done|intros [? _]; done]|done]].
  destruct (InvitationDescriptor.validate (descriptor_of key p m)) as [[]|] eqn:Ev;
    [|split; [split; [done|intros [_ ?]; done]|done]].
  split; [done|]. intros issued now Hr. apply Ok_inj in Hr as <-. split; [done|]. by apply issued_verify.
Qed.

(** Both ends of an issued invitation start the same handshake: the same
    pre-shared secret and the digest of the same descriptor as prologue, the joiner
    expecting the public key of the responder's private key. *)
Theorem issued_handshake (key : list Z) (p : InvitationParameters) (m : InvitationMaterial)
    (issued : IssuedInvitation) (now : Z) :
  parameters_typed p m -> issue_with_material key p m = Some (Ok issued) ->
  0 <= now < expires_at_unix_ms p ->
  exists digest,
    InvitationDescriptor.digest (descriptor_of key p m) = Some digest
    /\ start_initiator (invitation issued) now
       = Some (let? params := noise_params in
               let? b := map_err Noise_ (psk (builder_new params) 0 (material_one_time_secret m)) in
               let? b := map_err Noise_ (remote_public_key b (x25519_base (noise_private m))) in
               let? b := map_err Noise_ (prologue b digest) in
               map_err Noise_ (build_initiator b))
    /\ ResponderInvitationSecret.start_responder (secret issued)
       = (let? params := noise_params in
          let? b := map_err Noise_ (psk (builder_new params) 0 (material_one_time_secret m)) in
          let? b := map_err Noise_ (local_private_key b (noise_private m)) in
          let? b := map_err Noise_ (prologue b digest) in
          map_err Noise_ (build_responder b)).
Proof.
  intros Ht Hi Hnow. pose proof (descriptor_of_typed key p m Ht) as Hd.
  rewrite issue_valid in Hi by done. injection Hi as Hi.
  destruct (validate_lifetime _ _) as [[]|]; [|done].
  destruct (InvitationDescriptor.validate _) as [[]|] eqn:Ev; [|done]. apply Ok_inj in Hi as <-.
  eexists. split; [by apply descriptor_valid_digest|]. split; [|done].
  unfold start_initiator. rewrite (proj2 (issued_verify key p m now Ht Ev) Hnow).
  destruct noise_params; [|done]. cbn [invitation issued_of descriptor].
  rewrite descriptor_valid_digest by done. done.
Qed.
End Issuing.

(** ** The stored secret *)
Record secret_typed (s : ResponderInvitationSecret.t) : Prop := {
  secret_invitation : length (ResponderInvitationSecret.invitation_id s) = 16%nat;
  secret_digest : length (ResponderInvitationSecret.descriptor_digest s) = 32%nat;
  secret_one_time : length (ResponderInvitationSecret.one_time_secret s) = 32%nat;
  secret_private : length (ResponderInvitationSecret.noise_static_private s) = 32%nat
}.

Definition secret_usable (s : ResponderInvitationSecret.t) : Prop :=
  ResponderInvitationSecret.invitation_id s <> replicate INVITATION_ID_BYTES 0
  /\ ResponderInvitationSecret.one_time_secret s <> replicate SECRET_BYTES 0
  /\ ResponderInvitationSecret.noise_static_private s <> replicate SECRET_BYTES 0.

Section Secrets.
Context `{!Noise}.
Import ResponderInvitationSecret.

Lemma protected_store_split s :
  secret_typed s ->
  slice (protected_store_bytes s) 1 17 = invitation_id s
  /\ slice (protected_store_bytes s) 17 49 = descriptor_digest s
  /\ slice (protected_store_bytes s) 49 81 = one_time_secret s
  /\ slice (protected_store_bytes s) 81 113 = noise_static_private s.
Proof.
  intros [H1 H2 H3 H4]. unfold slice, protected_store_bytes.
  rewrite !app_assoc. cbn [Nat.sub].
  repeat split.
  - rewrite <- !app_assoc. change (drop 1 ([RESPONDER_SECRET_VERSION] ++ ?x)) with x.
    rewrite take_app_length'; [done|by rewrite H1].
  - rewrite <- !app_assoc, (app_assoc [RESPONDER_SECRET_VERSION]).
    rewrite drop_app_length' by (rewrite length_app, H1; done).
    rewrite take_app_length'; [done|by rewrite H2].
  - rewrite <- !app_assoc, (app_assoc [RESPONDER_SECRET_VERSION]), (app_assoc _ (descriptor_digest s)).
    rewrite drop_app_length' by (rewrite !length_app, H1, H2; done).
    rewrite take_app_length'; [done|by rewrite H3].
  - rewrite drop_app_length' by (rewrite !length_app, H1, H2, H3; done).
    rewrite take_ge; [done|by rewrite H4].
Qed.

(** The protected store holds a responder's secret exactly: 113 bytes read back
    as a secret exactly when they are what [protected_store_bytes] writes for a secret
    whose identity and keys are not all zero. *)
Theorem responder_secret_store (bytes : list Z) (s : t) :
  from_protected_store_bytes bytes = Ok s
  <-> secret_typed s /\ secret_usable s /\ bytes = protected_store_bytes s.
Proof.
  unfold from_protected_store_bytes. split.
  - destruct (_ || _) eqn:E; [done|]. bool_prop. destruct bytes as [|v bytes]; [done|].
    cbn [nth] in *. destruct (_ || _) eqn:Ez; [done|]. bool_prop. rewrite !list_eqb_neq in *.
    intros Hs. apply Ok_inj in Hs. subst s. cbn [length] in H0. unfold RESPONDER_SECRET_BYTES in *.
    assert (Hl : length bytes = 112%nat) by (change (S (length bytes) = 113%nat) in H0; lia).
    split; [constructor; cbn [invitation_id descriptor_digest one_time_secret noise_static_private];
      unfold slice; rewrite length_firstn, length_skipn; cbn [length]; lia|].
    split; [by repeat split|]. unfold protected_store_bytes, slice.
    cbn [invitation_id descriptor_digest one_time_secret noise_static_private Nat.sub].
    subst v. cbn [skipn app]. f_equal.
    rewrite drop_0, <- (take_drop 16 bytes) at 1. f_equal.
    rewrite <- (take_drop 32 (drop 16 bytes)) at 1. rewrite drop_drop. f_equal.
    rewrite <- (take_drop 32 (drop (16 + 32) bytes)) at 1. rewrite drop_drop. f_equal.
    rewrite take_ge; [done|]. rewrite length_drop. cbn. lia.
  - intros (Ht & Hu & ->). destruct (protected_store_split s Ht) as (E1 & E2 & E3 & E4).
    rewrite E1, E2, E3, E4. destruct Ht as [H1 H2 H3 H4], Hu as (U1 & U2 & U3).
    assert (El : length (protected_store_bytes s) = RESPONDER_SECRET_BYTES).
    { unfold protected_store_bytes. by rewrite !length_app, H1, H2, H3, H4. }
    rewrite El, Nat.eqb_refl. cbn [negb orb]. change (nth 0 (protected_store_bytes s) 0) with RESPONDER_SECRET_VERSION.
    rewrite Z.eqb_refl. cbn [negb invitation_id one_time_secret noise_static_private].
    apply list_eqb_neq in U1, U2, U3. rewrite U1, U2, U3. cbn [orb]. by destruct s.
Qed.
End Secrets.

(** ** The confirmation code *)
Fixpoint octal_value (digits : list Z) (acc : Z) : Z :=
  match digits with [] => acc | d :: digits => octal_value digits (8 * acc + (d - 48)) end.

Definition is_octal_char (c : Z) : Prop := 48 <= c <= 55.

Lemma octal_digits_spec fuel : forall value acc,
  0 <= value < 8 ^ Z.of_nat fuel -> (0 < fuel)%nat ->
  exists digits, octal_digits fuel value acc = digits ++ acc
    /\ Forall is_octal_char digits /\ octal_value digits 0 = value
    /\ (length digits <= fuel)%nat /\ (forall n, value < 8 ^ Z.of_nat n -> (0 < n)%nat -> (length digits <= n)%nat).
Proof.
  assert (Happ : forall a b acc, octal_value (a ++ b) acc = octal_value b (octal_value a acc)).
  { induction a as [|d a IH]; intros b acc; [done|]. cbn. apply IH. }
  induction fuel as [|fuel IH]; intros value acc Hv Hf; [lia|]. cbn [octal_digits].
  pose proof (Z.mod_pos_bound value 8 ltac:(lia)) as Hm. pose proof (Z.div_mod value 8 ltac:(lia)) as Hdm.
  destruct (Z.eqb_spec (value / 8) 0) as [E|E].
  - exists [48 + value mod 8]. split; [done|]. split; [constructor; [unfold is_octal_char; lia|constructor]|].
    split; [cbn; lia|]. split; [cbn; lia|]. intros n _ Hn. cbn. lia.
  - assert (0 <= value / 8) by (apply Z.div_pos; lia).
    assert (Hq : 0 <= value / 8 < 8 ^ Z.of_nat fuel).
    { split; [done|]. apply Z.div_lt_upper_bound; [lia|]. rewrite Nat2Z.inj_succ, Z.pow_succ_r in Hv; lia. }
    assert (Hf' : (0 < fuel)%nat) by (destruct fuel; [cbn in Hq; lia|lia]).
    destruct (IH (value / 8) (48 + value mod 8 :: acc) Hq Hf') as (ds & -> & Hc & Hval & Hl & Hn).
    exists (ds ++ [48 + value mod 8]). rewrite <- app_assoc. split; [done|].
    split; [apply Forall_app; split; [done|]; constructor; [unfold is_octal_char; lia|constructor]|].
    split; [rewrite Happ, Hval; cbn; lia|]. rewrite length_app. cbn [length].
    split; [lia|]. intros n Hvn Hn0. destruct n as [|n]; [lia|].
    assert (Hvn' : value / 8 < 8 ^ Z.of_nat n).
    { apply Z.div_lt_upper_bound; [lia|]. rewrite Nat2Z.inj_succ, Z.pow_succ_r in Hvn; lia. }
    destruct n as [|n]; [cbn in Hvn'; lia|]. specialize (Hn (S n) Hvn' ltac:(lia)). lia.
Qed.

Section Confirmation.
Context `{Sha256}.

(** The confirmation code people compare is ten octal digits: the first 30 bits
    of the domain-separated digest of the handshake hash. *)
Theorem confirmation_octal_spec (handshake_hash : list Z) :
  length (confirmation_octal handshake_hash) = 10%nat
  /\ Forall is_octal_char (confirmation_octal handshake_hash)
  /\ octal_value (confirmation_octal handshake_hash) 0
     = from_be (firstn 4 (sha256 (CONFIRMATION_DOMAIN ++ handshake_hash))) / 4.
Proof.
  unfold confirmation_octal.
  set (digest := sha256 _). destruct (sha256_fixed (CONFIRMATION_DOMAIN ++ handshake_hash)) as [Hl Hb].
  fold digest in Hl, Hb.
  pose proof (from_be_bound (firstn 4 digest) ltac:(by apply Forall_take)) as Hv.
  rewrite length_firstn, Hl in Hv. change (256 ^ Z.of_nat (4 `min` 32)) with 4294967296 in Hv.
  set (v := from_be (firstn 4 digest)) in *. rewrite Z.shiftr_div_pow2 by lia. change (2 ^ 2) with 4.
  assert (Hq : 0 <= v / 4 < 2 ^ 30)
    by (split; [apply Z.div_pos; lia|apply Z.div_lt_upper_bound; [lia|]; change (4 * 2 ^ 30) with 4294967296; lia]).
  unfold format_octal10.
  destruct (octal_digits_spec 11 (v / 4) []) as (ds & -> & Hc & Hval & _ & Hn);
    [change (8 ^ Z.of_nat 11) with 8589934592; lia|lia|].
  specialize (Hn 10%nat ltac:(change (8 ^ Z.of_nat 10) with (2 ^ 30); lia) ltac:(lia)).
  rewrite app_nil_r. split; [rewrite length_app, length_replicate; lia|].
  split; [apply Forall_app; split; [apply Forall_replicate; unfold is_octal_char; lia|done]|].
  rewrite <- Hval. generalize (10 - length ds)%nat. intros n. clear. induction n as [|n IH]; [done|]. exact IH.
Qed.
End Confirmation.

(** ** Witnesses *)
Lemma sample_parameters_typed : parameters_typed sample_parameters sample_material.
Proof.
  assert (Hu : forall s, bool_decide (Forall is_byte s) && valid_utf8 s = true -> utf8 s).
  { intros s Hs. bool_prop. done. }
  constructor; try (apply (bool_decide_eq_true_1 (fixed _ _)); vm_compute; reflexivity).
  - split; vm_compute; [discriminate|reflexivity].
  - constructor; [by apply Hu; vm_compute|constructor].
  - constructor; cbn; try done; try (unfold in_u, in_i; lia). by apply Hu; vm_compute.
Qed.

Lemma sample_descriptor_typed : descriptor_typed sample_descriptor.
Proof. apply descriptor_of_typed, sample_parameters_typed. Qed.

Lemma sample_descriptor_valid : InvitationDescriptor.validate sample_descriptor = Ok tt.
Proof. by_vm. Qed.

Definition sample_issued : PairingInvitation.IssuedInvitation :=
  issued_of host_seed sample_parameters sample_material.

Lemma sample_issue :
  PairingInvitation.issue_with_material host_seed sample_parameters sample_material = Some (Ok sample_issued).
Proof. by_vm. Qed.

Lemma sample_invitation_typed : invitation_typed (PairingInvitation.invitation sample_issued).
Proof.
  constructor; [apply sample_descriptor_typed|apply sign_detached_fixed|].
  apply sample_parameters_typed.
Qed.

Lemma invitation_space_unchecked_witness :
  InvitationDescriptor.validate (with_space sample_descriptor (replicate 32 0)) = Ok tt
  /\ space_id_validate (replicate 32 0) = Err NilSpaceId.
Proof.
  split; [|reflexivity].
  apply (invitation_space_unchecked sample_descriptor (replicate 32 0) sample_descriptor_typed
           (replicate_zero_fixed 32)).
  exact sample_descriptor_valid.
Defined.

Lemma sample_qr_encodes :
  is_ok (PairingInvitation.to_qr_string (PairingInvitation.invitation sample_issued)) = true.
Proof. by_vm. Qed.

Lemma qr_roundtrip_witness :
  exists s, PairingInvitation.to_qr_string (PairingInvitation.invitation sample_issued) = Ok s
    /\ PairingInvitation.decode s 1784265700000 = Ok (PairingInvitation.invitation sample_issued).
Proof.
  pose proof sample_qr_encodes as Hok.
  destruct (PairingInvitation.to_qr_string (PairingInvitation.invitation sample_issued)) as [s|] eqn:E;
    [|discriminate Hok].
  exists s. split; [reflexivity|].
  rewrite (qr_roundtrip _ s 1784265700000 sample_invitation_typed eq_refl E).
  assert (Hv : PairingInvitation.verify (PairingInvitation.invitation sample_issued) 1784265700000 = Ok tt).
  { apply (issued_verify host_seed sample_parameters sample_material 1784265700000
      sample_parameters_typed sample_descriptor_valid). cbn. lia. }
  rewrite Hv. reflexivity.
Defined.

Lemma issue_spec_witness :
  exists r, PairingInvitation.issue_with_material host_seed sample_parameters sample_material = Some r
    /\ is_ok r = true.
Proof.
  destruct (issue_spec host_seed sample_parameters sample_material sample_parameters_typed) as (r & Hr & Hok & _).
  exists r. split; [exact Hr|]. apply Hok. split; [reflexivity|exact sample_descriptor_valid].
Defined.

Lemma issued_handshake_witness :
  exists digest, InvitationDescriptor.digest sample_descriptor = Some digest
    /\ PairingInvitation.start_initiator (PairingInvitation.invitation sample_issued) 1784265700000
       = Some (Ok (mkToyHandshake (replicate 32 5 ++ replicate 32 6 ++ digest) 0))
    /\ ResponderInvitationSecret.start_responder (PairingInvitation.secret sample_issued)
       = Ok (mkToyHandshake (replicate 32 5 ++ replicate 32 6 ++ digest) 0).
Proof.
  destruct (issued_handshake host_seed sample_parameters sample_material sample_issued 1784265700000
    sample_parameters_typed sample_issue ltac:(cbn; lia)) as (digest & Hd & Hi & Hr).
  exists digest. split; [exact Hd|]. rewrite Hi, Hr. split; reflexivity.
Defined.
