(* ===== verification/Application.v ===== *)
(** * Application use cases (crates/fractonica-application/src/lib.rs)

    Requests, results and errors of the operation repository, the repository port as
    a class over an abstract store, and the service that validates requests before
    they reach it.  A port method that writes returns the next store.  Identifiers
    are their bytes; a formatted error text is its template or the error it prints. *)
From S2P Require Import Prelude Bytes Floats Crypto Content Cbor Trust DataModel CanonicalBody Envelope.
From S2P Require Import Authorization Peer.

Definition DEFAULT_CHANGE_LIMIT : Z := 100.
Definition MAX_CHANGE_LIMIT : Z := 200.
Definition MAX_SPACE_DISPLAY_NAME_CHARS : Z := 128.
Definition MAX_ENTITY_HEADS : Z := 64.
Definition MAX_AVAILABILITY_CONTENT_IDS : Z := 256.
Definition DEFAULT_CLIENT_QUERY_LIMIT : Z := 50.
Definition MAX_CLIENT_QUERY_LIMIT : Z := 200.

(** ** Requests and results *)
Section Types.
Context `{JsonNumber}.

Record StoredOperation : Type := mkStored {
  local_sequence : Z;
  received_at_unix_ms : Z;
  operation : OperationEnvelope.t
}.

Record SubmitOperationRequest : Type := mkSubmit {
  submit_operation_ : OperationEnvelope.t;
  submit_received_at_unix_ms : Z
}.

Record SubmitOperationResult : Type := mkSubmitResult {
  submitted : StoredOperation;
  submit_replayed : bool
}.

Record TrustedSpaceBootstrapRequest : Type := mkBootstrap {
  bootstrap_display_name : list Z;
  genesis : OperationEnvelope.t;
  initial_grant : OperationEnvelope.t;
  bootstrap_received_at_unix_ms : Z
}.
End Types.

Record SpaceDescriptor : Type := mkSpace {
  descriptor_space_id : list Z;
  display_name : list Z;
  genesis_operation_id : list Z;
  initial_grant_operation_id : list Z;
  controller_actor_id : list Z;
  local_writer_actor_id : list Z;
  created_at_unix_ms : Z
}.
#[export] Instance space_descriptor_eq_dec : EqDecision SpaceDescriptor.
Proof. solve_decision. Defined.

Record PeerReadChangesRequest : Type := mkPeerRead {
  proof : PeerReadChangesProof.t;
  peer_received_at_unix_ms : Z
}.

Record ClientProjectionCursor : Type := mkCursor {
  cursor_sort_number : option Z;
  cursor_sort_text : option (list Z);
  cursor_entity_id : list Z;
  cursor_operation_id : list Z
}.

Record ClientStats : Type := mkStats {
  records : Z; events : Z; tags : Z; profiles : Z; media_files : Z; media_bytes : Z
}.

Section Results.
Context `{JsonNumber}.

Record TrustedSpaceBootstrapResult : Type := mkBootstrapResult {
  bootstrapped_space : SpaceDescriptor;
  bootstrapped_genesis : StoredOperation;
  bootstrapped_grant : StoredOperation;
  bootstrap_replayed : bool
}.

Record OperationChangePage : Type := mkPage {
  page_space_id : list Z;
  page_operations : list StoredOperation;
  next_after : Z;
  has_more : bool
}.

Record EntityState : Type := mkEntityState {
  state_space_id : list Z;
  state_entity_id : list Z;
  state_schema : EntitySchema.t;
  state_operation_count : Z;
  state_heads : list StoredOperation
}.

Definition is_conflicted (s : EntityState) : bool := (1 <? length (state_heads s))%nat.

Record ClientEntitySummary : Type := mkSummary {
  summary_operation : StoredOperation;
  summary_visibility : Visibility.t;
  conflicted : bool;
  summary_start_at_unix_ms : option Z;
  summary_end_at_unix_ms : option Z;
  summary_sort_text : option (list Z);
  summary_resource_count : Z;
  summary_media_bytes : Z
}.

Record ClientEntityPage : Type := mkClientPage {
  client_space_id : list Z;
  client_schema : EntitySchema.t;
  items : list ClientEntitySummary;
  next_cursor : option ClientProjectionCursor
}.
End Results.

(** ** Errors *)

(** The text of a formatted error: its template, or the error it shows. *)
Inductive Detail : Type :=
| Message (text : list Z)
| OfDataModel (e : DataModelError)
| OfTrust (e : TrustError).

Inductive RepositoryError : Type :=
| SpaceNotFound (space : list Z)
| MissingParent (id : list Z)
| CrossSpaceParent (id : list Z)
| ParentMismatch (parent : list Z)
| MissingAuthorization_ (id : list Z)
| CrossSpaceAuthorization (id : list Z)
| Authorization_ (e : AuthorizationError)
| EntityAlreadyExists (entity : list Z)
| InvalidTopology (detail : Detail)
| OperationConflict (id : list Z)
| GenesisConflict (space : list Z)
| Corrupt (detail : Detail)
| Unavailable (detail : Detail)
| PeerUnauthorized
| PeerReplay.

Inductive ApplicationError : Type :=
| InvalidOperation (e : DataModelError)
| SpacePathMismatch (path operation : list Z)
| GenericGenesisForbidden
| InvalidTrustedBootstrap (what : list Z)
| InvalidReceivedAt (value : Z)
| InvalidChangeLimit
| InvalidClientQueryLimit
| InvalidClientSchema (schema : EntitySchema.t)
| InvalidPeerProof (e : PeerProofError)
| PeerSpacePathMismatch (path proof : list Z)
| Repository (e : RepositoryError).

(** ** The persistence port *)
Class OperationRepository `{JsonNumber} := {
  Store : Type;
  repo_space : Store -> list Z -> result RepositoryError (option SpaceDescriptor);
  repo_spaces : Store -> result RepositoryError (list SpaceDescriptor);
  repo_delete_space : Store -> list Z -> result RepositoryError unit * Store;
  repo_bootstrap_trusted_space :
    Store -> TrustedSpaceBootstrapRequest -> result RepositoryError TrustedSpaceBootstrapResult * Store;
  repo_submit_operation :
    Store -> list Z -> SubmitOperationRequest -> result RepositoryError SubmitOperationResult * Store;
  repo_operation : Store -> list Z -> list Z -> result RepositoryError (option StoredOperation);
  repo_entity_state : Store -> list Z -> list Z -> result RepositoryError (option EntityState);
  repo_changes_after : Store -> list Z -> Z -> Z -> result RepositoryError OperationChangePage;
  repo_peer_changes :
    Store -> PeerReadChangesRequest -> result RepositoryError OperationChangePage * Store;
  repo_client_entities :
    Store -> list Z -> EntitySchema.t -> option ClientProjectionCursor -> Z ->
    result RepositoryError ClientEntityPage;
  repo_client_stats : Store -> list Z -> result RepositoryError ClientStats
}.

(** ** Validation of requests *)
Definition validate_received_at (received_at_unix_ms : Z) : result ApplicationError unit :=
  if received_at_unix_ms <? 0 then Err (InvalidReceivedAt received_at_unix_ms) else Ok tt.

(** [(1..=maximum).contains(&limit)]. *)
Definition in_limit (limit maximum : Z) : bool := (1 <=? limit) && (limit <=? maximum).

Definition LOCAL_WRITER_ACTIONS : list CapabilityAction.t :=
  [CapabilityAction.AppendOperation; CapabilityAction.ReadSpace; CapabilityAction.WriteContent;
   CapabilityAction.LinkWorkspace].
Definition LOCAL_WRITER_SCHEMAS : list EntitySchema.t :=
  [EntitySchema.Event; EntitySchema.Profile; EntitySchema.Record_; EntitySchema.Tag].
Definition LOCAL_WRITER_MAX_RESOURCE : Z := 1073741824.

(** The scope test that the application and the store both spell out. *)
Definition is_local_writer_scope (grant : CapabilityGrant.t) : bool :=
  eqb (CapabilityGrant.actions grant) LOCAL_WRITER_ACTIONS
  && eqb (CapabilityGrant.schemas grant) LOCAL_WRITER_SCHEMAS
  && eqb (CapabilityGrant.visibilities grant) [Visibility.Public; Visibility.Private]
  && eqb (CapabilityGrant.content_roles grant) [str "record.media"]
  && eqb (CapabilityGrant.max_resource_byte_length grant) (Some LOCAL_WRITER_MAX_RESOURCE)
  && negb (is_some (CapabilityGrant.not_before_unix_ms grant))
  && negb (is_some (CapabilityGrant.expires_at_unix_ms grant))
  && (CapabilityGrant.delegation_depth grant =? 0).

Definition is_label (maximum : Z) (name : list Z) : bool :=
  let length := count_chars name in
  negb ((length =? 0) || (maximum <? length) || existsb is_control (chars name)).

Section Service.
Context `{Sha256} `{Ed25519} `{HalfFloat} `{Base64} `{!JsonNumber} `{!JsonSize}.

Definition bootstrap_error (what : list Z) : result ApplicationError unit :=
  Err (InvalidTrustedBootstrap what).

Definition validate_trusted_space_bootstrap (request : TrustedSpaceBootstrapRequest) :
    result ApplicationError unit :=
  let genesis := genesis request in
  let initial_grant := initial_grant request in
  check validate_received_at (bootstrap_received_at_unix_ms request);
  check map_err InvalidOperation (OperationEnvelope.verify genesis);
  check map_err InvalidOperation (OperationEnvelope.verify initial_grant);
  if negb (is_label MAX_SPACE_DISPLAY_NAME_CHARS (bootstrap_display_name request))
  then bootstrap_error (str "display name must be a bounded non-control label")
  else if negb (eqb (OperationEnvelope.schema genesis) EntitySchema.SpaceGenesis)
  then bootstrap_error (str "genesis operation has the wrong schema")
  else if negb (eqb (OperationEnvelope.schema initial_grant) EntitySchema.CapabilityGrant)
  then bootstrap_error (str "initial grant operation has the wrong schema")
  else if negb (list_eqb (OperationEnvelope.space_id genesis) (OperationEnvelope.space_id initial_grant))
  then bootstrap_error (str "genesis and initial grant belong to different spaces")
  else match OperationEnvelope.body genesis with
  | OperationBody.SpaceGenesis controller =>
      match OperationEnvelope.body initial_grant with
      | OperationBody.CapabilityGrant grant =>
          if negb (list_eqb (OperationEnvelope.actor_id genesis) controller)
          then bootstrap_error (str "genesis must be signed by the controller named in its body")
          else if negb (is_empty (OperationEnvelope.causal_parents genesis))
                  || negb (is_empty (OperationEnvelope.authorization genesis))
          then bootstrap_error (str "genesis cannot have causal parents or authorization references")
          else if negb (list_eqb (OperationEnvelope.actor_id initial_grant) controller)
          then bootstrap_error (str "initial grant must be signed by the genesis controller")
          else if list_eqb (CapabilityGrant.subject grant) controller
          then bootstrap_error (str "initial grant must target a distinct local writer actor")
          else if negb (is_local_writer_scope grant)
          then bootstrap_error (str "initial writer grant must have the exact bounded local-writer scope")
          else if negb (eqb (OperationEnvelope.authorization initial_grant)
                          [OperationEnvelope.operation_id genesis])
          then bootstrap_error (str "initial grant must rely only on the genesis operation")
          else if negb (is_empty (OperationEnvelope.causal_parents initial_grant))
          then bootstrap_error (str "initial grant must start its entity history")
          else if list_eqb (OperationEnvelope.entity_id genesis) (OperationEnvelope.entity_id initial_grant)
          then bootstrap_error (str "genesis and initial grant must use distinct entity IDs")
          else Ok tt
      | _ => bootstrap_error (str "initial grant body has the wrong kind")
      end
  | _ => bootstrap_error (str "genesis body has the wrong kind")
  end.

(** ** [ApplicationService] *)
Context `{!OperationRepository}.

(** [repository.method(..).map_err(Into::into)] of a method that writes. *)
Definition via_repository {A} (r : result RepositoryError A * Store) : result ApplicationError A * Store :=
  (map_err Repository (fst r), snd r).

Definition space (s : Store) (space_id : list Z) : result ApplicationError (option SpaceDescriptor) :=
  map_err Repository (repo_space s space_id).
Definition spaces (s : Store) : result ApplicationError (list SpaceDescriptor) :=
  map_err Repository (repo_spaces s).
Definition delete_space (s : Store) (space_id : list Z) : result ApplicationError unit * Store :=
  via_repository (repo_delete_space s space_id).

Definition bootstrap_trusted_space (s : Store) (request : TrustedSpaceBootstrapRequest) :
    result ApplicationError TrustedSpaceBootstrapResult * Store :=
  match validate_trusted_space_bootstrap request with
  | Err e => (Err e, s)
  | Ok _ => via_repository (repo_bootstrap_trusted_space s request)
  end.

(** The checks of [submit_operation] before the repository. *)
Definition validate_submission (path_space_id : list Z) (request : SubmitOperationRequest) :
    result ApplicationError unit :=
  let operation := submit_operation_ request in
  check validate_received_at (submit_received_at_unix_ms request);
  check map_err InvalidOperation (OperationEnvelope.verify operation);
  if negb (list_eqb (OperationEnvelope.space_id operation) path_space_id)
  then Err (SpacePathMismatch path_space_id (OperationEnvelope.space_id operation))
  else if eqb (OperationEnvelope.schema operation) EntitySchema.SpaceGenesis
  then Err GenericGenesisForbidden
  else Ok tt.

Definition submit_operation (s : Store) (path_space_id : list Z) (request : SubmitOperationRequest) :
    result ApplicationError SubmitOperationResult * Store :=
  match validate_submission path_space_id request with
  | Err e => (Err e, s)
  | Ok _ => via_repository (repo_submit_operation s path_space_id request)
  end.

Definition operation_by_id (s : Store) (space_id operation_id : list Z) :
    result ApplicationError (option StoredOperation) :=
  map_err Repository (repo_operation s space_id operation_id).
Definition entity_state (s : Store) (space_id entity_id : list Z) :
    result ApplicationError (option EntityState) :=
  map_err Repository (repo_entity_state s space_id entity_id).

Definition changes_after (s : Store) (space_id : list Z) (after limit : Z) :
    result ApplicationError OperationChangePage :=
  if negb (in_limit limit MAX_CHANGE_LIMIT) then Err InvalidChangeLimit
  else map_err Repository (repo_changes_after s space_id after limit).

(** The checks of [peer_changes] before the repository. *)
Definition validate_peer_read (path_space_id : list Z) (request : PeerReadChangesRequest) :
    result ApplicationError unit :=
  check validate_received_at (peer_received_at_unix_ms request);
  check map_err InvalidPeerProof
    (PeerReadChangesProof.verify (proof request) (peer_received_at_unix_ms request));
  if negb (list_eqb (PeerReadChangesProof.space_id (proof request)) path_space_id)
  then Err (PeerSpacePathMismatch path_space_id (PeerReadChangesProof.space_id (proof request)))
  else Ok tt.

Definition peer_changes (s : Store) (path_space_id : list Z) (request : PeerReadChangesRequest) :
    result ApplicationError OperationChangePage * Store :=
  match validate_peer_read path_space_id request with
  | Err e => (Err e, s)
  | Ok _ => via_repository (repo_peer_changes s request)
  end.

Definition client_entities (s : Store) (space_id : list Z) (schema : EntitySchema.t)
    (cursor : option ClientProjectionCursor) (limit : Z) : result ApplicationError ClientEntityPage :=
  if negb (in_limit limit MAX_CLIENT_QUERY_LIMIT) then Err InvalidClientQueryLimit
  else if negb (is_client_schema schema) then Err (InvalidClientSchema schema)
  else map_err Repository (repo_client_entities s space_id schema cursor limit).

Definition client_stats (s : Store) (space_id : list Z) : result ApplicationError ClientStats :=
  map_err Repository (repo_client_stats s space_id).
End Service.
