(* ===== verification/Database.v ===== *)
(** * The node database (crates/fractonica-store-sqlite/schema)

    The tables of the node's SQLite file as lists of rows in insertion order, the row
    constraints a statement can violate, and the statements the repositories share.

    - Identifier columns hold the bytes of the identity instead of its text, which
      determine each other ([parse_prefixed_hex_display]); a column whose CHECK lists
      the names of an enumeration holds the enumeration.
    - [operations] grows at its end with AUTOINCREMENT sequences, so its order is the
      order of [local_sequence].
    - Columns that are written and never read by the repositories are left out; the
      constraints they carry are part of the insertion.
    - A violated constraint is an [rusqlite::Error]; failures of the engine itself
      (I/O, busy, out of memory) are not modelled. *)
From S2P Require Import Prelude Bytes Floats Crypto Content Cbor Trust DataModel CanonicalBody Envelope.
From S2P Require Import Authorization Application.

(** [serde_json::to_string] and [from_str] of an envelope. *)
Class ProjectionJson `{JsonNumber} := {
  to_json : OperationEnvelope.t -> option (list Z);
  from_json : list Z -> option OperationEnvelope.t
}.

(** [str::to_lowercase], a table of the Unicode standard. *)
Class Lowercase := { to_lowercase : list Z -> list Z }.

Record OperationRow : Type := mkOperationRow {
  row_local_sequence : Z;
  row_operation_id : list Z;
  row_protocol_version : Z;
  row_space_id : list Z;
  row_entity_id : list Z;
  row_schema : EntitySchema.t;
  row_actor_id : list Z;
  row_occurred_at_unix_ms : Z;
  row_received_at_unix_ms : Z;
  row_nonce : list Z;
  row_canonical_payload : list Z;
  row_cose_sign1 : list Z;
  row_projection_json : list Z
}.

Record HeadRow : Type := mkHeadRow {
  head_space_id : list Z;
  head_entity_id : list Z;
  head_schema : EntitySchema.t;
  head_id : list Z
}.
#[export] Instance head_row_eq_dec : EqDecision HeadRow.
Proof. solve_decision. Defined.

Record VisibilityRow : Type := mkVisibilityRow {
  visibility_space_id : list Z;
  visibility_entity_id : list Z;
  visibility_schema : EntitySchema.t;
  visibility_origin : list Z;
  visibility_value : Visibility.t
}.

Record GrantRow : Type := mkGrantRow {
  grant_space_id : list Z;
  grant_operation_id : list Z;
  grant_issuer : list Z;
  grant_subject : list Z
}.

Record RevocationRow : Type := mkRevocationRow {
  revocation_space_id : list Z;
  revocation_operation_id : list Z;
  revoked_grant_id : list Z
}.

Record ProjectionRow : Type := mkProjectionRow {
  projection_space_id : list Z;
  projection_operation_id : list Z;
  projection_entity_id : list Z;
  projection_schema : EntitySchema.t;
  projection_visibility : Visibility.t;
  projection_tombstone : bool;
  projection_start : option Z;
  projection_end : option Z;
  projection_sort_text : option (list Z);
  projection_resource_count : Z;
  projection_media_bytes : Z
}.

(** [PairingLifecycle], also the values of the [state] column. *)
Module PairingLifecycle.
Inductive t : Type := Created | Claimed | Confirmed | Completed | Cancelled | Expired.
#[global] Instance eq_dec : EqDecision t.
Proof. solve_decision. Defined.
End PairingLifecycle.

Record PairingRow : Type := mkPairingRow {
  pairing_invitation_id : list Z;
  pairing_descriptor_cbor : list Z;
  pairing_descriptor_digest : list Z;
  pairing_space_id : list Z;
  pairing_responder_node_id : list Z;
  pairing_expires_at_unix_ms : Z;
  pairing_state : PairingLifecycle.t;
  pairing_created_at_unix_ms : Z;
  pairing_claimed_at_unix_ms : option Z;
  pairing_claimed_expires_at_unix_ms : option Z;
  pairing_confirmed_at_unix_ms : option Z;
  pairing_completed_at_unix_ms : option Z;
  pairing_terminal_at_unix_ms : option Z;
  pairing_claim_digest : option (list Z);
  pairing_handshake_hash : option (list Z);
  pairing_joiner_node_id : option (list Z);
  pairing_subject_actor_id : option (list Z);
  pairing_planned_grant_operation_id : option (list Z);
  pairing_planned_grant_json : option (list Z);
  pairing_grant_planned_at_unix_ms : option Z;
  pairing_grant_operation_id : option (list Z);
  pairing_peer_token_digest : option (list Z);
  pairing_last_seen_at_unix_ms : option Z;
  pairing_first_frame_digest : option (list Z);
  pairing_response_frame : option (list Z);
  pairing_receipt_frame : option (list Z)
}.

Record NonceRow : Type := mkNonceRow {
  nonce_invitation_id : list Z;
  nonce_value : list Z;
  nonce_expires_at_unix_ms : Z
}.

(** The database: one field per table, and the AUTOINCREMENT counter of
    [operations].  [admission_clock] is the row of [node_admission_clock]. *)
Record Database : Type := mkDatabase {
  admission_clock : option Z;
  last_sequence : Z;
  operations : list OperationRow;
  space_rows : list SpaceDescriptor;
  entity_heads : list HeadRow;
  client_entity_visibility : list VisibilityRow;
  capability_grants : list GrantRow;
  capability_grant_revocations : list RevocationRow;
  client_operation_projections : list ProjectionRow;
  pairing_sessions : list PairingRow;
  peer_request_nonces : list NonceRow
}.

(** A database with the schema just installed. *)
Definition fresh_database : Database := mkDatabase (Some 0) 0 [] [] [] [] [] [] [] [] [].

(** ** Field updates *)
Definition with_clock (db : Database) (clock : option Z) : Database :=
  mkDatabase clock (last_sequence db) (operations db) (space_rows db) (entity_heads db)
    (client_entity_visibility db) (capability_grants db) (capability_grant_revocations db)
    (client_operation_projections db) (pairing_sessions db) (peer_request_nonces db).
Definition with_spaces (db : Database) (rows : list SpaceDescriptor) : Database :=
  mkDatabase (admission_clock db) (last_sequence db) (operations db) rows (entity_heads db)
    (client_entity_visibility db) (capability_grants db) (capability_grant_revocations db)
    (client_operation_projections db) (pairing_sessions db) (peer_request_nonces db).
Definition with_operation (db : Database) (row : OperationRow) : Database :=
  mkDatabase (admission_clock db) (row_local_sequence row) (operations db ++ [row]) (space_rows db)
    (entity_heads db) (client_entity_visibility db) (capability_grants db)
    (capability_grant_revocations db) (client_operation_projections db) (pairing_sessions db)
    (peer_request_nonces db).
Definition with_heads (db : Database) (rows : list HeadRow) : Database :=
  mkDatabase (admission_clock db) (last_sequence db) (operations db) (space_rows db) rows
    (client_entity_visibility db) (capability_grants db) (capability_grant_revocations db)
    (client_operation_projections db) (pairing_sessions db) (peer_request_nonces db).
Definition with_visibility (db : Database) (rows : list VisibilityRow) : Database :=
  mkDatabase (admission_clock db) (last_sequence db) (operations db) (space_rows db) (entity_heads db)
    rows (capability_grants db) (capability_grant_revocations db) (client_operation_projections db)
    (pairing_sessions db) (peer_request_nonces db).
Definition with_grants (db : Database) (rows : list GrantRow) : Database :=
  mkDatabase (admission_clock db) (last_sequence db) (operations db) (space_rows db) (entity_heads db)
    (client_entity_visibility db) rows (capability_grant_revocations db)
    (client_operation_projections db) (pairing_sessions db) (peer_request_nonces db).
Definition with_revocations (db : Database) (rows : list RevocationRow) : Database :=
  mkDatabase (admission_clock db) (last_sequence db) (operations db) (space_rows db) (entity_heads db)
    (client_entity_visibility db) (capability_grants db) rows (client_operation_projections db)
    (pairing_sessions db) (peer_request_nonces db).
Definition with_projections (db : Database) (rows : list ProjectionRow) : Database :=
  mkDatabase (admission_clock db) (last_sequence db) (operations db) (space_rows db) (entity_heads db)
    (client_entity_visibility db) (capability_grants db) (capability_grant_revocations db) rows
    (pairing_sessions db) (peer_request_nonces db).
Definition with_pairings (db : Database) (rows : list PairingRow) : Database :=
  mkDatabase (admission_clock db) (last_sequence db) (operations db) (space_rows db) (entity_heads db)
    (client_entity_visibility db) (capability_grants db) (capability_grant_revocations db)
    (client_operation_projections db) rows (peer_request_nonces db).
Definition with_nonces (db : Database) (rows : list NonceRow) : Database :=
  mkDatabase (admission_clock db) (last_sequence db) (operations db) (space_rows db) (entity_heads db)
    (client_entity_visibility db) (capability_grants db) (capability_grant_revocations db)
    (client_operation_projections db) (pairing_sessions db) rows.

(** ** SQL *)

(** [SELECT ... WHERE]: the rows a condition selects; [query_row] takes the first. *)
Definition select {A} (condition : A -> bool) (rows : list A) : list A := List.filter condition rows.
Definition query_row {A} (condition : A -> bool) (rows : list A) : option A :=
  List.find condition rows.
Definition exists_row {A} (condition : A -> bool) (rows : list A) : bool := existsb condition rows.
Definition count_rows {A} (condition : A -> bool) (rows : list A) : Z :=
  Z.of_nat (length (select condition rows)).
(** [DELETE ... WHERE]. *)
Definition delete_rows {A} (condition : A -> bool) (rows : list A) : list A :=
  List.filter (fun row => negb (condition row)) rows.
(** [UPDATE ... WHERE]. *)
Definition update_rows {A} (condition : A -> bool) (change : A -> A) (rows : list A) : list A :=
  List.map (fun row => if condition row then change row else row) rows.

(** A statement whose constraints hold or fail. *)
Definition constraint (holds : bool) : result RepositoryError unit :=
  if holds then Ok tt else Err (Unavailable (Message (str "constraint failed"))).

Definition corrupt {A} (text : list Z) : result RepositoryError A := Err (Corrupt (Message text)).
Definition topology {A} (text : list Z) : result RepositoryError A := Err (InvalidTopology (Message text)).

(** [BETWEEN low AND high]. *)
Definition between (low value high : Z) : bool := (low <=? value) && (value <=? high).
Definition byte_count (s : list Z) : Z := Z.of_nat (length s).
Definition option_all {A} (f : A -> bool) (o : option A) : bool :=
  match o with Some a => f a | None => true end.
(** A UNIQUE column list: no equal entries. *)
Definition distinct {A} `{EqDecision A} (l : list A) : bool := bool_decide (NoDup l).
