(* ===== verification/Repository.v ===== *)
(** * The signed operation repository (crates/fractonica-store-sqlite/src/signed_repository.rs)

    Trusted bootstrap, operation admission, entity states, change pages, peer reads,
    client projections and workspace deletion over the tables of [Database].

    A statement of a transaction is a function on the database inside [result]; the
    caller commits by returning the last database or rolls back by returning the one
    the transaction began with.  The admission clock is advanced by a transaction of
    its own, so a rejected request keeps it advanced.  The connection is behind a
    mutex: operations run one at a time. *)
From S2P Require Import Prelude Bytes Floats Crypto Content Cbor Trust DataModel CanonicalBody Envelope.
From S2P Require Import Authorization Peer Application Database.

Definition MAX_TRUSTED_SPACES : Z := 4096.
Definition MAX_ACTIVE_PEER_NONCES_PER_SESSION : Z := 4096.
Definition PEER_NONCE_CLEANUP_BATCH : nat := 1024.

(** [positive_u64] and [nonnegative_u64]. *)
Definition positive_u64 (value : Z) : result RepositoryError Z :=
  if 0 <? value then Ok value else corrupt (str "invalid local sequence").
Definition nonnegative_u64 (value : Z) : result RepositoryError Z :=
  if 0 <=? value then Ok value else corrupt (str "invalid nonnegative count").

Section Repository.
Context `{Sha256} `{Ed25519} `{HalfFloat} `{Base64} `{!JsonNumber} `{!JsonSize}
  `{!ProjectionJson} `{!Lowercase}.

(** ** Verification of stored and incoming envelopes *)
Definition verify_envelope (operation : OperationEnvelope.t) : result RepositoryError unit :=
  check map_err (fun e => InvalidTopology (OfDataModel e)) (OperationEnvelope.verify operation);
  map_err (fun e => InvalidTopology (OfTrust e))
    (let? signed := SignedOperation.from_cose_sign1 (OperationEnvelope.cose_sign1 operation) in
     check SignedOperation.verify signed;
     Ok tt).

Definition canonical_payload (operation : OperationEnvelope.t) : result RepositoryError (list Z) :=
  let? signed := map_err (fun e => InvalidTopology (OfTrust e))
    (SignedOperation.from_cose_sign1 (OperationEnvelope.cose_sign1 operation)) in
  check map_err (fun e => InvalidTopology (OfTrust e)) (SignedOperation.verify signed);
  Ok (SignedOperation.payload signed).

Definition decode_stored_values (row : OperationRow) : result RepositoryError StoredOperation :=
  let? operation := ok_or (from_json (row_projection_json row))
    (Corrupt (Message (str "invalid operation projection JSON"))) in
  let? normalized := ok_or (to_json operation)
    (Corrupt (Message (str "cannot normalize operation projection"))) in
  if negb (list_eqb normalized (row_projection_json row))
  then corrupt (str "stored operation projection is not deterministic JSON")
  else
    check map_err (fun e => Corrupt (OfDataModel e)) (OperationEnvelope.verify operation);
    let? signed := map_err (fun e => Corrupt (OfTrust e))
      (SignedOperation.from_cose_sign1 (row_cose_sign1 row)) in
    check map_err (fun e => Corrupt (OfTrust e)) (SignedOperation.verify signed);
    let columns_match :=
      list_eqb (OperationEnvelope.operation_id operation) (row_operation_id row)
      && (OperationEnvelope.protocol_version operation =? row_protocol_version row)
      && list_eqb (OperationEnvelope.space_id operation) (row_space_id row)
      && list_eqb (OperationEnvelope.entity_id operation) (row_entity_id row)
      && eqb (OperationEnvelope.schema operation) (row_schema row)
      && list_eqb (OperationEnvelope.actor_id operation) (row_actor_id row)
      && (OperationEnvelope.occurred_at_unix_ms operation =? row_occurred_at_unix_ms row)
      && list_eqb (OperationEnvelope.nonce operation) (row_nonce row)
      && list_eqb (OperationEnvelope.cose_sign1 operation) (row_cose_sign1 row)
      && list_eqb (SignedOperation.operation_id signed) (OperationEnvelope.operation_id operation)
      && list_eqb (SignedOperation.payload signed) (row_canonical_payload row) in
    if negb columns_match
    then corrupt (str "stored scalar or authoritative bytes disagree")
    else
      let? local_sequence := positive_u64 (row_local_sequence row) in
      Ok (mkStored local_sequence (row_received_at_unix_ms row) operation).

(** ** Lookups *)
Definition operation_row (db : Database) (operation_id : list Z) : option OperationRow :=
  query_row (fun row => list_eqb (row_operation_id row) operation_id) (operations db).

Definition load_stored (db : Database) (operation_id : list Z) :
    result RepositoryError (option StoredOperation) :=
  match operation_row db operation_id with
  | None => Ok None
  | Some row => let? stored := decode_stored_values row in Ok (Some stored)
  end.

Definition decode_space_values (row : SpaceDescriptor) : result RepositoryError SpaceDescriptor :=
  if is_all_zero (descriptor_space_id row) then corrupt (str "stored space ID is nil")
  else
    check map_err (fun e => Corrupt (OfTrust e)) (public_key (controller_actor_id row));
    check map_err (fun e => Corrupt (OfTrust e)) (public_key (local_writer_actor_id row));
    if negb (is_label 128 (display_name row))
       || (created_at_unix_ms row <? 0)
       || list_eqb (genesis_operation_id row) (initial_grant_operation_id row)
       || list_eqb (controller_actor_id row) (local_writer_actor_id row)
    then corrupt (str "space has an invalid stored descriptor")
    else Ok row.

Definition space_row (db : Database) (space_id : list Z) : option SpaceDescriptor :=
  query_row (fun row => list_eqb (descriptor_space_id row) space_id) (space_rows db).

Definition load_space (db : Database) (space_id : list Z) :
    result RepositoryError (option SpaceDescriptor) :=
  match space_row db space_id with
  | None => Ok None
  | Some row => let? space := decode_space_values row in Ok (Some space)
  end.

Definition require_space (db : Database) (space_id : list Z) : result RepositoryError unit :=
  let? found := load_space db space_id in
  match found with Some _ => Ok tt | None => Err (SpaceNotFound space_id) end.

Definition operation_space (db : Database) (operation_id : list Z) : option (list Z) :=
  row_space_id <$> operation_row db operation_id.

(** [ORDER BY created_at_unix_ms, space_id]. *)
Definition space_order (a b : SpaceDescriptor) : Prop :=
  created_at_unix_ms a < created_at_unix_ms b
  \/ created_at_unix_ms a = created_at_unix_ms b
     /\ bytes_le (descriptor_space_id a) (descriptor_space_id b).
#[export] Instance space_order_dec a b : Decision (space_order a b).
Proof. unfold space_order. apply _. Defined.

Definition spaces (db : Database) : result RepositoryError (list SpaceDescriptor) :=
  let rows := firstn 4097 (merge_sort space_order (space_rows db)) in
  let? result := collect decode_space_values rows in
  if MAX_TRUSTED_SPACES <? Z.of_nat (length result)
  then corrupt (str "trusted space count exceeds the API bound") else Ok result.

(** ** The admission clock *)
Definition read_admission_clock (db : Database) : result RepositoryError Z :=
  match admission_clock db with
  | None => corrupt (str "node admission clock singleton is missing")
  | Some persisted =>
      if persisted <? 0 then corrupt (str "node admission clock is negative") else Ok persisted
  end.

(** A transaction of its own: the effective time and the database it leaves. *)
Definition advance_admission_clock (db : Database) (sampled_unix_ms : Z) :
    result RepositoryError (Z * Database) :=
  let? persisted := read_admission_clock db in
  let effective := Z.max persisted sampled_unix_ms in
  Ok (effective, with_clock db (Some effective)).

(** ** The capability view *)

(** [error.to_string()] of a repository error, for the view. *)
Definition view_error (e : RepositoryError) : CapabilityViewError := str "stored operation data is corrupt".

Definition capability_view (db : Database) : CapabilityView := {|
  trusted_genesis := fun space_id => Ok (genesis_operation_id <$> space_row db space_id);
  view_operation := fun space_id operation_id =>
    let? stored := map_err view_error (load_stored db operation_id) in
    Ok (match stored with
        | Some stored =>
            if list_eqb (OperationEnvelope.space_id (operation stored)) space_id
            then Some (operation stored) else None
        | None => None
        end);
  is_revoked := fun space_id grant_id =>
    Ok (exists_row (fun row => list_eqb (revocation_space_id row) space_id
                               && list_eqb (revoked_grant_id row) grant_id)
          (capability_grant_revocations db))
|}.

(** ** Insertion *)

(** The CHECK, UNIQUE and trigger conditions on a new row of [operations]. *)
Definition operation_constraints (db : Database) (row : OperationRow) : bool :=
  (row_protocol_version row =? 1)
  && negb (is_all_zero (row_entity_id row))
  && (0 <=? row_occurred_at_unix_ms row) && (0 <=? row_received_at_unix_ms row)
  && (length (row_nonce row) =? 16)%nat
  && between 1 (byte_count (row_canonical_payload row)) 2097152
  && eqb (hd_error (row_canonical_payload row)) (Some 0x8b)
  && between 80 (byte_count (row_cose_sign1 row)) 2097408
  && eqb (hd_error (row_cose_sign1 row)) (Some 0xd2)
  && between 2 (byte_count (row_projection_json row)) 8388608
  && negb (exists_row (fun other => list_eqb (row_operation_id other) (row_operation_id row)) (operations db))
  && exists_row (fun space => list_eqb (descriptor_space_id space) (row_space_id row)) (space_rows db)
  (* operations_one_schema_per_entity *)
  && negb (exists_row (fun other =>
             list_eqb (row_space_id other) (row_space_id row)
             && list_eqb (row_entity_id other) (row_entity_id row)
             && negb (eqb (row_schema other) (row_schema row))) (operations db))
  (* operations_validate_genesis *)
  && (let anchored := fun space =>
        list_eqb (descriptor_space_id space) (row_space_id row)
        && list_eqb (genesis_operation_id space) (row_operation_id row) in
      implb (eqb (row_schema row) EntitySchema.SpaceGenesis || exists_row anchored (space_rows db))
        (exists_row (fun space =>
           anchored space && list_eqb (controller_actor_id space) (row_actor_id row)
           && eqb (row_schema row) EntitySchema.SpaceGenesis) (space_rows db))).

(** Whether [operation] is its space's genesis, which can have no references. *)
Definition is_anchor (db : Database) (operation : OperationEnvelope.t) : bool :=
  exists_row (fun space =>
    list_eqb (descriptor_space_id space) (OperationEnvelope.space_id operation)
    && list_eqb (genesis_operation_id space) (OperationEnvelope.operation_id operation)) (space_rows db).

(** The row of an operation, and the JSON stored in it. *)
Definition row_of (operation : OperationEnvelope.t) (signed : SignedOperation.t)
    (local_sequence received_at_unix_ms : Z) (projection : list Z) : OperationRow :=
  mkOperationRow local_sequence (OperationEnvelope.operation_id operation)
    (OperationEnvelope.protocol_version operation) (OperationEnvelope.space_id operation)
    (OperationEnvelope.entity_id operation) (OperationEnvelope.schema operation)
    (OperationEnvelope.actor_id operation) (OperationEnvelope.occurred_at_unix_ms operation)
    received_at_unix_ms (OperationEnvelope.nonce operation) (SignedOperation.payload signed)
    (OperationEnvelope.cose_sign1 operation) projection.

(** The documents a projection reads: start, end, sort text and resources, or
    nothing for an operation without projection. *)
Definition projected (operation : OperationEnvelope.t) :
    option (option Z * option Z * option (list Z) * list ResourceRef.t) :=
  match OperationEnvelope.body operation with
  | OperationBody.PutRecord (ProtectedDocument.Public document) =>
      Some (Some (record_start_at_unix_ms document), record_end_at_unix_ms document, None,
            record_resources document)
  | OperationBody.PutEvent (ProtectedDocument.Public document) =>
      Some (Some (event_start_at_unix_ms document), event_end_at_unix_ms document,
            Some (to_lowercase (event_label document)), [])
  | OperationBody.PutTag (ProtectedDocument.Public document) =>
      Some (None, None, Some (to_lowercase (tag_name document)), [])
  | OperationBody.PutProfile document =>
      Some (None, None, Some (profile_handle document),
            match profile_avatar document with Some avatar => [avatar] | None => [] end)
  | OperationBody.PutRecord (ProtectedDocument.Private _ resources) => Some (None, None, None, resources)
  | OperationBody.PutTag (ProtectedDocument.Private _ _)
  | OperationBody.PutEvent (ProtectedDocument.Private _ _)
  | OperationBody.Tombstone =>
      if is_client_schema (OperationEnvelope.schema operation) then Some (None, None, None, []) else None
  | _ => None
  end.

(** The byte total of [try_fold]. *)
Fixpoint media_byte_total (resources : list ResourceRef.t) (total : Z) : result RepositoryError Z :=
  match resources with
  | [] => Ok total
  | resource :: resources =>
      let? bytes := ok_or (checked_i64 (ResourceRef.byte_length resource))
        (Corrupt (Message (str "client projection media bytes exceed SQLite"))) in
      let? total := ok_or (checked_i64 (total + bytes))
        (Corrupt (Message (str "client projection media byte total overflows"))) in
      media_byte_total resources total
  end.

Definition visibility_row (db : Database) (space_id entity_id : list Z) : option VisibilityRow :=
  query_row (fun row => list_eqb (visibility_space_id row) space_id
                        && list_eqb (visibility_entity_id row) entity_id) (client_entity_visibility db).

(** The row projected from an operation, if it has one. *)
Definition client_projection (db : Database) (operation : OperationEnvelope.t) :
    result RepositoryError (option ProjectionRow) :=
  match projected operation with
  | None => Ok None
  | Some (start_at_unix_ms, end_at_unix_ms, sort_text, resources) =>
      let? visibility :=
        match OperationBody.declared_visibility (OperationEnvelope.body operation) with
        | Some visibility => Ok visibility
        | None =>
            match query_row (fun row =>
                    list_eqb (visibility_space_id row) (OperationEnvelope.space_id operation)
                    && list_eqb (visibility_entity_id row) (OperationEnvelope.entity_id operation)
                    && eqb (visibility_schema row) (OperationEnvelope.schema operation))
                    (client_entity_visibility db) with
            | Some row => Ok (visibility_value row)
            | None => corrupt (str "client projection is missing immutable visibility")
            end
        end in
      let? media_bytes := media_byte_total resources 0 in
      Ok (Some
        (mkProjectionRow (OperationEnvelope.space_id operation) (OperationEnvelope.operation_id operation)
           (OperationEnvelope.entity_id operation) (OperationEnvelope.schema operation) visibility
           (match OperationEnvelope.body operation with OperationBody.Tombstone => true | _ => false end)
           start_at_unix_ms end_at_unix_ms sort_text (Z.of_nat (length resources)) media_bytes))
  end.

Definition insert_client_projection (db : Database) (operation : OperationEnvelope.t) :
    result RepositoryError Database :=
  let? row := client_projection db operation in
  match row with
  | None => Ok db
  | Some row =>
      check constraint (negb (exists_row (fun other =>
        list_eqb (projection_space_id other) (OperationEnvelope.space_id operation)
        && list_eqb (projection_operation_id other) (OperationEnvelope.operation_id operation))
        (client_operation_projections db)));
      Ok (with_projections db (client_operation_projections db ++ [row]))
  end.

(** One causal parent: the row of [operation_parents] and the head it consumes. *)
Definition insert_parent (operation : OperationEnvelope.t) (db : Database) (parent : list Z) :
    result RepositoryError Database :=
  check constraint
    (negb (is_anchor db operation)
     && negb (list_eqb parent (OperationEnvelope.operation_id operation))
     && exists_row (fun row =>
          list_eqb (row_space_id row) (OperationEnvelope.space_id operation)
          && list_eqb (row_entity_id row) (OperationEnvelope.entity_id operation)
          && eqb (row_schema row) (OperationEnvelope.schema operation)
          && list_eqb (row_operation_id row) parent) (operations db));
  Ok (with_heads db (delete_rows (fun row =>
    list_eqb (head_space_id row) (OperationEnvelope.space_id operation)
    && list_eqb (head_id row) parent) (entity_heads db))).

Fixpoint insert_parents (operation : OperationEnvelope.t) (parents : list (list Z)) (db : Database) :
    result RepositoryError Database :=
  match parents with
  | [] => Ok db
  | parent :: parents => let? db := insert_parent operation db parent in insert_parents operation parents db
  end.

(** The rows of [operation_authorization_refs]. *)
Definition insert_authorization (operation : OperationEnvelope.t) (db : Database)
    (authorization : list Z) : result RepositoryError unit :=
  constraint
    (negb (is_anchor db operation)
     && negb (list_eqb authorization (OperationEnvelope.operation_id operation))
     && exists_row (fun row =>
          list_eqb (row_space_id row) (OperationEnvelope.space_id operation)
          && list_eqb (row_operation_id row) authorization) (operations db)).

(** The position and uniqueness conditions of both reference tables. *)
Definition reference_constraints (references : list (list Z)) : bool :=
  (length references <=? 64)%nat && distinct references.

(** The CHECK conditions on a row of [operation_resources]. *)
Definition resource_constraints (resource : ResourceRef.t) : bool :=
  between 0 (ResourceRef.byte_length resource) 1099511627776
  && between 3 (byte_count (ResourceRef.media_type resource)) 127
  && negb (one_of (ResourceRef.media_type resource) 0)
  && one_of (List.tl (ResourceRef.media_type resource)) 47
  && negb (eqb (hd_error (ResourceRef.media_type resource)) (Some 47))
  && between 1 (byte_count (ResourceRef.role resource)) 64
  && forallb is_role_byte (ResourceRef.role resource)
  && option_all (fun name =>
       between 1 (byte_count name) 255 && negb (one_of name 0) && negb (one_of name 47)
       && negb (one_of name 92)) (ResourceRef.original_name resource).

Definition resources_constraints (resources : list ResourceRef.t) : bool :=
  (length resources <=? 64)%nat && forallb resource_constraints resources
  && distinct (List.map ResourceRef.content_id resources).

(** The CHECK conditions on the rows of a grant: its own and its scope tables'. *)
Definition grant_constraints (grant : CapabilityGrant.t) : bool :=
  between 0 (CapabilityGrant.delegation_depth grant) 16
  && option_all (Z.leb 0) (CapabilityGrant.not_before_unix_ms grant)
  && option_all (Z.leb 0) (CapabilityGrant.expires_at_unix_ms grant)
  && option_all (fun maximum => between 0 maximum 1099511627776)
       (CapabilityGrant.max_resource_byte_length grant)
  && between 1 (byte_count (CapabilityGrant.label grant)) 512
  && negb (one_of (CapabilityGrant.label grant) 0)
  && (match CapabilityGrant.not_before_unix_ms grant, CapabilityGrant.expires_at_unix_ms grant with
      | Some start, Some end_ => start <? end_
      | _, _ => true
      end)
  (* position BETWEEN 0 AND 4, 31, 1, 63 *)
  && (length (CapabilityGrant.actions grant) <=? 5)%nat && distinct (CapabilityGrant.actions grant)
  && (length (CapabilityGrant.schemas grant) <=? 32)%nat && distinct (CapabilityGrant.schemas grant)
  && (length (CapabilityGrant.visibilities grant) <=? 2)%nat
  && distinct (CapabilityGrant.visibilities grant)
  && (length (CapabilityGrant.content_roles grant) <=? 64)%nat
  && distinct (CapabilityGrant.content_roles grant)
  && forallb (fun role => between 1 (byte_count role) 64 && forallb is_role_byte role)
       (CapabilityGrant.content_roles grant).

Definition insert_grant (db : Database) (operation : OperationEnvelope.t) (grant : CapabilityGrant.t) :
    result RepositoryError Database :=
  check constraint
    (grant_constraints grant
     && eqb (OperationEnvelope.schema operation) EntitySchema.CapabilityGrant
     && negb (exists_row (fun row =>
          list_eqb (grant_space_id row) (OperationEnvelope.space_id operation)
          && list_eqb (grant_operation_id row) (OperationEnvelope.operation_id operation))
          (capability_grants db)));
  Ok (with_grants db (capability_grants db ++
    [mkGrantRow (OperationEnvelope.space_id operation) (OperationEnvelope.operation_id operation)
       (OperationEnvelope.actor_id operation) (CapabilityGrant.subject grant)])).

(** Whether a grant of the space is admitted: the EXISTS query and the foreign key. *)
Definition is_admitted_grant (db : Database) (space_id grant_id : list Z) : bool :=
  exists_row (fun row => list_eqb (grant_space_id row) space_id
                         && list_eqb (grant_operation_id row) grant_id) (capability_grants db).

Definition insert_revocation (db : Database) (operation : OperationEnvelope.t)
    (revocation : CapabilityRevocation.t) : result RepositoryError Database :=
  check constraint
    (option_all (fun detail => between 1 (byte_count detail) 2048 && negb (one_of detail 0))
       (CapabilityRevocation.detail revocation)
     && eqb (OperationEnvelope.schema operation) EntitySchema.CapabilityRevoke
     && is_admitted_grant db (OperationEnvelope.space_id operation) (CapabilityRevocation.grant_id revocation)
     && negb (list_eqb (OperationEnvelope.operation_id operation) (CapabilityRevocation.grant_id revocation)));
  Ok (with_revocations db (capability_grant_revocations db ++
    [mkRevocationRow (OperationEnvelope.space_id operation) (OperationEnvelope.operation_id operation)
       (CapabilityRevocation.grant_id revocation)])).

(** The row of an operation that begins an entity with a declared visibility. *)
Definition insert_visibility (db : Database) (operation : OperationEnvelope.t) :
    result RepositoryError Database :=
  match OperationEnvelope.causal_parents operation,
        OperationBody.declared_visibility (OperationEnvelope.body operation) with
  | [], Some visibility =>
      check constraint
        (is_client_schema (OperationEnvelope.schema operation)
         && negb (exists_row (fun row =>
              list_eqb (visibility_space_id row) (OperationEnvelope.space_id operation)
              && (list_eqb (visibility_entity_id row) (OperationEnvelope.entity_id operation)
                  || list_eqb (visibility_origin row) (OperationEnvelope.operation_id operation)))
              (client_entity_visibility db)));
      Ok (with_visibility db (client_entity_visibility db ++
        [mkVisibilityRow (OperationEnvelope.space_id operation) (OperationEnvelope.entity_id operation)
           (OperationEnvelope.schema operation) (OperationEnvelope.operation_id operation) visibility]))
  | _, _ => Ok db
  end.

Definition insert_head (db : Database) (operation : OperationEnvelope.t) :
    result RepositoryError Database :=
  check constraint (negb (exists_row (fun row =>
    list_eqb (head_space_id row) (OperationEnvelope.space_id operation)
    && list_eqb (head_id row) (OperationEnvelope.operation_id operation)) (entity_heads db)));
  Ok (with_heads db (entity_heads db ++
    [mkHeadRow (OperationEnvelope.space_id operation) (OperationEnvelope.entity_id operation)
       (OperationEnvelope.schema operation) (OperationEnvelope.operation_id operation)])).

(** The capability tables of an operation. *)
Definition insert_capability (db : Database) (operation : OperationEnvelope.t) :
    result RepositoryError Database :=
  match OperationEnvelope.body operation with
  | OperationBody.CapabilityGrant grant => insert_grant db operation grant
  | OperationBody.CapabilityRevoke revocation => insert_revocation db operation revocation
  | _ => Ok db
  end.

Definition insert_operation (db : Database) (operation : OperationEnvelope.t) (received_at_unix_ms : Z) :
    result RepositoryError (StoredOperation * Database) :=
  let? signed := map_err (fun e => InvalidTopology (OfTrust e))
    (SignedOperation.from_cose_sign1 (OperationEnvelope.cose_sign1 operation)) in
  check map_err (fun e => InvalidTopology (OfTrust e)) (SignedOperation.verify signed);
  let? projection := ok_or (to_json operation)
    (InvalidTopology (Message (str "operation is not JSON"))) in
  let row := row_of operation signed (last_sequence db + 1) received_at_unix_ms projection in
  check constraint (operation_constraints db row && (last_sequence db <? 2 ^ 63 - 1));
  let db := with_operation db row in
  let? local_sequence := positive_u64 (row_local_sequence row) in
  let? db := insert_visibility db operation in
  let? db := insert_client_projection db operation in
  check constraint (reference_constraints (OperationEnvelope.causal_parents operation)
                    && reference_constraints (OperationEnvelope.authorization operation));
  let? db := insert_parents operation (OperationEnvelope.causal_parents operation) db in
  check for_each (insert_authorization operation db) (OperationEnvelope.authorization operation);
  let? db := insert_head db operation in
  check constraint (resources_constraints (OperationBody.resources (OperationEnvelope.body operation)));
  let? db := insert_capability db operation in
  Ok (mkStored local_sequence received_at_unix_ms operation, db).

(** ** Admission checks *)
Fixpoint validate_parents (db : Database) (space_id : list Z) (parents : list (list Z)) :
    result RepositoryError unit :=
  match parents with
  | [] => Ok tt
  | parent :: parents =>
      match operation_space db parent with
      | None => Err (MissingParent parent)
      | Some space =>
          if negb (list_eqb space space_id) then Err (CrossSpaceParent parent)
          else validate_parents db space_id parents
      end
  end.

Fixpoint validate_authorizations (db : Database) (space_id : list Z) (references : list (list Z)) :
    result RepositoryError unit :=
  match references with
  | [] => Ok tt
  | reference :: references =>
      match operation_space db reference with
      | None => Err (MissingAuthorization_ reference)
      | Some space =>
          if negb (list_eqb space space_id) then Err (CrossSpaceAuthorization reference)
          else validate_authorizations db space_id references
      end
  end.

Definition validate_references (db : Database) (operation : OperationEnvelope.t) :
    result RepositoryError unit :=
  check validate_parents db (OperationEnvelope.space_id operation)
    (OperationEnvelope.causal_parents operation);
  validate_authorizations db (OperationEnvelope.space_id operation)
    (OperationEnvelope.authorization operation).

(** The projection of one parent must be of the same entity and schema. *)
Definition validate_parent_entity (db : Database) (operation : OperationEnvelope.t) (parent : list Z) :
    result RepositoryError unit :=
  match operation_row db parent with
  | None => Err (Unavailable (Message (str "Query returned no rows")))
  | Some row =>
      if negb (list_eqb (row_entity_id row) (OperationEnvelope.entity_id operation))
         || negb (eqb (row_schema row) (OperationEnvelope.schema operation))
      then Err (ParentMismatch parent) else Ok tt
  end.

(** The rows of one entity: its history and its heads. *)
Definition in_entity (space_id entity_id : list Z) (row : OperationRow) : bool :=
  list_eqb (row_space_id row) space_id && list_eqb (row_entity_id row) entity_id.
Definition head_of_entity (space_id entity_id : list Z) (row : HeadRow) : bool :=
  list_eqb (head_space_id row) space_id && list_eqb (head_entity_id row) entity_id.

Definition is_tombstone (body : OperationBody.t) : bool :=
  match body with OperationBody.Tombstone => true | _ => false end.

Definition validate_topology (db : Database) (operation : OperationEnvelope.t) :
    result RepositoryError unit :=
  let space_id := OperationEnvelope.space_id operation in
  let entity_id := OperationEnvelope.entity_id operation in
  let parents := OperationEnvelope.causal_parents operation in
  check for_each (validate_parent_entity db operation) parents;
  let existing_count := count_rows (in_entity space_id entity_id) (operations db) in
  let current_heads := count_rows (head_of_entity space_id entity_id) (entity_heads db) in
  if (0 <? existing_count) && (current_heads =? 0)
  then corrupt (str "entity has history but no current heads")
  else if (0 <? existing_count) && is_empty parents then Err (EntityAlreadyExists entity_id)
  else if (existing_count =? 0) && is_tombstone (OperationEnvelope.body operation)
  then topology (str "an entity cannot begin with a tombstone")
  else
    let consumed_heads :=
      count_rows (fun row => head_of_entity space_id entity_id row && contains (head_id row) parents)
        (entity_heads db) in
    let resulting := current_heads - consumed_heads + 1 in
    if MAX_ENTITY_HEADS <? resulting
    then topology (str "operation would exceed the 64-head entity limit")
    else Ok tt.

(** The loop over the parents of a revision. *)
Fixpoint parents_agree (db : Database) (current : Visibility.t) (parents : list (list Z)) :
    result RepositoryError unit :=
  match parents with
  | [] => Ok tt
  | parent_id :: parents =>
      let? found := load_stored db parent_id in
      let? parent := ok_or found (Corrupt (Message (str "validated record parent disappeared"))) in
      match OperationBody.declared_visibility (OperationEnvelope.body (operation parent)) with
      | Some visibility =>
          if eqb visibility current then parents_agree db current parents
          else corrupt (str "record parent disagrees with materialized visibility")
      | None => parents_agree db current parents
      end
  end.

Definition visibility_for_admission (db : Database) (operation : OperationEnvelope.t) :
    result RepositoryError (option Visibility.t) :=
  if negb (is_client_schema (OperationEnvelope.schema operation)) then Ok None
  else
    let stored := visibility_value <$>
      visibility_row db (OperationEnvelope.space_id operation) (OperationEnvelope.entity_id operation) in
    let declared := OperationBody.declared_visibility (OperationEnvelope.body operation) in
    match OperationEnvelope.causal_parents operation with
    | [] =>
        match declared, OperationEnvelope.body operation, stored with
        | Some visibility, _, None => Ok (Some visibility)
        | Some _, _, Some _ => corrupt (str "new client entity already has materialized visibility")
        | None, OperationBody.Tombstone, _ => topology (str "an entity cannot begin with a tombstone")
        | _, _, _ => corrupt (str "client schema has a non-client body")
        end
    | parents =>
        match stored with
        | None => corrupt (str "record entity has history but no materialized visibility")
        | Some current =>
            check parents_agree db current parents;
            match declared with
            | Some incoming =>
                if eqb incoming current then Ok (Some current) else Err (Authorization_ Denied)
            | None => Ok (Some current)
            end
        end
    end.

(** ** Submission *)
Definition validate_submitted (space_id : list Z) (request : SubmitOperationRequest) :
    result RepositoryError unit :=
  let operation := submit_operation_ request in
  check verify_envelope operation;
  if negb (list_eqb (OperationEnvelope.space_id operation) space_id)
  then topology (str "operation belongs to another space than the selected one")
  else if submit_received_at_unix_ms request <? 0
  then topology (str "receivedAtUnixMs must be nonnegative")
  else match OperationEnvelope.body operation with
  | OperationBody.SpaceGenesis _ => topology (str "space genesis requires trusted bootstrap")
  | _ => Ok tt
  end.

(** A revocation names an admitted grant of its space. *)
Definition validate_revocation (db : Database) (space_id : list Z) (operation : OperationEnvelope.t) :
    result RepositoryError unit :=
  match OperationEnvelope.body operation with
  | OperationBody.CapabilityRevoke revocation =>
      if is_admitted_grant db space_id (CapabilityRevocation.grant_id revocation) then Ok tt
      else topology (str "revocation target is not an admitted grant in this space")
  | _ => Ok tt
  end.

(** The transaction of [submit_operation]. *)
Definition submit_transaction (db : Database) (space_id : list Z) (operation : OperationEnvelope.t)
    (effective_received_at : Z) : result RepositoryError (SubmitOperationResult * Database) :=
  let? persisted := read_admission_clock db in
  let effective_received_at := Z.max effective_received_at persisted in
  let? found := load_stored db (OperationEnvelope.operation_id operation) in
  match found with
  | Some existing =>
      let? incoming_payload := canonical_payload operation in
      let? stored_payload := canonical_payload (Application.operation existing) in
      if negb (list_eqb incoming_payload stored_payload)
      then Err (OperationConflict (OperationEnvelope.operation_id operation))
      else Ok (mkSubmitResult existing true, db)
  | None =>
      check validate_references db operation;
      check validate_topology db operation;
      let? visibility := visibility_for_admission db operation in
      check validate_revocation db space_id operation;
      let view : CapabilityView := capability_view db in
      check map_err Authorization_
        (authorize_operation_for_visibility operation effective_received_at visibility);
      let? (stored, db) := insert_operation db operation effective_received_at in
      Ok (mkSubmitResult stored false, db)
  end.

(** The database a request leaves: committed, or the one its transaction began with. *)
Definition commit {A} (r : result RepositoryError (A * Database)) (before : Database) :
    result RepositoryError A * Database :=
  match r with
  | Ok (a, after) => (Ok a, after)
  | Err e => (Err e, before)
  end.

Definition submit_operation (db : Database) (space_id : list Z) (request : SubmitOperationRequest) :
    result RepositoryError SubmitOperationResult * Database :=
  match validate_submitted space_id request with
  | Err e => (Err e, db)
  | Ok _ =>
      match require_space db space_id with
      | Err e => (Err e, db)
      | Ok _ =>
          match advance_admission_clock db (submit_received_at_unix_ms request) with
          | Err e => (Err e, db)
          | Ok (effective_received_at, db) =>
              commit (submit_transaction db space_id (submit_operation_ request) effective_received_at) db
          end
      end
  end.
(** ** Trusted bootstrap *)
Definition validate_bootstrap (request : TrustedSpaceBootstrapRequest) : result RepositoryError unit :=
  let genesis := genesis request in
  let initial_grant := initial_grant request in
  if bootstrap_received_at_unix_ms request <? 0
  then topology (str "bootstrap receipt time must be nonnegative")
  else if negb (is_label 128 (bootstrap_display_name request))
  then topology (str "space display name must contain 1..=128 non-control scalars")
  else match OperationEnvelope.body genesis, OperationEnvelope.body initial_grant with
  | OperationBody.SpaceGenesis controller, OperationBody.CapabilityGrant grant =>
      let exact_grant := negb (list_eqb (CapabilityGrant.subject grant) controller)
                         && is_local_writer_scope grant in
      if negb (list_eqb (OperationEnvelope.space_id genesis) (OperationEnvelope.space_id initial_grant))
         || negb (list_eqb (OperationEnvelope.actor_id initial_grant) controller)
         || negb (is_empty (OperationEnvelope.causal_parents initial_grant))
         || negb (eqb (OperationEnvelope.authorization initial_grant) [OperationEnvelope.operation_id genesis])
         || negb (eqb (OperationEnvelope.schema initial_grant) EntitySchema.CapabilityGrant)
         || list_eqb (OperationEnvelope.entity_id initial_grant) (OperationEnvelope.entity_id genesis)
         || negb exact_grant
      then topology (str "bootstrap operations do not form the canonical controller/writer anchor")
      else Ok tt
  | OperationBody.SpaceGenesis _, _ => topology (str "invalid initial writer grant")
  | _, _ => topology (str "invalid bootstrap genesis")
  end.

(** The descriptor of a request; [None] is the [unreachable!] of a body that is no grant. *)
Definition expected_space (request : TrustedSpaceBootstrapRequest) (created_at : Z) : option SpaceDescriptor :=
  match OperationEnvelope.body (initial_grant request) with
  | OperationBody.CapabilityGrant grant =>
      Some (mkSpace (OperationEnvelope.space_id (genesis request)) (bootstrap_display_name request)
              (OperationEnvelope.operation_id (genesis request))
              (OperationEnvelope.operation_id (initial_grant request))
              (OperationEnvelope.actor_id (genesis request)) (CapabilityGrant.subject grant) created_at)
  | _ => None
  end.

Definition same_anchor (existing expected : SpaceDescriptor) : bool :=
  list_eqb (display_name existing) (display_name expected)
  && list_eqb (genesis_operation_id existing) (genesis_operation_id expected)
  && list_eqb (initial_grant_operation_id existing) (initial_grant_operation_id expected)
  && list_eqb (controller_actor_id existing) (controller_actor_id expected)
  && list_eqb (local_writer_actor_id existing) (local_writer_actor_id expected).

(** The CHECK and UNIQUE conditions on a new row of [spaces]. *)
Definition space_constraints (db : Database) (row : SpaceDescriptor) : bool :=
  negb (is_all_zero (descriptor_space_id row))
  && between 1 (byte_count (display_name row)) 512 && negb (one_of (display_name row) 0)
  && (0 <=? created_at_unix_ms row)
  && negb (list_eqb (initial_grant_operation_id row) (genesis_operation_id row))
  && negb (list_eqb (local_writer_actor_id row) (controller_actor_id row))
  && negb (exists_row (fun other =>
       list_eqb (descriptor_space_id other) (descriptor_space_id row)
       || list_eqb (genesis_operation_id other) (genesis_operation_id row)
       || list_eqb (initial_grant_operation_id other) (initial_grant_operation_id row)) (space_rows db)).

(** The deferred foreign keys of [spaces], checked when a bootstrap commits. *)
Definition space_keys (db : Database) (row : SpaceDescriptor) : bool :=
  exists_row (fun op =>
    list_eqb (row_space_id op) (descriptor_space_id row)
    && list_eqb (row_operation_id op) (genesis_operation_id row)
    && list_eqb (row_actor_id op) (controller_actor_id row)) (operations db)
  && exists_row (fun grant =>
    list_eqb (grant_space_id grant) (descriptor_space_id row)
    && list_eqb (Database.grant_operation_id grant) (initial_grant_operation_id row)
    && list_eqb (grant_issuer grant) (controller_actor_id row)
    && list_eqb (grant_subject grant) (local_writer_actor_id row)) (capability_grants db).

(** The replay of a bootstrap whose space exists. *)
Definition replay_bootstrap (db : Database) (request : TrustedSpaceBootstrapRequest)
    (existing expected : SpaceDescriptor) : result RepositoryError TrustedSpaceBootstrapResult :=
  let space_id := descriptor_space_id expected in
  if negb (same_anchor existing expected) then Err (GenesisConflict space_id)
  else
    let? found := load_stored db (OperationEnvelope.operation_id (genesis request)) in
    let? stored_genesis := ok_or found (Corrupt (Message (str "space references a missing genesis"))) in
    let? found := load_stored db (OperationEnvelope.operation_id (initial_grant request)) in
    let? stored_grant := ok_or found (Corrupt (Message (str "space references a missing grant"))) in
    let? a := canonical_payload (Application.operation stored_genesis) in
    let? b := canonical_payload (genesis request) in
    if negb (list_eqb a b) then Err (GenesisConflict space_id)
    else
      let? a := canonical_payload (Application.operation stored_grant) in
      let? b := canonical_payload (initial_grant request) in
      if negb (list_eqb a b) then Err (GenesisConflict space_id)
      else Ok (mkBootstrapResult existing stored_genesis stored_grant true).

Definition bootstrap_transaction (db : Database) (request : TrustedSpaceBootstrapRequest)
    (expected : SpaceDescriptor) (effective_received_at : Z) :
    result RepositoryError (TrustedSpaceBootstrapResult * Database) :=
  let? found := load_space db (descriptor_space_id expected) in
  match found with
  | Some existing =>
      let? replay := replay_bootstrap db request existing expected in
      Ok (replay, db)
  | None =>
      check constraint (space_constraints db expected);
      let db := with_spaces db (space_rows db ++ [expected]) in
      let? (stored_genesis, db) := insert_operation db (genesis request) effective_received_at in
      let view : CapabilityView := capability_view db in
      check map_err Authorization_ (authorize_operation (initial_grant request) effective_received_at);
      let? (stored_grant, db) := insert_operation db (initial_grant request) effective_received_at in
      check constraint (space_keys db expected);
      Ok (mkBootstrapResult expected stored_genesis stored_grant false, db)
  end.

(** The outer [None] is the [unreachable!]. *)
Definition bootstrap_trusted_space (db : Database) (request : TrustedSpaceBootstrapRequest) :
    option (result RepositoryError TrustedSpaceBootstrapResult * Database) :=
  match (check verify_envelope (genesis request);
         check verify_envelope (initial_grant request);
         validate_bootstrap request) with
  | Err e => Some (Err e, db)
  | Ok _ =>
      expected ← expected_space request (bootstrap_received_at_unix_ms request);
      Some
        match advance_admission_clock db (bootstrap_received_at_unix_ms request) with
        | Err e => (Err e, db)
        | Ok (effective_received_at, db) =>
            commit
              (let? persisted := read_admission_clock db in
               let effective_received_at := Z.max effective_received_at persisted in
               let expected :=
                 mkSpace (descriptor_space_id expected) (display_name expected)
                   (genesis_operation_id expected) (initial_grant_operation_id expected)
                   (controller_actor_id expected) (local_writer_actor_id expected)
                   effective_received_at in
               bootstrap_transaction db request expected effective_received_at) db
        end
  end.

(** ** Reads *)
Definition operation_of (db : Database) (space_id operation_id : list Z) :
    result RepositoryError (option StoredOperation) :=
  check require_space db space_id;
  let? found := load_stored db operation_id in
  Ok (match found with
      | Some stored =>
          if list_eqb (OperationEnvelope.space_id (Application.operation stored)) space_id
          then Some stored else None
      | None => None
      end).

(** [ORDER BY operation_id]. *)
Definition row_id_order (a b : OperationRow) : Prop := bytes_le (row_operation_id a) (row_operation_id b).
#[export] Instance row_id_order_dec a b : Decision (row_id_order a b).
Proof. unfold row_id_order. apply _. Defined.

(** The stored rows of an entity's heads, by ascending id. *)
Definition head_rows (db : Database) (space_id entity_id : list Z) (schema : EntitySchema.t) :
    list OperationRow :=
  let head_ids := List.map head_id
    (select (fun row => head_of_entity space_id entity_id row && eqb (head_schema row) schema)
       (entity_heads db)) in
  merge_sort row_id_order
    (select (fun row => list_eqb (row_space_id row) space_id && contains (row_operation_id row) head_ids)
       (operations db)).

Definition entity_state (db : Database) (space_id entity_id : list Z) :
    result RepositoryError (option EntityState) :=
  check require_space db space_id;
  let rows := select (in_entity space_id entity_id) (operations db) in
  match List.map row_schema rows with
  | [] => Ok None
  | (schema :: _) as schemas =>
      if negb (length (remove_dups schemas) =? 1)%nat
      then corrupt (str "entity has several stored schemas")
      else
        let? heads := collect decode_stored_values (head_rows db space_id entity_id schema) in
        if is_empty heads then corrupt (str "entity has history but no heads")
        else if MAX_ENTITY_HEADS <? Z.of_nat (length heads)
        then corrupt (str "entity exceeds the 64-head limit")
        else
          let? count := positive_u64 (Z.of_nat (length rows)) in
          Ok (Some (mkEntityState space_id entity_id schema count heads))
  end.

(** [last().map_or(default, ..)]. *)
Definition last_sequence_of (stored : list StoredOperation) (default : Z) : Z :=
  match last stored with Some stored => local_sequence stored | None => default end.

Definition load_changes (db : Database) (space_id : list Z) (after_local_sequence limit : Z) :
    result RepositoryError OperationChangePage :=
  if negb (in_limit limit MAX_CHANGE_LIMIT)
  then topology (str "change limit must be between 1 and 200")
  else
    check require_space db space_id;
    match checked_i64 after_local_sequence with
    | None => Ok (mkPage space_id [] after_local_sequence false)
    | Some after =>
        let rows := firstn (Z.to_nat (limit + 1))
          (select (fun row => list_eqb (row_space_id row) space_id && (after <? row_local_sequence row))
             (operations db)) in
        let? fetched := collect decode_stored_values rows in
        let has_more := limit <? Z.of_nat (length fetched) in
        let page := if has_more then removelast fetched else fetched in
        Ok (mkPage space_id page (last_sequence_of page after_local_sequence) has_more)
    end.

Definition changes_after (db : Database) (space_id : list Z) (after_local_sequence limit : Z) :
    result RepositoryError OperationChangePage :=
  if negb (in_limit limit MAX_CHANGE_LIMIT)
  then topology (str "change limit must be between 1 and 200")
  else load_changes db space_id after_local_sequence limit.
End Repository.
