(* ===== verification/RepositoryQueries.v ===== *)
(** * Peer reads, deletion and client queries (crates/fractonica-store-sqlite/src/signed_repository.rs)

    The second half of the signed repository: the paired read that consumes a nonce,
    the deletion of a workspace, the client projections and the repository instance
    that [ApplicationService] runs on. *)
From S2P Require Import Prelude Bytes Floats Crypto Content Cbor Trust DataModel CanonicalBody Envelope.
From S2P Require Import Authorization Peer Application Database Repository.

Section Queries.
Context `{Sha256} `{Ed25519} `{HalfFloat} `{Base64} `{!JsonNumber} `{!JsonSize}
  `{!ProjectionJson} `{!Lowercase}.

(** ** Peer reads *)

(** The completed pairing a proof must name in every column. *)
Definition pairing_matches (proof : PeerReadChangesProof.t) (row : PairingRow) : bool :=
  list_eqb (pairing_invitation_id row) (PeerReadChangesProof.session_id proof)
  && eqb (pairing_state row) PairingLifecycle.Completed
  && list_eqb (pairing_space_id row) (PeerReadChangesProof.space_id proof)
  && eqb (pairing_joiner_node_id row) (Some (PeerReadChangesProof.node_id proof))
  && eqb (pairing_subject_actor_id row) (Some (PeerReadChangesProof.actor_id proof))
  && eqb (pairing_grant_operation_id row) (Some (PeerReadChangesProof.grant_operation_id proof)).

(** The key of a nonce row, and [ORDER BY expires_at_unix_ms] with the index order of
    the rest of the key for equal times. *)
Definition nonce_key (row : NonceRow) : list Z * list Z := (nonce_invitation_id row, nonce_value row).
Definition nonce_order (a b : NonceRow) : Prop :=
  nonce_expires_at_unix_ms a < nonce_expires_at_unix_ms b
  \/ nonce_expires_at_unix_ms a = nonce_expires_at_unix_ms b
     /\ bytes_le (nonce_invitation_id a ++ nonce_value a) (nonce_invitation_id b ++ nonce_value b).
#[export] Instance nonce_order_dec a b : Decision (nonce_order a b).
Proof. unfold nonce_order. apply _. Defined.

(** The cleanup of one batch of expired nonces. *)
Definition delete_expired_nonces (db : Database) (now_unix_ms : Z) : Database :=
  let expired :=
    firstn PEER_NONCE_CLEANUP_BATCH
      (merge_sort nonce_order
         (select (fun row => nonce_expires_at_unix_ms row <=? now_unix_ms) (peer_request_nonces db))) in
  with_nonces db
    (delete_rows (fun row => contains (nonce_key row) (List.map nonce_key expired))
       (peer_request_nonces db)).

(** The CHECK and foreign key conditions on a new nonce row; its primary key is the
    replay test that precedes. *)
Definition nonce_constraints (db : Database) (row : NonceRow) (consumed_at_unix_ms : Z) : bool :=
  (length (nonce_invitation_id row) =? 16)%nat && (length (nonce_value row) =? 16)%nat
  && (0 <=? nonce_expires_at_unix_ms row) && (0 <=? consumed_at_unix_ms)
  && exists_row (fun session => list_eqb (pairing_invitation_id session) (nonce_invitation_id row))
       (pairing_sessions db).

Definition peer_transaction (db : Database) (request : PeerReadChangesRequest) :
    result RepositoryError (OperationChangePage * Database) :=
  let now := peer_received_at_unix_ms request in
  let proof := Application.proof request in
  check map_err (fun _ => PeerUnauthorized) (PeerReadChangesProof.verify proof now);
  if negb (exists_row (pairing_matches proof) (pairing_sessions db)) then Err PeerUnauthorized
  else
    let view : CapabilityView := capability_view db in
    check map_err (fun _ => PeerUnauthorized)
      (authorize_capability_action (PeerReadChangesProof.space_id proof)
         (PeerReadChangesProof.actor_id proof) [PeerReadChangesProof.grant_operation_id proof]
         CapabilityAction.ReadSpace now);
    let db := delete_expired_nonces db now in
    let session := PeerReadChangesProof.session_id proof in
    let nonce := PeerReadChangesProof.nonce proof in
    if exists_row (fun row => list_eqb (nonce_invitation_id row) session
                              && list_eqb (nonce_value row) nonce) (peer_request_nonces db)
    then Err PeerReplay
    else
      let active := count_rows (fun row => list_eqb (nonce_invitation_id row) session
                                           && (now <? nonce_expires_at_unix_ms row))
                      (peer_request_nonces db) in
      if MAX_ACTIVE_PEER_NONCES_PER_SESSION <=? active then Err PeerUnauthorized
      else
        let row := mkNonceRow session nonce (PeerReadChangesProof.expires_at_unix_ms proof) in
        check constraint (nonce_constraints db row now);
        let db := with_nonces db (peer_request_nonces db ++ [row]) in
        let? page := load_changes db (PeerReadChangesProof.space_id proof)
          (PeerReadChangesProof.after proof) (PeerReadChangesProof.limit proof) in
        Ok (page, db).

Definition peer_changes (db : Database) (request : PeerReadChangesRequest) :
    result RepositoryError OperationChangePage * Database :=
  commit (peer_transaction db request) db.

Definition authorize_stored_capability_action (db : Database)
    (space_id actor_id grant_operation_id : list Z) (action : CapabilityAction.t) (now_unix_ms : Z) :
    result RepositoryError unit :=
  let view : CapabilityView := capability_view db in
  map_err (fun _ => PeerUnauthorized)
    (authorize_capability_action space_id actor_id [grant_operation_id] action now_unix_ms).

(** ** Deletion *)

(** The statements of [delete_space], in order.  [defer_foreign_keys] postpones the
    RESTRICT actions to the commit, where no row of the space is left to violate them;
    the nonces of a deleted pairing go with it (ON DELETE CASCADE). *)
Definition delete_pairings (db : Database) (space_id : list Z) : Database :=
  let removed := List.map pairing_invitation_id
    (select (fun row => list_eqb (pairing_space_id row) space_id) (pairing_sessions db)) in
  with_nonces
    (with_pairings db
       (delete_rows (fun row => list_eqb (pairing_space_id row) space_id) (pairing_sessions db)))
    (delete_rows (fun row => contains (nonce_invitation_id row) removed) (peer_request_nonces db)).

Definition with_operations (db : Database) (rows : list OperationRow) : Database :=
  mkDatabase (admission_clock db) (last_sequence db) rows (space_rows db) (entity_heads db)
    (client_entity_visibility db) (capability_grants db) (capability_grant_revocations db)
    (client_operation_projections db) (pairing_sessions db) (peer_request_nonces db).

Definition delete_transaction (db : Database) (space_id : list Z) :
    result RepositoryError (unit * Database) :=
  if negb (exists_row (fun row => list_eqb (descriptor_space_id row) space_id) (space_rows db))
  then Err (SpaceNotFound space_id)
  else
    let db := delete_pairings db space_id in
    let db := with_projections db (delete_rows
      (fun row => list_eqb (projection_space_id row) space_id) (client_operation_projections db)) in
    let db := with_revocations db (delete_rows
      (fun row => list_eqb (revocation_space_id row) space_id) (capability_grant_revocations db)) in
    let db := with_visibility db (delete_rows
      (fun row => list_eqb (visibility_space_id row) space_id) (client_entity_visibility db)) in
    let db := with_heads db (delete_rows
      (fun row => list_eqb (head_space_id row) space_id) (entity_heads db)) in
    let db := with_grants db (delete_rows
      (fun row => list_eqb (grant_space_id row) space_id) (capability_grants db)) in
    let db := with_spaces db (delete_rows
      (fun row => list_eqb (descriptor_space_id row) space_id) (space_rows db)) in
    let db := with_operations db (delete_rows
      (fun row => list_eqb (row_space_id row) space_id) (operations db)) in
    Ok (tt, db).

Definition delete_space (db : Database) (space_id : list Z) : result RepositoryError unit * Database :=
  commit (delete_transaction db space_id) db.

(** ** Client queries *)

(** The join of a projection with the head it projects; [entity_heads] is keyed by
    space and operation, so at most one head matches. *)
Definition is_live_projection (db : Database) (row : ProjectionRow) : bool :=
  exists_row (fun head =>
    list_eqb (head_space_id head) (projection_space_id row)
    && list_eqb (head_entity_id head) (projection_entity_id row)
    && eqb (head_schema head) (projection_schema row)
    && list_eqb (head_id head) (projection_operation_id row)) (entity_heads db)
  && negb (projection_tombstone row).

Definition is_temporal (schema : EntitySchema.t) : bool :=
  match schema with EntitySchema.Record_ | EntitySchema.Event => true | _ => false end.

(** [COALESCE(p.start_at_unix_ms, -1)] and [COALESCE(p.sort_text, '')]. *)
Definition sort_start (row : ProjectionRow) : Z := default (-1) (projection_start row).
Definition sort_key (row : ProjectionRow) : list Z := default [] (projection_sort_text row).

(** [ORDER BY ..., p.entity_id, p.operation_id], strictly: the row comes after the
    position of a cursor. *)
Definition ids_after (entity_id operation_id entity_id' operation_id' : list Z) : bool :=
  bytes_ltb entity_id entity_id'
  || (list_eqb entity_id entity_id' && bytes_ltb operation_id operation_id').

Definition position_after (temporal : bool) (start : Z) (text entity_id operation_id : list Z)
    (row : ProjectionRow) : bool :=
  let ids := ids_after entity_id operation_id (projection_entity_id row) (projection_operation_id row) in
  if temporal then (sort_start row <? start) || ((sort_start row =? start) && ids)
  else bytes_ltb text (sort_key row) || (list_eqb (sort_key row) text && ids).

(** [{predicate}]: a cursor without the component of the order selects everything. *)
Definition after_cursor (temporal : bool) (cursor : option ClientProjectionCursor)
    (row : ProjectionRow) : bool :=
  match cursor with
  | None => true
  | Some c =>
      if temporal then
        match cursor_sort_number c with
        | None => true
        | Some start => position_after true start [] (cursor_entity_id c) (cursor_operation_id c) row
        end
      else
        match cursor_sort_text c with
        | None => true
        | Some text => position_after false 0 text (cursor_entity_id c) (cursor_operation_id c) row
        end
  end.

Definition projection_order (temporal : bool) (a b : ProjectionRow) : Prop :=
  position_after temporal (sort_start b) (sort_key b) (projection_entity_id b)
    (projection_operation_id b) a = false.
#[export] Instance projection_order_dec temporal a b : Decision (projection_order temporal a b).
Proof. unfold projection_order. apply _. Defined.

(** The loop over the fetched rows. *)
Definition summary_of (db : Database) (row : ProjectionRow) : result RepositoryError ClientEntitySummary :=
  let conflicted :=
    1 <? count_rows (head_of_entity (projection_space_id row) (projection_entity_id row)) (entity_heads db) in
  let? found := load_stored db (projection_operation_id row) in
  let? operation := ok_or found (Corrupt (Message (str "projected operation is missing"))) in
  let? resource_count := nonnegative_u64 (projection_resource_count row) in
  let? media_bytes := nonnegative_u64 (projection_media_bytes row) in
  Ok (mkSummary operation (projection_visibility row) conflicted (projection_start row)
        (projection_end row) (projection_sort_text row) resource_count media_bytes).

Definition cursor_of (temporal : bool) (last : ClientEntitySummary) : ClientProjectionCursor :=
  let operation := Application.operation (summary_operation last) in
  mkCursor (if temporal then Some (default (-1) (summary_start_at_unix_ms last)) else None)
    (if temporal then None else Some (default [] (summary_sort_text last)))
    (OperationEnvelope.entity_id operation) (OperationEnvelope.operation_id operation).

(** The rows of one page, one more than the limit. *)
Definition projected_rows (db : Database) (space_id : list Z) (schema : EntitySchema.t)
    (cursor : option ClientProjectionCursor) (limit : Z) : list ProjectionRow :=
  let temporal := is_temporal schema in
  firstn (Z.to_nat (limit + 1))
    (merge_sort (projection_order temporal)
       (select (fun row =>
          list_eqb (projection_space_id row) space_id && eqb (projection_schema row) schema
          && is_live_projection db row && after_cursor temporal cursor row)
          (client_operation_projections db))).

Definition load_client_entities (db : Database) (space_id : list Z) (schema : EntitySchema.t)
    (cursor : option ClientProjectionCursor) (limit : Z) : result RepositoryError ClientEntityPage :=
  let projected := projected_rows db space_id schema cursor limit in
  let has_more := limit <? Z.of_nat (length projected) in
  let projected := if has_more then removelast projected else projected in
  let? items := collect (summary_of db) projected in
  let next_cursor :=
    if has_more then cursor_of (is_temporal schema) <$> last items else None in
  Ok (mkClientPage space_id schema items next_cursor).

Definition client_entities (db : Database) (space_id : list Z) (schema : EntitySchema.t)
    (cursor : option ClientProjectionCursor) (limit : Z) : result RepositoryError ClientEntityPage :=
  if negb (in_limit limit MAX_CLIENT_QUERY_LIMIT)
  then topology (str "client query limit must be between 1 and 200")
  else
    check require_space db space_id;
    load_client_entities db space_id schema cursor limit.

(** [count(DISTINCT CASE WHEN p.schema_id = .. THEN p.entity_id END)]. *)
Definition count_entities (schema : EntitySchema.t) (rows : list ProjectionRow) : Z :=
  Z.of_nat (length (remove_dups (List.map projection_entity_id
    (select (fun row => eqb (projection_schema row) schema) rows)))).
(** [coalesce(sum(..), 0)]: the sum of an integer column fails when it overflows. *)
Definition sum_column (column : ProjectionRow -> Z) (rows : list ProjectionRow) :
    result RepositoryError Z :=
  ok_or (checked_i64 (fold_right (fun row total => column row + total) 0 rows))
    (Unavailable (Message (str "integer overflow"))).

Definition load_client_stats (db : Database) (space_id : list Z) : result RepositoryError ClientStats :=
  let rows := select (fun row => list_eqb (projection_space_id row) space_id && is_live_projection db row)
    (client_operation_projections db) in
  let? media_files := sum_column projection_resource_count rows in
  let? media_bytes := sum_column projection_media_bytes rows in
  let? records := nonnegative_u64 (count_entities EntitySchema.Record_ rows) in
  let? events := nonnegative_u64 (count_entities EntitySchema.Event rows) in
  let? tags := nonnegative_u64 (count_entities EntitySchema.Tag rows) in
  let? profiles := nonnegative_u64 (count_entities EntitySchema.Profile rows) in
  let? media_files := nonnegative_u64 media_files in
  let? media_bytes := nonnegative_u64 media_bytes in
  Ok (mkStats records events tags profiles media_files media_bytes).

Definition client_stats (db : Database) (space_id : list Z) : result RepositoryError ClientStats :=
  check require_space db space_id;
  load_client_stats db space_id.

(** ** Rebuilding the projections *)
Fixpoint rebuild_loop (db : Database) (operations : list OperationEnvelope.t) (rebuilt : Z) :
    result RepositoryError (Z * Database) :=
  match operations with
  | [] => Ok (rebuilt, db)
  | operation :: operations =>
      let? db := insert_client_projection db operation in
      let? rebuilt :=
        if is_client_schema (OperationEnvelope.schema operation)
        then ok_or (checked_u 64 (rebuilt + 1))
               (Corrupt (Message (str "client projection count overflow")))
        else Ok rebuilt in
      rebuild_loop db operations rebuilt
  end.

Definition rebuild_client_projections (db : Database) : result RepositoryError Z * Database :=
  commit
    (let? stored := collect decode_stored_values (operations db) in
     rebuild_loop (with_projections db []) (List.map Application.operation stored) 0) db.

(** ** The port *)

(** A bootstrap never reaches its [unreachable!]: [validate_bootstrap] has matched the
    body ([RepositorySteps.expected_space_total]). *)
#[export] Instance sqlite_repository : OperationRepository := {|
  Store := Database;
  repo_space := load_space;
  repo_spaces := Repository.spaces;
  repo_delete_space := delete_space;
  repo_bootstrap_trusted_space := fun db request =>
    default (topology (str "unreachable"), db) (Repository.bootstrap_trusted_space db request);
  repo_submit_operation := Repository.submit_operation;
  repo_operation := operation_of;
  repo_entity_state := Repository.entity_state;
  repo_changes_after := Repository.changes_after;
  repo_peer_changes := peer_changes;
  repo_client_entities := client_entities;
  repo_client_stats := client_stats
|}.
End Queries.
