(* ===== verification/RepositoryLog.v ===== *)
(** * The log behind a database

    The rows of [operations] are the images of a list of stored operations, the log;
    this file says when a database represents a log and what one insertion does to
    both.  [RepositoryTheory] carries it through every request. *)
From S2P Require Import Prelude Bytes Floats Crypto Content Cbor Trust TrustTheory DataModel CanonicalBody.
From S2P Require Import BodyTheory Envelope EnvelopeTheory ReducerTheory Authorization Peer.
From S2P Require Import Application Database Repository.

(** ** Rows *)
Lemma query_row_Some {A} (f : A -> bool) l a : query_row f l = Some a -> a ∈ l /\ f a = true.
Proof. intros [? ?]%find_some. by rewrite list_elem_of_In. Qed.
Lemma query_row_None {A} (f : A -> bool) l : query_row f l = None <-> forall a, a ∈ l -> f a = false.
Proof.
  split.
  - intros Hn a Ha. apply (find_none f l Hn). by apply list_elem_of_In.
  - intros Hf. unfold query_row. destruct (List.find f l) as [a|] eqn:E; [|done].
    apply find_some in E as [Hin Ha]. rewrite Hf in Ha; [done|by apply list_elem_of_In].
Qed.
Lemma query_row_app {A} (f : A -> bool) l l' :
  query_row f (l ++ l') = match query_row f l with Some a => Some a | None => query_row f l' end.
Proof. unfold query_row. induction l as [|a l IH]; [done|]. cbn. by destruct (f a). Qed.
Lemma exists_row_true {A} (f : A -> bool) l : exists_row f l = true <-> exists a, a ∈ l /\ f a = true.
Proof. unfold exists_row. rewrite existsb_exists. by setoid_rewrite list_elem_of_In. Qed.
Lemma exists_row_false {A} (f : A -> bool) l : exists_row f l = false <-> forall a, a ∈ l -> f a = false.
Proof.
  rewrite <- query_row_None. unfold exists_row, query_row. induction l as [|a l IH]; [done|].
  cbn. by destruct (f a).
Qed.
Lemma elem_of_select {A} (f : A -> bool) l a : a ∈ select f l <-> a ∈ l /\ f a = true.
Proof. unfold select. by rewrite !list_elem_of_In, filter_In. Qed.
Lemma elem_of_delete_rows {A} (f : A -> bool) l a : a ∈ delete_rows f l <-> a ∈ l /\ f a = false.
Proof. unfold delete_rows. by rewrite !list_elem_of_In, filter_In, negb_true_iff. Qed.
Lemma NoDup_select {A} (f : A -> bool) l : NoDup l -> NoDup (select f l).
Proof. rewrite !NoDup_ListNoDup. apply List.NoDup_filter. Qed.
Lemma query_row_delete {A} (f g : A -> bool) l :
  (forall a, f a = true -> g a = false) -> query_row f (delete_rows g l) = query_row f l.
Proof.
  intros Hfg. unfold query_row, delete_rows. induction l as [|a l IH]; [done|]. cbn.
  destruct (g a) eqn:Eg; cbn.
  - destruct (f a) eqn:Ef; [by rewrite Hfg in Eg|done].
  - by destruct (f a).
Qed.

Lemma delete_rows_twice {A} (f g : A -> bool) l :
  delete_rows g (delete_rows f l) = delete_rows (fun a => f a || g a) l.
Proof.
  unfold delete_rows. induction l as [|a l IH]; [done|]. cbn.
  destruct (f a); cbn; [done|]. by destruct (g a); cbn; rewrite IH.
Qed.
Lemma delete_rows_ext {A} (f g : A -> bool) l : (forall a, f a = g a) -> delete_rows f l = delete_rows g l.
Proof. intros Hfg. unfold delete_rows. apply filter_ext. intros a. by rewrite Hfg. Qed.
Lemma delete_rows_none {A} (f : A -> bool) l : (forall a, f a = false) -> delete_rows f l = l.
Proof. intros Hf. unfold delete_rows. induction l as [|a l IH]; [done|]. cbn. by rewrite Hf, IH. Qed.

(** ** Decoding what was written *)
Section Log.
Context `{Sha256} `{Ed25519} `{HalfFloat} `{Base64} `{!JsonNumber} `{!JsonSize}
  `{!ProjectionJson} `{!Lowercase}.
Implicit Types (o : OperationEnvelope.t) (s : StoredOperation) (log : list StoredOperation)
  (db : Database).

Notation op := Application.operation.
Notation id := OperationEnvelope.operation_id.
Notation parents := OperationEnvelope.causal_parents.

(** The ranges the types of the source enforce. *)
Definition typed_operation o : Prop :=
  Forall is_byte (OperationEnvelope.cose_sign1 o) /\ body_typed (OperationEnvelope.body o).

(** Bodies without metadata: their JSON text holds no floating-point number. *)
Definition floatless (body : OperationBody.t) : bool :=
  match body with
  | OperationBody.PutRecord _ | OperationBody.PutTag _ | OperationBody.PutEvent _
  | OperationBody.PutProfile _ => false
  | OperationBody.Tombstone | OperationBody.SpaceGenesis _ | OperationBody.CapabilityGrant _
  | OperationBody.CapabilityRevoke _ => true
  end.

(** What is assumed of [serde_json] on the text of a verified envelope: what it reads is
    in the ranges of its Rust types, strings are read exactly (the COSE bytes are a
    base64url string), and without floating-point numbers the envelope reads back.
    Nothing is assumed of the numbers in metadata: without the feature
    [float_roundtrip], which the workspace does not enable, the parser can return a
    neighbouring [f64]. *)
Record json_exact : Prop := {
  json_strings o text o' :
    typed_operation o -> OperationEnvelope.verify o = Ok tt -> to_json o = Some text ->
    from_json text = Some o' ->
    typed_operation o' /\ OperationEnvelope.cose_sign1 o' = OperationEnvelope.cose_sign1 o;
  json_floatless o text :
    typed_operation o -> OperationEnvelope.verify o = Ok tt ->
    floatless (OperationEnvelope.body o) = true -> to_json o = Some text -> from_json text = Some o
}.

(** The JSON text of the envelope reads back as the envelope. *)
Definition reads_back o : Prop := exists text, to_json o = Some text /\ from_json text = Some o.

(** A verified envelope is never read as another verified envelope. *)
Lemma read_verified o text o' :
  json_exact -> typed_operation o -> OperationEnvelope.verify o = Ok tt -> to_json o = Some text ->
  from_json text = Some o' -> OperationEnvelope.verify o' = Ok tt -> o' = o.
Proof.
  intros Hj Ho Hv Et Ef Hv'. destruct (json_strings Hj o text o' Ho Hv Et Ef) as [[Hb' Ht'] Ec].
  destruct Ho as [Hb Ht].
  pose proof (verified_envelope_parses o Hb Ht Hv) as E. pose proof (verified_envelope_parses o' Hb' Ht' Hv') as E'.
  rewrite Ec, E in E'. by apply Ok_inj in E' as ->.
Qed.

Lemma floatless_reads_back o :
  json_exact -> typed_operation o -> OperationEnvelope.verify o = Ok tt ->
  floatless (OperationEnvelope.body o) = true -> (exists text, to_json o = Some text) -> reads_back o.
Proof. intros Hj Ht Hv Hf [text Et]. exists text. split; [done|]. by apply (json_floatless Hj). Qed.

Definition payload_of o : list Z :=
  match SignedOperation.from_cose_sign1 (OperationEnvelope.cose_sign1 o) with
  | Ok signed => SignedOperation.payload signed
  | Err _ => []
  end.

(** The row of a stored operation. *)
Definition row_for s : OperationRow :=
  mkOperationRow (local_sequence s) (id (op s)) (OperationEnvelope.protocol_version (op s))
    (OperationEnvelope.space_id (op s)) (OperationEnvelope.entity_id (op s))
    (OperationEnvelope.schema (op s)) (OperationEnvelope.actor_id (op s))
    (OperationEnvelope.occurred_at_unix_ms (op s)) (received_at_unix_ms s)
    (OperationEnvelope.nonce (op s)) (payload_of (op s)) (OperationEnvelope.cose_sign1 (op s))
    (default [] (to_json (op s))).

(** What admission makes true of every stored operation by itself. *)
Record valid s : Prop := {
  valid_typed : typed_operation (op s);
  valid_verified : OperationEnvelope.verify (op s) = Ok tt;
  valid_json : exists text, to_json (op s) = Some text;
  valid_sequence : 0 < local_sequence s
}.

(** The signature checks [verify] includes. *)
Lemma verify_signed o :
  OperationEnvelope.verify o = Ok tt ->
  exists signed, SignedOperation.from_cose_sign1 (OperationEnvelope.cose_sign1 o) = Ok signed
    /\ is_ok (SignedOperation.verify signed) = true /\ SignedOperation.operation_id signed = id o.
Proof.
  unfold OperationEnvelope.verify. intros Hv. inv_ok.
  match goal with Hs : SignedOperation.from_cose_sign1 _ = Ok ?s |- _ => exists s end.
  repeat split; try done.
  - match goal with Hs : SignedOperation.verify _ = Ok _ |- _ => by rewrite Hs end.
  - match goal with
    | Hr : OperationEnvelope.require_projection (str "operationId") _ = Ok _ |- _ =>
        by apply require_projection_Ok, list_eqb_eq in Hr
    end.
Qed.

Lemma sorted_bytes_NoDup l : Sorted.Sorted bytes_lt l -> NoDup l.
Proof.
  intros Hsort%Sorted.Sorted_StronglySorted; [|intros ? ? ?; apply bytes_lt_trans].
  induction Hsort as [|p l _ IH Hp]; [constructor|]. constructor; [|done]. intros Hin.
  rewrite Forall_forall in Hp. by apply (bytes_lt_irrefl p), Hp.
Qed.

Lemma verify_parents o :
  OperationEnvelope.verify o = Ok tt -> NoDup (parents o) /\ id o ∉ parents o.
Proof.
  unfold OperationEnvelope.verify. intros Hv. inv_ok. unfold contains in *. bool_prop. split; [|done].
  match goal with
  | Hs : validate_sorted_bytes (str "causalParents") _ = Ok _ |- _ => apply sorted_bytes_Ok in Hs
  end.
  by apply sorted_bytes_NoDup.
Qed.

Lemma list_eqb_refl (l : list Z) : list_eqb l l = true.
Proof. by apply list_eqb_eq. Qed.

(** The row of a stored operation whose text reads back decodes to it. *)
Lemma decode_row s : valid s -> reads_back (op s) -> decode_stored_values (row_for s) = Ok s.
Proof.
  intros [Ht Hv _ Hs] (text & Ej & Ef). unfold decode_stored_values.
  destruct s as [seq recv o]. cbn [row_for row_projection_json row_cose_sign1 op local_sequence
    row_local_sequence received_at_unix_ms row_received_at_unix_ms] in *.
  rewrite Ej. cbn [from_option Datatypes.id]. rewrite Ef. cbn [ok_or]. rewrite Ej. cbn [ok_or].
  rewrite list_eqb_refl. cbn [negb]. rewrite Hv. cbn [map_err].
  destruct (verify_signed o Hv) as (signed & Es & Hok & Eid). rewrite Es. cbn [map_err].
  destruct (SignedOperation.verify signed) as [|]; [|done]. cbn [map_err].
  cbn. unfold payload_of. rewrite Es, Eid, !list_eqb_refl, Z.eqb_refl, eqb_refl', Z.eqb_refl. cbn.
  unfold positive_u64. apply Z.ltb_lt in Hs. by rewrite Hs.
Qed.

(** Every failure to decode a row is reported as corruption. *)
Lemma decode_corrupt row e : decode_stored_values row = Err e -> exists c, e = Corrupt c.
Proof.
  unfold decode_stored_values, corrupt, positive_u64, ok_or, map_err. intros E.
  repeat (case_match; simplify_eq; eauto); unfold corrupt in *; simplify_eq; eauto.
Qed.

(** Decoding returns the stored operation, or reports corruption: when the text does not
    read back. *)
Lemma decode_row_cases s :
  json_exact -> valid s ->
  (reads_back (op s) /\ decode_stored_values (row_for s) = Ok s)
  \/ (~ reads_back (op s) /\ exists e, decode_stored_values (row_for s) = Err (Corrupt e)).
Proof.
  intros Hj Hvalid. destruct (decode_stored_values (row_for s)) as [s'|e] eqn:E.
  - left. assert (Hrb : reads_back (op s)); [|split; [done|]; by rewrite <- E, decode_row].
    destruct Hvalid as [Ht Hv [text Et] _]. unfold decode_stored_values in E. cbn [row_for row_projection_json] in E.
    rewrite Et in E. cbn [from_option Datatypes.id] in E.
    destruct (from_json text) as [o'|] eqn:Ef; [|done]. cbn [ok_or] in E.
    destruct (to_json o') as [text'|]; [|done]. cbn [ok_or] in E. destruct (negb _); [done|].
    destruct (OperationEnvelope.verify o') as [[]|] eqn:Hv'; [|done].
    exists text. split; [done|]. by rewrite Ef, (read_verified (op s) text o').
  - right. split; [intros Hrb; by rewrite decode_row in E|]. by apply decode_corrupt in E as [c ->]; exists c.
Qed.

(** ** One insertion *)
Definition head_for o : HeadRow :=
  mkHeadRow (OperationEnvelope.space_id o) (OperationEnvelope.entity_id o)
    (OperationEnvelope.schema o) (id o).

(** An operation that a parent reference of [o] can mean. *)
Definition same_entity o o' : Prop :=
  OperationEnvelope.space_id o = OperationEnvelope.space_id o'
  /\ OperationEnvelope.entity_id o = OperationEnvelope.entity_id o'
  /\ OperationEnvelope.schema o = OperationEnvelope.schema o'.

Definition visibility_rows_of o : list VisibilityRow :=
  match parents o, OperationBody.declared_visibility (OperationEnvelope.body o) with
  | [], Some visibility =>
      [mkVisibilityRow (OperationEnvelope.space_id o) (OperationEnvelope.entity_id o)
         (OperationEnvelope.schema o) (id o) visibility]
  | _, _ => []
  end.

Definition grant_rows_of o : list GrantRow :=
  match OperationEnvelope.body o with
  | OperationBody.CapabilityGrant grant =>
      [mkGrantRow (OperationEnvelope.space_id o) (id o) (OperationEnvelope.actor_id o)
         (CapabilityGrant.subject grant)]
  | _ => []
  end.
Definition revocation_rows_of o : list RevocationRow :=
  match OperationEnvelope.body o with
  | OperationBody.CapabilityRevoke revocation =>
      [mkRevocationRow (OperationEnvelope.space_id o) (id o) (CapabilityRevocation.grant_id revocation)]
  | _ => []
  end.

(** The heads left when [o] is inserted. *)
Definition heads_after o (rows : list HeadRow) : list HeadRow :=
  delete_rows (fun row => list_eqb (head_space_id row) (OperationEnvelope.space_id o)
                          && contains (head_id row) (parents o)) rows ++ [head_for o].

Record inserted db o (received_at : Z) s db' : Prop := {
  inserted_stored : s = mkStored (last_sequence db + 1) received_at o;
  inserted_json : exists text, to_json o = Some text;
  inserted_sequence : 0 < local_sequence s;
  inserted_time : 0 <= received_at;
  inserted_rows : operations db' = operations db ++ [row_for s];
  inserted_last : last_sequence db' = last_sequence db + 1;
  inserted_bound : last_sequence db + 1 < 2 ^ 63;
  inserted_clock : admission_clock db' = admission_clock db;
  inserted_spaces : space_rows db' = space_rows db;
  inserted_pairings : pairing_sessions db' = pairing_sessions db;
  inserted_nonces : peer_request_nonces db' = peer_request_nonces db;
  inserted_heads : entity_heads db' = heads_after o (entity_heads db);
  inserted_visibility : client_entity_visibility db' = client_entity_visibility db ++ visibility_rows_of o;
  inserted_new_visibility : forall row, row ∈ client_entity_visibility db -> visibility_rows_of o <> [] ->
    ~ (visibility_space_id row = OperationEnvelope.space_id o
       /\ visibility_entity_id row = OperationEnvelope.entity_id o);
  inserted_projection : exists row, client_projection db' o = Ok row
    /\ client_operation_projections db' = client_operation_projections db ++ option_list row;
  inserted_grants : capability_grants db' = capability_grants db ++ grant_rows_of o;
  inserted_revocations :
    capability_grant_revocations db' = capability_grant_revocations db ++ revocation_rows_of o;
  inserted_target : forall revocation,
    OperationEnvelope.body o = OperationBody.CapabilityRevoke revocation ->
    is_admitted_grant db (OperationEnvelope.space_id o) (CapabilityRevocation.grant_id revocation) = true;
  inserted_scope : forall grant, OperationEnvelope.body o = OperationBody.CapabilityGrant grant ->
    grant_constraints grant = true;
  inserted_resources :
    resources_constraints (OperationBody.resources (OperationEnvelope.body o)) = true;
  inserted_fresh : forall row, row ∈ operations db -> row_operation_id row <> id o;
  inserted_space : exists space, space ∈ space_rows db
    /\ descriptor_space_id space = OperationEnvelope.space_id o;
  inserted_schema : forall row, row ∈ operations db ->
    row_space_id row = OperationEnvelope.space_id o -> row_entity_id row = OperationEnvelope.entity_id o ->
    row_schema row = OperationEnvelope.schema o;
  inserted_genesis : forall space, space ∈ space_rows db ->
    descriptor_space_id space = OperationEnvelope.space_id o -> genesis_operation_id space = id o ->
    OperationEnvelope.schema o = EntitySchema.SpaceGenesis
    /\ exists space', space' ∈ space_rows db /\ descriptor_space_id space' = OperationEnvelope.space_id o
       /\ genesis_operation_id space' = id o /\ controller_actor_id space' = OperationEnvelope.actor_id o;
  inserted_parents : forall p, p ∈ parents o -> exists row, row ∈ operations db
    /\ row_operation_id row = p /\ row_space_id row = OperationEnvelope.space_id o
    /\ row_entity_id row = OperationEnvelope.entity_id o /\ row_schema row = OperationEnvelope.schema o;
  inserted_authorization : forall r, r ∈ OperationEnvelope.authorization o -> exists row,
    row ∈ operations db /\ row_operation_id row = r /\ row_space_id row = OperationEnvelope.space_id o
}.

Lemma constraint_Ok b : constraint b = Ok tt <-> b = true.
Proof. by destruct b. Qed.

(** The parent loop deletes the heads it names and needs every parent's row. *)
Lemma insert_parents_Ok o ps : forall db db', insert_parents o ps db = Ok db' ->
  db' = with_heads db (delete_rows (fun row => list_eqb (head_space_id row) (OperationEnvelope.space_id o)
          && contains (head_id row) ps) (entity_heads db))
  /\ forall p, p ∈ ps -> p <> id o /\ exists row, row ∈ operations db
       /\ row_operation_id row = p /\ row_space_id row = OperationEnvelope.space_id o
       /\ row_entity_id row = OperationEnvelope.entity_id o /\ row_schema row = OperationEnvelope.schema o.
Proof.
  induction ps as [|p ps IH]; intros db db'; cbn [insert_parents].
  - intros [= <-]. split; [|by intros p ?%not_elem_of_nil].
    rewrite delete_rows_none; [by destruct db|]. intros row. unfold contains.
    rewrite bool_decide_eq_false_2 by apply not_elem_of_nil. apply andb_false_r.
  - unfold insert_parent. intros Hr. inv_ok. apply constraint_Ok in E0. bool_prop.
    apply IH in Hr as [-> Hps]. clear IH. cbn [with_heads operations entity_heads] in *. split.
    + unfold with_heads. cbn [entity_heads]. f_equal. rewrite delete_rows_twice. apply delete_rows_ext. intros row.
      rewrite <- andb_orb_distrib_r. f_equal. unfold contains, list_eqb.
      repeat case_bool_decide; cbn; try done; set_solver.
    + intros q [->|Hq]%elem_of_cons; [|by apply Hps]. split; [by apply list_eqb_neq|].
      match goal with Hx : exists_row _ _ = true |- _ => apply exists_row_true in Hx as (row & Hin & Hrow) end. bool_prop. exists row.
      unfold list_eqb, eqb in *. bool_prop. done.
Qed.

(** The other statements, as equations. *)
Lemma insert_visibility_Ok db db' o :
  insert_visibility db o = Ok db' ->
  db' = with_visibility db (client_entity_visibility db ++ visibility_rows_of o)
  /\ forall row, row ∈ client_entity_visibility db -> visibility_rows_of o <> [] ->
       ~ (visibility_space_id row = OperationEnvelope.space_id o
          /\ visibility_entity_id row = OperationEnvelope.entity_id o).
Proof.
  unfold insert_visibility, visibility_rows_of.
  destruct (parents o); [|intros [= <-]; rewrite app_nil_r; by destruct db].
  destruct (OperationBody.declared_visibility _); [|intros [= <-]; rewrite app_nil_r; by destruct db].
  intros Hr. inv_ok. apply constraint_Ok in E. bool_prop. split; [done|].
  intros row Hrow _ [Hs He].
  match goal with Hx : exists_row _ _ = false |- _ => rewrite exists_row_false in Hx; specialize (Hx row Hrow) end.
  by rewrite Hs, He, !list_eqb_refl in *.
Qed.

Lemma insert_client_projection_Ok db db' o :
  insert_client_projection db o = Ok db' ->
  exists row, client_projection db o = Ok row
    /\ db' = with_projections db (client_operation_projections db ++ option_list row)
    /\ (row <> None -> forall other, other ∈ client_operation_projections db ->
         ~ (projection_space_id other = OperationEnvelope.space_id o
            /\ projection_operation_id other = id o)).
Proof.
  unfold insert_client_projection. intros Hr. inv_ok. exists a. split; [done|].
  destruct a as [row|]; cbn [option_list].
  - inv_ok. apply constraint_Ok in E0. bool_prop. split; [done|]. intros _ other Ho [Hs Hi].
    rewrite exists_row_false in E0. specialize (E0 other Ho).
    by rewrite Hs, Hi, !list_eqb_refl in E0.
  - inv_ok. rewrite app_nil_r. split; [by destruct db'|done].
Qed.

Lemma insert_capability_Ok db db' o :
  insert_capability db o = Ok db' ->
  db' = with_revocations (with_grants db (capability_grants db ++ grant_rows_of o))
          (capability_grant_revocations db ++ revocation_rows_of o)
  /\ (forall revocation, OperationEnvelope.body o = OperationBody.CapabilityRevoke revocation ->
        is_admitted_grant db (OperationEnvelope.space_id o) (CapabilityRevocation.grant_id revocation) = true)
  /\ (forall grant, OperationEnvelope.body o = OperationBody.CapabilityGrant grant ->
        grant_constraints grant = true).
Proof.
  unfold insert_capability, grant_rows_of, revocation_rows_of.
  destruct (OperationEnvelope.body o) as [| | | | | |g|r]; unfold insert_grant, insert_revocation;
    intros Hr; inv_ok; rewrite ?app_nil_r; (split; [done || by destruct db'|]); try done;
    apply constraint_Ok in E; bool_prop; split; intros ? [= <-]; done.
Qed.

Lemma client_projection_ext db db' o :
  client_entity_visibility db = client_entity_visibility db' ->
  client_projection db o = client_projection db' o.
Proof. intros E. unfold client_projection. by rewrite E. Qed.

(** The row a statement finds for a reference is an older one. *)
Lemma older_row db r a (P : OperationRow -> Prop) :
  (exists row, row ∈ operations db ++ [r] /\ row_operation_id row = a /\ P row) ->
  a <> row_operation_id r -> exists row, row ∈ operations db /\ row_operation_id row = a /\ P row.
Proof.
  intros (row & [Hin| ->%list_elem_of_singleton]%elem_of_app & <- & HP) Hne; [by exists row|done].
Qed.

Lemma row_for_of o signed seq received_at text :
  SignedOperation.from_cose_sign1 (OperationEnvelope.cose_sign1 o) = Ok signed ->
  to_json o = Some text ->
  row_of o signed seq received_at text = row_for (mkStored seq received_at o).
Proof. intros Es Ej. unfold row_of, row_for, payload_of. cbn. by rewrite Es, Ej. Qed.

(** What the conditions on a new row say. *)
Record row_admissible db o (received_at : Z) : Prop := {
  admissible_time : 0 <= received_at;
  admissible_fresh : forall row, row ∈ operations db -> row_operation_id row <> id o;
  admissible_space : exists space, space ∈ space_rows db
    /\ descriptor_space_id space = OperationEnvelope.space_id o;
  admissible_schema : forall row, row ∈ operations db ->
    row_space_id row = OperationEnvelope.space_id o -> row_entity_id row = OperationEnvelope.entity_id o ->
    row_schema row = OperationEnvelope.schema o;
  admissible_genesis : forall space, space ∈ space_rows db ->
    descriptor_space_id space = OperationEnvelope.space_id o -> genesis_operation_id space = id o ->
    OperationEnvelope.schema o = EntitySchema.SpaceGenesis
    /\ exists space', space' ∈ space_rows db /\ descriptor_space_id space' = OperationEnvelope.space_id o
       /\ genesis_operation_id space' = id o /\ controller_actor_id space' = OperationEnvelope.actor_id o
}.

Lemma operation_constraints_true db s :
  operation_constraints db (row_for s) = true -> row_admissible db (op s) (received_at_unix_ms s).
Proof.
  unfold operation_constraints. intros Hc. rewrite 4!andb_true_iff in Hc.
  destruct Hc as ((((Hrest & Hfresh) & Hspace) & Hschema) & Hgenesis). bool_prop.
  apply exists_row_true in Hspace as (space & Hin & Hsp).
  rewrite exists_row_false in Hfresh, Hschema.
  destruct s as [seq recv o]. cbn in *. constructor.
  - done.
  - intros row Hrow Heq. specialize (Hfresh row Hrow). by rewrite Heq, list_eqb_refl in Hfresh.
  - exists space. by apply list_eqb_eq in Hsp.
  - intros row Hrow Hs He. specialize (Hschema row Hrow). rewrite Hs, He, !list_eqb_refl in Hschema.
    cbn in Hschema. unfold eqb in Hschema. by bool_prop.
  - intros anchor Ha Hs Hi.
    assert (Hanchor : exists_row (fun space => list_eqb (descriptor_space_id space) (OperationEnvelope.space_id o)
      && list_eqb (genesis_operation_id space) (id o)) (space_rows db) = true).
    { apply exists_row_true. exists anchor. by rewrite Hs, Hi, !list_eqb_refl. }
    rewrite Hanchor, orb_true_r in Hgenesis. cbn [implb] in Hgenesis.
    apply exists_row_true in Hgenesis as (space' & Hin' & Hg). unfold eqb, list_eqb in Hg. bool_prop.
    split; [done|]. by exists space'.
Qed.

Lemma insert_operation_Ok db o received_at s db' :
  insert_operation db o received_at = Ok (s, db') -> inserted db o received_at s db'.
Proof.
  unfold insert_operation. intros Hr. inv_ok.
  rewrite (row_for_of _ _ _ _ _ E0 E) in *. apply constraint_Ok in E2, E10.
  apply andb_true_iff in E2 as [Hrow Hbound]. apply Z.ltb_lt in Hbound. apply operation_constraints_true in Hrow as [].
  cbn [op received_at_unix_ms row_local_sequence row_for local_sequence] in *.
  assert (Hseq : a3 = last_sequence db + 1 /\ 0 < a3).
  { unfold positive_u64 in E3. destruct (Z.ltb_spec 0 (last_sequence db + 1)); [|done].
    apply Ok_inj in E3 as <-. done. }
  destruct Hseq as [-> Hpos]. clear E3 E12 E6.
  apply insert_visibility_Ok in E4 as [-> Hnew].
  apply insert_client_projection_Ok in E5 as (row & Hproj & -> & _).
  apply insert_parents_Ok in E7 as [-> Hparents].
  unfold insert_head in E9. inv_ok.
  apply insert_capability_Ok in E11 as (-> & Htarget & Hscope).
  rewrite for_each_Ok in E8.
  assert (Hauth : forall r, r ∈ OperationEnvelope.authorization o -> exists row,
    row ∈ operations db /\ row_operation_id row = r /\ row_space_id row = OperationEnvelope.space_id o).
  { intros r Hin. apply E8, constraint_Ok in Hin as Hr. bool_prop.
    match goal with Hx : exists_row _ _ = true |- _ => apply exists_row_true in Hx as (row' & Hin' & Hr) end.
    unfold list_eqb in *. bool_prop.
    apply (older_row db (row_for (mkStored (last_sequence db + 1) received_at o)) r); [|done].
    by exists row'. }
  assert (Hpar : forall p, p ∈ parents o -> exists row, row ∈ operations db
    /\ row_operation_id row = p /\ row_space_id row = OperationEnvelope.space_id o
    /\ row_entity_id row = OperationEnvelope.entity_id o /\ row_schema row = OperationEnvelope.schema o).
  { intros p Hin. destruct (Hparents p Hin) as (Hne & row' & Hin' & Hid & Hrest).
    apply (older_row db (row_for (mkStored (last_sequence db + 1) received_at o)) p
      (fun row => row_space_id row = OperationEnvelope.space_id o
        /\ row_entity_id row = OperationEnvelope.entity_id o
        /\ row_schema row = OperationEnvelope.schema o)); [|done]. by exists row'. }
  constructor; try done.
  - by exists a1.
  - lia.
  - exists row. split; [|done]. rewrite <- Hproj. by apply client_projection_ext.
Qed.

(** ** Representation *)
Definition ops log : list OperationEnvelope.t := List.map op log.

Record log_ok log : Prop := {
  log_valid : forall s, s ∈ log -> valid s;
  log_ids : NoDup (ids (ops log));
  log_order : StronglySorted (fun a b => local_sequence a < local_sequence b
                                         /\ received_at_unix_ms a <= received_at_unix_ms b) log;
  log_parents : forall before s after, log = before ++ s :: after -> forall p, p ∈ parents (op s) ->
    exists q, q ∈ before /\ id (op q) = p /\ same_entity (op q) (op s);
  log_schemas : forall a b, a ∈ log -> b ∈ log ->
    OperationEnvelope.space_id (op a) = OperationEnvelope.space_id (op b) ->
    OperationEnvelope.entity_id (op a) = OperationEnvelope.entity_id (op b) -> same_entity (op a) (op b)
}.

(** The visibility an operation shares with its entity. *)
Definition visibility_agrees db o : Prop :=
  exists row, visibility_row db (OperationEnvelope.space_id o) (OperationEnvelope.entity_id o) = Some row
    /\ visibility_schema row = OperationEnvelope.schema o
    /\ forall v, OperationBody.declared_visibility (OperationEnvelope.body o) = Some v ->
         v = visibility_value row.

Record represents db log : Prop := {
  rep_log : log_ok log;
  rep_rows : operations db = List.map row_for log;
  rep_clock : exists clock, admission_clock db = Some clock /\ 0 <= clock
    /\ forall s, s ∈ log -> received_at_unix_ms s <= clock;
  rep_sequence : 0 <= last_sequence db < 2 ^ 63 /\ forall s, s ∈ log -> local_sequence s <= last_sequence db;
  rep_spaces : forall s, s ∈ log -> exists space, space ∈ space_rows db
    /\ descriptor_space_id space = OperationEnvelope.space_id (op s);
  rep_heads : forall h, h ∈ entity_heads db <->
    exists s, s ∈ log /\ h = head_for (op s) /\ id (op s) ∉ named_parents (ops log);
  rep_heads_NoDup : NoDup (entity_heads db);
  rep_head_bound : forall space entity,
    count_rows (head_of_entity space entity) (entity_heads db) <= MAX_ENTITY_HEADS;
  rep_visibility : forall s, s ∈ log -> is_client_schema (OperationEnvelope.schema (op s)) = true ->
    visibility_agrees db (op s);
  rep_projections : exists rows, Forall2 (fun s row => client_projection db (op s) = Ok row) log rows
    /\ client_operation_projections db = concat (List.map option_list rows);
  rep_grants : capability_grants db = concat (List.map (fun s => grant_rows_of (op s)) log);
  rep_revocations :
    capability_grant_revocations db = concat (List.map (fun s => revocation_rows_of (op s)) log)
}.

Lemma fresh_represents : represents fresh_database [].
Proof.
  constructor; cbn; try done.
  - constructor; try (by intros ? ?%not_elem_of_nil); try (by intros ? ? ?%not_elem_of_nil);
      try constructor. by intros [|] ? ? ?.
  - exists 0. do 2 (split; [done|]). by intros ? ?%not_elem_of_nil.
  - split; [done|]. by intros ? ?%not_elem_of_nil.
  - by intros ? ?%not_elem_of_nil.
  - intros h. split; [by intros ?%not_elem_of_nil|]. by intros (? & ?%not_elem_of_nil & _).
  - constructor.
  - by intros ? ?%not_elem_of_nil.
  - exists []. done.
Qed.

(** The clock, the pairings and the nonces are free. *)
Lemma represents_clock db log clock :
  represents db log -> (forall s, s ∈ log -> received_at_unix_ms s <= clock) -> 0 <= clock ->
  represents (with_clock db (Some clock)) log.
Proof. intros [] Ht Hc. constructor; try done. by exists clock. Qed.
Lemma represents_nonces db log rows : represents db log -> represents (with_nonces db rows) log.
Proof. intros []. by constructor. Qed.

Lemma visibility_agrees_app db rows o :
  visibility_agrees db o ->
  visibility_agrees (with_visibility db (client_entity_visibility db ++ rows)) o.
Proof.
  intros (row & Hrow & Hrest). exists row. split; [|done].
  unfold visibility_row in *. cbn. by rewrite query_row_app, Hrow.
Qed.

Lemma visibility_agrees_ext db db' o :
  client_entity_visibility db = client_entity_visibility db' ->
  visibility_agrees db o -> visibility_agrees db' o.
Proof. intros E. unfold visibility_agrees, visibility_row. by rewrite E. Qed.

(** More visibility rows at the end change no projection. *)
Lemma client_projection_app db db' rows o row :
  client_entity_visibility db' = client_entity_visibility db ++ rows ->
  client_projection db o = Ok row -> client_projection db' o = Ok row.
Proof.
  intros E. unfold client_projection. destruct (projected o) as [[[[]]]|]; [|done].
  destruct (OperationBody.declared_visibility _); [done|].
  rewrite E, query_row_app. by destruct (query_row _ (client_entity_visibility db)).
Qed.

Lemma elem_of_ops log o : o ∈ ops log <-> exists s, s ∈ log /\ op s = o.
Proof.
  unfold ops. rewrite list_elem_of_In, in_map_iff. setoid_rewrite <- list_elem_of_In. naive_solver.
Qed.

Lemma elem_of_log_ids log p : p ∈ ids (ops log) <-> exists s, s ∈ log /\ id (op s) = p.
Proof. rewrite elem_of_ids. setoid_rewrite elem_of_ops. naive_solver. Qed.

Lemma log_id_inj log a b : log_ok log -> a ∈ log -> b ∈ log -> id (op a) = id (op b) -> a = b.
Proof.
  intros Hok Ha Hb E. pose proof (log_ids log Hok) as Hn. clear Hok.
  induction log as [|c log IH]; [by apply not_elem_of_nil in Ha|].
  cbn in Hn. apply NoDup_cons in Hn as [Hc Hn]. change (List.map op log) with (ops log) in Hc.
  apply elem_of_cons in Ha as [->|Ha], Hb as [->|Hb]; try done.
  - destruct Hc. apply elem_of_log_ids. by exists b.
  - destruct Hc. apply elem_of_log_ids. by exists a.
  - by apply IH.
Qed.

Lemma elem_of_rows db log row :
  represents db log -> row ∈ operations db <-> exists s, s ∈ log /\ row = row_for s.
Proof.
  intros Hr. rewrite (rep_rows db log Hr), list_elem_of_In, in_map_iff.
  setoid_rewrite <- list_elem_of_In. naive_solver.
Qed.

(** Every parent an admitted operation names is admitted. *)
Lemma log_closed log p : log_ok log -> p ∈ named_parents (ops log) -> exists q s, q ∈ log /\ s ∈ log
  /\ id (op q) = p /\ p ∈ parents (op s) /\ same_entity (op q) (op s).
Proof.
  intros Hok (o & Ho & Hp)%elem_of_named. apply elem_of_ops in Ho as (s & Hs & <-).
  pose proof Hs as (before & after & E)%list_elem_of_split.
  destruct (log_parents log Hok before s after E p Hp) as (q & Hq & Hid & Hsame).
  exists q, s. rewrite E at 1. rewrite elem_of_app. auto.
Qed.

(** ** An insertion extends the log *)
Lemma StronglySorted_snoc {A} (R : A -> A -> Prop) l a :
  StronglySorted R l -> (forall b, b ∈ l -> R b a) -> StronglySorted R (l ++ [a]).
Proof.
  induction 1 as [|b l Hs IH Hb]; intros Ha; cbn.
  - repeat constructor.
  - constructor; [apply IH; intros c Hc; apply Ha; by right|].
    apply Forall_app. split; [done|]. repeat constructor. apply Ha. left.
Qed.

Lemma log_ok_snoc log s :
  log_ok log -> valid s -> (forall a, a ∈ log -> id (op a) <> id (op s)) ->
  (forall a, a ∈ log -> local_sequence a < local_sequence s
                        /\ received_at_unix_ms a <= received_at_unix_ms s) ->
  (forall p, p ∈ parents (op s) -> exists q, q ∈ log /\ id (op q) = p /\ same_entity (op q) (op s)) ->
  (forall a, a ∈ log -> OperationEnvelope.space_id (op a) = OperationEnvelope.space_id (op s) ->
     OperationEnvelope.entity_id (op a) = OperationEnvelope.entity_id (op s) -> same_entity (op a) (op s)) ->
  log_ok (log ++ [s]).
Proof.
  intros Hok Hv Hfresh Hord Hpar Hsch. constructor.
  - intros a [Ha| ->%list_elem_of_singleton]%elem_of_app; [by apply (log_valid log)|done].
  - unfold ops, ids. rewrite !List.map_app. apply NoDup_app. split; [apply Hok|]. split; [|apply NoDup_singleton].
    intros p Hp%elem_of_log_ids ->%list_elem_of_singleton. destruct Hp as (a & Ha & E).
    by apply (Hfresh a).
  - apply StronglySorted_snoc; [apply Hok|done].
  - intros before a after E p Hp. destruct after as [|b after _] using rev_ind.
    + apply app_inj_tail in E as [-> ->]. auto.
    + rewrite app_comm_cons, app_assoc in E. apply app_inj_tail in E as [-> _].
      by apply (log_parents _ Hok before a after).
  - intros a b [Ha| ->%list_elem_of_singleton]%elem_of_app [Hb| ->%list_elem_of_singleton]%elem_of_app Es Ee.
    + by apply (log_schemas log).
    + auto.
    + destruct (Hsch b Hb) as (? & ? & ?); done.
    + done.
Qed.

Lemma named_parents_snoc log s p :
  p ∈ named_parents (ops (log ++ [s])) <-> p ∈ named_parents (ops log) \/ p ∈ parents (op s).
Proof.
  unfold ops, named_parents. rewrite !List.map_app, concat_app, elem_of_app. cbn. by rewrite app_nil_r.
Qed.

(** The stored heads stay the operations no operation names as a parent. *)
Lemma heads_after_spec log heads s :
  log_ok (log ++ [s]) ->
  (forall h, h ∈ heads <-> exists a, a ∈ log /\ h = head_for (op a)
                             /\ id (op a) ∉ named_parents (ops log)) ->
  forall h, h ∈ heads_after (op s) heads <->
    exists a, a ∈ log ++ [s] /\ h = head_for (op a) /\ id (op a) ∉ named_parents (ops (log ++ [s])).
Proof.
  intros Hok Hh h. unfold heads_after. setoid_rewrite named_parents_snoc.
  assert (Hself : id (op s) ∉ parents (op s)).
  { apply verify_parents, (valid_verified s), (log_valid _ Hok). apply elem_of_app. right. left. }
  assert (Hnew : id (op s) ∉ named_parents (ops log)).
  { intros Hin. assert (Hin' : exists o, o ∈ ops log /\ id (op s) ∈ parents o) by by apply elem_of_named.
    destruct Hin' as (o & (a & Ha & <-)%elem_of_ops & Hp).
    pose proof Ha as (l1 & l2 & El)%list_elem_of_split.
    destruct (log_parents _ Hok l1 a (l2 ++ [s]) ltac:(by rewrite El, <- app_assoc) _ Hp) as (q & Hq & Eid & _).
    assert (q = s) as ->.
    { apply (log_id_inj (log ++ [s])); try done; rewrite elem_of_app; [left|right; left].
      rewrite El, elem_of_app. by left. }
    pose proof (log_order _ Hok) as Hord. rewrite El, <- app_assoc in Hord.
    apply StronglySorted_app_1_elem_of with (x1 := s) (x2 := s) in Hord; [lia|done|].
    apply elem_of_app. right. left. }
  rewrite elem_of_app, elem_of_delete_rows, Hh, list_elem_of_singleton. split.
  - intros [[(a & Ha & -> & Hn) Hdel] | ->].
    + exists a. rewrite elem_of_app. split; [by left|]. split; [done|]. intros [?|Hp]; [done|].
      assert (Hsp : exists q, q ∈ log /\ id (op q) = id (op a) /\ same_entity (op q) (op s)).
      { apply (log_parents _ Hok log s []); done. }
      destruct Hsp as (q & Hq & Eq & (Es & _)).
      assert (q = a) as ->.
      { apply (log_id_inj (log ++ [s])); try done; rewrite elem_of_app; by left. }
      cbn in Hdel. rewrite Es, list_eqb_refl in Hdel. unfold contains in Hdel. cbn in Hdel. by bool_prop.
    + exists s. rewrite elem_of_app. split; [right; left|]. split; [done|]. by intros [?|?].
  - intros (a & [Ha| ->%list_elem_of_singleton]%elem_of_app & -> & Hn); [|by right]. left. split.
    + exists a. split; [done|]. split; [done|]. intros ?. apply Hn. by left.
    + cbn. apply andb_false_iff. right. unfold contains. apply bool_decide_eq_false. intros ?.
      apply Hn. by right.
Qed.

(** ** Counting heads *)
Lemma count_rows_app {A} (f : A -> bool) l l' : count_rows f (l ++ l') = count_rows f l + count_rows f l'.
Proof. unfold count_rows, select. rewrite List.filter_app, length_app. lia. Qed.
Lemma count_rows_delete {A} (f g : A -> bool) l :
  count_rows f (delete_rows g l) = count_rows f l - count_rows (fun a => f a && g a) l.
Proof.
  unfold count_rows, select, delete_rows. induction l as [|a l IH]; [done|]. cbn.
  destruct (g a), (f a) eqn:Ef; cbn; rewrite ?Ef; cbn [length]; lia.
Qed.
Lemma count_rows_ext {A} (f g : A -> bool) l :
  (forall a, a ∈ l -> f a = g a) -> count_rows f l = count_rows g l.
Proof.
  intros Hfg. unfold count_rows, select. do 2 f_equal. apply filter_ext_in. intros a Ha.
  apply Hfg. by apply list_elem_of_In.
Qed.
Lemma count_rows_nonneg {A} (f : A -> bool) l : 0 <= count_rows f l.
Proof. unfold count_rows. lia. Qed.
Lemma count_rows_none {A} (f : A -> bool) l :
  count_rows f l = 0 <-> forall a, a ∈ l -> f a = false.
Proof.
  unfold count_rows. split.
  - intros Hl a Ha. destruct (f a) eqn:E; [|done].
    assert (Hin : a ∈ select f l) by by apply elem_of_select.
    destruct (select f l); [by apply not_elem_of_nil in Hin|cbn in Hl; lia].
  - intros Hf. destruct (select f l) as [|a l'] eqn:E; [done|].
    assert (Hin : a ∈ select f l) by (rewrite E; left).
    apply elem_of_select in Hin as [Hin Ha]. by rewrite Hf in Ha.
Qed.

(** The heads an entity has after an insertion into it, as admission counts them. *)
Lemma count_heads_after o heads space entity :
  count_rows (head_of_entity space entity) (heads_after o heads) <=
  if decide (space = OperationEnvelope.space_id o /\ entity = OperationEnvelope.entity_id o)
  then count_rows (head_of_entity space entity) heads
       - count_rows (fun row => head_of_entity space entity row && contains (head_id row) (parents o)) heads + 1
  else count_rows (head_of_entity space entity) heads.
Proof.
  unfold heads_after. rewrite count_rows_app, count_rows_delete.
  unfold count_rows at 3. unfold select. cbn [List.filter].
  destruct (decide _) as [[-> ->]|Hne].
  - unfold head_of_entity at 3. cbn [head_for head_space_id head_entity_id]. rewrite !list_eqb_refl.
    cbn [andb length]. apply Z.eq_le_incl. f_equal. f_equal. apply count_rows_ext. intros h _.
    unfold head_of_entity. by destruct (list_eqb (head_space_id h) _), (list_eqb (head_entity_id h) _).
  - assert (Hn : head_of_entity space entity (head_for o) = false).
    { unfold head_of_entity. cbn. apply andb_false_iff. rewrite !list_eqb_neq.
      destruct (decide (OperationEnvelope.space_id o = space)) as [Es|]; [right|by left].
      intros Ee. by apply Hne. }
    rewrite Hn. cbn [length].
    pose proof (count_rows_nonneg (fun a => head_of_entity space entity a
      && (list_eqb (head_space_id a) (OperationEnvelope.space_id o) && contains (head_id a) (parents o))) heads).
    lia.
Qed.

Lemma heads_after_NoDup o heads :
  NoDup heads -> head_for o ∉ heads -> NoDup (heads_after o heads).
Proof.
  intros Hn Hh. unfold heads_after. apply NoDup_app. split; [|split].
  - rewrite NoDup_ListNoDup in *. by apply List.NoDup_filter.
  - intros h [Hin _]%elem_of_delete_rows ->%list_elem_of_singleton. done.
  - apply NoDup_singleton.
Qed.

(** ** The main step *)

(** What admission checks beyond the constraints of the insertion. *)
Record admitted db o (received_at : Z) : Prop := {
  admitted_typed : typed_operation o;
  admitted_verified : OperationEnvelope.verify o = Ok tt;
  admitted_clock : exists clock, admission_clock db = Some clock /\ received_at = clock;
  admitted_heads :
    count_rows (head_of_entity (OperationEnvelope.space_id o) (OperationEnvelope.entity_id o)) (entity_heads db)
    - count_rows (fun row => head_of_entity (OperationEnvelope.space_id o) (OperationEnvelope.entity_id o) row
                             && contains (head_id row) (parents o)) (entity_heads db) + 1 <= MAX_ENTITY_HEADS;
  admitted_declares : is_client_schema (OperationEnvelope.schema o) = true -> parents o = [] ->
    OperationBody.declared_visibility (OperationEnvelope.body o) <> None;
  admitted_agrees : forall row v, is_client_schema (OperationEnvelope.schema o) = true -> parents o <> [] ->
    visibility_row db (OperationEnvelope.space_id o) (OperationEnvelope.entity_id o) = Some row ->
    OperationBody.declared_visibility (OperationEnvelope.body o) = Some v -> v = visibility_value row
}.

Lemma visibility_row_app db rows space entity :
  visibility_row (with_visibility db (client_entity_visibility db ++ rows)) space entity
  = match visibility_row db space entity with
    | Some row => Some row
    | None => query_row (fun row => list_eqb (visibility_space_id row) space
                                    && list_eqb (visibility_entity_id row) entity) rows
    end.
Proof. unfold visibility_row. cbn. apply query_row_app. Qed.

Lemma visibility_admitted db db' log o received_at s :
  represents db log -> admitted db o received_at -> inserted db o received_at s db' ->
  is_client_schema (OperationEnvelope.schema o) = true -> visibility_agrees db' o.
Proof.
  intros Hr Ha Hi Hc.
  apply (visibility_agrees_ext (with_visibility db (client_entity_visibility db ++ visibility_rows_of o)));
    [symmetry; apply Hi|].
  destruct (parents o) as [|p ps] eqn:Ep.
  - destruct (OperationBody.declared_visibility (OperationEnvelope.body o)) as [v|] eqn:Ed;
      [|by destruct (admitted_declares _ _ _ Ha Hc Ep)].
    assert (Hrows : visibility_rows_of o = [mkVisibilityRow (OperationEnvelope.space_id o)
      (OperationEnvelope.entity_id o) (OperationEnvelope.schema o) (id o) v]).
    { unfold visibility_rows_of. by rewrite Ep, Ed. }
    assert (Hnone : visibility_row db (OperationEnvelope.space_id o) (OperationEnvelope.entity_id o) = None).
    { apply query_row_None. intros row Hin. apply andb_false_iff. rewrite !list_eqb_neq.
      pose proof (inserted_new_visibility _ _ _ _ _ Hi row Hin ltac:(by rewrite Hrows)) as Hn.
      destruct (decide (visibility_space_id row = OperationEnvelope.space_id o)); [|by left].
      right. intros ?. by apply Hn. }
    eexists. rewrite visibility_row_app, Hnone, Hrows. cbn. rewrite !list_eqb_refl. cbn.
    split; [done|]. split; [done|]. rewrite Ed. by intros ? [= ->].
  - destruct (inserted_parents _ _ _ _ _ Hi p ltac:(rewrite Ep; left)) as (row & Hin & Hid & Es & Ee & Ec).
    apply (elem_of_rows db log row Hr) in Hin as (q & Hq & ->). cbn in *.
    destruct (rep_visibility _ _ Hr q Hq ltac:(by rewrite Ec)) as (vrow & Hv & Hs & _).
    rewrite Es, Ee in Hv. rewrite Ec in Hs. exists vrow.
    rewrite visibility_row_app, Hv. split; [done|]. split; [done|]. intros v Hd.
    apply (admitted_agrees _ _ _ Ha vrow v); try done. by rewrite Ep.
Qed.

Lemma concat_snoc {A B} (f : A -> list B) l a :
  concat (List.map f (l ++ [a])) = concat (List.map f l) ++ f a.
Proof. rewrite List.map_app, concat_app. cbn. by rewrite app_nil_r. Qed.

Lemma log_ok_inserted db db' log o received_at s :
  represents db log -> admitted db o received_at -> inserted db o received_at s db' ->
  log_ok (log ++ [s]).
Proof.
  intros Hr Ha Hi. destruct Hi as [-> Hjson Hpos]. cbn [local_sequence] in Hpos.
  destruct (rep_clock _ _ Hr) as (clock & Ec & _ & Hclock).
  destruct (admitted_clock _ _ _ Ha) as (clock' & Ec' & ->).
  rewrite Ec in Ec'. injection Ec' as <-. destruct (rep_sequence _ _ Hr) as [_ Hseq].
  apply log_ok_snoc; cbn [op local_sequence received_at_unix_ms].
  - apply Hr.
  - constructor; try done; apply Ha.
  - intros a Hin E. apply (inserted_fresh0 (row_for a)); [|done].
    apply (elem_of_rows _ _ _ Hr). by exists a.
  - intros a Hin. specialize (Hclock a Hin). specialize (Hseq a Hin). lia.
  - intros p (row & Hin & Hid & Hrest)%inserted_parents0.
    apply (elem_of_rows _ _ _ Hr) in Hin as (q & Hq & ->). by exists q.
  - intros a Hin Es Ee. split; [done|]. split; [done|].
    apply (inserted_schema0 (row_for a)); [|done|done]. apply (elem_of_rows _ _ _ Hr). by exists a.
Qed.

(** Inserting an admitted operation appends it to the log. *)
Lemma represents_insert db db' log o received_at s :
  represents db log -> admitted db o received_at -> inserted db o received_at s db' ->
  represents db' (log ++ [s]).
Proof.
  intros Hr Ha Hi. pose proof (log_ok_inserted _ _ _ _ _ _ Hr Ha Hi) as Hok.
  assert (Es : s = mkStored (last_sequence db + 1) received_at o) by apply Hi.
  assert (Hin : forall a, a ∈ log ++ [s] <-> a ∈ log \/ a = s).
  { intros a. by rewrite elem_of_app, list_elem_of_singleton. }
  constructor.
  - done.
  - rewrite (inserted_rows _ _ _ _ _ Hi), (rep_rows _ _ Hr), List.map_app. done.
  - destruct (rep_clock _ _ Hr) as (clock & Ec & Hc & Hclock).
    destruct (admitted_clock _ _ _ Ha) as (clock' & Ec' & ->).
    rewrite Ec in Ec'. injection Ec' as <-. exists clock. rewrite (inserted_clock _ _ _ _ _ Hi).
    split; [done|]. split; [done|]. intros a [?| ->]%Hin; [auto|]. by rewrite Es.
  - destruct (rep_sequence _ _ Hr) as [Hl Hseq]. pose proof (inserted_bound _ _ _ _ _ Hi).
    rewrite (inserted_last _ _ _ _ _ Hi). split; [lia|].
    intros a [Ha'| ->]%Hin; [specialize (Hseq a Ha'); lia|]. by rewrite Es.
  - rewrite (inserted_spaces _ _ _ _ _ Hi). intros a [?| ->]%Hin; [by apply (rep_spaces _ _ Hr)|].
    rewrite Es. apply Hi.
  - rewrite (inserted_heads _ _ _ _ _ Hi). replace o with (op s) by (by rewrite Es).
    apply heads_after_spec; [done|]. apply Hr.
  - rewrite (inserted_heads _ _ _ _ _ Hi). apply heads_after_NoDup; [apply Hr|].
    rewrite (rep_heads _ _ Hr). intros (a & Hain & E & _). injection E as _ _ _ E.
    apply (inserted_fresh _ _ _ _ _ Hi (row_for a)); [|done]. apply (elem_of_rows _ _ _ Hr). by exists a.
  - rewrite (inserted_heads _ _ _ _ _ Hi). intros space entity.
    etrans; [apply count_heads_after|]. case_decide as Hd.
    + destruct Hd as [-> ->]. apply Ha.
    + apply (rep_head_bound _ _ Hr).
  - intros a [Hal| ->]%Hin Hc.
    + apply (visibility_agrees_ext (with_visibility db (client_entity_visibility db ++ visibility_rows_of o)));
        [symmetry; apply Hi|]. by apply visibility_agrees_app, (rep_visibility _ _ Hr).
    + rewrite Es in Hc |- *. by apply (visibility_admitted db db' log o received_at s).
  - destruct (rep_projections _ _ Hr) as (rows & Hf & Hp).
    destruct (inserted_projection _ _ _ _ _ Hi) as (row & Hrow & Hp'). exists (rows ++ [row]). split.
    + apply Forall2_app.
      * apply (Forall2_impl _ _ _ _ Hf). intros a r. apply client_projection_app with (rows := visibility_rows_of o).
        apply Hi.
      * constructor; [by rewrite Es|constructor].
    + rewrite Hp', Hp. symmetry. apply concat_snoc.
  - rewrite (inserted_grants _ _ _ _ _ Hi), (rep_grants _ _ Hr), concat_snoc. by rewrite Es.
  - rewrite (inserted_revocations _ _ _ _ _ Hi), (rep_revocations _ _ Hr), concat_snoc. by rewrite Es.
Qed.
End Log.
