(* ===== verification/RepositorySteps.v ===== *)
(** * Reachable databases

    Every request of the repository as a step, and the invariant of the reachable
    databases: each represents a log ([RepositoryLog.represents]). *)
From S2P Require Import Prelude Bytes Floats Crypto Content Cbor Trust TrustTheory DataModel CanonicalBody.
From S2P Require Import BodyTheory Envelope EnvelopeTheory ReducerTheory Authorization Peer.
From S2P Require Import Application Database Repository RepositoryQueries RepositoryLog.

(** Verification is a premise here, never evaluated. *)
#[local] Opaque OperationEnvelope.verify insert_operation.

Section Steps.
Context `{Sha256} `{Ed25519} `{HalfFloat} `{Base64} `{!JsonNumber} `{!JsonSize}
  `{!ProjectionJson} `{!Lowercase}.
Implicit Types (o : OperationEnvelope.t) (s : StoredOperation) (log : list StoredOperation)
  (db : Database).

Notation op := Application.operation.
Notation id := OperationEnvelope.operation_id.
Notation parents := OperationEnvelope.causal_parents.

(** ** The clock *)
Lemma advance_admission_clock_Ok db sampled effective db' :
  advance_admission_clock db sampled = Ok (effective, db') ->
  exists persisted, admission_clock db = Some persisted /\ 0 <= persisted
    /\ effective = Z.max persisted sampled /\ db' = with_clock db (Some effective).
Proof.
  unfold advance_admission_clock, read_admission_clock, corrupt.
  destruct (admission_clock db) as [persisted|]; [|done].
  destruct (Z.ltb_spec persisted 0); [done|]. intros Ha. apply Ok_inj in Ha. injection Ha as <- <-.
  by exists persisted.
Qed.

Lemma read_after_advance db effective :
  0 <= effective -> read_admission_clock (with_clock db (Some effective)) = Ok effective.
Proof.
  intros He. unfold read_admission_clock. cbn. destruct (Z.ltb_spec effective 0); [lia|done].
Qed.

Lemma represents_advance db log sampled effective db' :
  represents db log -> advance_admission_clock db sampled = Ok (effective, db') ->
  represents db' log /\ admission_clock db' = Some effective /\ 0 <= effective.
Proof.
  intros Hr (persisted & Ec & Hp & -> & ->)%advance_admission_clock_Ok.
  destruct (rep_clock _ _ Hr) as (clock & Ec' & _ & Hclock). rewrite Ec in Ec'. injection Ec' as <-.
  split; [|split; [done|lia]]. apply represents_clock; [done| |lia].
  intros s Hs. specialize (Hclock s Hs). lia.
Qed.

(** ** Admission *)
Lemma verify_envelope_Ok o : verify_envelope o = Ok tt -> OperationEnvelope.verify o = Ok tt.
Proof.
  unfold verify_envelope. destruct (OperationEnvelope.verify o) as [[]|]; done.
Qed.

Lemma validate_topology_heads db o :
  validate_topology db o = Ok tt ->
  count_rows (head_of_entity (OperationEnvelope.space_id o) (OperationEnvelope.entity_id o)) (entity_heads db)
    - count_rows (fun row => head_of_entity (OperationEnvelope.space_id o) (OperationEnvelope.entity_id o) row
                             && contains (head_id row) (parents o)) (entity_heads db) + 1 <= MAX_ENTITY_HEADS.
Proof. unfold validate_topology, topology, corrupt. intros Ht. inv_ok. by bool_prop. Qed.

Lemma visibility_for_admission_Ok db o visibility :
  visibility_for_admission db o = Ok visibility -> is_client_schema (OperationEnvelope.schema o) = true ->
  (parents o = [] -> OperationBody.declared_visibility (OperationEnvelope.body o) <> None)
  /\ (forall row v, parents o <> [] ->
       visibility_row db (OperationEnvelope.space_id o) (OperationEnvelope.entity_id o) = Some row ->
       OperationBody.declared_visibility (OperationEnvelope.body o) = Some v -> v = visibility_value row).
Proof.
  unfold visibility_for_admission, corrupt, topology. intros Hv Hc. rewrite Hc in Hv. cbn [negb] in Hv.
  destruct (parents o) as [|p ps]; (split; [|intros row v Hp Hrow Hd]); try done.
  - intros _. destruct (OperationBody.declared_visibility _); [done|]. by destruct (OperationEnvelope.body o).
  - rewrite Hrow, Hd in Hv. cbn [fmap option_fmap option_map] in Hv. inv_ok. unfold eqb in E0. by bool_prop.
Qed.

Lemma submit_transaction_admitted db space_id o effective s db' :
  submit_transaction db space_id o effective = Ok (mkSubmitResult s false, db') ->
  admission_clock db = Some effective -> 0 <= effective -> typed_operation o ->
  OperationEnvelope.verify o = Ok tt ->
  admitted db o effective /\ inserted db o effective s db'.
Proof.
  unfold submit_transaction. intros Hs Hc He Ht Hv.
  assert (Hread : read_admission_clock db = Ok effective).
  { unfold read_admission_clock. rewrite Hc. destruct (Z.ltb_spec effective 0); [lia|done]. }
  rewrite Hread, Z.max_id in Hs. inv_ok. destruct a as [existing|]; inv_ok; [done|].
  match goal with r : StoredOperation * Database |- _ => destruct r as [s' db1]; inv_ok end.
  split; [|by apply insert_operation_Ok]. constructor; try done.
  - by exists effective.
  - by apply validate_topology_heads.
  - intros Hcl. by eapply visibility_for_admission_Ok.
  - intros row v Hcl. by eapply visibility_for_admission_Ok.
Qed.

Lemma commit_cases {A} (r : result RepositoryError (A * Database)) before out db' :
  commit r before = (out, db') ->
  (exists a, r = Ok (a, db') /\ out = Ok a) \/ (exists e, r = Err e /\ out = Err e /\ db' = before).
Proof. destruct r as [[a after]|e]; intros [= <- <-]; [left; by exists a|right; by exists e]. Qed.

(** What a submission does to the database. *)
Lemma submit_cases db space_id request out db' :
  Repository.submit_operation db space_id request = (out, db') ->
  typed_operation (submit_operation_ request) ->
  (db' = db /\ exists e, out = Err e)
  \/ exists effective db1, advance_admission_clock db (submit_received_at_unix_ms request) = Ok (effective, db1)
     /\ validate_submitted space_id request = Ok tt /\ require_space db space_id = Ok tt
     /\ (db' = db1 /\ ((exists e, out = Err e) \/ exists s, out = Ok (mkSubmitResult s true))
         \/ exists s, out = Ok (mkSubmitResult s false)
              /\ submit_transaction db1 space_id (submit_operation_ request) effective
                 = Ok (mkSubmitResult s false, db')
              /\ admitted db1 (submit_operation_ request) effective
              /\ inserted db1 (submit_operation_ request) effective s db').
Proof.
  unfold Repository.submit_operation. intros Hs Ht.
  destruct (validate_submitted space_id request) as [[]|] eqn:Ev; [|injection Hs as <- <-; left; eauto].
  destruct (require_space db space_id) as [[]|]; [|injection Hs as <- <-; left; eauto].
  destruct (advance_admission_clock db _) as [[effective db1]|] eqn:Ea; [|injection Hs as <- <-; left; eauto].
  right. exists effective, db1. do 3 (split; [done|]).
  apply advance_admission_clock_Ok in Ea as (persisted & _ & Hp & -> & ->).
  apply commit_cases in Hs as [(result & Hr & ->)|(e & _ & -> & ->)]; [|left; eauto].
  assert (Hv : OperationEnvelope.verify (submit_operation_ request) = Ok tt).
  { unfold validate_submitted in Ev. inv_ok. by apply verify_envelope_Ok. }
  pose proof Hr as Hr'. destruct result as [s []].
  - left. split; [|eauto]. unfold submit_transaction in Hr'. inv_ok.
    match goal with found : option StoredOperation |- _ => destruct found as [existing|]; inv_ok; [done|] end.
    match goal with r : StoredOperation * Database |- _ => by destruct r; inv_ok end.
  - right. exists s. split; [done|]. split; [done|].
    apply (submit_transaction_admitted _ space_id _ _ _ _ Hr'); try done. lia.
Qed.

(** ** Bootstrap *)
Lemma represents_space db log space :
  represents db log -> represents (with_spaces db (space_rows db ++ [space])) log.
Proof.
  intros Hr. constructor; try apply Hr. intros s Hs. cbn.
  destruct (rep_spaces _ _ Hr s Hs) as (row & Hin & E). exists row. rewrite elem_of_app. auto.
Qed.

(** An operation that opens its entity meets the head bound. *)
Lemma first_of_entity db o received_at clock :
  typed_operation o -> OperationEnvelope.verify o = Ok tt -> admission_clock db = Some clock ->
  received_at = clock -> is_client_schema (OperationEnvelope.schema o) = false ->
  (forall h, h ∈ entity_heads db ->
     head_of_entity (OperationEnvelope.space_id o) (OperationEnvelope.entity_id o) h = false) ->
  admitted db o received_at.
Proof.
  intros Ht Hv Hc -> Hs Hh. constructor; try done.
  - by exists clock.
  - rewrite (proj2 (count_rows_none _ _) Hh).
    pose proof (count_rows_nonneg (fun row => head_of_entity (OperationEnvelope.space_id o)
      (OperationEnvelope.entity_id o) row && contains (head_id row) (parents o)) (entity_heads db)).
    unfold MAX_ENTITY_HEADS. lia.
  - by rewrite Hs.
  - by rewrite Hs.
Qed.

Lemma validate_bootstrap_Ok request :
  validate_bootstrap request = Ok tt ->
  exists controller grant,
    OperationEnvelope.body (genesis request) = OperationBody.SpaceGenesis controller
    /\ OperationEnvelope.body (initial_grant request) = OperationBody.CapabilityGrant grant
    /\ OperationEnvelope.space_id (genesis request) = OperationEnvelope.space_id (initial_grant request)
    /\ OperationEnvelope.entity_id (initial_grant request) <> OperationEnvelope.entity_id (genesis request)
    /\ OperationEnvelope.schema (initial_grant request) = EntitySchema.CapabilityGrant.
Proof.
  unfold validate_bootstrap, topology. intros Hv. inv_ok.
  destruct (OperationEnvelope.body (genesis request)) as [| | | | |c| |]; try done.
  destruct (OperationEnvelope.body (initial_grant request)) as [| | | | | |g|]; try done.
  inv_ok. bool_prop. exists c, g. unfold list_eqb, eqb in *. by bool_prop.
Qed.

Lemma genesis_schema o controller :
  OperationEnvelope.verify o = Ok tt -> OperationEnvelope.body o = OperationBody.SpaceGenesis controller ->
  OperationEnvelope.schema o = EntitySchema.SpaceGenesis.
Proof.
  intros Hv%verify_validates Hb. rewrite Hb in Hv. unfold validate_for in Hv.
  destruct (OperationEnvelope.schema o); cbn in Hv; try done;
    destruct (is_empty _); done.
Qed.

(** The two insertions of a new space. *)
Lemma bootstrap_inserts db log request expected effective s1 s2 db1 db2 :
  represents db log -> admission_clock db = Some effective ->
  typed_operation (genesis request) -> typed_operation (initial_grant request) ->
  OperationEnvelope.verify (genesis request) = Ok tt ->
  OperationEnvelope.verify (initial_grant request) = Ok tt -> validate_bootstrap request = Ok tt ->
  (forall space, space ∈ space_rows db ->
     descriptor_space_id space <> OperationEnvelope.space_id (genesis request)) ->
  inserted (with_spaces db (space_rows db ++ [expected])) (genesis request) effective s1 db1 ->
  inserted db1 (initial_grant request) effective s2 db2 -> represents db2 (log ++ [s1; s2]).
Proof.
  intros Hr Hc Htg Hti Hvg Hvi Hval Hnew Hi1 Hi2.
  apply validate_bootstrap_Ok in Hval as (c & g & Hbg & Hbi & Hss & Hee & Hsi).
  pose proof (represents_space _ _ expected Hr) as Hr1.
  assert (Hheads : forall h, h ∈ entity_heads db -> head_space_id h <> OperationEnvelope.space_id (genesis request)).
  { intros h Hin Eh. apply (rep_heads _ _ Hr) in Hin as (s & Hs & -> & _). cbn in Eh.
    destruct (rep_spaces _ _ Hr s Hs) as (space & Hin & E). apply (Hnew space Hin). congruence. }
  change [s1; s2] with ([s1] ++ [s2]). rewrite app_assoc.
  assert (Ha1 : admitted (with_spaces db (space_rows db ++ [expected])) (genesis request) effective).
  { apply (first_of_entity _ _ _ effective);
      [exact Htg|exact Hvg|exact Hc|reflexivity|by rewrite (genesis_schema _ c Hvg Hbg)|].
    intros h Hin. unfold head_of_entity. apply andb_false_iff. left. by apply list_eqb_neq, Hheads. }
  pose proof (represents_insert _ _ _ _ _ _ Hr1 Ha1 Hi1) as Hr2.
  refine (represents_insert _ _ _ _ _ _ Hr2 _ Hi2).
  apply (first_of_entity _ _ _ effective); [exact Hti|exact Hvi| |reflexivity|by rewrite Hsi|].
  - rewrite (inserted_clock _ _ _ _ _ Hi1). exact Hc.
  - intros h. rewrite (inserted_heads _ _ _ _ _ Hi1). unfold heads_after.
    rewrite elem_of_app, elem_of_delete_rows, list_elem_of_singleton. unfold head_of_entity.
    intros [[Hin _]| ->]; apply andb_false_iff; rewrite !list_eqb_neq.
    + left. rewrite <- Hss. by apply Hheads.
    + right. cbn. apply not_eq_sym. exact Hee.
Qed.

Lemma bootstrap_represents db log request expected effective result db' :
  bootstrap_transaction db request expected effective = Ok (result, db') ->
  represents db log -> admission_clock db = Some effective ->
  typed_operation (genesis request) -> typed_operation (initial_grant request) ->
  OperationEnvelope.verify (genesis request) = Ok tt ->
  OperationEnvelope.verify (initial_grant request) = Ok tt -> validate_bootstrap request = Ok tt ->
  descriptor_space_id expected = OperationEnvelope.space_id (genesis request) ->
  (db' = db /\ bootstrap_replayed result = true)
  \/ represents db' (log ++ [bootstrapped_genesis result; bootstrapped_grant result])
     /\ bootstrap_replayed result = false.
Proof.
  unfold bootstrap_transaction. intros Hb Hr Hc Htg Hti Hvg Hvi Hval Hsp.
  destruct (load_space db _) as [[existing|]|]; [| |done].
  - inv_ok. left. unfold replay_bootstrap in E. by inv_ok.
  - destruct (constraint (space_constraints db expected)) as [[]|] eqn:Ec; [|done].
    apply constraint_Ok in Ec. unfold space_constraints in Ec. bool_prop.
    match goal with Hx : exists_row _ _ = false |- _ => rename Hx into Hnew end.
    rewrite exists_row_false in Hnew.
    destruct (insert_operation _ (genesis request) effective) as [[s1 db1]|] eqn:E1; [|done].
    destruct (map_err _ _) as [[]|]; [|done].
    destruct (insert_operation db1 _ effective) as [[s2 db2]|] eqn:E2; [|done].
    inv_ok. right. cbn [bootstrapped_genesis bootstrapped_grant bootstrap_replayed]. split; [|done].
    apply insert_operation_Ok in E1, E2.
    refine (bootstrap_inserts db log request expected effective s1 s2 db1 _
      Hr Hc Htg Hti Hvg Hvi Hval _ E1 E2).
    intros space Hin. specialize (Hnew space Hin). bool_prop. rewrite Hsp in *. by apply list_eqb_neq.
Qed.

(** The [unreachable!] of a bootstrap is never reached. *)
Lemma expected_space_total request created_at :
  validate_bootstrap request = Ok tt -> exists expected, expected_space request created_at = Some expected
    /\ descriptor_space_id expected = OperationEnvelope.space_id (genesis request).
Proof.
  intros (c & g & _ & Hb & _)%validate_bootstrap_Ok. unfold expected_space. rewrite Hb. by eexists.
Qed.

Lemma bootstrap_cases db log request out db' :
  Repository.bootstrap_trusted_space db request = Some (out, db') -> represents db log ->
  typed_operation (genesis request) -> typed_operation (initial_grant request) ->
  db' = db
  \/ exists effective db1,
      advance_admission_clock db (bootstrap_received_at_unix_ms request) = Ok (effective, db1)
      /\ (db' = db1
          \/ exists result, out = Ok result /\ bootstrap_replayed result = false
             /\ represents db' (log ++ [bootstrapped_genesis result; bootstrapped_grant result])).
Proof.
  unfold Repository.bootstrap_trusted_space. intros Hb Hr Htg Hti.
  destruct (verify_envelope (genesis request)) as [[]|] eqn:Evg; [|injection Hb as _ <-; by left].
  destruct (verify_envelope (initial_grant request)) as [[]|] eqn:Evi; [|injection Hb as _ <-; by left].
  destruct (validate_bootstrap request) as [[]|] eqn:Ev; [|injection Hb as _ <-; by left].
  destruct (expected_space_total request (bootstrap_received_at_unix_ms request) Ev) as (expected & Ee & Hid).
  rewrite Ee in Hb. cbn [mbind option_bind] in Hb.
  destruct (advance_admission_clock db _) as [[effective db1]|] eqn:Ea; [|injection Hb as _ <-; by left].
  right. exists effective, db1. split; [done|].
  destruct (represents_advance _ _ _ _ _ Hr Ea) as (Hr1 & Hc & He).
  assert (Hread : read_admission_clock db1 = Ok effective).
  { unfold read_admission_clock. rewrite Hc. destruct (Z.ltb_spec effective 0); [lia|done]. }
  rewrite Hread, Z.max_id in Hb. injection Hb as Hb.
  apply commit_cases in Hb as [(result & Hres & ->)|(e & _ & _ & ->)]; [|by left].
  eapply (bootstrap_represents db1 log) in Hres as [[-> _]|[Hrep Hfalse]]; try done.
  - by left.
  - right. by exists result.
  - by apply verify_envelope_Ok.
  - by apply verify_envelope_Ok.
Qed.

(** ** Deletion *)
Definition in_space (space_id : list Z) s : bool :=
  list_eqb (OperationEnvelope.space_id (op s)) space_id.
Definition outside (space_id : list Z) log : list StoredOperation := delete_rows (in_space space_id) log.

Lemma delete_rows_split {A} (f : A -> bool) l before a after :
  delete_rows f l = before ++ a :: after ->
  exists before' after', l = before' ++ a :: after' /\ before = delete_rows f before' /\ f a = false.
Proof.
  unfold delete_rows. revert before. induction l as [|b l IH]; intros before; cbn; [by destruct before|].
  destruct (f b) eqn:Eb; cbn.
  - intros (l1 & l2 & -> & -> & Ha)%IH. exists (b :: l1), l2. cbn. by rewrite Eb.
  - destruct before as [|c before]; cbn; intros [= -> E].
    + exists [], l. done.
    + apply IH in E as (l1 & l2 & -> & -> & Ha). exists (c :: l1), l2. cbn. by rewrite Eb.
Qed.

Lemma delete_rows_sublist {A} (f : A -> bool) l : sublist (delete_rows f l) l.
Proof.
  unfold delete_rows. induction l as [|a l IH]; cbn; [constructor|].
  destruct (negb (f a)); by constructor.
Qed.

Lemma delete_concat {A B} (f : A -> bool) (g : B -> bool) (rows : A -> list B) l :
  (forall a b, b ∈ rows a -> g b = f a) ->
  delete_rows g (concat (List.map rows l)) = concat (List.map rows (delete_rows f l)).
Proof.
  intros Hg. unfold delete_rows. induction l as [|a l IH]; [done|]. cbn.
  rewrite List.filter_app, IH.
  assert (E : List.filter (fun b => negb (g b)) (rows a) = if negb (f a) then rows a else []).
  { specialize (Hg a). induction (rows a) as [|b bs IHb]; [by destruct (f a)|]. cbn.
    rewrite (Hg b) by left. rewrite IHb by (intros c Hc; apply Hg; by right). by destruct (f a). }
  rewrite E. by destruct (f a).
Qed.

Lemma delete_rows_map {A B} (f : A -> bool) (g : B -> bool) (h : A -> B) l :
  (forall a, g (h a) = f a) -> delete_rows g (List.map h l) = List.map h (delete_rows f l).
Proof.
  intros Hg. unfold delete_rows. induction l as [|a l IH]; [done|]. cbn. rewrite Hg.
  destruct (f a); cbn; by rewrite IH.
Qed.

Lemma elem_of_outside space_id log s :
  s ∈ outside space_id log <-> s ∈ log /\ OperationEnvelope.space_id (op s) <> space_id.
Proof. unfold outside. by rewrite elem_of_delete_rows, <- list_eqb_neq. Qed.

(** Parents are of the space of their child. *)
Lemma named_parents_outside log space_id s :
  log_ok log -> s ∈ log -> OperationEnvelope.space_id (op s) <> space_id ->
  id (op s) ∈ named_parents (ops (outside space_id log)) <-> id (op s) ∈ named_parents (ops log).
Proof.
  intros Hok Hs Hsp. rewrite !elem_of_named. setoid_rewrite elem_of_ops. split.
  - intros (o & (c & [Hc _]%elem_of_outside & <-) & Hp). exists (op c). split; [by exists c|done].
  - intros (o & (c & Hc & <-) & Hp). exists (op c). split; [|done]. exists c. split; [|done].
    apply elem_of_outside. split; [done|].
    pose proof Hc as (before & after & E)%list_elem_of_split.
    destruct (log_parents log Hok before c after E _ Hp) as (q & Hq & Eid & (Es & _)).
    assert (q = s) as ->; [|congruence].
    apply (log_id_inj log); try done. rewrite E, elem_of_app. by left.
Qed.

Lemma log_ok_outside log space_id : log_ok log -> log_ok (outside space_id log).
Proof.
  intros Hok. constructor.
  - intros s [Hs _]%elem_of_outside. by apply Hok.
  - unfold ids, ops, outside. apply (sublist_NoDup _ (ids (ops log))); [apply Hok|].
    unfold ids, ops. apply (fmap_sublist id), (fmap_sublist op), delete_rows_sublist.
  - unfold outside, delete_rows. pose proof (log_order log Hok) as Ho. clear Hok.
    induction Ho as [|a l Hl IH Ha]; cbn; [constructor|].
    destruct (negb _); [|exact IH]. constructor; [exact IH|]. rewrite Forall_forall in *.
    intros b [Hb _]%(elem_of_delete_rows (in_space space_id)). by apply Ha.
  - intros before s after E p Hp. apply delete_rows_split in E as (b' & a' & -> & -> & Hs).
    destruct (log_parents _ Hok b' s a' eq_refl p Hp) as (q & Hq & Eid & Hsame). exists q.
    split; [|done]. apply elem_of_delete_rows. split; [done|]. unfold in_space in *.
    by rewrite (proj1 Hsame).
  - intros a b [Ha _]%elem_of_outside [Hb _]%elem_of_outside. by apply (log_schemas log).
Qed.

Lemma client_projection_space db o row :
  client_projection db o = Ok (Some row) ->
  projection_space_id row = OperationEnvelope.space_id o /\ projection_operation_id row = id o
  /\ projection_entity_id row = OperationEnvelope.entity_id o
  /\ projection_schema row = OperationEnvelope.schema o.
Proof.
  unfold client_projection, corrupt. destruct (projected o) as [[[[]]]|]; [|done]. intros Hr.
  destruct (OperationBody.declared_visibility _); [inv_ok; done|].
  destruct (query_row _ _); [|done]. by inv_ok.
Qed.

Lemma visibility_agrees_outside db db' o space_id :
  client_entity_visibility db' =
    delete_rows (fun row => list_eqb (visibility_space_id row) space_id) (client_entity_visibility db) ->
  OperationEnvelope.space_id o <> space_id ->
  visibility_agrees db o -> visibility_agrees db' o.
Proof.
  intros E Hne (row & Hrow & Hrest). exists row. split; [|done]. unfold visibility_row in *.
  rewrite E, query_row_delete; [done|]. intros r Hr. bool_prop.
  match goal with Hx : list_eqb (visibility_space_id r) _ = true |- _ => apply list_eqb_eq in Hx as -> end.
  by apply list_eqb_neq.
Qed.

Lemma client_projection_outside db db' o row space_id :
  client_entity_visibility db' =
    delete_rows (fun row => list_eqb (visibility_space_id row) space_id) (client_entity_visibility db) ->
  OperationEnvelope.space_id o <> space_id ->
  client_projection db o = Ok row -> client_projection db' o = Ok row.
Proof.
  intros E Hne. unfold client_projection. destruct (projected o) as [[[[]]]|]; [|done].
  destruct (OperationBody.declared_visibility _); [done|].
  rewrite E, query_row_delete; [done|]. intros r Hr. bool_prop.
  match goal with Hx : list_eqb (visibility_space_id r) _ = true |- _ => apply list_eqb_eq in Hx as -> end.
  by apply list_eqb_neq.
Qed.

(** The projections of the kept operations. *)
Lemma projections_outside db db' log rows space_id :
  client_entity_visibility db' =
    delete_rows (fun row => list_eqb (visibility_space_id row) space_id) (client_entity_visibility db) ->
  Forall2 (fun s row => client_projection db (op s) = Ok row) log rows ->
  exists rows', Forall2 (fun s row => client_projection db' (op s) = Ok row) (outside space_id log) rows'
    /\ delete_rows (fun row => list_eqb (projection_space_id row) space_id) (concat (List.map option_list rows))
       = concat (List.map option_list rows').
Proof.
  intros E. induction 1 as [|s row log rows Hrow _ (rows' & Hf & Ep)]; [by exists []|].
  unfold outside, delete_rows in *. cbn. rewrite List.filter_app. cbn [List.filter].
  assert (Hkeep : List.filter (fun row => negb (list_eqb (projection_space_id row) space_id)) (option_list row)
    = if in_space space_id s then [] else option_list row).
  { unfold in_space. destruct row as [row|]; cbn; [|by destruct (list_eqb _ _)].
    apply client_projection_space in Hrow as (-> & _). by destruct (list_eqb _ _). }
  rewrite Hkeep, Ep. destruct (in_space space_id s) eqn:Es; cbn [negb].
  - by exists rows'.
  - exists (row :: rows'). split; [|done]. constructor; [|done].
    apply (client_projection_outside db db' _ _ space_id); try done. by apply list_eqb_neq.
Qed.

Lemma delete_transaction_Ok db space_id u db' :
  delete_transaction db space_id = Ok (u, db') ->
  admission_clock db' = admission_clock db /\ last_sequence db' = last_sequence db
  /\ operations db' = delete_rows (fun row => list_eqb (row_space_id row) space_id) (operations db)
  /\ space_rows db' = delete_rows (fun row => list_eqb (descriptor_space_id row) space_id) (space_rows db)
  /\ entity_heads db' = delete_rows (fun row => list_eqb (head_space_id row) space_id) (entity_heads db)
  /\ client_entity_visibility db'
     = delete_rows (fun row => list_eqb (visibility_space_id row) space_id) (client_entity_visibility db)
  /\ capability_grants db'
     = delete_rows (fun row => list_eqb (grant_space_id row) space_id) (capability_grants db)
  /\ capability_grant_revocations db'
     = delete_rows (fun row => list_eqb (revocation_space_id row) space_id) (capability_grant_revocations db)
  /\ client_operation_projections db'
     = delete_rows (fun row => list_eqb (projection_space_id row) space_id) (client_operation_projections db)
  /\ pairing_sessions db'
     = delete_rows (fun row => list_eqb (pairing_space_id row) space_id) (pairing_sessions db).
Proof.
  unfold delete_transaction. destruct (exists_row _ _); cbn [negb]; [|done].
  intros E. apply Ok_inj in E. injection E as _ <-. repeat split.
Qed.

Lemma represents_delete db log space_id u db' :
  represents db log -> delete_transaction db space_id = Ok (u, db') ->
  represents db' (outside space_id log).
Proof.
  intros Hr (Ec & El & Eo & Es & Eh & Ev & Eg & Er & Ep & _)%delete_transaction_Ok.
  assert (Hsub : forall s, s ∈ outside space_id log -> s ∈ log) by (by intros s [? _]%elem_of_outside).
  constructor.
  - by apply log_ok_outside, Hr.
  - rewrite Eo, (rep_rows _ _ Hr). by apply delete_rows_map.
  - destruct (rep_clock _ _ Hr) as (clock & Hc & H0' & Hle). exists clock. rewrite Ec. auto.
  - rewrite El. destruct (rep_sequence _ _ Hr). auto.
  - intros s [Hs Hne]%elem_of_outside. destruct (rep_spaces _ _ Hr s Hs) as (row & Hrow & E).
    exists row. rewrite Es, elem_of_delete_rows, list_eqb_neq, E. auto.
  - intros h. rewrite Eh, elem_of_delete_rows, (rep_heads _ _ Hr), list_eqb_neq. split.
    + intros [(s & Hs & -> & Hn) Hne]. exists s. rewrite elem_of_outside. split; [done|]. split; [done|].
      by rewrite named_parents_outside by (done || apply Hr).
    + intros (s & [Hs Hne]%elem_of_outside & -> & Hn). split; [|done]. exists s. split; [done|].
      split; [done|]. by rewrite named_parents_outside in Hn by (done || apply Hr).
  - rewrite Eh. apply (sublist_NoDup _ (entity_heads db)); [apply Hr|apply delete_rows_sublist].
  - intros space entity. rewrite Eh, count_rows_delete.
    pose proof (rep_head_bound _ _ Hr space entity).
    pose proof (count_rows_nonneg (fun a => head_of_entity space entity a && list_eqb (head_space_id a) space_id)
      (entity_heads db)). lia.
  - intros s [Hs Hne]%elem_of_outside Hc. apply (visibility_agrees_outside db db' _ space_id); try done.
    by apply (rep_visibility _ _ Hr).
  - destruct (rep_projections _ _ Hr) as (rows & Hf & E). rewrite Ep, E.
    by apply (projections_outside db db').
  - rewrite Eg, (rep_grants _ _ Hr). apply delete_concat. intros s g. unfold grant_rows_of.
    destruct (OperationEnvelope.body (op s)); try (by intros ?%not_elem_of_nil).
    by intros ->%list_elem_of_singleton.
  - rewrite Er, (rep_revocations _ _ Hr). apply delete_concat. intros s g. unfold revocation_rows_of.
    destruct (OperationEnvelope.body (op s)); try (by intros ?%not_elem_of_nil).
    by intros ->%list_elem_of_singleton.
Qed.

(** ** Peer reads *)
Lemma peer_transaction_Ok db request page db' :
  peer_transaction db request = Ok (page, db') ->
  exists rows, db' = with_nonces db rows.
Proof.
  unfold peer_transaction. intros Hp. inv_ok. eexists. unfold delete_expired_nonces, with_nonces. cbn. done.
Qed.

(** ** Reachability *)

(** One request.  The pairing repository owns [pairing_sessions]: its writes to that
    table and to the nonces that follow it are arbitrary here. *)
Inductive step (db db' : Database) : Prop :=
| step_bootstrap request out :
    typed_operation (genesis request) -> typed_operation (initial_grant request) ->
    Repository.bootstrap_trusted_space db request = Some (out, db') -> step db db'
| step_submit space_id request out :
    typed_operation (submit_operation_ request) ->
    Repository.submit_operation db space_id request = (out, db') -> step db db'
| step_delete space_id out : RepositoryQueries.delete_space db space_id = (out, db') -> step db db'
| step_peer request out : RepositoryQueries.peer_changes db request = (out, db') -> step db db'
| step_pairing sessions nonces : db' = with_nonces (with_pairings db sessions) nonces -> step db db'.

Definition reachable : Database -> Prop := rtc step fresh_database.

Lemma represents_pairings db log rows : represents db log -> represents (with_pairings db rows) log.
Proof. intros []. by constructor. Qed.

Lemma represents_step db db' log : represents db log -> step db db' -> exists log', represents db' log'.
Proof.
  intros Hr [request out Htg Hti Hb|space_id request out Ht Hs|space_id out Hd|request out Hp|rows nonces ->].
  - apply (bootstrap_cases db log) in Hb as [->|(effective & db1 & Ha & [->|(result & _ & _ & Hrep)])]; try done.
    + by exists log.
    + exists log. by eapply represents_advance.
    + by eexists.
  - apply submit_cases in Hs as [[-> _]|(effective & db1 & Ha & _ & _ & [[-> _]|(s & _ & _ & Had & Hi)])]; [..|done].
    + by exists log.
    + exists log. by eapply represents_advance.
    + exists (log ++ [s]). eapply represents_insert; [|done|done]. by eapply represents_advance.
  - apply commit_cases in Hd as [(u & Hd & _)|(e & _ & _ & ->)]; [|by exists log].
    exists (outside space_id log). by eapply represents_delete.
  - apply commit_cases in Hp as [(page & Hp & _)|(e & _ & _ & ->)]; [|by exists log].
    apply peer_transaction_Ok in Hp as (rows & ->). exists log. by apply represents_nonces.
  - exists log. by apply represents_nonces, represents_pairings.
Qed.

Lemma reachable_represents db : reachable db -> exists log, represents db log.
Proof.
  intros Hreach. unfold reachable in Hreach.
  assert (Hinv : forall a b, rtc step a b -> (exists log, represents a log) -> exists log, represents b log).
  { induction 1 as [|a b c Hs _ IH]; [done|]. intros (log & Hr). apply IH. by eapply represents_step. }
  apply (Hinv _ _ Hreach). exists []. apply fresh_represents.
Qed.
End Steps.
