(* ===== verification/RepositoryTheory.v ===== *)
(** * Correctness of the signed repository

    Over every reachable database: stored entity states are the reductions of their
    histories, change pages deliver the log, projections are a function of the log,
    admission needs authority, and workspaces are isolated. *)
From S2P Require Import Prelude Bytes Floats Crypto Content Cbor Trust TrustTheory DataModel CanonicalBody.
From S2P Require Import BodyTheory Envelope EnvelopeTheory ReducerTheory Authorization AuthorizationTheory Peer.
From S2P Require Import Application Database Repository RepositoryQueries RepositoryLog RepositorySteps.

#[local] Opaque OperationEnvelope.verify insert_operation.

Section Theory.
Context `{Sha256} `{Ed25519} `{HalfFloat} `{Base64} `{!JsonNumber} `{!JsonSize}
  `{!ProjectionJson} `{!Lowercase}.
Implicit Types (o : OperationEnvelope.t) (s : StoredOperation) (log : list StoredOperation)
  (db : Database).

Notation op := Application.operation.
Notation id := OperationEnvelope.operation_id.
Notation parents := OperationEnvelope.causal_parents.

(** ** Reading the log back *)
Lemma select_map {A B} (f : A -> bool) (g : B -> bool) (h : A -> B) l :
  (forall a, g (h a) = f a) -> select g (List.map h l) = List.map h (select f l).
Proof.
  intros Hg. unfold select. induction l as [|a l IH]; [done|]. cbn. rewrite Hg.
  destruct (f a); cbn; by rewrite IH.
Qed.

Lemma collect_rows l :
  (forall s, s ∈ l -> valid s) -> Forall reads_back (ops l) ->
  collect decode_stored_values (List.map row_for l) = Ok l.
Proof.
  intros Hv Hl. rewrite (collect_map_ok row_for decode_stored_values (fun s => s)).
  - by rewrite List.map_id.
  - intros s Hs. apply decode_row; [auto|]. rewrite Forall_forall in Hl. apply Hl, elem_of_ops. by exists s.
Qed.

(** A page is decoded whole, or the corruption of one of its rows is reported. *)
Lemma collect_rows_cases l :
  json_exact -> (forall s, s ∈ l -> valid s) ->
  (Forall reads_back (ops l) /\ collect decode_stored_values (List.map row_for l) = Ok l)
  \/ (~ Forall reads_back (ops l) /\ exists e, collect decode_stored_values (List.map row_for l) = Err (Corrupt e)).
Proof.
  intros Hj. induction l as [|s l IH]; intros Hv; [left; split; [constructor|done]|].
  change (ops (s :: l)) with (op s :: ops l). cbn [List.map collect].
  destruct (decode_row_cases s Hj ltac:(apply Hv; left)) as [[Hs ->]|[Hs [e ->]]].
  - destruct IH as [[Hl E]|[Hl [e E]]]; [intros; apply Hv; by right| |]; rewrite E.
    + left. split; [by constructor|done].
    + right. split; [|by exists e]. by intros [_ Hl']%Forall_cons.
  - right. split; [|by exists e]. by intros [Hs' _]%Forall_cons.
Qed.

Lemma find_id log o_id s :
  log_ok log -> List.find (fun s => list_eqb (id (op s)) o_id) log = Some s <-> s ∈ log /\ id (op s) = o_id.
Proof.
  intros Hok. split.
  - intros [Hin Hid]%find_some. rewrite list_elem_of_In. split; [done|]. by apply list_eqb_eq.
  - intros [Hin Hid]. destruct (List.find _ log) as [s'|] eqn:E.
    + apply find_some in E as [Hin' Hid']. apply list_eqb_eq in Hid'. f_equal.
      apply (log_id_inj log); [done|by apply list_elem_of_In|done|congruence].
    + apply list_elem_of_In in Hin. pose proof (find_none _ _ E s Hin) as Hn. cbn in Hn.
      by rewrite Hid, list_eqb_refl in Hn.
Qed.

Lemma load_stored_log db log o_id :
  represents db log ->
  load_stored db o_id
  = match List.find (fun s => list_eqb (id (op s)) o_id) log with
    | Some s => let? stored := decode_stored_values (row_for s) in Ok (Some stored)
    | None => Ok None
    end.
Proof.
  intros Hr. unfold load_stored, operation_row, query_row. rewrite (rep_rows _ _ Hr). clear Hr.
  induction log as [|s log IH]; [done|]. cbn [List.map List.find].
  change (row_operation_id (row_for s)) with (id (op s)). by destruct (list_eqb (id (op s)) o_id).
Qed.

Lemma load_stored_Ok db log o_id s :
  json_exact -> represents db log -> load_stored db o_id = Ok (Some s) -> s ∈ log /\ id (op s) = o_id.
Proof.
  intros Hj Hr. rewrite (load_stored_log db log) by done.
  destruct (List.find _ log) as [s'|] eqn:E; [|done]. apply find_id in E; [|apply Hr]. destruct E as [Hin Hid].
  destruct (decode_row_cases s' Hj (log_valid log (rep_log _ _ Hr) s' Hin)) as [[_ ->]|[_ [e ->]]]; [|done].
  by intros [= <-].
Qed.

Lemma load_stored_reads db log s :
  represents db log -> s ∈ log -> reads_back (op s) -> load_stored db (id (op s)) = Ok (Some s).
Proof.
  intros Hr Hs Hb. rewrite (load_stored_log db log) by done.
  rewrite (proj2 (find_id log (id (op s)) s (rep_log _ _ Hr))) by done.
  by rewrite (decode_row s (log_valid log (rep_log _ _ Hr) s Hs) Hb).
Qed.

(** The operations of one entity, in the order of their admission. *)
Definition of_entity (space_id entity_id : list Z) s : bool := in_entity space_id entity_id (row_for s).

Lemma of_entity_spec space_id entity_id s :
  of_entity space_id entity_id s = true
  <-> OperationEnvelope.space_id (op s) = space_id /\ OperationEnvelope.entity_id (op s) = entity_id.
Proof. unfold of_entity, in_entity. cbn. by rewrite andb_true_iff, !list_eqb_eq. Qed.

Lemma select_split {A} (f : A -> bool) l before a after :
  select f l = before ++ a :: after ->
  exists before' after', l = before' ++ a :: after' /\ before = select f before' /\ f a = true.
Proof.
  unfold select. revert before. induction l as [|b l IH]; intros before; cbn; [by destruct before|].
  destruct (f b) eqn:Eb; cbn.
  - destruct before as [|c before]; cbn; intros [= -> E].
    + exists [], l. done.
    + apply IH in E as (l1 & l2 & -> & -> & Ha). exists (c :: l1), l2. cbn. by rewrite Eb.
  - intros (l1 & l2 & -> & -> & Ha)%IH. exists (b :: l1), l2. cbn. by rewrite Eb.
Qed.

(** The history of an entity is a stream the reducer accepts. *)
Lemma history_reduces log space_id entity_id schema :
  log_ok log ->
  (forall s, s ∈ log -> of_entity space_id entity_id s = true -> OperationEnvelope.schema (op s) = schema) ->
  let history := ops (select (of_entity space_id entity_id) log) in
  Forall (belongs space_id entity_id schema) history /\ NoDup (ids history) /\ topological history.
Proof.
  intros Hok Hschema history. split; [|split].
  - apply Forall_forall. intros o (s & [Hs He]%elem_of_select & <-)%elem_of_ops.
    pose proof (valid_verified s (log_valid log Hok s Hs)).
    pose proof He as [? ?]%of_entity_spec. repeat split; auto.
  - apply (sublist_NoDup _ (ids (ops log))); [apply Hok|]. unfold history, ids, ops.
    apply (fmap_sublist id), (fmap_sublist op). unfold select. clear.
    induction log as [|a log IH]; cbn; [constructor|]. destruct (of_entity _ _ a); by constructor.
  - intros before o after E p Hp. unfold history, ops in E.
    apply map_eq_app in E as (l1 & l2 & E & <- & E2). destruct l2 as [|s l2]; [done|].
    injection E2 as <- _. apply select_split in E as (b' & a' & -> & -> & He).
    destruct (log_parents _ Hok b' s a' eq_refl p Hp) as (q & Hq & <- & (Es & Ee & _)).
    apply of_entity_spec in He as [Hs1 Hs2].
    apply elem_of_ids. exists (op q). split; [|done]. apply elem_of_ops. exists q. split; [|done].
    apply elem_of_select. split; [done|]. apply of_entity_spec. split; congruence.
Qed.

(** Naming within the entity is naming in the whole log. *)
Lemma named_in_history log space_id entity_id s :
  log_ok log -> s ∈ log -> of_entity space_id entity_id s = true ->
  id (op s) ∈ named_parents (ops (select (of_entity space_id entity_id) log))
  <-> id (op s) ∈ named_parents (ops log).
Proof.
  intros Hok Hs He. rewrite !elem_of_named. setoid_rewrite elem_of_ops. split.
  - intros (o & (c & [Hc _]%elem_of_select & <-) & Hp). exists (op c). split; [by exists c|done].
  - intros (o & (c & Hc & <-) & Hp). exists (op c). split; [|done]. exists c. split; [|done].
    apply elem_of_select. split; [done|].
    pose proof Hc as (before & after & E)%list_elem_of_split.
    destruct (log_parents log Hok before c after E _ Hp) as (q & Hq & Eid & (Es & Ee & _)).
    assert (q = s) as ->.
    { apply (log_id_inj log); try done. rewrite E, elem_of_app. by left. }
    apply of_entity_spec in He as [? ?]. apply of_entity_spec. split; congruence.
Qed.

(** ** Entity states *)
Definition stored_id_le s s' : Prop := bytes_le (id (op s)) (id (op s')).
#[local] Instance stored_id_le_dec s s' : Decision (stored_id_le s s').
Proof. unfold stored_id_le. apply _. Defined.

(** A stored head of an entity, as the query selects it. *)
Definition is_head_of db (space_id entity_id : list Z) (schema : EntitySchema.t) s : bool :=
  list_eqb (OperationEnvelope.space_id (op s)) space_id
  && contains (id (op s))
       (List.map head_id
          (select (fun row => head_of_entity space_id entity_id row && eqb (head_schema row) schema)
             (entity_heads db))).

Lemma is_head_of_spec db log space_id entity_id schema s :
  represents db log -> s ∈ log ->
  (of_entity space_id entity_id s = true -> OperationEnvelope.schema (op s) = schema) ->
  is_head_of db space_id entity_id schema s
  = of_entity space_id entity_id s && bool_decide (id (op s) ∉ named_parents (ops log)).
Proof.
  intros Hr Hs Hsc. apply eq_true_iff_eq. unfold is_head_of, contains.
  rewrite !andb_true_iff, !bool_decide_eq_true, list_eqb_eq, list_elem_of_In, in_map_iff.
  setoid_rewrite <- list_elem_of_In. split.
  - intros [Esp (h & Hid & [Hh Hsel]%elem_of_select)]. apply (rep_heads _ _ Hr) in Hh as (a & Ha & -> & Hn).
    cbn in Hid. assert (a = s) as -> by (apply (log_id_inj log); [apply Hr|done|done|done]).
    split; [|done]. apply of_entity_spec. unfold head_of_entity in Hsel. bool_prop. cbn in *.
    split; by apply list_eqb_eq.
  - intros [He Hn]. pose proof He as [Es Ee]%of_entity_spec. split; [done|]. exists (head_for (op s)).
    split; [done|]. apply elem_of_select. split; [apply (rep_heads _ _ Hr); by exists s|].
    unfold head_of_entity. cbn. by rewrite Es, Ee, !list_eqb_refl, (Hsc He), eqb_refl'.
Qed.

Lemma filter_ops (P : OperationEnvelope.t -> Prop) `{forall o, Decision (P o)} (f : StoredOperation -> bool) l :
  filter P (ops (select f l)) = ops (select (fun s => f s && bool_decide (P (op s))) l).
Proof.
  unfold ops, select. induction l as [|s l IH]; [done|]. cbn [List.filter].
  destruct (f s); cbn [List.map andb]; [|exact IH]. rewrite filter_cons.
  destruct (decide (P (op s))) as [Hp|Hp].
  - rewrite bool_decide_eq_true_2 by done. cbn [List.map]. by rewrite IH.
  - by rewrite bool_decide_eq_false_2 by done.
Qed.

Lemma select_ext_in {A} (f g : A -> bool) l : (forall a, a ∈ l -> f a = g a) -> select f l = select g l.
Proof. intros Hfg. apply filter_ext_in. intros a Ha. apply Hfg. by apply list_elem_of_In. Qed.

(** The heads the query returns, against the reducer's. *)
Lemma stored_heads_causal db log space_id entity_id schema :
  represents db log ->
  (forall s, s ∈ log -> of_entity space_id entity_id s = true -> OperationEnvelope.schema (op s) = schema) ->
  let heads := merge_sort stored_id_le (select (is_head_of db space_id entity_id schema) log) in
  head_rows db space_id entity_id schema = List.map row_for heads
  /\ List.map EntityReducer.head_of (ops heads)
     = causal_heads (ops (select (of_entity space_id entity_id) log)).
Proof.
  intros Hr Hsc heads. split.
  - unfold head_rows, heads. rewrite (rep_rows _ _ Hr).
    rewrite (select_map (is_head_of db space_id entity_id schema)) by done.
    by apply merge_sort_map.
  - unfold causal_heads. f_equal. unfold heads, ops at 1. rewrite <- (merge_sort_map stored_id_le id_le op) by done.
    f_equal. fold (ops (select (is_head_of db space_id entity_id schema) log)). rewrite filter_ops. f_equal.
    apply select_ext_in. intros s Hs. rewrite (is_head_of_spec db log) by eauto.
    destruct (of_entity space_id entity_id s) eqn:He; [|done]. cbn. apply bool_decide_ext.
    by rewrite named_in_history by (done || apply Hr).
Qed.

(** At most 64 heads, and one when there is history. *)
Lemma stored_heads_bound db log space_id entity_id schema :
  represents db log ->
  (forall s, s ∈ log -> of_entity space_id entity_id s = true -> OperationEnvelope.schema (op s) = schema) ->
  Z.of_nat (length (select (is_head_of db space_id entity_id schema) log)) <= MAX_ENTITY_HEADS.
Proof.
  intros Hr Hsc. etrans; [|apply (rep_head_bound _ _ Hr space_id entity_id)]. unfold count_rows.
  apply inj_le. rewrite <- (List.length_map (fun s => head_for (op s))).
  apply NoDup_incl_length.
  - apply NoDup_ListNoDup. apply (NoDup_fmap_1 head_id).
    change (fmap head_id) with (List.map head_id). rewrite List.map_map. cbn.
    apply (sublist_NoDup _ (ids (ops log))); [apply Hr|]. unfold ids, ops. rewrite List.map_map.
    apply (fmap_sublist (fun s => id (op s))). unfold select. clear.
    induction log as [|a log IH]; cbn; [constructor|]. destruct (is_head_of _ _ _ _ a); by constructor.
  - intros h Hh%list_elem_of_In. apply list_elem_of_In, elem_of_select.
    apply list_elem_of_In, in_map_iff in Hh as (s & <- & Hs). apply list_elem_of_In in Hs.
    apply elem_of_select in Hs as [Hs Hh]. rewrite (is_head_of_spec db log) in Hh by eauto.
    apply andb_true_iff in Hh as [He Hn]. apply bool_decide_eq_true in Hn. split.
    + apply (rep_heads _ _ Hr). by exists s.
    + apply of_entity_spec in He as [Es Ee]. unfold head_of_entity. cbn. by rewrite Es, Ee, !list_eqb_refl.
Qed.

Lemma stored_heads_nonempty db log space_id entity_id schema :
  represents db log ->
  (forall s, s ∈ log -> of_entity space_id entity_id s = true -> OperationEnvelope.schema (op s) = schema) ->
  select (of_entity space_id entity_id) log <> [] ->
  select (is_head_of db space_id entity_id schema) log <> [].
Proof.
  intros Hr Hsc Hne Hnil.
  destruct (history_reduces log space_id entity_id schema (rep_log _ _ Hr) Hsc) as (_ & Hn & Ht).
  destruct (select (of_entity space_id entity_id) log) as [|s l _] eqn:El using rev_ind; [done|].
  assert (Hs : s ∈ select (of_entity space_id entity_id) log).
  { rewrite El. apply elem_of_app. right. left. }
  pose proof Hs as [Hlog He]%elem_of_select.
  assert (Hhead : s ∈ select (is_head_of db space_id entity_id schema) log); [|rewrite Hnil in Hhead; by apply not_elem_of_nil in Hhead].
  apply elem_of_select. split; [done|]. rewrite (is_head_of_spec db log) by eauto. rewrite He. cbn.
  apply bool_decide_eq_true. rewrite <- (named_in_history log space_id entity_id) by (done || apply Hr).
  rewrite El, named_parents_snoc. intros [(o & Ho & Hp)%elem_of_named|Hp].
  - apply list_elem_of_split in Ho as (l1 & l2 & E). unfold ops in Ht. rewrite List.map_app in Ht.
    fold (ops l) in Ht. rewrite E in Ht. rewrite <- app_assoc in Ht. specialize (Ht l1 o _ eq_refl _ Hp).
    unfold ops in Hn. rewrite List.map_app in Hn. fold (ops l) in Hn. rewrite E in Hn.
    unfold ids in *. rewrite !List.map_app in Hn. apply NoDup_app in Hn as (_ & Hd & _).
    apply (Hd (id (op s))); [|left]. apply elem_of_app. by left.
  - by apply (verify_parents (op s) (valid_verified s (log_valid _ (rep_log _ _ Hr) s Hlog))).
Qed.

(** The rows of an entity share the schema of the first. *)
Lemma history_schema log space_id entity_id s l :
  log_ok log -> select (of_entity space_id entity_id) log = s :: l ->
  forall a, a ∈ log -> of_entity space_id entity_id a = true ->
  OperationEnvelope.schema (op a) = OperationEnvelope.schema (op s).
Proof.
  intros Hok E a Ha He. assert (Hs : s ∈ select (of_entity space_id entity_id) log) by (rewrite E; left).
  apply elem_of_select in Hs as [Hs Hes]. apply of_entity_spec in He as [], Hes as [].
  apply (log_schemas log Hok a s); congruence.
Qed.

Lemma one_schema (schema : EntitySchema.t) l :
  l <> [] -> (forall x, x ∈ l -> x = schema) -> length (remove_dups l) = 1%nat.
Proof.
  intros Hne Hl. pose proof (NoDup_remove_dups l) as Hn.
  assert (Hin : forall x, x ∈ remove_dups l <-> x ∈ l) by (intros x; apply elem_of_remove_dups).
  destruct (remove_dups l) as [|a [|b r]]; [|done|].
  - destruct l as [|x l]; [done|]. specialize (Hin x). destruct Hin as [_ Hin].
    specialize (Hin ltac:(left)). by apply not_elem_of_nil in Hin.
  - apply NoDup_cons in Hn as [Ha _]. destruct Ha. rewrite (Hl a), (Hl b); [left| |].
    + apply Hin. right. left.
    + apply Hin. left.
Qed.

Lemma history_one_schema log space_id entity_id s l :
  log_ok log -> select (of_entity space_id entity_id) log = s :: l ->
  length (remove_dups (List.map row_schema (List.map row_for (s :: l)))) = 1%nat.
Proof.
  intros Hok E. apply (one_schema (OperationEnvelope.schema (op s))); [done|].
  intros x Hx. rewrite List.map_map in Hx. apply list_elem_of_In, in_map_iff in Hx as (a & <- & Ha).
  apply list_elem_of_In in Ha. rewrite <- E in Ha. apply elem_of_select in Ha as [? ?].
  by apply (history_schema log space_id entity_id s l).
Qed.

(** C1: what the node stores for an entity is the reduction of what it admitted: in
    every reachable database the heads [entity_state] reads, one to 64 of them, their
    schema and the operation count are those [EntityReducer.reduce_entity] computes
    from the entity's admitted history.  The state is returned exactly when the JSON
    text of every head reads back; otherwise the answer is the corruption error. *)
Theorem stored_state_refines_reducer (db : Database) (space_id entity_id : list Z) :
  json_exact -> reachable db -> require_space db space_id = Ok tt ->
  exists history,
    select (in_entity space_id entity_id) (operations db) = List.map row_for history
    /\ Forall valid history
    /\ match history with
       | [] => entity_state db space_id entity_id = Ok None
       | first :: _ => exists heads,
           let schema := OperationEnvelope.schema (op first) in
           heads ⊆ history /\ (1 <= length heads)%nat /\ Z.of_nat (length heads) <= MAX_ENTITY_HEADS
           /\ EntityReducer.reduce_entity space_id entity_id schema (List.map op history)
              = Ok (Some (mkReducedEntity _ space_id entity_id schema (length history)
                            (List.map EntityReducer.head_of (List.map op heads))))
           /\ (Forall reads_back (List.map op heads) ->
                entity_state db space_id entity_id
                = Ok (Some (mkEntityState space_id entity_id schema (Z.of_nat (length history)) heads)))
           /\ (~ Forall reads_back (List.map op heads) ->
                exists e, entity_state db space_id entity_id = Err (Corrupt e))
       end.
Proof.
  intros Hj (log & Hr)%reachable_represents Hspace.
  exists (select (of_entity space_id entity_id) log).
  assert (Hvalid : forall s, s ∈ log -> valid s) by apply (rep_log _ _ Hr).
  assert (Erows : select (in_entity space_id entity_id) (operations db)
    = List.map row_for (select (of_entity space_id entity_id) log)).
  { rewrite (rep_rows _ _ Hr). by apply select_map. }
  split; [exact Erows|]. split.
  { apply Forall_forall. intros s [Hs _]%elem_of_select. by apply Hvalid. }
  unfold entity_state. rewrite Hspace, Erows.
  destruct (select (of_entity space_id entity_id) log) as [|s l] eqn:El; [done|].
  pose proof (history_schema log space_id entity_id s l (rep_log _ _ Hr) El) as Hsc.
  set (schema := OperationEnvelope.schema (op s)) in *.
  destruct (stored_heads_causal db log space_id entity_id schema Hr Hsc) as [Erow Ecausal].
  pose proof (stored_heads_bound db log space_id entity_id schema Hr Hsc) as Hbound.
  pose proof (stored_heads_nonempty db log space_id entity_id schema Hr Hsc) as Hne.
  specialize (Hne ltac:(by rewrite El)).
  set (heads := merge_sort stored_id_le (select (is_head_of db space_id entity_id schema) log)) in *.
  assert (Hlen : length heads = length (select (is_head_of db space_id entity_id schema) log)).
  { unfold heads. by rewrite merge_sort_Permutation. }
  assert (Hvh : forall a, a ∈ heads -> valid a).
  { intros a Ha. unfold heads in Ha. rewrite merge_sort_Permutation in Ha. apply elem_of_select in Ha as [? _]. auto. }
  rewrite <- Hlen in Hbound.
  assert (Hpos : (1 <= length heads)%nat).
  { rewrite Hlen. destruct (select (is_head_of _ _ _ _) log); [done|cbn; lia]. }
  exists heads. cbv zeta. split.
  { intros a Ha. unfold heads in Ha. rewrite merge_sort_Permutation in Ha. apply elem_of_select in Ha as [Hlog Ha].
    rewrite <- El. apply elem_of_select. split; [done|]. rewrite (is_head_of_spec db log) in Ha by eauto.
    by apply andb_true_iff in Ha as [Ha _]. }
  split; [done|]. split; [done|]. split.
  { apply reduce_entity_iff.
    destruct (history_reduces log space_id entity_id schema (rep_log _ _ Hr) Hsc) as (Hb & Hn & Ht).
    rewrite El in *. split; [exact Hb|]. split; [exact Hn|]. split; [exact Ht|].
    unfold ops in Ecausal at 1. rewrite Ecausal.
    unfold ops. cbn [List.map List.length]. by rewrite List.length_map. }
  cbn [List.map]. change (row_schema (row_for s)) with schema.
  change (schema :: List.map row_schema (List.map row_for l))
    with (List.map row_schema (List.map row_for (s :: l))).
  rewrite (history_one_schema log space_id entity_id) by (done || apply Hr).
  cbn [Nat.eqb negb]. rewrite Erow.
  assert (He : is_empty heads = false) by (destruct heads; [cbn in Hpos; lia|done]).
  destruct (collect_rows_cases heads Hj Hvh) as [[Hrb ->]|[Hrb [e ->]]].
  - split; [intros _|by intros []]. rewrite He, (proj2 (Z.ltb_ge _ _) Hbound). cbn [List.length List.map].
    rewrite List.length_map. unfold positive_u64.
    by destruct (Z.ltb_spec 0 (Z.of_nat (S (length l)))); [|lia].
  - split; [by intros ?; destruct Hrb|by exists e].
Qed.

(** ** The log *)

(** C27: in every reachable database operation ids are distinct, local sequences
    ascend strictly, effective receipt times never decrease and never pass the
    admission clock, every row belongs to a known space, and the rows of one entity
    have one schema. *)
Theorem operation_log_invariant (db : Database) :
  reachable db ->
  NoDup (List.map row_operation_id (operations db))
  /\ StronglySorted (fun a b => row_local_sequence a < row_local_sequence b
                               /\ row_received_at_unix_ms a <= row_received_at_unix_ms b) (operations db)
  /\ (exists clock, admission_clock db = Some clock /\ forall row, row ∈ operations db ->
        0 < row_local_sequence row <= last_sequence db /\ row_received_at_unix_ms row <= clock
        /\ exists space, space ∈ space_rows db /\ descriptor_space_id space = row_space_id row)
  /\ (forall a b, a ∈ operations db -> b ∈ operations db -> row_space_id a = row_space_id b ->
        row_entity_id a = row_entity_id b -> row_schema a = row_schema b).
Proof.
  intros (log & Hr)%reachable_represents. pose proof (rep_log _ _ Hr) as Hok. split; [|split; [|split]].
  - rewrite (rep_rows _ _ Hr), List.map_map. pose proof (log_ids log Hok) as Hn.
    unfold ids, ops in Hn. by rewrite List.map_map in Hn.
  - rewrite (rep_rows _ _ Hr). pose proof (log_order log Hok) as Ho. clear Hok Hr.
    induction Ho as [|a l _ IH Ha]; cbn; [constructor|]. constructor; [done|].
    by apply Forall_map.
  - destruct (rep_clock _ _ Hr) as (clock & Ec & _ & Hle). exists clock. split; [done|].
    intros row (s & Hs & ->)%(elem_of_rows _ _ _ Hr). cbn. destruct (rep_sequence _ _ Hr) as [_ Hseq].
    split; [split; [apply (valid_sequence s), (log_valid log Hok s Hs)|by apply Hseq]|].
    split; [by apply Hle|]. by apply (rep_spaces _ _ Hr).
  - intros a b (s & Hs & ->)%(elem_of_rows _ _ _ Hr) (s' & Hs' & ->)%(elem_of_rows _ _ _ Hr) Es Ee.
    by apply (log_schemas log Hok s s').
Qed.

(** Every declared visibility is of a client schema. *)
Lemma declared_client o v :
  OperationEnvelope.verify o = Ok tt ->
  OperationBody.declared_visibility (OperationEnvelope.body o) = Some v ->
  is_client_schema (OperationEnvelope.schema o) = true.
Proof.
  intros Hv%verify_validates Hd. unfold validate_for in Hv. destruct (negb _ && _); [done|].
  destruct (OperationEnvelope.schema o), (OperationEnvelope.body o); done.
Qed.

(** Visibility is immutable: two stored operations of one entity never declare
    different visibilities, so nothing private is ever revised in public. *)
Theorem visibility_immutable (db : Database) (a b : list Z) (s s' : StoredOperation) (v v' : Visibility.t) :
  json_exact -> reachable db ->
  load_stored db a = Ok (Some s) -> load_stored db b = Ok (Some s') ->
  OperationEnvelope.space_id (op s) = OperationEnvelope.space_id (op s') ->
  OperationEnvelope.entity_id (op s) = OperationEnvelope.entity_id (op s') ->
  OperationBody.declared_visibility (OperationEnvelope.body (op s)) = Some v ->
  OperationBody.declared_visibility (OperationEnvelope.body (op s')) = Some v' -> v = v'.
Proof.
  intros Hj (log & Hr)%reachable_represents Ha Hb Es Ee Hv Hv'.
  apply (load_stored_Ok db log a s Hj Hr) in Ha as [Ha _].
  apply (load_stored_Ok db log b s' Hj Hr) in Hb as [Hb _].
  pose proof (log_valid log (rep_log _ _ Hr)) as Hvalid.
  destruct (rep_visibility _ _ Hr s Ha) as (row & Hrow & _ & Hd).
  { apply (declared_client _ v); [|done]. apply (valid_verified s), Hvalid, Ha. }
  destruct (rep_visibility _ _ Hr s' Hb) as (row' & Hrow' & _ & Hd').
  { apply (declared_client _ v'); [|done]. apply (valid_verified s'), Hvalid, Hb. }
  rewrite (Hd v Hv), (Hd' v' Hv'). rewrite Es, Ee, Hrow' in Hrow. by injection Hrow as ->.
Qed.

(** ** Change pages *)

(** A reader that follows [next_after] while [has_more]. *)
Fixpoint read_changes (fuel : nat) (db : Database) (space_id : list Z) (after limit : Z) :
    result RepositoryError (list StoredOperation) :=
  match fuel with
  | O => Err (Unavailable (Message (str "out of fuel")))
  | S fuel =>
      let? page := Repository.changes_after db space_id after limit in
      if has_more page then
        let? rest := read_changes fuel db space_id (next_after page) limit in
        Ok (page_operations page ++ rest)
      else Ok (page_operations page)
  end.

Definition space_log (space_id : list Z) log : list StoredOperation := select (in_space space_id) log.
Definition is_after (after : Z) s : bool := after <? local_sequence s.

Lemma removelast_firstn_S {A} n (l : list A) :
  (n < length l)%nat -> removelast (firstn (S n) l) = firstn n l.
Proof. intros Hn. rewrite removelast_firstn_len, length_firstn. by rewrite firstn_firstn, Nat.min_l by lia; f_equal; lia. Qed.

Lemma select_select {A} (f g : A -> bool) l : select f (select g l) = select (fun a => g a && f a) l.
Proof.
  unfold select. induction l as [|a l IH]; [done|]. cbn. destruct (g a); cbn; [|done].
  destruct (f a); by rewrite IH.
Qed.

(** One page: the next [limit] operations after the cursor.  The query decodes one row
    more than it returns. *)
Definition fetched (limit : Z) (rest : list StoredOperation) : list StoredOperation :=
  firstn (Z.to_nat (limit + 1)) rest.

Lemma changes_rows db log space_id after limit :
  represents db log -> require_space db space_id = Ok tt ->
  in_limit limit MAX_CHANGE_LIMIT = true -> checked_i64 after = Some after ->
  let rest := select (is_after after) (space_log space_id log) in
  Repository.changes_after db space_id after limit
  = let? decoded := collect decode_stored_values (List.map row_for (fetched limit rest)) in
    let has_more := limit <? Z.of_nat (length decoded) in
    let page := if has_more then removelast decoded else decoded in
    Ok (mkPage space_id page (last_sequence_of page after) has_more).
Proof.
  intros Hr Hs Hl Ha rest. unfold Repository.changes_after, load_changes. rewrite Hl, Hs, Ha. cbn [negb].
  assert (Erows : select (fun row => list_eqb (row_space_id row) space_id && (after <? row_local_sequence row))
    (operations db) = List.map row_for rest).
  { rewrite (rep_rows _ _ Hr). unfold rest, space_log. rewrite select_select. by apply select_map. }
  by rewrite Erows, firstn_map.
Qed.

Lemma fetched_valid db log space_id after limit s :
  represents db log -> s ∈ fetched limit (select (is_after after) (space_log space_id log)) -> valid s.
Proof.
  intros Hr (i & Hi & _)%elem_of_take. apply list_elem_of_lookup_2, elem_of_select in Hi as [Hi _].
  apply elem_of_select in Hi as [Hi _]. by apply (log_valid log (rep_log _ _ Hr)).
Qed.

Lemma changes_page db log space_id after limit :
  represents db log -> require_space db space_id = Ok tt ->
  in_limit limit MAX_CHANGE_LIMIT = true -> checked_i64 after = Some after ->
  let rest := select (is_after after) (space_log space_id log) in
  Forall reads_back (ops (fetched limit rest)) ->
  Repository.changes_after db space_id after limit
  = Ok (mkPage space_id (firstn (Z.to_nat limit) rest)
          (last_sequence_of (firstn (Z.to_nat limit) rest) after)
          (limit <? Z.of_nat (length rest))).
Proof.
  intros Hr Hs Hl Ha rest Hrb. rewrite (changes_rows db log) by done. fold rest.
  rewrite collect_rows; [|intros s; by apply (fetched_valid db log space_id after)|done]. cbv zeta.
  unfold fetched. unfold in_limit in Hl. bool_prop. replace (Z.to_nat (limit + 1)) with (S (Z.to_nat limit)) by lia.
  rewrite length_firstn.
  destruct (Z.ltb_spec limit (Z.of_nat (length rest))) as [Hm|Hm].
  - rewrite (proj2 (Z.ltb_lt _ _)) by lia. by rewrite removelast_firstn_S by lia.
  - rewrite (proj2 (Z.ltb_ge _ _)) by lia. by rewrite !firstn_all2 by lia.
Qed.

Lemma is_after_split (l1 l2 : list StoredOperation) x :
  StronglySorted (fun a b => local_sequence a < local_sequence b
                             /\ received_at_unix_ms a <= received_at_unix_ms b) (l1 ++ x :: l2) ->
  select (is_after (local_sequence x)) (l1 ++ x :: l2) = l2.
Proof.
  intros Hs. unfold select. rewrite List.filter_app. cbn [List.filter]. unfold is_after at 2.
  rewrite Z.ltb_irrefl. apply StronglySorted_app in Hs as (Hlt & _ & Hs).
  assert (E1 : List.filter (is_after (local_sequence x)) l1 = []).
  { induction l1 as [|a l1 IH]; [done|]. cbn. unfold is_after at 1.
    destruct (Hlt a x ltac:(left) ltac:(left)) as [Ha _].
    rewrite (proj2 (Z.ltb_ge _ _)) by lia. apply IH. intros b c Hb. apply Hlt. by right. }
  rewrite E1. cbn. inversion Hs as [|? ? _ Hall]; subst. rewrite Forall_forall in Hall.
  apply forallb_filter_id, forallb_forall. intros a Ha. apply list_elem_of_In in Ha.
  destruct (Hall a Ha). by apply Z.ltb_lt.
Qed.

Lemma space_log_sorted db log space_id :
  represents db log ->
  StronglySorted (fun a b => local_sequence a < local_sequence b
                             /\ received_at_unix_ms a <= received_at_unix_ms b) (space_log space_id log).
Proof.
  intros Hr. pose proof (log_order log (rep_log _ _ Hr)) as Ho. unfold space_log, select. clear Hr.
  induction Ho as [|a l _ IH Ha]; cbn; [constructor|]. destruct (in_space _ a); [|done].
  constructor; [done|]. rewrite Forall_forall in *.
  intros b [Hb _]%(elem_of_select (in_space space_id)). by apply Ha.
Qed.

(** The reader gets the rest of the space's log, or the corruption of a row in it. *)
Definition read_outcome (rest : list StoredOperation) (r : result RepositoryError (list StoredOperation)) : Prop :=
  (Forall reads_back (ops rest) /\ r = Ok rest)
  \/ (~ Forall reads_back (ops rest) /\ exists e, r = Err (Corrupt e)).

Lemma read_outcome_app page rest r :
  Forall reads_back (ops page) -> read_outcome rest r ->
  read_outcome (page ++ rest) (let? rest := r in Ok (page ++ rest)).
Proof.
  intros Hp. unfold read_outcome, ops. rewrite List.map_app, Forall_app.
  intros [[Hr ->]|[Hr [e ->]]]; [by left|right]. split; [by intros []|by exists e].
Qed.

Lemma ops_take n l : ops (firstn n l) = firstn n (ops l).
Proof. unfold ops. by rewrite firstn_map. Qed.

Lemma read_changes_rest db log space_id limit :
  json_exact -> represents db log -> require_space db space_id = Ok tt ->
  in_limit limit MAX_CHANGE_LIMIT = true ->
  forall fuel l1 rest after, space_log space_id log = l1 ++ rest ->
    select (is_after after) (space_log space_id log) = rest -> checked_i64 after = Some after ->
    (length rest < fuel)%nat -> read_outcome rest (read_changes fuel db space_id after limit).
Proof.
  intros Hj Hr Hs Hl. pose proof Hl as Hl'. unfold in_limit in Hl'. bool_prop.
  pose proof (space_log_sorted db log space_id Hr) as Hsort.
  induction fuel as [|fuel IH]; intros l1 rest after El Erest Ha Hf; [lia|]. cbn [read_changes].
  destruct (collect_rows_cases (fetched limit rest) Hj) as [[Hrb _]|[Hrb [e Ee]]].
  { intros s. rewrite <- Erest. by apply (fetched_valid db log space_id after). }
  2:{ rewrite (changes_rows db log), Erest, Ee by done. right. split; [|by exists e].
      intros Hall. apply Hrb. unfold fetched. rewrite ops_take. by apply Forall_take. }
  rewrite (changes_page db log); [|done|done|done|done|by rewrite Erest]. rewrite Erest.
  cbn [has_more page_operations next_after].
  assert (Hpage : Forall reads_back (ops (firstn (Z.to_nat limit) rest))).
  { unfold fetched in Hrb. rewrite ops_take in *. apply (Forall_take _ (Z.to_nat limit)) in Hrb.
    by rewrite take_take, Nat.min_l in Hrb by lia. }
  destruct (Z.ltb_spec limit (Z.of_nat (length rest))) as [Hm|Hm].
  2:{ rewrite firstn_all2 in * by lia. by left. }
  destruct (firstn (Z.to_nat limit) rest) as [|x p _] eqn:Ep using rev_ind.
  { apply (f_equal length) in Ep. rewrite length_firstn in Ep. cbn in Ep. lia. }
  remember (skipn (Z.to_nat limit) rest) as tail eqn:Etail.
  assert (Erest' : rest = (p ++ [x]) ++ tail) by (by rewrite <- (firstn_skipn (Z.to_nat limit) rest), Ep, <- Etail).
  unfold last_sequence_of. rewrite last_snoc. rewrite Erest' at 1. apply read_outcome_app; [done|].
  assert (Hx : x ∈ log).
  { assert (Hin : x ∈ space_log space_id log).
    { rewrite El, Erest', !elem_of_app. right. left. right. left. }
    by apply elem_of_select in Hin as [? _]. }
  apply (IH (l1 ++ p ++ [x]) tail).
  - by rewrite El, Erest', <- !app_assoc.
  - rewrite El, Erest' in Hsort |- *. rewrite <- app_assoc, app_assoc in Hsort |- *. by apply is_after_split.
  - apply checked_i64_Some. split; [done|]. unfold in_i. change (64 - 1) with 63.
    destruct (rep_sequence _ _ Hr) as [? Hseq]. specialize (Hseq x Hx).
    pose proof (valid_sequence x (log_valid log (rep_log _ _ Hr) x Hx)). lia.
  - rewrite Etail, length_skipn. lia.
Qed.

(** C28: a reader that starts at zero and follows the cursors receives exactly the
    operations of the space, once each and in admission order, whatever page limit it
    uses, and stops after at most one page per operation, when the JSON text of each of
    them reads back; otherwise it ends with the corruption error. *)
Theorem change_pages_complete (db : Database) (space_id : list Z) (limit : Z) :
  json_exact -> reachable db -> require_space db space_id = Ok tt ->
  in_limit limit MAX_CHANGE_LIMIT = true ->
  exists history,
    select (fun row => list_eqb (row_space_id row) space_id) (operations db) = List.map row_for history
    /\ Forall valid history
    /\ (Forall reads_back (List.map op history) ->
        read_changes (S (length history)) db space_id 0 limit = Ok history)
    /\ (~ Forall reads_back (List.map op history) ->
        exists e, read_changes (S (length history)) db space_id 0 limit = Err (Corrupt e)).
Proof.
  intros Hj (log & Hr)%reachable_represents Hs Hl. exists (space_log space_id log).
  split; [rewrite (rep_rows _ _ Hr); by apply select_map|].
  split; [apply Forall_forall; intros s [Hin _]%elem_of_select; by apply (log_valid log (rep_log _ _ Hr))|].
  assert (Ho : read_outcome (space_log space_id log)
    (read_changes (S (length (space_log space_id log))) db space_id 0 limit)).
  { apply (read_changes_rest db log space_id limit Hj Hr Hs Hl _ []); [done| |done|lia].
    unfold select. apply forallb_filter_id, forallb_forall. intros s [Hin _]%list_elem_of_In%elem_of_select.
    by apply Z.ltb_lt, (valid_sequence s), (log_valid log (rep_log _ _ Hr)). }
  destruct Ho as [[Hrb E]|[Hrb E]]; split; intros Hx; done.
Qed.
End Theory.
