(* ===== verification/RepositoryAdmission.v ===== *)
(** * Admission, isolation and replay in the signed repository *)
From S2P Require Import Prelude Bytes Floats Crypto Content Cbor Trust TrustTheory DataModel CanonicalBody.
From S2P Require Import BodyTheory Envelope EnvelopeTheory ReducerTheory Authorization AuthorizationTheory Peer.
From S2P Require Import Application Database Repository RepositoryQueries RepositoryLog RepositorySteps RepositoryTheory.

#[local] Opaque OperationEnvelope.verify insert_operation.

Section Admission.
Context `{Sha256} `{Ed25519} `{HalfFloat} `{Base64} `{!JsonNumber} `{!JsonSize}
  `{!ProjectionJson} `{!Lowercase}.
Implicit Types (o : OperationEnvelope.t) (s : StoredOperation) (log : list StoredOperation)
  (db : Database).

Notation op := Application.operation.
Notation id := OperationEnvelope.operation_id.
Notation parents := OperationEnvelope.causal_parents.

Lemma validate_submitted_Ok space_id request :
  validate_submitted space_id request = Ok tt ->
  OperationEnvelope.verify (submit_operation_ request) = Ok tt
  /\ OperationEnvelope.space_id (submit_operation_ request) = space_id
  /\ 0 <= submit_received_at_unix_ms request.
Proof.
  unfold validate_submitted, topology. intros Hv. inv_ok. apply verify_envelope_Ok in E.
  bool_prop. by apply list_eqb_eq in E0.
Qed.

(** The authorization step of an admission. *)
Lemma submit_authorized db space_id o effective s db' :
  submit_transaction db space_id o effective = Ok (mkSubmitResult s false, db') ->
  admission_clock db = Some effective -> 0 <= effective ->
  exists visibility, visibility_for_admission db o = Ok visibility
    /\ (let view : CapabilityView := capability_view db in
        authorize_operation_for_visibility o effective visibility = Ok tt).
Proof.
  unfold submit_transaction. intros Hs Hc He.
  assert (Hread : read_admission_clock db = Ok effective).
  { unfold read_admission_clock. rewrite Hc. destruct (Z.ltb_spec effective 0); [lia|done]. }
  rewrite Hread, Z.max_id in Hs.
  destruct (load_stored db (id o)) as [[existing|]|]; [| |done].
  - exfalso. destruct (canonical_payload o), (canonical_payload (op existing)); try done.
    destruct (negb _); [done|]. apply Ok_inj in Hs. by injection Hs as _ ?.
  - destruct (validate_references db o); [|done]. destruct (validate_topology db o); [|done].
    destruct (visibility_for_admission db o) as [visibility|]; [|done].
    destruct (validate_revocation db space_id o); [|done]. exists visibility. split; [done|].
    cbn. destruct (authorize_operation_for_visibility _ _ _) as [[]|]; done.
Qed.

(** C2: no operation enters the log without authority.  A submission that is
    admitted verified, belongs to the selected space and is stored with the effective
    time, the later of the clock and the receipt; every reference it carries leads to
    the genesis the space is anchored to, and each operation on the way is that
    genesis or a grant that, at that time, is in its window and not revoked. *)
Theorem admission_needs_authority (db db' : Database) (space_id : list Z)
    (request : SubmitOperationRequest) (s : StoredOperation) :
  typed_operation (submit_operation_ request) ->
  Repository.submit_operation db space_id request = (Ok (mkSubmitResult s false), db') ->
  exists persisted, admission_clock db = Some persisted
    /\ op s = submit_operation_ request
    /\ received_at_unix_ms s = Z.max persisted (submit_received_at_unix_ms request)
    /\ OperationEnvelope.verify (op s) = Ok tt /\ OperationEnvelope.space_id (op s) = space_id
    /\ operations db' = operations db ++ [row_for s]
    /\ OperationEnvelope.authorization (op s) <> []
    /\ (let view : CapabilityView := capability_view db in
        forall r, r ∈ OperationEnvelope.authorization (op s) ->
        (exists space, space_row db space_id = Some space /\ reaches space_id r (genesis_operation_id space))
        /\ forall g, reaches space_id r g ->
             (exists space, space_row db space_id = Some space /\ g = genesis_operation_id space)
             \/ exists stored grant, live_grant (received_at_unix_ms s) space_id g stored grant).
Proof.
  intros Ht Hsub.
  apply submit_cases in Hsub as [[_ [e He]]|(effective & db1 & Ha & Hv & _ & Hcases)]; [done| |done].
  destruct Hcases as [[_ [[e He]|[s' He]]]|(s' & He & Htr & Had & Hi)]; [done|done|].
  apply Ok_inj in He. injection He as <-.
  apply advance_admission_clock_Ok in Ha as (persisted & Ec & Hp & -> & ->).
  apply validate_submitted_Ok in Hv as (Hv & Hs & _).
  destruct (submit_authorized _ _ _ _ _ _ Htr eq_refl ltac:(lia)) as (visibility & _ & Hauth).
  pose proof (inserted_stored _ _ _ _ _ Hi) as Es.
  assert (Eo : op s = submit_operation_ request) by (by rewrite Es).
  exists persisted. rewrite Eo. split; [done|]. split; [done|]. split; [by rewrite Es|].
  split; [done|]. split; [done|]. split; [apply Hi|].
  change (capability_view (with_clock db (Some (Z.max persisted (submit_received_at_unix_ms request)))))
    with (capability_view db) in Hauth.
  apply (authorize_operation_iff _ space_id) in Hauth as (Hne & required & n & l & _ & Hn & _ & _); [|done].
  split; [done|]. intros view r Hr.
  destruct (chains_elem _ space_id _ _ _ _ r Hn Hr) as (m & a & Hc & _).
  assert (Hgen : forall g, trusted_genesis space_id = Ok (Some g) ->
    exists space, space_row db space_id = Some space /\ g = genesis_operation_id space).
  { intros g. cbn. destruct (space_row db space_id) as [space|]; [|done]. intros [= <-]. by exists space. }
  split.
  - destruct (proj1 (chain_rooted _ space_id) _ _ _ _ Hc) as (g & Hg & Htg).
    apply Hgen in Htg as (space & Hspace & ->). by exists space.
  - intros g Hg. destruct (chain_within _ space_id r g Hg _ _ _ Hc) as (k & sub & b & Hb & _).
    inversion Hb as [? ? sop Hst Hsc Hbd Htg|k' s0 sop p issuers Hl]; subst.
    + left. by apply Hgen.
    + right. by exists sop, p.
Qed.

(** ** Failure and replay *)

(** A failed request leaves no partial write.  Failed peer reads and deletions
    leave the database as it was; a failed submission or bootstrap at most advances
    the admission clock to the receipt time. *)
Theorem failed_requests_write_nothing (db db' : Database) (e : RepositoryError) :
  (forall request, peer_changes db request = (Err e, db') -> db' = db)
  /\ (forall space_id, RepositoryQueries.delete_space db space_id = (Err e, db') -> db' = db)
  /\ (forall space_id request, Repository.submit_operation db space_id request = (Err e, db') ->
       db' = db \/ exists persisted, admission_clock db = Some persisted
         /\ db' = with_clock db (Some (Z.max persisted (submit_received_at_unix_ms request))))
  /\ (forall request, Repository.bootstrap_trusted_space db request = Some (Err e, db') ->
       db' = db \/ exists persisted, admission_clock db = Some persisted
         /\ db' = with_clock db (Some (Z.max persisted (bootstrap_received_at_unix_ms request)))).
Proof.
  split; [|split; [|split]].
  - intros request [(? & _ & ?)|(? & _ & _ & ->)]%commit_cases; done.
  - intros space_id [(? & _ & ?)|(? & _ & _ & ->)]%commit_cases; done.
  - intros space_id request. unfold Repository.submit_operation.
    destruct (validate_submitted _ _); [|intros [= _ <-]; by left].
    destruct (require_space _ _); [|intros [= _ <-]; by left].
    destruct (advance_admission_clock _ _) as [[t db1]|] eqn:Ea; [|intros [= _ <-]; by left].
    apply advance_admission_clock_Ok in Ea as (persisted & Ec & _ & -> & ->).
    intros [(? & _ & ?)|(? & _ & _ & ->)]%commit_cases; [done|]. right. by exists persisted.
  - intros request. unfold Repository.bootstrap_trusted_space.
    destruct (check _ ; _); [|intros [= _ <-]; by left].
    destruct (expected_space _ _); [|done]. cbn [mbind option_bind].
    destruct (advance_admission_clock _ _) as [[t db1]|] eqn:Ea; [|intros [= _ <-]; by left].
    apply advance_admission_clock_Ok in Ea as (persisted & Ec & _ & -> & ->).
    intros [= [(? & _ & ?)|(? & _ & _ & ->)]%commit_cases]; [done|]. right. by exists persisted.
Qed.

Lemma canonical_payload_verified o :
  OperationEnvelope.verify o = Ok tt -> exists payload, canonical_payload o = Ok payload.
Proof.
  intros (signed & Es & Hok & _)%verify_signed. unfold canonical_payload. rewrite Es. cbn [map_err].
  destruct (SignedOperation.verify signed); [|done]. cbn [map_err]. by eexists.
Qed.

(** Submission is idempotent.  An operation that was admitted, and whose JSON text
    reads back, can be submitted again at any later or earlier receipt time: the stored
    operation comes back, marked as a replay, and nothing but the admission clock changes. *)
Theorem submission_replays (db db' : Database) (space_id : list Z)
    (request again : SubmitOperationRequest) (s : StoredOperation) :
  reachable db -> typed_operation (submit_operation_ request) -> reads_back (submit_operation_ request) ->
  Repository.submit_operation db space_id request = (Ok (mkSubmitResult s false), db') ->
  submit_operation_ again = submit_operation_ request -> 0 <= submit_received_at_unix_ms again ->
  exists clock, admission_clock db' = Some clock
    /\ Repository.submit_operation db' space_id again
       = (Ok (mkSubmitResult s true), with_clock db' (Some (Z.max clock (submit_received_at_unix_ms again)))).
Proof.
  intros (log & Hr)%reachable_represents Ht Hrb Hsub Eo Hpos.
  apply submit_cases in Hsub as [[_ [e He]]|(effective & db1 & Ha & Hv & Hsp & Hcases)]; [done| |done].
  destruct Hcases as [[_ [[e He]|[s' He]]]|(s' & He & Htr & Had & Hi)]; [done|done|].
  apply Ok_inj in He. injection He as <-.
  destruct (represents_advance _ _ _ _ _ Hr Ha) as (Hr1 & Ec1 & He1).
  pose proof (represents_insert _ _ _ _ _ _ Hr1 Had Hi) as Hr2.
  assert (Ec : admission_clock db' = Some effective) by (rewrite (inserted_clock _ _ _ _ _ Hi); done).
  exists effective. split; [done|]. unfold Repository.submit_operation.
  assert (Hv' : validate_submitted space_id again = Ok tt).
  { unfold validate_submitted in *. rewrite Eo. destruct (verify_envelope _); [|done].
    destruct (negb _); [done|]. destruct (submit_received_at_unix_ms request <? 0); [done|].
    rewrite (proj2 (Z.ltb_ge _ _)) by lia. done. }
  assert (Hsp' : require_space db' space_id = Ok tt).
  { unfold require_space, load_space, space_row in *. rewrite (inserted_spaces _ _ _ _ _ Hi).
    apply advance_admission_clock_Ok in Ha as (? & _ & _ & _ & ->). exact Hsp. }
  rewrite Hv', Hsp'. unfold advance_admission_clock, read_admission_clock. rewrite Ec.
  rewrite (proj2 (Z.ltb_ge _ _)) by lia.
  set (t := Z.max effective (submit_received_at_unix_ms again)).
  assert (Htr' : submit_transaction (with_clock db' (Some t)) space_id (submit_operation_ again) t
    = Ok (mkSubmitResult s true, with_clock db' (Some t))); [|by rewrite Htr'].
  unfold submit_transaction. rewrite read_after_advance by lia.
  assert (Eop : op s = submit_operation_ request) by (by rewrite (inserted_stored _ _ _ _ _ Hi)).
  assert (Hload : load_stored db' (id (submit_operation_ again)) = Ok (Some s)).
  { rewrite Eo, <- Eop in *. apply (load_stored_reads db' (log ++ [s])); [done| |done].
    rewrite elem_of_app. right. left. }
  change (load_stored (with_clock db' (Some t))) with (load_stored db'). rewrite Hload.
  apply validate_submitted_Ok in Hv as (Hv & _ & _).
  destruct (canonical_payload_verified _ Hv) as (payload & Ep). rewrite Eop, Eo, Ep.
  by rewrite list_eqb_refl.
Qed.
End Admission.
