(* ===== verification/RepositoryViews.v ===== *)
(** * Projections, deletion and the limits of the schema *)
From S2P Require Import Prelude Bytes Floats Crypto Content Cbor Trust TrustTheory DataModel CanonicalBody.
From S2P Require Import BodyTheory Envelope EnvelopeTheory ReducerTheory Authorization Peer.
From S2P Require Import Application Database Repository RepositoryQueries RepositoryLog RepositorySteps RepositoryTheory.

#[local] Opaque OperationEnvelope.verify insert_operation.

Section Views.
Context `{Sha256} `{Ed25519} `{HalfFloat} `{Base64} `{!JsonNumber} `{!JsonSize}
  `{!ProjectionJson} `{!Lowercase}.
Implicit Types (o : OperationEnvelope.t) (s : StoredOperation) (log : list StoredOperation)
  (db : Database).

Notation op := Application.operation.
Notation id := OperationEnvelope.operation_id.
Notation parents := OperationEnvelope.causal_parents.

(** ** Rebuilding *)
Lemma ascending_length log bound :
  StronglySorted (fun a b => local_sequence a < local_sequence b
                             /\ received_at_unix_ms a <= received_at_unix_ms b) log ->
  forall low, (forall s, s ∈ log -> low < local_sequence s <= bound) -> low <= bound ->
  Z.of_nat (length log) <= bound - low.
Proof.
  induction 1 as [|a l _ IH Ha]; intros low Hb Hlb; cbn; [lia|].
  rewrite Forall_forall in Ha. specialize (Hb a ltac:(left)) as Ha'.
  specialize (IH (local_sequence a)). rewrite Nat2Z.inj_succ.
  enough (Z.of_nat (length l) <= bound - local_sequence a) by lia. apply IH; [|lia].
  intros s Hs. destruct (Ha s Hs). specialize (Hb s ltac:(by right)). lia.
Qed.

(** Projecting one more operation of the log. *)
Lemma insert_projection_fresh db o row :
  client_projection db o = Ok row ->
  (forall other, other ∈ client_operation_projections db -> projection_operation_id other <> id o) ->
  insert_client_projection db o
  = Ok (with_projections db (client_operation_projections db ++ option_list row)).
Proof.
  intros E Hfresh. unfold insert_client_projection. rewrite E. destruct row as [row|]; cbn [option_list].
  - assert (Hn : exists_row (fun other => list_eqb (projection_space_id other) (OperationEnvelope.space_id o)
      && list_eqb (projection_operation_id other) (id o)) (client_operation_projections db) = false).
    { apply exists_row_false. intros other Ho. apply andb_false_iff. right. by apply list_eqb_neq, Hfresh. }
    by rewrite Hn.
  - rewrite app_nil_r. by destruct db.
Qed.

(** The loop adds the rows of the operations that remain. *)
Lemma rebuild_loop_rows db todo rows : forall done_ rebuilt,
  Forall2 (fun s row => client_projection db (op s) = Ok row) todo rows ->
  NoDup (ids (ops todo)) ->
  (forall row, row ∈ done_ -> projection_operation_id row ∉ ids (ops todo)) ->
  0 <= rebuilt -> rebuilt + Z.of_nat (length todo) < 2 ^ 64 ->
  exists n, rebuild_loop (with_projections db done_) (ops todo) rebuilt
    = Ok (n, with_projections db (done_ ++ concat (List.map option_list rows))).
Proof.
  intros done_ rebuilt Hf. revert done_ rebuilt.
  induction Hf as [|s row todo rows Hrow _ IH]; intros done_ rebuilt Hn Hd H0' Hlen.
  - exists rebuilt. cbn. by rewrite app_nil_r.
  - cbn [ops List.map rebuild_loop]. fold (ops todo).
    rewrite (insert_projection_fresh _ _ row).
    + cbn in Hn. apply NoDup_cons in Hn as [Hnot Hn].
      assert (Hnext : exists rebuilt', (if is_client_schema (OperationEnvelope.schema (op s))
        then ok_or (checked_u 64 (rebuilt + 1)) (Corrupt (Message (str "client projection count overflow")))
        else Ok rebuilt) = Ok rebuilt' /\ 0 <= rebuilt' <= rebuilt + 1).
      { destruct (is_client_schema _); [|exists rebuilt; split; [done|lia]]. exists (rebuilt + 1).
        cbn [length] in Hlen. rewrite (proj2 (checked_u_Some 64 _ (rebuilt + 1))) by (unfold in_u; split; [done|lia]).
        split; [done|lia]. }
      destruct Hnext as (rebuilt' & -> & Hr').
      destruct (IH (done_ ++ option_list row) rebuilt') as (n & En); [done| |lia|cbn [length] in Hlen; lia|].
      * intros r [Hr|Hr]%elem_of_app Hin.
        -- apply (Hd r Hr). cbn. by right.
        -- destruct row as [row|]; [|by apply not_elem_of_nil in Hr].
           apply list_elem_of_singleton in Hr as ->.
           apply client_projection_space in Hrow as (_ & Hid & _). rewrite Hid in Hin. done.
      * exists n. cbn [client_operation_projections with_projections] in *.
        rewrite <- app_assoc in En. exact En.
    + by rewrite <- (client_projection_ext db).
    + intros other Ho E. apply (Hd other Ho). cbn. rewrite E. left.
Qed.

(** C33: the read model is a function of the log: rebuilding the client projections of
    a reachable database, from the decoded operations alone, reproduces the stored
    table exactly, in its order, when the JSON text of every stored operation reads
    back; otherwise the rebuild reports corruption.  It changes nothing either way. *)
Theorem rebuild_reproduces_projections (db : Database) :
  json_exact -> reachable db ->
  exists log,
    operations db = List.map row_for log /\ Forall valid log
    /\ (Forall reads_back (List.map op log) -> exists n, rebuild_client_projections db = (Ok n, db))
    /\ (~ Forall reads_back (List.map op log) ->
        exists e, rebuild_client_projections db = (Err (Corrupt e), db)).
Proof.
  intros Hj (log & Hr)%reachable_represents. exists log. split; [apply Hr|].
  pose proof (rep_log _ _ Hr) as Hok. split; [apply Forall_forall; intros s; apply (log_valid log Hok)|].
  unfold rebuild_client_projections. rewrite (rep_rows _ _ Hr).
  destruct (collect_rows_cases log Hj (log_valid log Hok)) as [[Hrb ->]|[Hrb [e ->]]];
    [|split; [by intros ?; destruct Hrb|by exists e]].
  split; [intros _|by intros []].
  destruct (rep_projections _ _ Hr) as (rows & Hf & E).
  destruct (rep_sequence _ _ Hr) as [Hl Hseq].
  assert (Hlen : Z.of_nat (length log) <= last_sequence db - 0).
  { apply ascending_length; [apply Hok| |lia]. intros s Hs.
    pose proof (valid_sequence s (log_valid log Hok s Hs)). specialize (Hseq s Hs). lia. }
  destruct (rebuild_loop_rows db log rows [] 0 Hf (log_ids log Hok)) as (n & En);
    [by intros r ?%not_elem_of_nil|lia|lia|].
  exists n. unfold ops in En. rewrite En. cbn [commit]. rewrite app_nil_l, <- E. by destruct db.
Qed.

(** ** Deletion *)
Lemma select_delete {A} (f g : A -> bool) l :
  (forall a, f a = true -> g a = false) -> select f (delete_rows g l) = select f l.
Proof.
  intros Hfg. unfold select, delete_rows. induction l as [|a l IH]; [done|]. cbn.
  destruct (g a) eqn:Eg; cbn.
  - destruct (f a) eqn:Ef; [by rewrite Hfg in Eg|done].
  - destruct (f a); by rewrite IH.
Qed.
Lemma exists_delete {A} (f g : A -> bool) l :
  (forall a, f a = true -> g a = false) -> exists_row f (delete_rows g l) = exists_row f l.
Proof.
  intros Hfg. unfold exists_row, delete_rows. induction l as [|a l IH]; [done|]. cbn.
  destruct (g a) eqn:Eg; cbn; rewrite IH; [|done]. destruct (f a) eqn:Ef; [by rewrite Hfg in Eg|done].
Qed.

(** A row of another space is not deleted. *)
Lemma other_space (a b space : list Z) : list_eqb a b = true -> b <> space -> list_eqb a space = false.
Proof. intros ->%list_eqb_eq. apply list_eqb_neq. Qed.

(** Deleting a workspace removes it and nothing else: afterwards it is unknown
    and none of its operations, heads, grants or pairings is left, and every other
    space has the entity states, change pages and statistics it had. *)
Theorem delete_space_isolated (db db' : Database) (space_id : list Z) :
  RepositoryQueries.delete_space db space_id = (Ok tt, db') ->
  load_space db' space_id = Ok None
  /\ (forall row, row ∈ operations db' <-> row ∈ operations db /\ row_space_id row <> space_id)
  /\ (forall row, row ∈ pairing_sessions db' <-> row ∈ pairing_sessions db /\ pairing_space_id row <> space_id)
  /\ (forall row, row ∈ capability_grants db' <-> row ∈ capability_grants db /\ grant_space_id row <> space_id)
  /\ forall other, other <> space_id ->
       (forall entity_id, entity_state db' other entity_id = entity_state db other entity_id)
       /\ (forall after limit,
             Repository.changes_after db' other after limit = Repository.changes_after db other after limit)
       /\ RepositoryQueries.client_stats db' other = RepositoryQueries.client_stats db other.
Proof.
  intros [(u & Hd & _)|(? & _ & ? & _)]%commit_cases; [|done].
  apply delete_transaction_Ok in Hd as (_ & _ & Eo & Es & Eh & _ & Eg & _ & Ep & Epair).
  split; [|split; [|split; [|split]]].
  - unfold load_space, space_row. rewrite Es.
    assert (Hn : query_row (fun row => list_eqb (descriptor_space_id row) space_id)
      (delete_rows (fun row => list_eqb (descriptor_space_id row) space_id) (space_rows db)) = None).
    { apply query_row_None. by intros row [_ ?]%elem_of_delete_rows. }
    by rewrite Hn.
  - intros row. by rewrite Eo, elem_of_delete_rows, list_eqb_neq.
  - intros row. by rewrite Epair, elem_of_delete_rows, list_eqb_neq.
  - intros row. by rewrite Eg, elem_of_delete_rows, list_eqb_neq.
  - intros other Hne.
    assert (Hreq : require_space db' other = require_space db other).
    { unfold require_space, load_space, space_row. rewrite Es, query_row_delete; [done|].
      intros row Hrow. by eapply other_space. }
    split; [|split].
    + intros entity_id. unfold entity_state, head_rows. rewrite Hreq, Eo, Eh.
      rewrite (select_delete (in_entity other entity_id)).
      2: { intros row Hrow. unfold in_entity in Hrow. bool_prop. by eapply other_space. }
      f_equal. destruct (List.map row_schema _) as [|schema l]; [done|].
      rewrite (select_delete (fun row => head_of_entity other entity_id row && eqb (head_schema row) schema)).
      2: { intros row Hrow. unfold head_of_entity in Hrow. bool_prop. by eapply other_space. }
      rewrite select_delete; [done|]. intros row Hrow. bool_prop. by eapply other_space.
    + intros after limit. unfold Repository.changes_after, load_changes. rewrite Hreq, Eo.
      destruct (checked_i64 after) as [a|]; [|done].
      rewrite select_delete; [done|]. intros row Hrow. bool_prop. by eapply other_space.
    + unfold RepositoryQueries.client_stats, load_client_stats. rewrite Hreq, Ep, select_delete.
      2: { intros row Hrow. bool_prop. by eapply other_space. }
      rewrite (select_ext_in _ (fun row => list_eqb (projection_space_id row) other && is_live_projection db row));
        [done|].
      intros row _. destruct (list_eqb (projection_space_id row) other) eqn:E; [|done]. cbn.
      unfold is_live_projection. rewrite Eh, exists_delete; [done|].
      intros h Hh. bool_prop. apply list_eqb_eq in E.
      match goal with Hx : list_eqb (head_space_id h) _ = true |- _ => rewrite E in Hx; by eapply other_space end.
Qed.

(** ** Limits of the schema *)
Lemma resources_byte_names resources resource name :
  resources_constraints resources = true -> resource ∈ resources ->
  ResourceRef.original_name resource = Some name -> byte_count name <= 255.
Proof.
  unfold resources_constraints. intros Hc Hin Hname. bool_prop.
  match goal with Hx : forallb _ _ = true |- _ => rewrite forallb_forall in Hx; specialize (Hx resource) end.
  rewrite <- list_elem_of_In in *. unfold resource_constraints in *. 
  match goal with Hx : _ -> _ |- _ => specialize (Hx Hin) end.
  bool_prop. rewrite Hname in *. cbn [option_all] in *. unfold between in *. by bool_prop.
Qed.

(** The schema refuses operations the data model accepts: a grant of all six
    actions (its action positions stop at 4) and a resource whose name has more than
    255 bytes (the data model counts characters) are never admitted. *)
Theorem schema_refuses_valid_operations (db db' : Database) (space_id : list Z)
    (request : SubmitOperationRequest) (out : result RepositoryError SubmitOperationResult) :
  typed_operation (submit_operation_ request) ->
  (exists grant, OperationEnvelope.body (submit_operation_ request) = OperationBody.CapabilityGrant grant
     /\ length (CapabilityGrant.actions grant) = 6%nat)
  \/ (exists resource name,
        resource ∈ OperationBody.resources (OperationEnvelope.body (submit_operation_ request))
        /\ ResourceRef.original_name resource = Some name /\ 255 < byte_count name) ->
  Repository.submit_operation db space_id request = (out, db') ->
  forall s, out <> Ok (mkSubmitResult s false).
Proof.
  intros Ht Hbad Hs s ->.
  apply submit_cases in Hs as [[_ [e He]]|(effective & db1 & _ & _ & _ & Hcases)]; [done| |done].
  destruct Hcases as [[_ [[e He]|[s' He]]]|(s' & _ & _ & _ & Hi)]; [done|done|].
  destruct Hbad as [(grant & Hb & Hlen)|(resource & name & Hin & Hname & Hbytes)].
  - pose proof (inserted_scope _ _ _ _ _ Hi grant Hb) as Hg. unfold grant_constraints in Hg.
    bool_prop. lia.
  - pose proof (resources_byte_names _ _ _ (inserted_resources _ _ _ _ _ Hi) Hin Hname). lia.
Qed.
End Views.
