(* ===== verification/RepositorySamples.v ===== *)
(** * A concrete node database

    Toy projections and a bootstrapped space with a record its writer submitted, for
    the witnesses of the repository theorems.  Bytes are evaluated once. *)
From S2P Require Import Prelude Bytes Floats Crypto Content Cbor Trust TrustTheory DataModel CanonicalBody.
From S2P Require Import BodyTheory Envelope EnvelopeTheory Samples Authorization AuthorizationSamples Peer.
From S2P Require Import Application Database Repository RepositoryQueries RepositoryLog RepositorySteps.

(** The JSON text of an envelope is its COSE bytes. *)
#[export] Instance toy_projection : ProjectionJson := {|
  to_json := fun o => Some (OperationEnvelope.cose_sign1 o);
  from_json := fun text =>
    match OperationEnvelope.from_cose_sign1 text with Ok o => Some o | Err _ => None end
|}.
#[export] Instance toy_lowercase : Lowercase := {| to_lowercase := fun s => s |}.

Lemma toy_reads o text :
  typed_operation o -> OperationEnvelope.verify o = Ok tt -> to_json o = Some text -> from_json text = Some o.
Proof. intros [Hb Ht] Hv [= <-]. cbn. by rewrite (verified_envelope_parses o Hb Ht Hv). Qed.

Lemma toy_exact : json_exact.
Proof.
  constructor; [|intros; by apply toy_reads]. intros o text o' Ho Hv Et Ef.
  rewrite (toy_reads o text Ho Hv Et) in Ef. by injection Ef as <-.
Qed.

Lemma toy_reads_back o : typed_operation o -> OperationEnvelope.verify o = Ok tt -> reads_back o.
Proof. intros Ho Hv. eexists. split; [reflexivity|]. by apply toy_reads. Qed.

Lemma toy_all_read log : Forall valid log -> Forall reads_back (List.map Application.operation log).
Proof.
  intros Hl. apply Forall_map. eapply Forall_impl; [exact Hl|]. intros s [Ht Hv _ _]. by apply toy_reads_back.
Qed.

Definition writer_entity : list Z := replicate 15 0 ++ [10].
Definition record_entity : list Z := replicate 15 0 ++ [11].

Definition writer_grant : CapabilityGrant.t :=
  CapabilityGrant.mk device_seed LOCAL_WRITER_ACTIONS LOCAL_WRITER_SCHEMAS
    [Visibility.Public; Visibility.Private] [str "record.media"] (Some LOCAL_WRITER_MAX_RESOURCE) None None
    0 (str "writer").

Definition writer_bytes : list Z * list Z :=
  Eval vm_compute in
    signed_at writer_entity EntitySchema.CapabilityGrant [fst genesis_bytes] 2
      (OperationBody.CapabilityGrant writer_grant) sample_seed.
Definition writer_operation : OperationEnvelope.t :=
  operation_at writer_entity EntitySchema.CapabilityGrant [fst genesis_bytes] 2
    (OperationBody.CapabilityGrant writer_grant) sample_seed writer_bytes.

Definition entry_bytes : list Z * list Z :=
  Eval vm_compute in
    signed_at record_entity EntitySchema.Record_ [fst writer_bytes] 3 sample_body device_seed.
Definition entry_operation : OperationEnvelope.t :=
  operation_at record_entity EntitySchema.Record_ [fst writer_bytes] 3 sample_body device_seed entry_bytes.

Definition sample_bootstrap : TrustedSpaceBootstrapRequest :=
  mkBootstrap (str "home") genesis_operation writer_operation 1700000003000.
Definition sample_submission : SubmitOperationRequest := mkSubmit entry_operation 1700000004000.

(** The database after the bootstrap, and after the record. *)
Definition bootstrapped : Database :=
  match Repository.bootstrap_trusted_space fresh_database sample_bootstrap with
  | Some (_, db) => db
  | None => fresh_database
  end.
Definition recorded_db : Database := snd (Repository.submit_operation bootstrapped sample_space sample_submission).
Definition sample_stored : StoredOperation := mkStored 3 1700000004000 entry_operation.

(** A grant of all six actions, which the data model accepts. *)
Definition full_grant : CapabilityGrant.t :=
  CapabilityGrant.mk device_seed
    [CapabilityAction.AppendOperation; CapabilityAction.IssueCapability; CapabilityAction.RevokeCapability;
     CapabilityAction.ReadSpace; CapabilityAction.WriteContent; CapabilityAction.LinkWorkspace]
    LOCAL_WRITER_SCHEMAS [Visibility.Public; Visibility.Private] [str "record.media"] (Some LOCAL_WRITER_MAX_RESOURCE) None None
    1 (str "full").
Definition full_bytes : list Z * list Z :=
  Eval vm_compute in
    signed_at record_entity EntitySchema.CapabilityGrant [fst genesis_bytes] 5
      (OperationBody.CapabilityGrant full_grant) sample_seed.
Definition full_operation : OperationEnvelope.t :=
  operation_at record_entity EntitySchema.CapabilityGrant [fst genesis_bytes] 5
    (OperationBody.CapabilityGrant full_grant) sample_seed full_bytes.
Definition full_submission : SubmitOperationRequest := mkSubmit full_operation 1700000005000.

(** ** Facts about them *)
Lemma bytes_typed (b : list Z) : forallb (fun x => (0 <=? x) && (x <? 256)) b = true -> Forall is_byte b.
Proof.
  rewrite forallb_forall, Forall_forall. intros Hb x Hx. apply list_elem_of_In, Hb in Hx. bool_prop. done.
Qed.

Lemma genesis_typed : typed_operation genesis_operation.
Proof.
  split; [apply bytes_typed; vm_compute; reflexivity|].
  cbn. apply (bool_decide_eq_true_1 (fixed _ _)). vm_compute. reflexivity.
Qed.
Lemma writer_typed : typed_operation writer_operation.
Proof.
  split; [apply bytes_typed; vm_compute; reflexivity|]. cbn. unfold grant_typed. cbn.
  split; [apply (bool_decide_eq_true_1 (fixed _ _)); vm_compute; reflexivity|].
  split; [constructor; [apply text_typed; vm_compute; reflexivity|constructor]|].
  unfold LOCAL_WRITER_MAX_RESOURCE, in_u. repeat split; try lia; apply text_typed; vm_compute; reflexivity.
Qed.
Lemma entry_typed : typed_operation entry_operation.
Proof. split; [apply bytes_typed; vm_compute; reflexivity|exact sample_body_typed]. Qed.
Lemma full_typed : typed_operation full_operation.
Proof.
  split; [apply bytes_typed; vm_compute; reflexivity|]. cbn. unfold grant_typed. cbn.
  split; [apply (bool_decide_eq_true_1 (fixed _ _)); vm_compute; reflexivity|].
  split; [constructor; [apply text_typed; vm_compute; reflexivity|constructor]|].
  unfold LOCAL_WRITER_MAX_RESOURCE, in_u. repeat split; try lia; apply text_typed; vm_compute; reflexivity.
Qed.

(** The outcome of the bootstrap without its store. *)
Lemma bootstrapped_by : exists out, Repository.bootstrap_trusted_space fresh_database sample_bootstrap
  = Some (out, bootstrapped).
Proof.
  assert (Hs : match Repository.bootstrap_trusted_space fresh_database sample_bootstrap with
               | Some _ => true | None => false end = true) by by_vm.
  unfold bootstrapped.
  destruct (Repository.bootstrap_trusted_space fresh_database sample_bootstrap) as [[out db]|]; [|discriminate Hs].
  by exists out.
Qed.

Lemma recorded_by : exists out, Repository.submit_operation bootstrapped sample_space sample_submission
  = (out, recorded_db).
Proof.
  unfold recorded_db. destruct (Repository.submit_operation _ _ _) as [out db]. by exists out.
Qed.

Lemma bootstrapped_reachable : reachable bootstrapped.
Proof.
  destruct bootstrapped_by as [out Hb]. apply rtc_once.
  exact (step_bootstrap _ _ sample_bootstrap out genesis_typed writer_typed Hb).
Qed.
Lemma recorded_reachable : reachable recorded_db.
Proof.
  destruct recorded_by as [out Hs]. eapply rtc_r; [exact bootstrapped_reachable|].
  exact (step_submit _ _ sample_space sample_submission out entry_typed Hs).
Qed.
Lemma recorded_space : require_space recorded_db sample_space = Ok tt.
Proof. by_vm. Qed.
Lemma recorded_submission :
  Repository.submit_operation bootstrapped sample_space sample_submission
  = (Ok (mkSubmitResult sample_stored false), recorded_db).
Proof. by_vm. Qed.
