(* ===== verification/RepositoryWitnesses.v ===== *)
(** * Witnesses for the repository theorems *)
From S2P Require Import Prelude Bytes Floats Crypto Content Cbor Trust TrustTheory DataModel CanonicalBody.
From S2P Require Import BodyTheory Envelope EnvelopeTheory Samples Authorization AuthorizationSamples Peer.
From S2P Require Import Application Database Repository RepositoryQueries RepositoryLog RepositorySteps.
From S2P Require Import RepositoryTheory RepositoryAdmission RepositoryViews RepositorySamples.

Lemma stored_state_refines_reducer_witness :
  exists history heads,
    select (in_entity sample_space record_entity) (operations recorded_db) = List.map row_for history
    /\ entity_state recorded_db sample_space record_entity
       = Ok (Some (mkEntityState sample_space record_entity EntitySchema.Record_ (Z.of_nat (length history)) heads)).
Proof.
  assert (Hne : length (select (in_entity sample_space record_entity) (operations recorded_db)) = 1%nat) by by_vm.
  assert (Hsc : List.map row_schema (select (in_entity sample_space record_entity) (operations recorded_db))
    = [EntitySchema.Record_]) by by_vm.
  destruct (stored_state_refines_reducer recorded_db sample_space record_entity toy_exact
    recorded_reachable recorded_space) as (history & Hh & Hv & Hm).
  exists history. rewrite Hh in Hne, Hsc.
  destruct history as [|s [|]]; [discriminate Hne| |discriminate Hne].
  destruct Hm as (heads & Hin & _ & _ & _ & Hs & _). exists heads. split; [exact Hh|].
  injection Hsc as Hsc. rewrite <- Hsc. apply Hs, toy_all_read, Forall_forall. intros h Hheads.
  rewrite Forall_forall in Hv. apply Hv, Hin, Hheads.
Defined.

Lemma operation_log_invariant_witness : NoDup (List.map row_operation_id (operations recorded_db)).
Proof. exact (proj1 (operation_log_invariant recorded_db recorded_reachable)). Defined.

Lemma visibility_immutable_witness : Visibility.Public = Visibility.Public.
Proof.
  assert (Hl : load_stored recorded_db (fst entry_bytes) = Ok (Some sample_stored)) by by_vm.
  exact (visibility_immutable recorded_db _ _ sample_stored sample_stored _ _ toy_exact
    recorded_reachable Hl Hl eq_refl eq_refl eq_refl eq_refl).
Defined.

Lemma change_pages_complete_witness :
  exists history, read_changes (S (length history)) recorded_db sample_space 0 1 = Ok history.
Proof.
  destruct (change_pages_complete recorded_db sample_space 1 toy_exact recorded_reachable recorded_space
    eq_refl) as (history & _ & Hv & Hh & _).
  exists history. apply Hh, toy_all_read, Hv.
Defined.

Lemma rebuild_reproduces_projections_witness :
  exists n, rebuild_client_projections recorded_db = (Ok n, recorded_db).
Proof.
  destruct (rebuild_reproduces_projections recorded_db toy_exact recorded_reachable) as (log & _ & Hv & Hr & _).
  apply Hr, toy_all_read, Hv.
Defined.

Lemma admission_needs_authority_witness : OperationEnvelope.authorization entry_operation <> [].
Proof.
  destruct (admission_needs_authority bootstrapped recorded_db sample_space sample_submission sample_stored
    entry_typed recorded_submission) as (_ & _ & _ & _ & _ & _ & _ & Hne & _).
  exact Hne.
Defined.

Lemma submission_replays_witness :
  exists clock, Repository.submit_operation recorded_db sample_space (mkSubmit entry_operation 0)
    = (Ok (mkSubmitResult sample_stored true), with_clock recorded_db (Some (Z.max clock 0))).
Proof.
  destruct (submission_replays bootstrapped recorded_db sample_space sample_submission
    (mkSubmit entry_operation 0) sample_stored bootstrapped_reachable entry_typed
    (toy_reads_back _ entry_typed ltac:(by_vm)) recorded_submission eq_refl ltac:(done)) as (clock & _ & Hr).
  exists clock. exact Hr.
Defined.

Lemma delete_space_isolated_witness :
  load_space (snd (RepositoryQueries.delete_space recorded_db sample_space)) sample_space = Ok None.
Proof.
  assert (Hd : RepositoryQueries.delete_space recorded_db sample_space
    = (Ok tt, snd (RepositoryQueries.delete_space recorded_db sample_space))) by by_vm.
  exact (proj1 (delete_space_isolated _ _ _ Hd)).
Defined.

Lemma schema_refuses_valid_operations_witness :
  OperationEnvelope.verify full_operation = Ok tt
  /\ forall s, fst (Repository.submit_operation bootstrapped sample_space full_submission)
       <> Ok (mkSubmitResult s false).
Proof.
  split; [by_vm|].
  refine (schema_refuses_valid_operations bootstrapped
    (snd (Repository.submit_operation bootstrapped sample_space full_submission)) sample_space full_submission
    _ full_typed _ (surjective_pairing _)).
  left. exists full_grant. split; reflexivity.
Defined.

