(* ===== verification/PairingStore.v ===== *)
(** * The pairing lifecycle store (crates/fractonica-store-sqlite/src/pairing_repository.rs)

    Each operation is a statement, or a transaction of a few, on [pairing_sessions].
    [update_pairings] is an UPDATE: it fails when a changed row violates a CHECK.
    An outer [None] is a panic of a digest ([expect] in the pairing crate).

    [INSERT OR IGNORE] skips a row that violates a CHECK or a UNIQUE constraint; a
    missing space is an error. *)
From S2P Require Import Prelude Bytes Floats Crypto Content Cbor Trust DataModel CanonicalBody Envelope.
From S2P Require Import Authorization Peer Pairing Application Database Repository.

Module PairingStoreError.
Inductive t `{Noise} : Type :=
| NotFound
| Unavailable
| Conflict
| InvalidTime
| Corrupt (text : list Z)
| InvalidGrantPlan
| Protocol (e : PairingError)
| Sqlite.
End PairingStoreError.

(** [PairingSession]. *)
Record PairingSession `{JsonNumber} : Type := mkSession {
  session_invitation_id : list Z;
  descriptor : InvitationDescriptor.t;
  session_state : PairingLifecycle.t;
  session_created_at : Z;
  session_claimed_at : option Z;
  session_confirmed_at : option Z;
  session_completed_at : option Z;
  session_terminal_at : option Z;
  session_claim_digest : option (list Z);
  session_handshake_hash : option (list Z);
  joiner_node_id : option (list Z);
  subject_actor_id : option (list Z);
  session_grant_operation_id : option (list Z);
  planned_grant : option OperationEnvelope.t;
  session_grant_planned_at : option Z;
  session_peer_token_digest : option (list Z);
  session_last_seen_at : option Z;
  session_first_frame_digest : option (list Z);
  session_response_frame : option (list Z);
  session_receipt_frame : option (list Z)
}.

Definition MAX_FRAME_BYTES : Z := 16384.
Definition CLAIM_LIFETIME_MS : Z := 120000.

Section PairingStore.
Context `{Sha256} `{Ed25519} `{HalfFloat} `{Base64} `{!Noise} `{!JsonNumber} `{!JsonSize}
  `{!ProjectionJson}.

Notation error := PairingStoreError.t.
Notation sql_error := (Err PairingStoreError.Sqlite).

(** ** Rows *)

(** [fixed::<N>]. *)
Definition fixed_blob (n : nat) (bytes : list Z) : result error (list Z) :=
  if (length bytes =? n)%nat then Ok bytes else sql_error.
Definition fixed_option (n : nat) (bytes : option (list Z)) : result error (option (list Z)) :=
  match bytes with
  | Some bytes => let? bytes := fixed_blob n bytes in Ok (Some bytes)
  | None => Ok None
  end.

Definition decode (row : PairingRow) : result error PairingSession :=
  let? invitation_id := fixed_blob 16 (pairing_invitation_id row) in
  let? descriptor := map_err (fun _ => PairingStoreError.Sqlite)
    (InvitationDescriptor.from_canonical_bytes (pairing_descriptor_cbor row)) in
  let? claim_digest := fixed_option 32 (pairing_claim_digest row) in
  let? handshake_hash := fixed_option 32 (pairing_handshake_hash row) in
  let? joiner_node_id := fixed_option 32 (pairing_joiner_node_id row) in
  let? subject_actor_id := fixed_option 32 (pairing_subject_actor_id row) in
  let? planned_grant :=
    match pairing_planned_grant_json row with
    | Some text => match from_json text with Some grant => Ok (Some grant) | None => sql_error end
    | None => Ok None
    end in
  let? peer_token_digest := fixed_option 32 (pairing_peer_token_digest row) in
  let? first_frame_digest := fixed_option 32 (pairing_first_frame_digest row) in
  Ok (mkSession _ invitation_id descriptor (pairing_state row) (pairing_created_at_unix_ms row)
        (pairing_claimed_at_unix_ms row) (pairing_confirmed_at_unix_ms row)
        (pairing_completed_at_unix_ms row) (pairing_terminal_at_unix_ms row) claim_digest
        handshake_hash joiner_node_id subject_actor_id (pairing_grant_operation_id row) planned_grant
        (pairing_grant_planned_at_unix_ms row) peer_token_digest (pairing_last_seen_at_unix_ms row)
        first_frame_digest (pairing_response_frame row) (pairing_receipt_frame row)).

Definition has_id (id : list Z) (row : PairingRow) : bool := list_eqb (pairing_invitation_id row) id.

Definition load (db : Database) (id : list Z) : result error (option PairingSession) :=
  match query_row (has_id id) (pairing_sessions db) with
  | Some row => let? session := decode row in Ok (Some session)
  | None => Ok None
  end.

(** [load(..)?.ok_or(error)]. *)
Definition require (db : Database) (id : list Z) (e : error) : result error PairingSession :=
  let? found := load db id in ok_or found e.

Definition in_states (states : list PairingLifecycle.t) (row : PairingRow) : bool :=
  contains (pairing_state row) states.

(** The CHECK conditions of [pairing_sessions] and of its added columns; a condition on
    a NULL holds.  The planned grant is the output of [serde_json], a JSON object. *)
Definition pairing_constraints (row : PairingRow) : bool :=
  let s := pairing_state row in
  (length (pairing_invitation_id row) =? 16)%nat
  && between 1 (byte_count (pairing_descriptor_cbor row)) 4096
  && (length (pairing_descriptor_digest row) =? 32)%nat
  && (length (pairing_responder_node_id row) =? 32)%nat
  && (0 <=? pairing_expires_at_unix_ms row) && (0 <=? pairing_created_at_unix_ms row)
  && option_all (fun b => (length b =? 32)%nat) (pairing_claim_digest row)
  && option_all (fun b => (length b =? 32)%nat) (pairing_handshake_hash row)
  && option_all (fun b => (length b =? 32)%nat) (pairing_joiner_node_id row)
  && option_all (fun b => (length b =? 32)%nat) (pairing_subject_actor_id row)
  && option_all (fun text => between 2 (byte_count text) 262144) (pairing_planned_grant_json row)
  && (pairing_created_at_unix_ms row <? pairing_expires_at_unix_ms row)
  && (match s with
      | PairingLifecycle.Created =>
          negb (is_some (pairing_claimed_at_unix_ms row)
                || is_some (pairing_claimed_expires_at_unix_ms row)
                || is_some (pairing_claim_digest row) || is_some (pairing_handshake_hash row)
                || is_some (pairing_joiner_node_id row) || is_some (pairing_subject_actor_id row))
      | PairingLifecycle.Claimed | PairingLifecycle.Confirmed | PairingLifecycle.Completed =>
          is_some (pairing_claimed_at_unix_ms row) && is_some (pairing_claimed_expires_at_unix_ms row)
          && is_some (pairing_claim_digest row) && is_some (pairing_handshake_hash row)
          && is_some (pairing_joiner_node_id row) && is_some (pairing_subject_actor_id row)
      | _ => true
      end)
  && Bool.eqb (in_states [PairingLifecycle.Confirmed; PairingLifecycle.Completed] row)
       (is_some (pairing_confirmed_at_unix_ms row))
  && option_all (fun t => t <=? pairing_expires_at_unix_ms row) (pairing_claimed_expires_at_unix_ms row)
  && Bool.eqb (in_states [PairingLifecycle.Completed] row) (is_some (pairing_completed_at_unix_ms row))
  && Bool.eqb (in_states [PairingLifecycle.Completed] row) (is_some (pairing_grant_operation_id row))
  && Bool.eqb (is_some (pairing_planned_grant_operation_id row)) (is_some (pairing_planned_grant_json row))
  && Bool.eqb (is_some (pairing_planned_grant_operation_id row)) (is_some (pairing_grant_planned_at_unix_ms row))
  && (negb (in_states [PairingLifecycle.Completed] row)
      || option_all (fun planned => eqb (pairing_grant_operation_id row) (Some planned))
           (pairing_planned_grant_operation_id row))
  && Bool.eqb (in_states [PairingLifecycle.Completed; PairingLifecycle.Cancelled; PairingLifecycle.Expired] row)
       (is_some (pairing_terminal_at_unix_ms row))
  && option_all (fun b => (length b =? 32)%nat) (pairing_first_frame_digest row)
  && option_all (fun b => between 1 (byte_count b) 16384) (pairing_response_frame row)
  && option_all (fun b => between 1 (byte_count b) 16384) (pairing_receipt_frame row)
  && option_all (fun b => (length b =? 32)%nat) (pairing_peer_token_digest row)
  && option_all (Z.leb 0) (pairing_last_seen_at_unix_ms row).

(** UPDATE: the number of rows changed, and the table. *)
Definition update_pairings (db : Database) (condition : PairingRow -> bool)
    (change : PairingRow -> PairingRow) : result error (Z * Database) :=
  let changed := List.map change (select condition (pairing_sessions db)) in
  if forallb pairing_constraints changed
  then Ok (Z.of_nat (length changed),
           with_pairings db (update_rows condition change (pairing_sessions db)))
  else sql_error.

(** ** Creation *)
Definition created_row (d : InvitationDescriptor.t) (cbor digest : list Z) (now : Z) : PairingRow :=
  mkPairingRow (InvitationDescriptor.invitation_id d) cbor digest (InvitationDescriptor.space_id d)
    (InvitationDescriptor.responder_node_id d) (InvitationDescriptor.expires_at_unix_ms d)
    PairingLifecycle.Created now None None None None None None None None None None None None None None None
    None None None.

Definition insert_or_ignore (db : Database) (row : PairingRow) : result error (bool * Database) :=
  if negb (pairing_constraints row)
     || exists_row (fun other => has_id (pairing_invitation_id row) other
                                 || list_eqb (pairing_descriptor_digest other) (pairing_descriptor_digest row))
          (pairing_sessions db)
  then Ok (false, db)
  else if negb (exists_row (fun space => list_eqb (descriptor_space_id space) (pairing_space_id row))
                  (space_rows db))
  then sql_error
  else Ok (true, with_pairings db (pairing_sessions db ++ [row])).

Definition create_pairing_session (db : Database) (d : InvitationDescriptor.t) (now : Z) :
    option (result error PairingSession * Database) :=
  if (now <? 0) || (InvitationDescriptor.expires_at_unix_ms d <=? now)
  then Some (Err PairingStoreError.InvalidTime, db)
  else match InvitationDescriptor.canonical_bytes d with
  | Err e => Some (Err (PairingStoreError.Protocol e), db)
  | Ok cbor =>
      let! digest := InvitationDescriptor.digest d in
      Some match insert_or_ignore db (created_row d cbor digest now) with
      | Err e => (Err e, db)
      | Ok (inserted, db) =>
          (let? session := require db (InvitationDescriptor.invitation_id d)
             (PairingStoreError.Corrupt (str "insert disappeared")) in
           if negb inserted && negb (eqb (descriptor session) d) then Err PairingStoreError.Conflict
           else Ok session, db)
      end
  end.

(** ** The lifecycle *)
Definition expired (now : Z) (row : PairingRow) : PairingRow :=
  mkPairingRow (pairing_invitation_id row) (pairing_descriptor_cbor row) (pairing_descriptor_digest row)
    (pairing_space_id row) (pairing_responder_node_id row) (pairing_expires_at_unix_ms row)
    PairingLifecycle.Expired (pairing_created_at_unix_ms row) (pairing_claimed_at_unix_ms row)
    (pairing_claimed_expires_at_unix_ms row) (pairing_confirmed_at_unix_ms row)
    (pairing_completed_at_unix_ms row) (Some now) (pairing_claim_digest row) (pairing_handshake_hash row)
    (pairing_joiner_node_id row) (pairing_subject_actor_id row) (pairing_planned_grant_operation_id row)
    (pairing_planned_grant_json row) (pairing_grant_planned_at_unix_ms row)
    (pairing_grant_operation_id row) (pairing_peer_token_digest row) (pairing_last_seen_at_unix_ms row)
    (pairing_first_frame_digest row) (pairing_response_frame row) (pairing_receipt_frame row).

Definition cancelled (now : Z) (row : PairingRow) : PairingRow :=
  mkPairingRow (pairing_invitation_id row) (pairing_descriptor_cbor row) (pairing_descriptor_digest row)
    (pairing_space_id row) (pairing_responder_node_id row) (pairing_expires_at_unix_ms row)
    PairingLifecycle.Cancelled (pairing_created_at_unix_ms row) (pairing_claimed_at_unix_ms row)
    (pairing_claimed_expires_at_unix_ms row) (pairing_confirmed_at_unix_ms row)
    (pairing_completed_at_unix_ms row) (Some now) (pairing_claim_digest row) (pairing_handshake_hash row)
    (pairing_joiner_node_id row) (pairing_subject_actor_id row) (pairing_planned_grant_operation_id row)
    (pairing_planned_grant_json row) (pairing_grant_planned_at_unix_ms row)
    (pairing_grant_operation_id row) (pairing_peer_token_digest row) (pairing_last_seen_at_unix_ms row)
    (pairing_first_frame_digest row) (pairing_response_frame row) (pairing_receipt_frame row).

Definition claimed (claim : JoinerClaim.t)
    (claim_digest handshake_hash peer_token_digest first_frame_digest response_frame receipt_frame : list Z)
    (now : Z) (row : PairingRow) : PairingRow :=
  mkPairingRow (pairing_invitation_id row) (pairing_descriptor_cbor row) (pairing_descriptor_digest row)
    (pairing_space_id row) (pairing_responder_node_id row) (pairing_expires_at_unix_ms row)
    PairingLifecycle.Claimed (pairing_created_at_unix_ms row) (Some now)
    (Some (Z.min (pairing_expires_at_unix_ms row) (now + CLAIM_LIFETIME_MS)))
    (pairing_confirmed_at_unix_ms row) (pairing_completed_at_unix_ms row) (pairing_terminal_at_unix_ms row)
    (Some claim_digest) (Some handshake_hash) (Some (JoinerClaim.joiner_node_id claim))
    (Some (JoinerClaim.subject_actor_id claim)) (pairing_planned_grant_operation_id row)
    (pairing_planned_grant_json row) (pairing_grant_planned_at_unix_ms row)
    (pairing_grant_operation_id row) (Some peer_token_digest) (pairing_last_seen_at_unix_ms row)
    (Some first_frame_digest) (Some response_frame) (Some receipt_frame).

Definition confirmed (now : Z) (row : PairingRow) : PairingRow :=
  mkPairingRow (pairing_invitation_id row) (pairing_descriptor_cbor row) (pairing_descriptor_digest row)
    (pairing_space_id row) (pairing_responder_node_id row) (pairing_expires_at_unix_ms row)
    PairingLifecycle.Confirmed (pairing_created_at_unix_ms row) (pairing_claimed_at_unix_ms row)
    (pairing_claimed_expires_at_unix_ms row) (Some now) (pairing_completed_at_unix_ms row)
    (pairing_terminal_at_unix_ms row) (pairing_claim_digest row) (pairing_handshake_hash row)
    (pairing_joiner_node_id row) (pairing_subject_actor_id row) (pairing_planned_grant_operation_id row)
    (pairing_planned_grant_json row) (pairing_grant_planned_at_unix_ms row)
    (pairing_grant_operation_id row) (pairing_peer_token_digest row) (pairing_last_seen_at_unix_ms row)
    (pairing_first_frame_digest row) (pairing_response_frame row) (pairing_receipt_frame row).

Definition completed (grant : list Z) (now : Z) (row : PairingRow) : PairingRow :=
  mkPairingRow (pairing_invitation_id row) (pairing_descriptor_cbor row) (pairing_descriptor_digest row)
    (pairing_space_id row) (pairing_responder_node_id row) (pairing_expires_at_unix_ms row)
    PairingLifecycle.Completed (pairing_created_at_unix_ms row) (pairing_claimed_at_unix_ms row)
    (pairing_claimed_expires_at_unix_ms row) (pairing_confirmed_at_unix_ms row) (Some now) (Some now)
    (pairing_claim_digest row) (pairing_handshake_hash row) (pairing_joiner_node_id row)
    (pairing_subject_actor_id row) (pairing_planned_grant_operation_id row)
    (pairing_planned_grant_json row) (pairing_grant_planned_at_unix_ms row) (Some grant)
    (pairing_peer_token_digest row) (pairing_last_seen_at_unix_ms row) (pairing_first_frame_digest row)
    (pairing_response_frame row) (pairing_receipt_frame row).

Definition planned (operation_id json : list Z) (now : Z) (row : PairingRow) : PairingRow :=
  mkPairingRow (pairing_invitation_id row) (pairing_descriptor_cbor row) (pairing_descriptor_digest row)
    (pairing_space_id row) (pairing_responder_node_id row) (pairing_expires_at_unix_ms row)
    (pairing_state row) (pairing_created_at_unix_ms row) (pairing_claimed_at_unix_ms row)
    (pairing_claimed_expires_at_unix_ms row) (pairing_confirmed_at_unix_ms row)
    (pairing_completed_at_unix_ms row) (pairing_terminal_at_unix_ms row) (pairing_claim_digest row)
    (pairing_handshake_hash row) (pairing_joiner_node_id row) (pairing_subject_actor_id row)
    (Some operation_id) (Some json) (Some now) (pairing_grant_operation_id row)
    (pairing_peer_token_digest row) (pairing_last_seen_at_unix_ms row) (pairing_first_frame_digest row)
    (pairing_response_frame row) (pairing_receipt_frame row).

(** [max(coalesce(last_seen_at_unix_ms, 0), now)]. *)
Definition touched (now : Z) (row : PairingRow) : PairingRow :=
  mkPairingRow (pairing_invitation_id row) (pairing_descriptor_cbor row) (pairing_descriptor_digest row)
    (pairing_space_id row) (pairing_responder_node_id row) (pairing_expires_at_unix_ms row)
    (pairing_state row) (pairing_created_at_unix_ms row) (pairing_claimed_at_unix_ms row)
    (pairing_claimed_expires_at_unix_ms row) (pairing_confirmed_at_unix_ms row)
    (pairing_completed_at_unix_ms row) (pairing_terminal_at_unix_ms row) (pairing_claim_digest row)
    (pairing_handshake_hash row) (pairing_joiner_node_id row) (pairing_subject_actor_id row)
    (pairing_planned_grant_operation_id row) (pairing_planned_grant_json row)
    (pairing_grant_planned_at_unix_ms row) (pairing_grant_operation_id row) (pairing_peer_token_digest row)
    (Some (Z.max (default 0 (pairing_last_seen_at_unix_ms row)) now)) (pairing_first_frame_digest row)
    (pairing_response_frame row) (pairing_receipt_frame row).

(** ** Claims: an outer [None] is the panic of a digest *)
Definition invalid_claim (handshake_hash peer_token_digest response_frame receipt_frame : list Z)
    (now : Z) : bool :=
  (now <? 0) || list_eqb handshake_hash (replicate 32 0) || list_eqb peer_token_digest (replicate 32 0)
  || is_empty response_frame || (MAX_FRAME_BYTES <? byte_count response_frame)
  || is_empty receipt_frame || (MAX_FRAME_BYTES <? byte_count receipt_frame).

Definition is_created (id : list Z) (row : PairingRow) : bool :=
  has_id id row && in_states [PairingLifecycle.Created] row.

(** The invitation has run out: the transaction commits only when it expired a row. *)
Definition expire_claimed (db : Database) (id : list Z) (current : PairingSession) (now : Z) :
    result error PairingSession * Database :=
  if eqb (session_state current) PairingLifecycle.Created
  then match update_pairings db (is_created id) (expired now) with
       | Ok (_, after) => (Err PairingStoreError.Unavailable, after)
       | Err e => (Err e, db)
       end
  else (Err PairingStoreError.Unavailable, db).

(** The rest of the transaction, committed when it succeeds. *)
Definition commit_claim (db : Database) (id : list Z) (change : PairingRow -> PairingRow) :
    result error PairingSession * Database :=
  match update_pairings db (is_created id) change with
  | Err e => (Err e, db)
  | Ok (changed, after) =>
      if negb (changed =? 1) then (Err PairingStoreError.Unavailable, db)
      else match require after id (PairingStoreError.Corrupt (str "claim disappeared")) with
           | Ok session => (Ok session, after)
           | Err e => (Err e, db)
           end
  end.

Definition claim_pairing_session (db : Database) (d : InvitationDescriptor.t) (claim : JoinerClaim.t)
    (handshake_hash peer_token_digest first_frame_digest response_frame receipt_frame : list Z)
    (now : Z) : option (result error PairingSession * Database) :=
  let id := InvitationDescriptor.invitation_id d in
  let! verified := JoinerClaim.verify_for claim d in
  match verified with
  | Err e => Some (Err (PairingStoreError.Protocol e), db)
  | Ok _ =>
      if invalid_claim handshake_hash peer_token_digest response_frame receipt_frame now
      then Some (Err PairingStoreError.InvalidTime, db)
      else match require db id PairingStoreError.NotFound with
      | Err e => Some (Err e, db)
      | Ok current =>
          if negb (eqb (descriptor current) d) then Some (Err PairingStoreError.Conflict, db)
          else if InvitationDescriptor.expires_at_unix_ms d <=? now
          then Some (expire_claimed db id current now)
          else
            let! digest := JoinerClaim.digest claim in
            Some (commit_claim db id
                    (claimed claim digest handshake_hash peer_token_digest first_frame_digest
                       response_frame receipt_frame now))
      end
  end.

(** ** Transitions: one statement, then the row it left *)
Definition transition (db : Database) (id : list Z)
    (operation : Database -> result error (Z * Database)) : result error PairingSession * Database :=
  match operation db with
  | Err e => (Err e, db)
  | Ok (changed, db) =>
      (if negb (changed =? 1) then Err PairingStoreError.Unavailable
       else require db id (PairingStoreError.Corrupt (str "transition disappeared")), db)
  end.

Definition confirmable (id hash : list Z) (row : PairingRow) : bool :=
  has_id id row && in_states [PairingLifecycle.Claimed] row && eqb (pairing_handshake_hash row) (Some hash).

Definition confirm_pairing_session (db : Database) (id hash : list Z) (now : Z) :
    result error PairingSession * Database :=
  if now <? 0 then (Err PairingStoreError.InvalidTime, db)
  else transition db id (fun db => update_pairings db (confirmable id hash) (confirmed now)).

(** The EXISTS of the completion: the planned grant is stored for the session's
    subject in the session's space. *)
Definition grant_stored (db : Database) (grant : list Z) (row : PairingRow) : bool :=
  exists_row (fun stored =>
    list_eqb (grant_space_id stored) (pairing_space_id row)
    && list_eqb (grant_operation_id stored) grant
    && eqb (Some (grant_subject stored)) (pairing_subject_actor_id row)) (capability_grants db).

Definition completable (db : Database) (id grant : list Z) (row : PairingRow) : bool :=
  has_id id row && in_states [PairingLifecycle.Confirmed] row
  && eqb (pairing_planned_grant_operation_id row) (Some grant) && grant_stored db grant row.

Definition complete_pairing_session (db : Database) (id grant : list Z) (now : Z) :
    result error PairingSession * Database :=
  if now <? 0 then (Err PairingStoreError.InvalidTime, db)
  else transition db id (fun db => update_pairings db (completable db id grant) (completed grant now)).

Definition cancellable (id : list Z) (row : PairingRow) : bool :=
  has_id id row && in_states [PairingLifecycle.Created; PairingLifecycle.Claimed] row.

Definition cancel_pairing_session (db : Database) (id : list Z) (now : Z) :
    result error PairingSession * Database :=
  if now <? 0 then (Err PairingStoreError.InvalidTime, db)
  else transition db id (fun db => update_pairings db (cancellable id) (cancelled now)).

(** ** The planned grant *)

(** The derived [PartialEq] of an envelope. *)
Definition envelope_eqb (a b : OperationEnvelope.t) : bool :=
  (OperationEnvelope.protocol_version a =? OperationEnvelope.protocol_version b)
  && list_eqb (OperationEnvelope.operation_id a) (OperationEnvelope.operation_id b)
  && list_eqb (OperationEnvelope.space_id a) (OperationEnvelope.space_id b)
  && list_eqb (OperationEnvelope.actor_id a) (OperationEnvelope.actor_id b)
  && list_eqb (OperationEnvelope.entity_id a) (OperationEnvelope.entity_id b)
  && eqb (OperationEnvelope.schema a) (OperationEnvelope.schema b)
  && eqb (OperationEnvelope.causal_parents a) (OperationEnvelope.causal_parents b)
  && eqb (OperationEnvelope.authorization a) (OperationEnvelope.authorization b)
  && (OperationEnvelope.occurred_at_unix_ms a =? OperationEnvelope.occurred_at_unix_ms b)
  && list_eqb (OperationEnvelope.nonce a) (OperationEnvelope.nonce b)
  && body_eqb (OperationEnvelope.body a) (OperationEnvelope.body b)
  && list_eqb (OperationEnvelope.cose_sign1 a) (OperationEnvelope.cose_sign1 b).

Definition plannable (id : list Z) (row : PairingRow) : bool :=
  has_id id row && in_states [PairingLifecycle.Claimed; PairingLifecycle.Confirmed] row
  && negb (is_some (pairing_planned_grant_operation_id row)).

(** The session accepts this grant. *)
Definition plan_matches (current : PairingSession) (operation : OperationEnvelope.t)
    (grant : CapabilityGrant.t) : bool :=
  contains (session_state current) [PairingLifecycle.Claimed; PairingLifecycle.Confirmed]
  && list_eqb (InvitationDescriptor.space_id (descriptor current)) (OperationEnvelope.space_id operation)
  && eqb (subject_actor_id current) (Some (CapabilityGrant.subject grant)).

Definition plan_pairing_grant (db : Database) (id : list Z) (operation : OperationEnvelope.t) (now : Z) :
    result error PairingSession * Database :=
  match OperationEnvelope.verify operation with
  | Err e => (Err (PairingStoreError.Protocol (DataModel_ e)), db)
  | Ok _ =>
      if (now <? 0) || negb (eqb (OperationEnvelope.schema operation) EntitySchema.CapabilityGrant)
      then (Err PairingStoreError.InvalidGrantPlan, db)
      else match OperationEnvelope.body operation with
      | OperationBody.CapabilityGrant grant =>
          match to_json operation with
          | None => (Err (PairingStoreError.Corrupt (str "grant serialization failed")), db)
          | Some json =>
              match require db id PairingStoreError.NotFound with
              | Err e => (Err e, db)
              | Ok current =>
                  if negb (plan_matches current operation grant)
                  then (Err PairingStoreError.InvalidGrantPlan, db)
                  else match planned_grant current with
                  | Some existing =>
                      (if envelope_eqb existing operation then Ok current
                       else Err PairingStoreError.Conflict, db)
                  | None =>
                      match update_pairings db (plannable id)
                              (planned (OperationEnvelope.operation_id operation) json now) with
                      | Err e => (Err e, db)
                      | Ok (changed, db) =>
                          (if negb (changed =? 1) then Err PairingStoreError.Unavailable
                           else require db id
                                  (PairingStoreError.Corrupt (str "grant plan disappeared")), db)
                      end
                  end
              end
          end
      | _ => (Err PairingStoreError.InvalidGrantPlan, db)
      end
  end.

(** ** Queries *)
Definition pairing_session (db : Database) (id : list Z) : result error (option PairingSession) :=
  load db id.

(** [ORDER BY created_at_unix_ms, invitation_id] and
    [ORDER BY completed_at_unix_ms DESC, invitation_id]; NULL sorts last when
    descending. *)
Definition by_time (time : PairingRow -> Z) (a b : PairingRow) : Prop :=
  time a < time b
  \/ time a = time b /\ bytes_le (pairing_invitation_id a) (pairing_invitation_id b).
#[local] Instance by_time_dec time a b : Decision (by_time time a b).
Proof. unfold by_time. apply _. Defined.

Definition MAX_SESSIONS : nat := 1024.

Definition list_sessions (rows : list PairingRow) (too_many : list Z) :
    result error (list PairingSession) :=
  let? sessions := collect decode (firstn (MAX_SESSIONS + 1) rows) in
  if (MAX_SESSIONS <? length sessions)%nat then Err (PairingStoreError.Corrupt too_many)
  else Ok sessions.

Definition active_pairing_sessions (db : Database) : result error (list PairingSession) :=
  list_sessions
    (merge_sort (by_time pairing_created_at_unix_ms)
       (select (in_states [PairingLifecycle.Created; PairingLifecycle.Claimed; PairingLifecycle.Confirmed])
          (pairing_sessions db)))
    (str "too many active pairings").

Definition completed_pairing_sessions (db : Database) : result error (list PairingSession) :=
  list_sessions
    (merge_sort (by_time (fun row => - default (- 2 ^ 63 - 1) (pairing_completed_at_unix_ms row)))
       (select (in_states [PairingLifecycle.Completed]) (pairing_sessions db)))
    (str "too many paired devices").

Definition touch_pairing_session (db : Database) (id : list Z) (now : Z) :
    result error unit * Database :=
  if now <? 0 then (Err PairingStoreError.InvalidTime, db)
  else match update_pairings db
               (fun row => has_id id row && in_states [PairingLifecycle.Completed] row) (touched now) with
  | Err e => (Err e, db)
  | Ok (changed, db) => (if negb (changed =? 1) then Err PairingStoreError.Unavailable else Ok tt, db)
  end.

(** The revocations of a grant joined with their operations, the earliest first. *)
Definition revocation_order (a b : list Z * Z) : Prop :=
  a.2 < b.2 \/ a.2 = b.2 /\ bytes_le a.1 b.1.
#[local] Instance revocation_order_dec a b : Decision (revocation_order a b).
Proof. unfold revocation_order. apply _. Defined.

Definition revocations_of (db : Database) (space_id grant_id : list Z) : list (list Z * Z) :=
  List.flat_map (fun revocation =>
      List.map (fun operation => (revocation_operation_id revocation, row_occurred_at_unix_ms operation))
        (select (fun operation =>
                   list_eqb (row_operation_id operation) (revocation_operation_id revocation))
           (operations db)))
    (select (fun revocation => list_eqb (revocation_space_id revocation) space_id
                               && list_eqb (revoked_grant_id revocation) grant_id)
       (capability_grant_revocations db)).

Definition grant_revocation (db : Database) (space_id grant_id : list Z) :
    result error (option (list Z * Z)) :=
  Ok (List.hd_error (merge_sort revocation_order (revocations_of db space_id grant_id))).

(** ** Expiry *)
Definition overdue (now : Z) (row : PairingRow) : bool :=
  in_states [PairingLifecycle.Created] row && (pairing_expires_at_unix_ms row <=? now)
  || in_states [PairingLifecycle.Claimed] row
     && match pairing_claimed_expires_at_unix_ms row with
        | Some expires => expires <=? now
        | None => false
        end.

Definition expire_pairing_sessions (db : Database) (now : Z) : result error Z * Database :=
  if now <? 0 then (Err PairingStoreError.InvalidTime, db)
  else match update_pairings db (overdue now) (expired now) with
  | Ok (changed, db) => (Ok changed, db)
  | Err e => (Err e, db)
  end.
End PairingStore.
