(* ===== verification/PairingStoreTheory.v ===== *)
(** * The pairing lifecycle: reachable tables

    Every request of the pairing store as a step, what a step may do to a stored row,
    and the invariant that ties a stored session to the messages that made it. *)
From S2P Require Import Prelude Bytes Floats Crypto Content Cbor CborProps CborMap Trust TrustTheory DataModel CanonicalBody.
From S2P Require Import BodyTheory Envelope EnvelopeTheory Authorization Peer Pairing PairingTheory InvitationTheory.
From S2P Require Import Application Database Repository RepositoryLog PairingStore.

(** Conversion unfolds the codec last: its runs on symbolic values do not end. *)
Strategy 1000 [to_canonical_cbor from_canonical_cbor wire].

(** ** Issued descriptors *)
Section Issued.
Context `{Sha256} `{Ed25519} `{HalfFloat} `{!Noise}.

(** The descriptor of an issued invitation: [issue_spec] and [decode] give no other. *)
Record issued (d : InvitationDescriptor.t) : Prop := {
  issued_typed : descriptor_typed d;
  issued_normal : CapabilityGrantTemplate.normalize (InvitationDescriptor.capability d)
    = InvitationDescriptor.capability d;
  issued_valid : InvitationDescriptor.validate d = Ok tt
}.

Lemma issued_bytes d :
  issued d -> exists bytes digest, InvitationDescriptor.canonical_bytes d = Ok bytes
    /\ InvitationDescriptor.from_canonical_bytes bytes = Ok d
    /\ InvitationDescriptor.digest d = Some digest /\ length digest = 32%nat
    /\ (1 <= length bytes)%nat /\ byte_count bytes <= 4096.
Proof.
  intros []. pose proof (descriptor_valid_bytes d issued_typed0 issued_valid0) as Hb.
  pose proof (descriptor_valid_digest d issued_typed0 issued_valid0) as Hd.
  eexists _, _. split; [exact Hb|]. pose proof Hb as Hc. unfold InvitationDescriptor.canonical_bytes in Hc.
  destruct (to_canonical_cbor (InvitationDescriptor.canonical_value d)) as [bytes|] eqn:Ec; cbn [map_err] in Hc;
    [|done]. destruct (ensure_canonical_bound bytes) eqn:Eb; [|done]. apply Ok_inj in Hc as ->.
  apply to_canonical_cbor_roundtrip in Ec as (Ed & _ & _); [|by apply descriptor_wf].
  split; [|split; [exact Hd|split; [apply sha256_fixed|]]].
  - unfold InvitationDescriptor.from_canonical_bytes. rewrite Eb, Ed. cbn [map_err].
    rewrite descriptor_roundtrip by done. by rewrite issued_valid0.
  - unfold ensure_canonical_bound, MAX_CANONICAL_MESSAGE_BYTES in Eb. destruct (_ <? _) eqn:El; [done|].
    bool_prop. unfold byte_count. split; [|lia].
    destruct (wire _) as [|b l] eqn:Ew; [|cbn; lia]. exfalso. clear -Ed. discriminate Ed.
Qed.
End Issued.

#[local] Opaque OperationEnvelope.verify InvitationDescriptor.from_canonical_bytes JoinerClaim.verify_for
  JoinerClaim.digest InvitationDescriptor.digest InvitationDescriptor.canonical_bytes.

(** ** The lifecycle graph *)
Inductive edge : PairingLifecycle.t -> PairingLifecycle.t -> Prop :=
| edge_claim : edge PairingLifecycle.Created PairingLifecycle.Claimed
| edge_confirm : edge PairingLifecycle.Claimed PairingLifecycle.Confirmed
| edge_complete : edge PairingLifecycle.Confirmed PairingLifecycle.Completed
| edge_cancel s : s = PairingLifecycle.Created \/ s = PairingLifecycle.Claimed -> edge s PairingLifecycle.Cancelled
| edge_expire s : s = PairingLifecycle.Created \/ s = PairingLifecycle.Claimed -> edge s PairingLifecycle.Expired.
#[export] Hint Constructors edge : core.

Definition terminal (s : PairingLifecycle.t) : Prop :=
  s = PairingLifecycle.Completed \/ s = PairingLifecycle.Cancelled \/ s = PairingLifecycle.Expired.

Lemma edge_created s s' : edge s s' -> s' <> PairingLifecycle.Created.
Proof. by intros []. Qed.
Lemma path_created s s' : rtc edge s s' -> s' = PairingLifecycle.Created -> s = PairingLifecycle.Created.
Proof. induction 1 as [|s s1 s' He _ IH]; [done|]. intros E. by destruct (edge_created _ _ He (IH E)). Qed.
Lemma path_terminal s s' : rtc edge s s' -> terminal s -> s' = s.
Proof.
  intros [|s1 s2 s3 He _]; [done|]. intros Ht. exfalso.
  destruct Ht as [->|[->| ->]]; inversion He; subst; intuition congruence.
Qed.

(** ** What happens to a row *)
Section Evolution.

(** The descriptor of a session is fixed when it is created, the joiner when it is
    claimed, the grant when it is planned, the outcome when it is terminal. *)
Record row_evolves (row row' : PairingRow) : Prop := {
  evolves_identity :
    (pairing_invitation_id row', pairing_descriptor_cbor row', pairing_descriptor_digest row',
     pairing_space_id row', pairing_expires_at_unix_ms row', pairing_created_at_unix_ms row')
    = (pairing_invitation_id row, pairing_descriptor_cbor row, pairing_descriptor_digest row,
       pairing_space_id row, pairing_expires_at_unix_ms row, pairing_created_at_unix_ms row);
  evolves_state : rtc edge (pairing_state row) (pairing_state row');
  evolves_claim : pairing_state row <> PairingLifecycle.Created ->
    (pairing_claimed_at_unix_ms row', pairing_claimed_expires_at_unix_ms row', pairing_claim_digest row',
     pairing_handshake_hash row', pairing_joiner_node_id row', pairing_subject_actor_id row',
     pairing_peer_token_digest row', pairing_first_frame_digest row', pairing_response_frame row',
     pairing_receipt_frame row')
    = (pairing_claimed_at_unix_ms row, pairing_claimed_expires_at_unix_ms row, pairing_claim_digest row,
       pairing_handshake_hash row, pairing_joiner_node_id row, pairing_subject_actor_id row,
       pairing_peer_token_digest row, pairing_first_frame_digest row, pairing_response_frame row,
       pairing_receipt_frame row);
  evolves_plan : pairing_planned_grant_operation_id row <> None ->
    (pairing_planned_grant_operation_id row', pairing_planned_grant_json row',
     pairing_grant_planned_at_unix_ms row')
    = (pairing_planned_grant_operation_id row, pairing_planned_grant_json row,
       pairing_grant_planned_at_unix_ms row);
  evolves_confirmed : pairing_confirmed_at_unix_ms row <> None ->
    pairing_confirmed_at_unix_ms row' = pairing_confirmed_at_unix_ms row;
  evolves_outcome : terminal (pairing_state row) ->
    (pairing_state row', pairing_terminal_at_unix_ms row', pairing_completed_at_unix_ms row',
     pairing_grant_operation_id row')
    = (pairing_state row, pairing_terminal_at_unix_ms row, pairing_completed_at_unix_ms row,
       pairing_grant_operation_id row);
  evolves_seen : default 0 (pairing_last_seen_at_unix_ms row) <= default 0 (pairing_last_seen_at_unix_ms row')
}.

#[export] Instance row_evolves_refl : Reflexive row_evolves.
Proof. constructor; done. Qed.
#[export] Instance row_evolves_trans : Transitive row_evolves.
Proof.
  intros a b c Hab Hbc. pose proof (evolves_state _ _ Hab) as Hs. constructor.
  - rewrite (evolves_identity _ _ Hbc). apply Hab.
  - etrans; [exact Hs|apply Hbc].
  - intros Hc. rewrite (evolves_claim _ _ Hbc); [by apply Hab|].
    intros E. by apply Hc, (path_created _ _ Hs).
  - intros Hp. rewrite (evolves_plan _ _ Hbc); [by apply Hab|].
    pose proof (evolves_plan _ _ Hab Hp) as E. injection E as -> _ _. done.
  - intros Hc. rewrite (evolves_confirmed _ _ Hbc); [by apply Hab|]. by rewrite (evolves_confirmed _ _ Hab).
  - intros Ht. rewrite (evolves_outcome _ _ Hbc); [by apply Hab|]. by rewrite (path_terminal _ _ Hs).
  - etrans; [apply Hab|apply Hbc].
Qed.

(** Rows keep their place: a request appends or changes in place. *)
Definition evolves (db db' : Database) : Prop := forall i row,
  pairing_sessions db !! i = Some row ->
  exists row', pairing_sessions db' !! i = Some row' /\ row_evolves row row'.

#[export] Instance evolves_refl : Reflexive evolves.
Proof. intros db i row Hr. by exists row. Qed.
#[export] Instance evolves_trans : Transitive evolves.
Proof.
  intros a b c Hab Hbc i row Hr. apply Hab in Hr as (row1 & Hr & E1). apply Hbc in Hr as (row2 & Hr & E2).
  exists row2. split; [done|]. by etrans.
Qed.
End Evolution.

(** ** The CHECK conditions *)
Ltac split_andb :=
  repeat match goal with H : _ && _ = true |- _ => apply andb_true_iff in H as [? ?] end.

(** The conditions that link the state and the columns. *)
Record row_constraints (row : PairingRow) : Prop := {
  rc_created : pairing_state row = PairingLifecycle.Created ->
    pairing_claim_digest row = None /\ pairing_subject_actor_id row = None;
  rc_confirmed : pairing_confirmed_at_unix_ms row <> None <->
    pairing_state row = PairingLifecycle.Confirmed \/ pairing_state row = PairingLifecycle.Completed;
  rc_completed : pairing_completed_at_unix_ms row <> None <-> pairing_state row = PairingLifecycle.Completed;
  rc_grant : pairing_grant_operation_id row <> None <-> pairing_state row = PairingLifecycle.Completed;
  rc_claim : pairing_state row = PairingLifecycle.Claimed \/ pairing_state row = PairingLifecycle.Confirmed
      \/ pairing_state row = PairingLifecycle.Completed -> pairing_claim_digest row <> None;
  rc_plan : pairing_planned_grant_operation_id row <> None <-> pairing_planned_grant_json row <> None
}.

Lemma is_some_None {A} (o : option A) : is_some o = false <-> o = None.
Proof. by destruct o. Qed.
Lemma is_some_Some {A} (o : option A) : is_some o = true <-> o <> None.
Proof. by destruct o. Qed.
Lemma eqb_is_some {A} (b : bool) (o : option A) : Bool.eqb b (is_some o) = true -> o <> None <-> b = true.
Proof. intros ->%Bool.eqb_prop. symmetry. apply is_some_Some. Qed.

Lemma in_states_spec states row : in_states states row = true <-> pairing_state row ∈ states.
Proof. apply bool_decide_eq_true. Qed.

Lemma constraints_state row : pairing_constraints row = true -> row_constraints row.
Proof.
  unfold pairing_constraints. intros Hc. split_andb.
  repeat match goal with H : Bool.eqb (in_states _ _) _ = true |- _ => apply eqb_is_some in H end.
  constructor.
  - intros E. rewrite E in *. match goal with H : negb _ = true |- _ => apply negb_true_iff in H end.
    repeat match goal with H : _ || _ = false |- _ => apply orb_false_iff in H as [? ?] end.
    by split; apply is_some_None.
  - match goal with H : _ <-> in_states [PairingLifecycle.Confirmed; _] _ = true |- _ => rewrite H end.
    rewrite in_states_spec. set_solver.
  - match goal with H : _ <-> in_states _ _ = true |- _ =>
      lazymatch type of H with pairing_completed_at_unix_ms _ <> None <-> _ => rewrite H end end.
    rewrite in_states_spec. set_solver.
  - match goal with H : _ <-> in_states _ _ = true |- _ =>
      lazymatch type of H with pairing_grant_operation_id _ <> None <-> _ => rewrite H end end.
    rewrite in_states_spec. set_solver.
  - intros [E|[E|E]]; rewrite E in *; split_andb; by apply is_some_Some.
  - match goal with H : Bool.eqb _ (is_some (pairing_planned_grant_json _)) = true |- _ =>
      apply eqb_is_some in H; rewrite H end. symmetry. apply is_some_Some.
Qed.

(** ** Statements *)
Section Statements.
Context `{Sha256} `{Ed25519} `{HalfFloat} `{Base64} `{!Noise} `{!JsonNumber} `{!JsonSize}
  `{!ProjectionJson}.
Implicit Types (db : Database) (row : PairingRow) (d : InvitationDescriptor.t).

Definition ids db : list (list Z) := List.map pairing_invitation_id (pairing_sessions db).

Lemma update_pairings_Ok db condition change n db' :
  update_pairings db condition change = Ok (n, db') <->
  Forall (fun row => condition row = true -> pairing_constraints (change row) = true) (pairing_sessions db)
  /\ n = Z.of_nat (length (select condition (pairing_sessions db)))
  /\ db' = with_pairings db (update_rows condition change (pairing_sessions db)).
Proof.
  unfold update_pairings, select. rewrite length_map.
  assert (Hf : forallb pairing_constraints (List.map change (List.filter condition (pairing_sessions db))) = true
    <-> Forall (fun row => condition row = true -> pairing_constraints (change row) = true) (pairing_sessions db)).
  { rewrite forallb_forall, Forall_forall. split.
    - intros Hx row Hin Hc. apply Hx, in_map, filter_In. by rewrite <- list_elem_of_In.
    - intros Hx x (row & <- & (Hin & Hc)%filter_In)%in_map_iff. apply Hx; [by apply list_elem_of_In|done]. }
  rewrite <- Hf. destruct (forallb _ _).
  - split; [intros [= <- <-]; done|by intros (_ & -> & ->)].
  - by split; [|intros [? _]].
Qed.

Lemma update_lookup condition change (rows : list PairingRow) i row :
  rows !! i = Some row ->
  update_rows condition change rows !! i = Some (if condition row then change row else row).
Proof. intros Hr. unfold update_rows. rewrite (list_lookup_fmap _ rows i), Hr. done. Qed.

Lemma update_elem condition change (rows : list PairingRow) row' :
  row' ∈ update_rows condition change rows ->
  exists row, row ∈ rows /\ row' = if condition row then change row else row.
Proof. intros (row & E & Hin)%list_elem_of_fmap. by exists row. Qed.

(** An update that keeps the keys, with its effect on the conditions. *)
Lemma update_ids condition change (rows : list PairingRow) :
  (forall row, pairing_invitation_id (change row) = pairing_invitation_id row) ->
  List.map pairing_invitation_id (update_rows condition change rows) = List.map pairing_invitation_id rows.
Proof.
  intros Hk. unfold update_rows. rewrite List.map_map. apply List.map_ext. intros row.
  by destruct (condition row).
Qed.

Lemma has_id_eq id row : has_id id row = true <-> pairing_invitation_id row = id.
Proof. apply list_eqb_eq. Qed.

Lemma unique_row (rows : list PairingRow) row row' :
  NoDup (List.map pairing_invitation_id rows) -> row ∈ rows -> row' ∈ rows ->
  pairing_invitation_id row = pairing_invitation_id row' -> row = row'.
Proof.
  induction rows as [|a rows IH]; cbn; [by intros _ ?%not_elem_of_nil|].
  intros [Ha Hn]%NoDup_cons [->|Hr]%elem_of_cons [->|Hr']%elem_of_cons E; [done| | |by apply IH].
  - destruct Ha. rewrite E. by apply (list_elem_of_fmap_2 _ rows).
  - destruct Ha. rewrite <- E. by apply (list_elem_of_fmap_2 _ rows).
Qed.

(** The row with an id is the one a query finds. *)
Lemma query_id (rows : list PairingRow) row :
  NoDup (List.map pairing_invitation_id rows) -> row ∈ rows ->
  query_row (has_id (pairing_invitation_id row)) rows = Some row.
Proof.
  intros Hn Hin. unfold query_row. destruct (List.find _ rows) as [row'|] eqn:Ef.
  - apply find_some in Ef as [Hin' Hid]. apply has_id_eq in Hid. f_equal.
    apply (unique_row rows); [done|by apply list_elem_of_In|done|done].
  - pose proof (find_none _ _ Ef row (proj1 (list_elem_of_In _ _) Hin)) as Hx.
    by rewrite (proj2 (has_id_eq _ _)) in Hx.
Qed.

Lemma query_id_elem (rows : list PairingRow) id row :
  query_row (has_id id) rows = Some row -> row ∈ rows /\ pairing_invitation_id row = id.
Proof. intros [Hin Hid]%find_some. split; [by apply list_elem_of_In|by apply has_id_eq]. Qed.

(** How many rows a condition on one id selects. *)
Lemma select_one (rows : list PairingRow) condition row :
  NoDup (List.map pairing_invitation_id rows) -> row ∈ rows ->
  (forall r, condition r = true -> pairing_invitation_id r = pairing_invitation_id row) ->
  select condition rows = if condition row then [row] else [].
Proof.
  intros Hn Hin Hc. assert (Hnone : forall rows', pairing_invitation_id row ∉ List.map pairing_invitation_id rows' ->
    select condition rows' = []).
  { clear rows Hn Hin. induction rows' as [|a rows' IH]; cbn; [done|]. intros [Hne Hni]%not_elem_of_cons.
    destruct (condition a) eqn:E; [by destruct Hne; rewrite (Hc a E)|by apply IH]. }
  induction rows as [|a rows IH]; [by apply not_elem_of_nil in Hin|]. cbn in Hn |- *.
  apply NoDup_cons in Hn as [Ha Hn]. apply elem_of_cons in Hin as [<-|Hin].
  - pose proof (Hnone rows Ha) as E. unfold select in E. rewrite E. done.
  - pose proof (IH Hn Hin) as E. unfold select in E. rewrite E.
    destruct (condition a) eqn:Ea; [|done]. exfalso. apply Ha. rewrite (Hc a Ea).
    by apply (list_elem_of_fmap_2 _ rows).
Qed.
End Statements.

(** ** Requests *)
Section Requests.
Context `{Sha256} `{Ed25519} `{HalfFloat} `{Base64} `{!Noise} `{!JsonNumber} `{!JsonSize}
  `{!ProjectionJson}.
Implicit Types (db : Database) (row : PairingRow) (d : InvitationDescriptor.t).

(** One request of the pairing store, or of the other repositories of the node, which
    leave the sessions alone and only add grants; deleting a space removes both. *)
Inductive request db db' : Prop :=
| request_create d now out : issued d -> create_pairing_session db d now = Some (out, db') -> request db db'
| request_claim d claim hash token first response receipt now out :
    claim_typed claim -> claim_pairing_session db d claim hash token first response receipt now = Some (out, db') -> request db db'
| request_confirm id hash now out : confirm_pairing_session db id hash now = (out, db') -> request db db'
| request_complete id grant now out : complete_pairing_session db id grant now = (out, db') -> request db db'
| request_cancel id now out : cancel_pairing_session db id now = (out, db') -> request db db'
| request_plan id operation now out :
    typed_operation operation -> plan_pairing_grant db id operation now = (out, db') -> request db db'
| request_touch id now out : touch_pairing_session db id now = (out, db') -> request db db'
| request_expire now out : expire_pairing_sessions db now = (out, db') -> request db db'
| request_other :
    pairing_sessions db' = pairing_sessions db ->
    (forall g, g ∈ capability_grants db -> g ∈ capability_grants db') -> request db db'.

(** The updates requests make: a condition on rows and a change. *)
Inductive write db : (PairingRow -> bool) -> (PairingRow -> PairingRow) -> Prop :=
| write_claim d claim digest hash token first response receipt now :
    claim_typed claim -> JoinerClaim.verify_for claim d = Some (Ok tt) -> JoinerClaim.digest claim = Some digest ->
    now < InvitationDescriptor.expires_at_unix_ms d ->
    (forall row, row ∈ pairing_sessions db -> has_id (InvitationDescriptor.invitation_id d) row = true ->
       InvitationDescriptor.from_canonical_bytes (pairing_descriptor_cbor row) = Ok d) ->
    write db (is_created (InvitationDescriptor.invitation_id d))
      (claimed claim digest hash token first response receipt now)
| write_expire_created id now : write db (is_created id) (expired now)
| write_expire now : write db (overdue now) (expired now)
| write_confirm id hash now : write db (confirmable id hash) (confirmed now)
| write_complete id grant now : write db (completable db id grant) (completed grant now)
| write_cancel id now : write db (cancellable id) (cancelled now)
| write_plan id operation grant json now :
    typed_operation operation -> OperationEnvelope.verify operation = Ok tt ->
    OperationEnvelope.body operation = OperationBody.CapabilityGrant grant ->
    to_json operation = Some json ->
    (forall row, row ∈ pairing_sessions db -> has_id id row = true ->
       pairing_subject_actor_id row = Some (CapabilityGrant.subject grant)
       /\ exists d, InvitationDescriptor.from_canonical_bytes (pairing_descriptor_cbor row) = Ok d
            /\ InvitationDescriptor.space_id d = OperationEnvelope.space_id operation) ->
    write db (plannable id) (planned (OperationEnvelope.operation_id operation) json now)
| write_touch id now :
    write db (fun row => has_id id row && in_states [PairingLifecycle.Completed] row) (touched now).

(** *** What a loaded session says of its row *)
Lemma fixed_option_Ok n o o' : fixed_option n o = Ok o' -> o' = o.
Proof.
  unfold fixed_option, fixed_blob. destruct o as [b|]; [|by intros [= <-]].
  by destruct (length b =? n)%nat; [intros [= <-]|].
Qed.

Lemma decode_Ok row session :
  decode row = Ok session ->
  session_state session = pairing_state row /\ session_invitation_id session = pairing_invitation_id row
  /\ InvitationDescriptor.from_canonical_bytes (pairing_descriptor_cbor row) = Ok (descriptor session)
  /\ subject_actor_id session = pairing_subject_actor_id row
  /\ session_handshake_hash session = pairing_handshake_hash row
  /\ session_claim_digest session = pairing_claim_digest row
  /\ session_grant_operation_id session = pairing_grant_operation_id row.
Proof.
  unfold decode, fixed_blob. intros Hd. inv_ok.
  repeat match goal with
  | H : map_err _ ?m = Ok _ |- _ => destruct m eqn:?; cbn [map_err] in H; [apply Ok_inj in H; subst|done]
  | H : fixed_option _ _ = Ok _ |- _ => apply fixed_option_Ok in H; subst
  | H : (if _ then _ else _) = Ok _ |- _ => destruct (_ =? _)%nat; [apply Ok_inj in H; subst|done]
  end. done.
Qed.

Lemma decode_rest row session :
  decode row = Ok session ->
  joiner_node_id session = pairing_joiner_node_id row
  /\ session_completed_at session = pairing_completed_at_unix_ms row
  /\ session_peer_token_digest session = pairing_peer_token_digest row
  /\ match pairing_planned_grant_json row with
     | Some text => exists operation, from_json text = Some operation /\ planned_grant session = Some operation
     | None => planned_grant session = None
     end.
Proof.
  unfold decode, fixed_blob. intros Hd. inv_ok.
  repeat match goal with
  | H : map_err _ ?m = Ok _ |- _ => destruct m eqn:?; cbn [map_err] in H; [apply Ok_inj in H; subst|done]
  | H : fixed_option _ _ = Ok _ |- _ => apply fixed_option_Ok in H; subst
  | H : (if _ then _ else _) = Ok _ |- _ => destruct (_ =? _)%nat; [apply Ok_inj in H; subst|done]
  end.
  cbn. do 3 (split; [done|]). destruct (pairing_planned_grant_json row) as [text|].
  - destruct (from_json text) as [operation|] eqn:Ef; [|done]. inv_ok. by exists operation.
  - by inv_ok.
Qed.

Lemma require_Ok db id e session :
  require db id e = Ok session ->
  exists row, query_row (has_id id) (pairing_sessions db) = Some row /\ decode row = Ok session.
Proof.
  unfold require, load. destruct (query_row _ _) as [row|]; [|done]. intros Hr. exists row. split; [done|].
  destruct (decode row); cbn in Hr; [|done]. by apply Ok_inj in Hr as ->.
Qed.

(** All rows with an id are the loaded one. *)
Lemma loaded_rows db id row :
  NoDup (ids db) -> query_row (has_id id) (pairing_sessions db) = Some row ->
  forall r, r ∈ pairing_sessions db -> has_id id r = true -> r = row.
Proof.
  intros Hn [Hin Hid]%query_id_elem r Hr Hid'. apply has_id_eq in Hid'.
  apply (unique_row (pairing_sessions db)); [exact Hn|done|done|congruence].
Qed.

(** The effect of a request on the sessions. *)
Definition effect db db' : Prop :=
  (pairing_sessions db' = pairing_sessions db
   /\ forall g, g ∈ capability_grants db -> g ∈ capability_grants db')
  \/ (exists d cbor digest now, issued d /\ InvitationDescriptor.canonical_bytes d = Ok cbor
        /\ pairing_constraints (created_row d cbor digest now) = true
        /\ InvitationDescriptor.invitation_id d ∉ ids db
        /\ db' = with_pairings db (pairing_sessions db ++ [created_row d cbor digest now]))
  \/ (exists condition change n, write db condition change
        /\ update_pairings db condition change = Ok (n, db')).

Lemma unchanged db : effect db db.
Proof. left. done. Qed.

Lemma transition_effect db id condition change out db' :
  write db condition change ->
  transition db id (fun db => update_pairings db condition change) = (out, db') -> effect db db'.
Proof.
  unfold transition. intros Hw Ht. destruct (update_pairings db condition change) as [[n after]|] eqn:Eu.
  - injection Ht as _ <-. right. right. by eauto.
  - injection Ht as _ <-. apply unchanged.
Qed.

Lemma create_effect db d now out db' :
  issued d -> create_pairing_session db d now = Some (out, db') -> effect db db'.
Proof.
  intros Hd. unfold create_pairing_session. destruct (_ || _); [intros [= _ <-]; apply unchanged|].
  destruct (issued_bytes d Hd) as (cbor & digest & Hb & _ & Hg & _).
  rewrite Hb, Hg. unfold insert_or_ignore. destruct (negb (pairing_constraints _)) eqn:Ec; cbn [orb];
    [intros [= _ <-]; apply unchanged|].
  destruct (exists_row _ (pairing_sessions db)) eqn:Ee; [intros [= _ <-]; apply unchanged|].
  destruct (negb (exists_row _ (space_rows db))); [intros [= _ <-]; apply unchanged|]. cbn -[require]. intros [= _ <-].
  right. left. exists d, cbor, digest, now.
  bool_prop. split; [done|]. split; [done|]. split; [done|]. split; [|done].
  intros (row & Hid & Hin)%list_elem_of_fmap. unfold exists_row in Ee. apply not_true_iff_false in Ee. apply Ee.
  apply existsb_exists. exists row. split; [by apply list_elem_of_In|].
  apply orb_true_iff. left. by apply has_id_eq.
Qed.

Lemma claim_effect db d claim hash token first response receipt now out db' :
  NoDup (ids db) -> claim_typed claim ->
  claim_pairing_session db d claim hash token first response receipt now = Some (out, db') -> effect db db'.
Proof.
  intros Hn Hty. unfold claim_pairing_session. destruct (JoinerClaim.verify_for claim d) as [[[]|]|] eqn:Ev; [|by intros [= _ <-]; left|done].
  destruct (invalid_claim _ _ _ _ _); [intros [= _ <-]; apply unchanged|].
  destruct (require db _ _) as [current|] eqn:Er; [|intros [= _ <-]; apply unchanged].
  unfold eqb. destruct (bool_decide (descriptor current = d)) eqn:Ed; cbn [negb]; [|intros [= _ <-]; apply unchanged].
  apply bool_decide_eq_true in Ed. destruct (Z.leb_spec (InvitationDescriptor.expires_at_unix_ms d) now) as [Ht|Ht].
  - intros [= Hx]. unfold expire_claimed in Hx. destruct (eqb _ _); [|injection Hx as _ <-; apply unchanged].
    destruct (update_pairings _ _ _) as [[n after]|] eqn:Eu; injection Hx as _ <-; [|apply unchanged].
    right. right. eexists _, _, _. split; [|exact Eu]. constructor.
  - destruct (JoinerClaim.digest claim) as [digest|] eqn:Eg; [|done]. intros [= Hx]. unfold commit_claim in Hx.
    destruct (update_pairings _ _ _) as [[n after]|] eqn:Eu; [|injection Hx as _ <-; apply unchanged].
    destruct (negb _); [injection Hx as _ <-; apply unchanged|].
    destruct (require after _ _); injection Hx as _ <-; [|apply unchanged].
    right. right. eexists _, _, _. split; [|exact Eu]. apply write_claim; try done.
    intros row Hin Hid. apply require_Ok in Er as (row' & Hq & Hdec).
    rewrite (loaded_rows db _ row' Hn Hq row Hin Hid). apply decode_Ok in Hdec as (_ & _ & -> & _). by rewrite Ed.
Qed.

Lemma plan_effect db id operation now out db' :
  NoDup (ids db) -> typed_operation operation ->
  plan_pairing_grant db id operation now = (out, db') -> effect db db'.
Proof.
  intros Hn Ht. unfold plan_pairing_grant.
  destruct (OperationEnvelope.verify operation) as [[]|] eqn:Ev; [|intros [= _ <-]; apply unchanged].
  destruct (_ || _); [intros [= _ <-]; apply unchanged|].
  destruct (OperationEnvelope.body operation) as [| | | | | |grant|] eqn:Eb; try (intros [= _ <-]; apply unchanged).
  destruct (to_json operation) as [json|] eqn:Ej; [|intros [= _ <-]; apply unchanged].
  destruct (require db id _) as [current|] eqn:Er; [|intros [= _ <-]; apply unchanged].
  destruct (negb _) eqn:Em; [intros [= _ <-]; apply unchanged|].
  destruct (planned_grant current); [intros [= _ <-]; apply unchanged|].
  destruct (update_pairings _ _ _) as [[n after]|] eqn:Eu; intros [= _ <-]; [|apply unchanged].
  right. right. eexists _, _, _. split; [|exact Eu]. apply (write_plan _ _ _ grant); try done.
  intros row Hin Hid. apply require_Ok in Er as (row' & Hq & Hdec).
  rewrite (loaded_rows db _ row' Hn Hq row Hin Hid). apply decode_Ok in Hdec as (_ & _ & Hd & Hs & _).
  unfold plan_matches, eqb in Em. bool_prop. rewrite list_eqb_eq in *. rewrite <- Hs. split; [done|].
  by exists (descriptor current).
Qed.

Lemma request_effect db db' : NoDup (ids db) -> request db db' -> effect db db'.
Proof.
  intros Hn [d now out Hd Hc|d claim hash token first response receipt now out Hty Hc|id hash now out Hc
    |id grant now out Hc|id now out Hc|id operation now out Ht Hc|id now out Hc|now out Hc|Hs Hg].
  - by eapply create_effect.
  - by eapply claim_effect.
  - unfold confirm_pairing_session in Hc. destruct (now <? 0); [injection Hc as _ <-; apply unchanged|].
    eapply transition_effect, Hc. constructor.
  - unfold complete_pairing_session in Hc. destruct (now <? 0); [injection Hc as _ <-; apply unchanged|].
    unfold transition in Hc. destruct (update_pairings _ _ _) as [[n after]|] eqn:Eu; injection Hc as _ <-;
      [|apply unchanged]. right. right. eexists _, _, _. split; [|exact Eu]. constructor.
  - unfold cancel_pairing_session in Hc. destruct (now <? 0); [injection Hc as _ <-; apply unchanged|].
    eapply transition_effect, Hc. constructor.
  - by eapply plan_effect.
  - unfold touch_pairing_session in Hc. destruct (now <? 0); [injection Hc as _ <-; apply unchanged|].
    destruct (update_pairings _ _ _) as [[n after]|] eqn:Eu; injection Hc as _ <-; [|apply unchanged].
    right. right. eexists _, _, _. split; [|exact Eu]. constructor.
  - unfold expire_pairing_sessions in Hc. destruct (now <? 0); [injection Hc as _ <-; apply unchanged|].
    destruct (update_pairings _ _ _) as [[n after]|] eqn:Eu; injection Hc as _ <-; [|apply unchanged].
    right. right. eexists _, _, _. split; [|exact Eu]. constructor.
  - by left.
Qed.
End Requests.

(** ** Every request follows the lifecycle *)
Section Lifecycle.
Context `{Sha256} `{Ed25519} `{HalfFloat} `{Base64} `{!Noise} `{!JsonNumber} `{!JsonSize}
  `{!ProjectionJson}.
Implicit Types (db : Database) (row : PairingRow) (d : InvitationDescriptor.t).

(** Reads the state a condition asks for. *)
Ltac state_of H :=
  apply andb_true_iff in H as [? H]; apply in_states_spec in H;
  first [apply list_elem_of_singleton in H
        |apply elem_of_cons in H as [H|H%list_elem_of_singleton]].

(** A change that stays on the graph and leaves fixed columns alone. *)
Lemma evolves_to row row' :
  edge (pairing_state row) (pairing_state row') ->
  (pairing_invitation_id row', pairing_descriptor_cbor row', pairing_descriptor_digest row',
   pairing_space_id row', pairing_expires_at_unix_ms row', pairing_created_at_unix_ms row')
  = (pairing_invitation_id row, pairing_descriptor_cbor row, pairing_descriptor_digest row,
     pairing_space_id row, pairing_expires_at_unix_ms row, pairing_created_at_unix_ms row) ->
  (pairing_state row <> PairingLifecycle.Created ->
   (pairing_claimed_at_unix_ms row', pairing_claimed_expires_at_unix_ms row', pairing_claim_digest row',
    pairing_handshake_hash row', pairing_joiner_node_id row', pairing_subject_actor_id row',
    pairing_peer_token_digest row', pairing_first_frame_digest row', pairing_response_frame row',
    pairing_receipt_frame row')
   = (pairing_claimed_at_unix_ms row, pairing_claimed_expires_at_unix_ms row, pairing_claim_digest row,
      pairing_handshake_hash row, pairing_joiner_node_id row, pairing_subject_actor_id row,
      pairing_peer_token_digest row, pairing_first_frame_digest row, pairing_response_frame row,
      pairing_receipt_frame row)) ->
  (pairing_planned_grant_operation_id row', pairing_planned_grant_json row', pairing_grant_planned_at_unix_ms row')
  = (pairing_planned_grant_operation_id row, pairing_planned_grant_json row, pairing_grant_planned_at_unix_ms row) ->
  (pairing_confirmed_at_unix_ms row <> None ->
     pairing_confirmed_at_unix_ms row' = pairing_confirmed_at_unix_ms row) ->
  pairing_last_seen_at_unix_ms row' = pairing_last_seen_at_unix_ms row ->
  row_evolves row row'.
Proof.
  intros He Hi Hc Hp Hf Hs. constructor; try done.
  - by apply rtc_once.
  - intros Ht. exfalso. destruct Ht as [E|[E|E]]; rewrite E in He; inversion He; subst; intuition congruence.
  - by rewrite Hs.
Qed.

Lemma overdue_state now row :
  overdue now row = true ->
  pairing_state row = PairingLifecycle.Created \/ pairing_state row = PairingLifecycle.Claimed.
Proof.
  unfold overdue. intros [Ho|Ho]%orb_true_iff; apply andb_true_iff in Ho as [Ho _]; apply in_states_spec in Ho;
    apply list_elem_of_singleton in Ho; auto.
Qed.

Lemma write_evolves db condition change row :
  write db condition change -> condition row = true -> pairing_constraints row = true ->
  row_evolves row (change row).
Proof.
  intros Hw Hc Hr%constraints_state.
  destruct Hw as [d claim digest hash token first response receipt now _ _ _ _ _|id now|now|id hash now
    |id grant now|id now|id operation grant json now _ _ _ _ _|id now].
  - state_of Hc. apply evolves_to; cbn; try done. by rewrite Hc.
  - state_of Hc. apply evolves_to; cbn; try done. rewrite Hc. auto.
  - apply overdue_state in Hc. apply evolves_to; cbn; try done. auto.
  - unfold confirmable in Hc. apply andb_true_iff in Hc as [Hc _]. state_of Hc. apply evolves_to; cbn; try done.
    + rewrite Hc. auto.
    + intros Hf. exfalso. apply (rc_confirmed _ Hr) in Hf. rewrite Hc in Hf. by destruct Hf.
  - unfold completable in Hc. do 2 apply andb_true_iff in Hc as [Hc _]. state_of Hc. apply evolves_to; cbn; try done.
    rewrite Hc. auto.
  - state_of Hc; apply evolves_to; cbn; try done; auto.
  - unfold plannable in Hc. apply andb_true_iff in Hc as [Hc Hp%negb_true_iff%is_some_None].
    constructor; cbn; try done.
  - constructor; cbn; try done. lia.
Qed.

Lemma write_keeps_id db condition change row :
  write db condition change -> pairing_invitation_id (change row) = pairing_invitation_id row.
Proof. by intros []. Qed.

(** ** The invariant *)

(** A session stands for an issued descriptor, the claim of a joiner who proved both
    keys, a verified grant to that joiner, and a grant the node stores. *)
Record session_ok db row : Prop := {
  ok_constraints : pairing_constraints row = true;
  ok_descriptor : exists d, issued d /\ InvitationDescriptor.canonical_bytes d = Ok (pairing_descriptor_cbor row)
    /\ pairing_invitation_id row = InvitationDescriptor.invitation_id d
    /\ pairing_space_id row = InvitationDescriptor.space_id d
    /\ pairing_expires_at_unix_ms row = InvitationDescriptor.expires_at_unix_ms d;
  ok_claim : pairing_claim_digest row <> None -> exists d claim,
    InvitationDescriptor.from_canonical_bytes (pairing_descriptor_cbor row) = Ok d
    /\ claim_typed claim /\ JoinerClaim.verify_for claim d = Some (Ok tt)
    /\ pairing_claim_digest row = JoinerClaim.digest claim
    /\ pairing_joiner_node_id row = Some (JoinerClaim.joiner_node_id claim)
    /\ pairing_subject_actor_id row = Some (JoinerClaim.subject_actor_id claim);
  ok_joined : pairing_subject_actor_id row <> None -> pairing_claim_digest row <> None;
  ok_plan : forall text, pairing_planned_grant_json row = Some text -> exists operation grant,
    typed_operation operation /\ OperationEnvelope.verify operation = Ok tt
    /\ OperationEnvelope.body operation = OperationBody.CapabilityGrant grant
    /\ to_json operation = Some text
    /\ pairing_planned_grant_operation_id row = Some (OperationEnvelope.operation_id operation)
    /\ OperationEnvelope.space_id operation = pairing_space_id row
    /\ pairing_subject_actor_id row = Some (CapabilityGrant.subject grant);
  ok_grant : forall grant, pairing_grant_operation_id row = Some grant ->
    pairing_planned_grant_operation_id row = Some grant /\ grant_stored db grant row = true
}.

Definition pairings_ok db : Prop :=
  NoDup (ids db) /\ forall row, row ∈ pairing_sessions db -> session_ok db row.

Lemma grant_stored_mono db db' grant row row' :
  (forall g, g ∈ capability_grants db -> g ∈ capability_grants db') ->
  pairing_space_id row' = pairing_space_id row -> pairing_subject_actor_id row' = pairing_subject_actor_id row ->
  grant_stored db grant row = true -> grant_stored db' grant row' = true.
Proof.
  intros Hg Hs Ha (g & Hin & Hm)%existsb_exists. apply existsb_exists. exists g. rewrite Hs, Ha. split; [|done].
  by apply list_elem_of_In, Hg, list_elem_of_In.
Qed.

Lemma session_ok_env db db' row :
  (forall g, g ∈ capability_grants db -> g ∈ capability_grants db') -> session_ok db row -> session_ok db' row.
Proof.
  intros Hg []. constructor; try done. intros grant Hr. apply ok_grant0 in Hr as [Hp Hs]. split; [done|].
  by apply (grant_stored_mono db _ _ row).
Qed.

(** The descriptor a row decodes to is the issued one. *)
Lemma session_descriptor db row d :
  session_ok db row -> InvitationDescriptor.from_canonical_bytes (pairing_descriptor_cbor row) = Ok d ->
  issued d /\ InvitationDescriptor.canonical_bytes d = Ok (pairing_descriptor_cbor row)
  /\ pairing_space_id row = InvitationDescriptor.space_id d.
Proof.
  intros Hok Hf. destruct (ok_descriptor _ _ Hok) as (d' & Hi & Hb & _ & Hs & _).
  destruct (issued_bytes d' Hi) as (bytes & digest & Hb' & Hf' & _). rewrite Hb in Hb'. apply Ok_inj in Hb' as <-.
  rewrite Hf in Hf'. apply Ok_inj in Hf' as ->. done.
Qed.

(** Columns a change leaves alone keep what they stood for. *)
Lemma session_ok_kept db db' row row' :
  session_ok db row -> (forall g, g ∈ capability_grants db -> g ∈ capability_grants db') ->
  pairing_constraints row' = true ->
  (pairing_invitation_id row', pairing_descriptor_cbor row', pairing_space_id row', pairing_expires_at_unix_ms row')
  = (pairing_invitation_id row, pairing_descriptor_cbor row, pairing_space_id row, pairing_expires_at_unix_ms row) ->
  (pairing_claim_digest row', pairing_joiner_node_id row', pairing_subject_actor_id row')
  = (pairing_claim_digest row, pairing_joiner_node_id row, pairing_subject_actor_id row) ->
  (pairing_planned_grant_operation_id row', pairing_planned_grant_json row')
  = (pairing_planned_grant_operation_id row, pairing_planned_grant_json row) ->
  (forall grant, pairing_grant_operation_id row' = Some grant ->
     pairing_grant_operation_id row = Some grant
     \/ pairing_planned_grant_operation_id row = Some grant /\ grant_stored db grant row = true) ->
  session_ok db' row'.
Proof.
  intros [] Hg Hc [= R1 R2 R3 R4] [= R5 R6 R7] [= R8 R9] Hgr. constructor; [done| | | | |].
  - by rewrite R1, R2, R3, R4.
  - by rewrite R2, R5, R6, R7.
  - by rewrite R5, R7.
  - intros text. rewrite R9, R8, R3, R7. apply ok_plan0.
  - intros grant Hs. rewrite R8.
    assert (Hold : pairing_planned_grant_operation_id row = Some grant /\ grant_stored db grant row = true).
    { by destruct (Hgr grant Hs) as [?%ok_grant0|?]. }
    destruct Hold as [? Hst]. split; [done|]. by apply (grant_stored_mono db _ _ row).
Qed.

Lemma write_session_ok db db' condition change row :
  write db condition change -> capability_grants db' = capability_grants db ->
  row ∈ pairing_sessions db -> session_ok db row -> condition row = true ->
  pairing_constraints (change row) = true -> session_ok db' (change row).
Proof.
  intros Hw Eg Hin Hok Hc Hk.
  assert (Hg : forall g, g ∈ capability_grants db -> g ∈ capability_grants db') by by rewrite Eg.
  pose proof (constraints_state _ (ok_constraints _ _ Hok)) as Hr.
  destruct Hw as [d claim digest hash token first response receipt now Hty Hv Hd _ Hrows|id now|now|id hash now
    |id grant now|id now|id operation grant json now Ht Hv Hb Hj Hrows|id now];
    try (apply (session_ok_kept db _ row); cbn; try done; by auto).
  - assert (Hid : has_id (InvitationDescriptor.invitation_id d) row = true).
    { by apply andb_true_iff in Hc as [? _]. }
    state_of Hc. pose proof (Hrows row Hin Hid) as Hcb.
    constructor; [done|apply Hok| | | |]; cbn.
    + intros _. exists d, claim. by rewrite Hd.
    + done.
    + intros text Hp. destruct (ok_plan _ _ Hok text Hp) as (o & g & _ & _ & _ & _ & _ & _ & Hs).
      by rewrite (proj2 (rc_created _ Hr Hc)) in Hs.
    + intros grant Hs. exfalso. assert (Hx : pairing_grant_operation_id row <> None) by by rewrite Hs.
      apply (rc_grant _ Hr) in Hx. by rewrite Hc in Hx.
  - apply (session_ok_kept db _ row); cbn; try done. intros g [= <-]. right.
    apply andb_true_iff in Hc as [Hc Hst]. apply andb_true_iff in Hc as [_ Hp].
    by apply bool_decide_eq_true in Hp.
  - assert (Hid : has_id id row = true) by by do 2 apply andb_true_iff in Hc as [Hc _].
    apply andb_true_iff in Hc as [Hc Hp%negb_true_iff%is_some_None].
    destruct (Hrows row Hin Hid) as (Hs & d & Hf & Esp).
    destruct (session_descriptor db row d Hok Hf) as (_ & _ & Er).
    constructor; [done|apply Hok|apply Hok|apply Hok| |]; cbn.
    + intros text [= <-]. exists operation, grant. by rewrite Er.
    + intros g Hs'. apply (ok_grant _ _ Hok) in Hs' as [Hs' _]. by rewrite Hp in Hs'.
Qed.

Lemma created_session_ok db db' d cbor digest now :
  issued d -> InvitationDescriptor.canonical_bytes d = Ok cbor ->
  pairing_constraints (created_row d cbor digest now) = true ->
  session_ok db' (created_row d cbor digest now).
Proof.
  intros Hd Hb Hc. constructor; try done. cbn. by exists d.
Qed.

Lemma effect_ok db db' : pairings_ok db -> effect db db' -> pairings_ok db' /\ evolves db db'.
Proof.
  intros [Hn Hall] [[Hs Hg]|[(d & cbor & digest & now & Hd & Hb & Hc & Hni & ->)
    |(condition & change & n & Hw & Hu)]].
  - split; [|intros i row; rewrite Hs; intros Hi; by exists row]. split; [by unfold ids; rewrite Hs|].
    intros row. rewrite Hs. intros Hin. by apply (session_ok_env db), Hall.
  - split.
    + split.
      * unfold ids. cbn [pairing_sessions with_pairings]. rewrite List.map_app.
        apply NoDup_app. split; [done|]. split; [|apply NoDup_singleton].
        intros x Hx ->%list_elem_of_singleton. by apply Hni.
      * intros row [Hin| ->%list_elem_of_singleton]%elem_of_app.
        -- apply (session_ok_env db); [done|by apply Hall].
        -- by apply (created_session_ok db).
    + intros i row Hi. exists row. split; [|done]. by apply lookup_app_l_Some.
  - apply update_pairings_Ok in Hu as (Hf & _ & ->). rewrite Forall_forall in Hf. split.
    + split.
      * unfold ids. cbn [pairing_sessions with_pairings]. rewrite update_ids; [done|].
        intros row. by apply (write_keeps_id db condition).
      * intros row' (row & Hin & ->)%update_elem. pose proof (Hall row Hin) as Hok.
        destruct (condition row) eqn:Ec.
        -- apply (write_session_ok db _ condition); try done. by apply Hf.
        -- by apply (session_ok_env db).
    + intros i row Hi. cbn [pairing_sessions with_pairings]. rewrite (update_lookup _ _ _ _ row) by done.
      eexists. split; [done|]. destruct (condition row) eqn:Ec; [|done].
      apply (write_evolves db condition); [done|done|]. by apply ok_constraints with db, Hall, (list_elem_of_lookup_2 _ i).
Qed.

Lemma request_ok db db' : pairings_ok db -> request db db' -> pairings_ok db' /\ evolves db db'.
Proof. intros Hok Hr. apply effect_ok; [done|]. apply request_effect; [apply Hok|done]. Qed.

Lemma requests_ok db db' : pairings_ok db -> rtc request db db' -> pairings_ok db' /\ evolves db db'.
Proof.
  intros Hok Hr. induction Hr as [db|db db1 db' Hr _ IH]; [done|].
  destruct (request_ok _ _ Hok Hr) as [Hok1 He]. destruct (IH Hok1) as [Hok' He']. split; [done|]. by etrans.
Qed.

Lemma empty_ok db : pairing_sessions db = [] -> pairings_ok db.
Proof. intros E. unfold pairings_ok, ids. rewrite E. split; [constructor|]. by intros row ?%not_elem_of_nil. Qed.
(** A sound row decodes. *)
Lemma option_fixed n o :
  option_all (fun b => (length b =? n)%nat) o = true -> fixed_option n o = Ok o.
Proof. destruct o as [b|]; cbn; [|done]. intros E. unfold fixed_blob. by rewrite E. Qed.

Lemma decode_total db row : json_exact -> session_ok db row -> exists session, decode row = Ok session.
Proof.
  intros Hj Hok. destruct (ok_descriptor _ _ Hok) as (d & Hd & Hb & _).
  destruct (issued_bytes d Hd) as (bytes & digest & Hb' & Hf & _). rewrite Hb in Hb'. apply Ok_inj in Hb' as <-.
  pose proof (ok_constraints _ _ Hok) as Hc. unfold pairing_constraints in Hc. split_andb.
  unfold decode, fixed_blob. rewrite Hf. cbn [map_err].
  repeat match goal with H : _ = true |- _ => first [rewrite H|apply option_fixed in H; rewrite H] end.
  destruct (pairing_planned_grant_json row) as [text|] eqn:Ep; [|by eexists].
  destruct (ok_plan _ _ Hok text Ep) as (o & g & Ht & Hv & Hb' & Hj' & _).
  rewrite (json_floatless Hj o text Ht Hv ltac:(by rewrite Hb') Hj'). by eexists.
Qed.

End Lifecycle.
