(* ===== verification/PairingSessions.v ===== *)
(** * Pairing sessions: the theorems

    The outcome of every transition on a reachable table, the life of a session from its
    creation to its end, and what a completed session proves of the paired device. *)
From S2P Require Import Prelude Bytes Floats Crypto Content Cbor Trust TrustTheory DataModel CanonicalBody.
From S2P Require Import BodyTheory Envelope EnvelopeTheory Samples Authorization AuthorizationSamples Peer Pairing PairingSamples.
From S2P Require Import PairingTheory InvitationTheory Application Database Repository RepositoryQueries RepositoryLog.
From S2P Require Import RepositorySteps.
From S2P Require Import RepositorySamples PairingStore PairingStoreTheory.

#[local] Opaque OperationEnvelope.verify InvitationDescriptor.from_canonical_bytes JoinerClaim.verify_for
  JoinerClaim.digest InvitationDescriptor.digest InvitationDescriptor.canonical_bytes.

(** ** The rows a transition writes satisfy the CHECK conditions *)

(** Evaluates membership in closed lists. *)
Ltac eval_contains :=
  repeat match goal with
  | H : context [contains ?a ?b] |- _ =>
      let v := eval vm_compute in (contains a b) in change (contains a b) with v in H
  | |- context [contains ?a ?b] =>
      let v := eval vm_compute in (contains a b) in change (contains a b) with v
  end.

(** A row whose state is known, and the columns of another. *)
Ltac solve_constraints :=
  repeat match goal with |- _ && _ = true => apply andb_true_iff; split end;
  try assumption; try reflexivity.

Section Constraints.
Implicit Types row : PairingRow.

Lemma confirmed_constraints now row :
  pairing_constraints row = true -> pairing_state row = PairingLifecycle.Claimed ->
  pairing_constraints (confirmed now row) = true.
Proof.
  intros Hc E. destruct row. cbn in E. subst. unfold pairing_constraints, in_states in *. cbn in *.
  eval_contains. cbn in *. split_andb. solve_constraints.
Qed.

Lemma cancelled_constraints now row :
  pairing_constraints row = true ->
  pairing_state row = PairingLifecycle.Created \/ pairing_state row = PairingLifecycle.Claimed ->
  pairing_constraints (cancelled now row) = true.
Proof.
  intros Hc E. destruct row. cbn in E. destruct E; subst; unfold pairing_constraints, in_states in *; cbn in *;
  eval_contains; cbn in *; split_andb; solve_constraints.
Qed.

Lemma expired_constraints now row :
  pairing_constraints row = true ->
  pairing_state row = PairingLifecycle.Created \/ pairing_state row = PairingLifecycle.Claimed ->
  pairing_constraints (expired now row) = true.
Proof.
  intros Hc E. destruct row. cbn in E. destruct E; subst; unfold pairing_constraints, in_states in *; cbn in *;
  eval_contains; cbn in *; split_andb; solve_constraints.
Qed.

Lemma completed_constraints grant now row :
  pairing_constraints row = true -> pairing_state row = PairingLifecycle.Confirmed ->
  pairing_planned_grant_operation_id row = Some grant ->
  pairing_constraints (completed grant now row) = true.
Proof.
  intros Hc E Ep. destruct row. cbn in E, Ep. subst. unfold pairing_constraints, in_states in *. cbn in *.
  eval_contains. cbn in *. split_andb. solve_constraints. by apply bool_decide_eq_true.
Qed.
End Constraints.

(** ** Reachable tables are readable *)
Section Sessions.
Context `{Sha256} `{Ed25519} `{HalfFloat} `{Base64} `{!Noise} `{!JsonNumber} `{!JsonSize}
  `{!ProjectionJson}.
Implicit Types (db : Database) (row : PairingRow) (d : InvitationDescriptor.t).

(** What a statement on one id does: it changes the row it selects, which it returns,
    or it finds none. *)
Definition outcome db (r : result PairingStoreError.t PairingSession * Database) (id : list Z)
    (ready : Prop) (row' : PairingRow) : Prop :=
  (ready /\ exists session db', r = (Ok session, db') /\ decode row' = Ok session
     /\ pairing_sessions db' = update_rows (has_id id) (fun _ => row') (pairing_sessions db))
  \/ (~ ready /\ exists db', r = (Err PairingStoreError.Unavailable, db')
        /\ pairing_sessions db' = pairing_sessions db).

Lemma update_one (rows : list PairingRow) condition change row :
  NoDup (List.map pairing_invitation_id rows) -> row ∈ rows ->
  (forall r, condition r = true -> pairing_invitation_id r = pairing_invitation_id row) ->
  update_rows condition change rows
  = if condition row then update_rows (has_id (pairing_invitation_id row)) (fun _ => change row) rows else rows.
Proof.
  intros Hn Hin Hc. destruct (condition row) eqn:Er.
  - unfold update_rows. apply List.map_ext_in. intros r Hr. destruct (has_id _ r) eqn:Ei.
    + apply has_id_eq in Ei. apply list_elem_of_In in Hr.
      by rewrite (unique_row rows r row Hn Hr Hin Ei), Er.
    + destruct (condition r) eqn:Ec; [|done]. by rewrite (proj2 (has_id_eq _ _) (Hc r Ec)) in Ei.
  - unfold update_rows. rewrite <- (List.map_id rows) at 2. apply List.map_ext_in. intros r Hr.
    destruct (condition r) eqn:Ec; [|done]. apply list_elem_of_In in Hr.
    rewrite (unique_row rows r row Hn Hr Hin (Hc r Ec)) in Ec. congruence.
Qed.

Lemma query_updated (rows : list PairingRow) row row' :
  NoDup (List.map pairing_invitation_id rows) -> row ∈ rows ->
  pairing_invitation_id row' = pairing_invitation_id row ->
  query_row (has_id (pairing_invitation_id row))
    (update_rows (has_id (pairing_invitation_id row)) (fun _ => row') rows) = Some row'.
Proof.
  intros Hn Hin Hid. unfold query_row, update_rows. induction rows as [|a rows IH]; [by apply not_elem_of_nil in Hin|].
  cbn in *. destruct (has_id (pairing_invitation_id row) a) eqn:Ea.
  - by rewrite (proj2 (has_id_eq _ _) Hid).
  - rewrite Ea. apply NoDup_cons in Hn as [_ Hn]. apply elem_of_cons in Hin as [->|Hin]; [|by apply IH].
    by rewrite (proj2 (has_id_eq _ _) eq_refl) in Ea.
Qed.

Lemma transition_outcome db row condition change (ready : Prop) :
  json_exact -> pairings_ok db -> row ∈ pairing_sessions db -> write db condition change ->
  (forall r, condition r = true -> pairing_invitation_id r = pairing_invitation_id row) ->
  (condition row = true <-> ready) ->
  (ready -> pairing_constraints (change row) = true) ->
  outcome db (transition db (pairing_invitation_id row) (fun db => update_pairings db condition change))
    (pairing_invitation_id row) ready (change row).
Proof.
  intros Hj [Hn Hall] Hin Hw Hc Hready Hk. unfold transition.
  assert (Hu : update_pairings db condition change
    = Ok (Z.of_nat (length (select condition (pairing_sessions db))),
          with_pairings db (update_rows condition change (pairing_sessions db)))).
  { apply update_pairings_Ok. split; [|done]. apply Forall_forall. intros r Hr Er.
    pose proof (unique_row _ r row Hn Hr Hin (Hc r Er)) as ->. apply Hk, Hready, Er. }
  rewrite Hu, (select_one _ _ row Hn Hin Hc), (update_one _ _ _ row Hn Hin Hc).
  destruct (condition row) eqn:Er.
  - left. split; [by apply Hready|]. cbn [length Z.of_nat Pos.of_succ_nat Z.eqb Pos.eqb negb].
    pose proof (write_keeps_id _ _ _ row Hw) as Hid.
    destruct (decode_total (with_pairings db (pairing_sessions db)) (change row)) as [session Hs]; [done| |].
    { apply (write_session_ok db _ condition); try done; [by apply Hall|by apply Hk, Hready]. }
    exists session, (with_pairings db (update_rows (has_id (pairing_invitation_id row)) (fun _ => change row)
      (pairing_sessions db))). split; [|split; [exact Hs|reflexivity]]. f_equal.
    unfold require, load. cbn [pairing_sessions with_pairings].
    by rewrite query_updated, Hs by done.
  - right. split; [intros Hr%Hready; congruence|].
    exists (with_pairings db (pairing_sessions db)). split; [done|reflexivity].
Qed.

(** C36: on every table the requests reach, confirming, completing and cancelling a
    session are total and precise.  A claimed session with this handshake hash is
    confirmed; a confirmed session is completed when the grant is the planned one and the
    node stores it for the joiner in the session's space; a created or claimed session is
    cancelled; each returns the changed session, and no other session changes.  In every
    other state the answer is [Unavailable] and no session changes: a CHECK is never
    violated and the returned row always decodes. *)
Theorem pairing_transitions (db0 db : Database) (row : PairingRow) (hash grant : list Z) (now : Z) :
  json_exact -> pairing_sessions db0 = [] -> rtc request db0 db ->
  row ∈ pairing_sessions db -> 0 <= now ->
  let id := pairing_invitation_id row in
  outcome db (confirm_pairing_session db id hash now) id
    (pairing_state row = PairingLifecycle.Claimed /\ pairing_handshake_hash row = Some hash)
    (confirmed now row)
  /\ outcome db (complete_pairing_session db id grant now) id
       (pairing_state row = PairingLifecycle.Confirmed
        /\ pairing_planned_grant_operation_id row = Some grant
        /\ exists stored, stored ∈ capability_grants db /\ grant_space_id stored = pairing_space_id row
             /\ grant_operation_id stored = grant /\ pairing_subject_actor_id row = Some (grant_subject stored))
       (completed grant now row)
  /\ outcome db (cancel_pairing_session db id now) id
       (pairing_state row = PairingLifecycle.Created \/ pairing_state row = PairingLifecycle.Claimed)
       (cancelled now row).
Proof.
  intros Hj He Hr Hin Hnow id. destruct (requests_ok db0 db (empty_ok db0 He) Hr) as [Hok _].
  pose proof (ok_constraints _ _ (proj2 Hok row Hin)) as Hc.
  assert (Hid : has_id id row = true) by by apply has_id_eq.
  unfold confirm_pairing_session, complete_pairing_session, cancel_pairing_session.
  rewrite (proj2 (Z.ltb_ge _ _) Hnow). split; [|split]; (apply transition_outcome; [done|done|done|constructor| | |]).
  - intros r Hx. apply andb_true_iff in Hx as [Hx _]. apply andb_true_iff in Hx as [Hx _]. by apply has_id_eq.
  - unfold confirmable, eqb. rewrite !andb_true_iff, Hid, in_states_spec, list_elem_of_singleton, bool_decide_eq_true.
    tauto.
  - intros [? _]. by apply confirmed_constraints.
  - intros r Hx. do 3 apply andb_true_iff in Hx as [Hx _]. by apply has_id_eq.
  - unfold completable, eqb, grant_stored, exists_row.
    rewrite !andb_true_iff, Hid, in_states_spec, list_elem_of_singleton, bool_decide_eq_true, existsb_exists.
    assert (Hs : forall stored,
      list_eqb (grant_space_id stored) (pairing_space_id row) && list_eqb (grant_operation_id stored) grant
        && bool_decide (Some (grant_subject stored) = pairing_subject_actor_id row) = true
      <-> grant_space_id stored = pairing_space_id row /\ grant_operation_id stored = grant
          /\ pairing_subject_actor_id row = Some (grant_subject stored)).
    { intros stored. rewrite !andb_true_iff, !list_eqb_eq, bool_decide_eq_true. intuition congruence. }
    setoid_rewrite Hs. setoid_rewrite <- list_elem_of_In. tauto.
  - intros (? & ? & _). by apply completed_constraints.
  - intros r Hx. apply andb_true_iff in Hx as [Hx _]. by apply has_id_eq.
  - unfold cancellable. rewrite andb_true_iff, Hid, in_states_spec, elem_of_cons, list_elem_of_singleton. tauto.
  - intros. by apply cancelled_constraints.
Qed.

(** The life of a session.  Whatever the requests, a stored session keeps its row: its
    invitation never changes, its state only moves along the lifecycle graph, what a
    claim wrote (the joiner, the handshake, the frames, the deadline) and the planned
    grant are written once, a completed, cancelled or expired session keeps its outcome,
    and the time a device was last seen never goes back. *)
Theorem pairing_lifecycle (db0 db db' : Database) (i : nat) (row : PairingRow) :
  pairing_sessions db0 = [] -> rtc request db0 db -> rtc request db db' ->
  pairing_sessions db !! i = Some row ->
  exists row', pairing_sessions db' !! i = Some row' /\ row_evolves row row'.
Proof.
  intros He Hr0 Hr1 Hi. destruct (requests_ok db0 db (empty_ok db0 He) Hr0) as [Hok _].
  destruct (requests_ok db db' Hok Hr1) as [_ Hev]. by apply Hev.
Qed.

(** C35: what a completed session proves.  Its descriptor is the one that was issued; the
    joiner signed a claim for that descriptor with both keys, and the session records
    that claim's digest, node and actor; the completed grant is a verified operation of
    the session's space that grants to that actor; and the node stores the grant for
    that actor in that space. *)
Theorem completed_pairing_authentic (db0 db : Database) (row : PairingRow) :
  pairing_sessions db0 = [] -> rtc request db0 db ->
  row ∈ pairing_sessions db -> pairing_state row = PairingLifecycle.Completed ->
  exists d claim operation grant stored,
    issued d /\ InvitationDescriptor.canonical_bytes d = Ok (pairing_descriptor_cbor row)
    /\ JoinerClaim.verify_for claim d = Some (Ok tt)
    /\ pairing_claim_digest row = JoinerClaim.digest claim
    /\ pairing_joiner_node_id row = Some (JoinerClaim.joiner_node_id claim)
    /\ pairing_subject_actor_id row = Some (JoinerClaim.subject_actor_id claim)
    /\ OperationEnvelope.verify operation = Ok tt
    /\ OperationEnvelope.body operation = OperationBody.CapabilityGrant grant
    /\ OperationEnvelope.space_id operation = InvitationDescriptor.space_id d
    /\ CapabilityGrant.subject grant = JoinerClaim.subject_actor_id claim
    /\ pairing_grant_operation_id row = Some (OperationEnvelope.operation_id operation)
    /\ stored ∈ capability_grants db /\ grant_space_id stored = InvitationDescriptor.space_id d
    /\ grant_operation_id stored = OperationEnvelope.operation_id operation
    /\ grant_subject stored = JoinerClaim.subject_actor_id claim.
Proof.
  intros He Hr Hin Hs. destruct (requests_ok db0 db (empty_ok db0 He) Hr) as [[_ Hall] _].
  pose proof (Hall row Hin) as Hok. pose proof (constraints_state _ (ok_constraints _ _ Hok)) as Hc.
  destruct (ok_claim _ _ Hok) as (d & claim & Hf & _ & Hv & Hd & Hj & Ha); [apply (rc_claim _ Hc); auto|].
  destruct (session_descriptor db row d Hok Hf) as (Hi & Hb & Hsp).
  destruct (pairing_grant_operation_id row) as [g|] eqn:Eg; [|by apply (rc_grant _ Hc) in Hs].
  destruct (ok_grant _ _ Hok g Eg) as [Hp (stored & Hst & Hm)%existsb_exists].
  destruct (pairing_planned_grant_json row) as [text|] eqn:Et.
  2:{ exfalso. assert (Hx : pairing_planned_grant_operation_id row <> None) by by rewrite Hp.
      by apply (rc_plan _ Hc) in Hx. }
  destruct (ok_plan _ _ Hok text Et) as (operation & grant & _ & Hvo & Hb' & _ & Hid & Hso & Hsub).
  exists d, claim, operation, grant, stored. unfold eqb in Hm. bool_prop. rewrite list_eqb_eq in *.
  do 6 (split; [done|]). split; [done|]. split; [done|]. split; [congruence|]. split; [congruence|].
  split; [congruence|]. split; [by apply list_elem_of_In|]. split; [congruence|]. split; congruence.
Qed.

(** A successful claim leaves a row that is no longer created. *)
Lemma claim_Ok db d claim hash token first response receipt now session db' :
  pairings_ok db ->
  claim_pairing_session db d claim hash token first response receipt now = Some (Ok session, db') ->
  (exists row, row ∈ pairing_sessions db /\ is_created (InvitationDescriptor.invitation_id d) row = true)
  /\ exists i row', pairing_sessions db' !! i = Some row'
     /\ pairing_invitation_id row' = InvitationDescriptor.invitation_id d
     /\ pairing_state row' = PairingLifecycle.Claimed /\ pairing_handshake_hash row' = Some hash
     /\ InvitationDescriptor.from_canonical_bytes (pairing_descriptor_cbor row') = Ok d.
Proof.
  intros [Hn _]. unfold claim_pairing_session.
  destruct (JoinerClaim.verify_for claim d) as [[[]|]|]; [|done|done].
  destruct (invalid_claim _ _ _ _ _); [done|]. destruct (require db _ _) as [current|] eqn:Er; [|done].
  unfold eqb at 1. destruct (bool_decide (descriptor current = d)) eqn:Ed; cbn [negb]; [|done].
  apply bool_decide_eq_true in Ed. destruct (_ <=? now).
  { unfold expire_claimed. destruct (eqb _ _); [|done]. by destruct (update_pairings _ _ _) as [[? ?]|]. }
  destruct (JoinerClaim.digest claim) as [digest|]; [|done]. unfold commit_claim.
  destruct (update_pairings _ _ _) as [[n after]|] eqn:Eu; [|done].
  apply update_pairings_Ok in Eu as (_ & -> & ->).
  destruct (Z.eqb_spec (Z.of_nat (length (select (is_created (InvitationDescriptor.invitation_id d))
    (pairing_sessions db)))) 1) as [E1|]; cbn [negb]; [|done].
  destruct (require (with_pairings _ _) _ _); [|done]. intros [= _ <-].
  destruct (select _ _) as [|row rest] eqn:Es; [done|].
  assert (Hrow : row ∈ select (is_created (InvitationDescriptor.invitation_id d)) (pairing_sessions db))
    by (rewrite Es; left).
  unfold select in Hrow. apply list_elem_of_In, filter_In in Hrow as [Hin Hcr]. apply list_elem_of_In in Hin.
  split; [by exists row|]. pose proof Hin as Hrow. apply list_elem_of_lookup in Hin as [i Hi]. exists i.
  eexists. cbn [pairing_sessions with_pairings]. split; [by apply update_lookup|]. rewrite Hcr. cbn.
  apply andb_true_iff in Hcr as [Hid _]. split; [by apply has_id_eq in Hid|]. split; [done|]. split; [done|].
  apply require_Ok in Er as (row0 & Hq & Hdec). rewrite (loaded_rows db _ row0 Hn Hq row Hrow Hid).
  apply decode_Ok in Hdec as (_ & _ & -> & _). by rewrite Ed.
Qed.

(** *** Deletion *)
Lemma deleted_sessions db space_id out db' :
  pairings_ok db -> RepositoryQueries.delete_space db space_id = (out, db') ->
  pairings_ok db' /\ (forall row, row ∈ pairing_sessions db' -> row ∈ pairing_sessions db)
  /\ forall row, row ∈ pairing_sessions db -> pairing_space_id row <> space_id -> row ∈ pairing_sessions db'.
Proof.
  intros [Hn Hall] [(u & Hd & _)|(e & _ & _ & ->)]%commit_cases; [|done].
  apply delete_transaction_Ok in Hd as (_ & _ & _ & _ & _ & _ & Hg & _ & _ & Hs).
  assert (Hin : forall row, row ∈ pairing_sessions db' <-> row ∈ pairing_sessions db /\ pairing_space_id row <> space_id).
  { intros row. by rewrite Hs, elem_of_delete_rows, list_eqb_neq. }
  split; [split|split; [by intros row [? _]%Hin|intros row ? ?; by apply Hin]].
  - unfold ids. rewrite Hs. apply (sublist_NoDup _ (ids db)); [done|]. by apply (fmap_sublist _ _ _), delete_rows_sublist.
  - intros row [Hr Hne]%Hin. destruct (Hall row Hr) as [Hc Hd Hcl Hj Hp Hgr]. constructor; try done.
    intros grant (Hx & (g & Hg1 & Hm)%existsb_exists)%Hgr. split; [done|]. apply existsb_exists.
    exists g. split; [|done]. apply list_elem_of_In. rewrite Hg, elem_of_delete_rows. split; [by apply list_elem_of_In|].
    bool_prop. rewrite list_eqb_eq in *. apply list_eqb_neq. congruence.
Qed.

(** A request, or the deletion of a workspace other than the spared one. *)
Inductive sparing (spared : option (list Z)) db db' : Prop :=
| sparing_request : request db db' -> sparing spared db db'
| sparing_delete space out :
    spared <> Some space -> RepositoryQueries.delete_space db space = (out, db') -> sparing spared db db'.

Lemma sparing_ok spared db db' : pairings_ok db -> rtc (sparing spared) db db' -> pairings_ok db'.
Proof.
  intros Hok Hr. induction Hr as [db|db db1 db' [Hq|space out _ Hd] _ IH]; [done| |]; apply IH.
  - by apply (request_ok db).
  - by apply (deleted_sessions db space out).
Qed.

(** A session of the spared workspace is still there, further along. *)
Lemma sparing_evolves space db db' row :
  pairings_ok db -> rtc (sparing (Some space)) db db' -> row ∈ pairing_sessions db -> pairing_space_id row = space ->
  exists row', row' ∈ pairing_sessions db' /\ row_evolves row row'.
Proof.
  intros Hok Hr. revert row. induction Hr as [db|db db1 db' Hs Hr IH]; intros row Hin Hsp; [by exists row|].
  assert (Hok1 : pairings_ok db1) by (by apply (sparing_ok (Some space) db), rtc_once).
  destruct Hs as [Hq|other out Hne Hd].
  - apply list_elem_of_lookup in Hin as [i Hi]. destruct (proj2 (request_ok _ _ Hok Hq) i row Hi) as (row1 & Hi1 & He1).
    pose proof (evolves_identity _ _ He1) as E. injection E as _ _ _ E _ _.
    destruct (IH Hok1 row1) as (row' & Hin' & He'); [by apply (list_elem_of_lookup_2 _ i)|congruence|].
    exists row'. split; [done|]. by etrans.
  - apply IH; [done| |done]. apply (deleted_sessions db other out db1 Hok Hd); [done|congruence].
Qed.

(** C37: one claim wins.  After a claim has succeeded, whatever pairing requests, requests
    to the other repositories and deletions of other workspaces come between, no claim of
    that invitation succeeds again, and a confirmation succeeds only for the handshake of
    the winning claim.  Only the deletion of the invitation's own workspace, which
    deletes the session, can make room for another. *)
Theorem one_claim_wins (db0 db db1 db2 : Database) (d d' : InvitationDescriptor.t) (claim claim' : JoinerClaim.t)
    (hash token first response receipt hash' token' first' response' receipt' : list Z) (now now' : Z)
    (session : PairingSession) :
  pairing_sessions db0 = [] -> rtc (sparing None) db0 db -> claim_typed claim ->
  claim_pairing_session db d claim hash token first response receipt now = Some (Ok session, db1) ->
  rtc (sparing (Some (InvitationDescriptor.space_id d))) db1 db2 ->
  InvitationDescriptor.invitation_id d' = InvitationDescriptor.invitation_id d ->
  (forall session' db3, claim_pairing_session db2 d' claim' hash' token' first' response' receipt' now'
     <> Some (Ok session', db3))
  /\ (forall session' db3, confirm_pairing_session db2 (InvitationDescriptor.invitation_id d) hash' now'
         = (Ok session', db3) -> hash' = hash).
Proof.
  intros He Hr0 Hty Hc Hr1 Hid. pose proof (sparing_ok None db0 db (empty_ok db0 He) Hr0) as Hok.
  pose proof (claim_Ok _ _ _ _ _ _ _ _ _ _ _ Hok Hc) as [_ (i & row1 & Hi & Eid & Hst & Hh & Hf)].
  destruct (request_ok db db1 Hok (request_claim _ _ _ _ _ _ _ _ _ _ _ Hty Hc)) as [Hok1 _].
  pose proof (sparing_ok _ db1 db2 Hok1 Hr1) as Hok2. apply list_elem_of_lookup_2 in Hi.
  destruct (session_descriptor db1 row1 d (proj2 Hok1 row1 Hi) Hf) as (_ & _ & Hsp).
  destruct (sparing_evolves _ db1 db2 row1 Hok1 Hr1 Hi ltac:(done)) as (row2 & Hi2 & He2).
  assert (Eid2 : pairing_invitation_id row2 = InvitationDescriptor.invitation_id d).
  { rewrite <- Eid. pose proof (evolves_identity _ _ He2) as E. by injection E. }
  split.
  - intros session' db3 Hc2. pose proof (claim_Ok _ _ _ _ _ _ _ _ _ _ _ Hok2 Hc2) as [(row & Hin & Hcr) _].
    apply andb_true_iff in Hcr as [Hx Hcr]. apply has_id_eq in Hx.
    assert (row = row2) as -> by (apply (unique_row (pairing_sessions db2)); [apply Hok2|done|done|congruence]).
    apply in_states_spec, list_elem_of_singleton in Hcr.
    pose proof (path_created _ _ (evolves_state _ _ He2) Hcr). congruence.
  - intros session' db3 Hcf. unfold confirm_pairing_session in Hcf. destruct (now' <? 0); [done|].
    unfold transition in Hcf. destruct (update_pairings _ _ _) as [[n after]|] eqn:Eu; [|done].
    destruct (Z.eqb_spec n 1) as [->|]; [|done]. apply update_pairings_Ok in Eu as (_ & En & _).
    destruct (select _ _) as [|row rest] eqn:Es; [done|].
    assert (Hrow : row ∈ select (confirmable (InvitationDescriptor.invitation_id d) hash') (pairing_sessions db2))
      by (rewrite Es; left).
    apply list_elem_of_In, filter_In in Hrow as [Hin Hcr]. apply list_elem_of_In in Hin.
    apply andb_true_iff in Hcr as [Hx Hh2%bool_decide_eq_true]. apply andb_true_iff in Hx as [Hx _].
    apply has_id_eq in Hx.
    assert (row = row2) as -> by (apply (unique_row (pairing_sessions db2)); [apply Hok2|done|done|congruence]).
    assert (E : pairing_handshake_hash row2 = pairing_handshake_hash row1).
    { pose proof (evolves_claim _ _ He2 ltac:(by rewrite Hst)) as E. by injection E. }
    congruence.
Qed.
End Sessions.

(** ** A device pairs *)
#[local] Transparent OperationEnvelope.verify InvitationDescriptor.from_canonical_bytes JoinerClaim.verify_for
  JoinerClaim.digest InvitationDescriptor.digest InvitationDescriptor.canonical_bytes.

Definition paired_claim : JoinerClaim.t :=
  Eval vm_compute in default (JoinerClaim.mk [] [] [] [] [] [] [] [] [] [])
    (JoinerClaim.sign sample_descriptor joiner_seed device_seed sample_nonce).
Definition paired_at : Z := 1784265600000.
Definition paired_id : list Z := InvitationDescriptor.invitation_id sample_descriptor.
Definition paired_hash : list Z := replicate 32 13.

(** The database after each request. *)
Definition after_create : Database :=
  Eval vm_compute in match create_pairing_session bootstrapped sample_descriptor paired_at with
                     | Some (_, db) => db | None => fresh_database end.
Definition after_claim : Database :=
  Eval vm_compute in match claim_pairing_session after_create sample_descriptor paired_claim paired_hash
                       (replicate 32 14) (replicate 32 15) [16] [17] (paired_at + 1) with
                     | Some (_, db) => db | None => fresh_database end.
Definition after_plan : Database :=
  Eval vm_compute in snd (plan_pairing_grant after_claim paired_id writer_operation (paired_at + 2)).
Definition after_confirm : Database :=
  Eval vm_compute in snd (confirm_pairing_session after_plan paired_id paired_hash (paired_at + 3)).
Definition after_complete : Database :=
  Eval vm_compute in snd (complete_pairing_session after_confirm paired_id (fst writer_bytes) (paired_at + 4)).

Lemma sample_issued_descriptor : issued sample_descriptor.
Proof. split; [apply sample_descriptor_typed|by_vm|apply sample_descriptor_valid]. Qed.

Lemma bootstrapped_sessions : pairing_sessions bootstrapped = [].
Proof. by_vm. Qed.

(** Reads a request's database off an evaluation. *)
Lemma created_request db d now db' :
  issued d -> option_map snd (create_pairing_session db d now) = Some db' -> request db db'.
Proof.
  intros Hd. destruct (create_pairing_session db d now) as [[out after]|] eqn:Ec; [|done].
  intros [= <-]. exact (request_create _ _ _ _ _ Hd Ec).
Qed.
Lemma claimed_request (r : option (result PairingStoreError.t PairingSession * Database)) db :
  option_map (fun p => (is_ok (fst p), snd p)) r = Some (true, db) ->
  exists session, r = Some (Ok session, db).
Proof. destruct r as [[[session|] after]|]; cbn; [|done|done]. intros [= <-]. by exists session. Qed.

Lemma request_created : request bootstrapped after_create.
Proof. apply (created_request _ _ paired_at _ sample_issued_descriptor). by_vm. Qed.

Lemma paired_claim_typed : claim_typed paired_claim.
Proof. constructor; apply (bool_decide_eq_true_1 _); by_vm. Qed.

Lemma claim_succeeds : exists session,
  claim_pairing_session after_create sample_descriptor paired_claim paired_hash (replicate 32 14) (replicate 32 15)
    [16] [17] (paired_at + 1) = Some (Ok session, after_claim).
Proof. apply claimed_request. by_vm. Qed.

Lemma request_planned : request after_claim after_plan.
Proof.
  refine (eq_ind _ (request after_claim) (request_plan _ _ paired_id writer_operation (paired_at + 2) _ writer_typed
    (surjective_pairing _)) after_plan _). by_vm.
Qed.
Lemma request_confirmed : request after_plan after_confirm.
Proof.
  refine (eq_ind _ (request after_plan) (request_confirm _ _ paired_id paired_hash (paired_at + 3) _
    (surjective_pairing _)) after_confirm _). by_vm.
Qed.
Lemma request_completed : request after_confirm after_complete.
Proof.
  refine (eq_ind _ (request after_confirm) (request_complete _ _ paired_id (fst writer_bytes) (paired_at + 4) _
    (surjective_pairing _)) after_complete _). by_vm.
Qed.

Lemma requests_after_claim : rtc request after_claim after_complete.
Proof. eauto using rtc_l, rtc_once, request_planned, request_confirmed, request_completed. Qed.

Lemma requests_until_claim : rtc request bootstrapped after_claim.
Proof.
  apply rtc_l with after_create; [apply request_created|apply rtc_once].
  destruct claim_succeeds as [session Hc]. exact (request_claim _ _ _ _ _ _ _ _ _ _ _ paired_claim_typed Hc).
Qed.

Definition claimed_row : PairingRow :=
  Eval vm_compute in List.hd (created_row sample_descriptor [] [] 0) (pairing_sessions after_claim).
Definition completed_row : PairingRow :=
  Eval vm_compute in List.hd (created_row sample_descriptor [] [] 0) (pairing_sessions after_complete).

Lemma pairing_transitions_witness :
  outcome after_claim (confirm_pairing_session after_claim (pairing_invitation_id claimed_row) paired_hash
    (paired_at + 3)) (pairing_invitation_id claimed_row)
    (pairing_state claimed_row = PairingLifecycle.Claimed /\ pairing_handshake_hash claimed_row = Some paired_hash)
    (confirmed (paired_at + 3) claimed_row).
Proof.
  refine (proj1 (pairing_transitions bootstrapped after_claim claimed_row paired_hash (fst writer_bytes)
    (paired_at + 3) toy_exact bootstrapped_sessions requests_until_claim _ _)).
  - left.
  - vm_compute. discriminate.
Defined.

Lemma pairing_lifecycle_witness :
  exists row', pairing_sessions after_complete !! 0%nat = Some row' /\ row_evolves claimed_row row'.
Proof.
  exact (pairing_lifecycle bootstrapped after_claim after_complete 0 claimed_row bootstrapped_sessions
    requests_until_claim requests_after_claim eq_refl).
Defined.

Lemma completed_pairing_authentic_witness :
  pairing_state completed_row = PairingLifecycle.Completed
  /\ exists claim, pairing_subject_actor_id completed_row = Some (JoinerClaim.subject_actor_id claim)
       /\ exists d, JoinerClaim.verify_for claim d = Some (Ok tt).
Proof.
  split; [reflexivity|].
  destruct (completed_pairing_authentic bootstrapped after_complete completed_row bootstrapped_sessions
    (transitivity requests_until_claim requests_after_claim) ltac:(left) eq_refl)
    as (d & claim & _ & _ & _ & _ & _ & Hv & _ & _ & Hs & _).
  exists claim. split; [exact Hs|]. exists d. exact Hv.
Defined.

Lemma one_claim_wins_witness :
  pairing_sessions after_claim <> pairing_sessions after_create
  /\ forall session' db3, confirm_pairing_session after_plan paired_id (replicate 32 12) (paired_at + 3)
    = (Ok session', db3) -> replicate 32 12 = paired_hash.
Proof.
  split; [vm_compute; discriminate|]. destruct claim_succeeds as [session Hc].
  exact (proj2 (one_claim_wins bootstrapped after_create after_claim after_plan sample_descriptor sample_descriptor
    paired_claim paired_claim paired_hash (replicate 32 14) (replicate 32 15) [16] [17] (replicate 32 12)
    (replicate 32 14) (replicate 32 15) [16] [17] (paired_at + 1) (paired_at + 3) session bootstrapped_sessions
    (rtc_once _ _ (sparing_request None _ _ request_created)) paired_claim_typed Hc
    (rtc_once _ _ (sparing_request _ _ _ request_planned)) eq_refl)).
Defined.
