(* ===== verification/SpaceBootstrap.v ===== *)
(** * Identities and the construction of a space
    (crates/fractonica-keystore/src/lib.rs, crates/fractonica-space-bootstrap/src/lib.rs)

    The three keys of an installation and the two signed operations that open a space.
    A signing key is its seed.  [BootstrapMaterialSource] is a trait of the source and a
    class here: a source keeps the state a call leaves.  [Entropy] is what the operating
    system returns to successive calls; an entry of another size, or none, is a failed
    call.  [Uuid7] is the UUIDv7 layout of the [uuid] crate. *)
From S2P Require Import Prelude Bytes Floats Crypto Content Cbor CborProps Trust TrustTheory DataModel CanonicalBody.
From S2P Require Import BodyTheory Envelope EnvelopeTheory Samples Authorization AuthorizationSamples Peer.
From S2P Require Import Application Database Repository RepositoryLog.

(** ** Identities *)
Module KeyRole.
Inductive t : Type := NodeTransport | SpaceController | LocalWriter.
End KeyRole.

Inductive IdentityError : Type :=
| KeyCollision (first second : KeyRole.t)
| ZeroSpaceId.

Record IdentityBundle : Type := mkIdentity {
  node_transport_key : list Z;
  space_controller_key : list Z;
  local_writer_key : list Z;
  identity_space_id : list Z
}.

Section Identity.
Context `{Ed25519}.

(** The pairs [(left, right)] with [left < right] in the order of the loops. *)
Fixpoint key_collision (keys : list (KeyRole.t * list Z)) : option IdentityError :=
  match keys with
  | [] => None
  | (role, key) :: rest =>
      match List.find (fun other => list_eqb key (snd other)) rest with
      | Some (other, _) => Some (KeyCollision role other)
      | None => key_collision rest
      end
  end.

Definition from_keys (node_transport space_controller local_writer space_id : list Z) :
    result IdentityError IdentityBundle :=
  match key_collision [(KeyRole.NodeTransport, signing_identity node_transport);
                       (KeyRole.SpaceController, signing_identity space_controller);
                       (KeyRole.LocalWriter, signing_identity local_writer)] with
  | Some e => Err e
  | None =>
      if list_eqb space_id (replicate 32 0) then Err ZeroSpaceId
      else Ok (mkIdentity node_transport space_controller local_writer space_id)
  end.

Definition identity_node_id (i : IdentityBundle) : list Z := signing_identity (node_transport_key i).
Definition space_controller_actor_id (i : IdentityBundle) : list Z :=
  signing_identity (space_controller_key i).
Definition identity_writer_actor_id (i : IdentityBundle) : list Z := signing_identity (local_writer_key i).

(** Keys with distinct public halves and a space that is not zero. *)
Definition identity_ok (i : IdentityBundle) : Prop :=
  identity_node_id i <> space_controller_actor_id i /\ identity_node_id i <> identity_writer_actor_id i
  /\ space_controller_actor_id i <> identity_writer_actor_id i
  /\ identity_space_id i <> replicate 32 0.

Lemma from_keys_Ok node controller writer space i :
  from_keys node controller writer space = Ok i <->
  i = mkIdentity node controller writer space /\ identity_ok i.
Proof.
  unfold from_keys, identity_ok, identity_node_id, space_controller_actor_id, identity_writer_actor_id. cbn.
  destruct (list_eqb _ (signing_identity controller)) eqn:E1;
    [|destruct (list_eqb _ (signing_identity writer)) eqn:E2;
      [|destruct (list_eqb (signing_identity controller) _) eqn:E3;
        [|destruct (list_eqb space _) eqn:E4]]];
    repeat match goal with
    | H : list_eqb _ _ = true |- _ => apply list_eqb_eq in H
    | H : list_eqb _ _ = false |- _ => apply not_true_iff_false in H; rewrite list_eqb_eq in H
    end;
    (split; [intros Hx; first [discriminate Hx|apply Ok_inj in Hx as <-; cbn; tauto]|]);
    intros (-> & ? & ? & ? & ?); cbn in *; first [done|congruence].
Qed.
End Identity.

(** ** Material *)
Inductive BootstrapSourceError : Type := OsRandom | SourceUnavailable.

Inductive BootstrapBuildError : Type :=
| InvalidDisplayName (characters maximum : Z)
| InvalidTrustedTime (found maximum : Z)
| EntityIdCollisionExhausted
| NonceCollisionExhausted
| SourceError (e : BootstrapSourceError)
| BuildDataModel (e : DataModelError).

(** The laws are the types [EntityId] and [OperationNonce] of the results. *)
Class BootstrapMaterialSource (S : Type) := {
  next_entity_id : S -> Z -> result BootstrapSourceError (list Z) * S;
  next_nonce : S -> result BootstrapSourceError (list Z) * S;
  next_entity_id_fixed : forall s ms id s', next_entity_id s ms = (Ok id, s') -> fixed 16 id;
  next_nonce_fixed : forall s nonce s', next_nonce s = (Ok nonce, s') -> fixed 16 nonce
}.

(** [getrandom::fill] of a buffer of [n] bytes. *)
Definition Entropy : Type := list (list Z).
Definition fill (n : nat) (e : Entropy) : option (list Z) * Entropy :=
  match e with
  | bytes :: rest => (if bool_decide (fixed n bytes) then Some bytes else None, rest)
  | [] => (None, [])
  end.

(** [uuid::Builder::from_unix_timestamp_millis(..).into_uuid()]. *)
Class Uuid7 := {
  uuid_v7 : Z -> list Z -> list Z;
  uuid_v7_fixed : forall ms random, fixed 16 (uuid_v7 ms random)
}.

Lemma fill_fixed n e bytes e' : fill n e = (Some bytes, e') -> fixed n bytes.
Proof. destruct e as [|b rest]; cbn; [done|]. case_bool_decide; [by intros [= <- _]|done]. Qed.

#[export, program] Instance os_source `{Uuid7} : BootstrapMaterialSource Entropy := {|
  next_entity_id := fun e ms =>
    match fill 10 e with
    | (Some random, e) => (Ok (uuid_v7 ms random), e)
    | (None, e) => (Err OsRandom, e)
    end;
  next_nonce := fun e =>
    match fill 16 e with
    | (Some random, e) => (Ok random, e)
    | (None, e) => (Err OsRandom, e)
    end
|}.
Next Obligation.
  intros ? s ms id s'. cbn. destruct (fill 10 s) as [[random|] e]; [|done]. intros [= <- _]. apply uuid_v7_fixed.
Qed.
Next Obligation.
  intros ? s nonce s'. cbn. destruct (fill 16 s) as [[random|] e] eqn:E; [|done]. intros [= <- _].
  by apply (fill_fixed 16 s _ e).
Qed.

(** ** Construction *)
Definition MAX_BOOTSTRAP_COLLISION_ATTEMPTS : nat := 16.
Definition MAX_UUID_V7_UNIX_MS : Z := 2 ^ 48 - 1.
Definition INITIAL_WRITER_GRANT_LABEL : list Z := str "Initial local writer".

Definition validate_display_name (display_name : list Z) : result BootstrapBuildError unit :=
  let characters := count_chars display_name in
  if (characters =? 0) || (MAX_SPACE_DISPLAY_NAME_CHARS <? characters)
     || existsb is_control (chars display_name)
  then Err (InvalidDisplayName characters MAX_SPACE_DISPLAY_NAME_CHARS) else Ok tt.

Definition validate_trusted_time (value : Z) : result BootstrapBuildError Z :=
  if negb ((0 <=? value) && (value <=? MAX_UUID_V7_UNIX_MS))
  then Err (InvalidTrustedTime value MAX_UUID_V7_UNIX_MS) else Ok value.

Section Build.
Context `{Sha256} `{Ed25519} `{HalfFloat} `{Base64} `{!JsonNumber} `{!JsonSize}.
Context {S : Type} `{!BootstrapMaterialSource S}.

(** A bounded retry: the first accepted candidate of at most [attempts]. *)
Fixpoint retry (attempts : nat) (draw : S -> result BootstrapSourceError (list Z) * S)
    (accept : list Z -> bool) (exhausted : BootstrapBuildError) (source : S) :
    result BootstrapBuildError (list Z) * S :=
  match attempts with
  | O => (Err exhausted, source)
  | Datatypes.S attempts =>
      match draw source with
      | (Err e, source) => (Err (SourceError e), source)
      | (Ok candidate, source) =>
          if accept candidate then (Ok candidate, source) else retry attempts draw accept exhausted source
      end
  end.

Definition next_distinct_entity_id (source : S) (trusted_unix_ms : Z) (excluded : list (list Z)) :
    result BootstrapBuildError (list Z) * S :=
  retry MAX_BOOTSTRAP_COLLISION_ATTEMPTS (fun source => next_entity_id source trusted_unix_ms)
    (fun candidate => negb (is_all_zero candidate) && negb (contains candidate excluded))
    EntityIdCollisionExhausted source.

Definition next_distinct_nonce (source : S) (first : list Z) : result BootstrapBuildError (list Z) * S :=
  retry MAX_BOOTSTRAP_COLLISION_ATTEMPTS next_nonce (fun candidate => negb (list_eqb candidate first))
    NonceCollisionExhausted source.

Definition initial_writer_grant (i : IdentityBundle) : CapabilityGrant.t :=
  CapabilityGrant.mk (identity_writer_actor_id i)
    [CapabilityAction.AppendOperation; CapabilityAction.ReadSpace; CapabilityAction.WriteContent;
     CapabilityAction.LinkWorkspace]
    [EntitySchema.Event; EntitySchema.Profile; EntitySchema.Record_; EntitySchema.Tag]
    [Visibility.Public; Visibility.Private] [str "record.media"] (Some 1073741824) None None 0
    INITIAL_WRITER_GRANT_LABEL.

(** The two signatures, once the material is drawn. *)
Definition sign_anchor (i : IdentityBundle) (space_id display_name : list Z) (now : Z)
    (genesis_entity_id grant_entity_id genesis_nonce initial_grant_nonce : list Z) :
    result BootstrapBuildError TrustedSpaceBootstrapRequest :=
  let? genesis := map_err BuildDataModel
    (OperationEnvelope.sign space_id genesis_entity_id EntitySchema.SpaceGenesis [] [] now genesis_nonce
       (OperationBody.SpaceGenesis (space_controller_actor_id i)) (space_controller_key i)) in
  let? initial_grant := map_err BuildDataModel
    (OperationEnvelope.sign space_id grant_entity_id EntitySchema.CapabilityGrant []
       [OperationEnvelope.operation_id genesis] now initial_grant_nonce
       (OperationBody.CapabilityGrant (initial_writer_grant i)) (space_controller_key i)) in
  Ok (mkBootstrap display_name genesis initial_grant now).

Definition build_trusted_space_bootstrap_for_space_with_source (i : IdentityBundle)
    (space_id display_name : list Z) (now : Z) (source : S) :
    result BootstrapBuildError TrustedSpaceBootstrapRequest * S :=
  match validate_display_name display_name with
  | Err e => (Err e, source)
  | Ok _ =>
  match validate_trusted_time now with
  | Err e => (Err e, source)
  | Ok trusted =>
  match next_distinct_entity_id source trusted [] with
  | (Err e, source) => (Err e, source)
  | (Ok genesis_entity_id, source) =>
  match next_distinct_entity_id source trusted [genesis_entity_id] with
  | (Err e, source) => (Err e, source)
  | (Ok grant_entity_id, source) =>
  match next_nonce source with
  | (Err e, source) => (Err (SourceError e), source)
  | (Ok genesis_nonce, source) =>
  match next_distinct_nonce source genesis_nonce with
  | (Err e, source) => (Err e, source)
  | (Ok initial_grant_nonce, source) =>
      (sign_anchor i space_id display_name now genesis_entity_id grant_entity_id genesis_nonce
         initial_grant_nonce, source)
  end end end end end end.

Definition build_trusted_space_bootstrap_with_source (i : IdentityBundle) (display_name : list Z)
    (now : Z) (source : S) : result BootstrapBuildError TrustedSpaceBootstrapRequest * S :=
  build_trusted_space_bootstrap_for_space_with_source i (identity_space_id i) display_name now source.
End Build.

(** The same with the operating system's source. *)
Section Os.
Context `{Sha256} `{Ed25519} `{HalfFloat} `{Base64} `{!JsonNumber} `{!JsonSize} `{!Uuid7}.

Definition build_trusted_space_bootstrap_for_space (i : IdentityBundle) (space_id display_name : list Z)
    (now : Z) (e : Entropy) : result BootstrapBuildError TrustedSpaceBootstrapRequest * Entropy :=
  build_trusted_space_bootstrap_for_space_with_source i space_id display_name now e.
Definition build_trusted_space_bootstrap (i : IdentityBundle) (display_name : list Z) (now : Z)
    (e : Entropy) : result BootstrapBuildError TrustedSpaceBootstrapRequest * Entropy :=
  build_trusted_space_bootstrap_for_space i (identity_space_id i) display_name now e.
End Os.

(** ** The built request *)
#[local] Opaque OperationEnvelope.verify OperationEnvelope.sign.

Section Theorems.
Context `{Sha256} `{Ed25519} `{HalfFloat} `{Base64} `{!JsonNumber} `{!JsonSize}.
Context {S : Type} `{!BootstrapMaterialSource S}.

(** A retry returns a candidate it drew and accepted. *)
Lemma retry_Ok attempts draw accept exhausted : forall (source : S) candidate source',
  retry attempts draw accept exhausted source = (Ok candidate, source') ->
  accept candidate = true /\ exists before, draw before = (Ok candidate, source').
Proof.
  induction attempts as [|attempts IH]; intros source candidate source' Hr; [done|]. cbn in Hr.
  destruct (draw source) as [[drawn|] next] eqn:Ed; [|done]. destruct (accept drawn) eqn:Ea; [|by eapply IH].
  injection Hr as <- <-. split; [done|]. by exists source.
Qed.

Lemma next_distinct_entity_id_Ok source ms excluded id source' :
  next_distinct_entity_id source ms excluded = (Ok id, source') ->
  fixed 16 id /\ is_all_zero id = false /\ id ∉ excluded.
Proof.
  intros [Ha [before Hd]]%retry_Ok. split; [by eapply next_entity_id_fixed|].
  apply andb_true_iff in Ha as [Hz Hx]. split; [by apply negb_true_iff|].
  apply negb_true_iff in Hx. by apply bool_decide_eq_false in Hx.
Qed.

Lemma next_distinct_nonce_Ok source first nonce source' :
  next_distinct_nonce source first = (Ok nonce, source') -> fixed 16 nonce /\ nonce <> first.
Proof.
  intros [Ha [before Hd]]%retry_Ok. split; [by eapply next_nonce_fixed|].
  intros ->. by rewrite (proj2 (list_eqb_eq _ _) eq_refl) in Ha.
Qed.

Lemma display_name_label name :
  validate_display_name name = Ok tt <-> is_label MAX_SPACE_DISPLAY_NAME_CHARS name = true.
Proof. unfold validate_display_name, is_label. destruct (_ || _ || _); by split. Qed.

Lemma sort_single (x : list Z) : sort_bytes [x] = [x].
Proof. reflexivity. Qed.

Lemma writer_grant_typed i : grant_typed (initial_writer_grant i).
Proof.
  unfold grant_typed, initial_writer_grant, in_u. cbn -[INITIAL_WRITER_GRANT_LABEL str fixed utf8 Z.pow].
  split; [apply verifying_key_fixed|]. split; [constructor; [by apply text_typed|constructor]|].
  split; [lia|]. do 3 (split; [done || lia|]). by apply text_typed.
Qed.

(** The built request as a value. *)
Record built (i : IdentityBundle) (space_id display_name : list Z) (now : Z)
    (request : TrustedSpaceBootstrapRequest) : Prop := {
  built_name : is_label MAX_SPACE_DISPLAY_NAME_CHARS display_name = true;
  built_time : 0 <= now <= MAX_UUID_V7_UNIX_MS;
  built_display : bootstrap_display_name request = display_name;
  built_received : bootstrap_received_at_unix_ms request = now;
  built_genesis : exists entity nonce, fixed 16 entity /\ fixed 16 nonce
    /\ OperationEnvelope.sign space_id entity EntitySchema.SpaceGenesis [] [] now nonce
         (OperationBody.SpaceGenesis (space_controller_actor_id i)) (space_controller_key i)
       = Ok (genesis request);
  built_grant : exists entity nonce, fixed 16 entity /\ fixed 16 nonce
    /\ entity <> OperationEnvelope.entity_id (genesis request)
    /\ OperationEnvelope.sign space_id entity EntitySchema.CapabilityGrant []
         [OperationEnvelope.operation_id (genesis request)] now nonce
         (OperationBody.CapabilityGrant (initial_writer_grant i)) (space_controller_key i)
       = Ok (initial_grant request)
}.

Lemma build_Ok i space name now (source : S) request source' :
  build_trusted_space_bootstrap_for_space_with_source i space name now source = (Ok request, source') ->
  fixed 32 space -> built i space name now request.
Proof.
  unfold build_trusted_space_bootstrap_for_space_with_source. intros Hb Hs.
  destruct (validate_display_name name) as [[]|] eqn:En; [|done].
  destruct (validate_trusted_time now) as [trusted|] eqn:Et; [|done].
  destruct (next_distinct_entity_id source trusted []) as [[e1|] s1] eqn:E1; [|done].
  destruct (next_distinct_entity_id s1 trusted [e1]) as [[e2|] s2] eqn:E2; [|done].
  destruct (next_nonce s2) as [[n1|] s3] eqn:E3; [|done].
  destruct (next_distinct_nonce s3 n1) as [[n2|] s4] eqn:E4; [|done]. injection Hb as Hb _.
  apply next_distinct_entity_id_Ok in E1 as (Hf1 & _ & _). apply next_distinct_entity_id_Ok in E2 as (Hf2 & _ & Hne).
  apply next_nonce_fixed in E3. apply next_distinct_nonce_Ok in E4 as [E4 _].
  assert (Ht : 0 <= now <= MAX_UUID_V7_UNIX_MS).
  { unfold validate_trusted_time in Et. inv_ok. bool_prop. lia. }
  unfold sign_anchor in Hb.
  destruct (OperationEnvelope.sign space e1 _ _ _ _ _ _ _) as [g|] eqn:Eg; cbn [map_err] in Hb; [|done].
  destruct (OperationEnvelope.sign space e2 _ _ _ _ _ _ _) as [w|] eqn:Ew; cbn [map_err] in Hb; [|done].
  apply Ok_inj in Hb as <-. constructor; cbn.
  - by apply display_name_label.
  - done.
  - done.
  - done.
  - by exists e1, n1.
  - exists e2, n2. do 2 (split; [done|]). split; [|done].
    apply sign_fields in Eg as (_ & _ & _ & _ & _ & -> & _); try done.
    + intros ->. apply Hne. by left.
    + unfold MAX_UUID_V7_UNIX_MS in Ht. unfold in_i. lia.
    + apply verifying_key_fixed.
Qed.

(** What the fields of the two operations are. *)
Lemma built_fields i space name now request :
  fixed 32 space -> built i space name now request ->
  let g := genesis request in let w := initial_grant request in
  OperationEnvelope.verify g = Ok tt /\ OperationEnvelope.verify w = Ok tt
  /\ typed_operation g /\ typed_operation w
  /\ OperationEnvelope.space_id g = space /\ OperationEnvelope.space_id w = space
  /\ OperationEnvelope.actor_id g = space_controller_actor_id i
  /\ OperationEnvelope.actor_id w = space_controller_actor_id i
  /\ OperationEnvelope.schema g = EntitySchema.SpaceGenesis
  /\ OperationEnvelope.schema w = EntitySchema.CapabilityGrant
  /\ OperationEnvelope.causal_parents g = [] /\ OperationEnvelope.causal_parents w = []
  /\ OperationEnvelope.authorization g = []
  /\ OperationEnvelope.authorization w = [OperationEnvelope.operation_id g]
  /\ OperationEnvelope.entity_id w <> OperationEnvelope.entity_id g
  /\ OperationEnvelope.body g = OperationBody.SpaceGenesis (space_controller_actor_id i)
  /\ OperationEnvelope.body w = OperationBody.CapabilityGrant (initial_writer_grant i).
Proof.
  intros Hs [_ Ht _ _ (e1 & n1 & He1 & Hn1 & Eg) (e2 & n2 & He2 & Hn2 & Hne & Ew)] g w.
  assert (Ho : in_i 64 now) by (unfold MAX_UUID_V7_UNIX_MS in Ht; unfold in_i; lia).
  assert (Hc : body_typed (OperationBody.SpaceGenesis (space_controller_actor_id i))) by apply verifying_key_fixed.
  pose proof (sign_fields _ _ _ _ _ _ _ _ _ Hs He1 (List.Forall_nil _) (List.Forall_nil _) Ho Hn1 Hc _ Eg)
    as (Hv1 & Hb1 & Hid1 & Hsp1 & Ha1 & Hen1 & Hsc1 & Hp1 & Hau1 & _ & _ & Hbo1).
  assert (Hid : Forall (fixed 32) [OperationEnvelope.operation_id (genesis request)])
    by (constructor; [exact Hid1|constructor]).
  pose proof (sign_fields _ _ _ _ _ _ _ _ _ Hs He2 (List.Forall_nil _) Hid Ho Hn2 (writer_grant_typed i : body_typed (OperationBody.CapabilityGrant _)) _ Ew)
    as (Hv2 & Hb2 & _ & Hsp2 & Ha2 & Hen2 & Hsc2 & Hp2 & Hau2 & _ & _ & Hbo2).
  subst g w. unfold typed_operation. rewrite Hbo1, Hbo2, Hen2.
  split; [exact Hv1|]. split; [exact Hv2|]. split; [split; [exact Hb1|exact Hc]|].
  split; [split; [exact Hb2|exact (writer_grant_typed i)]|].
  rewrite Hp1, Hp2, Hau1, Hau2. repeat (split; [first [assumption|reflexivity]|]). reflexivity.
Qed.

Lemma writer_scope i : is_local_writer_scope (initial_writer_grant i) = true.
Proof. reflexivity. Qed.

(** A request that [build_trusted_space_bootstrap_for_space_with_source] builds for
    an identity with distinct keys, whatever its source of entity ids and nonces, passes
    every check the application and the repository make of a bootstrap; both operations
    verify, the genesis names its signer, and the writer is the identity's own.  A draw
    that repeats is retried at most sixteen times, and never accepted. *)
Theorem built_bootstrap_valid (i : IdentityBundle) (space name : list Z) (now : Z) (source source' : S)
    (request : TrustedSpaceBootstrapRequest) :
  identity_ok i -> fixed 32 space ->
  build_trusted_space_bootstrap_for_space_with_source i space name now source = (Ok request, source') ->
  validate_trusted_space_bootstrap request = Ok tt /\ validate_bootstrap request = Ok tt
  /\ OperationEnvelope.verify (genesis request) = Ok tt
  /\ OperationEnvelope.verify (initial_grant request) = Ok tt
  /\ OperationEnvelope.space_id (genesis request) = space
  /\ OperationEnvelope.actor_id (genesis request) = space_controller_actor_id i
  /\ exists grant, OperationEnvelope.body (initial_grant request) = OperationBody.CapabilityGrant grant
       /\ CapabilityGrant.subject grant = identity_writer_actor_id i.
Proof.
  intros (_ & _ & Hne & _) Hs Hb. pose proof (build_Ok _ _ _ _ _ _ _ Hb Hs) as Hbuilt.
  pose proof (built_fields _ _ _ _ _ Hs Hbuilt)
    as (Hv1 & Hv2 & _ & _ & Hs1 & Hs2 & Ha1 & Ha2 & Hc1 & Hc2 & Hp1 & Hp2 & Hau1 & Hau2 & Hen & Hb1 & Hb2).
  destruct Hbuilt as [Hn Ht Hd Hr _ _].
  assert (Hw : list_eqb (CapabilityGrant.subject (initial_writer_grant i)) (space_controller_actor_id i) = false).
  { apply not_true_iff_false. rewrite list_eqb_eq. intros E. by apply Hne. }
  assert (He : list_eqb (OperationEnvelope.entity_id (initial_grant request))
                 (OperationEnvelope.entity_id (genesis request)) = false).
  { apply not_true_iff_false. by rewrite list_eqb_eq. }
  assert (He' : list_eqb (OperationEnvelope.entity_id (genesis request))
                  (OperationEnvelope.entity_id (initial_grant request)) = false).
  { apply not_true_iff_false. rewrite list_eqb_eq. congruence. }
  assert (Hr' : bootstrap_received_at_unix_ms request <? 0 = false) by (rewrite Hr; apply Z.ltb_ge; lia).
  unfold validate_trusted_space_bootstrap, validate_received_at, validate_bootstrap. unfold MAX_SPACE_DISPLAY_NAME_CHARS in Hn |- *.
  rewrite Hr', Hd, Hn, Hv1, Hv2, Hb1, Hb2, Hc1, Hc2, Hs1, Hs2, Ha1, Ha2, Hp1, Hp2, Hau1, Hau2, Hw, He, He', writer_scope.
  rewrite !(proj2 (list_eqb_eq _ _) eq_refl), !eqb_refl'. cbn [negb orb andb is_empty map_err].
  split; [reflexivity|]. split; [reflexivity|]. do 4 (split; [reflexivity|]). exists (initial_writer_grant i). split; reflexivity.
Qed.
End Theorems.

(** ** Witness *)
#[export, program] Instance toy_uuid : Uuid7 := {| uuid_v7 := fun ms random => be_bytes 16 (ms * 2 ^ 80 + from_be random) |}.
Next Obligation. intros ms random. split; [apply be_bytes_length|apply be_bytes_byte]. Qed.

Definition sample_identity : IdentityBundle :=
  mkIdentity (replicate 31 0 ++ [5]) sample_seed device_seed sample_space.
Definition sample_entropy : Entropy :=
  [replicate 10 1; replicate 10 1; replicate 10 2; replicate 16 3; replicate 16 3; replicate 16 4].
Definition sample_built : result BootstrapBuildError TrustedSpaceBootstrapRequest * Entropy :=
  build_trusted_space_bootstrap sample_identity (str "home") 1700000000000 sample_entropy.

Lemma sample_identity_ok : identity_ok sample_identity.
Proof. repeat split; vm_compute; discriminate. Qed.

Lemma sample_builds : is_ok (fst sample_built) = true.
Proof. by_vm. Qed.

Lemma built_bootstrap_valid_witness :
  exists request, fst sample_built = Ok request /\ validate_bootstrap request = Ok tt.
Proof.
  pose proof sample_builds as Hok. destruct sample_built as [[request|e] rest] eqn:Eb; [|discriminate Hok].
  exists request. split; [reflexivity|]. unfold sample_built in Eb.
  refine (proj1 (proj2 (built_bootstrap_valid sample_identity sample_space (str "home") 1700000000000 sample_entropy
    rest request sample_identity_ok _ Eb))).
  apply (bool_decide_eq_true_1 (fixed 32 sample_space)). vm_compute. reflexivity.
Defined.
