(* ===== verification/PairingVault.v ===== *)
(** * Protected invitation secrets (crates/fractonica-keystore/src/pairing.rs)

    [PairingSecretVault] is what the node expects of a vault of responder secrets: which
    invitations it holds a secret for, and how each operation changes that, whether it
    succeeds or fails.  [file_vault] is the directory of the Unix adapter: a map from
    the stems of its file names to the bytes of the private files.  Its writes are atomic (a
    temporary file is linked into place), its lock makes operations exclusive; failures
    of the filesystem and objects that are not private regular files are not modelled. *)
From S2P Require Import Prelude Bytes Floats Crypto Content Cbor Trust TrustTheory DataModel Pairing PairingTheory InvitationTheory.

(** ** The interface *)
Class PairingSecretVault := {
  Vault : Type;
  VaultError : Type;
  vault_store : Vault -> ResponderInvitationSecret.t -> result VaultError bool * Vault;
  vault_load : Vault -> list Z -> result VaultError (option ResponderInvitationSecret.t);
  vault_remove : Vault -> list Z -> result VaultError bool * Vault;
  vault_invitation_ids : Vault -> result VaultError (list (list Z));
  (** the vault has a secret for the invitation *)
  holds : Vault -> list Z -> Prop;
  store_grows : forall v s r v' id, vault_store v s = (r, v') -> holds v id -> holds v' id;
  store_only : forall v s r v' id, vault_store v s = (r, v') -> fixed 16 id ->
    fixed 16 (ResponderInvitationSecret.invitation_id s) -> holds v' id ->
    holds v id \/ id = ResponderInvitationSecret.invitation_id s;
  store_Ok : forall v s replay v', vault_store v s = (Ok replay, v') ->
    holds v' (ResponderInvitationSecret.invitation_id s)
    /\ (replay = true <-> holds v (ResponderInvitationSecret.invitation_id s));
  remove_only : forall v id r v' id', vault_remove v id = (r, v') -> holds v' id' -> holds v id';
  remove_keeps : forall v id r v' id', vault_remove v id = (r, v') -> fixed 16 id -> fixed 16 id' ->
    id' <> id -> holds v id' -> holds v' id';
  remove_Ok : forall v id removed v', vault_remove v id = (Ok removed, v') -> ~ holds v' id;
  load_Some : forall v id s, vault_load v id = Ok (Some s) ->
    holds v id /\ ResponderInvitationSecret.invitation_id s = id;
  ids_Ok : forall v ids, vault_invitation_ids v = Ok ids ->
    Forall (fixed 16) ids /\ forall id, fixed 16 id -> id ∈ ids <-> holds v id
}.

(** ** The file vault *)
Module FilePairingSecretVault.
Definition SECRET_BYTES : nat := 113.

Inductive error : Type :=
| UnsafeObject
| Corrupt
| Conflict (invitation_id : list Z).

Notation directory := (gmap (list Z) (list Z)).

Section FileVault.
Context `{!Noise}.

(** [read_secret_file]: the length check of a private file. *)
Definition read_secret_file (bytes : list Z) : result error (list Z) :=
  if (length bytes =? SECRET_BYTES)%nat then Ok bytes else Err UnsafeObject.

(** The stem of [secret_path]. *)
Notation secret_path := display_invitation_id.

Definition store (d : directory) (secret : ResponderInvitationSecret.t) : result error bool * directory :=
  let id := ResponderInvitationSecret.invitation_id secret in
  match d !! secret_path id with
  | Some file =>
      (let? existing := read_secret_file file in
       if list_eqb existing (ResponderInvitationSecret.protected_store_bytes secret) then Ok true
       else Err (Conflict id), d)
  | None => (Ok false, <[secret_path id := ResponderInvitationSecret.protected_store_bytes secret]> d)
  end.

Definition load (d : directory) (invitation_id : list Z) :
    result error (option ResponderInvitationSecret.t) :=
  match d !! secret_path invitation_id with
  | None => Ok None
  | Some file =>
      let? bytes := read_secret_file file in
      let? secret := map_err (fun _ => Corrupt)
        (ResponderInvitationSecret.from_protected_store_bytes bytes) in
      if negb (list_eqb (ResponderInvitationSecret.invitation_id secret) invitation_id) then Err Corrupt
      else Ok (Some secret)
  end.

Definition remove (d : directory) (invitation_id : list Z) : result error bool * directory :=
  match d !! secret_path invitation_id with
  | Some _ => (Ok true, delete (secret_path invitation_id) d)
  | None => (Ok false, d)
  end.

(** One entry of the listing. *)
Definition entry_id (entry : list Z * list Z) : result error (list Z) :=
  let? id := map_err (fun _ => UnsafeObject) (parse_hex (fst entry)) in
  check read_secret_file (snd entry);
  Ok id.

Definition invitation_ids (d : directory) : result error (list (list Z)) :=
  let? ids := collect entry_id (map_to_list d) in Ok (sort_bytes ids).

(** ** The adapter keeps the promises of the interface *)
Lemma store_cases d s r d' :
  store d s = (r, d') ->
  let path := secret_path (ResponderInvitationSecret.invitation_id s) in
  (d' = d /\ is_Some (d !! path) /\ r <> Ok false)
  \/ (d !! path = None /\ r = Ok false /\ d' = <[path := ResponderInvitationSecret.protected_store_bytes s]> d).
Proof.
  unfold store. destruct (d !! _) as [file|] eqn:Ed; intros [= <- <-]; [left|right; done].
  split; [done|]. split; [done|]. unfold read_secret_file. destruct (_ =? _)%nat; [|done]. by destruct (list_eqb _ _).
Qed.

Lemma remove_result d id r d' : remove d id = (r, d') -> d' = delete (secret_path id) d.
Proof.
  unfold remove. destruct (d !! _) as [file|] eqn:Ed; intros [= _ <-]; [done|]. by rewrite delete_id.
Qed.

(** A printed id reads back, and nothing else prints so. *)
Lemma hex_digit_value c d :
  is_lower_hexdigit c = true -> radix16_digit c = Some d -> 0 <= d < 16 /\ hex_digit d = c.
Proof.
  unfold is_lower_hexdigit, is_ascii_digit, is_ascii_uppercase, radix16_digit, hex_digit. intros Hl Hd.
  destruct (Z.leb_spec 48 c), (Z.leb_spec c 57), (Z.leb_spec 97 c), (Z.leb_spec c 102), (Z.leb_spec 65 c),
    (Z.leb_spec c 70), (Z.leb_spec c 90); cbn in Hl, Hd; try discriminate; injection Hd as <-; try lia;
    (split; [lia|]); destruct (Z.ltb_spec (c - 48) 10), (Z.ltb_spec (c - 87) 10); lia.
Qed.

Lemma radix16_pairs_inv (n : nat) : forall text id,
  length text = (2 * n)%nat -> forallb is_lower_hexdigit text = true -> radix16_pairs text = Ok id ->
  fixed n id /\ text = lower_hex id.
Proof.
  induction n as [|n IH]; intros text id Hl Hx Hr.
  { destruct text; [|discriminate Hl]. apply Ok_inj in Hr as <-. split; [split; [done|constructor]|done]. }
  destruct text as [|h [|l text]]; [discriminate Hl|cbn in Hl; lia|]. cbn in Hx, Hr. bool_prop.
  destruct (radix16_digit h) as [dh|] eqn:Eh; [|done]. destruct (radix16_digit l) as [dl|] eqn:El; [|done].
  destruct (radix16_pairs text) as [rest|] eqn:Er; [|done]. apply Ok_inj in Hr as <-.
  destruct (hex_digit_value h dh) as [? Hh]; [done|done|]. destruct (hex_digit_value l dl) as [? Hl']; [done|done|].
  destruct (IH text rest) as [[Hlr Hb] ->]; [cbn in Hl; lia|done|done|].
  split; [split; [cbn; lia|constructor; [unfold is_byte; lia|done]]|].
  unfold lower_hex. cbn [flat_map app].
  replace ((16 * dh + dl) / 16) with dh by (apply (Z.div_unique_pos _ _ _ dl); lia).
  replace ((16 * dh + dl) mod 16) with dl by (apply (Z.mod_unique_pos _ _ dh); lia). by rewrite Hh, Hl'.
Qed.

Lemma parse_hex_inv text id : parse_hex text = Ok id -> fixed 16 id /\ text = display_invitation_id id.
Proof.
  unfold parse_hex. intros Hp. inv_ok. bool_prop.
  by apply (radix16_pairs_inv 16 text).
Qed.

Lemma lower_hex_inj n : forall a b, fixed n a -> fixed n b -> lower_hex a = lower_hex b -> a = b.
Proof.
  induction n as [|n IH]; intros a b [La Ha] [Lb Hb] E.
  { by destruct a, b. }
  destruct a as [|x a]; [done|]. destruct b as [|y b]; [done|]. cbn in E. injection E as E1 E2 E3.
  apply Forall_cons in Ha as [Hx Ha]. apply Forall_cons in Hb as [Hy Hb].
  assert (Hd : forall d d', 0 <= d < 16 -> 0 <= d' < 16 -> hex_digit d = hex_digit d' -> d = d').
  { unfold hex_digit. intros d d' Hd Hd'. destruct (Z.ltb_spec d 10), (Z.ltb_spec d' 10); lia. }
  unfold is_byte in *. apply Hd in E1; [|split; [apply Z.div_pos; lia|apply Z.div_lt_upper_bound; lia]..].
  apply Hd in E2; [|apply Z.mod_pos_bound; lia..].
  f_equal; [|apply IH; [split; [cbn in La; lia|done]|split; [cbn in Lb; lia|done]|done]].
  rewrite (Z.div_mod x 16), (Z.div_mod y 16) by lia. lia.
Qed.

Lemma secret_path_inj a b : fixed 16 a -> fixed 16 b -> secret_path a = secret_path b -> a = b.
Proof. apply lower_hex_inj. Qed.

Lemma entry_id_Ok entry id : entry_id entry = Ok id -> fixed 16 id /\ fst entry = secret_path id.
Proof.
  unfold entry_id. intros He. inv_ok. by apply parse_hex_inv.
Qed.

Lemma listed d ids :
  invitation_ids d = Ok ids ->
  Forall (fixed 16) ids /\ forall id, fixed 16 id -> id ∈ ids <-> is_Some (d !! secret_path id).
Proof.
  unfold invitation_ids. intros Hi. destruct (collect entry_id (map_to_list d)) as [l|] eqn:Ec; [|done].
  apply Ok_inj in Hi as <-. assert (Hl : forall id, id ∈ sort_bytes l <-> exists entry, entry ∈ map_to_list d
    /\ entry_id entry = Ok id).
  { intros id. rewrite sort_bytes_perm. by apply collect_elem. }
  split.
  - apply Forall_forall. intros id ([name file] & _ & He)%Hl. by apply entry_id_Ok in He as [? _].
  - intros id Hf. rewrite Hl. split.
    + intros ([name file] & Hin%elem_of_map_to_list & He). apply entry_id_Ok in He as [_ Hn]. cbn in Hn. subst.
      by exists file.
    + intros [file Hd]. apply elem_of_map_to_list in Hd as Hin. destruct (collect_total _ _ _ _ Ec Hin) as [id' He].
      pose proof (entry_id_Ok _ _ He) as [Hf' Hn]. cbn in Hn. apply secret_path_inj in Hn; [|done|done]. subst id'.
      by exists (secret_path id, file).
Qed.

#[export, program] Instance file_vault : PairingSecretVault := {|
  Vault := directory;
  VaultError := error;
  vault_store := store;
  vault_load := load;
  vault_remove := remove;
  vault_invitation_ids := invitation_ids;
  holds := fun d id => is_Some (d !! secret_path id)
|}.
Next Obligation.
  intros d s r d' id Hs [file Hd]. destruct (store_cases d s r d' Hs) as [(-> & _ & _)|(Hn & _ & ->)]; [by exists file|].
  apply lookup_insert_is_Some. destruct (decide (secret_path (ResponderInvitationSecret.invitation_id s) = secret_path id));
    [by left|right; by split].
Qed.
Next Obligation.
  intros d s r d' id Hs Hf Hfs Hd. destruct (store_cases d s r d' Hs) as [(-> & _ & _)|(Hn & _ & ->)]; [by left|].
  apply lookup_insert_is_Some in Hd as [E|[_ Hd]]; [right|by left]. by apply secret_path_inj.
Qed.
Next Obligation.
  intros d s replay d' Hs. destruct (store_cases d s _ d' Hs) as [(-> & Hd & Hr)|(Hn & [= ->] & ->)].
  - split; [done|]. destruct replay; [by split|by destruct Hr].
  - split; [by rewrite lookup_insert_eq|]. split; [done|]. rewrite Hn. by intros [? ?].
Qed.
Next Obligation.
  intros d id r d' id' Hr [file Hd]. rewrite (remove_result _ _ _ _ Hr) in Hd.
  apply lookup_delete_Some in Hd as [_ Hd]. by exists file.
Qed.
Next Obligation.
  intros d id r d' id' Hr Hf Hf' Hne [file Hd]. rewrite (remove_result _ _ _ _ Hr). exists file.
  apply lookup_delete_Some. split; [|done]. intros E. by apply Hne, secret_path_inj.
Qed.
Next Obligation.
  intros d id removed d' Hr [file Hd]. rewrite (remove_result _ _ _ _ Hr) in Hd. by apply lookup_delete_Some in Hd as [? _].
Qed.
Next Obligation.
  intros d id s Hl. unfold load in Hl. destruct (d !! _) as [file|] eqn:Ed; [|done]. inv_ok. split; [rewrite Ed; by exists file|].
  bool_prop. by apply list_eqb_eq.
Qed.
Next Obligation. intros d ids. apply listed. Qed.
End FileVault.
End FilePairingSecretVault.
