(* ===== verification/NodePairing.v ===== *)
(** * The node's pairing control (crates/fractonica-node/src/durable_pairing.rs)

    [DurablePairing] coordinates the vault of responder secrets with the pairing sessions
    of the database; [NodePairingControl] is the [PairingControl] the API calls
    (crates/fractonica-api/src/lib.rs), over that store, the operation repository and the
    installation's identity.

    A call is a function on the node: its database, its vault and the entropy the
    operating system will return.  [M E A] threads the node and the error; an outer
    [None] is a panic.  An error keeps the effects of the statements before it.  [Invalid]
    carries what its text prints.  [UrlParser] is the [url] crate. *)
From S2P Require Import Prelude Bytes Floats Crypto Content Cbor Trust DataModel CanonicalBody Envelope.
From S2P Require Import Authorization Peer Pairing Application Database Repository RepositoryQueries.
From S2P Require Import PairingStore PairingVault SpaceBootstrap.

(** ** Views and errors of the port *)
Inductive PeerTransportAction : Type := AppendOperation | ReadContent | WriteContent.

Record PeerTransportPrincipal : Type := mkPrincipal {
  principal_invitation_id : list Z;
  principal_space_id : list Z;
  principal_actor_id : list Z;
  principal_grant_operation_id : list Z
}.

Record PairingCreateCommand : Type := mkCreateCommand {
  command_space_id : list Z;
  expires_in_ms : Z;
  command_endpoint_hints : list (list Z);
  command_capability : CapabilityGrantTemplate.t
}.

(** [PairingState] has the values of the lifecycle. *)
Record PairingSessionView : Type := mkSessionView {
  view_invitation_id : list Z;
  view_space_id : list Z;
  view_state : PairingLifecycle.t;
  view_expires_at_unix_ms : Z;
  view_joiner_node_id : option (list Z);
  view_subject_actor_id : option (list Z);
  view_confirmation_octal : option (list Z);
  view_grant_operation_id : option (list Z)
}.

Record PairingInvitationCreated : Type := mkInvitationCreated {
  created_qr : list Z;
  created_session : PairingSessionView
}.

Record PairingHandshakeResult : Type := mkHandshakeResult {
  result_response_frame : list Z;
  result_receipt_frame : list Z;
  result_session : PairingSessionView
}.

Record PairedDeviceView : Type := mkDeviceView {
  device_invitation_id : list Z;
  device_space_id : list Z;
  device_node_id : list Z;
  device_actor_id : list Z;
  device_grant_operation_id : list Z;
  paired_at_unix_ms : Z;
  device_last_seen_at_unix_ms : option Z;
  online : bool;
  device_revocation_operation_id : option (list Z);
  revoked_at_unix_ms : option Z
}.

Record WorkspaceCreated `{JsonNumber} : Type := mkWorkspaceCreated {
  workspace_space : SpaceDescriptor;
  workspace_genesis : OperationEnvelope.t;
  workspace_initial_grant : OperationEnvelope.t
}.

Record ReconcileResult : Type := mkReconcileResult {
  expired_sessions : Z;
  removed_secrets : Z;
  active_sessions : Z
}.

(** ** The [url] crate and the address tests of the language *)
Inductive Host : Type :=
| Domain (name : list Z)
| Ipv4 (a b c d : Z)
| Ipv6 (segments : list Z).

Record Url : Type := mkUrl {
  scheme : list Z;
  username : list Z;
  password : option (list Z);
  query : option (list Z);
  fragment : option (list Z);
  path : list Z;
  host : option Host
}.

Class UrlParser := { url_parse : list Z -> option Url }.

Definition ipv4_local (a b c d : Z) : bool :=
  (a =? 127)
  || ((a =? 10) || ((a =? 172) && (Z.land b 0xf0 =? 16)) || ((a =? 192) && (b =? 168)))
  || ((a =? 169) && (b =? 254)).

Definition ipv6_local (segments : list Z) : bool :=
  list_eqb segments [0; 0; 0; 0; 0; 0; 0; 1]
  || (Z.land (nth 0 segments 0) 0xfe00 =? 0xfc00)
  || (Z.land (nth 0 segments 0) 0xffc0 =? 0xfe80).

Definition eq_ignore_ascii_case (a b : list Z) : bool :=
  list_eqb (List.map (fun c => if is_ascii_uppercase c then c + 32 else c) a)
           (List.map (fun c => if is_ascii_uppercase c then c + 32 else c) b).

Definition is_safe_pairing_endpoint `{UrlParser} (value : list Z) : bool :=
  match url_parse value with
  | None => false
  | Some url =>
      if negb (list_eqb (scheme url) (str "http")) || negb (is_empty (username url))
         || is_some (password url) || is_some (query url) || is_some (fragment url)
         || negb (is_empty (path url) || list_eqb (path url) (str "/"))
      then false
      else match host url with
      | Some (Domain name) => eq_ignore_ascii_case name (str "localhost")
      | Some (Ipv4 a b c d) => ipv4_local a b c d
      | Some (Ipv6 segments) => ipv6_local segments
      | None => false
      end
  end.

(** [i64::saturating_add] and [saturating_sub]. *)
Definition saturating (z : Z) : Z := Z.max (- 2 ^ 63) (Z.min (2 ^ 63 - 1) z).

(** ** Calls *)
Section Node.
Context `{Sha256} `{Ed25519} `{HalfFloat} `{Base64} `{!Noise} `{!JsonNumber} `{!JsonSize}
  `{!ProjectionJson} `{!Lowercase} `{!Uuid7} `{!UrlParser} `{!PairingSecretVault}.

Record Node : Type := mkNode {
  database : Database;
  secrets : Vault;
  entropy : Entropy
}.

Definition M (E A : Type) : Type := Node -> option (result E A * Node).

Definition ret {E A} (a : A) : M E A := fun n => Some (Ok a, n).
Definition fail {E A} (e : E) : M E A := fun n => Some (Err e, n).
Definition bind {E A B} (m : M E A) (k : A -> M E B) : M E B := fun n =>
  match m n with
  | Some (Ok a, n) => k a n
  | Some (Err e, n) => Some (Err e, n)
  | None => None
  end.
(** [map_err]. *)
Definition map_error {E F A} (f : E -> F) (m : M E A) : M F A := fun n =>
  match m n with Some (r, n) => Some (map_err f r, n) | None => None end.
(** The result as a value, for a [match] on it. *)
Definition attempt {E F A} (m : M E A) : M F (result E A) := fun n =>
  match m n with Some (r, n) => Some (Ok r, n) | None => None end.
Definition lift {E A} (r : result E A) : M E A := fun n => Some (r, n).
Definition no_panic {E A} (o : option A) : M E A := fun n =>
  match o with Some a => Some (Ok a, n) | None => None end.

Definition reading {E A} (f : Database -> result E A) : M E A := fun n => Some (f (database n), n).
Definition writing {E A} (f : Database -> result E A * Database) : M E A := fun n =>
  let '(r, db) := f (database n) in Some (r, mkNode db (secrets n) (entropy n)).
Definition writing_or_panic {E A} (f : Database -> option (result E A * Database)) : M E A := fun n =>
  match f (database n) with
  | Some (r, db) => Some (r, mkNode db (secrets n) (entropy n))
  | None => None
  end.
Definition in_vault {E A} (f : Vault -> result E A * Vault) : M E A := fun n =>
  let '(r, v) := f (secrets n) in Some (r, mkNode (database n) v (entropy n)).
Definition of_vault {E A} (f : Vault -> result E A) : M E A := fun n => Some (f (secrets n), n).
Definition drawing {E A} (f : Entropy -> result E A * Entropy) : M E A := fun n =>
  let '(r, e) := f (entropy n) in Some (r, mkNode (database n) (secrets n) e).
End Node.

Notation "'let*' x ':=' m 'in' k" := (bind m (fun x => k))
  (at level 10, x pattern, m at level 100, k at level 200) : fractonica_scope.
Notation "'run*' m ';' k" := (bind m (fun _ => k))
  (at level 10, m at level 100, k at level 200) : fractonica_scope.

(** ** The coordinated store *)
Module DurablePairing.
Section Store.
Context `{Sha256} `{Ed25519} `{HalfFloat} `{Base64} `{!Noise} `{!JsonNumber} `{!JsonSize}
  `{!ProjectionJson} `{!Lowercase} `{!Uuid7} `{!UrlParser} `{!PairingSecretVault}.

Inductive error : Type :=
| MissingActiveSecret (invitation_id : list Z)
| Secrets (e : VaultError)
| OfDatabase (e : PairingStoreError.t).

Notation M := (M error).

(** The secret is published first; it is removed again when the index refuses the
    session, unless it was there before. *)
Definition create (issued : PairingInvitation.IssuedInvitation) (now : Z) : M PairingSession :=
  let secret := PairingInvitation.secret issued in
  let descriptor := PairingInvitation.descriptor (PairingInvitation.invitation issued) in
  let* replayed_secret := map_error Secrets (in_vault (fun v => vault_store v secret)) in
  let* created := attempt (writing_or_panic (fun db => create_pairing_session db descriptor now)) in
  match created with
  | Ok session => ret session
  | Err e =>
      run* (if negb replayed_secret
            then map_error Secrets
                   (in_vault (fun v => vault_remove v (ResponderInvitationSecret.invitation_id secret)))
            else ret false);
      fail (OfDatabase e)
  end.

(** The first active invitation without a secret, in ascending order. *)
Definition missing_secret (active_ids secret_ids : list (list Z)) : option (list Z) :=
  List.find (fun id => negb (contains id secret_ids)) (sort_bytes active_ids).

Fixpoint remove_orphans (orphans : list (list Z)) (removed : Z) : M Z :=
  match orphans with
  | [] => ret removed
  | orphan :: orphans =>
      let* was_there := map_error Secrets (in_vault (fun v => vault_remove v orphan)) in
      remove_orphans orphans (if was_there : bool then removed + 1 else removed)
  end.

Definition reconcile (now : Z) : M ReconcileResult :=
  let* expired := map_error OfDatabase (writing (fun db => expire_pairing_sessions db now)) in
  let* active := map_error OfDatabase (reading active_pairing_sessions) in
  let active_ids := List.map session_invitation_id active in
  let* secret_ids := map_error Secrets (of_vault vault_invitation_ids) in
  match missing_secret active_ids secret_ids with
  | Some missing => fail (MissingActiveSecret missing)
  | None =>
      let* removed := remove_orphans (List.filter (fun id => negb (contains id active_ids)) secret_ids) 0 in
      ret (mkReconcileResult expired removed (Z.of_nat (length active)))
  end.

Definition cancel (invitation_id : list Z) (now : Z) : M PairingSession :=
  let* session := map_error OfDatabase (writing (fun db => cancel_pairing_session db invitation_id now)) in
  run* map_error Secrets (in_vault (fun v => vault_remove v invitation_id));
  ret session.

Definition complete (invitation_id grant_operation_id : list Z) (now : Z) : M PairingSession :=
  let* session := map_error OfDatabase
    (writing (fun db => complete_pairing_session db invitation_id grant_operation_id now)) in
  run* map_error Secrets (in_vault (fun v => vault_remove v invitation_id));
  ret session.

Definition invitation_secret (invitation_id : list Z) : M ResponderInvitationSecret.t :=
  let* found := map_error Secrets (of_vault (fun v => vault_load v invitation_id)) in
  match found with
  | Some secret => ret secret
  | None => fail (MissingActiveSecret invitation_id)
  end.
End Store.
End DurablePairing.

(** ** The control *)
Module NodePairingControl.
Section Control.
Context `{Sha256} `{Ed25519} `{HalfFloat} `{Base64} `{!Noise} `{!JsonNumber} `{!JsonSize}
  `{!ProjectionJson} `{!Lowercase} `{!Uuid7} `{!UrlParser} `{!PairingSecretVault}.

(** What the text of an [Invalid] prints. *)
Inductive reason : Type :=
| Text (text : list Z)
| OfPairing (e : PairingError)
| OfStore (e : PairingStoreError.t)
| OfDataModel (e : DataModelError)
| OfBootstrap (e : BootstrapBuildError)
| OfRepository (e : RepositoryError).

Inductive error : Type :=
| ProfileUnavailable
| NotFound
| Unavailable
| Invalid (why : reason)
| ConfirmationMismatch
| Storage.

Notation M := (M error).

Definition protocol_error (e : PairingError) : error := Invalid (OfPairing e).
Definition store_error (e : PairingStoreError.t) : error :=
  match e with
  | PairingStoreError.NotFound => NotFound
  | PairingStoreError.Unavailable => Unavailable
  | PairingStoreError.Conflict | PairingStoreError.InvalidTime | PairingStoreError.InvalidGrantPlan
  | PairingStoreError.Protocol _ => Invalid (OfStore e)
  | PairingStoreError.Corrupt _ | PairingStoreError.Sqlite => Storage
  end.
Definition durable_error (e : DurablePairing.error) : error :=
  match e with
  | DurablePairing.OfDatabase e => store_error e
  | DurablePairing.MissingActiveSecret _ | DurablePairing.Secrets _ => Storage
  end.

(** [getrandom::fill(..).map_err(|_| Storage)]. *)
Definition random (n : nat) : M (list Z) :=
  drawing (fun e => match fill n e with (Some bytes, e) => (Ok bytes, e) | (None, e) => (Err Storage, e) end).

Definition the {A} (o : option A) (e : error) : M A := lift (ok_or o e).

(** [database().pairing_session(id).map_err(store_error)?]. *)
Definition session_of (id : list Z) : M (option PairingSession) :=
  map_error store_error (reading (fun db => pairing_session db id)).

Definition planned_or_final_grant (session : PairingSession) : option (list Z) :=
  match session_grant_operation_id session with
  | Some id => Some id
  | None => OperationEnvelope.operation_id <$> planned_grant session
  end.

Definition view (session : PairingSession) : PairingSessionView :=
  mkSessionView (session_invitation_id session) (InvitationDescriptor.space_id (descriptor session))
    (session_state session) (InvitationDescriptor.expires_at_unix_ms (descriptor session))
    (joiner_node_id session) (subject_actor_id session)
    (confirmation_octal <$> session_handshake_hash session) (planned_or_final_grant session).

(** [now.try_into()] to [u64] and the UUIDv7 bound. *)
Definition uuid_time (now : Z) (invalid exceeds : list Z) : M Z :=
  if now <? 0 then fail (Invalid (Text invalid))
  else if 2 ^ 48 - 1 <? now then fail (Invalid (Text exceeds))
  else ret now.

Section Identity.
Variable identity : IdentityBundle.

Definition GRANT_ATTEMPTS : nat := 16.

Fixpoint plan_grant (attempts : nat) (session : PairingSession) (grant : CapabilityGrant.t)
    (now : Z) : M OperationEnvelope.t :=
  match attempts with
  | O => fail Storage
  | Datatypes.S attempts =>
      let d := descriptor session in
      let* bytes := random 10 in
      let entity_id := uuid_v7 now bytes in
      let* taken := map_error (fun _ => Storage)
        (reading (fun db => Repository.entity_state db (InvitationDescriptor.space_id d) entity_id)) in
      if is_some taken then plan_grant attempts session grant now
      else
        let* nonce := random 16 in
        let* operation := lift (map_err (fun e => Invalid (OfDataModel e))
          (OperationEnvelope.sign (InvitationDescriptor.space_id d) entity_id EntitySchema.CapabilityGrant []
             [InvitationDescriptor.genesis_operation_id d] now nonce (OperationBody.CapabilityGrant grant)
             (space_controller_key identity))) in
        let* planned := map_error store_error
          (writing (fun db => plan_pairing_grant db (session_invitation_id session) operation now)) in
        the (planned_grant planned) Storage
  end.

Definition planned_or_new_grant (session : PairingSession) (now : Z) : M OperationEnvelope.t :=
  match planned_grant session with
  | Some operation => ret operation
  | None =>
      let* subject := the (subject_actor_id session) Unavailable in
      let* grant := lift (map_err protocol_error
        (CapabilityGrantTemplate.to_grant (InvitationDescriptor.capability (descriptor session)) subject)) in
      let* timestamp := uuid_time now (str "invalid grant time") (str "grant time exceeds UUIDv7 range") in
      plan_grant GRANT_ATTEMPTS session grant timestamp
  end.

Definition replay_handshake (session : PairingSession) (digest : list Z) (now : Z) :
    M PairingHandshakeResult :=
  let* claimed_at := the (session_claimed_at session) Unavailable in
  let replay_deadline :=
    Z.min (InvitationDescriptor.expires_at_unix_ms (descriptor session)) (saturating (claimed_at + 120000)) in
  let* expected := the (session_first_frame_digest session) Unavailable in
  if negb (eqb (session_state session) PairingLifecycle.Claimed) || (now <? claimed_at)
     || (replay_deadline <=? now) || negb (list_eqb expected digest)
  then fail Unavailable
  else
    let* response_frame := the (session_response_frame session) Unavailable in
    let* receipt_frame := the (session_receipt_frame session) Unavailable in
    run* planned_or_new_grant session now;
    let* session := session_of (session_invitation_id session) in
    let* session := the session Storage in
    ret (mkHandshakeResult response_frame receipt_frame (view session)).

Definition device_view (session : PairingSession) (now : Z) : M PairedDeviceView :=
  let* node_id := the (joiner_node_id session) Storage in
  let* actor_id := the (subject_actor_id session) Storage in
  let* grant_operation_id := the (session_grant_operation_id session) Storage in
  let* paired_at := the (session_completed_at session) Storage in
  let* revocation := map_error store_error
    (reading (fun db => grant_revocation db (InvitationDescriptor.space_id (descriptor session)) grant_operation_id)) in
  let online := negb (is_some revocation)
    && match session_last_seen_at session with
       | Some last_seen => saturating (now - last_seen) <=? 15000
       | None => false
       end in
  ret (mkDeviceView (session_invitation_id session) (InvitationDescriptor.space_id (descriptor session)) node_id
         actor_id grant_operation_id paired_at (session_last_seen_at session) online (fst <$> revocation)
         (snd <$> revocation)).

Definition new_revocation (session : PairingSession) (grant_operation_id : list Z) (now : Z) :
    M OperationEnvelope.t :=
  let* timestamp := uuid_time now (str "invalid revocation time") (str "revocation time exceeds UUIDv7 range") in
  let* bytes := random 10 in
  let* nonce := random 16 in
  lift (map_err (fun e => Invalid (OfDataModel e))
    (OperationEnvelope.sign (InvitationDescriptor.space_id (descriptor session)) (uuid_v7 timestamp bytes)
       EntitySchema.CapabilityRevoke [] [InvitationDescriptor.genesis_operation_id (descriptor session)] now nonce
       (OperationBody.CapabilityRevoke
          (CapabilityRevocation.mk grant_operation_id CapabilityRevocation.Administrative
             (Some (str "Paired device revoked by the local operator"))))
       (space_controller_key identity))).
(** ** The port *)
Definition WORKSPACE_ATTEMPTS : nat := 16.

Fixpoint create_workspace_loop (attempts : nat) (display_name : list Z) (now : Z) : M WorkspaceCreated :=
  match attempts with
  | O => fail Storage
  | Datatypes.S attempts =>
      let* space_id := random 32 in
      if list_eqb space_id (replicate 32 0) then create_workspace_loop attempts display_name now
      else
        let* taken := map_error (fun _ => Storage) (reading (fun db => load_space db space_id)) in
        if is_some taken then create_workspace_loop attempts display_name now
        else
          let* bootstrap := map_error (fun e => Invalid (OfBootstrap e))
            (drawing (build_trusted_space_bootstrap_for_space identity space_id display_name now)) in
          let* created := map_error (fun e => Invalid (OfRepository e))
            (writing_or_panic (fun db => Repository.bootstrap_trusted_space db bootstrap)) in
          ret (mkWorkspaceCreated _ (bootstrapped_space created) (genesis bootstrap) (initial_grant bootstrap))
  end.

Definition create_workspace (display_name : list Z) (now : Z) : M WorkspaceCreated :=
  create_workspace_loop WORKSPACE_ATTEMPTS display_name now.

Definition delete_workspace (space_id : list Z) : M unit :=
  map_error (fun e => match e with SpaceNotFound _ => NotFound | _ => Storage end)
    (writing (fun db => RepositoryQueries.delete_space db space_id)).

(** [PairingInvitation::issue]. *)
Definition random_material (n : nat) : NodePairing.M PairingError (list Z) :=
  drawing (fun e => match fill n e with (Some b, e) => (Ok b, e) | (None, e) => (Err RandomUnavailable, e) end).
Definition issue (responder_node_key : list Z) (p : PairingInvitation.InvitationParameters) :
    NodePairing.M PairingError PairingInvitation.IssuedInvitation :=
  let* invitation_id := random_material 16 in
  let* one_time_secret := random_material 32 in
  let* noise_private := random_material 32 in
  let* issued := no_panic (PairingInvitation.issue_with_material responder_node_key p
    (PairingInvitation.mkInvitationMaterial invitation_id one_time_secret noise_private)) in
  lift issued.

Definition create_invitation (request : PairingCreateCommand) (now : Z) : M PairingInvitationCreated :=
  let* found := map_error (fun _ => Storage) (reading (fun db => load_space db (command_space_id request))) in
  let* space := the found (Invalid (Text (str "workspace was not found"))) in
  if negb (list_eqb (controller_actor_id space) (space_controller_actor_id identity))
     || negb (list_eqb (local_writer_actor_id space) (identity_writer_actor_id identity))
     || (expires_in_ms request <? MIN_INVITATION_LIFETIME_MS)
     || (MAX_INVITATION_LIFETIME_MS <? expires_in_ms request)
     || existsb (fun hint => negb (is_safe_pairing_endpoint hint)) (command_endpoint_hints request)
  then fail (Invalid (Text (str "invalid invitation scope")))
  else
    let* expires := the (checked_i64 (now + expires_in_ms request)) (Invalid (Text (str "invalid expiry"))) in
    let* issued := map_error protocol_error (issue (node_transport_key identity)
      (PairingInvitation.mkInvitationParameters (command_space_id request) (genesis_operation_id space) now
         expires (command_endpoint_hints request) (command_capability request))) in
    let* qr := lift (map_err protocol_error
      (PairingInvitation.to_qr_string (PairingInvitation.invitation issued))) in
    let* session := map_error durable_error (DurablePairing.create issued now) in
    ret (mkInvitationCreated qr (view session)).

Definition invitation (id : list Z) : M (option PairingSessionView) :=
  let* session := session_of id in ret (view <$> session).

(** The responder's side of the handshake: the joiner's claim, the frame that answers it,
    and the transport. *)
Definition respond (secret : ResponderInvitationSecret.t) (d : InvitationDescriptor.t)
    (first_frame : list Z) : M (JoinerClaim.t * list Z * PairingTransport) :=
  let* responder := lift (map_err protocol_error (ResponderInvitationSecret.start_responder secret)) in
  let '(read, responder) := handshake_read_message responder first_frame in
  let* claim_bytes := lift (map_err (fun _ => Unavailable) read) in
  let* claim := lift (map_err (fun _ => Unavailable) (JoinerClaim.from_canonical_bytes claim_bytes)) in
  let* verified := no_panic (JoinerClaim.verify_for claim d) in
  run* lift (map_err (fun _ => Unavailable) verified);
  let '(written, responder) := handshake_write_message responder [] in
  let* response_frame := lift (map_err (fun _ => Unavailable) written) in
  let* transport := lift (map_err (fun _ => Unavailable) (finish responder)) in
  ret (claim, response_frame, transport).

Definition handshake (id first_frame : list Z) (now : Z) : M PairingHandshakeResult :=
  let* found := session_of id in
  let* session := the found NotFound in
  let first_frame_digest := sha256 first_frame in
  if eqb (session_state session) PairingLifecycle.Claimed
  then replay_handshake session first_frame_digest now
  else if negb (eqb (session_state session) PairingLifecycle.Created) then fail Unavailable
  else
    let* secret := map_error durable_error (DurablePairing.invitation_secret id) in
    let d := descriptor session in
    let* (claim, response_frame, transport) := respond secret d first_frame in
    let hash := transport_handshake_hash transport in
    let* peer_access_token := random 32 in
    let peer_token_digest := sha256 peer_access_token in
    let* receipt := no_panic
      (PairingReceipt.sign d claim hash peer_access_token (node_transport_key identity)) in
    let* receipt_bytes := lift (map_err protocol_error (PairingReceipt.canonical_bytes receipt)) in
    let* receipt_frame := lift (map_err protocol_error (fst (transport_write_message transport receipt_bytes))) in
    let* claimed := attempt (writing_or_panic (fun db =>
      claim_pairing_session db d claim hash peer_token_digest first_frame_digest response_frame receipt_frame now)) in
    match claimed with
    | Err PairingStoreError.Unavailable =>
        let* found := session_of id in
        let* current := the found Storage in
        replay_handshake current first_frame_digest now
    | Err e => fail (store_error e)
    | Ok claimed =>
        run* planned_or_new_grant claimed now;
        let* found := session_of id in
        let* claimed := the found Storage in
        ret (mkHandshakeResult response_frame receipt_frame (view claimed))
    end.

(** The transition of a confirmation. *)
Definition confirmed_session (session : PairingSession) (id hash : list Z) (now : Z) : M PairingSession :=
  match session_state session with
  | PairingLifecycle.Claimed => map_error store_error (writing (fun db => confirm_pairing_session db id hash now))
  | PairingLifecycle.Confirmed => ret session
  | _ => fail Unavailable
  end.

Definition confirm (id supplied : list Z) (now : Z) : M PairingSessionView :=
  let* found := session_of id in
  let* session := the found NotFound in
  let* hash := the (session_handshake_hash session) Unavailable in
  if negb (list_eqb supplied (confirmation_octal hash)) then fail ConfirmationMismatch
  else if eqb (session_state session) PairingLifecycle.Completed
  then
    run* map_error (fun e => durable_error (DurablePairing.Secrets e)) (in_vault (fun v => vault_remove v id));
    ret (view session)
  else
    let* confirmed := confirmed_session session id hash now in
    let* operation := planned_or_new_grant confirmed now in
    run* map_error (fun _ => Storage) (writing (fun db =>
      Repository.submit_operation db (InvitationDescriptor.space_id (descriptor confirmed)) (mkSubmit operation now)));
    let* session := map_error durable_error
      (DurablePairing.complete id (OperationEnvelope.operation_id operation) now) in
    ret (view session).

Definition accept (id acceptance : list Z) (now : Z) : M PairingSessionView :=
  let* found := session_of id in
  let* session := the found NotFound in
  if (now <? 0) || (InvitationDescriptor.expires_at_unix_ms (descriptor session) <=? now) then fail Unavailable
  else
    let* claim_digest := the (session_claim_digest session) Unavailable in
    let* handshake_hash := the (session_handshake_hash session) Unavailable in
    let* joiner_node_id := the (joiner_node_id session) Unavailable in
    let* subject_actor_id := the (subject_actor_id session) Unavailable in
    let* grant_operation_id := the (planned_or_final_grant session) Unavailable in
    let* acceptance := lift (map_err (fun _ => Unavailable) (PairingAcceptance.from_canonical_bytes acceptance)) in
    run* lift (map_err (fun _ => Unavailable)
      (PairingAcceptance.verify_for acceptance (descriptor session) claim_digest handshake_hash joiner_node_id
         subject_actor_id grant_operation_id));
    confirm id (confirmation_octal handshake_hash) now.

Definition cancel (id : list Z) (now : Z) : M PairingSessionView :=
  let* session := map_error durable_error (DurablePairing.cancel id now) in ret (view session).

Definition capability_action (action : PeerTransportAction) : CapabilityAction.t :=
  match action with
  | AppendOperation => CapabilityAction.AppendOperation
  | ReadContent => CapabilityAction.ReadSpace
  | WriteContent => CapabilityAction.WriteContent
  end.

Definition authenticate_peer_transport (id token : list Z) (action : PeerTransportAction) (now : Z) :
    M PeerTransportPrincipal :=
  let* found := session_of id in
  let* session := the found Unavailable in
  if negb (eqb (session_state session) PairingLifecycle.Completed) then fail Unavailable
  else
    let supplied := sha256 token in
    let* expected := the (session_peer_token_digest session) Unavailable in
    if negb (list_eqb supplied expected) then fail Unavailable
    else
      let* actor_id := the (subject_actor_id session) Unavailable in
      let* grant_operation_id := the (session_grant_operation_id session) Unavailable in
      let space_id := InvitationDescriptor.space_id (descriptor session) in
      run* map_error (fun _ => Unavailable) (reading (fun db =>
        authorize_stored_capability_action db space_id actor_id grant_operation_id (capability_action action) now));
      run* map_error store_error (writing (fun db => touch_pairing_session db id now));
      ret (mkPrincipal id space_id actor_id grant_operation_id).

Fixpoint device_views (sessions : list PairingSession) (now : Z) : M (list PairedDeviceView) :=
  match sessions with
  | [] => ret []
  | session :: sessions =>
      let* view := device_view session now in
      let* views := device_views sessions now in
      ret (view :: views)
  end.

Definition paired_devices (now : Z) : M (list PairedDeviceView) :=
  if now <? 0 then fail (Invalid (Text (str "invalid activity time")))
  else
    let* sessions := map_error store_error (reading completed_pairing_sessions) in
    device_views sessions now.

Definition revoke_paired_device (id : list Z) (now : Z) : M PairedDeviceView :=
  let* found := session_of id in
  let* session := the found NotFound in
  if negb (eqb (session_state session) PairingLifecycle.Completed) then fail Unavailable
  else
    let* grant_operation_id := the (session_grant_operation_id session) Storage in
    let space_id := InvitationDescriptor.space_id (descriptor session) in
    let* revocation := map_error store_error (reading (fun db => grant_revocation db space_id grant_operation_id)) in
    run* (if is_some revocation then ret tt
          else
            let* operation := new_revocation session grant_operation_id now in
            run* map_error (fun _ => Storage) (writing (fun db =>
              Repository.submit_operation db space_id (mkSubmit operation now)));
            ret tt);
    device_view session now.

Definition record_paired_activity (id space_id node_id actor_id grant_operation_id : list Z) (now : Z) : M unit :=
  let* found := session_of id in
  let* session := the found Unavailable in
  if negb (eqb (session_state session) PairingLifecycle.Completed)
     || negb (list_eqb (InvitationDescriptor.space_id (descriptor session)) space_id)
     || negb (eqb (joiner_node_id session) (Some node_id))
     || negb (eqb (subject_actor_id session) (Some actor_id))
     || negb (eqb (session_grant_operation_id session) (Some grant_operation_id))
  then fail Unavailable
  else map_error store_error (writing (fun db => touch_pairing_session db id now)).
End Identity.
End Control.
End NodePairingControl.
