(* ===== verification/NodeInvariant.v ===== *)
(** * The node's invariant

    A node is sound when its database is reachable, its pairing sessions stand for
    issued invitations and authentic claims, and its vault has the secret of every
    session that is not over.  Every operation of the control, every request the API
    makes of the repository and every crash between two writes keeps it. *)
From S2P Require Import Prelude Bytes Floats Crypto Content Cbor Trust TrustTheory DataModel CanonicalBody BodyTheory Envelope EnvelopeTheory.
From S2P Require Import Authorization Peer Pairing PairingTheory InvitationTheory Application Database Repository RepositoryQueries.
From S2P Require Import RepositoryLog RepositorySteps PairingStore PairingStoreTheory PairingSessions PairingVault SpaceBootstrap NodePairing.

#[local] Opaque OperationEnvelope.verify OperationEnvelope.sign InvitationDescriptor.from_canonical_bytes
  JoinerClaim.verify_for JoinerClaim.digest JoinerClaim.from_canonical_bytes InvitationDescriptor.digest
  InvitationDescriptor.canonical_bytes insert_operation.

(** ** Databases *)
Section Databases.
Context `{Sha256} `{Ed25519} `{HalfFloat} `{Base64} `{!Noise} `{!JsonNumber} `{!JsonSize}
  `{!ProjectionJson} `{!Lowercase}.
Implicit Types (db : Database) (row : PairingRow).

(** The pairing store writes one table, and but for [create_pairing_session] no new rows. *)
Definition only_pairings db db' : Prop :=
  exists rows, db' = with_pairings db rows /\ length rows = length (pairing_sessions db).

Lemma only_pairings_refl db : only_pairings db db.
Proof. exists (pairing_sessions db). split; [by destruct db|done]. Qed.

Lemma update_only db condition change n db' :
  update_pairings db condition change = Ok (n, db') -> only_pairings db db'.
Proof. intros (_ & _ & ->)%update_pairings_Ok. eexists. split; [done|]. apply length_map. Qed.

Lemma transition_only db id condition change out db' :
  transition db id (fun db => update_pairings db condition change) = (out, db') -> only_pairings db db'.
Proof.
  unfold transition. destruct (update_pairings _ _ _) as [[n after]|] eqn:Eu; intros [= _ <-];
    [by eapply update_only|apply only_pairings_refl].
Qed.

Lemma create_only db d now out db' :
  create_pairing_session db d now = Some (out, db') -> exists rows, db' = with_pairings db rows.
Proof.
  assert (Hsame : exists rows, db = with_pairings db rows) by (exists (pairing_sessions db); by destruct db).
  unfold create_pairing_session. destruct (_ || _); [by intros [= _ <-]|].
  destruct (InvitationDescriptor.canonical_bytes d); [|by intros [= _ <-]].
  destruct (InvitationDescriptor.digest d); [|done]. unfold insert_or_ignore.
  destruct (_ || _); [by intros [= _ <-]|].
  destruct (negb (exists_row _ (space_rows db))); intros [= _ <-]; [done|by eexists].
Qed.

Lemma claim_only db d claim hash token first response receipt now out db' :
  claim_pairing_session db d claim hash token first response receipt now = Some (out, db') -> only_pairings db db'.
Proof.
  unfold claim_pairing_session. destruct (JoinerClaim.verify_for claim d) as [[]|]; [|intros [= _ <-]; apply only_pairings_refl|done].
  destruct (invalid_claim _ _ _ _ _); [intros [= _ <-]; apply only_pairings_refl|].
  destruct (require db _ _); [|intros [= _ <-]; apply only_pairings_refl].
  destruct (negb _); [intros [= _ <-]; apply only_pairings_refl|]. destruct (_ <=? _).
  - intros [= Hx]. unfold expire_claimed in Hx. destruct (eqb _ _); [|injection Hx as _ <-; apply only_pairings_refl].
    destruct (update_pairings _ _ _) as [[n after]|] eqn:Eu; injection Hx as _ <-;
      [by eapply update_only|apply only_pairings_refl].
  - destruct (JoinerClaim.digest claim); [|done]. intros [= Hx]. unfold commit_claim in Hx.
    destruct (update_pairings _ _ _) as [[n after]|] eqn:Eu; [|injection Hx as _ <-; apply only_pairings_refl].
    destruct (negb _); [injection Hx as _ <-; apply only_pairings_refl|].
    destruct (require after _ _); injection Hx as _ <-; [by eapply update_only|apply only_pairings_refl].
Qed.

Lemma plan_only db id operation now out db' :
  plan_pairing_grant db id operation now = (out, db') -> only_pairings db db'.
Proof.
  unfold plan_pairing_grant. destruct (OperationEnvelope.verify operation); [|intros [= _ <-]; apply only_pairings_refl].
  destruct (_ || _); [intros [= _ <-]; apply only_pairings_refl|].
  destruct (OperationEnvelope.body operation); try (intros [= _ <-]; apply only_pairings_refl).
  destruct (to_json operation); [|intros [= _ <-]; apply only_pairings_refl].
  destruct (require db id _) as [current|]; [|intros [= _ <-]; apply only_pairings_refl].
  destruct (negb _); [intros [= _ <-]; apply only_pairings_refl|].
  destruct (planned_grant current); [intros [= _ <-]; apply only_pairings_refl|].
  destruct (update_pairings _ _ _) as [[n after]|] eqn:Eu; intros [= _ <-];
    [by eapply update_only|apply only_pairings_refl].
Qed.

(** A timed statement: nothing before the epoch, else one update. *)
Lemma timed_only (now : Z) (out : result PairingStoreError.t PairingSession) db condition change id db' :
  (if now <? 0 then (Err PairingStoreError.InvalidTime, db)
   else transition db id (fun db => update_pairings db condition change)) = (out, db') -> only_pairings db db'.
Proof. destruct (now <? 0); [intros [= _ <-]; apply only_pairings_refl|apply transition_only]. Qed.

Lemma confirm_only db id hash now out db' : confirm_pairing_session db id hash now = (out, db') -> only_pairings db db'.
Proof. apply timed_only. Qed.
Lemma cancel_only db id now out db' : cancel_pairing_session db id now = (out, db') -> only_pairings db db'.
Proof. apply timed_only. Qed.
Lemma complete_only db id grant now out db' :
  complete_pairing_session db id grant now = (out, db') -> only_pairings db db'.
Proof.
  unfold complete_pairing_session. destruct (now <? 0); [intros [= _ <-]; apply only_pairings_refl|].
  unfold transition. destruct (update_pairings _ _ _) as [[n after]|] eqn:Eu; intros [= _ <-];
    [by eapply update_only|apply only_pairings_refl].
Qed.
Lemma touch_only db id now out db' : touch_pairing_session db id now = (out, db') -> only_pairings db db'.
Proof.
  unfold touch_pairing_session. destruct (now <? 0); [intros [= _ <-]; apply only_pairings_refl|].
  destruct (update_pairings _ _ _) as [[n after]|] eqn:Eu; intros [= _ <-];
    [by eapply update_only|apply only_pairings_refl].
Qed.
Lemma expire_only db now out db' : expire_pairing_sessions db now = (out, db') -> only_pairings db db'.
Proof.
  unfold expire_pairing_sessions. destruct (now <? 0); [intros [= _ <-]; apply only_pairings_refl|].
  destruct (update_pairings _ _ _) as [[n after]|] eqn:Eu; intros [= _ <-];
    [by eapply update_only|apply only_pairings_refl].
Qed.

Lemma pairings_reachable db rows : reachable db -> reachable (with_pairings db rows).
Proof.
  intros Hr. apply (rtc_r _ _ _ Hr), (step_pairing _ _ rows (peer_request_nonces db)). by destruct db.
Qed.

(** Where the rows of a request come from. *)
Definition origin db db' : Prop := forall row', row' ∈ pairing_sessions db' ->
  exists row, row ∈ pairing_sessions db /\ row_evolves row row'.

Lemma effect_origin db db' : pairings_ok db -> effect db db' -> only_pairings db db' -> origin db db'.
Proof.
  intros [_ Hall] [[Hs _]|[(d & cbor & digest & now & _ & _ & _ & _ & ->)|(condition & change & n & Hw & Hu)]] Hl.
  - intros row. rewrite Hs. intros Hin. by exists row.
  - destruct Hl as (rows & E & Hl). apply (f_equal pairing_sessions) in E. cbn in E. subst rows.
    rewrite length_app in Hl. cbn in Hl. lia.
  - apply update_pairings_Ok in Hu as (_ & _ & ->). intros row' (row & Hin & ->)%update_elem.
    exists row. split; [done|]. destruct (condition row) eqn:Ec; [|done].
    apply (write_evolves db condition); [done|done|]. by apply ok_constraints with db, Hall.
Qed.

(** *** The repository's requests *)
Definition repository_frame db db' : Prop :=
  pairing_sessions db' = pairing_sessions db
  /\ (forall g, g ∈ capability_grants db -> g ∈ capability_grants db')
  /\ forall r, r ∈ capability_grant_revocations db -> r ∈ capability_grant_revocations db'.

Lemma inserted_frame db o received_at s db' : inserted db o received_at s db' -> repository_frame db db'.
Proof.
  intros Hi. split; [by apply inserted_pairings with o received_at s|]. split.
  - intros g Hg. rewrite (inserted_grants _ _ _ _ _ Hi). apply elem_of_app. by left.
  - intros g Hg. rewrite (inserted_revocations _ _ _ _ _ Hi). apply elem_of_app. by left.
Qed.

Lemma clock_frame db sampled effective db' :
  advance_admission_clock db sampled = Ok (effective, db') -> repository_frame db db'.
Proof. by intros (persisted & _ & _ & _ & ->)%advance_admission_clock_Ok. Qed.

#[export] Instance repository_frame_trans : Transitive repository_frame.
Proof. intros a b c (E1 & G1 & R1) (E2 & G2 & R2). split; [congruence|auto]. Qed.

Lemma submit_frame db space_id request out db' :
  Repository.submit_operation db space_id request = (out, db') -> typed_operation (submit_operation_ request) ->
  repository_frame db db'.
Proof.
  intros Hs Ht. apply submit_cases in Hs as [[-> _]|(effective & db1 & Ha & _ & _ & [[-> _]|(s & _ & _ & _ & Hi)])].
  - done.
  - by eapply clock_frame.
  - transitivity db1; [by eapply clock_frame|by eapply inserted_frame].
  - done.
Qed.

Lemma bootstrap_frame db request out db' :
  Repository.bootstrap_trusted_space db request = Some (out, db') -> repository_frame db db'.
Proof.
  unfold Repository.bootstrap_trusted_space. intros Hb.
  destruct (check verify_envelope _; _) as [[]|]; [|by injection Hb as _ <-].
  destruct (expected_space _ _) as [expected|]; [|done]. cbn [mbind option_bind] in Hb.
  destruct (advance_admission_clock db _) as [[effective db1]|] eqn:Ea; [|by injection Hb as _ <-].
  apply clock_frame in Ea. etrans; [exact Ea|]. injection Hb as Hb.
  apply commit_cases in Hb as [(result & Hres & _)|(e & _ & _ & ->)]; [|done].
  inv_ok. unfold bootstrap_transaction in Hres.
  destruct (load_space db1 _) as [[existing|]|]; [| |done].
  - by inv_ok.
  - destruct (constraint _); [|done]. destruct (insert_operation _ (genesis request) _) as [[s1 db2]|] eqn:E1; [|done].
    destruct (map_err _ _); [|done]. destruct (insert_operation db2 _ _) as [[s2 db3]|] eqn:E2; [|done]. inv_ok.
    apply insert_operation_Ok, inserted_frame in E1, E2. by etrans.
Qed.

Lemma peer_frame db request out db' :
  RepositoryQueries.peer_changes db request = (out, db') -> repository_frame db db'.
Proof.
  intros [(page & (rows & ->)%peer_transaction_Ok & _)|(e & _ & _ & ->)]%commit_cases; done.
Qed.

Lemma frame_ok db db' :
  pairings_ok db -> repository_frame db db' -> pairings_ok db' /\ origin db db' /\ evolves db db'.
Proof.
  intros Hok (Hs & Hg & _). destruct (effect_ok db db' Hok) as [Hok' He]; [by left|]. split; [done|]. split; [|done].
  intros row. rewrite Hs. intros Hin. by exists row.
Qed.

(** Deleting a space takes its sessions along. *)
Lemma delete_ok db space_id out db' :
  pairings_ok db -> RepositoryQueries.delete_space db space_id = (out, db') -> pairings_ok db' /\ origin db db'.
Proof.
  intros Hok Hd. destruct (deleted_sessions _ _ _ _ Hok Hd) as (Hok' & Hin & _). split; [done|].
  intros row Hr. exists row. split; [by apply Hin|done].
Qed.
End Databases.

(** ** Nodes *)
Definition active (s : PairingLifecycle.t) : Prop := ~ terminal s.

Lemma path_active s s' : rtc edge s s' -> active s' -> active s.
Proof. intros He Ha Ht. apply Ha. by rewrite (path_terminal _ _ He Ht). Qed.

Lemma active_states row :
  active (pairing_state row)
  <-> in_states [PairingLifecycle.Created; PairingLifecycle.Claimed; PairingLifecycle.Confirmed] row = true.
Proof.
  rewrite in_states_spec. unfold active, terminal. rewrite !elem_of_cons.
  destruct (pairing_state row); intuition (congruence || (by eapply not_elem_of_nil)).
Qed.

Section Nodes.
Context `{Sha256} `{Ed25519} `{HalfFloat} `{Base64} `{!Noise} `{!JsonNumber} `{!JsonSize}
  `{!ProjectionJson} `{!Lowercase} `{!Uuid7} `{!UrlParser} `{!PairingSecretVault}.
Implicit Types (db : Database) (row : PairingRow) (v : Vault) (n : Node).

(** The vault has the secret of every session that is not over. *)
Definition covers v db : Prop := forall row,
  row ∈ pairing_sessions db -> active (pairing_state row) -> holds v (pairing_invitation_id row).

Record node_ok n : Prop := {
  node_reachable : reachable (database n);
  node_pairings : pairings_ok (database n);
  node_covered : covers (secrets n) (database n)
}.

Lemma row_id_fixed db row : pairings_ok db -> row ∈ pairing_sessions db -> fixed 16 (pairing_invitation_id row).
Proof.
  intros [_ Hall] Hin. destruct (ok_descriptor _ _ (Hall row Hin)) as (d & Hd & _ & -> & _). by apply Hd.
Qed.

Lemma covers_origin v db db' : covers v db -> origin db db' -> covers v db'.
Proof.
  intros Hc Ho row' Hin Ha. destruct (Ho row' Hin) as (row & Hr & He).
  pose proof (evolves_identity _ _ He) as E. injection E as -> _ _ _ _ _. apply Hc; [done|].
  by apply (path_active _ _ (evolves_state _ _ He)).
Qed.

(** A change of the database that starts no session. *)
Lemma node_write n db' :
  node_ok n -> reachable db' -> pairings_ok db' -> origin (database n) db' ->
  node_ok (mkNode db' (secrets n) (entropy n)).
Proof. intros [_ _ Hc] Hr Hp Ho. constructor; [done|done|]. by apply (covers_origin _ (database n)). Qed.

Lemma node_entropy n e : node_ok n -> node_ok (mkNode (database n) (secrets n) e).
Proof. by intros []. Qed.

(** A new secret covers what the vault covered. *)
Lemma node_store n secret r v :
  node_ok n -> vault_store (secrets n) secret = (r, v) -> node_ok (mkNode (database n) v (entropy n)).
Proof.
  intros [Hr Hp Hc] Hs. constructor; [done|done|]. intros row Hin Ha. by apply (store_grows _ _ _ _ _ Hs), Hc.
Qed.

(** Removing a secret is safe once no session of the invitation is active. *)
Definition over (id : list Z) db : Prop := forall row,
  row ∈ pairing_sessions db -> pairing_invitation_id row = id -> ~ active (pairing_state row).

Lemma node_remove n id r v :
  node_ok n -> fixed 16 id -> over id (database n) -> vault_remove (secrets n) id = (r, v) ->
  node_ok (mkNode (database n) v (entropy n)).
Proof.
  intros [Hr Hp Hc] Hf Ho Hv. constructor; [done|done|]. intros row Hin Ha.
  apply (remove_keeps _ _ _ _ _ Hv); [done|by apply (row_id_fixed (database n))| |by apply Hc].
  intros E. by apply (Ho row).
Qed.

(** A new session is covered by a secret stored before it. *)
Lemma node_create n d now out db' :
  node_ok n -> issued d -> holds (secrets n) (InvitationDescriptor.invitation_id d) ->
  create_pairing_session (database n) d now = Some (out, db') ->
  node_ok (mkNode db' (secrets n) (entropy n)).
Proof.
  intros [Hr Hp Hc] Hd Hh Hcr. pose proof (create_effect _ _ _ _ _ Hd Hcr) as He.
  destruct (effect_ok _ _ Hp He) as [Hp' _]. constructor; [|done|].
  - destruct (create_only _ _ _ _ _ Hcr) as [rows ->]. by apply pairings_reachable.
  - unfold create_pairing_session in Hcr. destruct (_ || _); [by injection Hcr as _ <-|].
    destruct (InvitationDescriptor.canonical_bytes d) as [cbor|]; [|by injection Hcr as _ <-].
    destruct (InvitationDescriptor.digest d) as [digest|]; [|done]. unfold insert_or_ignore in Hcr.
    destruct (_ || _); [by injection Hcr as _ <-|].
    destruct (negb (exists_row _ (space_rows _))); injection Hcr as _ <-; [done|].
    intros row [Hin| ->%list_elem_of_singleton]%elem_of_app Ha; [by apply Hc|done].
Qed.

(** What only deleting a workspace takes back: rows stay and follow the lifecycle, and a
    revocation is forever. *)
Record grows db db' : Prop := {
  grows_sessions : evolves db db';
  grows_revocations : forall r, r ∈ capability_grant_revocations db -> r ∈ capability_grant_revocations db'
}.
#[export] Instance grows_refl : Reflexive grows.
Proof. by constructor. Qed.
#[export] Instance grows_trans : Transitive grows.
Proof. intros a b c [E1 R1] [E2 R2]. constructor; [by etrans|auto]. Qed.

Lemma create_grows db d now out db' :
  pairings_ok db -> issued d -> create_pairing_session db d now = Some (out, db') -> grows db db'.
Proof.
  intros Hp Hd Hc. destruct (effect_ok _ _ Hp (create_effect _ _ _ _ _ Hd Hc)) as [_ He]. constructor; [done|].
  by destruct (create_only _ _ _ _ _ Hc) as [rows ->].
Qed.

(** ** Calls *)

(** [m] keeps the node sound and takes nothing back; started from [P], a result
    satisfies [Q]. *)
Definition triple {E A} (P : Node -> Prop) (m : M E A) (Q : A -> Node -> Prop) : Prop :=
  forall n r n', node_ok n -> P n -> m n = Some (r, n') ->
    node_ok n' /\ grows (database n) (database n') /\ forall a, r = Ok a -> Q a n'.

Definition anywhere (_ : Node) : Prop := True.
Notation "'keeps' m" := (triple anywhere m (fun _ => anywhere)) (at level 10, m at level 9).

Lemma triple_weaken {E A} (P P' : Node -> Prop) (m : M E A) (Q Q' : A -> Node -> Prop) :
  triple P m Q -> (forall n, P' n -> P n) -> (forall a n, Q a n -> Q' a n) -> triple P' m Q'.
Proof. intros Hm HP HQ n r n' Hn HP' Hr. destruct (Hm n r n' Hn (HP n HP') Hr) as (? & ? & Hq). split; [done|auto]. Qed.

Lemma triple_pre {E A} (P P' : Node -> Prop) (m : M E A) Q :
  triple P m Q -> (forall n, node_ok n -> P' n -> P n) -> triple P' m Q.
Proof. intros Hm HP n r n' Hn HP'. by apply Hm; [|apply HP]. Qed.

Lemma triple_any {E A} (P : Node -> Prop) (m : M E A) (Q : A -> Node -> Prop) :
  triple P m Q -> triple P m (fun _ => anywhere).
Proof. intros Hm. apply (triple_weaken P P m Q); done. Qed.

Lemma triple_keeps {E A} (P : Node -> Prop) (m : M E A) : keeps m -> triple P m (fun _ => anywhere).
Proof. intros Hm. by apply (triple_weaken anywhere _ m (fun _ => anywhere)). Qed.

Lemma triple_bind {E A B} (P : Node -> Prop) (m : M E A) (k : A -> M E B) R Q :
  triple P m R -> (forall a, triple (R a) (k a) Q) -> triple P (bind m k) Q.
Proof.
  intros Hm Hk n r n' Hn HP. unfold bind. destruct (m n) as [[[a|e] n1]|] eqn:Em; [| |done].
  - destruct (Hm _ _ _ Hn HP Em) as (Hn1 & Hg & HR). intros Hr. destruct (Hk a n1 r n' Hn1 (HR a eq_refl) Hr) as (? & Hg' & ?).
    split; [done|]. split; [by etrans|done].
  - destruct (Hm _ _ _ Hn HP Em) as (Hn1 & Hg & _). by intros [= <- <-].
Qed.

Lemma triple_ret {E A} (P : Node -> Prop) (a : A) (Q : A -> Node -> Prop) :
  (forall n, node_ok n -> P n -> Q a n) -> triple P (ret (E := E) a) Q.
Proof. intros HQ n r n' Hn HP [= <- <-]. split; [done|]. split; [done|]. intros a' [= <-]. auto. Qed.

Lemma triple_fail {E A} (P : Node -> Prop) (e : E) (Q : A -> Node -> Prop) : triple P (fail e) Q.
Proof. by intros n r n' Hn _ [= <- <-]. Qed.

Lemma triple_map_error {E F A} (P : Node -> Prop) (f : E -> F) (m : M E A) Q :
  triple P m Q -> triple P (map_error f m) Q.
Proof.
  intros Hm n r n' Hn HP. unfold map_error. destruct (m n) as [[r1 n1]|] eqn:Em; [|done]. intros [= <- <-].
  destruct (Hm _ _ _ Hn HP Em) as (Hn1 & Hg & HQ). split; [done|]. split; [done|]. destruct r1; [|done].
  intros a' [= <-]. by apply HQ.
Qed.

Lemma triple_attempt {E F A} (P : Node -> Prop) (m : M E A) (Q : A -> Node -> Prop) :
  triple P m Q -> triple P (attempt (F := F) m) (fun r n => forall a, r = Ok a -> Q a n).
Proof.
  intros Hm n r n' Hn HP. unfold attempt. destruct (m n) as [[r1 n1]|] eqn:Em; [|done]. intros [= <- <-].
  destruct (Hm _ _ _ Hn HP Em) as (Hn1 & Hg & HQ). split; [done|]. split; [done|]. intros ? [= <-]. done.
Qed.

Lemma triple_lift {E A} (P : Node -> Prop) (r : result E A) (Q : A -> Node -> Prop) :
  (forall a n, r = Ok a -> node_ok n -> P n -> Q a n) -> triple P (lift r) Q.
Proof. intros HQ n r' n' Hn HP [= <- <-]. split; [done|]. split; [done|]. intros a Ha. auto. Qed.

Lemma triple_no_panic {E A} (P : Node -> Prop) (o : option A) (Q : A -> Node -> Prop) :
  (forall a n, o = Some a -> node_ok n -> P n -> Q a n) -> triple P (no_panic (E := E) o) Q.
Proof. intros HQ n r n' Hn HP. unfold no_panic. destruct o; [|done]. intros [= <- <-]. do 2 (split; [done|]). intros ? [= <-]. auto. Qed.

Lemma triple_reading {E A} (P : Node -> Prop) (f : Database -> result E A) (Q : A -> Node -> Prop) :
  (forall a n, f (database n) = Ok a -> node_ok n -> P n -> Q a n) -> triple P (reading f) Q.
Proof. intros HQ n r n' Hn HP [= <- <-]. do 2 (split; [done|]). intros a Ha. auto. Qed.

Lemma triple_of_vault {E A} (P : Node -> Prop) (f : Vault -> result E A) (Q : A -> Node -> Prop) :
  (forall a n, f (secrets n) = Ok a -> node_ok n -> P n -> Q a n) -> triple P (of_vault f) Q.
Proof. intros HQ n r n' Hn HP [= <- <-]. do 2 (split; [done|]). intros a Ha. auto. Qed.

Lemma triple_drawing {E A} (P : Node -> Prop) (f : Entropy -> result E A * Entropy) (Q : A -> Prop) :
  (forall e a e', f e = (Ok a, e') -> Q a) -> triple P (drawing f) (fun a _ => Q a).
Proof.
  intros HQ n r n' Hn HP. unfold drawing. destruct (f (entropy n)) as [r1 e] eqn:Ef. intros [= <- <-].
  split; [by apply node_entropy|]. split; [done|]. intros a ->. by eapply HQ.
Qed.

(** A write that follows the lifecycle and starts no session. *)
Definition harmless db db' : Prop := reachable db' /\ pairings_ok db' /\ origin db db' /\ grows db db'.

Lemma triple_writing {E A} (P : Node -> Prop) (f : Database -> result E A * Database) (Q : A -> Node -> Prop) :
  (forall n r db', node_ok n -> P n -> f (database n) = (r, db') ->
     harmless (database n) db' /\ forall a, r = Ok a -> Q a (mkNode db' (secrets n) (entropy n))) ->
  triple P (writing f) Q.
Proof.
  intros Hf n r n' Hn HP. unfold writing. destruct (f (database n)) as [r1 db'] eqn:Ef. intros [= <- <-].
  destruct (Hf n r1 db' Hn HP Ef) as ((Hr & Hp & Ho & Hg) & HQ). split; [by apply node_write|done].
Qed.

Lemma triple_writing_or_panic {E A} (P : Node -> Prop) (f : Database -> option (result E A * Database))
    (Q : A -> Node -> Prop) :
  (forall n r db', node_ok n -> P n -> f (database n) = Some (r, db') ->
     harmless (database n) db' /\ forall a, r = Ok a -> Q a (mkNode db' (secrets n) (entropy n))) ->
  triple P (writing_or_panic f) Q.
Proof.
  intros Hf n r n' Hn HP. unfold writing_or_panic. destruct (f (database n)) as [[r1 db']|] eqn:Ef; [|done].
  intros [= <- <-]. destruct (Hf n r1 db' Hn HP Ef) as ((Hr & Hp & Ho & Hg) & HQ). split; [by apply node_write|done].
Qed.

(** Facts about values, not about the node. *)
Lemma triple_pure {E A} (fact : Prop) (m : M E A) Q : (fact -> triple anywhere m Q) -> triple (fun _ => fact) m Q.
Proof. intros Hm n r n' Hn Hf. by apply Hm. Qed.

Lemma bind_fact {E A B} (fact : A -> Prop) (m : M E A) (k : A -> M E B) Q :
  triple anywhere m (fun a _ => fact a) -> (forall a, fact a -> triple anywhere (k a) Q) ->
  triple anywhere (bind m k) Q.
Proof. intros Hm Hk. apply (triple_bind _ _ _ (fun a _ => fact a)); [done|]. intros a. by apply triple_pure, Hk. Qed.

Lemma bind_keeps {E A B} (m : M E A) (k : A -> M E B) Q :
  keeps m -> (forall a, triple anywhere (k a) Q) -> triple anywhere (bind m k) Q.
Proof. intros Hm Hk. apply (bind_fact (fun _ => True)); [|done]. by apply (triple_weaken anywhere _ m (fun _ => anywhere)). Qed.

Lemma triple_the {A} (o : option A) e : triple anywhere (NodePairingControl.the o e) (fun a _ => o = Some a).
Proof. apply triple_lift. intros a n Ho _ _. by destruct o; inversion Ho. Qed.

Lemma keeps_ret {E A} (a : A) : keeps (ret (E := E) a).
Proof. by apply triple_ret. Qed.

Lemma keeps_lift {E A} (r : result E A) : keeps (lift r).
Proof. by apply triple_lift. Qed.

Lemma lift_fact {E A} (r : result E A) : triple anywhere (lift r) (fun a _ => r = Ok a).
Proof. by apply triple_lift. Qed.

Lemma keeps_reading {E A} (f : Database -> result E A) : keeps (reading f).
Proof. by apply triple_reading. Qed.

Lemma keeps_writing {E A} (f : Database -> result E A * Database) :
  (forall n r db', node_ok n -> f (database n) = (r, db') -> harmless (database n) db') -> keeps (writing f).
Proof. intros Hf. apply triple_writing. intros n r db' Hn _ Hw. split; [by eapply Hf|done]. Qed.

(** ** The operations of the store *)
Lemma pairing_harmless db db' :
  reachable db -> pairings_ok db -> request db db' -> only_pairings db db' -> harmless db db'.
Proof.
  intros Hr Hp Hq Ho. pose proof (request_effect _ _ (proj1 Hp) Hq) as He.
  destruct (effect_ok db db' Hp He) as [Hp' Hev]. split; [|split; [done|split; [by apply effect_origin|]]].
  - destruct Ho as (rows & -> & _). by apply pairings_reachable.
  - constructor; [done|]. by destruct Ho as (rows & -> & _).
Qed.

Lemma frame_harmless db db' :
  reachable db -> pairings_ok db -> step db db' -> repository_frame db db' -> harmless db db'.
Proof.
  intros Hr Hp Hs Hf. destruct (frame_ok db db' Hp Hf) as (Hp' & Ho & He). split; [by apply (rtc_r _ _ _ Hr)|].
  do 2 (split; [done|]). constructor; [done|apply Hf].
Qed.
End Nodes.

(** ** The operations of the control *)
Section Control.
Context `{Sha256} `{Ed25519} `{HalfFloat} `{Base64} `{!Noise} `{!JsonNumber} `{!JsonSize}
  `{!ProjectionJson} `{!Lowercase} `{!Uuid7} `{!UrlParser} `{!PairingSecretVault}.
Implicit Types (db : Database) (row : PairingRow) (v : Vault) (n : Node).
Context (Hjson : json_exact).
Notation "'keeps' m" := (triple anywhere m (fun _ => anywhere)) (at level 10, m at level 9).

(** What a session read from a sound node is made of. *)
Record session_typed (s : PairingSession) : Prop := {
  typed_session_id : fixed 16 (session_invitation_id s);
  typed_session_descriptor : issued (descriptor s);
  typed_session_subject : forall subject, subject_actor_id s = Some subject -> fixed 32 subject;
  typed_session_plan : forall operation, planned_grant s = Some operation -> typed_operation operation
}.

Lemma row_session db row session :
  pairings_ok db -> row ∈ pairing_sessions db -> decode row = Ok session -> session_typed session.
Proof.
  intros Hp Hin Hd. pose proof (proj2 Hp row Hin) as Hok.
  destruct (decode_Ok _ _ Hd) as (_ & Hid & Hf & Hs & _). destruct (decode_rest _ _ Hd) as (_ & _ & _ & Hpl).
  constructor.
  - rewrite Hid. by apply (row_id_fixed db).
  - by apply (session_descriptor db row).
  - intros subject Hsub. rewrite Hs in Hsub. destruct (ok_claim _ _ Hok) as (d & claim & _ & Ht & _ & _ & _ & Ec).
    { apply (ok_joined _ _ Hok). congruence. }
    rewrite Hsub in Ec. injection Ec as ->. apply Ht.
  - intros operation Ho. destruct (pairing_planned_grant_json row) as [text|] eqn:Et; [|congruence].
    destruct Hpl as (operation' & Hj & E). rewrite E in Ho. injection Ho as <-.
    destruct (ok_plan _ _ Hok text Et) as (o & grant & Hty & Hv & Hb & Htj & _).
    rewrite (json_floatless Hjson o text Hty Hv ltac:(by rewrite Hb) Htj) in Hj. by injection Hj as <-.
Qed.

Lemma load_typed db id session : pairings_ok db -> load db id = Ok (Some session) -> session_typed session.
Proof.
  unfold load. intros Hp. destruct (query_row _ _) as [row|] eqn:Eq; [|done].
  destruct (decode row) as [s|] eqn:Ed; [|done]. intros [= <-]. apply query_id_elem in Eq as [Hin _].
  by apply (row_session db row).
Qed.

Lemma load_row db id session :
  load db id = Ok (Some session) ->
  exists row, query_row (has_id id) (pairing_sessions db) = Some row /\ decode row = Ok session.
Proof.
  unfold load. destruct (query_row _ _) as [row|] eqn:Eq; [|done].
  destruct (decode row) as [s|] eqn:Ed; [|done]. intros [= <-]. by exists row.
Qed.

Lemma require_load db id e session : require db id e = Ok session <-> load db id = Ok (Some session).
Proof.
  unfold require. destruct (load db id) as [[s|]|]; cbn; [|done|done]. split; by intros [= ->].
Qed.

(** The session a statement returns is that of the table it leaves. *)
Lemma transition_load db id operation session db' :
  transition db id operation = (Ok session, db') -> load db' id = Ok (Some session).
Proof.
  unfold transition. destruct (operation db) as [[changed after]|]; [|done].
  intros [= Hr <-]. destruct (negb _); [done|]. by apply require_load in Hr.
Qed.

Lemma timed_load (now : Z) db id operation session db' :
  (if now <? 0 then (Err PairingStoreError.InvalidTime, db) else transition db id operation) = (Ok session, db') ->
  load db' id = Ok (Some session).
Proof. destruct (now <? 0); [done|]. apply transition_load. Qed.

Lemma plan_load db id operation now session db' :
  plan_pairing_grant db id operation now = (Ok session, db') -> load db' id = Ok (Some session).
Proof.
  unfold plan_pairing_grant. destruct (OperationEnvelope.verify operation); [|done]. destruct (_ || _); [done|].
  destruct (OperationEnvelope.body operation); try done. destruct (to_json operation); [|done].
  destruct (require db id _) as [current|] eqn:Er; [|done]. destruct (negb _); [done|].
  destruct (planned_grant current).
  - destruct (envelope_eqb _ _); [|done]. intros [= <- <-]. by apply require_load in Er.
  - destruct (update_pairings _ _ _) as [[changed after]|]; [|done]. intros [= Hr <-].
    destruct (negb _); [done|]. by apply require_load in Hr.
Qed.

Lemma claim_load db d claim hash token first response receipt now session db' :
  claim_pairing_session db d claim hash token first response receipt now = Some (Ok session, db') ->
  load db' (InvitationDescriptor.invitation_id d) = Ok (Some session).
Proof.
  unfold claim_pairing_session. destruct (JoinerClaim.verify_for claim d) as [[]|]; [|done|done].
  destruct (invalid_claim _ _ _ _ _); [done|]. destruct (require db _ _); [|done]. destruct (negb _); [done|].
  destruct (_ <=? _).
  - unfold expire_claimed. destruct (eqb _ _); [|done]. by destruct (update_pairings _ _ _) as [[? ?]|].
  - destruct (JoinerClaim.digest claim); [|done]. unfold commit_claim.
    destruct (update_pairings _ _ _) as [[changed after]|]; [|done]. destruct (negb _); [done|].
    destruct (require after _ _) eqn:Er; [|done]. intros [= <- <-]. by apply require_load in Er.
Qed.

(** A state that is over stays in the table. *)
Lemma load_over db id session :
  NoDup (ids db) -> load db id = Ok (Some session) -> terminal (session_state session) -> over id db.
Proof.
  intros Hn (row & Hq & Hd)%load_row Ht row' Hin Hid Ha. apply Ha.
  rewrite (loaded_rows db id row Hn Hq row' Hin) by by apply has_id_eq.
  by destruct (decode_Ok _ _ Hd) as (<- & _).
Qed.
(** *** Operations the control signs *)
Lemma sign_typed space entity schema auth now nonce body key operation :
  fixed 32 space -> fixed 16 entity -> Forall (fixed 32) auth -> in_i 64 now -> fixed 16 nonce -> body_typed body ->
  OperationEnvelope.sign space entity schema [] auth now nonce body key = Ok operation ->
  typed_operation operation.
Proof.
  intros Hs He Ha Ht Hn Hb Hsign.
  destruct (sign_fields _ _ _ _ _ _ _ _ _ Hs He (List.Forall_nil _) Ha Ht Hn Hb _ Hsign)
    as (_ & Hc & _ & _ & _ & _ & _ & _ & _ & _ & _ & E). split; [done|]. by rewrite E.
Qed.

(** The identity of a verified operation is a hash. *)
Lemma verified_id operation :
  typed_operation operation -> OperationEnvelope.verify operation = Ok tt ->
  fixed 32 (OperationEnvelope.operation_id operation).
Proof.
  intros Ht Hv. destruct (verify_Ok _ (proj1 Ht) (proj2 Ht) Hv) as (s & p & Hver).
  rewrite (verified_fields _ _ _ Hver). cbn. pose proof (verified_parses _ _ _ Hver) as Hp.
  apply from_cose_sign1_Ok in Hp as ((-> & _) & _); [|apply Ht]. apply sha256_fixed.
Qed.

(** The genesis of a trusted space is a hash. *)
Lemma reachable_genesis db space :
  reachable db -> space ∈ space_rows db -> fixed 32 (genesis_operation_id space).
Proof.
  unfold reachable. intros Hr. assert (Hinv : forall a b, rtc step a b ->
    (forall x, x ∈ space_rows a -> fixed 32 (genesis_operation_id x)) ->
    forall x, x ∈ space_rows b -> fixed 32 (genesis_operation_id x)).
  2:{ apply (Hinv fresh_database db Hr). by intros x ?%not_elem_of_nil. }
  clear db space Hr. induction 1 as [|a b c Hs _ IH]; [done|]. intros Ha. apply IH.
  destruct Hs as [request out Htg _ Hb|space_id request out Ht Hsub|space_id out Hd|request out Hp|rows nonces ->].
  - unfold Repository.bootstrap_trusted_space in Hb.
    destruct (verify_envelope (genesis request)) as [[]|] eqn:Ev; [|by injection Hb as _ <-].
    destruct (check verify_envelope (initial_grant request); _) as [[]|] eqn:Ev2; [|by injection Hb as _ <-].
    destruct (expected_space _ _) as [expected|] eqn:Ee; [|done]. cbn [mbind option_bind] in Hb.
    destruct (advance_admission_clock a _) as [[effective a1]|] eqn:Eclock; [|by injection Hb as _ <-].
    apply advance_admission_clock_Ok in Eclock as (_ & _ & _ & _ & ->). injection Hb as Hb.
    apply commit_cases in Hb as [(result & Hres & _)|(e & _ & _ & ->)]; [|done]. inv_ok.
    unfold bootstrap_transaction in Hres. destruct (load_space _ _) as [[existing|]|]; [| |done].
    + by inv_ok.
    + destruct (constraint _); [|done]. destruct (insert_operation _ (genesis request) _) as [[s1 db2]|] eqn:E1; [|done].
      destruct (map_err _ _); [|done]. destruct (insert_operation db2 _ _) as [[s2 db3]|] eqn:E2; [|done]. inv_ok.
      apply insert_operation_Ok in E1, E2. intros x. rewrite (inserted_spaces _ _ _ _ _ E2), (inserted_spaces _ _ _ _ _ E1).
      cbn. intros [Hx| ->%list_elem_of_singleton]%elem_of_app; [by apply Ha|].
      unfold expected_space in Ee. destruct (OperationEnvelope.body _); try done. injection Ee as <-. cbn.
      apply verify_envelope_Ok in Ev. by apply verified_id.
  - apply submit_cases in Hsub as [[-> _]|(effective & db1 & Hc & _ & _ & [[-> _]|(s & _ & _ & _ & Hi)])].
    + done.
    + by apply advance_admission_clock_Ok in Hc as (_ & _ & _ & _ & ->).
    + rewrite (inserted_spaces _ _ _ _ _ Hi). by apply advance_admission_clock_Ok in Hc as (_ & _ & _ & _ & ->).
    + done.
  - apply commit_cases in Hd as [(u & Hd & _)|(e & _ & _ & ->)]; [|done].
    apply delete_transaction_Ok in Hd as (_ & _ & _ & Hs & _). intros x. rewrite Hs, elem_of_delete_rows.
    intros [Hx _]. by apply Ha.
  - apply commit_cases in Hp as [(page & (rows & ->)%peer_transaction_Ok & _)|(e & _ & _ & ->)]; done.
  - done.
Qed.
(** *** Parts *)
Import NodePairingControl.

Lemma random_fixed k : triple anywhere (random k) (fun bytes _ => fixed k bytes).
Proof.
  apply triple_drawing. intros e a e'. destruct (fill k e) as [[b|] e1] eqn:Ef; intros [= <- <-].
  by apply (fill_fixed k e _ e1).
Qed.

Lemma session_read id :
  triple anywhere (session_of id) (fun o n => forall s, o = Some s -> load (database n) id = Ok (Some s)).
Proof. apply triple_map_error, triple_reading. by intros o n Hr _ _ s ->. Qed.

Lemma session_fact id : triple anywhere (session_of id) (fun o _ => forall s, o = Some s -> session_typed s).
Proof.
  apply triple_map_error, triple_reading. intros o n Hr Hn _ s ->.
  apply (load_typed (database n) id); [apply Hn|done].
Qed.

Lemma uuid_time_fact now a b : triple anywhere (uuid_time now a b) (fun t _ => t = now /\ 0 <= now < 2 ^ 48).
Proof.
  unfold uuid_time. destruct (Z.ltb_spec now 0); [apply triple_fail|].
  destruct (Z.ltb_spec (2 ^ 48 - 1) now); [apply triple_fail|]. apply triple_ret. intros. split; [done|lia].
Qed.

Lemma to_grant_typed g subject grant :
  template_typed g -> fixed 32 subject -> CapabilityGrantTemplate.to_grant g subject = Ok grant -> grant_typed grant.
Proof. intros [] Hs. unfold CapabilityGrantTemplate.to_grant. intros Hg. by inv_ok. Qed.

Lemma plan_written id operation now :
  typed_operation operation ->
  triple anywhere (map_error store_error (writing (fun db => plan_pairing_grant db id operation now)))
    (fun s _ => session_typed s).
Proof.
  intros Ht. apply triple_map_error, triple_writing. intros n r db' Hn _ Hw.
  assert (Hh : harmless (database n) db').
  { apply pairing_harmless; [apply Hn|apply Hn|by eapply request_plan|by eapply plan_only]. }
  split; [done|]. intros s ->. by apply (load_typed db' id); [apply Hh|eapply plan_load].
Qed.

Lemma plan_grant_typed identity attempts session grant now :
  session_typed session -> grant_typed grant -> 0 <= now < 2 ^ 48 ->
  triple anywhere (plan_grant identity attempts session grant now) (fun o _ => typed_operation o).
Proof.
  intros Hs Hg Ht. pose proof (issued_typed _ (typed_session_descriptor _ Hs)) as Hd.
  induction attempts as [|attempts IH]; [apply triple_fail|]. cbn [plan_grant].
  apply bind_keeps; [eapply triple_any, random_fixed|]. intros bytes.
  apply bind_keeps; [by apply triple_map_error, keeps_reading|]. intros taken. destruct (is_some taken); [done|].
  apply (bind_fact (fixed 16)); [apply random_fixed|]. intros nonce Hn.
  apply (bind_fact (fun o => typed_operation o)).
  - apply triple_lift. intros o n Ho _ _. destruct (OperationEnvelope.sign _ _ _ _ _ _ _ _ _) as [o'|] eqn:Es; [|done].
    apply Ok_inj in Ho as ->. revert Es. apply sign_typed; [apply Hd|apply uuid_v7_fixed| | |done|done].
    + constructor; [apply Hd|constructor].
    + unfold in_i. lia.
  - intros o Ho. apply (bind_fact (fun s => session_typed s)); [by apply plan_written|]. intros planned Hp.
    eapply triple_weaken; [apply triple_the|done|]. intros o1 n Ho1. by apply (typed_session_plan _ Hp).
Qed.

Lemma grant_planned identity session now :
  session_typed session ->
  triple anywhere (planned_or_new_grant identity session now) (fun o _ => typed_operation o).
Proof.
  intros Hs. unfold planned_or_new_grant. destruct (planned_grant session) as [operation|] eqn:Ep.
  - apply triple_ret. intros n _ _. by apply (typed_session_plan _ Hs).
  - eapply bind_fact; [apply triple_the|]. intros subject Hsub.
    eapply bind_fact; [apply lift_fact|]. intros grant Hg.
    eapply bind_fact; [apply uuid_time_fact|]. intros t [-> Ht]. apply plan_grant_typed; [done| |done].
    destruct (CapabilityGrantTemplate.to_grant _ _) as [g|] eqn:Eg; [|done]. apply Ok_inj in Hg as ->.
    revert Eg. apply to_grant_typed; [apply (typed_session_descriptor _ Hs)|by apply (typed_session_subject _ Hs)].
Qed.

Lemma submitted_keeps {E} (f : RepositoryError -> E) space_id operation now :
  typed_operation operation ->
  keeps (map_error f (writing (fun db => Repository.submit_operation db space_id (mkSubmit operation now)))).
Proof.
  intros Ht. apply triple_map_error, keeps_writing. intros n r db' Hn Hw.
  apply frame_harmless; [apply Hn|apply Hn| |].
  - by apply (step_submit _ _ space_id (mkSubmit operation now) r).
  - by eapply submit_frame.
Qed.
(** *** The coordinated store *)
Lemma create_refused db d now e db' :
  pairings_ok db -> issued d -> create_pairing_session db d now = Some (Err e, db') -> db' = db.
Proof.
  intros Hp Hd Hc. pose proof (create_effect _ _ _ _ _ Hd Hc) as He. destruct (effect_ok _ _ Hp He) as [Hp' _].
  revert Hc. unfold create_pairing_session. destruct (_ || _); [by intros [= _ <-]|].
  destruct (InvitationDescriptor.canonical_bytes d) as [cbor|]; [|by intros [= _ <-]].
  destruct (InvitationDescriptor.digest d) as [digest|]; [|done].
  destruct (insert_or_ignore db _) as [[inserted after]|] eqn:Ei; [|by intros [= _ <-]].
  intros [= Hr <-]. unfold insert_or_ignore in Ei.
  destruct (_ || _); [by inv_ok|]. destruct (negb (exists_row _ (space_rows db))); [done|]. inv_ok.
  exfalso. set (row := created_row d cbor digest now) in *.
  assert (Hin : row ∈ pairing_sessions (with_pairings db (pairing_sessions db ++ [row])))
    by (apply elem_of_app; right; by left).
  destruct (decode_total _ _ Hjson (proj2 Hp' row Hin)) as [session Hs].
  pose proof (query_id _ row (proj1 Hp') Hin) as Hq. cbn [pairing_invitation_id row created_row] in Hq.
  unfold require, load in Hr. by rewrite Hq, Hs in Hr.
Qed.

Lemma uncovered_over n id : node_ok n -> ~ holds (secrets n) id -> over id (database n).
Proof. intros [_ _ Hc] Hh row Hin <- Ha. by apply Hh, Hc. Qed.

Lemma create_keeps i now :
  issued (PairingInvitation.descriptor (PairingInvitation.invitation i)) ->
  ResponderInvitationSecret.invitation_id (PairingInvitation.secret i)
  = InvitationDescriptor.invitation_id (PairingInvitation.descriptor (PairingInvitation.invitation i)) ->
  triple anywhere (DurablePairing.create i now) (fun s _ => session_typed s).
Proof.
  intros Hd Hid n r n' Hn _. unfold DurablePairing.create, bind, map_error, in_vault.
  destruct (vault_store (secrets n) _) as [[replayed|e] v] eqn:Es; cbn [map_err].
  2:{ intros [= <- <-]. split; [by eapply node_store|done]. }
  pose proof (node_store _ _ _ _ Hn Es) as Hn1. destruct (store_Ok _ _ _ _ Es) as [Hh Hrep].
  rewrite Hid in Hh, Hrep. unfold attempt, writing_or_panic. cbn [database secrets entropy].
  destruct (create_pairing_session (database n) _ now) as [[[session|e] db']|] eqn:Ec; [| |done].
  - intros [= <- <-]. pose proof (node_create _ _ _ _ _ Hn1 Hd Hh Ec) as Hn2. split; [done|].
    split; [by apply (create_grows _ _ _ _ _ (node_pairings _ Hn) Hd Ec)|]. intros a [= <-]. apply (load_typed db' (InvitationDescriptor.invitation_id
      (PairingInvitation.descriptor (PairingInvitation.invitation i)))); [apply Hn2|].
    revert Ec. unfold create_pairing_session. destruct (_ || _); [done|].
    destruct (InvitationDescriptor.canonical_bytes _); [|done]. destruct (InvitationDescriptor.digest _); [|done].
    destruct (insert_or_ignore _ _) as [[inserted after]|]; [|done]. intros [= Hr <-].
    destruct (require after _ _) as [s|] eqn:Er; [|done]. destruct (_ && _); [done|]. apply Ok_inj in Hr as <-.
    by apply require_load in Er.
  - pose proof (create_refused _ _ _ _ _ (node_pairings _ Hn) Hd Ec) as ->. destruct replayed; cbn [negb].
    + intros [= <- <-]. by split.
    + cbn [database secrets entropy map_err]. destruct (vault_remove v (ResponderInvitationSecret.invitation_id (PairingInvitation.secret i))) as [[was|e1] v1] eqn:Er;
        cbn [map_err]; intros [= <- <-]; (split; [|done]);
        (refine (node_remove _ _ _ _ Hn1 _ _ Er); rewrite Hid; [apply Hd|]);
        (apply (uncovered_over n); [done|]; intros Hx; by apply Hrep in Hx).
Qed.

(** A statement that ends the session of an invitation. *)
Lemma transition_over db id operation condition change session db' :
  NoDup (ids db) -> operation db = update_pairings db condition change ->
  (forall row, condition row = true -> has_id id row = true) ->
  (forall row, pairing_invitation_id (change row) = pairing_invitation_id row /\ terminal (pairing_state (change row))) ->
  transition db id operation = (Ok session, db') -> over id db'.
Proof.
  intros Hn Ho Hc Hk. unfold transition. rewrite Ho. destruct (update_pairings _ _ _) as [[changed after]|] eqn:Eu; [|done].
  intros [= Hr <-]. destruct (Z.eqb_spec changed 1) as [->|]; cbn [negb] in Hr; [|done].
  apply update_pairings_Ok in Eu as (_ & E1 & ->). destruct (select _ _) as [|row rest] eqn:Es; [done|].
  assert (Hrow : row ∈ select condition (pairing_sessions db)) by (rewrite Es; left).
  unfold select in Hrow. apply list_elem_of_In, filter_In in Hrow as [Hin Hcr]. apply list_elem_of_In in Hin.
  intros row' (row1 & Hin1 & ->)%update_elem Hid Ha. destruct (condition row1) eqn:Ec.
  - by apply Ha, Hk.
  - assert (row1 = row) as ->; [|congruence]. apply (unique_row (pairing_sessions db)); [done|done|done|].
    apply Hc, has_id_eq in Hcr. congruence.
Qed.

Lemma remove_keeps_over {E} (f : VaultError -> E) id :
  fixed 16 id ->
  triple (fun n => over id (database n)) (map_error f (in_vault (fun v => vault_remove v id))) (fun _ => anywhere).
Proof.
  intros Hf. apply triple_map_error. intros n r n' Hn Ho. unfold in_vault.
  destruct (vault_remove (secrets n) id) as [r1 v] eqn:Er. intros [= <- <-]. split; [by eapply node_remove|done].
Qed.

Lemma ended_keeps id (f : Database -> result PairingStoreError.t PairingSession * Database) :
  fixed 16 id ->
  (forall n r db', node_ok n -> f (database n) = (r, db') -> harmless (database n) db'
     /\ forall s, r = Ok s -> load db' id = Ok (Some s) /\ over id db') ->
  triple anywhere
    (let* session := map_error DurablePairing.OfDatabase (writing f) in
     run* map_error DurablePairing.Secrets (in_vault (fun v => vault_remove v id));
     ret session) (fun s _ => session_typed s).
Proof.
  intros Hf Hw. apply (triple_bind _ _ _ (fun s n => over id (database n) /\ session_typed s)).
  - apply triple_map_error, triple_writing. intros n r db' Hn _ Hr. destruct (Hw n r db' Hn Hr) as [Hh Hs].
    split; [done|]. intros s ->. destruct (Hs s eq_refl) as [Hl Ho]. split; [done|]. by apply (load_typed db' id); [apply Hh|].
  - intros s n r n' Hn [Ho Ht] Hr.
    assert (Hgoal : triple (fun n => over id (database n)) (run* map_error DurablePairing.Secrets
      (in_vault (fun v => vault_remove v id)); ret s) (fun s _ => session_typed s)).
    { apply (triple_bind _ _ _ (fun _ => anywhere)); [by apply remove_keeps_over|]. intros _. by apply triple_ret. }
    by apply (Hgoal n).
Qed.

Lemma cancel_keeps id now : fixed 16 id -> triple anywhere (DurablePairing.cancel id now) (fun s _ => session_typed s).
Proof.
  intros Hf. apply ended_keeps; [done|]. intros n r db' Hn Hr. split.
  - apply pairing_harmless; [apply Hn|apply Hn|by eapply request_cancel|by eapply cancel_only].
  - intros s ->. split; [by eapply timed_load|]. unfold cancel_pairing_session in Hr. destruct (now <? 0); [done|].
    refine (transition_over _ id _ (cancellable id) (cancelled now) _ _ (proj1 (node_pairings _ Hn)) eq_refl _ _ Hr).
    + intros row Hc. by apply andb_true_iff in Hc as [? _].
    + intros row. split; [done|right; by left].
Qed.

Lemma complete_keeps id grant now :
  fixed 16 id -> triple anywhere (DurablePairing.complete id grant now) (fun s _ => session_typed s).
Proof.
  intros Hf. apply ended_keeps; [done|]. intros n r db' Hn Hr. split.
  - apply pairing_harmless; [apply Hn|apply Hn|by eapply request_complete|by eapply complete_only].
  - intros s ->. split; [by eapply timed_load|]. unfold complete_pairing_session in Hr. destruct (now <? 0); [done|].
    refine (transition_over _ id _ (completable (database n) id grant) (completed grant now) _ _
      (proj1 (node_pairings _ Hn)) eq_refl _ _ Hr).
    + intros row Hc. by do 3 apply andb_true_iff in Hc as [Hc _].
    + intros row. split; [done|by left].
Qed.
(** *** Reconciliation *)
Lemma active_listed db sessions :
  active_pairing_sessions db = Ok sessions ->
  forall id, id ∈ List.map session_invitation_id sessions
    <-> exists row, row ∈ pairing_sessions db /\ pairing_invitation_id row = id /\ active (pairing_state row).
Proof.
  unfold active_pairing_sessions, list_sessions. set (rows := merge_sort _ _). intros Ha. inv_ok.
  match goal with Hc : collect decode _ = Ok ?l, Hl : (_ <? length ?l)%nat = false |- _ =>
    rename Hc into Hcol, Hl into Hlen end.
  apply collect_Ok in Hcol. bool_prop. pose proof (Forall2_length _ _ _ Hcol) as El.
  rewrite length_take in El. rewrite take_ge in Hcol by lia.
  assert (Hrows : forall row, row ∈ rows <-> row ∈ pairing_sessions db /\ active (pairing_state row)).
  { intros row. unfold rows. rewrite merge_sort_Permutation. unfold select.
    rewrite list_elem_of_In, filter_In, <- list_elem_of_In. by rewrite active_states. }
  intros id. split.
  - intros (s & -> & Hs)%list_elem_of_fmap. apply list_elem_of_lookup in Hs as [i Hi].
    destruct (Forall2_lookup_r _ _ _ _ _ Hcol Hi) as (row & Hrow & Hdec).
    apply list_elem_of_lookup_2, Hrows in Hrow as [Hin Hst]. exists row. split; [done|]. split; [|done].
    by destruct (decode_Ok _ _ Hdec) as (_ & <- & _).
  - intros (row & Hin & <- & Hst). assert (Hrow : row ∈ rows) by by apply Hrows.
    apply list_elem_of_lookup in Hrow as [i Hi]. destruct (Forall2_lookup_l _ _ _ _ _ Hcol Hi) as (s & Hs & Hdec).
    destruct (decode_Ok _ _ Hdec) as (_ & <- & _).
    by apply (list_elem_of_fmap_2 session_invitation_id), (list_elem_of_lookup_2 _ i).
Qed.

Lemma contains_false `{EqDecision A} (a : A) l : contains a l = false <-> a ∉ l.
Proof. unfold contains. by rewrite bool_decide_eq_false. Qed.

Lemma remove_orphans_keeps orphans removed :
  Forall (fixed 16) orphans ->
  triple (fun n => Forall (fun id => over id (database n)) orphans) (DurablePairing.remove_orphans orphans removed)
    (fun _ => anywhere).
Proof.
  revert removed. induction orphans as [|orphan orphans IH]; intros removed Hf; [by apply triple_ret|].
  apply Forall_cons in Hf as [Hf Hfs]. cbn [DurablePairing.remove_orphans].
  apply (triple_bind _ _ _ (fun _ n => Forall (fun id => over id (database n)) orphans)).
  - apply triple_map_error. intros n r n' Hn [Ho Hos]%Forall_cons. unfold in_vault.
    destruct (vault_remove (secrets n) orphan) as [r1 v] eqn:Er. intros [= <- <-]. split; [by eapply node_remove|done].
  - intros was. by apply IH.
Qed.

Lemma reconcile_keeps now : keeps (DurablePairing.reconcile now).
Proof.
  unfold DurablePairing.reconcile. apply bind_keeps.
  { apply triple_map_error, keeps_writing. intros n r db' Hn Hw.
    apply pairing_harmless; [apply Hn|apply Hn|by eapply request_expire|by eapply expire_only]. }
  intros expired. apply (triple_bind _ _ _ (fun sessions n => active_pairing_sessions (database n) = Ok sessions)).
  { apply triple_map_error, triple_reading. done. }
  intros sessions. eapply (triple_bind _ _ _ (fun found n => active_pairing_sessions (database n) = Ok sessions
    /\ Forall (fixed 16) found)).
  { apply triple_map_error, triple_of_vault. intros found n Hl Hn Ha. split; [done|]. by destruct (ids_Ok _ _ Hl). }
  intros found. destruct (DurablePairing.missing_secret _ _); [apply triple_fail|].
  intros n r n' Hn [Ha Hf] Hr.
  assert (Hgoal : triple (fun n => Forall (fun id => over id (database n))
      (List.filter (fun id => negb (contains id (List.map session_invitation_id sessions))) found))
    (let* removed := DurablePairing.remove_orphans (List.filter (fun id =>
       negb (contains id (List.map session_invitation_id sessions))) found) 0 in
     ret (mkReconcileResult expired removed (Z.of_nat (length sessions)))) (fun _ => anywhere)).
  { apply (triple_bind _ _ _ (fun _ => anywhere)); [|intros; by apply triple_ret].
    apply remove_orphans_keeps. rewrite Forall_forall in *. intros id [Hin _]%list_elem_of_In%filter_In.
    by apply Hf, list_elem_of_In. }
  apply (Hgoal n); [done| |done]. rewrite Forall_forall. intros id [_ Hc]%list_elem_of_In%filter_In row Hin Hid Hact.
  apply negb_true_iff, contains_false in Hc. apply Hc. apply (active_listed _ _ Ha). by exists row.
Qed.

(** *** Requests of the port *)
Lemma create_workspace_keeps identity name now : keeps (create_workspace identity name now).
Proof.
  unfold create_workspace. generalize WORKSPACE_ATTEMPTS. intros attempts.
  induction attempts as [|attempts IH]; [apply triple_fail|]. cbn [create_workspace_loop].
  apply (bind_fact (fixed 32)); [apply random_fixed|]. intros space Hs. destruct (list_eqb _ _); [done|].
  apply bind_keeps; [by apply triple_map_error, keeps_reading|]. intros taken. destruct (is_some taken); [done|].
  apply (bind_fact (built identity space name now)).
  { apply triple_map_error, triple_drawing. intros e request e' Hb. by eapply build_Ok. }
  intros request Hb. destruct (built_fields _ _ _ _ _ Hs Hb) as (_ & _ & Hg & Hw & _).
  apply bind_keeps; [|intros; apply keeps_ret].
  apply triple_map_error, triple_writing_or_panic. intros n r db' Hn _ Hw'. split; [|done].
  apply frame_harmless; [apply Hn|apply Hn| |by eapply bootstrap_frame]. by eapply step_bootstrap.
Qed.

Lemma delete_workspace_ok space n r n' : node_ok n -> delete_workspace space n = Some (r, n') -> node_ok n'.
Proof.
  intros Hn. unfold delete_workspace, map_error, writing.
  destruct (RepositoryQueries.delete_space (database n) space) as [r1 db'] eqn:Hw. intros [= _ <-].
  destruct (delete_ok _ _ _ _ (node_pairings _ Hn) Hw) as [Hp Ho]. apply node_write; [done| |done|done].
  apply (rtc_r _ _ _ (node_reachable _ Hn)). by eapply step_delete.
Qed.

(** A command as the types of the source bound it. *)
Record command_typed (c : PairingCreateCommand) : Prop := {
  typed_command_space : fixed 32 (command_space_id c);
  typed_command_hints : Forall utf8 (command_endpoint_hints c);
  typed_command_capability : template_typed (command_capability c)
}.

Lemma material_fixed k : triple anywhere (random_material k) (fun bytes _ => fixed k bytes).
Proof.
  apply triple_drawing. intros e a e'. destruct (fill k e) as [[b|] e1] eqn:Ef; intros [= <- <-].
  by apply (fill_fixed k e _ e1).
Qed.

Lemma issue_issued key p :
  fixed 32 (PairingInvitation.space_id p) -> fixed 32 (PairingInvitation.genesis_operation_id p) ->
  in_i 64 (PairingInvitation.expires_at_unix_ms p) -> Forall utf8 (PairingInvitation.endpoint_hints p) ->
  template_typed (PairingInvitation.capability p) ->
  triple anywhere (issue key p) (fun i _ =>
    exists m, parameters_typed p m /\ i = issued_of key p m
      /\ issued (PairingInvitation.descriptor (PairingInvitation.invitation i))).
Proof.
  intros Hs Hg He Hh Hc. unfold issue.
  eapply bind_fact; [apply material_fixed|]. intros id Hid.
  eapply bind_fact; [apply material_fixed|]. intros one_time Hone.
  eapply bind_fact; [apply material_fixed|]. intros private _.
  set (m := PairingInvitation.mkInvitationMaterial id one_time private).
  assert (Hm : parameters_typed p m) by by constructor. rewrite (issue_valid key p m Hm).
  intros n r n' Hn _ Hr. cbn in Hr. injection Hr as <- <-. do 2 (split; [done|]). intros i Hi. inv_ok.
  exists m. split; [done|]. split; [done|]. constructor; [by apply descriptor_of_typed|apply template_normalize_idem|done].
Qed.

Lemma create_invitation_keeps identity c now : command_typed c -> keeps (create_invitation identity c now).
Proof.
  intros [Hs Hh Hc]. unfold create_invitation.
  apply (bind_fact (fun o => forall space, o = Some space -> fixed 32 (genesis_operation_id space))).
  { apply triple_map_error, triple_reading. intros o n Hr Hn _ space ->. unfold load_space, space_row in Hr.
    destruct (query_row _ _) as [row|] eqn:Eq; [|done]. unfold query_row in Eq. apply find_some in Eq as [Hin _].
    destruct (decode_space_values row) as [space'|] eqn:Ed; [|done]. apply Ok_inj in Hr as [= ->].
    assert (space = row) as ->. { unfold decode_space_values, corrupt in Ed. by inv_ok. }
    apply (reachable_genesis (database n)); [apply Hn|by apply list_elem_of_In]. }
  intros found Hg. eapply bind_fact; [apply triple_the|]. intros space ->. specialize (Hg space eq_refl).
  destruct (_ || _); [apply triple_fail|]. eapply bind_fact; [apply triple_the|].
  intros expires [-> He]%checked_i64_Some.
  eapply bind_fact; [by apply triple_map_error, issue_issued|]. intros i (m & Hm & Ei & Hi).
  apply bind_keeps; [apply keeps_lift|]. intros qr. apply bind_keeps; [|intros; apply keeps_ret].
  apply triple_map_error. eapply triple_any, create_keeps; [done|by rewrite Ei].
Qed.

Lemma invitation_keeps id : keeps (invitation id).
Proof. apply bind_keeps; [by eapply triple_any, session_fact|]. intros; apply keeps_ret. Qed.
Lemma replay_keeps identity session digest now :
  session_typed session -> keeps (replay_handshake identity session digest now).
Proof.
  intros Hs. unfold replay_handshake. eapply bind_fact; [apply triple_the|]. intros claimed_at _.
  eapply bind_fact; [apply triple_the|]. intros expected _. destruct (_ || _); [apply triple_fail|].
  eapply bind_fact; [apply triple_the|]. intros response _. eapply bind_fact; [apply triple_the|]. intros receipt _.
  apply bind_keeps; [by eapply triple_any, grant_planned|]. intros _.
  apply bind_keeps; [by eapply triple_any, session_fact|]. intros found.
  eapply bind_fact; [apply triple_the|]. intros. apply keeps_ret.
Qed.

(** A claim read from the wire is typed, for frames of bytes. *)
Lemma respond_claim secret d frame :
  Forall is_byte frame ->
  triple anywhere (respond secret d frame) (fun p _ => claim_typed (fst (fst p))).
Proof.
  intros Hf. unfold respond. apply bind_keeps; [apply keeps_lift|]. intros responder.
  unfold handshake_read_message. destruct (ensure_frame_bound frame); [|apply (bind_fact (fun _ => False)); [|done]].
  2:{ apply triple_lift. by intros. }
  destruct (handshake_read responder frame MAX_CANONICAL_MESSAGE_BYTES) as [read state] eqn:Er.
  apply (bind_fact (fun bytes => Forall is_byte bytes)).
  { apply triple_lift. intros bytes n Hr _ _. destruct read as [output|]; cbn [map_err] in Hr; [|done].
    destruct (ensure_message_bound output); [|done]. apply Ok_inj in Hr as <-. by eapply handshake_read_bytes. }
  intros bytes Hb. apply (bind_fact claim_typed).
  { apply triple_lift. intros claim n Hc _ _. destruct (JoinerClaim.from_canonical_bytes bytes) as [c|] eqn:Ec; [|done].
    apply Ok_inj in Hc as <-. by apply claim_from_iff in Ec as (? & _). }
  intros claim Hc. apply bind_keeps; [by apply triple_no_panic|]. intros verified. apply bind_keeps; [apply keeps_lift|].
  intros _. destruct (handshake_write_message state []) as [written state'].
  apply bind_keeps; [apply keeps_lift|]. intros response. apply bind_keeps; [apply keeps_lift|]. intros transport.
  by apply triple_ret.
Qed.

Lemma handshake_keeps identity id frame now : Forall is_byte frame -> keeps (handshake identity id frame now).
Proof.
  intros Hf. unfold handshake. eapply bind_fact; [apply session_fact|]. intros found Hs.
  eapply bind_fact; [apply triple_the|]. intros session ->. specialize (Hs session eq_refl).
  destruct (eqb _ _); [by apply replay_keeps|]. destruct (negb _); [apply triple_fail|].
  apply bind_keeps.
  { apply triple_map_error. unfold DurablePairing.invitation_secret.
    apply bind_keeps; [by apply triple_map_error, triple_of_vault|]. intros [secret|]; [apply keeps_ret|apply triple_fail]. }
  intros secret. eapply bind_fact; [by apply respond_claim|]. intros [[claim response] transport] Hc. cbn [fst] in Hc.
  apply bind_keeps; [by eapply triple_any, random_fixed|]. intros token.
  apply bind_keeps; [by apply triple_no_panic|]. intros receipt. apply bind_keeps; [apply keeps_lift|]. intros bytes.
  apply bind_keeps; [apply keeps_lift|]. intros receipt_frame.
  eapply (bind_fact (fun r => forall s, r = Ok s -> session_typed s)).
  { apply (triple_attempt _ _ (fun s _ => session_typed s)), triple_writing_or_panic. intros n r db' Hn _ Hw.
    assert (Hh : harmless (database n) db').
    { apply pairing_harmless; [apply Hn|apply Hn|by eapply request_claim|by eapply claim_only]. }
    split; [done|]. intros s ->. by apply (load_typed db' (InvitationDescriptor.invitation_id (descriptor session)));
      [apply Hh|eapply claim_load]. }
  intros [claimed|e] Hcl.
  - apply bind_keeps; [eapply triple_any, grant_planned; by apply Hcl|]. intros _.
    apply bind_keeps; [by eapply triple_any, session_fact|]. intros again.
    eapply bind_fact; [apply triple_the|]. intros. apply keeps_ret.
  - destruct e; try apply triple_fail. eapply bind_fact; [apply session_fact|]. intros again Ha.
    eapply bind_fact; [apply triple_the|]. intros current ->. by apply replay_keeps, Ha.
Qed.

Lemma confirmed_typed session id hash now :
  session_typed session -> triple anywhere (confirmed_session session id hash now) (fun s _ => session_typed s).
Proof.
  intros Hs. unfold confirmed_session. destruct (session_state session); try apply triple_fail; [|by apply triple_ret].
  apply triple_map_error, triple_writing. intros n r db' Hn _ Hw.
  assert (Hh : harmless (database n) db').
  { apply pairing_harmless; [apply Hn|apply Hn|by eapply request_confirm|by eapply confirm_only]. }
  split; [done|]. intros s ->. by apply (load_typed db' id); [apply Hh|eapply timed_load].
Qed.

Lemma confirm_keeps identity id supplied now : fixed 16 id -> keeps (confirm identity id supplied now).
Proof.
  intros Hf. unfold confirm.
  apply (triple_bind _ _ _ (fun o n => forall s, o = Some s -> load (database n) id = Ok (Some s))); [apply session_read|].
  intros found. apply (triple_bind _ _ _ (fun s n => load (database n) id = Ok (Some s))).
  { apply triple_lift. intros s n Ho _ HP. destruct found as [session|]; [|done]. apply Ok_inj in Ho as ->. by apply HP. }
  intros session. apply (triple_bind _ _ _ (fun _ n => load (database n) id = Ok (Some session))).
  { by apply triple_lift. }
  intros hash. destruct (negb _); [apply triple_fail|].
  destruct (eqb (session_state session) PairingLifecycle.Completed) eqn:Ec.
  - apply bool_decide_eq_true in Ec. apply (triple_bind _ _ _ (fun _ => anywhere)); [|intros; apply keeps_ret].
    eapply triple_pre; [by apply remove_keeps_over|]. intros n Hn Hl.
    by apply (load_over (database n) id session (proj1 (node_pairings _ Hn)) Hl); left.
  - apply (triple_bind _ _ _ (fun s _ => session_typed s)).
    { intros n r n' Hn Hl. apply confirmed_typed; [by apply (load_typed (database n) id); [apply Hn|]|done|done]. }
    intros confirmed. apply triple_pure. intros Hs. eapply bind_fact; [by apply grant_planned|]. intros operation Ho.
    apply bind_keeps; [by apply submitted_keeps|]. intros _. apply bind_keeps; [|intros; apply keeps_ret].
    by eapply triple_map_error, triple_any, complete_keeps.
Qed.

Lemma accept_keeps identity id acceptance now : fixed 16 id -> keeps (accept identity id acceptance now).
Proof.
  intros Hf. unfold accept. apply bind_keeps; [by eapply triple_any, session_fact|]. intros found.
  eapply bind_fact; [apply triple_the|]. intros session _. destruct (_ || _); [apply triple_fail|].
  do 5 (eapply bind_fact; [apply triple_the|]; intros ? _).
  apply bind_keeps; [apply keeps_lift|]. intros decoded. apply bind_keeps; [apply keeps_lift|]. intros _.
  by apply confirm_keeps.
Qed.

Lemma port_cancel_keeps id now : fixed 16 id -> keeps (NodePairingControl.cancel id now).
Proof. intros Hf. apply bind_keeps; [by eapply triple_map_error, triple_any, cancel_keeps|]. intros; apply keeps_ret. Qed.

Lemma touch_keeps id now :
  keeps (map_error store_error (writing (fun db => touch_pairing_session db id now))).
Proof.
  apply triple_map_error, keeps_writing. intros n r db' Hn Hw.
  apply pairing_harmless; [apply Hn|apply Hn|by eapply request_touch|by eapply touch_only].
Qed.

Lemma authenticate_keeps id token action now : keeps (authenticate_peer_transport id token action now).
Proof.
  unfold authenticate_peer_transport. apply bind_keeps; [by eapply triple_any, session_fact|]. intros found.
  eapply bind_fact; [apply triple_the|]. intros session _. destruct (negb _); [apply triple_fail|].
  eapply bind_fact; [apply triple_the|]. intros expected _. destruct (negb _); [apply triple_fail|].
  do 2 (eapply bind_fact; [apply triple_the|]; intros ? _).
  apply bind_keeps; [by apply triple_map_error, keeps_reading|]. intros _.
  apply bind_keeps; [apply touch_keeps|]. intros. apply keeps_ret.
Qed.

Lemma device_view_keeps session now : keeps (device_view session now).
Proof.
  unfold device_view. do 4 (eapply bind_fact; [apply triple_the|]; intros ? _).
  apply bind_keeps; [by apply triple_map_error, keeps_reading|]. intros. apply keeps_ret.
Qed.

Lemma paired_devices_keeps now : keeps (paired_devices now).
Proof.
  unfold paired_devices. destruct (now <? 0); [apply triple_fail|].
  apply bind_keeps; [by apply triple_map_error, keeps_reading|]. intros sessions.
  induction sessions as [|session sessions IH]; [apply keeps_ret|]. cbn [device_views].
  apply bind_keeps; [apply device_view_keeps|]. intros v. apply bind_keeps; [done|]. intros. apply keeps_ret.
Qed.

Lemma revocation_signed identity session grant now :
  session_typed session -> fixed 32 grant ->
  triple anywhere (new_revocation identity session grant now) (fun o _ => typed_operation o).
Proof.
  intros Hs Hg. pose proof (issued_typed _ (typed_session_descriptor _ Hs)) as Hd. unfold new_revocation.
  eapply bind_fact; [apply uuid_time_fact|]. intros t [-> Ht].
  apply bind_keeps; [by eapply triple_any, random_fixed|]. intros bytes.
  apply (bind_fact (fixed 16)); [apply random_fixed|]. intros nonce Hn. apply triple_lift. intros o n Ho _ _.
  destruct (OperationEnvelope.sign _ _ _ _ _ _ _ _ _) as [o'|] eqn:Es; [|done]. apply Ok_inj in Ho as ->. revert Es.
  apply sign_typed; [apply Hd|apply uuid_v7_fixed| | |done|].
  - constructor; [apply Hd|constructor].
  - unfold in_i. lia.
  - split; [done|]. cbn. by apply text_typed.
Qed.

(** The grant of a completed session is the identity of an operation. *)
Lemma session_grant_fixed db id session grant :
  pairings_ok db -> load db id = Ok (Some session) -> session_grant_operation_id session = Some grant -> fixed 32 grant.
Proof.
  intros Hp (row & [Hin _]%query_id_elem & Hdec)%load_row Hg.
  destruct (decode_Ok _ _ Hdec) as (_ & _ & _ & _ & _ & _ & E). rewrite E in Hg.
  pose proof (proj2 Hp row Hin) as Hok. destruct (ok_grant _ _ Hok grant Hg) as [Hpl _].
  destruct (pairing_planned_grant_json row) as [text|] eqn:Et.
  - destruct (ok_plan _ _ Hok text Et) as (operation & g & Ht & Hv & _ & _ & Eg & _).
    assert (grant = OperationEnvelope.operation_id operation) as -> by congruence. by apply verified_id.
  - exfalso. pose proof (constraints_state _ (ok_constraints _ _ Hok)) as Hc.
    assert (Hx : pairing_planned_grant_operation_id row <> None) by congruence. by apply (rc_plan _ Hc) in Hx.
Qed.

Lemma revoke_keeps identity id now : keeps (revoke_paired_device identity id now).
Proof.
  unfold revoke_paired_device. apply (bind_fact (fun o => forall s, o = Some s -> session_typed s
    /\ forall g, session_grant_operation_id s = Some g -> fixed 32 g)).
  { apply triple_map_error, triple_reading. intros o n Hr Hn _ s ->.
    split; [by apply (load_typed (database n) id); [apply Hn|]|]. intros g Hg.
    by apply (session_grant_fixed (database n) id s); [apply Hn|..]. }
  intros found Hs. eapply bind_fact; [apply triple_the|]. intros session ->. destruct (Hs session eq_refl) as [Hty Hg].
  destruct (negb _); [apply triple_fail|]. eapply bind_fact; [apply triple_the|]. intros grant Eg.
  apply bind_keeps; [by apply triple_map_error, keeps_reading|]. intros revocation.
  apply bind_keeps; [|intros; apply device_view_keeps]. destruct (is_some revocation); [apply keeps_ret|].
  eapply bind_fact; [apply revocation_signed; [done|by apply Hg]|]. intros operation Ho.
  apply bind_keeps; [by apply submitted_keeps|]. intros. apply keeps_ret.
Qed.

Lemma record_activity_keeps id space node actor grant now :
  keeps (record_paired_activity id space node actor grant now).
Proof.
  unfold record_paired_activity. apply bind_keeps; [by eapply triple_any, session_fact|]. intros found.
  eapply bind_fact; [apply triple_the|]. intros session _. destruct (_ || _); [apply triple_fail|apply touch_keeps].
Qed.
End Control.
