(* ===== verification/PeerReads.v ===== *)
(** * Paired reads: no proof is served twice

    The nonces [peer_changes] records, and the writes of the repository and of the
    pairing store that leave them in place. *)
From S2P Require Import Prelude Bytes Floats Crypto Content Cbor Trust TrustTheory DataModel CanonicalBody.
From S2P Require Import BodyTheory Envelope EnvelopeTheory Samples Authorization AuthorizationSamples Peer Pairing PairingSamples.
From S2P Require Import Application Database Repository RepositoryQueries RepositoryLog RepositorySteps.
From S2P Require Import RepositorySamples PairingStore PairingStoreTheory NodeInvariant.

#[local] Opaque OperationEnvelope.verify insert_operation.

Section Reads.
Context `{Sha256} `{Ed25519} `{HalfFloat} `{Base64} `{!Noise} `{!JsonNumber} `{!JsonSize}
  `{!ProjectionJson} `{!Lowercase}.
Implicit Types db : Database.

Lemma verify_before_expiry (p : PeerReadChangesProof.t) now :
  is_ok (PeerReadChangesProof.verify p now) = true -> now < PeerReadChangesProof.expires_at_unix_ms p.
Proof.
  unfold PeerReadChangesProof.verify, PeerReadChangesProof.outside_window.
  destruct (PeerReadChangesProof.validate_unsigned p); [|done].
  destruct (now <? 0); [done|]. destruct (checked_i64 _); cbn [ok_or]; [|done].
  destruct (_ <? _); cbn [orb]; [done|]. by destruct (Z.leb_spec (PeerReadChangesProof.expires_at_unix_ms p) now).
Qed.

(** The nonce of a served proof is recorded, once. *)
Definition recorded (p : PeerReadChangesProof.t) db : Prop :=
  let key := (PeerReadChangesProof.session_id p, PeerReadChangesProof.nonce p) in
  (exists row, row ∈ peer_request_nonces db /\ nonce_key row = key)
  /\ forall row, row ∈ peer_request_nonces db -> nonce_key row = key ->
       nonce_expires_at_unix_ms row = PeerReadChangesProof.expires_at_unix_ms p.

Lemma recorded_cleanup p db now :
  recorded p db -> now < PeerReadChangesProof.expires_at_unix_ms p ->
  recorded p (delete_expired_nonces db now).
Proof.
  intros [(row & Hin & Hk) Hall] Hnow. split.
  - exists row. split; [|done]. apply elem_of_delete_rows. split; [done|].
    apply bool_decide_eq_false. intros Hdel. apply list_elem_of_In, in_map_iff in Hdel as (r & Er & Hr).
    apply list_elem_of_In, elem_of_take in Hr as (i & Hi & _). apply list_elem_of_lookup_2 in Hi.
    rewrite merge_sort_Permutation in Hi. apply elem_of_select in Hi as [Hr Hexp]. bool_prop.
    rewrite Hk in Er. specialize (Hall r Hr Er). lia.
  - intros r [Hr _]%elem_of_delete_rows. by apply Hall.
Qed.

(** What a served request did. *)
Lemma peer_transaction_served db request page db' :
  peer_transaction db request = Ok (page, db') ->
  let p := Application.proof request in
  let key := (PeerReadChangesProof.session_id p, PeerReadChangesProof.nonce p) in
  is_ok (PeerReadChangesProof.verify p (peer_received_at_unix_ms request)) = true
  /\ (forall row, row ∈ peer_request_nonces (delete_expired_nonces db (peer_received_at_unix_ms request)) ->
       nonce_key row <> key)
  /\ db' = with_nonces db
       (peer_request_nonces (delete_expired_nonces db (peer_received_at_unix_ms request))
        ++ [mkNonceRow (fst key) (snd key) (PeerReadChangesProof.expires_at_unix_ms p)]).
Proof.
  unfold peer_transaction. intros Hp. cbv zeta.
  destruct (PeerReadChangesProof.verify _ _) as [[]|]; [|done]. cbn [map_err] in Hp.
  destruct (negb _); [done|]. destruct (map_err _ _); [|done].
  destruct (exists_row _ (peer_request_nonces _)) eqn:Ex; [done|]. destruct (_ <=? _); [done|].
  destruct (constraint _); [|done]. destruct (load_changes _ _ _ _); [|done].
  apply Ok_inj in Hp. injection Hp as _ <-. split; [done|]. split; [|done].
  intros row Hrow [= E1 E2]. rewrite exists_row_false in Ex. specialize (Ex row Hrow).
  by rewrite E1, E2, !list_eqb_refl in Ex.
Qed.

(** Requests received no later than [now]: every write of the node's store but the
    deletion of a workspace. *)
Inductive earlier_step (now : Z) db db' : Prop :=
| earlier_bootstrap request out :
    Repository.bootstrap_trusted_space db request = Some (out, db') -> earlier_step now db db'
| earlier_submit space_id request out :
    Repository.submit_operation db space_id request = (out, db') -> earlier_step now db db'
| earlier_peer request out :
    peer_received_at_unix_ms request <= now -> peer_changes db request = (out, db') -> earlier_step now db db'
| earlier_rebuild out : rebuild_client_projections db = (out, db') -> earlier_step now db db'
| earlier_create d at_ out : create_pairing_session db d at_ = Some (out, db') -> earlier_step now db db'
| earlier_claim d claim hash token first response receipt at_ out :
    claim_pairing_session db d claim hash token first response receipt at_ = Some (out, db') ->
    earlier_step now db db'
| earlier_confirm id hash at_ out : confirm_pairing_session db id hash at_ = (out, db') -> earlier_step now db db'
| earlier_complete id grant at_ out :
    complete_pairing_session db id grant at_ = (out, db') -> earlier_step now db db'
| earlier_cancel id at_ out : cancel_pairing_session db id at_ = (out, db') -> earlier_step now db db'
| earlier_plan id operation at_ out :
    plan_pairing_grant db id operation at_ = (out, db') -> earlier_step now db db'
| earlier_touch id at_ out : touch_pairing_session db id at_ = (out, db') -> earlier_step now db db'
| earlier_expire at_ out : expire_pairing_sessions db at_ = (out, db') -> earlier_step now db db'.

Lemma advance_nonces db t effective db' :
  advance_admission_clock db t = Ok (effective, db') -> peer_request_nonces db' = peer_request_nonces db.
Proof. by intros (? & _ & _ & _ & ->)%advance_admission_clock_Ok. Qed.

Lemma submit_nonces db space_id request out db' :
  Repository.submit_operation db space_id request = (out, db') ->
  peer_request_nonces db' = peer_request_nonces db.
Proof.
  unfold Repository.submit_operation. destruct (validate_submitted _ _); [|by intros [= _ <-]].
  destruct (require_space _ _); [|by intros [= _ <-]].
  destruct (advance_admission_clock _ _) as [[t db1]|] eqn:Ea; [|by intros [= _ <-]].
  rewrite <- (advance_nonces _ _ _ _ Ea). intros [([s []] & Ht & _)|(? & _ & _ & ->)]%commit_cases; [| |done];
    unfold submit_transaction in Ht; inv_ok;
    match goal with found : option StoredOperation |- _ => destruct found; inv_ok; try done end;
    match goal with r : StoredOperation * Database |- _ => destruct r; inv_ok end;
    match goal with Hi : insert_operation _ _ _ = Ok _ |- _ => apply insert_operation_Ok in Hi; apply Hi end.
Qed.

Lemma bootstrap_nonces db request out db' :
  Repository.bootstrap_trusted_space db request = Some (out, db') ->
  peer_request_nonces db' = peer_request_nonces db.
Proof.
  unfold Repository.bootstrap_trusted_space. destruct (check _ ; _); [|by intros [= _ <-]].
  destruct (expected_space _ _); [|done]. cbn [mbind option_bind].
  destruct (advance_admission_clock _ _) as [[t db1]|] eqn:Ea; [|by intros [= _ <-]].
  rewrite <- (advance_nonces _ _ _ _ Ea). intros Hb. injection Hb as Hb. apply commit_cases in Hb as [(result & Ht & _)|(? & _ & _ & ->)]; [|done].
  destruct (read_admission_clock db1) as [persisted|]; [|done]. unfold bootstrap_transaction in Ht.
  destruct (load_space db1 _) as [[existing|]|]; [| |done]; [by inv_ok|].
  destruct (constraint _); [|done].
  destruct (insert_operation _ (genesis request) _) as [[s1 db2]|] eqn:E1; [|done].
  destruct (map_err _ _); [|done].
  destruct (insert_operation db2 _ _) as [[s2 db3]|] eqn:E2; [|done].
  destruct (constraint _); [|done]. apply Ok_inj in Ht. injection Ht as _ <-.
  apply insert_operation_Ok in E1, E2.
  by rewrite (inserted_nonces _ _ _ _ _ E2), (inserted_nonces _ _ _ _ _ E1).
Qed.

Lemma recorded_ext p db db' :
  peer_request_nonces db' = peer_request_nonces db -> recorded p db -> recorded p db'.
Proof. intros E. unfold recorded. by rewrite E. Qed.

Lemma loop_nonces todo : forall db rebuilt n db',
  rebuild_loop db todo rebuilt = Ok (n, db') -> peer_request_nonces db' = peer_request_nonces db.
Proof.
  induction todo as [|o todo IH]; intros db rebuilt n db' Hl; cbn [rebuild_loop] in Hl; [by inv_ok|].
  destruct (insert_client_projection db o) as [db1|] eqn:Ei; [|done].
  destruct (if is_client_schema _ then _ else _) as [next|]; [|done].
  rewrite (IH _ _ _ _ Hl). unfold insert_client_projection in Ei. inv_ok.
  destruct a as [row|]; [|by inv_ok]. destruct (exists_row _ _); inv_ok; done.
Qed.

Lemma rebuild_nonces db out db' :
  rebuild_client_projections db = (out, db') -> peer_request_nonces db' = peer_request_nonces db.
Proof.
  intros [(n & Hr & _)|(e & _ & _ & ->)]%commit_cases; [|done].
  destruct (collect _ _) as [stored|]; [|done]. by rewrite (loop_nonces _ _ _ _ _ Hr).
Qed.

(** The pairing store writes its own table. *)
Lemma only_nonces db db' : only_pairings db db' -> peer_request_nonces db' = peer_request_nonces db.
Proof. by intros (rows & -> & _). Qed.

Lemma recorded_step p db db' now :
  now < PeerReadChangesProof.expires_at_unix_ms p -> recorded p db -> earlier_step now db db' ->
  recorded p db'.
Proof.
  intros Hnow Hrec Hstep. destruct Hstep as [request out Hb|space_id request out Hs|request out Hle Hp|out Hr
    |d at_ out Hc|d claim hash token first response receipt at_ out Hc|id hash at_ out Hc|id grant at_ out Hc
    |id at_ out Hc|id operation at_ out Hc|id at_ out Hc|at_ out Hc]; cycle 2.
  - apply commit_cases in Hp as [(page & Hp & _)|(? & _ & _ & ->)]; [|done].
    apply peer_transaction_served in Hp as (_ & Hfresh & ->).
    destruct (recorded_cleanup p db (peer_received_at_unix_ms request) Hrec ltac:(lia))
      as [(row & Hin & Hk) Hall]. split.
    + exists row. split; [|done]. cbn [peer_request_nonces with_nonces]. apply elem_of_app. by left.
    + intros r. cbn [peer_request_nonces with_nonces].
      intros [Hr| ->%list_elem_of_singleton]%elem_of_app Ek; [by apply Hall|].
      destruct (Hfresh row Hin). by rewrite Hk, <- Ek.
  - eapply recorded_ext; [by eapply rebuild_nonces|done].
  - apply create_only in Hc as (rows & ->). done.
  - eapply recorded_ext; [by eapply only_nonces, claim_only|done].
  - eapply recorded_ext; [by eapply only_nonces, confirm_only|done].
  - eapply recorded_ext; [by eapply only_nonces, complete_only|done].
  - eapply recorded_ext; [by eapply only_nonces, cancel_only|done].
  - eapply recorded_ext; [by eapply only_nonces, plan_only|done].
  - eapply recorded_ext; [by eapply only_nonces, touch_only|done].
  - eapply recorded_ext; [by eapply only_nonces, expire_only|done].
  - by eapply recorded_ext; [eapply bootstrap_nonces|].
  - by eapply recorded_ext; [eapply submit_nonces|].
Qed.

(** C34: a proof is served at most once.  After a paired read succeeded, and whatever
    submissions, bootstraps, paired reads, pairing requests and rebuilds follow (every
    write of the store but the deletion of a workspace), the same proof is refused at
    every receipt time that is not earlier than theirs; the refusal is the authorization
    error or the replay error and writes nothing. *)
Theorem peer_proof_served_once (db served later db' : Database) (request again : PeerReadChangesRequest)
    (page : OperationChangePage) (out : result RepositoryError OperationChangePage) :
  peer_changes db request = (Ok page, served) ->
  rtc (earlier_step (peer_received_at_unix_ms again)) served later ->
  Application.proof again = Application.proof request ->
  peer_changes later again = (out, db') ->
  db' = later /\ (out = Err PeerUnauthorized \/ out = Err PeerReplay).
Proof.
  intros Hserved Hsteps Eproof Hagain.
  apply commit_cases in Hserved as [(page' & Hs & _)|(? & _ & ? & _)]; [|done].
  set (p := Application.proof request) in *. set (now := peer_received_at_unix_ms again) in *.
  apply peer_transaction_served in Hs as (_ & Hfresh & Eserved). fold p in Hfresh, Eserved.
  unfold peer_changes, peer_transaction in Hagain. rewrite Eproof in Hagain. fold now in Hagain.
  destruct (PeerReadChangesProof.verify p now) as [[]|] eqn:Ev;
    [|cbn in Hagain; injection Hagain as <- <-; auto].
  assert (Hexp : now < PeerReadChangesProof.expires_at_unix_ms p) by (apply verify_before_expiry; by rewrite Ev).
  assert (Hrec : recorded p served).
  { subst served. split.
    - eexists. cbn [peer_request_nonces with_nonces]. rewrite elem_of_app. split; [right; left|done].
    - intros r. cbn [peer_request_nonces with_nonces].
      intros [Hr| ->%list_elem_of_singleton]%elem_of_app Ek; [by destruct (Hfresh r Hr)|done]. }
  assert (Hlater : recorded p later).
  { clear Eserved. induction Hsteps as [|a b c Hab _ IH]; [done|]. by eapply IH, recorded_step. }
  apply (recorded_cleanup p later now) in Hlater as [(row & Hin & Hk) _]; [|done].
  cbn [map_err] in Hagain. destruct (negb _); [cbn in Hagain; injection Hagain as <- <-; auto|].
  destruct (map_err _ _) as [|e] eqn:Ea; cbn [map_err] in Hagain.
  2: { destruct (authorize_capability_action _ _ _ _ _); cbn in Ea; [done|]. injection Ea as <-.
       cbn in Hagain. injection Hagain as <- <-. auto. }
  assert (Hx : exists_row (fun row => list_eqb (nonce_invitation_id row) (PeerReadChangesProof.session_id p)
    && list_eqb (nonce_value row) (PeerReadChangesProof.nonce p))
    (peer_request_nonces (delete_expired_nonces later now)) = true).
  { apply exists_row_true. exists row. injection Hk as -> ->. by rewrite !list_eqb_refl. }
  rewrite Hx in Hagain. cbn in Hagain. injection Hagain as <- <-. auto.
Qed.
End Reads.

(** ** A paired device *)
#[local] Transparent OperationEnvelope.verify insert_operation.

Definition sample_read : PeerReadChangesFields.t :=
  PeerReadChangesFields.mk (replicate 16 1) sample_space (fst writer_bytes) 0 100
    1700000005000 1700000020000 (replicate 16 4).
Definition sample_proof : PeerReadChangesProof.t :=
  Eval vm_compute in
    match PeerReadChangesProof.sign sample_read sample_seed device_seed with
    | Ok p => p
    | Err _ => PeerReadChangesProof.of_fields sample_read [] [] [] []
    end.
Definition sample_pairing : PairingRow :=
  mkPairingRow (replicate 16 1) [] [] sample_space [] 1700000100000 PairingLifecycle.Completed
    1700000000000 None None None None None None None (Some (PeerReadChangesProof.node_id sample_proof))
    (Some (PeerReadChangesProof.actor_id sample_proof)) None None None (Some (fst writer_bytes)) None None None
    None None.
Definition paired_db : Database := with_pairings recorded_db [sample_pairing].
Definition sample_peer_request : PeerReadChangesRequest := mkPeerRead sample_proof 1700000006000.
Definition served_db : Database := snd (peer_changes paired_db sample_peer_request).

Lemma served_once : exists page, peer_changes paired_db sample_peer_request = (Ok page, served_db).
Proof.
  assert (Hok : is_ok (fst (peer_changes paired_db sample_peer_request)) = true) by by_vm.
  unfold served_db. destruct (peer_changes paired_db sample_peer_request) as [[page|] db]; [|discriminate Hok].
  by exists page.
Qed.

(** The projections are rebuilt in between. *)
Definition rebuilt_db : Database := snd (rebuild_client_projections served_db).

Lemma peer_proof_served_once_witness :
  let outcome := peer_changes rebuilt_db (mkPeerRead sample_proof 1700000007000) in
  snd outcome = rebuilt_db /\ (fst outcome = Err PeerUnauthorized \/ fst outcome = Err PeerReplay).
Proof.
  destruct served_once as [page Hp].
  exact (peer_proof_served_once paired_db served_db rebuilt_db _ sample_peer_request
    (mkPeerRead sample_proof 1700000007000) page _ Hp
    (rtc_once _ _ (earlier_rebuild 1700000007000 served_db rebuilt_db _ (surjective_pairing _))) eq_refl
    (surjective_pairing _)).
Defined.
