(* ===== verification/NodePairingTheory.v ===== *)
(** * The node's pairing control: the theorems

    What holds of every node its calls, the API's requests and crashes lead to: secrets
    cover sessions, reconciliation cleans up, only the confirmation code of the
    handshake completes a pairing, a transport credential has its grant behind it, and
    a revoked device stays out. *)
From S2P Require Import Prelude Bytes Floats Crypto Content Cbor Trust TrustTheory DataModel CanonicalBody BodyTheory Envelope EnvelopeTheory.
From S2P Require Import Authorization AuthorizationTheory Peer Pairing PairingTheory InvitationTheory Application Database Repository RepositoryQueries.
From S2P Require Import RepositoryLog RepositorySteps RepositoryTheory PairingStore PairingStoreTheory PairingVault SpaceBootstrap NodePairing NodeInvariant.
Import NodePairingControl.

#[local] Opaque OperationEnvelope.verify OperationEnvelope.sign InvitationDescriptor.from_canonical_bytes
  JoinerClaim.verify_for JoinerClaim.digest JoinerClaim.from_canonical_bytes InvitationDescriptor.digest
  InvitationDescriptor.canonical_bytes insert_operation.

Section Theorems.
Context `{Sha256} `{Ed25519} `{HalfFloat} `{Base64} `{!Noise} `{!JsonNumber} `{!JsonSize}
  `{!ProjectionJson} `{!Lowercase} `{!Uuid7} `{!UrlParser} `{!PairingSecretVault}.
Implicit Types (db : Database) (row : PairingRow) (v : Vault) (n : Node).

(** ** Steps of a node *)
Definition performs {E A} (m : M E A) n n' : Prop := exists r, m n = Some (r, n').

(** A call of the port or a request of the API that deletes no workspace, or a crash:
    between two statements of a call, or between a statement and the vault. *)
Inductive call (identity : IdentityBundle) n n' : Prop :=
| call_create_workspace name now : performs (create_workspace identity name now) n n' -> call identity n n'
| call_create_invitation command now :
    command_typed command -> performs (create_invitation identity command now) n n' -> call identity n n'
| call_invitation id : performs (invitation id) n n' -> call identity n n'
| call_handshake id frame now :
    Forall is_byte frame -> performs (handshake identity id frame now) n n' -> call identity n n'
| call_confirm id supplied now :
    fixed 16 id -> performs (confirm identity id supplied now) n n' -> call identity n n'
| call_accept id acceptance now :
    fixed 16 id -> performs (accept identity id acceptance now) n n' -> call identity n n'
| call_cancel id now : fixed 16 id -> performs (NodePairingControl.cancel id now) n n' -> call identity n n'
| call_authenticate id token action now :
    performs (authenticate_peer_transport id token action now) n n' -> call identity n n'
| call_paired_devices now : performs (paired_devices now) n n' -> call identity n n'
| call_revoke id now : performs (revoke_paired_device identity id now) n n' -> call identity n n'
| call_record_activity id space node actor grant now :
    performs (record_paired_activity id space node actor grant now) n n' -> call identity n n'
| call_reconcile now : performs (DurablePairing.reconcile now) n n' -> call identity n n'
| api_submit space request out db' :
    typed_operation (submit_operation_ request) ->
    Repository.submit_operation (database n) space request = (out, db') ->
    n' = mkNode db' (secrets n) (entropy n) -> call identity n n'
| api_peer_changes request out db' :
    RepositoryQueries.peer_changes (database n) request = (out, db') ->
    n' = mkNode db' (secrets n) (entropy n) -> call identity n n'
| crash_published secret out v' :
    vault_store (secrets n) secret = (out, v') -> n' = mkNode (database n) v' (entropy n) -> call identity n n'
| crash_written db' :
    request (database n) db' -> only_pairings (database n) db' ->
    n' = mkNode db' (secrets n) (entropy n) -> call identity n n'
| restart e : n' = mkNode (database n) (secrets n) e -> call identity n n'.

Inductive node_step (identity : IdentityBundle) n n' : Prop :=
| step_call : call identity n n' -> node_step identity n n'
| step_delete_workspace space : performs (delete_workspace space) n n' -> node_step identity n n'.

Context (Hjson : json_exact) (identity : IdentityBundle).

Lemma performs_ok {E A} (m : M E A) n n' :
  triple anywhere m (fun _ => anywhere) -> node_ok n -> performs m n n' ->
  node_ok n' /\ grows (database n) (database n').
Proof. intros Hm Hn [r Hr]. by destruct (Hm n r n' Hn I Hr) as (? & ? & _). Qed.

Lemma written_ok n db' :
  node_ok n -> harmless (database n) db' ->
  node_ok (mkNode db' (secrets n) (entropy n)) /\ grows (database n) db'.
Proof. intros Hn (Hr & Hp & Ho & Hg). split; [by apply node_write|done]. Qed.

Lemma call_ok n n' : node_ok n -> call identity n n' -> node_ok n' /\ grows (database n) (database n').
Proof.
  intros Hn [name now Hm|command now Ht Hm|id Hm|id frame now Hf Hm|id supplied now Hf Hm|id acceptance now Hf Hm
    |id now Hf Hm|id token action now Hm|now Hm|id now Hm|id space node actor grant now Hm|now Hm
    |space request out db' Ht Hs ->|request out db' Hs ->|secret out v' Hs ->|db' Hq Ho ->|e ->].
  - by eapply performs_ok, Hm; [apply create_workspace_keeps|].
  - by eapply performs_ok, Hm; [apply create_invitation_keeps|].
  - by eapply performs_ok, Hm; [apply invitation_keeps|].
  - by eapply performs_ok, Hm; [apply handshake_keeps|].
  - by eapply performs_ok, Hm; [apply confirm_keeps|].
  - by eapply performs_ok, Hm; [apply accept_keeps|].
  - by eapply performs_ok, Hm; [apply port_cancel_keeps|].
  - by eapply performs_ok, Hm; [apply authenticate_keeps|].
  - by eapply performs_ok, Hm; [apply paired_devices_keeps|].
  - by eapply performs_ok, Hm; [apply revoke_keeps|].
  - by eapply performs_ok, Hm; [apply record_activity_keeps|].
  - by eapply performs_ok, Hm; [apply reconcile_keeps|].
  - apply written_ok; [done|]. apply frame_harmless; [apply Hn|apply Hn|by eapply step_submit|by eapply submit_frame].
  - apply written_ok; [done|]. apply frame_harmless; [apply Hn|apply Hn|by eapply step_peer|by eapply peer_frame].
  - split; [by eapply node_store|done].
  - apply written_ok; [done|]. apply pairing_harmless; [apply Hn|apply Hn|done|done].
  - split; [by apply node_entropy|done].
Qed.

Lemma calls_ok n n' : node_ok n -> rtc (call identity) n n' -> node_ok n' /\ grows (database n) (database n').
Proof.
  intros Hn Hr. induction Hr as [n|n n1 n2 Hc _ IH]; [done|]. destruct (call_ok _ _ Hn Hc) as [Hn1 Hg].
  destruct (IH Hn1) as [Hn2 Hg']. split; [done|by etrans].
Qed.

Lemma steps_ok n n' : node_ok n -> rtc (node_step identity) n n' -> node_ok n'.
Proof.
  intros Hn Hr. induction Hr as [n|n n1 n2 [Hc|space [r Hd]] _ IH]; [done| |].
  - by apply IH, (call_ok n).
  - by eapply IH, delete_workspace_ok.
Qed.

Lemma fresh_ok v e : node_ok (mkNode fresh_database v e).
Proof. constructor; [apply rtc_refl|by apply empty_ok|by intros row ?%not_elem_of_nil]. Qed.
(** ** Reading a successful call *)
Lemma bind_Ok {E A B} (m : M E A) (k : A -> M E B) n b n' :
  bind m k n = Some (Ok b, n') -> exists a n1, m n = Some (Ok a, n1) /\ k a n1 = Some (Ok b, n').
Proof. unfold bind. destruct (m n) as [[[a|e] n1]|]; [|done|done]. intros Hk. by exists a, n1. Qed.

Lemma map_error_Ok {E F A} (f : E -> F) (m : M E A) n a n' :
  map_error f m n = Some (Ok a, n') -> m n = Some (Ok a, n').
Proof. unfold map_error. destruct (m n) as [[[x|e] n1]|]; [|done|done]. by intros [= -> ->]. Qed.

Lemma the_Ok {A} (o : option A) e n a n' : the o e n = Some (Ok a, n') -> o = Some a /\ n' = n.
Proof. intros [= Ho <-]. by destruct o; inversion Ho. Qed.

Lemma session_of_Ok id n o n' : session_of id n = Some (Ok o, n') -> load (database n) id = Ok o /\ n' = n.
Proof. intros [= Hr <-]%map_error_Ok. done. Qed.

Lemma writing_Ok {E A} (f : Database -> result E A * Database) n a n' :
  writing f n = Some (Ok a, n') ->
  f (database n) = (Ok a, database n') /\ secrets n' = secrets n.
Proof. unfold writing. destruct (f (database n)) as [r db]. by intros [= -> <-]. Qed.

(** Takes a successful call apart, one statement at a time. *)
Ltac run_ok H :=
  lazymatch type of H with
  | bind _ _ _ = Some (Ok _, _) =>
      let a := fresh "a" in let n1 := fresh "n" in let Hm := fresh "Hm" in
      apply bind_Ok in H as (a & n1 & Hm & H); run_ok Hm
  | map_error _ _ _ = Some (Ok _, _) => apply map_error_Ok in H; run_ok H
  | the _ _ _ = Some (Ok _, _) => apply the_Ok in H as [H ?]; subst
  | session_of _ _ = Some (Ok _, _) => apply session_of_Ok in H as [H ?]; subst
  | ret _ _ = Some (Ok _, _) => injection H as ? ?; subst
  | _ => idtac
  end.

(** ** Reconciliation *)
Lemma remove_orphans_Ok orphans : forall k n removed n',
  Forall (fixed 16) orphans -> DurablePairing.remove_orphans orphans k n = Some (Ok removed, n') ->
  database n' = database n
  /\ forall id, fixed 16 id -> holds (secrets n') id <-> holds (secrets n) id /\ id ∉ orphans.
Proof.
  induction orphans as [|orphan orphans IH]; intros k n removed n' Hf Hr; cbn [DurablePairing.remove_orphans] in Hr.
  { injection Hr as _ <-. split; [done|]. intros id _. split; [|by intros [? _]]. by split; [|apply not_elem_of_nil]. }
  apply Forall_cons in Hf as [Hf Hfs]. apply bind_Ok in Hr as (was & n1 & Hm%map_error_Ok & Hr).
  unfold in_vault in Hm. destruct (vault_remove (secrets n) orphan) as [r v] eqn:Ev. injection Hm as -> <-.
  apply IH in Hr as [Hd Hh]; [|done]. split; [done|]. intros id Hid. rewrite (Hh id Hid). cbn [secrets].
  rewrite not_elem_of_cons. split.
  - intros [Hv Hni]. split; [by apply (remove_only _ _ _ _ _ Ev)|]. split; [|done]. intros ->.
    by apply (remove_Ok _ _ _ _ Ev).
  - intros (Hv & Hne & Hni). split; [|done]. by apply (remove_keeps _ _ _ _ _ Ev).
Qed.

Lemma missing_None active_ids secret_ids :
  (forall id, id ∈ active_ids -> id ∈ secret_ids) -> DurablePairing.missing_secret active_ids secret_ids = None.
Proof.
  intros Hs. unfold DurablePairing.missing_secret. destruct (List.find _ _) as [id|] eqn:Ef; [|done].
  apply find_some in Ef as [Hin Hc]. exfalso. apply negb_true_iff, contains_false in Hc. apply Hc, Hs.
  rewrite <- (sort_bytes_perm active_ids). by apply list_elem_of_In.
Qed.

(** What a node reads after it expired sessions. *)
Lemma reconcile_inv now n r n' :
  node_ok n -> DurablePairing.reconcile now n = Some (r, n') ->
  (exists e, r = Err (DurablePairing.OfDatabase e)) \/ (exists e, r = Err (DurablePairing.Secrets e))
  \/ exists n1 active_ids secret_ids count total,
       node_ok n1 /\ (forall id, id ∈ active_ids <-> exists row, row ∈ pairing_sessions (database n1)
             /\ pairing_invitation_id row = id /\ active (pairing_state row))
       /\ vault_invitation_ids (secrets n1) = Ok secret_ids
       /\ map_error (F := DurablePairing.error) id (let* removed := DurablePairing.remove_orphans
            (List.filter (fun id => negb (contains id active_ids)) secret_ids) 0 in
          ret (mkReconcileResult count removed total)) n1 = Some (r, n').
Proof.
  intros Hn. unfold DurablePairing.reconcile, bind at 1, map_error at 1, writing.
  destruct (expire_pairing_sessions (database n) now) as [[expired|e] db] eqn:Ee; cbn [map_err];
    [|intros [= <- _]; left; by eexists].
  assert (Hn1 : node_ok (mkNode db (secrets n) (entropy n))).
  { assert (Hh : harmless (database n) db).
    { apply pairing_harmless; [apply Hn|apply Hn|by eapply request_expire|by eapply expire_only]. }
    destruct Hh as (Hr & Hp & Ho & _). by apply node_write. }
  unfold bind at 1, map_error at 1, reading. cbn [database].
  destruct (active_pairing_sessions db) as [sessions|e] eqn:Ea; cbn [map_err]; [|intros [= <- _]; left; by eexists].
  unfold bind at 1, map_error at 1, of_vault. cbn [secrets].
  destruct (vault_invitation_ids (secrets n)) as [secret_ids|e] eqn:Ev; cbn [map_err];
    [|intros [= <- _]; right; left; by eexists].
  pose proof (active_listed _ _ Ea) as Hl. destruct (ids_Ok _ _ Ev) as [Hf Hids].
  rewrite missing_None.
  2:{ intros id (row & Hin & <- & Hst)%Hl. apply Hids; [by apply (row_id_fixed db); [apply Hn1|]|].
      by apply (node_covered _ Hn1). }
  intros Hr. right. right. exists (mkNode db (secrets n) (entropy n)), (List.map session_invitation_id sessions), secret_ids, expired,
    (Z.of_nat (length sessions)). split; [done|]. split; [done|]. split; [done|]. unfold map_error.
  rewrite Hr. by destruct r.
Qed.

(** C7: whatever calls, requests and crashes a node has been through since it was empty, its
    vault has the responder's secret of every pairing session that is created, claimed
    or confirmed.  So reconciliation never finds an active session without its secret,
    and when it succeeds, the vault has the secrets of the active sessions and no other:
    what a crash left behind is gone. *)
Theorem secrets_cover_sessions n0 n :
  database n0 = fresh_database -> rtc (node_step identity) n0 n ->
  (forall row, row ∈ pairing_sessions (database n) -> active (pairing_state row) ->
     holds (secrets n) (pairing_invitation_id row))
  /\ (forall now id n', DurablePairing.reconcile now n <> Some (Err (DurablePairing.MissingActiveSecret id), n'))
  /\ (forall now result n', DurablePairing.reconcile now n = Some (Ok result, n') ->
       forall id, fixed 16 id ->
       holds (secrets n') id <-> exists row, row ∈ pairing_sessions (database n')
         /\ pairing_invitation_id row = id /\ active (pairing_state row)).
Proof.
  intros Hd Hr. assert (Hn : node_ok n).
  { apply (steps_ok n0); [|done]. destruct n0 as [db v e]. cbn in Hd. subst db. apply fresh_ok. }
  split; [apply Hn|]. split.
  - intros now id n' Hrec. destruct (reconcile_inv _ _ _ _ Hn Hrec) as [[e He]|[[e He]|(n1 & active_ids & secret_ids & count
      & total & _ & _ & _ & Hm)]]; [done|done|]. clear -Hm.
    set (orphans := List.filter _ _) in Hm. unfold map_error, bind in Hm.
    assert (Hnone : forall l k m r m', DurablePairing.remove_orphans l k m = Some (Err r, m') ->
      r <> DurablePairing.MissingActiveSecret id).
    { induction l as [|o l IH]; intros k m r m' Ho; [done|]. cbn in Ho. unfold bind, map_error, in_vault in Ho.
      destruct (vault_remove (secrets m) o) as [[was|e] v]; cbn in Ho; [by eapply IH|]. by injection Ho as <- _. }
    destruct (DurablePairing.remove_orphans orphans 0 n1) as [[[x|e] m]|] eqn:Ho; [done| |done].
    injection Hm as -> _. by apply (Hnone _ _ _ _ _ Ho).
  - intros now result n' Hrec id Hid. destruct (reconcile_inv _ _ _ _ Hn Hrec) as [[e He]|[[e He]|(n1 & active_ids & secret_ids
      & count & total & Hn1 & Ha & Hs & Hm)]]; [done|done|]. apply map_error_Ok, bind_Ok in Hm as (removed & n2 & Hrem & Hret).
    injection Hret as _ <-. destruct (ids_Ok _ _ Hs) as [Hf Hids].
    apply remove_orphans_Ok in Hrem as [Hdb Hh].
    2:{ rewrite Forall_forall in *. intros x [Hx _]%list_elem_of_In%filter_In. by apply Hf, list_elem_of_In. }
    rewrite Hdb, <- Ha, (Hh id Hid), <- (Hids id Hid). rewrite (list_elem_of_In (List.filter _ _) id), filter_In.
    rewrite <- list_elem_of_In, negb_true_iff, contains_false. split.
    + intros [Hin Hni]. destruct (decide (id ∈ active_ids)) as [Hy|Hy]; [done|]. by destruct Hni.
    + intros Hy. split; [|by intros [_ ?]]. apply Ha in Hy as (row & Hin & <- & Hst).
      apply Hids; [done|]. by apply (node_covered _ Hn1).
Qed.
(** ** Confirmation *)
Lemma transition_row db id operation condition change session db' :
  NoDup (ids db) -> operation db = update_pairings db condition change ->
  (forall row, condition row = true -> has_id id row = true) ->
  (forall row, pairing_invitation_id (change row) = pairing_invitation_id row) ->
  transition db id operation = (Ok session, db') ->
  exists row, row ∈ pairing_sessions db /\ condition row = true /\ decode (change row) = Ok session.
Proof.
  intros Hn Ho Hc Hk. unfold transition. rewrite Ho. destruct (update_pairings _ _ _) as [[changed after]|] eqn:Eu; [|done].
  intros [= Hr <-]. destruct (Z.eqb_spec changed 1) as [->|]; cbn [negb] in Hr; [|done].
  apply update_pairings_Ok in Eu as (_ & E1 & ->). destruct (select _ _) as [|row rest] eqn:Es; [done|].
  assert (Hrow : row ∈ select condition (pairing_sessions db)) by (rewrite Es; left).
  unfold select in Hrow. apply list_elem_of_In, filter_In in Hrow as [Hin Hcr]. apply list_elem_of_In in Hin.
  exists row. split; [done|]. split; [done|]. apply require_Ok in Hr as (row' & [Hin' Hid']%query_id_elem & Hd).
  apply update_elem in Hin' as (row1 & Hin1 & ->). assert (row1 = row) as ->; [|by rewrite Hcr in Hd].
  apply (unique_row (pairing_sessions db)); [done|done|done|]. apply Hc, has_id_eq in Hcr.
  destruct (condition row1) eqn:E1'; [|congruence]. rewrite Hk in Hid'. congruence.
Qed.

Lemma confirmed_session_Ok session id hash now n s n' :
  node_ok n -> session_typed session -> confirmed_session session id hash now n = Some (Ok s, n') ->
  node_ok n' /\ grows (database n) (database n') /\ session_typed s
  /\ session_state session <> PairingLifecycle.Created.
Proof.
  intros Hn Hs Hc. destruct (confirmed_typed Hjson session id hash now Hs n _ n' Hn I Hc) as (? & ? & Ht).
  do 2 (split; [done|]). split; [by apply Ht|]. unfold confirmed_session in Hc.
  intros E. rewrite E in Hc. done.
Qed.

(** A row that loads as claimed keeps its handshake. *)
Lemma claim_kept db db' id session row' :
  pairings_ok db' -> evolves db db' -> load db id = Ok (Some session) ->
  session_state session <> PairingLifecycle.Created ->
  row' ∈ pairing_sessions db' -> pairing_invitation_id row' = id ->
  pairing_handshake_hash row' = session_handshake_hash session
  /\ pairing_joiner_node_id row' = joiner_node_id session
  /\ pairing_subject_actor_id row' = subject_actor_id session.
Proof.
  intros Hp He (row & [Hin Hid]%query_id_elem & Hd)%load_row Hs Hin' Hid'.
  destruct (decode_Ok _ _ Hd) as (Est & _ & _ & -> & -> & _). destruct (decode_rest _ _ Hd) as (-> & _).
  apply list_elem_of_lookup in Hin as [i Hi]. destruct (He i row Hi) as (row1 & Hi1 & Hev).
  pose proof (evolves_identity _ _ Hev) as E. injection E as E _ _ _ _ _.
  assert (row' = row1) as ->.
  { apply (unique_row (pairing_sessions db')); [apply Hp|done|by apply (list_elem_of_lookup_2 _ i)|congruence]. }
  pose proof (evolves_claim _ _ Hev) as Ec. rewrite <- Est in Ec. specialize (Ec Hs). by injection Ec.
Qed.

(** What a successful completion leaves. *)
Lemma complete_final id grant now n final n' :
  node_ok n -> fixed 16 id -> DurablePairing.complete id grant now n = Some (Ok final, n') ->
  node_ok n' /\ grows (database n) (database n') /\ load (database n') id = Ok (Some final)
  /\ session_state final = PairingLifecycle.Completed /\ ~ holds (secrets n') id.
Proof.
  intros Hn Hf Hc. destruct (complete_keeps Hjson id grant now Hf n _ n' Hn I Hc) as (Hn' & Hg & _).
  do 2 (split; [done|]). unfold DurablePairing.complete in Hc.
  apply bind_Ok in Hc as (s & n1 & Hm%map_error_Ok & Hc). apply bind_Ok in Hc as (was & n2 & Hrem%map_error_Ok & Hret).
  injection Hret as -> <-. apply writing_Ok in Hm as [Hw _]. unfold in_vault in Hrem.
  destruct (vault_remove (secrets n1) id) as [r v'] eqn:Ev. injection Hrem as -> <-. cbn [database secrets].
  split; [by eapply timed_load|]. split; [|by apply (remove_Ok _ _ _ _ Ev)].
  unfold complete_pairing_session in Hw. destruct (now <? 0); [done|].
  apply transition_row with (condition := completable (database n) id grant) (change := completed grant now)
    in Hw as (row & _ & _ & Hdec); [|apply Hn|done| |done].
  2:{ intros row Hcr. by do 3 apply andb_true_iff in Hcr as [Hcr _]. }
  by destruct (decode_Ok _ _ Hdec) as (-> & _).
Qed.

(** What follows the check of the code. *)
Lemma confirm_rest session id hash now n shown n' :
  node_ok n -> fixed 16 id -> load (database n) id = Ok (Some session) ->
  (let* confirmed := confirmed_session session id hash now in
   let* operation := planned_or_new_grant identity confirmed now in
   run* map_error (fun _ => Storage) (writing (fun db =>
     Repository.submit_operation db (InvitationDescriptor.space_id (descriptor confirmed)) (mkSubmit operation now)));
   let* session := map_error durable_error
     (DurablePairing.complete id (OperationEnvelope.operation_id operation) now) in
   ret (view session)) n = Some (Ok shown, n') ->
  exists final, node_ok n' /\ grows (database n) (database n') /\ load (database n') id = Ok (Some final)
    /\ shown = view final /\ session_state session <> PairingLifecycle.Created
    /\ session_state final = PairingLifecycle.Completed /\ ~ holds (secrets n') id.
Proof.
  intros Hn Hf Hl Hc. pose proof (load_typed Hjson _ _ _ (node_pairings _ Hn) Hl) as Hty.
  apply bind_Ok in Hc as (confirmed & n1 & Hcs & Hc). apply bind_Ok in Hc as (operation & n2 & Hpl & Hc).
  destruct (confirmed_session_Ok _ _ _ _ _ _ _ Hn Hty Hcs) as (Hn1 & Hg1 & Hty1 & Hnc).
  destruct (grant_planned Hjson identity confirmed now Hty1 n1 _ n2 Hn1 I Hpl) as (Hn2 & Hg2 & Hto).
  specialize (Hto operation eq_refl). apply bind_Ok in Hc as (submitted & n3 & Hsub & Hc).
  destruct (submitted_keeps _ _ operation now Hto n2 _ n3 Hn2 I Hsub) as (Hn3 & Hg3 & _).
  apply bind_Ok in Hc as (final & n4 & Hcomp%map_error_Ok & Hret). injection Hret as <- <-.
  destruct (complete_final _ _ _ _ _ _ Hn3 Hf Hcomp) as (Hn4 & Hg4 & ?). exists final. split; [done|].
  split; [by do 3 (etrans; [done|])|]. tauto.
Qed.

Lemma fresh_steps_ok n0 n : database n0 = fresh_database -> rtc (node_step identity) n0 n -> node_ok n.
Proof.
  intros Hd Hr. apply (steps_ok n0); [|done]. destruct n0 as [db v e]. cbn in Hd. subst db. apply fresh_ok.
Qed.

(** C5: only the code completes a pairing.  A confirmation that succeeds was given the
    confirmation code of the session's own handshake, and leaves the session completed
    with the joiner and the handshake it had, the view of it as its result, and no
    secret for the invitation in the vault.  Any other code is refused and changes
    nothing. *)
Theorem confirm_needs_code n0 n id supplied now :
  database n0 = fresh_database -> rtc (node_step identity) n0 n -> fixed 16 id ->
  (forall shown n', confirm identity id supplied now n = Some (Ok shown, n') ->
     exists session hash final,
       load (database n) id = Ok (Some session) /\ session_handshake_hash session = Some hash
       /\ supplied = confirmation_octal hash
       /\ load (database n') id = Ok (Some final) /\ shown = view final
       /\ session_state final = PairingLifecycle.Completed /\ session_handshake_hash final = Some hash
       /\ joiner_node_id final = joiner_node_id session /\ subject_actor_id final = subject_actor_id session
       /\ ~ holds (secrets n') id)
  /\ (forall session hash, load (database n) id = Ok (Some session) -> session_handshake_hash session = Some hash ->
       supplied <> confirmation_octal hash ->
       confirm identity id supplied now n = Some (Err ConfirmationMismatch, n)).
Proof.
  intros Hd Hr Hf. pose proof (fresh_steps_ok _ _ Hd Hr) as Hn. split.
  2:{ intros session hash Hl Hh Hne. unfold confirm, bind, session_of, map_error, reading, pairing_session. rewrite Hl.
      cbn [map_err]. unfold the, lift. cbn [ok_or]. rewrite Hh. cbn [ok_or].
      apply list_eqb_neq in Hne. by rewrite Hne. }
  intros shown n' Hc. unfold confirm in Hc.
  apply bind_Ok in Hc as (found & n1 & [Hl ->]%session_of_Ok & Hc).
  apply bind_Ok in Hc as (session & n2 & [-> ->]%the_Ok & Hc). apply bind_Ok in Hc as (hash & n3 & [Hh ->]%the_Ok & Hc).
  destruct (list_eqb supplied (confirmation_octal hash)) eqn:Ecode; cbn [negb] in Hc; [|done].
  apply list_eqb_eq in Ecode. exists session, hash.
  destruct (eqb (session_state session) PairingLifecycle.Completed) eqn:Est.
  - apply bool_decide_eq_true in Est. apply bind_Ok in Hc as (was & n4 & Hrem%map_error_Ok & Hret).
    injection Hret as <- <-. unfold in_vault in Hrem.
    destruct (vault_remove (secrets n) id) as [r v'] eqn:Ev. injection Hrem as -> <-. exists session.
    do 9 (split; [done|]). by apply (remove_Ok _ _ _ _ Ev).
  - destruct (confirm_rest _ _ _ _ _ _ _ Hn Hf Hl Hc) as (final & Hn' & Hg & Hl' & Hs & Hnc & Hst & Hh').
    exists final. do 6 (split; [done|]). destruct (load_row _ _ _ Hl') as (row & [Hin Hid]%query_id_elem & Hdec).
    destruct (claim_kept _ _ _ _ row (node_pairings _ Hn') (grows_sessions _ _ Hg) Hl Hnc Hin Hid) as (E1 & E2 & E3).
    destruct (decode_Ok _ _ Hdec) as (_ & _ & _ & E4 & E5 & _). destruct (decode_rest _ _ Hdec) as (E6 & _).
    split; [congruence|]. split; [congruence|]. split; [congruence|done].
Qed.
(** ** Peer transports *)
Lemma authenticate_Ok id token action now n p n' :
  authenticate_peer_transport id token action now n = Some (Ok p, n') ->
  exists session actor grant, load (database n) id = Ok (Some session)
    /\ session_state session = PairingLifecycle.Completed
    /\ session_peer_token_digest session = Some (sha256 token)
    /\ subject_actor_id session = Some actor /\ session_grant_operation_id session = Some grant
    /\ authorize_stored_capability_action (database n) (InvitationDescriptor.space_id (descriptor session)) actor grant
         (capability_action action) now = Ok tt
    /\ p = mkPrincipal id (InvitationDescriptor.space_id (descriptor session)) actor grant.
Proof.
  unfold authenticate_peer_transport. intros Hc.
  apply bind_Ok in Hc as (found & n1 & [Hl ->]%session_of_Ok & Hc).
  apply bind_Ok in Hc as (session & n2 & [-> ->]%the_Ok & Hc).
  destruct (eqb (session_state session) PairingLifecycle.Completed) eqn:Est; cbn [negb] in Hc; [|done].
  apply bind_Ok in Hc as (expected & n3 & [He ->]%the_Ok & Hc).
  destruct (list_eqb (sha256 token) expected) eqn:Et; cbn [negb] in Hc; [|done]. apply list_eqb_eq in Et as <-.
  apply bind_Ok in Hc as (actor & n4 & [Ha ->]%the_Ok & Hc). apply bind_Ok in Hc as (grant & n5 & [Hg ->]%the_Ok & Hc).
  apply bind_Ok in Hc as ([] & n6 & Hauth%map_error_Ok & Hc). injection Hauth as Hauth <-.
  apply bind_Ok in Hc as (u & n7 & _ & Hret). injection Hret as <- <-. exists session, actor, grant.
  apply bool_decide_eq_true in Est. done.
Qed.

(** An action is authorized by a live grant at the end of a chain. *)
Lemma stored_action_Ok db space actor grant_id action now :
  authorize_stored_capability_action db space actor grant_id action now = Ok tt ->
  exists k operation grant, let view : CapabilityView := capability_view db in
    chain now space k actor grant_id (Grant grant) /\ live_grant now space grant_id operation grant
    /\ CapabilityGrant.subject grant = actor /\ action ∈ CapabilityGrant.actions grant.
Proof.
  unfold authorize_stored_capability_action, authorize_capability_action.
  destruct (resolve_set _ _ _ _) as [[authorities c]|] eqn:Er; [|done].
  apply resolve_set_Ok in Er as (_ & k & Hch & _). destruct (forallb _ authorities) eqn:Ep; [|done]. intros _.
  inversion Hch as [|k1 m subject x xs a issuers Ha _]; subst. cbn in Ep. apply andb_true_iff in Ep as [Ep _].
  inversion Ha as [|k2 x op g iss Hlive Hne Hcs Hall]; subst; [done|].
  exists (k2 + 1), op, g. split; [done|]. split; [done|]. split; [done|]. by apply contains_spec.
Qed.

(** C8: what stands behind a transport credential.  A token that authenticates a peer was
    issued in a completed pairing: its hash is the digest the session stored at the
    claim, the principal is that of the session, the joiner signed the claim for the
    issued descriptor of that space with the actor's key, and now a live grant to that
    actor permits the action, at the end of a chain to the genesis the space trusts. *)
Theorem peer_transport_authority n0 n id token action now p n' :
  database n0 = fresh_database -> rtc (node_step identity) n0 n ->
  authenticate_peer_transport id token action now n = Some (Ok p, n') ->
  principal_invitation_id p = id
  /\ exists row d claim k operation grant, let view : CapabilityView := capability_view (database n) in
    row ∈ pairing_sessions (database n) /\ pairing_invitation_id row = id
    /\ pairing_state row = PairingLifecycle.Completed
    /\ pairing_peer_token_digest row = Some (sha256 token)
    /\ issued d /\ InvitationDescriptor.canonical_bytes d = Ok (pairing_descriptor_cbor row)
    /\ principal_space_id p = InvitationDescriptor.space_id d
    /\ JoinerClaim.verify_for claim d = Some (Ok tt)
    /\ pairing_claim_digest row = JoinerClaim.digest claim
    /\ principal_actor_id p = JoinerClaim.subject_actor_id claim
    /\ pairing_grant_operation_id row = Some (principal_grant_operation_id p)
    /\ live_grant now (principal_space_id p) (principal_grant_operation_id p) operation grant
    /\ CapabilityGrant.subject grant = principal_actor_id p
    /\ capability_action action ∈ CapabilityGrant.actions grant
    /\ chain now (principal_space_id p) k (principal_actor_id p) (principal_grant_operation_id p) (Grant grant).
Proof.
  intros Hd Hr Hc. pose proof (fresh_steps_ok _ _ Hd Hr) as Hn.
  apply authenticate_Ok in Hc as (session & actor & grant_id & Hl & Hst & Ht & Ha & Hg & Hauth & ->). split; [done|].
  apply stored_action_Ok in Hauth as (k & operation & grant & Hch & Hlive & Hsub & Hact).
  destruct (load_row _ _ _ Hl) as (row & [Hin Hid]%query_id_elem & Hdec).
  pose proof (proj2 (node_pairings _ Hn) row Hin) as Hok. pose proof (constraints_state _ (ok_constraints _ _ Hok)) as Hk.
  destruct (decode_Ok _ _ Hdec) as (Es & _ & Hf & Ea & _ & _ & Eg). destruct (decode_rest _ _ Hdec) as (_ & _ & Et & _).
  destruct (ok_claim _ _ Hok) as (d & claim & Hf' & _ & Hv & Hdg & _ & Hs); [apply (rc_claim _ Hk); right; right; congruence|].
  rewrite Hf in Hf'. apply Ok_inj in Hf' as <-. destruct (session_descriptor _ _ _ Hok Hf) as (Hi & Hb & _).
  exists row, (descriptor session), claim, k, operation, grant. cbn.
  split; [done|]. split; [done|]. split; [congruence|]. split; [congruence|]. do 5 (split; [done|]).
  split; [congruence|]. split; [congruence|]. do 2 (split; [done|]). done.
Qed.

(** ** Revocation *)

(** Operations with the same payload have the same body. *)
Lemma same_payload a b bytes :
  typed_operation a -> typed_operation b -> OperationEnvelope.verify a = Ok tt -> OperationEnvelope.verify b = Ok tt ->
  canonical_payload a = Ok bytes -> canonical_payload b = Ok bytes ->
  OperationEnvelope.body a = OperationEnvelope.body b /\ OperationEnvelope.space_id a = OperationEnvelope.space_id b.
Proof.
  intros Hta Htb Hva Hvb Ha Hb.
  destruct (verify_Ok a (proj1 Hta) (proj2 Hta) Hva) as (s & p & Hsa).
  destruct (verify_Ok b (proj1 Htb) (proj2 Htb) Hvb) as (s' & p' & Hsb).
  unfold canonical_payload in Ha, Hb. rewrite (verified_parses _ _ _ Hsa) in Ha.
  rewrite (verified_parses _ _ _ Hsb) in Hb. cbn [map_err] in Ha, Hb.
  destruct (SignedOperation.verify s); [|done]. destruct (SignedOperation.verify s'); [|done].
  apply Ok_inj in Ha, Hb. assert (p' = p) as ->.
  { pose proof (verified_payload _ _ _ Hsa) as E1. pose proof (verified_payload _ _ _ Hsb) as E2.
    unfold SignedOperation.decode_payload in E1, E2. rewrite Ha in E1. rewrite Hb in E2. congruence. }
  assert (Es : OperationEnvelope.schema a = OperationEnvelope.schema b).
  { apply schema_inj. rewrite <- (verified_schema _ _ _ Hsa). by rewrite (verified_schema _ _ _ Hsb). }
  split.
  - pose proof (verified_body _ _ _ Hsa) as E1. pose proof (verified_body _ _ _ Hsb) as E2. rewrite Es in E1. congruence.
  - rewrite (verified_fields _ _ _ Hsa), (verified_fields _ _ _ Hsb). done.
Qed.

(** A submitted revocation is in force, admitted now or before. *)
Lemma submitted_revocation db space o now out db' revocation :
  reachable db -> typed_operation o -> OperationEnvelope.body o = OperationBody.CapabilityRevoke revocation ->
  Repository.submit_operation db space (mkSubmit o now) = (Ok out, db') ->
  exists r, r ∈ capability_grant_revocations db' /\ revocation_space_id r = OperationEnvelope.space_id o
    /\ revoked_grant_id r = CapabilityRevocation.grant_id revocation.
Proof.
  intros (log & Hr)%reachable_represents Ht Hb Hs.
  assert (Hrow : forall x, OperationEnvelope.body x = OperationEnvelope.body o ->
    OperationEnvelope.space_id x = OperationEnvelope.space_id o ->
    exists r, r ∈ revocation_rows_of x /\ revocation_space_id r = OperationEnvelope.space_id o
      /\ revoked_grant_id r = CapabilityRevocation.grant_id revocation).
  { intros x Ex Esp. unfold revocation_rows_of. rewrite Ex, Hb. eexists. split; [left|]. by rewrite <- Esp. }
  pose proof Hs as Hcases. apply submit_cases in Hcases as [[_ [e He]]|(effective & db1 & Ha & Hv & Hsp & Hcases)]; [done| |done].
  destruct Hcases as [[-> [[e He]|[s He]]]|(s & _ & _ & _ & Hi)]; [done| |].
  2:{ destruct (Hrow o eq_refl eq_refl) as (r & Hin & E). exists r. split; [|done].
      rewrite (inserted_revocations _ _ _ _ _ Hi). apply elem_of_app. by right. }
  unfold Repository.submit_operation in Hs. rewrite Hv, Hsp, Ha in Hs. apply commit_cases in Hs as [(result & Htr & Eres)|(e & _ & ? & _)]; [|done].
  rewrite He in Eres. apply Ok_inj in Eres as <-.
  destruct (represents_advance _ _ _ _ _ Hr Ha) as (Hr1 & Ec & Hpos). cbn [submit_operation_] in Htr, Hv.
  unfold submit_transaction in Htr.
  assert (Hread : read_admission_clock db1 = Ok effective).
  { unfold read_admission_clock. rewrite Ec. destruct (Z.ltb_spec effective 0); [lia|done]. }
  rewrite Hread in Htr.
  destruct (load_stored db1 (OperationEnvelope.operation_id o)) as [[existing|]|] eqn:El; [| |done].
  - destruct (canonical_payload o) as [bytes|] eqn:Eo; [|done].
    destruct (canonical_payload (operation existing)) as [bytes'|] eqn:Ee; [|done].
    destruct (list_eqb bytes bytes') eqn:Eb; cbn [negb] in Htr; [|done]. apply list_eqb_eq in Eb as <-.
    apply (load_stored_Ok db1 log) in El as [Hin _]; [|done|done].
    pose proof (log_valid log (rep_log _ _ Hr1) existing Hin) as Hval.
    unfold validate_submitted in Hv. destruct (verify_envelope _) as [[]|] eqn:Evo; [|done]. apply verify_envelope_Ok in Evo.
    destruct (same_payload (operation existing) o bytes) as [E1 E2];
      [apply Hval|done|apply Hval|done|done|done|].
    destruct (Hrow _ E1 E2) as (r & Hr' & E). exists r. split; [|done].
    rewrite (rep_revocations _ _ Hr1). apply list_elem_of_In, in_concat.
    exists (revocation_rows_of (operation existing)). rewrite <- !list_elem_of_In. split; [|done].
    by apply (list_elem_of_fmap_2 (fun s => revocation_rows_of (operation s))).
  - inv_ok. match goal with p : StoredOperation * Database |- _ => destruct p end. by inv_ok.
Qed.

Lemma grant_revocation_row db space grant found :
  grant_revocation db space grant = Ok (Some found) ->
  exists r, r ∈ capability_grant_revocations db /\ revocation_space_id r = space /\ revoked_grant_id r = grant.
Proof.
  unfold grant_revocation. intros Hg. apply Ok_inj in Hg.
  assert (Hin : found ∈ revocations_of db space grant).
  { rewrite <- (merge_sort_Permutation revocation_order). destruct (merge_sort _ _); [done|]. injection Hg as ->. left. }
  apply list_elem_of_In, in_flat_map in Hin as (r & [Hr Hm]%filter_In & _). exists r.
  split; [by apply list_elem_of_In|]. apply andb_true_iff in Hm as [H1' H2'].
  by split; apply list_eqb_eq.
Qed.

Lemma new_revocation_Ok session grant now n o n' :
  session_typed session -> fixed 32 grant -> new_revocation identity session grant now n = Some (Ok o, n') ->
  exists revocation, OperationEnvelope.body o = OperationBody.CapabilityRevoke revocation
    /\ CapabilityRevocation.grant_id revocation = grant
    /\ OperationEnvelope.space_id o = InvitationDescriptor.space_id (descriptor session).
Proof.
  intros Hs Hg. pose proof (issued_typed _ (typed_session_descriptor _ Hs)) as Hd. unfold new_revocation. intros Hc.
  apply bind_Ok in Hc as (t & n1 & Ht & Hc). apply bind_Ok in Hc as (bytes & n2 & _ & Hc).
  apply bind_Ok in Hc as (nonce & n3 & Hr & Hc).
  assert (Hfix : fixed 16 nonce).
  { unfold random, drawing in Hr. destruct (fill 16 (entropy n2)) as [[b|] e] eqn:Ef; injection Hr as Hr _; [|done].
    subst b. by apply (fill_fixed 16 (entropy n2) _ e). }
  assert (Hnow : t = now /\ 0 <= now < 2 ^ 48).
  { unfold uuid_time in Ht. destruct (Z.ltb_spec now 0); [done|]. destruct (Z.ltb_spec (2 ^ 48 - 1) now); [done|].
    injection Ht as <- _. split; [done|lia]. }
  injection Hc as Ho _. destruct (OperationEnvelope.sign _ _ _ _ _ _ _ _ _) as [o'|] eqn:Es; [|done].
  apply Ok_inj in Ho as ->. eexists. revert Es. intros Es. apply sign_fields in Es as (_ & _ & _ & Esp & _ & _ & _ & _ & _ & _ & _ & Eb).
  - rewrite Eb, Esp. done.
  - apply Hd.
  - apply uuid_v7_fixed.
  - constructor.
  - constructor; [apply Hd|constructor].
  - unfold in_i. lia.
  - done.
  - split; [done|]. cbn. by apply text_typed.
Qed.

Lemma new_revocation_database session grant now n r n' :
  new_revocation identity session grant now n = Some (r, n') -> database n' = database n.
Proof.
  unfold new_revocation, bind, uuid_time, random, drawing, lift, ret, fail.
  destruct (now <? 0); [by intros [= _ <-]|]. destruct (_ <? now); [by intros [= _ <-]|].
  destruct (fill 10 (entropy n)) as [[b|] e]; [|by intros [= _ <-]]. cbn [entropy].
  destruct (fill 16 e) as [[b'|] e']; by intros [= _ <-].
Qed.

(** A successful revocation leaves a revocation of the session's grant. *)
Lemma revoke_Ok id now n shown n' :
  node_ok n -> revoke_paired_device identity id now n = Some (Ok shown, n') ->
  exists row grant r, row ∈ pairing_sessions (database n') /\ pairing_invitation_id row = id
    /\ pairing_state row = PairingLifecycle.Completed /\ pairing_grant_operation_id row = Some grant
    /\ r ∈ capability_grant_revocations (database n') /\ revocation_space_id r = pairing_space_id row
    /\ revoked_grant_id r = grant.
Proof.
  intros Hn Hc. unfold revoke_paired_device in Hc.
  apply bind_Ok in Hc as (found & n1 & [Hl ->]%session_of_Ok & Hc).
  apply bind_Ok in Hc as (session & n2 & [-> ->]%the_Ok & Hc).
  destruct (eqb (session_state session) PairingLifecycle.Completed) eqn:Est; cbn [negb] in Hc; [|done].
  apply bool_decide_eq_true in Est. apply bind_Ok in Hc as (grant & n3 & [Hg ->]%the_Ok & Hc).
  apply bind_Ok in Hc as (revocation & n4 & Hrev%map_error_Ok & Hc). injection Hrev as Hrev <-.
  apply bind_Ok in Hc as (u & n5 & Hsub & Hc).
  destruct (load_row _ _ _ Hl) as (row & [Hin Hid]%query_id_elem & Hdec).
  destruct (decode_Ok _ _ Hdec) as (Es & _ & Hf & _ & _ & _ & Eg).
  pose proof (proj2 (node_pairings _ Hn) row Hin) as Hok. destruct (session_descriptor _ _ _ Hok Hf) as (_ & _ & Esp).
  pose proof (load_typed Hjson _ _ _ (node_pairings _ Hn) Hl) as Hty.
  assert (Hsame : forall m out m', device_view session now m = Some (out, m') -> m' = m).
  { intros m out m'. unfold device_view, bind, the, lift, map_error, reading, ret.
    do 4 (destruct (ok_or _ _); [|by intros [= _ <-]]). destruct (grant_revocation _ _ _); cbn [map_err]; by intros [= _ <-]. }
  apply Hsame in Hc as ->.
  assert (Hdone : pairing_sessions (database n5) = pairing_sessions (database n)
    /\ exists r, r ∈ capability_grant_revocations (database n5)
         /\ revocation_space_id r = pairing_space_id row /\ revoked_grant_id r = grant).
  { destruct revocation as [found|]; cbn [is_some] in Hsub.
    - injection Hsub as _ <-. split; [done|]. rewrite Esp. apply (grant_revocation_row _ _ _ found).
      unfold grant_revocation. by rewrite Hrev.
    - assert (Hfix : fixed 32 grant) by by apply (session_grant_fixed (database n) id session grant (node_pairings _ Hn)).
      apply bind_Ok in Hsub as (o & n6 & Hnew & Hsub).
      destruct (revocation_signed identity session grant now Hty Hfix n _ n6 Hn I Hnew) as (Hn6 & Hg6 & Hto).
      specialize (Hto o eq_refl). destruct (new_revocation_Ok _ _ _ _ _ _ Hty Hfix Hnew) as (rv & Hb & Hrg & Hrs).
      assert (En6 : database n6 = database n) by (by apply (new_revocation_database _ _ _ _ _ _ Hnew)).
      apply bind_Ok in Hsub as (out & n7 & Hw%map_error_Ok & Hret). injection Hret as _ <-.
      apply writing_Ok in Hw as [Hw _]. split.
      + rewrite <- En6. by apply (submit_frame _ _ _ _ _ Hw).
      + destruct (submitted_revocation _ _ _ _ _ _ _ (node_reachable _ Hn6) Hto Hb Hw) as (r & Hr & E1 & E2).
        exists r. split; [done|]. rewrite Esp. split; congruence. }
  destruct Hdone as [Esess (r & Hr & E1 & E2)]. exists row, grant, r. rewrite Esess.
  do 2 (split; [done|]). split; [congruence|]. split; [congruence|]. done.
Qed.
(** C6: a revoked device stays out.  Once its revocation has succeeded, then whatever calls,
    requests and crashes follow, unless the workspace is deleted, no token of that
    pairing authenticates for any action at any time. *)
Theorem revoked_device_locked_out n0 n n1 n2 id now shown :
  database n0 = fresh_database -> rtc (node_step identity) n0 n ->
  revoke_paired_device identity id now n = Some (Ok shown, n1) -> rtc (call identity) n1 n2 ->
  forall token action now' p n3, authenticate_peer_transport id token action now' n2 <> Some (Ok p, n3).
Proof.
  intros Hd Hr Hrev Hcalls token action now' p n3 Hauth. pose proof (fresh_steps_ok _ _ Hd Hr) as Hn.
  destruct (revoke_Ok _ _ _ _ _ Hn Hrev) as (row & grant & r & Hin & Hid & Hst & Hg & Hrv & E1 & E2).
  destruct (performs_ok _ _ _ (revoke_keeps Hjson identity id now) Hn (ex_intro _ _ Hrev)) as [Hn1 _].
  destruct (calls_ok _ _ Hn1 Hcalls) as [Hn2 [Hev Hkeep]].
  apply authenticate_Ok in Hauth as (session & actor & grant' & Hl & _ & _ & _ & Hg' & Hact & _).
  apply stored_action_Ok in Hact as (k & operation & g & _ & (_ & _ & _ & Hlive & _) & _).
  destruct (load_row _ _ _ Hl) as (row2 & [Hin2 Hid2]%query_id_elem & Hdec).
  destruct (decode_Ok _ _ Hdec) as (_ & _ & Hf & _ & _ & _ & Eg).
  destruct (session_descriptor _ _ _ (proj2 (node_pairings _ Hn2) row2 Hin2) Hf) as (_ & _ & Esp).
  apply list_elem_of_lookup in Hin as [i Hi]. destruct (Hev i row Hi) as (row' & Hi' & He).
  pose proof (evolves_identity _ _ He) as Ei. injection Ei as Ei _ _ Es _ _.
  assert (row2 = row') as ->.
  { apply (unique_row (pairing_sessions (database n2))); [apply Hn2|done|by apply (list_elem_of_lookup_2 _ i)|congruence]. }
  pose proof (evolves_outcome _ _ He (or_introl Hst)) as Eo. injection Eo as _ _ _ Eo.
  cbn in Hlive. apply Ok_inj in Hlive. apply not_true_iff_false in Hlive. apply Hlive, existsb_exists. exists r.
  split; [by apply list_elem_of_In, Hkeep|]. apply andb_true_iff. split; apply list_eqb_eq; congruence.
Qed.
End Theorems.
