(* ===== verification/NodePairingWitnesses.v ===== *)
(** * A device pairs with a node, and is revoked

    One run of the pairing control on concrete values: an empty node, a workspace, an
    invitation, a joiner's claim, its confirmation and its revocation; and the witnesses
    of the control's theorems on its nodes. *)
From S2P Require Import Prelude Bytes Floats Crypto Content Cbor Trust TrustTheory DataModel CanonicalBody BodyTheory Envelope EnvelopeTheory Samples.
From S2P Require Import Authorization AuthorizationSamples Peer Pairing PairingSamples PairingTheory InvitationTheory Application Database Repository RepositoryQueries.
From S2P Require Import RepositoryLog RepositorySteps RepositorySamples PairingStore PairingSessions PairingStoreTheory PairingVault SpaceBootstrap NodePairing NodeInvariant NodePairingTheory.
Import NodePairingControl.

#[export] Existing Instance FilePairingSecretVault.file_vault.

(** Every text is the address of the local host. *)
#[export] Instance toy_url : UrlParser := {|
  url_parse := fun _ => Some (mkUrl (str "http") [] None None None (str "/") (Some (Domain (str "localhost"))))
|}.

Definition pairing_now : Z := 1784265600000.
Definition pairing_space : list Z := replicate 32 21.
Definition pairing_draws : Entropy :=
  [pairing_space; replicate 10 1; replicate 10 2; replicate 16 3; replicate 16 4;
   replicate 16 5; replicate 32 6; replicate 32 7;
   replicate 32 8; replicate 10 9; replicate 16 10;
   replicate 10 11; replicate 16 12].
Definition empty_node : Node := mkNode fresh_database (∅ : gmap (list Z) (list Z)) pairing_draws.

Definition after {E A} (m : M E A) (n : Node) : Node :=
  match m n with Some (_, n') => n' | None => n end.

Definition phone_capability : CapabilityGrantTemplate.t :=
  CapabilityGrantTemplate.mk [CapabilityAction.AppendOperation; CapabilityAction.ReadSpace]
    [EntitySchema.Record_] [Visibility.Public] [] (Some 4096) None None 0 (str "phone").
Definition phone_command : PairingCreateCommand :=
  mkCreateCommand pairing_space 60000 [str "http://localhost"] phone_capability.
Definition workspace_node : Node := Eval vm_compute in after (create_workspace sample_identity (str "home") pairing_now) empty_node.
Definition invited_node : Node := Eval vm_compute in after (create_invitation sample_identity phone_command pairing_now) workspace_node.

Definition invitation_number : list Z := replicate 16 5.
Definition invited_descriptor : InvitationDescriptor.t :=
  Eval vm_compute in match load (database invited_node) invitation_number with
                     | Ok (Some session) => descriptor session | _ => sample_descriptor end.
Definition joiner_claim : JoinerClaim.t :=
  Eval vm_compute in default paired_claim (JoinerClaim.sign invited_descriptor joiner_seed subject_seed sample_nonce).
Definition joiner_frame : list Z :=
  Eval vm_compute in match JoinerClaim.canonical_bytes joiner_claim with Ok bytes => 0 :: bytes | Err _ => [] end.
Definition claimed_node : Node :=
  Eval vm_compute in after (handshake sample_identity invitation_number joiner_frame (pairing_now + 1)) invited_node.
Definition pairing_hash : list Z :=
  Eval vm_compute in match load (database claimed_node) invitation_number with
                     | Ok (Some session) => default [] (session_handshake_hash session) | _ => [] end.
Definition paired_node : Node :=
  Eval vm_compute in after (confirm sample_identity invitation_number (confirmation_octal pairing_hash) (pairing_now + 2)) claimed_node.
Definition revoked_node : Node :=
  Eval vm_compute in after (revoke_paired_device sample_identity invitation_number (pairing_now + 4)) paired_node.

(** ** The run *)
Definition performed {E A} (m : M E A) (n : Node) : option (option E * Node) :=
  match m n with
  | Some (Ok _, n') => Some (None, n')
  | Some (Err e, n') => Some (Some e, n')
  | None => None
  end.

Lemma performed_Ok {E A} (m : M E A) n n' : performed m n = Some (None, n') -> exists a, m n = Some (Ok a, n').
Proof. unfold performed. destruct (m n) as [[[a|e] n1]|]; [intros [= <-]; by exists a|done|done]. Qed.

Lemma performed_performs {E A} (m : M E A) n n' : performed m n = Some (None, n') -> performs m n n'.
Proof. intros [a Ha]%performed_Ok. by eexists. Qed.

Notation step_of := (node_step sample_identity).

Lemma step_workspace : step_of empty_node workspace_node.
Proof.
  apply step_call, (call_create_workspace _ _ _ (str "home") pairing_now), performed_performs. by_vm.
Qed.

Lemma phone_command_typed : command_typed phone_command.
Proof.
  split; cbn.
  - apply (bool_decide_eq_true_1 _). by_vm.
  - constructor; [by apply text_typed|constructor].
  - constructor; cbn; try done; [unfold in_u; lia..|by apply text_typed].
Qed.

Lemma step_invited : step_of workspace_node invited_node.
Proof.
  apply step_call, (call_create_invitation _ _ _ phone_command pairing_now), performed_performs;
    [exact phone_command_typed|by_vm].
Qed.

Lemma step_claimed : step_of invited_node claimed_node.
Proof.
  apply step_call, (call_handshake _ _ _ invitation_number joiner_frame (pairing_now + 1)), performed_performs; [|by_vm].
  apply (bool_decide_eq_true_1 _). by_vm.
Qed.

Lemma invitation_number_fixed : fixed 16 invitation_number.
Proof. apply (bool_decide_eq_true_1 _). by_vm. Qed.

Lemma confirms : performed (confirm sample_identity invitation_number (confirmation_octal pairing_hash) (pairing_now + 2))
  claimed_node = Some (None, paired_node).
Proof. by_vm. Qed.

Lemma step_paired : step_of claimed_node paired_node.
Proof.
  apply step_call, (call_confirm _ _ _ invitation_number (confirmation_octal pairing_hash) (pairing_now + 2)), performed_performs;
    [exact invitation_number_fixed|exact confirms].
Qed.

Lemma run_claimed : rtc step_of empty_node claimed_node.
Proof. eauto using rtc_l, rtc_once, step_workspace, step_invited, step_claimed. Qed.

Lemma run_paired : rtc step_of empty_node paired_node.
Proof. exact (rtc_r _ _ _ run_claimed step_paired). Qed.

(** ** Witnesses *)
Lemma secrets_cover_sessions_witness :
  (exists row, row ∈ pairing_sessions (database claimed_node) /\ active (pairing_state row))
  /\ forall row, row ∈ pairing_sessions (database claimed_node) -> active (pairing_state row) ->
     holds (secrets claimed_node) (pairing_invitation_id row).
Proof.
  split.
  - eexists. split; [left|]. intros [E|[E|E]]; discriminate E.
  - exact (proj1 (secrets_cover_sessions toy_exact sample_identity empty_node claimed_node eq_refl run_claimed)).
Defined.

Lemma confirm_needs_code_witness :
  exists final, load (database paired_node) invitation_number = Ok (Some final)
    /\ session_state final = PairingLifecycle.Completed.
Proof.
  destruct (performed_Ok _ _ _ confirms) as [shown Hc].
  destruct (proj1 (confirm_needs_code toy_exact sample_identity empty_node claimed_node invitation_number
    (confirmation_octal pairing_hash) (pairing_now + 2) eq_refl run_claimed invitation_number_fixed) shown paired_node Hc)
    as (session & hash & final & _ & _ & _ & Hl & _ & Hs & _).
  exists final. split; [exact Hl|exact Hs].
Defined.

Lemma authenticates :
  performed (authenticate_peer_transport invitation_number (replicate 32 8) AppendOperation (pairing_now + 3)) paired_node
  = Some (None, after (authenticate_peer_transport invitation_number (replicate 32 8) AppendOperation (pairing_now + 3)) paired_node).
Proof. by_vm. Qed.

Lemma peer_transport_authority_witness :
  exists row, row ∈ pairing_sessions (database paired_node)
    /\ pairing_peer_token_digest row = Some (sha256 (replicate 32 8)).
Proof.
  destruct (performed_Ok _ _ _ authenticates) as [p Hp].
  destruct (peer_transport_authority toy_exact sample_identity empty_node paired_node invitation_number
    (replicate 32 8) AppendOperation (pairing_now + 3) p _ eq_refl run_paired Hp) as (_ & row & d & claim & k & operation & grant & H').
  exists row. split; [exact (proj1 H')|exact (proj1 (proj2 (proj2 (proj2 H'))))].
Defined.

Lemma revokes : performed (revoke_paired_device sample_identity invitation_number (pairing_now + 4)) paired_node
  = Some (None, revoked_node).
Proof. by_vm. Qed.

Lemma revoked_device_locked_out_witness :
  match authenticate_peer_transport invitation_number (replicate 32 8) AppendOperation (pairing_now + 5) revoked_node with
  | Some (Ok _, _) => False
  | _ => True
  end.
Proof.
  destruct (performed_Ok _ _ _ revokes) as [shown Hr].
  pose proof (revoked_device_locked_out toy_exact sample_identity empty_node paired_node revoked_node revoked_node
    invitation_number (pairing_now + 4) shown eq_refl run_paired Hr (rtc_refl _ _) (replicate 32 8) AppendOperation
    (pairing_now + 5)) as Hout.
  destruct (authenticate_peer_transport _ _ _ _ revoked_node) as [[[p|e] n3]|]; [|exact I|exact I].
  exact (Hout p n3 eq_refl).
Defined.
