(* ===== verification/ClientDatabase.v ===== *)
(** * The client database (crates/fractonica-client-sqlite/schema)

    The tables of a client's SQLite file, in the conventions of [Database]: rows in
    insertion order, identities as their bytes, a column whose CHECK lists names as the
    enumeration of those names.  Each table has its row constraints; the foreign keys are
    part of the statements that can violate them.  An INTEGER column has 64 bits. *)
From S2P Require Import Prelude Bytes Floats Crypto Content Cbor Trust DataModel CanonicalBody Envelope.
From S2P Require Import Authorization Peer Application Database.

(** ** Rows *)
Record ClientOperationRow : Type := mkClientOperationRow {
  op_local_sequence : Z;
  op_operation_id : list Z;
  op_space_id : list Z;
  op_entity_id : list Z;
  op_schema : EntitySchema.t;
  op_actor_id : list Z;
  op_occurred_at_unix_ms : Z;
  op_stored_at_unix_ms : Z;
  op_locally_authored : bool;
  op_projection_json : list Z
}.

(** [client_operation_parents] and [client_operation_authorizations]. *)
Record ReferenceRow : Type := mkReferenceRow {
  reference_operation_id : list Z;
  referenced_operation_id : list Z;
  reference_position : Z
}.

Record ClientVisibilityRow : Type := mkClientVisibilityRow {
  seen_space_id : list Z;
  seen_entity_id : list Z;
  seen_schema : EntitySchema.t;
  seen_visibility : Visibility.t
}.

Record ClientProjectionRow : Type := mkClientProjectionRow {
  view_operation_id : list Z;
  view_space_id : list Z;
  view_entity_id : list Z;
  view_schema : EntitySchema.t;
  view_visibility : Visibility.t;
  view_tombstone : bool;
  view_start_at_unix_ms : option Z;
  view_end_at_unix_ms : option Z;
  view_sort_text : option (list Z);
  view_resource_count : Z;
  view_media_bytes : Z;
  view_preview_emoji : option (list Z);
  view_preview_text : option (list Z);
  view_preview_truncated : bool
}.

Record ResourceRow : Type := mkResourceRow {
  resource_content_id : list Z;
  resource_byte_length : Z;
  resource_media_type : list Z;
  resource_role : list Z;
  resource_original_name : option (list Z);
  locally_available : bool;
  local_expected : bool;
  discovered_at_unix_ms : Z;
  local_verified_at_unix_ms : option Z
}.

Record OperationResourceRow : Type := mkOperationResourceRow {
  link_operation_id : list Z;
  link_position : Z;
  link_content_id : list Z
}.

(** [PeerConfig], also the row of [client_peers]. *)
Record PeerConfig : Type := mkPeerConfig {
  peer_id : list Z;
  endpoint : list Z;
  enabled : bool;
  push_enabled : bool;
  content_read_enabled : bool;
  peer_transport_credential : option (list Z);
  added_at_unix_ms : Z
}.

Module ReadModeKey.
Inductive t : Type := SupervisorBearer | Paired.
#[global] Instance eq_dec : EqDecision t.
Proof. solve_decision. Defined.
End ReadModeKey.

Record PeerSpaceRow : Type := mkPeerSpaceRow {
  pull_peer_id : list Z;
  pull_space_id : list Z;
  pull_read_mode : ReadModeKey.t;
  pull_session_id : option (list Z);
  pull_grant_operation_id : option (list Z);
  pull_after : Z;
  next_pull_at_unix_ms : Z;
  pull_failure_count : Z;
  last_pull_error : option (list Z);
  last_pull_at_unix_ms : option Z
}.

Module DeliveryState.
Inductive t : Type := Pending | Leased | Acknowledged | Rejected.
#[global] Instance eq_dec : EqDecision t.
Proof. solve_decision. Defined.
End DeliveryState.

Record DeliveryRow : Type := mkDeliveryRow {
  delivery_peer_id : list Z;
  delivery_operation_id : list Z;
  delivery_state : DeliveryState.t;
  delivery_attempt_count : Z;
  delivery_next_attempt_at : Z;
  delivery_lease_id : option (list Z);
  delivery_lease_expires_at : option Z;
  delivery_acknowledged_at : option Z;
  delivery_last_error : option (list Z)
}.

Module ResourceTransferDirection.
Inductive t : Type := Upload | Download.
#[global] Instance eq_dec : EqDecision t.
Proof. solve_decision. Defined.
End ResourceTransferDirection.

Module TransferState.
Inductive t : Type := WaitingLocal | Pending | Leased | Complete | Rejected.
#[global] Instance eq_dec : EqDecision t.
Proof. solve_decision. Defined.
End TransferState.

Record TransferRow : Type := mkTransferRow {
  transfer_peer_id : list Z;
  transfer_content_id : list Z;
  transfer_direction : ResourceTransferDirection.t;
  transfer_state : TransferState.t;
  transfer_attempt_count : Z;
  transfer_next_attempt_at : Z;
  transfer_lease_id : option (list Z);
  transfer_lease_expires_at : option Z;
  transfer_remote_upload_url : option (list Z);
  transfer_transferred_bytes : Z;
  transfer_completed_at : option Z;
  transfer_last_error : option (list Z)
}.

(** [ClientInstallationBinding] and [ActiveWorkspace], also the singleton rows of
    [client_local_installation] and [client_active_workspace]. *)
Record ClientInstallationBinding : Type := mkBinding {
  binding_node_id : list Z;
  binding_controller_actor_id : list Z;
  binding_local_writer_actor_id : list Z
}.
#[export] Instance binding_eq_dec : EqDecision ClientInstallationBinding.
Proof. solve_decision. Defined.

Record ActiveWorkspace : Type := mkActiveWorkspace {
  active_space_id : list Z;
  active_authorization_operation_id : list Z;
  active_peer_id : option (list Z);
  activated_at_unix_ms : Z
}.

(** ** The database *)
Record ClientDatabase : Type := mkClientDatabase {
  client_last_sequence : Z;
  client_operations : list ClientOperationRow;
  client_operation_parents : list ReferenceRow;
  client_operation_authorizations : list ReferenceRow;
  client_entity_heads : list HeadRow;
  client_entity_visibility : list ClientVisibilityRow;
  client_projections : list ClientProjectionRow;
  client_resources : list ResourceRow;
  client_operation_resources : list OperationResourceRow;
  client_peers : list PeerConfig;
  client_peer_spaces : list PeerSpaceRow;
  client_deliveries : list DeliveryRow;
  client_resource_transfers : list TransferRow;
  client_local_installation : option ClientInstallationBinding;
  client_workspaces : list SpaceDescriptor;
  client_active_workspace : option ActiveWorkspace
}.

(** [install_fresh_schema]. *)
Definition fresh_client : ClientDatabase :=
  mkClientDatabase 0 [] [] [] [] [] [] [] [] [] [] [] [] None [] None.

(** The tables derived from the operations. *)
Definition with_derived (db : ClientDatabase) (parents authorizations : list ReferenceRow)
    (heads : list HeadRow) (visibility : list ClientVisibilityRow)
    (projections : list ClientProjectionRow) : ClientDatabase :=
  mkClientDatabase (client_last_sequence db) (client_operations db) parents authorizations heads
    visibility projections (client_resources db) (client_operation_resources db) (client_peers db)
    (client_peer_spaces db) (client_deliveries db) (client_resource_transfers db)
    (client_local_installation db) (client_workspaces db) (client_active_workspace db).
Definition with_client_operations (db : ClientDatabase) (sequence : Z)
    (rows : list ClientOperationRow) : ClientDatabase :=
  mkClientDatabase sequence rows (client_operation_parents db) (client_operation_authorizations db)
    (client_entity_heads db) (client_entity_visibility db) (client_projections db) (client_resources db)
    (client_operation_resources db) (client_peers db) (client_peer_spaces db) (client_deliveries db)
    (client_resource_transfers db) (client_local_installation db) (client_workspaces db)
    (client_active_workspace db).
Definition with_parents (db : ClientDatabase) (rows : list ReferenceRow) : ClientDatabase :=
  with_derived db rows (client_operation_authorizations db) (client_entity_heads db)
    (client_entity_visibility db) (client_projections db).
Definition with_authorizations (db : ClientDatabase) (rows : list ReferenceRow) : ClientDatabase :=
  with_derived db (client_operation_parents db) rows (client_entity_heads db)
    (client_entity_visibility db) (client_projections db).
Definition with_client_heads (db : ClientDatabase) (rows : list HeadRow) : ClientDatabase :=
  with_derived db (client_operation_parents db) (client_operation_authorizations db) rows
    (client_entity_visibility db) (client_projections db).
Definition with_client_visibility (db : ClientDatabase) (rows : list ClientVisibilityRow) : ClientDatabase :=
  with_derived db (client_operation_parents db) (client_operation_authorizations db)
    (client_entity_heads db) rows (client_projections db).
Definition with_client_projections (db : ClientDatabase) (rows : list ClientProjectionRow) : ClientDatabase :=
  with_derived db (client_operation_parents db) (client_operation_authorizations db)
    (client_entity_heads db) (client_entity_visibility db) rows.

(** The tables of resources and scheduling. *)
Definition with_queues (db : ClientDatabase) (resources : list ResourceRow)
    (links : list OperationResourceRow) (peers : list PeerConfig) (spaces : list PeerSpaceRow)
    (deliveries : list DeliveryRow) (transfers : list TransferRow) : ClientDatabase :=
  mkClientDatabase (client_last_sequence db) (client_operations db) (client_operation_parents db)
    (client_operation_authorizations db) (client_entity_heads db) (client_entity_visibility db)
    (client_projections db) resources links peers spaces deliveries transfers
    (client_local_installation db) (client_workspaces db) (client_active_workspace db).
Definition with_resources (db : ClientDatabase) (rows : list ResourceRow) : ClientDatabase :=
  with_queues db rows (client_operation_resources db) (client_peers db) (client_peer_spaces db)
    (client_deliveries db) (client_resource_transfers db).
Definition with_links (db : ClientDatabase) (rows : list OperationResourceRow) : ClientDatabase :=
  with_queues db (client_resources db) rows (client_peers db) (client_peer_spaces db)
    (client_deliveries db) (client_resource_transfers db).
Definition with_peers (db : ClientDatabase) (rows : list PeerConfig) : ClientDatabase :=
  with_queues db (client_resources db) (client_operation_resources db) rows (client_peer_spaces db)
    (client_deliveries db) (client_resource_transfers db).
Definition with_peer_spaces (db : ClientDatabase) (rows : list PeerSpaceRow) : ClientDatabase :=
  with_queues db (client_resources db) (client_operation_resources db) (client_peers db) rows
    (client_deliveries db) (client_resource_transfers db).
Definition with_deliveries (db : ClientDatabase) (rows : list DeliveryRow) : ClientDatabase :=
  with_queues db (client_resources db) (client_operation_resources db) (client_peers db)
    (client_peer_spaces db) rows (client_resource_transfers db).
Definition with_transfers (db : ClientDatabase) (rows : list TransferRow) : ClientDatabase :=
  with_queues db (client_resources db) (client_operation_resources db) (client_peers db)
    (client_peer_spaces db) (client_deliveries db) rows.

(** The installation, the workspaces and the active one. *)
Definition with_workspaces (db : ClientDatabase) (installation : option ClientInstallationBinding)
    (workspaces : list SpaceDescriptor) (active : option ActiveWorkspace) : ClientDatabase :=
  mkClientDatabase (client_last_sequence db) (client_operations db) (client_operation_parents db)
    (client_operation_authorizations db) (client_entity_heads db) (client_entity_visibility db)
    (client_projections db) (client_resources db) (client_operation_resources db) (client_peers db)
    (client_peer_spaces db) (client_deliveries db) (client_resource_transfers db) installation workspaces
    active.

(** ** Row constraints *)
Definition column_i64 (value : Z) : bool := (0 <=? value) && (value <? 2 ^ 63).

Definition peer_space_constraints (row : PeerSpaceRow) : bool :=
  let paired := bool_decide (pull_read_mode row = ReadModeKey.Paired) in
  column_i64 (pull_after row) && column_i64 (next_pull_at_unix_ms row)
  && column_i64 (pull_failure_count row)
  && Bool.eqb paired (is_some (pull_session_id row))
  && Bool.eqb paired (is_some (pull_grant_operation_id row)).

Definition in_delivery_state (state : DeliveryState.t) (row : DeliveryRow) : bool :=
  bool_decide (delivery_state row = state).

Definition delivery_constraints (row : DeliveryRow) : bool :=
  column_i64 (delivery_attempt_count row) && column_i64 (delivery_next_attempt_at row)
  && Bool.eqb (in_delivery_state DeliveryState.Leased row) (is_some (delivery_lease_id row))
  && Bool.eqb (in_delivery_state DeliveryState.Leased row) (is_some (delivery_lease_expires_at row))
  && Bool.eqb (in_delivery_state DeliveryState.Acknowledged row) (is_some (delivery_acknowledged_at row)).

Definition in_transfer_state (state : TransferState.t) (row : TransferRow) : bool :=
  bool_decide (transfer_state row = state).
Definition in_direction (direction : ResourceTransferDirection.t) (row : TransferRow) : bool :=
  bool_decide (transfer_direction row = direction).

Definition transfer_constraints (row : TransferRow) : bool :=
  column_i64 (transfer_attempt_count row) && column_i64 (transfer_next_attempt_at row)
  && column_i64 (transfer_transferred_bytes row)
  && Bool.eqb (in_transfer_state TransferState.Leased row) (is_some (transfer_lease_id row))
  && Bool.eqb (in_transfer_state TransferState.Leased row) (is_some (transfer_lease_expires_at row))
  && Bool.eqb (in_transfer_state TransferState.Complete row) (is_some (transfer_completed_at row))
  && (in_direction ResourceTransferDirection.Upload row || negb (is_some (transfer_remote_upload_url row)))
  && (in_direction ResourceTransferDirection.Upload row
      || negb (in_transfer_state TransferState.WaitingLocal row)).
