(* ===== verification/ClientStore.v ===== *)
(** * The client's operation store (crates/fractonica-client-sqlite/src/lib.rs)

    Commits of signed operations with their causal heads, projections and resources, the
    delivery and transfer rows they create, workspaces, the installation and peers.

    [T A] is a transaction: it yields a value and the database to commit, or an error
    and nothing is committed.  A single statement is a transaction of its own; the
    connection is behind a mutex, so operations run one at a time.  A statement
    returns the number of rows it changed.  [Sqlite] is an [rusqlite::Error]: a violated
    constraint, or no row for [query_row]. *)
From S2P Require Import Prelude Bytes Floats Crypto Content Cbor Trust DataModel CanonicalBody Envelope.
From S2P Require Import Authorization Peer Application Database PairingStore ClientDatabase.

Definition MAX_OUTBOX_BATCH : Z := 100.
Definition MAX_ERROR_BYTES : Z := 2048.
Definition MAX_ENDPOINT_BYTES : Z := 2048.
Definition MAX_RESOURCE_TRANSFER_BATCH : Z := 100.
Definition MAX_RECORD_PREVIEW_TEXT_CHARS : nat := 192.

Module CommitSource.
Inductive t : Type := Local | Remote | Peer (source : list Z).
End CommitSource.

Record CommitResult : Type := mkCommitResult {
  commit_local_sequence : Z;
  commit_operation_id : list Z;
  commit_replayed : bool;
  queued_peers : Z
}.

Module ClientStoreError.
Inductive t : Type :=
| Sqlite
| InvalidOperation (detail : Detail)
| Corrupt (text : list Z)
| OperationConflict (id : list Z)
| MissingParent (id : list Z)
| MissingAuthorization (id : list Z)
| ParentMismatch (id : list Z)
| EntityAlreadyExists
| InitialTombstone
| TooManyHeads
| NegativeTimestamp
| InvalidPeerEndpoint
| UnknownPeer (id : list Z)
| InvalidOutboxLimit
| InvalidLeaseDuration
| LeaseMismatch
| ResourceLeaseMismatch
| InvalidResourceTransferLimit
| ResourceDescriptorConflict
| InvalidResourceProgress
| DeliveryErrorTooLong
| InvalidEntityLimit
| InvalidSyncTargetLimit
| PullCursorMismatch
| InvalidPullCursor
| InvalidBootstrap (e : ApplicationError + list Z)
| InstallationConflict.
End ClientStoreError.

(** ** Transactions *)
#[local] Notation error := ClientStoreError.t.
Definition T (A : Type) : Type := ClientDatabase -> result error (A * ClientDatabase).

Definition ret {A} (a : A) : T A := fun db => Ok (a, db).
Definition bind {A B} (m : T A) (k : A -> T B) : T B :=
  fun db => match m db with Ok (a, db) => k a db | Err e => Err e end.
Definition fail {A} (e : error) : T A := fun _ => Err e.
Definition get : T ClientDatabase := fun db => Ok (db, db).
Definition put (db : ClientDatabase) : T unit := fun _ => Ok (tt, db).
Definition lift {A} (r : result error A) : T A := fun db => let? a := r in Ok (a, db).

Notation "'let*' x ':=' m 'in' k" := (bind m (fun x => k))
  (at level 10, x pattern, m at level 100, k at level 200) : fractonica_scope.
Notation "m ';*' k" := (bind m (fun _ => k)) (at level 100, k at level 200, right associativity)
  : fractonica_scope.

(** A guard that returns early. *)
Definition unless (bad : bool) (e : error) : T unit := if bad then fail e else ret tt.
(** A statement's constraints. *)
Definition holds (condition : bool) : T unit := unless (negb condition) ClientStoreError.Sqlite.

Definition each {A} (f : A -> T unit) : list A -> T unit :=
  fix each l := match l with [] => ret tt | a :: l => f a ;* each l end.
(** A loop that counts positions. *)
Definition each_at {A} (f : Z -> A -> T unit) : Z -> list A -> T unit :=
  fix each_at position l :=
    match l with [] => ret tt | a :: l => f position a ;* each_at (position + 1) l end.

(** The call of a transaction: commit or roll back. *)
Definition run {A} (m : T A) (db : ClientDatabase) : result error A * ClientDatabase :=
  match m db with Ok (a, db') => (Ok a, db') | Err e => (Err e, db) end.

Definition corrupt {A} (text : list Z) : result error A := Err (ClientStoreError.Corrupt text).
Definition positive_u64 (value : Z) : result error Z :=
  if 0 <? value then Ok value else corrupt (str "expected positive SQLite integer").
Definition nonnegative_u64 (value : Z) : result error Z :=
  if 0 <=? value then Ok value else corrupt (str "expected nonnegative SQLite integer").
(** [query_row] that requires a row. *)
Definition require_row {A} (condition : A -> bool) (rows : list A) : result error A :=
  ok_or (query_row condition rows) ClientStoreError.Sqlite.

(** ** Conditions on rows *)
Definition has_operation (id : list Z) (row : ClientOperationRow) : bool :=
  list_eqb (op_operation_id row) id.
Definition operation_stored (db : ClientDatabase) (id : list Z) : bool :=
  exists_row (has_operation id) (client_operations db).
Definition in_space (space_id : list Z) (row : ClientOperationRow) : bool :=
  list_eqb (op_space_id row) space_id.
(** [operation_id IN (SELECT operation_id FROM client_operations WHERE space_id = ..)]. *)
Definition operation_of_space (db : ClientDatabase) (space_id id : list Z) : bool :=
  exists_row (fun row => has_operation id row && in_space space_id row) (client_operations db).
Definition has_peer (id : list Z) (row : PeerConfig) : bool := list_eqb (peer_id row) id.
Definition peer_configured (db : ClientDatabase) (id : list Z) : bool :=
  exists_row (has_peer id) (client_peers db).
Definition has_content (id : list Z) (row : ResourceRow) : bool := list_eqb (resource_content_id row) id.
Definition has_peer_space (peer space : list Z) (row : PeerSpaceRow) : bool :=
  list_eqb (pull_peer_id row) peer && list_eqb (pull_space_id row) space.
Definition has_delivery (peer operation : list Z) (row : DeliveryRow) : bool :=
  list_eqb (delivery_peer_id row) peer && list_eqb (delivery_operation_id row) operation.
Definition has_transfer (peer content : list Z) (direction : ResourceTransferDirection.t)
    (row : TransferRow) : bool :=
  list_eqb (transfer_peer_id row) peer && list_eqb (transfer_content_id row) content
  && in_direction direction row.

(** A peer without credential and without configured spaces receives every space. *)
Definition unscoped (db : ClientDatabase) (peer : list Z) : bool :=
  negb (match query_row (has_peer peer) (client_peers db) with
        | Some row => is_some (peer_transport_credential row)
        | None => false
        end)
  && negb (exists_row (fun space => list_eqb (pull_peer_id space) peer) (client_peer_spaces db)).
Definition in_scope (db : ClientDatabase) (peer space : list Z) : bool :=
  unscoped db peer || exists_row (has_peer_space peer space) (client_peer_spaces db).
Definition content_in_space (db : ClientDatabase) (space content : list Z) : bool :=
  exists_row (fun link => list_eqb (link_content_id link) content
                          && operation_of_space db space (link_operation_id link))
    (client_operation_resources db).
Definition content_in_scope (db : ClientDatabase) (peer content : list Z) : bool :=
  unscoped db peer
  || exists_row (fun space => list_eqb (pull_peer_id space) peer
                              && content_in_space db (pull_space_id space) content)
       (client_peer_spaces db).

Section ClientStore.
Context `{Sha256} `{Ed25519} `{HalfFloat} `{Base64} `{!JsonNumber} `{!JsonSize}
  `{!ProjectionJson} `{!Lowercase}.

(** ** Stored operations *)
Definition decode_operation (json : list Z) : result error OperationEnvelope.t :=
  let? operation := ok_or (from_json json)
    (ClientStoreError.Corrupt (str "invalid stored operation JSON")) in
  check map_err (fun _ => ClientStoreError.Corrupt (str "stored operation failed verification"))
    (OperationEnvelope.verify operation);
  Ok operation.

Definition load_operation_row (db : ClientDatabase) (id : list Z) :
    result error (option (Z * OperationEnvelope.t)) :=
  match query_row (has_operation id) (client_operations db) with
  | None => Ok None
  | Some row =>
      let? sequence := positive_u64 (op_local_sequence row) in
      let? operation := decode_operation (op_projection_json row) in
      Ok (Some (sequence, operation))
  end.

Definition operation_matches (db : ClientDatabase) (expected : OperationEnvelope.t) : result error bool :=
  let? found := load_operation_row db (OperationEnvelope.operation_id expected) in
  Ok match found with
     | Some (_, operation) => envelope_eqb operation expected
     | None => false
     end.

(** ** Admission *)
Definition validate_references (operation : OperationEnvelope.t) (db : ClientDatabase) :
    result error unit :=
  check for_each (fun parent =>
      let? found := load_operation_row db parent in
      match found with Some _ => Ok tt | None => Err (ClientStoreError.MissingParent parent) end)
    (OperationEnvelope.causal_parents operation);
  for_each (fun authorization =>
      let? found := load_operation_row db authorization in
      match found with
      | Some _ => Ok tt
      | None => Err (ClientStoreError.MissingAuthorization authorization)
      end)
    (OperationEnvelope.authorization operation).

Definition is_head (id : list Z) (row : HeadRow) : bool := list_eqb (head_id row) id.
Definition of_entity (space entity : list Z) (row : ClientOperationRow) : bool :=
  in_space space row && list_eqb (op_entity_id row) entity.
Definition head_of_entity (space entity : list Z) (row : HeadRow) : bool :=
  list_eqb (head_space_id row) space && list_eqb (head_entity_id row) entity.

Definition validate_topology (operation : OperationEnvelope.t) (db : ClientDatabase) :
    result error unit :=
  let space := OperationEnvelope.space_id operation in
  let entity := OperationEnvelope.entity_id operation in
  let parents := OperationEnvelope.causal_parents operation in
  check for_each (fun parent =>
      let? row := require_row (has_operation parent) (client_operations db) in
      if negb (list_eqb (op_entity_id row) entity)
         || negb (eqb (op_schema row) (OperationEnvelope.schema operation))
      then Err (ClientStoreError.ParentMismatch parent) else Ok tt) parents;
  let history := count_rows (of_entity space entity) (client_operations db) in
  let heads := count_rows (head_of_entity space entity) (client_entity_heads db) in
  if (0 <? history) && (heads =? 0)
  then corrupt (str "entity history has no current heads")
  else if (0 <? history) && is_empty parents then Err ClientStoreError.EntityAlreadyExists
  else if (history =? 0) && (match OperationEnvelope.body operation with
                             | OperationBody.Tombstone => true | _ => false end)
  then Err ClientStoreError.InitialTombstone
  else
    let consumed := fold_left (fun count parent =>
      count + count_rows (is_head parent) (client_entity_heads db)) parents 0 in
    if 64 <? heads - consumed + 1 then Err ClientStoreError.TooManyHeads else Ok tt.

(** ** The graph of an operation *)
Definition insert_parent (operation : OperationEnvelope.t) (position : Z) (parent : list Z) : T unit :=
  let id := OperationEnvelope.operation_id operation in
  let* db := get in
  holds (negb (exists_row (fun row =>
           list_eqb (reference_operation_id row) id
           && (list_eqb (referenced_operation_id row) parent || (reference_position row =? position)))
           (client_operation_parents db))
         && operation_stored db id && operation_stored db parent && negb (list_eqb id parent)) ;*
  put (with_client_heads
         (with_parents db (client_operation_parents db ++ [mkReferenceRow id parent position]))
         (delete_rows (is_head parent) (client_entity_heads db))).

Definition insert_authorization (operation : OperationEnvelope.t) (position : Z)
    (authorization : list Z) : T unit :=
  let id := OperationEnvelope.operation_id operation in
  let* db := get in
  holds (negb (exists_row (fun row =>
           list_eqb (reference_operation_id row) id
           && (list_eqb (referenced_operation_id row) authorization
               || (reference_position row =? position)))
           (client_operation_authorizations db))
         && operation_stored db id && operation_stored db authorization) ;*
  put (with_authorizations db
         (client_operation_authorizations db ++ [mkReferenceRow id authorization position])).

Definition insert_graph (operation : OperationEnvelope.t) : T unit :=
  let id := OperationEnvelope.operation_id operation in
  each_at (insert_parent operation) 0 (OperationEnvelope.causal_parents operation) ;*
  each_at (insert_authorization operation) 0 (OperationEnvelope.authorization operation) ;*
  let* db := get in
  holds (negb (exists_row (is_head id) (client_entity_heads db))
         && exists_row (fun row =>
              has_operation id row
              && of_entity (OperationEnvelope.space_id operation) (OperationEnvelope.entity_id operation) row
              && eqb (op_schema row) (OperationEnvelope.schema operation)) (client_operations db)) ;*
  put (with_client_heads db (client_entity_heads db ++
    [mkHeadRow (OperationEnvelope.space_id operation) (OperationEnvelope.entity_id operation)
       (OperationEnvelope.schema operation) id])).

(** ** The projection of an operation *)

(** A prefix of whole characters, by their leading bytes. *)
Definition is_char_start (b : Z) : bool := negb ((128 <=? b) && (b <? 192)).
Fixpoint char_prefix (n : nat) (s : list Z) : list Z :=
  match s with
  | [] => []
  | b :: s =>
      if is_char_start b
      then match n with O => [] | S n => b :: char_prefix n s end
      else b :: char_prefix n s
  end.

Definition bounded_record_preview (text : option (list Z)) : option (list Z) * bool :=
  match text with
  | None => (None, false)
  | Some text =>
      let prefix := char_prefix MAX_RECORD_PREVIEW_TEXT_CHARS text in
      if (length prefix <? length text)%nat then (Some prefix, true) else (Some text, false)
  end.

(** The columns a body fills: start, end, sort text, and the emoji and bounded text of a
    preview. *)
Definition projected_columns (operation : OperationEnvelope.t) :
    option (option Z * option Z * option (list Z) * option (list Z) * option (list Z) * bool) :=
  match OperationEnvelope.body operation with
  | OperationBody.PutRecord (ProtectedDocument.Public document) =>
      let (preview_text, preview_truncated) := bounded_record_preview (record_text document) in
      Some (Some (record_start_at_unix_ms document), record_end_at_unix_ms document, None,
            record_emoji document, preview_text, preview_truncated)
  | OperationBody.PutEvent (ProtectedDocument.Public document) =>
      Some (Some (event_start_at_unix_ms document), event_end_at_unix_ms document,
            Some (to_lowercase (event_label document)), None, None, false)
  | OperationBody.PutTag (ProtectedDocument.Public document) =>
      Some (None, None, Some (to_lowercase (tag_name document)), None, None, false)
  | OperationBody.PutProfile document => Some (None, None, Some (profile_handle document), None, None, false)
  | OperationBody.PutRecord (ProtectedDocument.Private _ _)
  | OperationBody.PutTag (ProtectedDocument.Private _ _)
  | OperationBody.PutEvent (ProtectedDocument.Private _ _)
  | OperationBody.Tombstone =>
      if is_client_schema (OperationEnvelope.schema operation)
      then Some (None, None, None, None, None, false) else None
  | _ => None
  end.

Definition seen_entity (space entity : list Z) (row : ClientVisibilityRow) : bool :=
  list_eqb (seen_space_id row) space && list_eqb (seen_entity_id row) entity.

(** The visibility of the entity: declared by its first operation, immutable after. *)
Definition project_visibility (operation : OperationEnvelope.t) : T Visibility.t :=
  let space := OperationEnvelope.space_id operation in
  let entity := OperationEnvelope.entity_id operation in
  let* db := get in
  match OperationBody.declared_visibility (OperationEnvelope.body operation) with
  | Some value =>
      (if is_empty (OperationEnvelope.causal_parents operation)
       then holds (negb (exists_row (seen_entity space entity) (client_entity_visibility db))) ;*
            put (with_client_visibility db (client_entity_visibility db ++
              [mkClientVisibilityRow space entity (OperationEnvelope.schema operation) value]))
       else let* existing := lift (require_row (seen_entity space entity) (client_entity_visibility db)) in
            unless (negb (eqb (seen_visibility existing) value))
              (ClientStoreError.InvalidOperation (Message (str "entity visibility is immutable")))) ;*
      ret value
  | None =>
      let* existing := lift (require_row (seen_entity space entity) (client_entity_visibility db)) in
      ret (seen_visibility existing)
  end.

Fixpoint media_byte_total (resources : list ResourceRef.t) (total : Z) : result error Z :=
  match resources with
  | [] => Ok total
  | resource :: resources =>
      let? bytes := ok_or (checked_i64 (ResourceRef.byte_length resource))
        (ClientStoreError.Corrupt (str "media byte count overflow")) in
      let? total := ok_or (checked_i64 (total + bytes))
        (ClientStoreError.Corrupt (str "media byte total overflow")) in
      media_byte_total resources total
  end.

Definition insert_projection (operation : OperationEnvelope.t) : T unit :=
  match projected_columns operation with
  | None => ret tt
  | Some (start, end_, sort_text, preview_emoji, preview_text, preview_truncated) =>
      let* visibility := project_visibility operation in
      let resources := OperationBody.resources (OperationEnvelope.body operation) in
      let* media_bytes := lift (media_byte_total resources 0) in
      let id := OperationEnvelope.operation_id operation in
      let* db := get in
      holds (negb (exists_row (fun row => list_eqb (view_operation_id row) id) (client_projections db))
             && is_client_schema (OperationEnvelope.schema operation)
             && exists_row (fun row =>
                  has_operation id row
                  && of_entity (OperationEnvelope.space_id operation)
                       (OperationEnvelope.entity_id operation) row
                  && eqb (op_schema row) (OperationEnvelope.schema operation)) (client_operations db)) ;*
      put (with_client_projections db (client_projections db ++
        [mkClientProjectionRow id (OperationEnvelope.space_id operation)
           (OperationEnvelope.entity_id operation) (OperationEnvelope.schema operation) visibility
           (match OperationEnvelope.body operation with OperationBody.Tombstone => true | _ => false end)
           start end_ sort_text (Z.of_nat (length resources)) media_bytes preview_emoji preview_text
           preview_truncated]))
  end.

(** ** Resources *)
Definition insert_resource (operation_id : list Z) (discovered_at : Z) (position : Z)
    (resource : ResourceRef.t) : T unit :=
  let content := ResourceRef.content_id resource in
  let* byte_length := lift (ok_or (checked_i64 (ResourceRef.byte_length resource))
    ClientStoreError.InvalidResourceProgress) in
  let* db := get in
  (* INSERT OR IGNORE *)
  (if exists_row (has_content content) (client_resources db)
      || negb (column_i64 byte_length && column_i64 discovered_at)
   then ret tt
   else put (with_resources db (client_resources db ++
     [mkResourceRow content byte_length (ResourceRef.media_type resource) (ResourceRef.role resource)
        (ResourceRef.original_name resource) false false discovered_at None]))) ;*
  let* db := get in
  let* existing := lift (require_row (has_content content) (client_resources db)) in
  unless (negb (resource_byte_length existing =? byte_length))
    ClientStoreError.ResourceDescriptorConflict ;*
  holds (negb (exists_row (fun link =>
           list_eqb (link_operation_id link) operation_id
           && ((link_position link =? position) || list_eqb (link_content_id link) content))
           (client_operation_resources db))
         && operation_stored db operation_id) ;*
  put (with_links db (client_operation_resources db ++
    [mkOperationResourceRow operation_id position content])).

Definition insert_operation_resources (operation : OperationEnvelope.t) (discovered_at : Z) : T unit :=
  each_at (insert_resource (OperationEnvelope.operation_id operation) discovered_at) 0
    (OperationBody.resources (OperationEnvelope.body operation)).

(** ** Rows of the queues *)

(** UPDATE: the constraints of the changed rows, and how many changed. *)
Definition update_deliveries (condition : DeliveryRow -> bool) (change : DeliveryRow -> DeliveryRow) :
    T Z :=
  let* db := get in
  let changed := List.map change (select condition (client_deliveries db)) in
  holds (forallb delivery_constraints changed) ;*
  put (with_deliveries db (update_rows condition change (client_deliveries db))) ;*
  ret (Z.of_nat (length changed)).

Definition update_transfers (condition : TransferRow -> bool) (change : TransferRow -> TransferRow) :
    T Z :=
  let* db := get in
  let changed := List.map change (select condition (client_resource_transfers db)) in
  holds (forallb transfer_constraints changed) ;*
  put (with_transfers db (update_rows condition change (client_resource_transfers db))) ;*
  ret (Z.of_nat (length changed)).

Definition update_peer_spaces (condition : PeerSpaceRow -> bool) (change : PeerSpaceRow -> PeerSpaceRow) :
    T Z :=
  let* db := get in
  let changed := List.map change (select condition (client_peer_spaces db)) in
  holds (forallb peer_space_constraints changed) ;*
  put (with_peer_spaces db (update_rows condition change (client_peer_spaces db))) ;*
  ret (Z.of_nat (length changed)).

(** INSERT OR IGNORE of one row: a key that exists or a violated CHECK skips it, a
    missing parent row fails. *)
Definition insert_or_ignore_delivery (row : DeliveryRow) : T unit :=
  let* db := get in
  if exists_row (has_delivery (delivery_peer_id row) (delivery_operation_id row)) (client_deliveries db)
     || negb (delivery_constraints row)
  then ret tt
  else holds (peer_configured db (delivery_peer_id row)
              && operation_stored db (delivery_operation_id row)) ;*
       put (with_deliveries db (client_deliveries db ++ [row])).

Definition insert_or_ignore_transfer (row : TransferRow) : T unit :=
  let* db := get in
  if exists_row (has_transfer (transfer_peer_id row) (transfer_content_id row) (transfer_direction row))
       (client_resource_transfers db)
     || negb (transfer_constraints row)
  then ret tt
  else holds (peer_configured db (transfer_peer_id row)
              && exists_row (has_content (transfer_content_id row)) (client_resources db)) ;*
       put (with_transfers db (client_resource_transfers db ++ [row])).

Definition pending_delivery (peer operation : list Z) (next_attempt_at : Z) : DeliveryRow :=
  mkDeliveryRow peer operation DeliveryState.Pending 0 next_attempt_at None None None None.

(** An upload waits for its bytes unless they are here. *)
Definition queued_upload (peer : list Z) (resource : ResourceRow) (next_attempt_at : Z) : TransferRow :=
  mkTransferRow peer (resource_content_id resource) ResourceTransferDirection.Upload
    (if locally_available resource then TransferState.Pending else TransferState.WaitingLocal)
    0 next_attempt_at None None None 0 None None.

Definition queue_resource_uploads (content : list Z) (at_unix_ms : Z) (excluded_peer : option (list Z)) :
    T unit :=
  let* db := get in
  each (fun peer =>
      each (fun resource => insert_or_ignore_transfer (queued_upload (peer_id peer) resource at_unix_ms))
        (select (has_content content) (client_resources db)))
    (select (fun peer => enabled peer && push_enabled peer
                         && content_in_scope db (peer_id peer) content
                         && negb (eqb (Some (peer_id peer)) excluded_peer)) (client_peers db)).

Definition queue_known_resources_for_peer (peer : list Z) (fallback_at_unix_ms : Z) : T unit :=
  let* db := get in
  each (fun resource =>
      insert_or_ignore_transfer
        (queued_upload peer resource (Z.max (discovered_at_unix_ms resource) fallback_at_unix_ms)))
    (select (fun resource => content_in_scope db peer (resource_content_id resource))
       (client_resources db)).

Definition queue_known_resources_for_peer_space (peer space : list Z) (fallback_at_unix_ms : Z) : T unit :=
  let* db := get in
  each (fun resource =>
      insert_or_ignore_transfer
        (queued_upload peer resource (Z.max (discovered_at_unix_ms resource) fallback_at_unix_ms)))
    (select (fun resource => content_in_space db space (resource_content_id resource))
       (client_resources db)).

Definition expected_locally (row : ResourceRow) : ResourceRow :=
  mkResourceRow (resource_content_id row) (resource_byte_length row) (resource_media_type row)
    (resource_role row) (resource_original_name row) (locally_available row) true
    (discovered_at_unix_ms row) (local_verified_at_unix_ms row).

(** One resource of a committed operation. *)
Definition apply_one_resource (at_unix_ms : Z) (source : CommitSource.t) (resource : ResourceRef.t) :
    T unit :=
  let content := ResourceRef.content_id resource in
  match source with
  | CommitSource.Local =>
      let* db := get in
      put (with_resources db (update_rows (has_content content) expected_locally (client_resources db))) ;*
      queue_resource_uploads content at_unix_ms None
  | CommitSource.Peer source_peer =>
      let* db := get in
      let* row := lift (require_row (has_content content) (client_resources db)) in
      let* peer := lift (require_row (has_peer source_peer) (client_peers db)) in
      (if content_read_enabled peer
       then insert_or_ignore_transfer
              (mkTransferRow source_peer content ResourceTransferDirection.Download
                 (if locally_available row then TransferState.Complete else TransferState.Pending)
                 0 at_unix_ms None None None
                 (if locally_available row then resource_byte_length row else 0)
                 (if locally_available row then Some at_unix_ms else None) None)
       else ret tt) ;*
      queue_resource_uploads content at_unix_ms (Some source_peer)
  | CommitSource.Remote => ret tt
  end.

Definition apply_resource_source (operation : OperationEnvelope.t) (at_unix_ms : Z)
    (source : CommitSource.t) : T unit :=
  each (apply_one_resource at_unix_ms source)
    (OperationBody.resources (OperationEnvelope.body operation)).

(** ** Deliveries of a commit *)
Definition source_peer (source : CommitSource.t) : option (list Z) :=
  match source with CommitSource.Peer peer => Some peer | _ => None end.

(** The peers that receive the operation: the condition of the SELECT. *)
Definition receives (db : ClientDatabase) (operation_id : list Z) (excluded : option (list Z))
    (peer : PeerConfig) : bool :=
  enabled peer && push_enabled peer
  && (unscoped db (peer_id peer)
      || exists_row (fun space => list_eqb (pull_peer_id space) (peer_id peer)
                                  && operation_of_space db (pull_space_id space) operation_id)
           (client_peer_spaces db))
  && negb (eqb (Some (peer_id peer)) excluded).

Definition acknowledged_by_source (at_unix_ms : Z) (row : DeliveryRow) : DeliveryRow :=
  mkDeliveryRow (delivery_peer_id row) (delivery_operation_id row) DeliveryState.Acknowledged
    (delivery_attempt_count row) (delivery_next_attempt_at row) None None (Some at_unix_ms) None.

(** INSERT ... ON CONFLICT DO UPDATE. *)
Definition record_source (peer operation_id : list Z) (at_unix_ms : Z) : T unit :=
  let* db := get in
  if exists_row (has_delivery peer operation_id) (client_deliveries db)
  then update_deliveries (has_delivery peer operation_id) (acknowledged_by_source at_unix_ms) ;* ret tt
  else let row := mkDeliveryRow peer operation_id DeliveryState.Acknowledged 0 at_unix_ms None None
         (Some at_unix_ms) None in
       holds (delivery_constraints row && peer_configured db peer && operation_stored db operation_id) ;*
       put (with_deliveries db (client_deliveries db ++ [row])).

Definition apply_delivery_source (operation_id : list Z) (at_unix_ms : Z) (source : CommitSource.t) :
    T unit :=
  let* db := get in
  match source with
  | CommitSource.Remote => ret tt
  | CommitSource.Local =>
      each (fun peer => insert_or_ignore_delivery (pending_delivery (peer_id peer) operation_id at_unix_ms))
        (select (receives db operation_id None) (client_peers db))
  | CommitSource.Peer peer =>
      unless (negb (peer_configured db peer)) (ClientStoreError.UnknownPeer peer) ;*
      each (fun other => insert_or_ignore_delivery (pending_delivery (peer_id other) operation_id at_unix_ms))
        (select (receives db operation_id (Some peer)) (client_peers db)) ;*
      record_source peer operation_id at_unix_ms
  end.

Definition delivery_count (db : ClientDatabase) (operation_id : list Z) : Z :=
  count_rows (fun row => list_eqb (delivery_operation_id row) operation_id) (client_deliveries db).

(** ** Commits *)
Definition insert_operation_row (operation : OperationEnvelope.t) (stored_at : Z) (local : bool)
    (json : list Z) : T Z :=
  let* db := get in
  let sequence := client_last_sequence db + 1 in
  holds (column_i64 (OperationEnvelope.occurred_at_unix_ms operation) && column_i64 stored_at
         && negb (operation_stored db (OperationEnvelope.operation_id operation))) ;*
  put (with_client_operations db sequence (client_operations db ++
    [mkClientOperationRow sequence (OperationEnvelope.operation_id operation)
       (OperationEnvelope.space_id operation) (OperationEnvelope.entity_id operation)
       (OperationEnvelope.schema operation) (OperationEnvelope.actor_id operation)
       (OperationEnvelope.occurred_at_unix_ms operation) stored_at local json])) ;*
  lift (positive_u64 sequence).

(** A committed operation is sent to the other peers, and its bytes with it. *)
Definition apply_sources (operation : OperationEnvelope.t) (stored_at : Z) (source : CommitSource.t) :
    T unit :=
  apply_delivery_source (OperationEnvelope.operation_id operation) stored_at source ;*
  apply_resource_source operation stored_at source.

Definition is_local (source : CommitSource.t) : bool :=
  match source with CommitSource.Local => true | _ => false end.

Definition commit_transaction (operation : OperationEnvelope.t) (stored_at : Z)
    (source : CommitSource.t) : T CommitResult :=
  let id := OperationEnvelope.operation_id operation in
  lift (map_err (fun e => ClientStoreError.InvalidOperation (OfDataModel e))
          (OperationEnvelope.verify operation)) ;*
  unless (stored_at <? 0) ClientStoreError.NegativeTimestamp ;*
  let* json := lift (ok_or (to_json operation)
    (ClientStoreError.InvalidOperation (Message (str "operation cannot be serialized")))) in
  let* db := get in
  let* found := lift (load_operation_row db id) in
  match found with
  | Some (sequence, existing) =>
      unless (negb (envelope_eqb existing operation)) (ClientStoreError.OperationConflict id) ;*
      apply_sources operation stored_at source ;*
      let* db := get in
      ret (mkCommitResult sequence id true (delivery_count db id))
  | None =>
      lift (validate_references operation db) ;*
      lift (validate_topology operation db) ;*
      let* sequence := insert_operation_row operation stored_at (is_local source) json in
      insert_graph operation ;*
      insert_projection operation ;*
      insert_operation_resources operation stored_at ;*
      apply_sources operation stored_at source ;*
      let* db := get in
      ret (mkCommitResult sequence id false (delivery_count db id))
  end.

Definition commit := commit_transaction.
Definition commit_local (operation : OperationEnvelope.t) (stored_at : Z) : T CommitResult :=
  commit operation stored_at CommitSource.Local.
Definition commit_remote (operation : OperationEnvelope.t) (stored_at : Z) : T CommitResult :=
  commit operation stored_at CommitSource.Remote.
Definition commit_from_peer (operation : OperationEnvelope.t) (stored_at : Z) (source : list Z) :
    T CommitResult :=
  commit operation stored_at (CommitSource.Peer source).

(** ** Workspaces *)
Definition workspace_descriptor (request : TrustedSpaceBootstrapRequest) :
    result error SpaceDescriptor :=
  match OperationEnvelope.body (genesis request) with
  | OperationBody.SpaceGenesis controller =>
      match OperationEnvelope.body (initial_grant request) with
      | OperationBody.CapabilityGrant grant =>
          Ok (mkSpace (OperationEnvelope.space_id (genesis request)) (bootstrap_display_name request)
                (OperationEnvelope.operation_id (genesis request))
                (OperationEnvelope.operation_id (initial_grant request)) controller
                (CapabilityGrant.subject grant) (bootstrap_received_at_unix_ms request))
      | _ => Err (ClientStoreError.InvalidBootstrap (inr (str "initial grant body has the wrong kind")))
      end
  | _ => Err (ClientStoreError.InvalidBootstrap (inr (str "genesis body has the wrong kind")))
  end.

Definition load_workspace (db : ClientDatabase) (space : list Z) : option SpaceDescriptor :=
  query_row (fun row => list_eqb (descriptor_space_id row) space) (client_workspaces db).
Definition workspace := load_workspace.

Definition store_workspace (request : TrustedSpaceBootstrapRequest) : T SpaceDescriptor :=
  lift (map_err (fun e => ClientStoreError.InvalidBootstrap (inl e))
          (validate_trusted_space_bootstrap request)) ;*
  let* descriptor := lift (workspace_descriptor request) in
  let* db := get in
  match load_workspace db (descriptor_space_id descriptor) with
  | Some existing =>
      (if negb (bool_decide (existing = descriptor)) then fail ClientStoreError.InstallationConflict
       else
         let* genesis_matches := lift (operation_matches db (genesis request)) in
         if negb genesis_matches then fail ClientStoreError.InstallationConflict
         else
           let* grant_matches := lift (operation_matches db (initial_grant request)) in
           unless (negb grant_matches) ClientStoreError.InstallationConflict) ;*
      ret existing
  | None =>
      commit_transaction (genesis request) (bootstrap_received_at_unix_ms request) CommitSource.Remote ;*
      commit_transaction (initial_grant request) (bootstrap_received_at_unix_ms request)
        CommitSource.Remote ;*
      let* db := get in
      holds (column_i64 (created_at_unix_ms descriptor)
             && negb (exists_row (fun row =>
                  list_eqb (descriptor_space_id row) (descriptor_space_id descriptor)
                  || list_eqb (genesis_operation_id row) (genesis_operation_id descriptor)
                  || list_eqb (initial_grant_operation_id row) (initial_grant_operation_id descriptor))
                  (client_workspaces db))
             && operation_stored db (genesis_operation_id descriptor)
             && operation_stored db (initial_grant_operation_id descriptor)) ;*
      put (with_workspaces db (client_local_installation db) (client_workspaces db ++ [descriptor])
             (client_active_workspace db)) ;*
      ret descriptor
  end.

(** [ORDER BY created_at_unix_ms, space_id]. *)
Definition workspace_order (a b : SpaceDescriptor) : Prop :=
  created_at_unix_ms a < created_at_unix_ms b
  \/ created_at_unix_ms a = created_at_unix_ms b
     /\ bytes_le (descriptor_space_id a) (descriptor_space_id b).
#[local] Instance workspace_order_dec a b : Decision (workspace_order a b).
Proof. unfold workspace_order. apply _. Defined.
Definition workspaces (db : ClientDatabase) : list SpaceDescriptor :=
  merge_sort workspace_order (client_workspaces db).

Definition operation (db : ClientDatabase) (id : list Z) : result error (option OperationEnvelope.t) :=
  let? found := load_operation_row db id in Ok (snd <$> found).

Definition active_workspace (db : ClientDatabase) : option ActiveWorkspace := client_active_workspace db.

Definition set_active_workspace (workspace : ActiveWorkspace) : T unit :=
  unless (activated_at_unix_ms workspace <? 0) ClientStoreError.NegativeTimestamp ;*
  let* db := get in
  holds (operation_stored db (active_authorization_operation_id workspace)
         && option_all (peer_configured db) (active_peer_id workspace)) ;*
  put (with_workspaces db (client_local_installation db) (client_workspaces db) (Some workspace)).

Definition clear_active_workspace : T unit :=
  let* db := get in
  put (with_workspaces db (client_local_installation db) (client_workspaces db) None).

(** [load_installation]: the row, if the store is bound. *)
Definition installation (db : ClientDatabase) : option ClientInstallationBinding :=
  client_local_installation db.

Definition bind_local_identity (binding : ClientInstallationBinding) : T ClientInstallationBinding :=
  let* db := get in
  match installation db with
  | None =>
      put (with_workspaces db (Some binding) (client_workspaces db) (client_active_workspace db)) ;*
      ret binding
  | Some existing =>
      unless (negb (bool_decide (existing = binding))) ClientStoreError.InstallationConflict ;*
      ret existing
  end.

(** The rows that keep an operation from being deleted (ON DELETE RESTRICT). *)
Definition is_referenced (db : ClientDatabase) (id : list Z) : bool :=
  let names row := list_eqb (reference_operation_id row) id || list_eqb (referenced_operation_id row) id in
  exists_row names (client_operation_parents db)
  || exists_row names (client_operation_authorizations db)
  || exists_row (is_head id) (client_entity_heads db)
  || exists_row (fun link => list_eqb (link_operation_id link) id) (client_operation_resources db)
  || exists_row (fun row => list_eqb (delivery_operation_id row) id) (client_deliveries db)
  || exists_row (fun row => list_eqb (genesis_operation_id row) id
                            || list_eqb (initial_grant_operation_id row) id) (client_workspaces db)
  || match client_active_workspace db with
     | Some active => list_eqb (active_authorization_operation_id active) id
     | None => false
     end.

Definition delete_workspace (space : list Z) : T unit :=
  let* db := get in
  let of_space := operation_of_space db space in
  let active := match client_active_workspace db with
                | Some active => if list_eqb (active_space_id active) space then None else Some active
                | None => None
                end in
  put (with_workspaces db (client_local_installation db)
         (delete_rows (fun row => list_eqb (descriptor_space_id row) space) (client_workspaces db)) active) ;*
  let* db := get in
  put (with_queues db (client_resources db)
         (delete_rows (fun link => of_space (link_operation_id link)) (client_operation_resources db))
         (client_peers db)
         (delete_rows (fun row => list_eqb (pull_space_id row) space) (client_peer_spaces db))
         (delete_rows (fun row => of_space (delivery_operation_id row)) (client_deliveries db))
         (client_resource_transfers db)) ;*
  let* db := get in
  put (with_derived db
         (delete_rows (fun row => of_space (reference_operation_id row)) (client_operation_parents db))
         (delete_rows (fun row => of_space (reference_operation_id row)) (client_operation_authorizations db))
         (delete_rows (fun row => list_eqb (head_space_id row) space) (client_entity_heads db))
         (delete_rows (fun row => list_eqb (seen_space_id row) space) (client_entity_visibility db))
         (delete_rows (fun row => list_eqb (view_space_id row) space) (client_projections db))) ;*
  let* db := get in
  holds (negb (exists_row (fun row => in_space space row && is_referenced db (op_operation_id row))
                 (client_operations db))) ;*
  put (with_client_operations db (client_last_sequence db)
         (delete_rows (in_space space) (client_operations db))).

(** ** Peers *)
Definition is_whitespace (c : Z) : bool :=
  between 9 c 13 || one_of [32; 133; 160; 5760; 8232; 8233; 8239; 8287; 12288] c || between 8192 c 8202.

Definition validate_peer (peer : PeerConfig) : result error unit :=
  if added_at_unix_ms peer <? 0 then Err ClientStoreError.NegativeTimestamp
  else if is_empty (endpoint peer) || (MAX_ENDPOINT_BYTES <? byte_count (endpoint peer))
  then Err ClientStoreError.InvalidPeerEndpoint
  else if match peer_transport_credential peer with
          | Some value => is_empty value || (256 <? byte_count value) || negb (is_ascii value)
                          || existsb is_whitespace (chars value)
          | None => false
          end
  then Err ClientStoreError.InvalidPeerEndpoint
  else Ok tt.

(** The columns an existing peer takes from the new one. *)
Definition reconfigured (peer row : PeerConfig) : PeerConfig :=
  mkPeerConfig (peer_id row) (endpoint peer) (enabled peer) (push_enabled peer)
    (content_read_enabled peer) (peer_transport_credential peer) (added_at_unix_ms row).

Definition queue_operations (peer : list Z) (condition : ClientOperationRow -> bool)
    (next_attempt_at : ClientOperationRow -> Z) : T unit :=
  let* db := get in
  each (fun row =>
      insert_or_ignore_delivery (pending_delivery peer (op_operation_id row) (next_attempt_at row)))
    (select condition (client_operations db)).

Definition upsert_peer (peer : PeerConfig) : T unit :=
  lift (validate_peer peer) ;*
  let* db := get in
  put (with_peers db
         (if peer_configured db (peer_id peer)
          then update_rows (has_peer (peer_id peer)) (reconfigured peer) (client_peers db)
          else client_peers db ++ [peer])) ;*
  if enabled peer && push_enabled peer
  then
    let* db := get in
    queue_operations (peer_id peer)
      (fun row => is_client_schema (op_schema row) && in_scope db (peer_id peer) (op_space_id row))
      (fun _ => added_at_unix_ms peer) ;*
    queue_known_resources_for_peer (peer_id peer) (added_at_unix_ms peer)
  else ret tt.

Definition peer (db : ClientDatabase) (id : list Z) : option PeerConfig :=
  query_row (has_peer id) (client_peers db).

Definition set_enabled (value : bool) (row : PeerConfig) : PeerConfig :=
  mkPeerConfig (peer_id row) (endpoint row) value (push_enabled row) (content_read_enabled row)
    (peer_transport_credential row) (added_at_unix_ms row).

Definition set_peer_enabled (id : list Z) (value : bool) : T unit :=
  let* db := get in
  unless (negb (count_rows (has_peer id) (client_peers db) =? 1)) (ClientStoreError.UnknownPeer id) ;*
  put (with_peers db (update_rows (has_peer id) (set_enabled value) (client_peers db))) ;*
  let* db := get in
  let* row := lift (require_row (has_peer id) (client_peers db)) in
  if value && push_enabled row
  then
    queue_operations id (fun row => in_scope db id (op_space_id row)) op_stored_at_unix_ms ;*
    queue_known_resources_for_peer id 0
  else ret tt.

(** [ORDER BY peer_id LIMIT]. *)
Definition peer_order (a b : PeerConfig) : Prop := bytes_le (peer_id a) (peer_id b).
#[local] Instance peer_order_dec a b : Decision (peer_order a b).
Proof. unfold peer_order. apply _. Defined.

Definition enabled_peers (limit : Z) (db : ClientDatabase) : result error (list PeerConfig) :=
  if negb (between 1 limit 100) then Err ClientStoreError.InvalidSyncTargetLimit
  else Ok (firstn (Z.to_nat limit) (merge_sort peer_order (select enabled (client_peers db)))).
End ClientStore.
