(* ===== verification/ClientQueues.v ===== *)
(** * The client's delivery queues (crates/fractonica-client-sqlite/src/lib.rs)

    Leases of deliveries and resource transfers, pull cursors, and the configuration of
    peer spaces, as transactions of [ClientStore].

    A [Duration] is its number of nanoseconds. *)
From S2P Require Import Prelude Bytes Floats Crypto Content Cbor Trust DataModel CanonicalBody Envelope.
From S2P Require Import Authorization Peer Application Database PairingStore ClientDatabase ClientStore.

#[local] Notation error := ClientStoreError.t.

(** [Duration::as_millis]. *)
Definition as_millis (duration : Z) : Z := duration / 1000000.

(** The expiry of a lease taken now. *)
Definition lease_expiry (now_unix_ms lease_duration : Z) : result error Z :=
  match checked_i64 (as_millis lease_duration) with
  | Some lease_ms =>
      if 0 <? lease_ms
      then ok_or (checked_i64 (now_unix_ms + lease_ms)) ClientStoreError.InvalidLeaseDuration
      else Err ClientStoreError.InvalidLeaseDuration
  | None => Err ClientStoreError.InvalidLeaseDuration
  end.

(** An error text longer than the column allows. *)
Definition error_too_long (text : option (list Z)) : bool :=
  match text with Some text => MAX_ERROR_BYTES <? byte_count text | None => false end.

(** [u32::try_from] of a counter. *)
Definition counter_u32 (value : Z) (text : list Z) : result error Z :=
  ok_or (checked_u 32 value) (ClientStoreError.Corrupt text).

(** ** Peer spaces *)
Module PeerReadMode.
Inductive t : Type :=
| SupervisorBearer
| Paired (session_id grant_operation_id : list Z).
End PeerReadMode.

Record PeerSpaceConfig : Type := mkPeerSpaceConfig {
  config_peer_id : list Z;
  config_space_id : list Z;
  config_read_mode : PeerReadMode.t;
  config_start_after : Z;
  config_next_pull_at : Z
}.

Record SyncTarget : Type := mkSyncTarget {
  target_peer_id : list Z;
  target_endpoint : list Z;
  target_space_id : list Z;
  target_read_mode : PeerReadMode.t;
  target_after : Z;
  target_pull_failure_count : Z
}.

Definition read_mode_columns (mode : PeerReadMode.t) :
    ReadModeKey.t * option (list Z) * option (list Z) :=
  match mode with
  | PeerReadMode.SupervisorBearer => (ReadModeKey.SupervisorBearer, None, None)
  | PeerReadMode.Paired session grant => (ReadModeKey.Paired, Some session, Some grant)
  end.

Definition parse_peer_read_mode (mode : ReadModeKey.t) (session grant : option (list Z)) :
    result error PeerReadMode.t :=
  match mode, session, grant with
  | ReadModeKey.SupervisorBearer, None, None => Ok PeerReadMode.SupervisorBearer
  | ReadModeKey.Paired, Some session, Some grant => Ok (PeerReadMode.Paired session grant)
  | _, _, _ => corrupt (str "invalid peer read mode")
  end.

(** INSERT ... ON CONFLICT: a configured space keeps its cursor. *)
Definition upsert_peer_space (config : PeerSpaceConfig) : T unit :=
  let '(mode, session, grant) := read_mode_columns (config_read_mode config) in
  let peer := config_peer_id config in
  let space := config_space_id config in
  let* db := get in
  if exists_row (has_peer_space peer space) (client_peer_spaces db)
  then update_peer_spaces (has_peer_space peer space) (fun row =>
         mkPeerSpaceRow (pull_peer_id row) (pull_space_id row) mode session grant (pull_after row)
           (next_pull_at_unix_ms row) (pull_failure_count row) (last_pull_error row)
           (last_pull_at_unix_ms row)) ;* ret tt
  else
    let row := mkPeerSpaceRow peer space mode session grant (config_start_after config)
      (config_next_pull_at config) 0 None None in
    holds (peer_space_constraints row && peer_configured db peer) ;*
    put (with_peer_spaces db (client_peer_spaces db ++ [row])).

Definition is_supervised (mode : PeerReadMode.t) : bool :=
  match mode with PeerReadMode.SupervisorBearer => true | PeerReadMode.Paired _ _ => false end.

Definition configure_peer_space (config : PeerSpaceConfig) : T unit :=
  let peer := config_peer_id config in
  let space := config_space_id config in
  unless ((config_next_pull_at config <? 0) || (2 ^ 63 - 1 <? config_start_after config))
    ClientStoreError.InvalidPullCursor ;*
  let* db := get in
  unless (negb (peer_configured db peer)) (ClientStoreError.UnknownPeer peer) ;*
  upsert_peer_space config ;*
  let* db := get in
  let* row := lift (require_row (has_peer peer) (client_peers db)) in
  if enabled row && push_enabled row
  then
    queue_operations peer
      (fun row => in_space space row
                  && (negb (is_supervised (config_read_mode config)) || is_client_schema (op_schema row)))
      (fun _ => config_next_pull_at config) ;*
    queue_known_resources_for_peer_space peer space (config_next_pull_at config)
  else ret tt.

Definition requeued_delivery (now_unix_ms : Z) (row : DeliveryRow) : DeliveryRow :=
  mkDeliveryRow (delivery_peer_id row) (delivery_operation_id row) DeliveryState.Pending 0 now_unix_ms
    None None None None.

Definition requeued_transfer (db : ClientDatabase) (now_unix_ms : Z) (row : TransferRow) : TransferRow :=
  mkTransferRow (transfer_peer_id row) (transfer_content_id row) (transfer_direction row)
    (if exists_row (fun resource => has_content (transfer_content_id row) resource
                                    && locally_available resource) (client_resources db)
     then TransferState.Pending else TransferState.WaitingLocal)
    0 now_unix_ms None None None 0 None None.

Definition requeue_unacknowledged_peer_space (peer space : list Z) (now_unix_ms : Z) : T unit :=
  unless (now_unix_ms <? 0) ClientStoreError.NegativeTimestamp ;*
  let* db := get in
  unless (negb (exists_row (has_peer_space peer space) (client_peer_spaces db)))
    (ClientStoreError.UnknownPeer peer) ;*
  queue_operations peer (fun row => in_space space row && is_client_schema (op_schema row))
    (fun _ => now_unix_ms) ;*
  update_deliveries (fun row =>
      list_eqb (delivery_peer_id row) peer && negb (in_delivery_state DeliveryState.Acknowledged row)
      && operation_of_space db space (delivery_operation_id row))
    (requeued_delivery now_unix_ms) ;*
  queue_known_resources_for_peer_space peer space now_unix_ms ;*
  update_transfers (fun row =>
      list_eqb (transfer_peer_id row) peer && in_direction ResourceTransferDirection.Upload row
      && negb (in_transfer_state TransferState.Complete row)
      && content_in_space db space (transfer_content_id row))
    (requeued_transfer db now_unix_ms) ;*
  ret tt.

(** ** Pull cursors *)

(** [ORDER BY next_pull_at_unix_ms, peer_id, space_id]. *)
Definition pull_order (a b : PeerSpaceRow) : Prop :=
  next_pull_at_unix_ms a < next_pull_at_unix_ms b
  \/ next_pull_at_unix_ms a = next_pull_at_unix_ms b
     /\ (bytes_lt (pull_peer_id a) (pull_peer_id b)
         \/ pull_peer_id a = pull_peer_id b /\ bytes_le (pull_space_id a) (pull_space_id b)).
#[export] Instance pull_order_dec a b : Decision (pull_order a b).
Proof. unfold pull_order. apply _. Defined.

Definition pull_due (db : ClientDatabase) (now_unix_ms : Z) (row : PeerSpaceRow) : bool :=
  exists_row (fun peer => has_peer (pull_peer_id row) peer && enabled peer) (client_peers db)
  && (next_pull_at_unix_ms row <=? now_unix_ms).

Definition sync_target (db : ClientDatabase) (row : PeerSpaceRow) : result error SyncTarget :=
  let? peer := require_row (has_peer (pull_peer_id row)) (client_peers db) in
  let? mode := parse_peer_read_mode (pull_read_mode row) (pull_session_id row)
    (pull_grant_operation_id row) in
  let? after := nonnegative_u64 (pull_after row) in
  let? failures := counter_u32 (pull_failure_count row) (str "pull failure count overflow") in
  Ok (mkSyncTarget (pull_peer_id row) (endpoint peer) (pull_space_id row) mode after failures).

Definition due_sync_targets (now_unix_ms limit : Z) (db : ClientDatabase) :
    result error (list SyncTarget) :=
  if now_unix_ms <? 0 then Err ClientStoreError.NegativeTimestamp
  else if negb (between 1 limit 100) then Err ClientStoreError.InvalidSyncTargetLimit
  else collect (sync_target db)
         (firstn (Z.to_nat limit)
            (merge_sort pull_order (select (pull_due db now_unix_ms) (client_peer_spaces db)))).

Definition at_cursor (peer space : list Z) (expected_after : Z) (row : PeerSpaceRow) : bool :=
  has_peer_space peer space row && (pull_after row =? expected_after).

Definition advanced (next_after pulled_at next_pull_at : Z) (row : PeerSpaceRow) : PeerSpaceRow :=
  mkPeerSpaceRow (pull_peer_id row) (pull_space_id row) (pull_read_mode row) (pull_session_id row)
    (pull_grant_operation_id row) next_after next_pull_at 0 None (Some pulled_at).

Definition advance_pull_cursor (peer space : list Z)
    (expected_after next_after pulled_at next_pull_at : Z) : T unit :=
  unless ((pulled_at <? 0) || (next_pull_at <? 0) || (2 ^ 63 - 1 <? expected_after)
          || (2 ^ 63 - 1 <? next_after) || (next_after <? expected_after))
    ClientStoreError.InvalidPullCursor ;*
  let* changed := update_peer_spaces (at_cursor peer space expected_after)
    (advanced next_after pulled_at next_pull_at) in
  unless (negb (changed =? 1)) ClientStoreError.PullCursorMismatch.

Definition pull_failed (next_pull_at : Z) (text : list Z) (row : PeerSpaceRow) : PeerSpaceRow :=
  mkPeerSpaceRow (pull_peer_id row) (pull_space_id row) (pull_read_mode row) (pull_session_id row)
    (pull_grant_operation_id row) (pull_after row) next_pull_at (pull_failure_count row + 1) (Some text)
    (last_pull_at_unix_ms row).

Definition record_pull_failure (peer space : list Z) (expected_after next_pull_at : Z)
    (text : list Z) : T unit :=
  unless ((next_pull_at <? 0) || (2 ^ 63 - 1 <? expected_after)) ClientStoreError.InvalidPullCursor ;*
  unless (error_too_long (Some text)) ClientStoreError.DeliveryErrorTooLong ;*
  let* changed := update_peer_spaces (at_cursor peer space expected_after)
    (pull_failed next_pull_at text) in
  unless (negb (changed =? 1)) ClientStoreError.PullCursorMismatch.

Section ClientQueues.
Context `{Sha256} `{Ed25519} `{HalfFloat} `{Base64} `{!JsonNumber} `{!JsonSize}
  `{!ProjectionJson} `{!Lowercase}.

(** ** Deliveries *)
Record DeliveryItem : Type := mkDeliveryItem {
  item_operation : OperationEnvelope.t;
  item_attempt_count : Z
}.

(** Pending and due, or leased and expired. *)
Definition delivery_due (now_unix_ms : Z) (row : DeliveryRow) : bool :=
  in_delivery_state DeliveryState.Pending row && (delivery_next_attempt_at row <=? now_unix_ms)
  || in_delivery_state DeliveryState.Leased row
     && match delivery_lease_expires_at row with Some at_ => at_ <=? now_unix_ms | None => false end.

(** The due deliveries of an enabled peer, by the sequence of their operations. *)
Definition due_operations (db : ClientDatabase) (peer : list Z) (now_unix_ms : Z) :
    list ClientOperationRow :=
  select (fun row =>
      exists_row (fun delivery => has_delivery peer (op_operation_id row) delivery
                                  && delivery_due now_unix_ms delivery) (client_deliveries db)
      && exists_row (fun config => has_peer peer config && enabled config) (client_peers db))
    (client_operations db).

Definition sequence_order (a b : ClientOperationRow) : Prop := op_local_sequence a <= op_local_sequence b.
#[global] Instance sequence_order_dec a b : Decision (sequence_order a b).
Proof. unfold sequence_order. apply _. Defined.

Definition leased_delivery (lease : list Z) (expires : Z) (row : DeliveryRow) : DeliveryRow :=
  mkDeliveryRow (delivery_peer_id row) (delivery_operation_id row) DeliveryState.Leased
    (delivery_attempt_count row + 1) (delivery_next_attempt_at row) (Some lease) (Some expires)
    (delivery_acknowledged_at row) (delivery_last_error row).

(** One delivery of the batch. *)
Definition lease_one (peer lease : list Z) (expires : Z) (id : list Z) : T DeliveryItem :=
  let* changed := update_deliveries (has_delivery peer id) (leased_delivery lease expires) in
  unless (negb (changed =? 1)) (ClientStoreError.Corrupt (str "selected delivery disappeared")) ;*
  let* db := get in
  let* found := lift (load_operation_row db id) in
  match found with
  | None => fail (ClientStoreError.Corrupt (str "delivery references a missing operation"))
  | Some (_, operation) =>
      let* row := lift (require_row (has_delivery peer id) (client_deliveries db)) in
      let* attempts := lift (counter_u32 (delivery_attempt_count row) (str "attempt count overflow")) in
      ret (mkDeliveryItem operation attempts)
  end.

Fixpoint collect_items {A B} (f : A -> T B) (l : list A) : T (list B) :=
  match l with
  | [] => ret []
  | a :: l => let* b := f a in let* bs := collect_items f l in ret (b :: bs)
  end.

Definition lease_due (peer : list Z) (now_unix_ms lease_duration limit : Z) (lease : list Z) :
    T (list DeliveryItem) :=
  unless (now_unix_ms <? 0) ClientStoreError.NegativeTimestamp ;*
  unless (negb (between 1 limit MAX_OUTBOX_BATCH)) ClientStoreError.InvalidOutboxLimit ;*
  let* expires := lift (lease_expiry now_unix_ms lease_duration) in
  let* db := get in
  collect_items (fun row => lease_one peer lease expires (op_operation_id row))
    (firstn (Z.to_nat limit) (merge_sort sequence_order (due_operations db peer now_unix_ms))).

Definition holds_lease (peer operation lease : list Z) (row : DeliveryRow) : bool :=
  has_delivery peer operation row && in_delivery_state DeliveryState.Leased row
  && eqb (delivery_lease_id row) (Some lease).

Definition finished_delivery (state : DeliveryState.t) (at_unix_ms : Z) (text : option (list Z))
    (row : DeliveryRow) : DeliveryRow :=
  mkDeliveryRow (delivery_peer_id row) (delivery_operation_id row) state (delivery_attempt_count row)
    at_unix_ms None None
    (if bool_decide (state = DeliveryState.Acknowledged) then Some at_unix_ms else None) text.

Definition finish_delivery (peer operation lease : list Z) (state : DeliveryState.t) (at_unix_ms : Z)
    (text : option (list Z)) : T unit :=
  unless (at_unix_ms <? 0) ClientStoreError.NegativeTimestamp ;*
  unless (error_too_long text) ClientStoreError.DeliveryErrorTooLong ;*
  let* changed := update_deliveries (holds_lease peer operation lease)
    (finished_delivery state at_unix_ms text) in
  unless (negb (changed =? 1)) ClientStoreError.LeaseMismatch.

Definition acknowledge (peer operation lease : list Z) (at_unix_ms : Z) : T unit :=
  finish_delivery peer operation lease DeliveryState.Acknowledged at_unix_ms None.
Definition retry (peer operation lease : list Z) (next_attempt_at : Z) (text : list Z) : T unit :=
  finish_delivery peer operation lease DeliveryState.Pending next_attempt_at (Some text).
Definition reject (peer operation lease : list Z) (at_unix_ms : Z) (text : list Z) : T unit :=
  finish_delivery peer operation lease DeliveryState.Rejected at_unix_ms (Some text).

Definition released_delivery (row : DeliveryRow) : DeliveryRow :=
  mkDeliveryRow (delivery_peer_id row) (delivery_operation_id row) DeliveryState.Pending
    (delivery_attempt_count row) (delivery_next_attempt_at row) None None (delivery_acknowledged_at row)
    (delivery_last_error row).

Definition release_lease (peer lease : list Z) : T Z :=
  update_deliveries (fun row =>
      list_eqb (delivery_peer_id row) peer && in_delivery_state DeliveryState.Leased row
      && eqb (delivery_lease_id row) (Some lease))
    released_delivery.

(** ** Resource transfers *)
Record ResourceTransferItem : Type := mkTransferItem {
  item_peer : PeerConfig;
  item_resource : ResourceRef.t;
  item_direction : ResourceTransferDirection.t;
  item_transfer_attempts : Z;
  item_remote_upload_url : option (list Z);
  item_transferred_bytes : Z
}.

Definition validate_resource_limit (limit : Z) : result error unit :=
  if negb (between 1 limit MAX_RESOURCE_TRANSFER_BATCH)
  then Err ClientStoreError.InvalidResourceTransferLimit else Ok tt.

(** [ORDER BY discovered_at_unix_ms, content_id]. *)
Definition discovery_order (a b : ResourceRow) : Prop :=
  discovered_at_unix_ms a < discovered_at_unix_ms b
  \/ discovered_at_unix_ms a = discovered_at_unix_ms b
     /\ bytes_le (resource_content_id a) (resource_content_id b).
#[global] Instance discovery_order_dec a b : Decision (discovery_order a b).
Proof. unfold discovery_order. apply _. Defined.

Definition resource_scan_candidates (limit : Z) (db : ClientDatabase) :
    result error (list ContentDescriptor.t) :=
  check validate_resource_limit limit;
  collect (fun row =>
      let? byte_length := nonnegative_u64 (resource_byte_length row) in
      Ok (ContentDescriptor.mk (resource_content_id row) byte_length))
    (firstn (Z.to_nat limit)
       (merge_sort discovery_order
          (select (fun row => negb (locally_available row) && local_expected row) (client_resources db)))).

Definition update_resources (condition : ResourceRow -> bool) (change : ResourceRow -> ResourceRow) :
    T Z :=
  let* db := get in
  put (with_resources db (update_rows condition change (client_resources db))) ;*
  ret (count_rows condition (client_resources db)).

Definition verified_locally (at_unix_ms : Z) (row : ResourceRow) : ResourceRow :=
  mkResourceRow (resource_content_id row) (resource_byte_length row) (resource_media_type row)
    (resource_role row) (resource_original_name row) true (local_expected row)
    (discovered_at_unix_ms row) (Some at_unix_ms).

Definition lost_locally (row : ResourceRow) : ResourceRow :=
  mkResourceRow (resource_content_id row) (resource_byte_length row) (resource_media_type row)
    (resource_role row) (resource_original_name row) false true (discovered_at_unix_ms row) None.

Definition completed_transfer (byte_length at_unix_ms : Z) (row : TransferRow) : TransferRow :=
  mkTransferRow (transfer_peer_id row) (transfer_content_id row) (transfer_direction row)
    TransferState.Complete (transfer_attempt_count row) (transfer_next_attempt_at row) None None
    (transfer_remote_upload_url row) byte_length (Some at_unix_ms) None.

Definition unlocked_transfer (at_unix_ms : Z) (row : TransferRow) : TransferRow :=
  mkTransferRow (transfer_peer_id row) (transfer_content_id row) (transfer_direction row)
    TransferState.Pending (transfer_attempt_count row) at_unix_ms (transfer_lease_id row)
    (transfer_lease_expires_at row) (transfer_remote_upload_url row) (transfer_transferred_bytes row)
    (transfer_completed_at row) None.

Definition of_content (content : list Z) (direction : ResourceTransferDirection.t) (row : TransferRow) : bool :=
  list_eqb (transfer_content_id row) content && in_direction direction row.

(** The transfers of bytes that are here: downloads complete, waiting uploads start. *)
Definition settle_transfers (content : list Z) (byte_length at_unix_ms : Z) : T unit :=
  update_transfers (fun row =>
      of_content content ResourceTransferDirection.Download row
      && negb (in_transfer_state TransferState.Complete row))
    (completed_transfer byte_length at_unix_ms) ;*
  update_transfers (fun row =>
      of_content content ResourceTransferDirection.Upload row
      && in_transfer_state TransferState.WaitingLocal row)
    (unlocked_transfer at_unix_ms) ;*
  ret tt.

Definition mark_resource_local (descriptor : ContentDescriptor.t) (verified_at : Z) : T unit :=
  let content := ContentDescriptor.content_id descriptor in
  unless (verified_at <? 0) ClientStoreError.NegativeTimestamp ;*
  let* byte_length := lift (ok_or (checked_i64 (ContentDescriptor.byte_length descriptor))
    ClientStoreError.InvalidResourceProgress) in
  let* changed := update_resources (fun row =>
      has_content content row && (resource_byte_length row =? byte_length))
    (verified_locally verified_at) in
  unless (negb (changed =? 1)) ClientStoreError.ResourceDescriptorConflict ;*
  settle_transfers content byte_length verified_at.

Definition transfer_due (db : ClientDatabase) (now_unix_ms : Z) (row : TransferRow) : bool :=
  exists_row (fun peer => has_peer (transfer_peer_id row) peer && enabled peer) (client_peers db)
  && (in_transfer_state TransferState.Pending row && (transfer_next_attempt_at row <=? now_unix_ms)
      || in_transfer_state TransferState.Leased row
         && match transfer_lease_expires_at row with Some at_ => at_ <=? now_unix_ms | None => false end).

(** Downloads first, then [next_attempt_at_unix_ms, peer_id, content_id]. *)
Definition direction_rank (row : TransferRow) : Z :=
  match transfer_direction row with
  | ResourceTransferDirection.Download => 0
  | ResourceTransferDirection.Upload => 1
  end.
Definition transfer_order (a b : TransferRow) : Prop :=
  direction_rank a < direction_rank b
  \/ direction_rank a = direction_rank b
     /\ (transfer_next_attempt_at a < transfer_next_attempt_at b
         \/ transfer_next_attempt_at a = transfer_next_attempt_at b
            /\ (bytes_lt (transfer_peer_id a) (transfer_peer_id b)
                \/ transfer_peer_id a = transfer_peer_id b
                   /\ bytes_le (transfer_content_id a) (transfer_content_id b))).
#[global] Instance transfer_order_dec a b : Decision (transfer_order a b).
Proof. unfold transfer_order. apply _. Defined.

Definition load_resource_transfer (peer content : list Z) (direction : ResourceTransferDirection.t)
    (db : ClientDatabase) : result error ResourceTransferItem :=
  let? row := require_row (has_transfer peer content direction) (client_resource_transfers db) in
  let? config := require_row (has_peer peer) (client_peers db) in
  let? resource := require_row (has_content content) (client_resources db) in
  let? byte_length := nonnegative_u64 (resource_byte_length resource) in
  let? attempts := counter_u32 (transfer_attempt_count row) (str "resource attempt count overflow") in
  let? transferred := nonnegative_u64 (transfer_transferred_bytes row) in
  Ok (mkTransferItem config
        (ResourceRef.mk content byte_length (resource_media_type resource) (resource_role resource)
           (resource_original_name resource))
        direction attempts (transfer_remote_upload_url row) transferred).

Definition leased_transfer (lease : list Z) (expires : Z) (row : TransferRow) : TransferRow :=
  mkTransferRow (transfer_peer_id row) (transfer_content_id row) (transfer_direction row)
    TransferState.Leased (transfer_attempt_count row + 1) (transfer_next_attempt_at row) (Some lease)
    (Some expires) (transfer_remote_upload_url row) (transfer_transferred_bytes row)
    (transfer_completed_at row) (transfer_last_error row).

Definition lease_one_transfer (lease : list Z) (expires : Z) (row : TransferRow) : T ResourceTransferItem :=
  let peer := transfer_peer_id row in
  let content := transfer_content_id row in
  let direction := transfer_direction row in
  let* changed := update_transfers (has_transfer peer content direction) (leased_transfer lease expires) in
  unless (negb (changed =? 1))
    (ClientStoreError.Corrupt (str "selected resource transfer disappeared")) ;*
  let* db := get in
  lift (load_resource_transfer peer content direction db).

Definition lease_due_resources (now_unix_ms lease_duration limit : Z) (lease : list Z) :
    T (list ResourceTransferItem) :=
  unless (now_unix_ms <? 0) ClientStoreError.NegativeTimestamp ;*
  lift (validate_resource_limit limit) ;*
  let* expires := lift (lease_expiry now_unix_ms lease_duration) in
  let* db := get in
  collect_items (lease_one_transfer lease expires)
    (firstn (Z.to_nat limit)
       (merge_sort transfer_order (select (transfer_due db now_unix_ms) (client_resource_transfers db)))).

(** The transfer is leased, and by this lease. *)
Definition holds_transfer (peer content : list Z) (direction : ResourceTransferDirection.t)
    (lease : list Z) (row : TransferRow) : bool :=
  has_transfer peer content direction row && in_transfer_state TransferState.Leased row
  && eqb (transfer_lease_id row) (Some lease).

Definition progressed (transferred : Z) (url : option (list Z)) (row : TransferRow) : TransferRow :=
  mkTransferRow (transfer_peer_id row) (transfer_content_id row) (transfer_direction row)
    (transfer_state row) (transfer_attempt_count row) (transfer_next_attempt_at row)
    (transfer_lease_id row) (transfer_lease_expires_at row)
    (if in_direction ResourceTransferDirection.Upload row then url else None) transferred
    (transfer_completed_at row) (transfer_last_error row).

Definition record_resource_progress (peer content : list Z) (direction : ResourceTransferDirection.t)
    (lease : list Z) (transferred_bytes : Z) (url : option (list Z)) : T unit :=
  let* transferred := lift (ok_or (checked_i64 transferred_bytes) ClientStoreError.InvalidResourceProgress) in
  let* db := get in
  let* changed := update_transfers (fun row =>
      holds_transfer peer content direction lease row
      && match query_row (has_content content) (client_resources db) with
         | Some resource => transferred <=? resource_byte_length resource
         | None => false
         end)
    (progressed transferred url) in
  unless (negb (changed =? 1)) ClientStoreError.ResourceLeaseMismatch.

Definition finished_transfer (db : ClientDatabase) (content : list Z) (state : TransferState.t)
    (at_unix_ms : Z) (text : option (list Z)) (row : TransferRow) : TransferRow :=
  let complete := bool_decide (state = TransferState.Complete) in
  mkTransferRow (transfer_peer_id row) (transfer_content_id row) (transfer_direction row) state
    (transfer_attempt_count row) at_unix_ms None None (transfer_remote_upload_url row)
    (if complete
     then match query_row (has_content content) (client_resources db) with
          | Some resource => resource_byte_length resource
          | None => -1 (* NULL, which the column refuses *)
          end
     else transfer_transferred_bytes row)
    (if complete then Some at_unix_ms else None) text.

Definition finish_resource_transfer (peer content : list Z) (direction : ResourceTransferDirection.t)
    (lease : list Z) (state : TransferState.t) (at_unix_ms : Z) (text : option (list Z)) : T unit :=
  unless (at_unix_ms <? 0) ClientStoreError.NegativeTimestamp ;*
  unless (error_too_long text) ClientStoreError.DeliveryErrorTooLong ;*
  let* db := get in
  let* changed := update_transfers (holds_transfer peer content direction lease)
    (finished_transfer db content state at_unix_ms text) in
  unless (negb (changed =? 1)) ClientStoreError.ResourceLeaseMismatch ;*
  if bool_decide (state = TransferState.Complete)
     && bool_decide (direction = ResourceTransferDirection.Download)
  then
    let* db := get in
    let* resource := lift (require_row (has_content content) (client_resources db)) in
    let* byte_length := lift (nonnegative_u64 (resource_byte_length resource)) in
    update_resources (has_content content) (verified_locally at_unix_ms) ;*
    settle_transfers content byte_length at_unix_ms
  else ret tt.

Definition complete_resource_transfer (peer content : list Z) (direction : ResourceTransferDirection.t)
    (lease : list Z) (completed_at : Z) : T unit :=
  finish_resource_transfer peer content direction lease TransferState.Complete completed_at None.
Definition retry_resource_transfer (peer content : list Z) (direction : ResourceTransferDirection.t)
    (lease : list Z) (next_attempt_at : Z) (text : list Z) : T unit :=
  finish_resource_transfer peer content direction lease TransferState.Pending next_attempt_at (Some text).
Definition reject_resource_transfer (peer content : list Z) (direction : ResourceTransferDirection.t)
    (lease : list Z) (rejected_at : Z) (text : list Z) : T unit :=
  finish_resource_transfer peer content direction lease TransferState.Rejected rejected_at (Some text).

Definition continued_transfer (next_attempt_at : Z) (row : TransferRow) : TransferRow :=
  mkTransferRow (transfer_peer_id row) (transfer_content_id row) (transfer_direction row)
    TransferState.Pending 0 next_attempt_at None None (transfer_remote_upload_url row)
    (transfer_transferred_bytes row) None None.

Definition continue_resource_transfer (peer content : list Z) (direction : ResourceTransferDirection.t)
    (lease : list Z) (next_attempt_at : Z) : T unit :=
  unless (next_attempt_at <? 0) ClientStoreError.NegativeTimestamp ;*
  let* changed := update_transfers (holds_transfer peer content direction lease)
    (continued_transfer next_attempt_at) in
  unless (negb (changed =? 1)) ClientStoreError.ResourceLeaseMismatch.

Definition waiting_transfer (next_check_at : Z) (text : list Z) (row : TransferRow) : TransferRow :=
  mkTransferRow (transfer_peer_id row) (transfer_content_id row) (transfer_direction row)
    TransferState.WaitingLocal (transfer_attempt_count row) next_check_at None None
    (transfer_remote_upload_url row) (transfer_transferred_bytes row) (transfer_completed_at row) (Some text).

Definition wait_for_local_resource (peer content lease : list Z) (next_check_at : Z) (text : list Z) :
    T unit :=
  unless (next_check_at <? 0) ClientStoreError.NegativeTimestamp ;*
  unless (error_too_long (Some text)) ClientStoreError.DeliveryErrorTooLong ;*
  let* changed := update_transfers
    (holds_transfer peer content ResourceTransferDirection.Upload lease)
    (waiting_transfer next_check_at text) in
  unless (negb (changed =? 1)) ClientStoreError.ResourceLeaseMismatch ;*
  update_resources (has_content content) lost_locally ;*
  ret tt.

(** ** Counts *)
Record OutboxCounts : Type := mkOutboxCounts {
  outbox_pending : Z; outbox_leased : Z; outbox_acknowledged : Z; outbox_rejected : Z
}.

Record ResourceSyncCounts : Type := mkResourceSyncCounts {
  waiting_uploads : Z;
  pending_uploads : Z;
  pending_downloads : Z;
  leased_transfers : Z;
  completed_transfers : Z;
  rejected_transfers : Z;
  transferred_bytes : Z;
  total_bytes : Z
}.

Record SyncCounts : Type := mkSyncCounts {
  count_enabled_peers : Z;
  count_spaces : Z;
  pending_deliveries : Z;
  leased_deliveries : Z;
  rejected_deliveries : Z;
  due_pulls : Z;
  resources : ResourceSyncCounts
}.

Definition outbox_counts (peer : list Z) (db : ClientDatabase) : OutboxCounts :=
  let count state := count_rows (fun row =>
    list_eqb (delivery_peer_id row) peer && in_delivery_state state row) (client_deliveries db) in
  mkOutboxCounts (count DeliveryState.Pending) (count DeliveryState.Leased)
    (count DeliveryState.Acknowledged) (count DeliveryState.Rejected).

(** [sum], which fails when it leaves 64 bits. *)
Definition sum_column {A} (column : A -> Z) (rows : list A) : result error Z :=
  ok_or (checked_i64 (fold_left (fun total row => total + column row) rows 0)) ClientStoreError.Sqlite.

Definition transfer_length (db : ClientDatabase) (row : TransferRow) : Z :=
  match query_row (has_content (transfer_content_id row)) (client_resources db) with
  | Some resource => resource_byte_length resource
  | None => 0
  end.

Definition sync_counts (now_unix_ms : Z) (db : ClientDatabase) : result error SyncCounts :=
  if now_unix_ms <? 0 then Err ClientStoreError.NegativeTimestamp
  else
    let deliveries state := count_rows (in_delivery_state state) (client_deliveries db) in
    let transfers := select (fun row =>
      exists_row (has_content (transfer_content_id row)) (client_resources db)) (client_resource_transfers db) in
    let count state := count_rows (in_transfer_state state) transfers in
    let toward direction state :=
      count_rows (fun row => in_direction direction row && in_transfer_state state row) transfers in
    let? transferred := sum_column transfer_transferred_bytes transfers in
    let? total := sum_column (transfer_length db) transfers in
    let? transferred := nonnegative_u64 transferred in
    let? total := nonnegative_u64 total in
    Ok (mkSyncCounts (count_rows enabled (client_peers db))
          (Z.of_nat (length (client_peer_spaces db)))
          (deliveries DeliveryState.Pending) (deliveries DeliveryState.Leased)
          (deliveries DeliveryState.Rejected)
          (count_rows (pull_due db now_unix_ms) (client_peer_spaces db))
          (mkResourceSyncCounts (toward ResourceTransferDirection.Upload TransferState.WaitingLocal)
             (toward ResourceTransferDirection.Upload TransferState.Pending)
             (toward ResourceTransferDirection.Download TransferState.Pending)
             (count TransferState.Leased) (count TransferState.Complete) (count TransferState.Rejected)
             transferred total)).
End ClientQueues.
