(* ===== verification/ClientQueries.v ===== *)
(** * The client's projections (crates/fractonica-client-sqlite/src/lib.rs)

    The reads of entities and projections, and the reconstruction of everything derived
    from the stored operations. *)
From S2P Require Import Prelude Bytes Floats Crypto Content Cbor Trust DataModel CanonicalBody Envelope.
From S2P Require Import Authorization Peer Application Database PairingStore ClientDatabase ClientStore.

#[local] Notation error := ClientStoreError.t.

Record LocalEntitySummary : Type := mkLocalSummary {
  local_operation_id : list Z;
  local_entity_id : list Z;
  local_schema : EntitySchema.t;
  local_visibility : Visibility.t;
  local_conflicted : bool;
  local_tombstone : bool;
  local_start_at_unix_ms : option Z;
  local_end_at_unix_ms : option Z;
  local_sort_text : option (list Z);
  local_resource_count : Z;
  local_media_bytes : Z
}.

Record LocalRecordPreview : Type := mkLocalPreview {
  preview_summary : LocalEntitySummary;
  preview_emoji : option (list Z);
  text_preview : option (list Z);
  preview_truncated : bool
}.

Section ClientQueries.
Context `{Sha256} `{Ed25519} `{HalfFloat} `{Base64} `{!JsonNumber} `{!JsonSize}
  `{!ProjectionJson} `{!Lowercase}.

Record LocalEntity : Type := mkLocalEntity {
  entity_space_id : list Z;
  entity_entity_id : list Z;
  entity_schema : EntitySchema.t;
  operation_count : Z;
  heads : list OperationEnvelope.t
}.

Record LocalRecordSummary : Type := mkLocalRecord {
  record_summary : LocalEntitySummary;
  record_document : option RecordDocument
}.

Record LocalRecordImport : Type := mkLocalImport {
  import_local_sequence : Z;
  import_entity_id : list Z;
  import_payload : ProtectedDocument.t RecordDocument
}.

(** ** Entities *)

(** [ORDER BY operation_id]. *)
Definition id_order (a b : ClientOperationRow) : Prop := bytes_le (op_operation_id a) (op_operation_id b).
#[global] Instance id_order_dec a b : Decision (id_order a b).
Proof. unfold id_order. apply _. Defined.

Definition entity (space entity_id : list Z) (db : ClientDatabase) : result error (option LocalEntity) :=
  match select (of_entity space entity_id) (client_operations db) with
  | [] => Ok None
  | first :: _ as history =>
      if negb (forallb (fun row => eqb (op_schema row) (op_schema first)) history)
      then corrupt (str "entity history contains multiple schemas")
      else
        let rows := select (fun row =>
          exists_row (fun head => is_head (op_operation_id row) head && head_of_entity space entity_id head)
            (client_entity_heads db)) (client_operations db) in
        let? heads := collect (fun row => decode_operation (op_projection_json row))
          (merge_sort id_order rows) in
        if is_empty heads then corrupt (str "entity history has no heads")
        else
          let? operation_count := positive_u64 (Z.of_nat (length history)) in
          Ok (Some (mkLocalEntity space entity_id (op_schema first) operation_count heads))
  end.

(** ** Projections *)

(** [JOIN client_entity_heads]. *)
Definition is_current (db : ClientDatabase) (row : ClientProjectionRow) : bool :=
  exists_row (is_head (view_operation_id row)) (client_entity_heads db).

Definition current_rows (space : list Z) (schema : EntitySchema.t) (db : ClientDatabase) :
    list ClientProjectionRow :=
  select (fun row => list_eqb (view_space_id row) space && eqb (view_schema row) schema
                     && negb (view_tombstone row) && is_current db row) (client_projections db).

Definition conflicted_row (db : ClientDatabase) (row : ClientProjectionRow) : bool :=
  1 <? count_rows (head_of_entity (view_space_id row) (view_entity_id row)) (client_entity_heads db).

Definition row_ids_le (a b : ClientProjectionRow) : Prop :=
  bytes_lt (view_entity_id a) (view_entity_id b)
  \/ view_entity_id a = view_entity_id b /\ bytes_le (view_operation_id a) (view_operation_id b).

(** [coalesce(start_at_unix_ms, -1) DESC, entity_id, operation_id]. *)
Definition temporal_order (a b : ClientProjectionRow) : Prop :=
  let start row := default (-1) (view_start_at_unix_ms row) in
  start b < start a \/ start a = start b /\ row_ids_le a b.
(** [coalesce(sort_text, ''), entity_id, operation_id]. *)
Definition text_order (a b : ClientProjectionRow) : Prop :=
  let text row := default [] (view_sort_text row) in
  bytes_lt (text a) (text b) \/ text a = text b /\ row_ids_le a b.
#[global] Instance temporal_order_dec a b : Decision (temporal_order a b).
Proof. unfold temporal_order, row_ids_le. apply _. Defined.
#[global] Instance text_order_dec a b : Decision (text_order a b).
Proof. unfold text_order, row_ids_le. apply _. Defined.

Definition summary_of (db : ClientDatabase) (row : ClientProjectionRow) : result error LocalEntitySummary :=
  let? resource_count := nonnegative_u64 (view_resource_count row) in
  let? media_bytes := nonnegative_u64 (view_media_bytes row) in
  Ok (mkLocalSummary (view_operation_id row) (view_entity_id row) (view_schema row)
        (view_visibility row) (conflicted_row db row) (view_tombstone row) (view_start_at_unix_ms row)
        (view_end_at_unix_ms row) (view_sort_text row) resource_count media_bytes).

Definition valid_limit (limit : Z) : result error unit :=
  if negb (between 1 limit 200) then Err ClientStoreError.InvalidEntityLimit else Ok tt.

Definition is_temporal (schema : EntitySchema.t) : bool :=
  match schema with EntitySchema.Record_ | EntitySchema.Event => true | _ => false end.

Definition list_entities (space : list Z) (schema : EntitySchema.t) (limit : Z) (db : ClientDatabase) :
    result error (list LocalEntitySummary) :=
  check valid_limit limit;
  if negb (is_client_schema schema) then Ok []
  else
    let rows := current_rows space schema db in
    collect (summary_of db)
      (firstn (Z.to_nat limit)
         (if is_temporal schema then merge_sort temporal_order rows else merge_sort text_order rows)).

(** ** Records *)
Definition decode_record_projection (json space entity_id operation_id : list Z) :
    result error (option RecordDocument) :=
  let? operation := decode_operation json in
  if negb (list_eqb (OperationEnvelope.operation_id operation) operation_id)
     || negb (list_eqb (OperationEnvelope.entity_id operation) entity_id)
     || negb (list_eqb (OperationEnvelope.space_id operation) space)
     || negb (eqb (OperationEnvelope.schema operation) EntitySchema.Record_)
  then corrupt (str "record projection does not match its operation")
  else match OperationEnvelope.body operation with
  | OperationBody.PutRecord (ProtectedDocument.Public document) => Ok (Some document)
  | OperationBody.PutRecord (ProtectedDocument.Private _ _) => Ok None
  | _ => corrupt (str "record projection has a non-record body")
  end.

(** The operation of a row: [JOIN client_operations], whose key is unique. *)
Definition operation_of (db : ClientDatabase) (row : ClientProjectionRow) : option ClientOperationRow :=
  query_row (has_operation (view_operation_id row)) (client_operations db).

Definition joined_records (space : list Z) (db : ClientDatabase) :
    list (ClientProjectionRow * ClientOperationRow) :=
  omap (fun row => pair row <$> operation_of db row) (current_rows space EntitySchema.Record_ db).

Definition record_summary_of (db : ClientDatabase) (space : list Z)
    (joined : ClientProjectionRow * ClientOperationRow) : result error LocalRecordSummary :=
  let '(row, stored) := joined in
  let? document := decode_record_projection (op_projection_json stored) space (view_entity_id row)
    (view_operation_id row) in
  let? summary := summary_of db row in
  Ok (mkLocalRecord summary document).

Definition joined_order (a b : ClientProjectionRow * ClientOperationRow) : Prop :=
  temporal_order a.1 b.1.
#[global] Instance joined_order_dec a b : Decision (joined_order a b).
Proof. unfold joined_order. apply _. Defined.

Definition list_records (space : list Z) (limit : Z) (db : ClientDatabase) :
    result error (list LocalRecordSummary) :=
  check valid_limit limit;
  collect (record_summary_of db space)
    (firstn (Z.to_nat limit) (merge_sort joined_order (joined_records space db))).

Definition record_import_count (space : list Z) (db : ClientDatabase) : result error Z :=
  nonnegative_u64 (Z.of_nat (length (current_rows space EntitySchema.Record_ db))).

Definition import_order (a b : ClientProjectionRow * ClientOperationRow) : Prop :=
  op_local_sequence a.2 <= op_local_sequence b.2.
#[global] Instance import_order_dec a b : Decision (import_order a b).
Proof. unfold import_order. apply _. Defined.

Definition import_of (space : list Z) (joined : ClientProjectionRow * ClientOperationRow) :
    result error LocalRecordImport :=
  let '(row, stored) := joined in
  let? operation := decode_operation (op_projection_json stored) in
  if negb (list_eqb (OperationEnvelope.space_id operation) space)
     || negb (list_eqb (OperationEnvelope.entity_id operation) (view_entity_id row))
     || negb (eqb (OperationEnvelope.schema operation) EntitySchema.Record_)
  then corrupt (str "record import projection does not match its operation")
  else match OperationEnvelope.body operation with
  | OperationBody.PutRecord payload =>
      let? sequence := positive_u64 (op_local_sequence stored) in
      Ok (mkLocalImport sequence (view_entity_id row) payload)
  | _ => corrupt (str "record import projection has a non-record body")
  end.

Definition record_import_batch (space : list Z) (after_local_sequence limit : Z) (db : ClientDatabase) :
    result error (list LocalRecordImport) :=
  check valid_limit limit;
  let? after := ok_or (checked_i64 after_local_sequence) ClientStoreError.InvalidEntityLimit in
  collect (import_of space)
    (firstn (Z.to_nat limit)
       (merge_sort import_order
          (select (fun joined => after <? op_local_sequence joined.2) (joined_records space db)))).

Definition list_record_previews (space : list Z) (limit : Z) (db : ClientDatabase) :
    result error (list LocalRecordPreview) :=
  check valid_limit limit;
  collect (fun row =>
      let? summary := summary_of db row in
      Ok (mkLocalPreview summary (view_preview_emoji row) (view_preview_text row)
            (view_preview_truncated row)))
    (firstn (Z.to_nat limit) (merge_sort temporal_order (current_rows space EntitySchema.Record_ db))).

Definition record (space entity_id operation_id : list Z) (db : ClientDatabase) :
    result error (option LocalRecordSummary) :=
  match query_row (fun joined => list_eqb (view_entity_id joined.1) entity_id
                                 && list_eqb (view_operation_id joined.1) operation_id)
          (joined_records space db) with
  | None => Ok None
  | Some (row, stored) =>
      let? document := decode_record_projection (op_projection_json stored) space entity_id operation_id in
      let? summary := summary_of db row in
      Ok (Some (mkLocalRecord summary document))
  end.

(** ** Reconstruction *)
Definition rebuild_derived_state : T Z :=
  let* db := get in
  let* operations := lift (collect (fun row => decode_operation (op_projection_json row))
    (merge_sort (fun a b => op_local_sequence a <= op_local_sequence b) (client_operations db))) in
  put (with_derived db [] [] [] [] []) ;*
  each (fun operation => insert_graph operation ;* insert_projection operation) operations ;*
  ret (Z.of_nat (length operations)).
End ClientQueries.
