(* ===== verification/ClientLogic.v ===== *)
(** * A program logic for the client's transactions

    [wp m db Q]: when the transaction [m] begun on [db] commits, [Q] holds of its value
    and of the database it commits.  One rule per construct of [ClientStore.T], the rules
    of the statements that change rows, and the tactic [wp_run] that applies them. *)
From S2P Require Import Prelude Bytes Floats Crypto Content Cbor Trust DataModel CanonicalBody Envelope.
From S2P Require Import Authorization Peer Application Database PairingStore Repository RepositoryLog.
From S2P Require Import ClientDatabase ClientStore ClientQueues ClientQueries.

Definition wp {A} (m : T A) (db : ClientDatabase) (Q : A -> ClientDatabase -> Prop) : Prop :=
  forall a db', m db = Ok (a, db') -> Q a db'.

Lemma wp_fail {A} e db (Q : A -> _ -> Prop) : wp (fail e) db Q.
Proof. by intros a db' [=]. Qed.

Section Rules.
Context {A B : Type}.
Implicit Types (db : ClientDatabase).

Lemma wp_ret (a : A) db (Q : A -> _ -> Prop) : Q a db -> wp (ret a) db Q.
Proof. by intros HQ a' db' [= <- <-]. Qed.

Lemma wp_bind (m : T A) (k : A -> T B) db (Q : B -> _ -> Prop) :
  wp m db (fun a db' => wp (k a) db' Q) -> wp (bind m k) db Q.
Proof.
  intros Hm b db'. unfold bind. destruct (m db) as [[a db1]|] eqn:E; [|done]. by apply Hm.
Qed.

Lemma wp_mono (m : T A) db (P Q : A -> ClientDatabase -> Prop) :
  wp m db P -> (forall a db', P a db' -> Q a db') -> wp m db Q.
Proof. intros Hm HPQ a db' E. by apply HPQ, Hm. Qed.

Lemma wp_get db (Q : ClientDatabase -> _ -> Prop) : Q db db -> wp get db Q.
Proof. by intros HQ a db' [= <- <-]. Qed.

Lemma wp_put db after (Q : unit -> _ -> Prop) : Q tt after -> wp (put after) db Q.
Proof. by intros HQ a db' [= <- <-]. Qed.

Lemma wp_lift (r : result ClientStoreError.t A) db (Q : A -> _ -> Prop) :
  (forall a, r = Ok a -> Q a db) -> wp (lift r) db Q.
Proof. intros HQ a db'. unfold lift. destruct r; [|done]. intros [= <- <-]. by apply HQ. Qed.

Lemma wp_unless bad e db (Q : unit -> _ -> Prop) : (bad = false -> Q tt db) -> wp (unless bad e) db Q.
Proof. intros HQ. destruct bad; [apply wp_fail|]. intros a db' [= <- <-]. by apply HQ. Qed.

Lemma wp_holds condition db (Q : unit -> _ -> Prop) :
  (condition = true -> Q tt db) -> wp (holds condition) db Q.
Proof. intros HQ. apply wp_unless. intros Hc. by apply HQ, negb_false_iff. Qed.

End Rules.

Lemma wp_each {A} (f : A -> T unit) (I : ClientDatabase -> Prop) l db (Q : unit -> _ -> Prop) :
  I db -> (forall a db, a ∈ l -> I db -> wp (f a) db (fun _ => I)) ->
  (forall db', I db' -> Q tt db') -> wp (each f l) db Q.
Proof.
  intros HI Hf HQ. enough (wp (each f l) db (fun _ => I)) as Hw.
  { eapply wp_mono; [exact Hw|]. intros [] db' H'. by apply HQ. }
  clear HQ. revert db HI. induction l as [|a l IH]; intros db HI; [by apply wp_ret|].
  cbn [each]. apply wp_bind. eapply wp_mono; [apply Hf; [by left|done]|]. cbn. intros _ db' HI'.
  apply IH; [|done]. intros b db2 Hb. apply Hf. by right.
Qed.

Lemma wp_each_at {A} (f : Z -> A -> T unit) (I : ClientDatabase -> Prop) l n db (Q : unit -> _ -> Prop) :
  I db -> (forall i a db, a ∈ l -> I db -> wp (f i a) db (fun _ => I)) ->
  (forall db', I db' -> Q tt db') -> wp (each_at f n l) db Q.
Proof.
  intros HI Hf HQ. enough (wp (each_at f n l) db (fun _ => I)) as Hw.
  { eapply wp_mono; [exact Hw|]. intros [] db' H'. by apply HQ. }
  clear HQ. revert n db HI. induction l as [|a l IH]; intros n db HI; [by apply wp_ret|].
  cbn [each_at]. apply wp_bind. eapply wp_mono; [apply Hf; [by left|done]|]. cbn. intros _ db' HI'.
  apply IH; [|done]. intros i b db2 Hb. apply Hf. by right.
Qed.

Lemma wp_collect_items {A B} (f : A -> T B) (I : ClientDatabase -> Prop) l db (Q : list B -> _ -> Prop) :
  I db -> (forall a db, a ∈ l -> I db -> wp (f a) db (fun _ => I)) ->
  (forall bs db', I db' -> Q bs db') -> wp (collect_items f l) db Q.
Proof.
  intros HI Hf HQ. enough (wp (collect_items f l) db (fun _ => I)) as Hw.
  { eapply wp_mono; [exact Hw|]. intros bs db' H'. by apply HQ. }
  clear HQ. revert db HI. induction l as [|a l IH]; intros db HI; [by apply wp_ret|].
  cbn [collect_items]. apply wp_bind. eapply wp_mono; [apply Hf; [by left|done]|]. cbn. intros b db' HI'.
  apply wp_bind. eapply wp_mono.
  { apply IH; [|done]. intros c db2 Hc. apply Hf. by right. }
  cbn. intros bs db2 H2. by apply wp_ret.
Qed.
Lemma wp_update_deliveries condition change db Q :
  (Forall (fun row => condition row = true -> delivery_constraints (change row) = true) (client_deliveries db) ->
   Q (count_rows condition (client_deliveries db))
     (with_deliveries db (update_rows condition change (client_deliveries db)))) ->
  wp (update_deliveries condition change) db Q.
Proof.
  intros HQ. apply wp_bind, wp_get, wp_bind, wp_holds. intros Hc. apply wp_bind, wp_put, wp_ret.
  rewrite length_map. apply HQ. rewrite forallb_forall in Hc. apply Forall_forall. intros row Hin Hr.
  apply Hc, in_map, filter_In. by rewrite <- list_elem_of_In.
Qed.

Lemma wp_update_transfers condition change db Q :
  (Forall (fun row => condition row = true -> transfer_constraints (change row) = true)
     (client_resource_transfers db) ->
   Q (count_rows condition (client_resource_transfers db))
     (with_transfers db (update_rows condition change (client_resource_transfers db)))) ->
  wp (update_transfers condition change) db Q.
Proof.
  intros HQ. apply wp_bind, wp_get, wp_bind, wp_holds. intros Hc. apply wp_bind, wp_put, wp_ret.
  rewrite length_map. apply HQ. rewrite forallb_forall in Hc. apply Forall_forall. intros row Hin Hr.
  apply Hc, in_map, filter_In. by rewrite <- list_elem_of_In.
Qed.

Lemma wp_update_peer_spaces condition change db Q :
  (Forall (fun row => condition row = true -> peer_space_constraints (change row) = true)
     (client_peer_spaces db) ->
   Q (count_rows condition (client_peer_spaces db))
     (with_peer_spaces db (update_rows condition change (client_peer_spaces db)))) ->
  wp (update_peer_spaces condition change) db Q.
Proof.
  intros HQ. apply wp_bind, wp_get, wp_bind, wp_holds. intros Hc. apply wp_bind, wp_put, wp_ret.
  rewrite length_map. apply HQ. rewrite forallb_forall in Hc. apply Forall_forall. intros row Hin Hr.
  apply Hc, in_map, filter_In. by rewrite <- list_elem_of_In.
Qed.

Lemma wp_update_resources condition change db Q :
  Q (count_rows condition (client_resources db))
    (with_resources db (update_rows condition change (client_resources db))) ->
  wp (update_resources condition change) db Q.
Proof. intros HQ. by apply wp_bind, wp_get, wp_bind, wp_put, wp_ret. Qed.

(** One rule: the statements stay folded, loops are left to the proof. *)
Ltac wp_step :=
  lazymatch goal with
  | |- wp (bind _ _) _ _ => apply wp_bind
  | |- wp (ret _) _ _ => apply wp_ret
  | |- wp (fail _) _ _ => apply wp_fail
  | |- wp get _ _ => apply wp_get
  | |- wp (put _) _ _ => apply wp_put
  | |- wp (lift _) _ _ => apply wp_lift; intros ? ?
  | |- wp (unless _ _) _ _ => apply wp_unless; intros ?
  | |- wp (holds _) _ _ => apply wp_holds; intros ?
  | |- wp (update_deliveries _ _) _ _ => apply wp_update_deliveries; intros ?
  | |- wp (update_transfers _ _) _ _ => apply wp_update_transfers; intros ?
  | |- wp (update_peer_spaces _ _) _ _ => apply wp_update_peer_spaces; intros ?
  | |- wp (update_resources _ _) _ _ => apply wp_update_resources
  | |- wp (if ?b then _ else _) _ _ => let E := fresh "E" in destruct b eqn:E
  | |- wp (match ?x with _ => _ end) _ _ => let E := fresh "E" in destruct x eqn:E
  | |- wp (let _ := _ in _) _ _ => cbv zeta
  end.
Ltac wp_run := repeat (wp_step; cbv beta).

(** ** Tables under updates *)
Section Tables.
Context {A K : Type} `{EqDecision K}.
Implicit Types (l : list A) (f g : A -> bool) (change : A -> A).

Lemma elem_of_update f change l b :
  b ∈ update_rows f change l <-> exists a, a ∈ l /\ b = (if f a then change a else a).
Proof.
  unfold update_rows. rewrite list_elem_of_In, in_map_iff.
  split; intros (a & H1 & H2); exists a; (split; [|done]) || split; auto; by apply list_elem_of_In.
Qed.

Lemma map_update (key : A -> K) f change l :
  (forall a, key (change a) = key a) -> List.map key (update_rows f change l) = List.map key l.
Proof.
  intros Hk. unfold update_rows. rewrite map_map. apply map_ext. intros a. destruct (f a); [apply Hk|done].
Qed.

Lemma query_update f g change l :
  (forall a, g (change a) = g a) ->
  query_row g (update_rows f change l) = (fun a => if f a then change a else a) <$> query_row g l.
Proof.
  intros Hg. unfold query_row, update_rows. induction l as [|a l IH]; [done|]. cbn.
  destruct (f a) eqn:E; [rewrite Hg|]; destruct (g a); cbn; by rewrite ?E.
Qed.

Lemma exists_update f g change l :
  (forall a, g (change a) = g a) -> exists_row g (update_rows f change l) = exists_row g l.
Proof.
  intros Hg. unfold exists_row, update_rows. induction l as [|a l IH]; [done|]. cbn. rewrite IH. f_equal.
  destruct (f a); [apply Hg|done].
Qed.

Lemma Forall_update (P : A -> Prop) f change l :
  Forall P l -> (forall a, P a -> f a = true -> P (change a)) -> Forall P (update_rows f change l).
Proof.
  intros Hl Hc. apply Forall_forall. intros b (a & Ha & ->)%elem_of_update.
  rewrite Forall_forall in Hl. destruct (f a) eqn:E; auto.
Qed.

Lemma exists_app f l l' : exists_row f (l ++ l') = exists_row f l || exists_row f l'.
Proof. apply existsb_app. Qed.

Lemma exists_query f l : exists_row f l = true <-> exists a, query_row f l = Some a.
Proof.
  split.
  - intros Hx. destruct (query_row f l) as [a|] eqn:E; [eauto|]. rewrite exists_row_true in Hx.
    destruct Hx as (a & Hin & Ha). rewrite query_row_None in E. by rewrite E in Ha.
  - intros (a & [Hin Ha]%query_row_Some). apply exists_row_true. eauto.
Qed.

Lemma NoDup_key_snoc (key : A -> K) l a :
  NoDup (List.map key l) -> (forall b, b ∈ l -> key b <> key a) -> NoDup (List.map key (l ++ [a])).
Proof.
  intros Hl Ha. rewrite map_app. apply NoDup_app. split; [done|]. split; [|apply NoDup_singleton].
  intros k (b & <- & Hb)%list_elem_of_In%in_map_iff Hk%list_elem_of_singleton.
  apply (Ha b); [by apply list_elem_of_In|done].
Qed.

Lemma NoDup_key_inj (key : A -> K) l a b :
  NoDup (List.map key l) -> a ∈ l -> b ∈ l -> key a = key b -> a = b.
Proof.
  induction l as [|c l IH]; [intros _ []%not_elem_of_nil|]. cbn. intros [Hc Hl]%NoDup_cons.
  assert (Hkey : forall d, d ∈ l -> key d ∈ List.map key l).
  { intros d Hd. apply list_elem_of_In, in_map. by apply list_elem_of_In. }
  intros [->|Ha]%elem_of_cons [->|Hb]%elem_of_cons E; auto.
  - destruct Hc. rewrite E. auto.
  - destruct Hc. rewrite <- E. auto.
Qed.

Lemma query_key (key : A -> K) f l a :
  NoDup (List.map key l) -> a ∈ l -> f a = true -> (forall b, f b = true -> key b = key a) ->
  query_row f l = Some a.
Proof.
  intros Hn Hin Hf Hk. destruct (query_row f l) as [b|] eqn:E.
  - apply query_row_Some in E as [Hb Hfb]. f_equal. by apply (NoDup_key_inj key l); auto.
  - rewrite query_row_None in E. by rewrite E in Hf.
Qed.

Lemma count_key (key : A -> K) f l :
  NoDup (List.map key l) -> (forall a b, f a = true -> f b = true -> key a = key b) ->
  count_rows f l = if exists_row f l then 1 else 0.
Proof.
  intros Hn Hk. induction l as [|a l IH]; [done|]. cbn in Hn. apply NoDup_cons in Hn as [Ha Hn].
  unfold count_rows, select, exists_row in *. cbn. destruct (f a) eqn:Ef; cbn; [|by apply IH].
  enough (List.filter f l = []) as -> by done. apply elem_of_nil_inv. intros b Hb.
  apply list_elem_of_In, filter_In in Hb as [Hb Hfb]. apply Ha. rewrite (Hk a b Ef Hfb).
  apply list_elem_of_In, in_map, Hb.
Qed.
End Tables.
