(* ===== verification/ClientInvariant.v ===== *)
(** * The client's invariant

    The calls of the client store as a data type with their transactions, and what every
    sequence of calls keeps: operations are stored in causal order under growing
    sequences, keys are unique, rows satisfy their constraints, queues refer to
    configured peers and stored operations, and no transfer has moved more bytes than
    its resource has. *)
From S2P Require Import Prelude Bytes Floats Crypto Content Cbor Trust DataModel CanonicalBody Envelope.
From S2P Require Import Authorization Peer Application Database PairingStore Repository RepositoryLog.
From S2P Require Import ClientDatabase ClientStore ClientQueues ClientQueries ClientLogic.

#[local] Opaque OperationEnvelope.verify.

Section Calls.
Context `{Sha256} `{Ed25519} `{HalfFloat} `{Base64} `{!JsonNumber} `{!JsonSize}
  `{!ProjectionJson} `{!Lowercase}.

(** ** Calls *)
Inductive Call : Type :=
| Commit (operation : OperationEnvelope.t) (stored_at : Z) (source : CommitSource.t)
| StoreWorkspace (request : TrustedSpaceBootstrapRequest)
| SetActiveWorkspace (workspace : ActiveWorkspace)
| ClearActiveWorkspace
| BindLocalIdentity (binding : ClientInstallationBinding)
| DeleteWorkspace (space : list Z)
| UpsertPeer (peer : PeerConfig)
| SetPeerEnabled (peer : list Z) (value : bool)
| ConfigurePeerSpace (config : PeerSpaceConfig)
| Requeue (peer space : list Z) (now : Z)
| AdvancePullCursor (peer space : list Z) (expected_after next_after pulled_at next_pull_at : Z)
| RecordPullFailure (peer space : list Z) (expected_after next_pull_at : Z) (text : list Z)
| LeaseDue (peer : list Z) (now duration limit : Z) (lease : list Z)
| Acknowledge (peer operation lease : list Z) (at_ : Z)
| Retry (peer operation lease : list Z) (at_ : Z) (text : list Z)
| Reject (peer operation lease : list Z) (at_ : Z) (text : list Z)
| ReleaseLease (peer lease : list Z)
| MarkResourceLocal (descriptor : ContentDescriptor.t) (at_ : Z)
| LeaseDueResources (now duration limit : Z) (lease : list Z)
| RecordProgress (peer content : list Z) (direction : ResourceTransferDirection.t) (lease : list Z)
    (bytes : Z) (url : option (list Z))
| CompleteTransfer (peer content : list Z) (direction : ResourceTransferDirection.t) (lease : list Z) (at_ : Z)
| RetryTransfer (peer content : list Z) (direction : ResourceTransferDirection.t) (lease : list Z) (at_ : Z)
    (text : list Z)
| RejectTransfer (peer content : list Z) (direction : ResourceTransferDirection.t) (lease : list Z) (at_ : Z)
    (text : list Z)
| ContinueTransfer (peer content : list Z) (direction : ResourceTransferDirection.t) (lease : list Z) (at_ : Z)
| WaitForLocal (peer content lease : list Z) (at_ : Z) (text : list Z)
| RebuildDerivedState.

Definition discard {A} (m : T A) : T unit := m ;* ret tt.

Definition exec (call : Call) : T unit :=
  match call with
  | Commit operation stored_at source => discard (commit operation stored_at source)
  | StoreWorkspace request => discard (store_workspace request)
  | SetActiveWorkspace workspace => set_active_workspace workspace
  | ClearActiveWorkspace => clear_active_workspace
  | BindLocalIdentity binding => discard (bind_local_identity binding)
  | DeleteWorkspace space => delete_workspace space
  | UpsertPeer peer => upsert_peer peer
  | SetPeerEnabled peer value => set_peer_enabled peer value
  | ConfigurePeerSpace config => configure_peer_space config
  | Requeue peer space now => requeue_unacknowledged_peer_space peer space now
  | AdvancePullCursor peer space expected next pulled_at next_pull_at =>
      advance_pull_cursor peer space expected next pulled_at next_pull_at
  | RecordPullFailure peer space expected next_pull_at text =>
      record_pull_failure peer space expected next_pull_at text
  | LeaseDue peer now duration limit lease => discard (lease_due peer now duration limit lease)
  | Acknowledge peer operation lease at_ => acknowledge peer operation lease at_
  | Retry peer operation lease at_ text => retry peer operation lease at_ text
  | Reject peer operation lease at_ text => reject peer operation lease at_ text
  | ReleaseLease peer lease => discard (release_lease peer lease)
  | MarkResourceLocal descriptor at_ => mark_resource_local descriptor at_
  | LeaseDueResources now duration limit lease => discard (lease_due_resources now duration limit lease)
  | RecordProgress peer content direction lease bytes url =>
      record_resource_progress peer content direction lease bytes url
  | CompleteTransfer peer content direction lease at_ =>
      complete_resource_transfer peer content direction lease at_
  | RetryTransfer peer content direction lease at_ text =>
      retry_resource_transfer peer content direction lease at_ text
  | RejectTransfer peer content direction lease at_ text =>
      reject_resource_transfer peer content direction lease at_ text
  | ContinueTransfer peer content direction lease at_ =>
      continue_resource_transfer peer content direction lease at_
  | WaitForLocal peer content lease at_ text => wait_for_local_resource peer content lease at_ text
  | RebuildDerivedState => discard rebuild_derived_state
  end.

(** The database a call leaves, whether it succeeds or fails. *)
Definition call (db : ClientDatabase) (c : Call) : ClientDatabase := snd (run (exec c) db).
Definition run_calls (calls : list Call) (db : ClientDatabase) : ClientDatabase := fold_left call calls db.

(** The values a Rust caller can pass. *)
Definition call_typed (c : Call) : Prop :=
  match c with
  | Commit operation _ _ => typed_operation operation
  | StoreWorkspace request => typed_operation (genesis request) /\ typed_operation (initial_grant request)
  | _ => True
  end.

Definition client_reachable (db : ClientDatabase) : Prop :=
  exists calls, Forall call_typed calls /\ db = run_calls calls fresh_client.

(** ** The invariant of the stored operations *)

(** What a row stores. *)
Record stored_as (row : ClientOperationRow) (o : OperationEnvelope.t) : Prop := {
  stored_typed : typed_operation o;
  stored_verified : OperationEnvelope.verify o = Ok tt;
  stored_json : to_json o = Some (op_projection_json row);
  stored_id : op_operation_id row = OperationEnvelope.operation_id o;
  stored_space : op_space_id row = OperationEnvelope.space_id o;
  stored_entity : op_entity_id row = OperationEnvelope.entity_id o;
  stored_schema : op_schema row = OperationEnvelope.schema o
}.

Definition listed (references : list ReferenceRow) (id referenced : list Z) : Prop :=
  exists position, mkReferenceRow id referenced position ∈ references.

(** [referenced] was stored before [id]. *)
Definition precedes (db : ClientDatabase) (referenced id : list Z) : Prop :=
  exists earlier later, earlier ∈ client_operations db /\ later ∈ client_operations db
    /\ op_operation_id earlier = referenced /\ op_operation_id later = id
    /\ op_local_sequence earlier < op_local_sequence later.

Definition row_listed (db : ClientDatabase) (row : ClientOperationRow) : Prop :=
  exists o, stored_as row o
    /\ (forall p, p ∈ OperationEnvelope.causal_parents o -> listed (client_operation_parents db) (op_operation_id row) p)
    /\ (forall a, a ∈ OperationEnvelope.authorization o ->
        listed (client_operation_authorizations db) (op_operation_id row) a).

Record log_ok (db : ClientDatabase) : Prop := {
  log_order : StronglySorted Z.lt (List.map op_local_sequence (client_operations db));
  log_range : Forall (fun row => 0 < op_local_sequence row <= client_last_sequence db) (client_operations db);
  log_last : 0 <= client_last_sequence db;
  log_ids : NoDup (List.map op_operation_id (client_operations db));
  log_rows : Forall (row_listed db) (client_operations db);
  log_references : forall row, row ∈ client_operation_parents db ++ client_operation_authorizations db ->
    precedes db (referenced_operation_id row) (reference_operation_id row)
}.

(** ** The invariant of the queues *)
Definition space_key (row : PeerSpaceRow) : list Z * list Z := (pull_peer_id row, pull_space_id row).
Definition delivery_key (row : DeliveryRow) : list Z * list Z :=
  (delivery_peer_id row, delivery_operation_id row).
Definition transfer_key (row : TransferRow) : list Z * list Z * ResourceTransferDirection.t :=
  (transfer_peer_id row, transfer_content_id row, transfer_direction row).

(** A transfer moved no more than its resource, a complete one all of it. *)
Definition transfer_bytes (row : TransferRow) (resource : ResourceRow) : Prop :=
  transfer_transferred_bytes row <= resource_byte_length resource
  /\ (transfer_state row = TransferState.Complete ->
      transfer_transferred_bytes row = resource_byte_length resource).

Record queues_ok (db : ClientDatabase) : Prop := {
  peer_keys : NoDup (List.map peer_id (client_peers db));
  space_keys : NoDup (List.map space_key (client_peer_spaces db));
  spaces_valid : Forall (fun row => peer_space_constraints row = true
    /\ peer_configured db (pull_peer_id row) = true) (client_peer_spaces db);
  delivery_keys : NoDup (List.map delivery_key (client_deliveries db));
  deliveries_valid : Forall (fun row => delivery_constraints row = true
    /\ peer_configured db (delivery_peer_id row) = true
    /\ operation_stored db (delivery_operation_id row) = true) (client_deliveries db);
  resource_keys : NoDup (List.map resource_content_id (client_resources db));
  resources_valid : Forall (fun row => column_i64 (resource_byte_length row) = true) (client_resources db);
  transfer_keys : NoDup (List.map transfer_key (client_resource_transfers db));
  transfers_valid : Forall (fun row => transfer_constraints row = true
    /\ peer_configured db (transfer_peer_id row) = true
    /\ exists resource, resource ∈ client_resources db
       /\ resource_content_id resource = transfer_content_id row
       /\ transfer_bytes row resource) (client_resource_transfers db)
}.

Record client_ok (db : ClientDatabase) : Prop := {
  client_log : log_ok db;
  client_queues : queues_ok db
}.

Lemma fresh_client_ok : client_ok fresh_client.
Proof.
  split; split; cbn; try constructor; try done. all: intros row []%not_elem_of_nil.
Qed.

(** ** Statements on the queues *)
Implicit Types (db : ClientDatabase).

Lemma log_ok_ext db db' :
  client_last_sequence db' = client_last_sequence db -> client_operations db' = client_operations db ->
  client_operation_parents db' = client_operation_parents db ->
  client_operation_authorizations db' = client_operation_authorizations db -> log_ok db -> log_ok db'.
Proof.
  intros El Eo Ep Ea []. split; unfold row_listed, precedes in *; rewrite ?El, ?Eo, ?Ep, ?Ea; done.
Qed.

Lemma has_peer_eq id row : has_peer id row = true <-> peer_id row = id.
Proof. apply list_eqb_eq. Qed.
Lemma has_operation_eq id row : has_operation id row = true <-> op_operation_id row = id.
Proof. apply list_eqb_eq. Qed.
Lemma has_content_eq id row : has_content id row = true <-> resource_content_id row = id.
Proof. apply list_eqb_eq. Qed.
Lemma has_delivery_eq peer operation row :
  has_delivery peer operation row = true <-> delivery_key row = (peer, operation).
Proof.
  unfold has_delivery, delivery_key. rewrite andb_true_iff, !list_eqb_eq. split; [by intros [-> ->]|].
  by intros [= -> ->].
Qed.
Lemma has_peer_space_eq peer space row :
  has_peer_space peer space row = true <-> space_key row = (peer, space).
Proof.
  unfold has_peer_space, space_key. rewrite andb_true_iff, !list_eqb_eq. split; [by intros [-> ->]|].
  by intros [= -> ->].
Qed.
Lemma has_transfer_eq peer content direction row :
  has_transfer peer content direction row = true <-> transfer_key row = (peer, content, direction).
Proof.
  unfold has_transfer, transfer_key, in_direction. rewrite !andb_true_iff, !list_eqb_eq, bool_decide_eq_true.
  split; [by intros [[-> ->] ->]|]. by intros [= -> -> ->].
Qed.

(** Rows that satisfy a predicate, written as booleans. *)
Lemma peer_configured_true db id :
  peer_configured db id = true <-> exists row, row ∈ client_peers db /\ peer_id row = id.
Proof. unfold peer_configured. rewrite exists_row_true. by setoid_rewrite has_peer_eq. Qed.
Lemma operation_stored_true db id :
  operation_stored db id = true <-> exists row, row ∈ client_operations db /\ op_operation_id row = id.
Proof. unfold operation_stored. rewrite exists_row_true. by setoid_rewrite has_operation_eq. Qed.

Lemma deliveries_update db condition change :
  client_ok db -> (forall row, delivery_key (change row) = delivery_key row) ->
  Forall (fun row => condition row = true -> delivery_constraints (change row) = true) (client_deliveries db) ->
  client_ok (with_deliveries db (update_rows condition change (client_deliveries db))).
Proof.
  intros [Hl [? ? ? Hk Hv ? ? ? ?]] Hkey Hc. split; [by eapply log_ok_ext; [..|exact Hl]|].
  split; cbn; try done.
  - by rewrite map_update.
  - rewrite Forall_forall in Hv, Hc. apply Forall_forall. intros row' (row & Hin & ->)%elem_of_update.
    specialize (Hv row Hin) as (Hd & Hp & Ho). destruct (condition row) eqn:E; [|done].
    specialize (Hkey row). injection Hkey as Ep Eo. rewrite Ep, Eo. by repeat split; [apply Hc|..].
Qed.

Lemma transfers_update db condition change :
  client_ok db -> (forall row, transfer_key (change row) = transfer_key row) ->
  Forall (fun row => condition row = true -> transfer_constraints (change row) = true)
    (client_resource_transfers db) ->
  (forall row resource, row ∈ client_resource_transfers db -> condition row = true ->
    resource ∈ client_resources db -> resource_content_id resource = transfer_content_id row ->
    transfer_bytes row resource -> transfer_bytes (change row) resource) ->
  client_ok (with_transfers db (update_rows condition change (client_resource_transfers db))).
Proof.
  intros [Hl [? ? ? ? ? ? ? Hk Hv]] Hkey Hc Hb. split; [by eapply log_ok_ext; [..|exact Hl]|].
  split; cbn; try done.
  - by rewrite map_update.
  - rewrite Forall_forall in Hv, Hc. apply Forall_forall. intros row' (row & Hin & ->)%elem_of_update.
    specialize (Hv row Hin) as (Hd & Hp & resource & Hr & Hid & Hle). destruct (condition row) eqn:E.
    + specialize (Hkey row). injection Hkey as Ep Ec _. rewrite Ep, Ec. split; [by apply Hc|split; [done|]].
      exists resource. split; [done|split; [done|]]. by apply Hb.
    + split; [done|split; [done|]]. by exists resource.
Qed.

Lemma spaces_update db condition change :
  client_ok db -> (forall row, space_key (change row) = space_key row) ->
  Forall (fun row => condition row = true -> peer_space_constraints (change row) = true) (client_peer_spaces db) ->
  client_ok (with_peer_spaces db (update_rows condition change (client_peer_spaces db))).
Proof.
  intros [Hl [? Hk Hv ? ? ? ? ? ?]] Hkey Hc. split; [by eapply log_ok_ext; [..|exact Hl]|].
  split; cbn; try done.
  - by rewrite map_update.
  - rewrite Forall_forall in Hv, Hc. apply Forall_forall. intros row' (row & Hin & ->)%elem_of_update.
    specialize (Hv row Hin) as (Hd & Hp). destruct (condition row) eqn:E; [|done].
    specialize (Hkey row). injection Hkey as Ep _. rewrite Ep. by split; [apply Hc|].
Qed.

Lemma resources_update db condition change :
  client_ok db ->
  (forall row, resource_content_id (change row) = resource_content_id row
               /\ resource_byte_length (change row) = resource_byte_length row) ->
  client_ok (with_resources db (update_rows condition change (client_resources db))).
Proof.
  intros [Hl [? ? ? ? ? Hk Hr ? Hv]] Hkey. split; [by eapply log_ok_ext; [..|exact Hl]|].
  split; cbn; try done.
  - rewrite map_update; [done|]. intros row. apply Hkey.
  - apply Forall_update; [done|]. intros row Hc _. by rewrite (proj2 (Hkey row)).
  - rewrite Forall_forall in Hv. apply Forall_forall. intros row Hin.
    specialize (Hv row Hin) as (Hd & Hp & resource & Hres & Hid & Hle). split; [done|split; [done|]].
    exists (if condition resource then change resource else resource). split; [apply elem_of_update; eauto|].
    destruct (condition resource); [|done]. destruct (Hkey resource) as [Ei Eb]. unfold transfer_bytes.
    by rewrite Ei, Eb.
Qed.

(** Appending a row that a constraint checked. *)
Lemma deliveries_insert db row :
  client_ok db -> exists_row (has_delivery (delivery_peer_id row) (delivery_operation_id row)) (client_deliveries db) = false ->
  delivery_constraints row = true -> peer_configured db (delivery_peer_id row) = true ->
  operation_stored db (delivery_operation_id row) = true ->
  client_ok (with_deliveries db (client_deliveries db ++ [row])).
Proof.
  intros [Hl [? ? ? Hk Hv ? ? ? ?]] Hx Hc Hp Ho. split; [by eapply log_ok_ext; [..|exact Hl]|].
  split; cbn; try done.
  - apply NoDup_key_snoc; [done|]. intros other Hin E. rewrite exists_row_false in Hx.
    specialize (Hx other Hin). by rewrite (proj2 (has_delivery_eq _ _ other) E) in Hx.
  - apply Forall_app. split; [done|]. by repeat constructor.
Qed.

Lemma transfers_insert db row :
  client_ok db ->
  exists_row (has_transfer (transfer_peer_id row) (transfer_content_id row) (transfer_direction row))
    (client_resource_transfers db) = false ->
  transfer_constraints row = true -> peer_configured db (transfer_peer_id row) = true ->
  (exists resource, resource ∈ client_resources db /\ resource_content_id resource = transfer_content_id row
     /\ transfer_bytes row resource) ->
  client_ok (with_transfers db (client_resource_transfers db ++ [row])).
Proof.
  intros [Hl [? ? ? ? ? ? ? Hk Hv]] Hx Hc Hp Hr. split; [by eapply log_ok_ext; [..|exact Hl]|].
  split; cbn; try done.
  - apply NoDup_key_snoc; [done|]. intros other Hin E. rewrite exists_row_false in Hx.
    specialize (Hx other Hin). by rewrite (proj2 (has_transfer_eq _ _ _ other) E) in Hx.
  - apply Forall_app. split; [done|]. by repeat constructor.
Qed.

Lemma spaces_insert db row :
  client_ok db -> exists_row (has_peer_space (pull_peer_id row) (pull_space_id row)) (client_peer_spaces db) = false ->
  peer_space_constraints row = true -> peer_configured db (pull_peer_id row) = true ->
  client_ok (with_peer_spaces db (client_peer_spaces db ++ [row])).
Proof.
  intros [Hl [? Hk Hv ? ? ? ? ? ?]] Hx Hc Hp. split; [by eapply log_ok_ext; [..|exact Hl]|].
  split; cbn; try done.
  - apply NoDup_key_snoc; [done|]. intros other Hin E. rewrite exists_row_false in Hx.
    specialize (Hx other Hin). by rewrite (proj2 (has_peer_space_eq _ _ other) E) in Hx.
  - apply Forall_app. split; [done|]. by repeat constructor.
Qed.

Lemma resources_insert db row :
  client_ok db -> exists_row (has_content (resource_content_id row)) (client_resources db) = false ->
  column_i64 (resource_byte_length row) = true ->
  client_ok (with_resources db (client_resources db ++ [row])).
Proof.
  intros [Hl [? ? ? ? ? Hk Hr ? Hv]] Hx Hc. split; [by eapply log_ok_ext; [..|exact Hl]|].
  split; cbn; try done.
  - apply NoDup_key_snoc; [done|]. intros other Hin E. rewrite exists_row_false in Hx.
    specialize (Hx other Hin). by rewrite (proj2 (has_content_eq _ other) E) in Hx.
  - apply Forall_app. by repeat constructor.
  - eapply Forall_impl; [exact Hv|]. cbn. intros t (H1' & H2' & resource & Hin & Hi & Hle).
    split; [done|split; [done|]]. exists resource. split; [apply elem_of_app; by left|done].
Qed.

(** The peers with the same identities, or more. *)
Lemma peers_change db rows :
  client_ok db -> NoDup (List.map peer_id rows) ->
  (forall id, peer_configured db id = true -> exists_row (has_peer id) rows = true) ->
  client_ok (with_peers db rows).
Proof.
  intros [Hl [Hk ? Hs ? Hd ? ? ? Ht]] Hn Hin. split; [by eapply log_ok_ext; [..|exact Hl]|].
  split; cbn; try done.
  - eapply Forall_impl; [exact Hs|]. cbn. intros row [? Hp]. split; [done|]. by apply Hin.
  - eapply Forall_impl; [exact Hd|]. cbn. intros row (? & Hp & ?). repeat split; try done. by apply Hin.
  - eapply Forall_impl; [exact Ht|]. cbn. intros row (? & Hp & ?). repeat split; try done. by apply Hin.
Qed.

Lemma peers_update db condition change :
  client_ok db -> (forall row, peer_id (change row) = peer_id row) ->
  client_ok (with_peers db (update_rows condition change (client_peers db))).
Proof.
  intros Hok Hkey. apply peers_change; [done|..].
  - rewrite map_update by done. apply Hok.
  - intros id Hp. rewrite exists_update; [done|]. intros row. unfold has_peer. by rewrite Hkey.
Qed.

(** The tables the invariant does not read. *)
Lemma links_ok db rows : client_ok db -> client_ok (with_links db rows).
Proof. intros [Hl []]. split; [by eapply log_ok_ext; [..|exact Hl]|]. by split. Qed.
Lemma workspaces_ok db installation workspaces active :
  client_ok db -> client_ok (with_workspaces db installation workspaces active).
Proof. intros [Hl []]. split; [by eapply log_ok_ext; [..|exact Hl]|]. by split. Qed.
Lemma derived_ok db heads visibility projections :
  client_ok db ->
  client_ok (with_derived db (client_operation_parents db) (client_operation_authorizations db)
               heads visibility projections).
Proof. intros [Hl []]. split; [by eapply log_ok_ext; [..|exact Hl]|]. by split. Qed.

(** ** Keeping the invariant *)
Definition keeps {A} (m : T A) : Prop := forall db, client_ok db -> wp m db (fun _ => client_ok).

Lemma wp_keeps {A} (m : T A) db (Q : A -> ClientDatabase -> Prop) :
  keeps m -> client_ok db -> (forall a db', client_ok db' -> Q a db') -> wp m db Q.
Proof. intros Hm Hok HQ. eapply wp_mono; [by apply Hm|]. intros a db' H'. by apply HQ. Qed.

Lemma keeps_each {A} (f : A -> T unit) l : (forall a, a ∈ l -> keeps (f a)) -> keeps (each f l).
Proof. intros Hf db Hok. apply (wp_each f client_ok); [done| |done]. intros a db1 Ha. by apply Hf. Qed.

Lemma keeps_update_deliveries condition change :
  (forall row, delivery_key (change row) = delivery_key row) -> keeps (update_deliveries condition change).
Proof. intros Hk db Hok. apply wp_update_deliveries. intros Hc. by apply deliveries_update. Qed.

Lemma keeps_update_spaces condition change :
  (forall row, space_key (change row) = space_key row) -> keeps (update_peer_spaces condition change).
Proof. intros Hk db Hok. apply wp_update_peer_spaces. intros Hc. by apply spaces_update. Qed.

(** An update that completes nothing and does not raise the bytes moved. *)
Lemma keeps_update_transfers condition change :
  (forall row, transfer_key (change row) = transfer_key row) ->
  (forall row, transfer_constraints row = true ->
    transfer_transferred_bytes (change row) <= transfer_transferred_bytes row
    /\ transfer_state (change row) <> TransferState.Complete) ->
  keeps (update_transfers condition change).
Proof.
  intros Hk Hb db Hok. apply wp_update_transfers. intros Hc. apply transfers_update; [done..|].
  intros row resource Hin _ _ _ [Hle _]. destruct Hok as [_ [? ? ? ? ? ? ? _ Hv]]. rewrite Forall_forall in Hv.
  specialize (Hv row Hin) as [Hr _]. specialize (Hb row Hr) as [Hb Hs]. split; [lia|done].
Qed.

Lemma keeps_insert_delivery row : keeps (insert_or_ignore_delivery row).
Proof.
  intros db Hok. unfold insert_or_ignore_delivery. wp_run; [done|]. bool_prop.
  by apply deliveries_insert.
Qed.

(** A transfer of no bytes. *)
Lemma keeps_insert_transfer row :
  transfer_transferred_bytes row = 0 -> transfer_state row <> TransferState.Complete ->
  keeps (insert_or_ignore_transfer row).
Proof.
  intros Hz Hs db Hok. unfold insert_or_ignore_transfer. wp_run; [done|]. bool_prop.
  apply transfers_insert; try done.
  match goal with Hx : exists_row (has_content _) _ = true |- _ =>
    apply exists_row_true in Hx as (resource & Hin & Hc%has_content_eq) end.
  exists resource. split; [done|split; [done|]]. split; [|done]. destruct Hok as [_ [? ? ? ? ? ? Hr ? ?]].
  rewrite Forall_forall in Hr. specialize (Hr resource Hin). unfold column_i64 in Hr. bool_prop. lia.
Qed.

Lemma keeps_queued_upload peer resource at_ : keeps (insert_or_ignore_transfer (queued_upload peer resource at_)).
Proof. apply keeps_insert_transfer; [done|]. cbn. by destruct (locally_available resource). Qed.

Lemma keeps_queue_operations peer condition next : keeps (queue_operations peer condition next).
Proof.
  intros db Hok. unfold queue_operations. wp_run. apply keeps_each; [|done]. intros row _.
  apply keeps_insert_delivery.
Qed.
Lemma keeps_queue_resource_uploads content at_ excluded : keeps (queue_resource_uploads content at_ excluded).
Proof.
  intros db Hok. unfold queue_resource_uploads. wp_run. apply keeps_each; [|done]. intros peer _.
  apply keeps_each. intros resource _. apply keeps_queued_upload.
Qed.
Lemma keeps_queue_known_resources peer at_ : keeps (queue_known_resources_for_peer peer at_).
Proof.
  intros db Hok. unfold queue_known_resources_for_peer. wp_run. apply keeps_each; [|done]. intros resource _.
  apply keeps_queued_upload.
Qed.
Lemma keeps_queue_known_resources_space peer space at_ : keeps (queue_known_resources_for_peer_space peer space at_).
Proof.
  intros db Hok. unfold queue_known_resources_for_peer_space. wp_run. apply keeps_each; [|done]. intros resource _.
  apply keeps_queued_upload.
Qed.
Hint Resolve keeps_insert_delivery keeps_queue_operations keeps_queue_resource_uploads
  keeps_queue_known_resources keeps_queue_known_resources_space peers_update workspaces_ok links_ok : client.

Hint Extern 1 (keeps (update_deliveries _ _)) => by apply keeps_update_deliveries : client.
Hint Extern 1 (keeps (update_peer_spaces _ _)) => by apply keeps_update_spaces : client.

(** Runs a transaction whose statements keep the invariant. *)
Ltac keep :=
  repeat (first
    [ eassumption
    | eapply wp_keeps; [solve [eauto with client]|eassumption|intros ? ? ?]
    | wp_step; cbv beta ]).

Lemma keeps_finish_delivery peer operation lease state at_ text :
  keeps (finish_delivery peer operation lease state at_ text).
Proof.
  intros db Hok. unfold finish_delivery. keep.
Qed.

Lemma keeps_release_lease peer lease : keeps (release_lease peer lease).
Proof. by apply keeps_update_deliveries. Qed.

Lemma keeps_lease_one peer lease expires id : keeps (lease_one peer lease expires id).
Proof.
  intros db Hok. unfold lease_one. keep.
Qed.

Lemma keeps_lease_due peer now duration limit lease : keeps (lease_due peer now duration limit lease).
Proof.
  intros db Hok. unfold lease_due. wp_run. apply (wp_collect_items _ client_ok); [done| |done].
  intros row db1 _. apply keeps_lease_one.
Qed.

Lemma keeps_upsert_peer_space config : keeps (upsert_peer_space config).
Proof.
  intros db Hok. unfold upsert_peer_space. destruct (read_mode_columns _) as [[mode session] grant].
  keep. bool_prop. by apply spaces_insert.
Qed.
Hint Resolve keeps_upsert_peer_space : client.

Lemma keeps_configure_peer_space config : keeps (configure_peer_space config).
Proof. intros db Hok. unfold configure_peer_space. keep. Qed.

Lemma keeps_requeue peer space now : keeps (requeue_unacknowledged_peer_space peer space now).
Proof.
  intros db Hok. unfold requeue_unacknowledged_peer_space. 
  assert (keeps (update_transfers (fun row =>
      list_eqb (transfer_peer_id row) peer && in_direction ResourceTransferDirection.Upload row
      && negb (in_transfer_state TransferState.Complete row)
      && content_in_space db space (transfer_content_id row))
    (requeued_transfer db now))).
  { apply keeps_update_transfers; [done|]. intros row Hr. unfold transfer_constraints, column_i64 in Hr.
    bool_prop. cbn. split; [lia|]. by destruct (exists_row _ _). }
  keep.
Qed.

Lemma keeps_advance peer space expected next pulled_at next_pull :
  keeps (advance_pull_cursor peer space expected next pulled_at next_pull).
Proof.
  intros db Hok. unfold advance_pull_cursor. keep.
Qed.
Lemma keeps_pull_failure peer space expected next_pull text :
  keeps (record_pull_failure peer space expected next_pull text).
Proof.
  intros db Hok. unfold record_pull_failure. keep.
Qed.

Lemma keeps_upsert_peer peer : keeps (upsert_peer peer).
Proof.
  intros db Hok. unfold upsert_peer. do 4 (wp_step; cbv beta). wp_step; cbv beta. wp_step. cbv beta.
  assert (Hok' : client_ok (with_peers db
    (if peer_configured db (peer_id peer)
     then update_rows (has_peer (peer_id peer)) (reconfigured peer) (client_peers db)
     else client_peers db ++ [peer]))).
  { destruct (peer_configured db (peer_id peer)) eqn:E; [by apply peers_update|].
    apply peers_change; [done|..].
    - apply NoDup_key_snoc; [apply Hok|]. intros other Hin Ho. unfold peer_configured in E.
      rewrite exists_row_false in E. specialize (E other Hin).
      by rewrite (proj2 (has_peer_eq _ other) Ho) in E.
    - intros id Hid. rewrite exists_app. by apply orb_true_iff; left. }
  keep.
Qed.

Lemma keeps_set_peer_enabled id value : keeps (set_peer_enabled id value).
Proof.
  intros db Hok. unfold set_peer_enabled. do 4 (wp_step; cbv beta). wp_step; cbv beta. wp_step; cbv beta.
  assert (Hok' : client_ok (with_peers db (update_rows (has_peer id) (set_enabled value) (client_peers db))))
    by by apply peers_update.
  keep.
Qed.

(** ** Transfers *)
Lemma resource_of_content db content resource :
  client_ok db -> query_row (has_content content) (client_resources db) = Some resource ->
  forall r, r ∈ client_resources db -> resource_content_id r = content -> r = resource.
Proof.
  intros [_ [? ? ? ? ? Hk ? ? ?]] [Hin Hc%has_content_eq]%query_row_Some r Hr Hrc.
  apply (NoDup_key_inj resource_content_id (client_resources db)); [done..|]. by rewrite Hrc.
Qed.

Lemma keeps_settle db content byte_length at_ (Q : unit -> _ -> Prop) :
  client_ok db ->
  (forall r, r ∈ client_resources db -> resource_content_id r = content -> resource_byte_length r = byte_length) ->
  (forall db', client_ok db' -> Q tt db') ->
  wp (settle_transfers content byte_length at_) db Q.
Proof.
  intros Hok Hlen HQ. unfold settle_transfers. wp_step. apply wp_update_transfers. intros Hc.
  wp_step. eapply wp_keeps; [by apply keeps_update_transfers| |].
  2:{ intros n db' Hok'. wp_run. by apply HQ. }
  apply transfers_update; [done..|]. intros row resource _ Hrow Hr Hid _. cbn.
  apply andb_true_iff in Hrow as [[Hcontent%list_eqb_eq _]%andb_true_iff _].
  unfold transfer_bytes. cbn. rewrite (Hlen resource Hr); [split; [lia|done]|congruence].
Qed.

Lemma keeps_update_resources condition change :
  (forall row, resource_content_id (change row) = resource_content_id row
               /\ resource_byte_length (change row) = resource_byte_length row) ->
  keeps (update_resources condition change).
Proof. intros Hk db Hok. apply wp_update_resources. by apply resources_update. Qed.

(** A descriptor that one row has: it is the row of the content. *)
Lemma single_resource db content byte_length :
  client_ok db ->
  count_rows (fun row => has_content content row && (resource_byte_length row =? byte_length)) (client_resources db) = 1 ->
  forall r, r ∈ client_resources db -> resource_content_id r = content -> resource_byte_length r = byte_length.
Proof.
  intros Hok Hcount r Hr Hc.
  assert (exists a, a ∈ client_resources db /\ has_content content a && (resource_byte_length a =? byte_length) = true)
    as (a & Ha & [Hac%has_content_eq Hlen%Z.eqb_eq]%andb_true_iff).
  { apply exists_row_true. unfold count_rows in Hcount.
    destruct (exists_row _ _) eqn:E in |- *; [done|]. rewrite exists_row_false in E.
    replace (select _ _) with (@nil ResourceRow) in Hcount; [done|]. symmetry. apply elem_of_nil_inv.
    intros b [Hb Hx]%elem_of_select. by rewrite (E b Hb) in Hx. }
  rewrite (NoDup_key_inj resource_content_id (client_resources db) r a); [done|apply Hok|done..|congruence].
Qed.

Lemma keeps_mark_resource_local descriptor at_ : keeps (mark_resource_local descriptor at_).
Proof.
  intros db Hok. unfold mark_resource_local. do 3 (wp_step; cbv beta). wp_step; cbv beta.
  wp_step; cbv beta. wp_step; cbv beta. wp_step; cbv beta. wp_step; cbv beta.
  match goal with Hx : negb (_ =? 1) = false |- _ => apply negb_false_iff, Z.eqb_eq in Hx; rename Hx into Hcount end.
  apply (keeps_settle _ _ _ _ (fun _ => client_ok)); [by apply resources_update| |done].
  cbn. intros r' (r & Hr & ->)%elem_of_update.
  pose proof (single_resource db _ _ Hok Hcount r Hr) as Hs. destruct (_ && _); cbn; done.
Qed.
Hint Extern 1 (keeps (update_resources _ _)) => by apply keeps_update_resources : client.
Hint Extern 1 (keeps (update_transfers _ _)) => by apply keeps_update_transfers : client.

Lemma keeps_record_progress peer content direction lease bytes url :
  keeps (record_resource_progress peer content direction lease bytes url).
Proof.
  intros db Hok. unfold record_resource_progress. do 5 (wp_step; cbv beta).
  apply wp_update_transfers. intros Hc. wp_step; cbv beta.
  apply transfers_update; [done..|]. intros row resource _ Hrow Hr Hid _.
  apply andb_true_iff in Hrow as [Hrow Hle].
  assert (resource_content_id resource = content) as Hcontent.
  { unfold holds_transfer in Hrow. apply andb_true_iff in Hrow as [[Hkey%has_transfer_eq _]%andb_true_iff _].
    injection Hkey as _ Hkey _. congruence. }
  destruct (query_row (has_content content) (client_resources db)) as [found|] eqn:Eq; [|done].
  rewrite (resource_of_content _ _ _ Hok Eq resource Hr Hcontent). bool_prop. split; cbn; [lia|].
  unfold holds_transfer, in_transfer_state in Hrow. bool_prop. congruence.
Qed.

Lemma holds_transfer_content peer content direction lease row :
  holds_transfer peer content direction lease row = true -> transfer_content_id row = content.
Proof.
  unfold holds_transfer. intros [[Hkey%has_transfer_eq _]%andb_true_iff _]%andb_true_iff.
  by injection Hkey as _ -> _.
Qed.

Lemma keeps_finish_transfer peer content direction lease state at_ text :
  keeps (finish_resource_transfer peer content direction lease state at_ text).
Proof.
  intros db Hok. unfold finish_resource_transfer. do 6 (wp_step; cbv beta). wp_step.
  apply wp_update_transfers. intros Hc.
  assert (Hok' : client_ok (with_transfers db (update_rows (holds_transfer peer content direction lease)
    (finished_transfer db content state at_ text) (client_resource_transfers db)))).
  { apply transfers_update; [done..|]. intros row resource Hin Hrow Hr Hid [Hle _]. unfold transfer_bytes. cbn.
    destruct (bool_decide_reflect (state = TransferState.Complete)) as [_|Hs]; [|done].
    destruct (query_row (has_content content) (client_resources db)) as [found|] eqn:Eq.
    - rewrite (resource_of_content _ _ _ Hok Eq resource Hr); [split; [lia|done]|].
      by rewrite Hid, (holds_transfer_content _ _ _ _ _ Hrow).
    - exfalso. rewrite query_row_None in Eq. specialize (Eq resource Hr). apply not_true_iff_false in Eq.
      apply Eq, has_content_eq. by rewrite Hid, (holds_transfer_content _ _ _ _ _ Hrow). }
  cbv beta. wp_step. wp_step. wp_step; [|by wp_step]. wp_step. wp_step. wp_step.
  apply wp_lift. intros resource Er. wp_step. apply wp_lift. intros byte_length El. wp_step.
  apply wp_update_resources. cbn [with_transfers with_queues client_resources] in Er |- *.
  eapply keeps_settle; [by apply (resources_update _ _ _ Hok')| |done].
  cbn. intros r' (r & Hr & ->)%elem_of_update Hid.
  unfold require_row in Er. destruct (query_row _ _) as [found|] eqn:Eq; [|done]. injection Er as ->.
  assert (r = resource) as ->.
  { apply (resource_of_content _ _ _ Hok Eq r Hr). by destruct (has_content content r). }
  unfold nonnegative_u64 in El. destruct (0 <=? _); [injection El as <-|done].
  by destruct (has_content content resource).
Qed.

Lemma keeps_continue peer content direction lease at_ :
  keeps (continue_resource_transfer peer content direction lease at_).
Proof.
  intros db Hok. unfold continue_resource_transfer.
  assert (keeps (update_transfers (holds_transfer peer content direction lease) (continued_transfer at_)))
    by (by apply keeps_update_transfers).
  keep.
Qed.

Lemma keeps_wait peer content lease at_ text : keeps (wait_for_local_resource peer content lease at_ text).
Proof.
  intros db Hok. unfold wait_for_local_resource.
  assert (keeps (update_transfers (holds_transfer peer content ResourceTransferDirection.Upload lease)
    (waiting_transfer at_ text))) by (by apply keeps_update_transfers).
  keep.
Qed.

Lemma keeps_lease_resources now duration limit lease : keeps (lease_due_resources now duration limit lease).
Proof.
  intros db Hok. unfold lease_due_resources.
  assert (Hone : forall expires row, keeps (lease_one_transfer lease expires row)).
  { intros expires row db1 Hok1. unfold lease_one_transfer.
    assert (keeps (update_transfers
      (has_transfer (transfer_peer_id row) (transfer_content_id row) (transfer_direction row))
      (leased_transfer lease expires))) by (by apply keeps_update_transfers).
    keep. }
  wp_run. apply (wp_collect_items _ client_ok); [done| |done]. intros row db1 _. apply Hone.
Qed.

(** ** The sources of a commit *)
Lemma keeps_record_source peer id at_ : keeps (record_source peer id at_).
Proof.
  intros db Hok. unfold record_source. keep. bool_prop. by apply deliveries_insert.
Qed.
Hint Resolve keeps_record_source : client.

Lemma keeps_delivery_source id at_ source : keeps (apply_delivery_source id at_ source).
Proof.
  intros db Hok. unfold apply_delivery_source. wp_step; cbv beta.
  assert (Heach : forall rows, keeps (each (fun other => insert_or_ignore_delivery
    (pending_delivery (peer_id other) id at_)) rows)).
  { intros rows. apply keeps_each. intros other _. apply keeps_insert_delivery. }
  keep.
Qed.

Lemma keeps_one_resource at_ source resource : keeps (apply_one_resource at_ source resource).
Proof.
  intros db Hok. unfold apply_one_resource. destruct source as [| |source]; [..|].
  - wp_step; cbv beta. wp_step. cbv beta.
    assert (client_ok (with_resources db (update_rows (has_content (ResourceRef.content_id resource))
      expected_locally (client_resources db)))) by (by apply resources_update).
    keep.
  - keep.
  - wp_step; cbv beta. wp_step; cbv beta. wp_step; cbv beta. apply wp_lift. intros row Er.
    wp_step; cbv beta. apply wp_lift. intros config Ep. wp_step; cbv beta. wp_step; [|keep].
    eapply wp_mono with (P := fun _ => client_ok); [|intros [] db' Hok'; keep].
    unfold insert_or_ignore_transfer. wp_run; [done|]. bool_prop. apply transfers_insert; try done.
    unfold require_row in Er. destruct (query_row _ _) as [found|] eqn:Eq; [|done]. injection Er as ->.
    apply query_row_Some in Eq as [Hin Hid%has_content_eq]. exists row. split; [done|split; [done|]]. unfold transfer_bytes. cbn.
    destruct (locally_available row); [split; [lia|done]|]. split; [|done]. destruct Hok as [_ [? ? ? ? ? ? Hr ? ?]].
    rewrite Forall_forall in Hr. specialize (Hr row Hin). unfold column_i64 in Hr. bool_prop. lia.
Qed.

Lemma keeps_sources operation at_ source : keeps (apply_sources operation at_ source).
Proof.
  intros db Hok. unfold apply_sources. wp_step. eapply wp_keeps; [apply keeps_delivery_source|done|].
  intros [] db1 Hok1. apply keeps_each; [|done]. intros resource _. apply keeps_one_resource.
Qed.

Lemma keeps_insert_resource id at_ position resource : keeps (insert_resource id at_ position resource).
Proof.
  intros db Hok. unfold insert_resource. wp_step; cbv beta. apply wp_lift. intros byte_length Eb.
  wp_step; cbv beta. wp_step. wp_step. 
  eapply wp_mono with (P := fun _ => client_ok).
  - wp_step; [by wp_step|]. wp_step. bool_prop. by apply resources_insert.
  - intros [] db1 Hok1. keep. by apply links_ok.
Qed.

Lemma keeps_operation_resources operation at_ : keeps (insert_operation_resources operation at_).
Proof.
  intros db Hok. apply (wp_each_at _ client_ok); [done| |done]. intros i resource db1 _.
  apply keeps_insert_resource.
Qed.

(** ** The graph of a commit *)
Fixpoint reference_rows (id : list Z) (position : Z) (references : list (list Z)) : list ReferenceRow :=
  match references with
  | [] => []
  | referenced :: references =>
      mkReferenceRow id referenced position :: reference_rows id (position + 1) references
  end.

Lemma elem_of_reference_rows id n refs row :
  row ∈ reference_rows id n refs -> reference_operation_id row = id /\ referenced_operation_id row ∈ refs.
Proof.
  revert n. induction refs as [|r refs IH]; intros n; [by intros []%not_elem_of_nil|].
  intros [->|Hin]%elem_of_cons; [split; [done|by left]|]. apply IH in Hin as [? ?]. split; [done|by right].
Qed.

Lemma reference_rows_listed id n refs r rows :
  r ∈ refs -> listed (rows ++ reference_rows id n refs) id r.
Proof.
  intros Hr. enough (exists p, mkReferenceRow id r p ∈ reference_rows id n refs) as [p Hp].
  { exists p. apply elem_of_app. by right. }
  revert n. induction refs as [|r' refs IH]; intros n; [by apply not_elem_of_nil in Hr|].
  apply elem_of_cons in Hr as [->|Hr].
  - exists n. by left.
  - destruct (IH Hr (n + 1)) as [p Hp]. exists p. by right.
Qed.

Definition head_row (o : OperationEnvelope.t) : HeadRow :=
  mkHeadRow (OperationEnvelope.space_id o) (OperationEnvelope.entity_id o) (OperationEnvelope.schema o)
    (OperationEnvelope.operation_id o).

(** The heads after an operation: its parents are consumed, it is a head. *)
Definition heads_with (o : OperationEnvelope.t) (heads : list HeadRow) : list HeadRow :=
  delete_rows (fun row => contains (head_id row) (OperationEnvelope.causal_parents o)) heads ++ [head_row o].

Definition graph_inserted (o : OperationEnvelope.t) (db : ClientDatabase) : ClientDatabase :=
  with_derived db
    (client_operation_parents db
     ++ reference_rows (OperationEnvelope.operation_id o) 0 (OperationEnvelope.causal_parents o))
    (client_operation_authorizations db
     ++ reference_rows (OperationEnvelope.operation_id o) 0 (OperationEnvelope.authorization o))
    (heads_with o (client_entity_heads db)) (client_entity_visibility db) (client_projections db).

Lemma insert_parents_wp o ps : forall n db (Q : unit -> _ -> Prop),
  ((forall p, p ∈ ps -> operation_stored db p = true /\ p <> OperationEnvelope.operation_id o) ->
   Q tt (with_derived db
           (client_operation_parents db ++ reference_rows (OperationEnvelope.operation_id o) n ps)
           (client_operation_authorizations db)
           (delete_rows (fun row => contains (head_id row) ps) (client_entity_heads db))
           (client_entity_visibility db) (client_projections db))) ->
  wp (each_at (insert_parent o) n ps) db Q.
Proof.
  induction ps as [|p ps IH]; intros n db Q HQ.
  - apply wp_ret. cbn in HQ. rewrite app_nil_r, delete_rows_none in HQ by done. destruct db.
    apply HQ. intros p []%not_elem_of_nil.
  - cbn [each_at]. wp_step. unfold insert_parent. wp_run. bool_prop. apply IH. intros Hps.
    assert (Hnew : forall q, q ∈ p :: ps -> operation_stored db q = true /\ q <> OperationEnvelope.operation_id o).
    { intros q [->|Hq]%elem_of_cons; [|by apply Hps]. split; [done|]. intros ->.
      match goal with Hx : list_eqb _ _ = false |- _ => by apply list_eqb_neq in Hx end. }
    specialize (HQ Hnew).
    rewrite (delete_rows_ext _ (fun row => is_head p row || contains (head_id row) ps)), <- delete_rows_twice in HQ.
    + cbn [reference_rows] in HQ. rewrite cons_middle, app_assoc in HQ. exact HQ.
    + intros row. unfold is_head, contains, list_eqb. rewrite <- bool_decide_or. apply bool_decide_ext.
      by rewrite elem_of_cons.
Qed.

Lemma insert_authorizations_wp o refs : forall n db (Q : unit -> _ -> Prop),
  ((forall a, a ∈ refs -> operation_stored db a = true) ->
   Q tt (with_authorizations db (client_operation_authorizations db
           ++ reference_rows (OperationEnvelope.operation_id o) n refs))) ->
  wp (each_at (insert_authorization o) n refs) db Q.
Proof.
  induction refs as [|a refs IH]; intros n db Q HQ.
  - apply wp_ret. cbn in HQ. unfold with_authorizations in HQ. rewrite app_nil_r in HQ. destruct db.
    apply HQ. intros a []%not_elem_of_nil.
  - cbn [each_at]. wp_step. unfold insert_authorization. wp_run. bool_prop. apply IH. intros Hrefs.
    cbn [reference_rows] in HQ. rewrite cons_middle, app_assoc in HQ. apply HQ.
    intros b [->|Hb]%elem_of_cons; [done|by apply Hrefs].
Qed.

Lemma insert_graph_wp o db (Q : unit -> _ -> Prop) :
  ((forall p, p ∈ OperationEnvelope.causal_parents o ->
      operation_stored db p = true /\ p <> OperationEnvelope.operation_id o) ->
   (forall a, a ∈ OperationEnvelope.authorization o -> operation_stored db a = true) ->
   Q tt (graph_inserted o db)) ->
  wp (insert_graph o) db Q.
Proof.
  intros HQ. unfold insert_graph. wp_step. apply insert_parents_wp. intros Hps. wp_step.
  apply insert_authorizations_wp. intros Has. wp_run. by apply HQ.
Qed.

(** What only the visibility and the projections change. *)
Definition views_change db db' : Prop := exists visibility projections,
  db' = with_derived db (client_operation_parents db) (client_operation_authorizations db)
          (client_entity_heads db) visibility projections.

Lemma views_change_refl db : views_change db db.
Proof. exists (client_entity_visibility db), (client_projections db). by destruct db. Qed.
Lemma views_change_trans db1 db2 db3 : views_change db1 db2 -> views_change db2 db3 -> views_change db1 db3.
Proof. intros (v & p & ->) (v' & p' & ->). by exists v', p'. Qed.

Lemma project_visibility_wp o db : wp (project_visibility o) db (fun _ => views_change db).
Proof.
  unfold project_visibility. wp_run; try apply views_change_refl. by eexists _, _.
Qed.

Lemma insert_projection_wp o db : wp (insert_projection o) db (fun _ => views_change db).
Proof.
  unfold insert_projection. wp_step; [|wp_step; apply views_change_refl].
  destruct p as [[[[[start end_] sort_text] emoji] text] truncated]. wp_step.
  eapply wp_mono; [apply project_visibility_wp|]. cbn. intros visibility db1 H1'. wp_run.
  eapply views_change_trans; [exact H1'|]. by eexists _, _.
Qed.

Lemma views_change_ok db db' : client_ok db -> views_change db db' -> client_ok db'.
Proof. intros Hok (v & p & ->). by apply derived_ok. Qed.

(** ** Commits *)
Lemma precedes_mono db db' a b :
  client_operations db `prefix_of` client_operations db' -> precedes db a b -> precedes db' a b.
Proof.
  intros [rows Hrows] (earlier & later & He & Hl & Hr). exists earlier, later. rewrite Hrows.
  repeat split; try apply Hr; apply elem_of_app; by left.
Qed.

Lemma log_ok_insert db row o :
  log_ok db -> stored_as row o -> op_local_sequence row = client_last_sequence db + 1 ->
  operation_stored db (op_operation_id row) = false ->
  (forall p, p ∈ OperationEnvelope.causal_parents o -> operation_stored db p = true) ->
  (forall a, a ∈ OperationEnvelope.authorization o -> operation_stored db a = true) ->
  log_ok (graph_inserted o
    (with_client_operations db (client_last_sequence db + 1) (client_operations db ++ [row]))).
Proof.
  intros [Ho Hr Hl Hi Hrows Hrefs] Hs Hseq Hnew Hps Has.
  assert (Hid : op_operation_id row = OperationEnvelope.operation_id o) by apply Hs.
  assert (Hearlier : forall p, operation_stored db p = true ->
    precedes (with_client_operations db (client_last_sequence db + 1) (client_operations db ++ [row])) p
      (OperationEnvelope.operation_id o)).
  { intros p (earlier & He & <-)%operation_stored_true. exists earlier, row. cbn.
    repeat split; [apply elem_of_app; by left|apply elem_of_app; right; by apply list_elem_of_singleton|done|].
    rewrite Forall_forall in Hr. specialize (Hr earlier He). lia. }
  split; cbn.
  - rewrite map_app. cbn. apply StronglySorted_snoc; [done|]. intros s (r & <- & Hin)%list_elem_of_In%in_map_iff.
    rewrite Forall_forall in Hr. apply list_elem_of_In in Hin. specialize (Hr r Hin). lia.
  - apply Forall_app. split; [|constructor; [lia|constructor]].
    eapply Forall_impl; [exact Hr|]. cbn. intros r ?. lia.
  - lia.
  - apply NoDup_key_snoc; [done|]. intros r Hin E. apply not_true_iff_false in Hnew. apply Hnew.
    apply operation_stored_true. eauto.
  - apply Forall_app. split.
    + eapply Forall_impl; [exact Hrows|]. cbn. intros r (o' & Ho' & Hp & Ha). exists o'. split; [done|].
      split; intros x Hx; [destruct (Hp x Hx) as [i Hi']|destruct (Ha x Hx) as [i Hi']]; exists i; cbn;
        apply elem_of_app; by left.
    + constructor; [|constructor]. exists o. split; [done|]. rewrite Hid. cbn.
      split; intros x Hx; by apply reference_rows_listed.
  - intros ref Href.
    assert (Hcase : ref ∈ client_operation_parents db ++ client_operation_authorizations db
      \/ reference_operation_id ref = OperationEnvelope.operation_id o
         /\ operation_stored db (referenced_operation_id ref) = true).
    { rewrite !elem_of_app in Href. rewrite elem_of_app.
      destruct Href as [[?|[-> ?]%elem_of_reference_rows]|[?|[-> ?]%elem_of_reference_rows]]; auto. }
    destruct Hcase as [Hold|[-> Hstored]].
    + eapply precedes_mono; [|by apply Hrefs]. cbn. by exists [row].
    + by apply Hearlier.
Qed.

(** The queues where more operations are stored. *)
Lemma queues_ok_ext db db' :
  client_peers db' = client_peers db -> client_peer_spaces db' = client_peer_spaces db ->
  client_deliveries db' = client_deliveries db -> client_resources db' = client_resources db ->
  client_resource_transfers db' = client_resource_transfers db ->
  (forall row, row ∈ client_deliveries db -> operation_stored db (delivery_operation_id row) = true ->
    operation_stored db' (delivery_operation_id row) = true) ->
  queues_ok db -> queues_ok db'.
Proof.
  intros Ep Es Ed Er Et Hops []. split; unfold peer_configured in *; rewrite ?Ep, ?Es, ?Ed, ?Er, ?Et; try done.
  apply Forall_forall. intros row Hin. rewrite Forall_forall in deliveries_valid0.
  specialize (deliveries_valid0 row Hin) as (? & ? & ?). repeat split; auto.
Qed.

Lemma validate_references_Ok o db :
  validate_references o db = Ok tt ->
  (forall p, p ∈ OperationEnvelope.causal_parents o -> operation_stored db p = true)
  /\ (forall a, a ∈ OperationEnvelope.authorization o -> operation_stored db a = true).
Proof.
  assert (Hload : forall id found, load_operation_row db id = Ok (Some found) -> operation_stored db id = true).
  { intros id found. unfold load_operation_row. destruct (query_row _ _) as [row|] eqn:E; [|done]. intros _.
    apply exists_query. eauto. }
  unfold validate_references. intros Hv. destruct (for_each _ (OperationEnvelope.causal_parents o)) as [[]|] eqn:Ep; [|done].
  rewrite for_each_Ok in Ep, Hv. split; intros x Hx.
  - specialize (Ep x Hx). cbn in Ep. destruct (load_operation_row db x) as [[found|]|] eqn:E; [|done..].
    by eapply Hload.
  - specialize (Hv x Hx). cbn in Hv. destruct (load_operation_row db x) as [[found|]|] eqn:E; [|done..].
    by eapply Hload.
Qed.

Lemma not_stored db id : load_operation_row db id = Ok None -> operation_stored db id = false.
Proof.
  unfold load_operation_row. destruct (query_row _ _) as [row|] eqn:E; [intros Hx; by inv_ok|]. intros _.
  unfold operation_stored. apply exists_row_false. by apply query_row_None.
Qed.

(** The row of a new operation, with its graph and projection. *)
Lemma insert_operation_wp o stored_at local json db (Q : Z -> _ -> Prop) :
  (operation_stored db (OperationEnvelope.operation_id o) = false ->
   let row := mkClientOperationRow (client_last_sequence db + 1) (OperationEnvelope.operation_id o)
     (OperationEnvelope.space_id o) (OperationEnvelope.entity_id o) (OperationEnvelope.schema o)
     (OperationEnvelope.actor_id o) (OperationEnvelope.occurred_at_unix_ms o) stored_at local json in
   Q (client_last_sequence db + 1)
     (with_client_operations db (client_last_sequence db + 1) (client_operations db ++ [row]))) ->
  wp (insert_operation_row o stored_at local json) db Q.
Proof.
  intros HQ. unfold insert_operation_row. wp_run. bool_prop. unfold positive_u64 in *.
  destruct (0 <? _); [|done]. simplify_eq. by apply HQ.
Qed.

Lemma keeps_commit o stored_at source : typed_operation o -> keeps (commit_transaction o stored_at source).
Proof.
  intros Ht db Hok. unfold commit_transaction. wp_step; cbv beta. apply wp_lift. intros [] Hv.
  wp_step; cbv beta. wp_step; cbv beta. wp_step; cbv beta. apply wp_lift. intros json Ej.
  wp_step; cbv beta. wp_step; cbv beta. wp_step; cbv beta. apply wp_lift. intros found Ef.
  destruct found as [[sequence existing]|].
  - wp_step; cbv beta. wp_step; cbv beta. wp_step; cbv beta.
    eapply wp_keeps; [apply keeps_sources|done|]. intros [] db1 Hok1. by wp_run.
  - wp_step; cbv beta. apply wp_lift. intros [] [Hps Has]%validate_references_Ok. wp_step; cbv beta. wp_step; cbv beta.
    wp_step; cbv beta. apply insert_operation_wp. intros Hnew. cbv zeta. wp_step. apply insert_graph_wp.
    intros _ _. cbv beta. wp_step. eapply wp_mono; [apply insert_projection_wp|]. intros [] db1 Hviews. cbv beta.
    assert (Hok1 : client_ok db1).
    { eapply views_change_ok; [|exact Hviews]. destruct Hok as [Hl Hq]. split.
      - apply log_ok_insert; try done. split; try done.
        + destruct (OperationEnvelope.verify o) as [[]|]; [done|by cbn in Hv].
        + destruct (to_json o); [by injection Ej as ->|done].
      - eapply queues_ok_ext; [..|exact Hq]; try done. cbn. intros row _ Hs. unfold operation_stored in *.
        cbn. rewrite exists_app. by rewrite Hs. }
    wp_step. eapply wp_keeps; [apply keeps_operation_resources|done|]. intros [] db2 Hok2.
    wp_step. eapply wp_keeps; [apply keeps_sources|done|]. intros [] db3 Hok3. by wp_run.
Qed.

Lemma keeps_store_workspace request :
  typed_operation (genesis request) -> typed_operation (initial_grant request) -> keeps (store_workspace request).
Proof.
  intros Hg Hi db Hok. unfold store_workspace.
  pose proof (keeps_commit _ (bootstrap_received_at_unix_ms request) CommitSource.Remote Hg).
  pose proof (keeps_commit _ (bootstrap_received_at_unix_ms request) CommitSource.Remote Hi).
  keep. by apply workspaces_ok.
Qed.

(** ** Deletion of a workspace *)
Lemma StronglySorted_delete {A B} (R : B -> B -> Prop) (key : A -> B) f l :
  StronglySorted R (List.map key l) -> StronglySorted R (List.map key (delete_rows f l)).
Proof.
  unfold delete_rows. induction l as [|a l IH]; [done|]. cbn. inversion 1 as [|? ? Hs Ha]; subst.
  destruct (f a); cbn; [by apply IH|]. constructor; [by apply IH|].
  rewrite Forall_forall in Ha |- *. intros b (x & <- & Hx)%list_elem_of_In%in_map_iff.
  apply Ha, list_elem_of_In, in_map. by apply filter_In in Hx as [? _].
Qed.
Lemma NoDup_delete {A B} (key : A -> B) f l : NoDup (List.map key l) -> NoDup (List.map key (delete_rows f l)).
Proof.
  unfold delete_rows. induction l as [|a l IH]; [done|]. cbn. intros [Ha Hl]%NoDup_cons.
  destruct (f a); cbn; [by apply IH|]. apply NoDup_cons. split; [|by apply IH].
  intros (x & Ex & Hx)%list_elem_of_In%in_map_iff. apply Ha. rewrite <- Ex.
  apply list_elem_of_In, in_map. by apply filter_In in Hx as [? _].
Qed.
Lemma Forall_delete {A} (P : A -> Prop) f l : Forall P l -> Forall P (delete_rows f l).
Proof. rewrite !Forall_forall. intros Hl a [Ha _]%elem_of_delete_rows. by apply Hl. Qed.

Lemma operation_of_space_row db space row :
  client_ok db -> row ∈ client_operations db ->
  operation_of_space db space (op_operation_id row) = in_space space row.
Proof.
  intros [[_ _ _ Hi _ _] _] Hin. unfold operation_of_space. destruct (in_space space row) eqn:E.
  - apply exists_row_true. exists row. split; [done|]. rewrite E. by rewrite (proj2 (has_operation_eq _ _)).
  - apply exists_row_false. intros other Ho. destruct (has_operation _ other) eqn:Eh; [|done].
    apply has_operation_eq in Eh. by rewrite (NoDup_key_inj op_operation_id _ other row Hi Ho Hin Eh).
Qed.

Lemma kept_row db space row :
  client_ok db -> row ∈ client_operations db -> operation_of_space db space (op_operation_id row) = false ->
  row ∈ delete_rows (in_space space) (client_operations db).
Proof.
  intros Hok Hin Hs. apply elem_of_delete_rows. split; [done|]. by rewrite <- (operation_of_space_row db).
Qed.

Lemma kept_operation db space id :
  client_ok db -> operation_stored db id = true -> operation_of_space db space id = false ->
  exists_row (has_operation id) (delete_rows (in_space space) (client_operations db)) = true.
Proof.
  intros Hok (row & Hin & <-)%operation_stored_true Hs. apply exists_row_true. exists row.
  split; [by apply kept_row|by apply has_operation_eq].
Qed.

(** What is left is still in causal order: nothing that is left names what is deleted. *)
Lemma delete_log_ok db space sequence parents authorizations :
  client_ok db -> sequence = client_last_sequence db ->
  parents = delete_rows (fun row => operation_of_space db space (reference_operation_id row)) (client_operation_parents db) ->
  authorizations
  = delete_rows (fun row => operation_of_space db space (reference_operation_id row)) (client_operation_authorizations db) ->
  (forall row, row ∈ client_operations db -> in_space space row = true ->
    forall ref, ref ∈ parents ++ authorizations -> referenced_operation_id ref <> op_operation_id row) ->
  forall db', client_last_sequence db' = sequence ->
  client_operations db' = delete_rows (in_space space) (client_operations db) ->
  client_operation_parents db' = parents -> client_operation_authorizations db' = authorizations -> log_ok db'.
Proof.
  intros Hok -> Ep Ea Hfree db' El Eo Ep' Ea'. pose proof Hok as [[Ho Hr Hl Hi Hrows Hrefs] _].
  split; rewrite ?El, ?Eo; try done.
  - by apply StronglySorted_delete.
  - by apply Forall_delete.
  - by apply NoDup_delete.
  - apply Forall_forall. intros row [Hin Hs]%elem_of_delete_rows. rewrite Forall_forall in Hrows.
    destruct (Hrows row Hin) as (o & Hso & Hp & Ha). exists o. split; [done|].
    rewrite <- (operation_of_space_row db) in Hs by done.
    split; intros x Hx; [destruct (Hp x Hx) as [i Hx']|destruct (Ha x Hx) as [i Hx']]; exists i.
    + by rewrite Ep', Ep, elem_of_delete_rows.
    + by rewrite Ea', Ea, elem_of_delete_rows.
  - rewrite Ep', Ea'. intros ref Href.
    assert (Hold : ref ∈ client_operation_parents db ++ client_operation_authorizations db
                   /\ operation_of_space db space (reference_operation_id ref) = false).
    { rewrite Ep, Ea, elem_of_app, !elem_of_delete_rows in Href. rewrite elem_of_app. naive_solver. }
    destruct Hold as [Hold Hs]. destruct (Hrefs ref Hold) as (earlier & later & He & Hla & Eid & Lid & Hlt).
    exists earlier, later. rewrite Eo. split; [|split; [apply kept_row; [done..|by rewrite Lid]|done]].
    apply elem_of_delete_rows. split; [done|]. destruct (in_space space earlier) eqn:Es; [|done].
    destruct (Hfree earlier He Es ref Href). by rewrite Eid.
Qed.

Lemma keeps_delete_workspace space : keeps (delete_workspace space).
Proof.
  intros db Hok. unfold delete_workspace. wp_run. bool_prop.
  match goal with Hx : exists_row _ _ = false |- _ => rewrite exists_row_false in Hx; rename Hx into Hfree end.
  pose proof Hok as [_ [? Hsk Hs Hdk Hd ? ? ? ?]]. split.
  - eapply (delete_log_ok db space); [done|done|done|done| |done|done|done|done].
    intros row Hin Hspace ref Href Heq. specialize (Hfree row Hin). rewrite Hspace in Hfree. cbn in Hfree.
    apply not_true_iff_false in Hfree. apply Hfree. unfold is_referenced. cbn. rewrite !orb_true_iff.
    apply elem_of_app in Href as [Href|Href].
    + do 6 left. apply exists_row_true. exists ref. split; [exact Href|]. rewrite Heq, list_eqb_refl. apply orb_true_r.
    + do 5 left. right. apply exists_row_true. exists ref. split; [exact Href|]. rewrite Heq, list_eqb_refl. apply orb_true_r.
  - split; cbn; try done.
    + by apply NoDup_delete.
    + by apply Forall_delete.
    + by apply NoDup_delete.
    + apply Forall_forall. intros row [Hin Hx]%elem_of_delete_rows. rewrite Forall_forall in Hd.
      destruct (Hd row Hin) as (? & ? & ?). repeat split; [done..|]. by apply kept_operation.
Qed.

(** ** Reconstruction *)
Definition parent_rows (o : OperationEnvelope.t) : list ReferenceRow :=
  reference_rows (OperationEnvelope.operation_id o) 0 (OperationEnvelope.causal_parents o).
Definition authorization_rows (o : OperationEnvelope.t) : list ReferenceRow :=
  reference_rows (OperationEnvelope.operation_id o) 0 (OperationEnvelope.authorization o).

Lemma rebuild_loop_wp os : forall db (Q : unit -> _ -> Prop),
  (forall heads visibility projections,
    Q tt (with_derived db (client_operation_parents db ++ flat_map parent_rows os)
            (client_operation_authorizations db ++ flat_map authorization_rows os) heads visibility projections)) ->
  wp (each (fun o => insert_graph o ;* insert_projection o) os) db Q.
Proof.
  induction os as [|o os IH]; intros db Q HQ.
  - apply wp_ret. cbn in HQ. rewrite !app_nil_r in HQ.
    specialize (HQ (client_entity_heads db) (client_entity_visibility db) (client_projections db)). by destruct db.
  - cbn [each]. wp_step. wp_step. apply insert_graph_wp. intros _ _. cbv beta.
    eapply wp_mono; [apply insert_projection_wp|]. intros [] db1 (v & p & ->). cbv beta. apply IH.
    intros heads visibility projections. specialize (HQ heads visibility projections). cbn in HQ |- *.
    by rewrite !app_assoc in HQ.
Qed.

(** A stored row is never read as another operation. *)
Lemma decode_stored row o o' :
  json_exact -> stored_as row o -> decode_operation (op_projection_json row) = Ok o' -> o' = o.
Proof.
  intros Hj [Ht Hv Ej _ _ _ _]. unfold decode_operation. destruct (from_json _) as [read|] eqn:Ef; [|done]. cbn [ok_or].
  destruct (OperationEnvelope.verify read) as [[]|] eqn:Hv'; [|done]. intros [= <-].
  by apply (read_verified o (op_projection_json row)).
Qed.

Lemma decode_readable row o :
  stored_as row o -> reads_back o -> decode_operation (op_projection_json row) = Ok o.
Proof.
  intros [_ Hv Ej _ _ _ _] (text & Et & Ef). rewrite Ej in Et. injection Et as <-.
  unfold decode_operation. rewrite Ef. cbn [ok_or]. by rewrite Hv.
Qed.

(** A row whose text reads back as the operation it stores. *)
Definition readable (row : ClientOperationRow) : Prop := exists o, stored_as row o /\ reads_back o.

Lemma decode_cases row o :
  json_exact -> stored_as row o ->
  (readable row /\ decode_operation (op_projection_json row) = Ok o)
  \/ (~ readable row /\ exists m, decode_operation (op_projection_json row) = Err (ClientStoreError.Corrupt m)).
Proof.
  intros Hj Hs. destruct (decode_operation (op_projection_json row)) as [o'|e] eqn:E.
  - left. apply (decode_stored row o o' Hj Hs) in E as E'. subst o'. split; [|done]. exists o. split; [done|].
    exists (op_projection_json row). split; [apply Hs|]. unfold decode_operation in E.
    destruct (from_json _) as [read|]; [|done]. cbn [ok_or] in E.
    destruct (OperationEnvelope.verify read); [|done]. by injection E as ->.
  - right. split.
    + intros (o' & Hs' & Hr). by rewrite (decode_readable row o' Hs' Hr) in E.
    + unfold decode_operation in E. destruct (from_json _) as [read|]; cbn [ok_or] in E; [|injection E as <-; by eexists].
      destruct (OperationEnvelope.verify read); [done|]. injection E as <-. by eexists.
Qed.

Lemma keeps_rebuild : json_exact -> keeps rebuild_derived_state.
Proof.
  intros Hj db Hok. unfold rebuild_derived_state. wp_step; cbv beta. wp_step. wp_step; cbv beta. apply wp_lift.
  intros os Ec. wp_step; cbv beta. wp_step. wp_step; cbv beta. apply rebuild_loop_wp. intros heads visibility projections.
  cbv beta. wp_step. pose proof Hok as [[Ho Hr Hl Hi Hrows Hrefs] Hq]. rewrite Forall_forall in Hrows.
  assert (Hrow : forall row, row ∈ client_operations db -> exists o, o ∈ os /\ stored_as row o
    /\ (forall p, p ∈ OperationEnvelope.causal_parents o -> listed (client_operation_parents db) (op_operation_id row) p)
    /\ (forall a, a ∈ OperationEnvelope.authorization o -> listed (client_operation_authorizations db) (op_operation_id row) a)).
  { intros row Hin. destruct (Hrows row Hin) as (o & Hs & Hp & Ha). exists o. split; [|done].
    destruct (collect_total _ _ _ row Ec) as [o' Hd]; [by rewrite merge_sort_Permutation|].
    apply (collect_elem _ _ _ Ec). exists row. split; [by rewrite merge_sort_Permutation|].
    by rewrite Hd, (decode_stored row o o' Hj Hs Hd). }
  assert (Hop : forall o, o ∈ os -> exists row, row ∈ client_operations db /\ stored_as row o
    /\ (forall p, p ∈ OperationEnvelope.causal_parents o -> listed (client_operation_parents db) (op_operation_id row) p)
    /\ (forall a, a ∈ OperationEnvelope.authorization o -> listed (client_operation_authorizations db) (op_operation_id row) a)).
  { intros o (row & Hin & Hd)%(collect_elem _ _ _ Ec). rewrite merge_sort_Permutation in Hin.
    destruct (Hrows row Hin) as (o' & Hs & Hp & Ha). apply (decode_stored row o' o Hj Hs) in Hd as ->.
    by exists row. }
  split; [|eapply queues_ok_ext; [..|exact Hq]; done].
  split; cbn; try done.
  - apply Forall_forall. intros row Hin. destruct (Hrow row Hin) as (o & Hos & Hs & _). exists o. split; [done|].
    rewrite (stored_id _ _ Hs). cbn.
    split; intros x Hx; unshelve eassert (Hlisted := reference_rows_listed (OperationEnvelope.operation_id o) 0 _ x [] Hx);
      destruct Hlisted as [i Hx']; exists i; apply list_elem_of_In, in_flat_map; exists o;
      split; by apply list_elem_of_In.
  - intros ref Href. apply elem_of_app in Href as [Href|Href];
      apply list_elem_of_In, in_flat_map in Href as (o & Ho'%list_elem_of_In & Hin%list_elem_of_In);
      apply elem_of_reference_rows in Hin as [Eid Hin]; destruct (Hop o Ho') as (row & Hin' & Hs & Hp & Ha).
    + destruct (Hp _ Hin) as [i Hx]. rewrite Eid, <- (stored_id _ _ Hs).
      apply (Hrefs (mkReferenceRow (op_operation_id row) (referenced_operation_id ref) i)). apply elem_of_app. by left.
    + destruct (Ha _ Hin) as [i Hx]. rewrite Eid, <- (stored_id _ _ Hs).
      apply (Hrefs (mkReferenceRow (op_operation_id row) (referenced_operation_id ref) i)). apply elem_of_app. by right.
Qed.

(** ** Every call *)
Lemma keeps_discard {A} (m : T A) : keeps m -> keeps (discard m).
Proof. intros Hm db Hok. unfold discard. wp_step. eapply wp_keeps; [done..|]. intros a db' Hok'. by wp_step. Qed.

Lemma keeps_exec c : json_exact -> call_typed c -> keeps (exec c).
Proof.
  intros Hj Ht. destruct c; cbn [exec call_typed] in *; try apply keeps_discard.
  - by apply keeps_commit.
  - by apply keeps_store_workspace; apply Ht.
  - intros db Hok. unfold set_active_workspace. keep. by apply workspaces_ok.
  - intros db Hok. unfold clear_active_workspace. keep. by apply workspaces_ok.
  - intros db Hok. unfold bind_local_identity. wp_run; [done|by apply workspaces_ok].
  - apply keeps_delete_workspace.
  - apply keeps_upsert_peer.
  - apply keeps_set_peer_enabled.
  - apply keeps_configure_peer_space.
  - apply keeps_requeue.
  - apply keeps_advance.
  - apply keeps_pull_failure.
  - apply keeps_lease_due.
  - apply keeps_finish_delivery.
  - apply keeps_finish_delivery.
  - apply keeps_finish_delivery.
  - apply keeps_release_lease.
  - apply keeps_mark_resource_local.
  - apply keeps_lease_resources.
  - apply keeps_record_progress.
  - apply keeps_finish_transfer.
  - apply keeps_finish_transfer.
  - apply keeps_finish_transfer.
  - apply keeps_continue.
  - apply keeps_wait.
  - by apply keeps_rebuild.
Qed.

Lemma client_call_ok db c : json_exact -> call_typed c -> client_ok db -> client_ok (call db c).
Proof.
  intros Hj Ht Hok. unfold call, run. destruct (exec c db) as [[[] db']|] eqn:E; [|done].
  exact (keeps_exec c Hj Ht db Hok tt db' E).
Qed.

Lemma run_calls_ok calls db : json_exact -> Forall call_typed calls -> client_ok db -> client_ok (run_calls calls db).
Proof.
  intros Hj Hc. revert db. induction Hc as [|c calls Ht _ IH]; intros db Hok; [done|]. cbn. apply IH. by apply client_call_ok.
Qed.

Lemma client_reachable_ok db : json_exact -> client_reachable db -> client_ok db.
Proof. intros Hj (calls & Hc & ->). by apply run_calls_ok, fresh_client_ok. Qed.
End Calls.
