(* ===== verification/ClientTheory.v ===== *)
(** * The client's deliveries: the theorems

    What each call does to each delivery, who holds a lease, what a commit owes to the
    peers, and what a leased batch contains. *)
From S2P Require Import Prelude Bytes Floats Crypto Content Cbor Trust DataModel CanonicalBody Envelope.
From S2P Require Import Authorization Peer Application Database PairingStore Repository RepositoryLog.
From S2P Require Import ClientDatabase ClientStore ClientQueues ClientQueries ClientLogic ClientInvariant.

#[local] Opaque OperationEnvelope.verify.

Section Deliveries.
Context `{Sha256} `{Ed25519} `{HalfFloat} `{Base64} `{!JsonNumber} `{!JsonSize}
  `{!ProjectionJson} `{!Lowercase}.
Implicit Types (db : ClientDatabase).

(** The delivery of an operation to a peer. *)
Definition delivery db (peer operation : list Z) : option DeliveryRow :=
  query_row (has_delivery peer operation) (client_deliveries db).

(** How a call may change a delivery. *)
Definition moves (c : Call) (row row' : DeliveryRow) : Prop :=
  let peer := delivery_peer_id row in
  let operation := delivery_operation_id row in
  match c with
  | LeaseDue peer' now duration _ lease =>
      peer' = peer /\ delivery_due now row = true
      /\ exists expires, lease_expiry now duration = Ok expires /\ row' = leased_delivery lease expires row
  | Acknowledge peer' operation' lease at_ =>
      holds_lease peer' operation' lease row = true
      /\ row' = finished_delivery DeliveryState.Acknowledged at_ None row
  | Retry peer' operation' lease at_ text =>
      holds_lease peer' operation' lease row = true
      /\ row' = finished_delivery DeliveryState.Pending at_ (Some text) row
  | Reject peer' operation' lease at_ text =>
      holds_lease peer' operation' lease row = true
      /\ row' = finished_delivery DeliveryState.Rejected at_ (Some text) row
  | ReleaseLease peer' lease => holds_lease peer' operation lease row = true /\ row' = released_delivery row
  | Requeue peer' _ now =>
      peer' = peer /\ delivery_state row <> DeliveryState.Acknowledged /\ row' = requeued_delivery now row
  | Commit o at_ (CommitSource.Peer peer') =>
      peer' = peer /\ OperationEnvelope.operation_id o = operation /\ row' = acknowledged_by_source at_ row
  | _ => False
  end.

(** Nothing is lost, no delivery changes, and new ones are pending. *)
Record extends db db' : Prop := {
  extends_operations : client_operations db `prefix_of` client_operations db';
  extends_deliveries peer operation row : delivery db peer operation = Some row -> delivery db' peer operation = Some row;
  extends_new peer operation row : delivery db peer operation = None -> delivery db' peer operation = Some row ->
    delivery_state row = DeliveryState.Pending
}.

Lemma extends_refl db : extends db db.
Proof. split; [done..|]. congruence. Qed.
Lemma extends_trans db1 db2 db3 : extends db1 db2 -> extends db2 db3 -> extends db1 db3.
Proof.
  intros [Ho Hd Hn] [Ho' Hd' Hn']. split; [by etrans|auto|]. intros peer operation row Hr Hr'.
  destruct (delivery db2 peer operation) as [row2|] eqn:E2; [|by eapply Hn'].
  pose proof (Hd' _ _ _ E2) as E3. rewrite Hr' in E3. injection E3 as ->. by eapply Hn.
Qed.
Lemma extends_prefix db db' :
  client_operations db `prefix_of` client_operations db' -> client_deliveries db' = client_deliveries db -> extends db db'.
Proof.
  intros Hp Ed. split; [done|..]; intros peer operation row; unfold delivery; rewrite Ed; congruence.
Qed.
Lemma extends_same db db' :
  client_operations db' = client_operations db -> client_deliveries db' = client_deliveries db -> extends db db'.
Proof. intros Eo. apply extends_prefix. by rewrite Eo. Qed.

Definition extending {A} (m : T A) : Prop := forall db, wp m db (fun _ => extends db).

Lemma wp_extends {A} (m : T A) start db (Q : A -> _ -> Prop) :
  extending m -> extends start db -> (forall a db', extends start db' -> Q a db') -> wp m db Q.
Proof. intros Hm Hs HQ. eapply wp_mono; [apply Hm|]. intros a db' H'. eapply HQ, extends_trans; done. Qed.

Lemma wp_put_extends start db after (Q : unit -> _ -> Prop) :
  extends start db -> client_operations after = client_operations db ->
  client_deliveries after = client_deliveries db -> (extends start after -> Q tt after) -> wp (put after) db Q.
Proof. intros Hx Eo Ed HQ. apply wp_put, HQ. apply (extends_trans _ db); [done|by apply extends_same]. Qed.

Lemma extending_each {A} (f : A -> T unit) l : (forall a, extending (f a)) -> extending (each f l).
Proof.
  intros Hf db. apply (wp_each f (extends db)); [apply extends_refl| |done]. intros a db1 _ Hx.
  by apply (wp_extends _ db).
Qed.
Lemma extending_each_at {A} (f : Z -> A -> T unit) n l : (forall i a, extending (f i a)) -> extending (each_at f n l).
Proof.
  intros Hf db. apply (wp_each_at f (extends db)); [apply extends_refl| |done]. intros i a db1 _ Hx.
  by apply (wp_extends _ db).
Qed.
Lemma extending_collect {A B} (f : A -> T B) l : (forall a, extending (f a)) -> extending (collect_items f l).
Proof.
  intros Hf db. apply (wp_collect_items f (extends db)); [apply extends_refl| |done]. intros a db1 _ Hx.
  by apply (wp_extends _ db).
Qed.
Lemma extending_transfers condition change : extending (update_transfers condition change).
Proof. intros db. apply wp_update_transfers. intros _. by apply extends_same. Qed.
Lemma extending_spaces condition change : extending (update_peer_spaces condition change).
Proof. intros db. apply wp_update_peer_spaces. intros _. by apply extends_same. Qed.
Lemma extending_resources condition change : extending (update_resources condition change).
Proof. intros db. apply wp_update_resources. by apply extends_same. Qed.

Hint Resolve extending_each extending_each_at extending_collect extending_transfers extending_spaces
  extending_resources extends_refl : extends.

(** Runs a transaction that changes no delivery. *)
Ltac extend :=
  repeat (first
    [ eassumption
    | match goal with
      | Hx : extends ?start ?db |- wp (put _) ?db _ =>
          apply (wp_put_extends start); [exact Hx|reflexivity|reflexivity|intros ?]
      | Hx : extends ?start ?db |- wp _ ?db _ =>
          apply (wp_extends _ start); [solve [eauto with extends]|exact Hx|intros ? ? ?]
      end
    | wp_step; cbv beta ]).
Ltac extending_start :=
  let db := fresh "db" in intros db; pose proof (extends_refl db).

(** A delivery appended under a new key. *)
Lemma delivery_snoc db row peer operation :
  delivery (with_deliveries db (client_deliveries db ++ [row])) peer operation
  = match delivery db peer operation with
    | Some found => Some found
    | None => if has_delivery peer operation row then Some row else None
    end.
Proof.
  unfold delivery. cbn. rewrite query_row_app. destruct (query_row _ _); [done|]. unfold query_row. cbn.
  by destruct (has_delivery peer operation row).
Qed.
Lemma extends_snoc db row :
  delivery_state row = DeliveryState.Pending -> extends db (with_deliveries db (client_deliveries db ++ [row])).
Proof.
  intros Hs. split; [done|..]; intros peer operation found; rewrite delivery_snoc; [by intros ->|].
  intros -> E. destruct (has_delivery peer operation row); [by injection E as <-|done].
Qed.
Lemma extending_insert_delivery peer operation next :
  extending (insert_or_ignore_delivery (pending_delivery peer operation next)).
Proof. intros db. unfold insert_or_ignore_delivery. wp_run; [apply extends_refl|by apply extends_snoc]. Qed.
Lemma extending_insert_transfer row : extending (insert_or_ignore_transfer row).
Proof. extending_start. unfold insert_or_ignore_transfer. extend. Qed.
Hint Resolve extending_insert_delivery extending_insert_transfer : extends.

Lemma extending_queue_operations peer condition next : extending (queue_operations peer condition next).
Proof. extending_start. unfold queue_operations. extend. Qed.
Lemma extending_queue_uploads content at_ excluded : extending (queue_resource_uploads content at_ excluded).
Proof.
  extending_start. unfold queue_resource_uploads. wp_step. wp_step. cbv beta.
  apply extending_each. intros peer. apply extending_each. eauto with extends.
Qed.
Lemma extending_queue_known peer at_ : extending (queue_known_resources_for_peer peer at_).
Proof. extending_start. unfold queue_known_resources_for_peer. extend. Qed.
Lemma extending_queue_known_space peer space at_ : extending (queue_known_resources_for_peer_space peer space at_).
Proof. extending_start. unfold queue_known_resources_for_peer_space. extend. Qed.
Hint Resolve extending_queue_operations extending_queue_uploads extending_queue_known extending_queue_known_space : extends.

Lemma extending_upsert_space config : extending (upsert_peer_space config).
Proof.
  extending_start. unfold upsert_peer_space. destruct (read_mode_columns _) as [[mode session] grant]. extend.
Qed.
Hint Resolve extending_upsert_space : extends.
Lemma extending_configure config : extending (configure_peer_space config).
Proof. extending_start. unfold configure_peer_space. extend. Qed.
Lemma extending_advance peer space expected next pulled_at next_pull :
  extending (advance_pull_cursor peer space expected next pulled_at next_pull).
Proof. extending_start. unfold advance_pull_cursor. extend. Qed.
Lemma extending_pull_failure peer space expected next_pull text :
  extending (record_pull_failure peer space expected next_pull text).
Proof. extending_start. unfold record_pull_failure. extend. Qed.
Lemma extending_upsert_peer peer : extending (upsert_peer peer).
Proof. extending_start. unfold upsert_peer. extend. Qed.
Lemma extending_set_enabled peer value : extending (set_peer_enabled peer value).
Proof. extending_start. unfold set_peer_enabled. extend. Qed.

Lemma extending_settle content byte_length at_ : extending (settle_transfers content byte_length at_).
Proof. extending_start. unfold settle_transfers. extend. Qed.
Hint Resolve extending_settle : extends.
Lemma extending_mark descriptor at_ : extending (mark_resource_local descriptor at_).
Proof. extending_start. unfold mark_resource_local. extend. Qed.
Lemma extending_lease_resources now duration limit lease : extending (lease_due_resources now duration limit lease).
Proof.
  assert (Hone : forall expires row, extending (lease_one_transfer lease expires row)).
  { intros expires row. extending_start. unfold lease_one_transfer. extend. }
  extending_start. unfold lease_due_resources. extend.
Qed.
Lemma extending_progress peer content direction lease bytes url :
  extending (record_resource_progress peer content direction lease bytes url).
Proof. extending_start. unfold record_resource_progress. extend. Qed.
Lemma extending_finish_transfer peer content direction lease state at_ text :
  extending (finish_resource_transfer peer content direction lease state at_ text).
Proof. extending_start. unfold finish_resource_transfer. extend. Qed.
Lemma extending_continue peer content direction lease at_ :
  extending (continue_resource_transfer peer content direction lease at_).
Proof. extending_start. unfold continue_resource_transfer. extend. Qed.
Lemma extending_wait peer content lease at_ text : extending (wait_for_local_resource peer content lease at_ text).
Proof. extending_start. unfold wait_for_local_resource. extend. Qed.

(** ** Commits *)
Lemma extending_graph o : extending (insert_graph o).
Proof. intros db. apply insert_graph_wp. intros _ _. by apply extends_same. Qed.
Lemma extending_projection o : extending (insert_projection o).
Proof. intros db. eapply wp_mono; [apply insert_projection_wp|]. intros _ db' (v & p & ->). by apply extends_same. Qed.
Lemma extending_operation_row o stored_at local json : extending (insert_operation_row o stored_at local json).
Proof. intros db. apply insert_operation_wp. intros _. apply extends_prefix; [by eexists|done]. Qed.
Lemma extending_insert_resource id at_ position resource : extending (insert_resource id at_ position resource).
Proof.
  extending_start. unfold insert_resource. wp_step; cbv beta. wp_step; cbv beta. wp_step; cbv beta. wp_step; cbv beta.
  wp_step; cbv beta. eapply wp_mono with (P := fun _ => extends db); [extend|]. intros [] db1 Hx. extend.
Qed.
Lemma extending_one_resource at_ source resource : extending (apply_one_resource at_ source resource).
Proof.
  extending_start. unfold apply_one_resource. destruct source as [| |source]; [extend..|].
  wp_step; cbv beta. wp_step; cbv beta. wp_step; cbv beta. wp_step; cbv beta. wp_step; cbv beta.
  wp_step; cbv beta. wp_step; cbv beta. eapply wp_mono with (P := fun _ => extends db); [extend|].
  intros [] db1 Hx. extend.
Qed.
Hint Resolve extending_graph extending_projection extending_operation_row extending_insert_resource
  extending_one_resource : extends.
Lemma extending_operation_resources o at_ : extending (insert_operation_resources o at_).
Proof. apply extending_each_at. eauto with extends. Qed.
Lemma extending_resource_source o at_ source : extending (apply_resource_source o at_ source).
Proof. apply extending_each. eauto with extends. Qed.
Hint Resolve extending_operation_resources extending_resource_source : extends.

Lemma delivery_key_of db peer operation row :
  delivery db peer operation = Some row -> delivery_peer_id row = peer /\ delivery_operation_id row = operation.
Proof. intros [_ Hk%has_delivery_eq]%query_row_Some. by injection Hk. Qed.

(** The delivery a call acknowledges for its source. *)
Definition source_of (c : Call) : option (list Z * list Z) :=
  match c with
  | Commit o _ (CommitSource.Peer peer) => Some (peer, OperationEnvelope.operation_id o)
  | _ => None
  end.

(** One delivery may change. *)
Record evolves (c : Call) db db' : Prop := {
  evolves_operations : client_operations db `prefix_of` client_operations db';
  evolves_deliveries peer operation row : delivery db peer operation = Some row ->
    exists row', delivery db' peer operation = Some row' /\ (row' = row \/ moves c row row');
  evolves_new peer operation row : delivery db peer operation = None -> delivery db' peer operation = Some row ->
    delivery_state row <> DeliveryState.Acknowledged \/ source_of c = Some (peer, operation)
}.

Lemma moves_from_pending c row row' :
  delivery_state row = DeliveryState.Pending -> moves c row row' ->
  delivery_state row' <> DeliveryState.Acknowledged
  \/ source_of c = Some (delivery_peer_id row, delivery_operation_id row).
Proof.
  intros Hs Hm.
  assert (Hlease : forall p o l, holds_lease p o l row = true -> False).
  { intros p o l Hl. unfold holds_lease, in_delivery_state in Hl. bool_prop. congruence. }
  destruct c; cbn in Hm; try done; try (destruct Hm as [Hm _]; by destruct (Hlease _ _ _ Hm)).
  - destruct source; [done..|]. destruct Hm as (-> & <- & _). by right.
  - left. destruct Hm as (_ & _ & ->). done.
  - left. by destruct Hm as (_ & _ & expires & _ & ->).
Qed.

Lemma extends_evolves c db db' : extends db db' -> evolves c db db'.
Proof.
  intros [Ho Hd Hn]. split; [done|..].
  - intros peer operation row Hr. exists row. split; [by apply Hd|by left].
  - intros peer operation row Hr Hr'. left. by rewrite (Hn _ _ _ Hr Hr').
Qed.
Lemma extends_evolves_trans c db1 db2 db3 : extends db1 db2 -> evolves c db2 db3 -> evolves c db1 db3.
Proof.
  intros [Ho Hd Hn] [Ho' Hd' Hn']. split; [by etrans|..].
  - intros peer operation row Hr. by apply Hd', Hd.
  - intros peer operation row Hr Hr'. destruct (delivery db2 peer operation) as [row2|] eqn:E2; [|by eapply Hn'].
    destruct (Hd' _ _ _ E2) as (row' & E3 & Hm). rewrite Hr' in E3. injection E3 as <-.
    pose proof (Hn _ _ _ Hr E2) as Hp. destruct Hm as [->|Hm]; [left; by rewrite Hp|].
    destruct (delivery_key_of _ _ _ _ E2) as [<- <-]. by apply (moves_from_pending c row2).
Qed.
Lemma evolves_extends_trans c db1 db2 db3 : evolves c db1 db2 -> extends db2 db3 -> evolves c db1 db3.
Proof.
  intros [Ho Hd Hn] [Ho' Hd' Hn']. split; [by etrans|..]; intros peer operation row Hr.
  - destruct (Hd _ _ _ Hr) as (row' & Hr' & Hm). exists row'. split; [by apply Hd'|done].
  - intros Hr'. destruct (delivery db2 peer operation) as [row2|] eqn:E2; [|left; by rewrite (Hn' _ _ _ E2 Hr')].
    pose proof (Hd' _ _ _ E2) as E3. rewrite Hr' in E3. injection E3 as ->. by eapply Hn.
Qed.

Lemma delivery_update db condition change peer operation :
  (forall row, delivery_key (change row) = delivery_key row) ->
  delivery (with_deliveries db (update_rows condition change (client_deliveries db))) peer operation
  = (fun row => if condition row then change row else row) <$> delivery db peer operation.
Proof.
  intros Hkey. unfold delivery. cbn. apply query_update. intros r. specialize (Hkey r). unfold has_delivery.
  injection Hkey as -> ->. done.
Qed.

(** An UPDATE whose change is allowed. *)
Lemma evolves_update c condition change db :
  (forall row, delivery_key (change row) = delivery_key row) ->
  (forall row, row ∈ client_deliveries db -> condition row = true -> moves c row (change row)) ->
  evolves c db (with_deliveries db (update_rows condition change (client_deliveries db))).
Proof.
  intros Hkey Hm. split; [done|..]; intros peer operation row Hr; rewrite (delivery_update _ _ _ _ _ Hkey), Hr; [|done].
  cbn. eexists. split; [done|]. apply query_row_Some in Hr as [Hin _].
  destruct (condition row) eqn:E; [right; by apply Hm|by left].
Qed.

Lemma evolving_record_source o at_ peer (source := CommitSource.Peer peer) db :
  wp (record_source peer (OperationEnvelope.operation_id o) at_) db (fun _ => evolves (Commit o at_ source) db).
Proof.
  unfold record_source. wp_step; cbv beta. wp_step. wp_step.
  - wp_step. apply wp_update_deliveries. intros _. cbv beta. wp_step. apply evolves_update; [done|].
    intros row _ Hk%has_delivery_eq. injection Hk as Ep Eo. cbn. by repeat split.
  - wp_run. split; [done|..]; intros peer' operation row; rewrite delivery_snoc.
    + intros ->. exists row. split; [done|by left].
    + intros -> Hr. right. destruct (has_delivery peer' operation _) eqn:Ek; [|done].
      apply has_delivery_eq in Ek. cbn. by rewrite <- Ek.
Qed.

Lemma evolving_delivery_source o at_ source db :
  wp (apply_delivery_source (OperationEnvelope.operation_id o) at_ source) db (fun _ => evolves (Commit o at_ source) db).
Proof.
  unfold apply_delivery_source. pose proof (extends_refl db) as Hx.
  wp_step; cbv beta. wp_step. destruct source as [| |peer].
  - eapply wp_mono with (P := fun _ => extends db); [extend|]. intros [] db' Hx'. by apply extends_evolves.
  - wp_step. by apply extends_evolves.
  - wp_step; cbv beta. wp_step. wp_step; cbv beta.
    eapply wp_mono with (P := fun _ => extends db); [extend|]. intros [] db1 Hx1.
    eapply wp_mono; [apply evolving_record_source|]. intros [] db2 Hx2. by eapply extends_evolves_trans.
Qed.

Lemma evolving_sources o at_ source start db (Q : unit -> _ -> Prop) :
  extends start db -> (forall db', evolves (Commit o at_ source) start db' -> Q tt db') ->
  wp (apply_sources o at_ source) db Q.
Proof.
  intros Hx HQ. unfold apply_sources. wp_step. eapply wp_mono; [apply evolving_delivery_source|]. intros [] db1 Hx1.
  cbv beta. eapply wp_mono; [apply extending_resource_source|]. intros [] db2 Hx2. cbv beta. apply HQ.
  eapply evolves_extends_trans; [|exact Hx2]. by eapply extends_evolves_trans.
Qed.

Lemma evolving_commit o at_ source db :
  wp (commit_transaction o at_ source) db (fun _ => evolves (Commit o at_ source) db).
Proof.
  unfold commit_transaction. pose proof (extends_refl db) as Hx.
  do 10 (wp_step; cbv beta). wp_step; cbv beta.
  - wp_step. wp_step; cbv beta. wp_step. wp_step. apply (evolving_sources _ _ _ db); [done|]. intros db' Hev.
    cbv beta. by wp_run.
  - do 4 (wp_step; cbv beta). wp_step. eapply wp_extends; [apply extending_operation_row|exact Hx|].
    intros sequence db1 Hx1. cbv beta. wp_step. eapply wp_extends; [apply extending_graph|exact Hx1|].
    intros [] db2 Hx2. cbv beta. wp_step. eapply wp_extends; [apply extending_projection|exact Hx2|].
    intros [] db3 Hx3. cbv beta. wp_step. eapply wp_extends; [apply extending_operation_resources|exact Hx3|].
    intros [] db4 Hx4. cbv beta. wp_step. apply (evolving_sources _ _ _ db); [done|]. intros db' Hev. cbv beta. by wp_run.
Qed.

Lemma extending_remote_sources o at_ : extending (apply_sources o at_ CommitSource.Remote).
Proof. extending_start. unfold apply_sources, apply_delivery_source. extend. Qed.
Hint Resolve extending_remote_sources : extends.
Lemma extending_commit_remote o at_ : extending (commit_transaction o at_ CommitSource.Remote).
Proof. extending_start. unfold commit_transaction. extend. Qed.
Hint Resolve extending_commit_remote : extends.
Lemma extending_store_workspace request : extending (store_workspace request).
Proof. extending_start. unfold store_workspace. extend. Qed.
Lemma extending_rebuild : extending rebuild_derived_state.
Proof.
  extending_start. unfold rebuild_derived_state.
  assert (Hone : forall o, extending (insert_graph o ;* insert_projection o)) by (intros o; extending_start; extend).
  extend.
Qed.

(** ** Leases *)

(** The deliveries of a batch. *)
Definition in_batch (peer : list Z) (batch : list ClientOperationRow) (row : DeliveryRow) : bool :=
  exists_row (fun stored => has_delivery peer (op_operation_id stored) row) batch.

Definition lease_batch db (peer lease : list Z) (expires : Z) (batch : list ClientOperationRow) : ClientDatabase :=
  with_deliveries db (update_rows (in_batch peer batch) (leased_delivery lease expires) (client_deliveries db)).

Lemma in_batch_cons peer row batch d :
  in_batch peer (row :: batch) d = has_delivery peer (op_operation_id row) d || in_batch peer batch d.
Proof. done. Qed.

Lemma lease_batch_nil db peer lease expires : lease_batch db peer lease expires [] = db.
Proof.
  unfold lease_batch. replace (update_rows _ _ _) with (client_deliveries db); [by destruct db|].
  unfold update_rows. symmetry. apply map_id.
Qed.

Lemma lease_batch_cons db peer lease expires row batch :
  NoDup (List.map op_operation_id (row :: batch)) ->
  lease_batch (with_deliveries db (update_rows (has_delivery peer (op_operation_id row)) (leased_delivery lease expires)
    (client_deliveries db))) peer lease expires batch
  = lease_batch db peer lease expires (row :: batch).
Proof.
  intros Hn. unfold lease_batch. cbn. f_equal. unfold update_rows. rewrite map_map. apply map_ext. intros d.
  rewrite in_batch_cons. cbn in Hn. apply NoDup_cons in Hn as [Hrow _].
  destruct (has_delivery peer (op_operation_id row) d) eqn:E; cbn [orb]; [|done].
  replace (in_batch peer batch _) with false; [done|]. symmetry. apply exists_row_false. intros other Hin.
  apply not_true_iff_false. intros Ho%has_delivery_eq. apply has_delivery_eq in E. apply Hrow.
  replace (op_operation_id row) with (op_operation_id other); [apply list_elem_of_In, in_map; by apply list_elem_of_In|].
  cbn in Ho. unfold delivery_key in Ho, E. cbn in Ho. congruence.
Qed.

(** What the batch returns for one operation: what it stores and the attempt's number. *)
Definition leased_item db (peer : list Z) (row : ClientOperationRow) (item : DeliveryItem) : Prop :=
  decode_operation (op_projection_json row) = Ok (item_operation item)
  /\ exists d, delivery db peer (op_operation_id row) = Some d
     /\ item_attempt_count item = delivery_attempt_count d + 1.

Lemma leased_lookup db peer lease expires id :
  query_row (has_delivery peer id)
    (update_rows (has_delivery peer id) (leased_delivery lease expires) (client_deliveries db))
  = leased_delivery lease expires <$> delivery db peer id.
Proof.
  rewrite query_update by done. unfold delivery. destruct (query_row _ _) as [d|] eqn:E; [|done].
  cbn. apply query_row_Some in E as [_ E]. by rewrite E.
Qed.

Lemma lease_one_wp db peer lease expires row (Q : DeliveryItem -> _ -> Prop) :
  client_ok db -> row ∈ client_operations db ->
  (forall item, leased_item db peer row item ->
    Q item (with_deliveries db (update_rows (has_delivery peer (op_operation_id row)) (leased_delivery lease expires)
              (client_deliveries db)))) ->
  wp (lease_one peer lease expires (op_operation_id row)) db Q.
Proof.
  intros [[_ _ _ Hi _ _] _] Hin HQ. unfold lease_one. wp_step; cbv beta. apply wp_update_deliveries. intros _.
  do 4 (wp_step; cbv beta). wp_step; cbv beta. apply wp_lift. intros found Ef. wp_step; cbv beta; [|wp_step].
  destruct p as [sequence o]. wp_step; cbv beta. apply wp_lift. intros d Ed. wp_step; cbv beta. apply wp_lift.
  intros attempts Ea. wp_step. apply HQ. split.
  - cbn. unfold load_operation_row in Ef. cbn in Ef.
    rewrite (query_key op_operation_id _ _ row Hi Hin) in Ef; [|by apply has_operation_eq|by intros b ->%has_operation_eq].
    destruct (positive_u64 _); [|done]. destruct (decode_operation _) as [o'|]; [|done]. by simplify_eq.
  - cbn [with_deliveries with_queues client_deliveries] in Ed. unfold require_row in Ed.
    rewrite leased_lookup in Ed. destruct (delivery db peer (op_operation_id row)) as [d0|]; [|done].
    cbn in Ed. injection Ed as <-. exists d0. split; [done|]. cbn.
    unfold counter_u32 in Ea. cbn in Ea. destruct (checked_u 32 _) as [n|] eqn:Ec; [|done]. injection Ea as <-.
    by apply checked_u_Some in Ec as [-> _].
Qed.

Lemma leased_item_ext db db' peer row item :
  delivery db' peer (op_operation_id row) = delivery db peer (op_operation_id row) ->
  leased_item db' peer row item -> leased_item db peer row item.
Proof. intros E [Hd (d & Hl & Ha)]. split; [done|]. exists d. by rewrite <- E. Qed.

Lemma Forall2_impl_in {A B} (P Q : A -> B -> Prop) l k :
  Forall2 P l k -> (forall a b, a ∈ l -> P a b -> Q a b) -> Forall2 Q l k.
Proof.
  induction 1 as [|a b l k Hab _ IH]; intros HPQ; constructor; [apply HPQ; [by left|done]|].
  apply IH. intros a' b' Ha. apply HPQ. by right.
Qed.

Lemma lease_batch_wp peer lease expires batch : forall db (Q : list DeliveryItem -> _ -> Prop),
  client_ok db -> (forall row, row ∈ batch -> row ∈ client_operations db) ->
  NoDup (List.map op_operation_id batch) ->
  (forall items, Forall2 (leased_item db peer) batch items -> Q items (lease_batch db peer lease expires batch)) ->
  wp (collect_items (fun row => lease_one peer lease expires (op_operation_id row)) batch) db Q.
Proof.
  induction batch as [|row batch IH]; intros db Q Hok Hin Hn HQ.
  - apply wp_ret. rewrite <- (lease_batch_nil db peer lease expires). by apply HQ.
  - cbn [collect_items]. wp_step.
    intros item db1 E. pose proof (keeps_lease_one peer lease expires (op_operation_id row) db Hok item db1 E) as Hok1.
    revert item db1 E Hok1.
    apply (lease_one_wp db peer lease expires row (fun item db1 => client_ok db1 -> wp _ db1 Q)); [done|apply Hin; by left|].
    intros item Hitem Hok1. wp_step. cbn in Hn. pose proof Hn as [Hrow Hn']%NoDup_cons.
    apply IH; [done|by intros r Hr; apply Hin; right|done|]. intros items Hitems. wp_step.
    rewrite lease_batch_cons by done. apply HQ. constructor; [done|].
    eapply Forall2_impl_in; [exact Hitems|]. cbn. intros r i Hr. apply leased_item_ext.
    unfold delivery. cbn. rewrite query_update by done. destruct (query_row _ _) as [d|] eqn:E; [|done]. cbn.
    apply query_row_Some in E as [_ E%has_delivery_eq]. destruct (has_delivery peer (op_operation_id row) d) eqn:E'; [|done].
    apply has_delivery_eq in E'. rewrite E in E'. injection E' as E'. destruct Hrow. rewrite <- E'.
    apply list_elem_of_In, in_map. by apply list_elem_of_In.
Qed.

Definition due_batch db (peer : list Z) (now limit : Z) : list ClientOperationRow :=
  firstn (Z.to_nat limit) (merge_sort sequence_order (due_operations db peer now)).

Lemma elem_of_batch db peer now limit row : row ∈ due_batch db peer now limit -> row ∈ due_operations db peer now.
Proof.
  intros (i & Hi & _)%elem_of_take. apply list_elem_of_lookup_2 in Hi. by rewrite merge_sort_Permutation in Hi.
Qed.

Lemma elem_of_due db peer now row :
  row ∈ due_operations db peer now <->
  row ∈ client_operations db
  /\ (exists d, d ∈ client_deliveries db /\ delivery_key d = (peer, op_operation_id row) /\ delivery_due now d = true)
  /\ exists config, config ∈ client_peers db /\ peer_id config = peer /\ enabled config = true.
Proof.
  unfold due_operations. rewrite elem_of_select, andb_true_iff, !exists_row_true.
  setoid_rewrite andb_true_iff. setoid_rewrite has_delivery_eq. by setoid_rewrite has_peer_eq.
Qed.

Lemma select_sublist {A} (f : A -> bool) l : sublist (select f l) l.
Proof. unfold select. induction l as [|a l IH]; [constructor|]. cbn. destruct (f a); by constructor. Qed.

Lemma StronglySorted_sublist {A} (R : A -> A -> Prop) l k : StronglySorted R l -> sublist k l -> StronglySorted R k.
Proof.
  intros Hl Hs. revert Hl. induction Hs as [|a k l Hs IH|a k l Hs IH]; intros Hl; [constructor|..];
    apply StronglySorted_inv in Hl as [Hl Ha]; [|by apply IH].
  constructor; [by apply IH|]. rewrite Forall_forall in Ha |- *. intros b Hb. apply Ha. by eapply sublist_subseteq.
Qed.

Lemma StronglySorted_key {A B} (R : B -> B -> Prop) (key : A -> B) l :
  StronglySorted R (List.map key l) -> StronglySorted (fun a b => R (key a) (key b)) l.
Proof.
  induction l as [|a l IH]; intros Hl; [constructor|]. cbn [List.map] in Hl.
  apply StronglySorted_inv in Hl as [Hl Ha]. constructor; [by apply IH|]. exact (proj1 (List.Forall_map _ _ _) Ha).
Qed.

(** The operations are in the order of their sequences, so sorting leaves them. *)
Lemma batch_sublist db peer now limit : client_ok db -> sublist (due_batch db peer now limit) (client_operations db).
Proof.
  intros [[Ho _ _ _ _ _] _]. unfold due_batch.
  assert (Hdue : sublist (due_operations db peer now) (client_operations db)) by apply select_sublist.
  replace (merge_sort sequence_order (due_operations db peer now)) with (due_operations db peer now).
  { etrans; [apply sublist_take|done]. }
  assert (Hs : StronglySorted (fun a b => op_local_sequence a < op_local_sequence b) (due_operations db peer now)).
  { eapply StronglySorted_sublist; [|exact Hdue]. by apply StronglySorted_key. }
  apply (StronglySorted_unique_strong sequence_order).
  - intros a b Ha Hb Hab Hba. rewrite (merge_sort_Permutation sequence_order) in Hb. unfold sequence_order in *.
    clear Hdue. revert a b Ha Hb Hab Hba. induction Hs as [|c l Hl IH Hc]; intros a b Ha Hb Hab Hba; [by apply not_elem_of_nil in Ha|].
    rewrite Forall_forall in Hc. apply elem_of_cons in Ha as [->|Ha]; apply elem_of_cons in Hb as [->|Hb]; try done.
    + specialize (Hc b Hb). cbn in Hc. lia.
    + specialize (Hc a Ha). cbn in Hc. lia.
    + by apply IH.
  - clear -Hs. induction Hs as [|a l Hl IH Ha]; constructor; [done|]. eapply Forall_impl; [exact Ha|].
    cbn. unfold sequence_order. intros b. lia.
  - apply StronglySorted_merge_sort. 
    + intros a b c. unfold sequence_order. lia.
    + intros a b. unfold sequence_order. lia.
  - symmetry. apply merge_sort_Permutation.
Qed.

Lemma lease_due_wp db peer now duration limit lease (Q : list DeliveryItem -> _ -> Prop) :
  client_ok db ->
  (forall expires items, lease_expiry now duration = Ok expires ->
    Forall2 (leased_item db peer) (due_batch db peer now limit) items ->
    Q items (lease_batch db peer lease expires (due_batch db peer now limit))) ->
  wp (lease_due peer now duration limit lease) db Q.
Proof.
  intros Hok HQ. unfold lease_due. do 8 (wp_step; cbv beta). apply lease_batch_wp; [done|..].
  - intros row Hin%elem_of_batch. by apply elem_of_due in Hin as [? _].
  - eapply sublist_NoDup; [apply Hok|]. by apply (fmap_sublist op_operation_id), batch_sublist.
  - intros items Hitems. by apply HQ.
Qed.

(** A delivery in the batch is due. *)
Lemma in_batch_due db peer now limit d :
  client_ok db -> d ∈ client_deliveries db -> in_batch peer (due_batch db peer now limit) d = true ->
  delivery_peer_id d = peer /\ delivery_due now d = true.
Proof.
  intros Hok Hd (row & Hrow%elem_of_batch & Hk%has_delivery_eq)%exists_row_true.
  apply elem_of_due in Hrow as (_ & (d' & Hd' & Hk' & Hdue) & _).
  assert (d = d') as ->.
  { apply (NoDup_key_inj delivery_key (client_deliveries db)); [apply Hok|done..|]. by rewrite Hk'. }
  injection Hk as -> _. done.
Qed.

Lemma evolving_lease_due db peer now duration limit lease :
  client_ok db ->
  wp (lease_due peer now duration limit lease) db (fun _ => evolves (LeaseDue peer now duration limit lease) db).
Proof.
  intros Hok. apply lease_due_wp; [done|]. intros expires items He _. apply evolves_update; [done|].
  intros d Hd Hb. destruct (in_batch_due _ _ _ _ _ Hok Hd Hb) as [Hp Hdue]. cbn. repeat split; eauto.
Qed.

Lemma evolving_finish c db peer operation lease state at_ text :
  (forall row, holds_lease peer operation lease row = true -> moves c row (finished_delivery state at_ text row)) ->
  wp (finish_delivery peer operation lease state at_ text) db (fun _ => evolves c db).
Proof.
  intros Hm. unfold finish_delivery. do 5 (wp_step; cbv beta). apply wp_update_deliveries. intros _. cbv beta. wp_step.
  apply evolves_update; [done|]. intros row _. apply Hm.
Qed.

Lemma evolving_release db peer lease :
  wp (release_lease peer lease) db (fun _ => evolves (ReleaseLease peer lease) db).
Proof.
  apply wp_update_deliveries. intros _. apply evolves_update; [done|]. intros row _ Hr. cbn. split; [|done].
  unfold holds_lease. apply andb_true_iff in Hr as [[Hp Hs]%andb_true_iff Hl]. rewrite Hs, Hl.
  unfold has_delivery. rewrite Hp, list_eqb_refl. done.
Qed.

Lemma evolving_requeue db peer space now :
  wp (requeue_unacknowledged_peer_space peer space now) db (fun _ => evolves (Requeue peer space now) db).
Proof.
  unfold requeue_unacknowledged_peer_space. pose proof (extends_refl db) as Hx.
  do 7 (wp_step; cbv beta). apply (wp_extends _ db); [apply extending_queue_operations|done|]. intros [] db1 Hx1. cbv beta.
  wp_step. apply wp_update_deliveries. intros _. cbv beta. wp_step.
  eapply wp_mono; [apply extending_queue_known_space|]. intros [] db2 Hx2. cbv beta. wp_step.
  eapply wp_mono; [apply extending_transfers|]. intros n db3 Hx3. cbv beta. wp_step.
  eapply extends_evolves_trans; [exact Hx1|]. eapply evolves_extends_trans; [|eapply extends_trans; done].
  apply evolves_update; [done|]. intros row _ Hr. bool_prop. cbn. split; [|split; [|done]].
  - match goal with Hp : list_eqb _ _ = true |- _ => by apply list_eqb_eq in Hp end.
  - unfold in_delivery_state in *. bool_prop. done.
Qed.

(** The exception: a deleted workspace takes its deliveries with it. *)
Lemma delete_deliveries db space :
  wp (delete_workspace space) db (fun _ db' =>
    client_operations db' = delete_rows (in_space space) (client_operations db)
    /\ client_deliveries db'
       = delete_rows (fun row => operation_of_space db space (delivery_operation_id row)) (client_deliveries db)).
Proof. unfold delete_workspace. wp_run. done. Qed.

Definition deletes (c : Call) : option (list Z) := match c with DeleteWorkspace space => Some space | _ => None end.

Lemma evolving_exec c db :
  client_ok db -> deletes c = None -> wp (exec c) db (fun _ => evolves c db).
Proof.
  intros Hok Hd. pose proof (extends_refl db) as Hx.
  assert (Hext : forall m : T unit, extending m -> wp m db (fun _ => evolves c db)).
  { intros m Hm. eapply wp_mono; [apply Hm|]. intros [] db' Hx'. by apply extends_evolves. }
  assert (Hdiscard : forall A (m : T A), wp m db (fun _ => evolves c db) -> wp (discard m) db (fun _ => evolves c db)).
  { intros A m Hm. unfold discard. wp_step. eapply wp_mono; [exact Hm|]. intros a db' Hev. by wp_step. }
  assert (Hextd : forall A (m : T A), extending m -> wp (discard m) db (fun _ => evolves c db)).
  { intros A m Hm. apply Hdiscard. eapply wp_mono; [apply Hm|]. intros a db' Hx'. by apply extends_evolves. }
  destruct c; cbn [exec] in *; try done.
  - apply Hdiscard, evolving_commit.
  - apply Hextd, extending_store_workspace.
  - apply Hext. extending_start. unfold set_active_workspace. extend.
  - apply Hext. extending_start. unfold clear_active_workspace. extend.
  - apply Hextd. extending_start. unfold bind_local_identity. extend.
  - apply Hext, extending_upsert_peer.
  - apply Hext, extending_set_enabled.
  - apply Hext, extending_configure.
  - apply evolving_requeue.
  - apply Hext, extending_advance.
  - apply Hext, extending_pull_failure.
  - by apply Hdiscard, evolving_lease_due.
  - by apply evolving_finish.
  - by apply evolving_finish.
  - by apply evolving_finish.
  - apply Hdiscard, evolving_release.
  - apply Hext, extending_mark.
  - apply Hextd, extending_lease_resources.
  - apply Hext, extending_progress.
  - apply Hext, extending_finish_transfer.
  - apply Hext, extending_finish_transfer.
  - apply Hext, extending_finish_transfer.
  - apply Hext, extending_continue.
  - apply Hext, extending_wait.
  - apply Hextd, extending_rebuild.
Qed.

(** ** Sequences of calls *)
Lemma evolves_call db c : client_ok db -> deletes c = None -> evolves c db (call db c).
Proof.
  intros Hok Hd. unfold call, run. destruct (exec c db) as [[[] db']|] eqn:E; [exact (evolving_exec c db Hok Hd tt db' E)|].
  apply extends_evolves, extends_refl.
Qed.

Lemma delete_call db space peer operation row :
  delivery db peer operation = Some row ->
  let db' := call db (DeleteWorkspace space) in
  delivery db' peer operation = Some row
  \/ delivery db' peer operation = None /\ operation_of_space db space operation = true.
Proof.
  intros Hr db'. subst db'. unfold call, run. cbn [exec].
  destruct (delete_workspace space db) as [[[] db']|] eqn:E; [|by left]. cbn.
  destruct (delete_deliveries db space tt db' E) as [_ Ed]. unfold delivery in *. rewrite Ed.
  destruct (operation_of_space db space operation) eqn:Es.
  - right. split; [|done]. apply query_row_None. intros d [Hin Hd]%elem_of_delete_rows.
    apply not_true_iff_false. intros Hk%has_delivery_eq. injection Hk as _ Hk. by rewrite Hk, Es in Hd.
  - left. rewrite query_row_delete; [done|]. intros d Hk%has_delivery_eq. injection Hk as _ ->. done.
Qed.

Lemma kept_delivery db calls peer operation row :
  json_exact -> client_ok db -> Forall call_typed calls -> Forall (fun c => deletes c = None) calls ->
  delivery db peer operation = Some row ->
  exists row', delivery (run_calls calls db) peer operation = Some row'.
Proof.
  intros Hj Hok Ht Hd. revert db row Hok. induction Ht as [|c calls Htc _ IH]; intros db row Hok Hr; [by exists row|].
  apply Forall_cons in Hd as [Hdc Hd]. destruct (evolves_call db c Hok Hdc) as [_ Hev _].
  destruct (Hev _ _ _ Hr) as (row' & Hr' & _). eapply (IH Hd); [by apply client_call_ok|exact Hr'].
Qed.

Lemma kept_operations db calls :
  json_exact -> client_ok db -> Forall call_typed calls -> Forall (fun c => deletes c = None) calls ->
  client_operations db `prefix_of` client_operations (run_calls calls db).
Proof.
  intros Hj Hok Ht Hd. revert db Hok. induction Ht as [|c calls Htc _ IH]; intros db Hok; [done|].
  apply Forall_cons in Hd as [Hdc Hd]. etrans; [apply (evolves_call db c Hok Hdc)|]. apply (IH Hd). by apply client_call_ok.
Qed.

Lemma stored_load db row :
  client_ok db -> row ∈ client_operations db ->
  load_operation_row db (op_operation_id row)
  = let? o := decode_operation (op_projection_json row) in Ok (Some (op_local_sequence row, o)).
Proof.
  intros [[_ Hr _ Hi _ _] _] Hin. unfold load_operation_row.
  rewrite (query_key op_operation_id _ _ row Hi Hin); [|by apply has_operation_eq|by intros b ->%has_operation_eq].
  rewrite Forall_forall in Hr. specialize (Hr row Hin). unfold positive_u64.
  by rewrite (proj2 (Z.ltb_lt 0 (op_local_sequence row))) by lia.
Qed.

Lemma stored_operation db row o :
  client_ok db -> row ∈ client_operations db -> stored_as row o -> reads_back o ->
  operation db (op_operation_id row) = Ok (Some o).
Proof.
  intros Hok Hin Hs Hr. unfold operation. rewrite (stored_load db row Hok Hin). by rewrite (decode_readable row o Hs Hr).
Qed.

(** ** Totality of a lease *)
Lemma due_states now d :
  delivery_constraints d = true -> delivery_due now d = true ->
  delivery_acknowledged_at d = None /\ column_i64 (delivery_next_attempt_at d) = true
  /\ 0 <= delivery_attempt_count d.
Proof.
  unfold delivery_constraints, delivery_due, column_i64. intros Hc Hd. bool_prop.
  repeat split; [|apply andb_true_iff; split; [by apply Z.leb_le|by apply Z.ltb_lt]|done].
  match goal with Hx : Bool.eqb (in_delivery_state DeliveryState.Acknowledged d) _ = true |- _ =>
    apply Bool.eqb_prop in Hx end.
  assert (in_delivery_state DeliveryState.Acknowledged d = false) as Ea.
  { unfold in_delivery_state in *. apply bool_decide_eq_false. intros Es.
    apply orb_true_iff in Hd as [Hd|Hd]; bool_prop; congruence. }
  rewrite Ea in *. by destruct (delivery_acknowledged_at d).
Qed.

(** A condition that only one delivery can satisfy. *)
Lemma select_one_delivery condition db peer id d :
  client_ok db -> delivery db peer id = Some d -> (forall row, condition row = true -> has_delivery peer id row = true) ->
  condition d = true -> select condition (client_deliveries db) = [d].
Proof.
  intros [_ [_ _ _ Hk _ _ _ _ _]] [Hdin Hdk]%query_row_Some Himpl Hc.
  assert (count_rows condition (client_deliveries db) = 1) as Hone.
  { rewrite (count_key delivery_key); [|done|by intros a b ->%Himpl%has_delivery_eq ->%Himpl%has_delivery_eq].
    rewrite (proj2 (exists_row_true _ _)); [done|by eauto]. }
  unfold count_rows in Hone. destruct (select _ _) as [|d1 [|]] eqn:Es; cbn in Hone; try lia.
  assert (d ∈ [d1]) as ->%list_elem_of_singleton by (rewrite <- Es; by apply elem_of_select). done.
Qed.

Lemma lease_one_cases db peer lease expires now row d :
  json_exact -> client_ok db -> row ∈ client_operations db -> delivery db peer (op_operation_id row) = Some d ->
  delivery_due now d = true -> delivery_attempt_count d + 1 < 2 ^ 32 ->
  (readable row /\ exists item db', lease_one peer lease expires (op_operation_id row) db = Ok (item, db'))
  \/ (~ readable row
      /\ exists m, lease_one peer lease expires (op_operation_id row) db = Err (ClientStoreError.Corrupt m)).
Proof.
  intros Hj Hok Hin Hd Hdue Ha. pose proof Hok as [[_ Hr _ Hi Hrows _] [_ _ _ Hk Hv _ _ _ _]].
  pose proof Hd as [Hdin Hdk]%query_row_Some. rewrite Forall_forall in Hv.
  rewrite Forall_forall in Hrows. destruct (Hv d Hdin) as (Hc & _). destruct (due_states now d Hc Hdue) as (Hack & Hnext & Hcount).
  pose proof (select_one_delivery (has_delivery peer (op_operation_id row)) db peer _ d Hok Hd (fun _ Hx => Hx) Hdk) as Hsel.
  unfold lease_one, bind at 1, update_deliveries. cbn [bind get]. unfold bind, get, holds, unless, put, ret, lift, fail.
  rewrite Hsel. cbn [List.map forallb length].
  assert (delivery_constraints (leased_delivery lease expires d) = true) as ->.
  { unfold delivery_constraints, column_i64. cbn. unfold column_i64 in Hnext. rewrite Hack, Hnext.
    rewrite (proj2 (Z.leb_le 0 (delivery_attempt_count d + 1))) by lia.
    by rewrite (proj2 (Z.ltb_lt (delivery_attempt_count d + 1) (2 ^ 63))) by lia. }
  cbn. destruct (Hrows row Hin) as (o & Hs & _). change (negb (Z.of_nat 1 =? 1)) with false. cbn.
  match goal with |- context [load_operation_row ?db1 _] => change (load_operation_row db1) with (load_operation_row db) end.
  rewrite (stored_load db row Hok Hin).
  destruct (decode_cases row o Hj Hs) as [[Hrd ->]|[Hrd [m ->]]]; [left|right; split; [done|by eexists]].
  split; [done|]. cbn. unfold require_row. rewrite leased_lookup, Hd. cbn. unfold counter_u32, checked_u. cbn.
  rewrite (proj2 (Z.leb_le 0 (delivery_attempt_count d + 1))) by lia.
  rewrite (proj2 (Z.ltb_lt (delivery_attempt_count d + 1) (2 ^ 32))) by lia. cbn. eauto.
Qed.

Lemma lease_batch_cases peer lease expires now batch : forall db,
  json_exact -> client_ok db -> NoDup (List.map op_operation_id batch) ->
  (forall row, row ∈ batch -> row ∈ client_operations db /\ exists d, delivery db peer (op_operation_id row) = Some d
     /\ delivery_due now d = true /\ delivery_attempt_count d + 1 < 2 ^ 32) ->
  let leases := collect_items (fun row => lease_one peer lease expires (op_operation_id row)) batch db in
  (Forall readable batch /\ exists items db', leases = Ok (items, db'))
  \/ (~ Forall readable batch /\ exists m, leases = Err (ClientStoreError.Corrupt m)).
Proof.
  induction batch as [|row batch IH]; intros db Hj Hok Hn Hb; [left; split; [constructor|by eexists _, _]|].
  destruct (Hb row) as (Hin & d & Hd & Hdue & Ha); [by left|]. cbv zeta. cbn [collect_items]. unfold bind.
  destruct (lease_one_cases db peer lease expires now row d Hj Hok Hin Hd Hdue Ha)
    as [[Hrow (item & db1 & E)]|[Hrow [m E]]].
  2:{ right. split; [by intros [? _]%Forall_cons|]. exists m. by rewrite E. }
  pose proof (keeps_lease_one peer lease expires (op_operation_id row) db Hok item db1 E) as Hok1.
  assert (db1 = with_deliveries db (update_rows (has_delivery peer (op_operation_id row)) (leased_delivery lease expires)
    (client_deliveries db))) as ->.
  { revert item db1 E Hok1. apply (lease_one_wp db peer lease expires row (fun _ db1 => client_ok db1 -> db1 = _)); done. }
  cbn in Hn. apply NoDup_cons in Hn as [Hnot Hn]. rewrite E.
  edestruct (IH _ Hj Hok1 Hn) as [[Hrest (items & db' & E')]|[Hrest [m E']]].
  - intros r Hr. destruct (Hb r) as (Hrin & dr & Hdr & Hx); [by right|]. split; [done|]. exists dr. split; [|done].
    unfold delivery in *. cbn. rewrite query_update by done. rewrite Hdr. cbn.
    apply query_row_Some in Hdr as [_ Hk%has_delivery_eq].
    destruct (has_delivery peer (op_operation_id row) dr) eqn:E'; [|done]. apply has_delivery_eq in E'.
    rewrite Hk in E'. injection E' as E'. destruct Hnot. rewrite <- E'. apply list_elem_of_In, in_map.
    by apply list_elem_of_In.
  - left. split; [by constructor|]. rewrite E'. by eexists _, _.
  - right. split; [by intros [_ ?]%Forall_cons|]. rewrite E'. by exists m.
Qed.

Lemma StronglySorted_before {A} (R : A -> A -> Prop) l i j a b :
  StronglySorted R l -> (forall x y, R x y -> ~ R y x) -> l !! i = Some a -> l !! j = Some b -> R b a -> (j < i)%nat.
Proof.
  intros Hs Has Ha Hb Hba. destruct (Nat.lt_trichotomy i j) as [Hij|[->|]]; [|by simplify_eq; destruct (Has a a)|done].
  exfalso. apply (Has b a Hba). clear Hba. revert i j Ha Hb Hij. induction Hs as [|c l Hs IH Hc]; [done|].
  intros [|i] [|j] Ha Hb Hij; try lia.
  - injection Ha as <-. rewrite Forall_forall in Hc. apply Hc. by eapply list_elem_of_lookup_2.
  - apply (IH i j); [done..|lia].
Qed.

(** ** What a commit owes *)

(** The tables that say who receives an operation. *)
Definition same_targets db db' : Prop :=
  client_operations db' = client_operations db /\ client_peers db' = client_peers db
  /\ client_peer_spaces db' = client_peer_spaces db.

Lemma same_targets_trans db1 db2 db3 : same_targets db1 db2 -> same_targets db2 db3 -> same_targets db1 db3.
Proof. unfold same_targets. intuition congruence. Qed.
Lemma receives_same db db' id excluded peer :
  same_targets db db' -> receives db' id excluded peer = receives db id excluded peer.
Proof. intros (Eo & Ep & Es). unfold receives, unscoped, operation_of_space. by rewrite Eo, Ep, Es. Qed.

Lemma targets_insert_delivery row db : wp (insert_or_ignore_delivery row) db (fun _ => same_targets db).
Proof. unfold insert_or_ignore_delivery. by wp_run. Qed.
Lemma targets_insert_transfer row db : wp (insert_or_ignore_transfer row) db (fun _ => same_targets db).
Proof. unfold insert_or_ignore_transfer. by wp_run. Qed.

Lemma targets_each {A} (f : A -> T unit) l db :
  (forall a db, wp (f a) db (fun _ => same_targets db)) -> wp (each f l) db (fun _ => same_targets db).
Proof.
  intros Hf. apply (wp_each f (same_targets db)); [done| |done]. intros a db1 _ Hs1.
  eapply wp_mono; [apply Hf|]. intros [] db2. by apply same_targets_trans.
Qed.

Lemma targets_local_resource at_ resource db :
  wp (apply_one_resource at_ CommitSource.Local resource) db (fun _ => same_targets db).
Proof.
  unfold apply_one_resource. wp_step; cbv beta. wp_step; cbv beta. wp_step. wp_step. cbv beta.
  unfold queue_resource_uploads. wp_step. wp_step. cbv beta.
  eapply wp_mono; [apply targets_each; intros other db1; apply targets_each; intros r; apply targets_insert_transfer|].
  intros [] db1. by apply same_targets_trans.
Qed.

(** An inserted delivery is there. *)
Lemma insert_delivery_owed row db :
  delivery_constraints row = true -> delivery_state row = DeliveryState.Pending ->
  wp (insert_or_ignore_delivery row) db (fun _ db' =>
    extends db db' /\ is_Some (delivery db' (delivery_peer_id row) (delivery_operation_id row))).
Proof.
  intros Hc Hs. unfold insert_or_ignore_delivery. wp_step. wp_step. rewrite Hc, orb_false_r. wp_step.
  - wp_step. split; [apply extends_refl|]. by apply exists_query in E.
  - wp_run. split; [by apply extends_snoc|]. rewrite delivery_snoc, (proj2 (has_delivery_eq _ _ row) eq_refl).
    by destruct (delivery db _ _).
Qed.

Lemma each_owed (row : PeerConfig -> DeliveryRow) peers : forall db,
  (forall peer, delivery_constraints (row peer) = true /\ delivery_state (row peer) = DeliveryState.Pending) ->
  wp (each (fun peer => insert_or_ignore_delivery (row peer)) peers) db (fun _ db' =>
    extends db db' /\ forall peer, peer ∈ peers ->
      is_Some (delivery db' (delivery_peer_id (row peer)) (delivery_operation_id (row peer)))).
Proof.
  induction peers as [|peer peers IH]; intros db Hc; cbn [each].
  - apply wp_ret. split; [apply extends_refl|]. by intros peer Hin%not_elem_of_nil.
  - wp_step. eapply wp_mono; [by apply insert_delivery_owed; apply Hc|]. intros [] db1 [Hx [d Hd]].
    eapply wp_mono; [by apply IH|]. intros [] db2 [Hx2 Hall]. split; [by eapply extends_trans|].
    intros other [->|Hin]%elem_of_cons; [|by apply Hall]. exists d. by apply Hx2.
Qed.

(** The peers that receive a local operation get a delivery of it. *)
Definition owed db (id : list Z) : Prop :=
  forall peer, peer ∈ client_peers db -> receives db id None peer = true -> is_Some (delivery db (peer_id peer) id).

Lemma sources_owed o at_ db :
  0 <= at_ < 2 ^ 63 ->
  wp (apply_sources o at_ CommitSource.Local) db (fun _ db' =>
    extends db db' /\ owed db' (OperationEnvelope.operation_id o)).
Proof.
  intros Hat. unfold apply_sources. wp_step. cbn [apply_delivery_source].
  assert (Hdeliveries : wp (apply_delivery_source (OperationEnvelope.operation_id o) at_ CommitSource.Local) db
    (fun _ db' => same_targets db db' /\ extends db db' /\ owed db' (OperationEnvelope.operation_id o))).
  { unfold apply_delivery_source. wp_step. wp_step. cbv beta.
    intros [] db' E. assert (Hs : same_targets db db').
    { refine (targets_each _ _ db _ tt db' E). intros peer db1. apply targets_insert_delivery. }
    split; [done|]. refine (wp_mono _ _ _ (fun _ db' => same_targets db db' -> _) (each_owed (fun peer =>
      pending_delivery (peer_id peer) (OperationEnvelope.operation_id o) at_) _ db _) _ tt db' E Hs).
    - intros peer. split; [|done]. unfold delivery_constraints, column_i64. cbn.
      by rewrite (proj2 (Z.leb_le 0 at_)), (proj2 (Z.ltb_lt at_ (2 ^ 63))) by lia.
    - intros [] db1 [Hx Hall] Hs1. split; [done|]. intros peer Hin Hr. apply Hall, elem_of_select.
      rewrite (receives_same _ _ _ _ _ Hs1) in Hr. by rewrite <- (proj1 (proj2 Hs1)). }
  eapply wp_mono; [exact Hdeliveries|]. intros [] db1 (_ & Hx & Howed). cbv beta. unfold apply_resource_source.
  assert (Hres : wp (each (apply_one_resource at_ CommitSource.Local) (OperationBody.resources (OperationEnvelope.body o)))
    db1 (fun _ => same_targets db1)) by (apply targets_each; intros r db2; apply targets_local_resource).
  intros [] db2 E2. pose proof (Hres tt db2 E2) as Hs. pose proof (extending_resource_source o at_ CommitSource.Local db1 tt db2 E2)
    as Hx2. split; [by eapply extends_trans|]. intros peer Hin Hr. rewrite (receives_same _ _ _ _ _ Hs) in Hr.
  rewrite (proj1 (proj2 Hs)) in Hin. destruct (Howed peer Hin Hr) as [d Hd]. exists d. by apply Hx2.
Qed.

(** A commit leaves the operation stored. *)
Definition holds_operation db (o : OperationEnvelope.t) : Prop :=
  exists row o', row ∈ client_operations db /\ op_operation_id row = OperationEnvelope.operation_id o
    /\ stored_as row o' /\ (o' = o \/ envelope_eqb o' o = true).

Lemma holds_operation_prefix db db' o :
  client_operations db `prefix_of` client_operations db' -> holds_operation db o -> holds_operation db' o.
Proof.
  intros [rest E] (row & o' & Hin & Hx). exists row, o'. split; [|done]. rewrite E. apply elem_of_app. by left.
Qed.

(** What a commit does before and after its source: the operation is stored, and then the
    source is applied. *)
Lemma commit_wp o at_ source (R : ClientDatabase -> Prop) db :
  json_exact -> client_ok db -> typed_operation o ->
  (forall db, wp (apply_sources o at_ source) db (fun _ db' =>
    client_operations db `prefix_of` client_operations db' /\ R db')) ->
  wp (commit o at_ source) db (fun _ db' => holds_operation db' o /\ R db').
Proof.
  intros Hj Hok Ht Hs. unfold commit, commit_transaction. wp_step; cbv beta. apply wp_lift. intros [] Hv.
  wp_step; cbv beta. wp_step; cbv beta. wp_step; cbv beta. apply wp_lift. intros json Ej.
  wp_step; cbv beta. wp_step; cbv beta. wp_step; cbv beta. apply wp_lift. intros found Ef.
  destruct found as [[sequence existing]|].
  - wp_step; cbv beta. apply wp_unless. intros He%negb_false_iff. cbv beta. wp_step; cbv beta.
    eapply wp_mono; [by apply Hs|]. intros [] db1 [Hx HR]. wp_run. split; [|done].
    eapply holds_operation_prefix; [apply Hx|]. unfold load_operation_row in Ef.
    destruct (query_row _ _) as [row|] eqn:Eq; [|done]. apply query_row_Some in Eq as [Hin Hid%has_operation_eq].
    destruct (positive_u64 _); [|done]. destruct (decode_operation _) as [o'|] eqn:Ed; [|done]. simplify_eq.
    pose proof Hok as [[_ _ _ _ Hrows _] _]. rewrite Forall_forall in Hrows. destruct (Hrows row Hin) as (o2 & Hs2 & _).
    apply (decode_stored row o2 _ Hj Hs2) in Ed as <-. exists row, existing.
    split; [done|]. split; [done|]. split; [done|by right].
  - wp_step; cbv beta. wp_step; cbv beta. wp_step; cbv beta. wp_step; cbv beta. wp_step; cbv beta.
    apply insert_operation_wp. intros Hnew. cbv zeta. wp_step.
    match goal with |- wp _ ?db1 _ => assert (holds_operation db1 o) as Hholds end.
    { eexists _, o. split; [cbn [with_client_operations client_operations]; apply elem_of_app; right; apply list_elem_of_here|].
      split; [done|]. split; [|by left]. destruct (to_json o) as [text|] eqn:E; [|done]. injection Ej as ->.
      destruct (OperationEnvelope.verify o) as [[]|] eqn:Ev; [|by cbn in Hv]. by constructor. }
    match goal with |- wp _ ?db1 _ => pose proof (extends_refl db1) as Hx1; generalize dependent db1 end.
    intros db1 Hholds Hx1.
    eapply wp_extends; [apply extending_graph|exact Hx1|]. intros [] db2 Hx2. cbv beta. wp_step.
    eapply wp_extends; [apply extending_projection|exact Hx2|]. intros [] db3 Hx3. cbv beta. wp_step.
    eapply wp_extends; [apply extending_operation_resources|exact Hx3|]. intros [] db4 Hx4. cbv beta. wp_step.
    eapply wp_mono; [by apply Hs|]. intros [] db5 [Hx5 HR]. wp_run. split; [|done].
    eapply holds_operation_prefix; [|exact Hholds]. etrans; [apply Hx4|apply Hx5].
Qed.

Lemma commit_owed o at_ db :
  json_exact -> client_ok db -> typed_operation o -> 0 <= at_ < 2 ^ 63 ->
  wp (commit_local o at_) db (fun _ db' => holds_operation db' o /\ owed db' (OperationEnvelope.operation_id o)).
Proof.
  intros Hj Hok Ht Hat. apply commit_wp; [done..|]. intros db1. eapply wp_mono; [by apply sources_owed|].
  intros [] db2 [Hx Howed]. split; [apply Hx|done].
Qed.

Lemma commit_holds o at_ source db :
  json_exact -> client_ok db -> typed_operation o -> wp (commit o at_ source) db (fun _ db' => holds_operation db' o).
Proof.
  intros Hj Hok Ht. eapply wp_mono; [apply (commit_wp o at_ source (fun _ => True)); [done..|]|by intros a db' []].
  intros db1. apply (evolving_sources o at_ source db1); [apply extends_refl|]. intros db2 Hev. split; [apply Hev|done].
Qed.

(** ** The properties *)

(** C15: what can happen to a delivery: every call leaves it as it is or moves it along
    the state machine of leases (taken when due, finished or released by its holder,
    requeued, acknowledged by its source); an acknowledged delivery stays acknowledged,
    and only the deletion of its workspace removes it. *)
Theorem delivery_lifecycle db c peer operation row :
  json_exact -> client_reachable db -> delivery db peer operation = Some row ->
  match deletes c with
  | None => exists row', delivery (call db c) peer operation = Some row'
      /\ (row' = row \/ moves c row row')
      /\ (delivery_state row = DeliveryState.Acknowledged -> delivery_state row' = DeliveryState.Acknowledged)
  | Some space =>
      delivery (call db c) peer operation = Some row
      \/ delivery (call db c) peer operation = None /\ operation_of_space db space operation = true
  end.
Proof.
  intros Hj Hr%client_reachable_ok Hd; [|done]. destruct (deletes c) as [space|] eqn:Edel.
  - destruct c; try done. injection Edel as ->. by apply delete_call.
  - destruct (evolves_call db c Hr Edel) as [_ Hev _]. destruct (Hev _ _ _ Hd) as (row' & Hd' & Hm).
    exists row'. split; [done|split; [done|]]. intros Hack. destruct Hm as [->|Hm]; [done|].
    assert (Hlease : forall p o l, holds_lease p o l row = true -> False).
    { intros p o l Hl. unfold holds_lease, in_delivery_state in Hl. bool_prop. congruence. }
    destruct c; cbn in Hm; try done; try (destruct Hm as [Hm _]; by destruct (Hlease _ _ _ Hm)).
    + destruct source; [done..|]. by destruct Hm as (_ & _ & ->).
    + by destruct Hm as (_ & Hm & _).
    + destruct Hm as (_ & Hdue & _). unfold delivery_due, in_delivery_state in Hdue. rewrite Hack in Hdue. done.
Qed.






(** C10: a locally committed operation stays stored, as it was signed, and every peer that
    receives it keeps a delivery of it, whatever is called afterwards, short of deleting a
    workspace.  It is read from the store as it was stored when its JSON text reads back. *)
Theorem committed_operations_are_owed db o at_ result calls :
  json_exact -> client_reachable db -> typed_operation o -> 0 <= at_ < 2 ^ 63 ->
  fst (run (commit_local o at_) db) = Ok result ->
  Forall call_typed calls -> Forall (fun c => deletes c = None) calls ->
  let id := OperationEnvelope.operation_id o in
  let db1 := snd (run (commit_local o at_) db) in
  let db2 := run_calls calls db1 in
  (exists row o', row ∈ client_operations db2 /\ op_operation_id row = id
     /\ to_json o' = Some (op_projection_json row) /\ (o' = o \/ envelope_eqb o' o = true)
     /\ (reads_back o' -> operation db2 id = Ok (Some o')))
  /\ forall peer, peer ∈ client_peers db1 -> receives db1 id None peer = true ->
     exists row, delivery db2 (peer_id peer) id = Some row.
Proof.
  intros Hj Hr%client_reachable_ok Ht Hat Hrun Hc Hdel; [|done]. cbv zeta.
  unfold run in *. destruct (commit_local o at_ db) as [[r db1]|] eqn:E; [|done]. cbn [fst snd].
  destruct (commit_owed o at_ db Hj Hr Ht Hat _ _ E) as [Hholds Howed].
  pose proof (keeps_commit o at_ CommitSource.Local Ht db Hr _ _ E) as Hok1.
  pose proof (run_calls_ok calls db1 Hj Hc Hok1) as Hok2. split.
  - eapply holds_operation_prefix in Hholds as (row & o' & Hin & Hid & Hs & Heq); [|by apply (kept_operations db1 calls)].
    exists row, o'. do 2 (split; [done|]). split; [apply Hs|]. split; [done|]. intros Hrb.
    rewrite <- Hid. by apply stored_operation.
  - intros peer Hin Hrec. destruct (Howed peer Hin Hrec) as [d Hd]. by apply (kept_delivery db1 calls _ _ d).
Qed.

Lemma lease_due_runs db peer now duration limit lease expires :
  json_exact -> client_ok db -> 0 <= now -> 1 <= limit <= MAX_OUTBOX_BATCH ->
  lease_expiry now duration = Ok expires ->
  (forall d, d ∈ client_deliveries db -> delivery_attempt_count d + 1 < 2 ^ 32) ->
  let batch := due_batch db peer now limit in
  (Forall readable batch /\ exists items,
     run (lease_due peer now duration limit lease) db = (Ok items, lease_batch db peer lease expires batch)
     /\ Forall2 (leased_item db peer) batch items)
  \/ (~ Forall readable batch /\ exists m,
       run (lease_due peer now duration limit lease) db = (Err (ClientStoreError.Corrupt m), db)).
Proof.
  intros Hj Hr Hnow Hlimit He Ha batch.
  assert (Hrun : lease_due peer now duration limit lease db
    = collect_items (fun row => lease_one peer lease expires (op_operation_id row)) batch db).
  { unfold lease_due, bind, unless, lift, get, ret, fail. rewrite (proj2 (Z.ltb_ge now 0)) by lia.
    unfold between. rewrite (proj2 (Z.leb_le 1 limit)), (proj2 (Z.leb_le limit MAX_OUTBOX_BATCH)) by lia.
    cbn. by rewrite He. }
  destruct (lease_batch_cases peer lease expires now batch db Hj Hr) as [[Hb (items & db' & E)]|[Hb [m E]]].
  - eapply sublist_NoDup; [apply Hr|]. by apply (fmap_sublist op_operation_id), batch_sublist.
  - intros row Hin%elem_of_batch. apply elem_of_due in Hin as (Hin & (d & Hd & Hk & Hdue) & _). split; [done|].
    exists d. repeat split; [|done|by apply Ha]. unfold delivery. apply query_key with (key := delivery_key); [apply Hr|done|..].
    + by apply has_delivery_eq.
    + intros b Hb%has_delivery_eq. congruence.
  - left. split; [done|]. rewrite <- Hrun in E. exists items. unfold run. rewrite E.
    destruct (lease_due_wp db peer now duration limit lease
      (fun items db' => Forall2 (leased_item db peer) batch items /\ db' = lease_batch db peer lease expires batch) Hr)
      with items db' as [Hitems ->]; [|done|done].
    intros expires' items' He' Hitems. rewrite He in He'. by injection He' as <-.
  - right. split; [done|]. exists m. unfold run. by rewrite Hrun, E.
Qed.

(** A delivery after its batch was leased. *)
Lemma lease_batch_delivery db peer lease expires batch row :
  delivery (lease_batch db peer lease expires batch) peer (op_operation_id row)
  = (fun d => if in_batch peer batch d then leased_delivery lease expires d else d)
      <$> delivery db peer (op_operation_id row).
Proof. unfold delivery. cbn. by rewrite query_update. Qed.

(** C16: what [lease_due] returns: the due operations of the peer by their sequences, up to
    the limit, each with the number of its attempt; it leases their deliveries and
    changes nothing else, and in the batch an operation comes after those it refers to.
    This when the JSON text of every operation of the batch reads back: one that does not
    makes the call fail as corrupt, and then it leases nothing. *)
Theorem lease_due_spec db peer now duration limit lease expires :
  json_exact -> client_reachable db -> 0 <= now -> 1 <= limit <= MAX_OUTBOX_BATCH ->
  lease_expiry now duration = Ok expires ->
  (forall d, d ∈ client_deliveries db -> delivery_attempt_count d + 1 < 2 ^ 32) ->
  let batch := due_batch db peer now limit in
  (Forall readable batch -> exists items,
     run (lease_due peer now duration limit lease) db = (Ok items, lease_batch db peer lease expires batch)
     /\ Forall2 (leased_item db peer) batch items)
  /\ (~ Forall readable batch -> exists m,
       run (lease_due peer now duration limit lease) db = (Err (ClientStoreError.Corrupt m), db))
  /\ forall i j a b, batch !! i = Some a -> batch !! j = Some b ->
       listed (client_operation_parents db ++ client_operation_authorizations db) (op_operation_id b) (op_operation_id a) ->
       (i < j)%nat.
Proof.
  intros Hj Hr%client_reachable_ok Hnow Hlimit He Ha batch; [|done].
  pose proof (lease_due_runs db peer now duration limit lease expires Hj Hr Hnow Hlimit He Ha) as Hcases.
  split; [by intros ?; destruct Hcases as [[_ ?]|[? _]]|]. split; [by intros ?; destruct Hcases as [[? _]|[_ ?]]|].
  intros i j a b Ha' Hb (position & Href).
  pose proof Hr as [[Horder _ _ Hids _ Hrefs] _]. destruct (Hrefs _ Href) as (e & l & Hein & Hlin & He1 & Hl1 & Hlt).
  cbn in He1, Hl1. pose proof (batch_sublist db peer now limit Hr) as Hsub.
  assert (Hin : forall k c, batch !! k = Some c -> c ∈ client_operations db).
  { intros k c Hc. eapply sublist_subseteq; [exact Hsub|]. by eapply list_elem_of_lookup_2. }
  assert (e = a) as -> by (eapply (NoDup_key_inj op_operation_id); eauto).
  assert (l = b) as -> by (eapply (NoDup_key_inj op_operation_id); eauto).
  eapply (StronglySorted_before (fun x y => op_local_sequence x < op_local_sequence y) batch j i); [|lia|done..].
  eapply StronglySorted_sublist; [|exact Hsub]. by apply StronglySorted_key.
Qed.

(** An operation that was refused, or backs off, does not hold back the operations
    that refer to it: the next batch leases them without it, when the operations of the
    batch read back. *)
Theorem undue_operation_does_not_hold_its_dependents db peer now duration limit lease expires a b d :
  json_exact -> client_reachable db -> 0 <= now -> 1 <= limit <= MAX_OUTBOX_BATCH ->
  lease_expiry now duration = Ok expires ->
  (forall d, d ∈ client_deliveries db -> delivery_attempt_count d + 1 < 2 ^ 32) ->
  a ∈ client_operations db ->
  listed (client_operation_parents db ++ client_operation_authorizations db) (op_operation_id b) (op_operation_id a) ->
  delivery db peer (op_operation_id a) = Some d -> delivery_due now d = false ->
  b ∈ due_operations db peer now -> Z.of_nat (length (due_operations db peer now)) <= limit ->
  Forall readable (due_batch db peer now limit) ->
  exists items db', run (lease_due peer now duration limit lease) db = (Ok items, db')
    /\ (exists item, item ∈ items /\ decode_operation (op_projection_json b) = Ok (item_operation item))
    /\ delivery db' peer (op_operation_id a) = Some d
    /\ exists row, delivery db' peer (op_operation_id b) = Some row /\ delivery_state row = DeliveryState.Leased.
Proof.
  intros Hj Hr%client_reachable_ok Hnow Hlimit He Ha Hain _ Hd Hundue Hb Hlen Hread; [|done].
  destruct (lease_due_runs db peer now duration limit lease expires Hj Hr Hnow Hlimit He Ha)
    as [[_ (items & Hrun & Hitems)]|[Hbad _]]; [|done].
  assert (Hbatch : b ∈ due_batch db peer now limit).
  { unfold due_batch. rewrite firstn_all2; [by rewrite merge_sort_Permutation|]. rewrite merge_sort_Permutation. lia. }
  exists items, (lease_batch db peer lease expires (due_batch db peer now limit)). split; [done|]. split; [|split].
  - apply list_elem_of_lookup in Hbatch as [i Hi]. destruct (Forall2_lookup_l _ _ _ _ _ Hitems Hi) as (item & Hitem & Hl & _).
    exists item. split; [by eapply list_elem_of_lookup_2|done].
  - rewrite lease_batch_delivery, Hd. cbn. destruct (in_batch _ _ d) eqn:E; [|done].
    apply query_row_Some in Hd as [Hd _]. destruct (in_batch_due db peer now limit d Hr Hd E) as [_ E']. congruence.
  - pose proof Hb as (_ & (d' & Hd' & Hk & _) & _)%elem_of_due.
    rewrite lease_batch_delivery. unfold delivery. rewrite (query_key delivery_key _ _ d'); [|apply Hr|done|by apply has_delivery_eq|].
    + cbn. assert (in_batch peer (due_batch db peer now limit) d' = true) as ->; [|by eexists].
      apply exists_row_true. exists b. split; [done|]. by apply has_delivery_eq.
    + intros x Hx%has_delivery_eq. congruence.
Qed.

(** C26: every sequence of calls keeps the store well formed: operations verify, have
    unique ids and come after all they refer to; the rows of the queues are unique,
    satisfy their constraints and refer to configured peers and stored operations. *)
Theorem client_store_invariant db : json_exact -> client_reachable db -> client_ok db.
Proof. apply client_reachable_ok. Qed.

(** C29: a transfer never counts more bytes than its resource has, and a complete one
    counts all of them. *)
Theorem transfers_are_bounded db row :
  json_exact -> client_reachable db -> row ∈ client_resource_transfers db ->
  exists resource, query_row (has_content (transfer_content_id row)) (client_resources db) = Some resource
    /\ 0 <= transfer_transferred_bytes row <= resource_byte_length resource
    /\ resource_byte_length resource < 2 ^ 63
    /\ (transfer_state row = TransferState.Complete ->
        transfer_transferred_bytes row = resource_byte_length resource).
Proof.
  intros Hj Hr%client_reachable_ok Hin; [|done]. destruct Hr as [_ [_ _ _ _ _ Hk Hv _ Ht]].
  rewrite Forall_forall in Hv. rewrite Forall_forall in Ht.
  destruct (Ht row Hin) as (Hc & _ & resource & Hres & Hid & Hle & Hcomplete). exists resource. split.
  - apply query_key with (key := resource_content_id); [done..|by apply has_content_eq|].
    intros b Hb%has_content_eq. congruence.
  - specialize (Hv resource Hres). unfold transfer_constraints, column_i64 in *. bool_prop. split; [lia|]. split; [lia|done].
Qed.
End Deliveries.
