(* ===== verification/ClientPulls.v ===== *)
(** * The client's pull cursors

    Only [advance_pull_cursor] moves a cursor, from the value its caller read and never
    back; a new space starts where it was configured. *)
From S2P Require Import Prelude Bytes Floats Crypto Content Cbor Trust DataModel CanonicalBody Envelope.
From S2P Require Import Authorization Peer Application Database PairingStore Repository RepositoryLog.
From S2P Require Import ClientDatabase ClientStore ClientQueues ClientQueries ClientLogic ClientInvariant ClientTheory.

#[local] Opaque OperationEnvelope.verify.

Section Pulls.
Context `{Sha256} `{Ed25519} `{HalfFloat} `{Base64} `{!JsonNumber} `{!JsonSize}
  `{!ProjectionJson} `{!Lowercase}.
Implicit Types (db : ClientDatabase).

Definition peer_space db (peer space : list Z) : option PeerSpaceRow :=
  query_row (has_peer_space peer space) (client_peer_spaces db).

(** Transactions that leave the cursors alone. *)
Definition same_spaces db db' : Prop := client_peer_spaces db' = client_peer_spaces db.
Definition quiet {A} (m : T A) : Prop := forall db, wp m db (fun _ => same_spaces db).

Lemma wp_quiet {A} (m : T A) start db (Q : A -> _ -> Prop) :
  quiet m -> same_spaces start db -> (forall a db', same_spaces start db' -> Q a db') -> wp m db Q.
Proof. intros Hm Hs HQ. eapply wp_mono; [apply Hm|]. intros a db' Hs'. apply HQ. unfold same_spaces in *. congruence. Qed.
Lemma quiet_each {A} (f : A -> T unit) l : (forall a, quiet (f a)) -> quiet (each f l).
Proof.
  intros Hf db. apply (wp_each f (same_spaces db)); [done| |done]. intros a db1 _ Hx. by apply (wp_quiet _ db).
Qed.
Lemma quiet_each_at {A} (f : Z -> A -> T unit) n l : (forall i a, quiet (f i a)) -> quiet (each_at f n l).
Proof.
  intros Hf db. apply (wp_each_at f (same_spaces db)); [done| |done]. intros i a db1 _ Hx. by apply (wp_quiet _ db).
Qed.
Lemma quiet_collect {A B} (f : A -> T B) l : (forall a, quiet (f a)) -> quiet (collect_items f l).
Proof.
  intros Hf db. apply (wp_collect_items f (same_spaces db)); [done| |done]. intros a db1 _ Hx. by apply (wp_quiet _ db).
Qed.
Lemma quiet_deliveries condition change : quiet (update_deliveries condition change).
Proof. intros db. by apply wp_update_deliveries. Qed.
Lemma quiet_transfers condition change : quiet (update_transfers condition change).
Proof. intros db. by apply wp_update_transfers. Qed.
Lemma quiet_resources condition change : quiet (update_resources condition change).
Proof. intros db. by apply wp_update_resources. Qed.
Hint Resolve quiet_each quiet_each_at quiet_collect quiet_deliveries quiet_transfers quiet_resources : quiet.

Ltac hush :=
  repeat (first
    [ eassumption
    | match goal with
      | Hx : same_spaces ?start ?db |- wp (put ?after) ?db _ =>
          apply wp_put; assert (same_spaces start after) by exact Hx
      | Hx : same_spaces ?start ?db |- wp _ ?db _ =>
          apply (wp_quiet _ start); [solve [eauto with quiet]|exact Hx|intros ? ? ?]
      end
    | wp_step; cbv beta ]).
Ltac quiet_start := let db := fresh "db" in intros db; assert (same_spaces db db) by done.

Lemma quiet_insert_delivery row : quiet (insert_or_ignore_delivery row).
Proof. quiet_start. unfold insert_or_ignore_delivery. hush. Qed.
Lemma quiet_insert_transfer row : quiet (insert_or_ignore_transfer row).
Proof. quiet_start. unfold insert_or_ignore_transfer. hush. Qed.
Hint Resolve quiet_insert_delivery quiet_insert_transfer : quiet.
Lemma quiet_queue_operations peer condition next : quiet (queue_operations peer condition next).
Proof. quiet_start. unfold queue_operations. hush. Qed.
Lemma quiet_queue_uploads content at_ excluded : quiet (queue_resource_uploads content at_ excluded).
Proof.
  quiet_start. unfold queue_resource_uploads. wp_step. wp_step. cbv beta.
  apply quiet_each. intros peer. apply quiet_each. eauto with quiet.
Qed.
Lemma quiet_known peer at_ : quiet (queue_known_resources_for_peer peer at_).
Proof. quiet_start. unfold queue_known_resources_for_peer. hush. Qed.
Lemma quiet_known_space peer space at_ : quiet (queue_known_resources_for_peer_space peer space at_).
Proof. quiet_start. unfold queue_known_resources_for_peer_space. hush. Qed.
Hint Resolve quiet_queue_operations quiet_queue_uploads quiet_known quiet_known_space : quiet.

(** ** Commits *)
Lemma quiet_parent o position parent : quiet (insert_parent o position parent).
Proof. quiet_start. unfold insert_parent. hush. Qed.
Lemma quiet_authorization o position authorization : quiet (insert_authorization o position authorization).
Proof. quiet_start. unfold insert_authorization. hush. Qed.
Hint Resolve quiet_parent quiet_authorization : quiet.
Lemma quiet_graph o : quiet (insert_graph o).
Proof. quiet_start. unfold insert_graph. hush. Qed.
Lemma quiet_projection o : quiet (insert_projection o).
Proof. intros db. eapply wp_mono; [apply insert_projection_wp|]. by intros _ db' (v & p & ->). Qed.
Lemma quiet_operation_row o stored_at local json : quiet (insert_operation_row o stored_at local json).
Proof. quiet_start. unfold insert_operation_row. hush. Qed.
Lemma quiet_resource id at_ position resource : quiet (insert_resource id at_ position resource).
Proof.
  quiet_start. unfold insert_resource. wp_step; cbv beta. wp_step; cbv beta. wp_step; cbv beta. wp_step; cbv beta.
  wp_step; cbv beta. eapply wp_mono with (P := fun _ => same_spaces db); [hush|]. intros [] db1 Hx. hush.
Qed.
Lemma quiet_one_resource at_ source resource : quiet (apply_one_resource at_ source resource).
Proof.
  quiet_start. unfold apply_one_resource. destruct source as [| |source]; [hush..|].
  wp_step; cbv beta. wp_step; cbv beta. wp_step; cbv beta. wp_step; cbv beta. wp_step; cbv beta.
  wp_step; cbv beta. wp_step; cbv beta. eapply wp_mono with (P := fun _ => same_spaces db); [hush|].
  intros [] db1 Hx. hush.
Qed.
Lemma quiet_record_source peer id at_ : quiet (record_source peer id at_).
Proof. quiet_start. unfold record_source. hush. Qed.
Hint Resolve quiet_graph quiet_projection quiet_operation_row quiet_resource quiet_one_resource quiet_record_source : quiet.
Lemma quiet_operation_resources o at_ : quiet (insert_operation_resources o at_).
Proof. apply quiet_each_at. eauto with quiet. Qed.
Lemma quiet_resource_source o at_ source : quiet (apply_resource_source o at_ source).
Proof. apply quiet_each. eauto with quiet. Qed.
Lemma quiet_delivery_source id at_ source : quiet (apply_delivery_source id at_ source).
Proof. quiet_start. unfold apply_delivery_source. hush. Qed.
Hint Resolve quiet_operation_resources quiet_resource_source quiet_delivery_source : quiet.
Lemma quiet_sources o at_ source : quiet (apply_sources o at_ source).
Proof. quiet_start. unfold apply_sources. hush. Qed.
Hint Resolve quiet_sources : quiet.
Lemma quiet_commit o at_ source : quiet (commit_transaction o at_ source).
Proof. quiet_start. unfold commit_transaction. hush. Qed.
Hint Resolve quiet_commit : quiet.

Lemma quiet_store_workspace request : quiet (store_workspace request).
Proof. quiet_start. unfold store_workspace. hush. Qed.
Lemma quiet_upsert_peer peer : quiet (upsert_peer peer).
Proof. quiet_start. unfold upsert_peer. hush. Qed.
Lemma quiet_set_enabled peer flag : quiet (set_peer_enabled peer flag).
Proof. quiet_start. unfold set_peer_enabled. hush. Qed.
Lemma quiet_requeue peer space now : quiet (requeue_unacknowledged_peer_space peer space now).
Proof. quiet_start. unfold requeue_unacknowledged_peer_space. hush. Qed.
Lemma quiet_lease_one peer lease expires id : quiet (lease_one peer lease expires id).
Proof. quiet_start. unfold lease_one. hush. Qed.
Hint Resolve quiet_lease_one : quiet.
Lemma quiet_lease_due peer now duration limit lease : quiet (lease_due peer now duration limit lease).
Proof. quiet_start. unfold lease_due. hush. Qed.
Lemma quiet_finish peer id lease state at_ text : quiet (finish_delivery peer id lease state at_ text).
Proof. quiet_start. unfold finish_delivery. hush. Qed.
Lemma quiet_settle content bytes at_ : quiet (settle_transfers content bytes at_).
Proof. quiet_start. unfold settle_transfers. hush. Qed.
Hint Resolve quiet_settle : quiet.
Lemma quiet_mark descriptor at_ : quiet (mark_resource_local descriptor at_).
Proof. quiet_start. unfold mark_resource_local. hush. Qed.
Lemma quiet_lease_transfer lease expires row : quiet (lease_one_transfer lease expires row).
Proof. quiet_start. unfold lease_one_transfer. hush. Qed.
Hint Resolve quiet_lease_transfer : quiet.
Lemma quiet_lease_resources now duration limit lease : quiet (lease_due_resources now duration limit lease).
Proof. quiet_start. unfold lease_due_resources. hush. Qed.
Lemma quiet_progress peer content direction lease bytes url :
  quiet (record_resource_progress peer content direction lease bytes url).
Proof. quiet_start. unfold record_resource_progress. hush. Qed.
Lemma quiet_finish_transfer peer content direction lease state at_ text :
  quiet (finish_resource_transfer peer content direction lease state at_ text).
Proof. quiet_start. unfold finish_resource_transfer. hush. Qed.
Lemma quiet_continue peer content direction lease at_ : quiet (continue_resource_transfer peer content direction lease at_).
Proof. quiet_start. unfold continue_resource_transfer. hush. Qed.
Lemma quiet_wait peer content lease at_ text : quiet (wait_for_local_resource peer content lease at_ text).
Proof. quiet_start. unfold wait_for_local_resource. hush. Qed.
Lemma quiet_rebuild : quiet rebuild_derived_state.
Proof.
  quiet_start. unfold rebuild_derived_state.
  assert (Hone : forall o, quiet (insert_graph o ;* insert_projection o)) by (intros o; quiet_start; hush). hush.
Qed.

(** ** What a call does to a cursor *)
Definition cursor_moves (c : Call) (row row' : PeerSpaceRow) : Prop :=
  pull_after row' = pull_after row
  \/ exists pulled_at next_pull_at,
       c = AdvancePullCursor (pull_peer_id row) (pull_space_id row) (pull_after row) (pull_after row') pulled_at next_pull_at
       /\ pull_after row <= pull_after row'.

Record spaces_move (c : Call) db db' : Prop := {
  spaces_kept peer space row : peer_space db peer space = Some row ->
    exists row', peer_space db' peer space = Some row' /\ cursor_moves c row row';
  spaces_new peer space row : peer_space db peer space = None -> peer_space db' peer space = Some row ->
    exists config, c = ConfigurePeerSpace config /\ config_peer_id config = peer /\ config_space_id config = space
      /\ pull_after row = config_start_after config
}.

Lemma same_spaces_move c db db' : same_spaces db db' -> spaces_move c db db'.
Proof.
  intros E. split; intros peer space row; unfold peer_space; rewrite E; [|congruence]. intros Hr. exists row. by split; [|left].
Qed.

Lemma peer_space_update db condition change peer space :
  (forall row, space_key (change row) = space_key row) ->
  peer_space (with_peer_spaces db (update_rows condition change (client_peer_spaces db))) peer space
  = (fun row => if condition row then change row else row) <$> peer_space db peer space.
Proof.
  intros Hkey. unfold peer_space. cbn. apply query_update. intros r. specialize (Hkey r). unfold has_peer_space.
  injection Hkey as -> ->. done.
Qed.
Lemma peer_space_key db peer space row : peer_space db peer space = Some row -> space_key row = (peer, space).
Proof. by intros [_ Hk%has_peer_space_eq]%query_row_Some. Qed.

Lemma update_spaces_move c condition change db :
  (forall row, space_key (change row) = space_key row) ->
  (forall row, condition row = true -> cursor_moves c row (change row)) ->
  spaces_move c db (with_peer_spaces db (update_rows condition change (client_peer_spaces db))).
Proof.
  intros Hkey Hm. split; intros peer space row Hr; rewrite (peer_space_update _ _ _ _ _ Hkey), Hr; [|done]. cbn. eexists. split; [done|].
  destruct (condition row) eqn:E; [by apply Hm|by left].
Qed.

Lemma same_spaces_trans_move c db1 db2 db3 : spaces_move c db1 db2 -> same_spaces db2 db3 -> spaces_move c db1 db3.
Proof.
  intros [Hk Hn] E. split; intros peer space row Hr; unfold peer_space; rewrite E; [by apply Hk|by apply Hn].
Qed.

Lemma configure_moves config db :
  wp (configure_peer_space config) db (fun _ => spaces_move (ConfigurePeerSpace config) db).
Proof.
  unfold configure_peer_space. do 6 (wp_step; cbv beta). wp_step.
  eapply wp_mono with (P := fun _ => spaces_move (ConfigurePeerSpace config) db).
  - unfold upsert_peer_space. destruct (read_mode_columns _) as [[mode session] grant]. wp_step. wp_step. wp_step.
    + wp_step. apply wp_update_peer_spaces. intros _. cbv beta. wp_step. apply update_spaces_move; [done|]. intros row _. by left.
    + wp_run. split; intros peer space row; unfold peer_space; cbn; rewrite query_row_app.
      * intros ->. exists row. by split; [|left].
      * intros ->. unfold query_row. cbn. destruct (has_peer_space peer space _) eqn:Ek; [|done]. intros [= <-].
        apply has_peer_space_eq in Ek. injection Ek as <- <-. by exists config.
  - intros [] db1 Hm. cbv beta. assert (Hq : quiet (let* db0 := get in
      let* row := lift (require_row (has_peer (config_peer_id config)) (client_peers db0)) in
      if enabled row && push_enabled row
      then queue_operations (config_peer_id config)
             (fun row => in_space (config_space_id config) row
                && (negb (is_supervised (config_read_mode config)) || is_client_schema (op_schema row)))
             (fun _ => config_next_pull_at config) ;*
           queue_known_resources_for_peer_space (config_peer_id config) (config_space_id config) (config_next_pull_at config)
      else ret tt)) by (quiet_start; hush).
    eapply wp_mono; [apply Hq|]. intros [] db2 Hs. by eapply same_spaces_trans_move.
Qed.

Lemma advance_moves peer space expected next pulled_at next_pull db :
  wp (advance_pull_cursor peer space expected next pulled_at next_pull) db
    (fun _ => spaces_move (AdvancePullCursor peer space expected next pulled_at next_pull) db).
Proof.
  unfold advance_pull_cursor. do 3 (wp_step; cbv beta). apply wp_update_peer_spaces. intros _. cbv beta. wp_step.
  apply update_spaces_move; [done|]. intros row [Hk Ha]%andb_true_iff. apply has_peer_space_eq in Hk. injection Hk as <- <-.
  apply Z.eqb_eq in Ha. subst expected. right. exists pulled_at, next_pull. split; [done|]. bool_prop. cbn. lia.
Qed.

Lemma pull_failure_moves peer space expected next_pull text db :
  wp (record_pull_failure peer space expected next_pull text) db
    (fun _ => spaces_move (RecordPullFailure peer space expected next_pull text) db).
Proof.
  unfold record_pull_failure. do 5 (wp_step; cbv beta). apply wp_update_peer_spaces. intros _. cbv beta. wp_step.
  apply update_spaces_move; [done|]. intros row _. by left.
Qed.

Lemma spaces_exec c db : deletes c = None -> wp (exec c) db (fun _ => spaces_move c db).
Proof.
  intros Hd.
  assert (Hq : forall A (m : T A), quiet m -> wp (discard m) db (fun _ => spaces_move c db)).
  { intros A m Hm. unfold discard. wp_step. eapply wp_mono; [apply Hm|]. intros a db' Hs. wp_step. by apply same_spaces_move. }
  assert (Hu : forall m : T unit, quiet m -> wp m db (fun _ => spaces_move c db)).
  { intros m Hm. eapply wp_mono; [apply Hm|]. intros a db' Hs. by apply same_spaces_move. }
  destruct c; cbn [exec] in *; try done.
  - apply Hq, quiet_commit.
  - apply Hq, quiet_store_workspace.
  - apply Hu. quiet_start. unfold set_active_workspace. hush.
  - apply Hu. quiet_start. unfold clear_active_workspace. hush.
  - apply Hq. quiet_start. unfold bind_local_identity. hush.
  - apply Hu, quiet_upsert_peer.
  - apply Hu, quiet_set_enabled.
  - apply configure_moves.
  - apply Hu, quiet_requeue.
  - apply advance_moves.
  - apply pull_failure_moves.
  - apply Hq, quiet_lease_due.
  - apply Hu, quiet_finish.
  - apply Hu, quiet_finish.
  - apply Hu, quiet_finish.
  - apply Hq. unfold release_lease. eauto with quiet.
  - apply Hu, quiet_mark.
  - apply Hq, quiet_lease_resources.
  - apply Hu, quiet_progress.
  - apply Hu, quiet_finish_transfer.
  - apply Hu, quiet_finish_transfer.
  - apply Hu, quiet_finish_transfer.
  - apply Hu, quiet_continue.
  - apply Hu, quiet_wait.
  - apply Hq, quiet_rebuild.
Qed.

Lemma spaces_call c db : deletes c = None -> spaces_move c db (call db c).
Proof.
  intros Hd. unfold call, run. destruct (exec c db) as [[[] db']|] eqn:E; [exact (spaces_exec c db Hd tt db' E)|].
  by apply same_spaces_move.
Qed.
End Pulls.
