(* ===== verification/ClientWitnesses.v ===== *)
(** * Witnesses for the client's theorems

    A client that stored a workspace, configured one peer and committed a record and a
    record with media; a lease of its outbox that the peer could not serve; an upload in
    progress. *)
From S2P Require Import Prelude Bytes Floats Crypto Content Cbor Trust TrustTheory DataModel CanonicalBody.
From S2P Require Import BodyTheory Envelope EnvelopeTheory Samples Authorization AuthorizationSamples Peer.
From S2P Require Import Application Database PairingStore Repository RepositoryLog RepositorySamples.
From S2P Require Import ClientDatabase ClientStore ClientQueues ClientQueries ClientLogic ClientInvariant ClientTheory.

Definition client_peer : list Z := replicate 32 4.
Definition client_peer_config : PeerConfig :=
  mkPeerConfig client_peer (str "http://node") true true true None 1700000000000.
Definition outbox_lease : list Z := replicate 16 1.
Definition second_lease : list Z := replicate 16 2.
Definition lease_duration : Z := 30000000000.

Definition media_content : list Z := replicate 32 7.
Definition media_body : OperationBody.t :=
  OperationBody.PutRecord (ProtectedDocument.Public
    (mkRecordDocument 1700000000000 None None None [] [ResourceRef.mk media_content 4 (str "image/png") (str "record.media") None] [])).
Definition media_entity : list Z := replicate 15 0 ++ [12].
Definition media_bytes : list Z * list Z :=
  Eval vm_compute in
    signed_at media_entity EntitySchema.Record_ [fst writer_bytes] 4 media_body device_seed.
Definition media_operation : OperationEnvelope.t :=
  operation_at media_entity EntitySchema.Record_ [fst writer_bytes] 4 media_body device_seed media_bytes.

Definition setup_calls : list Call := [StoreWorkspace sample_bootstrap; UpsertPeer client_peer_config].
Definition configured_client : ClientDatabase := run_calls setup_calls fresh_client.
Definition record_calls : list Call := setup_calls ++ [Commit entry_operation 1700000004000 CommitSource.Local].
Definition recorded_client : ClientDatabase := run_calls record_calls fresh_client.

Definition leased_calls : list Call :=
  setup_calls ++
  [Commit writer_operation 1700000004000 CommitSource.Local; Commit entry_operation 1700000004000 CommitSource.Local;
   LeaseDue client_peer 1700000005000 lease_duration 32 outbox_lease].
Definition leased_client : ClientDatabase := run_calls leased_calls fresh_client.
(** The peer could not take the grant yet. *)
Definition backed_off_calls : list Call :=
  leased_calls ++
  [Retry client_peer (fst writer_bytes) outbox_lease 1700000006000 (str "busy"); ReleaseLease client_peer outbox_lease].
Definition backed_off_client : ClientDatabase := run_calls backed_off_calls fresh_client.

Definition upload_calls : list Call :=
  setup_calls ++
  [Commit media_operation 1700000004000 CommitSource.Local;
   MarkResourceLocal (ContentDescriptor.mk media_content 4) 1700000004500;
   LeaseDueResources 1700000005000 lease_duration 8 outbox_lease;
   RecordProgress client_peer media_content ResourceTransferDirection.Upload outbox_lease 2 (Some (str "http://node/api/uploads/1"))].
Definition uploading_client : ClientDatabase := run_calls upload_calls fresh_client.

Lemma media_typed : typed_operation media_operation.
Proof.
  split; [apply bytes_typed; vm_compute; reflexivity|].
  cbn [media_operation operation_at OperationEnvelope.body media_body body_typed protected_typed]. unfold record_typed. cbn.
  assert (Hu : forall s, bool_decide (Forall is_byte s) && valid_utf8 s = true -> utf8 s).
  { intros s Hs. bool_prop. done. }
  split; [unfold in_i; lia|]. do 3 (split; [exact I|]). split; [split; [constructor|by intros kv Hkv%not_elem_of_nil]|].
  split; [|constructor]. constructor; [|constructor]. unfold resource_typed, in_u. cbn.
  split; [apply (bool_decide_eq_true_1 (fixed _ _)); vm_compute; reflexivity|]. split; [lia|].
  by repeat split; apply Hu; vm_compute.
Qed.

(** The calls are values a caller can pass, and delete nothing. *)
Ltac sample_calls :=
  repeat (apply Forall_cons; split);
  try first [exact I|reflexivity|exact writer_typed|exact entry_typed|exact media_typed
    |exact (conj genesis_typed writer_typed)|apply Forall_nil; exact I].
Ltac reached calls := exists calls; split; [sample_calls|reflexivity].

Lemma configured_reachable : client_reachable configured_client.
Proof. reached setup_calls. Qed.
Lemma leased_reachable : client_reachable leased_client.
Proof. reached leased_calls. Qed.
Lemma backed_off_reachable : client_reachable backed_off_client.
Proof. reached backed_off_calls. Qed.
Lemma uploading_reachable : client_reachable uploading_client.
Proof. reached upload_calls. Qed.

Definition leased_row : DeliveryRow :=
  mkDeliveryRow client_peer (fst writer_bytes) DeliveryState.Leased 1 1700000004000 (Some outbox_lease)
    (Some 1700000035000) None None.
Lemma leased_delivery_row : delivery leased_client client_peer (fst writer_bytes) = Some leased_row.
Proof. by_vm. Qed.

Lemma delivery_lifecycle_witness :
  exists row, delivery (call leased_client (Acknowledge client_peer (fst writer_bytes) outbox_lease 1700000005500))
    client_peer (fst writer_bytes) = Some row.
Proof.
  destruct (delivery_lifecycle leased_client
    (Acknowledge client_peer (fst writer_bytes) outbox_lease 1700000005500) client_peer (fst writer_bytes) leased_row toy_exact leased_reachable
    leased_delivery_row) as (row & Hd & _).
  exists row. exact Hd.
Defined.

Definition other_calls : list Call :=
  [LeaseDue client_peer 1700000006000 lease_duration 32 second_lease; RebuildDerivedState].


Notation entry_commit := (snd (run (commit_local entry_operation 1700000004000) configured_client)).
Lemma entry_committed : fst (run (commit_local entry_operation 1700000004000) configured_client)
  = Ok (mkCommitResult 3 (fst entry_bytes) false 1).
Proof. by_vm. Qed.
Lemma entry_peers : client_peers entry_commit = [client_peer_config].
Proof. by_vm. Qed.
Lemma entry_receives : receives entry_commit (OperationEnvelope.operation_id entry_operation) None client_peer_config = true.
Proof. by_vm. Qed.

Lemma committed_operations_are_owed_witness :
  exists row, delivery (run_calls other_calls entry_commit) client_peer (OperationEnvelope.operation_id entry_operation) = Some row.
Proof.
  refine (proj2 (committed_operations_are_owed configured_client entry_operation 1700000004000 (mkCommitResult 3 (fst entry_bytes) false 1) other_calls
    toy_exact configured_reachable entry_typed _ entry_committed _ _) client_peer_config _ entry_receives).
  - lia.
  - sample_calls.
  - sample_calls.
  - rewrite entry_peers. apply list_elem_of_here.
Defined.

Lemma few_attempts db :
  forallb (fun d => delivery_attempt_count d + 1 <? 2 ^ 32) (client_deliveries db) = true ->
  forall d, d ∈ client_deliveries db -> delivery_attempt_count d + 1 < 2 ^ 32.
Proof. intros Hf d Hd%list_elem_of_In. rewrite forallb_forall in Hf. by apply Z.ltb_lt, Hf. Qed.

Lemma toy_row_readable db row : client_reachable db -> row ∈ client_operations db -> readable row.
Proof.
  intros [[_ _ _ _ Hrows _] _]%(client_reachable_ok _ toy_exact) Hin. rewrite Forall_forall in Hrows.
  destruct (Hrows row Hin) as (o & Hs & _). exists o. split; [exact Hs|]. apply toy_reads_back; apply Hs.
Qed.
Lemma toy_batch_readable db peer now limit : client_reachable db -> Forall readable (due_batch db peer now limit).
Proof.
  intros Hr. apply Forall_forall. intros row Hin%elem_of_batch. apply elem_of_due in Hin as (Hin & _).
  exact (toy_row_readable db row Hr Hin).
Qed.

Lemma lease_due_spec_witness :
  exists items, fst (run (lease_due client_peer 1700000006000 lease_duration 32 second_lease) backed_off_client) = Ok items.
Proof.
  destruct (lease_due_spec backed_off_client client_peer 1700000006000 lease_duration 32 second_lease 1700000036000
    toy_exact backed_off_reachable) as [Hrun _].
  - lia.
  - unfold MAX_OUTBOX_BATCH. lia.
  - by_vm.
  - apply few_attempts. by_vm.
  - destruct Hrun as (items & Hrun & _).
    + apply toy_batch_readable, backed_off_reachable.
    + exists items. rewrite Hrun. reflexivity.
Defined.

Definition row_of (sequence stored_at : Z) (local : bool) (o : OperationEnvelope.t) : ClientOperationRow :=
  mkClientOperationRow sequence (OperationEnvelope.operation_id o) (OperationEnvelope.space_id o)
    (OperationEnvelope.entity_id o) (OperationEnvelope.schema o) (OperationEnvelope.actor_id o)
    (OperationEnvelope.occurred_at_unix_ms o) stored_at local (OperationEnvelope.cose_sign1 o).
Definition writer_row : ClientOperationRow := row_of 2 1700000003000 false writer_operation.
Definition entry_row : ClientOperationRow := row_of 3 1700000004000 true entry_operation.

Lemma backed_off_rows : tail (client_operations backed_off_client) = [writer_row; entry_row].
Proof. by_vm. Qed.
Lemma backed_off_due : due_operations backed_off_client client_peer 1700000005500 = [entry_row].
Proof. by_vm. Qed.
Lemma backed_off_references :
  tail (client_operation_parents backed_off_client ++ client_operation_authorizations backed_off_client)
  = [mkReferenceRow (fst entry_bytes) (fst writer_bytes) 0].
Proof. by_vm. Qed.
Lemma elem_of_tail {A} (a : A) l k : tail l = k -> a ∈ k -> a ∈ l.
Proof. intros <-. destruct l; [done|]. by right. Qed.

(** The record is leased while the grant it needs backs off until later. *)
Lemma undue_operation_does_not_hold_its_dependents_witness :
  exists items db', run (lease_due client_peer 1700000005500 lease_duration 32 second_lease) backed_off_client = (Ok items, db')
    /\ exists item, item ∈ items /\ decode_operation (op_projection_json entry_row) = Ok (item_operation item).
Proof.
  destruct (undue_operation_does_not_hold_its_dependents backed_off_client client_peer 1700000005500 lease_duration 32
    second_lease 1700000035500 writer_row entry_row
    (mkDeliveryRow client_peer (fst writer_bytes) DeliveryState.Pending 1 1700000006000 None None None (Some (str "busy")))
    toy_exact backed_off_reachable) as (items & db' & Hrun & Hitem & _).
  - lia.
  - unfold MAX_OUTBOX_BATCH. lia.
  - by_vm.
  - apply few_attempts. by_vm.
  - eapply elem_of_tail; [exact backed_off_rows|]. apply list_elem_of_here.
  - exists 0. eapply elem_of_tail; [exact backed_off_references|]. apply list_elem_of_here.
  - by_vm.
  - by_vm.
  - rewrite backed_off_due. apply list_elem_of_here.
  - rewrite backed_off_due. cbn. lia.
  - apply toy_batch_readable, backed_off_reachable.
  - exists items, db'. split; [exact Hrun|exact Hitem].
Defined.

Lemma client_store_invariant_witness : client_ok uploading_client.
Proof. exact (client_store_invariant uploading_client toy_exact uploading_reachable). Defined.

Definition upload_row : TransferRow :=
  mkTransferRow client_peer media_content ResourceTransferDirection.Upload TransferState.Leased 1 1700000004500
    (Some outbox_lease) (Some 1700000035000) (Some (str "http://node/api/uploads/1")) 2 None None.
Lemma uploading_rows : client_resource_transfers uploading_client = [upload_row].
Proof. by_vm. Qed.

Lemma transfers_are_bounded_witness :
  exists resource, query_row (has_content media_content) (client_resources uploading_client) = Some resource
    /\ 0 <= 2 <= resource_byte_length resource.
Proof.
  destruct (transfers_are_bounded uploading_client upload_row toy_exact uploading_reachable)
    as (resource & Hr & Hb & _).
  - rewrite uploading_rows. apply list_elem_of_here.
  - exists resource. split; [exact Hr|exact Hb].
Defined.
