(* ===== verification/ClientContent.v ===== *)
(** * The client's media files (crates/fractonica-client-content/src/lib.rs)

    [ContentStore] is the directory of a [ClientContentStore] and its cache of verified
    files.  Names lead to inodes, so that a blob linked from a temporary file shares its
    bytes until the temporary name is removed.  Every call of the file system takes an
    entry of [faults]: it succeeds, or it fails and a write leaves a prefix of its
    bytes.  A file's change time grows with every change.  Objects that are not private regular
    files, permissions and a poisoned lock are not modelled; operations do not
    interleave. *)
From S2P Require Import Prelude Bytes Crypto Content.

(** ** Errors *)
Module IoKind.
Inductive t : Type := NotFound | InvalidInput | Interrupted | WouldBlock | TimedOut | Other.
End IoKind.

Module ClientContentError.
Inductive t : Type :=
| Io (kind : IoKind.t)
| LengthOverflow (expected : Z)
| ContentTooLarge (actual maximum : Z)
| LengthMismatch (expected actual : Z)
| DigestMismatch (expected actual : ContentId.t)
| OffsetMismatch (expected supplied : Z)
| ChunkTooLarge (found maximum : Z).
End ClientContentError.
#[local] Notation error := ClientContentError.t.

Definition MAX_DOWNLOAD_CHUNK_BYTES : Z := 4 * 1024 * 1024.

(** ** The directory *)

(** The names the store uses: [blob_path], [partial_path], [import_path] and
    [unidentified_import_path]. *)
Inductive ContentPath : Type :=
| BlobPath (content_id : ContentId.t)
| PartialPath (content_id : ContentId.t)
| ImportPath (content_id : ContentId.t) (nonce : list Z)
| PendingPath (nonce : list Z).
#[export] Instance content_path_eq_dec : EqDecision ContentPath.
Proof. unfold ContentId.t. solve_decision. Defined.
#[export] Instance content_path_countable : Countable ContentPath.
Proof.
  refine (inj_countable'
    (fun path => match path with
                 | BlobPath id => (0, id : list Z, [] : list Z)
                 | PartialPath id => (1, id, [])
                 | ImportPath id nonce => (2, id, nonce)
                 | PendingPath nonce => (3, [], nonce)
                 end)
    (fun '(kind, id, nonce) =>
       if kind =? 0 then BlobPath id else if kind =? 1 then PartialPath id
       else if kind =? 2 then ImportPath id nonce else PendingPath nonce) _).
  by intros [].
Defined.

Record File : Type := mkFile { file_bytes : list Z; file_changed : Z }.
Definition byte_length (file : File) : Z := Z.of_nat (length (file_bytes file)).

(** [FileFingerprint]. *)
Record FileFingerprint : Type := mkFingerprint {
  fingerprint_length : Z;
  fingerprint_inode : nat;
  fingerprint_changed : Z
}.
#[export] Instance fingerprint_eq_dec : EqDecision FileFingerprint.
Proof. solve_decision. Defined.

(** What a call of the file system does: [Some (kind, written)] fails, for another reason
    than a missing file: that is what the names say. *)
Definition Fault : Type := option (IoKind.t * nat).

Record ContentStore : Type := mkContentStore {
  names : gmap ContentPath nat;
  inodes : gmap nat File;
  next_inode : nat;
  change_time : Z;
  verified : gmap (list Z) FileFingerprint;
  faults : list Fault
}.

Definition empty_store (faults : list Fault) : ContentStore := mkContentStore ∅ ∅ 0 0 ∅ faults.
Definition with_faults (s : ContentStore) (faults : list Fault) : ContentStore :=
  mkContentStore (names s) (inodes s) (next_inode s) (change_time s) (verified s) faults.
Definition with_names (s : ContentStore) (names : gmap ContentPath nat) : ContentStore :=
  mkContentStore names (inodes s) (next_inode s) (change_time s) (verified s) (faults s).
Definition with_verified (s : ContentStore) (verified : gmap (list Z) FileFingerprint) : ContentStore :=
  mkContentStore (names s) (inodes s) (next_inode s) (change_time s) verified (faults s).
(** The bytes of an inode change, or only its change time. *)
Definition with_inode (s : ContentStore) (inode : nat) (bytes : list Z) : ContentStore :=
  mkContentStore (names s) (<[inode := mkFile bytes (change_time s + 1)]> (inodes s)) (next_inode s)
    (change_time s + 1) (verified s) (faults s).
Definition touched (s : ContentStore) (inode : nat) : ContentStore :=
  match inodes s !! inode with Some file => with_inode s inode (file_bytes file) | None => s end.
Definition with_new_inode (s : ContentStore) (path : ContentPath) : ContentStore :=
  mkContentStore (<[path := next_inode s]> (names s)) (<[next_inode s := mkFile [] (change_time s + 1)]> (inodes s))
    (S (next_inode s)) (change_time s + 1) (verified s) (faults s).

(** ** File operations *)
Definition F (A : Type) : Type := ContentStore -> result error A * ContentStore.
Definition pure {A} (a : A) : F A := fun s => (Ok a, s).
Definition fails {A} (e : error) : F A := fun s => (Err e, s).
Definition andthen {A B} (m : F A) (k : A -> F B) : F B :=
  fun s => match m s with (Ok a, s) => k a s | (Err e, s) => (Err e, s) end.
Definition of_result {A} (r : result error A) : F A := fun s => (r, s).
Definition store : F ContentStore := fun s => (Ok s, s).
Definition replace (s : ContentStore) : F unit := fun _ => (Ok tt, s).
(** [inspect_err] with a cleanup whose own result is dropped. *)
Definition inspect_err {A} (m : F A) (cleanup : F unit) : F A :=
  fun s => match m s with (Err e, s) => (Err e, snd (cleanup s)) | (Ok a, s) => (Ok a, s) end.

Notation "'let!' x ':=' m 'in' k" := (andthen m (fun x => k))
  (at level 10, x pattern, m at level 100, k at level 200) : fractonica_scope.
Notation "m ';!' k" := (andthen m (fun _ => k)) (at level 100, k at level 200, right associativity)
  : fractonica_scope.

(** The next fault. *)
Definition fault : F Fault :=
  fun s => match faults s with
           | [] => (Ok None, s)
           | f :: rest => (Ok f, with_faults s rest)
           end.
Definition io : F unit :=
  let! f := fault in match f with Some (kind, _) => fails (ClientContentError.Io kind) | None => pure tt end.

Definition regular_metadata_if_exists (path : ContentPath) : F (option (nat * File)) :=
  io ;!
  let! s := store in
  pure (inode ← names s !! path; file ← inodes s !! inode; Some (inode, file)).
Definition regular_metadata (path : ContentPath) : F (nat * File) :=
  let! metadata := regular_metadata_if_exists path in
  match metadata with
  | Some metadata => pure metadata
  | None => fails (ClientContentError.Io IoKind.NotFound)
  end.
(** Opens the file and reads it to its end. *)
Definition open_regular_file (path : ContentPath) : F (list Z) :=
  let! metadata := regular_metadata path in
  io ;! io ;! pure (file_bytes (snd metadata)).

(** The checks and the permissions of a file that was just opened. *)
Definition opened (m : F nat) : F nat := let! inode := m in io ;! pure inode.
Definition create_private_truncated (path : ContentPath) : F nat :=
  io ;!
  let! s := store in
  opened (match names s !! path with
          | Some inode => replace (with_inode s inode []) ;! pure inode
          | None => replace (with_new_inode s path) ;! pure (next_inode s)
          end).
Definition open_private_append (path : ContentPath) : F nat :=
  io ;!
  let! s := store in
  opened (match names s !! path with
          | Some inode => pure inode
          | None => replace (with_new_inode s path) ;! pure (next_inode s)
          end).
(** A failed write leaves some of its bytes. *)
Definition write_all (inode : nat) (bytes : list Z) : F unit :=
  let! f := fault in
  let! s := store in
  let old := match inodes s !! inode with Some file => file_bytes file | None => [] end in
  match f with
  | None => replace (with_inode s inode (old ++ bytes))
  | Some (kind, written) =>
      replace (with_inode s inode (old ++ firstn written bytes)) ;! fails (ClientContentError.Io kind)
  end.

Definition remove_if_exists (path : ContentPath) : F unit :=
  io ;!
  let! s := store in
  match names s !! path with
  | Some inode => replace (touched (with_names s (delete path (names s))) inode)
  | None => pure tt
  end.

Definition fingerprint (inode : nat) (file : File) : FileFingerprint :=
  mkFingerprint (byte_length file) inode (file_changed file).

Section ClientContent.
Context `{Sha256}.

(** ** Verification *)
Definition verify_expected (expected : ContentDescriptor.t) (length : Z) (digest : list Z) :
    result error unit :=
  if negb (length =? ContentDescriptor.byte_length expected)
  then Err (ClientContentError.LengthMismatch (ContentDescriptor.byte_length expected) length)
  else if negb (list_eqb digest (ContentDescriptor.content_id expected))
  then Err (ClientContentError.DigestMismatch (ContentDescriptor.content_id expected) digest)
  else Ok tt.

Definition verify_file (path : ContentPath) (expected : ContentDescriptor.t) : F unit :=
  let! metadata := regular_metadata path in
  let length := byte_length (snd metadata) in
  if negb (length =? ContentDescriptor.byte_length expected)
  then fails (ClientContentError.LengthMismatch (ContentDescriptor.byte_length expected) length)
  else
    let! bytes := open_regular_file path in
    of_result (verify_expected expected length (sha256 bytes)).

Definition ensure_protocol_length (actual : Z) : result error unit :=
  if MAX_CONTENT_BYTE_LENGTH <? actual
  then Err (ClientContentError.ContentTooLarge actual MAX_CONTENT_BYTE_LENGTH) else Ok tt.

(** Publication by a hard link: an existing blob must verify. *)
Definition publish (descriptor : ContentDescriptor.t) (temporary : ContentPath) :
    F ContentDescriptor.t :=
  let destination := BlobPath (ContentDescriptor.content_id descriptor) in
  io ;!
  io ;!
  let! s := store in
  match names s !! temporary with
  | None => fails (ClientContentError.Io IoKind.NotFound)
  | Some inode =>
      (match names s !! destination with
       | None =>
           replace (touched (with_names s (<[destination := inode]> (names s))) inode) ;!
           remove_if_exists temporary ;!
           io
       | Some _ =>
           verify_file destination descriptor ;!
           remove_if_exists temporary
       end) ;!
      pure descriptor
  end.

(** ** Reads *)

(** The blob of a descriptor, verified unless the cache knows the file. *)
Definition blob (descriptor : ContentDescriptor.t) : F (option ContentDescriptor.t) :=
  let id := ContentDescriptor.content_id descriptor in
  let! metadata := regular_metadata_if_exists (BlobPath id) in
  match metadata with
  | None => pure None
  | Some (inode, file) =>
      if negb (byte_length file =? ContentDescriptor.byte_length descriptor)
      then fails (ClientContentError.LengthMismatch (ContentDescriptor.byte_length descriptor) (byte_length file))
      else
        let! s := store in
        (if bool_decide (verified s !! id = Some (fingerprint inode file)) then pure tt
         else
           verify_file (BlobPath id) descriptor ;!
           let! metadata := regular_metadata (BlobPath id) in
           let! s := store in
           replace (with_verified s (<[id := fingerprint (fst metadata) (snd metadata)]> (verified s)))) ;!
        pure (Some descriptor)
  end.

Definition read_range (descriptor : ContentDescriptor.t) (offset maximum : Z) : F (list Z) :=
  let! found := blob descriptor in
  match found with
  | None => fails (ClientContentError.Io IoKind.NotFound)
  | Some _ =>
      if ContentDescriptor.byte_length descriptor <? offset
      then fails (ClientContentError.OffsetMismatch (ContentDescriptor.byte_length descriptor) offset)
      else
        let length := Z.min (ContentDescriptor.byte_length descriptor - offset) maximum in
        let! bytes := open_regular_file (BlobPath (ContentDescriptor.content_id descriptor)) in
        pure (firstn (Z.to_nat length) (skipn (Z.to_nat offset) bytes))
  end.

(** ** Imports *)

(** A source: the results of its reads; an empty read is its end. *)
Definition Source : Type := list (result IoKind.t (list Z)).

(** The copy loop: the bytes hashed so far; [too_long] refuses a length. *)
Fixpoint copy_loop (inode : nat) (too_long : Z -> F unit) (source : Source) (hashed : list Z) : F (list Z) :=
  match source with
  | [] | Ok [] :: _ => pure hashed
  | Err kind :: _ => fails (ClientContentError.Io kind)
  | Ok bytes :: source =>
      let hashed := hashed ++ bytes in
      too_long (Z.of_nat (length hashed)) ;!
      write_all inode bytes ;!
      copy_loop inode too_long source hashed
  end.

Definition import (descriptor : ContentDescriptor.t) (source : Source) (nonce : list Z) :
    F ContentDescriptor.t :=
  of_result (map_err (fun _ => ClientContentError.Io IoKind.InvalidInput)
               (validate_byte_length (ContentDescriptor.byte_length descriptor))) ;!
  let! existing := blob descriptor in
  match existing with
  | Some existing => pure existing
  | None =>
      let temporary := ImportPath (ContentDescriptor.content_id descriptor) nonce in
      let expected := ContentDescriptor.byte_length descriptor in
      let! output := create_private_truncated temporary in
      let! bytes := copy_loop output (fun length =>
          if expected <? length
          then remove_if_exists temporary ;! fails (ClientContentError.LengthOverflow expected)
          else pure tt) source [] in
      io ;!
      inspect_err (of_result (verify_expected descriptor (Z.of_nat (length bytes)) (sha256 bytes)))
        (remove_if_exists temporary) ;!
      publish descriptor temporary
  end.

(** The descriptor is derived while the file is copied; a failure removes the copy. *)
Definition import_file (initial_length : result IoKind.t Z) (source : Source) (nonce : list Z) :
    F ContentDescriptor.t :=
  let! initial_length := of_result (map_err ClientContentError.Io initial_length) in
  of_result (ensure_protocol_length initial_length) ;!
  let temporary := PendingPath nonce in
  inspect_err
    (let! output := create_private_truncated temporary in
     let! bytes := copy_loop output (fun length => of_result (ensure_protocol_length length)) source [] in
     io ;!
     publish (ContentDescriptor.mk (hash_bytes bytes) (Z.of_nat (length bytes))) temporary)
    (remove_if_exists temporary).

(** ** Downloads *)
Definition partial_offset (descriptor : ContentDescriptor.t) : F Z :=
  let! found := blob descriptor in
  match found with
  | Some _ => pure (ContentDescriptor.byte_length descriptor)
  | None =>
      let! metadata := regular_metadata_if_exists (PartialPath (ContentDescriptor.content_id descriptor)) in
      match metadata with
      | None => pure 0
      | Some (_, file) =>
          if ContentDescriptor.byte_length descriptor <? byte_length file
          then fails (ClientContentError.LengthOverflow (ContentDescriptor.byte_length descriptor))
          else pure (byte_length file)
      end
  end.

Record AppendResult : Type := mkAppendResult { append_offset : Z; append_complete : bool }.

Definition append_download_chunk (descriptor : ContentDescriptor.t) (supplied_offset : Z) (bytes : list Z) :
    F AppendResult :=
  let expected := ContentDescriptor.byte_length descriptor in
  let path := PartialPath (ContentDescriptor.content_id descriptor) in
  if MAX_DOWNLOAD_CHUNK_BYTES <? Z.of_nat (length bytes)
  then fails (ClientContentError.ChunkTooLarge (Z.of_nat (length bytes)) MAX_DOWNLOAD_CHUNK_BYTES)
  else
    let! found := blob descriptor in
    match found with
    | Some _ => pure (mkAppendResult expected true)
    | None =>
        let! current := partial_offset descriptor in
        if negb (current =? supplied_offset)
        then fails (ClientContentError.OffsetMismatch current supplied_offset)
        else
          let next := current + Z.of_nat (length bytes) in
          if expected <? next then fails (ClientContentError.LengthOverflow expected)
          else
            let! file := open_private_append path in
            write_all file bytes ;!
            io ;!
            if negb (next =? expected) then pure (mkAppendResult next false)
            else
              inspect_err (verify_file path descriptor) (remove_if_exists path) ;!
              publish descriptor path ;!
              pure (mkAppendResult next true)
    end.
End ClientContent.

(** A restart forgets which files were verified. *)
Definition reopened (s : ContentStore) : ContentStore := with_verified s ∅.
