(* ===== verification/ClientContentTheory.v ===== *)
(** * The client's media files: the theorems

    Whatever calls fail and wherever they stop, a blob holds the bytes its identity
    names, and keeps them; an import without failures reads back. *)
From S2P Require Import Prelude Bytes Crypto Content ClientContent.

(** ** The invariant *)
Section Invariant.
Context `{Sha256}.
Implicit Types (s : ContentStore) (id : ContentId.t).

Record content_ok s : Prop := {
  names_live : forall p i, names s !! p = Some i -> is_Some (inodes s !! i);
  inodes_old : forall i, is_Some (inodes s !! i) -> (i < next_inode s)%nat;
  blobs_authentic : forall id i f, names s !! BlobPath id = Some i -> inodes s !! i = Some f ->
    sha256 (file_bytes f) = id;
  partials_apart : forall id id' i, names s !! BlobPath id = Some i ->
    names s !! PartialPath id' = Some i -> id' = id;
  partials_distinct : forall id id' i, names s !! PartialPath id = Some i ->
    names s !! PartialPath id' = Some i -> id' = id
}.

(** The bytes of a name. *)
Definition path_bytes s (p : ContentPath) : option (list Z) :=
  i ← names s !! p; file_bytes <$> inodes s !! i.
Definition keeps_blobs s s' : Prop :=
  forall id bytes, path_bytes s (BlobPath id) = Some bytes -> path_bytes s' (BlobPath id) = Some bytes.

Definition preserved s s' : Prop := content_ok s' /\ keeps_blobs s s'.

Lemma preserved_refl s : content_ok s -> preserved s s.
Proof. intros Hok. split; [done|]. by intros id bytes. Qed.
Lemma preserved_trans s1 s2 s3 : preserved s1 s2 -> preserved s2 s3 -> preserved s1 s3.
Proof. intros [_ Hk] [Hok Hk']. split; [done|]. intros id bytes Hb. by apply Hk', Hk. Qed.

(** Nothing of the directory changes. *)
Definition same_files s s' : Prop :=
  names s' = names s /\ inodes s' = inodes s /\ next_inode s' = next_inode s.

Lemma same_files_refl s : same_files s s.
Proof. done. Qed.
Lemma same_files_trans s1 s2 s3 : same_files s1 s2 -> same_files s2 s3 -> same_files s1 s3.
Proof. unfold same_files. intuition congruence. Qed.
Lemma same_files_preserved s s' : content_ok s -> same_files s s' -> preserved s s'.
Proof.
  intros [Hl Ho Hb Ha Hd] (En & Ei & Ex). split.
  - split; rewrite ?En, ?Ei, ?Ex; done.
  - intros id bytes. unfold path_bytes. by rewrite En, Ei.
Qed.

Lemma path_bytes_Some s p bytes :
  path_bytes s p = Some bytes <-> exists i f, names s !! p = Some i /\ inodes s !! i = Some f /\ file_bytes f = bytes.
Proof.
  unfold path_bytes. split.
  - destruct (names s !! p) as [i|] eqn:En; [|done]. cbn. destruct (inodes s !! i) as [f|] eqn:Ef; [|done]. cbn.
    intros [= <-]. by exists i, f.
  - intros (i & f & -> & E & <-). cbn. by rewrite E.
Qed.

(** ** Changes of the directory *)
Lemma with_inode_preserved s i bytes :
  content_ok s -> is_Some (inodes s !! i) -> (forall id, names s !! BlobPath id <> Some i) ->
  preserved s (with_inode s i bytes).
Proof.
  intros [Hl Ho Hb Ha Hd] Hi Hnot. split.
  - split; cbn; [..|done|done].
    + intros p j Hj. destruct (decide (i = j)) as [->|]; [rewrite lookup_insert_eq|rewrite lookup_insert_ne by done]; eauto.
    + intros j. destruct (decide (i = j)) as [->|]; [intros _; by apply Ho|]. rewrite lookup_insert_ne by done. apply Ho.
    + intros id j f Hn. rewrite lookup_insert_ne; [by apply Hb|]. intros ->. by apply (Hnot id).
  - intros id b (j & f & Hj & Hf & <-)%path_bytes_Some. apply path_bytes_Some. exists j, f. split; [done|]. split; [|done].
    cbn. rewrite lookup_insert_ne; [done|]. intros ->. by apply (Hnot id).
Qed.

Lemma touched_spec s i :
  names (touched s i) = names s /\ next_inode (touched s i) = next_inode s
  /\ forall j, file_bytes <$> inodes (touched s i) !! j = file_bytes <$> inodes s !! j.
Proof.
  unfold touched. destruct (inodes s !! i) as [f|] eqn:E; [|done]. repeat split. intros j. cbn.
  destruct (decide (i = j)) as [->|]; [by rewrite lookup_insert_eq, E|by rewrite lookup_insert_ne].
Qed.

Lemma path_bytes_touched s i p : path_bytes (touched s i) p = path_bytes s p.
Proof.
  destruct (touched_spec s i) as (En & _ & Ei). unfold path_bytes. rewrite En. destruct (names s !! p) as [j|]; [|done].
  cbn. apply Ei.
Qed.

(** The invariant depends on names and bytes. *)
Lemma content_ok_bytes s :
  content_ok s <->
  (forall p i, names s !! p = Some i -> is_Some (file_bytes <$> inodes s !! i))
  /\ (forall i, is_Some (file_bytes <$> inodes s !! i) -> (i < next_inode s)%nat)
  /\ (forall id bytes, path_bytes s (BlobPath id) = Some bytes -> sha256 bytes = id)
  /\ (forall id id' i, names s !! BlobPath id = Some i -> names s !! PartialPath id' = Some i -> id' = id)
  /\ (forall id id' i, names s !! PartialPath id = Some i -> names s !! PartialPath id' = Some i -> id' = id).
Proof.
  split.
  - intros [Hl Ho Hb Ha Hd]. repeat split.
    + intros p i Hp. apply fmap_is_Some. by eapply Hl.
    + intros i Hi%fmap_is_Some. by apply Ho.
    + intros id bytes (i & f & Hn & Hf & <-)%path_bytes_Some. by eapply Hb.
    + done.
    + done.
  - intros (Hl & Ho & Hb & Ha & Hd). split.
    + intros p i Hp. specialize (Hl p i Hp). by apply fmap_is_Some in Hl.
    + intros i Hi. apply Ho. by apply fmap_is_Some.
    + intros id i f Hn Hf. apply Hb, path_bytes_Some. by exists i, f.
    + done.
    + done.
Qed.

Lemma touched_preserved s i : content_ok s -> preserved s (touched s i).
Proof.
  intros Hok. destruct (touched_spec s i) as (En & Ex & Ei). split.
  - apply content_ok_bytes in Hok as (Hl & Ho & Hb & Ha & Hd). apply content_ok_bytes. rewrite En, Ex. repeat split.
    + intros p j Hp. rewrite Ei. by eapply Hl.
    + intros j. rewrite Ei. apply Ho.
    + intros id bytes. rewrite path_bytes_touched. apply Hb.
    + done.
    + done.
  - intros id bytes. by rewrite path_bytes_touched.
Qed.

Lemma delete_preserved s p :
  content_ok s -> (forall id, p <> BlobPath id) -> preserved s (with_names s (delete p (names s))).
Proof.
  intros [Hl Ho Hb Ha Hd] Hp. split.
  - split; cbn; [|done|..].
    + intros q i [_ Hq]%lookup_delete_Some. by eapply Hl.
    + intros id i f [_ Hq]%lookup_delete_Some. by apply Hb.
    + intros id id' i [_ Hq]%lookup_delete_Some [_ Hq']%lookup_delete_Some. by eapply Ha.
    + intros id id' i [_ Hq]%lookup_delete_Some [_ Hq']%lookup_delete_Some. by eapply Hd.
  - intros id b (j & f & Hj & Hf & <-)%path_bytes_Some. apply path_bytes_Some. exists j, f. split; [|done].
    cbn. rewrite lookup_delete_ne; [done|]. apply Hp.
Qed.

Lemma fresh_inode s p i : content_ok s -> names s !! p = Some i -> i <> next_inode s.
Proof. intros [Hl Ho _ _ _] Hp ->. specialize (Ho _ (Hl _ _ Hp)). lia. Qed.

Lemma new_inode_preserved s p :
  content_ok s -> (forall id, p <> BlobPath id) -> preserved s (with_new_inode s p).
Proof.
  intros Hok Hp. pose proof Hok as [Hl Ho Hb Ha Hd]. pose proof (fresh_inode s) as Hfresh. split.
  - split; cbn.
    + intros q i [[<- <-]|[_ Hq]]%lookup_insert_Some; [by rewrite lookup_insert_eq|].
      rewrite lookup_insert_ne; [by eapply Hl|]. intros <-. by apply (Hfresh q (next_inode s)).
    + intros i. destruct (decide (next_inode s = i)) as [<-|]; [lia|]. rewrite lookup_insert_ne by done.
      intros Hi. specialize (Ho i Hi). lia.
    + intros id i f [[E _]|[_ Hq]]%lookup_insert_Some; [by destruct (Hp id)|].
      rewrite lookup_insert_ne; [by apply Hb|]. intros <-. by apply (Hfresh (BlobPath id) (next_inode s)).
    + intros id id' i [[E _]|[_ Hq]]%lookup_insert_Some; [by destruct (Hp id)|].
      intros [[_ E]|[_ Hq']]%lookup_insert_Some; [subst i; by destruct (Hfresh (BlobPath id) (next_inode s))|by eapply Ha].
    + intros id id' i [[Ep E]|[_ Hq]]%lookup_insert_Some [[Ep' E']|[_ Hq']]%lookup_insert_Some; [congruence|..|by eapply Hd];
        subst i; [by destruct (Hfresh (PartialPath id') (next_inode s))|by destruct (Hfresh (PartialPath id) (next_inode s))].
  - intros id b (j & f & Hj & Hf & <-)%path_bytes_Some. apply path_bytes_Some. exists j, f. split; [|split; [|done]].
    + cbn. by rewrite lookup_insert_ne.
    + cbn. rewrite lookup_insert_ne; [done|]. intros <-. by apply (Hfresh (BlobPath id) (next_inode s)).
Qed.

Lemma link_preserved s id i f :
  content_ok s -> names s !! BlobPath id = None -> inodes s !! i = Some f -> sha256 (file_bytes f) = id ->
  (forall id', names s !! PartialPath id' = Some i -> id' = id) ->
  preserved s (with_names s (<[BlobPath id := i]> (names s))).
Proof.
  intros [Hl Ho Hb Ha Hd] Hnew Hf Hsha Hpart. split.
  - split; cbn; [|done|..].
    + intros p j [[_ <-]|[_ Hq]]%lookup_insert_Some; [by eexists|by eapply Hl].
    + intros id' j f' [[E <-]|[_ Hq]]%lookup_insert_Some Hf'; [|by eapply Hb]. injection E as <-. by rewrite Hf in Hf'; injection Hf' as <-.
    + intros id' id2 j [[E <-]|[_ Hq]]%lookup_insert_Some [[E' _]|[_ Hq']]%lookup_insert_Some; try done; [|by eapply Ha].
      injection E as <-. by apply Hpart.
    + intros id' id2 j [[E _]|[_ Hq]]%lookup_insert_Some [[E' _]|[_ Hq']]%lookup_insert_Some; try done. by eapply Hd.
  - intros id' b (j & f' & Hj & Hf' & <-)%path_bytes_Some. apply path_bytes_Some. exists j, f'. split; [|done].
    cbn. rewrite lookup_insert_ne; [done|]. intros E. injection E as <-. congruence.
Qed.

(** ** Rules *)
Definition after {A} (m : F A) s (Q : result ClientContentError.t A -> ContentStore -> Prop) : Prop :=
  Q (fst (m s)) (snd (m s)).

Lemma after_andthen {A B} (m : F A) (k : A -> F B) s Q :
  after m s (fun r s1 => match r with Ok a => after (k a) s1 Q | Err e => Q (Err e) s1 end) ->
  after (andthen m k) s Q.
Proof. unfold after, andthen. by destruct (m s) as [[a|e] s1]. Qed.
Lemma after_mono {A} (m : F A) s (P Q : _ -> _ -> Prop) :
  after m s P -> (forall r s', P r s' -> Q r s') -> after m s Q.
Proof. unfold after. auto. Qed.

(** Operations that only read. *)
Definition reads {A} (m : F A) : Prop := forall s, same_files s (snd (m s)).

Lemma after_reads {A} (m : F A) s (Q : _ -> _ -> Prop) :
  reads m -> (forall r s', m s = (r, s') -> same_files s s' -> Q r s') -> after m s Q.
Proof. intros Hm HQ. unfold after. specialize (Hm s). destruct (m s) as [r s'] eqn:E. by apply HQ. Qed.

Lemma reads_pure {A} (a : A) : reads (pure a).
Proof. done. Qed.
Lemma reads_fails {A} e : reads (fails (A := A) e).
Proof. done. Qed.
Lemma reads_of_result {A} (r : result ClientContentError.t A) : reads (of_result r).
Proof. done. Qed.
Lemma reads_store : reads store.
Proof. done. Qed.
Lemma reads_andthen {A B} (m : F A) (k : A -> F B) : reads m -> (forall a, reads (k a)) -> reads (andthen m k).
Proof.
  intros Hm Hk s. unfold andthen. specialize (Hm s). destruct (m s) as [[a|e] s1]; [|done].
  eapply same_files_trans; [exact Hm|apply Hk].
Qed.
Lemma reads_fault : reads fault.
Proof. intros s. unfold fault. by destruct (faults s). Qed.
Hint Resolve reads_pure reads_fails reads_of_result reads_store reads_fault : content.
Ltac reading :=
  repeat first
    [ solve [eauto with content]
    | apply reads_andthen; [|intros ?]
    | match goal with |- reads (match ?x with _ => _ end) => destruct x end
    | match goal with |- reads (let _ := _ in _) => cbv zeta end ].

Lemma reads_io : reads io.
Proof. unfold io. reading. Qed.
Hint Resolve reads_io : content.
Lemma reads_metadata p : reads (regular_metadata_if_exists p).
Proof. unfold regular_metadata_if_exists. reading. Qed.
Hint Resolve reads_metadata : content.
Lemma reads_regular_metadata p : reads (regular_metadata p).
Proof. unfold regular_metadata. reading. Qed.
Hint Resolve reads_regular_metadata : content.
Lemma reads_open p : reads (open_regular_file p).
Proof. unfold open_regular_file. reading. Qed.
Hint Resolve reads_open : content.
Lemma reads_verify p d : reads (verify_file p d).
Proof. unfold verify_file. reading. Qed.
Hint Resolve reads_verify : content.
Lemma reads_remember id fp : reads (let! s := store in replace (with_verified s (<[id := fp]> (verified s)))).
Proof. done. Qed.
Hint Resolve reads_remember : content.
Lemma reads_blob d : reads (blob d).
Proof. unfold blob. reading. Qed.
Hint Resolve reads_blob : content.
Lemma reads_partial_offset d : reads (partial_offset d).
Proof. unfold partial_offset. reading. Qed.
Lemma reads_read_range d offset maximum : reads (read_range d offset maximum).
Proof. unfold read_range. reading. Qed.
Hint Resolve reads_partial_offset reads_read_range : content.

(** ** What reads find *)
Lemma andthen_Ok {A B} (m : F A) (k : A -> F B) s b s' :
  andthen m k s = (Ok b, s') -> exists a s1, m s = (Ok a, s1) /\ k a s1 = (Ok b, s').
Proof. unfold andthen. destruct (m s) as [[a|e] s1]; [|done]. intros E. by exists a, s1. Qed.

Lemma metadata_Ok p s r s' :
  regular_metadata_if_exists p s = (Ok r, s') ->
  same_files s s' /\ r = (i ← names s !! p; f ← inodes s !! i; Some (i, f)).
Proof.
  intros E. pose proof (reads_metadata p s) as Hs. rewrite E in Hs. split; [done|].
  unfold regular_metadata_if_exists in E. apply andthen_Ok in E as (? & s1 & E1 & E2).
  pose proof (reads_io s) as Hs1. rewrite E1 in Hs1. destruct Hs1 as (En & Ei & _). cbn in En, Ei.
  cbn in E2. injection E2 as <- <-. by rewrite En, Ei.
Qed.

Lemma regular_metadata_Ok p s i f s' :
  regular_metadata p s = (Ok (i, f), s') -> same_files s s' /\ names s !! p = Some i /\ inodes s !! i = Some f.
Proof.
  unfold regular_metadata. intros (r & s1 & E1 & E2)%andthen_Ok. apply metadata_Ok in E1 as [Hs ->].
  destruct (names s !! p) as [j|] eqn:En; [|done]. cbn in E2. destruct (inodes s !! j) as [g|] eqn:Ef; [|done]. cbn in E2.
  injection E2 as <- <- <-. done.
Qed.

Lemma open_Ok p s bytes s' : open_regular_file p s = (Ok bytes, s') -> path_bytes s p = Some bytes.
Proof.
  unfold open_regular_file. intros ([i f] & s1 & E1 & E2)%andthen_Ok. apply regular_metadata_Ok in E1 as (_ & En & Ef).
  apply andthen_Ok in E2 as (? & s2 & _ & E2). apply andthen_Ok in E2 as (? & s3 & _ & [= <- <-]).
  apply path_bytes_Some. by exists i, f.
Qed.

Lemma path_bytes_same s s' p : same_files s s' -> path_bytes s' p = path_bytes s p.
Proof. intros (En & Ei & _). unfold path_bytes. by rewrite En, Ei. Qed.

Lemma verify_expected_Ok d n digest :
  verify_expected d n digest = Ok tt <-> n = ContentDescriptor.byte_length d /\ digest = ContentDescriptor.content_id d.
Proof.
  unfold verify_expected. destruct (n =? _) eqn:E1; cbn.
  - apply Z.eqb_eq in E1. destruct (list_eqb _ _) eqn:E2; cbn.
    + apply list_eqb_eq in E2. done.
    + apply list_eqb_neq in E2. naive_solver.
  - apply Z.eqb_neq in E1. naive_solver.
Qed.

(** The bytes of a name are those of a descriptor. *)
Definition holds_content s (p : ContentPath) (d : ContentDescriptor.t) : Prop :=
  exists bytes, path_bytes s p = Some bytes /\ sha256 bytes = ContentDescriptor.content_id d
    /\ Z.of_nat (length bytes) = ContentDescriptor.byte_length d.

Lemma verify_file_Ok p d s s' : verify_file p d s = (Ok tt, s') -> holds_content s p d.
Proof.
  unfold verify_file. intros ([i f] & s1 & E1 & E2)%andthen_Ok. apply regular_metadata_Ok in E1 as (Hs & En & Ef).
  cbn in E2. destruct (_ =? _) eqn:El; [|done]. cbn in E2. apply andthen_Ok in E2 as (bytes & s2 & E2 & E3).
  apply open_Ok in E2. rewrite (path_bytes_same _ _ _ Hs) in E2. unfold of_result in E3. injection E3 as E3 _.
  apply verify_expected_Ok in E3 as [E3 E4]. exists bytes. split; [done|]. split; [done|]. apply path_bytes_Some in E2 as (j & g & Hj & Hg & <-).
  rewrite En in Hj. injection Hj as <-. rewrite Ef in Hg. injection Hg as <-. done.
Qed.

Lemma blob_Ok d s r s' :
  content_ok s -> blob d s = (Ok r, s') ->
  same_files s s' /\ match r with
                     | Some d' => d' = d /\ holds_content s (BlobPath (ContentDescriptor.content_id d)) d
                     | None => names s !! BlobPath (ContentDescriptor.content_id d) = None
                     end.
Proof.
  intros Hok E. pose proof (reads_blob d s) as Hs. rewrite E in Hs. split; [done|].
  unfold blob in E. apply andthen_Ok in E as (m & s1 & E1 & E2). apply metadata_Ok in E1 as [Hs1 ->].
  destruct (names s !! BlobPath _) as [i|] eqn:En; cbn in E2.
  - destruct (names_live s Hok _ _ En) as [f Ef]. rewrite Ef in E2. cbn in E2. destruct (_ =? _) eqn:El; [|done].
    cbn in E2. apply andthen_Ok in E2 as (? & s2 & _ & [= <- <-]).
    split; [done|]. exists (file_bytes f). split; [|split].
    + apply path_bytes_Some. by exists i, f.
    + by apply (blobs_authentic s Hok _ i).
    + by apply Z.eqb_eq in El.
  - by injection E2 as <- <-.
Qed.

(** ** Writes *)
Definition is_blob (p : ContentPath) : bool := match p with BlobPath _ => true | _ => false end.
Lemma not_blob p : is_blob p = false -> forall id, p <> BlobPath id.
Proof. by destruct p. Qed.

Lemma after_reads_preserved {A} (m : F A) s :
  content_ok s -> reads m -> after m s (fun _ s' => preserved s s').
Proof. intros Hok Hm. apply after_reads; [done|]. intros r s' _ Hs. by apply same_files_preserved. Qed.

(** After a read, on with what the rest preserves. *)
Lemma after_read_then {A B} (m : F A) (k : A -> F B) s (Q : _ -> _ -> Prop) :
  content_ok s -> reads m -> (forall e s', preserved s s' -> Q (Err e) s') ->
  (forall a s', m s = (Ok a, s') -> same_files s s' -> content_ok s' -> after (k a) s' Q) ->
  after (andthen m k) s Q.
Proof.
  intros Hok Hm He Hk. apply after_andthen, after_reads; [done|]. intros [a|e] s' E Hs.
  - apply Hk; [done..|]. by apply (same_files_preserved s).
  - apply He. by apply same_files_preserved.
Qed.

Lemma remove_safe p s :
  content_ok s -> is_blob p = false -> after (remove_if_exists p) s (fun _ => preserved s).
Proof.
  intros Hok Hp. unfold remove_if_exists. apply after_read_then; [done|auto with content|done|].
  intros [] s1 _ Hs1 Hok1. apply after_read_then; [done|auto with content|..].
  { intros e s' Hp'. eapply preserved_trans; [by apply same_files_preserved|done]. }
  intros s2 s2' [= <- <-] _ _. pose proof (same_files_preserved _ _ Hok Hs1) as H1.
  destruct (names s1 !! p) as [i|]; [|exact H1].
  unfold after. cbn. eapply preserved_trans; [exact H1|].
  pose proof (delete_preserved s1 p Hok1 (not_blob p Hp)) as Hdel. eapply preserved_trans; [exact Hdel|].
  apply touched_preserved, Hdel.
Qed.

(** Only this name leads to the inode. *)
Definition private s (p : ContentPath) (i : nat) : Prop :=
  names s !! p = Some i /\ forall q, names s !! q = Some i -> q = p.

Lemma private_same s s' p i : same_files s s' -> private s p i -> private s' p i.
Proof. intros (En & _ & _). unfold private. by rewrite En. Qed.

Lemma new_inode_private s p : content_ok s -> private (with_new_inode s p) p (next_inode s).
Proof.
  intros Hok. split; cbn; [by rewrite lookup_insert_eq|].
  intros q [[<- _]|[_ Hq]]%lookup_insert_Some; [done|]. by destruct (fresh_inode s q (next_inode s)).
Qed.
Lemma new_inode_bytes s p : path_bytes (with_new_inode s p) p = Some [].
Proof. unfold path_bytes. cbn. rewrite lookup_insert_eq. cbn. by rewrite lookup_insert_eq. Qed.

(** A file that was opened may still be refused. *)
Lemma after_opened m s (Q : _ -> _ -> Prop) :
  after m s (fun r s' => Q r s' /\ forall i s'', r = Ok i -> same_files s' s'' -> Q (Ok i) s'' /\ forall e, Q (Err e) s'') ->
  after (opened m) s Q.
Proof.
  unfold opened, after, andthen. destruct (m s) as [[i|e] s1]; [|by intros [HQ _]]. intros [_ HQ].
  pose proof (reads_io s1) as Hs. destruct (io s1) as [[[]|e] s2]; cbn in *; by apply (HQ i s2).
Qed.

Lemma create_safe p s :
  content_ok s -> is_blob p = false -> names s !! p = None ->
  after (create_private_truncated p) s (fun r s' => preserved s s'
    /\ match r with Ok i => private s' p i /\ path_bytes s' p = Some [] | Err _ => True end).
Proof.
  intros Hok Hp Hn. unfold create_private_truncated. apply after_read_then; [done|auto with content|done|].
  intros [] s1 _ Hs1 Hok1. apply after_read_then; [done|auto with content|..].
  { intros e s' Hp'. split; [|done]. eapply preserved_trans; [by apply same_files_preserved|done]. }
  intros s2 s2' [= <- <-] _ _. apply after_opened. rewrite (proj1 Hs1), Hn. unfold after. cbn.
  assert (Hkept : preserved s (with_new_inode s1 p)).
  { eapply preserved_trans; [by apply same_files_preserved|]. apply new_inode_preserved; [done|by apply not_blob]. }
  split; [split; [done|split; [by apply new_inode_private|apply new_inode_bytes]]|].
  intros i s' [= <-] Hs'. assert (Hkept' : preserved s s').
  { eapply preserved_trans; [exact Hkept|]. apply same_files_preserved; [apply Hkept|done]. }
  split; [|by intros e; split]. split; [done|]. split; [eapply private_same, new_inode_private; done|].
  rewrite (path_bytes_same _ _ _ Hs'). apply new_inode_bytes.
Qed.

(** A write to an inode no blob leads to. *)
Lemma write_all_safe i bytes s old p :
  content_ok s -> names s !! p = Some i -> (forall id, names s !! BlobPath id <> Some i) ->
  path_bytes s p = Some old ->
  after (write_all i bytes) s (fun r s' => preserved s s' /\ names s' = names s
    /\ (r = Ok tt -> path_bytes s' p = Some (old ++ bytes))).
Proof.
  intros Hok Hn Hnot Hb. unfold write_all. pose proof (reads_fault s) as Hs1. unfold after, andthen.
  destruct (fault s) as [[f|e] s1] eqn:Ef; [|by unfold fault in Ef; destruct (faults s)].
  cbn [snd] in Hs1. pose proof (same_files_preserved _ _ Hok Hs1) as [Hok1 _]. pose proof Hs1 as (En & Ei & _).
  assert (Hw : forall more, preserved s (with_inode s1 i more)).
  { intros more. eapply preserved_trans; [by apply same_files_preserved|]. apply with_inode_preserved; [done|..].
    - eapply (names_live s1 Hok1 p). by rewrite En.
    - intros id. rewrite En. apply Hnot. }
  apply path_bytes_Some in Hb as (j & g & Hj & Hg & <-). rewrite Hn in Hj. injection Hj as <-.
  cbn. rewrite Ei, Hg. destruct f as [[kind written]|]; cbn.
  - split; [apply Hw|]. split; [by rewrite En|done].
  - split; [apply Hw|]. split; [by rewrite En|]. intros _. apply path_bytes_Some. exists i, (mkFile (file_bytes g ++ bytes) (change_time s1 + 1)).
    cbn. rewrite En, lookup_insert_eq. done.
Qed.

Lemma copy_safe i p (too_long : Z -> F unit) : is_blob p = false ->
  (forall n s, content_ok s -> after (too_long n) s (fun r s' => preserved s s' /\ (r = Ok tt -> same_files s s'))) ->
  forall source hashed s, content_ok s -> private s p i -> path_bytes s p = Some hashed ->
  after (copy_loop i too_long source hashed) s (fun r s' => preserved s s'
    /\ match r with Ok bytes => private s' p i /\ path_bytes s' p = Some bytes | Err _ => True end).
Proof.
  intros Hp Hlong. induction source as [|[[|b bytes]|kind] source IH]; intros hashed s Hok Hpriv Hb; cbn [copy_loop].
  1,2,4: unfold after; cbn; by split; [apply preserved_refl|].
  set (chunk := b :: bytes). apply after_andthen. eapply after_mono; [by apply Hlong|].
  intros [[]|e] s1 [H1 Hs1]; [|done]. specialize (Hs1 eq_refl). pose proof (proj1 H1) as Hok1.
  apply (private_same _ _ _ _ Hs1) in Hpriv. rewrite <- (path_bytes_same _ _ p Hs1) in Hb.
  apply after_andthen. eapply after_mono; [apply (write_all_safe i chunk s1 hashed p); try done|].
  - apply Hpriv.
  - intros id Hid. destruct Hpriv as [_ Hpriv]. rewrite <- (Hpriv _ Hid) in Hp. done.
  - intros [[]|e] s2 (H2 & En & Hb2); [|split; [by eapply preserved_trans|done]].
    eapply after_mono; [apply IH|].
    + apply H2.
    + unfold private. rewrite En. apply Hpriv.
    + by apply Hb2.
    + intros r s3 [H3 Hr]. split; [|done]. eapply preserved_trans; [exact H1|]. by eapply preserved_trans.
Qed.

(** What [publish] needs of its temporary file. *)
Definition ready s (p : ContentPath) (d : ContentDescriptor.t) : Prop :=
  exists i f, names s !! p = Some i /\ inodes s !! i = Some f
    /\ sha256 (file_bytes f) = ContentDescriptor.content_id d
    /\ forall id, names s !! PartialPath id = Some i -> id = ContentDescriptor.content_id d.
Lemma ready_same s s' p d : same_files s s' -> ready s p d -> ready s' p d.
Proof. intros (En & Ei & _). unfold ready. by rewrite En, Ei. Qed.

Lemma publish_safe d p s :
  content_ok s -> is_blob p = false -> ready s p d -> after (publish d p) s (fun _ => preserved s).
Proof.
  intros Hok Hp Hready. unfold publish. apply after_read_then; [done|auto with content|done|].
  intros [] s1 _ Hs1 Hok1. apply after_read_then; [done|auto with content|..].
  { intros e s' Hp'. eapply preserved_trans; [by apply same_files_preserved|done]. }
  intros [] s2 _ Hs2 Hok2. pose proof (same_files_trans _ _ _ Hs1 Hs2) as Hs.
  apply (ready_same _ _ _ _ Hs) in Hready. pose proof (same_files_preserved _ _ Hok Hs) as H2.
  destruct Hready as (i & f & Hn & Hf & Hsha & Hpart). apply after_andthen. unfold after at 1. cbn. rewrite Hn.
  apply after_andthen.
  assert (Hrest : after (match names s2 !! BlobPath (ContentDescriptor.content_id d) with
     | None => replace (touched (with_names s2 (<[BlobPath (ContentDescriptor.content_id d) := i]> (names s2))) i) ;!
               remove_if_exists p ;! io
     | Some _ => verify_file (BlobPath (ContentDescriptor.content_id d)) d ;! remove_if_exists p
     end) s2 (fun _ => preserved s2)).
  - destruct (names s2 !! BlobPath _) as [j|] eqn:Ej.
    + apply after_read_then; [done|auto with content|done|]. intros [] s3 _ Hs3 Hok3.
      eapply after_mono; [by apply remove_safe|]. intros r s4 H4. eapply preserved_trans; [|exact H4].
      by apply same_files_preserved.
    + apply after_andthen. unfold after at 1. cbn.
      pose proof (link_preserved s2 _ i f Hok2 Ej Hf Hsha Hpart) as Hlink.
      pose proof (touched_preserved _ i (proj1 Hlink)) as Htouch.
      pose proof (preserved_trans _ _ _ Hlink Htouch) as H3. apply after_andthen.
      eapply after_mono; [apply remove_safe; [apply H3|done]|]. intros [[]|e] s4 H4; [|by eapply preserved_trans].
      eapply after_mono; [apply after_reads_preserved; [apply H4|auto with content]|]. intros r s5 H5.
      eapply preserved_trans; [exact H3|]. by eapply preserved_trans.
  - eapply after_mono; [exact Hrest|]. intros [[]|e] s3 H3; unfold after; cbn; by eapply preserved_trans.
Qed.

Lemma inspect_err_safe {A} (m : F A) cleanup s (Q : _ -> _ -> Prop) :
  after m s (fun r s' => preserved s s' /\ match r with Ok _ => Q r s' | Err _ => True end) ->
  (forall s', content_ok s' -> after cleanup s' (fun _ => preserved s')) ->
  (forall e s', preserved s s' -> Q (Err e) s') -> after (inspect_err m cleanup) s Q.
Proof.
  unfold after, inspect_err. intros [Hm HQ] Hc He. destruct (m s) as [[a|e] s1]; [done|]. cbn in *.
  apply He. eapply preserved_trans; [exact Hm|]. by apply Hc, Hm.
Qed.

Lemma private_ready s p i bytes d :
  private s p i -> is_blob p = false -> (forall id, p <> PartialPath id) -> path_bytes s p = Some bytes ->
  sha256 bytes = ContentDescriptor.content_id d -> ready s p d.
Proof.
  intros [Hn Hpriv] _ Hpart (j & f & Hj & Hf & <-)%path_bytes_Some Hsha. rewrite Hn in Hj. injection Hj as <-.
  exists i, f. repeat split; [done..|]. intros id Hid. by destruct (Hpart id); rewrite (Hpriv _ Hid).
Qed.

(** ** The operations *)
Lemma import_safe d source nonce s :
  content_ok s -> names s !! ImportPath (ContentDescriptor.content_id d) nonce = None ->
  after (import d source nonce) s (fun _ => preserved s).
Proof.
  intros Hok Hn. unfold import. apply after_read_then; [done|auto with content|done|]. intros [] s1 _ Hs1 Hok1.
  pose proof (same_files_preserved _ _ Hok Hs1) as H1.
  apply after_read_then; [done|auto with content|by intros e s' H'; eapply preserved_trans|].
  intros found s2 _ Hs2 Hok2. pose proof (same_files_preserved _ _ Hok1 Hs2) as H2.
  pose proof (preserved_trans _ _ _ H1 H2) as H12. destruct found as [found|]; [exact H12|].
  apply after_andthen. eapply after_mono.
  { apply create_safe; [done|done|]. by rewrite (proj1 Hs2), (proj1 Hs1). }
  intros [i|e] s3 [H3 Hi]; [|by eapply preserved_trans]. destruct Hi as [Hpriv Hb].
  pose proof (preserved_trans _ _ _ H12 H3) as H13. apply after_andthen.
  eapply after_mono.
  { apply (copy_safe i (ImportPath (ContentDescriptor.content_id d) nonce)); [done| |apply H3|done|done].
    intros n s0 Hok0. destruct (_ <? n); [|unfold after; cbn; by split; [apply preserved_refl|]].
    apply after_andthen. eapply after_mono; [by apply remove_safe|]. intros [[]|e] s4 H4; unfold after; cbn; done. }
  intros [bytes|e] s4 [H4 Hcopy]; [|by eapply preserved_trans]. destruct Hcopy as [Hpriv4 Hb4].
  pose proof (preserved_trans _ _ _ H13 H4) as H14.
  apply after_read_then; [apply H4|auto with content|by intros e s' H'; eapply preserved_trans|].
  intros [] s5 _ Hs5 Hok5. pose proof (same_files_preserved _ _ (proj1 H4) Hs5) as H5.
  pose proof (preserved_trans _ _ _ H14 H5) as H15. apply after_andthen.
  apply inspect_err_safe.
  - apply after_reads; [auto with content|]. intros r s6 [= <- <-] _. split; [by apply preserved_refl|].
    destruct (verify_expected _ _ _) as [[]|] eqn:Ev; [|done].
    apply verify_expected_Ok in Ev as [_ Hsha]. eapply after_mono.
    + apply publish_safe; [done|done|]. eapply (private_ready _ _ i bytes); [by eapply private_same|done|done| |done].
      by rewrite (path_bytes_same _ _ _ Hs5).
    + intros r s6 H6. by eapply preserved_trans.
  - intros s' Hok'. by apply remove_safe.
  - intros e s' H'. by eapply preserved_trans.
Qed.

Lemma import_file_safe initial source nonce s :
  content_ok s -> names s !! PendingPath nonce = None ->
  after (import_file initial source nonce) s (fun _ => preserved s).
Proof.
  intros Hok Hn. unfold import_file. apply after_read_then; [done|auto with content|done|]. intros n s1 E1 Hs1 Hok1.
  injection E1 as _ <-. apply after_read_then; [done|auto with content|done|]. intros [] s2 E2 Hs2 Hok2.
  injection E2 as _ <-. apply inspect_err_safe; [|by intros s' Hok'; apply remove_safe|done].
  enough (Hm : after (let! output := create_private_truncated (PendingPath nonce) in
    let! bytes := copy_loop output (fun length => of_result (ensure_protocol_length length)) source [] in
    io ;! publish (ContentDescriptor.mk (hash_bytes bytes) (Z.of_nat (length bytes))) (PendingPath nonce)) s
    (fun _ => preserved s)).
  { eapply after_mono; [exact Hm|]. intros [a|e] s' H'; [by split|by split]. }
  apply after_andthen. eapply after_mono; [by apply create_safe|].
  intros [i|e] s3 [H3 Hi]; [|done]. destruct Hi as [Hpriv Hb]. apply after_andthen. eapply after_mono.
  { apply (copy_safe i (PendingPath nonce)); [done| |apply H3|done|done].
    intros m s0 Hok0. unfold after. cbn. split; [by apply preserved_refl|done]. }
  intros [bytes|e] s4 [H4 Hcopy]; [|by eapply preserved_trans]. destruct Hcopy as [Hpriv4 Hb4].
  pose proof (preserved_trans _ _ _ H3 H4) as H34.
  apply after_read_then; [apply H4|auto with content|by intros e s' H'; eapply preserved_trans|].
  intros [] s5 _ Hs5 Hok5. pose proof (same_files_preserved _ _ (proj1 H4) Hs5) as H5.
  eapply after_mono.
  - apply publish_safe; [done|done|]. eapply (private_ready _ _ i bytes); [by eapply private_same|done|done| |done].
    by rewrite (path_bytes_same _ _ _ Hs5).
  - intros r s6 H6. eapply preserved_trans; [exact H34|]. by eapply preserved_trans.
Qed.

Lemma open_append_safe id s :
  content_ok s -> names s !! BlobPath id = None ->
  after (open_private_append (PartialPath id)) s (fun r s' => preserved s s'
    /\ match r with
       | Ok i => names s' !! PartialPath id = Some i /\ names s' !! BlobPath id = None
           /\ path_bytes s' (PartialPath id) = Some (default [] (path_bytes s (PartialPath id)))
       | Err _ => True
       end).
Proof.
  intros Hok Hn. unfold open_private_append. apply after_read_then; [done|auto with content|by split|].
  intros [] s1 _ Hs1 Hok1. pose proof (same_files_preserved _ _ Hok Hs1) as H1. pose proof Hs1 as (En & Ei & _).
  apply after_read_then; [done|auto with content|..].
  { intros e s' Hp'. split; [by eapply preserved_trans|done]. }
  intros s2 s2' [= <- <-] _ _. set (p := PartialPath id).
  set (bytes := default [] (path_bytes s p)).
  set (there := fun s' => preserved s s' /\ names s' !! BlobPath id = None /\ path_bytes s' p = Some bytes).
  assert (Hthere : forall i s', there s' -> names s' !! p = Some i -> forall s'', same_files s' s'' ->
    there s'' /\ names s'' !! p = Some i).
  { intros i s' (Hk & Hb & Hp) Hi s'' Hs''. unfold there. rewrite (path_bytes_same _ _ _ Hs''), (proj1 Hs'').
    repeat split; try done; (eapply preserved_trans; [exact Hk|]; apply same_files_preserved; [apply Hk|done]). }
  apply (after_opened _ _ (fun r s' => preserved s s' /\ match r with
    | Ok i => names s' !! p = Some i /\ names s' !! BlobPath id = None /\ path_bytes s' p = Some bytes | Err _ => True end)).
  assert (Hready : forall i s', there s' -> names s' !! p = Some i -> after (pure i) s' (fun r s' =>
    (preserved s s' /\ match r with Ok i => names s' !! p = Some i /\ names s' !! BlobPath id = None /\ path_bytes s' p = Some bytes
                      | Err _ => True end)
    /\ forall i s'', r = Ok i -> same_files s' s'' ->
       (preserved s s'' /\ names s'' !! p = Some i /\ names s'' !! BlobPath id = None /\ path_bytes s'' p = Some bytes)
       /\ forall e : ClientContentError.t, preserved s s'' /\ True)).
  { intros i s' Ht Hi. unfold after. cbn. split; [by destruct Ht as (? & ? & ?)|]. intros i' s'' [= <-] Hs''.
    destruct (Hthere i s' Ht Hi s'' Hs'') as [(? & ? & ?) ?]. done. }
  rewrite En. fold p. destruct (names s !! p) as [i|] eqn:Ep.
  - apply Hready; [|by rewrite En]. split; [done|]. rewrite En. split; [done|]. rewrite (path_bytes_same _ _ _ Hs1).
    unfold bytes, path_bytes. rewrite Ep. cbn. destruct (names_live s Hok _ _ Ep) as [f ->]. done.
  - apply after_andthen. unfold after at 1. cbn. apply Hready; [|cbn; by rewrite lookup_insert_eq].
    split; [eapply preserved_trans; [exact H1|by apply new_inode_preserved]|]. split; [cbn; by rewrite lookup_insert_ne, En|].
    rewrite new_inode_bytes. unfold bytes, path_bytes. by rewrite Ep.
Qed.

Lemma append_safe d offset bytes s :
  content_ok s -> after (append_download_chunk d offset bytes) s (fun _ => preserved s).
Proof.
  intros Hok. unfold append_download_chunk. destruct (_ <? _); [unfold after; cbn; by apply preserved_refl|].
  apply after_read_then; [done|auto with content|done|]. intros found s1 E1 Hs1 Hok1.
  pose proof (same_files_preserved _ _ Hok Hs1) as H1. apply blob_Ok in E1 as [_ E1]; [|done].
  destruct found as [found|]; [exact H1|]. rewrite <- (proj1 Hs1) in E1.
  apply after_read_then; [done|auto with content|by intros e s' H'; eapply preserved_trans|].
  intros current s2 _ Hs2 Hok2. pose proof (preserved_trans _ _ _ H1 (same_files_preserved _ _ Hok1 Hs2)) as H2.
  rewrite <- (proj1 Hs2) in E1. destruct (negb _); [exact H2|]. destruct (_ <? _); [exact H2|].
  apply after_andthen. eapply after_mono; [by apply open_append_safe|].
  intros [i|e] s3 [H3 Hi]; [|by eapply preserved_trans]. destruct Hi as (Hp & Hb & Hold).
  pose proof (preserved_trans _ _ _ H2 H3) as H23. apply after_andthen. eapply after_mono.
  { eapply (write_all_safe i bytes s3); [apply H3|exact Hp| |exact Hold].
    intros id Hid. pose proof (partials_apart s3 (proj1 H3) id _ i Hid Hp). subst id. congruence. }
  intros [[]|e] s4 (H4 & En & Hb4); [|by eapply preserved_trans]. pose proof (preserved_trans _ _ _ H23 H4) as H24.
  apply after_read_then; [apply H4|auto with content|by intros e s' H'; eapply preserved_trans|].
  intros [] s5 _ Hs5 Hok5. pose proof (preserved_trans _ _ _ H24 (same_files_preserved _ _ (proj1 H4) Hs5)) as H25.
  destruct (negb _); [exact H25|]. apply after_andthen. apply inspect_err_safe.
  - apply after_reads; [auto with content|]. intros r s6 E6 Hs6.
    pose proof (same_files_preserved _ _ Hok5 Hs6) as H6. split; [done|]. destruct r as [[]|]; [|done].
    apply verify_file_Ok in E6 as (final & Hf & Hsha & _). rewrite <- (path_bytes_same _ _ _ Hs6) in Hf.
    apply after_andthen. eapply after_mono.
    + apply publish_safe; [apply H6|done|]. apply path_bytes_Some in Hf as (j & f & Hj & Hff & <-). exists j, f.
      repeat split; [done..|]. intros id Hid. by apply (partials_distinct s6 (proj1 H6) _ _ j).
    + intros [d'|e] s7 H7; unfold after; cbn; (eapply preserved_trans; [exact H25|]; by eapply preserved_trans).
  - intros s' Hok'. by apply remove_safe.
  - intros e s' H'. by eapply preserved_trans.
Qed.

(** ** Reachable directories *)

(** One call, a restart, or the next failures of the file system.  An import draws a nonce no file
    of the directory has. *)
Inductive content_step : ContentStore -> ContentStore -> Prop :=
| step_import s d source nonce : names s !! ImportPath (ContentDescriptor.content_id d) nonce = None ->
    content_step s (snd (import d source nonce s))
| step_import_file s initial source nonce : names s !! PendingPath nonce = None ->
    content_step s (snd (import_file initial source nonce s))
| step_append s d offset bytes : content_step s (snd (append_download_chunk d offset bytes s))
| step_partial_offset s d : content_step s (snd (partial_offset d s))
| step_blob s d : content_step s (snd (blob d s))
| step_read s d offset maximum : content_step s (snd (read_range d offset maximum s))
| step_faults s next : content_step s (with_faults s next)
| step_reopen s : content_step s (reopened s).

Lemma content_step_preserved s s' : content_ok s -> content_step s s' -> preserved s s'.
Proof.
  intros Hok Hstep. destruct Hstep.
  - by apply import_safe.
  - by apply import_file_safe.
  - by apply append_safe.
  - apply same_files_preserved; [done|apply reads_partial_offset].
  - apply same_files_preserved; [done|apply reads_blob].
  - apply same_files_preserved; [done|apply reads_read_range].
  - by apply same_files_preserved.
  - by apply same_files_preserved.
Qed.

Lemma content_steps_preserved s s' : content_ok s -> rtc content_step s s' -> preserved s s'.
Proof.
  intros Hok Hsteps. revert Hok. induction Hsteps as [s|s1 s2 s3 Hstep _ IH]; intros Hok; [by apply preserved_refl|].
  pose proof (content_step_preserved _ _ Hok Hstep) as H1. eapply preserved_trans; [exact H1|]. apply IH, H1.
Qed.

Lemma empty_content_ok next : content_ok (empty_store next).
Proof. by split; cbn; intros *; rewrite ?lookup_empty; try intros [? [=]]. Qed.

(** ** Calls that do not fail *)
Definition faultless s : Prop := faults s = [].

Lemma fault_none s : faultless s -> fault s = (Ok None, s).
Proof. unfold faultless, fault. by intros ->. Qed.
Lemma io_none s : faultless s -> io s = (Ok tt, s).
Proof. intros Hf. unfold io, andthen. by rewrite (fault_none s Hf). Qed.
Lemma metadata_none p s : faultless s ->
  regular_metadata_if_exists p s = (Ok (i ← names s !! p; f ← inodes s !! i; Some (i, f)), s).
Proof. intros Hf. unfold regular_metadata_if_exists, andthen. by rewrite (io_none s Hf). Qed.
Lemma regular_metadata_none p s i f : faultless s -> names s !! p = Some i -> inodes s !! i = Some f ->
  regular_metadata p s = (Ok (i, f), s).
Proof. intros Hf En Ef. unfold regular_metadata, andthen. rewrite (metadata_none p s Hf), En. cbn. by rewrite Ef. Qed.
Lemma open_none p s bytes : faultless s -> path_bytes s p = Some bytes -> open_regular_file p s = (Ok bytes, s).
Proof.
  intros Hf (i & f & En & Ef & <-)%path_bytes_Some. unfold open_regular_file, andthen.
  rewrite (regular_metadata_none p s i f) by done. by rewrite !io_none.
Qed.
Lemma verify_none p d s : faultless s -> holds_content s p d -> verify_file p d s = (Ok tt, s).
Proof.
  intros Hf (bytes & Hb & Hsha & Hlen). pose proof Hb as (i & f & En & Ef & E)%path_bytes_Some.
  unfold verify_file, andthen. rewrite (regular_metadata_none p s i f) by done. cbn [snd]. unfold byte_length. rewrite E, Hlen.
  rewrite Z.eqb_refl. cbn. rewrite (open_none p s bytes) by done. unfold of_result.
  by rewrite (proj2 (verify_expected_Ok d _ (sha256 bytes))).
Qed.
Lemma absent_blob d s : faultless s -> names s !! BlobPath (ContentDescriptor.content_id d) = None ->
  blob d s = (Ok None, s).
Proof. intros Hf En. unfold blob, andthen. by rewrite (metadata_none _ s Hf), En. Qed.

(** A blob that is there is found, and the cache is all that changes. *)
Lemma present_blob d s : faultless s -> holds_content s (BlobPath (ContentDescriptor.content_id d)) d ->
  exists s', blob d s = (Ok (Some d), s') /\ same_files s s' /\ faultless s'.
Proof.
  intros Hf Hd. pose proof Hd as (bytes & Hb & Hsha & Hlen). pose proof Hb as (i & f & En & Ef & E)%path_bytes_Some.
  unfold blob, andthen. rewrite (metadata_none _ s Hf), En. cbn. rewrite Ef. cbn. unfold byte_length. rewrite E, Hlen, Z.eqb_refl. cbn.
  case_bool_decide; [by exists s|]. rewrite (verify_none _ d s Hf Hd). rewrite (regular_metadata_none _ s i f) by done. cbn.
  by eexists.
Qed.

Lemma remove_none p s : faultless s -> exists s', remove_if_exists p s = (Ok tt, s') /\ faultless s'
  /\ forall q, q <> p -> path_bytes s' q = path_bytes s q.
Proof.
  intros Hf. unfold remove_if_exists, andthen. rewrite (io_none s Hf). cbn. destruct (names s !! p) as [i|]; [|by exists s].
  cbn. eexists. split; [done|]. split.
  - unfold faultless, touched. by destruct (inodes _ !! i).
  - intros q Hq. rewrite path_bytes_touched. unfold path_bytes. cbn. by rewrite lookup_delete_ne.
Qed.

Lemma publish_none d p s bytes : faultless s -> is_blob p = false -> path_bytes s p = Some bytes ->
  names s !! BlobPath (ContentDescriptor.content_id d) = None ->
  exists s', publish d p s = (Ok d, s') /\ faultless s'
    /\ path_bytes s' (BlobPath (ContentDescriptor.content_id d)) = Some bytes.
Proof.
  intros Hf Hp Hb Hn. pose proof Hb as (i & f & En & Ef & E)%path_bytes_Some. unfold publish, andthen.
  rewrite !(io_none s Hf). cbn. rewrite En, Hn. cbn.
  set (linked := touched _ i). assert (Hf1 : faultless linked).
  { unfold linked, touched, faultless. by destruct (inodes _ !! i). }
  destruct (remove_none p linked Hf1) as (s1 & -> & Hf2 & Hkeep). rewrite (io_none s1 Hf2). cbn.
  exists s1. split; [done|]. split; [done|]. rewrite Hkeep by (intros <-; done). unfold linked. rewrite path_bytes_touched.
  unfold path_bytes. cbn. rewrite lookup_insert_eq. cbn. by rewrite Ef, <- E.
Qed.

Lemma write_none i p bytes old s : faultless s -> names s !! p = Some i -> path_bytes s p = Some old ->
  write_all i bytes s = (Ok tt, with_inode s i (old ++ bytes)).
Proof.
  intros Hf En (j & f & En' & Ef & E)%path_bytes_Some. rewrite En in En'. injection En' as <-.
  unfold write_all, andthen. rewrite (fault_none s Hf). cbn. by rewrite Ef, E.
Qed.
Lemma with_inode_bytes s i p bytes : names s !! p = Some i -> path_bytes (with_inode s i bytes) p = Some bytes.
Proof. intros En. unfold path_bytes. cbn. rewrite En. cbn. by rewrite lookup_insert_eq. Qed.

Lemma copy_none i p too_long chunks : forall hashed s,
  faultless s -> names s !! p = Some i -> path_bytes s p = Some hashed ->
  (forall n s, 0 <= n <= Z.of_nat (length (hashed ++ concat chunks)) -> too_long n s = (Ok tt, s)) ->
  Forall (fun chunk => chunk <> []) chunks ->
  exists s', copy_loop i too_long (List.map Ok chunks) hashed s = (Ok (hashed ++ concat chunks), s')
    /\ faultless s' /\ names s' = names s /\ path_bytes s' p = Some (hashed ++ concat chunks).
Proof.
  induction chunks as [|chunk chunks IH]; intros hashed s Hf Hn Hb Hlong Hne; cbn [List.map concat copy_loop].
  - rewrite app_nil_r. by exists s.
  - apply Forall_cons in Hne as [Hc Hne]. destruct chunk as [|b chunk]; [done|]. set (c := b :: chunk) in *.
    unfold andthen. rewrite Hlong by (rewrite !length_app; cbn; rewrite ?length_app; lia).
    rewrite (write_none i p c hashed s) by done. rewrite app_assoc.
    destruct (IH (hashed ++ c) (with_inode s i (hashed ++ c))) as (s' & E & Hf' & En & Hb'); [done|done|..|done|].
    + by apply with_inode_bytes.
    + intros n s0 Hn0. apply Hlong. cbn [concat]. by rewrite app_assoc.
    + exists s'. by rewrite E, En.
Qed.

Lemma new_file_none p s : faultless s -> names s !! p = None ->
  create_private_truncated p s = (Ok (next_inode s), with_new_inode s p).
Proof.
  intros Hf En. unfold create_private_truncated, opened, andthen. rewrite (io_none s Hf). cbn. rewrite En. cbn.
  by rewrite (io_none (with_new_inode s p)).
Qed.

(** ** Downloads *)

(** The partial file of a download holds a prefix of the content, perhaps all of it, and no
    blob is there.  The next calls of the file system succeed. *)
Record downloading s (d : ContentDescriptor.t) (content : list Z) (offset : nat) : Prop := {
  download_faultless : faultless s;
  download_absent : names s !! BlobPath (ContentDescriptor.content_id d) = None;
  download_partial : default [] (path_bytes s (PartialPath (ContentDescriptor.content_id d))) = firstn offset content;
  download_live : forall i, names s !! PartialPath (ContentDescriptor.content_id d) = Some i -> is_Some (inodes s !! i);
  download_offset : (offset <= length content)%nat
}.

Definition describes (d : ContentDescriptor.t) (content : list Z) : Prop :=
  sha256 content = ContentDescriptor.content_id d /\ Z.of_nat (length content) = ContentDescriptor.byte_length d.

Lemma downloading_offset s d content offset :
  downloading s d content offset -> describes d content -> partial_offset d s = (Ok (Z.of_nat offset), s).
Proof.
  intros [Hf Habs Hpart Hlive Ho] [_ Hlen]. unfold partial_offset, andthen. rewrite (absent_blob d s Hf Habs).
  rewrite (metadata_none _ s Hf). unfold path_bytes in Hpart. destruct (names s !! PartialPath _) as [i|] eqn:En; cbn in *.
  - destruct (Hlive i eq_refl) as [f Ef]. rewrite Ef in Hpart |- *. cbn in Hpart |- *. unfold byte_length. rewrite Hpart, length_firstn.
    rewrite Nat.min_l by lia. by rewrite (proj2 (Z.ltb_ge _ (Z.of_nat offset))) by lia.
  - destruct offset; [done|]. destruct content; cbn in *; [lia|done].
Qed.

Lemma open_append_none s d content offset :
  downloading s d content offset ->
  let p := PartialPath (ContentDescriptor.content_id d) in
  exists i s', open_private_append p s = (Ok i, s') /\ faultless s' /\ names s' !! p = Some i
    /\ names s' !! BlobPath (ContentDescriptor.content_id d) = None /\ path_bytes s' p = Some (firstn offset content).
Proof.
  intros [Hf Habs Hpart Hlive Ho] p. unfold open_private_append, opened, andthen. rewrite (io_none s Hf). cbn.
  destruct (names s !! p) as [i|] eqn:En; cbn; [rewrite (io_none s Hf)|rewrite (io_none (with_new_inode s p) Hf)]; cbn.
  - exists i, s. split; [done|]. split; [done|]. split; [done|]. split; [done|]. destruct (Hlive i En) as [f Ef].
    fold p in Hpart. unfold path_bytes in *. rewrite En in *. cbn in *. rewrite Ef in *. cbn in *. by f_equal.
  - eexists _, _. split; [done|]. split; [done|]. split; [cbn; by rewrite lookup_insert_eq|].
    split; [cbn; by rewrite lookup_insert_ne|]. rewrite new_inode_bytes. fold p in Hpart. unfold path_bytes in Hpart.
    rewrite En in Hpart. cbn in Hpart. by rewrite <- Hpart.
Qed.

Lemma append_none s d content offset size :
  downloading s d content offset -> describes d content ->
  (0 < size)%nat -> Z.of_nat size <= MAX_DOWNLOAD_CHUNK_BYTES -> (offset + size <= length content)%nat ->
  let next := (offset + size)%nat in
  exists s', append_download_chunk d (Z.of_nat offset) (firstn size (skipn offset content)) s
      = (Ok (mkAppendResult (Z.of_nat next) (next =? length content)%nat), s')
    /\ faultless s'
    /\ if (next =? length content)%nat
       then path_bytes s' (BlobPath (ContentDescriptor.content_id d)) = Some content
       else downloading s' d content next.
Proof.
  intros Hdown Hdesc Hsize Hmax Hfit next. pose proof Hdesc as [Hsha Hlen]. pose proof Hdown as [Hf Habs _ _ Ho].
  set (p := PartialPath (ContentDescriptor.content_id d)). set (chunk := firstn size (skipn offset content)).
  assert (Hchunk : length chunk = size) by (unfold chunk; rewrite length_firstn, length_skipn; lia).
  assert (Hnext : firstn offset content ++ chunk = firstn next content).
  { unfold chunk, next. symmetry. rewrite <- (firstn_skipn offset content) at 1.
    rewrite firstn_app, firstn_firstn, length_firstn. rewrite (Nat.min_r (offset + size)) by lia.
    rewrite (Nat.min_l offset) by lia. do 2 f_equal. lia. }
  destruct (open_append_none s d content offset Hdown) as (i & s1 & Eo & Hf1 & En1 & Habs1 & Hb1). fold p in Eo, En1, Hb1.
  unfold append_download_chunk. rewrite Hchunk, (proj2 (Z.ltb_ge MAX_DOWNLOAD_CHUNK_BYTES _)) by lia.
  unfold andthen. rewrite (absent_blob d s Hf Habs). rewrite (downloading_offset s d content offset Hdown) by done.
  rewrite Z.eqb_refl. cbn [negb]. rewrite (proj2 (Z.ltb_ge _ (Z.of_nat offset + Z.of_nat size))) by lia. fold p. rewrite Eo.
  rewrite (write_none i p chunk (firstn offset content) s1) by done. rewrite Hnext.
  set (s2 := with_inode s1 i (firstn next content)). assert (Hf2 : faultless s2) by done.
  rewrite (io_none s2 Hf2). replace (Z.of_nat offset + Z.of_nat size) with (Z.of_nat next) by lia.
  assert (Hb2 : path_bytes s2 p = Some (firstn next content)) by by apply with_inode_bytes.
  rewrite <- Hlen. destruct (next =? length content)%nat eqn:Ec.
  - apply Nat.eqb_eq in Ec. rewrite Ec, Z.eqb_refl. cbn [negb]. rewrite Ec, firstn_all in Hb2.
    unfold inspect_err. rewrite (verify_none p d s2 Hf2) by (by exists content).
    destruct (publish_none d p s2 content Hf2) as (s3 & Ep & Hf3 & Hb3); [done..|]. rewrite Ep. by exists s3.
  - apply Nat.eqb_neq in Ec. rewrite (proj2 (Z.eqb_neq (Z.of_nat next) (Z.of_nat (length content)))) by lia. cbn [negb].
    exists s2. split; [done|]. split; [done|]. split; [done|done|fold p; by rewrite Hb2|..|lia].
    intros j Hj. cbn in Hj. fold p in Hj. rewrite En1 in Hj. injection Hj as <-. cbn. by rewrite lookup_insert_eq.
Qed.

(** C18: whatever calls fail and wherever they stop, a published blob holds bytes that
    hash to its identity, and every later call leaves it those bytes. *)
Theorem published_blobs_are_authentic s s' id bytes :
  rtc content_step (empty_store []) s -> rtc content_step s s' -> path_bytes s (BlobPath id) = Some bytes ->
  sha256 bytes = id /\ path_bytes s' (BlobPath id) = Some bytes.
Proof.
  intros Hs Hs' Hb. destruct (content_steps_preserved _ _ (empty_content_ok []) Hs) as [Hok _]. split.
  - apply content_ok_bytes in Hok as (_ & _ & Hauth & _). by apply Hauth.
  - by apply (content_steps_preserved _ _ Hok Hs').
Qed.

(** C31: a file that is imported without failures reads back byte for byte, under the
    identity of its bytes. *)
Theorem import_file_roundtrip s chunks nonce :
  content_ok s -> faultless s -> names s !! PendingPath nonce = None ->
  Forall (fun chunk => chunk <> []) chunks ->
  let bytes := concat chunks in
  Z.of_nat (length bytes) <= MAX_CONTENT_BYTE_LENGTH -> names s !! BlobPath (sha256 bytes) = None ->
  let d := ContentDescriptor.mk (sha256 bytes) (Z.of_nat (length bytes)) in
  exists s1, import_file (Ok (Z.of_nat (length bytes))) (List.map Ok chunks) nonce s = (Ok d, s1)
    /\ forall offset maximum, 0 <= offset <= Z.of_nat (length bytes) ->
       fst (read_range d offset maximum s1)
       = Ok (firstn (Z.to_nat (Z.min (Z.of_nat (length bytes) - offset) maximum)) (skipn (Z.to_nat offset) bytes)).
Proof.
  intros Hok Hf Hn Hne bytes Hlen Hnew d.
  assert (Hfits : forall n, 0 <= n <= Z.of_nat (length bytes) -> ensure_protocol_length n = Ok tt).
  { intros n Hn'. unfold ensure_protocol_length. by rewrite (proj2 (Z.ltb_ge MAX_CONTENT_BYTE_LENGTH n)) by lia. }
  unfold import_file, andthen, of_result, inspect_err. cbn [map_err]. rewrite Hfits by lia.
  rewrite (new_file_none _ s Hf Hn).
  destruct (copy_none (next_inode s) (PendingPath nonce) (fun length => of_result (ensure_protocol_length length))
    chunks [] (with_new_inode s (PendingPath nonce))) as (s1 & E & Hf1 & En1 & Hb1).
  { done. }
  { cbn. by rewrite lookup_insert_eq. }
  { by apply new_inode_bytes. }
  { intros n s0 Hn0. unfold of_result. by rewrite Hfits. }
  { done. }
  cbn [app] in E, Hb1. unfold of_result in E. rewrite E. rewrite (io_none s1 Hf1). fold bytes in Hb1 |- *.
  unfold hash_bytes. fold d.
  destruct (publish_none d (PendingPath nonce) s1 bytes) as (s2 & Ep & Hf2 & Hblob); [done|done|done|..].
  { rewrite En1. cbn. by rewrite lookup_insert_ne. }
  rewrite Ep. exists s2. split; [done|]. intros offset maximum Ho.
  destruct (present_blob d s2 Hf2) as (s3 & Eb & Hs3 & Hf3); [by exists bytes|].
  unfold read_range, andthen. rewrite Eb. cbn [ContentDescriptor.byte_length d].
  rewrite (proj2 (Z.ltb_ge _ offset)) by lia. cbn [ContentDescriptor.content_id].
  rewrite (open_none _ s3 bytes Hf3); [done|]. by rewrite (path_bytes_same _ _ _ Hs3).
Qed.
End Invariant.
