(* ===== verification/ClientContentWitnesses.v ===== *)
(** * Witnesses for the client's media files

    A file imported in two chunks, and one whose import fails half-way. *)
From S2P Require Import Prelude Bytes Floats Crypto Content Cbor Trust Envelope Samples Database.
From S2P Require Import ClientContent ClientContentTheory.

Definition media_chunks : list (list Z) := [str "some "; str "media"].
Definition media_bytes : list Z := concat media_chunks.
Definition media_descriptor : ContentDescriptor.t :=
  ContentDescriptor.mk (sha256 media_bytes) (Z.of_nat (length media_bytes)).
Definition import_nonce : list Z := replicate 16 5.

(** The published file, after another import failed and the client reopened. *)
Definition imported : ContentStore :=
  snd (import_file (Ok 10) (List.map Ok media_chunks) import_nonce (empty_store [])).
Definition interrupted : ContentStore :=
  reopened (snd (import_file (Ok 9) [Ok (str "other"); Err IoKind.Other] import_nonce imported)).

Lemma imported_bytes : path_bytes interrupted (BlobPath (sha256 media_bytes)) = Some media_bytes.
Proof. by_vm. Qed.
Lemma interrupted_reachable : rtc content_step (empty_store []) interrupted.
Proof.
  apply (rtc_l _ _ imported); [apply step_import_file; reflexivity|].
  eapply rtc_l; [apply (step_import_file _ (Ok 9) [Ok (str "other"); Err IoKind.Other] import_nonce); by_vm|].
  apply rtc_once, step_reopen.
Qed.

Lemma published_blobs_are_authentic_witness :
  sha256 media_bytes = sha256 media_bytes
  /\ path_bytes (snd (import_file (Ok 10) (List.map Ok media_chunks) import_nonce interrupted)) (BlobPath (sha256 media_bytes))
     = Some media_bytes.
Proof.
  refine (published_blobs_are_authentic interrupted _ (sha256 media_bytes) media_bytes interrupted_reachable _ imported_bytes).
  apply rtc_once, step_import_file. by_vm.
Defined.

Lemma import_file_roundtrip_witness :
  exists s1, import_file (Ok 10) (List.map Ok media_chunks) import_nonce (empty_store []) = (Ok media_descriptor, s1)
    /\ fst (read_range media_descriptor 2 5 s1) = Ok (str "me me").
Proof.
  destruct (import_file_roundtrip (empty_store []) media_chunks import_nonce (empty_content_ok []) eq_refl) as (s1 & E & Hread).
  - reflexivity.
  - repeat constructor; discriminate.
  - vm_compute. discriminate.
  - reflexivity.
  - exists s1. split; [exact E|]. rewrite Hread; [reflexivity|vm_compute; split; discriminate].
Defined.
