(* ===== verification/SyncWorker.v ===== *)
(** * The synchronization worker (crates/fractonica-sync/src/lib.rs)

    [run_cycle] over the modelled client store and media files.  Each store call commits
    or rolls back on its own, so an error leaves what was committed before it.
    [SyncEnvironment] is what the worker is generic over: the clock, the transport to
    the peers and the source of lease identities, each acting on a world of its own. *)
From S2P Require Import Prelude Bytes Floats Crypto Content Cbor Trust DataModel CanonicalBody Envelope.
From S2P Require Import Authorization Peer Application Database PairingStore Repository RepositoryLog.
From S2P Require Import ClientDatabase ClientStore ClientQueues ClientQueries ClientContent.

(** ** Configuration *)

(** Durations are nanoseconds, bounded by [Duration::MAX]. *)
Definition DURATION_MAX : Z := (2 ^ 64 - 1) * 1000000000 + 999999999.

Record SyncConfig : Type := mkSyncConfig {
  push_batch_size : Z;
  pull_page_size : Z;
  max_peers_per_cycle : Z;
  idle_interval : Z;
  caught_up_poll_interval : Z;
  lease_duration : Z;
  request_lifetime : Z;
  initial_backoff : Z;
  maximum_backoff : Z;
  resource_scan_size : Z;
  resource_transfers_per_cycle : Z;
  content_chunk_bytes : Z
}.

Definition from_secs (seconds : Z) : Z := seconds * 1000000000.
Definition default_config : SyncConfig :=
  mkSyncConfig 32 100 32 (from_secs 2) (from_secs 5) (from_secs 30) (from_secs 10) (from_secs 1)
    (from_secs (5 * 60)) 100 8 (256 * 1024).

Module SyncError.
Inductive t : Type :=
| InvalidConfiguration
| Clock
| Store (e : ClientStoreError.t)
| Join (text : list Z).
End SyncError.

Definition validate_config (config : SyncConfig) : result SyncError.t unit :=
  if negb (between 1 (push_batch_size config) 100)
     || negb (between 1 (pull_page_size config) MAX_PEER_CHANGE_LIMIT)
     || negb (between 1 (max_peers_per_cycle config) 100)
     || (idle_interval config =? 0)
     || (caught_up_poll_interval config =? 0)
     || (lease_duration config =? 0)
     || (initial_backoff config =? 0)
     || (maximum_backoff config <? initial_backoff config)
     || (MAX_REQUEST_LIFETIME_MS <? as_millis (request_lifetime config))
     || (as_millis (request_lifetime config) <? 1000)
     || negb (between 1 (resource_scan_size config) MAX_RESOURCE_TRANSFER_BATCH)
     || negb (between 1 (resource_transfers_per_cycle config) MAX_RESOURCE_TRANSFER_BATCH)
     || (content_chunk_bytes config =? 0)
     || (MAX_DOWNLOAD_CHUNK_BYTES <? content_chunk_bytes config)
  then Err SyncError.InvalidConfiguration else Ok tt.

(** [saturating_mul] of a duration. *)
Definition duration_mul (duration factor : Z) : Z := Z.min (duration * factor) DURATION_MAX.

Definition backoff (config : SyncConfig) (attempt : Z) : Z :=
  let shift := Z.min (Z.max (attempt - 1) 0) 31 in
  Z.min (duration_mul (initial_backoff config) (Z.shiftl 1 shift)) (maximum_backoff config).

Definition add_duration (time duration : Z) : result SyncError.t Z :=
  let? millis := ok_or (checked_i64 (as_millis duration)) SyncError.Clock in
  ok_or (checked_i64 (time + millis)) SyncError.Clock.

(** The last character boundary at or before an index. *)
Fixpoint floor_boundary (detail : list Z) (index : nat) : nat :=
  match index with
  | O => O
  | S before =>
      match detail !! index with
      | Some b => if is_char_start b then index else floor_boundary detail before
      | None => if (index =? length detail)%nat then index else floor_boundary detail before
      end
  end.
Definition bounded_detail (detail : list Z) : list Z :=
  if byte_count detail <=? MAX_ERROR_BYTES then detail
  else firstn (floor_boundary detail (Z.to_nat MAX_ERROR_BYTES)) detail.

(** ** Reports *)
Record CycleReport : Type := mkReport {
  pushed : Z; pulled : Z; retried : Z; rejected : Z; pull_failures : Z;
  resource_upload_bytes : Z; resource_download_bytes : Z;
  resource_uploads_completed : Z; resource_downloads_completed : Z;
  resource_retried : Z; resource_rejected : Z; resource_waiting_local : Z
}.
Definition empty_report : CycleReport := mkReport 0 0 0 0 0 0 0 0 0 0 0 0.
Definition saturating_u64 (z : Z) : Z := Z.min z (2 ^ 64 - 1).

Definition add_pushed (r : CycleReport) : CycleReport :=
  mkReport (pushed r + 1) (pulled r) (retried r) (rejected r) (pull_failures r) (resource_upload_bytes r)
    (resource_download_bytes r) (resource_uploads_completed r) (resource_downloads_completed r)
    (resource_retried r) (resource_rejected r) (resource_waiting_local r).
Definition add_retried (r : CycleReport) : CycleReport :=
  mkReport (pushed r) (pulled r) (retried r + 1) (rejected r) (pull_failures r) (resource_upload_bytes r)
    (resource_download_bytes r) (resource_uploads_completed r) (resource_downloads_completed r)
    (resource_retried r) (resource_rejected r) (resource_waiting_local r).
Definition add_rejected (r : CycleReport) : CycleReport :=
  mkReport (pushed r) (pulled r) (retried r) (rejected r + 1) (pull_failures r) (resource_upload_bytes r)
    (resource_download_bytes r) (resource_uploads_completed r) (resource_downloads_completed r)
    (resource_retried r) (resource_rejected r) (resource_waiting_local r).
Definition add_pulled (count : Z) (r : CycleReport) : CycleReport :=
  mkReport (pushed r) (saturating_u64 (pulled r + count)) (retried r) (rejected r) (pull_failures r)
    (resource_upload_bytes r) (resource_download_bytes r) (resource_uploads_completed r)
    (resource_downloads_completed r) (resource_retried r) (resource_rejected r) (resource_waiting_local r).
Definition add_pull_failure (r : CycleReport) : CycleReport :=
  mkReport (pushed r) (pulled r) (retried r) (rejected r) (pull_failures r + 1) (resource_upload_bytes r)
    (resource_download_bytes r) (resource_uploads_completed r) (resource_downloads_completed r)
    (resource_retried r) (resource_rejected r) (resource_waiting_local r).
Definition add_waiting (r : CycleReport) : CycleReport :=
  mkReport (pushed r) (pulled r) (retried r) (rejected r) (pull_failures r) (resource_upload_bytes r)
    (resource_download_bytes r) (resource_uploads_completed r) (resource_downloads_completed r)
    (resource_retried r) (resource_rejected r) (saturating_u64 (resource_waiting_local r + 1)).

Module ResourceStep.
Inductive t : Type :=
| Progress (direction : ResourceTransferDirection.t) (bytes : Z)
| Complete (direction : ResourceTransferDirection.t) (bytes : Z)
| Retried
| Rejected
| WaitingLocal.
End ResourceStep.

Definition add_step (step : ResourceStep.t) (r : CycleReport) : CycleReport :=
  let moved up down up_done down_done :=
    mkReport (pushed r) (pulled r) (retried r) (rejected r) (pull_failures r)
      (saturating_u64 (resource_upload_bytes r + up)) (saturating_u64 (resource_download_bytes r + down))
      (saturating_u64 (resource_uploads_completed r + up_done))
      (saturating_u64 (resource_downloads_completed r + down_done))
      (resource_retried r) (resource_rejected r) (resource_waiting_local r) in
  match step with
  | ResourceStep.Progress ResourceTransferDirection.Upload bytes => moved bytes 0 0 0
  | ResourceStep.Progress ResourceTransferDirection.Download bytes => moved 0 bytes 0 0
  | ResourceStep.Complete ResourceTransferDirection.Upload bytes => moved bytes 0 1 0
  | ResourceStep.Complete ResourceTransferDirection.Download bytes => moved 0 bytes 0 1
  | ResourceStep.Retried =>
      mkReport (pushed r) (pulled r) (retried r) (rejected r) (pull_failures r) (resource_upload_bytes r)
        (resource_download_bytes r) (resource_uploads_completed r) (resource_downloads_completed r)
        (saturating_u64 (resource_retried r + 1)) (resource_rejected r) (resource_waiting_local r)
  | ResourceStep.Rejected =>
      mkReport (pushed r) (pulled r) (retried r) (rejected r) (pull_failures r) (resource_upload_bytes r)
        (resource_download_bytes r) (resource_uploads_completed r) (resource_downloads_completed r)
        (resource_retried r) (saturating_u64 (resource_rejected r + 1)) (resource_waiting_local r)
  | ResourceStep.WaitingLocal => add_waiting r
  end.

Record SyncStatus : Type := mkStatus {
  status_running : bool;
  status_cycle : Z;
  last_cycle_at_unix_ms : option Z;
  last_report : CycleReport;
  status_counts : option SyncCounts;
  status_error : option SyncError.t
}.

(** ** The transport *)
Module TransportFailureKind.
Inductive t : Type := Retryable | Permanent | LocalContentUnavailable.
#[global] Instance eq_dec : EqDecision t.
Proof. solve_decision. Defined.
End TransportFailureKind.

Record TransportError : Type := mkTransportError {
  failure_kind : TransportFailureKind.t;
  failure_detail : list Z
}.
Definition retryable (text : list Z) : TransportError := mkTransportError TransportFailureKind.Retryable text.
Definition permanent (text : list Z) : TransportError := mkTransportError TransportFailureKind.Permanent text.
Definition local_content_unavailable (text : list Z) : TransportError :=
  mkTransportError TransportFailureKind.LocalContentUnavailable text.

Section Transport.
Context `{JsonNumber}.

Record PulledPage : Type := mkPulled {
  page_operations : list OperationEnvelope.t;
  page_next_after : Z;
  page_has_more : bool
}.
End Transport.

Record RemoteUpload {Url : Type} : Type := mkUpload {
  upload_url : Url;
  upload_offset : Z;
  upload_length : Z
}.
Arguments RemoteUpload : clear implicits.
Record UploadChunkResult {Url : Type} : Type := mkUploadResult {
  chunk_upload : RemoteUpload Url;
  chunk_complete : bool
}.
Arguments UploadChunkResult : clear implicits.

Record BlobAvailability : Type := mkAvailability {
  available : list ContentDescriptor.t;
  missing : list ContentId.t
}.

(** The response partitions the one requested identity. *)
Definition availability_descriptor (availability : BlobAvailability) (content_id : ContentId.t) :
    result TransportError (option ContentDescriptor.t) :=
  let available := List.filter (fun value => list_eqb (ContentDescriptor.content_id value) content_id)
    (available availability) in
  let missing := List.filter (fun value => list_eqb value content_id) (missing availability) in
  match available, missing with
  | [descriptor], [] => Ok (Some descriptor)
  | [], [_] => Ok None
  | _, _ => Err (permanent (str "availability response did not partition the requested content ID exactly once"))
  end.

(** What the worker is generic over: [SyncClock], [SyncTransport], [ContentSyncTransport],
    and the lease identities it draws. *)
Class SyncEnvironment `{JsonNumber} := {
  World : Type;
  Url : Type;
  parse_url : list Z -> result (list Z) Url;
  url_text : Url -> list Z;
  now_unix_ms : World -> result SyncError.t Z * World;
  new_lease_id : World -> list Z * World;
  transport_push : PeerConfig -> OperationEnvelope.t -> World -> result TransportError unit * World;
  transport_pull : SyncTarget -> Z -> Z -> Z -> World -> result TransportError PulledPage * World;
  content_availability : PeerConfig -> list ContentId.t -> World -> result TransportError BlobAvailability * World;
  create_content_upload : PeerConfig -> ResourceRef.t -> World ->
    result TransportError (UploadChunkResult Url) * World;
  content_upload_status : PeerConfig -> Url -> World -> result TransportError (UploadChunkResult Url) * World;
  upload_content_chunk : PeerConfig -> ContentDescriptor.t -> RemoteUpload Url -> Z ->
    ContentStore * World -> result TransportError (UploadChunkResult Url) * (ContentStore * World);
  download_content_chunk : PeerConfig -> ContentDescriptor.t -> Z ->
    ContentStore * World -> result TransportError AppendResult * (ContentStore * World)
}.

(** ** The worker *)
Section SyncWorker.
Context `{Sha256} `{Ed25519} `{HalfFloat} `{Base64} `{!JsonNumber} `{!JsonSize}
  `{!ProjectionJson} `{!Lowercase} `{!SyncEnvironment}.

Record Worker : Type := mkWorker {
  worker_store : ClientDatabase;
  worker_content : ContentStore;
  worker_world : World
}.

(** An operation that may have committed something when it fails. *)
Definition M (E A : Type) : Type := Worker -> result E A * Worker.
Definition value {E A} (a : A) : M E A := fun w => (Ok a, w).
Definition stop {E A} (e : E) : M E A := fun w => (Err e, w).
Definition chain {E A B} (m : M E A) (k : A -> M E B) : M E B :=
  fun w => match m w with (Ok a, w) => k a w | (Err e, w) => (Err e, w) end.
Definition either {E A} (r : result E A) : M E A := fun w => (r, w).
(** The result as a value, for a [match]. *)
Definition attempt {E E' A} (m : M E A) : M E' (result E A) := fun w => let (r, w) := m w in (Ok r, w).
Definition map_failure {E E' A} (f : E -> E') (m : M E A) : M E' A :=
  fun w => let (r, w) := m w in (map_err f r, w).

#[local] Notation "'let^' x ':=' m 'in' k" := (chain m (fun x => k))
  (at level 10, x pattern, m at level 100, k at level 200).
#[local] Notation "m ';^' k" := (chain m (fun _ => k)) (at level 100, k at level 200, right associativity).

(** One store call on its own thread: a transaction of its own. *)
Definition blocking {A} (call : T A) : M SyncError.t A :=
  fun w => let (r, db) := run call (worker_store w) in
           (map_err SyncError.Store r, mkWorker db (worker_content w) (worker_world w)).
Definition reading {A} (query : ClientDatabase -> result ClientStoreError.t A) : M SyncError.t A :=
  blocking (let* db := get in lift (query db)).
Definition in_world {E A} (act : World -> result E A * World) : M E A :=
  fun w => let (r, world) := act (worker_world w) in (r, mkWorker (worker_store w) (worker_content w) world).
Definition in_content {E A} (act : ContentStore * World -> result E A * (ContentStore * World)) : M E A :=
  fun w => let '(r, (content, world)) := act (worker_content w, worker_world w) in
           (r, mkWorker (worker_store w) content world).
Definition fresh_lease_id : M SyncError.t (list Z) :=
  in_world (fun world => let (id, world) := new_lease_id world in (Ok id, world)).
Definition clock : M SyncError.t Z := in_world now_unix_ms.

Section Cycle.
Variable config : SyncConfig.

(** *** Pushing *)

(** The deliveries of one batch; a failure stops it. *)
Fixpoint push_deliveries (peer : PeerConfig) (lease : list Z) (deliveries : list DeliveryItem)
    (report : CycleReport) : M SyncError.t CycleReport :=
  match deliveries with
  | [] => value report
  | delivery :: rest =>
      let id := OperationEnvelope.operation_id (item_operation delivery) in
      let^ pushed := attempt (in_world (transport_push peer (item_operation delivery))) in
      let^ completed_at := clock in
      match pushed with
      | Ok _ =>
          blocking (acknowledge (peer_id peer) id lease completed_at) ;^
          push_deliveries peer lease rest (add_pushed report)
      | Err error =>
          let detail := bounded_detail (failure_detail error) in
          if bool_decide (failure_kind error = TransportFailureKind.Permanent)
          then
            blocking (reject (peer_id peer) id lease completed_at detail) ;^
            blocking (release_lease (peer_id peer) lease) ;^
            value (add_rejected report)
          else
            let^ next := either (add_duration completed_at (backoff config (item_attempt_count delivery))) in
            blocking (retry (peer_id peer) id lease next detail) ;^
            blocking (release_lease (peer_id peer) lease) ;^
            value (add_retried report)
      end
  end.

Fixpoint push_peers (peers : list PeerConfig) (report : CycleReport) : M SyncError.t CycleReport :=
  match peers with
  | [] => value report
  | peer :: peers =>
      let^ lease_time := clock in
      let^ lease := fresh_lease_id in
      let^ deliveries := blocking (lease_due (peer_id peer) lease_time (lease_duration config)
                                     (push_batch_size config) lease) in
      let^ report := push_deliveries peer lease deliveries report in
      push_peers peers report
  end.

(** *** Pulling *)
Fixpoint commit_page (operations : list OperationEnvelope.t) (pull_time : Z) (peer : list Z) :
    M SyncError.t unit :=
  match operations with
  | [] => value tt
  | operation :: operations =>
      blocking (commit_from_peer operation pull_time peer) ;^ commit_page operations pull_time peer
  end.

Definition pull_target (target : SyncTarget) (report : CycleReport) : M SyncError.t CycleReport :=
  let^ pull_time := clock in
  let^ page := attempt (in_world (transport_pull target (pull_page_size config) pull_time (request_lifetime config))) in
  match page with
  | Ok page =>
      commit_page (page_operations page) pull_time (target_peer_id target) ;^
      let^ next_pull := (if page_has_more page then value pull_time
                         else either (add_duration pull_time (caught_up_poll_interval config))) in
      blocking (advance_pull_cursor (target_peer_id target) (target_space_id target) (target_after target)
                  (page_next_after page) pull_time next_pull) ;^
      value (add_pulled (Z.of_nat (length (page_operations page))) report)
  | Err error =>
      let^ failed_at := clock in
      let attempt := Z.min (target_pull_failure_count target + 1) (2 ^ 32 - 1) in
      let^ next := either (add_duration failed_at (backoff config attempt)) in
      blocking (record_pull_failure (target_peer_id target) (target_space_id target) (target_after target) next
                  (bounded_detail (failure_detail error))) ;^
      value (add_pull_failure report)
  end.

Fixpoint pull_targets (targets : list SyncTarget) (report : CycleReport) : M SyncError.t CycleReport :=
  match targets with
  | [] => value report
  | target :: targets => let^ report := pull_target target report in pull_targets targets report
  end.

(** *** Local content *)
Fixpoint scan_resources (candidates : list ContentDescriptor.t) (report : CycleReport) :
    M SyncError.t CycleReport :=
  match candidates with
  | [] => value report
  | descriptor :: candidates =>
      let^ verified := attempt (in_content (fun '(content, world) =>
        let (r, content) := blob descriptor content in (r, (content, world)))) in
      match verified with
      | Ok (Some _) =>
          let^ verified_at := clock in
          blocking (mark_resource_local descriptor verified_at) ;^ scan_resources candidates report
      | Ok None | Err _ => scan_resources candidates (add_waiting report)
      end
  end.

(** *** Transfers *)
Inductive ResourceExecutionError : Type :=
| ExecutionTransport (error : TransportError)
| ExecutionSync (error : SyncError.t).

Definition transport {A} (m : M TransportError A) : M ResourceExecutionError A := map_failure ExecutionTransport m.
Definition syncing {A} (m : M SyncError.t A) : M ResourceExecutionError A := map_failure ExecutionSync m.
Definition refuse {A} (error : TransportError) : M ResourceExecutionError A := stop (ExecutionTransport error).

Definition transfer_content (transfer : ResourceTransferItem) : ContentId.t :=
  ResourceRef.content_id (item_resource transfer).
Definition transfer_peer (transfer : ResourceTransferItem) : list Z := peer_id (item_peer transfer).

Definition persist_transfer_progress (transfer : ResourceTransferItem) (lease : list Z) (offset : Z)
    (upload_url : option (list Z)) : M SyncError.t unit :=
  blocking (record_resource_progress (transfer_peer transfer) (transfer_content transfer) (item_direction transfer)
              lease offset upload_url).
Definition complete_transfer (transfer : ResourceTransferItem) (lease : list Z) : M SyncError.t unit :=
  let^ completed_at := clock in
  blocking (complete_resource_transfer (transfer_peer transfer) (transfer_content transfer) (item_direction transfer)
              lease completed_at).
Definition release_transfer_for_next_chunk (transfer : ResourceTransferItem) (lease : list Z) : M SyncError.t unit :=
  let^ next := clock in
  blocking (continue_resource_transfer (transfer_peer transfer) (transfer_content transfer) (item_direction transfer)
              lease next).

(** The end of a chunk. *)
Definition finish_chunk (transfer : ResourceTransferItem) (lease : list Z) (complete : bool) (bytes : Z) :
    M ResourceExecutionError ResourceStep.t :=
  if complete
  then syncing (complete_transfer transfer lease) ;^ value (ResourceStep.Complete (item_direction transfer) bytes)
  else syncing (release_transfer_for_next_chunk transfer lease) ;^
       value (ResourceStep.Progress (item_direction transfer) bytes).

Definition length_conflict : TransportError :=
  permanent (str "peer content length conflicts with the referenced descriptor").

Definition same_descriptor (a b : ContentDescriptor.t) : bool :=
  list_eqb (ContentDescriptor.content_id a) (ContentDescriptor.content_id b)
  && (ContentDescriptor.byte_length a =? ContentDescriptor.byte_length b).

Definition execute_upload (transfer : ResourceTransferItem) (lease : list Z) (remote : option ContentDescriptor.t) :
    M ResourceExecutionError ResourceStep.t :=
  let descriptor := ResourceRef.descriptor (item_resource transfer) in
  match remote with
  | Some remote =>
      if negb (same_descriptor remote descriptor) then refuse length_conflict
      else finish_chunk transfer lease true 0
  | None =>
      let^ upload := (match item_remote_upload_url transfer with
        | Some url =>
            match parse_url url with
            | Ok url => transport (in_world (content_upload_status (item_peer transfer) url))
            | Err text => refuse (permanent (str "stored upload URL is invalid: " ++ text))
            end
        | None => transport (in_world (create_content_upload (item_peer transfer) (item_resource transfer)))
        end) in
      if negb (upload_length (chunk_upload upload) =? ContentDescriptor.byte_length descriptor)
      then refuse (permanent (str "peer upload length conflicts with the referenced descriptor"))
      else
        syncing (persist_transfer_progress transfer lease (upload_offset (chunk_upload upload))
                   (Some (url_text (upload_url (chunk_upload upload))))) ;^
        if chunk_complete upload then finish_chunk transfer lease true 0
        else
          let before := upload_offset (chunk_upload upload) in
          let^ uploaded := transport (in_content (upload_content_chunk (item_peer transfer) descriptor
                                                    (chunk_upload upload) (content_chunk_bytes config))) in
          syncing (persist_transfer_progress transfer lease (upload_offset (chunk_upload uploaded))
                     (Some (url_text (upload_url (chunk_upload uploaded))))) ;^
          finish_chunk transfer lease (chunk_complete uploaded)
            (Z.max (upload_offset (chunk_upload uploaded) - before) 0)
  end.

Definition execute_download (transfer : ResourceTransferItem) (lease : list Z) (remote : option ContentDescriptor.t) :
    M ResourceExecutionError ResourceStep.t :=
  let descriptor := ResourceRef.descriptor (item_resource transfer) in
  match remote with
  | None => refuse (retryable (str "the selected peer does not currently have this content"))
  | Some remote =>
      if negb (same_descriptor remote descriptor) then refuse length_conflict
      else
        let before := item_transferred_bytes transfer in
        let^ downloaded := transport (in_content (download_content_chunk (item_peer transfer) descriptor
                                                    (content_chunk_bytes config))) in
        syncing (persist_transfer_progress transfer lease (append_offset downloaded) None) ;^
        finish_chunk transfer lease (append_complete downloaded) (Z.max (append_offset downloaded - before) 0)
  end.

Definition execute_resource_transfer (transfer : ResourceTransferItem) (lease : list Z) :
    M ResourceExecutionError ResourceStep.t :=
  let content := transfer_content transfer in
  let^ availability := transport (in_world (content_availability (item_peer transfer) [content])) in
  let^ remote := transport (either (availability_descriptor availability content)) in
  match item_direction transfer with
  | ResourceTransferDirection.Upload => execute_upload transfer lease remote
  | ResourceTransferDirection.Download => execute_download transfer lease remote
  end.

(** A failed transfer waits for local content, is tried again or is rejected. *)
Definition advance_resource_transfer (transfer : ResourceTransferItem) (lease : list Z) :
    M SyncError.t ResourceStep.t :=
  let^ step := attempt (execute_resource_transfer transfer lease) in
  match step with
  | Ok step => value step
  | Err (ExecutionSync error) => stop error
  | Err (ExecutionTransport error) =>
      let^ failed_at := clock in
      let detail := bounded_detail (failure_detail error) in
      match failure_kind error, item_direction transfer with
      | TransportFailureKind.LocalContentUnavailable, ResourceTransferDirection.Upload =>
          let^ next := either (add_duration failed_at (backoff config (item_transfer_attempts transfer))) in
          blocking (wait_for_local_resource (transfer_peer transfer) (transfer_content transfer) lease next detail) ;^
          value ResourceStep.WaitingLocal
      | TransportFailureKind.Permanent, _ =>
          blocking (reject_resource_transfer (transfer_peer transfer) (transfer_content transfer)
                      (item_direction transfer) lease failed_at detail) ;^
          value ResourceStep.Rejected
      | _, _ =>
          let^ next := either (add_duration failed_at (backoff config (item_transfer_attempts transfer))) in
          blocking (retry_resource_transfer (transfer_peer transfer) (transfer_content transfer)
                      (item_direction transfer) lease next detail) ;^
          value ResourceStep.Retried
      end
  end.

Fixpoint advance_transfers (transfers : list ResourceTransferItem) (lease : list Z) (report : CycleReport) :
    M SyncError.t CycleReport :=
  match transfers with
  | [] => value report
  | transfer :: transfers =>
      let^ step := advance_resource_transfer transfer lease in
      advance_transfers transfers lease (add_step step report)
  end.

(** *** One cycle *)
Definition run_cycle : M SyncError.t CycleReport :=
  let^ peers := reading (enabled_peers (max_peers_per_cycle config)) in
  let^ report := push_peers peers empty_report in
  let^ pull_scan_time := clock in
  let^ targets := reading (due_sync_targets pull_scan_time (max_peers_per_cycle config)) in
  let^ report := pull_targets targets report in
  let^ candidates := reading (resource_scan_candidates (resource_scan_size config)) in
  let^ report := scan_resources candidates report in
  let^ resource_lease := fresh_lease_id in
  let^ resource_lease_time := clock in
  let^ transfers := blocking (lease_due_resources resource_lease_time (lease_duration config)
                                (resource_transfers_per_cycle config) resource_lease) in
  advance_transfers transfers resource_lease report.

(** One turn of the loop of [run]: the status it publishes. *)
Definition run_turn (status : SyncStatus) (w : Worker) : SyncStatus * Worker :=
  let (now, w) := clock w in
  let (outcome, w) := run_cycle w in
  let (counts, w) := match now with
                     | Ok now => match reading (sync_counts now) w with
                                 | (Ok counts, w) => (Some counts, w)
                                 | (Err _, w) => (None, w)
                                 end
                     | Err _ => (None, w)
                     end in
  (mkStatus (status_running status) (saturating_u64 (status_cycle status + 1))
     (match now with Ok now => Some now | Err _ => None end)
     (match outcome with Ok report => report | Err _ => last_report status end) counts
     (match outcome with Ok _ => None | Err error => Some error end), w).

(** The loop of [run]: what the shutdown signal shows before each turn, and the statuses
    that are published. *)
Fixpoint run_turns (signals : list bool) (status : SyncStatus) (w : Worker) : list SyncStatus * Worker :=
  match signals with
  | [] | true :: _ =>
      ([mkStatus false (status_cycle status) (last_cycle_at_unix_ms status) (last_report status)
          (status_counts status) (status_error status)], w)
  | false :: signals =>
      let (status, w) := run_turn status w in
      let (statuses, w) := run_turns signals status w in
      (status :: statuses, w)
  end.
Definition run_worker (signals : list bool) (w : Worker) : list SyncStatus * Worker :=
  let status := mkStatus true 0 None empty_report None None in
  let (statuses, w) := run_turns signals status w in
  (status :: statuses, w).
End Cycle.

(** [with_clock]: the worker of a valid configuration. *)
Definition with_clock (store : ClientDatabase) (content : ContentStore) (world : World) (config : SyncConfig) :
    result SyncError.t Worker :=
  check validate_config config;
  Ok (mkWorker store content world).
End SyncWorker.
