(* ===== verification/SyncTheory.v ===== *)
(** * The synchronization worker: the theorems

    [run_cycle] refines a protocol: the steps of [sync_step] say which calls the worker may
    make, and what it must have learnt from the peers before it makes them.  What every
    reachable state of the protocol satisfies then holds after every cycle. *)
From S2P Require Import Prelude Bytes Floats Crypto Content Cbor Trust DataModel CanonicalBody Envelope.
From S2P Require Import Authorization Peer Application Database PairingStore Repository RepositoryLog.
From S2P Require Import ClientDatabase ClientStore ClientQueues ClientQueries ClientLogic ClientInvariant ClientTheory.
From S2P Require Import ClientPulls ClientContent SyncWorker.

#[local] Opaque OperationEnvelope.verify.

Section SyncTheory.
Context `{Sha256} `{Ed25519} `{HalfFloat} `{Base64} `{!JsonNumber} `{!JsonSize}
  `{!ProjectionJson} `{!Lowercase} `{!SyncEnvironment}.
Implicit Types (w : Worker) (world : World).

(** ** What the environment does *)

(** The acts of the world: whatever they answer, the world goes on. *)
Inductive acts : World -> World -> Prop :=
| acts_clock world : acts world (snd (now_unix_ms world))
| acts_lease world : acts world (snd (new_lease_id world))
| acts_push peer o world : acts world (snd (transport_push peer o world))
| acts_pull target limit now lifetime world : acts world (snd (transport_pull target limit now lifetime world))
| acts_availability peer ids world : acts world (snd (content_availability peer ids world))
| acts_create peer resource world : acts world (snd (create_content_upload peer resource world))
| acts_status peer url world : acts world (snd (content_upload_status peer url world))
| acts_upload peer d upload size content world :
    acts world (snd (snd (upload_content_chunk peer d upload size (content, world))))
| acts_download peer d size content world :
    acts world (snd (snd (download_content_chunk peer d size (content, world)))).

(** The peers: [has] says which operations a peer stores, [log] is the feed of operations it
    serves for a space, in the order of its sequences. *)
Variable has : World -> list Z -> list Z -> Prop.
Variable log : list Z -> list Z -> Z -> OperationEnvelope.t -> Prop.

(** A peer keeps what it stores, answers a push after it stored the operation, and serves
    pages of its feed without leaving an entry out. *)
Record honest : Prop := {
  honest_keeps world world' peer id : acts world world' -> has world peer id -> has world' peer id;
  honest_push peer o world world' : transport_push peer o world = (Ok tt, world') ->
    has world' (peer_id peer) (OperationEnvelope.operation_id o);
  honest_page target limit now lifetime world page world' :
    transport_pull target limit now lifetime world = (Ok page, world') ->
    Forall (fun o => typed_operation o /\ has world' (target_peer_id target) (OperationEnvelope.operation_id o))
      (page_operations page)
    /\ forall sequence o, log (target_peer_id target) (target_space_id target) sequence o ->
       target_after target < sequence <= page_next_after page -> o ∈ page_operations page
}.

(** ** The protocol *)

(** What must be known before a call: an operation is acknowledged only when the peer has
    it, and a cursor starts behind, and passes, only operations that are stored. *)
Definition knows w (c : Call) : Prop :=
  match c with
  | Commit o _ (CommitSource.Peer peer) => has (worker_world w) peer (OperationEnvelope.operation_id o)
  | Acknowledge peer id _ _ => has (worker_world w) peer id
  | AdvancePullCursor peer space after next _ _ =>
      forall sequence o, log peer space sequence o -> after < sequence <= next -> holds_operation (worker_store w) o
  | ConfigurePeerSpace space_config =>
      forall sequence o, log (config_peer_id space_config) (config_space_id space_config) sequence o ->
        sequence <= config_start_after space_config -> holds_operation (worker_store w) o
  | _ => True
  end.

(** The worker neither configures the store nor commits anything of its own, and the user
    does not meddle with the queues.  (Deleting a workspace drops its operations.) *)
Definition by_worker (c : Call) : bool :=
  match c with
  | Commit _ _ (CommitSource.Peer _)
  | AdvancePullCursor _ _ _ _ _ _ | RecordPullFailure _ _ _ _ _ | LeaseDue _ _ _ _ _ | Acknowledge _ _ _ _
  | Retry _ _ _ _ _ | Reject _ _ _ _ _ | ReleaseLease _ _ | MarkResourceLocal _ _ | LeaseDueResources _ _ _ _
  | RecordProgress _ _ _ _ _ _ | CompleteTransfer _ _ _ _ _ | RetryTransfer _ _ _ _ _ _
  | RejectTransfer _ _ _ _ _ _ | ContinueTransfer _ _ _ _ _ | WaitForLocal _ _ _ _ _ => true
  | _ => false
  end.
Definition permitted (by_whom : Call -> bool) w (c : Call) : Prop :=
  by_whom c = true /\ call_typed c /\ knows w c.

Inductive sync_step : Worker -> Worker -> Prop :=
| step_world store content content' world world' :
    acts world world' -> sync_step (mkWorker store content world) (mkWorker store content' world')
| step_content store content content' world :
    sync_step (mkWorker store content world) (mkWorker store content' world)
| step_call w c : permitted by_worker w c ->
    sync_step w (mkWorker (call (worker_store w) c) (worker_content w) (worker_world w)).


Lemma worker_deletes_nothing c : by_worker c = true -> deletes c = None.
Proof. by destruct c. Qed.

(** ** What the protocol keeps *)
Section Invariants.
Hypothesis Hhonest : honest.
Hypothesis Hjson : json_exact.

(** Nothing is forgotten on either side. *)
Record later w w' : Prop := {
  later_ok : client_ok (worker_store w');
  later_operations : client_operations (worker_store w) `prefix_of` client_operations (worker_store w');
  later_has peer id : has (worker_world w) peer id -> has (worker_world w') peer id
}.

Definition calling w (c : Call) : Worker := mkWorker (call (worker_store w) c) (worker_content w) (worker_world w).

Lemma call_later w c : client_ok (worker_store w) -> call_typed c -> deletes c = None -> later w (calling w c).
Proof. intros Hok Ht Hd. split; cbn; [by apply client_call_ok|by apply evolves_call|done]. Qed.
Lemma step_later w w' : client_ok (worker_store w) -> sync_step w w' -> later w w'.
Proof.
  intros Hok Hs. destruct Hs as [store content content' world world' Hacts|store content content' world|w1 c (Hby & Ht & _)].
  - split; [done..|]. intros peer id. by apply honest_keeps.
  - by split.
  - apply call_later; [done..|]. by apply worker_deletes_nothing.
Qed.
Lemma later_refl w : client_ok (worker_store w) -> later w w.
Proof. by split. Qed.
Lemma later_trans w1 w2 w3 : later w1 w2 -> later w2 w3 -> later w1 w3.
Proof. intros [_ Ho Hh] [Hok Ho' Hh']. split; [done|by etrans|auto]. Qed.
Lemma steps_later w w' : client_ok (worker_store w) -> rtc sync_step w w' -> later w w'.
Proof.
  intros Hok Hs. revert Hok. induction Hs as [w|w1 w2 w3 Hs _ IH]; intros Hok; [by apply later_refl|].
  pose proof (step_later _ _ Hok Hs) as Hl. eapply later_trans; [exact Hl|]. apply IH, Hl.
Qed.

Lemma call_reachable db c : call_typed c -> client_reachable db -> client_reachable (call db c).
Proof.
  intros Ht (calls & Hts & ->). exists (calls ++ [c]). split; [by apply Forall_app_2; [|apply Forall_singleton]|].
  unfold run_calls. by rewrite fold_left_app.
Qed.
Lemma steps_reachable w w' : rtc sync_step w w' -> client_reachable (worker_store w) -> client_reachable (worker_store w').
Proof.
  induction 1 as [w|w1 w2 w3 Hs _ IH]; intros Hr; [done|]. apply IH.
  destruct Hs as [| |w1 c (_ & Ht & _)]; [done..|]. by apply call_reachable.
Qed.







(** ** Simulation *)

(** A computation takes steps of the protocol, and its result satisfies [Q]. *)
Definition simulates {E A} (m : M E A) w (Q : A -> Worker -> Prop) : Prop :=
  rtc sync_step w (snd (m w)) /\ forall a, fst (m w) = Ok a -> Q a (snd (m w)).

Lemma sim_mono {E A} (m : M E A) w (P Q : A -> Worker -> Prop) :
  simulates m w P -> (forall a w', rtc sync_step w w' -> P a w' -> Q a w') -> simulates m w Q.
Proof. intros [Hs HP] HPQ. split; [done|]. intros a Ha. apply HPQ; auto. Qed.
Lemma sim_value {E A} (a : A) w (Q : A -> Worker -> Prop) : Q a w -> simulates (E := E) (value a) w Q.
Proof. intros HQ. split; [done|]. by intros a' [= <-]. Qed.
Lemma sim_either {E A} (r : result E A) w (Q : A -> Worker -> Prop) :
  (forall a, r = Ok a -> Q a w) -> simulates (either r) w Q.
Proof. intros HQ. split; [done|]. apply HQ. Qed.
Lemma sim_stop {E A} (e : E) w (Q : A -> Worker -> Prop) : simulates (stop e) w Q.
Proof. by split. Qed.
Lemma sim_chain {E A B} (m : M E A) (k : A -> M E B) w (R : B -> Worker -> Prop) :
  client_ok (worker_store w) -> simulates m w (fun a w' => later w w' -> simulates (k a) w' R) ->
  simulates (chain m k) w R.
Proof.
  intros Hok [Hs Hk]. pose proof (steps_later _ _ Hok Hs) as Hl. unfold simulates, chain.
  destruct (m w) as [[a|e] w'] eqn:Em; cbn in *; [|done].
  destruct (Hk a eq_refl Hl) as [Hs' HR]. split; [by etrans|done].
Qed.
Lemma sim_attempt {E E' A} (m : M E A) w (Q : result E A -> Worker -> Prop) :
  simulates m w (fun a => Q (Ok a)) -> (forall e w', Q (Err e) w') -> simulates (E := E') (attempt m) w Q.
Proof.
  intros [Hs HQ] He. unfold simulates, attempt. destruct (m w) as [r w'] eqn:Em. cbn in *. split; [done|].
  intros a [= <-]. destruct r as [a|e]; [by apply HQ|by apply He].
Qed.
Lemma sim_map_failure {E E' A} (f : E -> E') (m : M E A) w (Q : A -> Worker -> Prop) :
  simulates m w Q -> simulates (map_failure f m) w Q.
Proof.
  intros [Hs HQ]. unfold simulates, map_failure. destruct (m w) as [[a|e] w']; cbn in *; [|done].
  split; [done|]. intros a' [= <-]. by apply HQ.
Qed.
Lemma sim_in_world {E A} (act : World -> result E A * World) w (Q : A -> Worker -> Prop) :
  acts (worker_world w) (snd (act (worker_world w))) ->
  (forall a world', act (worker_world w) = (Ok a, world') -> Q a (mkWorker (worker_store w) (worker_content w) world')) ->
  simulates (in_world act) w Q.
Proof.
  intros Ha HQ. destruct w as [store content world]. unfold simulates, in_world. cbn in *.
  destruct (act world) as [r world']. cbn in *. split; [by apply rtc_once, step_world|]. intros a ->. by apply HQ.
Qed.
Lemma sim_in_content {E A} (act : ContentStore * World -> result E A * (ContentStore * World)) w (Q : A -> Worker -> Prop) :
  (forall content world, snd (snd (act (content, world))) = world \/ acts world (snd (snd (act (content, world))))) ->
  (forall a w', Q a w') -> simulates (in_content act) w Q.
Proof.
  intros Ha HQ. destruct w as [store content world]. unfold simulates, in_content. cbn in *. specialize (Ha content world).
  destruct (act (content, world)) as [r [content' world']]. cbn in *. split; [|intros a _; apply HQ].
  apply rtc_once. destruct Ha as [->|Ha]; [apply step_content|by apply step_world].
Qed.
Lemma sim_blocking {A} c (m : T A) w (Q : A -> Worker -> Prop) :
  (forall db, snd (run m db) = call db c) -> permitted by_worker w c ->
  (forall a store, m (worker_store w) = Ok (a, store) -> Q a (mkWorker store (worker_content w) (worker_world w))) ->
  simulates (blocking m) w Q.
Proof.
  intros Hc Hp HQ. unfold simulates, blocking. specialize (Hc (worker_store w)). split.
  - apply rtc_once. destruct (run m (worker_store w)) as [r db]. cbn in *. subst db. by apply step_call.
  - unfold run. destruct (m (worker_store w)) as [[a store]|e]; cbn; [|done]. intros a' [= <-]. by apply HQ.
Qed.
Lemma sim_reading {A} (query : ClientDatabase -> result ClientStoreError.t A) w (Q : A -> Worker -> Prop) :
  (forall a, Q a w) -> simulates (reading query) w Q.
Proof.
  intros HQ. destruct w as [store content world]. unfold simulates, reading, blocking, run, bind, get, lift. cbn.
  destruct (query store); cbn; split; done.
Qed.

Lemma run_discard {A} (m : T A) db : snd (run (discard m) db) = snd (run m db).
Proof. unfold run, discard, bind. by destruct (m db) as [[a db']|]. Qed.
Lemma sim_clock w (Q : Z -> Worker -> Prop) : (forall now w', Q now w') -> simulates clock w Q.
Proof. intros HQ. apply sim_in_world; [apply acts_clock|]. intros now world' _. apply HQ. Qed.
Lemma sim_fresh_lease w (Q : list Z -> Worker -> Prop) : (forall id w', Q id w') -> simulates fresh_lease_id w Q.
Proof.
  intros HQ. apply sim_in_world; [|intros id world' _; apply HQ].
  pose proof (acts_lease (worker_world w)) as Ha. by destruct (new_lease_id (worker_world w)).
Qed.

(** Computations that need nothing but a well-formed store. *)
Definition follows {E A} (m : M E A) : Prop := forall w, client_ok (worker_store w) -> simulates m w (fun _ _ => True).

Lemma follows_chain {E A B} (m : M E A) (k : A -> M E B) : follows m -> (forall a, follows (k a)) -> follows (chain m k).
Proof.
  intros Hm Hk w Hok. apply sim_chain; [done|]. eapply sim_mono; [by apply Hm|]. intros a w' _ _ Hl. by apply Hk, Hl.
Qed.
Lemma follows_value {E A} (a : A) : follows (E := E) (value a).
Proof. intros w _. by apply sim_value. Qed.
Lemma follows_stop {E A} (e : E) : follows (A := A) (stop e).
Proof. intros w _. apply sim_stop. Qed.
Lemma follows_either {E A} (r : result E A) : follows (either r).
Proof. intros w _. by apply sim_either. Qed.
Lemma follows_attempt {E E' A} (m : M E A) : follows m -> follows (E := E') (attempt m).
Proof. intros Hm w Hok. apply sim_attempt; [by apply Hm|done]. Qed.
Lemma follows_map {E E' A} (f : E -> E') (m : M E A) : follows m -> follows (map_failure f m).
Proof. intros Hm w Hok. by apply sim_map_failure, Hm. Qed.
Lemma follows_clock : follows clock.
Proof. intros w _. by apply sim_clock. Qed.
Lemma follows_fresh_lease : follows fresh_lease_id.
Proof. intros w _. by apply sim_fresh_lease. Qed.
Lemma follows_reading {A} (query : ClientDatabase -> result ClientStoreError.t A) : follows (reading query).
Proof. intros w _. by apply sim_reading. Qed.
Lemma follows_world {E A} (act : World -> result E A * World) :
  (forall world, acts world (snd (act world))) -> follows (in_world act).
Proof. intros Ha w _. apply sim_in_world; [apply Ha|done]. Qed.
Lemma follows_content {E A} (act : ContentStore * World -> result E A * (ContentStore * World)) :
  (forall content world, snd (snd (act (content, world))) = world \/ acts world (snd (snd (act (content, world))))) ->
  follows (in_content act).
Proof. intros Ha w _. by apply sim_in_content. Qed.
Lemma follows_blocking {A} c (m : T A) :
  (forall db, snd (run m db) = call db c) -> (forall w, permitted by_worker w c) -> follows (blocking m).
Proof. intros Hc Hp w _. by apply (sim_blocking c). Qed.

Hint Resolve follows_value follows_stop follows_either follows_attempt follows_map follows_clock follows_fresh_lease
  follows_reading : follows.
Ltac follow :=
  repeat (first
    [ solve [eauto with follows]
    | apply follows_chain; [|intros ?]
    | apply follows_attempt
    | apply follows_map
    | case_match ]).

(** Each call of the worker that needs no knowledge. *)
Lemma follows_release peer lease : follows (blocking (release_lease peer lease)).
Proof. apply (follows_blocking (ReleaseLease peer lease)); [|done]. intros db. symmetry. apply run_discard. Qed.
Lemma follows_reject peer id lease at_ text : follows (blocking (reject peer id lease at_ text)).
Proof. by apply (follows_blocking (Reject peer id lease at_ text)). Qed.
Lemma follows_retry peer id lease at_ text : follows (blocking (retry peer id lease at_ text)).
Proof. by apply (follows_blocking (Retry peer id lease at_ text)). Qed.
Lemma follows_lease_due peer now duration limit lease : follows (blocking (lease_due peer now duration limit lease)).
Proof. apply (follows_blocking (LeaseDue peer now duration limit lease)); [|done]. intros db. symmetry. apply run_discard. Qed.
Lemma follows_pull_failure peer space after next text :
  follows (blocking (record_pull_failure peer space after next text)).
Proof. by apply (follows_blocking (RecordPullFailure peer space after next text)). Qed.
Lemma follows_mark d at_ : follows (blocking (mark_resource_local d at_)).
Proof. by apply (follows_blocking (MarkResourceLocal d at_)). Qed.
Lemma follows_lease_resources now duration limit lease : follows (blocking (lease_due_resources now duration limit lease)).
Proof. apply (follows_blocking (LeaseDueResources now duration limit lease)); [|done]. intros db. symmetry. apply run_discard. Qed.
Lemma follows_progress peer content direction lease bytes url :
  follows (blocking (record_resource_progress peer content direction lease bytes url)).
Proof. by apply (follows_blocking (RecordProgress peer content direction lease bytes url)). Qed.
Lemma follows_complete peer content direction lease at_ :
  follows (blocking (complete_resource_transfer peer content direction lease at_)).
Proof. by apply (follows_blocking (CompleteTransfer peer content direction lease at_)). Qed.
Lemma follows_retry_transfer peer content direction lease at_ text :
  follows (blocking (retry_resource_transfer peer content direction lease at_ text)).
Proof. by apply (follows_blocking (RetryTransfer peer content direction lease at_ text)). Qed.
Lemma follows_reject_transfer peer content direction lease at_ text :
  follows (blocking (reject_resource_transfer peer content direction lease at_ text)).
Proof. by apply (follows_blocking (RejectTransfer peer content direction lease at_ text)). Qed.
Lemma follows_continue peer content direction lease at_ :
  follows (blocking (continue_resource_transfer peer content direction lease at_)).
Proof. by apply (follows_blocking (ContinueTransfer peer content direction lease at_)). Qed.
Lemma follows_wait peer content lease at_ text : follows (blocking (wait_for_local_resource peer content lease at_ text)).
Proof. by apply (follows_blocking (WaitForLocal peer content lease at_ text)). Qed.
Hint Resolve follows_release follows_reject follows_retry follows_lease_due follows_pull_failure follows_mark
  follows_lease_resources follows_progress follows_complete follows_retry_transfer follows_reject_transfer
  follows_continue follows_wait : follows.

Variable config : SyncConfig.

(** *** Pushing: an operation is acknowledged after its push succeeded *)
Lemma follows_push_deliveries peer lease deliveries : forall report,
  follows (push_deliveries config peer lease deliveries report).
Proof.
  induction deliveries as [|delivery deliveries IH]; intros report w Hok; cbn [push_deliveries]; [by apply follows_value|].
  apply sim_chain; [done|]. apply sim_attempt; [apply sim_in_world; [apply acts_push|]; intros [] world' Hpush Hl1|].
  - apply sim_chain; [by apply Hl1|]. apply sim_clock. intros now w2 Hl2.
    apply sim_chain; [by apply Hl2|]. apply (sim_blocking (Acknowledge (peer_id peer) (OperationEnvelope.operation_id (item_operation delivery)) lease now)).
    + done.
    + split; [done|split; [done|]]. apply Hl2. by apply (honest_push Hhonest peer _ (worker_world w)).
    + intros [] store _ Hl3. apply IH, Hl3.
  - intros e w1 Hl1. refine (_ w1 (later_ok _ _ Hl1)). follow.
Qed.
Hint Resolve follows_push_deliveries : follows.
Lemma follows_push_peers peers : forall report, follows (push_peers config peers report).
Proof. induction peers as [|peer peers IH]; intros report; cbn [push_peers]; follow. Qed.

(** *** Pulling: the cursor passes what was committed *)
Lemma sim_commit_page peer now operations : forall w,
  client_ok (worker_store w) ->
  Forall (fun o => typed_operation o /\ has (worker_world w) peer (OperationEnvelope.operation_id o)) operations ->
  simulates (commit_page operations now peer) w (fun _ w' => forall o, o ∈ operations -> holds_operation (worker_store w') o).
Proof.
  induction operations as [|o operations IH]; intros w Hok Hops; cbn [commit_page].
  - apply sim_value. by intros o Ho%not_elem_of_nil.
  - apply Forall_cons in Hops as [[Ht Hhas] Hops]. apply sim_chain; [done|].
    apply (sim_blocking (Commit o now (CommitSource.Peer peer))); [intros db; symmetry; apply run_discard|by split; [|split]|].
    intros result store Hrun Hl. pose proof (commit_holds o now (CommitSource.Peer peer) _ Hjson Hok Ht _ _ Hrun) as Hheld.
    eapply sim_mono; [apply IH; [apply Hl|]|].
    + eapply Forall_impl; [exact Hops|]. by intros other [Ht' Hhas'].
    + intros [] w' Hs Hall other [->|Hin]%elem_of_cons; [|by apply Hall].
      eapply holds_operation_prefix; [|exact Hheld]. apply (later_operations _ _ (steps_later _ _ (later_ok _ _ Hl) Hs)).
Qed.

Lemma follows_pull_target target report : follows (pull_target config target report).
Proof.
  intros w Hok. unfold pull_target. apply sim_chain; [done|]. apply sim_clock. intros now w1 Hl1.
  apply sim_chain; [by apply Hl1|].
  apply sim_attempt; [apply sim_in_world; [apply acts_pull|]; intros page world' Hpull Hl2|].
  - destruct (honest_page Hhonest _ _ _ _ _ _ _ Hpull) as [Hops Hlog].
    apply sim_chain; [apply Hl2|]. eapply sim_mono; [apply sim_commit_page; [apply Hl2|exact Hops]|].
    intros [] w3 _ Hheld Hl3. apply sim_chain; [apply Hl3|].
    assert (Hnext : follows (if page_has_more page then value now
      else either (add_duration now (caught_up_poll_interval config)))) by follow.
    eapply sim_mono; [apply Hnext, Hl3|]. intros next w4 Hs4 _ Hl4. apply sim_chain; [apply Hl4|].
    apply (sim_blocking (AdvancePullCursor (target_peer_id target) (target_space_id target) (target_after target)
      (page_next_after page) now next)); [done| |].
    + split; [done|split; [done|]]. intros sequence o Ho Hrange. eapply holds_operation_prefix; [apply Hl4|]. apply Hheld. by eapply Hlog.
    + intros [] store _ _. by apply sim_value.
  - intros e w2 Hl2. refine (_ w2 (later_ok _ _ Hl2)). follow.
Qed.
Hint Resolve follows_push_peers follows_pull_target : follows.
Lemma follows_pull_targets targets : forall report, follows (pull_targets config targets report).
Proof. induction targets as [|target targets IH]; intros report; cbn [pull_targets]; follow. Qed.

(** *** Media *)
Lemma follows_scan_resources candidates : forall report, follows (scan_resources candidates report).
Proof.
  induction candidates as [|d candidates IH]; intros report; cbn [scan_resources]; [follow|].
  apply follows_chain; [apply follows_attempt, follows_content|intros verified; follow].
  intros content world. left. by destruct (blob d content).
Qed.

Lemma follows_upload_status peer url : follows (in_world (content_upload_status peer url)).
Proof. apply follows_world. intros world. apply acts_status. Qed.
Lemma follows_create_upload peer resource : follows (in_world (create_content_upload peer resource)).
Proof. apply follows_world. intros world. apply acts_create. Qed.
Lemma follows_availability peer ids : follows (in_world (content_availability peer ids)).
Proof. apply follows_world. intros world. apply acts_availability. Qed.
Lemma follows_upload_chunk peer d upload size : follows (in_content (upload_content_chunk peer d upload size)).
Proof. apply follows_content. intros content world. right. apply acts_upload. Qed.
Lemma follows_download_chunk peer d size : follows (in_content (download_content_chunk peer d size)).
Proof. apply follows_content. intros content world. right. apply acts_download. Qed.
Hint Resolve follows_pull_targets follows_scan_resources follows_upload_status follows_create_upload
  follows_availability follows_upload_chunk follows_download_chunk : follows.

Lemma follows_finish_chunk transfer lease complete bytes : follows (finish_chunk transfer lease complete bytes).
Proof. unfold finish_chunk, syncing, complete_transfer, release_transfer_for_next_chunk. follow. Qed.
Lemma follows_persist transfer lease offset url : follows (persist_transfer_progress transfer lease offset url).
Proof. unfold persist_transfer_progress. follow. Qed.
Hint Resolve follows_finish_chunk follows_persist : follows.
Lemma follows_upload transfer lease remote : follows (execute_upload config transfer lease remote).
Proof. unfold execute_upload, refuse, transport, syncing. follow. Qed.
Lemma follows_download transfer lease remote : follows (execute_download config transfer lease remote).
Proof. unfold execute_download, refuse, transport, syncing. follow. Qed.
Hint Resolve follows_upload follows_download : follows.
Lemma follows_transfer transfer lease : follows (advance_resource_transfer config transfer lease).
Proof. unfold advance_resource_transfer, execute_resource_transfer, transport. follow. Qed.
Hint Resolve follows_transfer : follows.
Lemma follows_transfers transfers lease : forall report, follows (advance_transfers config transfers lease report).
Proof. induction transfers as [|transfer transfers IH]; intros report; cbn [advance_transfers]; follow. Qed.
Hint Resolve follows_transfers : follows.

Lemma follows_cycle : follows (run_cycle config).
Proof. unfold run_cycle. follow. Qed.

End Invariants.

(** ** The properties *)

(** C11: a cycle, however it ends, is a run of the protocol: the calls of the worker are
    typed, delete nothing, acknowledge what the peers have and move cursors past what is
    stored; the store stays reachable. *)
Theorem cycle_refines_protocol config w :
  honest -> json_exact -> client_reachable (worker_store w) ->
  let w' := snd (run_cycle config w) in
  rtc sync_step w w' /\ client_reachable (worker_store w').
Proof.
  intros Hh Hj Hr w'. pose proof (client_reachable_ok _ Hj Hr) as Hok.
  pose proof (proj1 (follows_cycle Hh Hj config w Hok)) as Hs. split; [exact Hs|]. by eapply steps_reachable.
Qed.


End SyncTheory.
