(* ===== verification/SyncProgress.v ===== *)
(** * The synchronization worker: progress and bounds

    How long a failed call waits, how much of an error is kept, and what one turn of a
    reachable peer delivers. *)
From S2P Require Import Prelude Bytes Floats Crypto Content Cbor Trust DataModel CanonicalBody Envelope.
From S2P Require Import Authorization Peer Application Database PairingStore Repository RepositoryLog.
From S2P Require Import ClientDatabase ClientStore ClientQueues ClientQueries ClientLogic ClientInvariant ClientTheory.
From S2P Require Import ClientContent SyncWorker.

#[local] Opaque OperationEnvelope.verify.

(** ** Configuration *)
Lemma validate_config_Ok config :
  validate_config config = Ok tt ->
  1 <= push_batch_size config <= 100 /\ initial_backoff config <> 0 /\ lease_duration config <> 0
  /\ initial_backoff config <= maximum_backoff config.
Proof.
  unfold validate_config, between. intros Hv. destruct (_ || _) eqn:E; [done|]. clear Hv.
  repeat (apply orb_false_iff in E as [E ?]). bool_prop. repeat split; first [lia|by apply Z.eqb_neq|by apply Z.ltb_ge].
Qed.

Lemma shift_attempt attempt :
  exists k, 0 <= k <= 31 /\ Z.min (Z.max (attempt - 1) 0) 31 = k /\ Z.shiftl 1 k = 2 ^ k.
Proof.
  exists (Z.min (Z.max (attempt - 1) 0) 31). split; [lia|split; [done|]]. rewrite Z.shiftl_mul_pow2 by lia. lia.
Qed.

(** C30: a failed call waits at least the initial and at most the maximal backoff, and
    never less than after an earlier attempt.  Up to attempt 32 the wait doubles with each
    attempt until the maximum; from there on it stays at 2^31 times the initial backoff,
    or at the maximum, so no attempt count makes it wrap. *)
Theorem backoff_spec config attempt :
  validate_config config = Ok tt -> 0 <= initial_backoff config -> maximum_backoff config <= DURATION_MAX ->
  0 < initial_backoff config <= backoff config attempt
  /\ backoff config attempt <= maximum_backoff config
  /\ backoff config attempt <= backoff config (attempt + 1)
  /\ (1 <= attempt <= 32 ->
      backoff config attempt = Z.min (initial_backoff config * 2 ^ (attempt - 1)) (maximum_backoff config))
  /\ (32 <= attempt ->
      backoff config attempt = Z.min (initial_backoff config * 2 ^ 31) (maximum_backoff config)).
Proof.
  intros (_ & Hi & _ & Hle)%validate_config_Ok Hpos Hmax. unfold backoff, duration_mul.
  destruct (shift_attempt attempt) as (k & Hk & Ek & Es). destruct (shift_attempt (attempt + 1)) as (k' & Hk' & Ek' & Es').
  rewrite Ek, Ek', Es, Es'. pose proof (Z.pow_pos_nonneg 2 k ltac:(lia) ltac:(lia)).
  assert (2 ^ k <= 2 ^ k') by (apply Z.pow_le_mono_r; lia).
  assert (initial_backoff config <= initial_backoff config * 2 ^ k) by nia.
  assert (initial_backoff config * 2 ^ k <= initial_backoff config * 2 ^ k') by nia.
  repeat split; try lia.
  - intros Ha. replace (attempt - 1) with k by lia. lia.
  - intros Ha. replace k with 31 in * by lia. lia.
Qed.

(** *** What is kept of an error *)
Lemma floor_boundary_le detail n : (floor_boundary detail n <= n)%nat.
Proof. induction n as [|n IH]; cbn [floor_boundary]; [lia|]. repeat case_match; lia. Qed.

Lemma bounded_detail_fits detail : error_too_long (Some (bounded_detail detail)) = false.
Proof.
  unfold error_too_long, bounded_detail, byte_count. apply Z.ltb_ge.
  destruct (Z.leb_spec (Z.of_nat (length detail)) MAX_ERROR_BYTES) as [Hle|Hgt]; [done|].
  rewrite length_firstn. pose proof (floor_boundary_le detail (Z.to_nat MAX_ERROR_BYTES)).
  unfold MAX_ERROR_BYTES in *. lia.
Qed.

Section SyncProgress.
Context `{Sha256} `{Ed25519} `{HalfFloat} `{Base64} `{!JsonNumber} `{!JsonSize}
  `{!ProjectionJson} `{!Lowercase} `{!SyncEnvironment}.
Implicit Types (w : Worker) (world : World).

(** ** A reachable peer is served *)

(** A clock that works. *)
Definition clock_works : Prop :=
  forall world, exists now, fst (now_unix_ms world) = Ok now /\ 0 <= now < 2 ^ 62.
(** A transport that takes whatever is pushed to a peer. *)
Definition accepts (peer : PeerConfig) : Prop := forall o world, fst (transport_push peer o world) = Ok tt.

Lemma acknowledge_runs db peer id lease at_ d :
  client_ok db -> delivery db peer id = Some d -> holds_lease peer id lease d = true -> 0 <= at_ < 2 ^ 62 ->
  acknowledge peer id lease at_ db
  = Ok (tt, with_deliveries db (update_rows (holds_lease peer id lease)
                                  (finished_delivery DeliveryState.Acknowledged at_ None) (client_deliveries db))).
Proof.
  intros Hok Hd Hl Hat. unfold acknowledge, finish_delivery, update_deliveries, bind, unless, get, holds, put, ret, fail.
  rewrite (proj2 (Z.ltb_ge at_ 0)) by lia. cbn [error_too_long].
  rewrite (select_one_delivery (holds_lease peer id lease) db peer id d) by
    (done || by intros row [[Hk _]%andb_true_iff _]%andb_true_iff). cbn [List.map forallb length].
  assert (delivery_constraints (finished_delivery DeliveryState.Acknowledged at_ None d) = true) as ->; [|done].
  destruct Hok as [_ [_ _ _ _ Hv _ _ _ _]]. rewrite Forall_forall in Hv.
  destruct (Hv d) as (Hc & _); [by apply query_row_Some in Hd as [? _]|].
  unfold delivery_constraints in *. do 4 (apply andb_true_iff in Hc as [Hc ?]). cbn. rewrite Hc. cbn.
  unfold column_i64. rewrite (proj2 (Z.leb_le 0 at_)), (proj2 (Z.ltb_lt at_ (2 ^ 63))) by lia. done.
Qed.

Lemma acknowledged_delivery db peer id lease at_ peer' id' :
  delivery (with_deliveries db (update_rows (holds_lease peer id lease)
    (finished_delivery DeliveryState.Acknowledged at_ None) (client_deliveries db))) peer' id'
  = (fun row => if holds_lease peer id lease row then finished_delivery DeliveryState.Acknowledged at_ None row else row)
      <$> delivery db peer' id'.
Proof. by apply delivery_update. Qed.

Definition is_acknowledged db peer id : Prop :=
  exists d, delivery db peer id = Some d /\ delivery_state d = DeliveryState.Acknowledged.

Definition item_id (item : DeliveryItem) : list Z := OperationEnvelope.operation_id (item_operation item).

(** C32: a configuration the worker accepts may still never synchronize: with a lease
    shorter than a millisecond every cycle fails at the first enabled peer, before anything
    is pushed or pulled. *)
Theorem sub_millisecond_lease_stops_every_cycle config peer peers w :
  clock_works -> validate_config config = Ok tt -> 0 <= lease_duration config < 1000000 ->
  enabled_peers (max_peers_per_cycle config) (worker_store w) = Ok (peer :: peers) ->
  fst (run_cycle config w) = Err (SyncError.Store ClientStoreError.InvalidLeaseDuration)
  /\ worker_store (snd (run_cycle config w)) = worker_store w.
Proof.
  intros Hclock (Hbatch & _)%validate_config_Ok Hlease Hpeers. destruct w as [store content world]. cbn [worker_store] in *.
  assert (Hexpiry : forall now, lease_expiry now (lease_duration config) = Err ClientStoreError.InvalidLeaseDuration).
  { intros now. unfold lease_expiry. assert (as_millis (lease_duration config) = 0) as -> by (apply Z.div_small; lia). done. }
  unfold run_cycle, push_peers, reading, clock, fresh_lease_id, chain, in_world, blocking, run, bind, get, lift.
  cbn [worker_store worker_content worker_world]. rewrite Hpeers. cbn [map_err fst snd worker_store worker_content worker_world].
  destruct (Hclock world) as (now & Hnow & Hrange). destruct (now_unix_ms world) as [time world1]. cbn in Hnow. subst time.
  cbn [worker_store worker_content worker_world]. destruct (new_lease_id world1) as [lease world2].
  cbn [worker_store worker_content worker_world].
  assert (lease_due (peer_id peer) now (lease_duration config) (push_batch_size config) lease store
    = Err ClientStoreError.InvalidLeaseDuration) as ->; [|done].
  unfold lease_due, bind, unless, lift, fail, ret, between. rewrite (proj2 (Z.ltb_ge now 0)) by lia.
  rewrite (proj2 (Z.leb_le 1 _)), (proj2 (Z.leb_le _ MAX_OUTBOX_BATCH)) by (unfold MAX_OUTBOX_BATCH; lia).
  cbn. by rewrite Hexpiry.
Qed.

Variable config : SyncConfig.
Variable peer : PeerConfig.
Hypothesis Hclock : clock_works.
Hypothesis Haccepts : accepts peer.

(** Each delivery of a leased batch is acknowledged. *)
Lemma push_deliveries_serves lease deliveries : forall report w,
  client_ok (worker_store w) -> NoDup (List.map item_id deliveries) ->
  (forall item, item ∈ deliveries -> exists d, delivery (worker_store w) (peer_id peer) (item_id item) = Some d
     /\ holds_lease (peer_id peer) (item_id item) lease d = true) ->
  exists w', push_deliveries config peer lease deliveries report w
      = (Ok (Nat.iter (length deliveries) add_pushed report), w')
    /\ (forall item, item ∈ deliveries -> is_acknowledged (worker_store w') (peer_id peer) (item_id item))
    /\ forall id, id ∉ List.map item_id deliveries ->
       delivery (worker_store w') (peer_id peer) id = delivery (worker_store w) (peer_id peer) id.
Proof.
  induction deliveries as [|item deliveries IH]; intros report w Hok Hn Hl.
  { exists w. split; [done|split; [by intros item Hin%not_elem_of_nil|done]]. }
  destruct w as [store content world]. cbn [worker_store] in *. cbn [push_deliveries length].
  cbn [List.map] in Hn. apply NoDup_cons in Hn as [Hitem Hn].
  unfold chain, attempt, clock, in_world, blocking, run. cbn [worker_world worker_store worker_content].
  pose proof (Haccepts (item_operation item) world) as Hpush.
  destruct (transport_push peer (item_operation item) world) as [pushed world1]. cbn in Hpush. subst pushed.
  cbn [worker_world worker_store worker_content].
  destruct (Hclock world1) as (now & Hnow & Hrange). destruct (now_unix_ms world1) as [time world2]. cbn in Hnow. subst time.
  cbn [worker_world worker_store worker_content].
  destruct (Hl item) as (d & Hd & Hheld); [apply list_elem_of_here|].
  cbv zeta. fold (item_id item). rewrite (acknowledge_runs store _ _ lease now d Hok Hd Hheld Hrange). cbn [map_err].
  set (store1 := with_deliveries _ _).
  assert (Hok1 : client_ok store1).
  { refine (keeps_finish_delivery (peer_id peer) (item_id item) lease DeliveryState.Acknowledged now None store Hok tt store1 _).
    by apply (acknowledge_runs store _ _ lease now d). }
  assert (Hother : forall id, id <> item_id item -> delivery store1 (peer_id peer) id = delivery store (peer_id peer) id).
  { intros id Hne. unfold store1. rewrite acknowledged_delivery. destruct (delivery store (peer_id peer) id) as [row|] eqn:Er; [|done].
    apply delivery_key_of in Er as [_ Er]. cbn. unfold holds_lease.
    destruct (has_delivery (peer_id peer) (item_id item) row) eqn:Ek; [|done]. apply has_delivery_eq in Ek. injection Ek as _ Ek.
    congruence. }
  destruct (IH (add_pushed report) (mkWorker store1 content world2)) as (w' & E & Hack & Hsame); [done|done| |].
  { intros other Hin. cbn [worker_store]. rewrite Hother; [apply Hl; by right|]. intros Eq. apply Hitem. rewrite <- Eq.
    apply list_elem_of_In, in_map. by apply list_elem_of_In. }
  cbn [worker_store] in *. exists w'. rewrite E, Nat.iter_succ_r. split; [done|]. split.
  - intros other [->|Hin]%elem_of_cons; [|by apply Hack]. unfold is_acknowledged. rewrite Hsame by done.
    unfold store1. rewrite acknowledged_delivery, Hd. cbn. rewrite Hheld. by eexists.
  - intros id [Hne Hnot]%not_elem_of_cons. by rewrite Hsame, Hother.
Qed.

Lemma pushed_iter n report : pushed (Nat.iter n add_pushed report) = pushed report + Z.of_nat n.
Proof. induction n as [|n IH]; [cbn; lia|]. cbn [Nat.iter nat_rect]. unfold Nat.iter in IH. cbn. rewrite IH. lia. Qed.

(** What the items of a leased batch are. *)
Lemma batch_items db lease expires now limit items :
  json_exact -> client_ok db -> Forall2 (leased_item db (peer_id peer)) (due_batch db (peer_id peer) now limit) items ->
  let batch := due_batch db (peer_id peer) now limit in
  List.map item_id items = List.map op_operation_id batch
  /\ NoDup (List.map item_id items)
  /\ forall item, item ∈ items -> exists d,
       delivery (lease_batch db (peer_id peer) lease expires batch) (peer_id peer) (item_id item) = Some d
       /\ holds_lease (peer_id peer) (item_id item) lease d = true.
Proof.
  intros Hj Hok Hitems batch. fold batch in Hitems. pose proof (batch_sublist db (peer_id peer) now limit Hok) as Hsub. fold batch in Hsub.
  pose proof Hok as [[_ _ _ Hids Hrows _] _]. rewrite Forall_forall in Hrows.
  assert (Hid : forall row item, row ∈ batch -> leased_item db (peer_id peer) row item -> item_id item = op_operation_id row).
  { intros row item Hin [Hd _]. destruct (Hrows row) as (o & Hs & _); [by eapply sublist_subseteq|].
    apply (decode_stored row o _ Hj Hs) in Hd as Ho. unfold item_id. rewrite Ho. symmetry. apply Hs. }
  assert (Hmap : List.map item_id items = List.map op_operation_id batch).
  { clear -Hitems Hid. induction Hitems as [|row item rows items Hi _ IH]; [done|]. cbn. f_equal.
    - apply Hid; [apply list_elem_of_here|done].
    - apply IH. intros r i Hr. apply Hid. by right. }
  split; [done|split].
  - rewrite Hmap. eapply sublist_NoDup; [exact Hids|]. by apply (fmap_sublist op_operation_id).
  - intros item Hin. apply list_elem_of_lookup in Hin as [i Hi]. destruct (Forall2_lookup_r _ _ _ _ _ Hitems Hi) as (row & Hr & Hitem).
    assert (Hrow : row ∈ batch) by (by eapply list_elem_of_lookup_2). rewrite (Hid row item Hrow Hitem).
    destruct Hitem as (_ & d & Hd & _). exists (leased_delivery lease expires d). rewrite lease_batch_delivery, Hd. cbn.
    apply query_row_Some in Hd as [_ Hk].
    assert (in_batch (peer_id peer) batch d = true) as -> by (apply exists_row_true; by exists row). split; [done|].
    apply has_delivery_eq in Hk. unfold holds_lease. apply andb_true_iff. split; [apply andb_true_iff; split|].
    + by apply has_delivery_eq.
    + by apply bool_decide_eq_true.
    + unfold eqb. by apply bool_decide_eq_true.
Qed.

(** C17: when the clock works and the peer accepts what is pushed to it, one turn of the
    worker delivers the peer's whole batch: every operation that was due is acknowledged,
    and the report counts them.  This when the JSON text of every operation of the batch
    reads back: one that does not makes every turn fail, and nothing of the batch is sent. *)
Theorem reachable_peer_is_served report w now world1 :
  json_exact -> client_reachable (worker_store w) -> validate_config config = Ok tt ->
  0 < as_millis (lease_duration config) < 2 ^ 62 ->
  (forall d, d ∈ client_deliveries (worker_store w) -> delivery_attempt_count d + 1 < 2 ^ 32) ->
  now_unix_ms (worker_world w) = (Ok now, world1) ->
  let batch := due_batch (worker_store w) (peer_id peer) now (push_batch_size config) in
  (Forall readable batch -> exists report' w', push_peers config [peer] report w = (Ok report', w')
    /\ pushed report' = pushed report + Z.of_nat (length batch)
    /\ forall row, row ∈ batch -> is_acknowledged (worker_store w') (peer_id peer) (op_operation_id row))
  /\ (~ Forall readable batch -> exists e, push_peers config [peer] report w
        = (Err e, mkWorker (worker_store w) (worker_content w) (snd (new_lease_id world1)))).
Proof.
  intros Hj Hr (Hbatch & _)%validate_config_Ok Hlease Hattempts Enow batch.
  pose proof (client_reachable_ok _ Hj Hr) as Hok. destruct w as [store content world]. cbn [worker_store worker_world] in *.
  pose proof (Hclock world) as (time & Htime & Hrange). rewrite Enow in Htime. cbn in Htime. injection Htime as <-.
  unfold push_peers, clock, fresh_lease_id, chain, in_world, blocking. cbn [worker_world worker_store worker_content]. rewrite Enow.
  cbn [worker_world worker_store worker_content]. destruct (new_lease_id world1) as [lease world2].
  cbn [worker_world worker_store worker_content].
  assert (Hexpiry : lease_expiry now (lease_duration config) = Ok (now + as_millis (lease_duration config))).
  { assert (Hc : forall z, 0 <= z < 2 ^ 63 -> checked_i64 z = Some z).
    { intros z Hz. unfold checked_i64. by rewrite (proj2 (Z.leb_le _ z)), (proj2 (Z.ltb_lt z _)) by lia. }
    unfold lease_expiry. rewrite (Hc (as_millis _)) by lia. rewrite (proj2 (Z.ltb_lt 0 _)) by lia. by rewrite Hc by lia. }
  cbn [snd].
  destruct (lease_due_runs store (peer_id peer) now (lease_duration config) (push_batch_size config) lease
    (now + as_millis (lease_duration config)) Hj Hok)
    as [[Hread (items & Hrun & Hitems)]|[Hread [m Hrun]]]; [lia|unfold MAX_OUTBOX_BATCH; lia|exact Hexpiry|done| |].
  2:{ split; [by intros ?|intros _]. rewrite Hrun. cbn [map_err worker_world worker_store worker_content]. by eexists. }
  split; [intros _|by intros []].
  rewrite Hrun. cbn [map_err]. fold batch in Hrun, Hitems. cbn [worker_world worker_store worker_content].
  destruct (batch_items store lease (now + as_millis (lease_duration config)) now (push_batch_size config) items Hj Hok Hitems)
    as (Hmap & Hnodup & Hleased). fold batch in Hmap, Hleased.
  destruct (push_deliveries_serves lease items report (mkWorker (lease_batch store (peer_id peer) lease
    (now + as_millis (lease_duration config)) batch) content world2)) as (w' & E & Hack & _); [|done|done|].
  - unfold run in Hrun. destruct (lease_due _ _ _ _ _ store) as [[items' db']|] eqn:El; [|done]. injection Hrun as -> <-.
    exact (keeps_lease_due _ _ _ _ _ store Hok _ _ El).
  - fold batch. rewrite E. eexists _, w'. split; [done|]. split.
    + rewrite pushed_iter. do 2 f_equal. rewrite <- (length_map item_id), Hmap. apply length_map.
    + intros row Hin. apply (list_elem_of_fmap_2 op_operation_id) in Hin. change (op_operation_id <$> batch) with (List.map op_operation_id batch) in Hin.
      rewrite <- Hmap in Hin. apply list_elem_of_fmap in Hin as (item & -> & Hitem). by apply Hack.
Qed.
End SyncProgress.
