(* ===== verification/SyncWitnesses.v ===== *)
(** * Witnesses for the synchronization worker

    One node that takes every push and serves a feed of two operations; a client that has
    a record of its own to deliver and pulls the node's feed. *)
From S2P Require Import Prelude Bytes Floats Crypto Content Cbor Trust TrustTheory DataModel CanonicalBody.
From S2P Require Import BodyTheory Envelope EnvelopeTheory Samples Authorization AuthorizationSamples Peer.
From S2P Require Import Application Database PairingStore Repository RepositoryLog RepositorySamples.
From S2P Require Import ClientDatabase ClientStore ClientQueues ClientQueries ClientLogic ClientInvariant ClientTheory.
From S2P Require Import ClientPulls ClientWitnesses ClientContent SyncWorker SyncTheory SyncProgress.

(** The node's world: what was pushed to it, and how many leases were drawn. *)
Record ToyWorld : Type := mkToyWorld {
  toy_pushed : list (list Z * list Z);
  toy_leases : Z
}.

Definition node_feed : list (Z * OperationEnvelope.t) := [(1, writer_operation); (2, entry_operation)].
Definition feed_after (after : Z) : list OperationEnvelope.t :=
  List.map snd (List.filter (fun entry => after <? fst entry) node_feed).

Definition unreachable {A W} (world : W) : result TransportError A * W := (Err (retryable (str "offline")), world).

#[export] Instance toy_environment : SyncEnvironment := {|
  World := ToyWorld;
  Url := list Z;
  parse_url := fun text => Ok text;
  url_text := fun url => url;
  now_unix_ms := fun world => (Ok 1700000006000, world);
  new_lease_id := fun world =>
    (replicate 15 9 ++ [toy_leases world mod 256], mkToyWorld (toy_pushed world) (toy_leases world + 1));
  transport_push := fun peer o world =>
    (Ok tt, mkToyWorld ((peer_id peer, OperationEnvelope.operation_id o) :: toy_pushed world) (toy_leases world));
  transport_pull := fun target _ _ _ world => (Ok (mkPulled (feed_after (target_after target)) 2 false), world);
  content_availability := fun _ _ => unreachable;
  create_content_upload := fun _ _ => unreachable;
  content_upload_status := fun _ _ => unreachable;
  upload_content_chunk := fun _ _ _ _ => unreachable;
  download_content_chunk := fun _ _ _ => unreachable
|}.

Definition toy_has (world : World) (peer id : list Z) : Prop :=
  (peer, id) ∈ toy_pushed world \/ exists sequence o, (sequence, o) ∈ node_feed /\ OperationEnvelope.operation_id o = id.
Definition toy_log (peer space : list Z) (sequence : Z) (o : OperationEnvelope.t) : Prop := (sequence, o) ∈ node_feed.

Lemma elem_of_feed_after after o :
  o ∈ feed_after after <-> exists sequence, (sequence, o) ∈ node_feed /\ after < sequence.
Proof.
  unfold feed_after. rewrite list_elem_of_In, in_map_iff. setoid_rewrite filter_In. setoid_rewrite <- list_elem_of_In.
  setoid_rewrite Z.ltb_lt. split.
  - intros ([sequence o'] & <- & Hin & Hlt). by exists sequence.
  - intros (sequence & Hin & Hlt). by exists (sequence, o).
Qed.

Lemma toy_honest : honest toy_has toy_log.
Proof.
  split.
  - intros world world' peer id Ha [Hp|Hf]; [left|by right]. destruct Ha; cbn; try done. by right.
  - intros peer o world world' [= <-]. left. apply list_elem_of_here.
  - intros target limit now lifetime world page world' [= <- <-]. cbn [page_operations page_next_after]. split.
    + apply Forall_forall. intros o (sequence & Hin & _)%elem_of_feed_after. split; [|right; by exists sequence, o].
      apply elem_of_cons in Hin as [[= _ ->]|Hin%list_elem_of_singleton]; [exact writer_typed|].
      injection Hin as _ ->. exact entry_typed.
    + intros sequence o Hlog [Hafter _]. apply elem_of_feed_after. by exists sequence.
Qed.

(** The client: it follows the node's feed of the space from its start. *)
Definition sync_calls : list Call :=
  setup_calls ++
  [ConfigurePeerSpace (mkPeerSpaceConfig client_peer sample_space PeerReadMode.SupervisorBearer 0 1700000005000);
   Commit media_operation 1700000004000 CommitSource.Local].
Definition sync_client : Worker :=
  mkWorker (run_calls sync_calls fresh_client) (empty_store []) (mkToyWorld [] 0).
Notation synchronized := (snd (run_cycle default_config sync_client)).

Lemma sync_reachable : client_reachable (worker_store sync_client).
Proof. reached sync_calls. Qed.

(** The cycle pushes what the client holds of the space and pulls the feed. *)
Lemma sync_report : fst (run_cycle default_config sync_client) = Ok (add_waiting (add_pulled 2 (add_pushed empty_report))).
Proof. by_vm. Qed.
Lemma sync_cursor : List.map pull_after (client_peer_spaces (worker_store synchronized)) = [2].
Proof. by_vm. Qed.

Lemma cycle_refines_protocol_witness : rtc (sync_step toy_has toy_log) sync_client synchronized.
Proof.
  exact (proj1 (cycle_refines_protocol toy_has toy_log default_config sync_client toy_honest toy_exact sync_reachable)).
Defined.



Lemma backoff_spec_witness : backoff default_config 3 = 4000000000.
Proof.
  destruct (backoff_spec default_config 3) as (_ & _ & _ & E & _); [reflexivity|vm_compute; discriminate..|].
  rewrite E; [reflexivity|lia].
Defined.

Lemma toy_clock_works : clock_works.
Proof. intros world. exists 1700000006000. split; [reflexivity|lia]. Qed.
Lemma toy_accepts peer : accepts peer.
Proof. by intros o world. Qed.
Lemma sync_batch : List.map op_operation_id
  (due_batch (worker_store sync_client) client_peer 1700000006000 32) = [OperationEnvelope.operation_id media_operation].
Proof. by_vm. Qed.
Lemma reachable_peer_is_served_witness :
  exists report w', push_peers default_config [client_peer_config] empty_report sync_client = (Ok report, w')
    /\ forall row, row ∈ due_batch (worker_store sync_client) client_peer 1700000006000 32 ->
       is_acknowledged (worker_store w') client_peer (op_operation_id row).
Proof.
  destruct (reachable_peer_is_served default_config client_peer_config toy_clock_works (toy_accepts client_peer_config) empty_report
    sync_client 1700000006000 (mkToyWorld [] 0) toy_exact sync_reachable) as [Hserved _].
  - reflexivity.
  - vm_compute. split; reflexivity.
  - apply few_attempts. by_vm.
  - reflexivity.
  - destruct Hserved as (report & w' & E & _ & Hack).
    + apply toy_batch_readable, sync_reachable.
    + exists report, w'. split; [exact E|exact Hack].
Defined.

Definition short_lease : SyncConfig :=
  mkSyncConfig 32 100 32 (from_secs 2) (from_secs 5) 999999 (from_secs 10) (from_secs 1) (from_secs 300) 100 8 262144.
Lemma sub_millisecond_lease_stops_every_cycle_witness :
  fst (run_cycle short_lease sync_client) = Err (SyncError.Store ClientStoreError.InvalidLeaseDuration).
Proof.
  refine (proj1 (sub_millisecond_lease_stops_every_cycle short_lease client_peer_config [] sync_client toy_clock_works _ _ _)).
  - reflexivity.
  - cbn. lia.
  - by_vm.
Defined.
