(* ===== verification/NodeTransport.v ===== *)
(** * The HTTP transport (crates/fractonica-sync/src/lib.rs)

    [NodeHttpTransport] talks to the peers over [HttpClient], the class of what it takes
    from reqwest, url, serde_json and the operating system.  A request is a value: its
    method, its URL, its headers in the order they are added and its body before
    serialization. *)
From S2P Require Import Prelude Bytes Floats Crypto Content Cbor Trust DataModel CanonicalBody Envelope.
From S2P Require Import Authorization Peer Application Database PairingStore Repository RepositoryLog.
From S2P Require Import ClientDatabase ClientStore ClientQueues ClientQueries ClientContent SyncWorker.

(** ** Numbers as text *)
Fixpoint decimal_digits (fuel : nat) (n : Z) (text : list Z) : list Z :=
  match fuel with
  | O => text
  | S fuel =>
      let text := (48 + n mod 10) :: text in
      if n <? 10 then text else decimal_digits fuel (n / 10) text
  end.
(** [to_string] of a [u64]: at most twenty digits. *)
Definition decimal (n : Z) : list Z := decimal_digits 20 n [].

Definition digits_value (digits : list Z) : Z := fold_left (fun n d => n * 10 + (d - 48)) digits 0.
(** [str::parse::<u64>]. *)
Definition parse_u64 (text : list Z) : option Z :=
  let digits := match text with 43 :: rest => rest | _ => text end in
  match digits with
  | [] => None
  | _ => if forallb is_ascii_digit digits && (digits_value digits <? 2 ^ 64) then Some (digits_value digits) else None
  end.

(** ** Requests and responses *)
Module Method.
Inductive t : Type := Get | Head | Post | Patch.
End Method.

(** [PeerReadBody]. *)
Record PeerReadBody : Type := mkReadBody {
  body_protocol_version : Z;
  body_session_id : list Z;
  body_node_id : list Z;
  body_actor_id : list Z;
  body_grant_operation_id : list Z;
  body_after : Z;
  body_limit : Z;
  body_issued_at_unix_ms : Z;
  body_expires_at_unix_ms : Z;
  body_nonce : list Z;
  body_node_signature : list Z;
  body_actor_signature : list Z
}.
Definition peer_read_body (proof : PeerReadChangesProof.t) : PeerReadBody :=
  mkReadBody (PeerReadChangesProof.protocol_version proof)
    (bytes_hex (PeerReadChangesProof.session_id proof))
    (display_id NODE_PREFIX (PeerReadChangesProof.node_id proof))
    (display_id ACTOR_PREFIX (PeerReadChangesProof.actor_id proof))
    (display_id OPERATION_PREFIX (PeerReadChangesProof.grant_operation_id proof))
    (PeerReadChangesProof.after proof) (PeerReadChangesProof.limit proof)
    (PeerReadChangesProof.issued_at_unix_ms proof) (PeerReadChangesProof.expires_at_unix_ms proof)
    (bytes_hex (PeerReadChangesProof.nonce proof))
    (bytes_hex (PeerReadChangesProof.node_signature proof))
    (bytes_hex (PeerReadChangesProof.actor_signature proof)).

Section Messages.
Context `{JsonNumber}.

Inductive HttpBody : Type :=
| Empty
| JsonOperation (operation : OperationEnvelope.t)
| JsonAvailability (content_ids : list ContentId.t)
| JsonRead (body : PeerReadBody)
| RawBytes (bytes : list Z).

Record HttpRequest {Url : Type} : Type := mkRequest {
  request_method : Method.t;
  request_url : Url;
  request_headers : list (list Z * list Z);
  request_body : HttpBody
}.
Arguments HttpRequest : clear implicits.

(** A response: the chunks of its body arrive one by one. *)
Record HttpResponse : Type := mkResponse {
  status : Z;
  response_headers : list (list Z * list Z);
  chunks : list (result (list Z) (list Z))
}.

(** What the transport takes from its libraries.  A URL is read by its accessors;
    [exchange] is one request on the wire and its answer; [redirected] is the request
    with which the client follows that answer when it is a redirection;
    [decode_availability] and [decode_page] are [serde_json] on the bytes of a body. *)
Class HttpClient := {
  Net : Type;
  HttpUrl : Type;
  url_parse : list Z -> result (list Z) HttpUrl;
  url_as_str : HttpUrl -> list Z;
  url_scheme : HttpUrl -> list Z;
  url_username : HttpUrl -> list Z;
  url_password : HttpUrl -> option (list Z);
  url_host : HttpUrl -> option (list Z);
  url_port : HttpUrl -> option Z;
  url_port_or_known_default : HttpUrl -> option Z;
  url_path : HttpUrl -> list Z;
  url_query : HttpUrl -> option (list Z);
  url_fragment : HttpUrl -> option (list Z);
  url_set_path : HttpUrl -> list Z -> HttpUrl;
  url_append_pairs : HttpUrl -> list (list Z * list Z) -> HttpUrl;
  url_join : HttpUrl -> list Z -> result (list Z) HttpUrl;
  exchange : HttpRequest HttpUrl -> Net -> result (list Z) HttpResponse * Net;
  redirected : HttpRequest HttpUrl -> HttpResponse -> option (HttpRequest HttpUrl);
  too_many_redirects : list Z;
  status_text : Z -> list Z;
  decode_availability : list Z -> result (list Z) (list ContentDescriptor.t * list ContentId.t);
  decode_page : list Z -> result (list Z) OperationChangePage;
  base64_standard : list Z -> list Z;
  random_nonce : Net -> result (list Z) (list Z) * Net;
  system_time : Net -> result SyncError.t Z * Net;
  random_lease : Net -> list Z * Net;
  content_error_text : ClientContentError.t -> list Z;
  proof_error_text : PeerProofError -> list Z;
  descriptor_error_text : ContentValidationError -> list Z
}.
End Messages.
Arguments HttpRequest {_} Url.
Arguments mkRequest {_ _}.

(** ** The transport *)
Section NodeTransport.
Context `{Sha256} `{Ed25519} `{HalfFloat} `{Base64} `{!JsonNumber} `{!HttpClient}.

(** [PeerProofCustody]. *)
Definition PeerProofCustody : Type := PeerReadChangesFields.t -> result TransportError PeerReadChangesProof.t.
Definition software_custody (node_key actor_key : list Z) : PeerProofCustody :=
  fun fields => map_err (fun e => permanent (proof_error_text e)) (PeerReadChangesProof.sign fields node_key actor_key).

Record NodeHttpTransport : Type := mkTransport {
  custody : PeerProofCustody;
  bearer_tokens : gmap (list Z) (list Z)
}.

(** Computations that talk to the network. *)
Definition Http (A : Type) : Type := Net -> result TransportError A * Net.
Definition answer {A} (a : A) : Http A := fun net => (Ok a, net).
Definition failed {A} (e : TransportError) : Http A := fun net => (Err e, net).
Definition next {A B} (m : Http A) (k : A -> Http B) : Http B :=
  fun net => match m net with (Ok a, net) => k a net | (Err e, net) => (Err e, net) end.
Definition given {A} (r : result TransportError A) : Http A := fun net => (r, net).
#[local] Notation "'let+' x ':=' m 'in' k" := (next m (fun x => k))
  (at level 10, x pattern, m at level 100, k at level 200).
#[local] Notation "m ';+' k" := (next m (fun _ => k)) (at level 100, k at level 200, right associativity).

(** [RequestBuilder::send] of a client that [Client::builder()] makes without a redirect
    policy: reqwest's default one follows up to ten redirections, to any origin. *)
Definition MAX_REDIRECTS : nat := 10.
Fixpoint follow (redirects : nat) (request : HttpRequest HttpUrl) (net : Net) :
    result (list Z) HttpResponse * Net :=
  match exchange request net with
  | (Err e, net) => (Err e, net)
  | (Ok response, net) =>
      match redirected request response, redirects with
      | None, _ => (Ok response, net)
      | Some _, O => (Err too_many_redirects, net)
      | Some request, S redirects => follow redirects request net
      end
  end.
Definition send : HttpRequest HttpUrl -> Net -> result (list Z) HttpResponse * Net := follow MAX_REDIRECTS.

Definition perform (request : HttpRequest HttpUrl) : Http HttpResponse :=
  fun net => let (r, net) := send request net in (map_err retryable r, net).

(** ** URLs *)
Definition is_some {A} (o : option A) : bool := match o with Some _ => true | None => false end.

Definition node_url (endpoint path : list Z) : result TransportError HttpUrl :=
  let? url := map_err (fun e => permanent (str "invalid peer endpoint: " ++ e)) (url_parse endpoint) in
  if negb (list_eqb (url_scheme url) (str "http") || list_eqb (url_scheme url) (str "https"))
     || negb (list_eqb (url_username url) []) || is_some (url_password url)
     || is_some (url_query url) || is_some (url_fragment url)
  then Err (permanent (str "peer endpoint must be an HTTP(S) origin"))
  else Ok (url_set_path url path).

Definition same_origin (base upload : HttpUrl) : bool :=
  list_eqb (url_scheme base) (url_scheme upload)
  && bool_decide (url_host base = url_host upload)
  && bool_decide (url_port base = url_port upload).
Definition starts_with (prefix text : list Z) : bool := list_eqb (firstn (length prefix) text) prefix.
Definition require_upload_url (base upload : HttpUrl) : result TransportError unit :=
  if negb (same_origin base upload) || negb (list_eqb (url_username upload) []) || is_some (url_password upload)
     || is_some (url_query upload) || is_some (url_fragment upload)
     || negb (starts_with (str "/api/uploads/") (url_path upload))
  then Err (permanent (str "upload URL escaped the configured node origin"))
  else Ok tt.

(** ** Responses *)
Definition is_success (status : Z) : bool := (200 <=? status) && (status <? 300).
Definition is_server_error (status : Z) : bool := (500 <=? status) && (status <? 600).
Definition http_failure (status : Z) : TransportError :=
  let detail := str "node returned HTTP " ++ status_text status in
  if is_server_error status || (status =? 429) then retryable detail else permanent detail.

Definition is_header_text (value : list Z) : bool :=
  forallb (fun c => (32 <=? c) && (c <? 127) || (c =? 9)) value.
Definition header (name : list Z) (response : HttpResponse) : option (list Z) :=
  match List.find (fun entry => list_eqb (fst entry) name) (response_headers response) with
  | Some (_, value) => if is_header_text value then Some value else None
  | None => None
  end.
Definition required_u64_header (response : HttpResponse) (name : list Z) : result TransportError Z :=
  ok_or (text ← header name response; parse_u64 text) (permanent (str "response omitted valid " ++ name)).

(** [response.json()]: the whole body, decoded. *)
Definition body_bytes (response : HttpResponse) : result (list Z) (list Z) :=
  let? parts := collect (fun chunk => chunk) (chunks response) in Ok (concat parts).
Definition json {A} (decode : list Z -> result (list Z) A) (what : list Z) (response : HttpResponse) :
    result TransportError A :=
  map_err (fun e => retryable (what ++ e)) (let? bytes := body_bytes response in decode bytes).

Definition content_error (e : ClientContentError.t) : TransportError :=
  match e with
  | ClientContentError.Io IoKind.Interrupted | ClientContentError.Io IoKind.WouldBlock
  | ClientContentError.Io IoKind.TimedOut => retryable (content_error_text e)
  | _ => permanent (content_error_text e)
  end.

Variable transport : NodeHttpTransport.

(** The credential of this peer, and of no other. *)
Definition authorize (peer : PeerConfig) : list (list Z * list Z) :=
  match bearer_tokens transport !! peer_id peer with
  | Some token => [(str "authorization", str "Bearer " ++ token)]
  | None =>
      match peer_transport_credential peer with
      | Some credential => [(str "authorization", str "Fractonica-Peer " ++ credential)]
      | None => []
      end
  end.

(** ** Operations *)
Definition is_genesis (operation : OperationEnvelope.t) : bool :=
  match OperationEnvelope.body operation with OperationBody.SpaceGenesis _ => true | _ => false end.

Definition push (peer : PeerConfig) (operation : OperationEnvelope.t) : Http unit :=
  let+ url := given (node_url (endpoint peer)
    (str "api/spaces/" ++ display_id SPACE_PREFIX (OperationEnvelope.space_id operation) ++ str "/operations")) in
  let+ response := perform (mkRequest Method.Post url (authorize peer) (JsonOperation operation)) in
  if is_success (status response) || ((status response =? 409) && is_genesis operation)
  then answer tt else failed (http_failure (status response)).

Definition decode_change_page (response : HttpResponse) (target : SyncTarget) : result TransportError PulledPage :=
  if negb (is_success (status response)) then Err (http_failure (status response))
  else
    let? page := json decode_page (str "invalid change page: ") response in
    if negb (list_eqb (page_space_id page) (target_space_id target)) || (next_after page <? target_after target)
    then Err (permanent (str "change page identity or cursor is invalid"))
    else Ok (mkPulled (List.map Application.operation (Application.page_operations page)) (next_after page) (has_more page)).

Definition request_expiry (now_unix_ms request_lifetime : Z) : result TransportError Z :=
  let? lifetime := ok_or (checked_i64 (as_millis request_lifetime))
    (permanent (str "request lifetime exceeds signed milliseconds")) in
  ok_or (checked_i64 (now_unix_ms + lifetime)) (permanent (str "request expiry overflows")).

Definition pull (target : SyncTarget) (limit now_unix_ms request_lifetime : Z) : Http PulledPage :=
  match target_read_mode target with
  | PeerReadMode.SupervisorBearer =>
      let+ token := given (ok_or (bearer_tokens transport !! target_peer_id target)
        (permanent (str "supervised-node reads require a configured bearer token"))) in
      let+ url := given (node_url (target_endpoint target)
        (str "api/spaces/" ++ display_id SPACE_PREFIX (target_space_id target) ++ str "/changes")) in
      let url := url_append_pairs url
        [(str "after", decimal (target_after target)); (str "limit", decimal limit)] in
      let+ response := perform (mkRequest Method.Get url [(str "authorization", str "Bearer " ++ token)] Empty) in
      given (decode_change_page response target)
  | PeerReadMode.Paired session_id grant_operation_id =>
      let+ expires_at_unix_ms := given (request_expiry now_unix_ms request_lifetime) in
      let+ nonce := (fun net => let (r, net) := random_nonce net in
                                (map_err (fun e => retryable (str "entropy unavailable: " ++ e)) r, net)) in
      let+ proof := given (custody transport (PeerReadChangesFields.mk session_id (target_space_id target)
        grant_operation_id (target_after target) limit now_unix_ms expires_at_unix_ms nonce)) in
      let+ url := given (node_url (target_endpoint target)
        (str "api/peer/spaces/" ++ display_id SPACE_PREFIX (target_space_id target) ++ str "/changes")) in
      let+ response := perform (mkRequest Method.Post url [] (JsonRead (peer_read_body proof))) in
      given (decode_change_page response target)
  end.

(** ** Content *)

(** The identities of a response are requested ones, each answered once. *)
Fixpoint observe (unique ids observed : list ContentId.t) : result TransportError (list ContentId.t) :=
  match ids with
  | [] => Ok observed
  | id :: ids =>
      if negb (bool_decide (id ∈ unique)) || bool_decide (id ∈ observed)
      then Err (permanent (str "availability returned an unknown or duplicate content ID"))
      else observe unique ids (id :: observed)
  end.
Fixpoint observe_available (unique : list ContentId.t) (available : list ContentDescriptor.t)
    (observed : list ContentId.t) : result TransportError (list ContentId.t) :=
  match available with
  | [] => Ok observed
  | descriptor :: available =>
      check map_err (fun e => permanent (str "invalid available descriptor: " ++ descriptor_error_text e))
        (validate_byte_length (ContentDescriptor.byte_length descriptor));
      let? observed := observe unique [ContentDescriptor.content_id descriptor] observed in
      observe_available unique available observed
  end.

Definition node_content_availability (peer : PeerConfig) (content_ids : list ContentId.t) : Http BlobAvailability :=
  if (length content_ids =? 0)%nat || (256 <? length content_ids)%nat
  then failed (permanent (str "availability requires 1-256 content IDs"))
  else if negb (bool_decide (NoDup content_ids))
  then failed (permanent (str "availability content IDs must be unique"))
  else
    let+ url := given (node_url (endpoint peer) (str "api/blobs/availability")) in
    let+ response := perform (mkRequest Method.Post url (authorize peer) (JsonAvailability content_ids)) in
    if negb (is_success (status response)) then failed (http_failure (status response))
    else
      let+ (available, missing) := given (json decode_availability (str "invalid availability: ") response) in
      let+ observed := given (observe_available content_ids available []) in
      let+ observed := given (observe content_ids missing observed) in
      if negb (length observed =? length content_ids)%nat
      then failed (permanent (str "availability omitted a requested content ID"))
      else answer (mkAvailability available missing).

Definition metadata_pair (key value : list Z) : list Z := key ++ str " " ++ base64_standard value.
Fixpoint join_comma (values : list (list Z)) : list Z :=
  match values with
  | [] => []
  | [value] => value
  | value :: values => value ++ str "," ++ join_comma values
  end.
Definition upload_metadata (resource : ResourceRef.t) : list Z :=
  join_comma
    ([metadata_pair (str "contentId") (ContentId.display (ResourceRef.content_id resource));
      metadata_pair (str "mediaType") (ResourceRef.media_type resource)]
     ++ match ResourceRef.original_name resource with
        | Some name => [metadata_pair (str "filename") name]
        | None => []
        end).

Definition tus_resumable : list Z * list Z := (str "tus-resumable", str "1.0.0").
Definition upload_result (url : HttpUrl) (offset length : Z) : UploadChunkResult HttpUrl :=
  mkUploadResult _ (mkUpload _ url offset length) (offset =? length).

Definition node_create_content_upload (peer : PeerConfig) (resource : ResourceRef.t) : Http (UploadChunkResult HttpUrl) :=
  let byte_length := ResourceRef.byte_length resource in
  let+ base := given (node_url (endpoint peer) (str "api/uploads")) in
  let+ response := perform (mkRequest Method.Post base
    (authorize peer ++ [tus_resumable; (str "upload-length", decimal byte_length);
                        (str "upload-metadata", upload_metadata resource)]) Empty) in
  if negb (status response =? 201) then failed (http_failure (status response))
  else
    let+ location := given (ok_or (header (str "location") response) (permanent (str "upload response omitted Location"))) in
    let+ url := given (map_err (fun e => permanent (str "invalid upload location: " ++ e)) (url_join base location)) in
    given (require_upload_url base url) ;+
    let+ offset := given (required_u64_header response (str "upload-offset")) in
    if byte_length <? offset then failed (permanent (str "upload offset exceeds declared length"))
    else answer (upload_result url offset byte_length).

Definition node_content_upload_status (peer : PeerConfig) (upload_url : HttpUrl) : Http (UploadChunkResult HttpUrl) :=
  let+ base := given (node_url (endpoint peer) (str "api/uploads")) in
  given (require_upload_url base upload_url) ;+
  let+ response := perform (mkRequest Method.Head upload_url (authorize peer ++ [tus_resumable]) Empty) in
  if negb (is_success (status response)) then failed (http_failure (status response))
  else
    let+ offset := given (required_u64_header response (str "upload-offset")) in
    let+ length := given (required_u64_header response (str "upload-length")) in
    if length <? offset then failed (permanent (str "upload status offset exceeds length"))
    else answer (upload_result upload_url offset length).

Definition chunk_size_error : TransportError := permanent (str "content chunk size must be between 1 and 4 MiB").

(** The chunk is read from the blob of the descriptor, which is verified first. *)
Definition read_exact (content_id : ContentId.t) (offset length : Z) : F (list Z) :=
  io ;!
  let! s := store in
  match (inode ← names s !! BlobPath content_id; inodes s !! inode) with
  | None => fails (ClientContentError.Io IoKind.NotFound)
  | Some file =>
      io ;! io ;!
      let bytes := firstn (Z.to_nat length) (skipn (Z.to_nat offset) (file_bytes file)) in
      if Z.of_nat (Datatypes.length bytes) =? length then pure bytes
      else fails (ClientContentError.Io IoKind.Other)
  end.
Definition upload_bytes (descriptor : ContentDescriptor.t) (offset length : Z) (content : ContentStore) :
    result TransportError (list Z) * ContentStore :=
  match blob descriptor content with
  | (Err e, content) => (Err (content_error e), content)
  | (Ok None, content) => (Err (local_content_unavailable (str "local content is missing")), content)
  | (Ok (Some _), content) =>
      let (r, content) := read_exact (ContentDescriptor.content_id descriptor) offset length content in
      (map_err (fun e => retryable (content_error_text e)) r, content)
  end.

Definition patch_upload (peer : PeerConfig) (descriptor : ContentDescriptor.t) (upload : RemoteUpload HttpUrl)
    (bytes : list Z) : Http (UploadChunkResult HttpUrl) :=
  let+ base := given (node_url (endpoint peer) (str "api/uploads")) in
  given (require_upload_url base (upload_url upload)) ;+
  let+ response := perform (mkRequest Method.Patch (upload_url upload)
    (authorize peer ++ [tus_resumable; (str "content-type", str "application/offset+octet-stream");
                        (str "upload-offset", decimal (upload_offset upload));
                        (str "upload-checksum", str "sha256 " ++ base64_standard (sha256 bytes))])
    (RawBytes bytes)) in
  if negb (status response =? 204) then failed (http_failure (status response))
  else
    let+ offset := given (required_u64_header response (str "upload-offset")) in
    if (offset <=? upload_offset upload) || (upload_length upload <? offset)
    then failed (permanent (str "upload PATCH returned an invalid offset"))
    else answer (mkUploadResult _ (mkUpload _ (upload_url upload) offset (upload_length upload))
                 (offset =? ContentDescriptor.byte_length descriptor)).

Definition node_upload_content_chunk (peer : PeerConfig) (descriptor : ContentDescriptor.t)
    (upload : RemoteUpload HttpUrl) (maximum_chunk_bytes : Z) :
    ContentStore * Net -> result TransportError (UploadChunkResult HttpUrl) * (ContentStore * Net) :=
  fun '(content, net) =>
    if (maximum_chunk_bytes =? 0) || (MAX_DOWNLOAD_CHUNK_BYTES <? maximum_chunk_bytes)
    then (Err chunk_size_error, (content, net))
    else if negb (upload_length upload =? ContentDescriptor.byte_length descriptor)
            || (upload_length upload <? upload_offset upload)
    then (Err (permanent (str "upload state does not match the local descriptor")), (content, net))
    else if upload_offset upload =? upload_length upload
    then (Ok (mkUploadResult _ upload true), (content, net))
    else
      let length := Z.min (upload_length upload - upload_offset upload) maximum_chunk_bytes in
      let (bytes, content) := upload_bytes descriptor (upload_offset upload) length content in
      match bytes with
      | Err e => (Err e, (content, net))
      | Ok bytes => let (r, net) := patch_upload peer descriptor upload bytes net in (r, (content, net))
      end.

(** The bytes of a range: no more than expected, and all of them. *)
Fixpoint read_chunks (expected : Z) (chunks : list (result (list Z) (list Z))) (bytes : list Z) :
    result TransportError (list Z) :=
  match chunks with
  | [] =>
      if negb (Z.of_nat (length bytes) =? expected)
      then Err (retryable (str "blob response ended before the requested range")) else Ok bytes
  | Err e :: _ => Err (retryable e)
  | Ok chunk :: chunks =>
      if expected <? Z.of_nat (length bytes + length chunk)
      then Err (permanent (str "blob response exceeded the requested range"))
      else read_chunks expected chunks (bytes ++ chunk)
  end.

Definition fetch_range (peer : PeerConfig) (descriptor : ContentDescriptor.t) (first last : Z) : Http (list Z) :=
  let+ url := given (node_url (endpoint peer) (str "api/blobs/" ++ ContentId.display (ContentDescriptor.content_id descriptor))) in
  let+ response := perform (mkRequest Method.Get url
    (authorize peer ++ [(str "range", str "bytes=" ++ decimal first ++ str "-" ++ decimal last)]) Empty) in
  if negb (status response =? 206) && negb ((first =? 0) && (status response =? 200))
  then failed (http_failure (status response))
  else given (read_chunks (last - first + 1) (chunks response) []).

Definition node_download_content_chunk (peer : PeerConfig) (descriptor : ContentDescriptor.t) (maximum_chunk_bytes : Z) :
    ContentStore * Net -> result TransportError AppendResult * (ContentStore * Net) :=
  fun '(content, net) =>
    if (maximum_chunk_bytes =? 0) || (MAX_DOWNLOAD_CHUNK_BYTES <? maximum_chunk_bytes)
    then (Err chunk_size_error, (content, net))
    else
      let (offset, content) := partial_offset descriptor content in
      match offset with
      | Err e => (Err (content_error e), (content, net))
      | Ok offset =>
          if offset =? ContentDescriptor.byte_length descriptor then (Ok (mkAppendResult offset true), (content, net))
          else
            let last := Z.min (offset + maximum_chunk_bytes) (ContentDescriptor.byte_length descriptor) - 1 in
            let (bytes, net) := fetch_range peer descriptor offset last net in
            match bytes with
            | Err e => (Err e, (content, net))
            | Ok bytes =>
                let (r, content) := append_download_chunk descriptor offset bytes content in
                (map_err content_error r, (content, net))
            end
      end.

(** ** The environment of a worker that synchronizes over HTTP *)
Definition node_environment : SyncEnvironment := {|
  World := Net;
  Url := HttpUrl;
  parse_url := url_parse;
  url_text := url_as_str;
  now_unix_ms := system_time;
  new_lease_id := random_lease;
  transport_push := push;
  transport_pull := pull;
  content_availability := node_content_availability;
  create_content_upload := node_create_content_upload;
  content_upload_status := node_content_upload_status;
  upload_content_chunk := node_upload_content_chunk;
  download_content_chunk := node_download_content_chunk
|}.
End NodeTransport.
