(* ===== verification/NodeTransportTheory.v ===== *)
(** * The HTTP transport: the theorems

    Where requests go and what they carry, that an upload sends the content it names, and
    that repeated downloads complete a blob. *)
From S2P Require Import Prelude Bytes Floats Crypto Content Cbor Trust DataModel CanonicalBody Envelope.
From S2P Require Import Authorization Peer Application Database PairingStore Repository RepositoryLog.
From S2P Require Import ClientDatabase ClientStore ClientQueues ClientQueries ClientContent ClientContentTheory.
From S2P Require Import SyncWorker NodeTransport.

(** ** Numbers as text *)
Lemma digits_value_snoc digits d : digits_value (digits ++ [d]) = digits_value digits * 10 + (d - 48).
Proof. unfold digits_value. by rewrite fold_left_app. Qed.

Lemma decimal_digits_app fuel : forall n text, decimal_digits fuel n text = decimal_digits fuel n [] ++ text.
Proof.
  induction fuel as [|fuel IH]; intros n text; cbn [decimal_digits]; [done|].
  destruct (n <? 10); [done|]. rewrite IH, (IH _ [_]), <- app_assoc. done.
Qed.

Lemma decimal_digits_spec fuel : forall n, 0 <= n < 10 ^ Z.of_nat fuel -> (0 < fuel)%nat ->
  digits_value (decimal_digits fuel n []) = n
  /\ forallb is_ascii_digit (decimal_digits fuel n []) = true
  /\ exists d rest, decimal_digits fuel n [] = d :: rest /\ is_ascii_digit d = true.
Proof.
  assert (Hdigit : forall n, is_ascii_digit (48 + n mod 10) = true).
  { intros n. unfold is_ascii_digit. pose proof (Z.mod_pos_bound n 10). apply andb_true_iff.
    split; apply Z.leb_le; lia. }
  induction fuel as [|fuel IH]; intros n Hn Hfuel; [lia|]. cbn [decimal_digits].
  destruct (Z.ltb_spec n 10) as [Hlt|Hge].
  - pose proof (Z.mod_small n 10) as Em. cbn [forallb]. rewrite Hdigit. unfold digits_value. cbn.
    split; [lia|]. split; [done|]. by eexists _, _.
  - rewrite decimal_digits_app. destruct (IH (n / 10)) as (Hv & Hd & d & rest & E & Hd0).
    + split; [apply Z.div_pos; lia|]. apply Z.div_lt_upper_bound; [lia|].
      rewrite Nat2Z.inj_succ, Z.pow_succ_r in Hn by lia. lia.
    + destruct fuel; [|lia]. cbn in Hn. lia.
    + rewrite digits_value_snoc, Hv, forallb_app, Hd, E. cbn. rewrite Hdigit. pose proof (Z.div_mod n 10).
      split; [lia|]. split; [done|]. by eexists _, _.
Qed.

(** Every [u64] reads back. *)
Theorem parse_decimal n : 0 <= n < 2 ^ 64 -> parse_u64 (decimal n) = Some n.
Proof.
  intros Hn. destruct (decimal_digits_spec 20 n) as (Hv & Hd & d & rest & E & Hd0); [cbn; lia|lia|].
  unfold parse_u64, decimal. rewrite E in *. assert (Hplus : d <> 43) by (intros ->; done).
  replace (match d :: rest with 43 :: rest0 => rest0 | _ => d :: rest end) with (d :: rest)
    by (destruct d as [|p|p]; try done; repeat (destruct p; try done)).
  rewrite Hd, Hv. by rewrite (proj2 (Z.ltb_lt n _)) by lia.
Qed.

Section NodeTransportTheory.
Context `{Sha256} `{Ed25519} `{HalfFloat} `{Base64} `{!JsonNumber} `{!HttpClient}.
Implicit Types (net : Net) (content : ContentStore).

(** What the accessors of the url crate say of the two ways a URL is built upon. *)
Record url_laws : Prop := {
  set_path_scheme url path : url_scheme (url_set_path url path) = url_scheme url;
  set_path_host url path : url_host (url_set_path url path) = url_host url;
  set_path_port url path : url_port (url_set_path url path) = url_port url;
  set_path_username url path : url_username (url_set_path url path) = url_username url;
  set_path_password url path : url_password (url_set_path url path) = url_password url;
  known_default url url' : url_scheme url = url_scheme url' -> url_port url = url_port url' ->
    url_port_or_known_default url = url_port_or_known_default url';
  append_scheme url pairs : url_scheme (url_append_pairs url pairs) = url_scheme url;
  append_host url pairs : url_host (url_append_pairs url pairs) = url_host url;
  append_port url pairs : url_port (url_append_pairs url pairs) = url_port url;
  append_username url pairs : url_username (url_append_pairs url pairs) = url_username url;
  append_password url pairs : url_password (url_append_pairs url pairs) = url_password url
}.

(** What reqwest documents of the requests with which it follows redirections: the
    [authorization] header is kept for the same host and port, and removed for another. *)
Definition redirects_drop_credentials : Prop := forall request response request' value,
  redirected request response = Some request' -> (str "authorization", value) ∈ request_headers request' ->
  (str "authorization", value) ∈ request_headers request
  /\ url_host (request_url request') = url_host (request_url request)
  /\ url_port_or_known_default (request_url request') = url_port_or_known_default (request_url request).

(** ** What is sent *)

(** The requests on the wire when [request] is sent: it, and those that follow the
    redirections it is answered. *)
Inductive wire (request : HttpRequest HttpUrl) (start : Net) : nat -> HttpRequest HttpUrl -> Net -> Prop :=
| wire_first : wire request start 0 request start
| wire_redirected n sent net response next :
    wire request start n sent net -> fst (exchange sent net) = Ok response -> redirected sent response = Some next ->
    wire request start (S n) next (snd (exchange sent net)).

Lemma wire_follow request start redirects : forall n sent net,
  wire request start n sent net ->
  exists n' last net', wire request start n' last net' /\ (n' <= n + redirects)%nat
    /\ snd (follow redirects sent net) = snd (exchange last net').
Proof.
  induction redirects as [|redirects IH]; intros n sent net Hw; cbn [follow].
  - exists n, sent, net. split; [done|]. split; [lia|]. destruct (exchange sent net) as [[response|e] net']; [|done].
    by destruct (redirected sent response).
  - destruct (exchange sent net) as [[response|e] net'] eqn:Ex;
      [|exists n, sent, net; split; [done|]; split; [lia|by rewrite Ex]].
    destruct (redirected sent response) as [next|] eqn:Er;
      [|exists n, sent, net; split; [done|]; split; [lia|by rewrite Ex]].
    destruct (IH (S n) next net') as (n' & last & net2 & Hw' & Hn & E).
    { replace net' with (snd (exchange sent net)) by by rewrite Ex. apply (wire_redirected _ _ n sent net response); [done| |done].
      by rewrite Ex. }
    exists n', last, net2. split; [done|]. split; [lia|done].
Qed.

(** The network goes on by requests that satisfy [allowed], each sent with the
    redirections it meets, and by drawn nonces. *)
Inductive sends (allowed : HttpRequest HttpUrl -> Prop) : Net -> Net -> Prop :=
| sends_request request net : allowed request -> sends allowed net (snd (send request net))
| sends_nonce net : sends allowed net (snd (random_nonce net)).

Definition stays {A} (allowed : HttpRequest HttpUrl -> Prop) (m : Http A) : Prop :=
  forall net, rtc (sends allowed) net (snd (m net)).

Section Stays.
Variable allowed : HttpRequest HttpUrl -> Prop.

Lemma stays_next {A B} (m : Http A) (k : A -> Http B) : stays allowed m -> (forall a, stays allowed (k a)) -> stays allowed (next m k).
Proof.
  intros Hm Hk net. unfold next. pose proof (Hm net) as Hs. destruct (m net) as [[a|e] net']; [|done]. cbn in Hs.
  etrans; [exact Hs|apply Hk].
Qed.
Lemma stays_given {A B} (r : result TransportError A) (k : A -> Http B) :
  (forall a, r = Ok a -> stays allowed (k a)) -> stays allowed (next (given r) k).
Proof. intros Hk net. unfold next, given. destruct r as [a|e]; [by apply Hk|apply rtc_refl]. Qed.
Lemma stays_done {A} (r : result TransportError A) : stays allowed (given r).
Proof. intros net. apply rtc_refl. Qed.
Lemma stays_answer {A} (a : A) : stays allowed (answer a).
Proof. intros net. apply rtc_refl. Qed.
Lemma stays_failed {A} e : stays allowed (failed (A := A) e).
Proof. intros net. apply rtc_refl. Qed.
Lemma stays_perform request : allowed request -> stays allowed (perform request).
Proof.
  intros Ha net. unfold perform. pose proof (sends_request allowed request net Ha) as Hs.
  destruct (send request net) as [r net']. by apply rtc_once.
Qed.
End Stays.
Hint Resolve stays_done stays_answer stays_failed : stays.

Ltac stay :=
  repeat first
    [ solve [auto with stays]
    | apply stays_given; intros ? ?
    | apply stays_next; [|intros ?]
    | case_match ].

(** ** Origins and credentials *)
Variable transport : NodeHttpTransport.

(** The endpoint's own origin, without credentials in the URL. *)
Definition at_endpoint (endpoint : list Z) (url : HttpUrl) : Prop := exists base,
  url_parse endpoint = Ok base /\ (url_scheme base = str "http" \/ url_scheme base = str "https")
  /\ url_scheme url = url_scheme base /\ url_host url = url_host base /\ url_port url = url_port base
  /\ url_username url = [] /\ url_password url = None.

(** The only secret a request shows is the one configured for this peer. *)
Definition own_credential (peer : list Z) (credential : option (list Z)) (headers : list (list Z * list Z)) : Prop :=
  forall value, (str "authorization", value) ∈ headers ->
    (exists token, bearer_tokens transport !! peer = Some token /\ value = str "Bearer " ++ token)
    \/ (exists secret, bearer_tokens transport !! peer = None /\ credential = Some secret
        /\ value = str "Fractonica-Peer " ++ secret).

Definition for_peer (peer endpoint : list Z) (credential : option (list Z)) (request : HttpRequest HttpUrl) : Prop :=
  at_endpoint endpoint (request_url request) /\ own_credential peer credential (request_headers request).

(** The calls that talk to the peer with this identity, endpoint and credential. *)
Inductive talks (peer endpoint : list Z) (credential : option (list Z)) : Net -> Net -> Prop :=
| talks_push config o net : peer_id config = peer -> ClientDatabase.endpoint config = endpoint ->
    peer_transport_credential config = credential ->
    talks peer endpoint credential net (snd (push transport config o net))
| talks_pull target limit now lifetime net : target_peer_id target = peer -> target_endpoint target = endpoint ->
    talks peer endpoint credential net (snd (pull transport target limit now lifetime net))
| talks_availability config ids net : peer_id config = peer -> ClientDatabase.endpoint config = endpoint ->
    peer_transport_credential config = credential ->
    talks peer endpoint credential net (snd (node_content_availability transport config ids net))
| talks_create config resource net : peer_id config = peer -> ClientDatabase.endpoint config = endpoint ->
    peer_transport_credential config = credential ->
    talks peer endpoint credential net (snd (node_create_content_upload transport config resource net))
| talks_status config url net : peer_id config = peer -> ClientDatabase.endpoint config = endpoint ->
    peer_transport_credential config = credential ->
    talks peer endpoint credential net (snd (node_content_upload_status transport config url net))
| talks_upload config d upload size content net : peer_id config = peer -> ClientDatabase.endpoint config = endpoint ->
    peer_transport_credential config = credential ->
    talks peer endpoint credential net (snd (snd (node_upload_content_chunk transport config d upload size (content, net))))
| talks_download config d size content net : peer_id config = peer -> ClientDatabase.endpoint config = endpoint ->
    peer_transport_credential config = credential ->
    talks peer endpoint credential net (snd (snd (node_download_content_chunk transport config d size (content, net)))).

Section Origins.
Hypothesis Hurl : url_laws.

Lemma node_url_at endpoint path url : node_url endpoint path = Ok url -> at_endpoint endpoint url.
Proof.
  unfold node_url. destruct (url_parse endpoint) as [base|] eqn:Ep; [|done]. cbn [map_err].
  destruct (_ || _) eqn:E; [done|]. intros [= <-].
  apply orb_false_iff in E as [E _]. apply orb_false_iff in E as [E _]. apply orb_false_iff in E as [E Epass].
  apply orb_false_iff in E as [E Euser]. apply negb_false_iff, orb_true_iff in E.
  apply negb_false_iff, list_eqb_eq in Euser. exists base.
  rewrite (set_path_scheme Hurl), (set_path_host Hurl), (set_path_port Hurl), (set_path_username Hurl), (set_path_password Hurl).
  split; [done|]. split; [by destruct E as [E%list_eqb_eq|E%list_eqb_eq]; [left|right]|].
  repeat split; [done|]. by destruct (url_password base).
Qed.
Lemma append_pairs_at endpoint url pairs : at_endpoint endpoint url -> at_endpoint endpoint (url_append_pairs url pairs).
Proof.
  intros (base & Hb). exists base.
  by rewrite (append_scheme Hurl), (append_host Hurl), (append_port Hurl), (append_username Hurl), (append_password Hurl).
Qed.
Lemma upload_url_at endpoint base upload :
  at_endpoint endpoint base -> require_upload_url base upload = Ok tt -> at_endpoint endpoint upload.
Proof.
  intros (origin & Hp & Hs & Es & Eh & Eport & _ & _). unfold require_upload_url. destruct (_ || _) eqn:E; [done|]. intros _.
  repeat (apply orb_false_iff in E as [E ?]). apply negb_false_iff in E. unfold same_origin in E.
  apply andb_true_iff in E as [E Ep%bool_decide_eq_true]. apply andb_true_iff in E as [E%list_eqb_eq Eo%bool_decide_eq_true].
  exists origin. split; [done|]. split; [done|]. split; [congruence|]. split; [congruence|]. split; [congruence|].
  repeat match goal with Hx : negb _ = false |- _ => apply negb_false_iff in Hx end.
  split; [by apply list_eqb_eq|]. by destruct (url_password upload).
Qed.

Lemma authorize_own config more :
  (forall value, (str "authorization", value) ∉ more) ->
  own_credential (peer_id config) (peer_transport_credential config) (authorize transport config ++ more).
Proof.
  intros Hmore value [Hin|Hin]%elem_of_app; [|by destruct (Hmore value)]. unfold authorize in Hin.
  destruct (bearer_tokens transport !! peer_id config) as [token|] eqn:Et.
  - apply list_elem_of_singleton in Hin. injection Hin as ->. left. by exists token.
  - destruct (peer_transport_credential config) as [secret|]; [|by apply not_elem_of_nil in Hin].
    apply list_elem_of_singleton in Hin. injection Hin as ->. right. by exists secret.
Qed.
Lemma authorize_alone config :
  own_credential (peer_id config) (peer_transport_credential config) (authorize transport config).
Proof. rewrite <- (app_nil_r (authorize transport config)). apply authorize_own. by intros value Hin%not_elem_of_nil. Qed.

(** Headers that are no credential. *)
Ltac other_headers :=
  intros value Hin; repeat (apply elem_of_cons in Hin as [Hin|Hin]; [discriminate Hin|]); by apply not_elem_of_nil in Hin.
Ltac for_own_peer :=
  apply stays_perform; split; cbn [request_url request_headers];
    [first [by eapply node_url_at
           |eapply upload_url_at; [eapply node_url_at; eassumption|]; match goal with Hx : require_upload_url _ _ = Ok ?u |- _ => by destruct u end]
    |first [apply authorize_alone|apply authorize_own; other_headers]].

Notation peer_request config :=
  (for_peer (peer_id config) (ClientDatabase.endpoint config) (peer_transport_credential config)).

Lemma stays_push config o : stays (peer_request config) (push transport config o).
Proof. unfold push. stay. for_own_peer. Qed.
Lemma stays_pull target limit now lifetime credential :
  stays (for_peer (target_peer_id target) (target_endpoint target) credential) (pull transport target limit now lifetime).
Proof.
  unfold pull. stay.
  - apply stays_perform. split; cbn [request_url request_headers]; [by eapply append_pairs_at, node_url_at|].
    intros value Hin%list_elem_of_singleton. injection Hin as ->. left. eexists. split; [|done].
    by destruct (bearer_tokens transport !! _); simplify_eq/=.
  - intros net. pose proof (sends_nonce (for_peer (target_peer_id target) (target_endpoint target) credential) net) as Hn.
    destruct (random_nonce net) as [r net']. by apply rtc_once.
  - apply stays_perform. split; cbn [request_url request_headers]; [by eapply node_url_at|].
    by intros value Hin%not_elem_of_nil.
Qed.
Lemma stays_availability config ids : stays (peer_request config) (node_content_availability transport config ids).
Proof. unfold node_content_availability. stay. for_own_peer. Qed.
Lemma stays_create config resource : stays (peer_request config) (node_create_content_upload transport config resource).
Proof. unfold node_create_content_upload. stay. for_own_peer. Qed.
Lemma stays_status config url : stays (peer_request config) (node_content_upload_status transport config url).
Proof. unfold node_content_upload_status. stay. for_own_peer. Qed.
Lemma stays_patch config d upload bytes : stays (peer_request config) (patch_upload transport config d upload bytes).
Proof. unfold patch_upload. stay. for_own_peer. Qed.
Lemma stays_fetch config d first last : stays (peer_request config) (fetch_range transport config d first last).
Proof. unfold fetch_range. stay. for_own_peer. Qed.
End Origins.

(** ** Uploads *)

(** The bytes are a part of the content that the descriptor names. *)
Definition part_of (d : ContentDescriptor.t) (offset : Z) (bytes : list Z) : Prop := exists whole,
  sha256 whole = ContentDescriptor.content_id d /\ Z.of_nat (length whole) = ContentDescriptor.byte_length d
  /\ bytes = firstn (length bytes) (skipn (Z.to_nat offset) whole).

Lemma read_exact_Ok id offset length content bytes content' :
  0 <= length -> read_exact id offset length content = (Ok bytes, content') ->
  exists whole, path_bytes content (BlobPath id) = Some whole
    /\ bytes = firstn (Datatypes.length bytes) (skipn (Z.to_nat offset) whole) /\ Z.of_nat (Datatypes.length bytes) = length.
Proof.
  intros Hlen. unfold read_exact. intros E. apply andthen_Ok in E as ([] & s1 & E1 & E2).
  pose proof (reads_io content) as Hs1. rewrite E1 in Hs1. cbn in Hs1.
  apply andthen_Ok in E2 as (s2 & s2' & [= <- <-] & E2).
  destruct (names s1 !! BlobPath id) as [i|] eqn:En; cbn in E2; [|done].
  destruct (inodes s1 !! i) as [f|] eqn:Ef; cbn in E2; [|done].
  apply andthen_Ok in E2 as ([] & s3 & _ & E2). apply andthen_Ok in E2 as ([] & s4 & _ & E2).
  destruct (Z.eqb_spec (Z.of_nat (Datatypes.length (firstn (Z.to_nat length) (skipn (Z.to_nat offset) (file_bytes f))))) length)
    as [El|]; [|done]. injection E2 as <- <-. exists (file_bytes f). split; [|split; [|done]].
  - rewrite <- (path_bytes_same _ _ _ Hs1). apply path_bytes_Some. by exists i, f.
  - set (part := firstn _ _) in *. replace (Datatypes.length part) with (Z.to_nat length) by lia. done.
Qed.

Lemma upload_bytes_Ok d offset length content bytes content' :
  content_ok content -> 0 <= length -> upload_bytes d offset length content = (Ok bytes, content') -> part_of d offset bytes.
Proof.
  intros Hok Hlen. unfold upload_bytes. destruct (blob d content) as [[[d'|]|e] s1] eqn:Eb; [|done..].
  destruct (blob_Ok d content _ _ Hok Eb) as [Hs (-> & Hheld)].
  destruct (read_exact _ _ _ _) as [r s2] eqn:Er. destruct r as [read|]; [|done]. cbn. intros [= <- _].
  destruct (read_exact_Ok _ _ _ _ _ _ Hlen Er) as (whole & Hw & Hb & _). rewrite (path_bytes_same _ _ _ Hs) in Hw.
  destruct Hheld as (whole' & Hw' & Hid & Hl). rewrite Hw in Hw'. injection Hw' as <-. by exists whole.
Qed.

Lemma talks_to_peer peer endpoint credential net net' :
  url_laws -> talks peer endpoint credential net net' -> rtc (sends (for_peer peer endpoint credential)) net net'.
Proof.
  intros Hurl Ht. destruct Ht; subst.
  - by apply stays_push.
  - by apply stays_pull.
  - by apply stays_availability.
  - by apply stays_create.
  - by apply stays_status.
  - unfold node_upload_content_chunk. repeat (destruct (_ : bool); [apply rtc_refl|]).
    destruct (upload_bytes _ _ _ _) as [[bytes|e] content']; [|apply rtc_refl].
    pose proof (stays_patch Hurl config d upload bytes net) as Hs. by destruct (patch_upload _ _ _ _ _ net).
  - unfold node_download_content_chunk. destruct (_ : bool); [apply rtc_refl|].
    destruct (partial_offset d content) as [[offset|e] content']; [|apply rtc_refl]. destruct (_ : bool); [apply rtc_refl|].
    match goal with |- context [fetch_range ?t ?c ?d ?a ?b ?n] => pose proof (stays_fetch Hurl c d a b n) as Hs;
      destruct (fetch_range t c d a b n) as [[bytes|e] net'] end; [|done].
    by destruct (append_download_chunk _ _ _ _).
Qed.

(** Where a secret can go: to the host and port of the endpoint. *)
Definition at_host (endpoint : list Z) (url : HttpUrl) : Prop := exists base,
  url_parse endpoint = Ok base /\ url_host url = url_host base
  /\ url_port_or_known_default url = url_port_or_known_default base.

Lemma wire_credentials peer endpoint credential request start n sent net value :
  url_laws -> redirects_drop_credentials -> for_peer peer endpoint credential request ->
  wire request start n sent net -> (str "authorization", value) ∈ request_headers sent ->
  (str "authorization", value) ∈ request_headers request /\ at_host endpoint (request_url sent).
Proof.
  intros Hurl Hdrop [(base & Hp & _ & Es & Eh & Ep & _) _] Hw. revert value.
  induction Hw as [|n sent net response next _ IH _ Hr]; intros value Hv.
  - split; [done|]. exists base. split; [done|]. split; [done|]. by apply (known_default Hurl).
  - destruct (Hdrop _ _ _ _ Hr Hv) as (Hin & Eh' & Ep'). destruct (IH value Hin) as [Hown (base' & Hp' & Eb & Ek)].
    split; [done|]. exists base'. split; [done|]. split; congruence.
Qed.

(** C23: the requests the transport makes about a peer go to the scheme, host and port of its
    endpoint, whatever upload locations the peer answers, carry no credentials in the URL, and
    show no secret but the one configured for this peer.  The client follows redirections, up
    to ten for a request and to any origin: a request on the wire goes elsewhere only when it
    follows one, and then it shows no secret, unless to the endpoint's own host and port. *)
Theorem requests_stay_at_peer peer endpoint credential net net' :
  url_laws -> redirects_drop_credentials -> talks peer endpoint credential net net' ->
  rtc (sends (for_peer peer endpoint credential)) net net'
  /\ forall request start, for_peer peer endpoint credential request ->
     (exists n last before, wire request start n last before /\ (n <= MAX_REDIRECTS)%nat
        /\ snd (send request start) = snd (exchange last before))
     /\ forall n sent before, wire request start n sent before ->
        (n = 0%nat -> at_endpoint endpoint (request_url sent))
        /\ own_credential peer credential (request_headers sent)
        /\ forall value, (str "authorization", value) ∈ request_headers sent -> at_host endpoint (request_url sent).
Proof.
  intros Hurl Hdrop Ht. split; [by apply talks_to_peer|]. intros request start Hr. split.
  - destruct (wire_follow request start MAX_REDIRECTS 0 request start (wire_first _ _)) as (n & last & before & Hw & Hn & E).
    by exists n, last, before.
  - intros n sent before Hw. split; [|split].
    + intros ->. inversion Hw; subst. apply Hr.
    + intros value Hv. destruct (wire_credentials _ _ _ _ _ _ _ _ value Hurl Hdrop Hr Hw Hv) as [Hin _].
      by apply Hr.
    + intros value Hv. by destruct (wire_credentials _ _ _ _ _ _ _ _ value Hurl Hdrop Hr Hw Hv).
Qed.

Definition sends_part (d : ContentDescriptor.t) (offset : Z) (request : HttpRequest HttpUrl) : Prop :=
  forall bytes, request_body request = RawBytes bytes ->
    part_of d offset bytes
    /\ (str "upload-offset", decimal offset) ∈ request_headers request
    /\ (str "upload-checksum", str "sha256 " ++ base64_standard (sha256 bytes)) ∈ request_headers request.

Lemma patch_sends config d upload bytes :
  part_of d (upload_offset upload) bytes ->
  stays (sends_part d (upload_offset upload)) (patch_upload transport config d upload bytes).
Proof.
  intros Hpart. unfold patch_upload. stay. apply stays_perform. intros bytes' [= <-]. split; [done|]. cbn [request_headers].
  split; apply elem_of_app; right; do 2 apply list_elem_of_further; [apply list_elem_of_here|].
  apply list_elem_of_further, list_elem_of_here.
Qed.

Lemma next_Ok {A B} (m : Http A) (k : A -> Http B) net b :
  fst (next m k net) = Ok b -> exists a net', m net = (Ok a, net') /\ fst (k a net') = Ok b.
Proof. unfold next. destruct (m net) as [[a|e] net'] eqn:E; [|done]. intros Hb. by exists a, net'. Qed.

Lemma patch_advances config d upload bytes net result :
  fst (patch_upload transport config d upload bytes net) = Ok result ->
  upload_offset upload < upload_offset (chunk_upload result) <= upload_length upload
  /\ chunk_complete result = (upload_offset (chunk_upload result) =? ContentDescriptor.byte_length d).
Proof.
  unfold patch_upload. intros (base & net1 & _ & E)%next_Ok. apply next_Ok in E as ([] & net2 & _ & E).
  apply next_Ok in E as (response & net3 & _ & E). destruct (negb _); [done|].
  apply next_Ok in E as (offset & net4 & _ & E). destruct (_ || _) eqn:Eb; [done|]. injection E as <-.
  apply orb_false_iff in Eb as [Eb El]. cbn. bool_prop. split; [lia|done].
Qed.

(** C24: an upload sends a part of the content its descriptor names, from the offset it
    states, with the checksum of that part, and an upload that goes on has moved forward. *)
Theorem uploads_send_the_named_content config d upload size content net :
  content_ok content -> 0 <= upload_offset upload -> 0 <= size ->
  let (r, state) := node_upload_content_chunk transport config d upload size (content, net) in
  rtc (sends (sends_part d (upload_offset upload))) net (snd state)
  /\ forall result, r = Ok result ->
     upload_offset upload <= upload_offset (chunk_upload result) <= ContentDescriptor.byte_length d
     /\ (chunk_complete result = true <-> upload_offset (chunk_upload result) = ContentDescriptor.byte_length d)
     /\ (chunk_complete result = false -> upload_offset upload < upload_offset (chunk_upload result)).
Proof.
  intros Hok Hoffset Hsize. unfold node_upload_content_chunk. destruct (_ || _); [by split; [apply rtc_refl|]|].
  destruct (_ || _) eqn:Elen; [by split; [apply rtc_refl|]|]. apply orb_false_iff in Elen as [Elen Eover].
  apply negb_false_iff, Z.eqb_eq in Elen. apply Z.ltb_ge in Eover. destruct (Z.eqb_spec (upload_offset upload) (upload_length upload)).
  { split; [apply rtc_refl|]. intros result [= <-]. cbn. split; [lia|]. split; [|done]. split; [lia|done]. }
  destruct (upload_bytes _ _ _ _) as [[bytes|e] content'] eqn:Eb; [|by split; [apply rtc_refl|]].
  apply upload_bytes_Ok in Eb; [|done|lia]. pose proof (patch_sends config d upload bytes Eb net) as Hs.
  pose proof (patch_advances config d upload bytes net) as Ha.
  destruct (patch_upload _ _ _ _ _ net) as [r net']. cbn in *. split; [done|]. intros result ->.
  destruct (Ha result eq_refl) as [Hrange ->]. rewrite Z.eqb_eq. split; [lia|]. split; [done|]. lia.
Qed.

(** ** Downloads *)

(** The peer serves the content: every range of it, in some chunks. *)
Definition serves (config : PeerConfig) (d : ContentDescriptor.t) (whole : list Z) : Prop :=
  exists url, node_url (endpoint config) (str "api/blobs/" ++ ContentId.display (ContentDescriptor.content_id d)) = Ok url
  /\ forall first last net, 0 <= first <= last -> last < Z.of_nat (length whole) ->
     exists headers parts net',
       send (mkRequest Method.Get url
         (authorize transport config ++ [(str "range", str "bytes=" ++ decimal first ++ str "-" ++ decimal last)]) Empty) net
       = (Ok (mkResponse 206 headers (List.map Ok parts)), net')
       /\ concat parts = firstn (Z.to_nat (last - first + 1)) (skipn (Z.to_nat first) whole).

Lemma read_chunks_all parts : forall bytes,
  read_chunks (Z.of_nat (length (bytes ++ concat parts))) (List.map Ok parts) bytes = Ok (bytes ++ concat parts).
Proof.
  induction parts as [|part parts IH]; intros bytes; cbn [List.map concat read_chunks].
  - rewrite app_nil_r. by rewrite Z.eqb_refl.
  - rewrite (proj2 (Z.ltb_ge _ _)) by (rewrite !length_app; lia). rewrite app_assoc. apply IH.
Qed.

Definition downloads (config : PeerConfig) (d : ContentDescriptor.t) (size : Z) (rounds : nat) (state : ContentStore * Net) :
    ContentStore * Net :=
  Nat.iter rounds (fun state => snd (node_download_content_chunk transport config d size state)) state.

Lemma download_round config d whole offset size content net :
  describes d whole -> serves config d whole -> downloading content d whole offset -> (offset < length whole)%nat ->
  0 < size <= MAX_DOWNLOAD_CHUNK_BYTES ->
  let next := Z.min (Z.of_nat offset + size) (Z.of_nat (length whole)) in
  exists content' net',
    node_download_content_chunk transport config d size (content, net)
    = (Ok (mkAppendResult next (next =? Z.of_nat (length whole))), (content', net'))
    /\ if next =? Z.of_nat (length whole)
       then path_bytes content' (BlobPath (ContentDescriptor.content_id d)) = Some whole
       else downloading content' d whole (Z.to_nat next).
Proof.
  intros Hd (url & Hurl & Hserves) Hdown Hlt Hsize next. pose proof Hd as [_ Hlen].
  unfold node_download_content_chunk. rewrite (proj2 (Z.eqb_neq size 0)), (proj2 (Z.ltb_ge _ size)) by lia. cbn [orb].
  rewrite (downloading_offset content d whole offset Hdown Hd). rewrite (proj2 (Z.eqb_neq _ _)) by lia.
  rewrite <- Hlen. fold next.
  destruct (Hserves (Z.of_nat offset) (next - 1) net) as (headers & parts & net' & Esend & Eparts); [lia..|].
  unfold fetch_range, NodeTransport.next, given, perform. rewrite Hurl, Esend. cbn [map_err status chunks].
  replace (next - 1 - Z.of_nat offset + 1) with (next - Z.of_nat offset) in * by lia.
  set (chunk := Z.to_nat (next - Z.of_nat offset)) in *. rewrite Nat2Z.id in Eparts.
  assert (Hchunk : length (concat parts) = chunk) by (rewrite Eparts, length_firstn, length_skipn; lia).
  change (206 =? 206) with true. cbn [negb andb].
  replace (next - Z.of_nat offset) with (Z.of_nat (length ([] ++ concat parts))) by (cbn; lia).
  rewrite read_chunks_all. cbn [app]. rewrite Eparts.
  destruct (append_none content d whole offset chunk Hdown Hd) as (content' & E & _ & Hafter); [lia|lia|lia|].
  rewrite E. cbn [map_err]. exists content', net'. replace (offset + chunk)%nat with (Z.to_nat next) in * by lia.
  assert (Eb : (Z.to_nat next =? length whole)%nat = (next =? Z.of_nat (length whole))).
  { apply eq_true_iff_eq. rewrite Nat.eqb_eq, Z.eqb_eq. lia. }
  rewrite Eb in *. rewrite Z2Nat.id by lia. done.
Qed.

Lemma downloads_complete config d whole size : describes d whole -> serves config d whole ->
  0 < size <= MAX_DOWNLOAD_CHUNK_BYTES ->
  forall rounds offset content net, downloading content d whole offset -> (offset < length whole)%nat ->
  Z.of_nat rounds = (Z.of_nat (length whole - offset) + size - 1) / size ->
  path_bytes (fst (downloads config d size rounds (content, net))) (BlobPath (ContentDescriptor.content_id d)) = Some whole.
Proof.
  intros Hd Hserves Hsize. induction rounds as [|rounds IH]; intros offset content net Hdown Hlt Hrounds.
  - assert (1 <= (Z.of_nat (length whole - offset) + size - 1) / size) by (apply Z.div_le_lower_bound; lia). lia.
  - unfold downloads. rewrite Nat.iter_succ_r.
    destruct (download_round config d whole offset size content net Hd Hserves Hdown Hlt Hsize) as (content' & net' & E & Hafter).
    rewrite E. cbn [snd]. destruct (Z.eqb_spec (Z.min (Z.of_nat offset + size) (Z.of_nat (length whole))) (Z.of_nat (length whole))) as [Hend|Hmore].
    + assert ((Z.of_nat (length whole - offset) + size - 1) / size = 1) as Hone.
      { symmetry. apply (Z.div_unique_pos _ _ _ (Z.of_nat (length whole - offset) - 1)); lia. }
      assert (rounds = 0%nat) as -> by lia. done.
    + assert (Z.of_nat offset + size < Z.of_nat (length whole)) by lia.
      apply (IH (Z.to_nat (Z.min (Z.of_nat offset + size) (Z.of_nat (length whole))))); [done|lia|].
      rewrite Z.min_l in * by lia. replace (Z.of_nat (length whole - Z.to_nat (Z.of_nat offset + size)) + size - 1)
        with (Z.of_nat (length whole - offset) + size - 1 + (-1) * size) by lia.
      rewrite Z.div_add by lia. lia.
Qed.

(** A partial file that holds the whole content counts as complete without a blob. *)
Lemma full_partial_round config d whole size content net :
  describes d whole -> downloading content d whole (length whole) -> 0 < size <= MAX_DOWNLOAD_CHUNK_BYTES ->
  node_download_content_chunk transport config d size (content, net)
  = (Ok (mkAppendResult (ContentDescriptor.byte_length d) true), (content, net)).
Proof.
  intros Hd Hdown Hsize. pose proof Hd as [_ Hlen]. unfold node_download_content_chunk.
  rewrite (proj2 (Z.eqb_neq size 0)), (proj2 (Z.ltb_ge _ size)) by lia. cbn [orb].
  rewrite (downloading_offset content d whole _ Hdown Hd). by rewrite Hlen, Z.eqb_refl.
Qed.

(** C25: from a peer that serves the content, while no call of the file system fails,
    repeated calls complete the download in as many chunks as remain, also from a partial
    file that an earlier run left; no further call is needed and the blob holds the content.
    But when nothing remains (the partial file of a run that stopped before it published, or
    an empty content), every call answers that the download is complete, and none publishes
    the blob. *)
Theorem download_completes config d whole offset size content net :
  describes d whole -> serves config d whole -> downloading content d whole offset ->
  0 < size <= MAX_DOWNLOAD_CHUNK_BYTES ->
  let blob := BlobPath (ContentDescriptor.content_id d) in
  let rounds := Z.to_nat ((Z.of_nat (length whole - offset) + size - 1) / size) in
  ((offset < length whole)%nat -> path_bytes (fst (downloads config d size rounds (content, net))) blob = Some whole)
  /\ (offset = length whole -> forall n,
       downloads config d size n (content, net) = (content, net)
       /\ path_bytes content blob = None
       /\ fst (node_download_content_chunk transport config d size (content, net))
          = Ok (mkAppendResult (ContentDescriptor.byte_length d) true)).
Proof.
  intros Hd Hserves Hdown Hsize blob rounds. split.
  - intros Hlt. apply (downloads_complete config d whole size Hd Hserves Hsize rounds offset); [done|done|].
    unfold rounds. rewrite Z2Nat.id; [done|]. apply Z.div_pos; lia.
  - intros -> n. pose proof (full_partial_round config d whole size content net Hd Hdown Hsize) as E. split; [|split].
    + unfold downloads. induction n as [|n IH]; [done|]. cbn [Nat.iter nat_rect]. unfold Nat.iter in IH. by rewrite IH, E.
    + unfold path_bytes, blob. by rewrite (download_absent _ _ _ _ Hdown).
    + by rewrite E.
Qed.
End NodeTransportTheory.
