(* ===== verification/NodeTransportWitnesses.v ===== *)
(** * Witnesses for the HTTP transport

    A network of one node at http://node that serves one file by ranges and takes one
    upload. *)
From S2P Require Import Prelude Bytes Floats Crypto Content Cbor Trust TrustTheory DataModel CanonicalBody.
From S2P Require Import BodyTheory Envelope Samples Authorization Peer Application Database PairingStore Repository RepositoryLog.
From S2P Require Import ClientDatabase ClientStore ClientQueues ClientQueries ClientContent ClientContentTheory ClientContentWitnesses.
From S2P Require Import SyncWorker NodeTransport NodeTransportTheory.

Record ToyUrl : Type := mkToyUrl { toy_path : list Z; toy_query : option (list Z) }.

Definition range_text (range : Z * Z) : list Z := str "bytes=" ++ decimal (fst range) ++ str "-" ++ decimal (snd range).
Definition all_ranges : list (Z * Z) :=
  let bounds := List.map Z.of_nat (seq 0 10) in list_prod bounds bounds.
Definition header_value (name : list Z) (headers : list (list Z * list Z)) : list Z :=
  match List.find (fun entry => list_eqb (fst entry) name) headers with Some (_, value) => value | None => [] end.
Definition slice (first last : Z) (bytes : list Z) : list Z :=
  firstn (Z.to_nat (last - first + 1)) (skipn (Z.to_nat first) bytes).

(** The node's answers: a range of the file, in one chunk; an upload that reached byte 7. *)
Definition toy_send (request : HttpRequest ToyUrl) (net : nat) : result (list Z) HttpResponse * nat :=
  (match request_method request with
   | Method.Get =>
       match List.find (fun range => list_eqb (range_text range) (header_value (str "range") (request_headers request))) all_ranges with
       | Some (first, last) => Ok (mkResponse 206 [] [Ok (slice first last media_bytes)])
       | None => Ok (mkResponse 416 [] [])
       end
   | Method.Patch => Ok (mkResponse 204 [(str "upload-offset", decimal 7)] [])
   | _ => Ok (mkResponse 404 [] [])
   end, S net).

(** A redirection is followed at the node, without headers. *)
Definition toy_redirected (request : HttpRequest ToyUrl) (response : HttpResponse) : option (HttpRequest ToyUrl) :=
  if status response =? 307
  then Some (mkRequest (request_method request) (mkToyUrl (str "/moved") None) [] (request_body request))
  else None.

#[export] Instance toy_http : HttpClient := {|
  Net := nat;
  HttpUrl := ToyUrl;
  url_parse := fun text => if list_eqb text (str "http://node") then Ok (mkToyUrl (str "/") None) else Err (str "no such host");
  url_as_str := fun url => str "http://node" ++ toy_path url;
  url_scheme := fun _ => str "http";
  url_username := fun _ => [];
  url_password := fun _ => None;
  url_host := fun _ => Some (str "node");
  url_port := fun _ => Some 80;
  url_port_or_known_default := fun _ => Some 80;
  url_path := toy_path;
  url_query := toy_query;
  url_fragment := fun _ => None;
  url_set_path := fun url path => mkToyUrl (str "/" ++ path) (toy_query url);
  url_append_pairs := fun url pairs => mkToyUrl (toy_path url) (Some (concat (List.map fst pairs)));
  url_join := fun url text => Ok (mkToyUrl text None);
  exchange := toy_send;
  redirected := toy_redirected;
  too_many_redirects := str "too many redirects";
  status_text := fun status => decimal status;
  decode_availability := fun _ => Err [];
  decode_page := fun _ => Err [];
  base64_standard := hex_encode;
  random_nonce := fun net => (Ok (replicate 16 0), S net);
  system_time := fun net => (Ok 1700000006000, net);
  random_lease := fun net => (replicate 16 9, net);
  content_error_text := fun _ => str "content error";
  proof_error_text := fun _ => str "proof error";
  descriptor_error_text := fun _ => str "descriptor error"
|}.

Definition toy_transport : NodeHttpTransport :=
  mkTransport (software_custody (replicate 32 1) (replicate 32 2)) {[ replicate 32 4 := str "token" ]}.
Definition toy_peer : PeerConfig := mkPeerConfig (replicate 32 4) (str "http://node") true true true None 1700000000000.

Definition start_net : Net := 0%nat.

Lemma toy_url_laws : url_laws.
Proof. by split. Qed.
Lemma toy_redirects : redirects_drop_credentials.
Proof.
  intros request response request' value Hr Hin. cbn [redirected toy_http] in Hr. unfold toy_redirected in Hr.
  destruct (status response =? 307); [|done]. injection Hr as <-. by apply not_elem_of_nil in Hin.
Qed.

Lemma parse_decimal_witness : parse_u64 (decimal 18446744073709551615) = Some 18446744073709551615.
Proof. apply parse_decimal. lia. Defined.

Lemma requests_stay_at_peer_witness :
  rtc (sends (for_peer toy_transport (replicate 32 4) (str "http://node") None)) start_net
    (snd (snd (node_download_content_chunk toy_transport toy_peer media_descriptor 4 (empty_store [], start_net)))).
Proof.
  refine (proj1 (requests_stay_at_peer toy_transport (replicate 32 4) (str "http://node") None start_net _
    toy_url_laws toy_redirects _)).
  apply (talks_download toy_transport (replicate 32 4) (str "http://node") None toy_peer media_descriptor 4 (empty_store []) start_net); reflexivity.
Defined.

Definition toy_upload : RemoteUpload HttpUrl := mkUpload _ (mkToyUrl (str "/api/uploads/1") None) 2 10.
Lemma imported_ok : content_ok imported.
Proof.
  refine (proj1 (content_steps_preserved (empty_store []) imported (empty_content_ok []) _)).
  apply rtc_once, step_import_file. reflexivity.
Qed.
Lemma uploads_send_the_named_content_witness :
  exists result, fst (node_upload_content_chunk toy_transport toy_peer media_descriptor toy_upload 5 (imported, start_net)) = Ok result
    /\ 2 < upload_offset (chunk_upload result).
Proof.
  pose proof (uploads_send_the_named_content toy_transport toy_peer media_descriptor toy_upload 5 imported start_net imported_ok) as Hu.
  assert (E : fst (node_upload_content_chunk toy_transport toy_peer media_descriptor toy_upload 5 (imported, start_net))
    = Ok (mkUploadResult _ (mkUpload _ (mkToyUrl (str "/api/uploads/1") None) 7 10) false)) by by_vm.
  destruct (node_upload_content_chunk _ _ _ _ _ _) as [r state]. cbn [fst] in E |- *. subst r.
  eexists. split; [reflexivity|]. destruct Hu as [_ Hu]; [cbn; lia|lia|].
  destruct (Hu _ eq_refl) as (_ & _ & Hmove). by apply Hmove.
Defined.

Lemma toy_serves : serves toy_transport toy_peer media_descriptor media_bytes.
Proof.
  eexists. split; [reflexivity|]. intros first last net Hrange Hlast.
  exists [], [slice first last media_bytes], (S net). split; [|cbn [concat]; apply app_nil_r].
  unfold send, MAX_REDIRECTS. cbn [follow exchange toy_http]. unfold toy_send at 1. cbn [request_method request_headers].
  assert (Hall : forallb (fun range => bool_decide (List.find (fun found => list_eqb (range_text found)
    (header_value (str "range") (authorize toy_transport toy_peer ++ [(str "range", range_text range)]))) all_ranges = Some range))
    all_ranges = true) by by_vm.
  rewrite forallb_forall in Hall. specialize (Hall (first, last)). rewrite bool_decide_eq_true in Hall.
  change (str "bytes=" ++ decimal first ++ str "-" ++ decimal last) with (range_text (first, last)). rewrite Hall; [done|].
  assert (Hin : forall z, 0 <= z < 10 -> In z (List.map Z.of_nat (seq 0 10))).
  { intros z Hz. apply in_map_iff. exists (Z.to_nat z). split; [lia|]. apply in_seq. lia. }
  assert (Z.of_nat (length media_bytes) = 10) as Hlen by reflexivity.
  apply in_prod; apply Hin; lia.
Qed.
Lemma download_completes_witness :
  path_bytes (fst (downloads toy_transport toy_peer media_descriptor 4 3 (empty_store [], start_net)))
    (BlobPath (ContentDescriptor.content_id media_descriptor)) = Some media_bytes.
Proof.
  refine (proj1 (download_completes toy_transport toy_peer media_descriptor media_bytes 0 4 (empty_store []) start_net _
    toy_serves _ _) _).
  - split; reflexivity.
  - split; try reflexivity; [discriminate|vm_compute; repeat constructor].
  - vm_compute. split; [reflexivity|discriminate].
  - vm_compute. repeat constructor.
Defined.
