(* ===== verification/UploadRepository.v ===== *)
(** * The node's upload sessions (crates/fractonica-store-sqlite/src/lib.rs)

    [ContentRepository] is the port of the application crate through which the blob store
    keeps upload sessions and the list of stored contents; [ContentRepositoryLaws] is what
    it promises.  [SqliteStore] implements it over the tables [upload_sessions] and
    [blobs], which are maps from their primary keys.  A statement takes an entry of
    [engine] and fails when it is [true]; a failed transaction leaves the tables as they were. *)
From S2P Require Import Prelude Bytes Crypto Content.

(** ** Sessions (crates/fractonica-application/src/lib.rs) *)
Module UploadState.
Inductive t : Type := Active | Finalizing | Complete.
#[global] Instance eq_dec : EqDecision t.
Proof. solve_decision. Defined.
End UploadState.

(** [NewUpload]. *)
Record NewUpload : Type := mkNewUpload {
  new_upload_id : list Z;
  new_upload_length : Z;
  new_expected_content_id : option ContentId.t;
  new_upload_metadata : option (list Z);
  new_media_type : option (list Z);
  new_original_name : option (list Z);
  new_created_at_unix_ms : Z;
  new_expires_at_unix_ms : Z
}.

(** [UploadSession]; a row of [upload_sessions] has the same columns. *)
Record UploadSession : Type := mkSession {
  upload_id : list Z;
  upload_length : Z;
  upload_offset : Z;
  state : UploadState.t;
  expected_content_id : option ContentId.t;
  final_content_id : option ContentId.t;
  upload_metadata : option (list Z);
  media_type : option (list Z);
  original_name : option (list Z);
  created_at_unix_ms : Z;
  expires_at_unix_ms : Z
}.

Module ContentRepositoryError.
Inductive t : Type :=
| UploadNotFound (id : list Z)
| UploadNotActive (id : list Z)
| OffsetMismatch (expected supplied : Z)
| ContentConflict (id : ContentId.t)
| Corrupt
| Unavailable.
End ContentRepositoryError.
#[local] Notation error := ContentRepositoryError.t.

Definition MAX_AVAILABILITY_CONTENT_IDS : nat := 256.

Definition new_session (u : NewUpload) : UploadSession :=
  mkSession (new_upload_id u) (new_upload_length u) 0 UploadState.Active (new_expected_content_id u) None
    (new_upload_metadata u) (new_media_type u) (new_original_name u) (new_created_at_unix_ms u) (new_expires_at_unix_ms u).
Definition advanced (x : UploadSession) (offset expires : Z) : UploadSession :=
  mkSession (upload_id x) (upload_length x) offset (state x) (expected_content_id x) (final_content_id x)
    (upload_metadata x) (media_type x) (original_name x) (created_at_unix_ms x) expires.
Definition finalizing (x : UploadSession) (id : ContentId.t) : UploadSession :=
  mkSession (upload_id x) (upload_length x) (upload_offset x) UploadState.Finalizing (expected_content_id x) (Some id)
    (upload_metadata x) (media_type x) (original_name x) (created_at_unix_ms x) (expires_at_unix_ms x).
Definition completed (x : UploadSession) : UploadSession :=
  mkSession (upload_id x) (upload_length x) (upload_offset x) UploadState.Complete (expected_content_id x) (final_content_id x)
    (upload_metadata x) (media_type x) (original_name x) (created_at_unix_ms x) (expires_at_unix_ms x).

Definition is_active (x : UploadSession) : bool := bool_decide (state x = UploadState.Active).
Definition is_finalizing (x : UploadSession) : bool := bool_decide (state x = UploadState.Finalizing).
Definition requires_finalization (x : UploadSession) : bool :=
  is_finalizing x || (is_active x && (upload_offset x =? upload_length x)).
Definition has_expired (now : Z) (x : UploadSession) : bool :=
  negb (is_finalizing x) && (expires_at_unix_ms x <=? now).
(** The identity an upload may have: the one it declares, if it declares one. *)
Definition expects (x : UploadSession) (id : ContentId.t) : bool :=
  match expected_content_id x with Some expected => list_eqb expected id | None => true end.

Definition keyed (rows : gmap (list Z) UploadSession) : Prop := forall id x, rows !! id = Some x -> upload_id x = id.

(** ** The port *)
Class ContentRepository := {
  Repo : Type;
  repo_create_upload : NewUpload -> Repo -> result error UploadSession * Repo;
  repo_upload : list Z -> Repo -> result error (option UploadSession) * Repo;
  repo_advance_upload : list Z -> Z -> Z -> Z -> Repo -> result error UploadSession * Repo;
  repo_begin_upload_finalize : list Z -> ContentId.t -> Repo -> result error UploadSession * Repo;
  repo_complete_upload : list Z -> Z -> Repo -> result error ContentDescriptor.t * Repo;
  repo_content : ContentId.t -> Repo -> result error (option ContentDescriptor.t) * Repo;
  repo_available_content : list ContentId.t -> Repo -> result error (list ContentDescriptor.t) * Repo;
  repo_uploads_requiring_finalization : nat -> Repo -> result error (list UploadSession) * Repo;
  repo_expired_uploads : Z -> nat -> Repo -> result error (list UploadSession) * Repo;
  repo_delete_upload : list Z -> Repo -> result error unit * Repo
}.

(** What the port promises about the sessions and the contents behind it.  A call that
    fails changes neither, except that a failed creation may have stored its session.
    In a healthy repository a call fails for the reasons of its contract only. *)
Class ContentRepositoryLaws `{ContentRepository} := {
  sessions : Repo -> gmap (list Z) UploadSession;
  contents : Repo -> gmap (list Z) Z;
  healthy : Repo -> Prop;

  create_law u σ r σ' : repo_create_upload u σ = (r, σ') ->
    contents σ' = contents σ
    /\ (sessions σ' = sessions σ /\ is_ok r = false
        \/ sessions σ !! new_upload_id u = None /\ sessions σ' = <[new_upload_id u := new_session u]> (sessions σ)
           /\ forall x, r = Ok x -> x = new_session u);
  upload_law id σ r σ' : repo_upload id σ = (r, σ') ->
    contents σ' = contents σ /\ sessions σ' = sessions σ /\ forall x, r = Ok x -> x = sessions σ !! id;
  advance_law id expected offset expires σ r σ' : repo_advance_upload id expected offset expires σ = (r, σ') ->
    contents σ' = contents σ
    /\ match r with
       | Err _ => sessions σ' = sessions σ
       | Ok x' => exists x, sessions σ !! id = Some x /\ state x = UploadState.Active /\ upload_offset x = expected
                  /\ expected <= offset <= upload_length x /\ x' = advanced x offset expires
                  /\ sessions σ' = <[id := x']> (sessions σ)
       end;
  begin_law id c σ r σ' : repo_begin_upload_finalize id c σ = (r, σ') ->
    contents σ' = contents σ
    /\ match r with
       | Err _ => sessions σ' = sessions σ
       | Ok x' => exists x, sessions σ !! id = Some x
                  /\ (state x <> UploadState.Active /\ final_content_id x = Some c /\ x' = x /\ sessions σ' = sessions σ
                      \/ state x = UploadState.Active /\ upload_offset x = upload_length x /\ expects x c = true
                         /\ x' = finalizing x c /\ sessions σ' = <[id := x']> (sessions σ))
       end;
  complete_law id at_ σ r σ' : repo_complete_upload id at_ σ = (r, σ') ->
    match r with
    | Err _ => contents σ' = contents σ /\ sessions σ' = sessions σ
    | Ok d => exists x (c : list Z), sessions σ !! id = Some x /\ state x <> UploadState.Active /\ final_content_id x = Some c
              /\ d = ContentDescriptor.mk c (upload_length x)
              /\ (contents σ !! c = None \/ contents σ !! c = Some (upload_length x))
              /\ contents σ' = <[c := upload_length x]> (contents σ)
              /\ sessions σ' = <[id := completed x]> (sessions σ)
    end;
  content_law (c : list Z) σ r σ' : repo_content c σ = (r, σ') ->
    contents σ' = contents σ /\ sessions σ' = sessions σ
    /\ forall d, r = Ok d -> d = ContentDescriptor.mk c <$> contents σ !! c;
  available_law cs σ r σ' : repo_available_content cs σ = (r, σ') ->
    contents σ' = contents σ /\ sessions σ' = sessions σ
    /\ forall ds d, r = Ok ds -> d ∈ ds ->
       contents σ !! (ContentDescriptor.content_id d : list Z) = Some (ContentDescriptor.byte_length d);
  requiring_law limit σ r σ' : repo_uploads_requiring_finalization limit σ = (r, σ') ->
    contents σ' = contents σ /\ sessions σ' = sessions σ
    /\ forall xs, keyed (sessions σ) -> r = Ok xs ->
       NoDup (List.map upload_id xs) /\ (length xs <= limit)%nat
       /\ (forall x, x ∈ xs -> sessions σ !! upload_id x = Some x /\ requires_finalization x = true)
       /\ ((length xs < limit)%nat -> forall id x, sessions σ !! id = Some x -> requires_finalization x = true -> x ∈ xs);
  expired_law now limit σ r σ' : repo_expired_uploads now limit σ = (r, σ') ->
    contents σ' = contents σ /\ sessions σ' = sessions σ
    /\ forall xs, keyed (sessions σ) -> r = Ok xs ->
       NoDup (List.map upload_id xs) /\ (length xs <= limit)%nat
       /\ (forall x, x ∈ xs -> sessions σ !! upload_id x = Some x /\ has_expired now x = true)
       /\ ((length xs < limit)%nat -> forall id x, sessions σ !! id = Some x -> has_expired now x = true -> x ∈ xs);
  delete_law id σ r σ' : repo_delete_upload id σ = (r, σ') ->
    contents σ' = contents σ
    /\ match r with Err _ => sessions σ' = sessions σ | Ok _ => sessions σ' = delete id (sessions σ) end;

  upload_healthy id σ : healthy σ -> is_ok (fst (repo_upload id σ)) = true /\ healthy (snd (repo_upload id σ));
  advance_healthy id x offset expires σ : healthy σ -> sessions σ !! id = Some x -> state x = UploadState.Active ->
    upload_offset x <= offset <= upload_length x -> created_at_unix_ms x <= expires ->
    let call := repo_advance_upload id (upload_offset x) offset expires σ in
    is_ok (fst call) = true /\ healthy (snd call);
  begin_healthy id x c σ : healthy σ -> sessions σ !! id = Some x -> state x = UploadState.Active ->
    upload_offset x = upload_length x -> expects x c = true ->
    let call := repo_begin_upload_finalize id c σ in is_ok (fst call) = true /\ healthy (snd call);
  complete_healthy id x (c : list Z) at_ σ : healthy σ -> sessions σ !! id = Some x -> state x <> UploadState.Active ->
    final_content_id x = Some c -> contents σ !! c = None \/ contents σ !! c = Some (upload_length x) ->
    upload_length x <= MAX_CONTENT_BYTE_LENGTH -> 0 <= at_ ->
    let call := repo_complete_upload id at_ σ in is_ok (fst call) = true /\ healthy (snd call);
  content_healthy c σ : healthy σ -> is_ok (fst (repo_content c σ)) = true /\ healthy (snd (repo_content c σ));
  requiring_healthy limit σ : healthy σ ->
    let call := repo_uploads_requiring_finalization limit σ in is_ok (fst call) = true /\ healthy (snd call);
  expired_healthy now limit σ : healthy σ ->
    let call := repo_expired_uploads now limit σ in is_ok (fst call) = true /\ healthy (snd call);
  delete_healthy id σ : healthy σ ->
    let call := repo_delete_upload id σ in is_ok (fst call) = true /\ healthy (snd call)
}.

(** ** The tables (schema/content_store.sql) *)
Record BlobRow : Type := mkBlobRow { row_byte_length : Z; row_stored_at_unix_ms : Z }.
Record SqliteStore : Type := mkSqlite {
  upload_sessions : gmap (list Z) UploadSession;
  blobs : gmap (list Z) BlobRow;
  engine : list bool
}.
Definition with_sessions (s : SqliteStore) (rows : gmap (list Z) UploadSession) : SqliteStore :=
  mkSqlite rows (blobs s) (engine s).
Definition with_blobs (s : SqliteStore) (rows : gmap (list Z) BlobRow) : SqliteStore :=
  mkSqlite (upload_sessions s) rows (engine s).

(** The CHECK constraints of a row. *)
Definition upload_row_ok (x : UploadSession) : bool :=
  (0 <=? upload_length x) && (0 <=? upload_offset x) && (upload_offset x <=? upload_length x)
  && match upload_metadata x with Some text => Z.of_nat (length text) <=? 8192 | None => true end
  && (0 <=? created_at_unix_ms x) && (created_at_unix_ms x <=? expires_at_unix_ms x)
  && match state x, final_content_id x with
     | UploadState.Active, None | UploadState.Finalizing, Some _ | UploadState.Complete, Some _ => true
     | _, _ => false
     end.
Definition blob_row_ok (row : BlobRow) : bool := (0 <=? row_byte_length row) && (0 <=? row_stored_at_unix_ms row).

(** ** Statements *)
Definition Sql (A : Type) : Type := SqliteStore -> result error A * SqliteStore.
Definition done_ {A} (a : A) : Sql A := fun s => (Ok a, s).
Definition refused {A} (e : error) : Sql A := fun s => (Err e, s).
Definition result_of {A} (r : result error A) : Sql A := fun s => (r, s).
Definition bind_sql {A B} (m : Sql A) (k : A -> Sql B) : Sql B :=
  fun s => match m s with (Ok a, s) => k a s | (Err e, s) => (Err e, s) end.
Definition tables : Sql SqliteStore := fun s => (Ok s, s).
Definition put (s : SqliteStore) : Sql unit := fun _ => (Ok tt, s).
#[local] Notation "'let@' x ':=' m 'in' k" := (bind_sql m (fun x => k))
  (at level 10, x pattern, m at level 100, k at level 200).
#[local] Notation "m ';@' k" := (bind_sql m (fun _ => k)) (at level 100, k at level 200, right associativity).

Definition statement : Sql unit :=
  fun s => match engine s with
           | [] => (Ok tt, s)
           | failed :: rest =>
               (if failed then Err ContentRepositoryError.Unavailable else Ok tt, mkSqlite (upload_sessions s) (blobs s) rest)
           end.
Definition rolled_back (before after : SqliteStore) : SqliteStore :=
  mkSqlite (upload_sessions before) (blobs before) (engine after).
(** An immediate transaction: whatever fails, its changes are undone. *)
Definition transaction {A} (m : Sql A) : Sql A :=
  fun s => match (statement ;@ let@ a := m in statement ;@ done_ a) s with
           | (Ok a, after) => (Ok a, after)
           | (Err e, after) => (Err e, rolled_back s after)
           end.
Definition constraint (holds : bool) : Sql unit :=
  if holds then done_ tt else refused ContentRepositoryError.Unavailable.

Definition content_i64 (value : Z) : result error Z :=
  if value <? 2 ^ 63 then Ok value else Err ContentRepositoryError.Corrupt.
Definition content_u64 (value : Z) : result error Z :=
  if 0 <=? value then Ok value else Err ContentRepositoryError.Corrupt.

(** The identities and the state of a row are typed here; what remains are the integers. *)
Definition decode_upload_row (x : UploadSession) : result error UploadSession :=
  let? _ := content_u64 (upload_length x) in
  let? _ := content_u64 (upload_offset x) in
  Ok x.

Definition load_upload (id : list Z) : Sql (option UploadSession) :=
  statement ;@
  let@ s := tables in
  match upload_sessions s !! id with
  | None => done_ None
  | Some row => let@ x := result_of (decode_upload_row row) in done_ (Some x)
  end.
Definition required {A} (e : error) (o : option A) : Sql A := match o with Some a => done_ a | None => refused e end.

Definition load_content (c : ContentId.t) : Sql (option ContentDescriptor.t) :=
  statement ;@
  let@ s := tables in
  match blobs s !! (c : list Z) with
  | None => done_ None
  | Some row => let@ n := result_of (content_u64 (row_byte_length row)) in done_ (Some (ContentDescriptor.mk c n))
  end.

(** INSERT ... ON CONFLICT DO NOTHING. *)
Definition inserted_or_kept (c : list Z) (row : BlobRow) (rows : gmap (list Z) BlobRow) : gmap (list Z) BlobRow :=
  match rows !! c with Some _ => rows | None => <[c := row]> rows end.

(** ** The port over the tables *)
Definition create_upload (u : NewUpload) : Sql UploadSession :=
  if (new_created_at_unix_ms u <? 0) || (new_expires_at_unix_ms u <? new_created_at_unix_ms u)
  then refused ContentRepositoryError.Corrupt
  else
    let@ _ := result_of (content_i64 (new_upload_length u)) in
    statement ;@
    let@ s := tables in
    constraint (bool_decide (upload_sessions s !! new_upload_id u = None) && upload_row_ok (new_session u)) ;@
    put (with_sessions s (<[new_upload_id u := new_session u]> (upload_sessions s))) ;@
    let@ loaded := load_upload (new_upload_id u) in
    required ContentRepositoryError.Corrupt loaded.

Definition advance_upload (id : list Z) (expected offset expires : Z) : Sql UploadSession :=
  let@ _ := result_of (content_i64 expected) in
  let@ _ := result_of (content_i64 offset) in
  transaction
    (let@ current := load_upload id in
     let@ current := required (ContentRepositoryError.UploadNotFound id) current in
     if negb (is_active current) then refused (ContentRepositoryError.UploadNotActive id)
     else if negb (upload_offset current =? expected)
     then refused (ContentRepositoryError.OffsetMismatch (upload_offset current) expected)
     else if (offset <? expected) || (upload_length current <? offset) then refused ContentRepositoryError.Corrupt
     else
       statement ;@
       let@ s := tables in
       constraint (upload_row_ok (advanced current offset expires)) ;@
       put (with_sessions s (<[id := advanced current offset expires]> (upload_sessions s))) ;@
       let@ updated := load_upload id in
       required ContentRepositoryError.Corrupt updated).

Definition begin_upload_finalize (id : list Z) (c : ContentId.t) : Sql UploadSession :=
  transaction
    (let@ current := load_upload id in
     let@ current := required (ContentRepositoryError.UploadNotFound id) current in
     if negb (is_active current)
     then if bool_decide (final_content_id current = Some c) then done_ current
          else refused (ContentRepositoryError.ContentConflict c)
     else if negb (upload_offset current =? upload_length current) then refused ContentRepositoryError.Corrupt
     else if negb (expects current c) then refused (ContentRepositoryError.ContentConflict c)
     else
       statement ;@
       let@ s := tables in
       constraint (upload_row_ok (finalizing current c)) ;@
       put (with_sessions s (<[id := finalizing current c]> (upload_sessions s))) ;@
       let@ updated := load_upload id in
       required ContentRepositoryError.Corrupt updated).

Definition complete_upload (id : list Z) (stored_at : Z) : Sql ContentDescriptor.t :=
  transaction
    (let@ current := load_upload id in
     let@ current := required (ContentRepositoryError.UploadNotFound id) current in
     if is_active current then refused (ContentRepositoryError.UploadNotActive id)
     else
       let@ c := required ContentRepositoryError.Corrupt (final_content_id current) in
       if negb (is_ok (validate_byte_length (upload_length current))) then refused ContentRepositoryError.Corrupt
       else
         let@ _ := result_of (content_i64 (upload_length current)) in
         let row := mkBlobRow (upload_length current) stored_at in
         statement ;@
         let@ s := tables in
         constraint (blob_row_ok row) ;@
         put (with_blobs s (inserted_or_kept c row (blobs s))) ;@
         statement ;@
         let@ s := tables in
         let@ stored := required ContentRepositoryError.Unavailable (blobs s !! (c : list Z)) in
         let@ stored_length := result_of (content_u64 (row_byte_length stored)) in
         if negb (stored_length =? upload_length current) then refused (ContentRepositoryError.ContentConflict c)
         else
           statement ;@
           let@ s := tables in
           constraint (upload_row_ok (completed current)) ;@
           put (with_sessions s (<[id := completed current]> (upload_sessions s))) ;@
           done_ (ContentDescriptor.mk c (upload_length current))).

Fixpoint load_contents (cs : list ContentId.t) : Sql (list ContentDescriptor.t) :=
  match cs with
  | [] => done_ []
  | c :: cs =>
      let@ found := load_content c in
      let@ rest := load_contents cs in
      done_ (match found with Some d => d :: rest | None => rest end)
  end.
Fixpoint dedup_by_key (ds : list ContentDescriptor.t) : list ContentDescriptor.t :=
  match ds with
  | d :: (d' :: _) as rest =>
      match dedup_by_key rest with
      | e :: kept => if list_eqb (ContentDescriptor.content_id d) (ContentDescriptor.content_id e) then d :: kept else d :: e :: kept
      | [] => [d]
      end
  | _ => ds
  end.
Definition content_order (d d' : ContentDescriptor.t) : Prop :=
  bytes_le (ContentDescriptor.content_id d) (ContentDescriptor.content_id d').
#[export] Instance content_order_dec : RelDecision content_order.
Proof. intros d d'. apply _. Defined.
Definition available_content (cs : list ContentId.t) : Sql (list ContentDescriptor.t) :=
  if (MAX_AVAILABILITY_CONTENT_IDS <? length cs)%nat then refused ContentRepositoryError.Corrupt
  else let@ found := load_contents cs in done_ (dedup_by_key (merge_sort content_order found)).

(** ORDER BY a time and the identity. *)
Definition time_order (time : UploadSession -> Z) (x y : UploadSession) : Prop :=
  time x < time y \/ (time x = time y /\ bytes_le (upload_id x) (upload_id y)).
#[export] Instance time_order_dec time : RelDecision (time_order time).
Proof. intros x y. apply _. Defined.
Definition load_uploads_by_query (p : UploadSession -> bool) (time : UploadSession -> Z) (limit : nat) :
    Sql (list UploadSession) :=
  statement ;@
  let@ s := tables in
  result_of (collect decode_upload_row
    (firstn limit (merge_sort (time_order time) (List.filter p (List.map snd (map_to_list (upload_sessions s))))))).

Definition uploads_requiring_finalization (limit : nat) : Sql (list UploadSession) :=
  load_uploads_by_query requires_finalization created_at_unix_ms limit.
Definition expired_uploads (now : Z) (limit : nat) : Sql (list UploadSession) :=
  load_uploads_by_query (has_expired now) expires_at_unix_ms limit.
Definition delete_upload (id : list Z) : Sql unit :=
  statement ;@ let@ s := tables in put (with_sessions s (delete id (upload_sessions s))).

#[export] Instance sqlite_repository : ContentRepository := {|
  Repo := SqliteStore;
  repo_create_upload := create_upload;
  repo_upload := load_upload;
  repo_advance_upload := advance_upload;
  repo_begin_upload_finalize := begin_upload_finalize;
  repo_complete_upload := complete_upload;
  repo_content := load_content;
  repo_available_content := available_content;
  repo_uploads_requiring_finalization := uploads_requiring_finalization;
  repo_expired_uploads := expired_uploads;
  repo_delete_upload := delete_upload
|}.
