(* ===== verification/UploadRepositoryTheory.v ===== *)
(** * The node's upload sessions: the laws

    The tables keep what the port promises: [sqlite_laws]. *)
From S2P Require Import Prelude Bytes Crypto Content UploadRepository.

(** ** Statements *)
Definition same (s s' : SqliteStore) : Prop := upload_sessions s' = upload_sessions s /\ blobs s' = blobs s.

Lemma same_refl s : same s s.
Proof. done. Qed.
Lemma same_trans s1 s2 s3 : same s1 s2 -> same s2 s3 -> same s1 s3.
Proof. unfold same. intuition congruence. Qed.

Lemma bind_sql_inv {A B} (m : Sql A) (k : A -> Sql B) s r s' :
  bind_sql m k s = (r, s') ->
  (exists e, m s = (Err e, s') /\ r = Err e) \/ exists a s1, m s = (Ok a, s1) /\ k a s1 = (r, s').
Proof. unfold bind_sql. destruct (m s) as [[a|e] s1]; intros E; [right; eauto|injection E as <- <-; left; eauto]. Qed.
Lemma bind_sql_Ok {A B} (m : Sql A) (k : A -> Sql B) s b s' :
  bind_sql m k s = (Ok b, s') -> exists a s1, m s = (Ok a, s1) /\ k a s1 = (Ok b, s').
Proof. intros [(e & _ & [=])|H]%bind_sql_inv. done. Qed.

Lemma statement_same s r s' : statement s = (r, s') -> same s s'.
Proof. unfold statement. destruct (engine s) as [|[] l]; by intros [= _ <-]. Qed.
Lemma constraint_same b s r s' : constraint b s = (r, s') -> s' = s /\ (r = Ok tt -> b = true).
Proof. unfold constraint. destruct b; by intros [= <- <-]. Qed.
Lemma required_same {A} e (o : option A) s r s' : required e o s = (r, s') -> s' = s /\ forall a, r = Ok a -> o = Some a.
Proof. destruct o; intros [= <- <-]; (split; [done|]); congruence. Qed.

Lemma decode_upload_row_Ok x y : decode_upload_row x = Ok y -> y = x.
Proof. unfold decode_upload_row. intros H. inv_ok. done. Qed.

Lemma load_upload_spec id s r s' :
  load_upload id s = (r, s') -> same s s' /\ forall x, r = Ok x -> x = upload_sessions s !! id.
Proof.
  unfold load_upload. intros [(e & Es & ->)|([] & s1 & Es & E)]%bind_sql_inv; apply statement_same in Es; [done|].
  unfold tables, bind_sql at 1 in E. destruct Es as [E1 E2]. rewrite E1 in E. destruct (upload_sessions s !! id) as [row|].
  - unfold bind_sql, result_of, done_ in E. destruct (decode_upload_row row) as [x|] eqn:Ed; injection E as <- <-; [|done].
    split; [done|]. intros ? [= <-]. by rewrite (decode_upload_row_Ok _ _ Ed).
  - injection E as <- <-. split; [done|congruence].
Qed.

Lemma load_content_spec (c : list Z) s r s' :
  load_content c s = (r, s') ->
  same s s' /\ forall d, r = Ok d -> d = ContentDescriptor.mk c <$> (row_byte_length <$> blobs s) !! c.
Proof.
  unfold load_content. intros [(e & Es & ->)|([] & s1 & Es & E)]%bind_sql_inv; apply statement_same in Es; [done|].
  unfold tables, bind_sql at 1 in E. destruct Es as [E1 E2]. rewrite E2 in E. rewrite lookup_fmap.
  destruct (blobs s !! c) as [row|].
  - unfold bind_sql, result_of, done_, content_u64 in E. destruct (_ <=? _); injection E as <- <-; (split; [done|]); by intros ? [= <-].
  - injection E as <- <-. split; [done|by intros ? [= <-]].
Qed.

Lemma transaction_inv {A} (m : Sql A) s r s' :
  transaction m s = (r, s') ->
  match r with
  | Err _ => same s s'
  | Ok a => exists s1 s2, same s s1 /\ m s1 = (Ok a, s2) /\ same s2 s'
  end.
Proof.
  unfold transaction. destruct (bind_sql statement _ s) as [[a|e] s3] eqn:E; intros [= <- <-]; [|done].
  apply bind_sql_Ok in E as (? & s1 & E1 & E). apply bind_sql_Ok in E as (a' & s2 & E2 & E).
  apply bind_sql_Ok in E as (? & s3' & E3 & E). injection E as <- <-. apply statement_same in E1, E3. eauto 6.
Qed.

(** Reads a successful block statement by statement. *)
Ltac sql_step :=
  match goal with
  | H : bind_sql tables _ _ = (Ok _, _) |- _ => unfold tables, bind_sql at 1 in H; cbn beta iota in H
  | H : bind_sql _ _ _ = (Ok _, _) |- _ =>
      let a := fresh "a" in let s := fresh "s" in let E := fresh "E" in apply bind_sql_Ok in H as (a & s & E & H)
  | H : load_upload _ _ = (Ok _, _) |- _ => apply load_upload_spec in H as [? H]; specialize (H _ eq_refl)
  | H : required _ _ _ = (Ok _, _) |- _ => apply required_same in H as [-> H]; specialize (H _ eq_refl)
  | H : result_of _ _ = (Ok _, _) |- _ => injection H as H ?; subst
  | H : done_ _ _ = (Ok _, _) |- _ => injection H as H ?; subst
  | H : refused _ _ = (Ok _, _) |- _ => discriminate H
  | H : statement _ = (Ok _, _) |- _ => apply statement_same in H
  | H : constraint _ _ = (Ok ?u, _) |- _ => destruct u; apply constraint_same in H as [-> H]; specialize (H eq_refl)
  | H : put _ _ = (Ok _, _) |- _ => injection H as ? ?; subst
  | H : (Ok ?s, ?s) = (Ok _, _) |- _ => injection H as ? ?; subst
  | H : (if ?b then _ else _) _ = (Ok _, _) |- _ => destruct b eqn:?
  end.
Ltac sql := repeat sql_step.
Ltac same_tables := unfold same in *; cbn [upload_sessions blobs with_sessions with_blobs] in *; intuition congruence.

(** ** The laws *)
Definition views_same (s s' : SqliteStore) : Prop :=
  row_byte_length <$> blobs s' = row_byte_length <$> blobs s /\ upload_sessions s' = upload_sessions s.
Lemma same_views s s' : same s s' -> views_same s s'.
Proof. intros [E1 E2]. unfold views_same. by rewrite E1, E2. Qed.

Lemma sqlite_create u s r s' : create_upload u s = (r, s') ->
  row_byte_length <$> blobs s' = row_byte_length <$> blobs s
  /\ (upload_sessions s' = upload_sessions s /\ is_ok r = false
      \/ upload_sessions s !! new_upload_id u = None
         /\ upload_sessions s' = <[new_upload_id u := new_session u]> (upload_sessions s)
         /\ forall x, r = Ok x -> x = new_session u).
Proof.
  unfold create_upload. destruct (_ || _); [intros [= <- <-]; auto|].
  intros [(e & E & ->)|(u0 & s1 & E & H)]%bind_sql_inv; injection E as E ->; [auto|].
  apply bind_sql_inv in H as [(e & E1%statement_same & ->)|(? & s2 & E1%statement_same & H)].
  { destruct (same_views _ _ E1); auto. }
  unfold tables, bind_sql at 1 in H. destruct (same_views _ _ E1) as [Eb Es].
  apply bind_sql_inv in H as [(e & [-> _]%constraint_same & ->)|(u1 & s3 & E2 & H)]; [auto|].
  destruct u1; apply constraint_same in E2 as [-> Hc]; specialize (Hc eq_refl). apply andb_true_iff in Hc as [Hn Hrow]. rewrite bool_decide_eq_true in Hn.
  apply bind_sql_inv in H as [(e & [=] & ->)|(? & s4 & E3 & H)]. injection E3 as ? ?; subst.
  apply bind_sql_inv in H as [(e & [E4 _]%load_upload_spec & ->)|(o & s5 & [E4 Ho]%load_upload_spec & H)].
  - assert (upload_sessions s1 = upload_sessions s2 /\ blobs s' = blobs s1) as [E5 E6] by same_tables.
    rewrite E5, E6. split; [done|]. right. destruct E4 as [E4 _]. done.
  - apply required_same in H as [-> Hr].
    assert (upload_sessions s1 = upload_sessions s2 /\ blobs s5 = blobs s1) as [E5 E6] by same_tables.
    rewrite E5, E6. split; [done|]. right. destruct E4 as [E4 _]. split_and!; [done|done|].
    intros ? ->. specialize (Hr _ eq_refl). specialize (Ho _ eq_refl). cbn in Ho. rewrite lookup_insert_eq in Ho. congruence.
Qed.

Lemma sqlite_advance id expected offset expires s r s' : advance_upload id expected offset expires s = (r, s') ->
  row_byte_length <$> blobs s' = row_byte_length <$> blobs s
  /\ match r with
     | Err _ => upload_sessions s' = upload_sessions s
     | Ok x' => exists x, upload_sessions s !! id = Some x /\ state x = UploadState.Active /\ upload_offset x = expected
                /\ expected <= offset <= upload_length x /\ x' = advanced x offset expires
                /\ upload_sessions s' = <[id := x']> (upload_sessions s)
     end.
Proof.
  unfold advance_upload. intros [(e & [= _ <-] & ->)|(? & s1 & [= _ <-] & H)]%bind_sql_inv; [done|].
  apply bind_sql_inv in H as [(e & [= _ <-] & ->)|(? & s2 & [= _ <-] & H)]; [done|].
  apply transaction_inv in H. destruct r as [x'|e]; [|by destruct H as [-> ->]].
  destruct H as (s1 & s2 & H1 & H & H2). sql. bool_prop. unfold is_active in *. bool_prop.
  assert (upload_sessions s !! id = Some a0) as Ex by same_tables.
  assert (upload_sessions s' = <[id := advanced a0 offset expires]> (upload_sessions s)) as Es by same_tables.
  assert (x' = advanced a0 offset expires) as ->.
  { cbn in *. rewrite lookup_insert_eq in *. congruence. }
  split; [same_tables|]. exists a0. split_and!; try done; lia.
Qed.

Lemma sqlite_begin id c s r s' : begin_upload_finalize id c s = (r, s') ->
  row_byte_length <$> blobs s' = row_byte_length <$> blobs s
  /\ match r with
     | Err _ => upload_sessions s' = upload_sessions s
     | Ok x' => exists x, upload_sessions s !! id = Some x
                /\ (state x <> UploadState.Active /\ final_content_id x = Some c /\ x' = x
                    /\ upload_sessions s' = upload_sessions s
                    \/ state x = UploadState.Active /\ upload_offset x = upload_length x /\ expects x c = true
                       /\ x' = finalizing x c /\ upload_sessions s' = <[id := x']> (upload_sessions s))
     end.
Proof.
  unfold begin_upload_finalize. intros H%transaction_inv. destruct r as [x'|e]; [|by destruct H as [-> ->]].
  destruct H as (s1 & s2 & H1 & H & H2). sql; unfold is_active in *; bool_prop; try discriminate.
  - split; [same_tables|]. exists x'. split; [same_tables|]. left. split_and!; try done. same_tables.
  - assert (upload_sessions s' = <[id := finalizing a0 c]> (upload_sessions s)) as Es by same_tables.
    assert (x' = finalizing a0 c) as -> by (cbn in *; rewrite lookup_insert_eq in *; congruence).
    split; [same_tables|]. exists a0. split; [same_tables|]. right. split_and!; done.
Qed.

Lemma kept_lookup (c : list Z) row rows stored :
  inserted_or_kept c row rows !! c = Some stored -> row_byte_length stored = row_byte_length row ->
  ((row_byte_length <$> rows) !! c = None \/ (row_byte_length <$> rows) !! c = Some (row_byte_length row))
  /\ row_byte_length <$> inserted_or_kept c row rows = <[c := row_byte_length row]> (row_byte_length <$> rows).
Proof.
  unfold inserted_or_kept. rewrite lookup_fmap. destruct (rows !! c) as [row'|] eqn:Ec; intros Hs Hl.
  - rewrite Ec in Hs. injection Hs as <-. split; [right; cbn; congruence|].
    rewrite insert_id; [done|]. rewrite lookup_fmap, Ec. cbn. congruence.
  - split; [by left|by rewrite fmap_insert].
Qed.

Lemma sqlite_complete id at_ s r s' : complete_upload id at_ s = (r, s') ->
  match r with
  | Err _ => row_byte_length <$> blobs s' = row_byte_length <$> blobs s /\ upload_sessions s' = upload_sessions s
  | Ok d => exists x (c : list Z), upload_sessions s !! id = Some x /\ state x <> UploadState.Active /\ final_content_id x = Some c
            /\ d = ContentDescriptor.mk c (upload_length x)
            /\ ((row_byte_length <$> blobs s) !! c = None \/ (row_byte_length <$> blobs s) !! c = Some (upload_length x))
            /\ row_byte_length <$> blobs s' = <[c := upload_length x]> (row_byte_length <$> blobs s)
            /\ upload_sessions s' = <[id := completed x]> (upload_sessions s)
  end.
Proof.
  unfold complete_upload. intros H%transaction_inv. destruct r as [d|e]; [|by apply same_views].
  destruct H as (s1 & s2 & H1 & H & H2). sql; unfold is_active in *; bool_prop; try discriminate.
  exists a0, a1.
  assert (Eb4 : blobs s4 = blobs s) by same_tables.
  rewrite Eb4 in *.
  assert (Es' : upload_sessions s' = <[id := completed a0]> (upload_sessions s)) by same_tables.
  match goal with E : blobs ?t !! a1 = Some ?row |- _ => assert (Eb' : blobs s' = blobs t) by same_tables;
    rename row into stored; rename E into Estored end.
  rewrite Eb'. unfold content_u64 in *. inv_ok.
  assert (Eb : blobs s10 = inserted_or_kept a1 (mkBlobRow (upload_length a0) at_) (blobs s)) by (by destruct E6).
  rewrite Eb in Estored |- *. destruct (kept_lookup _ _ _ _ Estored) as [Hc1 Hc2]; [done|].
  split_and!; try done. same_tables.
Qed.

Lemma sqlite_content (c : list Z) s r s' : load_content c s = (r, s') ->
  row_byte_length <$> blobs s' = row_byte_length <$> blobs s /\ upload_sessions s' = upload_sessions s
  /\ forall d, r = Ok d -> d = ContentDescriptor.mk c <$> (row_byte_length <$> blobs s) !! c.
Proof. intros [Hs Hr]%load_content_spec. destruct (same_views _ _ Hs). auto. Qed.

Lemma sqlite_upload id s r s' : load_upload id s = (r, s') ->
  row_byte_length <$> blobs s' = row_byte_length <$> blobs s /\ upload_sessions s' = upload_sessions s
  /\ forall x, r = Ok x -> x = upload_sessions s !! id.
Proof. intros [Hs Hr]%load_upload_spec. destruct (same_views _ _ Hs). auto. Qed.

Definition declared (s : SqliteStore) (d : ContentDescriptor.t) : Prop :=
  (row_byte_length <$> blobs s) !! (ContentDescriptor.content_id d : list Z) = Some (ContentDescriptor.byte_length d).
Lemma load_contents_spec cs s r s' : load_contents cs s = (r, s') ->
  same s s' /\ forall ds d, r = Ok ds -> d ∈ ds -> declared s d.
Proof.
  revert s r s'. induction cs as [|c cs IH]; intros s r s'; cbn [load_contents].
  - intros [= <- <-]. split; [done|]. by intros ? d [= <-] ?%elem_of_nil.
  - intros [(e & [Hs _]%load_content_spec & ->)|(o & s1 & [Hs Ho]%load_content_spec & H)]%bind_sql_inv; [done|].
    apply bind_sql_inv in H as [(e & [Hs' _]%IH & ->)|(ds & s2 & [Hs' Hds]%IH & H)]; [by split; [eapply same_trans|]|].
    injection H as <- <-. split; [by eapply same_trans|]. specialize (Ho _ eq_refl). intros ? d [= <-] Hd.
    assert (declared s1 d -> declared s d) as Hmove by (unfold declared; destruct Hs as [_ ->]; done).
    destruct o as [d'|]; [apply elem_of_cons in Hd as [->|Hd]|]; eauto.
    symmetry in Ho. apply fmap_Some in Ho as (n & En & ->). exact En.
Qed.

Lemma dedup_elem ds d : d ∈ dedup_by_key ds -> d ∈ ds.
Proof.
  revert d. induction ds as [|d0 [|d1 rest] IH]; intros d; [done|done|].
  change (dedup_by_key (d0 :: d1 :: rest)) with (match dedup_by_key (d1 :: rest) with
    | e :: kept => if list_eqb (ContentDescriptor.content_id d0) (ContentDescriptor.content_id e) then d0 :: kept else d0 :: e :: kept
    | [] => [d0] end).
  destruct (dedup_by_key (d1 :: rest)) as [|e kept]; [by intros ->%list_elem_of_singleton; left|].
  destruct (list_eqb _ _); intros [->|Hd]%elem_of_cons; try (by left); right; apply IH; [by right|done].
Qed.

Lemma sqlite_available cs s r s' : available_content cs s = (r, s') ->
  row_byte_length <$> blobs s' = row_byte_length <$> blobs s /\ upload_sessions s' = upload_sessions s
  /\ forall ds d, r = Ok ds -> d ∈ ds -> declared s d.
Proof.
  unfold available_content. destruct (_ <? _)%nat; [by intros [= <- <-]|].
  intros [(e & [Hs _]%load_contents_spec & ->)|(ds & s1 & [Hs Hds]%load_contents_spec & H)]%bind_sql_inv;
    destruct (same_views _ _ Hs); [done|].
  injection H as <- <-. split_and!; [done|done|]. intros ? d [= <-] Hd%dedup_elem.
  rewrite merge_sort_Permutation in Hd. eauto.
Qed.

Lemma collect_decode l xs : collect decode_upload_row l = Ok xs -> xs = l.
Proof.
  intros H%collect_Ok. induction H as [|x y l xs Hx _ IH]; [done|]. by rewrite (decode_upload_row_Ok _ _ Hx), IH.
Qed.

Lemma row_ids_NoDup (rows : gmap (list Z) UploadSession) :
  keyed rows -> NoDup (List.map upload_id (List.map snd (map_to_list rows))).
Proof.
  intros Hk. rewrite List.map_map. rewrite (List.map_ext_in _ fst).
  - apply NoDup_fst_map_to_list.
  - intros [id x] Hin%list_elem_of_In%elem_of_map_to_list. by apply Hk.
Qed.

Lemma sqlite_query p time limit s r s' : load_uploads_by_query p time limit s = (r, s') ->
  row_byte_length <$> blobs s' = row_byte_length <$> blobs s /\ upload_sessions s' = upload_sessions s
  /\ forall xs, keyed (upload_sessions s) -> r = Ok xs ->
     NoDup (List.map upload_id xs) /\ (length xs <= limit)%nat
     /\ (forall x, x ∈ xs -> upload_sessions s !! upload_id x = Some x /\ p x = true)
     /\ ((length xs < limit)%nat -> forall id x, upload_sessions s !! id = Some x -> p x = true -> x ∈ xs).
Proof.
  unfold load_uploads_by_query.
  intros [(e & Hs%statement_same & ->)|([] & s1 & Hs%statement_same & H)]%bind_sql_inv; destruct (same_views _ _ Hs) as [? Es]; [done|].
  unfold tables, bind_sql in H. rewrite Es in H.
  set (rows := List.filter p (List.map snd (map_to_list (upload_sessions s)))) in H.
  set (sorted := merge_sort (time_order time) rows) in H.
  assert (Hsorted : sorted ≡ₚ rows) by apply merge_sort_Permutation.
  injection H as <- <-. split_and!; [done|done|]. intros xs Hk ->%collect_decode.
  assert (Hin : forall x, x ∈ rows <-> exists id, upload_sessions s !! id = Some x /\ p x = true).
  { intros x. unfold rows. rewrite list_elem_of_In, filter_In, <- list_elem_of_In, list_elem_of_In, in_map_iff. split.
    - intros (([id y] & <- & Hy%list_elem_of_In%elem_of_map_to_list) & Hp). eauto.
    - intros (id & Hy & Hp). split; [|done]. exists (id, x). split; [done|]. by apply list_elem_of_In, elem_of_map_to_list. }
  split_and!.
  - rewrite <- firstn_map. apply (sublist_NoDup _ (List.map upload_id sorted)); [|apply sublist_take].
    assert (List.map upload_id sorted ≡ₚ List.map upload_id rows) as -> by (by apply Permutation_map).
    eapply sublist_NoDup; [by apply row_ids_NoDup|]. unfold rows. clearbody sorted. clear.
    induction (List.map snd _) as [|y l IH]; [done|]. cbn. destruct (p y); cbn; [apply sublist_skip|apply sublist_cons]; exact IH.
  - rewrite length_firstn. lia.
  - intros x Hx. apply (sublist_subseteq _ _ (sublist_take _ _)) in Hx. rewrite Hsorted in Hx. apply Hin in Hx as (id & Hid & Hp).
    by rewrite (Hk _ _ Hid).
  - rewrite length_firstn. intros Hlt id x Hx Hp. rewrite firstn_all2 by lia. rewrite Hsorted. apply Hin. eauto.
Qed.

(** ** A healthy database *)
Definition row_fits (x : UploadSession) : bool := upload_row_ok x && (upload_length x <? 2 ^ 63).
Record sound_tables (s : SqliteStore) : Prop := {
  no_engine_failure : engine s = [];
  rows_fit : forall id x, upload_sessions s !! id = Some x -> row_fits x = true;
  blobs_fit : forall c row, blobs s !! c = Some row -> blob_row_ok row = true
}.

(** A block that succeeds, with its answer and the database it leaves. *)
Definition lands {A} (m : Sql A) (s : SqliteStore) (Q : A -> SqliteStore -> Prop) : Prop :=
  match m s with (Ok a, s') => Q a s' | (Err _, _) => False end.
Lemma lands_bind {A B} (m : Sql A) (k : A -> Sql B) s Q :
  lands m s (fun a s' => lands (k a) s' Q) -> lands (bind_sql m k) s Q.
Proof. unfold lands, bind_sql. destruct (m s) as [[a|] s']; [done|by intros []]. Qed.

(** A call that succeeds and leaves a healthy database. *)
Definition succeeds {A} (m : Sql A) (s : SqliteStore) : Prop := lands m s (fun _ => sound_tables).
Lemma succeeds_call {A} (m : Sql A) s : succeeds m s -> is_ok (fst (m s)) = true /\ sound_tables (snd (m s)).
Proof. unfold succeeds, lands. by destruct (m s) as [[] ?]. Qed.

Lemma statement_sound s : sound_tables s -> statement s = (Ok tt, s).
Proof. intros [He _ _]. unfold statement. by rewrite He. Qed.
Lemma row_fits_inv x : row_fits x = true ->
  0 <= upload_offset x <= upload_length x /\ upload_length x < 2 ^ 63 /\ 0 <= created_at_unix_ms x <= expires_at_unix_ms x
  /\ decode_upload_row x = Ok x.
Proof.
  unfold row_fits, upload_row_ok, decode_upload_row, content_u64. intros H. bool_prop.
  repeat match goal with |- context [0 <=? ?z] => replace (0 <=? z) with true by (symmetry; apply Z.leb_le; lia) end.
  split_and!; try lia. done.
Qed.
Lemma load_upload_sound id s : sound_tables s -> load_upload id s = (Ok (upload_sessions s !! id), s).
Proof.
  intros Hs. unfold load_upload, bind_sql at 1. rewrite (statement_sound _ Hs). unfold tables, bind_sql at 1.
  destruct (upload_sessions s !! id) as [x|] eqn:Ex; [|done].
  pose proof (row_fits_inv x (rows_fit s Hs _ _ Ex)) as (_ & _ & _ & Ed). unfold bind_sql, result_of. by rewrite Ed.
Qed.
Lemma update_sound id x s : sound_tables s -> row_fits x = true -> sound_tables (with_sessions s (<[id := x]> (upload_sessions s))).
Proof.
  intros [He Hr Hb] Hx. split; [done| |done]. intros id' y. cbn. intros [[-> <-]|[Hne Hy]]%lookup_insert_Some; [done|eauto].
Qed.
Lemma fits_advanced x offset expires : row_fits x = true -> 0 <= offset <= upload_length x -> created_at_unix_ms x <= expires ->
  row_fits (advanced x offset expires) = true.
Proof.
  unfold row_fits, upload_row_ok. cbn. intros H Ho He. bool_prop.
  repeat (apply andb_true_iff; split); try done; try (apply Z.leb_le; lia); by apply Z.ltb_lt.
Qed.
Lemma fits_finalizing x c : row_fits x = true -> row_fits (finalizing x c) = true.
Proof.
  unfold row_fits, upload_row_ok. cbn. intros H. bool_prop.
  repeat (apply andb_true_iff; split); try done; try (apply Z.leb_le; lia); by apply Z.ltb_lt.
Qed.
Lemma fits_completed x : row_fits x = true -> state x <> UploadState.Active -> row_fits (completed x) = true.
Proof.
  unfold row_fits, upload_row_ok. cbn. intros H Ha. bool_prop.
  repeat (apply andb_true_iff; split); try done; try (apply Z.leb_le; lia); try (by apply Z.ltb_lt).
  all: by destruct (state x), (final_content_id x).
Qed.
Lemma fits_row x : row_fits x = true -> upload_row_ok x = true.
Proof. unfold row_fits. intros [H _]%andb_true_iff. done. Qed.

Lemma content_i64_small z : z < 2 ^ 63 -> content_i64 z = Ok z.
Proof. unfold content_i64. intros H. by apply Z.ltb_lt in H as ->. Qed.


Lemma lands_now {A} (m : Sql A) s a s' Q : m s = (Ok a, s') -> Q a s' -> lands m s Q.
Proof. unfold lands. by intros ->. Qed.
Lemma lands_statement s Q : sound_tables s -> Q tt s -> lands statement s Q.
Proof. intros Hs HQ. unfold lands. by rewrite statement_sound. Qed.
Lemma lands_load id s (Q : _ -> _ -> Prop) : sound_tables s -> Q (upload_sessions s !! id) s -> lands (load_upload id) s Q.
Proof. intros Hs HQ. unfold lands. by rewrite load_upload_sound. Qed.
Lemma lands_constraint b s Q : b = true -> Q tt s -> lands (constraint b) s Q.
Proof. by intros ->. Qed.
Lemma lands_required {A} e (o : option A) a s (Q : A -> _ -> Prop) : o = Some a -> Q a s -> lands (required e o) s Q.
Proof. by intros ->. Qed.
Lemma lands_result {A} (r : result ContentRepositoryError.t A) a s (Q : A -> _ -> Prop) : r = Ok a -> Q a s -> lands (result_of r) s Q.
Proof. by intros ->. Qed.
Lemma lands_transaction {A} (m : Sql A) s : sound_tables s -> succeeds m s -> succeeds (transaction m) s.
Proof.
  intros Hs Hm. unfold succeeds, lands, transaction.
  assert (lands (bind_sql statement (fun _ => bind_sql m (fun a => bind_sql statement (fun _ => done_ a)))) s (fun _ => sound_tables)) as H.
  { apply lands_bind, lands_statement; [done|]. apply lands_bind. revert Hm. unfold succeeds, lands at 1 2.
    destruct (m s) as [[a|] s']; [|done]. intros Hs'. by apply lands_bind, lands_statement. }
  unfold lands in H. destruct (bind_sql statement _ s) as [[a|] s']; done.
Qed.

(** Runs a block on a healthy database. *)
Ltac lands_step :=
  match goal with
  | |- lands (bind_sql _ _) _ _ => apply lands_bind
  | |- lands statement _ _ => apply lands_statement; [eauto using update_sound|]
  | |- lands (load_upload _) _ _ => apply lands_load; [eauto using update_sound|]
  | |- lands tables ?s ?Q => apply (lands_now (A := SqliteStore) tables s s s Q eq_refl)
  | |- lands (put ?s') ?s ?Q => apply (lands_now (put s') s tt s' Q eq_refl)
  | |- lands (done_ ?a) ?s ?Q => apply (lands_now (done_ a) s a s Q eq_refl)
  | |- lands (constraint _) _ _ => apply lands_constraint; [eauto using fits_row|]
  | |- lands (required _ _) _ _ => eapply lands_required; [first [eassumption|by apply lookup_insert_eq]|]
  end.

Lemma sound_advance id x offset expires s : sound_tables s -> upload_sessions s !! id = Some x -> state x = UploadState.Active ->
  upload_offset x <= offset <= upload_length x -> created_at_unix_ms x <= expires ->
  succeeds (advance_upload id (upload_offset x) offset expires) s.
Proof.
  intros Hs Hx Ha Ho He. pose proof (row_fits_inv x (rows_fit s Hs _ _ Hx)) as (Hoff & Hlen & _ & _).
  assert (row_fits (advanced x offset expires) = true) as Hfit by (apply fits_advanced; [by eapply rows_fit|lia|done]).
  unfold advance_upload. rewrite !content_i64_small by lia. apply (lands_transaction _ s Hs).
  unfold succeeds. repeat lands_step. unfold is_active. rewrite bool_decide_true by done. rewrite Z.eqb_refl. cbn [negb].
  replace (offset <? upload_offset x) with false by (symmetry; apply Z.ltb_ge; lia).
  replace (upload_length x <? offset) with false by (symmetry; apply Z.ltb_ge; lia). cbn [orb].
  repeat lands_step. exact (update_sound _ _ _ Hs Hfit).
Qed.

Lemma sound_begin id x c s : sound_tables s -> upload_sessions s !! id = Some x -> state x = UploadState.Active ->
  upload_offset x = upload_length x -> expects x c = true -> succeeds (begin_upload_finalize id c) s.
Proof.
  intros Hs Hx Ha Ho He.
  assert (row_fits (finalizing x c) = true) as Hfit by (apply fits_finalizing; by eapply rows_fit).
  unfold begin_upload_finalize. apply (lands_transaction _ s Hs).
  unfold succeeds. repeat lands_step. unfold is_active. rewrite bool_decide_true by done. rewrite Ho, Z.eqb_refl, He. cbn [negb].
  repeat lands_step. exact (update_sound _ _ _ Hs Hfit).
Qed.

Lemma blobs_sound (c : list Z) row s : sound_tables s -> blob_row_ok row = true ->
  sound_tables (with_blobs s (inserted_or_kept c row (blobs s))).
Proof.
  intros [He Hr Hb] Hrow. split; [done|done|]. intros c' row'. cbn. unfold inserted_or_kept. destruct (blobs s !! c); [apply Hb|].
  intros [[-> <-]|[_ Hr']]%lookup_insert_Some; [done|eauto].
Qed.

Lemma kept_blob_row (rows : gmap (list Z) BlobRow) (c : list Z) row n :
  (row_byte_length <$> rows) !! c = None \/ (row_byte_length <$> rows) !! c = Some n -> row_byte_length row = n ->
  exists row', inserted_or_kept c row rows !! c = Some row' /\ row_byte_length row' = n.
Proof.
  unfold inserted_or_kept. rewrite lookup_fmap. destruct (rows !! c) as [row'|] eqn:Ec; intros Hn Hrow.
  - exists row'. rewrite Ec. split; [done|]. by destruct Hn as [|[=]].
  - exists row. by rewrite lookup_insert_eq.
Qed.

Lemma sound_complete id x (c : list Z) at_ s : sound_tables s -> upload_sessions s !! id = Some x -> state x <> UploadState.Active ->
  final_content_id x = Some c ->
  (row_byte_length <$> blobs s) !! c = None \/ (row_byte_length <$> blobs s) !! c = Some (upload_length x) ->
  upload_length x <= MAX_CONTENT_BYTE_LENGTH -> 0 <= at_ -> succeeds (complete_upload id at_) s.
Proof.
  intros Hs Hx Ha Hc Hstored Hmax Hat. pose proof (row_fits_inv x (rows_fit s Hs _ _ Hx)) as (Hoff & Hlen & _ & _).
  assert (row_fits (completed x) = true) as Hfit by (apply fits_completed; [by eapply rows_fit|done]).
  assert (blob_row_ok (mkBlobRow (upload_length x) at_) = true) as Hrow.
  { unfold blob_row_ok. cbn. apply andb_true_iff. split; apply Z.leb_le; lia. }
  unfold complete_upload. apply (lands_transaction _ s Hs). unfold succeeds. repeat lands_step.
  unfold is_active. rewrite bool_decide_false by done. repeat lands_step.
  replace (is_ok (validate_byte_length (upload_length x))) with true.
  2: { unfold validate_byte_length. by replace (MAX_CONTENT_BYTE_LENGTH <? upload_length x) with false by (symmetry; apply Z.ltb_ge; lia). }
  cbn [negb]. rewrite content_i64_small by lia. apply lands_bind. eapply lands_result; [done|].
  pose proof (blobs_sound c _ s Hs Hrow) as Hs'.
  set (s' := with_blobs s _) in *.
  assert (exists row, blobs s' !! c = Some row /\ row_byte_length row = upload_length x) as (row & Hrow' & El).
  { by apply kept_blob_row. }
  repeat lands_step. fold s'. repeat lands_step. eapply lands_result.
  { unfold content_u64. rewrite El. by replace (0 <=? upload_length x) with true by (symmetry; apply Z.leb_le; lia). }
  rewrite Z.eqb_refl. cbn [negb]. repeat lands_step. exact (update_sound id _ s' Hs' Hfit).
Qed.

Lemma sound_content (c : list Z) s : sound_tables s -> succeeds (load_content c) s.
Proof.
  intros Hs. unfold load_content, succeeds. repeat lands_step. destruct (blobs s !! c) as [row|] eqn:Ec; [|done].
  pose proof (blobs_fit s Hs _ _ Ec) as Hrow. unfold blob_row_ok in Hrow. apply andb_true_iff in Hrow as [Hrow _].
  apply lands_bind. eapply lands_result; [unfold content_u64; by rewrite Hrow|]. done.
Qed.

Lemma sound_query p time limit s : sound_tables s -> succeeds (load_uploads_by_query p time limit) s.
Proof.
  intros Hs. unfold load_uploads_by_query, succeeds. repeat lands_step.
  set (rows := firstn _ _).
  assert (forall x, x ∈ rows -> decode_upload_row x = Ok x) as Hrows.
  { intros x Hx. apply (sublist_subseteq _ _ (sublist_take _ _)) in Hx. rewrite merge_sort_Permutation in Hx.
    apply list_elem_of_In, filter_In in Hx as [Hx _]. apply in_map_iff in Hx as ([id y] & <- & Hy%list_elem_of_In%elem_of_map_to_list).
    by apply row_fits_inv, (rows_fit s Hs id). }
  eapply lands_result; [|done].
  rewrite <- (List.map_id rows) at 1. apply (collect_map_ok (fun x => x) decode_upload_row (fun x => x)). done.
Qed.

Lemma sound_delete id s : sound_tables s -> succeeds (delete_upload id) s.
Proof.
  intros Hs. unfold delete_upload, succeeds. repeat lands_step. destruct Hs as [He Hr Hb]. split; [done| |done].
  intros id' x. cbn. intros [_ Hx]%lookup_delete_Some. eauto.
Qed.

Lemma sound_upload id s : sound_tables s -> succeeds (load_upload id) s.
Proof. intros Hs. unfold succeeds. by apply lands_load. Qed.

#[export] Instance sqlite_laws : ContentRepositoryLaws (H := sqlite_repository).
Proof.
  refine {|
    sessions := upload_sessions;
    contents := fun s => row_byte_length <$> blobs s;
    healthy := sound_tables;
    create_law := sqlite_create;
    upload_law := sqlite_upload;
    advance_law := sqlite_advance;
    begin_law := sqlite_begin;
    complete_law := sqlite_complete;
    content_law := sqlite_content;
    available_law := sqlite_available;
    requiring_law := fun limit => sqlite_query requires_finalization created_at_unix_ms limit;
    expired_law := fun now limit => sqlite_query (has_expired now) expires_at_unix_ms limit;
    upload_healthy := fun id s H => succeeds_call _ s (sound_upload id s H);
    advance_healthy := fun id x offset expires s H Hx Ha Ho He => succeeds_call _ s (sound_advance id x offset expires s H Hx Ha Ho He);
    begin_healthy := fun id x c s H Hx Ha Ho He => succeeds_call _ s (sound_begin id x c s H Hx Ha Ho He);
    complete_healthy := fun id x c at_ s H Hx Ha Hc Hst Hmax Hat => succeeds_call _ s (sound_complete id x c at_ s H Hx Ha Hc Hst Hmax Hat);
    content_healthy := fun c s H => succeeds_call _ s (sound_content c s H);
    requiring_healthy := fun limit s H => succeeds_call _ s (sound_query _ _ limit s H);
    expired_healthy := fun now limit s H => succeeds_call _ s (sound_query _ _ limit s H);
    delete_healthy := fun id s H => succeeds_call _ s (sound_delete id s H)
  |}.
  - intros id s r s'. cbn. unfold delete_upload.
    intros [(e & Hs%statement_same & ->)|(u & s1 & Hs%statement_same & H)]%bind_sql_inv; destruct (same_views _ _ Hs) as [Eb Es]; [done|].
    injection H as <- <-. cbn. by rewrite Es.
Defined.
