(* ===== verification/BlobStore.v ===== *)
(** * The node's blob store (crates/fractonica-blob-store/src/lib.rs)

    [BlobStore] is the directory of the store, its cache of verified files and the
    repository behind it.  Every call of the file system and of the repository takes an
    entry of [faults]: it succeeds, it fails, or the process ends there; a write that
    does not succeed leaves a prefix of its bytes.  An error runs the code that handles
    it, the end of the process does not: [open_with_limits] starts over from the files.
    The clock is any sequence of readings.  The loops of the recovery run on fuel;
    what runs out of it counts as ended.  Objects that are not regular files or directories,
    permissions and poisoned locks are not modelled; operations do not interleave. *)
From S2P Require Import Prelude Bytes Crypto Content UploadRepository.

Definition DEFAULT_MAX_BLOB_BYTES : Z := 16 * 1024 * 1024 * 1024.
Definition MAX_PATCH_BYTES : Z := 4 * 1024 * 1024.
Definition DEFAULT_UPLOAD_TTL_MS : Z := 7 * 24 * 60 * 60 * 1000.
Definition MAINTENANCE_BATCH : nat := 1024.
Definition UPLOAD_LOCK_STRIPES : Z := 64.

(** The text of a UUID, which the uuid crate writes and reads. *)
Class Uuid := {
  uuid_display : list Z -> list Z;
  uuid_parse : list Z -> option (list Z);
  uuid_parse_display id : uuid_parse (uuid_display id) = Some id;
  uuid_ascii id : valid_utf8 (uuid_display id ++ str ".part") = true
}.

(** The clock and the limits of a store. *)
Class BlobSettings := { now : nat -> Z; max_blob_bytes : Z; upload_ttl_ms : Z }.

(** ** Requests and answers *)
Record CreateUpload : Type := mkCreateUpload {
  create_length : Z;
  create_expected_content_id : option ContentId.t;
  create_upload_metadata : option (list Z);
  create_media_type : option (list Z);
  create_original_name : option (list Z)
}.
Record AppendOutcome : Type := mkAppendOutcome { outcome_session : UploadSession; outcome_content : option ContentDescriptor.t }.
Record Availability : Type := mkAvailability { available : list ContentDescriptor.t; missing : list ContentId.t }.

Module IoKind.
Inductive t : Type := AlreadyExists | NotFound | Other.
End IoKind.

Module BlobStoreError.
Inductive t : Type :=
| Io (kind : IoKind.t)
| Repository (e : ContentRepositoryError.t)
| ClockBeforeUnixEpoch
| UploadTooLarge (found maximum : Z)
| PatchTooLarge (found maximum : Z)
| UploadNotFound (id : list Z)
| UploadExpired (id : list Z)
| UploadNotActive (id : list Z)
| OffsetMismatch (expected supplied : Z)
| UploadOverflow (attempted upload_length : Z)
| ChunkChecksumMismatch
| ContentIdMismatch (expected actual : ContentId.t)
| Corrupt.
End BlobStoreError.
#[local] Notation error := BlobStoreError.t.

(** ** The directory *)
Inductive Directory : Type := Root | StagingDirectory | BlobsDirectory | AlgorithmDirectory | Fan (b0 : Z) | FanFan (b0 b1 : Z).
#[export] Instance directory_eq_dec : EqDecision Directory.
Proof. solve_decision. Defined.
#[export] Instance directory_countable : Countable Directory.
Proof.
  refine (inj_countable'
    (fun d => match d with Root => (0, 0, 0) | StagingDirectory => (1, 0, 0) | BlobsDirectory => (2, 0, 0)
              | AlgorithmDirectory => (3, 0, 0) | Fan b0 => (4, b0, 0) | FanFan b0 b1 => (5, b0, b1) end)
    (fun '(k, b0, b1) => if k =? 0 then Root else if k =? 1 then StagingDirectory else if k =? 2 then BlobsDirectory
       else if k =? 3 then AlgorithmDirectory else if k =? 4 then Fan b0 else FanFan b0 b1) _).
  by intros [].
Defined.
(** The components of a path below the root. *)
Definition components (d : Directory) : list Directory :=
  match d with
  | Root => []
  | StagingDirectory => [StagingDirectory]
  | BlobsDirectory => [BlobsDirectory]
  | AlgorithmDirectory => [BlobsDirectory; AlgorithmDirectory]
  | Fan b0 => [BlobsDirectory; AlgorithmDirectory; Fan b0]
  | FanFan b0 b1 => [BlobsDirectory; AlgorithmDirectory; Fan b0; FanFan b0 b1]
  end.
(** The parent of [blob_path]: the first two bytes of the digest. *)
Definition blob_parent (c : ContentId.t) : Directory := FanFan (nth 0 c 0) (nth 1 c 0).

Record StoredFile : Type := mkStored { stored_bytes : list Z; stored_inode : nat; stored_changed : Z }.
Definition stored_length (f : StoredFile) : Z := Z.of_nat (length (stored_bytes f)).

(** [FileFingerprint]. *)
Record FileFingerprint : Type := mkFingerprint { print_length : Z; print_inode : nat; print_changed : Z }.
#[export] Instance file_fingerprint_eq_dec : EqDecision FileFingerprint.
Proof. solve_decision. Defined.
Definition file_fingerprint (f : StoredFile) : FileFingerprint :=
  mkFingerprint (stored_length f) (stored_inode f) (stored_changed f).

Inductive Fault : Type := Passes | Fails (written : nat) | Ends (written : nat).

Section BlobStore.
Context `{Sha256} `{Uuid} `{ContentRepository} `{BlobSettings}.

(** The files of [staging] by their names, and the blobs by their identities. *)
Record BlobStore : Type := mkStore {
  directories : gset Directory;
  staging : gmap (list Z) StoredFile;
  finals : gmap (list Z) StoredFile;
  next_inode : nat;
  change_time : Z;
  verified_files : gmap (list Z) FileFingerprint;
  repository : Repo;
  faults : list Fault;
  readings : nat
}.
Definition with_faults (s : BlobStore) (faults : list Fault) : BlobStore :=
  mkStore (directories s) (staging s) (finals s) (next_inode s) (change_time s) (verified_files s) (repository s) faults (readings s).
Definition with_repository (s : BlobStore) (σ : Repo) : BlobStore :=
  mkStore (directories s) (staging s) (finals s) (next_inode s) (change_time s) (verified_files s) σ (faults s) (readings s).
Definition with_directories (s : BlobStore) (directories : gset Directory) : BlobStore :=
  mkStore directories (staging s) (finals s) (next_inode s) (change_time s) (verified_files s) (repository s) (faults s) (readings s).
Definition with_verified (s : BlobStore) (verified : gmap (list Z) FileFingerprint) : BlobStore :=
  mkStore (directories s) (staging s) (finals s) (next_inode s) (change_time s) verified (repository s) (faults s) (readings s).
Definition with_reading (s : BlobStore) : BlobStore :=
  mkStore (directories s) (staging s) (finals s) (next_inode s) (change_time s) (verified_files s) (repository s) (faults s) (S (readings s)).
Definition with_staging (s : BlobStore) (staging : gmap (list Z) StoredFile) : BlobStore :=
  mkStore (directories s) staging (finals s) (next_inode s) (change_time s) (verified_files s) (repository s) (faults s) (readings s).
(** A file of [staging] is created, changed or moved to its blob path. *)
Definition with_new_file (s : BlobStore) (name : list Z) : BlobStore :=
  mkStore (directories s) (<[name := mkStored [] (next_inode s) (change_time s + 1)]> (staging s)) (finals s)
    (S (next_inode s)) (change_time s + 1) (verified_files s) (repository s) (faults s) (readings s).
Definition with_bytes (s : BlobStore) (name : list Z) (f : StoredFile) (bytes : list Z) : BlobStore :=
  mkStore (directories s) (<[name := mkStored bytes (stored_inode f) (change_time s + 1)]> (staging s)) (finals s)
    (next_inode s) (change_time s + 1) (verified_files s) (repository s) (faults s) (readings s).
Definition with_renamed (s : BlobStore) (name : list Z) (f : StoredFile) (c : ContentId.t) : BlobStore :=
  mkStore (directories s) (delete name (staging s))
    (<[c := mkStored (stored_bytes f) (stored_inode f) (change_time s + 1)]> (finals s))
    (next_inode s) (change_time s + 1) (verified_files s) (repository s) (faults s) (readings s).

(** ** Computations *)
Inductive Outcome (A : Type) : Type := Done (a : A) | Failed (e : error) | Ended.
#[global] Arguments Done {A} _.
#[global] Arguments Failed {A} _.
#[global] Arguments Ended {A}.

Definition B (A : Type) : Type := BlobStore -> Outcome A * BlobStore.
Definition yields {A} (a : A) : B A := fun s => (Done a, s).
Definition throws {A} (e : error) : B A := fun s => (Failed e, s).
Definition ends {A} : B A := fun s => (Ended, s).
Definition bind_blob {A B'} (m : B A) (k : A -> B B') : B B' :=
  fun s => match m s with (Done a, s) => k a s | (Failed e, s) => (Failed e, s) | (Ended, s) => (Ended, s) end.
Definition catch {A} (m : B A) (handler : error -> B A) : B A :=
  fun s => match m s with (Failed e, s) => handler e s | other => other end.
Definition from_result {A} (r : result error A) : B A := match r with Ok a => yields a | Err e => throws e end.
Definition get : B BlobStore := fun s => (Done s, s).
Definition modify (f : BlobStore -> BlobStore) : B unit := fun s => (Done tt, f s).

Local Notation "'let#' x ':=' m 'in' k" := (bind_blob m (fun x => k))
  (at level 10, x pattern, m at level 100, k at level 200).
Local Notation "m ';#' k" := (bind_blob m (fun _ => k)) (at level 100, k at level 200, right associativity).

Definition next_fault : B Fault :=
  fun s => match faults s with [] => (Done Passes, s) | f :: rest => (Done f, with_faults s rest) end.
(** A call of the file system that changes nothing by itself. *)
Definition io : B unit :=
  let# f := next_fault in
  match f with Passes => yields tt | Fails _ => throws (BlobStoreError.Io IoKind.Other) | Ends _ => ends end.
Definition call {A} (f : Repo -> result ContentRepositoryError.t A * Repo) : B A :=
  let# fault := next_fault in
  match fault with
  | Ends _ => ends
  | _ =>
      let# s := get in
      let (r, σ) := f (repository s) in
      modify (fun s => with_repository s σ) ;#
      from_result (map_err BlobStoreError.Repository r)
  end.

Definition unix_time_millis : B Z :=
  let# s := get in
  modify with_reading ;#
  let time := now (readings s) in
  if (0 <=? time) && (time <? 2 ^ 63) then yields time else throws BlobStoreError.ClockBeforeUnixEpoch.

(** ** Directories and files *)
Definition sync_directory : B unit := io ;# io.
Fixpoint prepare_components (ds : list Directory) : B unit :=
  match ds with
  | [] => yields tt
  | d :: ds =>
      io ;#
      let# s := get in
      (if bool_decide (d ∈ directories s) then yields tt
       else io ;# modify (fun s => with_directories s ({[ d ]} ∪ directories s)) ;# io ;# sync_directory) ;#
      io ;#
      prepare_components ds
  end.
Definition prepare_private_subdirectory (d : Directory) : B unit := prepare_components (components d).
Definition prepare_private_directory : B unit :=
  io ;#
  let# s := get in
  let# created := (if bool_decide (Root ∈ directories s) then yields false
                   else io ;# modify (fun s => with_directories s ({[ Root ]} ∪ directories s)) ;# yields true) in
  io ;#
  if created : bool then sync_directory else yields tt.

Fixpoint validate_components (ds : list Directory) : B unit :=
  match ds with
  | [] => yields tt
  | d :: ds =>
      io ;#
      let# s := get in
      if bool_decide (d ∈ directories s) then validate_components ds
      else throws (BlobStoreError.Io IoKind.NotFound)
  end.
Definition validate_private_subdirectory (d : Directory) : B unit := validate_components (components d).

Definition staging_name (id : list Z) : list Z := uuid_display id ++ str ".part".

(** [fs::symlink_metadata]. *)
Definition symlink_metadata (files : BlobStore -> gmap (list Z) StoredFile) (name : list Z) : B StoredFile :=
  io ;#
  let# s := get in
  match files s !! name with Some f => yields f | None => throws (BlobStoreError.Io IoKind.NotFound) end.
(** The file as it is when it was opened. *)
Definition open_regular_file (files : BlobStore -> gmap (list Z) StoredFile) (name : list Z) : B StoredFile :=
  let# f := symlink_metadata files name in io ;# io ;# yields f.
Definition hash_file (f : StoredFile) : B ContentId.t := io ;# io ;# yields (sha256 (stored_bytes f)).

Definition prepare_private_file (name : list Z) : B unit :=
  io ;#
  let# s := get in
  match staging s !! name with
  | Some _ => throws (BlobStoreError.Io IoKind.AlreadyExists)
  | None => modify (fun s => with_new_file s name) ;# io
  end.
Definition set_len (name : list Z) (f : StoredFile) (length : Z) : B StoredFile :=
  io ;#
  let# s := get in
  modify (fun s => with_bytes s name f (firstn (Z.to_nat length) (stored_bytes f))) ;#
  yields (mkStored (firstn (Z.to_nat length) (stored_bytes f)) (stored_inode f) (change_time s + 1)).
(** A write at the end of the file. *)
Definition write_all (name : list Z) (f : StoredFile) (bytes : list Z) : B StoredFile :=
  let# fault := next_fault in
  let# s := get in
  match fault with
  | Passes =>
      modify (fun s => with_bytes s name f (stored_bytes f ++ bytes)) ;#
      yields (mkStored (stored_bytes f ++ bytes) (stored_inode f) (change_time s + 1))
  | Fails written =>
      modify (fun s => with_bytes s name f (stored_bytes f ++ firstn written bytes)) ;# throws (BlobStoreError.Io IoKind.Other)
  | Ends written => modify (fun s => with_bytes s name f (stored_bytes f ++ firstn written bytes)) ;# ends
  end.
Definition remove_file (name : list Z) : B unit :=
  io ;#
  let# s := get in
  match staging s !! name with
  | Some _ => modify (fun s => with_staging s (delete name (staging s)))
  | None => throws (BlobStoreError.Io IoKind.NotFound)
  end.
Definition if_not_found {A} (otherwise : B A) (e : error) : B A :=
  match e with BlobStoreError.Io IoKind.NotFound => otherwise | _ => throws e end.
Definition remove_staging_file (id : list Z) : B unit :=
  validate_private_subdirectory StagingDirectory ;#
  let# removed := catch (remove_file (staging_name id) ;# yields true) (if_not_found (yields false)) in
  if removed : bool then sync_directory else yields tt.

(** ** Publication *)
Definition install_final_file (session : UploadSession) : B unit :=
  match final_content_id session with
  | None => throws BlobStoreError.Corrupt
  | Some c =>
      let name := staging_name (upload_id session) in
      prepare_private_subdirectory (blob_parent c) ;#
      let# existing := catch (let# f := symlink_metadata finals c in yields (Some f)) (if_not_found (yields None)) in
      match existing with
      | Some f =>
          if negb (stored_length f =? upload_length session) then throws BlobStoreError.Corrupt
          else
            let# f := open_regular_file finals c in
            let# actual := hash_file f in
            if negb (list_eqb actual c) then throws BlobStoreError.Corrupt
            else remove_staging_file (upload_id session)
      | None =>
          let# f := symlink_metadata staging name in
          io ;#
          modify (fun s => with_renamed s name f c) ;#
          io ;#
          sync_directory ;# sync_directory
      end
  end.
Definition publish_final_file : UploadSession -> B unit := install_final_file.

Definition finalize_locked_with_id (session : UploadSession) (c : ContentId.t) : B AppendOutcome :=
  let# session := call (repo_begin_upload_finalize (upload_id session) c) in
  publish_final_file session ;#
  let# stored_at := unix_time_millis in
  let# descriptor := call (repo_complete_upload (upload_id session) stored_at) in
  let# found := call (repo_upload (upload_id session)) in
  match found with
  | None => throws (BlobStoreError.UploadNotFound (upload_id session))
  | Some session => yields (mkAppendOutcome session (Some descriptor))
  end.

Definition require_expected (session : UploadSession) (actual : ContentId.t) : result error unit :=
  match expected_content_id session with
  | Some expected => if list_eqb expected actual then Ok tt else Err (BlobStoreError.ContentIdMismatch expected actual)
  | None => Ok tt
  end.
Definition finalize_locked (session : UploadSession) : B AppendOutcome :=
  validate_private_subdirectory StagingDirectory ;#
  let# f := open_regular_file staging (staging_name (upload_id session)) in
  let# c := hash_file f in
  from_result (require_expected session c) ;#
  finalize_locked_with_id session c.

(** ** Uploads *)
(** [checked_add]. *)
Definition expiry (time : Z) : B Z :=
  match checked_i64 (time + upload_ttl_ms) with Some e => yields e | None => throws BlobStoreError.ClockBeforeUnixEpoch end.

(** An empty upload names the empty content, if it names any. *)
Definition validate_empty (request : CreateUpload) : result error unit :=
  match create_expected_content_id request with
  | Some expected =>
      if (create_length request =? 0) && negb (list_eqb expected (sha256 []))
      then Err (BlobStoreError.ContentIdMismatch expected (sha256 [])) else Ok tt
  | None => Ok tt
  end.
(** The identity is the one [Uuid::now_v7] draws. *)
Definition create_upload (id : list Z) (request : CreateUpload) : B UploadSession :=
  if max_blob_bytes <? create_length request
  then throws (BlobStoreError.UploadTooLarge (create_length request) max_blob_bytes)
  else
    from_result (validate_empty request) ;#
    let# time := unix_time_millis in
    let# expires_at := expiry time in
    validate_private_subdirectory StagingDirectory ;#
    prepare_private_file (staging_name id) ;#
    sync_directory ;#
    let# session := catch
      (call (repo_create_upload (mkNewUpload id (create_length request) (create_expected_content_id request)
         (create_upload_metadata request) (create_media_type request) (create_original_name request) time expires_at)))
      (fun e => (catch (remove_file (staging_name id) ;# catch sync_directory (fun _ => yields tt)) (fun _ => yields tt)) ;#
                throws e) in
    if upload_length session =? 0
    then let# outcome := finalize_locked session in yields (outcome_session outcome)
    else yields session.

Definition upload (id : list Z) : B (option UploadSession) := call (repo_upload id).

Definition append_chunk (id : list Z) (supplied_offset : Z) (bytes : list Z) (checksum : option (list Z)) : B AppendOutcome :=
  let byte_count := Z.of_nat (length bytes) in
  if MAX_PATCH_BYTES <? byte_count then throws (BlobStoreError.PatchTooLarge byte_count MAX_PATCH_BYTES)
  else if match checksum with Some expected => negb (list_eqb (sha256 bytes) expected) | None => false end
  then throws BlobStoreError.ChunkChecksumMismatch
  else
    let# found := call (repo_upload id) in
    match found with
    | None => throws (BlobStoreError.UploadNotFound id)
    | Some session =>
        let# time := unix_time_millis in
        if negb (is_active session) then throws (BlobStoreError.UploadNotActive id)
        else if expires_at_unix_ms session <=? time then throws (BlobStoreError.UploadExpired id)
        else if negb (supplied_offset =? upload_offset session)
        then throws (BlobStoreError.OffsetMismatch (upload_offset session) supplied_offset)
        else
          match checked_u 64 (supplied_offset + byte_count) with
          | None => throws (BlobStoreError.UploadOverflow (2 ^ 64 - 1) (upload_length session))
          | Some new_offset =>
              if upload_length session <? new_offset
              then throws (BlobStoreError.UploadOverflow new_offset (upload_length session))
              else
                validate_private_subdirectory StagingDirectory ;#
                let name := staging_name id in
                let# f := open_regular_file staging name in
                io ;#
                if stored_length f <? upload_offset session then throws BlobStoreError.Corrupt
                else
                  let# f := (if upload_offset session <? stored_length f
                             then set_len name f (upload_offset session) else yields f) in
                  io ;#
                  let# f := write_all name f bytes in
                  io ;#
                  let# expires := expiry time in
                  if new_offset =? upload_length session
                  then
                    let# actual := hash_file f in
                    match require_expected session actual with
                    | Err e => let# _ := set_len name f (upload_offset session) in io ;# throws e
                    | Ok _ =>
                        let# advanced := call (repo_advance_upload id supplied_offset new_offset expires) in
                        finalize_locked_with_id advanced actual
                    end
                  else
                    let# session := call (repo_advance_upload id supplied_offset new_offset expires) in
                    yields (mkAppendOutcome session None)
          end
    end.

(** ** Blobs *)
Definition blob (c : ContentId.t) : B (option ContentDescriptor.t) :=
  let# found := call (repo_content c) in
  match found with
  | None => yields None
  | Some descriptor =>
      validate_private_subdirectory (blob_parent c) ;#
      let# f := catch (open_regular_file finals c) (if_not_found (throws BlobStoreError.Corrupt)) in
      io ;#
      if negb (stored_length f =? ContentDescriptor.byte_length descriptor) then throws BlobStoreError.Corrupt
      else
        let# s := get in
        if bool_decide (verified_files s !! c = Some (file_fingerprint f)) then yields (Some descriptor)
        else
          let# actual := hash_file f in
          if negb (list_eqb actual c)
          then modify (fun s => with_verified s (delete c (verified_files s))) ;# throws BlobStoreError.Corrupt
          else
            io ;#
            modify (fun s => with_verified s (<[c := file_fingerprint f]> (verified_files s))) ;#
            yields (Some descriptor)
  end.

Fixpoint verify_declared (declared : list ContentDescriptor.t) (verified : gmap (list Z) ContentDescriptor.t) :
    B (gmap (list Z) ContentDescriptor.t) :=
  match declared with
  | [] => yields verified
  | d :: declared =>
      let# found := blob (ContentDescriptor.content_id d) in
      verify_declared declared
        (match found with Some _ => <[ContentDescriptor.content_id d := d]> verified | None => verified end)
  end.
Definition availability (cs : list ContentId.t) : B Availability :=
  let# declared := call (repo_available_content cs) in
  let# verified := verify_declared declared ∅ in
  yields (mkAvailability (omap (fun c : list Z => verified !! c) cs)
            (List.filter (fun c : list Z => bool_decide (verified !! c = None)) cs)).

(** ** Recovery *)
Definition parse_staging_name (name : list Z) : option (list Z) :=
  if valid_utf8 name
  then
    let k := (length name - 5)%nat in
    if list_eqb (skipn k name) (str ".part")
    then id ← uuid_parse (firstn k name); if list_eqb name (staging_name id) then Some id else None
    else None
  else None.
Fixpoint remove_orphans (names : list (list Z)) (removed : bool) : B bool :=
  match names with
  | [] => yields removed
  | name :: names =>
      io ;# io ;#
      match parse_staging_name name with
      | None => throws BlobStoreError.Corrupt
      | Some id =>
          let# found := call (repo_upload id) in
          match found with
          | Some _ => remove_orphans names removed
          | None => remove_file name ;# remove_orphans names true
          end
      end
  end.
Definition remove_orphan_staging_files : B unit :=
  validate_private_subdirectory StagingDirectory ;#
  io ;#
  let# s := get in
  let# removed := remove_orphans (List.map fst (map_to_list (staging s))) false in
  if removed : bool then sync_directory else yields tt.

Definition discard_upload (id : list Z) : B unit := remove_staging_file id ;# call (repo_delete_upload id).

Fixpoint each_session (f : UploadSession -> B unit) (sessions : list UploadSession) : B unit :=
  match sessions with [] => yields tt | x :: rest => f x ;# each_session f rest end.
Definition recover_session (session : UploadSession) : B unit :=
  match state session with
  | UploadState.Active =>
      catch (finalize_locked session ;# yields tt)
        (fun e => match e with BlobStoreError.ContentIdMismatch _ _ => discard_upload (upload_id session) | _ => throws e end)
  | UploadState.Finalizing =>
      publish_final_file session ;#
      let# stored_at := unix_time_millis in
      call (repo_complete_upload (upload_id session) stored_at) ;# yields tt
  | UploadState.Complete => throws BlobStoreError.Corrupt
  end.
(** Batches, until one is not full. *)
Fixpoint maintain (fuel : nat) (batch : B (list UploadSession)) (f : UploadSession -> B unit) : B unit :=
  match fuel with
  | O => ends
  | S fuel =>
      let# sessions := batch in
      each_session f sessions ;#
      if (length sessions <? MAINTENANCE_BATCH)%nat then yields tt else maintain fuel batch f
  end.
Definition recover (fuel : nat) : B unit :=
  remove_orphan_staging_files ;#
  maintain fuel (call (repo_uploads_requiring_finalization MAINTENANCE_BATCH)) recover_session ;#
  let# time := unix_time_millis in
  maintain fuel (call (repo_expired_uploads time MAINTENANCE_BATCH)) (fun x => discard_upload (upload_id x)).

(** A new process finds the files and the repository, and an empty cache. *)
Definition open_with_limits (fuel : nat) : B unit :=
  modify (fun s => with_verified s ∅) ;#
  prepare_private_directory ;#
  prepare_private_subdirectory StagingDirectory ;#
  prepare_private_subdirectory BlobsDirectory ;#
  prepare_private_subdirectory AlgorithmDirectory ;#
  recover fuel.
End BlobStore.

(** ** Locks *)
Definition upload_lock_index (id : list Z) : Z :=
  fold_left (fun hash byte => Z.lxor (wrap 64 (hash * 31)) byte) id 0 mod UPLOAD_LOCK_STRIPES.
