(* ===== verification/BlobProtocol.v ===== *)
(** * The node's blob store: the upload protocol

    [upload_step] is the protocol of uploads over what a [View] shows: the bytes of the
    staging files and of the blobs, the sessions and the declared contents.  [view_ok] is
    its invariant: no step publishes bytes that do not hash to their identity, shortens
    what a session acknowledged, or declares a content without its blob. *)
From S2P Require Import Prelude Bytes Crypto Content UploadRepository UploadRepositoryTheory BlobStore.

Section View.
Context `{Sha256} `{Uuid} `{Repository : ContentRepository} `{Laws : !ContentRepositoryLaws} `{BlobSettings}.

(** ** The protocol *)
Record View : Type := mkView {
  staged : gmap (list Z) (list Z);
  published : gmap (list Z) (list Z);
  view_sessions : gmap (list Z) UploadSession;
  view_contents : gmap (list Z) Z
}.
Definition view (s : BlobStore) : View :=
  mkView (stored_bytes <$> staging s) (stored_bytes <$> finals s) (sessions (repository s)) (contents (repository s)).

Definition length_of (b : list Z) : Z := Z.of_nat (length b).
Definition staged_at (v : View) (id : list Z) : option (list Z) := staged v !! staging_name id.

End View.

Ltac view_cbn := unfold staged_at in *; cbn [staged published view_sessions view_contents] in *.

Section Protocol.
Context `{Sha256} `{Uuid} `{Repository : ContentRepository} `{Laws : !ContentRepositoryLaws} `{BlobSettings}.

(** A staging file keeps the acknowledged bytes; that of a full upload does not change. *)
Definition rewrites (x : UploadSession) (b b' : list Z) : Prop :=
  let n := Z.to_nat (upload_offset x) in
  firstn n b' = firstn n b /\ upload_offset x <= length_of b' /\ (upload_offset x = upload_length x -> b' = b).

Inductive upload_step : View -> View -> Prop :=
| step_new_file g p m c id :
    g !! staging_name id = None -> m !! id = None ->
    upload_step (mkView g p m c) (mkView (<[staging_name id := []]> g) p m c)
| step_new_session g p m c u :
    g !! staging_name (new_upload_id u) = Some [] -> m !! new_upload_id u = None -> 0 <= new_upload_length u ->
    (new_upload_length u = 0 -> forall e, new_expected_content_id u = Some e -> e = sha256 []) ->
    upload_step (mkView g p m c) (mkView g p (<[new_upload_id u := new_session u]> m) c)
| step_orphan g p m c id :
    m !! id = None -> upload_step (mkView g p m c) (mkView (delete (staging_name id) g) p m c)
| step_abandon g p m c id x :
    m !! id = Some x -> state x = UploadState.Active -> upload_offset x = 0 ->
    upload_step (mkView g p m c) (mkView (delete (staging_name id) g) p m c)
| step_write g p m c id x b b' :
    m !! id = Some x -> state x = UploadState.Active -> g !! staging_name id = Some b -> rewrites x b b' ->
    upload_step (mkView g p m c) (mkView (<[staging_name id := b']> g) p m c)
| step_advance g p m c id x b offset n :
    m !! id = Some x -> state x = UploadState.Active -> g !! staging_name id = Some b ->
    upload_offset x <= offset <= upload_length x -> offset <= length_of b ->
    (offset = upload_length x -> length_of b = offset /\ expects x (sha256 b) = true) ->
    upload_step (mkView g p m c) (mkView g p (<[id := advanced x offset (now n + upload_ttl_ms)]> m) c)
| step_begin g p m c id x b :
    m !! id = Some x -> state x = UploadState.Active -> upload_offset x = upload_length x ->
    g !! staging_name id = Some b ->
    upload_step (mkView g p m c) (mkView g p (<[id := finalizing x (sha256 b)]> m) c)
| step_publish g p m c id x (d : list Z) b :
    m !! id = Some x -> state x = UploadState.Finalizing -> final_content_id x = Some d ->
    g !! staging_name id = Some b -> p !! d = None ->
    upload_step (mkView g p m c) (mkView (delete (staging_name id) g) (<[d := b]> p) m c)
| step_unstage g p m c id x (d : list Z) b :
    m !! id = Some x -> state x = UploadState.Finalizing -> final_content_id x = Some d ->
    p !! d = Some b -> length_of b = upload_length x ->
    upload_step (mkView g p m c) (mkView (delete (staging_name id) g) p m c)
| step_complete g p m c id x (d : list Z) b :
    m !! id = Some x -> state x <> UploadState.Active -> final_content_id x = Some d ->
    p !! d = Some b -> length_of b = upload_length x ->
    upload_step (mkView g p m c) (mkView g p (<[id := completed x]> m) (<[d := upload_length x]> c))
| step_expire g p m c id x n :
    m !! id = Some x -> has_expired (now n) x = true ->
    upload_step (mkView g p m c) (mkView (delete (staging_name id) g) p m c)
| step_delete g p m c id x n :
    m !! id = Some x -> has_expired (now n) x = true ->
    upload_step (mkView g p m c) (mkView g p (delete id m) c).

(** ** The invariant *)
Record view_ok (v : View) : Prop := {
  ok_keyed : keyed (view_sessions v);
  ok_offset : forall id x, view_sessions v !! id = Some x -> 0 <= upload_offset x <= upload_length x;
  ok_published : forall d b, published v !! d = Some b -> sha256 b = d;
  ok_contents : forall d n, view_contents v !! d = Some n -> exists b, published v !! d = Some b /\ length_of b = n;
  ok_active : forall id x b, view_sessions v !! id = Some x -> state x = UploadState.Active -> staged_at v id = Some b ->
    upload_offset x <= length_of b
    /\ (upload_offset x = upload_length x -> length_of b = upload_length x /\ expects x (sha256 b) = true);
  ok_finalizing : forall id x, view_sessions v !! id = Some x -> state x = UploadState.Finalizing ->
    exists d : list Z, final_content_id x = Some d
    /\ match staged_at v id with
       | Some b => sha256 b = d /\ length_of b = upload_length x
       | None => exists b, published v !! d = Some b /\ length_of b = upload_length x
       end;
  ok_complete : forall id x, view_sessions v !! id = Some x -> state x = UploadState.Complete ->
    exists d : list Z, final_content_id x = Some d /\ view_contents v !! d = Some (upload_length x);
  ok_names : forall name b, staged v !! name = Some b -> exists id, name = staging_name id
}.

Lemma staging_name_inj id id' : staging_name id = staging_name id' -> id = id'.
Proof.
  unfold staging_name. intros E%app_inv_tail. pose proof (uuid_parse_display id) as Hp. rewrite E, uuid_parse_display in Hp. congruence.
Qed.
Lemma staging_name_ne id id' : id <> id' -> staging_name id <> staging_name id'.
Proof. intros Hne E%staging_name_inj. done. Qed.
Lemma expects_spec x d : expects x d = true <-> forall e, expected_content_id x = Some e -> e = d.
Proof.
  unfold expects. destruct (expected_content_id x) as [e|]; [|by split].
  rewrite list_eqb_eq. split; [by intros -> ? [= ->]|intros H'; by apply H'].
Qed.


(** A change of one staging file. *)
Lemma file_changed_ok g g' p m c id :
  view_ok (mkView g p m c) ->
  (forall id', id <> id' -> g' !! staging_name id' = g !! staging_name id') ->
  (forall name b, g' !! name = Some b -> exists id', name = staging_name id') ->
  (forall x b, m !! id = Some x -> state x = UploadState.Active -> g' !! staging_name id = Some b ->
    upload_offset x <= length_of b
    /\ (upload_offset x = upload_length x -> length_of b = upload_length x /\ expects x (sha256 b) = true)) ->
  (forall x, m !! id = Some x -> state x = UploadState.Finalizing ->
    exists d : list Z, final_content_id x = Some d
    /\ match g' !! staging_name id with
       | Some b => sha256 b = d /\ length_of b = upload_length x
       | None => exists b, p !! d = Some b /\ length_of b = upload_length x
       end) ->
  view_ok (mkView g' p m c).
Proof.
  intros [Hk Ho Hp Hc Ha Hf Hd Hn] Hother Hnames Hact Hfin. view_cbn. split; view_cbn; try done.
  - intros id' x b Hx Hst Hb. destruct (decide (id = id')) as [<-|Hne]; [by eapply Hact|]. rewrite Hother in Hb by done. by eapply Ha.
  - intros id' x Hx Hst. destruct (decide (id = id')) as [<-|Hne]; [by eapply Hfin|]. rewrite Hother by done. by eapply Hf.
Qed.

(** A change of one session. *)
Lemma session_changed_ok g p m c id y :
  view_ok (mkView g p m c) -> upload_id y = id -> 0 <= upload_offset y <= upload_length y ->
  (forall b, state y = UploadState.Active -> g !! staging_name id = Some b ->
    upload_offset y <= length_of b
    /\ (upload_offset y = upload_length y -> length_of b = upload_length y /\ expects y (sha256 b) = true)) ->
  (state y = UploadState.Finalizing -> exists (d : list Z) b, final_content_id y = Some d /\ g !! staging_name id = Some b
    /\ sha256 b = d /\ length_of b = upload_length y) ->
  (state y = UploadState.Complete -> exists d : list Z, final_content_id y = Some d /\ c !! d = Some (upload_length y)) ->
  view_ok (mkView g p (<[id := y]> m) c).
Proof.
  intros [Hk Ho Hp Hc Ha Hf Hd Hn] Hid Hoff Hact Hfin Hcom. view_cbn. split; view_cbn; try done.
  - intros id' x [[-> <-]|[Hne Hx]]%lookup_insert_Some; [done|by apply Hk].
  - intros id' x [[-> <-]|[Hne Hx]]%lookup_insert_Some; [done|by eapply Ho].
  - intros id' x b [[-> <-]|[Hne Hx]]%lookup_insert_Some; [auto|by eapply Ha].
  - intros id' x [[-> <-]|[Hne Hx]]%lookup_insert_Some Hst; [|by eapply Hf].
    destruct (Hfin Hst) as (d & b & Hd' & Hb & Hs & Hl). exists d. split; [done|]. view_cbn. by rewrite Hb.
  - intros id' x [[-> <-]|[Hne Hx]]%lookup_insert_Some Hst; [auto|by eapply Hd].
Qed.

Lemma delete_names (g : gmap (list Z) (list Z)) id :
  (forall name b, g !! name = Some b -> exists id', name = staging_name id') ->
  forall name b, delete (staging_name id) g !! name = Some b -> exists id', name = staging_name id'.
Proof. intros Hn name b [_ Hb]%lookup_delete_Some. by eapply Hn. Qed.
Lemma insert_names (g : gmap (list Z) (list Z)) id b0 :
  (forall name b, g !! name = Some b -> exists id', name = staging_name id') ->
  forall name b, <[staging_name id := b0]> g !! name = Some b -> exists id', name = staging_name id'.
Proof. intros Hn name b [[<- _]|[_ Hb]]%lookup_insert_Some; [by exists id|by eapply Hn]. Qed.

Lemma file_deleted_ok g p m c id :
  view_ok (mkView g p m c) ->
  (forall x, m !! id = Some x -> state x = UploadState.Finalizing ->
    exists (d : list Z) b, final_content_id x = Some d /\ p !! d = Some b /\ length_of b = upload_length x) ->
  view_ok (mkView (delete (staging_name id) g) p m c).
Proof.
  intros Hok Hfin. apply (file_changed_ok g _ p m c id); [done|..].
  - intros id' Hne. by rewrite lookup_delete_ne by (by apply staging_name_ne).
  - apply delete_names, Hok.
  - intros x b _ _. by rewrite lookup_delete_eq.
  - intros x Hx Hst. rewrite lookup_delete_eq. destruct (Hfin x Hx Hst) as (d & b & Hd & Hb & Hl). exists d. split; [done|]. by exists b.
Qed.

Lemma has_expired_state now' x : has_expired now' x = true -> state x <> UploadState.Finalizing /\ expires_at_unix_ms x <= now'.
Proof. unfold has_expired, is_finalizing. intros Hx. bool_prop. split; [done|lia]. Qed.

Lemma published_ok g p m c (d : list Z) b id x :
  view_ok (mkView g p m c) -> m !! id = Some x -> state x = UploadState.Finalizing -> final_content_id x = Some d ->
  g !! staging_name id = Some b -> p !! d = None ->
  view_ok (mkView (delete (staging_name id) g) (<[d := b]> p) m c).
Proof.
  intros Hok Hx Hst Hd Hb Hp. destruct (ok_finalizing _ Hok id x Hx Hst) as (d' & Hd' & Hf). view_cbn.
  rewrite Hd in Hd'. injection Hd' as <-. rewrite Hb in Hf. destruct Hf as [Hs Hl].
  apply file_deleted_ok.
  - destruct Hok as [Hk Ho Hpub Hc Ha Hfin Hcom Hn]. view_cbn. split; view_cbn; try done.
    + intros d' b' [[<- <-]|[_ Hb']]%lookup_insert_Some; [done|by apply Hpub].
    + intros d' n Hn'. destruct (Hc d' n Hn') as (b' & Hb' & Hl'). exists b'. split; [|done].
      rewrite lookup_insert_ne; [done|]. intros ->. congruence.
    + intros id' x' Hx' Hst'. destruct (Hfin id' x' Hx' Hst') as (d' & Hd' & Hm). exists d'. split; [done|]. view_cbn.
      destruct (g !! staging_name id'); [done|]. destruct Hm as (b' & Hb' & Hl'). exists b'. split; [|done].
      rewrite lookup_insert_ne; [done|]. intros ->. congruence.
  - intros x' Hx' _. rewrite Hx in Hx'. injection Hx' as <-. exists d, b. by rewrite lookup_insert_eq.
Qed.

Lemma completed_ok g p m c id x (d : list Z) b :
  view_ok (mkView g p m c) -> m !! id = Some x -> state x <> UploadState.Active -> final_content_id x = Some d ->
  p !! d = Some b -> length_of b = upload_length x ->
  view_ok (mkView g p (<[id := completed x]> m) (<[d := upload_length x]> c)).
Proof.
  intros Hok Hx Hst Hd Hb Hl. apply session_changed_ok.
  - destruct Hok as [Hk Ho Hpub Hc Ha Hfin Hcom Hn]. view_cbn. split; view_cbn; try done.
    + intros d' n [[<- <-]|[_ Hn']]%lookup_insert_Some; [by exists b|by apply Hc].
    + intros id' x' Hx' Hst'. destruct (Hcom id' x' Hx' Hst') as (d' & Hd' & Hc'). exists d'. split; [done|].
      destruct (decide (d = d')) as [<-|Hne]; [|by rewrite lookup_insert_ne]. rewrite lookup_insert_eq.
      destruct (Hc _ _ Hc') as (b' & Hb' & Hl'). congruence.
  - apply (ok_keyed _ Hok _ _ Hx).
  - apply (ok_offset _ Hok _ _ Hx).
  - done.
  - done.
  - intros _. exists d. split; [done|]. by rewrite lookup_insert_eq.
Qed.

Lemma expects_eq x y d : expected_content_id y = expected_content_id x -> expects y d = expects x d.
Proof. unfold expects. by intros ->. Qed.

Lemma upload_step_ok v v' : upload_step v v' -> view_ok v -> view_ok v'.
Proof.
  intros Hstep Hok. destruct Hstep as [g p m c id Hg Hm|g p m c u Hg Hm Hu He|g p m c id Hm|g p m c id x Hx Hst Ho
    |g p m c id x b b' Hx Hst Hb Hw|g p m c id x b offset n Hx Hst Hb Ho Hl Hfull|g p m c id x b Hx Hst Ho Hb
    |g p m c id x d b Hx Hst Hd Hb Hp|g p m c id x d b Hx Hst Hd Hb Hl|g p m c id x d b Hx Hst Hd Hb Hl
    |g p m c id x n Hx Hexp|g p m c id x n Hx Hexp].
  - apply (file_changed_ok g _ p m c id); [done| |by apply insert_names, Hok|congruence|congruence].
    intros id' Hne. by rewrite lookup_insert_ne by (by apply staging_name_ne).
  - apply session_changed_ok; cbn; try done.
    intros b _ Hb. rewrite Hg in Hb. injection Hb as <-. split; [done|]. intros H0'. split; [unfold length_of; cbn in *; lia|].
    apply expects_spec. cbn. intros e E. by apply He.
  - apply file_deleted_ok; [done|congruence].
  - apply file_deleted_ok; [done|]. intros y Hy Hst'. rewrite Hx in Hy. injection Hy as <-. congruence.
  - destruct (ok_active _ Hok id x b Hx Hst Hb) as [Hle Hfull]. destruct Hw as (_ & Hle' & Hsame).
    apply (file_changed_ok g _ p m c id); [done| |by apply insert_names, Hok|..].
    + intros id' Hne. by rewrite lookup_insert_ne by (by apply staging_name_ne).
    + intros y b0 Hy _ Hb0. rewrite Hx in Hy. injection Hy as <-. rewrite lookup_insert_eq in Hb0. injection Hb0 as <-.
      split; [done|]. intros E. rewrite (Hsame E). by apply Hfull.
    + intros y Hy Hst'. rewrite Hx in Hy. injection Hy as <-. congruence.
  - pose proof (ok_offset _ Hok _ _ Hx). apply session_changed_ok; cbn; [done|by apply (ok_keyed _ Hok _ _ Hx)|lia| |congruence|congruence].
    intros b0 _ Hb0. rewrite Hb in Hb0. injection Hb0 as <-. split; [done|]. intros E. destruct (Hfull E) as [Hlb He].
    split; [lia|]. by rewrite (expects_eq x).
  - destruct (ok_active _ Hok id x b Hx Hst Hb) as [_ Hfull]. destruct (Hfull Ho) as [Hlb He].
    apply session_changed_ok; cbn; try done; [by apply (ok_keyed _ Hok _ _ Hx)|apply (ok_offset _ Hok _ _ Hx)|].
    intros _. by exists (sha256 b), b.
  - by eapply published_ok.
  - apply file_deleted_ok; [done|]. intros y Hy _. rewrite Hx in Hy. injection Hy as <-. by exists d, b.
  - by eapply completed_ok.
  - apply has_expired_state in Hexp as [Hne _]. apply file_deleted_ok; [done|]. intros y Hy Hst. rewrite Hx in Hy. by injection Hy as <-.
  - destruct Hok as [Hk Ho Hpub Hc Ha Hfin Hcom Hn]. view_cbn. split; view_cbn; try done.
    + intros id' y [_ Hy]%lookup_delete_Some. by apply Hk.
    + intros id' y [_ Hy]%lookup_delete_Some. by eapply Ho.
    + intros id' y b [_ Hy]%lookup_delete_Some. by eapply Ha.
    + intros id' y [_ Hy]%lookup_delete_Some. by eapply Hfin.
    + intros id' y [_ Hy]%lookup_delete_Some. by eapply Hcom.
Qed.
Lemma upload_steps_ok v v' : rtc upload_step v v' -> view_ok v -> view_ok v'.
Proof. induction 1; eauto using upload_step_ok. Qed.

End Protocol.
