(* ===== verification/BlobStoreRuns.v ===== *)
(** * The node's blob store: operations are runs of the protocol

    [still] computations change nothing that a [View] shows; a [safe] computation, however
    it ends, ran the protocol, and its answers and errors are those stated.  Each operation
    of the store is safe, the start of a process included. *)
From S2P Require Import Prelude Bytes Crypto Content UploadRepository UploadRepositoryTheory BlobStore BlobProtocol.

Section BlobStoreRuns.
Context `{Sha256} `{Uuid} `{Repository : ContentRepository} `{Laws : !ContentRepositoryLaws} `{BlobSettings}.

(** ** Computations that show nothing *)
Definition plain (e : BlobStoreError.t) : Prop := match e with BlobStoreError.ContentIdMismatch _ _ => False | _ => True end.
Definition still {A} (m : B A) : Prop :=
  forall s, view (snd (m s)) = view s /\ forall e, fst (m s) = Failed e -> plain e.

Lemma still_yields {A} (a : A) : still (yields a).
Proof. done. Qed.
Lemma still_throws {A} e : plain e -> still (throws (A := A) e).
Proof. intros He s. split; [done|]. by intros ? [= <-]. Qed.
Lemma still_ends {A} : still (ends (A := A)).
Proof. done. Qed.
Lemma still_bind {A B'} (m : B A) (k : A -> B B') : still m -> (forall a, still (k a)) -> still (bind_blob m k).
Proof.
  intros Hm Hk s. unfold bind_blob. destruct (Hm s) as [Hv He]. destruct (m s) as [[a|e|] s1]; cbn in *; [| |done].
  - destruct (Hk a s1) as [Hv' He']. by rewrite Hv'.
  - split; [done|]. intros e' [= <-]. by apply He.
Qed.
Lemma still_catch {A} (m : B A) h : still m -> (forall e, plain e -> still (h e)) -> still (catch m h).
Proof.
  intros Hm Hh s. unfold catch. destruct (Hm s) as [Hv He]. destruct (m s) as [[a|e|] s1]; cbn in *; [auto| |auto].
  destruct (Hh e (He e eq_refl) s1) as [Hv' He']. by rewrite Hv'.
Qed.
Lemma still_get : still get.
Proof. done. Qed.
Lemma still_next_fault : still next_fault.
Proof. intros s. unfold next_fault. by destruct (faults s). Qed.
Lemma still_io : still io.
Proof. apply still_bind; [apply still_next_fault|]. intros []; [apply still_yields|by apply still_throws|apply still_ends]. Qed.
Lemma still_result {A} (r : result BlobStoreError.t A) : (forall e, r = Err e -> plain e) -> still (from_result r).
Proof. intros Hr. destruct r; [apply still_yields|]. by apply still_throws, Hr. Qed.
Lemma still_modify f : (forall s, view (f s) = view s) -> still (modify f).
Proof. intros Hf s. by split; [apply Hf|]. Qed.
Lemma still_time : still unix_time_millis.
Proof.
  unfold unix_time_millis. apply still_bind; [apply still_get|intros s]. apply still_bind; [by apply still_modify|intros _].
  destruct (_ && _); [apply still_yields|by apply still_throws].
Qed.
Lemma still_expiry t : still (expiry t).
Proof. unfold expiry. destruct (checked_i64 _); [apply still_yields|by apply still_throws]. Qed.

(** Decides stillness along the program. *)
Ltac still_tac := repeat (first
  [ progress intros | apply still_io | apply still_yields | apply still_get
  | (apply still_throws; exact I) | apply still_time | apply still_expiry | apply still_ends | (apply still_modify; reflexivity)
  | assumption | apply still_next_fault | apply still_bind
  | match goal with |- still (if ?b then _ else _) => destruct b | |- still (match ?o with _ => _ end) => destruct o end ]).

Lemma still_prepare ds : still (prepare_components ds).
Proof.
  induction ds as [|d ds IH]; cbn [prepare_components]; still_tac.
Qed.
Lemma still_prepare_root : still prepare_private_directory.
Proof. unfold prepare_private_directory. still_tac. Qed.
Lemma still_validate ds : still (validate_components ds).
Proof. induction ds as [|d ds IH]; cbn [validate_components]; still_tac. Qed.
Lemma still_validate_sub d : still (validate_private_subdirectory d).
Proof. apply still_validate. Qed.
Lemma still_prepare_sub d : still (prepare_private_subdirectory d).
Proof. apply still_prepare. Qed.
Lemma still_sync : still sync_directory.
Proof. unfold sync_directory. still_tac. Qed.
Lemma still_symlink files name : still (symlink_metadata files name).
Proof. unfold symlink_metadata. still_tac. Qed.
Lemma still_open files name : still (open_regular_file files name).
Proof. unfold open_regular_file. apply still_bind; [apply still_symlink|]. still_tac. Qed.
Lemma still_hash f : still (hash_file f).
Proof. unfold hash_file. still_tac. Qed.
Lemma still_if_not_found {A} (m : B A) e : still m -> plain e -> still (if_not_found m e).
Proof. intros Hm He. destruct e as [[] | | | | | | | | | | | |]; try done; by apply still_throws. Qed.

(** The views of a call are those of the repository. *)
Lemma still_call {A} (f : Repo -> result ContentRepositoryError.t A * Repo) :
  (forall σ r σ', f σ = (r, σ') -> contents σ' = contents σ /\ sessions σ' = sessions σ) -> still (call f).
Proof.
  intros Hf. unfold call. apply still_bind; [apply still_next_fault|]. intros [|w|w]; [..|apply still_ends].
  all: intros s; unfold bind_blob, get; destruct (f (repository s)) as [r σ'] eqn:E; destruct (Hf _ _ _ E) as [Ec Es];
    cbn; unfold view; destruct r; cbn; rewrite ?Ec, ?Es; (split; [done|]); by intros e' [= <-].
Qed.
Lemma still_upload id : still (call (repo_upload id)).
Proof. apply still_call. intros σ r σ' E. by destruct (upload_law _ _ _ _ E) as (? & ? & _). Qed.
Lemma still_content c : still (call (repo_content c)).
Proof. apply still_call. intros σ r σ' E. by destruct (content_law _ _ _ _ E) as (? & ? & _). Qed.
Lemma still_available cs : still (call (repo_available_content cs)).
Proof. apply still_call. intros σ r σ' E. by destruct (available_law _ _ _ _ E) as (? & ? & _). Qed.
Lemma still_requiring limit : still (call (repo_uploads_requiring_finalization limit)).
Proof. apply still_call. intros σ r σ' E. by destruct (requiring_law _ _ _ _ E) as (? & ? & _). Qed.
Lemma still_expired t limit : still (call (repo_expired_uploads t limit)).
Proof. apply still_call. intros σ r σ' E. by destruct (expired_law _ _ _ _ _ E) as (? & ? & _). Qed.

(** ** Runs of the protocol *)
Definition reach (s s' : BlobStore) : Prop := rtc upload_step (view s) (view s').
Definition tolerant (E : BlobStoreError.t -> Prop) : Prop := forall e, plain e -> E e.

(** However it ends, the computation ran the protocol; what it answers satisfies [P], and
    its errors [E]. *)
Definition safe {A} (m : B A) (s : BlobStore) (P : A -> BlobStore -> Prop) (E : BlobStoreError.t -> Prop) : Prop :=
  reach s (snd (m s)) /\ match fst (m s) with Done a => P a (snd (m s)) | Failed e => E e | Ended => True end.

Lemma reach_view s s' : view s' = view s -> reach s s'.
Proof. unfold reach. intros ->. apply rtc_refl. Qed.
Lemma reach_trans s1 s2 s3 : reach s1 s2 -> reach s2 s3 -> reach s1 s3.
Proof. intros H12 H23. unfold reach in *. by transitivity (view s2). Qed.
Lemma reach_ok s s' : view_ok (view s) -> reach s s' -> view_ok (view s').
Proof. intros Hok Hr. by eapply upload_steps_ok. Qed.

Lemma safe_yields {A} (a : A) s (P : A -> _ -> Prop) E : P a s -> safe (yields a) s P E.
Proof. intros HP. split; [apply rtc_refl|done]. Qed.
Lemma safe_throws {A} e s (P : A -> _ -> Prop) (E : _ -> Prop) : E e -> safe (throws e) s P E.
Proof. intros HE. split; [apply rtc_refl|done]. Qed.
Lemma safe_cases {A} (m : B A) s (P : A -> _ -> Prop) (E : _ -> Prop) :
  match m s with
  | (Done a, s') => reach s s' /\ P a s'
  | (Failed e, s') => reach s s' /\ E e
  | (Ended, s') => reach s s'
  end -> safe m s P E.
Proof. unfold safe. by destruct (m s) as [[] ?]. Qed.
Lemma safe_bind {A B'} (m : B A) (k : A -> B B') s P E :
  safe m s (fun a s1 => reach s s1 -> safe (k a) s1 P E) E -> safe (bind_blob m k) s P E.
Proof.
  unfold safe, bind_blob. intros [Hr Hm]. destruct (m s) as [[a|e|] s1]; cbn in *; [|done..].
  destruct (Hm Hr) as [Hr' HP]. split; [by eapply reach_trans|done].
Qed.
Lemma safe_still {A} (m : B A) s (P : A -> _ -> Prop) E :
  still m -> tolerant E -> (forall a s', m s = (Done a, s') -> view s' = view s -> P a s') -> safe m s P E.
Proof.
  intros Hm HE HP. destruct (Hm s) as [Hv He]. split; [by apply reach_view|].
  destruct (m s) as [[a|e|] s1]; cbn in *; [by apply HP|by apply HE, He|done].
Qed.
Lemma safe_then {A B'} (m : B A) (k : A -> B B') s P E :
  still m -> tolerant E -> (forall a s', m s = (Done a, s') -> view s' = view s -> safe (k a) s' P E) ->
  safe (bind_blob m k) s P E.
Proof. intros Hm HE Hk. apply safe_bind, safe_still; [done|done|]. intros a s' Em Hv _. by apply Hk. Qed.
Lemma safe_modify f s (P : unit -> _ -> Prop) E : upload_step (view s) (view (f s)) -> P tt (f s) -> safe (modify f) s P E.
Proof. intros Hs HP. split; [by apply rtc_once|done]. Qed.
Lemma safe_mono {A} (m : B A) s (P P' : A -> _ -> Prop) (E E' : _ -> Prop) :
  safe m s P E -> (forall a s', P a s' -> P' a s') -> (forall e, E e -> E' e) -> safe m s P' E'.
Proof. intros [Hr Hm] HP HE. split; [done|]. destruct (fst (m s)); auto. Qed.
Lemma safe_catch {A} (m : B A) h s (P : A -> _ -> Prop) (E E' : _ -> Prop) :
  safe m s P E' -> (forall e s1, m s = (Failed e, s1) -> E' e -> reach s s1 -> safe (h e) s1 P E) -> safe (catch m h) s P E.
Proof.
  unfold safe at 1 3, catch. intros [Hr Hm] Hh. destruct (m s) as [[a|e|] s1]; cbn in *; [done| |done].
  destruct (Hh e s1 eq_refl Hm Hr) as [Hr' HP]. split; [by eapply reach_trans|done].
Qed.

(** ** What a read answers *)
Lemma bind_Done {A B'} (m : B A) (k : A -> B B') s b s' :
  bind_blob m k s = (Done b, s') -> exists a s1, m s = (Done a, s1) /\ k a s1 = (Done b, s').
Proof. unfold bind_blob. destruct (m s) as [[a|e|] s1]; [|done..]. eauto. Qed.
Lemma next_fault_spec s : exists f l, next_fault s = (Done f, with_faults s l).
Proof.
  unfold next_fault. destruct s as [ds st fi ni ct vf re [|f l] rd]; cbn; [by exists Passes, []|by exists f, l].
Qed.
Lemma io_spec s : exists l, io s = (Done tt, with_faults s l) \/ io s = (Failed (BlobStoreError.Io IoKind.Other), with_faults s l)
  \/ io s = (Ended, with_faults s l).
Proof.
  unfold io, bind_blob. destruct (next_fault_spec s) as (f & l & ->). exists l. destruct f; cbn; auto.
Qed.

(** Reads that depend on the files only. *)
Definition of_files (files : BlobStore -> gmap (list Z) StoredFile) : Prop := forall s l, files (with_faults s l) = files s.
Lemma symlink_spec files name s : of_files files ->
  match symlink_metadata files name s with
  | (Done f, s') => files s !! name = Some f
  | (Failed e, s') => e = BlobStoreError.Io IoKind.NotFound -> files s !! name = None
  | (Ended, _) => True
  end.
Proof.
  intros Hf. unfold symlink_metadata, bind_blob. destruct (io_spec s) as (l & [->|[->| ->]]); cbn; [|done..].
  rewrite Hf. by destruct (files s !! name).
Qed.
Lemma symlink_Done files name s f s' : of_files files -> symlink_metadata files name s = (Done f, s') -> files s !! name = Some f.
Proof. intros Hf E. pose proof (symlink_spec files name s Hf) as Hs. by rewrite E in Hs. Qed.
Lemma open_Done files name s f s' : of_files files -> open_regular_file files name s = (Done f, s') -> files s !! name = Some f.
Proof.
  intros Hf (f' & s1 & E1 & E)%bind_Done. apply bind_Done in E as (u & s2 & _ & E). apply bind_Done in E as (u' & s3 & _ & E).
  injection E as -> _. by eapply symlink_Done.
Qed.
Lemma hash_Done f s c s' : hash_file f s = (Done c, s') -> c = sha256 (stored_bytes f).
Proof. intros (u & s1 & _ & E)%bind_Done. apply bind_Done in E as (u' & s2 & _ & E). by injection E as <- _. Qed.
Lemma staging_view s name f : staging s !! name = Some f -> staged (view s) !! name = Some (stored_bytes f).
Proof. cbn. intros E. by rewrite lookup_fmap, E. Qed.
Lemma finals_view s d f : finals s !! d = Some f -> published (view s) !! d = Some (stored_bytes f).
Proof. cbn. intros E. by rewrite lookup_fmap, E. Qed.

Lemma call_Done {A} (f : Repo -> result ContentRepositoryError.t A * Repo) s a s' :
  call f s = (Done a, s') -> exists σ', f (repository s) = (Ok a, σ') /\ view s' = view (with_repository s σ').
Proof.
  unfold call, bind_blob. destruct (next_fault_spec s) as (fault & l & ->). destruct fault as [|w|w]; [..|done].
  all: cbn; destruct (f (repository s)) as [[a'|e] σ']; [intros [= <- <-]; by exists σ'|done].
Qed.
Lemma safe_call {A} (f : Repo -> result ContentRepositoryError.t A * Repo) s (P : A -> _ -> Prop) E :
  tolerant E ->
  (forall r σ', f (repository s) = (r, σ') ->
     rtc upload_step (view s) (view (with_repository s σ'))
     /\ forall a s', r = Ok a -> view s' = view (with_repository s σ') -> P a s') ->
  safe (call f) s P E.
Proof.
  intros HE Hf. unfold safe, call, bind_blob. destruct (next_fault_spec s) as (fault & l & ->).
  destruct fault as [|w|w]; [..|split; [apply rtc_refl|done]].
  all: cbn; destruct (f (repository s)) as [[a|e] σ'] eqn:Er; destruct (Hf _ _ eq_refl) as [Hr HP]; cbn;
    (split; [exact Hr|]); [by apply HP|by apply HE].
Qed.

(** ** The operations *)
Definition deleted (v : View) (name : list Z) : View :=
  mkView (delete name (staged v)) (published v) (view_sessions v) (view_contents v).
Definition rewritten (v : View) (name b : list Z) : View :=
  mkView (<[name := b]> (staged v)) (published v) (view_sessions v) (view_contents v).

Lemma deleted_absent v name : staged v !! name = None -> deleted v name = v.
Proof. intros Hn. destruct v as [g p m c]. unfold deleted. cbn in *. by rewrite delete_id. Qed.
Lemma view_deleted s name : view (with_staging s (delete name (staging s))) = deleted (view s) name.
Proof. unfold view, deleted. cbn. by rewrite fmap_delete. Qed.
Lemma view_rewritten s name f b : view (with_bytes s name f b) = rewritten (view s) name b.
Proof. unfold view, rewritten. cbn. by rewrite fmap_insert. Qed.

Lemma remove_file_spec name s :
  match remove_file name s with
  | (Done _, s') => view s' = deleted (view s) name
  | (Failed e, s') => view s' = view s /\ plain e /\ (e = BlobStoreError.Io IoKind.NotFound -> staged (view s) !! name = None)
  | (Ended, s') => view s' = view s
  end.
Proof.
  unfold remove_file, bind_blob. destruct (io_spec s) as (l & [->|[->| ->]]); cbn; [|done..].
  destruct (staging s !! name) as [f|] eqn:En; cbn.
  - by rewrite <- view_deleted.
  - split_and!; [done|done|]. intros _. by rewrite lookup_fmap, En.
Qed.

Lemma safe_remove_file name s (P : unit -> _ -> Prop) E :
  tolerant E -> upload_step (view s) (deleted (view s) name) ->
  (forall s', view s' = deleted (view s) name -> P tt s') -> safe (remove_file name) s P E.
Proof.
  intros HE Hstep HP. pose proof (remove_file_spec name s) as Hs. unfold safe.
  destruct (remove_file name s) as [[[]|e|] s']; cbn.
  - split; [unfold reach; rewrite Hs; by apply rtc_once|by apply HP].
  - destruct Hs as (Hv & He & _). split; [by apply reach_view|by apply HE].
  - split; [by apply reach_view|done].
Qed.

Lemma safe_remove_staging id s (P : unit -> _ -> Prop) E :
  tolerant E -> upload_step (view s) (deleted (view s) (staging_name id)) ->
  (forall s', view s' = deleted (view s) (staging_name id) -> P tt s') -> safe (remove_staging_file id) s P E.
Proof.
  intros HE Hstep HP. unfold remove_staging_file. apply safe_then; [apply still_validate_sub|done|].
  intros _ s1 _ Hv1. apply safe_bind. rewrite <- Hv1 in Hstep, HP. clear Hv1.
  pose proof (remove_file_spec (staging_name id) s1) as Hs. unfold safe, catch, bind_blob.
  destruct (remove_file (staging_name id) s1) as [[[]|e|] s2] eqn:Er; cbn.
  - split; [unfold reach; rewrite Hs; by apply rtc_once|]. intros _. apply safe_still; [apply still_sync|done|].
    intros [] s3 _ Hv3. apply HP. by rewrite Hv3.
  - destruct Hs as (Hv & He & Hn).
    assert (forall s', view s' = view s1 -> e = BlobStoreError.Io IoKind.NotFound -> P tt s') as Hmiss.
    { intros s' Hv' E'. apply HP. rewrite Hv'. by rewrite deleted_absent by auto. }
    destruct e as [[] | | | | | | | | | | | |]; cbn; try (split; [by apply reach_view|by apply HE]).
    split; [by apply reach_view|]. intros _. split; [apply rtc_refl|]. by apply Hmiss.
  - split; [by apply reach_view|done].
Qed.

Lemma existing_spec (d : list Z) s :
  match catch (bind_blob (symlink_metadata finals d) (fun f => yields (Some f))) (if_not_found (yields None)) s with
  | (Done (Some f), s') => view s' = view s /\ published (view s) !! d = Some (stored_bytes f)
  | (Done None, s') => view s' = view s /\ published (view s) !! d = None
  | (Failed e, s') => view s' = view s /\ plain e
  | (Ended, s') => view s' = view s
  end.
Proof.
  destruct (still_symlink finals d s) as [Hv He]. pose proof (symlink_spec finals d s ltac:(done)) as Hs.
  unfold catch, bind_blob. destruct (symlink_metadata finals d s) as [[f|e|] s1]; cbn in Hv, He |- *.
  - split; [done|]. by rewrite lookup_fmap, Hs.
  - specialize (He e eq_refl). destruct e as [[] | | | | | | | | | | | |]; cbn; try done.
    split; [done|]. by rewrite lookup_fmap, Hs.
  - done.
Qed.

(** What a publication leaves. *)
Definition is_published (v v' : View) (x : UploadSession) (d : list Z) : Prop :=
  view_sessions v' = view_sessions v /\ view_contents v' = view_contents v
  /\ exists b, published v' !! d = Some b /\ length_of b = upload_length x.

Lemma safe_install x (d : list Z) s (P : unit -> _ -> Prop) E :
  tolerant E -> view_ok (view s) -> view_sessions (view s) !! upload_id x = Some x -> state x = UploadState.Finalizing ->
  final_content_id x = Some d -> (forall s', is_published (view s) (view s') x d -> P tt s') ->
  safe (install_final_file x) s P E.
Proof.
  intros HE Hok Hx Hst Hd HP. unfold install_final_file. rewrite Hd.
  apply safe_then; [apply still_prepare_sub|done|]. intros _ s1 _ Hv1. rewrite <- Hv1 in Hok, Hx, HP. clear Hv1.
  pose proof (existing_spec d s1) as Hs. apply safe_bind. unfold safe at 1.
  destruct (catch _ _ s1) as [[[f|]|e|] s2]; cbn [fst snd]; (split; [apply reach_view; by try (destruct Hs as [Hs _])|]); [| |by apply HE, Hs|done];
    destruct Hs as [Hv2 Hp]; rewrite <- Hv2 in Hok, Hx, HP, Hp; intros _; clear Hv2.
  - destruct (Z.eqb_spec (stored_length f) (upload_length x)) as [Hl|]; cbn [negb]; [|by apply safe_throws, HE].
    apply safe_then; [apply still_open|done|]. intros f' s3 Hf' Hv3. apply safe_then; [apply still_hash|done|]. intros c s4 _ Hv4.
    destruct (list_eqb c d); cbn [negb]; [|by apply safe_throws, HE].
    rewrite <- Hv3, <- Hv4 in Hok, Hx, HP, Hp. apply safe_remove_staging; [done|..].
    + destruct (view s4) as [g p m c'] eqn:Ev. cbn in *. by eapply step_unstage.
    + intros s' Hv'. apply HP. rewrite Hv'. split_and!; [done|done|]. by exists (stored_bytes f).
  - apply safe_then; [apply still_symlink|done|]. intros f s3 Hf Hv3. apply symlink_Done in Hf; [|done].
    apply staging_view in Hf. rewrite <- Hv3 in Hok, Hx, HP, Hp, Hf. clear Hv3.
    apply safe_then; [apply still_io|done|]. intros _ s4 _ Hv4. rewrite <- Hv4 in Hok, Hx, HP, Hp, Hf. clear Hv4.
    assert (Hview : view (with_renamed s4 (staging_name (upload_id x)) f d)
      = mkView (delete (staging_name (upload_id x)) (staged (view s4))) (<[d := stored_bytes f]> (published (view s4)))
          (view_sessions (view s4)) (view_contents (view s4))).
    { unfold view. cbn. by rewrite fmap_delete, fmap_insert. }
    assert (Hlen : length_of (stored_bytes f) = upload_length x).
    { destruct (ok_finalizing _ Hok _ _ Hx Hst) as (d' & Hd' & Hm). unfold staged_at in Hm. rewrite Hf in Hm. by destruct Hm. }
    apply safe_bind, safe_modify.
    + rewrite Hview. destruct (view s4) as [g p m c'] eqn:Ev. cbn in *. by eapply step_publish.
    + intros _. apply safe_still; [apply still_bind; [apply still_io|intros _; apply still_bind; [apply still_sync|intros _; apply still_sync]]|done|].
      intros [] s' _ Hv'. apply HP. rewrite Hv', Hview. split_and!; [done|done|]. exists (stored_bytes f). split; [|done].
      cbn. by rewrite lookup_insert_eq.
Qed.

(** A repository call that changes one session. *)
Lemma view_repository s σ' :
  view (with_repository s σ') = mkView (staged (view s)) (published (view s)) (sessions σ') (contents σ').
Proof. done. Qed.

(** A full upload whose file is staged. *)
Record full_upload (v : View) (x : UploadSession) (b : list Z) : Prop := {
  full_session : view_sessions v !! upload_id x = Some x;
  full_active : state x = UploadState.Active;
  full_offset : upload_offset x = upload_length x;
  full_staged : staged_at v (upload_id x) = Some b
}.
Definition finished (x : UploadSession) (d : list Z) : UploadSession := completed (finalizing x d).

Lemma safe_begin x b s (P : UploadSession -> _ -> Prop) E :
  tolerant E -> full_upload (view s) x b ->
  (forall s', view s' = mkView (staged (view s)) (published (view s))
     (<[upload_id x := finalizing x (sha256 b)]> (view_sessions (view s))) (view_contents (view s)) ->
   P (finalizing x (sha256 b)) s') ->
  safe (call (repo_begin_upload_finalize (upload_id x) (sha256 b))) s P E.
Proof.
  intros HE [Hx Hst Ho Hb] HP. apply safe_call; [done|]. intros r σ' Hr. destruct (begin_law _ _ _ _ _ Hr) as [Ec Hm].
  rewrite view_repository, Ec. destruct r as [x'|e].
  - destruct Hm as (y & Hy & Hm). cbn in Hx. rewrite Hx in Hy. injection Hy as <-. destruct Hm as [(Hna & _)|(_ & _ & _ & -> & ->)]; [done|].
    split; [apply rtc_once; destruct (view s) eqn:Ev; unfold view in Ev; injection Ev as <- <- <- <-; by eapply step_begin|].
    intros a s' [= <-] Hv. apply HP. rewrite Hv. done.
  - rewrite Hm. split; [apply rtc_refl|done].
Qed.

Lemma safe_complete x d s at_ (P : ContentDescriptor.t -> _ -> Prop) E :
  tolerant E -> view_sessions (view s) !! upload_id x = Some x -> state x <> UploadState.Active -> final_content_id x = Some d ->
  (exists b, published (view s) !! (d : list Z) = Some b /\ length_of b = upload_length x) ->
  (forall s', view s' = mkView (staged (view s)) (published (view s)) (<[upload_id x := completed x]> (view_sessions (view s)))
     (<[(d : list Z) := upload_length x]> (view_contents (view s))) -> P (ContentDescriptor.mk d (upload_length x)) s') ->
  safe (call (repo_complete_upload (upload_id x) at_)) s P E.
Proof.
  intros HE Hx Hst Hd (b & Hb & Hl) HP. apply safe_call; [done|]. intros r σ' Hr. pose proof (complete_law _ _ _ _ _ Hr) as Hm.
  rewrite view_repository. destruct r as [ds|e].
  - destruct Hm as (y & c & Hy & _ & Hc & -> & _ & -> & ->). cbn in Hx. rewrite Hx in Hy. injection Hy as <-.
    rewrite Hd in Hc. injection Hc as <-.
    split; [apply rtc_once; by apply (step_complete _ _ _ _ (upload_id x) x d b)|].
    intros a s' [= <-] Hv. apply HP. rewrite Hv. done.
  - destruct Hm as [-> ->]. split; [apply rtc_refl|done].
Qed.

Lemma safe_finalize_with_id x b s (P : AppendOutcome -> _ -> Prop) E :
  tolerant E -> view_ok (view s) -> full_upload (view s) x b ->
  (forall o s', view_sessions (view s') = <[upload_id x := finished x (sha256 b)]> (view_sessions (view s)) -> P o s') ->
  safe (finalize_locked_with_id x (sha256 b)) s P E.
Proof.
  intros HE Hok Hfull HP. unfold finalize_locked_with_id. apply safe_bind, (safe_begin x b); [done|done|].
  intros s1 Hv1 Hr1. pose proof (reach_ok _ _ Hok Hr1) as Hok1. set (y := finalizing x (sha256 b)) in *.
  assert (Hy : view_sessions (view s1) !! upload_id y = Some y) by (rewrite Hv1; cbn; by rewrite lookup_insert_eq).
  apply safe_bind, (safe_install y (sha256 b)); try done.
  intros s2 (Hs2 & Hc2 & Hb2) Hr2.
  apply safe_then; [apply still_time|done|]. intros t s3 _ Hv3. rewrite <- Hv3 in Hs2, Hc2, Hb2. clear Hv3.
  assert (Hy3 : view_sessions (view s3) !! upload_id y = Some y) by (by rewrite Hs2).
  apply safe_bind. change (upload_id y) with (upload_id x). apply (safe_complete y (sha256 b)); try done.
  intros s4 Hv4 _. apply safe_then; [apply still_upload|done|]. intros found s5 _ Hv5.
  destruct found as [z|]; [|by apply safe_throws, HE]. apply safe_yields. apply HP.
  rewrite Hv5, Hv4. cbn [view_sessions]. rewrite Hs2, Hv1. cbn [view_sessions]. by rewrite insert_insert_eq.
Qed.

Lemma safe_finalize x s (P : AppendOutcome -> _ -> Prop) E :
  tolerant E -> view_ok (view s) -> view_sessions (view s) !! upload_id x = Some x -> state x = UploadState.Active ->
  upload_offset x = upload_length x ->
  (forall o s' d, view_sessions (view s') = <[upload_id x := finished x d]> (view_sessions (view s)) -> P o s') ->
  safe (finalize_locked x) s P E.
Proof.
  intros HE Hok Hx Hst Ho HP. unfold finalize_locked.
  apply safe_then; [apply still_validate_sub|done|]. intros _ s1 _ Hv1. rewrite <- Hv1 in Hok, Hx, HP. clear Hv1.
  apply safe_then; [apply still_open|done|]. intros f s2 Hf Hv2. apply open_Done in Hf; [|done]. apply staging_view in Hf.
  rewrite <- Hv2 in Hok, Hx, HP, Hf. clear Hv2.
  apply safe_then; [apply still_hash|done|]. intros c s3 Hc Hv3. apply hash_Done in Hc as ->. rewrite <- Hv3 in Hok, Hx, HP, Hf. clear Hv3.
  destruct (ok_active _ Hok _ _ _ Hx Hst Hf) as [_ Hfull]. destruct (Hfull Ho) as [_ He].
  assert (require_expected x (sha256 (stored_bytes f)) = Ok tt) as ->.
  { unfold require_expected. unfold expects in He. destruct (expected_content_id x); [|done]. by rewrite He. }
  apply safe_then; [by apply still_result|done|]. intros _ s4 _ Hv4. rewrite <- Hv4 in Hok, Hx, HP, Hf. clear Hv4.
  apply safe_finalize_with_id; [done|done|done|]. intros o s' Hs'. by eapply HP.
Qed.

(** *** Creation *)
Lemma time_Done s t s' : unix_time_millis s = (Done t, s') -> exists n, t = now n.
Proof.
  unfold unix_time_millis, bind_blob, get, modify. destruct (_ && _); [|done]. intros [= <- _]. eauto.
Qed.
Lemma expiry_Done t s e s' : expiry t s = (Done e, s') -> e = t + upload_ttl_ms.
Proof. unfold expiry. destruct (checked_i64 _) as [z|] eqn:Ez; [|done]. intros [= <- _]. by apply checked_i64_Some in Ez as [-> _]. Qed.

Lemma safe_prepare_file id s (P : unit -> _ -> Prop) E :
  tolerant E -> view_sessions (view s) !! id = None ->
  (forall s', staged (view s') = <[staging_name id := []]> (staged (view s)) ->
     view_sessions (view s') = view_sessions (view s) -> P tt s') ->
  safe (prepare_private_file (staging_name id)) s P E.
Proof.
  intros HE Hid HP. unfold prepare_private_file.
  apply safe_then; [apply still_io|done|]. intros _ s1 _ Hv1. rewrite <- Hv1 in Hid, HP. clear Hv1.
  apply safe_then; [apply still_get|done|]. intros s2 s3 [= -> ->] _.
  destruct (staging s3 !! staging_name id) as [f|] eqn:Ef; [by apply safe_throws, HE|].
  assert (Hview : view (with_new_file s3 (staging_name id)) = mkView (<[staging_name id := []]> (staged (view s3)))
    (published (view s3)) (view_sessions (view s3)) (view_contents (view s3))).
  { unfold view. cbn. by rewrite fmap_insert. }
  apply safe_bind, safe_modify.
  - rewrite Hview. apply step_new_file; [|done]. cbn. by rewrite lookup_fmap, Ef.
  - intros _. apply safe_still; [apply still_io|done|]. intros [] s4 _ Hv4. apply HP; by rewrite Hv4, Hview.
Qed.

Definition inserted (v : View) (u : NewUpload) : View :=
  mkView (staged v) (published v) (<[new_upload_id u := new_session u]> (view_sessions v)) (view_contents v).
Lemma create_call_spec u s :
  match call (repo_create_upload u) s with
  | (Done x, s') => x = new_session u /\ view s' = inserted (view s) u
  | (_, s') => view s' = view s \/ view s' = inserted (view s) u
  end.
Proof.
  unfold call, bind_blob. destruct (next_fault_spec s) as (fault & l & ->). destruct fault as [|w|w]; [..|by left].
  all: cbn; destruct (repo_create_upload u (repository s)) as [r σ'] eqn:Er; destruct (create_law _ _ _ _ Er) as [Ec Hm];
    unfold view, inserted; destruct r as [x|e]; cbn; rewrite Ec; destruct Hm as [[Hs ?]|(_ & Hs & Hx)]; rewrite ?Hs; try done; auto.
Qed.

Lemma step_inserted v u :
  staged v !! staging_name (new_upload_id u) = Some [] -> view_sessions v !! new_upload_id u = None -> 0 <= new_upload_length u ->
  (new_upload_length u = 0 -> forall e, new_expected_content_id u = Some e -> e = sha256 []) -> upload_step v (inserted v u).
Proof. destruct v. apply step_new_session. Qed.

Lemma step_removed v id x :
  view_sessions v !! id = None \/ view_sessions v !! id = Some x /\ state x = UploadState.Active /\ upload_offset x = 0 ->
  upload_step v (deleted v (staging_name id)).
Proof.
  destruct v as [g p m c]. cbn. intros [Hn|(Hx & Hst & Ho)]; [by apply step_orphan|by eapply step_abandon].
Qed.

Definition any_error (e : BlobStoreError.t) : Prop := True.
Lemma tolerant_any : tolerant any_error.
Proof. done. Qed.
Hint Resolve tolerant_any : core.

Lemma safe_create id request s :
  view_ok (view s) -> view_sessions (view s) !! id = None -> 0 <= create_length request ->
  safe (create_upload id request) s (fun _ _ => True) any_error.
Proof.
  intros Hok Hid Hlen. unfold create_upload. destruct (_ <? _); [by apply safe_throws|].
  destruct (validate_empty request) as [[]|e] eqn:Eempty; [|by split; [apply rtc_refl|]].
  apply safe_then; [by apply still_result|done|]. intros _ s1 _ Hv1. rewrite <- Hv1 in Hok, Hid. clear Hv1.
  apply safe_then; [apply still_time|done|]. intros t s2 _ Hv2. rewrite <- Hv2 in Hok, Hid. clear Hv2.
  apply safe_then; [apply still_expiry|done|]. intros expires s3 _ Hv3. rewrite <- Hv3 in Hok, Hid. clear Hv3.
  apply safe_then; [apply still_validate_sub|done|]. intros _ s4 _ Hv4. rewrite <- Hv4 in Hok, Hid. clear Hv4.
  apply safe_bind, safe_prepare_file; [done|done|]. intros s5 Hf5 Hs5 Hr5.
  pose proof (reach_ok _ _ Hok Hr5) as Hok5. rewrite <- Hs5 in Hid. assert (Hst : staged (view s5) !! staging_name id = Some []) by (by rewrite Hf5, lookup_insert_eq).
  clear Hf5 Hs5 Hr5. apply safe_then; [apply still_sync|done|]. intros _ s6 _ Hv6. rewrite <- Hv6 in Hok5, Hid, Hst. clear Hv6.
  set (u := mkNewUpload _ _ _ _ _ _ _ _).
  assert (Hstep : upload_step (view s6) (inserted (view s6) u)).
  { apply step_inserted; try done. cbn. intros E0 e Ee. unfold validate_empty in Eempty. rewrite Ee, E0 in Eempty. cbn in Eempty.
    destruct (list_eqb e (sha256 [])) eqn:El; [by apply list_eqb_eq in El|done]. }
  apply safe_bind. pose proof (create_call_spec u s6) as Hcall. apply (safe_catch _ _ _ _ _ any_error).
  - apply safe_cases. destruct (call (repo_create_upload u) s6) as [[x|e|] s7].
    + destruct Hcall as [-> Hv7]. split; [unfold reach; rewrite Hv7; by apply rtc_once|]. intros Hr7.
      pose proof (reach_ok _ _ Hok5 Hr7) as Hok7.
      assert (Hx : view_sessions (view s7) !! upload_id (new_session u) = Some (new_session u)).
      { rewrite Hv7. apply lookup_insert_eq. }
      destruct (Z.eqb_spec (upload_length (new_session u)) 0) as [E0|]; [|by apply safe_yields].
      apply safe_bind, safe_finalize; try done. intros o s8 d _ _. by apply safe_yields.
    + split; [|done]. destruct Hcall as [Hv|Hv]; unfold reach; rewrite Hv; [apply rtc_refl|by apply rtc_once].
    + destruct Hcall as [Hv|Hv]; unfold reach; rewrite Hv; [apply rtc_refl|by apply rtc_once].
  - intros e s7 Ecall _ _. rewrite Ecall in Hcall. apply safe_bind.
    apply (safe_catch _ _ _ _ _ any_error); [|intros; apply safe_yields; intros; by apply safe_throws].
    apply safe_bind, safe_remove_file; [done| |].
    + apply (step_removed _ _ (new_session u)). destruct Hcall as [-> | ->]; [by left|]. right. split; [apply lookup_insert_eq|done].
    + intros s8 _ _. apply (safe_catch _ _ _ _ _ any_error); [|intros; apply safe_yields; intros; by apply safe_throws].
      apply safe_still; [apply still_sync|done|]. intros. by apply safe_throws.
Qed.

(** *** Chunks *)
Definition rewrite_step (v : View) (x : UploadSession) (b b' : list Z) : Prop :=
  view_sessions v !! upload_id x = Some x /\ state x = UploadState.Active /\ staged_at v (upload_id x) = Some b /\ rewrites x b b'.
Lemma step_rewritten v x b b' : rewrite_step v x b b' -> upload_step v (rewritten v (staging_name (upload_id x)) b').
Proof. destruct v as [g p m c]. intros (Hx & Hst & Hb & Hr). by eapply step_write. Qed.

Lemma safe_set_len x f n s (P : StoredFile -> _ -> Prop) E :
  tolerant E -> rewrite_step (view s) x (stored_bytes f) (firstn (Z.to_nat n) (stored_bytes f)) ->
  (forall f' s', stored_bytes f' = firstn (Z.to_nat n) (stored_bytes f) ->
     view s' = rewritten (view s) (staging_name (upload_id x)) (firstn (Z.to_nat n) (stored_bytes f)) -> P f' s') ->
  safe (set_len (staging_name (upload_id x)) f n) s P E.
Proof.
  intros HE Hw HP. unfold set_len. apply safe_then; [apply still_io|done|]. intros _ s1 _ Hv1. rewrite <- Hv1 in Hw, HP. clear Hv1.
  apply safe_then; [apply still_get|done|]. intros s2 s3 [= -> ->] _. apply safe_bind, safe_modify.
  - rewrite view_rewritten. by eapply step_rewritten.
  - intros _. apply safe_yields. apply HP; [done|]. apply view_rewritten.
Qed.

Lemma safe_write_all x f bytes s (P : StoredFile -> _ -> Prop) E :
  tolerant E -> (forall k, rewrite_step (view s) x (stored_bytes f) (stored_bytes f ++ firstn k bytes)) ->
  (forall f' s', stored_bytes f' = stored_bytes f ++ bytes ->
     view s' = rewritten (view s) (staging_name (upload_id x)) (stored_bytes f ++ bytes) -> P f' s') ->
  safe (write_all (staging_name (upload_id x)) f bytes) s P E.
Proof.
  intros HE Hw HP. unfold write_all. apply safe_then; [apply still_next_fault|done|]. intros fault s1 _ Hv1. rewrite <- Hv1 in Hw, HP. clear Hv1.
  apply safe_then; [apply still_get|done|]. intros s2 s3 [= -> ->] _. destruct fault as [|k|k]; apply safe_bind, safe_modify.
  - rewrite view_rewritten. specialize (Hw (length bytes)). rewrite firstn_all in Hw. by eapply step_rewritten.
  - intros _. apply safe_yields. apply HP; [done|]. apply view_rewritten.
  - rewrite view_rewritten. by eapply step_rewritten.
  - intros _. by apply safe_throws, HE.
  - rewrite view_rewritten. by eapply step_rewritten.
  - intros _. by apply safe_still; [apply still_ends|done|].
Qed.

Lemma rewrites_cut x b b' (n := Z.to_nat (upload_offset x)) :
  0 <= upload_offset x -> upload_offset x <= length_of b -> firstn n b' = firstn n b -> upload_offset x <= length_of b' ->
  (upload_offset x = upload_length x -> b' = b) -> rewrites x b b'.
Proof. intros. split_and!; done. Qed.

Lemma firstn_whole (b : list Z) n : 0 <= n -> length_of b = n -> firstn (Z.to_nat n) b = b.
Proof. unfold length_of. intros Hn <-. rewrite Nat2Z.id. apply firstn_all. Qed.

(** The file of an active upload, cut to its offset. *)
Lemma cut_step v x b :
  view_ok v -> view_sessions v !! upload_id x = Some x -> state x = UploadState.Active -> staged_at v (upload_id x) = Some b ->
  let b1 := firstn (Z.to_nat (upload_offset x)) b in rewrite_step v x b b1 /\ length_of b1 = upload_offset x.
Proof.
  intros Hok Hx Hst Hb b1. destruct (ok_active _ Hok _ _ _ Hx Hst Hb) as [Hle Hfull]. pose proof (ok_offset _ Hok _ _ Hx).
  assert (Hlen : length_of b1 = upload_offset x) by (unfold b1, length_of in *; rewrite length_firstn; lia).
  split; [|done]. do 3 (split; [done|]). apply rewrites_cut; [lia|done| |lia|].
  - unfold b1. rewrite firstn_firstn. f_equal. lia.
  - intros E. destruct (Hfull E) as [Hl _]. apply firstn_whole; lia.
Qed.

(** A chunk behind the acknowledged bytes [b1]. *)
Lemma written_step v x b1 bytes k :
  view_sessions v !! upload_id x = Some x -> state x = UploadState.Active -> staged_at v (upload_id x) = Some b1 ->
  length_of b1 = upload_offset x -> upload_offset x + length_of bytes <= upload_length x ->
  rewrite_step v x b1 (b1 ++ firstn k bytes).
Proof.
  intros Hx Hst Hb Hl Hn. do 3 (split; [done|]). apply rewrites_cut; [unfold length_of in *; lia|lia| |unfold length_of in *; rewrite length_app; lia|].
  - rewrite <- Hl. unfold length_of. by rewrite Nat2Z.id, firstn_app, Nat.sub_diag, firstn_all, app_nil_r.
  - intros E. assert (bytes = []) as -> by (destruct bytes; [done|unfold length_of in *; cbn in *; lia]).
    by rewrite firstn_nil, app_nil_r.
Qed.
Lemma undone_step v x b1 bytes :
  view_sessions v !! upload_id x = Some x -> state x = UploadState.Active -> staged_at v (upload_id x) = Some (b1 ++ bytes) ->
  length_of b1 = upload_offset x -> upload_offset x + length_of bytes <= upload_length x ->
  rewrite_step v x (b1 ++ bytes) (firstn (Z.to_nat (upload_offset x)) (b1 ++ bytes)).
Proof.
  intros Hx Hst Hb Hl Hn. assert (firstn (Z.to_nat (upload_offset x)) (b1 ++ bytes) = b1) as ->.
  { rewrite <- Hl. unfold length_of. by rewrite Nat2Z.id, firstn_app, Nat.sub_diag, firstn_all, app_nil_r. }
  do 3 (split; [done|]). apply rewrites_cut; [unfold length_of in *; lia|unfold length_of in *; rewrite length_app; lia| |lia|].
  - rewrite <- Hl. unfold length_of. by rewrite Nat2Z.id, firstn_app, Nat.sub_diag, firstn_all, app_nil_r.
  - intros E. assert (bytes = []) as -> by (destruct bytes; [done|unfold length_of in *; cbn in *; lia]). by rewrite app_nil_r.
Qed.

Lemma safe_advance x b offset n s (P : UploadSession -> _ -> Prop) E :
  tolerant E -> view_sessions (view s) !! upload_id x = Some x -> state x = UploadState.Active ->
  staged_at (view s) (upload_id x) = Some b -> offset <= length_of b ->
  (offset = upload_length x -> length_of b = offset /\ expects x (sha256 b) = true) ->
  (forall s' y, y = advanced x offset (now n + upload_ttl_ms) ->
     view s' = mkView (staged (view s)) (published (view s)) (<[upload_id x := y]> (view_sessions (view s))) (view_contents (view s)) ->
     upload_offset x <= offset <= upload_length x -> P y s') ->
  safe (call (repo_advance_upload (upload_id x) (upload_offset x) offset (now n + upload_ttl_ms))) s P E.
Proof.
  intros HE Hx Hst Hb Hl Hfull HP. apply safe_call; [done|]. intros r σ' Hr. destruct (advance_law _ _ _ _ _ _ _ Hr) as [Ec Hm].
  rewrite view_repository, Ec. destruct r as [y|e].
  - destruct Hm as (x' & Hx' & _ & _ & Ho & -> & Es). cbn in Hx. rewrite Hx in Hx'. injection Hx' as <-. rewrite Es.
    split; [apply rtc_once; by apply (step_advance _ _ _ _ _ x b)|]. intros a s' [= <-] Hv. by apply HP.
  - rewrite Hm. split; [apply rtc_refl|done].
Qed.

Lemma upload_Done id s found s' : call (repo_upload id) s = (Done found, s') -> found = view_sessions (view s) !! id.
Proof. intros (σ' & E & _)%call_Done. destruct (upload_law _ _ _ _ E) as (_ & _ & Hr). by apply Hr. Qed.
Lemma rewritten_staged v id b : staged_at (rewritten v (staging_name id) b) id = Some b.
Proof. apply lookup_insert_eq. Qed.
Lemma rewritten_sessions v name b : view_sessions (rewritten v name b) = view_sessions v.
Proof. done. Qed.
Lemma mismatch_expected x d : require_expected x d = Ok tt -> expects x d = true.
Proof. unfold require_expected, expects. destruct (expected_content_id x); [|done]. by destruct (list_eqb _ _). Qed.

(** The end of a chunk: the bytes are written. *)
Lemma safe_acknowledge x b bytes f t n s :
  view_ok (view s) -> view_sessions (view s) !! upload_id x = Some x -> state x = UploadState.Active ->
  length_of b = upload_offset x -> upload_offset x + length_of bytes <= upload_length x ->
  staged_at (view s) (upload_id x) = Some (b ++ bytes) -> stored_bytes f = b ++ bytes -> t = now n ->
  let offset := upload_offset x + length_of bytes in
  safe
    (bind_blob (expiry t) (fun expires =>
       if offset =? upload_length x
       then bind_blob (hash_file f) (fun actual =>
              match require_expected x actual with
              | Err e => bind_blob (set_len (staging_name (upload_id x)) f (upload_offset x))
                           (fun _ => bind_blob io (fun _ => throws e))
              | Ok _ => bind_blob (call (repo_advance_upload (upload_id x) (upload_offset x) offset expires))
                          (fun advanced => finalize_locked_with_id advanced actual)
              end)
       else bind_blob (call (repo_advance_upload (upload_id x) (upload_offset x) offset expires))
              (fun session => yields (mkAppendOutcome session None)))) s (fun _ _ => True) any_error.
Proof.
  intros Hok Hx Hst Hb Hn Hstaged Hf -> offset.
  assert (Hlen : length_of (b ++ bytes) = offset) by (unfold offset, length_of in *; rewrite length_app; lia).
  apply safe_then; [apply still_expiry|done|]. intros e s1 ->%expiry_Done Hv1. rewrite <- Hv1 in Hok, Hx, Hstaged. clear Hv1.
  destruct (Z.eqb_spec offset (upload_length x)) as [Eo|No].
  - apply safe_then; [apply still_hash|done|]. intros actual s2 ->%hash_Done Hv2. rewrite <- Hv2 in Hok, Hx, Hstaged. clear Hv2. rewrite Hf.
    destruct (require_expected x (sha256 (b ++ bytes))) as [[]|e] eqn:Ee.
    + apply mismatch_expected in Ee. apply safe_bind, (safe_advance x (b ++ bytes)); try done; [lia|].
      intros s3 y -> Hv3 Ho Hr3. set (y := advanced x _ _) in *. pose proof (reach_ok _ _ Hok Hr3) as Hok3.
      apply (safe_finalize_with_id y (b ++ bytes)); [done|done| |done].
      split; cbn [upload_id]; [rewrite Hv3; apply lookup_insert_eq|done|done|by rewrite Hv3].
    + apply safe_bind. apply safe_set_len; [done| |].
      * rewrite Hf. by apply undone_step.
      * intros f' s3 _ _ _. apply safe_then; [apply still_io|done|]. intros _ s4 _ _. by apply safe_throws.
  - apply safe_bind, (safe_advance x (b ++ bytes)); try done; [lia|]. intros. by apply safe_yields.
Qed.

Lemma safe_append id supplied bytes checksum s :
  view_ok (view s) -> safe (append_chunk id supplied bytes checksum) s (fun _ _ => True) any_error.
Proof.
  intros Hok. unfold append_chunk. destruct (_ <? _); [by apply safe_throws|].
  destruct (match checksum with Some _ => _ | None => _ end); [by apply safe_throws|].
  apply safe_then; [apply still_upload|done|]. intros found s1 Hfound Hv1. apply upload_Done in Hfound as ->. rewrite <- Hv1 in Hok |- *. clear Hv1.
  destruct (view_sessions (view s1) !! id) as [x|] eqn:Hx; [|by apply safe_throws].
  pose proof (ok_keyed _ Hok _ _ Hx) as <-. pose proof (ok_offset _ Hok _ _ Hx) as Hoff.
  apply safe_then; [apply still_time|done|]. intros t s2 Ht Hv2. apply time_Done in Ht as [n Ht]. rewrite <- Hv2 in Hok, Hx. clear Hv2.
  destruct (is_active x) eqn:Hst; cbn [negb]; [|by apply safe_throws]. unfold is_active in Hst. rewrite bool_decide_eq_true in Hst.
  destruct (_ <=? t); [by apply safe_throws|].
  destruct (Z.eqb_spec supplied (upload_offset x)) as [->|]; cbn [negb]; [|by apply safe_throws].
  fold (length_of bytes). destruct (checked_u 64 _) as [offset|] eqn:Eo; [|by apply safe_throws].
  apply checked_u_Some in Eo as [-> _]. destruct (Z.ltb_spec (upload_length x) (upload_offset x + length_of bytes)) as [|Hn]; [by apply safe_throws|].
  apply safe_then; [apply still_validate_sub|done|]. intros _ s3 _ Hv3. rewrite <- Hv3 in Hok, Hx. clear Hv3.
  apply safe_then; [apply still_open|done|]. intros f s4 Hf Hv4. apply open_Done in Hf; [|done]. apply staging_view in Hf.
  rewrite <- Hv4 in Hok, Hx, Hf. clear Hv4.
  apply safe_then; [apply still_io|done|]. intros _ s5 _ Hv5. rewrite <- Hv5 in Hok, Hx, Hf. clear Hv5.
  destruct (Z.ltb_spec (stored_length f) (upload_offset x)) as [|Hge]; [by apply safe_throws|].
  destruct (cut_step _ _ _ Hok Hx Hst Hf) as [Hcut Hlen]. set (b1 := firstn (Z.to_nat (upload_offset x)) (stored_bytes f)) in *.
  apply safe_bind.
  apply (safe_mono _ _ (fun f1 s6 => stored_bytes f1 = b1 /\ staged_at (view s6) (upload_id x) = Some b1
    /\ view_sessions (view s6) = view_sessions (view s5)) _ any_error); [|intros f1 s6 (Hf1 & Hst6 & Hs6) Hr6|done].
  - destruct (Z.ltb_spec (upload_offset x) (stored_length f)).
    + apply safe_set_len; [done|done|]. intros f' s' Hf' Hv'. split; [done|]. rewrite Hv'. split; [apply rewritten_staged|done].
    + apply safe_yields. assert (stored_bytes f = b1) as E by (symmetry; apply firstn_whole; unfold stored_length, length_of in *; lia).
      split; [done|]. split; [|done]. unfold staged_at. by rewrite Hf, E.
  - pose proof (reach_ok _ _ Hok Hr6) as Hok6. rewrite <- Hs6 in Hx. clear Hs6 Hr6 Hcut Hf Hok.
    apply safe_then; [apply still_io|done|]. intros _ s7 _ Hv7. rewrite <- Hv7 in Hok6, Hx, Hst6. clear Hv7.
    apply safe_bind, safe_write_all; [done| |].
    + intros k. rewrite Hf1. by apply written_step.
    + rewrite Hf1. intros f2 s8 Hf2 Hv8 Hr8. pose proof (reach_ok _ _ Hok6 Hr8) as Hok8.
      apply safe_then; [apply still_io|done|]. intros _ s9 _ Hv9. rewrite <- Hv9 in Hok8, Hv8.
      apply (safe_acknowledge x b1 bytes f2 t n); try done; rewrite Hv8; [done|apply rewritten_staged].
Qed.

(** *** Blobs *)
Lemma still_blob c : still (blob c).
Proof.
  unfold blob. apply still_bind; [apply still_content|]. intros [d|]; [|apply still_yields].
  apply still_bind; [apply still_validate_sub|intros _]. apply still_bind.
  { apply still_catch; [apply still_open|]. intros e He. apply still_if_not_found; [by apply still_throws|done]. }
  intros f. apply still_bind; [apply still_io|intros _]. destruct (negb _); [by apply still_throws|].
  apply still_bind; [apply still_get|intros s]. destruct (bool_decide _); [apply still_yields|].
  apply still_bind; [apply still_hash|intros actual]. still_tac.
Qed.
Lemma still_verify_declared ds verified : still (verify_declared ds verified).
Proof.
  revert verified. induction ds as [|d ds IH]; intros verified; cbn [verify_declared]; [apply still_yields|].
  apply still_bind; [apply still_blob|]. intros found. apply IH.
Qed.
Lemma still_availability cs : still (availability cs).
Proof.
  unfold availability. apply still_bind; [apply still_available|intros ds].
  apply still_bind; [apply still_verify_declared|]. intros v. apply still_yields.
Qed.

(** *** Recovery *)
Definition others_same (id : list Z) (v v' : View) : Prop :=
  forall id', id <> id' -> view_sessions v' !! id' = view_sessions v !! id'.
Lemma insert_others (v v' : View) id y : view_sessions v' = <[id := y]> (view_sessions v) -> others_same id v v'.
Proof. intros E id' Hne. by rewrite E, lookup_insert_ne. Qed.

Lemma safe_recover_session x s :
  view_ok (view s) -> view_sessions (view s) !! upload_id x = Some x -> requires_finalization x = true ->
  safe (recover_session x) s (fun _ s' => others_same (upload_id x) (view s) (view s')) any_error.
Proof.
  intros Hok Hx Hreq. unfold recover_session. destruct (state x) eqn:Hst; [| |by apply safe_throws].
  - apply (safe_catch _ _ _ _ _ plain).
    + apply safe_bind, safe_finalize; try done; [by intros ? ?| |].
      * unfold requires_finalization, is_finalizing, is_active in Hreq. rewrite Hst in Hreq. rewrite bool_decide_false, bool_decide_true in Hreq by done. by apply Z.eqb_eq.
      * intros o s' d Hs' _. apply safe_yields. by eapply insert_others.
    + intros e s1 _ He _. destruct e; try (by destruct He); by apply safe_throws.
  - destruct (ok_finalizing _ Hok _ _ Hx Hst) as (d & Hd & _).
    apply safe_bind, (safe_install x d); try done. intros s1 (Hs1 & Hc1 & Hb1) Hr1.
    apply safe_then; [apply still_time|done|]. intros t s2 _ Hv2. rewrite <- Hv2 in Hs1, Hc1, Hb1. clear Hv2.
    apply safe_bind, (safe_complete x d); try done; [by rewrite Hs1|by rewrite Hst|].
    intros s3 Hv3 _. apply safe_yields. eapply insert_others. by rewrite Hv3, <- Hs1.
Qed.

Lemma safe_discard x n s :
  view_ok (view s) -> view_sessions (view s) !! upload_id x = Some x -> has_expired (now n) x = true ->
  safe (discard_upload (upload_id x)) s (fun _ s' => others_same (upload_id x) (view s) (view s')) any_error.
Proof.
  intros Hok Hx He. unfold discard_upload. apply safe_bind, safe_remove_staging; [done| |].
  - destruct (view s). by eapply step_expire.
  - intros s1 Hv1 _. assert (view_sessions (view s1) = view_sessions (view s)) as Hs1 by (by rewrite Hv1).
    apply safe_call; [done|]. intros r σ' Hr. destruct (delete_law _ _ _ _ Hr) as [Ec Hm]. rewrite view_repository, Ec.
    destruct r as [[]|e]; rewrite Hm.
    + split; [apply rtc_once; apply (step_delete _ _ _ _ (upload_id x) x n); [by cbn in Hs1; rewrite Hs1|done]|].
      intros a s' _ -> id' Hne. cbn [view_sessions]. rewrite lookup_delete_ne by done. cbn in Hs1. by rewrite Hs1.
    + split; [apply rtc_refl|done].
Qed.

Lemma safe_each p f xs s :
  (forall x s, view_ok (view s) -> view_sessions (view s) !! upload_id x = Some x -> p x = true ->
    safe (f x) s (fun _ s' => others_same (upload_id x) (view s) (view s')) any_error) ->
  view_ok (view s) -> NoDup (List.map upload_id xs) ->
  (forall x, x ∈ xs -> view_sessions (view s) !! upload_id x = Some x /\ p x = true) ->
  safe (each_session f xs) s (fun _ _ => True) any_error.
Proof.
  intros Hf. revert s. induction xs as [|x xs IH]; intros s Hok Hnd Hin; cbn [each_session]; [by apply safe_yields|].
  cbn in Hnd. apply NoDup_cons in Hnd as [Hnot Hnd]. destruct (Hin x) as [Hx Hp]; [by left|]. apply safe_bind.
  eapply safe_mono; [by apply Hf| |done]. intros [] s1 Ho Hr. apply IH; [by eapply reach_ok|done|].
  intros y Hy. destruct (Hin y) as [Hys Hyp]; [by right|]. split; [|done]. rewrite Ho; [done|].
  intros E. apply Hnot. rewrite E. apply list_elem_of_In, in_map, list_elem_of_In. done.
Qed.

Lemma safe_maintain p fuel batch f s :
  (forall x s, view_ok (view s) -> view_sessions (view s) !! upload_id x = Some x -> p x = true ->
    safe (f x) s (fun _ s' => others_same (upload_id x) (view s) (view s')) any_error) ->
  still batch ->
  (forall s xs s', view_ok (view s) -> batch s = (Done xs, s') -> NoDup (List.map upload_id xs)
     /\ forall x, x ∈ xs -> view_sessions (view s) !! upload_id x = Some x /\ p x = true) ->
  view_ok (view s) -> safe (maintain fuel batch f) s (fun _ _ => True) any_error.
Proof.
  intros Hf Hstill Hbatch. revert s. induction fuel as [|fuel IH]; intros s Hok; cbn [maintain].
  { apply safe_still; [apply still_ends|done|done]. }
  apply safe_then; [done|done|]. intros xs s1 Hxs Hv1. destruct (Hbatch _ _ _ Hok Hxs) as [Hnd Hin]. rewrite <- Hv1 in Hok, Hin.
  apply safe_bind. eapply safe_mono; [by apply (safe_each p)| |done]. intros [] s2 _ Hr2.
  destruct (_ <? _)%nat; [by apply safe_yields|]. apply IH. by eapply reach_ok.
Qed.

Lemma requiring_Done limit s xs s' : view_ok (view s) ->
  call (repo_uploads_requiring_finalization limit) s = (Done xs, s') -> NoDup (List.map upload_id xs)
  /\ forall x, x ∈ xs -> view_sessions (view s) !! upload_id x = Some x /\ requires_finalization x = true.
Proof.
  intros Hok (σ' & E & _)%call_Done. destruct (requiring_law _ _ _ _ E) as (_ & _ & Hxs).
  destruct (Hxs xs (ok_keyed _ Hok) eq_refl) as (Hnd & _ & Hin & _). auto.
Qed.
Lemma expired_Done t limit s xs s' : view_ok (view s) ->
  call (repo_expired_uploads t limit) s = (Done xs, s') -> NoDup (List.map upload_id xs)
  /\ forall x, x ∈ xs -> view_sessions (view s) !! upload_id x = Some x /\ has_expired t x = true.
Proof.
  intros Hok (σ' & E & _)%call_Done. destruct (expired_law _ _ _ _ _ E) as (_ & _ & Hxs).
  destruct (Hxs xs (ok_keyed _ Hok) eq_refl) as (Hnd & _ & Hin & _). auto.
Qed.

Lemma parse_staging_name_Some name id : parse_staging_name name = Some id -> name = staging_name id.
Proof.
  unfold parse_staging_name. destruct (valid_utf8 name); [|done]. destruct (list_eqb _ _); [|done].
  destruct (uuid_parse _) as [id'|]; [|done]. cbn. destruct (list_eqb name _) eqn:E; [|done]. intros [= <-]. by apply list_eqb_eq.
Qed.

Lemma safe_orphans names removed s : safe (remove_orphans names removed) s (fun _ _ => True) any_error.
Proof.
  revert removed s. induction names as [|name names IH]; intros removed s; cbn [remove_orphans]; [by apply safe_yields|].
  apply safe_then; [apply still_io|done|]. intros _ s1 _ _. apply safe_then; [apply still_io|done|]. intros _ s2 _ _.
  destruct (parse_staging_name name) as [id|] eqn:E; [|by apply safe_throws]. apply parse_staging_name_Some in E as ->.
  apply safe_then; [apply still_upload|done|]. intros found s3 Hf Hv3. apply upload_Done in Hf as ->. rewrite <- Hv3.
  destruct (view_sessions (view s3) !! id) eqn:Hid; [apply IH|]. apply safe_bind, safe_remove_file; [done| |].
  - apply (step_removed _ _ (new_session (mkNewUpload [] 0 None None None None 0 0))). by left.
  - intros s4 _ _. apply IH.
Qed.

Lemma safe_recover fuel s : view_ok (view s) -> safe (recover fuel) s (fun _ _ => True) any_error.
Proof.
  intros Hok. unfold recover. apply safe_bind.
  eapply (safe_mono _ _ (fun _ _ => True) _ any_error); [|intros _ s1 _ Hr1|done].
  - unfold remove_orphan_staging_files. apply safe_then; [apply still_validate_sub|done|]. intros _ s1 _ _.
    apply safe_then; [apply still_io|done|]. intros _ s2 _ _. apply safe_then; [apply still_get|done|]. intros s3 s4 _ _.
    apply safe_bind. eapply safe_mono; [apply safe_orphans| |done]. intros [] s5 _ _.
    + apply safe_still; [apply still_sync|done|done].
    + by apply safe_yields.
  - apply (reach_ok _ _ Hok) in Hr1 as Hok1. apply safe_bind.
    eapply safe_mono; [apply (safe_maintain requires_finalization); [apply safe_recover_session|apply still_requiring| |done]| |done].
    { intros s' xs s'' Hok' Hxs. by eapply requiring_Done. }
    intros _ s2 _ Hr2. pose proof (reach_ok _ _ Hok1 Hr2) as Hok2.
    apply safe_then; [apply still_time|done|]. intros t s3 Ht Hv3. apply time_Done in Ht as [n ->]. rewrite <- Hv3 in Hok2.
    apply (safe_maintain (has_expired (now n))); [| |intros s' xs s'' Hok' Hxs; by eapply expired_Done|done].
    + intros. by eapply safe_discard.
    + apply still_expired.
Qed.

Lemma safe_open fuel s : view_ok (view s) -> safe (open_with_limits fuel) s (fun _ _ => True) any_error.
Proof.
  intros Hok. unfold open_with_limits. apply safe_then; [by apply still_modify|done|]. intros _ s1 _ Hv1. rewrite <- Hv1 in Hok.
  do 4 (apply safe_then; [first [apply still_prepare_root|apply still_prepare]|done|]; intros _ ? _ Hv; rewrite <- Hv in Hok; clear Hv).
  by apply safe_recover.
Qed.

End BlobStoreRuns.
