(* ===== verification/BlobStoreTheory.v ===== *)
(** * The node's blob store: what survives

    [blob_step] is one operation of a node or the start of a process, cut short wherever
    its faults say.  What is declared stays declared and authentic, and what an upload
    acknowledged stays stored. *)
From S2P Require Import Prelude Bytes Crypto Content UploadRepository UploadRepositoryTheory BlobStore BlobProtocol BlobStoreRuns.

Section BlobStoreTheory.
Context `{Sha256} `{Uuid} `{Repository : ContentRepository} `{Laws : !ContentRepositoryLaws} `{BlobSettings}.

(** ** Runs of the store *)

(** One operation of a node, or the start of a process; any of them may be cut short by its
    faults.  [Uuid::now_v7] draws an identity that no session has. *)
Inductive blob_step : BlobStore -> BlobStore -> Prop :=
| run_create s id request :
    view_sessions (view s) !! id = None -> 0 <= create_length request -> blob_step s (snd (create_upload id request s))
| run_append s id offset bytes checksum : blob_step s (snd (append_chunk id offset bytes checksum s))
| run_upload s id : blob_step s (snd (upload id s))
| run_blob s c : blob_step s (snd (blob c s))
| run_availability s cs : blob_step s (snd (availability cs s))
| run_open s fuel : blob_step s (snd (open_with_limits fuel s)).

Lemma blob_step_reach s s' : view_ok (view s) -> blob_step s s' -> reach s s'.
Proof.
  intros Hok Hs. destruct Hs as [s id request Hid Hlen|s id offset bytes checksum|s id|s c|s cs|s fuel].
  - apply (safe_create id request s Hok Hid Hlen).
  - apply (safe_append id offset bytes checksum s Hok).
  - apply reach_view, still_upload.
  - apply reach_view, still_blob.
  - apply reach_view, still_availability.
  - apply (safe_open fuel s Hok).
Qed.
Lemma blob_steps_reach s s' : view_ok (view s) -> rtc blob_step s s' -> reach s s'.
Proof.
  intros Hok Hs. revert Hok. induction Hs as [s|s s1 s2 Hone _ IH]; intros Hok; [apply rtc_refl|].
  pose proof (blob_step_reach _ _ Hok Hone) as Hr. eapply reach_trans; [done|]. apply IH. by eapply reach_ok.
Qed.

(** A store that was never used, and what its runs lead to. *)
Definition unused (s : BlobStore) : Prop := view s = mkView ∅ ∅ ∅ ∅.
Definition reachable (s : BlobStore) : Prop := exists s0, unused s0 /\ rtc blob_step s0 s.

Lemma empty_view_ok : view_ok (mkView ∅ ∅ ∅ ∅).
Proof. split; by intros ? **; cbn in *; rewrite ?lookup_empty in *. Qed.
Lemma reachable_ok s : reachable s -> view_ok (view s).
Proof.
  intros (s0 & Hu & Hs). assert (view_ok (view s0)) as Hok by (rewrite Hu; apply empty_view_ok).
  eapply reach_ok; [done|]. by apply blob_steps_reach.
Qed.

(** ** What is published stays *)
Lemma upload_step_keeps v v' : upload_step v v' -> view_ok v ->
  (forall d b, published v !! d = Some b -> published v' !! d = Some b)
  /\ (forall d n, view_contents v !! d = Some n -> view_contents v' !! d = Some n).
Proof.
  intros Hs Hok. destruct Hs; cbn; split; try done; intros d' b' Hd.
  - rewrite lookup_insert_ne; [done|]. congruence.
  - destruct (decide (d = d')) as [<-|Hne]; [|by rewrite lookup_insert_ne]. rewrite lookup_insert_eq.
    destruct (ok_contents _ Hok _ _ Hd) as (b1 & Hb1 & Hl). cbn in Hb1. congruence.
Qed.
Lemma upload_steps_keep v v' : rtc upload_step v v' -> view_ok v ->
  (forall d b, published v !! d = Some b -> published v' !! d = Some b)
  /\ (forall d n, view_contents v !! d = Some n -> view_contents v' !! d = Some n).
Proof.
  induction 1 as [v|v v1 v2 Hone _ IH]; intros Hok; [done|]. destruct (upload_step_keeps _ _ Hone Hok) as [Hp Hc].
  destruct (IH (upload_step_ok _ _ Hone Hok)) as [Hp' Hc']. split; eauto.
Qed.

(** An authentic blob is never reported as corrupt. *)
Definition corrupt_free {A} (m : B A) (s : BlobStore) : Prop := fst (m s) <> Failed BlobStoreError.Corrupt.
Lemma corrupt_free_then {A B'} (m : B A) (k : A -> B B') s :
  corrupt_free m s -> (forall a s', m s = (Done a, s') -> corrupt_free (k a) s') -> corrupt_free (bind_blob m k) s.
Proof.
  unfold corrupt_free, bind_blob. intros Hm Hk. destruct (m s) as [[a|e|] s1]; [by apply Hk| |done]. cbn in *. congruence.
Qed.
Lemma corrupt_free_io s : corrupt_free io s.
Proof. unfold corrupt_free. by destruct (io_spec s) as (l & [->|[->| ->]]). Qed.
Lemma corrupt_free_validate ds s : corrupt_free (validate_components ds) s.
Proof.
  revert s. induction ds as [|d ds IH]; intros s; cbn [validate_components]; [done|].
  apply corrupt_free_then; [apply corrupt_free_io|]. intros _ s1 _. apply corrupt_free_then; [done|]. intros s2 s3 _.
  destruct (bool_decide _); [apply IH|done].
Qed.
Lemma corrupt_free_open files name s : corrupt_free (open_regular_file files name) s.
Proof.
  unfold open_regular_file. apply corrupt_free_then.
  - unfold symlink_metadata. apply corrupt_free_then; [apply corrupt_free_io|intros _ s1 _].
    apply corrupt_free_then; [done|intros s2 s3 _]. by destruct (files s2 !! name).
  - intros f s1 _. do 2 (apply corrupt_free_then; [apply corrupt_free_io|intros _ ? _]). done.
Qed.
Lemma corrupt_free_hash f s : corrupt_free (hash_file f) s.
Proof. unfold hash_file. repeat (apply corrupt_free_then; [apply corrupt_free_io|intros ? ? _]). done. Qed.
Lemma corrupt_free_content c s : corrupt_free (call (repo_content c)) s.
Proof.
  unfold corrupt_free, call, bind_blob. destruct (next_fault_spec s) as (fault & l & ->). destruct fault; cbn; [..|done].
  all: by destruct (repo_content c (repository s)) as [[] ?].
Qed.
Lemma content_Done c s found s' : call (repo_content c) s = (Done found, s') ->
  found = ContentDescriptor.mk c <$> view_contents (view s) !! (c : list Z).
Proof. intros (σ' & E & _)%call_Done. destruct (content_law _ _ _ _ E) as (_ & _ & Hr). by apply Hr. Qed.

Lemma open_missing files name s s' : of_files files ->
  open_regular_file files name s = (Failed (BlobStoreError.Io IoKind.NotFound), s') -> files s !! name = None.
Proof.
  intros Hf. unfold open_regular_file. unfold bind_blob at 1. pose proof (symlink_spec files name s Hf) as Hs.
  destruct (symlink_metadata files name s) as [[f|e|] s1]; [|intros [= -> _]; by apply Hs|done].
  unfold bind_blob. destruct (io_spec s1) as (l & [->|[->| ->]]); [|done..].
  destruct (io_spec (with_faults s1 l)) as (l' & [->|[->| ->]]); done.
Qed.

Lemma blob_corrupt_free c s : view_ok (view s) -> corrupt_free (blob c) s.
Proof.
  intros Hok. unfold blob. apply corrupt_free_then; [apply corrupt_free_content|]. intros found s1 Hfound.
  pose proof (proj1 (still_content c s)) as Hv. rewrite Hfound in Hv. cbn [snd] in Hv. apply content_Done in Hfound as ->.
  rewrite <- Hv in Hok |- *. destruct (view_contents (view s1) !! (c : list Z)) as [n|] eqn:En; [|done]. cbn [fmap option_fmap option_map].
  destruct (ok_contents _ Hok _ _ En) as (b & Hb & Hl).
  apply corrupt_free_then; [apply corrupt_free_validate|]. intros u s2 E2.
  pose proof (proj1 (still_validate_sub (blob_parent c) s1)) as Hv2. rewrite E2 in Hv2. cbn [snd] in Hv2.
  rewrite <- Hv2 in Hok, Hb. clear Hv Hv2 E2.
  assert (Hfile : exists f, finals s2 !! (c : list Z) = Some f /\ stored_bytes f = b).
  { cbn in Hb. rewrite lookup_fmap in Hb. by apply fmap_Some in Hb as (f & Hf & ->); exists f. }
  destruct Hfile as (f & Hf & Hfb).
  apply corrupt_free_then.
  { unfold corrupt_free, catch. pose proof (corrupt_free_open finals c s2) as Ho. unfold corrupt_free in Ho.
    destruct (open_regular_file finals c s2) as [[f'|e|] s3] eqn:Eo; [done| |done]. destruct e as [[]| | | | | | | | | | | |]; try done.
    apply open_missing in Eo; [|done]. congruence. }
  intros f' s3 E3. assert (f' = f) as ->.
  { unfold catch in E3. destruct (open_regular_file finals c s2) as [[f''|e|] s4] eqn:Eo; [|by destruct e as [[]| | | | | | | | | | | |]|done].
    injection E3 as -> ->. apply open_Done in Eo; [|done]. congruence. }
  apply corrupt_free_then; [apply corrupt_free_io|intros _ s4 _].
  replace (stored_length f =? ContentDescriptor.byte_length (ContentDescriptor.mk c n)) with true.
  2: { symmetry. apply Z.eqb_eq. cbn. rewrite <- Hl, <- Hfb. done. }
  cbn [negb]. apply corrupt_free_then; [done|intros s5 s6 _]. destruct (bool_decide _); [done|].
  apply corrupt_free_then; [apply corrupt_free_hash|]. intros actual s7 ->%hash_Done.
  rewrite Hfb, (ok_published _ Hok _ _ Hb). rewrite (proj2 (list_eqb_eq c c)) by done. cbn [negb].
  apply corrupt_free_then; [apply corrupt_free_io|intros _ s8 _]. done.
Qed.

(** C19: however operations fail and wherever the process ends, what a node declares as
    available has a file with exactly the declared length whose bytes hash to its
    identity; it stays declared with the same bytes, and reading it never reports
    corruption. *)
Theorem declared_content_is_authentic s s' d n :
  reachable s -> rtc blob_step s s' -> contents (repository s) !! d = Some n ->
  exists f f', finals s !! d = Some f /\ finals s' !! d = Some f' /\ stored_bytes f' = stored_bytes f
  /\ sha256 (stored_bytes f) = d /\ stored_length f = n /\ contents (repository s') !! d = Some n
  /\ fst (blob d s') <> Failed BlobStoreError.Corrupt.
Proof.
  intros Hs Hrun Hd. pose proof (reachable_ok _ Hs) as Hok. pose proof (blob_steps_reach _ _ Hok Hrun) as Hr.
  destruct (ok_contents _ Hok d n Hd) as (b & Hb & Hl). pose proof (ok_published _ Hok _ _ Hb) as Hsha.
  destruct (upload_steps_keep _ _ Hr Hok) as [Hp Hc]. specialize (Hp _ _ Hb). specialize (Hc d n Hd).
  cbn in Hb, Hp, Hc. rewrite lookup_fmap in Hb, Hp. apply fmap_Some in Hb as (f & Hf & ->). apply fmap_Some in Hp as (f' & Hf' & Eb).
  exists f, f'. split_and!; try done. apply blob_corrupt_free. by eapply reach_ok.
Qed.

(** ** What is acknowledged stays *)

(** The upload [id] still has the bytes [p]: in its staging file, or in the content whose
    identity it committed to. *)
Definition has_bytes (v : View) (x : UploadSession) (p : list Z) : Prop :=
  match state x with
  | UploadState.Active => exists b, staged_at v (upload_id x) = Some b /\ p `prefix_of` firstn (Z.to_nat (upload_offset x)) b
  | _ => exists b, final_content_id x = Some (sha256 b) /\ length_of b = upload_length x /\ p `prefix_of` b
  end.
Definition holds_upload (deadline : Z) (v : View) (id p : list Z) : Prop :=
  exists x, view_sessions v !! id = Some x /\ deadline <= expires_at_unix_ms x /\ has_bytes v x p.

Lemma has_bytes_staged v v' x p : staged_at v' (upload_id x) = staged_at v (upload_id x) -> has_bytes v x p -> has_bytes v' x p.
Proof. unfold has_bytes. intros ->. done. Qed.
Lemma staged_other_insert (g : gmap (list Z) (list Z)) id id' b : id <> id' -> <[staging_name id := b]> g !! staging_name id' = g !! staging_name id'.
Proof. intros Hne. by rewrite lookup_insert_ne by (by apply staging_name_ne). Qed.
Lemma staged_other_delete (g : gmap (list Z) (list Z)) id id' : id <> id' -> delete (staging_name id) g !! staging_name id' = g !! staging_name id'.
Proof. intros Hne. by rewrite lookup_delete_ne by (by apply staging_name_ne). Qed.

Lemma prefix_firstn_le (b : list Z) (n m : nat) p : (n <= m)%nat -> p `prefix_of` firstn n b -> p `prefix_of` firstn m b.
Proof.
  intros Hle [k Hk]. assert (firstn n b `prefix_of` firstn m b) as Hp.
  { replace n with (Nat.min n m) by lia. rewrite <- firstn_firstn. apply prefix_take. }
  etrans; [|exact Hp]. by exists k.
Qed.

Section Survival.
Context (start : Z) (Hclock : forall n, start <= now n < start + upload_ttl_ms).
#[local] Notation deadline := (start + upload_ttl_ms).

(** A step at another upload. *)
Lemma holds_other v v' id p :
  view_ok v -> holds_upload deadline v id p -> view_sessions v' !! id = view_sessions v !! id ->
  (forall x, view_sessions v !! id = Some x -> state x = UploadState.Active -> staged_at v' id = staged_at v id) ->
  holds_upload deadline v' id p.
Proof.
  intros Hok (x & Hx & He & Hb) Hs Hst. exists x. rewrite Hs. split_and!; [done|done|].
  pose proof (ok_keyed _ Hok _ _ Hx) as <-. unfold has_bytes in *. destruct (state x) eqn:E; [|done..].
  by rewrite (Hst x).
Qed.

Lemma upload_step_holds v v' id p : p <> [] -> upload_step v v' -> view_ok v -> holds_upload deadline v id p -> holds_upload deadline v' id p.
Proof.
  intros Hp Hs Hok Hh. destruct Hs as [g q m c id' Hg Hm|g q m c u Hg Hm Hu He|g q m c id' Hm|g q m c id' x Hx Hst Ho
    |g q m c id' x b b' Hx Hst Hb Hw|g q m c id' x b offset n Hx Hst Hb Ho Hl Hfull|g q m c id' x b Hx Hst Ho Hb
    |g q m c id' x d b Hx Hst Hd Hb Hpub|g q m c id' x d b Hx Hst Hd Hb Hl|g q m c id' x d b Hx Hst Hd Hb Hl
    |g q m c id' x n Hx Hexp|g q m c id' x n Hx Hexp];
  [| |destruct (decide (id' = id)) as [->|Hne]..].
  all: try (apply (holds_other _ _ id p Hok Hh); view_cbn; [by rewrite ?lookup_insert_ne, ?lookup_delete_ne by done|];
            intros; by rewrite ?staged_other_insert, ?staged_other_delete by done).
  all: destruct Hh as (y & Hy & Hyexp & Hbytes); view_cbn.
  - exists y. split_and!; try done. eapply has_bytes_staged; [|done]. view_cbn. rewrite staged_other_insert; [done|].
    pose proof (ok_keyed _ Hok _ _ Hy) as E. cbn in E. congruence.
  - exists y. view_cbn. rewrite lookup_insert_ne by congruence. done.
  - congruence.
  - rewrite Hx in Hy. injection Hy as <-. unfold has_bytes in Hbytes. rewrite Hst, Ho in Hbytes. destruct Hbytes as (b & _ & Hpre).
    cbn in Hpre. by apply prefix_nil_inv in Hpre.
  - rewrite Hx in Hy. injection Hy as <-. pose proof (ok_keyed _ Hok _ _ Hx) as E. cbn in E. exists x. split_and!; try done.
    unfold has_bytes in *. rewrite Hst in *. view_cbn. rewrite E in *. destruct Hbytes as (b0 & Hb0 & Hpre). rewrite Hb in Hb0. injection Hb0 as <-.
    exists b'. rewrite lookup_insert_eq. split; [done|]. destruct Hw as (-> & _). done.
  - rewrite Hx in Hy. injection Hy as <-. pose proof (ok_keyed _ Hok _ _ Hx) as E. cbn in E. pose proof (ok_offset _ Hok _ _ Hx).
    exists (advanced x offset (now n + upload_ttl_ms)). view_cbn. rewrite lookup_insert_eq. split; [done|]. cbn. split; [specialize (Hclock n); lia|].
    unfold has_bytes in *. cbn. rewrite Hst in *. view_cbn. rewrite E in *. destruct Hbytes as (b0 & Hb0 & Hpre). exists b0. split; [done|].
    eapply prefix_firstn_le; [|done]. lia.
  - rewrite Hx in Hy. injection Hy as <-. pose proof (ok_keyed _ Hok _ _ Hx) as E. cbn in E.
    destruct (ok_active _ Hok _ _ _ Hx Hst Hb) as [_ Hfull]. destruct (Hfull Ho) as [Hl _].
    exists (finalizing x (sha256 b)). view_cbn. rewrite lookup_insert_eq. split; [done|]. cbn. split; [done|].
    unfold has_bytes in *. cbn. rewrite Hst in *. view_cbn. rewrite E in *. destruct Hbytes as (b0 & Hb0 & Hpre). rewrite Hb in Hb0. injection Hb0 as <-.
    exists b. split_and!; [done|done|]. etrans; [done|]. apply prefix_take.
  - rewrite Hx in Hy. injection Hy as <-. exists x. split_and!; try done. unfold has_bytes in *. by rewrite Hst in *.
  - rewrite Hx in Hy. injection Hy as <-. exists x. split_and!; try done. unfold has_bytes in *. by rewrite Hst in *.
  - rewrite Hx in Hy. injection Hy as <-. exists (completed x). view_cbn. rewrite lookup_insert_eq. split_and!; [done|done|].
    unfold has_bytes in *. cbn. by destruct (state x).
  - rewrite Hx in Hy. injection Hy as <-. apply has_expired_state in Hexp as [_ Hexp]. specialize (Hclock n). lia.
  - rewrite Hx in Hy. injection Hy as <-. apply has_expired_state in Hexp as [_ Hexp]. specialize (Hclock n). lia.
Qed.

Lemma upload_steps_hold v v' id p : p <> [] -> rtc upload_step v v' -> view_ok v -> holds_upload deadline v id p -> holds_upload deadline v' id p.
Proof.
  intros Hp. induction 1 as [|v v1 v2 Hone _ IH]; intros Hok Hh; [done|].
  apply IH; [by eapply upload_step_ok|]. by eapply upload_step_holds.
Qed.

(** C20: while no more time passes than an upload may take, whatever operations run, fail or
    end with the process, an upload keeps the bytes the node acknowledged: its session
    stays, and the bytes stay the beginning of its staging file, and later of the
    content whose identity it commits to. *)
Theorem acknowledged_bytes_survive s s' x b :
  reachable s -> rtc blob_step s s' -> sessions (repository s) !! upload_id x = Some x -> state x = UploadState.Active ->
  stored_bytes <$> staging s !! staging_name (upload_id x) = Some b ->
  start + upload_ttl_ms <= expires_at_unix_ms x -> 0 < upload_offset x ->
  exists x', sessions (repository s') !! upload_id x = Some x'
  /\ has_bytes (view s') x' (firstn (Z.to_nat (upload_offset x)) b).
Proof.
  intros Hs Hrun Hx Hst Hb He Ho. pose proof (reachable_ok _ Hs) as Hok. pose proof (blob_steps_reach _ _ Hok Hrun) as Hr.
  assert (Hstaged : staged_at (view s) (upload_id x) = Some b) by (unfold staged_at; cbn; by rewrite lookup_fmap).
  destruct (ok_active _ Hok _ _ _ Hx Hst Hstaged) as [Hle _].
  destruct (upload_steps_hold _ _ (upload_id x) (firstn (Z.to_nat (upload_offset x)) b) ltac:(intros E; apply (f_equal length) in E;
    rewrite length_firstn in E; unfold length_of in Hle; cbn in E; lia) Hr Hok) as (x' & Hx' & _ & Hb'); [|by exists x'].
  exists x. split_and!; [done|done|]. unfold has_bytes. rewrite Hst. by exists b.
Qed.
End Survival.
End BlobStoreTheory.
