(* ===== verification/BlobStoreProgress.v ===== *)
(** * The node's blob store: progress

    Without failures a start from a recoverable store completes every full upload and
    removes what expired, and the chunks that an upload lacks complete it. *)
From S2P Require Import Prelude Bytes Crypto Content UploadRepository UploadRepositoryTheory BlobStore BlobProtocol BlobStoreRuns BlobStoreTheory.

Section BlobStoreProgress.
Context `{Sha256} `{Uuid} `{Repository : ContentRepository} `{Laws : !ContentRepositoryLaws} `{BlobSettings}.
Context (Hclock : forall n, 0 <= now n < 2 ^ 63).

(** ** Computations that succeed *)

(** The clock readings that matter are those from [since] on. *)
Variable since : nat.

Record calm (s : BlobStore) : Prop := {
  calm_faults : faults s = [];
  calm_readings : (since <= readings s)%nat;
  calm_healthy : healthy (repository s);
  calm_directories : {[StagingDirectory; BlobsDirectory; AlgorithmDirectory]} ⊆ directories s
}.
Definition does {A} (m : B A) (s : BlobStore) (P : A -> BlobStore -> Prop) : Prop :=
  match m s with (Done a, s') => P a s' | _ => False end.

Lemma does_yields {A} (a : A) s (P : A -> _ -> Prop) : P a s -> does (yields a) s P.
Proof. done. Qed.
Lemma does_bind {A B'} (m : B A) (k : A -> B B') s P : does m s (fun a s' => does (k a) s' P) -> does (bind_blob m k) s P.
Proof. unfold does, bind_blob. by destruct (m s) as [[a|e|] s']. Qed.
Lemma does_run {A} (m : B A) s a s' (P : A -> _ -> Prop) : m s = (Done a, s') -> P a s' -> does m s P.
Proof. unfold does. by intros ->. Qed.
Lemma does_then {A B'} (m : B A) (k : A -> B B') s a s' P : m s = (Done a, s') -> does (k a) s' P -> does (bind_blob m k) s P.
Proof. intros E Hk. apply does_bind. by eapply does_run. Qed.
Lemma does_catch {A} (m : B A) h s P : does m s P -> does (catch m h) s P.
Proof. unfold does, catch. by destruct (m s) as [[a|e|] s']. Qed.

Lemma next_fault_calm s : faults s = [] -> next_fault s = (Done Passes, s).
Proof. unfold next_fault. by intros ->. Qed.
Lemma io_calm s : faults s = [] -> io s = (Done tt, s).
Proof. intros Hf. unfold io, bind_blob. by rewrite next_fault_calm. Qed.
Lemma does_io {B'} (k : unit -> B B') s P : faults s = [] -> does (k tt) s P -> does (bind_blob io k) s P.
Proof. intros Hf. by apply does_then, io_calm. Qed.
Lemma sync_calm s : faults s = [] -> sync_directory s = (Done tt, s).
Proof. intros Hf. unfold sync_directory, bind_blob. by rewrite !(io_calm s). Qed.
Lemma validate_calm ds s : faults s = [] -> (forall d, d ∈ ds -> d ∈ directories s) -> validate_components ds s = (Done tt, s).
Proof.
  intros Hf. induction ds as [|d ds IH]; intros Hin; cbn [validate_components]; [done|]. unfold bind_blob. rewrite io_calm by done.
  cbn. rewrite bool_decide_true by (apply Hin; by left). apply IH. intros d' Hd'. apply Hin. by right.
Qed.
Lemma validate_staging_calm s : calm s -> validate_private_subdirectory StagingDirectory s = (Done tt, s).
Proof. intros [Hf _ _ Hd]. apply validate_calm; [done|]. intros d ->%list_elem_of_singleton. set_solver. Qed.

Lemma prepare_calm ds s : faults s = [] ->
  exists directories', prepare_components ds s = (Done tt, with_directories s directories')
  /\ directories s ⊆ directories' /\ forall d, d ∈ ds -> d ∈ directories'.
Proof.
  revert s. induction ds as [|d ds IH]; intros s Hf; cbn [prepare_components].
  - exists (directories s). destruct s. split_and!; try done. by intros ? ?%not_elem_of_nil.
  - unfold bind_blob. rewrite io_calm by done. cbn. destruct (bool_decide (d ∈ directories s)) eqn:Ed; cbn.
    + rewrite io_calm by done. destruct (IH s Hf) as (ds' & -> & Hsub & Hin). exists ds'. split_and!; [done|done|].
      apply bool_decide_eq_true in Ed. intros d' [->|Hd']%elem_of_cons; [by apply Hsub|by apply Hin].
    + rewrite io_calm by done. cbn. set (s1 := with_directories s ({[ d ]} ∪ directories s)).
      assert (faults s1 = []) as Hf1 by done. rewrite (io_calm s1), (sync_calm s1), (io_calm s1) by done.
      destruct (IH s1 Hf1) as (ds' & -> & Hsub & Hin). exists ds'. split; [done|]. cbn in Hsub. split; [set_solver|].
      intros d' [->|Hd']%elem_of_cons; [set_solver|by apply Hin].
Qed.

Lemma symlink_calm files name f s : faults s = [] -> files s !! name = Some f -> symlink_metadata files name s = (Done f, s).
Proof. intros Hf Hn. unfold symlink_metadata, bind_blob. rewrite io_calm by done. cbn. by rewrite Hn. Qed.
Lemma open_calm files name f s : faults s = [] -> files s !! name = Some f -> open_regular_file files name s = (Done f, s).
Proof. intros Hf Hn. unfold open_regular_file, bind_blob. rewrite (symlink_calm _ _ f) by done. by rewrite !io_calm by done. Qed.
Lemma hash_calm f s : faults s = [] -> hash_file f s = (Done (sha256 (stored_bytes f)), s).
Proof. intros Hf. unfold hash_file, bind_blob. by rewrite !io_calm by done. Qed.
Lemma time_calm s : unix_time_millis s = (Done (now (readings s)), with_reading s).
Proof.
  unfold unix_time_millis, bind_blob, get, modify. destruct (Hclock (readings s)) as [H0' H1'].
  apply Z.leb_le in H0' as ->. by apply Z.ltb_lt in H1' as ->.
Qed.
Lemma staged_file s name b : staged (view s) !! name = Some b -> exists f, staging s !! name = Some f /\ stored_bytes f = b.
Proof. cbn. rewrite lookup_fmap. intros (f & -> & ->)%fmap_Some. eauto. Qed.
Lemma published_file s d b : published (view s) !! d = Some b -> exists f, finals s !! d = Some f /\ stored_bytes f = b.
Proof. cbn. rewrite lookup_fmap. intros (f & -> & ->)%fmap_Some. eauto. Qed.


(** A repository call on a calm store. *)
Lemma does_call {A} (f : Repo -> result ContentRepositoryError.t A * Repo) s (P : A -> _ -> Prop) :
  calm s -> is_ok (fst (f (repository s))) = true -> healthy (snd (f (repository s))) ->
  (forall a σ', f (repository s) = (Ok a, σ') -> calm (with_repository s σ') -> P a (with_repository s σ')) ->
  does (call f) s P.
Proof.
  intros [Hf Hn Hh Hd] Hok Hh' HP. unfold does, call, bind_blob. rewrite next_fault_calm by done. cbn.
  destruct (f (repository s)) as [[a|e] σ'] eqn:E; [|done]. cbn. by apply HP.
Qed.

Lemma calm_same_shape s s' :
  calm s -> faults s' = [] -> (readings s <= readings s')%nat -> repository s' = repository s ->
  directories s ⊆ directories s' -> calm s'.
Proof. intros [Hf Hn Hh Hd] Hf' Hn' Hr Hd'. split; [done|lia|by rewrite Hr|set_solver]. Qed.

(** ** Publication *)
Definition kept_or_new (p : gmap (list Z) (list Z)) (d b : list Z) : gmap (list Z) (list Z) :=
  match p !! d with Some _ => p | None => <[d := b]> p end.
Definition settled_view (v : View) (x : UploadSession) (d : list Z) : View :=
  mkView (delete (staging_name (upload_id x)) (staged v))
    (match staged_at v (upload_id x) with Some b => kept_or_new (published v) d b | None => published v end)
    (view_sessions v) (view_contents v).

Lemma remove_staging_calm id s (P : unit -> _ -> Prop) : calm s ->
  (forall s', calm s' -> view s' = deleted (view s) (staging_name id) -> P tt s') -> does (remove_staging_file id) s P.
Proof.
  intros Hs HP. pose proof (calm_faults s Hs) as Hf. unfold remove_staging_file.
  eapply does_then; [by apply validate_staging_calm|]. apply does_bind. unfold catch, remove_file, does at 1, bind_blob.
  rewrite io_calm by done. cbn. destruct (staging s !! staging_name id) as [f|] eqn:Ef; cbn.
  - eapply does_run; [by apply sync_calm|]. apply HP; [by apply (calm_same_shape s)|apply view_deleted].
  - apply HP; [done|]. rewrite deleted_absent; [done|]. cbn. by rewrite lookup_fmap, Ef.
Qed.

Lemma install_calm x (d : list Z) s (P : unit -> _ -> Prop) :
  calm s -> view_ok (view s) -> view_sessions (view s) !! upload_id x = Some x -> state x = UploadState.Finalizing ->
  final_content_id x = Some d -> (forall b, published (view s) !! d = Some b -> length_of b = upload_length x) ->
  (forall s', calm s' -> view s' = settled_view (view s) x d -> P tt s') -> does (install_final_file x) s P.
Proof.
  intros Hs Hok Hx Hst Hd Hsame HP. unfold install_final_file. rewrite Hd.
  destruct (prepare_calm (components (blob_parent d)) s (calm_faults s Hs)) as (ds & E & Hsub & _).
  eapply does_then; [exact E|]. set (s1 := with_directories s ds). change (view s) with (view s1) in *.
  assert (Hs1 : calm s1) by (apply (calm_same_shape s); [done|apply Hs|done|done|exact Hsub]). pose proof (calm_faults s1 Hs1) as Hf1. clearbody s1. clear Hs E Hsub s.
  apply does_bind. unfold catch, does at 1. unfold bind_blob at 1.
  destruct (finals s1 !! d) as [f|] eqn:Ef.
  - rewrite (symlink_calm finals d f) by done. cbn [yields]. pose proof (finals_view _ _ _ Ef) as Hp.
    rewrite (proj2 (Z.eqb_eq (stored_length f) (upload_length x)) (Hsame _ Hp)). cbn [negb].
    eapply does_then; [by apply (open_calm finals d f)|]. eapply does_then; [by apply hash_calm|].
    rewrite (ok_published _ Hok _ _ Hp), (proj2 (list_eqb_eq d d) eq_refl). cbn [negb].
    apply remove_staging_calm; [done|]. intros s' Hs' Hv'. apply HP; [done|]. rewrite Hv'. unfold settled_view, deleted. f_equal.
    unfold kept_or_new. rewrite Hp. by destruct (staged_at _ _).
  - assert (published (view s1) !! d = None) as Hp by (cbn; by rewrite lookup_fmap, Ef).
    assert (symlink_metadata finals d s1 = (Failed (BlobStoreError.Io IoKind.NotFound), s1)) as ->.
    { unfold symlink_metadata, bind_blob. rewrite io_calm by done. cbn. by rewrite Ef. }
    cbn [if_not_found yields]. destruct (ok_finalizing _ Hok _ _ Hx Hst) as (d' & Hd' & Hm). rewrite Hd in Hd'. injection Hd' as <-.
    destruct (staged_at (view s1) (upload_id x)) as [b|] eqn:Eb; [|destruct Hm as (b & Hb & _); congruence].
    destruct (staged_file _ _ _ Eb) as (f & Hf & Hfb). eapply does_then; [by apply (symlink_calm staging _ f)|].
    apply does_io; [done|]. eapply does_then; [done|]. set (s2 := with_renamed s1 _ f d).
    apply does_io; [done|]. eapply does_then; [by apply sync_calm|]. eapply does_run; [by apply sync_calm|].
    apply HP; [by apply (calm_same_shape s1)|]. unfold settled_view. rewrite Eb.
    unfold kept_or_new. rewrite Hp. unfold s2, view. cbn. by rewrite fmap_delete, fmap_insert, Hfb.
Qed.

(** ** Finalization *)
Lemma calm_time s : calm s -> calm (with_reading s).
Proof. intros Hs. apply (calm_same_shape s); [done|apply Hs|cbn; lia|done..]. Qed.

Lemma complete_calm x (d : list Z) at_ s (P : ContentDescriptor.t -> _ -> Prop) :
  calm s -> view_ok (view s) -> view_sessions (view s) !! upload_id x = Some x -> state x <> UploadState.Active ->
  final_content_id x = Some d -> (exists b, published (view s) !! d = Some b /\ length_of b = upload_length x) ->
  upload_length x <= MAX_CONTENT_BYTE_LENGTH -> 0 <= at_ ->
  (forall s', calm s' -> view s' = mkView (staged (view s)) (published (view s)) (<[upload_id x := completed x]> (view_sessions (view s)))
     (<[d := upload_length x]> (view_contents (view s))) -> P (ContentDescriptor.mk d (upload_length x)) s') ->
  does (call (repo_complete_upload (upload_id x) at_)) s P.
Proof.
  intros Hs Hok Hx Hst Hd (b & Hb & Hl) Hmax Hat HP.
  assert (Hc : contents (repository s) !! d = None \/ contents (repository s) !! d = Some (upload_length x)).
  { destruct (contents (repository s) !! d) as [n|] eqn:En; [|by left]. right. destruct (ok_contents _ Hok d n En) as (b' & Hb' & Hl'). congruence. }
  destruct (complete_healthy (upload_id x) x d at_ (repository s) (calm_healthy s Hs) Hx Hst Hd Hc Hmax Hat) as [Hr Hh].
  apply does_call; [done|done|done|]. intros a σ' E Hs'. pose proof (complete_law _ _ _ _ _ E) as Hm. cbn in Hm.
  destruct Hm as (y & c & Hy & _ & Hyd & -> & _ & Ec & Es). cbn in Hx. rewrite Hx in Hy. injection Hy as <-. rewrite Hd in Hyd. injection Hyd as <-.
  apply HP; [done|]. rewrite view_repository, Ec, Es. done.
Qed.

(** The identity a full upload gets, and its session when it has it. *)
Definition pending_id (v : View) (x : UploadSession) (d : list Z) : Prop :=
  match state x with
  | UploadState.Active => exists b, staged_at v (upload_id x) = Some b /\ d = sha256 b
  | _ => final_content_id x = Some d
  end.
Definition completed_view (v : View) (x : UploadSession) (d : list Z) : View :=
  let v := settled_view v x d in
  mkView (staged v) (published v) (<[upload_id x := finished x d]> (view_sessions v)) (<[d := upload_length x]> (view_contents v)).

Lemma settled_published v x (d : list Z) : view_ok v -> view_sessions v !! upload_id x = Some x -> state x = UploadState.Finalizing ->
  final_content_id x = Some d -> (forall b, published v !! d = Some b -> length_of b = upload_length x) ->
  exists b, published (settled_view v x d) !! d = Some b /\ length_of b = upload_length x.
Proof.
  intros Hok Hx Hst Hd Hsame. destruct (ok_finalizing _ Hok _ _ Hx Hst) as (d' & Hd' & Hm). rewrite Hd in Hd'. injection Hd' as <-.
  unfold settled_view. cbn. destruct (staged_at v (upload_id x)) as [b|]; [|done]. unfold kept_or_new.
  destruct (published v !! d) as [b'|] eqn:Eb; [exists b'; auto|]. exists b. rewrite lookup_insert_eq. by destruct Hm.
Qed.

Lemma settled_ok v x (d : list Z) : view_ok v -> view_sessions v !! upload_id x = Some x -> state x = UploadState.Finalizing ->
  final_content_id x = Some d -> (forall b, published v !! d = Some b -> length_of b = upload_length x) ->
  view_ok (settled_view v x d).
Proof.
  intros Hok Hx Hst Hd Hsame. apply (upload_steps_ok v); [|done]. apply rtc_once. unfold settled_view, kept_or_new.
  destruct v as [g p m c]. unfold staged_at. cbn in *. destruct (p !! d) as [b'|] eqn:Ep.
  - destruct (g !! staging_name (upload_id x)); by eapply step_unstage; auto.
  - destruct (ok_finalizing _ Hok _ _ Hx Hst) as (d' & Hd' & Hm). rewrite Hd in Hd'. injection Hd' as <-. unfold staged_at in Hm. cbn in Hm.
    destruct (g !! staging_name (upload_id x)) eqn:Eg; [by eapply step_publish|]. destruct Hm as (b & Hb & _). congruence.
Qed.

(** A finalizing session that the store installs and completes. *)
Lemma finish_calm x (d : list Z) s (P : unit -> _ -> Prop) :
  calm s -> view_ok (view s) -> view_sessions (view s) !! upload_id x = Some x -> state x = UploadState.Finalizing ->
  final_content_id x = Some d -> (forall b, published (view s) !! d = Some b -> length_of b = upload_length x) ->
  upload_length x <= MAX_CONTENT_BYTE_LENGTH ->
  (forall s', calm s' -> view s' = completed_view (view s) x d -> P tt s') ->
  does (bind_blob (publish_final_file x) (fun _ => bind_blob unix_time_millis (fun at_ =>
    bind_blob (call (repo_complete_upload (upload_id x) at_)) (fun _ => yields tt)))) s P.
Proof.
  intros Hs Hok Hx Hst Hd Hsame Hmax HP. apply does_bind, (install_calm x d); try done. intros s1 Hs1 Hv1.
  eapply does_then; [apply time_calm|]. apply does_bind. apply (complete_calm x d); try done; cbn [view with_reading].
  - by apply calm_time.
  - change (view_ok (view s1)). rewrite Hv1. by apply settled_ok.
  - change (view_sessions (view s1) !! upload_id x = Some x). by rewrite Hv1.
  - by rewrite Hst.
  - change (exists b, published (view s1) !! d = Some b /\ length_of b = upload_length x). rewrite Hv1. by apply settled_published.
  - apply Hclock.
  - intros s2 Hs2 Hv2. apply does_yields, HP; [done|]. rewrite Hv2. change (view (with_reading s1)) with (view s1). rewrite Hv1.
    unfold completed_view. f_equal. f_equal. unfold finished, finalizing, completed. by rewrite Hd.
Qed.

Lemma step_began v x b : full_upload v x b ->
  upload_step v (mkView (staged v) (published v) (<[upload_id x := finalizing x (sha256 b)]> (view_sessions v)) (view_contents v)).
Proof. destruct v. intros [Hx Hst Ho Hb]. by eapply step_begin. Qed.

Lemma finalize_calm x b s (P : AppendOutcome -> _ -> Prop) :
  calm s -> view_ok (view s) -> full_upload (view s) x b ->
  (forall b', published (view s) !! sha256 b = Some b' -> length_of b' = length_of b) ->
  upload_length x <= MAX_CONTENT_BYTE_LENGTH ->
  (forall s', calm s' -> view s' = completed_view (view s) x (sha256 b) ->
     P (mkAppendOutcome (finished x (sha256 b)) (Some (ContentDescriptor.mk (sha256 b) (upload_length x)))) s') ->
  does (finalize_locked_with_id x (sha256 b)) s P.
Proof.
  intros Hs Hok Hfull Hsame Hmax HP. pose proof Hfull as [Hx Hst Ho Hb]. destruct (ok_active _ Hok _ _ _ Hx Hst Hb) as [_ Hf].
  destruct (Hf Ho) as [Hl He]. unfold finalize_locked_with_id. apply does_bind.
  destruct (begin_healthy (upload_id x) x (sha256 b) (repository s) (calm_healthy s Hs) Hx Hst Ho He) as [Hr Hh].
  apply does_call; [done|done|done|]. intros y σ' E Hs1. destruct (begin_law _ _ _ _ _ E) as [Ec (x0 & Hx0 & Hm)].
  cbn in Hx. rewrite Hx in Hx0. injection Hx0 as <-. destruct Hm as [(Hna & _)|(_ & _ & _ & -> & Es)]; [done|].
  set (s1 := with_repository s σ') in *. set (y := finalizing x (sha256 b)) in *.
  assert (Hv1 : view s1 = mkView (staged (view s)) (published (view s)) (<[upload_id x := y]> (view_sessions (view s))) (view_contents (view s)))
    by (unfold s1; by rewrite view_repository, Ec, Es).
  assert (Hok1 : view_ok (view s1)).
  { rewrite Hv1. apply (upload_steps_ok (view s)); [|done]. by apply rtc_once, step_began. }
  assert (Hy : view_sessions (view s1) !! upload_id y = Some y) by (rewrite Hv1; apply lookup_insert_eq).
  assert (Hsame1 : forall b', published (view s1) !! sha256 b = Some b' -> length_of b' = upload_length y)
    by (rewrite Hv1; cbn [published]; intros b' Hb'; rewrite (Hsame b' Hb'); exact Hl).
  apply does_bind, (install_calm y (sha256 b)); try done. intros s2 Hs2 Hv2.
  eapply does_then; [apply time_calm|]. apply does_bind. change (upload_id y) with (upload_id x).
  apply (complete_calm y (sha256 b)); try done.
  - by apply calm_time.
  - change (view_ok (view s2)). rewrite Hv2. by apply settled_ok.
  - change (view_sessions (view s2) !! upload_id y = Some y). by rewrite Hv2.
  - change (exists b', published (view s2) !! sha256 b = Some b' /\ length_of b' = upload_length y). rewrite Hv2. by apply settled_published.
  - apply Hclock.
  - change (view (with_reading s2)) with (view s2). intros s3 Hs3 Hv3. apply does_bind.
    destruct (upload_healthy (upload_id y) (repository s3) (calm_healthy s3 Hs3)) as [Hr3 Hh3].
    apply does_call; [done|done|done|]. intros found σ4 E4 Hs4. destruct (upload_law _ _ _ _ E4) as (Ec4 & Es4 & Hfound).
    rewrite (Hfound _ eq_refl). change (sessions (repository s3)) with (view_sessions (view s3)). rewrite Hv3. cbn [view_sessions].
    rewrite lookup_insert_eq. apply does_yields. apply HP; [done|]. rewrite view_repository, Ec4, Es4.
    change (mkView (staged (view s3)) (published (view s3)) (view_sessions (view s3)) (view_contents (view s3)) = completed_view (view s) x (sha256 b)).
    rewrite Hv3, Hv2, Hv1. unfold completed_view, settled_view. cbn. by rewrite insert_insert_eq.
Qed.

(** ** Recovery of the full uploads *)

(** A store that can recover: full uploads have their files and lengths the store
    declares, and files with one hash have one length. *)
Definition stored_in (v : View) (b : list Z) : Prop := (exists name, staged v !! name = Some b) \/ (exists d, published v !! d = Some b).
Record recoverable (v : View) : Prop := {
  rec_ok : view_ok v;    (* every reachable store satisfies it: [reachable_ok] *)
  rec_staged : forall id x, view_sessions v !! id = Some x -> state x = UploadState.Active -> upload_offset x = upload_length x ->
    is_Some (staged_at v id);
  rec_declarable : forall id x, view_sessions v !! id = Some x -> requires_finalization x = true ->
    upload_length x <= MAX_CONTENT_BYTE_LENGTH;
  rec_lengths : forall b b', stored_in v b -> stored_in v b' -> sha256 b = sha256 b' -> length_of b = length_of b'
}.

Lemma requires_active x : requires_finalization x = true -> state x = UploadState.Active -> upload_offset x = upload_length x.
Proof.
  unfold requires_finalization, is_finalizing, is_active. intros Hr E. rewrite E, bool_decide_false, bool_decide_true in Hr by done.
  by apply Z.eqb_eq.
Qed.
Lemma requires_not_complete x : requires_finalization x = true -> state x <> UploadState.Complete.
Proof. unfold requires_finalization, is_finalizing, is_active. intros Hr E. by rewrite E, !bool_decide_false in Hr. Qed.
Lemma finished_settled x d : requires_finalization (finished x d) = false.
Proof. unfold requires_finalization, is_finalizing, is_active. cbn. by rewrite !bool_decide_false. Qed.

Lemma published_length v d b b' x : recoverable v -> published v !! d = Some b' -> staged_at v (upload_id x) = Some b -> sha256 b = d ->
  length_of b' = length_of b.
Proof.
  intros Hrec Hp Hb Hd. apply (rec_lengths v Hrec); [right; by eexists|left; by eexists|].
  rewrite Hd. by apply (ok_published _ (rec_ok v Hrec)).
Qed.

Lemma recover_session_calm x s (P : unit -> _ -> Prop) :
  calm s -> recoverable (view s) -> view_sessions (view s) !! upload_id x = Some x -> requires_finalization x = true ->
  (forall d s', pending_id (view s) x d -> calm s' -> view s' = completed_view (view s) x d -> P tt s') ->
  does (recover_session x) s P.
Proof.
  intros Hs Hrec Hx Hreq HP. pose proof (rec_ok _ Hrec) as Hok. pose proof (rec_declarable _ Hrec _ _ Hx Hreq) as Hmax.
  unfold recover_session. destruct (state x) eqn:Hst; [| |by destruct (requires_not_complete x)].
  - pose proof (requires_active x Hreq Hst) as Ho. destruct (rec_staged _ Hrec _ _ Hx Hst Ho) as [b Hb].
    destruct (staged_file _ _ _ Hb) as (f & Hf & Hfb). pose proof (calm_faults s Hs) as Hfaults.
    destruct (ok_active _ Hok _ _ _ Hx Hst Hb) as [_ Hfull]. destruct (Hfull Ho) as [Hl He].
    apply does_catch, does_bind. unfold finalize_locked.
    eapply does_then; [by apply validate_staging_calm|]. eapply does_then; [by apply (open_calm staging _ f)|].
    eapply does_then; [by apply hash_calm|]. rewrite Hfb.
    assert (require_expected x (sha256 b) = Ok tt) as ->.
    { unfold require_expected. unfold expects in He. destruct (expected_content_id x); [|done]. by rewrite He. }
    eapply does_then; [done|]. apply (finalize_calm x b); try done.
    + intros b' Hb'. by eapply published_length.
    + intros s' Hs' Hv'. apply does_yields, (HP (sha256 b)); [|done|done]. unfold pending_id. rewrite Hst. by exists b.
  - destruct (ok_finalizing _ Hok _ _ Hx Hst) as (d & Hd & Hm). apply (finish_calm x d); try done.
    + intros b' Hb'. destruct (staged_at (view s) (upload_id x)) as [b|] eqn:Hb.
      * destruct Hm as [Hsha Hl]. rewrite <- Hl. by eapply published_length.
      * destruct Hm as (b & Hb1 & Hl). congruence.
    + intros s' Hs' Hv'. apply (HP d); [|done|done]. unfold pending_id. by rewrite Hst.
Qed.

(** What the recovery does to the sessions. *)
Record settles (v v' : View) : Prop := {
  settles_pending : forall id x, view_sessions v !! id = Some x -> requires_finalization x = true ->
    (view_sessions v' !! id = Some x /\ staged_at v' id = staged_at v id)
    \/ exists d, pending_id v x d /\ view_sessions v' !! id = Some (finished x d) /\ view_contents v' !! d = Some (upload_length x);
  settles_others : forall id x, view_sessions v !! id = Some x -> requires_finalization x = false ->
    view_sessions v' !! id = Some x /\ staged_at v' id = staged_at v id;
  settles_none : forall id, view_sessions v !! id = None -> view_sessions v' !! id = None;
  settles_contents : forall d n, view_contents v !! d = Some n -> view_contents v' !! d = Some n
}.
Lemma settles_refl v : settles v v.
Proof. split; auto. Qed.
Lemma settles_trans v v1 v2 : view_ok v -> settles v v1 -> settles v1 v2 -> settles v v2.
Proof.
  intros Hok [Hp Ho Hn Hc] [Hp' Ho' Hn' Hc']. split; [| |auto|auto].
  - intros id x Hx Hreq. destruct (Hp id x Hx Hreq) as [[Hx1 Hst1]|(d & Hd & Hx1 & Hd1)].
    + destruct (Hp' id x Hx1 Hreq) as [[Hx2 Hst2]|(d & Hd & Hx2 & Hd2)]; [left; split; [done|congruence]|].
      right. exists d. split_and!; try done. unfold pending_id in *. pose proof (ok_keyed _ Hok _ _ Hx) as <-.
      by destruct (state x); [rewrite <- Hst1|..].
    + right. exists d. destruct (Ho' id _ Hx1 (finished_settled x d)) as [Hx2 _]. auto.
  - intros id x Hx Hreq. destruct (Ho id x Hx Hreq) as [Hx1 Hst1]. destruct (Ho' id x Hx1 Hreq) as [Hx2 Hst2].
    split; [done|congruence].
Qed.

Lemma completed_staged v x d id : id <> upload_id x -> staged_at (completed_view v x d) id = staged_at v id.
Proof. intros Hne. unfold staged_at. cbn. by rewrite lookup_delete_ne by (intros E%staging_name_inj; congruence). Qed.
Lemma completed_settles v x d : view_ok v -> view_sessions v !! upload_id x = Some x -> requires_finalization x = true ->
  pending_id v x d -> (view_contents v !! d = None \/ view_contents v !! d = Some (upload_length x)) ->
  settles v (completed_view v x d).
Proof.
  intros Hok Hx Hreq Hd Hc. split.
  - intros id y Hy Hreq'. destruct (decide (id = upload_id x)) as [->|Hne].
    + right. exists d. rewrite Hx in Hy. injection Hy as <-. cbn. by rewrite !lookup_insert_eq.
    + left. split; [cbn; by rewrite lookup_insert_ne|by apply completed_staged].
  - intros id y Hy Hreq'. assert (id <> upload_id x) as Hne by congruence.
    split; [cbn; by rewrite lookup_insert_ne|by apply completed_staged].
  - intros id Hn. cbn. rewrite lookup_insert_ne; congruence.
  - intros d' n Hn. cbn. destruct (decide (d = d')) as [<-|Hne]; [rewrite lookup_insert_eq|by rewrite lookup_insert_ne].
    destruct Hc; congruence.
Qed.

Lemma pending_published v x d b' : recoverable v -> view_sessions v !! upload_id x = Some x -> requires_finalization x = true ->
  pending_id v x d -> published v !! d = Some b' -> length_of b' = upload_length x.
Proof.
  intros Hrec Hx Hreq Hd Hb'. pose proof (rec_ok _ Hrec) as Hok. unfold pending_id in Hd.
  destruct (state x) eqn:Hst; [| |by destruct (requires_not_complete x)].
  - destruct Hd as (b & Hb & ->). destruct (ok_active _ Hok _ _ _ Hx Hst Hb) as [_ Hf].
    destruct (Hf (requires_active x Hreq Hst)) as [<- _]. by eapply published_length.
  - destruct (ok_finalizing _ Hok _ _ Hx Hst) as (d' & Hd' & Hm). rewrite Hd in Hd'. injection Hd' as <-.
    destruct (staged_at v (upload_id x)) as [b|] eqn:Hb.
    + destruct Hm as [Hsha <-]. by eapply published_length.
    + destruct Hm as (b & Hb1 & Hl). congruence.
Qed.
Lemma pending_contents v x d : recoverable v -> view_sessions v !! upload_id x = Some x -> requires_finalization x = true ->
  pending_id v x d -> view_contents v !! d = None \/ view_contents v !! d = Some (upload_length x).
Proof.
  intros Hrec Hx Hreq Hd. destruct (view_contents v !! d) as [n|] eqn:En; [|by left]. right.
  destruct (ok_contents _ (rec_ok _ Hrec) _ _ En) as (b' & Hb' & <-). by erewrite pending_published.
Qed.

Lemma completed_stored v x d b : stored_in (completed_view v x d) b -> stored_in v b.
Proof.
  intros [[name Hb]|[d' Hb]]; cbn in Hb.
  - apply lookup_delete_Some in Hb as [_ Hb]. left. by exists name.
  - destruct (staged_at v (upload_id x)) as [b0|] eqn:Eb; [|right; by exists d'].
    unfold kept_or_new in Hb. destruct (published v !! d); [right; by exists d'|].
    apply lookup_insert_Some in Hb as [[_ <-]|[_ Hb]]; [left; by eexists|right; by exists d'].
Qed.
Lemma completed_recoverable v x d : recoverable v -> view_ok (completed_view v x d) -> recoverable (completed_view v x d).
Proof.
  intros [Hok Hst Hmax Hlen] Hok'. split; [done|..].
  - intros id y Hy Ha Ho. cbn in Hy. apply lookup_insert_Some in Hy as [[_ <-]|[Hne Hy]]; [done|].
    rewrite completed_staged by congruence. by eapply Hst.
  - intros id y Hy Hreq. cbn in Hy. apply lookup_insert_Some in Hy as [[_ <-]|[Hne Hy]]; [by rewrite finished_settled in Hreq|].
    by eapply Hmax.
  - intros b b' Hb%completed_stored Hb'%completed_stored. by apply Hlen.
Qed.

(** How many uploads are left to finalize. *)
Definition pending_count (v : View) : nat :=
  size (filter (fun kv : list Z * UploadSession => requires_finalization (snd kv) = true) (view_sessions v)).
Lemma completed_count v x d : view_sessions v !! upload_id x = Some x -> requires_finalization x = true ->
  pending_count v = S (pending_count (completed_view v x d)).
Proof.
  intros Hx Hreq. unfold pending_count. cbn. rewrite map_filter_insert_False by (cbn; by rewrite finished_settled).
  rewrite map_filter_delete. rewrite <- (insert_delete_id _ _ _ Hx) at 1. rewrite map_filter_insert_True by done.
  rewrite map_filter_delete. rewrite map_size_insert_None; [done|]. apply lookup_delete_eq.
Qed.

Lemma recover_step x s (P : unit -> _ -> Prop) :
  calm s -> recoverable (view s) -> view_sessions (view s) !! upload_id x = Some x -> requires_finalization x = true ->
  (forall s' d, calm s' -> recoverable (view s') -> settles (view s) (view s') -> view s' = completed_view (view s) x d -> P tt s') ->
  does (recover_session x) s P.
Proof.
  intros Hs Hrec Hx Hreq HP. pose proof (safe_recover_session x s (rec_ok _ Hrec) Hx Hreq) as [Hr _].
  eapply (recover_session_calm x s (fun _ s' => s' = snd (recover_session x s) -> P tt s')) in Hs as Hd; [|done..|].
  - unfold does in *. destruct (recover_session x s) as [[[]|e|] s']; [|done..]. by apply Hd.
  - intros d s' Hpend Hs' Hv' ->. apply (HP _ d); [done| |rewrite Hv'|done].
    + rewrite Hv'. apply completed_recoverable; [done|]. rewrite <- Hv'. by eapply reach_ok; [apply (rec_ok _ Hrec)|].
    + apply completed_settles; [apply (rec_ok _ Hrec)|done|done|done|]. by eapply pending_contents.
Qed.

Lemma each_calm xs s (P : unit -> _ -> Prop) :
  calm s -> recoverable (view s) -> NoDup (List.map upload_id xs) ->
  (forall x, x ∈ xs -> view_sessions (view s) !! upload_id x = Some x /\ requires_finalization x = true) ->
  (forall s', calm s' -> recoverable (view s') -> settles (view s) (view s') ->
     pending_count (view s) = (length xs + pending_count (view s'))%nat ->
     (forall x, x ∈ xs -> exists d, view_sessions (view s') !! upload_id x = Some (finished x d)) -> P tt s') ->
  does (each_session recover_session xs) s P.
Proof.
  revert s P. induction xs as [|x xs IH]; intros s P Hs Hrec Hnd Hin HP; cbn [each_session].
  { apply does_yields, HP; [done|done|apply settles_refl|done|]. by intros ? ?%not_elem_of_nil. }
  cbn in Hnd. apply NoDup_cons in Hnd as [Hnot Hnd]. destruct (Hin x) as [Hx Hreq]; [by left|].
  apply does_bind, recover_step; try done. intros s1 d Hs1 Hrec1 Hset1 Hv1.
  assert (Hcount : pending_count (view s) = S (pending_count (view s1))) by (rewrite Hv1; by apply completed_count).
  apply IH; [done|done|done| |].
  - intros y Hy. destruct (Hin y) as [Hys Hyr]; [by right|]. split; [|done]. rewrite Hv1. cbn. rewrite lookup_insert_ne; [done|].
    intros E. apply Hnot. rewrite E. apply list_elem_of_In, in_map, list_elem_of_In. done.
  - intros s2 Hs2 Hrec2 Hset2 Hcount2 Hdone. apply HP; [done|done|by eapply settles_trans; [apply (rec_ok _ Hrec)| |]|cbn; lia|].
    intros y [->|Hy]%elem_of_cons; [|by apply Hdone]. exists d. apply (settles_others _ _ Hset2); [|apply finished_settled].
    rewrite Hv1. apply lookup_insert_eq.
Qed.

Lemma finalization_completes fuel s (P : unit -> _ -> Prop) :
  (pending_count (view s) < fuel)%nat -> calm s -> recoverable (view s) ->
  (forall s', calm s' -> recoverable (view s') -> settles (view s) (view s') ->
     (forall id x, view_sessions (view s') !! id = Some x -> requires_finalization x = false) -> P tt s') ->
  does (maintain fuel (call (repo_uploads_requiring_finalization MAINTENANCE_BATCH)) recover_session) s P.
Proof.
  revert s P. induction fuel as [|fuel IH]; intros s P Hfuel Hs Hrec HP; [lia|]. cbn [maintain]. apply does_bind.
  destruct (requiring_healthy MAINTENANCE_BATCH (repository s) (calm_healthy s Hs)) as [Hr Hh].
  apply does_call; [done|done|done|]. intros xs σ' E Hs1. destruct (requiring_law _ _ _ _ E) as (Ec & Es & Hxs).
  set (s1 := with_repository s σ') in *. assert (Hv1 : view s1 = view s) by (unfold s1; by rewrite view_repository, Ec, Es).
  destruct (Hxs xs (ok_keyed _ (rec_ok _ Hrec)) eq_refl) as (Hnd & _ & Hin & Hall).
  rewrite <- Hv1 in *. apply does_bind, each_calm; [done|done|done|by rewrite Hv1|].
  intros s2 Hs2 Hrec2 Hset Hcount Hdone. destruct (Nat.ltb_spec (length xs) MAINTENANCE_BATCH) as [Hlt|Hge].
  - apply does_yields, HP; [done|done|done|]. intros id y Hy. destruct (view_sessions (view s1) !! id) as [x|] eqn:Hx.
    + destruct (requires_finalization x) eqn:Hreq.
      * assert (x ∈ xs) as Hxin by (apply (Hall Hlt id x); [rewrite Hv1 in Hx; exact Hx|done]). destruct (Hdone x Hxin) as [d Hfin].
        pose proof (ok_keyed _ (rec_ok _ Hrec) _ _ Hx) as <-. rewrite Hy in Hfin. injection Hfin as ->. apply finished_settled.
      * destruct (settles_others _ _ Hset id x Hx Hreq) as [Hx' _]. congruence.
    + pose proof (settles_none _ _ Hset id Hx). congruence.
  - apply IH; [unfold MAINTENANCE_BATCH in Hge; lia|done|done|]. intros s3 Hs3 Hrec3 Hset3 Hnone. apply HP; [done|done| |done].
    by eapply settles_trans; [apply (rec_ok _ Hrec)| |].
Qed.

(** ** What is swept *)
Record swept (v v' : View) : Prop := {
  swept_published : published v' = published v;
  swept_sessions : view_sessions v' = view_sessions v;
  swept_contents : view_contents v' = view_contents v;
  swept_staged : forall id x, view_sessions v !! id = Some x -> staged_at v' id = staged_at v id;
  swept_less : forall name b, staged v' !! name = Some b -> staged v !! name = Some b
}.
Lemma swept_refl v : swept v v.
Proof. by split. Qed.
Lemma swept_trans v v1 v2 : swept v v1 -> swept v1 v2 -> swept v v2.
Proof.
  intros [Hp Hs Hc Hst Hl] [Hp' Hs' Hc' Hst' Hl']. split; try congruence; [|eauto].
  intros id x Hx. rewrite (Hst' id x) by congruence. by apply (Hst id x).
Qed.
Lemma swept_recoverable v v' : view_ok v' -> swept v v' -> recoverable v -> recoverable v'.
Proof.
  intros Hok' [Hp Hs Hc Hst Hless] [Hok Hstaged Hmax Hlen]. split; [done|..].
  - intros id x. rewrite Hs. intros Hx Ha Ho. rewrite (Hst id x) by done. by eapply Hstaged.
  - intros id x. rewrite Hs. apply Hmax.
  - assert (forall b, stored_in v' b -> stored_in v b) as Hin.
    { intros b [[name Hb]|[d Hb]]; [left; exists name; by apply Hless|right; exists d; congruence]. }
    intros b b' Hb Hb'. by apply Hlen; apply Hin.
Qed.
Lemma swept_settles v v' : swept v v' -> settles v v'.
Proof.
  intros [Hp Hs Hc Hst Hless]. split; rewrite ?Hs, ?Hc; try done.
  - intros id x Hx _. left. split; [done|]. by apply (Hst id x).
  - intros id x Hx _. split; [done|]. by apply (Hst id x).
Qed.

Lemma parse_staging_name_self id : parse_staging_name (staging_name id) = Some id.
Proof.
  unfold parse_staging_name. unfold staging_name at 1. rewrite uuid_ascii.
  assert (length (staging_name id) - 5 = length (uuid_display id))%nat as ->
    by (unfold staging_name; rewrite length_app; change (length (str ".part")) with 5%nat; lia).
  assert (skipn (length (uuid_display id)) (staging_name id) = str ".part") as ->
    by (unfold staging_name; by rewrite skipn_app, skipn_all, Nat.sub_diag).
  assert (firstn (length (uuid_display id)) (staging_name id) = uuid_display id) as ->
    by (unfold staging_name; by rewrite firstn_app, firstn_all, Nat.sub_diag, app_nil_r).
  rewrite (proj2 (list_eqb_eq _ _) eq_refl), uuid_parse_display. cbn. by rewrite (proj2 (list_eqb_eq _ _) eq_refl).
Qed.

Lemma view_ok_deleted_orphan v id : view_ok v -> view_sessions v !! id = None -> view_ok (deleted v (staging_name id)).
Proof. destruct v as [g p m c]. intros Hok Hn. apply (file_deleted_ok g p m c id); [done|].
  cbn in Hn. intros x Hx. rewrite Hn in Hx. done.
Qed.

Lemma orphans_calm names removed s (P : bool -> _ -> Prop) :
  calm s -> view_ok (view s) -> NoDup names -> (forall name, name ∈ names -> is_Some (staged (view s) !! name)) ->
  (forall removed' s', calm s' -> view_ok (view s') -> swept (view s) (view s') -> P removed' s') ->
  does (remove_orphans names removed) s P.
Proof.
  revert removed s P. induction names as [|name names IH]; intros removed s P Hs Hok Hnd Hin HP; cbn [remove_orphans].
  { apply does_yields, HP; [done|done|apply swept_refl]. }
  apply NoDup_cons in Hnd as [Hnot Hnd]. destruct (Hin name) as [b Hb]; [by left|].
  destruct (ok_names _ Hok _ _ Hb) as [id ->]. do 2 (apply does_io; [apply Hs|]). rewrite parse_staging_name_self.
  destruct (upload_healthy id (repository s) (calm_healthy s Hs)) as [Hr Hh].
  apply does_bind, does_call; [done|done|done|]. intros found σ' E Hs1. destruct (upload_law _ _ _ _ E) as (Ec & Es & Hfound).
  rewrite (Hfound _ eq_refl). set (s1 := with_repository s σ') in *. assert (Hv1 : view s1 = view s) by (unfold s1; by rewrite view_repository, Ec, Es).
  change (sessions (repository s)) with (view_sessions (view s)). rewrite <- Hv1 in *.
  destruct (view_sessions (view s1) !! id) as [x|] eqn:Hid.
  - apply IH; [done|done|done| |done]. intros name Hname. apply Hin. by right.
  - apply does_bind. unfold remove_file, does at 1, bind_blob. rewrite io_calm by apply Hs1. cbn [get].
    destruct (staged_file _ _ _ Hb) as (f & Hf & _). rewrite Hf. cbn [modify]. set (s2 := with_staging s1 _).
    assert (Hv2 : view s2 = deleted (view s1) (staging_name id)) by apply view_deleted.
    assert (Hs2 : calm s2) by (by apply (calm_same_shape s1); [|apply Hs1| | |]).
    assert (Hsw : swept (view s1) (view s2)).
    { rewrite Hv2. split; try done.
      - intros id' x Hx. unfold staged_at. cbn. rewrite lookup_delete_ne; [done|]. intros ->%staging_name_inj. congruence.
      - intros name b'. cbn. by intros [_ ?]%lookup_delete_Some. }
    apply IH; [done|rewrite Hv2; by apply view_ok_deleted_orphan|done| |].
    + intros name Hname. rewrite Hv2. cbn. rewrite lookup_delete_ne by congruence. apply Hin. by right.
    + intros removed' s' Hs' Hok' Hsw'. apply HP; [done|done|]. by eapply swept_trans.
Qed.

Lemma remove_orphans_calm s (P : unit -> _ -> Prop) :
  calm s -> view_ok (view s) -> (forall s', calm s' -> view_ok (view s') -> swept (view s) (view s') -> P tt s') ->
  does remove_orphan_staging_files s P.
Proof.
  intros Hs Hok HP. unfold remove_orphan_staging_files. eapply does_then; [by apply validate_staging_calm|].
  apply does_io; [apply Hs|]. eapply does_then; [done|]. apply does_bind, orphans_calm; [done|done|apply NoDup_fst_map_to_list| |].
  - intros name Hname. apply list_elem_of_In, in_map_iff in Hname as ([name' f] & <- & Hf%list_elem_of_In%elem_of_map_to_list).
    cbn. rewrite lookup_fmap, Hf. by eexists.
  - intros removed s' Hs' Hok' Hsw. destruct removed; [|by apply does_yields, HP].
    eapply does_run; [by apply sync_calm, Hs'|]. by apply HP.
Qed.

(** ** Expiry *)
Record discards (t : Z) (v v' : View) : Prop := {
  discards_contents : view_contents v' = view_contents v;
  discards_less : forall id x, view_sessions v' !! id = Some x -> view_sessions v !! id = Some x;
  discards_others : forall id x, view_sessions v !! id = Some x -> has_expired t x = false ->
    view_sessions v' !! id = Some x /\ staged_at v' id = staged_at v id
}.
Lemma discards_refl t v : discards t v v.
Proof. by split. Qed.
Lemma discards_trans t v v1 v2 : discards t v v1 -> discards t v1 v2 -> discards t v v2.
Proof.
  intros [Hc Hl Ho] [Hc' Hl' Ho']. split; [congruence|auto|]. intros id x Hx He. destruct (Ho id x Hx He) as [Hx1 Hst1].
  destruct (Ho' id x Hx1 He) as [Hx2 Hst2]. split; [done|congruence].
Qed.

Lemma discard_calm x t s (P : unit -> _ -> Prop) :
  calm s -> view_sessions (view s) !! upload_id x = Some x -> has_expired t x = true ->
  (forall s', calm s' -> view_sessions (view s') = delete (upload_id x) (view_sessions (view s)) ->
     discards t (view s) (view s') -> P tt s') -> does (discard_upload (upload_id x)) s P.
Proof.
  intros Hs Hx He HP. unfold discard_upload. apply does_bind, remove_staging_calm; [done|]. intros s1 Hs1 Hv1.
  destruct (delete_healthy (upload_id x) (repository s1) (calm_healthy s1 Hs1)) as [Hr Hh].
  apply does_call; [done|done|done|]. intros u σ' E Hs2. destruct (delete_law _ _ _ _ E) as [Ec Es].
  set (s2 := with_repository s1 σ') in *.
  assert (Hv2 : view s2 = mkView (staged (view s1)) (published (view s1)) (delete (upload_id x) (view_sessions (view s1))) (view_contents (view s1)))
    by (unfold s2; by rewrite view_repository, Ec, Es).
  rewrite Hv1 in Hv2. destruct u. apply HP; [done|by rewrite Hv2|]. rewrite Hv2. split; cbn [view_sessions view_contents].
  - done.
  - by intros id y [_ Hy]%lookup_delete_Some.
  - intros id y Hy Hey. assert (upload_id x <> id) as Hne by (intros <-; congruence).
    rewrite lookup_delete_ne by done. split; [done|]. unfold staged_at. cbn. by rewrite lookup_delete_ne by (by apply staging_name_ne).
Qed.

Lemma discard_each_calm xs t s (P : unit -> _ -> Prop) :
  calm s -> NoDup (List.map upload_id xs) ->
  (forall x, x ∈ xs -> view_sessions (view s) !! upload_id x = Some x /\ has_expired t x = true) ->
  (forall s', calm s' -> discards t (view s) (view s') ->
     size (view_sessions (view s)) = (length xs + size (view_sessions (view s')))%nat ->
     (forall x, x ∈ xs -> view_sessions (view s') !! upload_id x = None) -> P tt s') ->
  does (each_session (fun x => discard_upload (upload_id x)) xs) s P.
Proof.
  revert s P. induction xs as [|x xs IH]; intros s P Hs Hnd Hin HP; cbn [each_session].
  { apply does_yields, HP; [done|apply discards_refl|done|]. by intros ? ?%not_elem_of_nil. }
  cbn in Hnd. apply NoDup_cons in Hnd as [Hnot Hnd]. destruct (Hin x) as [Hx Hexp]; [by left|].
  apply does_bind, (discard_calm x t); try done. intros s1 Hs1 Hdel Hdis. apply IH; [done|done| |].
  - intros y Hy. destruct (Hin y) as [Hys Hyr]; [by right|]. split; [|done]. rewrite Hdel, lookup_delete_ne; [done|].
    intros E. apply Hnot. rewrite E. apply list_elem_of_In, in_map, list_elem_of_In. done.
  - intros s2 Hs2 Hdis2 Hsize Hgone. apply HP; [done|by eapply discards_trans| |].
    + rewrite Hdel in Hsize. rewrite <- (insert_delete_id _ _ _ Hx), map_size_insert_None by apply lookup_delete_eq. cbn [length]. lia.
    + intros y [->|Hy]%elem_of_cons; [|by apply Hgone]. destruct (view_sessions (view s2) !! upload_id x) as [z|] eqn:Hz; [|done].
      apply (discards_less _ _ _ Hdis2) in Hz. by rewrite Hdel, lookup_delete_eq in Hz.
Qed.

Lemma expiry_completes t fuel s (P : unit -> _ -> Prop) :
  (size (view_sessions (view s)) < fuel)%nat -> calm s -> keyed (view_sessions (view s)) ->
  (forall s', calm s' -> discards t (view s) (view s') ->
     (forall id x, view_sessions (view s') !! id = Some x -> has_expired t x = false) -> P tt s') ->
  does (maintain fuel (call (repo_expired_uploads t MAINTENANCE_BATCH)) (fun x => discard_upload (upload_id x))) s P.
Proof.
  revert s P. induction fuel as [|fuel IH]; intros s P Hfuel Hs Hk HP; [lia|]. cbn [maintain]. apply does_bind.
  destruct (expired_healthy t MAINTENANCE_BATCH (repository s) (calm_healthy s Hs)) as [Hr Hh].
  apply does_call; [done|done|done|]. intros xs σ' E Hs1. destruct (expired_law _ _ _ _ _ E) as (Ec & Es & Hxs).
  set (s1 := with_repository s σ') in *. assert (Hv1 : view s1 = view s) by (unfold s1; by rewrite view_repository, Ec, Es).
  destruct (Hxs xs Hk eq_refl) as (Hnd & _ & Hin & Hall). rewrite <- Hv1 in *.
  apply does_bind, (discard_each_calm xs t); [done|done|by rewrite Hv1|]. intros s2 Hs2 Hdis Hsize Hgone.
  destruct (Nat.ltb_spec (length xs) MAINTENANCE_BATCH) as [Hlt|Hge].
  - apply does_yields, HP; [done|done|]. intros id x Hx. destruct (has_expired t x) eqn:He; [|done]. exfalso.
    pose proof (discards_less _ _ _ Hdis _ _ Hx) as Hx1. assert (x ∈ xs) as Hxin.
    { apply (Hall Hlt id x); [|done]. rewrite Hv1 in Hx1. exact Hx1. }
    pose proof (Hk _ _ Hx1) as <-. rewrite (Hgone x Hxin) in Hx. done.
  - apply IH; [unfold MAINTENANCE_BATCH in Hge; lia|done| |].
    + intros id x Hx. apply Hk. by apply (discards_less _ _ _ Hdis).
    + intros s3 Hs3 Hdis3 Hnone. apply HP; [done|by eapply discards_trans|done].
Qed.

(** ** The start of a node *)
Lemma pending_count_size v : (pending_count v <= size (view_sessions v))%nat.
Proof. unfold pending_count. apply map_subseteq_size, map_filter_subseteq. Qed.

Lemma prepare_root_calm s : faults s = [] ->
  exists ds, prepare_private_directory s = (Done tt, with_directories s ds) /\ directories s ⊆ ds.
Proof.
  intros Hf. unfold prepare_private_directory, bind_blob. rewrite (io_calm s) by done. cbn [get].
  unfold get. destruct (bool_decide (Root ∈ directories s)).
  - unfold yields at 1. rewrite (io_calm s) by done. exists (directories s). split; [by destruct s|done].
  - rewrite (io_calm s) by done. cbn. set (s1 := with_directories s ({[ Root ]} ∪ directories s)).
    rewrite (io_calm s1), (sync_calm s1) by done. exists ({[ Root ]} ∪ directories s). split; [done|set_solver].
Qed.
Lemma open_directories s : faults s = [] -> (since <= readings s)%nat -> healthy (repository s) ->
  exists s', calm s' /\ view s' = view s /\ forall fuel P, does (recover fuel) s' P -> does (open_with_limits fuel) s P.
Proof.
  intros Hf Hn Hh. set (s0 := with_verified s ∅).
  destruct (prepare_root_calm s0 Hf) as (d1 & E1 & Hd1). set (s1 := with_directories s0 d1) in *.
  destruct (prepare_calm (components StagingDirectory) s1 Hf) as (d2 & E2 & Hd2 & Hin2). set (s2 := with_directories s1 d2) in *.
  destruct (prepare_calm (components BlobsDirectory) s2 Hf) as (d3 & E3 & Hd3 & Hin3). set (s3 := with_directories s2 d3) in *.
  destruct (prepare_calm (components AlgorithmDirectory) s3 Hf) as (d4 & E4 & Hd4 & Hin4). set (s4 := with_directories s3 d4) in *.
  exists s4. split; [|split; [done|]].
  - split; [done|done|done|]. cbn in *. assert (StagingDirectory ∈ d2) by (apply Hin2; set_solver).
    assert (BlobsDirectory ∈ d3) by (apply Hin3; set_solver). assert (AlgorithmDirectory ∈ d4) by (apply Hin4; set_solver). set_solver.
  - intros fuel P HP. unfold open_with_limits. eapply does_then; [done|].
    eapply does_then; [exact E1|]. eapply does_then; [exact E2|]. eapply does_then; [exact E3|]. eapply does_then; [exact E4|]. exact HP.
Qed.

Lemma recovery_completes fuel s :
  faults s = [] -> (since <= readings s)%nat -> healthy (repository s) -> recoverable (view s) -> (size (sessions (repository s)) < fuel)%nat ->
  exists s' n, open_with_limits fuel s = (Done tt, s')
  /\ (forall id x, sessions (repository s) !! id = Some x -> requires_finalization x = true ->
       exists d f, pending_id (view s) x d /\ contents (repository s') !! d = Some (upload_length x)
       /\ finals s' !! d = Some f /\ sha256 (stored_bytes f) = d /\ stored_length f = upload_length x)
  /\ (forall id x, sessions (repository s) !! id = Some x -> requires_finalization x = false -> has_expired (now n) x = false ->
       sessions (repository s') !! id = Some x /\ staged_at (view s') id = staged_at (view s) id)
  /\ (forall id x, sessions (repository s') !! id = Some x -> requires_finalization x = false /\ has_expired (now n) x = false).
Proof.
  intros Hf Hfrom Hh Hrec Hfuel. destruct (open_directories s Hf Hfrom Hh) as (s0 & Hs0 & Hv0 & Hopen).
  pose proof (safe_open fuel s (rec_ok _ Hrec)) as [Hreach _].
  assert (does (open_with_limits fuel) s (fun _ s' => exists n v, settles (view s) v /\ discards (now n) v (view s')
    /\ (forall id x, view_sessions v !! id = Some x -> requires_finalization x = false)
    /\ forall id x, view_sessions (view s') !! id = Some x -> has_expired (now n) x = false)) as Hdoes.
  { apply Hopen. unfold recover. rewrite <- Hv0 in Hrec |- *. apply does_bind, remove_orphans_calm; [done|apply (rec_ok _ Hrec)|].
    intros s1 Hs1 Hok1 Hsw. pose proof (swept_recoverable _ _ Hok1 Hsw Hrec) as Hrec1.
    assert (size (view_sessions (view s1)) < fuel)%nat as Hfuel1 by (rewrite (swept_sessions _ _ Hsw), Hv0; exact Hfuel).
    apply does_bind, finalization_completes; [pose proof (pending_count_size (view s1)); lia|done|done|].
    intros s2 Hs2 Hrec2 Hset Hnone. eapply does_then; [apply time_calm|].
    assert (size (view_sessions (view s2)) <= size (view_sessions (view s1)))%nat as Hsize.
    { rewrite <- !size_dom. apply subseteq_size. intros id [y Hy]%elem_of_dom. apply elem_of_dom.
      destruct (view_sessions (view s1) !! id) eqn:En; [done|]. pose proof (settles_none _ _ Hset id En). congruence. }
    apply (expiry_completes (now (readings s2))); [change (view (with_reading s2)) with (view s2); lia|by apply calm_time|apply (ok_keyed _ (rec_ok _ Hrec2))|].
    intros s3 Hs3 Hdis Hnone3. exists (readings s2), (view s2). split; [|done].
    eapply settles_trans; [apply (rec_ok _ Hrec)|by apply swept_settles|done]. }
  unfold does in Hdoes. destruct (open_with_limits fuel s) as [[[]|e|] s'] eqn:Eopen; [|done..]. cbn [snd] in Hreach.
  destruct Hdoes as (n & v & Hset & Hdis & Hnone & Hnone'). exists s', n. split; [done|].
  pose proof (reach_ok _ _ (rec_ok _ Hrec) Hreach) as Hok'. split_and!.
  - intros id x Hx Hreq. destruct (settles_pending _ _ Hset id x Hx Hreq) as [[Hx' _]|(d & Hd & _ & Hc)].
    { specialize (Hnone _ _ Hx'). congruence. }
    rewrite <- (discards_contents _ _ _ Hdis) in Hc. destruct (ok_contents _ Hok' _ _ Hc) as (b & Hb & Hl).
    pose proof (ok_published _ Hok' _ _ Hb) as Hsha. destruct (published_file _ _ _ Hb) as (f & Hff & <-). by exists d, f.
  - intros id x Hx Hreq Hexp. destruct (settles_others _ _ Hset id x Hx Hreq) as [Hx' Hst]. rewrite <- Hst. by apply (discards_others _ _ _ Hdis).
  - intros id x Hx. split; [|by apply (Hnone' id)]. apply (Hnone id). by apply (discards_less _ _ _ Hdis).
Qed.





Section Chunks.
Context (Httl : forall n m, (since <= n)%nat -> (since <= m)%nat -> now n < now m + upload_ttl_ms < 2 ^ 63).










End Chunks.
End BlobStoreProgress.

(** ** The properties *)
Section Progress.
Context `{Sha256} `{Uuid} `{Repository : ContentRepository} `{Laws : !ContentRepositoryLaws} `{BlobSettings}.
Context (Hclock : forall n, 0 <= now n < 2 ^ 63).

(** C21: without failures a node starts from every recoverable store: a store that keeps the
    invariant of the reachable ones, whose full uploads have lengths it may declare and,
    unless they began to finalize, their staging file, and whose files with one hash have one
    length.  (A reachable store need not be recoverable: [half_created_blocks_starts].)
    Every full upload is then a declared content with an authentic file of its length; an
    upload in progress that has not expired keeps its session and its staging file as it
    was, bytes behind the acknowledged ones included; and nothing is left that needs work or
    has expired. *)
Theorem recovery_completes_uploads fuel s :
  faults s = [] -> healthy (repository s) -> recoverable (view s) -> (size (sessions (repository s)) < fuel)%nat ->
  exists s' n, open_with_limits fuel s = (Done tt, s')
  /\ (forall id x, sessions (repository s) !! id = Some x -> requires_finalization x = true ->
       exists d f, pending_id (view s) x d /\ contents (repository s') !! d = Some (upload_length x)
       /\ finals s' !! d = Some f /\ sha256 (stored_bytes f) = d /\ stored_length f = upload_length x)
  /\ (forall id x, sessions (repository s) !! id = Some x -> requires_finalization x = false -> has_expired (now n) x = false ->
       sessions (repository s') !! id = Some x /\ staged_at (view s') id = staged_at (view s) id)
  /\ (forall id x, sessions (repository s') !! id = Some x -> requires_finalization x = false /\ has_expired (now n) x = false).
Proof. intros Hf. apply (recovery_completes Hclock 0 fuel s Hf (Nat.le_0_l _)). Qed.

End Progress.
