(* ===== verification/BlobStoreWitnesses.v ===== *)
(** * Witnesses for the blob store

    A store over the tables of [SqliteStore], its clock at one time, whose process ends in
    the middle of a write, and in the middle of a publication. *)
From S2P Require Import Prelude Bytes Crypto Content Samples UploadRepository UploadRepositoryTheory BlobStore.
From S2P Require Import BlobProtocol BlobStoreRuns BlobStoreTheory BlobStoreProgress.

(** ** Identities as text: the digits of their code *)
Fixpoint digits (p : positive) : list Z :=
  match p with xH => [] | xO p => 48 :: digits p | xI p => 49 :: digits p end.
Fixpoint number_of (text : list Z) : positive :=
  match text with [] => xH | 48 :: text => xO (number_of text) | _ :: text => xI (number_of text) end.
Lemma number_of_digits p : number_of (digits p) = p.
Proof. induction p as [p IH|p IH|]; cbn; by rewrite ?IH. Qed.
Lemma digits_ascii p : is_ascii (digits p) = true.
Proof. by induction p as [p IH|p IH|]. Qed.

#[export] Program Instance toy_uuid : Uuid := {|
  uuid_display := fun id => digits (encode id);
  uuid_parse := fun text => decode (number_of text)
|}.
Next Obligation. intros id. cbv beta. rewrite number_of_digits. apply decode_encode. Qed.
Next Obligation.
  intros id. apply valid_utf8_ascii. unfold is_ascii. rewrite forallb_app. apply andb_true_iff.
  split; [apply digits_ascii|done].
Qed.

Definition noon : Z := 1700000000000.
#[export] Instance toy_settings : BlobSettings :=
  {| now := fun _ => noon; max_blob_bytes := DEFAULT_MAX_BLOB_BYTES; upload_ttl_ms := DEFAULT_UPLOAD_TTL_MS |}.

(** ** Runs *)
Definition new_store (faults : list Fault) : BlobStore := mkStore ∅ ∅ ∅ 0 0 ∅ (mkSqlite ∅ ∅ []) faults 0.
Definition toy_id : list Z := [7].
Definition toy_request : CreateUpload := mkCreateUpload 5 None None (Some (str "text/plain")) None.

Definition with_upload (faults : list Fault) : BlobStore :=
  snd (create_upload toy_id toy_request (snd (open_with_limits 2 (new_store faults)))).
Definition with_chunk (faults : list Fault) : BlobStore :=
  snd (append_chunk toy_id 0 [1; 2; 3] (Some (sha256 [1; 2; 3])) (with_upload faults)).
Definition with_content (faults : list Fault) : BlobStore :=
  snd (append_chunk toy_id 3 [4; 5] None (with_chunk faults)).

(** The process ends in the middle of the second write, and before its publication. *)
Definition torn : BlobStore := with_content (replicate 52 Passes ++ [Ends 1]).
Definition unpublished : BlobStore := with_content (replicate 73 Passes ++ [Ends 0]).
Definition reopened (s : BlobStore) : BlobStore := snd (open_with_limits 2 s).

Definition toy_session (offset : Z) : UploadSession :=
  mkSession toy_id 5 offset UploadState.Active None None None (Some (str "text/plain")) None noon (noon + DEFAULT_UPLOAD_TTL_MS).

(** Every store of a run is reachable. *)
Lemma step_reachable s s' : reachable s -> blob_step s s' -> reachable s'.
Proof. intros (s0 & Hu & Hs) Hone. exists s0. split; [done|]. by eapply rtc_r. Qed.
Lemma second_chunk faults : blob_step (with_chunk faults) (with_content faults).
Proof. unfold with_content. generalize (with_chunk faults) as s. intros s. apply run_append. Qed.
Lemma started s : blob_step s (reopened s).
Proof. unfold reopened. apply run_open. Qed.
Lemma chunk_reachable faults :
  upload_sessions (repository (reopened (new_store faults))) !! toy_id = None -> reachable (with_chunk faults).
Proof.
  intros Hnone. unfold with_chunk, with_upload. fold (reopened (new_store faults)).
  assert (reachable (reopened (new_store faults))) as Ho by (eapply step_reachable; [|apply started]; by exists (new_store faults)).
  revert Hnone Ho. generalize (reopened (new_store faults)) as s. intros s Hnone Ho.
  eapply step_reachable; [|apply run_append]. eapply step_reachable; [done|]. by apply run_create.
Qed.
Lemma content_reachable faults :
  upload_sessions (repository (reopened (new_store faults))) !! toy_id = None -> reachable (with_content faults).
Proof. intros Hnone. eapply step_reachable; [by apply chunk_reachable|apply second_chunk]. Qed.
Lemma unpublished_reachable : reachable unpublished.
Proof. apply (content_reachable (replicate 73 Passes ++ [Ends 0])). reflexivity. Qed.

Lemma torn_sessions : upload_sessions (repository (reopened torn)) = {[ toy_id := toy_session 3 ]}.
Proof. reflexivity. Qed.
Lemma unpublished_view :
  view unpublished = mkView {[ staging_name toy_id := [1; 2; 3; 4; 5] ]} ∅
    {[ toy_id := finalizing (toy_session 5) (sha256 [1; 2; 3; 4; 5]) ]} ∅.
Proof. reflexivity. Qed.

Lemma tables_sound (x : UploadSession) : row_fits x = true -> sound_tables (mkSqlite {[ upload_id x := x ]} ∅ []).
Proof. intros Hx. split; [done| |done]. cbn. intros id y [_ <-]%lookup_singleton_Some. done. Qed.
Lemma unpublished_sound : sound_tables (repository unpublished).
Proof.
  assert (repository unpublished = mkSqlite {[ toy_id := finalizing (toy_session 5) (sha256 [1; 2; 3; 4; 5]) ]} ∅ []) as -> by reflexivity.
  by apply (tables_sound (finalizing (toy_session 5) (sha256 [1; 2; 3; 4; 5]))).
Qed.
Lemma unpublished_size : (size (sessions (repository unpublished)) < 2)%nat.
Proof.
  change (sessions (repository unpublished)) with (view_sessions (view unpublished)). rewrite unpublished_view. cbn [view_sessions].
  rewrite map_size_singleton. lia.
Qed.


(** ** Witnesses *)

(** A blob of a run without failures, after the process was started again. *)
Lemma declared_content_is_authentic_witness :
  let s := with_content [] in
  exists f f', finals s !! sha256 [1; 2; 3; 4; 5] = Some f /\ finals (reopened s) !! sha256 [1; 2; 3; 4; 5] = Some f'
  /\ stored_bytes f' = stored_bytes f /\ sha256 (stored_bytes f) = sha256 [1; 2; 3; 4; 5] /\ stored_length f = 5
  /\ contents (repository (reopened s)) !! sha256 [1; 2; 3; 4; 5] = Some 5
  /\ fst (blob (sha256 [1; 2; 3; 4; 5]) (reopened s)) <> Failed BlobStoreError.Corrupt.
Proof.
  apply (declared_content_is_authentic (with_content []) (reopened (with_content []))).
  - apply content_reachable. reflexivity.
  - apply rtc_once, started.
  - reflexivity.
Defined.

(** The acknowledged bytes after a torn write and a new start. *)
Lemma acknowledged_bytes_survive_witness :
  let s := with_chunk (replicate 52 Passes ++ [Ends 1]) in
  exists x', sessions (repository (reopened torn)) !! toy_id = Some x' /\ has_bytes (view (reopened torn)) x' [1; 2; 3].
Proof.
  apply (acknowledged_bytes_survive noon ltac:(intros n; by split) (with_chunk (replicate 52 Passes ++ [Ends 1])) (reopened torn)
    (toy_session 3) [1; 2; 3]).
  - apply chunk_reachable. reflexivity.
  - unfold torn. generalize (replicate 52 Passes ++ [Ends 1]) as faults. intros faults.
    eapply rtc_l; [apply second_chunk|]. apply rtc_once, started.
  - reflexivity.
  - reflexivity.
  - reflexivity.
  - done.
  - done.
Defined.

(** A start after a process that ended between the commitment to an identity and the
    publication of its blob. *)
Lemma unpublished_recoverable : recoverable (view unpublished).
Proof.
  split.
  - apply reachable_ok, unpublished_reachable.
  - rewrite unpublished_view. cbn. intros id x [_ <-]%lookup_singleton_Some. done.
  - rewrite unpublished_view. cbn. intros id x [_ <-]%lookup_singleton_Some. done.
  - rewrite unpublished_view. intros b b' Hb Hb' _. unfold stored_in in *. cbn in *.
    destruct Hb as [[? [_ <-]%lookup_singleton_Some]|[? Hd]]; [|by rewrite lookup_empty in Hd].
    destruct Hb' as [[? [_ <-]%lookup_singleton_Some]|[? Hd]]; [done|by rewrite lookup_empty in Hd].
Qed.
Lemma recovery_completes_uploads_witness :
  exists s' n, open_with_limits 2 unpublished = (Done tt, s')
  /\ (forall id x, sessions (repository unpublished) !! id = Some x -> requires_finalization x = true ->
       exists d f, pending_id (view unpublished) x d /\ contents (repository s') !! d = Some (upload_length x)
       /\ finals s' !! d = Some f /\ sha256 (stored_bytes f) = d /\ stored_length f = upload_length x)
  /\ (forall id x, sessions (repository unpublished) !! id = Some x -> requires_finalization x = false ->
       has_expired (now n) x = false ->
       sessions (repository s') !! id = Some x /\ staged_at (view s') id = staged_at (view unpublished) id)
  /\ (forall id x, sessions (repository s') !! id = Some x -> requires_finalization x = false /\ has_expired (now n) x = false).
Proof.
  apply (recovery_completes_uploads ltac:(intros n; by split) 2 unpublished).
  - reflexivity.
  - apply unpublished_sound.
  - apply unpublished_recoverable.
  - apply unpublished_size.
Defined.


(** An empty upload whose session is stored, but whose creation fails when the database
    reads it back: its file is removed, its session is not, and no later start succeeds. *)
Definition half_created : Outcome UploadSession * BlobStore :=
  create_upload toy_id (mkCreateUpload 0 None None None None)
    (reopened (mkStore ∅ ∅ ∅ 0 0 ∅ (mkSqlite ∅ ∅ [false; false; false; true]) [] 0)).
Lemma half_created_blocks_starts :
  fst half_created = Failed (BlobStoreError.Repository ContentRepositoryError.Unavailable)
  /\ fst (open_with_limits 2 (snd half_created)) = Failed (BlobStoreError.Io IoKind.NotFound)
  /\ fst (open_with_limits 2 (reopened (snd half_created))) = Failed (BlobStoreError.Io IoKind.NotFound).
Proof. split_and!; by_vm. Qed.
